(* ===== verification/_CoqProject ===== *)
-Q . S2P
Prelude.v
Tokens.v
Operations.v
SparseIdx.v
States.v
RandomWalk.v
Transition.v
Relationship.v
Sync.v
Machine.v
Merkle.v
Batch.v
HashChain.v
Policy.v
TokenState.v
VectorClock.v
Sphincs.v
Precommit.v
MTree.v
Devices.v
NodeTypes.v
Digest.v
Engine.v
Float.v
Keys.v
Hexa.v
Topology.v
Metrics.v
Partition.v
Epidemic.v
Reconcile.v
Tasks.v
Routing.v
Health.v
Kyber.v
Pedersen.v
BatchProof.v
Ceremony.v
Recovery.v
Dual.v
TokenReg.v
PolicyStore.v
SIndex.v
Identity.v
StorageCache.v
Wire.v
Crypto.v
Mpc.v
Sdk.v
SdkClients.v
Directory.v
Inbox.v
Checkpoint.v
Vault.v
Smart.v
Staking.v
