(* ===== verification/Prelude.v ===== *)
(** * Verification of the Decentralized State Machine (DSM)

    ** The program

    DSM keeps, for every device, a chain of states.  A state carries a number,
    the hash of its predecessor, an entropy value evolved from the predecessor's,
    sparse back references, the operation that produced it, token balances and,
    in a bilateral relationship, the counterparty's side.  The parts and their
    calls are:

      - [types/] defines the data (errors, operations, tokens and balances,
        states, policies);
      - [core/state_machine/transition.rs] builds the next state and
        [transition.rs]/[transition_fix.rs] verify it; [utils.rs] holds the
        hashing helpers, [random_walk.rs] the position sequences;
      - [core/state_machine/mod.rs] is the machine: it holds the current state
        and calls the transition code and the relationship manager
        ([relationship.rs]); [bilateral.rs] and [sync_manager.rs] coordinate two
        parties, [validation.rs] and [state_projection.rs] check and project
        states, and [core/verification/] verifies transitions and identity claims;
      - identities begin with a genesis ([core/identity/], [genesis.rs] of the
        state machine), own a hierarchy of devices, and are recovered by
        invalidation markers and mnemonic phrases ([recovery/]);
      - [core/state_machine/batch.rs] collects transitions in a sparse Merkle
        tree ([merkle/sparse_merkle_tree.rs]) and [hashchain.rs] stores states
        and drives the batches;
      - [core/token/token_state_manager.rs] computes the balances an operation
        leads to, checks the token's policy ([cpta/policy_verification.rs]) and
        caches balances under a lock;
      - [commitments/precommit.rs] and [smart_commitment.rs] bind future
        operations; [vault/] keeps content locked until a condition is fulfilled;
        both rest on [crypto/] (signatures, key encapsulation, Pedersen
        commitments);
      - the storage node ([dsm_storage_node/src/storage/]) keeps blinded entries in
        engines, orders their replicated updates by vector clocks, compares
        replicas by digests, resolves conflicts, and places keys on nodes by a
        partition ring over a topology of XOR distances; it finds routes to other
        nodes, watches their health and schedules its background tasks;
      - the node's [staking/] pays for storage through vaults of the core;
      - [communication/] exchanges messages over encrypted sessions and publishes
        states and invalidations in a directory; the SDK ([dsm_sdk/src/sdk/]) puts
        the machine, the chain, the tokens, identities and commitments together.

    Paths below are relative to [src/dsm/src] unless they start with
    [dsm_storage_node] or [dsm_sdk].

    ** The files

    The core:
      - [Prelude]: bytes, [DsmError] ([types/error.rs]), the [outcome] of a call
        (value, error, panic or no return), the state monad [M], checked machine
        arithmetic, the interfaces to code outside the repository, tactics, hints
        and shared lemmas.
      - [Tokens]: [types/token_types.rs]; [Supply], [Amount], [Bal] and
        [Registry] are the impl blocks of [TokenSupply], [TokenAmount],
        [Balance] and [TokenRegistry].
      - [Operations]: [types/operations.rs], the [Operation] enum and its traits.
      - [SparseIdx]: the sparse index of [types/state_types.rs] and the other
        index computations of [transition.rs].
      - [States]: [State] and its hash ([types/state_types.rs],
        [core/state_machine/utils.rs], [crypto/blake3.rs]).
      - [RandomWalk]: [core/state_machine/random_walk.rs].
      - [Transition]: [core/state_machine/transition.rs], [transition_fix.rs].
      - [Relationship]: [core/state_machine/relationship.rs]; [Pair] is
        [RelationshipStatePair], [Manager] is [RelationshipManager].
      - [Sync]: the free functions of [relationship.rs] ([Rel]), [validation.rs]
        ([Valid]), [state_projection.rs] ([Proj]), [sync_manager.rs] ([Sync]) and
        [bilateral.rs] ([Bilat]).
      - [Machine]: [core/state_machine/mod.rs].
      - [Merkle]: [merkle/sparse_merkle_tree.rs] ([SMT]) and the Merkle types of
        [types/state_types.rs] ([Plain], [SerProof]); [MTree]: [merkle/tree.rs].
      - [Batch]: [core/state_machine/batch.rs]; [Batch] is [StateBatch],
        [Builder] is [BatchBuilder], [BM] is [BatchManager], [ProofCodec] the
        proof serialisation.
      - [HashChain]: [core/state_machine/hashchain.rs]; [HC] is [HashChain],
        [ChainMerkle] the Merkle proof of that file.
      - [BatchProof]: [core/state_machine/batch_proof.rs]; [BTP] is
        [BatchTransitionProof], [PG] is [BatchProofGenerator].
      - [Checkpoint]: [core/state_machine/checkpoint.rs] ([Ckpt]) and the separate
        [State] of [core/state_machine/state.rs] ([CSt]).
      - [Policy]: [types/policy_types.rs], [cpta/policy_verification.rs].
      - [TokenState]: [core/token/token_state_manager.rs]; [Tok] is [Token] of
        [types/token_types.rs], [TM] is [TokenStateManager].
      - [Dual]: [core/verification/] ([DualV], [IdV]), deterministic entropy
        ([Ent]) and the deterministic and external commitments ([Det], [Ext]).
      - [TokenReg]: [core/token/token_registry.rs] ([Reg]) and
        [token_factory.rs] ([Factory]); [PolicyStore]: [cpta/policy_store.rs]
        ([PStore]) and the default policies ([Defaults]).
      - [SIndex]: [core/index/mod.rs] ([SIM]); [StorageCache]:
        [communication/storage_cache.rs] ([Cache], [SC]).
      - [Wire]: [communication/protocol/mod.rs] ([Msg]), [crypto_net.rs] ([Net];
        the trait [CryptoProvider] as a class with the law [ProviderOpens] and the
        instance [kyber_provider]) and [protocol/dsm_protocol.rs] ([Session], over
        any provider); [Directory]:
        [communication/directory.rs], the client ([Client]), the network
        interface it implements ([NetI]) and the service ([Dir]).
      - [Inbox]: [unilateral/mod.rs]; the trait [InboxStorage] as a class with its
        instances in memory ([MemInbox]) and on disk ([FileInbox], over [Fs]);
        [InboxLaws] is what they promise to sending and processing ([Uni]).
      - [Sdk]: [dsm_sdk/src/sdk/]; [ChainSDK] is [hashchain_sdk.rs], [Core]
        [core_sdk.rs] and [TokSDK] [token_sdk.rs]; [SdkClients]: [IdSDK] is
        [identity_sdk.rs], [ScSDK] [smart_commitment_sdk.rs] and [Contacts]
        [contact_sdk.rs].

    Identities:
      - [Devices]: [core/identity/hierarchical_device_management.rs]; [Identity]:
        [core/identity/genesis.rs] and [mod.rs]; [Ceremony]: the genesis ceremony of
        [core/state_machine/genesis.rs] ([Genesis]) and [types/state_builder.rs]
        ([SBuilder]); [Recovery]: [recovery/] ([Marker] invalidation, [Mnemo]
        mnemonics); [Mpc]: [crypto_verification/] ([Mpc] identities by several
        parties, [Binding] device bindings).

    Cryptography, commitments and vaults:
      - [Sphincs], [Kyber], [Pedersen]: the files of those names in [crypto/];
        [Crypto]: [mod.rs] ([Box]), [signatures.rs] ([Sig]), [rng.rs] ([Rng]),
        [sha3.rs] ([Shake]), [hash.rs] ([Hash]) and [random_walk_privacy.rs]
        ([Walk]).
      - [Precommit]: [commitments/precommit.rs] ([PC] pre-commitments with forks,
        [FLC] forward-linked commitments) and [parameter_comparison.rs].
      - [Smart]: [commitments/smart_commitment.rs]; [Cx] is the context, [SC] the
        commitment and its registry.
      - [Vault]: [vault/limbo_vault.rs] ([LV]; [Det] is the deterministic
        wrapper), [dlv_manager.rs] ([DLV]) and [asset_manager.rs] ([Assets]).

    The storage node:
      - [NodeTypes]: [StorageNodeError], entries and the iteration order of maps.
      - [VectorClock], [Digest], [Reconcile], [Topology], [Partition]: the files
        of [dsm_storage_node/src/storage/] with those subjects.
      - [Engine]: the trait [StorageEngine] as a class with its memory and
        distributed instances; [EngineLaws] is what a local engine promises to the
        distributed one.  [Epidemic] is the third instance.
      - [Tasks]: [storage/tasks.rs], the scheduler as a step relation; [Routing]:
        [storage/routing.rs], the table ([Route]) and the [Router]; [Health]:
        [storage/health.rs], the statistics of a node ([NHealth]) and the monitor.
      - [Staking]: [dsm_storage_node/src/staking/]; [Sub] subscriptions, [Rew]
        rewards, [Service] the service over both.
      - [Metrics]: [storage/metrics.rs]; [Hist] latency histograms, [OpM] and [KeyM]
        the metrics of operations and keys, [Coll] the collector.
      - [Float]: binary64 by [SpecFloat]; [Keys]: the stable sort and big-endian
        numbers; [Hexa]: the hex crate as an interface.

    ** How the code is rendered

    A method that takes [&mut self] is a function in [M] (in the node, [NM]): it
    returns an [outcome] together with the object after the call, so that what an
    error leaves behind is visible.  [Err] is a [DsmError] (a [StorageNodeError]),
    [Panic] an unwinding panic, [Hang] a call that never returns.  Machine integers
    are [Z]; every addition, subtraction and shift of the source goes through a
    checked operation that panics, because both build profiles set
    [overflow-checks = true]; atomics wrap.  Floating point amounts and loads are
    computed with the IEEE operations on binary64.

    Code outside the repository is an interface: [Blake3] (a 32-byte digest),
    [Bincode] and [Unbincode] (partial serialisers), [Runtime] (the clock and the
    name of the running thread), [Mlkem] (a correct key encapsulation mechanism of
    fixed sizes), [Aead], [XChaCha], [Argon2], [Bip39], [Sha3], [PrimeTest], [Rng],
    [InboxJson], [ChaCha20Rng], [Chacha], [PolicyJson], [Chrono], [Libm], [Hex], [DebugStr],
    [NetworkClient], [DsmNode], and [DashOrder] and [SeqOrder] (the iteration of a
    map or set is some enumeration of it).
    Random bytes are arguments.  Theorems are proved against the interfaces; each
    witness instantiates them with concrete functions.  Security statements are
    reductions: the property holds or the inputs that the calls of the statement
    hash, given as a list, contain a [collision].  That some inputs collide would
    be provable by counting; that these do is decidable, and the witnesses of C2, C3
    and C18 refute it by computation.  Traits of the source with several implementations are classes
    with laws too: [StorageEngine], [InboxStorage], [CryptoProvider].

    Conventions: error messages are the literal format strings, without the
    interpolated values, and boxed source errors are dropped; one call reads the
    clock at one instant; a [HashMap] that is hashed or serialised in its iteration
    order is an association list, or is enumerated through [DashOrder]; one that is
    only looked up is a [gmap]; feeding a hasher piecewise is hashing the
    concatenation; a parking_lot lock is not reentrant, so that taking it twice is
    [Hang]; a vault sits in a cell that remembers whether its mutex was poisoned by
    a panic; a tokio lock waits, so that a task that awaits a guard it holds itself
    is [Hang]; a std lock is poisoned by a panic; strings are byte strings.  What the
    disk and the transport do is an argument of each call, and so are the replies of
    the endpoints and the tokio runtime a directory call finds ([Directory.Env]); the tasks a session
    spawns are kept in the session.  Background tasks are their single turns
    ([monitor_tick], [ping_tick]) or a step relation over all interleavings
    ([Reconcile.Proc.step], [Tasks.Sched.step]); histories of calls are folds over a
    type of commands, failed calls included.

    ** Loops and fuel

    The loops over powers of two (sparse indices, sparse checkpoints) get 65 turns:
    the shift panics at 64.  The backward walk of [get_state_by_number] gets the
    number of stored states plus two; running out is [Hang], since then the walk
    repeats a state and the source loops for ever; on canonical chains it is
    proved to return.  Merkle loops run one turn per level of the tree.
    [ceil_log2] stands for the floating-point height computation, which is exact
    for lengths below 2^47.  [verify_chain] recurs on the current number.  The
    digest's Merkle recursion has fuel and C39 characterises when any amount is
    enough.  [ChainSDK.collect] walks the numbers of the chain and gets the current
    number plus two; [Session.prune] gets the size of the set it empties.
    [Kyber.derive_loop] and [Crypto.Rng.mix_loop] get as many turns as bytes are
    asked for, proved enough ([derivation_terminates], [mixed_entropy_exact]).  A
    directory client asks each endpoint at most four times.  The search for routes gets one turn per node
    that can be queued, proved enough in C15.  The searches for primes and generators in
    [Pedersen] take fuel and a stream of draws as arguments, because they are
    probabilistic.

    ** What is shown

    - The chain: every run of the machine gives a chain that its own verifier
      accepts (C1); a chain that verifies binds all its states to the last hash
      (C2); what the dual-mode verifier accepts has the number, hash, entropy,
      balances and signatures it should have (C36); sparse indices reach every state in logarithmically many steps (C9) and the index manager
      finds every state (C35).
    - Batches and Merkle trees: insertion is that of the ideal tree (C4), proofs
      are complete (C7) and sound (C3, C18), the hash chain keeps its invariant
      under every call (C5), committing a batch extends it (C6), and batches go
      through their life cycle with fresh numbers (C8).
    - Tokens: everything that any calls can do to a token manager, which never
      returns from an operation it accepts (C11); in the SDK the circulating
      ROOT supply is conserved for known senders and only for them (C32), and a
      transfer is described on every branch, refusals and overflow included (C37).
    - Identities and commitments: the device hierarchy keeps its invariant (C17),
      genesis states verify (C22), one fork of a pre-commitment is selected and a
      failing clock is all that can interrupt it (C24),
      forward commitments are created, signed and embedded (C25), fulfilment of a
      vault decides its specification (C30), and vaults move only forward (C38).
    - Communication: the message format is exact (C34), two sessions in step
      deliver what is sent, in order (C33), hybrid encryption round-trips (C10),
      an invalidation in the directory is permanent (C23), and unilateral
      transactions are delivered exactly once over every storage of inboxes (C40).
    - The SDK: the core refines a list of states (C31).
    - The storage node: vector clocks decide causality (C12); the distributed
      engine refines a history of writes (C13) and the memory engine is a map
      within its limits (C21); topology (C14, C20), routes (C15), partitions (C19,
      C26), the scheduler (C16, C27), reconciliation (C28, C29) and digests (C39).

    The other theorems of each file describe its operations, including what they
    do not do: proofs that never verify, state that an error leaves behind, locks
    that deadlock.

    ** Not modelled

    Input and output: transports, TLS, Bluetooth and NFC, HTTP handlers, the SQL
    engine, the files other than those of the policy store and the inbox, command
    line programs, log output.  The other clients of the SDK, the Ethereum bridge,
    examples and benchmarks wrap modelled calls or external services.
    [core/security/] and [unilateral/inbox.rs] read fields that [State] does not
    declare, so that they have no meaning to translate; [metrics_fixed.rs] and
    [metrics_new.rs] are included by no module.  The metrics of the SDK are
    counters that nothing reads back. *)
From stdpp Require Export base gmap strings list sorting pretty fin_maps.
From Stdlib Require Export ZArith Lia.
From Stdlib Require Import Ascii.
From coqutil Require Byte Word.LittleEndianList.
Import coqutil.Byte.

#[global] Open Scope Z_scope.

(** ** Bytes and strings *)

Abbreviation u8 := Byte.byte.
Abbreviation bytes := (list Byte.byte).

#[global] Instance u8_eq_dec : EqDecision u8 := Byte.byte_eq_dec.

(** [String::as_bytes] *)
Definition str_bytes (s : string) : bytes := String.list_byte_of_string s.

(** [u64::to_le_bytes], [u64::from_le_bytes], [u32::from_le_bytes]. *)
Definition le_bytes (n : nat) (z : Z) : bytes := LittleEndianList.le_split n z.
Definition of_le_bytes (b : bytes) : Z := LittleEndianList.le_combine b.
Abbreviation u64_le := (le_bytes 8).
(** [u64::to_be_bytes] *)
Definition u64_be (z : Z) : bytes := rev (u64_le z).

(** [vec![0u8; n]] *)
Definition zeros (n : nat) : bytes := replicate n Byte.x00.

(** [str::contains] for a literal needle. *)
Definition str_contains (needle hay : string) : bool :=
  match String.index 0 needle hay with Some _ => true | None => false end.

(** ** Errors *)

(** [DsmError] (dsm/src/types/error.rs).  A message is kept as the literal
    (format) string of the source, values interpolated by [format!] are not
    expanded, and the boxed [source] error is dropped. *)
Inductive DsmError : Type :=
  | ECrypto (context : string)
  | EIntegrity (context : string)
  | EInvalidPublicKey
  | EInvalidSecretKey
  | EStorage (context : string)
  | ENetwork (context entity : string) (details : option string)
  | EInvalidKeyLength
  | EStateMachine (msg : string)
  | ENotFound (entity : string) (details : option string)
  | EInternal (context : string)
  | EValidation (context : string)
  | EInvalidParameter (msg : string)
  | ESerialization (context : string)
  | EVerification (msg : string)
  | EState (msg : string)
  | EMerkle (msg : string)
  | EHashChain (msg : string)
  | ETransaction (msg : string)
  | EPreCommitment (msg : string)
  | EGenesis (msg : string)
  | EDeviceHierarchy (msg : string)
  | EForwardCommitment (msg : string)
  | ERelationship (msg : string)
  | EExternalCommitment (msg : string)
  | EIdentity (msg : string)
  | EInvalidCiphertext
  | ELockError
  | EGeneric (msg : string)
  | EInvalidIndex
  | EInvalidOperation (msg : string)
  | ESystemError (msg : string)
  | ETokenError (context : string)
  | EInvalidToken (context : string)
  | EUnauthorized (context : string)
  | EInsufficientBalance (token_id : string) (available requested : Z)
  | EFeatureNotAvailable (feature : string) (details : option string)
  | EPolicyViolation (token_id msg : string).

(** [DsmError::batch] (dsm/src/core/state_machine/batch.rs) *)
Definition batch_error (msg : string) : DsmError := EGeneric ("Batch error: " +:+ msg).

(** ** Outcomes

    A call of the program returns a value ([Ok]), returns [Err], panics, or
    never returns ([Hang]: a lock taken twice by its holder).  The workspace
    builds every profile with [overflow-checks = true], so an overflowing
    operation is a panic. *)
Inductive outcome_of (E A : Type) : Type :=
  | Ok (a : A)
  | Err (e : E)
  | Panic
  | Hang.
Arguments Ok {E A} _.
Arguments Err {E A} _.
Arguments Panic {E A}.
Arguments Hang {E A}.

(** The calls of the dsm crate return [DsmError]. *)
Abbreviation outcome := (outcome_of DsmError).

#[global] Instance outcome_ret {E} : MRet (outcome_of E) := fun A => @Ok E A.
#[global] Instance outcome_bind {E} : MBind (outcome_of E) := fun A B f m =>
  match m with Ok a => f a | Err e => Err e | Panic => Panic | Hang => Hang end.
#[global] Instance outcome_fmap {E} : FMap (outcome_of E) := fun A B f m =>
  match m with Ok a => Ok (f a) | Err e => Err e | Panic => Panic | Hang => Hang end.

(** [opt.ok_or_else(|| e)] *)
Definition ok_or {E A} (e : E) (o : option A) : outcome_of E A :=
  match o with Some a => Ok a | None => Err e end.

(** [opt.unwrap()] *)
Definition unwrap {E A} (o : option A) : outcome_of E A :=
  match o with Some a => Ok a | None => Panic end.

Definition is_ok {E A} (m : outcome_of E A) : bool :=
  match m with Ok _ => true | _ => false end.

(** ** The state of an [&mut self] method

    The state after a call is kept on every outcome, since a method that
    returns [Err] keeps the writes it made before. *)
Definition M_of (E S A : Type) : Type := S → outcome_of E A * S.
Abbreviation M := (M_of DsmError).

Definition mret_st {E S A} (a : A) : M_of E S A := fun s => (Ok a, s).
Definition mbind_st {E S A B} (m : M_of E S A) (f : A → M_of E S B) : M_of E S B := fun s =>
  match m s with
  | (Ok a, s') => f a s'
  | (Err e, s') => (Err e, s')
  | (Panic, s') => (Panic, s')
  | (Hang, s') => (Hang, s')
  end.
Definition mget {E S} : M_of E S S := fun s => (Ok s, s).
Definition mput {E S} (s : S) : M_of E S unit := fun _ => (Ok tt, s).
Definition mmod {E S} (f : S → S) : M_of E S unit := fun s => (Ok tt, f s).
Definition mlift {E S A} (o : outcome_of E A) : M_of E S A := fun s => (o, s).
Definition mfail {E S A} (e : E) : M_of E S A := fun s => (Err e, s).

Declare Scope dsm_scope.
Delimit Scope dsm_scope with dsm.
Notation "'let*' x ':=' m 'in' k" := (mbind_st m (fun x => k))
  (at level 10, x pattern, m at level 100, k at level 200) : dsm_scope.
Notation "'do*' m ';' k" := (mbind_st m (fun _ => k))
  (at level 10, m at level 100, k at level 200) : dsm_scope.
#[global] Open Scope dsm_scope.

(** ** Machine integers *)

Definition u64_max : Z := 2 ^ 64 - 1.
Definition u64_ok (n : Z) : Prop := 0 ≤ n ≤ u64_max.

(** [a + b], [a - b], [a * b] on u64 with overflow checks. *)
Definition u64_add (a b : Z) : outcome Z :=
  if a + b <=? u64_max then Ok (a + b) else Panic.
Definition u64_sub (a b : Z) : outcome Z :=
  if b <=? a then Ok (a - b) else Panic.
Definition u64_mul (a b : Z) : outcome Z :=
  if a * b <=? u64_max then Ok (a * b) else Panic.
Definition saturating_add (a b : Z) : Z := Z.min (a + b) u64_max.
Definition saturating_sub (a b : Z) : Z := Z.max (a - b) 0.
Definition checked_add (a b : Z) : option Z :=
  if a + b <=? u64_max then Some (a + b) else None.
(** [1u64 << power]: the shift amount is checked, not the shifted bits. *)
Definition u64_shl1 (power : Z) : outcome Z :=
  if power <? 64 then Ok (Z.shiftl 1 power) else Panic.

(** [#[derive(Default)]] and [unwrap_or_default] on byte vectors. *)
Definition unwrap_or {A} (d : A) (o : option A) : A :=
  match o with Some a => a | None => d end.

(** ** Externals

    What the code calls and this repository does not define: the BLAKE3 hash,
    the bincode encoder of a serde type, the wall clock and the name of the
    running thread. *)
Class Blake3 := {
  blake3 : bytes → bytes;
  blake3_length : ∀ m, length (blake3 m) = 32%nat;
}.

(** Two different inputs among [l] with the same digest.  The list always holds
    the inputs that the calls of a statement hash: that there are some inputs that
    collide is no information, that these do is. *)
Definition collision (f : bytes → bytes) (l : list bytes) : Prop := ∃ x y, x ∈ l ∧ y ∈ l ∧ x ≠ y ∧ f x = f y.

Lemma collision_Exists f l : collision f l ↔ Exists (fun x => Exists (fun y => x ≠ y ∧ f x = f y) l) l.
Proof. unfold collision. rewrite list.Exists_exists. setoid_rewrite list.Exists_exists. naive_solver. Qed.

#[global] Instance collision_dec f l : Decision (collision f l).
Proof. refine (cast_if (decide (Exists (fun x => Exists (fun y => x ≠ y ∧ f x = f y) l) l))); by rewrite collision_Exists. Defined.

Lemma collision_mono f l l' : l ⊆ l' → collision f l → collision f l'.
Proof. intros Hl (x & y & Hx & Hy & H). exists x, y. split; [by apply Hl|]. split; [by apply Hl|done]. Qed.

(** Equal digests come from equal inputs or from a collision of the two. *)
Lemma hash_bind f x y : f x = f y → x = y ∨ collision f [x; y].
Proof.
  intros H. destruct (decide (x = y)) as [E|E]; [by left|right]. exists x, y. split_and!; [..|done|done]; repeat constructor.
Qed.

Lemma blake3_nonempty `{Blake3} m : blake3 m ≠ [].
Proof. intros E. pose proof (blake3_length m) as H'. by rewrite E in H'. Qed.

Class Bincode (T : Type) := serialize : T → option bytes.

(** bincode's encoder fails only on a size limit or a sequence of unknown
    length, which the derived [Serialize] instances used here never have. *)
Class BincodeTotal (T : Type) {B : Bincode T} : Prop :=
  bincode_total : ∀ x, is_Some (serialize x).

(** bincode's decoder. *)
Class Unbincode (T : Type) := deserialize : bytes → option T.

Class Runtime := {
  now : Z; (* SystemTime::now() as seconds since the epoch, 0 before it *)
  thread_name : option string;
}.

(** [bincode::serialize(x).map_err(|e| DsmError::serialization(msg, Some(e)))?] *)
Definition serialize_or {T} `{Bincode T} (msg : string) (x : T) : outcome bytes :=
  ok_or (ESerialization msg) (serialize x).

(** The benchmark test of transition.rs and transition_fix.rs:
    the running thread has "bench" or "criterion" in its name. *)
Definition bench_thread `{Runtime} : bool :=
  match thread_name with
  | Some name => str_contains "bench" name || str_contains "criterion" name
  | None => false
  end.

(** ** Sorting

    [Vec::sort] on u64 and [sort_by] on string keys.  The keys of a map are
    distinct, so stability does not matter. *)
Definition sort_u64 (l : list Z) : list Z := merge_sort Z.le l.

(** [Vec::dedup]: drop an element equal to its predecessor. *)
Fixpoint dedup (l : list Z) : list Z :=
  match l with
  | x :: ((y :: _) as tl) => if x =? y then dedup tl else x :: dedup tl
  | _ => l
  end.

Definition key_le {A} (p q : string * A) : Prop := String.le p.1 q.1.
#[global] Instance key_le_dec {A} : RelDecision (@key_le A).
Proof. intros p q. unfold key_le. apply String.le_dec. Defined.
#[global] Instance key_le_total {A} : Total (@key_le A).
Proof. intros p q. unfold key_le. apply String.le_total. Qed.
#[global] Instance key_le_trans {A} : Transitive (@key_le A).
Proof. intros p q r. unfold key_le. apply String.le_po. Qed.

Definition sort_by_key {A} (l : list (string * A)) : list (string * A) :=
  merge_sort key_le l.
Definition sort_strings (l : list string) : list string := merge_sort String.le l.

(** ** Tactics and hints *)

Create HintDb dsm discriminated.
Create Rewrite HintDb dsm.

(** Open a bind or a match of outcomes found in a hypothesis. *)
Ltac outcome_inv :=
  repeat match goal with
  | H : Ok _ = Ok _ |- _ => injection H as H
  | H : Ok _ = Err _ |- _ => discriminate H
  | H : Ok _ = Panic |- _ => discriminate H
  | H : Ok _ = Hang |- _ => discriminate H
  | H : Err _ = Ok _ |- _ => discriminate H
  | H : Panic = Ok _ |- _ => discriminate H
  | H : Hang = Ok _ |- _ => discriminate H
  | H : context [mbind _ ?m] |- _ =>
      let E := fresh "E" in destruct m eqn:E; cbn [mbind outcome_bind] in H
  end.

(** Case on the innermost test of a goal or hypothesis. *)
Ltac case_test :=
  match goal with
  | |- context [if ?b then _ else _] => destruct b eqn:?
  | H : context [if ?b then _ else _] |- _ => destruct b eqn:?
  end.

(** Boolean comparisons on Z as propositions. *)
Ltac zbool :=
  repeat match goal with
  | H : (_ <=? _) = true |- _ => apply Z.leb_le in H
  | H : (_ <=? _) = false |- _ => apply Z.leb_gt in H
  | H : (_ <? _) = true |- _ => apply Z.ltb_lt in H
  | H : (_ <? _) = false |- _ => apply Z.ltb_ge in H
  | H : (_ =? _) = true |- _ => apply Z.eqb_eq in H
  | H : (_ =? _) = false |- _ => apply Z.eqb_neq in H
  | H : _ && _ = true |- _ => apply andb_true_iff in H as [? ?]
  | H : _ || _ = false |- _ => apply orb_false_iff in H as [? ?]
  | H : negb _ = true |- _ => apply negb_true_iff in H
  | H : negb _ = false |- _ => apply negb_false_iff in H
  end.

(** ** Lemmas: outcomes *)

Lemma bind_Ok {E A B} (m : outcome_of E A) (f : A → outcome_of E B) b :
  m ≫= f = Ok b ↔ ∃ a, m = Ok a ∧ f a = Ok b.
Proof. destruct m; cbn; naive_solver. Qed.

Lemma Ok_inj {E A} (a b : A) : @Ok E A a = Ok b → a = b.
Proof. congruence. Qed.

Lemma ok_or_Ok {E A} (e : E) (o : option A) a : ok_or e o = Ok a ↔ o = Some a.
Proof. destruct o; cbn; naive_solver. Qed.

Lemma serialize_or_total {T} `{BincodeTotal T} msg (x : T) :
  ∃ b, serialize x = Some b ∧ serialize_or msg x = Ok b.
Proof. destruct (bincode_total x) as [b Hb]. exists b. unfold serialize_or. by rewrite Hb. Qed.

Lemma u64_add_Ok a b c : u64_add a b = Ok c ↔ c = a + b ∧ a + b ≤ u64_max.
Proof. unfold u64_add. case_test; zbool; naive_solver lia. Qed.

Lemma u64_sub_Ok a b c : u64_sub a b = Ok c ↔ c = a - b ∧ b ≤ a.
Proof. unfold u64_sub. case_test; zbool; naive_solver lia. Qed.

(** ** Lemmas: bytes *)

Lemma str_bytes_app (a b : string) : str_bytes (a +:+ b) = str_bytes a ++ str_bytes b.
Proof. unfold str_bytes. induction a as [|c a IH]; [done|]. exact (f_equal (cons (Ascii.byte_of_ascii c)) IH). Qed.

Lemma length_le_bytes n z : length (le_bytes n z) = n.
Proof. apply LittleEndianList.length_le_split. Qed.

Lemma of_le_bytes_le_bytes n z : of_le_bytes (le_bytes n z) = z mod 2 ^ (Z.of_nat n * 8).
Proof. apply LittleEndianList.le_combine_split. Qed.

Lemma u64_le_inj a b : u64_ok a → u64_ok b → u64_le a = u64_le b → a = b.
Proof.
  unfold u64_ok, u64_max. intros Ha Hb Heq. apply (f_equal of_le_bytes) in Heq.
  rewrite !of_le_bytes_le_bytes in Heq. change (2 ^ (Z.of_nat 8 * 8)) with (2 ^ 64) in Heq.
  rewrite !Z.mod_small in Heq by lia. done.
Qed.

Lemma of_le_bytes_bound b : 0 ≤ of_le_bytes b < 2 ^ (8 * Z.of_nat (length b)).
Proof. apply LittleEndianList.le_combine_bound. Qed.

(** ** Lemmas: sorting *)

Lemma elem_of_sort_u64 x l : x ∈ sort_u64 l ↔ x ∈ l.
Proof. unfold sort_u64. by rewrite (merge_sort_Permutation Z.le l). Qed.

Lemma sort_u64_sorted l : Sorted Z.le (sort_u64 l).
Proof. apply Sorted_merge_sort, _. Qed.

Lemma dedup_cons2 y z l :
  dedup (y :: z :: l) = if y =? z then dedup (z :: l) else y :: dedup (z :: l).
Proof. done. Qed.

Lemma elem_of_dedup x l : x ∈ dedup l ↔ x ∈ l.
Proof.
  induction l as [|y [|z l] IH]; [done..|]. rewrite dedup_cons2.
  destruct (y =? z) eqn:E; zbool.
  - subst. rewrite IH. set_solver.
  - rewrite !(elem_of_cons _ _ y), IH. done.
Qed.

(** A sorted list is strictly sorted after [dedup]. *)
Lemma dedup_sorted l : Sorted Z.le l → StronglySorted Z.lt (dedup l).
Proof.
  intros Hs%Sorted_StronglySorted; [|apply _].
  induction l as [|y [|z l] IH]; [constructor|repeat constructor|].
  inversion_clear Hs as [|? ? Hs' Hall]. specialize (IH Hs'). rewrite dedup_cons2.
  destruct (y =? z) eqn:E; zbool; [done|]. constructor; [done|].
  apply Forall_forall. intros x Hx. rewrite elem_of_dedup in Hx. rewrite Forall_forall in Hall.
  pose proof (Hall z ltac:(set_solver)). apply elem_of_cons in Hx as [->|Hx]; [lia|].
  inversion_clear Hs' as [|? ? _ Hall']. rewrite Forall_forall in Hall'.
  specialize (Hall' x Hx). lia.
Qed.

Lemma NoDup_fst_inj {A} (l : list (string * A)) p q :
  NoDup l.*1 → p ∈ l → q ∈ l → p.1 = q.1 → p = q.
Proof.
  induction l as [|r l IH]; [by intros _ ?%elem_of_nil|].
  rewrite fmap_cons. intros [Hr Hnd]%NoDup_cons [->|Hp]%elem_of_cons [->|Hq]%elem_of_cons Heq;
    [done|..|by apply IH].
  - exfalso. apply Hr. rewrite Heq. by apply list_elem_of_fmap_2.
  - exfalso. apply Hr. rewrite <- Heq. by apply list_elem_of_fmap_2.
Qed.

Lemma sorted_key_unique {A} (l1 l2 : list (string * A)) :
  StronglySorted key_le l1 → StronglySorted key_le l2 → NoDup l1.*1 → l1 ≡ₚ l2 → l1 = l2.
Proof.
  revert l2. induction l1 as [|x l1 IH]; intros l2 Hs1 Hs2 Hnd Hp.
  - by apply Permutation_nil_l.
  - destruct l2 as [|y l2]; [by apply Permutation_nil_r in Hp|].
    assert (x = y) as <-.
    { inversion_clear Hs1 as [|? ? _ Hx]. inversion_clear Hs2 as [|? ? _ Hy].
      rewrite Forall_forall in Hx, Hy.
      assert (Hxin : x ∈ y :: l2) by (rewrite <- Hp; set_solver).
      assert (Hyin : y ∈ x :: l1) by (rewrite Hp; set_solver).
      apply (NoDup_fst_inj (x :: l1)); [done|set_solver|done|].
      apply elem_of_cons in Hxin as [->|Hxin]; [done|].
      apply elem_of_cons in Hyin as [->|Hyin]; [done|].
      apply (anti_symm String.le); [by apply (Hx y)|by apply (Hy x)]. }
    f_equal. rewrite fmap_cons in Hnd. apply NoDup_cons in Hnd as [_ Hnd].
    apply IH; [by inversion_clear Hs1|by inversion_clear Hs2|done|by apply Permutation_cons_inv in Hp].
Qed.

(** Sorting by key forgets the iteration order of a map. *)
Lemma sort_by_key_perm {A} (l1 l2 : list (string * A)) :
  NoDup l1.*1 → l1 ≡ₚ l2 → sort_by_key l1 = sort_by_key l2.
Proof.
  intros Hnd Hp. unfold sort_by_key.
  apply sorted_key_unique; [by apply (StronglySorted_merge_sort key_le)..| |].
  - by rewrite (merge_sort_Permutation key_le l1).
  - by rewrite (merge_sort_Permutation key_le l1), (merge_sort_Permutation key_le l2).
Qed.

(** What a sorted prefix leaves out follows everything it keeps. *)
Lemma sorted_take_drop {A} (R : relation A) n l x y : StronglySorted R l → x ∈ take n l → y ∈ drop n l → R x y.
Proof.
  intros Hl. revert n. induction Hl as [|a l Hl IH Ha]; intros [|n]; simpl; try set_solver.
  rewrite Forall_forall in Ha. intros [->|Hx]%elem_of_cons Hy; [|by eapply IH].
  apply Ha. rewrite <-(take_drop n l). set_solver.
Qed.

#[export] Hint Rewrite @length_le_bytes @elem_of_sort_u64 @elem_of_dedup : dsm.
#[export] Hint Resolve sort_u64_sorted blake3_length : dsm.

(** ** Concrete externals for the witnesses

    A polynomial checksum of 32 bytes in the place of BLAKE3 and a fixed clock;
    the codecs are given where their types are declared. *)
Module Toy.

Definition checksum (m : bytes) : Z :=
  fold_left (fun acc b => (acc * 257 + byte.unsigned b + 1) mod 2 ^ 256) m 0.

Lemma checksum_length m : length (le_bytes 32 (checksum m)) = 32%nat.
Proof. apply length_le_bytes. Qed.

Definition toy_blake3 : Blake3 :=
  {| blake3 m := le_bytes 32 (checksum m); blake3_length := checksum_length |}.

Definition toy_runtime : Runtime := {| now := 1700000000; thread_name := Some "main"%string |}.

End Toy.
