(* ===== verification/Tokens.v ===== *)
(** * Token values (dsm/src/types/token_types.rs)

    Amounts, balances with a locked part, supplies with limits and the token
    registry.  Values are u64 and kept as [Z] with their range in the
    invariants [Registry.wf] and [Bal.wf]. *)
From S2P Require Import Prelude.

Inductive TokenType := Native | Created | Restricted | Wrapped.

(** ** [TokenSupply] *)

Record TokenSupply := mkSupply {
  total_supply : Z;
  circulating_supply : Z;
  max_supply : option Z;
  min_supply : option Z;
}.

Module Supply.

Definition new (total : Z) : TokenSupply :=
  mkSupply total total (Some total) (Some 0).

Definition with_limits (total : Z) (max min : option Z) : TokenSupply :=
  mkSupply total total max min.

Definition is_valid_supply_change (s : TokenSupply) (amount : Z) (is_addition : bool) : bool :=
  if is_addition then
    let new_supply := saturating_add (circulating_supply s) amount in
    match max_supply s with
    | Some max => if max <? new_supply then false else true
    | None => true
    end
  else
    if circulating_supply s <? amount then false
    else
      let new_supply := circulating_supply s - amount in
      match min_supply s with
      | Some min => if new_supply <? min then false else true
      | None => true
      end.

Definition set_circulating (c : Z) (s : TokenSupply) : TokenSupply :=
  mkSupply (total_supply s) c (max_supply s) (min_supply s).

(** The circulating supply is a u64 within its limits. *)
Definition wf (s : TokenSupply) : Prop :=
  u64_ok (circulating_supply s) ∧
  (∀ m, max_supply s = Some m → circulating_supply s ≤ m) ∧
  (∀ m, min_supply s = Some m → m ≤ circulating_supply s).

End Supply.

(** ** [TokenAmount] *)

Record TokenAmount := mkAmount { amount_value : Z }.

Module Amount.

Definition checked_add (a b : TokenAmount) : option TokenAmount :=
  mkAmount <$> Prelude.checked_add (amount_value a) (amount_value b).
Definition checked_sub (a b : TokenAmount) : option TokenAmount :=
  if amount_value a <? amount_value b then None
  else Some (mkAmount (amount_value a - amount_value b)).
Definition saturating_add (a b : TokenAmount) : TokenAmount :=
  mkAmount (Prelude.saturating_add (amount_value a) (amount_value b)).
Definition saturating_sub (a b : TokenAmount) : TokenAmount :=
  mkAmount (Prelude.saturating_sub (amount_value a) (amount_value b)).
Definition wf (a : TokenAmount) : Prop := u64_ok (amount_value a).

End Amount.

Definition validate_supply_change (s : TokenSupply) (amount : TokenAmount) (is_mint : bool) : bool :=
  if is_mint then
    let new_supply := saturating_add (circulating_supply s) (amount_value amount) in
    match max_supply s with
    | Some max => if max <? new_supply then false else true
    | None => true
    end
  else
    if circulating_supply s <? amount_value amount then false
    else
      let new_supply := circulating_supply s - amount_value amount in
      match min_supply s with
      | Some min => if new_supply <? min then false else true
      | None => true
      end.

(** ** [Balance] *)

Record Balance := mkBalance {
  bal_value : Z;
  bal_locked : Z;
  bal_last_updated : Z;
  bal_state_hash : option bytes;
}.

#[global] Instance Balance_eq_dec : EqDecision Balance.
Proof. solve_decision. Defined.

Module Bal.
Section Bal.
Context {B3 : Blake3} {RT : Runtime}.

(** [Balance::get_current_canonical_state_hash] returns [None], so the hash
    is the one of the time-stamp text. *)
Definition get_current_canonical_state_hash : option bytes := None.

Definition new (v : Z) : Balance :=
  let state_hash :=
    match get_current_canonical_state_hash with
    | Some h => Some h
    | None => Some (blake3 (str_bytes ("balance_creation_" +:+ pretty now)))
    end in
  mkBalance v 0 now state_hash.

Definition from_state (v : Z) (h : bytes) : Balance := mkBalance v 0 now (Some h).

Definition available (b : Balance) : Z := saturating_sub (bal_value b) (bal_locked b).

Definition update_timestamp (b : Balance) : Balance :=
  mkBalance (bal_value b) (bal_locked b) now (bal_state_hash b).
Definition set_value (v : Z) (b : Balance) : Balance :=
  mkBalance v (bal_locked b) (bal_last_updated b) (bal_state_hash b).
Definition set_locked (l : Z) (b : Balance) : Balance :=
  mkBalance (bal_value b) l (bal_last_updated b) (bal_state_hash b).

Definition lock (b : Balance) (amount : Z) : outcome Balance :=
  if amount =? 0 then Err (EValidation "Lock amount must be positive")
  else if available b <? amount then
    Err (EValidation "Insufficient available balance to lock")
  else l ← u64_add (bal_locked b) amount;
    Ok (update_timestamp (set_locked l b)).

Definition unlock (b : Balance) (amount : Z) : outcome Balance :=
  if amount =? 0 then Err (EValidation "Unlock amount must be positive")
  else if bal_locked b <? amount then
    Err (EValidation "Unlock amount exceeds locked balance")
  else l ← u64_sub (bal_locked b) amount;
    Ok (update_timestamp (set_locked l b)).

Definition update (b : Balance) (amount : Z) (is_addition : bool) : Balance :=
  let v := if is_addition then saturating_add (bal_value b) amount
           else saturating_sub (bal_value b) amount in
  update_timestamp (set_value v b).

Definition update_with_amount (b : Balance) (amount : TokenAmount) (is_addition : bool) : outcome Balance :=
  if is_addition then
    Ok (update_timestamp (set_value (saturating_add (bal_value b) (amount_value amount)) b))
  else if bal_value b <? amount_value amount then
    Err (EValidation "Insufficient balance for deduction")
  else v ← u64_sub (bal_value b) (amount_value amount);
    Ok (update_timestamp (set_value v b)).

Definition update_add (b : Balance) (delta : Z) : Balance :=
  update_timestamp (set_value (saturating_add (bal_value b) delta) b).

Definition update_sub (b : Balance) (delta : Z) : outcome Balance :=
  if bal_value b <? delta then Err (EValidation "Insufficient balance for deduction")
  else v ← u64_sub (bal_value b) delta;
    Ok (update_timestamp (set_value v b)).

Definition with_state_hash (b : Balance) (h : bytes) : Balance :=
  mkBalance (bal_value b) (bal_locked b) (bal_last_updated b) (Some h).

Definition to_le_bytes (b : Balance) : bytes :=
  u64_le (bal_value b) ++ u64_le (bal_locked b) ++ u64_le (bal_last_updated b) ++
  unwrap_or [] (bal_state_hash b).

(** The locked part never exceeds the value; all fields are u64. *)
Definition wf (b : Balance) : Prop :=
  0 ≤ bal_locked b ≤ bal_value b ∧ bal_value b ≤ u64_max ∧ u64_ok (bal_last_updated b).

End Bal.
End Bal.

(** ** [TokenMetadata] and [TokenRegistry] *)

Record TokenMetadata := mkMetadata {
  md_token_id : string;
  md_name : string;
  md_symbol : string;
  md_decimals : Z;
  md_token_type : TokenType;
  md_owner_id : string;
  md_creation_timestamp : Z;
  md_metadata_uri : option string;
  md_description : option string;
  md_icon_url : option string;
  md_policy_anchor : option string;
  md_fields : gmap string string;
}.

Definition metadata_new {RT : Runtime} (token_id name symbol : string) (decimals : Z)
    (ty : TokenType) (owner_id : string) : TokenMetadata :=
  mkMetadata token_id name symbol decimals ty owner_id now None None None None ∅.

Definition canonical_id (md : TokenMetadata) : string :=
  md_owner_id md +:+ "." +:+ md_token_id md.

Record TokenRegistry := mkRegistry {
  tokens : gmap string TokenMetadata;
  supplies : gmap string TokenSupply;
  native_token_id : string;
}.

Record CreateTokenParams := mkCreateParams {
  cp_token_id : string;
  cp_name : string;
  cp_description : option string;
  cp_icon_url : option string;
  cp_metadata_uri : option string;
  cp_decimals : Z;
  cp_initial_supply : option Z;
  cp_max_supply : option Z;
  cp_policy_anchor : option string;
}.

Module Registry.
Section Registry.
Context {RT : Runtime}.

(** [10u64.pow(18)] fits in u64; the product with 100 000 000 is checked. *)
Definition new : outcome TokenRegistry :=
  let root_id := "ROOT"%string in
  let md := metadata_new root_id "ROOT" "ROOT" 18 Native "system" in
  supply ← u64_mul 100000000 (10 ^ 18);
  Ok (mkRegistry {[root_id := md]} {[root_id := Supply.new supply]} root_id).

Definition register_token (r : TokenRegistry) (md : TokenMetadata) (s : TokenSupply)
    : outcome TokenRegistry :=
  let token_id := md_token_id md in
  match tokens r !! token_id with
  | Some _ => Err (EValidation "Token {} already exists")
  | None => Ok (mkRegistry (<[token_id := md]> (tokens r)) (<[token_id := s]> (supplies r))
                  (native_token_id r))
  end.

Definition get_token (r : TokenRegistry) (id : string) : option TokenMetadata := tokens r !! id.
Definition get_supply (r : TokenRegistry) (id : string) : option TokenSupply := supplies r !! id.

Definition update_supply (r : TokenRegistry) (token_id : string) (amount : Z) (is_addition : bool)
    : outcome TokenRegistry :=
  supply ← ok_or (EValidation "Token {} not found") (supplies r !! token_id);
  if negb (Supply.is_valid_supply_change supply amount is_addition) then
    Err (EValidation "Invalid supply change for token {}")
  else
    let c := if is_addition then saturating_add (circulating_supply supply) amount
             else saturating_sub (circulating_supply supply) amount in
    Ok (mkRegistry (tokens r) (<[token_id := Supply.set_circulating c supply]> (supplies r))
          (native_token_id r)).

Definition is_native_token (r : TokenRegistry) (id : string) : bool :=
  bool_decide (id = native_token_id r).

Definition canonical_token_id (r : TokenRegistry) (id : string) : outcome string :=
  md ← ok_or (EValidation "Token {} not found") (get_token r id);
  Ok (canonical_id md).

Definition create_token (r : TokenRegistry) (p : CreateTokenParams)
    : outcome ((TokenMetadata * TokenSupply) * TokenRegistry) :=
  let md := mkMetadata (cp_token_id p) (cp_name p) (cp_token_id p) (cp_decimals p) Created
              "system" now (cp_metadata_uri p) (cp_description p) (cp_icon_url p)
              (cp_policy_anchor p) ∅ in
  let s := mkSupply (unwrap_or 0 (cp_initial_supply p)) (unwrap_or 0 (cp_initial_supply p))
             (cp_max_supply p) (Some 0) in
  Ok ((md, s), mkRegistry (<[cp_token_id p := md]> (tokens r))
                 (<[md_token_id md := s]> (supplies r)) (native_token_id r)).

(** Every token has a supply and the other way round, filed under its own
    id, and every supply respects its limits. *)
Definition wf (r : TokenRegistry) : Prop :=
  dom (tokens r) = dom (supplies r) ∧
  (∀ id md, tokens r !! id = Some md → md_token_id md = id) ∧
  (∀ id s, supplies r !! id = Some s → Supply.wf s).

End Registry.
End Registry.

(** ** Lemmas: amounts and balances *)

Section BalanceFacts.
Context {B3 : Blake3} {RT : Runtime}.

Lemma lock_inv b amount b' :
  Bal.wf b → Bal.lock b amount = Ok b' →
  amount ≠ 0 ∧ amount ≤ bal_value b - bal_locked b ∧
  b' = mkBalance (bal_value b) (bal_locked b + amount) now (bal_state_hash b).
Proof.
  intros (Hl & Hv & _) H. unfold Bal.lock, Bal.available, saturating_sub in H.
  repeat (case_test; [discriminate|]). zbool.
  apply bind_Ok in H as (l & [-> _]%u64_add_Ok & H). injection H as <-.
  split_and!; [done|lia|done].
Qed.

Lemma lock_Ok b amount :
  Bal.wf b → 0 < amount ≤ bal_value b - bal_locked b →
  Bal.lock b amount = Ok (mkBalance (bal_value b) (bal_locked b + amount) now (bal_state_hash b)).
Proof.
  intros (Hl & Hv & _) Ha. unfold Bal.lock, Bal.available, saturating_sub, u64_add.
  rewrite (proj2 (Z.eqb_neq _ _)), (proj2 (Z.ltb_ge _ _)), (proj2 (Z.leb_le _ _)) by lia. done.
Qed.

Lemma unlock_Ok b amount :
  Bal.wf b → 0 < amount ≤ bal_locked b →
  Bal.unlock b amount = Ok (mkBalance (bal_value b) (bal_locked b - amount) now (bal_state_hash b)).
Proof.
  intros _ Ha. unfold Bal.unlock, u64_sub.
  rewrite (proj2 (Z.eqb_neq _ _)), (proj2 (Z.ltb_ge _ _)), (proj2 (Z.leb_le _ _)) by lia. done.
Qed.

Lemma unlock_inv b amount b' :
  Bal.unlock b amount = Ok b' →
  amount ≠ 0 ∧ amount ≤ bal_locked b ∧
  b' = mkBalance (bal_value b) (bal_locked b - amount) now (bal_state_hash b).
Proof.
  intros H. unfold Bal.unlock in H. repeat (case_test; [discriminate|]). zbool.
  apply bind_Ok in H as (l & [-> _]%u64_sub_Ok & H). injection H as <-. done.
Qed.

Lemma update_sub_Ok b delta :
  delta ≤ bal_value b →
  Bal.update_sub b delta = Ok (mkBalance (bal_value b - delta) (bal_locked b) now (bal_state_hash b)).
Proof.
  intros. unfold Bal.update_sub, u64_sub.
  rewrite (proj2 (Z.ltb_ge _ _)), (proj2 (Z.leb_le _ _)) by lia. done.
Qed.

End BalanceFacts.

(** ** Lemmas: supplies and the registry *)

Lemma saturating_add_bounds a b : 0 ≤ a → 0 ≤ b → 0 ≤ saturating_add a b ≤ u64_max.
Proof. unfold saturating_add, u64_max. lia. Qed.

Lemma supply_change_wf s amount (add : bool) :
  Supply.wf s → u64_ok amount → Supply.is_valid_supply_change s amount add = true →
  Supply.wf (Supply.set_circulating
    (if add then saturating_add (circulating_supply s) amount
     else saturating_sub (circulating_supply s) amount) s).
Proof.
  intros ([H0 H1] & Hmax & Hmin) [Ha1 Ha2] Hv. unfold Supply.is_valid_supply_change in Hv.
  destruct add.
  - split_and!; cbn.
    + by apply saturating_add_bounds.
    + intros m Hm. rewrite Hm in Hv. case_test; [done|]. zbool. lia.
    + intros m Hm%Hmin. unfold saturating_add. lia.
  - case_test; [done|]. zbool. unfold saturating_sub. split_and!; cbn.
    + unfold u64_ok. lia.
    + intros m Hm%Hmax. lia.
    + intros m Hm. rewrite Hm in Hv. case_test; [done|]. zbool. lia.
Qed.

Lemma update_supply_inv {RT : Runtime} r id amount add r' :
  Registry.update_supply r id amount add = Ok r' →
  ∃ s, supplies r !! id = Some s ∧ Supply.is_valid_supply_change s amount add = true ∧
    r' = mkRegistry (tokens r) (<[id := Supply.set_circulating
      (if add then saturating_add (circulating_supply s) amount
       else saturating_sub (circulating_supply s) amount) s]> (supplies r)) (native_token_id r).
Proof.
  intros H. unfold Registry.update_supply in H.
  apply bind_Ok in H as (s & Hs%ok_or_Ok & H).
  destruct (Supply.is_valid_supply_change s amount add) eqn:Hv; [|done].
  injection H as <-. eauto.
Qed.

(** ** Properties *)

Section TokenProps.
Context {B3 : Blake3} {RT : Runtime}.

(** Locking is exact and reversible: on a well-formed balance [lock]
    succeeds exactly for amounts between one and the available part, keeps the
    balance well formed, moves that amount from the available to the locked
    part without touching the value, and [unlock] of the same amount then
    succeeds and restores both parts. *)
Theorem lock_unlock_roundtrip (b : Balance) (amount : Z) :
  Bal.wf b → u64_ok amount → u64_ok now →
  ((∃ b', Bal.lock b amount = Ok b') ↔ 0 < amount ≤ Bal.available b) ∧
  (∀ b', Bal.lock b amount = Ok b' →
     Bal.wf b' ∧ bal_value b' = bal_value b ∧
     Bal.available b' = Bal.available b - amount ∧ bal_locked b' = bal_locked b + amount ∧
     ∃ b'', Bal.unlock b' amount = Ok b'' ∧ Bal.wf b'' ∧
       bal_value b'' = bal_value b ∧ bal_locked b'' = bal_locked b).
Proof.
  intros Hwf [Ha1 _] Hnow. pose proof Hwf as (Hl & Hv & Ht). split.
  - unfold Bal.available, saturating_sub. split.
    + intros (b' & (Hne & Hle & _)%lock_inv); [lia|done].
    + intros Hb. eexists. apply lock_Ok; [done|lia].
  - intros b' (Hne & Hle & ->)%lock_inv; [|done].
    assert (Hwf' : Bal.wf (mkBalance (bal_value b) (bal_locked b + amount) now (bal_state_hash b))).
    { unfold Bal.wf; cbn. split_and!; [lia..|done]. }
    unfold Bal.available, saturating_sub; cbn. split_and!; try lia; [done|].
    eexists. split; [apply unlock_Ok; cbn; [done|lia]|]. unfold Bal.wf; cbn.
    split_and!; try done; lia.
Qed.

(** The locked part of a balance can be spent: [update_sub] tests the
    amount against the whole value and not against the available part, so
    after a successful [lock] of a positive amount the whole value is still
    deducted, which leaves the locked part larger than the value. *)
Theorem locked_part_is_spendable (b b' : Balance) (amount : Z) :
  Bal.wf b → u64_ok amount → Bal.lock b amount = Ok b' →
  Bal.available b' < bal_value b' ∧
  ∃ b'', Bal.update_sub b' (bal_value b') = Ok b'' ∧
    bal_value b'' = 0 ∧ bal_locked b'' = bal_locked b + amount ∧ ¬ Bal.wf b''.
Proof.
  intros Hwf [Ha _] (Hne & Hle & ->)%lock_inv; [|done]. destruct Hwf as (Hl & Hv & _).
  unfold Bal.available, saturating_sub; cbn. split; [lia|].
  eexists. split; [by apply update_sub_Ok|]. cbn. split_and!; [lia|done|].
  intros (Hw & _). cbn in Hw. lia.
Qed.

(** [TokenRegistry::update_supply] keeps the registry well formed (every
    token has one supply, filed under its id, inside its maximum and minimum),
    changes no other token and no metadata, and adds or removes exactly the
    amount whenever the addition does not saturate. *)
Theorem update_supply_preserves_limits (r r' : TokenRegistry) (id : string) (amount : Z) (add : bool) :
  Registry.wf r → u64_ok amount → Registry.update_supply r id amount add = Ok r' →
  Registry.wf r' ∧ tokens r' = tokens r ∧
  (∀ id', id' ≠ id → supplies r' !! id' = supplies r !! id') ∧
  ∃ s s', supplies r !! id = Some s ∧ supplies r' !! id = Some s' ∧
    circulating_supply s' =
      if add then Z.min (circulating_supply s + amount) u64_max
      else circulating_supply s - amount.
Proof.
  intros (Hdom & Hid & Hsup) Ha (s & Hs & Hv & ->)%update_supply_inv. cbn.
  pose proof (supply_change_wf s amount add (Hsup _ _ Hs) Ha Hv) as Hwf.
  split_and!.
  - split_and!; cbn.
    + rewrite Hdom, dom_insert_lookup_L; [done|by eexists].
    + done.
    + intros id' s'. rewrite lookup_insert. case_decide; naive_solver.
  - done.
  - intros id' Hne. by rewrite lookup_insert_ne.
  - exists s. eexists. rewrite lookup_insert_eq. split_and!; [done|done|]. cbn.
    destruct add; [done|]. unfold saturating_sub.
    unfold Supply.is_valid_supply_change in Hv.
    destruct (circulating_supply s <? amount) eqn:E; [done|]. zbool. lia.
Qed.

(** The two supply checks agree: [validate_supply_change] on a
    [TokenAmount] decides the same changes as [is_valid_supply_change], and
    both accept an amount exactly when the (saturated) new supply is inside
    the limits. *)
Theorem supply_checks_agree (s : TokenSupply) (a : TokenAmount) (add : bool) :
  validate_supply_change s a add = Supply.is_valid_supply_change s (amount_value a) add ∧
  (Supply.is_valid_supply_change s (amount_value a) add = true ↔
     if add then ∀ m, max_supply s = Some m → saturating_add (circulating_supply s) (amount_value a) ≤ m
     else amount_value a ≤ circulating_supply s ∧
       ∀ m, min_supply s = Some m → m ≤ circulating_supply s - amount_value a).
Proof.
  split; [done|]. unfold Supply.is_valid_supply_change.
  destruct add.
  - destruct (max_supply s) as [m|]; [|by split; intros].
    destruct (m <? _) eqn:E; zbool; split; try done.
    + intros Hm. specialize (Hm m eq_refl). lia.
    + intros _ ? [= <-]. lia.
  - destruct (circulating_supply s <? amount_value a) eqn:E; zbool; [naive_solver lia|].
    destruct (min_supply s) as [m|]; [|by split; intros].
    destruct (_ <? m) eqn:E'; zbool; split; try done.
    + intros [_ Hm]. specialize (Hm m eq_refl). lia.
    + intros _. split; [lia|]. intros ? [= <-]. lia.
Qed.

(** [TokenRegistry::new] cannot return: the initial ROOT supply of
    100 million tokens with 18 decimals does not fit in a u64 and the checked
    multiplication panics. *)
Theorem registry_new_panics : Registry.new = Panic.
Proof. vm_compute. reflexivity. Qed.

(** [create_token] silently replaces a registered token: where
    [register_token] refuses a taken id and changes nothing, [create_token]
    overwrites the metadata and resets the circulating supply, and it also
    accepts an initial supply above the maximum. *)
Theorem create_token_overwrites (r : TokenRegistry) (p : CreateTokenParams) (md : TokenMetadata) (s : TokenSupply) :
  tokens r !! cp_token_id p = Some md → md_token_id md = cp_token_id p →
  Registry.register_token r md s = Err (EValidation "Token {} already exists") ∧
  ∃ md' s' r', Registry.create_token r p = Ok (md', s', r') ∧
    Registry.get_token r' (cp_token_id p) = Some md' ∧ md_owner_id md' = "system"%string ∧
    Registry.get_supply r' (cp_token_id p) = Some s' ∧
    circulating_supply s' = unwrap_or 0 (cp_initial_supply p) ∧
    (∀ m i, cp_max_supply p = Some m → cp_initial_supply p = Some i → m < i → ¬ Supply.wf s').
Proof.
  intros Htok Hid. split.
  - unfold Registry.register_token. by rewrite Hid, Htok.
  - do 3 eexists. split; [done|]. unfold Registry.get_token, Registry.get_supply; cbn.
    rewrite !lookup_insert_eq. split_and!; try done.
    intros m i Hm Hi Hlt (_ & Hmax & _). cbn in Hmax. rewrite Hm, Hi in Hmax.
    specialize (Hmax m eq_refl). cbn in Hmax. lia.
Qed.

End TokenProps.

Section TokenWitnesses.
#[local] Existing Instances Toy.toy_blake3 Toy.toy_runtime.

Definition demo_balance : Balance := mkBalance 10 3 5 None.
Definition demo_supply : TokenSupply := mkSupply 100 40 (Some 100) (Some 0).
Definition demo_metadata : TokenMetadata := metadata_new "GOLD" "Gold" "GLD" 2 Created "alice".
Definition demo_registry : TokenRegistry :=
  mkRegistry {["GOLD"%string := demo_metadata]} {["GOLD"%string := demo_supply]} "ROOT".

Lemma demo_balance_wf : Bal.wf demo_balance.
Proof. unfold Bal.wf, u64_ok, u64_max; cbn. lia. Qed.

Lemma demo_supply_wf : Supply.wf demo_supply.
Proof.
  unfold Supply.wf, u64_ok, u64_max; cbn. split_and!; try lia; by intros ? [= <-].
Qed.

Lemma demo_registry_wf : Registry.wf demo_registry.
Proof.
  split_and!; [done|..]; cbn; intros ? ? [<- <-]%lookup_singleton_Some;
    [done|apply demo_supply_wf].
Qed.

Lemma lock_unlock_roundtrip_witness :
  ∃ b', Bal.lock demo_balance 4 = Ok b' ∧ Bal.available b' = 3.
Proof.
  destruct (lock_unlock_roundtrip demo_balance 4) as [[_ Hlock] Hinv];
    [exact demo_balance_wf|unfold u64_ok, u64_max; lia|unfold u64_ok, u64_max; cbn; lia|].
  destruct Hlock as [b' Hb']; [vm_compute; by split|].
  exists b'. split; [done|]. apply Hinv in Hb' as (_ & _ & -> & _). reflexivity.
Defined.

Lemma locked_part_is_spendable_witness :
  Bal.lock demo_balance 4 = Ok (mkBalance 10 7 1700000000 None) ∧
  ∃ b'', Bal.update_sub (mkBalance 10 7 1700000000 None) 10 = Ok b'' ∧ bal_value b'' = 0.
Proof.
  split; [reflexivity|].
  destruct (locked_part_is_spendable demo_balance (mkBalance 10 7 1700000000 None) 4)
    as (_ & b'' & H1 & H2 & _);
    [exact demo_balance_wf|unfold u64_ok, u64_max; lia|reflexivity|].
  exists b''. by split.
Defined.

Lemma update_supply_preserves_limits_witness :
  ∃ r', Registry.update_supply demo_registry "GOLD" 60 true = Ok r' ∧ Registry.wf r'.
Proof.
  eexists. split; [reflexivity|].
  apply (update_supply_preserves_limits demo_registry _ "GOLD" 60 true);
    [exact demo_registry_wf|unfold u64_ok, u64_max; lia|reflexivity].
Defined.

Lemma create_token_overwrites_witness :
  Registry.register_token demo_registry demo_metadata demo_supply =
    Err (EValidation "Token {} already exists").
Proof.
  apply (create_token_overwrites demo_registry
    (mkCreateParams "GOLD" "Fake gold" None None None 2 (Some 7) (Some 5) None)
    demo_metadata demo_supply); reflexivity.
Defined.

End TokenWitnesses.
