(* ===== verification/Operations.v ===== *)
(** * Operations (dsm/src/types/operations.rs)

    The [Operation] enum with the source's constructors and fields, and its
    trait implementations.  A [HashMap] that is hashed or serialised in its
    iteration order is an association list in that order. *)
From S2P Require Import Prelude Tokens.

Inductive TransactionMode := Bilateral | Unilateral.

Inductive VerificationType :=
  | VT_Standard
  | VT_Enhanced
  | VT_Bilateral
  | VT_Directory
  | VT_StandardBilateral
  | VT_PreCommitted
  | VT_UnilateralIdentityAnchor
  | VT_Custom (data : bytes).

(** [SecurityParameters] (dsm/src/commitments/precommit.rs) *)
Record SecurityParameters := mkSecurity {
  min_signatures : Z;
  min_positions : Z;
  hash_size : Z;
}.
Definition default_security : SecurityParameters := mkSecurity 2 32 32.

Record PreCommitmentOp := mkPreCommitmentOp {
  pco_fixed_parameters : list (string * bytes);
  pco_variable_parameters : list string;
  pco_security_params : SecurityParameters;
}.

Inductive Operation :=
  | Genesis
  | Create (message : string) (identity_data public_key metadata commitment proof : bytes)
      (mode : TransactionMode)
  | Update (message identity_id : string) (updated_data proof : bytes)
      (forward_link : option bytes)
  | Transfer (to_address : string) (amount : Balance) (token_id : string)
      (mode : TransactionMode) (nonce : bytes) (verification : VerificationType)
      (pre_commit : option PreCommitmentOp) (recipient to message : string)
  | Mint (amount : Balance) (token_id authorized_by : string)
      (proof_of_authorization : bytes) (message : string)
  | Burn (amount : Balance) (token_id : string) (proof_of_ownership : bytes) (message : string)
  | LockToken (token_id : string) (amount : Z) (purpose : string) (mode : TransactionMode)
  | UnlockToken (token_id : string) (amount : Z) (purpose : string) (mode : TransactionMode)
  | AddRelationship (from_id to_id relationship_type : string) (metadata proof : bytes)
      (mode : TransactionMode) (message : string)
  | CreateRelationship (message counterparty_id : string) (commitment proof : bytes)
      (mode : TransactionMode)
  | RemoveRelationship (from_id to_id relationship_type : string) (proof : bytes)
      (mode : TransactionMode) (message : string)
  | Recovery (message : string) (state_number : Z)
      (state_hash state_entropy invalidation_data new_state_data : bytes)
      (new_state_number : Z) (new_state_hash new_state_entropy compromise_proof : bytes)
      (authority_sigs : list bytes)
  | Delete (reason : string) (proof : bytes) (mode : TransactionMode) (id : string)
  | Link (target_id link_type : string) (proof : bytes) (mode : TransactionMode)
  | Unlink (target_id : string) (proof : bytes) (mode : TransactionMode)
  | Invalidate (reason : string) (proof : bytes) (mode : TransactionMode)
  | Generic (operation_type : string) (data : bytes) (message : string).

(** [impl Ops for Operation]: [validate] never returns [Err]. *)
Definition validate (op : Operation) : outcome bool :=
  match op with
  | Generic _ _ _ => Ok true
  | Transfer _ amount _ _ _ _ _ _ _ _ => Ok (0 <? bal_value amount)
  | Mint amount _ _ _ _ => Ok (0 <? bal_value amount)
  | Burn amount _ _ _ => Ok (0 <? bal_value amount)
  | LockToken _ _ _ _ => Ok true
  | UnlockToken _ _ _ _ => Ok true
  | _ => Ok true
  end.

Definition get_id (op : Operation) : string :=
  match op with
  | Genesis => "genesis"
  | Generic operation_type _ _ => operation_type
  | Transfer _ _ _ _ _ _ _ _ _ _ => "transfer"
  | Mint _ _ _ _ _ => "mint"
  | Burn _ _ _ _ => "burn"
  | Create _ _ _ _ _ _ _ => "create"
  | Update _ _ _ _ _ => "update"
  | AddRelationship _ _ _ _ _ _ _ => "add_relationship"
  | CreateRelationship _ _ _ _ _ => "create_relationship"
  | RemoveRelationship _ _ _ _ _ _ => "remove_relationship"
  | Recovery _ _ _ _ _ _ _ _ _ _ _ => "recovery"
  | Delete _ _ _ _ => "delete"
  | Link _ _ _ _ => "link"
  | Unlink _ _ _ => "unlink"
  | Invalidate _ _ _ => "invalidate"
  | LockToken _ _ _ _ => "lock_token"
  | UnlockToken _ _ _ _ => "unlock_token"
  end.

(** [impl TokenOps for Operation] *)
Definition op_is_valid (op : Operation) : bool :=
  match op with
  | Transfer _ amount _ _ _ _ _ _ _ _ => 0 <? bal_value amount
  | Mint amount _ _ _ _ => 0 <? bal_value amount
  | Burn amount _ _ _ => 0 <? bal_value amount
  | _ => false
  end.

Definition op_verify_token (op : Operation) : outcome bool :=
  match op with
  | Transfer _ _ _ _ _ _ _ _ _ _ | Mint _ _ _ _ _ | Burn _ _ _ _ => Ok true
  | _ => Ok false
  end.

(** [impl GenericOps for Operation] *)
Definition get_operation_type (op : Operation) : string :=
  match op with
  | Genesis => "genesis"
  | Generic operation_type _ _ => operation_type
  | _ => get_id op
  end.

Definition get_data (op : Operation) : bytes :=
  match op with Generic _ data _ => data | _ => [] end.

Definition set_data (op : Operation) (data : bytes) : outcome Operation :=
  match op with
  | Generic ty _ msg => Ok (Generic ty data msg)
  | _ => Err (EGeneric "Cannot set data on non-generic operation")
  end.

Definition op_merge (op other : Operation) : outcome bytes := Ok (get_data op ++ get_data other).

(** [Operation::affects_balance] (dsm/src/core/state_machine/transition.rs) *)
Definition affects_balance (op : Operation) (tid : string) : bool :=
  match op with
  | Transfer _ _ token_id _ _ _ _ _ _ _ => bool_decide (token_id = tid)
  | Mint _ token_id _ _ _ => bool_decide (token_id = tid)
  | Burn _ token_id _ _ => bool_decide (token_id = tid)
  | _ => false
  end.

Definition is_mint_or_transfer (op : Operation) : bool :=
  match op with
  | Mint _ _ _ _ _ | Transfer _ _ _ _ _ _ _ _ _ _ => true
  | _ => false
  end.

(** A codec for the witnesses: the operation's id and generic data. *)
Definition toy_bincode_operation : Bincode Operation :=
  fun op => Some (str_bytes (get_id op) ++ get_data op).
