(* ===== verification/SparseIdx.v ===== *)
(** * Sparse indices (dsm/src/types/state_types.rs, core/state_machine/transition.rs)

    The back references a state keeps to earlier states: the distances that are
    powers of two, genesis and the direct predecessor. *)
From S2P Require Import Prelude.

Record SparseIndex := mkSparse { indices : list Z }.

Module Sparse.

(** [while (1 << power) <= state_number { .. }].  The shift panics at 64, so
    65 turns are the most the loop can take. *)
Fixpoint basic_loop (fuel : nat) (n power : Z) (acc : list Z) : outcome (list Z) :=
  match fuel with
  | O => Hang
  | S fuel =>
      p ← u64_shl1 power;
      if p <=? n then
        idx ← u64_sub n p;
        basic_loop fuel n (power + 1) (acc ++ [idx])
      else Ok acc
  end.

Definition calculate_basic_sparse_indices (state_number : Z) : outcome (list Z) :=
  if state_number =? 0 then Ok [] else basic_loop 65 state_number 0 [].

Definition push_if (c : bool) (x : Z) (l : list Z) : list Z := if c then l ++ [x] else l.
Definition contains (l : list Z) (x : Z) : bool := bool_decide (x ∈ l).

(** [State::calculate_sparse_indices] and [SparseIndex::calculate_sparse_indices],
    which have the same text. *)
Definition calculate_sparse_indices (state_number : Z) : outcome (list Z) :=
  idx ← calculate_basic_sparse_indices state_number;
  let idx := push_if ((0 <? state_number) && negb (contains idx 0)) 0 idx in
  let idx := push_if ((0 <? state_number) && negb (contains idx (state_number - 1)))
               (state_number - 1) idx in
  Ok (dedup (sort_u64 idx)).

(** [transition::calculate_sparse_indices]: only the distances that are set
    bits of the state number. *)
Fixpoint bits_loop (fuel : nat) (n power : Z) (acc : list Z) : outcome (list Z) :=
  match fuel with
  | O => Hang
  | S fuel =>
      p ← u64_shl1 power;
      if p <=? n then
        if negb (Z.land n p =? 0) then
          idx ← u64_sub n p;
          bits_loop fuel n (power + 1) (acc ++ [idx])
        else bits_loop fuel n (power + 1) acc
      else Ok acc
  end.

(** The two [debug_assert!]s hold (theorem [bit_indices_spec]) and are not
    repeated. *)
Definition transition_sparse_indices (state_number : Z) : outcome (list Z) :=
  if state_number =? 0 then Ok []
  else
    idx ← bits_loop 65 state_number 0 [];
    let idx := push_if (negb (contains idx 0)) 0 idx in
    let idx := push_if ((1 <? state_number) && negb (contains idx (state_number - 1)))
                 (state_number - 1) idx in
    Ok (sort_u64 idx).

Section Value.
Context {B3 : Blake3}.

(** [SparseIndex::value] *)
Definition value (si : SparseIndex) : Z :=
  of_le_bytes (take 8 (blake3 (concat (map u64_le (sort_u64 (indices si)))))).

End Value.

(** One hop of a traversal: from a state to one its index refers to. *)
Definition hop (n m : Z) : Prop := ∃ l, calculate_sparse_indices n = Ok l ∧ m ∈ l.

Fixpoint hops (k : nat) (n m : Z) : Prop :=
  match k with
  | O => n = m
  | S k => ∃ x, hop n x ∧ hops k x m
  end.

End Sparse.

(** ** Lemmas *)

Lemma u64_shl1_Ok p : 0 ≤ p < 64 → u64_shl1 p = Ok (2 ^ p).
Proof.
  intros H. unfold u64_shl1. rewrite (proj2 (Z.ltb_lt _ _)) by lia.
  by rewrite Z.shiftl_1_l.
Qed.

(** The indices [a], [a+1], .. the loop still has to visit. *)
Fixpoint powers_from (a : Z) (k : nat) : list Z :=
  match k with O => [] | S k => a :: powers_from (a + 1) k end.

Lemma elem_of_powers_from a k x : x ∈ powers_from a k ↔ a ≤ x < a + Z.of_nat k.
Proof.
  revert a. induction k as [|k IH]; intros a; cbn [powers_from].
  - rewrite elem_of_nil. lia.
  - rewrite elem_of_cons, IH. lia.
Qed.

Lemma pow2_le_log n p : 0 < n → 0 ≤ p → 2 ^ p ≤ n ↔ p ≤ Z.log2 n.
Proof. intros Hn Hp. apply Z.log2_le_pow2; lia. Qed.

Lemma log2_u63 n : 0 < n < 2 ^ 63 → 0 ≤ Z.log2 n < 63.
Proof. intros H. split; [apply Z.log2_nonneg|]. apply Z.log2_lt_pow2; lia. Qed.

Lemma basic_loop_run (n : Z) (k fuel : nat) power acc :
  0 < n < 2 ^ 63 → 0 ≤ power → power + Z.of_nat k = Z.log2 n + 1 → (k < fuel)%nat →
  Sparse.basic_loop fuel n power acc = Ok (acc ++ ((fun p => n - 2 ^ p) <$> powers_from power k)).
Proof.
  intros Hn. revert fuel power acc. pose proof (log2_u63 n Hn) as Hlog.
  induction k as [|k IH]; intros [|fuel] power acc Hp Hk Hf; try lia; cbn [Sparse.basic_loop].
  - rewrite u64_shl1_Ok by lia. cbn. rewrite (proj2 (Z.leb_gt _ _)).
    { by rewrite app_nil_r. }
    apply Z.log2_lt_pow2; lia.
  - rewrite u64_shl1_Ok by lia. cbn.
    assert (2 ^ power ≤ n) by (apply pow2_le_log; lia).
    unfold u64_sub. rewrite !(proj2 (Z.leb_le _ _)) by lia. cbn.
    rewrite IH by lia. rewrite <- app_assoc. done.
Qed.

(** [n & (1 << power) != 0] tests the bit. *)
Lemma land_pow2_test n power :
  0 ≤ power → negb (Z.land n (2 ^ power) =? 0) = Z.testbit n power.
Proof.
  intros Hp. destruct (Z.testbit n power) eqn:E.
  - apply negb_true_iff, Z.eqb_neq. intros Hz.
    apply (f_equal (fun z => Z.testbit z power)) in Hz.
    rewrite Z.land_spec, Z.pow2_bits_true, E, Z.bits_0 in Hz by lia. done.
  - apply negb_false_iff, Z.eqb_eq, Z.bits_inj'. intros j Hj.
    rewrite Z.land_spec, Z.pow2_bits_eqb, Z.bits_0 by lia.
    destruct (Z.eqb_spec power j); [subst; by rewrite E|]. by rewrite andb_false_r.
Qed.

Lemma bits_loop_run (n : Z) (k fuel : nat) power acc :
  0 < n < 2 ^ 63 → 0 ≤ power → power + Z.of_nat k = Z.log2 n + 1 → (k < fuel)%nat →
  ∃ l, Sparse.bits_loop fuel n power acc = Ok (acc ++ l) ∧
    ∀ i, i ∈ l ↔ ∃ p, power ≤ p ≤ Z.log2 n ∧ Z.testbit n p = true ∧ i = n - 2 ^ p.
Proof.
  intros Hn. revert fuel power acc. pose proof (log2_u63 n Hn) as Hlog.
  induction k as [|k IH]; intros [|fuel] power acc Hp Hk Hf; try lia; cbn [Sparse.bits_loop].
  - rewrite u64_shl1_Ok by lia. cbn. rewrite (proj2 (Z.leb_gt _ _)).
    { exists []. rewrite app_nil_r. split; [done|]. intros i. split; [by intros ?%elem_of_nil|].
      intros (p & ? & _). lia. }
    apply Z.log2_lt_pow2; lia.
  - rewrite u64_shl1_Ok by lia. cbn.
    assert (2 ^ power ≤ n) by (apply pow2_le_log; lia).
    unfold u64_sub. rewrite !(proj2 (Z.leb_le _ _)) by lia. cbn.
    rewrite land_pow2_test by lia. destruct (Z.testbit n power) eqn:E.
    + destruct (IH fuel (power + 1) (acc ++ [n - 2 ^ power])) as (l & Hl & Hin); [lia..|].
      exists ((n - 2 ^ power) :: l). rewrite Hl, <- app_assoc. split; [done|].
      intros i. rewrite elem_of_cons, Hin. split.
      * intros [->|(p & ? & ? & ?)]; [exists power|exists p]; split_and!; try done; lia.
      * intros (p & ? & ? & ->). destruct (decide (p = power)) as [->|]; [by left|].
        right. exists p. split_and!; try done; lia.
    + destruct (IH fuel (power + 1) acc) as (l & Hl & Hin); [lia..|].
      exists l. split; [done|]. intros i. rewrite Hin. split.
      * intros (p & ? & ? & ?). exists p. split_and!; try done; lia.
      * intros (p & ? & ? & ->). destruct (decide (p = power)) as [->|]; [congruence|].
        exists p. split_and!; try done; lia.
Qed.

Lemma elem_of_push_if c x y l : y ∈ Sparse.push_if c x l ↔ y ∈ l ∨ (c = true ∧ y = x).
Proof. unfold Sparse.push_if. destruct c; set_solver. Qed.

Lemma push_if_absent x y l (c : bool) :
  c = true → y ∈ Sparse.push_if (c && negb (Sparse.contains l x)) x l ↔ y ∈ l ∨ y = x.
Proof.
  intros ->. rewrite elem_of_push_if. unfold Sparse.contains. cbn.
  destruct (decide (x ∈ l)) as [Hin|Hni].
  - rewrite bool_decide_eq_true_2 by done. naive_solver.
  - rewrite bool_decide_eq_false_2 by done. naive_solver.
Qed.

Lemma basic_indices_run n :
  0 < n < 2 ^ 63 →
  Sparse.calculate_basic_sparse_indices n =
    Ok ((fun p => n - 2 ^ p) <$> powers_from 0 (Z.to_nat (Z.log2 n + 1))).
Proof.
  intros Hn. unfold Sparse.calculate_basic_sparse_indices.
  rewrite (proj2 (Z.eqb_neq _ _)) by lia. pose proof (log2_u63 n Hn).
  by rewrite (basic_loop_run n (Z.to_nat (Z.log2 n + 1))) by lia.
Qed.

Lemma length_dedup l : (length (dedup l) ≤ length l)%nat.
Proof.
  induction l as [|y [|z l] IH]; [done..|]. rewrite dedup_cons2.
  destruct (y =? z); cbn [length] in *; lia.
Qed.

Lemma length_powers_from a k : length (powers_from a k) = k.
Proof. revert a. induction k; intros a; cbn; [done|]. by rewrite IHk. Qed.

Lemma elem_of_basic n i :
  0 < n → i ∈ (fun p => n - 2 ^ p) <$> powers_from 0 (Z.to_nat (Z.log2 n + 1)) ↔
  ∃ p, 0 ≤ p ∧ 2 ^ p ≤ n ∧ i = n - 2 ^ p.
Proof.
  intros Hn. pose proof (Z.log2_nonneg n). rewrite list_elem_of_fmap. split.
  - intros (p & -> & Hp%elem_of_powers_from). exists p.
    split_and!; [lia|apply pow2_le_log; lia|done].
  - intros (p & Hp & Hle & ->). exists p. split; [done|]. apply elem_of_powers_from.
    apply pow2_le_log in Hle; lia.
Qed.

(** The computed index: sorted without repetition, logarithmic in size, and
    its members are genesis and the powers of two back. *)
Lemma sparse_indices_elem n :
  0 < n < 2 ^ 63 →
  ∃ l, Sparse.calculate_sparse_indices n = Ok l ∧ StronglySorted Z.lt l ∧
    (length l ≤ Z.to_nat (Z.log2 n) + 2)%nat ∧
    ∀ i, i ∈ l ↔ i = 0 ∨ ∃ p, 0 ≤ p ∧ 2 ^ p ≤ n ∧ i = n - 2 ^ p.
Proof.
  intros Hn. unfold Sparse.calculate_sparse_indices. rewrite basic_indices_run by done.
  cbn [mbind outcome_bind]. rewrite (proj2 (Z.ltb_lt 0 n)) by lia.
  set (b := (fun p => n - 2 ^ p) <$> powers_from 0 (Z.to_nat (Z.log2 n + 1))).
  assert (Hb : ∀ i, i ∈ b ↔ ∃ p, 0 ≤ p ∧ 2 ^ p ≤ n ∧ i = n - 2 ^ p)
    by (intros i; apply elem_of_basic; lia).
  assert (Hpred : n - 1 ∈ b) by (apply Hb; exists 0; split_and!; lia).
  eexists. split; [done|]. split_and!.
  - apply dedup_sorted, sort_u64_sorted.
  - etrans; [apply length_dedup|]. unfold sort_u64. rewrite merge_sort_Permutation.
    unfold Sparse.push_if, Sparse.contains. rewrite (bool_decide_eq_true_2 (n - 1 ∈ _)).
    2: { case_match; set_solver. }
    pose proof (Z.log2_nonneg n).
    assert (length b = Z.to_nat (Z.log2 n + 1)) by (unfold b; by rewrite length_fmap, length_powers_from).
    cbn. case_match; rewrite ?length_app; cbn; lia.
  - intros i. autorewrite with dsm. rewrite !push_if_absent, Hb by done.
    split; [intros [[?| ->]| ->]|intros [->|?]]; eauto.
    right. exists 0. split_and!; lia.
Qed.

(** ** Properties *)

(** The sparse index of a state below 2^63 is total, strictly sorted and of
    logarithmic size, refers only to earlier states, and contains genesis, the
    direct predecessor and every state a power of two back, and nothing else. *)
Theorem sparse_indices_spec (n : Z) :
  0 < n < 2 ^ 63 →
  ∃ l, Sparse.calculate_sparse_indices n = Ok l ∧ StronglySorted Z.lt l ∧
    (length l ≤ Z.to_nat (Z.log2 n) + 2)%nat ∧ 0 ∈ l ∧ n - 1 ∈ l ∧
    (∀ i, i ∈ l → 0 ≤ i < n) ∧
    (∀ i, i ∈ l ↔ i = 0 ∨ ∃ p, 0 ≤ p ∧ 2 ^ p ≤ n ∧ i = n - 2 ^ p).
Proof.
  intros Hn. destruct (sparse_indices_elem n Hn) as (l & Hl & Hs & Hlen & Hin).
  exists l. split_and!; try done.
  - apply Hin. by left.
  - apply Hin. right. exists 0. split_and!; lia.
  - intros i [->|(p & Hp & Hle & ->)]%Hin; [lia|]. pose proof (Z.pow_pos_nonneg 2 p). lia.
Qed.

Lemma basic_loop_panic (n : Z) (k fuel : nat) power acc :
  2 ^ 63 ≤ n → 0 ≤ power → power + Z.of_nat k = 64 → (k < fuel)%nat →
  Sparse.basic_loop fuel n power acc = Panic.
Proof.
  intros Hn. revert fuel power acc.
  induction k as [|k IH]; intros [|fuel] power acc Hp Hk Hf; try lia; cbn [Sparse.basic_loop].
  - replace power with 64 by lia. done.
  - rewrite u64_shl1_Ok by lia. cbn.
    assert (2 ^ power ≤ 2 ^ 63) by (apply Z.pow_le_mono_r; lia).
    unfold u64_sub. rewrite !(proj2 (Z.leb_le _ _)) by lia. cbn. apply IH; lia.
Qed.

(** From state number 2^63 on, computing the sparse index panics: the loop
    reaches the shift [1 << 64], which overflow checking rejects, so no state
    beyond 2^63 - 1 can be created. *)
Theorem sparse_indices_panic (n : Z) :
  2 ^ 63 ≤ n → Sparse.calculate_sparse_indices n = Panic.
Proof.
  intros Hn. unfold Sparse.calculate_sparse_indices, Sparse.calculate_basic_sparse_indices.
  rewrite (proj2 (Z.eqb_neq _ _)) by lia. by rewrite (basic_loop_panic n 64) by lia.
Qed.

(** One greedy hop towards [m] removes the top bit of the distance. *)
Lemma greedy_hop n m :
  0 ≤ m < n → n < 2 ^ 63 →
  Sparse.hop n (n - 2 ^ Z.log2 (n - m)) ∧ m ≤ n - 2 ^ Z.log2 (n - m) < n ∧
  (n - 2 ^ Z.log2 (n - m) - m < 2 ^ Z.log2 (n - m)).
Proof.
  intros Hm Hn. pose proof (Z.log2_spec (n - m) ltac:(lia)) as [H1 H2].
  rewrite Z.pow_succ_r in H2 by apply Z.log2_nonneg.
  pose proof (Z.log2_nonneg (n - m)) as Hlog. split; [|lia].
  destruct (sparse_indices_elem n) as (l & Hl & _ & _ & Hin); [lia|].
  exists l. split; [done|]. apply Hin. right. exists (Z.log2 (n - m)). split_and!; lia.
Qed.

Lemma hops_log (d : nat) : ∀ n m,
  0 ≤ m ≤ n → n < 2 ^ 63 → n - m < 2 ^ Z.of_nat d →
  ∃ k, (k ≤ d)%nat ∧ Sparse.hops k n m.
Proof.
  induction d as [|d IH]; intros n m Hm Hn Hd.
  - exists 0%nat. cbn in Hd |- *. split; lia.
  - destruct (decide (n = m)) as [->|Hne]; [exists 0%nat; split; [lia|done]|].
    destruct (greedy_hop n m) as (Hhop & Hr & Hrem); [lia..|].
    assert (Z.log2 (n - m) ≤ Z.of_nat d).
    { apply Z.lt_succ_r. rewrite <- Nat2Z.inj_succ. apply Z.log2_lt_pow2; lia. }
    assert (2 ^ Z.log2 (n - m) ≤ 2 ^ Z.of_nat d) by (apply Z.pow_le_mono_r; lia).
    destruct (IH (n - 2 ^ Z.log2 (n - m)) m) as (k & Hk & Hhops); [lia..|].
    exists (S k). split; [lia|]. eexists. eauto.
Qed.

(** C9: sparse indices give logarithmic traversal: from any state below 2^63
    every earlier state is reached by following index references in at most
    [log2 (n - m) + 1] hops. *)
Theorem sparse_traversal_logarithmic (n m : Z) :
  0 ≤ m < n → n < 2 ^ 63 →
  ∃ k, (Z.of_nat k ≤ Z.log2 (n - m) + 1) ∧ Sparse.hops k n m.
Proof.
  intros Hm Hn. pose proof (Z.log2_nonneg (n - m)).
  destruct (hops_log (Z.to_nat (Z.log2 (n - m) + 1)) n m) as (k & Hk & Hh); [lia..| |].
  - rewrite Z2Nat.id by lia. apply Z.log2_spec. lia.
  - exists k. split; [lia|done].
Qed.

(** The second index algorithm (transition.rs) keeps only the distances
    that are set bits of the state number besides genesis and the predecessor:
    it satisfies both of its debug assertions, its result is contained in the
    index stored in states, and every index it leaves out is one at a
    power-of-two distance whose bit is clear. *)
Theorem bit_indices_spec (n : Z) :
  0 < n < 2 ^ 63 →
  ∃ b l, Sparse.transition_sparse_indices n = Ok b ∧ Sparse.calculate_sparse_indices n = Ok l ∧
    0 ∈ b ∧ n - 1 ∈ b ∧ (∀ i, i ∈ b → i ∈ l) ∧
    (∀ i, i ∈ l → i ∉ b → ∃ p, 0 < p ∧ Z.testbit n p = false ∧ i = n - 2 ^ p).
Proof.
  intros Hn. destruct (sparse_indices_elem n Hn) as (l & Hl & _ & _ & Hin).
  pose proof (log2_u63 n Hn) as Hlog.
  destruct (bits_loop_run n (Z.to_nat (Z.log2 n + 1)) 65 0 []) as (b & Hb & Hbin); [lia..|].
  unfold Sparse.transition_sparse_indices. rewrite (proj2 (Z.eqb_neq _ _)), Hb by lia.
  cbn [mbind outcome_bind app]. eexists _, l. split; [done|]. split; [done|].
  set (b1 := Sparse.push_if _ 0 b).
  assert (Hb1 : ∀ i, i ∈ b1 ↔ i ∈ b ∨ i = 0) by (intros i; apply (push_if_absent 0 i b true eq_refl)).
  assert (Hone : n = 1 → n - 1 ∈ b1) by (intros ->; apply Hb1; by right).
  set (b2 := Sparse.push_if _ (n - 1) b1).
  assert (Hb2 : ∀ i, i ∈ b2 ↔ i ∈ b1 ∨ i = n - 1).
  { intros i. unfold b2. destruct (Z.ltb_spec 1 n); [by apply push_if_absent|].
    rewrite elem_of_push_if. assert (n = 1) as Hn1 by lia. specialize (Hone Hn1).
    split; [intros [?|[? _]]; [by left|done]|intros [?| ->]; by left]. }
  setoid_rewrite elem_of_sort_u64. setoid_rewrite Hb2. setoid_rewrite Hb1. setoid_rewrite Hbin.
  setoid_rewrite Hin. split_and!.
  - by left; right.
  - by right.
  - intros i [[(p & Hp & _ & ->)| ->]| ->]; [right; exists p|by left|right; exists 0];
      split_and!; try lia. apply pow2_le_log; lia.
  - intros i [->|(p & Hp & Hle & ->)] Hni; [exfalso; apply Hni; left; by right|]. exists p.
    apply pow2_le_log in Hle; [|lia..]. split_and!; [|destruct (Z.testbit n p) eqn:E; [|done]|done].
    + destruct (decide (p = 0)) as [->|]; [|lia]. exfalso. apply Hni. right. lia.
    + exfalso. apply Hni. left; left. exists p. split_and!; try done; lia.
Qed.

(** ** Witnesses *)

Lemma sparse_indices_spec_witness :
  Sparse.calculate_sparse_indices 11 = Ok [0; 3; 7; 9; 10] ∧
  ∃ l, Sparse.calculate_sparse_indices 11 = Ok l ∧ 10 ∈ l.
Proof.
  split; [reflexivity|]. destruct (sparse_indices_spec 11) as (l & Hl & _ & _ & _ & Hp & _); [lia|].
  by exists l.
Defined.

Lemma sparse_indices_panic_witness : Sparse.calculate_sparse_indices (2 ^ 63) = Panic.
Proof. apply (sparse_indices_panic (2 ^ 63)). lia. Defined.

Lemma sparse_traversal_logarithmic_witness : ∃ k, Z.of_nat k ≤ 4 ∧ Sparse.hops k 11 2.
Proof. apply (sparse_traversal_logarithmic 11 2); lia. Defined.

Lemma bit_indices_spec_witness :
  Sparse.transition_sparse_indices 11 = Ok [0; 3; 9; 10] ∧
  ∃ b, Sparse.transition_sparse_indices 11 = Ok b ∧ 0 ∈ b.
Proof.
  split; [reflexivity|]. destruct (bit_indices_spec 11) as (b & l & Hb & _ & H0 & _); [lia|].
  by exists b.
Defined.
