(* ===== verification/States.v ===== *)
(** * States (dsm/src/types/state_types.rs, core/state_machine/utils.rs, crypto/blake3.rs)

    The [State] record with every field of the source, its constructors, the
    state hash and the other digests computed from it. *)
From S2P Require Import Prelude Tokens Operations SparseIdx.

(** ** Data *)

Record DeviceInfo := mkDevice { dev_device_id : string; dev_public_key : bytes }.

Inductive StateFlag :=
  | Recovered
  | Compromised
  | Invalidated
  | Synced
  | Custom (s : string).

#[global] Instance StateFlag_eq_dec : EqDecision StateFlag.
Proof. solve_decision. Defined.

#[global] Instance StateFlag_countable : Countable StateFlag.
Proof.
  refine (inj_countable'
    (fun f => match f with
              | Recovered => inl 0%nat | Compromised => inl 1%nat
              | Invalidated => inl 2%nat | Synced => inl 3%nat
              | Custom s => inr s end)
    (fun x => match x with
              | inl 0%nat => Recovered | inl 1%nat => Compromised
              | inl 2%nat => Invalidated | inl _ => Synced
              | inr s => Custom s end) _).
  by intros [].
Defined.

Record RelationshipContext := mkRelCtx {
  rc_entity_id : string;
  rc_entity_state_number : Z;
  rc_counterparty_id : string;
  rc_counterparty_state_number : Z;
  rc_counterparty_public_key : bytes;
  rc_relationship_hash : bytes;
  rc_active : bool;
}.

(** [fixed_parameters : HashMap] and [variable_parameters : HashSet], in their
    iteration order. *)
Record PreCommitment := mkPreCommitment {
  pc_operation_type : string;
  pc_fixed_parameters : list (string * bytes);
  pc_variable_parameters : list string;
  pc_min_state_number : Z;
  pc_hash : bytes;
  pc_signatures : list bytes;
  pc_entity_signature : option bytes;
  pc_counterparty_signature : option bytes;
  pc_timestamp : Z;
  pc_expires_at : option Z;
  pc_value : list Z;
  pc_commitment : list Z;
  pc_counterparty_id : string;
}.

Record PositionSequence := mkPositionSequence {
  ps_positions : list (list Z);
  ps_seed : bytes;
}.

Record State := mkState {
  st_id : string;
  state_number : Z;
  entropy : bytes;
  hash : bytes;
  prev_state_hash : bytes;
  sparse_index : SparseIndex;
  operation : Operation;
  encapsulated_entropy : option bytes;
  device_info : DeviceInfo;
  flags : gset StateFlag;
  token_balances : gmap string Balance;
  matches_parameters : bool;
  relationship_context : option RelationshipContext;
  forward_commitment : option PreCommitment;
  position_sequence : option PositionSequence;
  positions : list (list Z);
  st_public_key : bytes;
  device_id : string;
  hashchain_head : option bytes;
  external_data : gmap string bytes;
  entity_sig : option bytes;
  counterparty_sig : option bytes;
  st_value : list Z;
  st_commitment : list Z;
  state_type : string;
}.

(** [StateParams], the fields [State::new] reads. *)
Record StateParams := mkStateParams {
  sp_state_number : Z;
  sp_entropy : bytes;
  sp_encapsulated_entropy : option bytes;
  sp_prev_state_hash : bytes;
  sp_sparse_index : SparseIndex;
  sp_operation : Operation;
  sp_device_info : DeviceInfo;
  sp_forward_commitment : option PreCommitment;
  sp_matches_parameters : bool;
  sp_state_type : string;
  sp_value : list Z;
  sp_commitment : list Z;
}.

(** [#[derive(Default)]] *)
Definition default_state : State :=
  mkState "" 0 [] [] [] (mkSparse []) Genesis None (mkDevice "" []) ∅ ∅ false None None None []
    [] "" None ∅ None None [] [] "".

(** [format!("state_{}", n)] *)
Definition state_id (n : Z) : string := "state_" +:+ pretty n.

(** ** [utils::constant_time_eq] and the entropy functions *)

(** [result |= x ^ y] over the zipped slices, on u8. *)
Fixpoint ct_diff (a b : bytes) (result : Z) : Z :=
  match a, b with
  | x :: a, y :: b =>
      ct_diff a b (Z.lor result (Z.lxor (coqutil.Byte.byte.unsigned x) (coqutil.Byte.byte.unsigned y)))
  | _, _ => result
  end.

Definition constant_time_eq (a b : bytes) : bool :=
  if negb (Nat.eqb (length a) (length b)) then false else ct_diff a b 0 =? 0.

Section Hashes.
Context {B3 : Blake3}.

(** [utils::calculate_next_entropy] and
    [crypto::blake3::generate_deterministic_entropy] *)
Definition calculate_next_entropy (current_entropy operation_bytes : bytes) (next : Z) : bytes :=
  blake3 (current_entropy ++ operation_bytes ++ u64_le next).
Definition generate_deterministic_entropy (current_entropy op : bytes) (next : Z) : bytes :=
  blake3 (current_entropy ++ op ++ u64_le next).

(** The thread-local hasher is a state of its own: the bytes absorbed so far.
    [reset] empties it. *)
Definition generate_deterministic_entropy_concurrent (hasher : bytes)
    (current_entropy op : bytes) (next : Z) : bytes * bytes :=
  let hasher := [] in
  let hasher := hasher ++ current_entropy in
  let hasher := hasher ++ op in
  let hasher := hasher ++ u64_le next in
  (blake3 hasher, hasher).

End Hashes.

Module St.
Section St.
Context {B3 : Blake3} {SO : Bincode Operation} {SB : Bincode Balance} {SP : Bincode PreCommitment}.

(** ** Constructors *)

Definition new (p : StateParams) : State :=
  mkState (state_id (sp_state_number p)) (sp_state_number p) (sp_entropy p) []
    (sp_prev_state_hash p) (sp_sparse_index p) (sp_operation p) (sp_encapsulated_entropy p)
    (sp_device_info p) ∅ ∅ (sp_matches_parameters p) None (sp_forward_commitment p) None []
    (dev_public_key (sp_device_info p)) (dev_device_id (sp_device_info p)) None ∅ None None
    (sp_value p) (sp_commitment p) (sp_state_type p).

Definition params_new (state_number : Z) (entropy : bytes) (op : Operation) (d : DeviceInfo) : StateParams :=
  mkStateParams state_number entropy None (zeros 32) (mkSparse []) op d None false "standard" [] [].

Definition with_encapsulated_entropy (p : StateParams) (e : bytes) : StateParams :=
  mkStateParams (sp_state_number p) (sp_entropy p) (Some e) (sp_prev_state_hash p)
    (sp_sparse_index p) (sp_operation p) (sp_device_info p) (sp_forward_commitment p)
    (sp_matches_parameters p) (sp_state_type p) (sp_value p) (sp_commitment p).
Definition with_prev_state_hash (p : StateParams) (h : bytes) : StateParams :=
  mkStateParams (sp_state_number p) (sp_entropy p) (sp_encapsulated_entropy p) h
    (sp_sparse_index p) (sp_operation p) (sp_device_info p) (sp_forward_commitment p)
    (sp_matches_parameters p) (sp_state_type p) (sp_value p) (sp_commitment p).
Definition with_sparse_index (p : StateParams) (i : SparseIndex) : StateParams :=
  mkStateParams (sp_state_number p) (sp_entropy p) (sp_encapsulated_entropy p)
    (sp_prev_state_hash p) i (sp_operation p) (sp_device_info p) (sp_forward_commitment p)
    (sp_matches_parameters p) (sp_state_type p) (sp_value p) (sp_commitment p).

Definition new_genesis (initial_entropy : bytes) (d : DeviceInfo) : State :=
  let op := Create "Genesis state creation" [] (dev_public_key d) [] [] [] Bilateral in
  mkState "genesis" 0 initial_entropy [] [] (mkSparse []) op None d {[ Recovered ]} ∅ false None
    None None [] (dev_public_key d) (dev_device_id d) None ∅ None None [] [] "standard".

(** ** Setters *)

Definition set_hash (h : bytes) (s : State) : State :=
  mkState (st_id s) (state_number s) (entropy s) h (prev_state_hash s) (sparse_index s)
    (operation s) (encapsulated_entropy s) (device_info s) (flags s) (token_balances s)
    (matches_parameters s) (relationship_context s) (forward_commitment s) (position_sequence s)
    (positions s) (st_public_key s) (device_id s) (hashchain_head s) (external_data s)
    (entity_sig s) (counterparty_sig s) (st_value s) (st_commitment s) (state_type s).
Definition set_operation (op : Operation) (s : State) : State :=
  mkState (st_id s) (state_number s) (entropy s) (hash s) (prev_state_hash s) (sparse_index s)
    op (encapsulated_entropy s) (device_info s) (flags s) (token_balances s)
    (matches_parameters s) (relationship_context s) (forward_commitment s) (position_sequence s)
    (positions s) (st_public_key s) (device_id s) (hashchain_head s) (external_data s)
    (entity_sig s) (counterparty_sig s) (st_value s) (st_commitment s) (state_type s).
Definition set_token_balances (b : gmap string Balance) (s : State) : State :=
  mkState (st_id s) (state_number s) (entropy s) (hash s) (prev_state_hash s) (sparse_index s)
    (operation s) (encapsulated_entropy s) (device_info s) (flags s) b
    (matches_parameters s) (relationship_context s) (forward_commitment s) (position_sequence s)
    (positions s) (st_public_key s) (device_id s) (hashchain_head s) (external_data s)
    (entity_sig s) (counterparty_sig s) (st_value s) (st_commitment s) (state_type s).
Definition set_id (i : string) (s : State) : State :=
  mkState i (state_number s) (entropy s) (hash s) (prev_state_hash s) (sparse_index s)
    (operation s) (encapsulated_entropy s) (device_info s) (flags s) (token_balances s)
    (matches_parameters s) (relationship_context s) (forward_commitment s) (position_sequence s)
    (positions s) (st_public_key s) (device_id s) (hashchain_head s) (external_data s)
    (entity_sig s) (counterparty_sig s) (st_value s) (st_commitment s) (state_type s).
Definition set_forward_commitment (c : option PreCommitment) (s : State) : State :=
  mkState (st_id s) (state_number s) (entropy s) (hash s) (prev_state_hash s) (sparse_index s)
    (operation s) (encapsulated_entropy s) (device_info s) (flags s) (token_balances s)
    (matches_parameters s) (relationship_context s) c (position_sequence s)
    (positions s) (st_public_key s) (device_id s) (hashchain_head s) (external_data s)
    (entity_sig s) (counterparty_sig s) (st_value s) (st_commitment s) (state_type s).
Definition with_relationship_context (s : State) (counterparty_id : string)
    (counterparty_state_number : Z) (counterparty_public_key : bytes) : State :=
  mkState (st_id s) (state_number s) (entropy s) (hash s) (prev_state_hash s) (sparse_index s)
    (operation s) (encapsulated_entropy s) (device_info s) (flags s) (token_balances s)
    (matches_parameters s)
    (Some (mkRelCtx (device_id s) (state_number s) counterparty_id counterparty_state_number
             counterparty_public_key [] true))
    (forward_commitment s) (position_sequence s)
    (positions s) (st_public_key s) (device_id s) (hashchain_head s) (external_data s)
    (entity_sig s) (counterparty_sig s) (st_value s) (st_commitment s) (state_type s).

(** ** Predicates and look-ups *)

Definition in_relationship_with (s : State) (counterparty_id : string) : bool :=
  match relationship_context s with
  | Some ctx => bool_decide (rc_counterparty_id ctx = counterparty_id)
  | None => false
  end.
Definition get_counterparty_state (s : State) : option Z :=
  rc_counterparty_state_number <$> relationship_context s.
Definition is_genesis (s : State) : bool := bool_decide (Recovered ∈ flags s).
Definition is_invalidated (s : State) : bool := bool_decide (Invalidated ∈ flags s).
Definition has_pending_commitment (s : State) : bool := bool_decide (Compromised ∈ flags s).

(** [State::get_parameter]: both operation-specific arms look the key up in
    [external_data] a second time and find nothing. *)
Definition get_parameter (s : State) (key : string) : option bytes :=
  match external_data s !! key with
  | Some v => Some v
  | None =>
      match operation s with
      | Transfer _ _ _ _ _ _ _ _ _ _ =>
          if bool_decide (key = "token_id"%string) then external_data s !! "token_id"%string else None
      | AddRelationship _ _ _ _ _ _ _ =>
          if bool_decide (key = "relationship_type"%string)
          then external_data s !! "relationship_type"%string else None
      | _ => None
      end
  end.

(** ** Digests *)

(** The hasher input for the balances, in the order of the list. *)
Fixpoint hash_balances (l : list (string * Balance)) : outcome bytes :=
  match l with
  | [] => Ok []
  | (token_id, balance) :: l =>
      b ← serialize_or "Failed to serialize balance" balance;
      rest ← hash_balances l;
      Ok (str_bytes token_id ++ b ++ rest)
  end.

(** The bytes fed to the hasher, with the balances given in the iteration
    order [l] of the map. *)
Definition hash_input (s : State) (l : list (string * Balance)) : outcome bytes :=
  op_bytes ← serialize_or "Failed to serialize operation" (operation s);
  fc_bytes ← match forward_commitment s with
             | Some fc => serialize_or "Failed to serialize forward commitment" fc
             | None => Ok []
             end;
  bal_bytes ← hash_balances (sort_by_key l);
  Ok (u64_le (state_number s) ++ prev_state_hash s ++ entropy s ++
      unwrap_or [] (encapsulated_entropy s) ++ op_bytes ++
      str_bytes (dev_device_id (device_info s)) ++ dev_public_key (device_info s) ++
      fc_bytes ++ bal_bytes).

Definition compute_hash (s : State) : outcome bytes :=
  input ← hash_input s (map_to_list (token_balances s));
  Ok (blake3 input).

(** [State::hash]: the cached hash when there is one. *)
Definition get_hash (s : State) : outcome bytes :=
  match hash s with
  | [] => compute_hash s
  | _ => Ok (hash s)
  end.

Definition pre_finalization_hash (s : State) : outcome bytes :=
  op_bytes ← serialize_or "Failed to serialize operation" (operation s);
  Ok (blake3 (u64_le (state_number s) ++ entropy s ++ prev_state_hash s ++ op_bytes)).

(** [bincode::serialize(balance).unwrap()] *)
Fixpoint balance_layer (l : list (string * Balance)) : outcome bytes :=
  match l with
  | [] => Ok []
  | (token_id, balance) :: l =>
      b ← unwrap (serialize balance);
      rest ← balance_layer l;
      Ok (str_bytes token_id ++ b ++ rest)
  end.

Definition finalized_verification_hash (s : State) : outcome bytes :=
  pre_hash ← pre_finalization_hash s;
  layer ← balance_layer (sort_by_key (map_to_list (token_balances s)));
  Ok (blake3 (pre_hash ++ str_bytes "TOKEN_BALANCES" ++ layer)).

(** [State::value] *)
Definition value (s : State) : Z :=
  of_le_bytes (take 8 (blake3 (u64_le (state_number s) ++
    concat (map u64_le (sort_u64 (indices (sparse_index s))))))).

(** [PreCommitment::generate_hash] *)
Definition generate_hash (s : State) (op : Operation) (next_entropy : bytes) : outcome bytes :=
  h ← get_hash s;
  op_bytes ← serialize_or "Failed to serialize operation" op;
  Ok (blake3 (h ++ op_bytes ++ next_entropy)).

Definition new_with_operation (prev : State) (op : Operation) : outcome State :=
  op_bytes ← serialize_or "Failed to serialize operation" op;
  let new_entropy := blake3 (entropy prev ++ op_bytes) in
  let new_hash := blake3 (new_entropy ++ hash prev) in
  n ← u64_add (state_number prev) 1;
  idx ← Sparse.calculate_sparse_indices n;
  Ok (mkState (state_id n) n new_entropy new_hash (hash prev) (mkSparse idx) op None
        (device_info prev) ∅ (token_balances prev) false None None None []
        (dev_public_key (device_info prev)) (dev_device_id (device_info prev)) (Some new_hash) ∅
        None None [] [] "benchmark").

(** [utils::verify_state_hash]: compares the cached hash with itself. *)
Definition utils_verify_state_hash (s : State) : outcome bool :=
  computed ← get_hash s;
  if negb (Nat.eqb (length computed) (length (hash s))) then Ok false
  else Ok (constant_time_eq computed (hash s)).

(** [HashChain::verify_state_hash]: recomputes the hash. *)
Definition verify_state_hash (s : State) : outcome bool :=
  expected ← compute_hash s;
  Ok (constant_time_eq expected (hash s)).

End St.
End St.

(** ** Lemmas *)

Lemma ct_diff_zero a b r :
  length a = length b → ct_diff a b r = 0 ↔ r = 0 ∧ a = b.
Proof.
  revert b r. induction a as [|x a IH]; intros [|y b] r Hlen; try done; [naive_solver|].
  cbn [ct_diff]. rewrite IH by (cbn in Hlen; lia). rewrite Z.lor_eq_0_iff, Z.lxor_eq_0_iff.
  split.
  - intros ((-> & Hxy%coqutil.Byte.byte.unsigned_inj) & ->). by subst.
  - by intros (-> & [= -> ->]).
Qed.

Lemma constant_time_eq_spec a b : constant_time_eq a b = true ↔ a = b.
Proof.
  unfold constant_time_eq. destruct (Nat.eqb_spec (length a) (length b)) as [Hl|Hl]; cbn.
  - rewrite Z.eqb_eq, ct_diff_zero by done. naive_solver.
  - split; [done|]. by intros ->.
Qed.

Lemma constant_time_eq_refl a : constant_time_eq a a = true.
Proof. by apply constant_time_eq_spec. Qed.

Section StateFacts.
Context {B3 : Blake3} {SO : Bincode Operation} {SB : Bincode Balance} {SP : Bincode PreCommitment}.

Lemma compute_hash_length s h : St.compute_hash s = Ok h → length h = 32%nat.
Proof.
  unfold St.compute_hash. intros (i & _ & [= <-])%bind_Ok. apply blake3_length.
Qed.

Lemma compute_hash_nonempty s h : St.compute_hash s = Ok h → h ≠ [].
Proof. intros Hl%compute_hash_length ->. done. Qed.

Lemma get_hash_cached s : hash s ≠ [] → St.get_hash s = Ok (hash s).
Proof. unfold St.get_hash. by destruct (hash s). Qed.

(** Only the covered fields matter for the hash. *)
Lemma compute_hash_ext s s' :
  state_number s = state_number s' → prev_state_hash s = prev_state_hash s' →
  entropy s = entropy s' → encapsulated_entropy s = encapsulated_entropy s' →
  operation s = operation s' → device_info s = device_info s' →
  forward_commitment s = forward_commitment s' → token_balances s = token_balances s' →
  St.compute_hash s = St.compute_hash s'.
Proof.
  intros Hn Hp He Hee Ho Hd Hf Hb. unfold St.compute_hash, St.hash_input.
  by rewrite Hn, Hp, He, Hee, Ho, Hd, Hf, Hb.
Qed.

Lemma compute_hash_set_hash h s : St.compute_hash (St.set_hash h s) = St.compute_hash s.
Proof. by apply compute_hash_ext. Qed.

Lemma hash_balances_total {TB : BincodeTotal Balance} l : ∃ b, St.hash_balances l = Ok b.
Proof.
  induction l as [|[k b] l [r Hr]]; cbn; [by eexists|].
  destruct (serialize_or_total "Failed to serialize balance" b) as (x & _ & ->). cbn.
  rewrite Hr. by eexists.
Qed.

Lemma compute_hash_total {TO : BincodeTotal Operation} {TB : BincodeTotal Balance}
    {TP : BincodeTotal PreCommitment} s : ∃ h, St.compute_hash s = Ok h.
Proof.
  unfold St.compute_hash, St.hash_input.
  destruct (serialize_or_total "Failed to serialize operation" (operation s)) as (x & _ & ->). cbn.
  destruct (hash_balances_total (sort_by_key (map_to_list (token_balances s)))) as (y & ->).
  destruct (forward_commitment s) as [fc|]; cbn; [|by eexists].
  destruct (serialize_or_total "Failed to serialize forward commitment" fc) as (z & _ & ->).
  by eexists.
Qed.

Lemma get_hash_total {TO : BincodeTotal Operation} {TB : BincodeTotal Balance}
    {TP : BincodeTotal PreCommitment} s : ∃ h, St.get_hash s = Ok h ∧ h ≠ [].
Proof.
  unfold St.get_hash. destruct (hash s) eqn:E.
  - destruct (compute_hash_total s) as [h Hh]. exists h. split; [done|]. by eapply compute_hash_nonempty.
  - by eexists.
Qed.

(** What hashing the states of a list feeds to BLAKE3. *)
Definition state_inputs (l : list State) : list bytes :=
  omap (fun s => match St.hash_input s (map_to_list (token_balances s)) with Ok i => Some i | _ => None end) l.

Lemma state_inputs_mono l l' : l ⊆ l' → state_inputs l ⊆ state_inputs l'.
Proof. intros Hl x. unfold state_inputs. rewrite !list_elem_of_omap. intros (s & Hs & E). exists s. split; [by apply Hl|done]. Qed.

End StateFacts.
#[export] Hint Resolve constant_time_eq_refl compute_hash_nonempty : dsm.

(** ** Properties *)

Section StateProps.
Context {B3 : Blake3} {SO : Bincode Operation} {SB : Bincode Balance} {SP : Bincode PreCommitment}.

(** [constant_time_eq] decides equality of byte strings, whatever their
    lengths. *)
Theorem constant_time_eq_decides (a b : bytes) :
  constant_time_eq a b = bool_decide (a = b).
Proof.
  destruct (decide (a = b)) as [->|Hne].
  - rewrite bool_decide_eq_true_2 by done. apply constant_time_eq_refl.
  - rewrite bool_decide_eq_false_2 by done. apply not_true_iff_false.
    by rewrite constant_time_eq_spec.
Qed.

(** The thread-local entropy function gives the result of the plain one
    whatever an earlier call left in the shared hasher. *)
Theorem concurrent_entropy_agrees (leftover current_entropy op : bytes) (next : Z) :
  (generate_deterministic_entropy_concurrent leftover current_entropy op next).1 =
    generate_deterministic_entropy current_entropy op next ∧
  generate_deterministic_entropy current_entropy op next = calculate_next_entropy current_entropy op next.
Proof.
  split; [|done]. unfold generate_deterministic_entropy_concurrent, generate_deterministic_entropy.
  cbn. by rewrite <- app_assoc.
Qed.

(** The state hash does not depend on the iteration order of the balance
    map: any enumeration of the map gives the same hasher input. *)
Theorem hash_independent_of_map_order (s : State) (l : list (string * Balance)) :
  l ≡ₚ map_to_list (token_balances s) →
  St.hash_input s l = St.hash_input s (map_to_list (token_balances s)).
Proof.
  intros Hp. unfold St.hash_input. erewrite sort_by_key_perm; [done| |done].
  rewrite Hp. apply NoDup_fst_map_to_list.
Qed.

(** [utils::verify_state_hash] accepts every state that carries a hash: it
    compares the cached hash with itself, while the check of the hash chain
    accepts exactly the states whose hash is the recomputed one. *)
Theorem utils_verify_state_hash_vacuous (s : State) (h : bytes) :
  hash s ≠ [] → St.compute_hash s = Ok h →
  St.utils_verify_state_hash s = Ok true ∧
  (St.verify_state_hash s = Ok true ↔ hash s = h).
Proof.
  intros Hne Hh. unfold St.utils_verify_state_hash, St.verify_state_hash.
  rewrite get_hash_cached, Hh by done. cbn. rewrite Nat.eqb_refl, constant_time_eq_refl. cbn.
  split; [done|]. split.
  - intros [= Heq%constant_time_eq_spec]. done.
  - intros ->. by rewrite constant_time_eq_refl.
Qed.

(** The state hash is not injective on states even for a perfect BLAKE3:
    fields are concatenated without lengths, so moving the tail of the entropy
    into the encapsulated entropy gives a different state with the same hash,
    and a missing encapsulated entropy hashes like an empty one. *)
Theorem state_hash_field_boundaries (s s' : State) (e x y : bytes) :
  state_number s' = state_number s → prev_state_hash s' = prev_state_hash s →
  operation s' = operation s → device_info s' = device_info s →
  forward_commitment s' = forward_commitment s → token_balances s' = token_balances s →
  entropy s = e ++ x → encapsulated_entropy s = Some y →
  entropy s' = e → encapsulated_entropy s' = Some (x ++ y) →
  St.compute_hash s' = St.compute_hash s.
Proof.
  intros Hn Hp Ho Hd Hf Hb He Hee He' Hee'. unfold St.compute_hash, St.hash_input.
  rewrite Hn, Hp, Ho, Hd, Hf, Hb, He, Hee, He', Hee'. cbn [unwrap_or].
  destruct (serialize_or _ (operation s)) as [ob| | |]; try done. cbn [mbind outcome_bind].
  destruct (match forward_commitment s with Some _ => _ | None => _ end); try done.
  cbn [mbind outcome_bind]. destruct (St.hash_balances _); try done. cbn.
  by rewrite <- !app_assoc.
Qed.

End StateProps.

(** ** Concrete codecs and states for the witnesses *)

Module ToySt.
Definition toy_bincode_balance : Bincode Balance := fun b => Some (Bal.to_le_bytes b).
Definition toy_bincode_precommitment : Bincode PreCommitment :=
  fun c => Some (str_bytes (pc_operation_type c) ++ pc_hash c).

Lemma toy_operation_total : @BincodeTotal Operation toy_bincode_operation.
Proof. intros op. by eexists. Qed.
Lemma toy_balance_total : @BincodeTotal Balance toy_bincode_balance.
Proof. intros b. by eexists. Qed.
Lemma toy_precommitment_total : @BincodeTotal PreCommitment toy_bincode_precommitment.
Proof. intros c. by eexists. Qed.

Definition device : DeviceInfo := mkDevice "device-1" (str_bytes "pk").
Definition genesis : State := St.new_genesis (str_bytes "seed") device.
Definition with_balances : State :=
  St.set_token_balances (<["b"%string := mkBalance 2 0 0 None]> {["a"%string := mkBalance 1 0 0 None]}) genesis.
End ToySt.

Section StateWitnesses.
#[local] Existing Instances Toy.toy_blake3 toy_bincode_operation
  ToySt.toy_bincode_balance ToySt.toy_bincode_precommitment.

Lemma hash_independent_of_map_order_witness :
  St.hash_input ToySt.with_balances
    (reverse (map_to_list (token_balances ToySt.with_balances))) =
  St.hash_input ToySt.with_balances (map_to_list (token_balances ToySt.with_balances)).
Proof.
  apply (hash_independent_of_map_order ToySt.with_balances). apply reverse_Permutation.
Defined.

Definition tampered : State := St.set_hash (zeros 32) ToySt.genesis.

Lemma utils_verify_state_hash_vacuous_witness :
  St.utils_verify_state_hash tampered = Ok true ∧ St.verify_state_hash tampered = Ok false.
Proof.
  split; [|vm_compute; reflexivity].
  apply (utils_verify_state_hash_vacuous tampered
    (le_bytes 32 (Toy.checksum (unwrap_or [] (match St.hash_input tampered [] with Ok i => Some i | _ => None end)))));
    [discriminate|vm_compute; reflexivity].
Defined.

Definition split_state (e ee : bytes) : State :=
  St.new (St.with_encapsulated_entropy (St.params_new 1 e Genesis ToySt.device) ee).

Lemma state_hash_field_boundaries_witness :
  entropy (split_state (str_bytes "ab") (str_bytes "c")) ≠
    entropy (split_state (str_bytes "a") (str_bytes "bc")) ∧
  St.compute_hash (split_state (str_bytes "a") (str_bytes "bc")) =
    St.compute_hash (split_state (str_bytes "ab") (str_bytes "c")).
Proof.
  split; [discriminate|].
  apply (state_hash_field_boundaries (split_state (str_bytes "ab") (str_bytes "c"))
           (split_state (str_bytes "a") (str_bytes "bc"))
           (str_bytes "a") (str_bytes "b") (str_bytes "c")); reflexivity.
Defined.

End StateWitnesses.
