(* ===== verification/RandomWalk.v ===== *)
(** * Random walk verification (dsm/src/core/state_machine/random_walk.rs)

    Positions derived from a seed by iterated hashing, and the comparison of
    two position sequences. *)
From S2P Require Import Prelude Tokens Operations SparseIdx States.

Record RandomWalkConfig := mkConfig {
  dimensions : nat;
  step_count : nat;
  max_coordinate : Z;
  position_count : nat;
}.

Definition DEFAULT_DIMENSIONS : nat := 3.
Definition DEFAULT_STEP_COUNT : nat := 64.
Definition DEFAULT_MAX_COORDINATE : Z := 1000000.
Definition HASH_SIZE : nat := 32.

Definition default_config : RandomWalkConfig :=
  mkConfig DEFAULT_DIMENSIONS DEFAULT_STEP_COUNT DEFAULT_MAX_COORDINATE DEFAULT_STEP_COUNT.

(** [Position(pub Vec<i32>)] *)
Abbreviation Position := (list Z).

Module Walk.
Section Walk.
Context {B3 : Blake3} {SO : Bincode Operation} {SB : Bincode Balance} {SP : Bincode PreCommitment}.

Definition generate_seed (state external_data : bytes) (additional_params : option bytes) : bytes :=
  blake3 (state ++ external_data ++ unwrap_or [] additional_params).

(** [v as i32] of a u32: the wrapped two's complement value. *)
Definition as_i32 (v : Z) : Z :=
  let w := v mod 2 ^ 32 in if w <? 2 ^ 31 then w else w - 2 ^ 32.
(** [a - b] on i32 with overflow checks. *)
Definition i32_sub (a b : Z) : outcome Z :=
  if (- 2 ^ 31 <=? a - b) && (a - b <? 2 ^ 31) then Ok (a - b) else Panic.
(** [2 * m] on u32 with overflow checks. *)
Definition u32_double (m : Z) : outcome Z :=
  if 2 * m <? 2 ^ 32 then Ok (2 * m) else Panic.
(** [a % b] on u32: panics for a zero divisor. *)
Definition u32_rem (a b : Z) : outcome Z := if b =? 0 then Panic else Ok (a mod b).

(** One coordinate, from four bytes of the current hash. *)
Definition coordinate (current_hash : bytes) (max : Z) (d : nat) : outcome Z :=
  let offset := ((d mod (HASH_SIZE / 4)) * 4)%nat in
  let word := take 4 (drop offset current_hash) in
  if negb (Nat.eqb (length word) 4) then Panic
  else
    m2 ← u32_double max;
    v ← u32_rem (of_le_bytes word) m2;
    i32_sub (as_i32 v) (as_i32 max).

Fixpoint gen_position (current_hash : bytes) (max : Z) (ds : list nat) : outcome Position :=
  match ds with
  | [] => Ok []
  | d :: ds =>
      c ← coordinate current_hash max d;
      rest ← gen_position current_hash max ds;
      Ok (c :: rest)
  end.

Fixpoint gen_positions (steps : nat) (current_hash : bytes) (config : RandomWalkConfig)
    : outcome (list Position) :=
  match steps with
  | O => Ok []
  | S steps =>
      p ← gen_position current_hash (max_coordinate config) (seq 0 (dimensions config));
      rest ← gen_positions steps (blake3 current_hash) config;
      Ok (p :: rest)
  end.

Definition generate_positions (seed : bytes) (config : option RandomWalkConfig)
    : outcome (list Position) :=
  let config := unwrap_or default_config config in
  if Nat.eqb (dimensions config) 0 then
    Err (EInvalidParameter "Dimensions must be greater than 0")
  else if Nat.eqb (step_count config) 0 then
    Err (EInvalidParameter "Step count must be greater than 0")
  else gen_positions (step_count config) seed config.

Fixpoint coords_match (a b : Position) : bool :=
  match a, b with
  | x :: a, y :: b => if negb (x =? y) then false else coords_match a b
  | _, _ => true
  end.

Fixpoint zip_match (a b : list Position) : bool :=
  match a, b with
  | x :: a, y :: b =>
      if negb (Nat.eqb (length x) (length y)) then false
      else if negb (coords_match x y) then false
      else zip_match a b
  | _, _ => true
  end.

Definition verify_positions (a b : list Position) : bool :=
  if negb (Nat.eqb (length a) (length b)) then false else zip_match a b.

Definition generate_random_walk_coordinates (h external_data : bytes)
    (config : option RandomWalkConfig) : outcome (list Position) :=
  generate_positions (generate_seed h external_data None) config.

Definition verify_random_walk_coordinates (h external_data : bytes) (ps : list Position)
    (config : option RandomWalkConfig) : outcome bool :=
  expected ← generate_positions (generate_seed h external_data None) config;
  Ok (verify_positions ps expected).

Definition generate_forward_commitment_verification (commitment ent : bytes)
    (config : option RandomWalkConfig) : outcome (list Position) :=
  generate_positions (generate_seed commitment ent None) config.

Definition generate_secure_multi_party_seed (s : State) (op : bytes) (participants : list bytes)
    : outcome bytes :=
  h ← St.get_hash s;
  Ok (blake3 (h ++ op ++ concat participants)).

(** [hash.try_into() : [u8; 32]] *)
Definition to_array32 (e : DsmError) (h : bytes) : outcome bytes :=
  if Nat.eqb (length h) 32 then Ok h else Err e.

(** [Operation::to_bytes]: [bincode::serialize(self).unwrap_or_default()] *)
Definition op_to_bytes (op : Operation) : bytes := unwrap_or [] (serialize op).

Definition verify_state_transition (previous new_state : State) (ps : list Position) : outcome bool :=
  let op := op_to_bytes (operation new_state) in
  n ← u64_add (state_number previous) 1;
  let next_entropy := calculate_next_entropy (entropy previous) op n in
  h ← St.get_hash previous;
  h ← to_array32 (EInternal "Failed to convert hash to array") h;
  let expected_seed := generate_seed h op (Some next_entropy) in
  expected ← generate_positions expected_seed None;
  Ok (verify_positions ps expected).

End Walk.
End Walk.

(** ** Lemmas *)

Lemma coords_match_spec a b : length a = length b → Walk.coords_match a b = true ↔ a = b.
Proof.
  revert b. induction a as [|x a IH]; intros [|y b] Hl; try done. cbn [Walk.coords_match].
  destruct (Z.eqb_spec x y) as [->|Hne]; cbn; [rewrite IH by (cbn in Hl; lia)|]; naive_solver.
Qed.

Lemma zip_match_spec a b : length a = length b → Walk.zip_match a b = true ↔ a = b.
Proof.
  revert b. induction a as [|x a IH]; intros [|y b] Hl; try done. cbn [Walk.zip_match].
  destruct (Nat.eqb_spec (length x) (length y)) as [Hxy|Hxy]; cbn; [|naive_solver].
  destruct (Walk.coords_match x y) eqn:E; cbn.
  - apply coords_match_spec in E as ->; [|done]. rewrite IH by (cbn in Hl; lia). naive_solver.
  - split; [done|]. intros [= -> ->]. rewrite <- not_true_iff_false in E. exfalso.
    apply E. by apply coords_match_spec.
Qed.

Lemma verify_positions_eq a b : Walk.verify_positions a b = true ↔ a = b.
Proof.
  unfold Walk.verify_positions. destruct (Nat.eqb_spec (length a) (length b)) as [Hl|Hl]; cbn.
  - by apply zip_match_spec.
  - split; [done|]. by intros ->.
Qed.

Section WalkFacts.
Context {B3 : Blake3}.

Lemma word_length (h : bytes) d :
  length h = 32%nat → length (take 4 (drop ((d mod (HASH_SIZE / 4)) * 4) h)) = 4%nat.
Proof.
  intros Hl. rewrite length_take, length_drop, Hl. change (HASH_SIZE / 4)%nat with 8%nat.
  pose proof (Nat.mod_upper_bound d 8). lia.
Qed.

Lemma coordinate_Ok (h : bytes) max d :
  length h = 32%nat → 0 < max ≤ 2 ^ 30 →
  ∃ c, Walk.coordinate h max d = Ok c ∧ - max ≤ c < max.
Proof.
  intros Hl Hm. unfold Walk.coordinate. rewrite word_length by done. cbn [Nat.eqb negb].
  set (w := of_le_bytes _). unfold Walk.u32_double. rewrite (proj2 (Z.ltb_lt _ _)) by lia.
  cbn [mbind outcome_bind]. unfold Walk.u32_rem. rewrite (proj2 (Z.eqb_neq _ _)) by lia.
  cbn [mbind outcome_bind]. pose proof (Z.mod_pos_bound w (2 * max) ltac:(lia)) as Hb.
  set (r := w mod (2 * max)) in *. clearbody r w. unfold Walk.as_i32.
  rewrite (Z.mod_small r), (Z.mod_small max) by lia.
  rewrite (proj2 (Z.ltb_lt r _)), (proj2 (Z.ltb_lt max _)) by lia. unfold Walk.i32_sub.
  rewrite (proj2 (Z.leb_le _ _)), (proj2 (Z.ltb_lt _ _)) by lia. cbn.
  eexists. split; [done|]. lia.
Qed.

Lemma gen_position_Ok (h : bytes) max ds :
  length h = 32%nat → 0 < max ≤ 2 ^ 30 →
  ∃ p, Walk.gen_position h max ds = Ok p ∧ length p = length ds ∧ Forall (fun c => - max ≤ c < max) p.
Proof.
  intros Hl Hm. induction ds as [|d ds (p & Hp & Hlen & Hall)]; cbn; [by exists []|].
  destruct (coordinate_Ok h max d Hl Hm) as (c & -> & Hc). cbn. rewrite Hp. cbn.
  exists (c :: p). cbn. split_and!; [done|lia|by constructor].
Qed.

Lemma gen_positions_Ok steps (h : bytes) config :
  length h = 32%nat → 0 < max_coordinate config ≤ 2 ^ 30 →
  ∃ ps, Walk.gen_positions steps h config = Ok ps ∧ length ps = steps ∧
    Forall (fun p => length p = dimensions config ∧
      Forall (fun c => - max_coordinate config ≤ c < max_coordinate config) p) ps.
Proof.
  intros Hl Hm. revert h Hl. induction steps as [|steps IH]; intros h Hl; cbn; [by exists []|].
  destruct (gen_position_Ok h (max_coordinate config) (seq 0 (dimensions config)) Hl Hm)
    as (p & -> & Hlen & Hall). cbn.
  destruct (IH (blake3 h) (blake3_length h)) as (ps & -> & Hlen' & Hall'). cbn.
  exists (p :: ps). cbn. rewrite length_seq in Hlen. split_and!; [done|lia|by constructor].
Qed.

Lemma generate_positions_Ok (seed : bytes) config :
  length seed = 32%nat → (0 < dimensions config)%nat → (0 < step_count config)%nat →
  0 < max_coordinate config ≤ 2 ^ 30 →
  ∃ ps, Walk.generate_positions seed (Some config) = Ok ps ∧ length ps = step_count config ∧
    Forall (fun p => length p = dimensions config ∧
      Forall (fun c => - max_coordinate config ≤ c < max_coordinate config) p) ps.
Proof.
  intros Hl Hd Hs Hm. unfold Walk.generate_positions. cbn [unwrap_or].
  destruct (Nat.eqb_spec (dimensions config) 0); [lia|].
  destruct (Nat.eqb_spec (step_count config) 0); [lia|]. by apply gen_positions_Ok.
Qed.

Lemma generate_seed_length s d p : length (Walk.generate_seed s d p) = 32%nat.
Proof. apply blake3_length. Qed.

Lemma default_positions_Ok (seed : bytes) :
  length seed = 32%nat → ∃ ps, Walk.generate_positions seed None = Ok ps.
Proof.
  intros Hl. destruct (generate_positions_Ok seed default_config Hl) as (ps & Hps & _);
    [unfold default_config, DEFAULT_DIMENSIONS, DEFAULT_STEP_COUNT, DEFAULT_MAX_COORDINATE; cbn; lia..|].
  by exists ps.
Qed.

End WalkFacts.

(** ** Properties *)

Section WalkProps.
Context {B3 : Blake3}.

(** Position generation is total and in range: for a 32-byte seed and a
    configuration with positive dimensions and steps and a maximal coordinate
    between one and 2^30, it returns exactly [step_count] positions of
    [dimensions] coordinates, all in [-max, max). *)
Theorem walk_total_in_range (seed : bytes) (config : RandomWalkConfig) :
  length seed = 32%nat → (0 < dimensions config)%nat → (0 < step_count config)%nat →
  0 < max_coordinate config ≤ 2 ^ 30 →
  ∃ ps, Walk.generate_positions seed (Some config) = Ok ps ∧ length ps = step_count config ∧
    Forall (fun p => length p = dimensions config ∧
      Forall (fun c => - max_coordinate config ≤ c < max_coordinate config) p) ps.
Proof. apply generate_positions_Ok. Qed.

(** The validated parameters are not the only ones that matter: dimensions
    and step count of zero are refused with an error, but a maximal coordinate
    of zero reaches the remainder by zero and panics. *)
Theorem walk_zero_parameters (seed : bytes) (d s : nat) (m : Z) (c : nat) :
  length seed = 32%nat →
  Walk.generate_positions seed (Some (mkConfig 0 s m c)) =
    Err (EInvalidParameter "Dimensions must be greater than 0") ∧
  Walk.generate_positions seed (Some (mkConfig (S d) 0 m c)) =
    Err (EInvalidParameter "Step count must be greater than 0") ∧
  Walk.generate_positions seed (Some (mkConfig (S d) (S s) 0 c)) = Panic.
Proof.
  intros Hl. split_and!; [done..|]. unfold Walk.generate_positions; cbn [unwrap_or dimensions step_count Nat.eqb].
  cbn [Walk.gen_positions seq Walk.gen_position dimensions max_coordinate].
  unfold Walk.coordinate. rewrite word_length by done. done.
Qed.

(** Verification accepts exactly the generated sequence: the positions
    generated for a hash and external data verify against them, and no other
    sequence does, for every configuration the generator accepts. *)
Theorem walk_verification_exact (h external_data : bytes) (config : option RandomWalkConfig)
    (expected ps : list Position) :
  Walk.generate_random_walk_coordinates h external_data config = Ok expected →
  Walk.verify_random_walk_coordinates h external_data ps config = Ok (bool_decide (ps = expected)).
Proof.
  unfold Walk.generate_random_walk_coordinates, Walk.verify_random_walk_coordinates.
  intros ->. cbn. f_equal. apply eq_iff_eq_true.
  rewrite verify_positions_eq, bool_decide_eq_true. done.
Qed.

End WalkProps.

Section WalkWitnesses.
#[local] Existing Instance Toy.toy_blake3.

Definition small_config : RandomWalkConfig := mkConfig 2 3 100 3.

Lemma walk_total_in_range_witness :
  ∃ ps, Walk.generate_positions (blake3 []) (Some small_config) = Ok ps ∧ length ps = 3%nat.
Proof.
  destruct (walk_total_in_range (blake3 []) small_config) as (ps & H & Hl & _);
    [vm_compute; reflexivity|cbn; lia..|].
  exists ps. split; assumption.
Defined.

Lemma walk_zero_parameters_witness :
  Walk.generate_positions (blake3 []) (Some (mkConfig 3 64 0 64)) = Panic.
Proof. apply (walk_zero_parameters (blake3 []) 2 63 0 64). vm_compute. reflexivity. Defined.

Definition small_walk : list Position := [[-12; -64]; [-60; 51]; [-37; 47]].

Lemma walk_verification_exact_witness :
  Walk.verify_random_walk_coordinates (blake3 []) [] small_walk (Some small_config) = Ok true ∧
  Walk.verify_random_walk_coordinates (blake3 []) [] (tail small_walk) (Some small_config) = Ok false.
Proof.
  split.
  - rewrite (walk_verification_exact (blake3 []) [] (Some small_config) small_walk); vm_compute; reflexivity.
  - rewrite (walk_verification_exact (blake3 []) [] (Some small_config) small_walk); vm_compute; reflexivity.
Defined.

End WalkWitnesses.
