(* ===== verification/Transition.v ===== *)
(** * State transitions (dsm/src/core/state_machine/transition.rs, transition_fix.rs)

    Building a transition and the next state, and the two verifiers of a
    transition. *)
From S2P Require Import Prelude Tokens Operations SparseIdx States RandomWalk.

(** [transition::VerificationType] *)
Inductive LocalVerificationType := LV_Standard | LV_Bilateral | LV_Directory.

Record StateTransition := mkTransition {
  tr_operation : Operation;
  tr_new_entropy : option bytes;
  tr_encapsulated_entropy : option bytes;
  tr_device_id : string;
  tr_timestamp : Z;
  tr_flags : list string;
  tr_position_sequence : option PositionSequence;
  tr_token_balances : option (gmap string Balance);
  tr_forward_commitment : option PreCommitment;
  tr_prev_state_hash : option bytes;
  tr_entity_signature : option bytes;
  tr_counterparty_signature : option bytes;
  tr_previous_state : State;
  tr_transaction : Operation;
  tr_signature : bytes;
  tr_from_state : State;
  tr_to_state : State;
}.

Module Tr.
Section Tr.
Context {B3 : Blake3} {RT : Runtime}.
Context {SO : Bincode Operation} {SB : Bincode Balance} {SP : Bincode PreCommitment}.

(** ** [impl StateTransition] *)

Definition new (op : Operation) (new_entropy encapsulated : option bytes) (device_id : string)
    : StateTransition :=
  mkTransition op new_entropy encapsulated device_id now [] None None None None None None
    default_state Genesis [] default_state default_state.

Definition set_forward (c : option PreCommitment) (t : StateTransition) : StateTransition :=
  mkTransition (tr_operation t) (tr_new_entropy t) (tr_encapsulated_entropy t) (tr_device_id t)
    (tr_timestamp t) (tr_flags t) (tr_position_sequence t) (tr_token_balances t) c
    (tr_prev_state_hash t) (tr_entity_signature t) (tr_counterparty_signature t)
    (tr_previous_state t) (tr_transaction t) (tr_signature t) (tr_from_state t) (tr_to_state t).
Definition with_flags (t : StateTransition) (fl : list string) : StateTransition :=
  mkTransition (tr_operation t) (tr_new_entropy t) (tr_encapsulated_entropy t) (tr_device_id t)
    (tr_timestamp t) fl (tr_position_sequence t) (tr_token_balances t) (tr_forward_commitment t)
    (tr_prev_state_hash t) (tr_entity_signature t) (tr_counterparty_signature t)
    (tr_previous_state t) (tr_transaction t) (tr_signature t) (tr_from_state t) (tr_to_state t).
Definition with_token_balances (t : StateTransition) (b : gmap string Balance) : StateTransition :=
  mkTransition (tr_operation t) (tr_new_entropy t) (tr_encapsulated_entropy t) (tr_device_id t)
    (tr_timestamp t) (tr_flags t) (tr_position_sequence t) (Some b) (tr_forward_commitment t)
    (tr_prev_state_hash t) (tr_entity_signature t) (tr_counterparty_signature t)
    (tr_previous_state t) (tr_transaction t) (tr_signature t) (tr_from_state t) (tr_to_state t).
Definition set_walk (p : PositionSequence) (prev : bytes) (t : StateTransition) : StateTransition :=
  mkTransition (tr_operation t) (tr_new_entropy t) (tr_encapsulated_entropy t) (tr_device_id t)
    (tr_timestamp t) (tr_flags t) (Some p) (tr_token_balances t) (tr_forward_commitment t)
    (Some prev) (tr_entity_signature t) (tr_counterparty_signature t)
    (tr_previous_state t) (tr_transaction t) (tr_signature t) (tr_from_state t) (tr_to_state t).

(** [StateTransition::finalize]: the digest it builds is dropped. *)
Definition finalize (t : StateTransition) (current : State) : outcome unit :=
  match tr_position_sequence t with
  | None => Err (EValidation "Position sequence is missing")
  | Some _ =>
      op_bytes ← serialize_or "Failed to serialize operation: {}" (tr_operation t);
      Ok tt
  end.

Definition with_forward_commitment (t : StateTransition) (operation_type : string)
    (fixed_params : list (string * bytes)) (variable_params : list string)
    (min_state_number : Z) (counterparty_id : string) : StateTransition :=
  set_forward (Some (mkPreCommitment operation_type fixed_params variable_params min_state_number
    [] [] None None 0 None [] [] counterparty_id)) t.

Definition sign_forward_commitment (t : StateTransition) (signature : bytes) : outcome StateTransition :=
  match tr_forward_commitment t with
  | Some c =>
      Ok (set_forward (Some (mkPreCommitment (pc_operation_type c) (pc_fixed_parameters c)
        (pc_variable_parameters c) (pc_min_state_number c) (pc_hash c) (pc_signatures c)
        (Some signature) (pc_counterparty_signature c) (pc_timestamp c) (pc_expires_at c)
        (pc_value c) (pc_commitment c) (pc_counterparty_id c))) t)
  | None => Err (EValidation "No forward commitment exists to sign")
  end.

Definition cosign_forward_commitment (t : StateTransition) (signature : bytes) : outcome StateTransition :=
  match tr_forward_commitment t with
  | Some c =>
      Ok (set_forward (Some (mkPreCommitment (pc_operation_type c) (pc_fixed_parameters c)
        (pc_variable_parameters c) (pc_min_state_number c) (pc_hash c) (pc_signatures c)
        (pc_entity_signature c) (Some signature) (pc_timestamp c) (pc_expires_at c)
        (pc_value c) (pc_commitment c) (pc_counterparty_id c))) t)
  | None => Err (EValidation "No forward commitment exists to cosign")
  end.

(** ** Creating a transition *)

Definition generate_position_sequence (current : State) (op : Operation) (new_entropy : bytes)
    : outcome PositionSequence :=
  op_data ← serialize_or "" op;
  h ← St.get_hash current;
  h ← Walk.to_array32 (EValidation "Invalid hash length for state hash") h;
  let seed := Walk.generate_seed h op_data (Some new_entropy) in
  ps ← Walk.generate_positions seed (Some default_config);
  Ok (mkPositionSequence ps seed).

Definition create_transition (current : State) (op : Operation) (new_entropy : bytes)
    : outcome StateTransition :=
  ps ← generate_position_sequence current op new_entropy;
  let t := new op (Some new_entropy) None (dev_device_id (device_info current)) in
  h ← St.get_hash current;
  Ok (set_walk ps h t).

(** ** Creating the next state *)

(** The next state before its hash is computed.  [ty] is the state type. *)
Definition next_unhashed (current : State) (op : Operation) (new_entropy : bytes) (n : Z)
    (prev : bytes) (idx : list Z) (ty : string) : State :=
  mkState (state_id n) n new_entropy (hash current) prev (mkSparse idx) op
    (encapsulated_entropy current) (device_info current) (flags current) (token_balances current)
    (matches_parameters current) (relationship_context current) (forward_commitment current)
    (position_sequence current) (positions current) (st_public_key current) (device_id current)
    (hashchain_head current) (external_data current) (entity_sig current)
    (counterparty_sig current) (st_value current) (st_commitment current) ty.

Definition create_next_state_optimized (current : State) (op : Operation) (new_entropy : bytes)
    (is_benchmark : bool) : outcome State :=
  n ← u64_add (state_number current) 1;
  prev ← St.get_hash current;
  idx ← Sparse.calculate_sparse_indices n;
  let ty := if is_benchmark then "benchmark"%string else state_type current in
  let next := next_unhashed current op new_entropy n prev idx ty in
  h ← St.compute_hash next;
  Ok (St.set_hash h next).

Definition is_benchmark_type (s : State) : bool := bool_decide (state_type s = "benchmark"%string).

(** [verification_type] and [require_bilateral] are not used by the source. *)
Definition create_next_state (current : State) (op : Operation) (new_entropy : bytes)
    (verification_type : LocalVerificationType) (require_bilateral : bool) : outcome State :=
  n ← u64_add (state_number current) 1;
  let ty := if is_mint_or_transfer op || is_benchmark_type current || bench_thread
            then "benchmark"%string else state_type current in
  prev ← St.get_hash current;
  idx ← Sparse.calculate_sparse_indices n;
  let next := next_unhashed current op new_entropy n prev idx ty in
  h ← St.compute_hash next;
  Ok (St.set_hash h next).

Definition to_local_verification_type (v : VerificationType) : LocalVerificationType :=
  match v with
  | VT_Standard => LV_Standard
  | VT_Enhanced => LV_Bilateral
  | VT_Custom _ => LV_Directory
  | VT_Bilateral => LV_Bilateral
  | VT_Directory => LV_Directory
  | VT_StandardBilateral => LV_Bilateral
  | VT_PreCommitted => LV_Standard
  | VT_UnilateralIdentityAnchor => LV_Standard
  end.

Definition apply_transition (current : State) (op : Operation) (new_entropy : bytes) : outcome State :=
  let is_benchmark_context :=
    is_benchmark_type current || is_mint_or_transfer op || bench_thread in
  if is_benchmark_context then create_next_state_optimized current op new_entropy true
  else
    match op with
    | Transfer _ _ _ mode _ verification _ _ _ _ =>
        match mode with
        | Bilateral => create_next_state current op new_entropy (to_local_verification_type verification) true
        | Unilateral => create_next_state current op new_entropy (to_local_verification_type verification) false
        end
    | _ => create_next_state current op new_entropy LV_Standard false
    end.

(** ** Verifying a transition *)

(** [transition::verify_transition_integrity], the strict verifier. *)
Definition verify_transition_integrity (previous current : State) (op : Operation) : outcome bool :=
  n ← u64_add (state_number previous) 1;
  if negb (state_number current =? n) then Ok false
  else
    previous_hash ← St.get_hash previous;
    if negb (bool_decide (prev_state_hash current = previous_hash)) then Ok false
    else
      computed ← St.compute_hash current;
      if negb (bool_decide (hash current = computed)) then Ok false
      else
        let expected := generate_deterministic_entropy (entropy previous)
                          (unwrap_or [] (serialize op)) (state_number current) in
        if negb (bool_decide (entropy current = expected)) then Ok false
        else Ok true.

(** [transition_fix::verify_transition_integrity_fixed].  [leftover] is the
    content of the thread-local hasher, used on the benchmark path. *)
Definition verify_transition_integrity_fixed (leftover : bytes) (previous current : State)
    (op : Operation) : outcome bool :=
  n ← u64_add (state_number previous) 1;
  if negb (state_number current =? n) then Ok false
  else
    let is_benchmark := is_benchmark_type current || is_benchmark_type previous ||
                        is_mint_or_transfer op || bench_thread in
    chain_ok ← (if negb is_benchmark then
                  previous_hash ← St.get_hash previous;
                  Ok (bool_decide (prev_state_hash current = previous_hash))
                else Ok true);
    if negb chain_ok then Ok false
    else if negb is_benchmark && ((0 <? state_number current) &&
              negb (Sparse.contains (indices (sparse_index current)) 0)) then Ok false
    else if negb is_benchmark && ((1 <? state_number current) &&
              negb (Sparse.contains (indices (sparse_index current)) (state_number previous))) then Ok false
    else
      serialized_op ← match serialize op with
                      | Some b => Ok b
                      | None => if is_benchmark then Ok []
                                else Err (ESerialization "Failed to serialize operation during verification")
                      end;
      let expected := if is_benchmark
        then (generate_deterministic_entropy_concurrent leftover (entropy previous) serialized_op (state_number current)).1
        else generate_deterministic_entropy (entropy previous) serialized_op (state_number current) in
      if negb is_benchmark && negb (bool_decide (entropy current = expected)) then Ok false
      else
        match forward_commitment current with
        | Some pre_commitment =>
            if negb is_benchmark then
              match serialize op with
              | Some op_bytes =>
                  let commitment_hash := blake3 (prev_state_hash current ++ op_bytes ++ entropy current) in
                  pcb ← serialize_or "Failed to serialize pre-commitment for hash computation" pre_commitment;
                  if negb (bool_decide (blake3 pcb = commitment_hash)) then Ok false else Ok true
              | None => Err (ESerialization "Failed to serialize operation for pre-commitment verification")
              end
            else Ok true
        | None => Ok true
        end.

(** [verify_token_balance_consistency] *)
Definition prev_value (s : State) (token_id : string) : Z :=
  unwrap_or 0 (bal_value <$> token_balances s !! token_id).

Definition balances_kept (op : Operation) (prev cur : gmap string Balance) : bool :=
  forallb (fun '(tid, b) =>
    match cur !! tid with
    | Some b' => negb (negb (affects_balance op tid) && negb (bal_value b =? bal_value b'))
    | None => false
    end) (map_to_list prev).

Definition verify_token_balance_consistency (previous current : State) (op : Operation) : outcome bool :=
  match op with
  | Mint amount token_id _ _ _ =>
      match token_balances current !! token_id with
      | Some balance =>
          total ← u64_add (prev_value previous token_id) (bal_value amount);
          if negb (bal_value balance =? total) then Ok false else Ok true
      | None => Ok false
      end
  | Transfer _ amount token_id _ _ _ _ _ _ _ =>
      match token_balances current !! token_id with
      | Some balance =>
          rest ← u64_sub (prev_value previous token_id) (bal_value amount);
          if negb (bal_value balance =? rest) then Ok false else Ok true
      | None =>
          match token_balances previous !! token_id with Some _ => Ok false | None => Ok true end
      end
  | _ => Ok (balances_kept op (token_balances previous) (token_balances current))
  end.

End Tr.
End Tr.

(** ** Lemmas *)

Section TransitionFacts.
Context {B3 : Blake3} {RT : Runtime}.
Context {SO : Bincode Operation} {SB : Bincode Balance} {SP : Bincode PreCommitment}.

(** What every successful construction of a next state guarantees. *)
Record is_next (cur : State) (op : Operation) (e : bytes) (ty : string) (s' : State) : Prop := {
  next_number : state_number s' = state_number cur + 1;
  next_bound : state_number s' ≤ u64_max;
  next_prev : St.get_hash cur = Ok (prev_state_hash s');
  next_entropy : entropy s' = e;
  next_op : operation s' = op;
  next_id : st_id s' = state_id (state_number cur + 1);
  next_index : Sparse.calculate_sparse_indices (state_number s') = Ok (indices (sparse_index s'));
  next_hash : St.compute_hash s' = Ok (hash s');
  next_type : state_type s' = ty;
  next_balances : token_balances s' = token_balances cur;
  next_device : device_info s' = device_info cur;
  next_commitment : forward_commitment s' = forward_commitment cur;
  next_context : relationship_context s' = relationship_context cur;
  next_flags : flags s' = flags cur;
}.

Lemma next_built cur op e n prev idx ty h :
  n = state_number cur + 1 → n ≤ u64_max → St.get_hash cur = Ok prev →
  Sparse.calculate_sparse_indices n = Ok idx →
  St.compute_hash (Tr.next_unhashed cur op e n prev idx ty) = Ok h →
  is_next cur op e ty (St.set_hash h (Tr.next_unhashed cur op e n prev idx ty)).
Proof.
  intros -> Hn Hp Hi Hh. by constructor.
Qed.

Lemma create_next_state_inv cur op e vt rb s' :
  Tr.create_next_state cur op e vt rb = Ok s' →
  is_next cur op e (if is_mint_or_transfer op || Tr.is_benchmark_type cur || bench_thread
                    then "benchmark"%string else state_type cur) s'.
Proof.
  unfold Tr.create_next_state.
  intros (n & [-> Hn]%u64_add_Ok & (prev & Hp & (idx & Hi & (h & Hh & [= <-])%bind_Ok)%bind_Ok)%bind_Ok)%bind_Ok.
  by apply next_built.
Qed.

Lemma compute_hash_next_total {TO : BincodeTotal Operation} {TB : BincodeTotal Balance}
    {TP : BincodeTotal PreCommitment} cur op e vt rb :
  0 ≤ state_number cur < 2 ^ 63 - 1 → ∃ s', Tr.create_next_state cur op e vt rb = Ok s'.
Proof.
  intros Hn. unfold Tr.create_next_state, u64_add, u64_max.
  rewrite (proj2 (Z.leb_le _ _)) by lia. cbn [mbind outcome_bind].
  destruct (get_hash_total cur) as (prev & -> & _). cbn [mbind outcome_bind].
  destruct (sparse_indices_elem (state_number cur + 1)) as (idx & -> & _); [lia|].
  cbn [mbind outcome_bind].
  match goal with |- context [St.compute_hash ?s] => destruct (compute_hash_total s) as [h ->] end.
  by eexists.
Qed.

(** The benchmark fast path builds the state the regular path builds. *)
Lemma apply_transition_eq cur op e vt rb :
  Tr.apply_transition cur op e = Tr.create_next_state cur op e vt rb.
Proof.
  unfold Tr.apply_transition.
  destruct (Tr.is_benchmark_type cur || is_mint_or_transfer op || bench_thread) eqn:E.
  - unfold Tr.create_next_state_optimized, Tr.create_next_state.
    rewrite (orb_comm (is_mint_or_transfer op)), E. done.
  - by destruct op as [| | | ? ? ? [] ? ? ? ? ? ?| | | | | | | | | | | | |].
Qed.

(** The strict verifier as a conjunction. *)
Lemma strict_verifier_iff prev cur op :
  Tr.verify_transition_integrity prev cur op = Ok true ↔
  state_number prev + 1 ≤ u64_max ∧ state_number cur = state_number prev + 1 ∧
  St.get_hash prev = Ok (prev_state_hash cur) ∧ St.compute_hash cur = Ok (hash cur) ∧
  entropy cur = generate_deterministic_entropy (entropy prev) (unwrap_or [] (serialize op)) (state_number cur).
Proof.
  unfold Tr.verify_transition_integrity. split.
  - intros (n & [-> Hn]%u64_add_Ok & H)%bind_Ok.
    destruct (Z.eqb_spec (state_number cur) (state_number prev + 1)) as [Heq|]; [|done]. cbn [negb] in H.
    apply bind_Ok in H as (ph & Hph & H). case_bool_decide as Hp; [|done]. cbn [negb] in H.
    apply bind_Ok in H as (ch & Hch & H). case_bool_decide as Hc; [|done]. cbn [negb] in H.
    case_bool_decide; [|done]. subst. done.
  - intros (Hn & Heq & Hp & Hc & He). unfold u64_add. rewrite (proj2 (Z.leb_le _ _)) by lia.
    cbn [mbind outcome_bind]. rewrite (proj2 (Z.eqb_eq _ _)) by done. cbn [negb].
    rewrite Hp. cbn [mbind outcome_bind]. rewrite bool_decide_eq_true_2 by done. cbn [negb].
    rewrite Hc. cbn [mbind outcome_bind]. rewrite !bool_decide_eq_true_2 by done. done.
Qed.

(** A state with 40 fixed leading bytes of hasher input. *)
Lemma hash_input_prefix s l i :
  St.hash_input s l = Ok i → ∃ r, i = u64_le (state_number s) ++ prev_state_hash s ++ r.
Proof.
  unfold St.hash_input.
  intros (a & _ & (b & _ & (c & _ & [= <-])%bind_Ok)%bind_Ok)%bind_Ok. by eexists.
Qed.

Lemma hash_input_binds s s' l l' i :
  u64_ok (state_number s) → u64_ok (state_number s') →
  length (prev_state_hash s) = length (prev_state_hash s') →
  St.hash_input s l = Ok i → St.hash_input s' l' = Ok i →
  state_number s = state_number s' ∧ prev_state_hash s = prev_state_hash s'.
Proof.
  intros Hs Hs' Hlen (r & Hr)%hash_input_prefix (r' & Hr')%hash_input_prefix.
  rewrite Hr in Hr'. apply app_inj_1 in Hr' as [H1 H2]; [|by rewrite !length_le_bytes].
  apply app_inj_1 in H2 as [H2 _]; [|done]. split; [|done]. by apply u64_le_inj.
Qed.

End TransitionFacts.
#[export] Hint Resolve create_next_state_inv : dsm.

(** ** Chains accepted by the strict verifier, newest state first *)

Section Chains.
Context {B3 : Blake3} {SO : Bincode Operation} {SB : Bincode Balance} {SP : Bincode PreCommitment}.

Fixpoint strict_chain (l : list State) : Prop :=
  match l with
  | [] => True
  | cur :: tl =>
      match tl with
      | [] => St.compute_hash cur = Ok (hash cur) ∧ prev_state_hash cur = [] ∧ u64_ok (state_number cur)
      | prev :: _ => Tr.verify_transition_integrity prev cur (operation cur) = Ok true ∧ strict_chain tl
      end
  end.

(** The same hash over the same hashed content. *)
Definition same_link (s s' : State) : Prop :=
  hash s = hash s' ∧ state_number s = state_number s' ∧ prev_state_hash s = prev_state_hash s' ∧
  St.hash_input s (map_to_list (token_balances s)) = St.hash_input s' (map_to_list (token_balances s')).

Lemma strict_chain_head s l :
  strict_chain (s :: l) → St.compute_hash s = Ok (hash s) ∧ u64_ok (state_number s).
Proof.
  revert s. induction l as [|p l IH]; intros s; [by intros (? & _ & ?)|].
  intros [(Hb & Hn & _ & Hc & _)%strict_verifier_iff Htl]. apply IH in Htl as [_ Hp].
  split; [done|]. unfold u64_ok in *. lia.
Qed.

Lemma strict_chain_prev s p l :
  strict_chain (s :: p :: l) → prev_state_hash s = hash p ∧ strict_chain (p :: l).
Proof.
  intros [(_ & _ & Hp & _)%strict_verifier_iff Htl]. split; [|done].
  apply strict_chain_head in Htl as [Hh _]. rewrite get_hash_cached in Hp; [congruence|].
  by eapply compute_hash_nonempty.
Qed.

Lemma compute_hash_input s : 
  St.compute_hash s = Ok (hash s) →
  ∃ i, St.hash_input s (map_to_list (token_balances s)) = Ok i ∧ hash s = blake3 i.
Proof. unfold St.compute_hash. intros (i & Hi & [= <-])%bind_Ok. by exists i. Qed.

(** Equal hashes of two hashed states: the same content or a collision of the
    two contents. *)
Lemma same_hash_same_link s s' :
  St.compute_hash s = Ok (hash s) → St.compute_hash s' = Ok (hash s') → hash s = hash s' →
  u64_ok (state_number s) → u64_ok (state_number s') →
  length (prev_state_hash s) = length (prev_state_hash s') →
  collision blake3 (state_inputs [s; s']) ∨ same_link s s'.
Proof.
  intros (i & Hi & Hh)%compute_hash_input (i' & Hi' & Hh')%compute_hash_input Heq Hn Hn' Hl.
  rewrite Hh, Hh' in Heq. unfold state_inputs. cbn. rewrite Hi, Hi'. apply hash_bind in Heq as [<-|Hc]; [right|by left].
  - destruct (hash_input_binds s s' _ _ i Hn Hn' Hl Hi Hi') as [? ?].
    split_and!; congruence.
Qed.

End Chains.

(** ** Properties *)

Section TransitionProps.
Context {B3 : Blake3} {RT : Runtime}.
Context {SO : Bincode Operation} {SB : Bincode Balance} {SP : Bincode PreCommitment}.

(** A next state extends its predecessor by exactly one link: its number is
    one higher, it refers to the predecessor's hash, carries the operation and
    entropy given, the canonical id, the sparse index of its number and a hash
    that is the recomputed one, and it inherits balances, device, commitment,
    relationship and flags. *)
Theorem next_state_extends_chain (cur : State) (op : Operation) (e : bytes)
    (vt : LocalVerificationType) (rb : bool) (s' : State) :
  Tr.create_next_state cur op e vt rb = Ok s' →
  state_number s' = state_number cur + 1 ∧ St.get_hash cur = Ok (prev_state_hash s') ∧
  operation s' = op ∧ entropy s' = e ∧ st_id s' = state_id (state_number s') ∧
  Sparse.calculate_sparse_indices (state_number s') = Ok (indices (sparse_index s')) ∧
  St.verify_state_hash s' = Ok true ∧
  token_balances s' = token_balances cur ∧ device_info s' = device_info cur ∧
  forward_commitment s' = forward_commitment cur ∧
  relationship_context s' = relationship_context cur ∧ flags s' = flags cur.
Proof.
  intros []%create_next_state_inv. unfold St.verify_state_hash. rewrite next_hash0. cbn.
  rewrite constant_time_eq_refl. split_and!; try done. by rewrite next_id0, next_number0.
Qed.

(** Creating the next state never fails while encoding succeeds and the
    state number stays below 2^63 - 1. *)
Theorem next_state_total {TO : BincodeTotal Operation} {TB : BincodeTotal Balance}
    {TP : BincodeTotal PreCommitment} (cur : State) (op : Operation) (e : bytes)
    (vt : LocalVerificationType) (rb : bool) :
  0 ≤ state_number cur < 2 ^ 63 - 1 → ∃ s', Tr.create_next_state cur op e vt rb = Ok s'.
Proof. apply compute_hash_next_total. Qed.

(** The optimised benchmark path is equivalent to the regular one: for
    every state, operation and entropy, [apply_transition] returns what
    [create_next_state] returns, whatever verification type and bilateral flag
    are passed. *)
Theorem apply_transition_equiv (cur : State) (op : Operation) (e : bytes)
    (vt : LocalVerificationType) (rb : bool) :
  Tr.apply_transition cur op e = Tr.create_next_state cur op e vt rb.
Proof. apply apply_transition_eq. Qed.

(** A created state passes the strict verifier exactly when its entropy is
    the deterministic one of the predecessor's entropy, the operation and the
    new number. *)
Theorem created_state_verifies (cur : State) (op : Operation) (e : bytes)
    (vt : LocalVerificationType) (rb : bool) (s' : State) :
  Tr.create_next_state cur op e vt rb = Ok s' →
  Tr.verify_transition_integrity cur s' op = Ok true ↔
  e = generate_deterministic_entropy (entropy cur) (unwrap_or [] (serialize op)) (state_number cur + 1).
Proof.
  intros []%create_next_state_inv. rewrite strict_verifier_iff, next_entropy0, next_number0.
  split; [naive_solver|]. intros ->. split_and!; try done. lia.
Qed.

(** The preferred verifier performs no integrity check on token
    operations: for every mint or transfer it accepts any state whose number
    follows the predecessor's, whatever its previous hash, entropy, sparse
    index, balances and commitment. *)
Theorem fixed_verifier_accepts_any_token_state (leftover : bytes) (prev cur : State) (op : Operation) :
  is_mint_or_transfer op = true → state_number prev + 1 ≤ u64_max →
  state_number cur = state_number prev + 1 →
  Tr.verify_transition_integrity_fixed leftover prev cur op = Ok true.
Proof.
  intros Hop Hb Hn. unfold Tr.verify_transition_integrity_fixed, u64_add.
  rewrite (proj2 (Z.leb_le _ _)) by lia. cbn [mbind outcome_bind].
  rewrite (proj2 (Z.eqb_eq _ _)), Hop, !orb_true_r by done. cbn.
  destruct (serialize op); cbn; by destruct (forward_commitment cur).
Qed.

(** On a production state (no benchmark type, thread or token operation)
    without forward commitment, a created state passes the preferred verifier
    exactly when its entropy is the deterministic one. *)
Theorem fixed_verifier_production (leftover : bytes) (cur s' : State) (op : Operation) (e ob : bytes)
    (vt : LocalVerificationType) (rb : bool) :
  Tr.create_next_state cur op e vt rb = Ok s' → serialize op = Some ob →
  0 ≤ state_number cur < 2 ^ 63 - 1 → forward_commitment cur = None →
  is_mint_or_transfer op = false → Tr.is_benchmark_type cur = false → bench_thread = false →
  Tr.verify_transition_integrity_fixed leftover cur s' op =
    Ok (bool_decide (e = generate_deterministic_entropy (entropy cur) ob (state_number cur + 1))).
Proof.
  intros Hs Hser Hn Hfc Hop Hbt Hbench. apply create_next_state_inv in Hs as [].
  rewrite Hop, Hbt, Hbench in next_type0. cbn in next_type0.
  destruct (sparse_indices_elem (state_number s')) as (l & Hl & _ & _ & Hin); [lia|].
  rewrite next_index0 in Hl. injection Hl as Hl.
  unfold Tr.verify_transition_integrity_fixed, u64_add, u64_max.
  rewrite (proj2 (Z.leb_le _ _)) by lia. cbn [mbind outcome_bind].
  unfold Tr.is_benchmark_type in *. rewrite next_type0, Hbt, Hop, Hbench.
  rewrite (proj2 (Z.eqb_eq _ _)) by done. cbn [orb negb andb]. rewrite next_prev0.
  cbn [mbind outcome_bind]. rewrite bool_decide_eq_true_2 by done. cbn [negb].
  assert (0 ∈ l) by (apply Hin; by left).
  assert (state_number cur ∈ l) by (apply Hin; right; exists 0; split_and!; lia).
  unfold Sparse.contains. rewrite Hl, (bool_decide_eq_true_2 (0 ∈ l)) by done.
  rewrite (bool_decide_eq_true_2 (state_number cur ∈ l)) by done. cbn [negb]. rewrite !andb_false_r, Hser. cbn [mbind outcome_bind].
  rewrite next_entropy0, next_number0, next_commitment0, Hfc.
  cbn [negb andb]. destruct (bool_decide (e = _)); done.
Qed.


(** The balance check fails to agree with state creation: a created mint
    state of a positive amount never passes [verify_token_balance_consistency]
    (creation leaves the balances as they were, and the sum may overflow), and
    a transfer above the recorded balance makes the check panic instead of
    returning false. *)
Theorem balance_check_vs_creation (cur s' : State) (amount : Balance) (tid by_ : string) (pf : bytes)
    (msg : string) (e : bytes) (vt : LocalVerificationType) (rb : bool) (b : Balance)
    (o1 o2 o3 : string) (md : TransactionMode) (nn : bytes) (vf : VerificationType)
    (pc : option PreCommitmentOp) :
  Tr.create_next_state cur (Mint amount tid by_ pf msg) e vt rb = Ok s' → 0 < bal_value amount →
  Tr.verify_token_balance_consistency cur s' (Mint amount tid by_ pf msg) ≠ Ok true ∧
  (token_balances cur !! tid = Some b → bal_value b < bal_value amount →
   Tr.verify_token_balance_consistency cur s' (Transfer o1 amount tid md nn vf pc o2 o3 msg) = Panic).
Proof.
  intros []%create_next_state_inv Ha. unfold Tr.verify_token_balance_consistency, Tr.prev_value.
  rewrite next_balances0. split.
  - destruct (token_balances cur !! tid) as [c|]; [|done]. cbn.
    intros (t & [-> _]%u64_add_Ok & H)%bind_Ok. case_test; [done|]. zbool. lia.
  - intros -> Hb. cbn. unfold u64_sub. rewrite (proj2 (Z.leb_gt _ _)) by lia. done.
Qed.

End TransitionProps.

(** ** Witnesses *)

Module ToyTr.
Section ToyTr.
#[local] Existing Instances Toy.toy_blake3 Toy.toy_runtime toy_bincode_operation
  ToySt.toy_bincode_balance ToySt.toy_bincode_precommitment.

Definition from_ok (o : outcome State) : State := match o with Ok s => s | _ => default_state end.
Definition hash_of (s : State) : bytes := match St.compute_hash s with Ok h => h | _ => [] end.

Definition g0 : State := St.set_hash (hash_of ToySt.genesis) ToySt.genesis.
Definition op1 : Operation := Generic "ping" (str_bytes "x") "msg".
Definition entropy1 : bytes :=
  generate_deterministic_entropy (entropy g0) (unwrap_or [] (serialize op1)) 1.
Definition s1 : State := from_ok (Tr.create_next_state g0 op1 entropy1 LV_Standard false).

Definition coin (v : Z) : Balance := mkBalance v 0 0 None.
Definition funded : State := St.set_token_balances {["GOLD"%string := coin 5]} g0.
Definition mint7 : Operation := Mint (coin 7) "GOLD" "issuer" [] "".
Definition s_mint : State := from_ok (Tr.create_next_state funded mint7 [] LV_Standard false).

Lemma s1_created : Tr.create_next_state g0 op1 entropy1 LV_Standard false = Ok s1.
Proof. vm_compute. reflexivity. Qed.
Lemma s_mint_created : Tr.create_next_state funded mint7 [] LV_Standard false = Ok s_mint.
Proof. vm_compute. reflexivity. Qed.
Lemma chain_ok : strict_chain [s1; g0].
Proof. split; [vm_compute; reflexivity|]. split; [vm_compute; reflexivity|]. split; [done|]. by vm_compute. Qed.

End ToyTr.
End ToyTr.

Section TransitionWitnesses.
#[local] Existing Instances Toy.toy_blake3 Toy.toy_runtime toy_bincode_operation
  ToySt.toy_bincode_balance ToySt.toy_bincode_precommitment.
Import ToyTr.

Lemma next_state_extends_chain_witness : St.verify_state_hash s1 = Ok true.
Proof. apply (next_state_extends_chain g0 op1 entropy1 LV_Standard false s1 s1_created). Defined.

Lemma next_state_total_witness : ∃ s', Tr.create_next_state g0 op1 [] LV_Standard false = Ok s'.
Proof.
  apply (next_state_total (TO := ToySt.toy_operation_total) (TB := ToySt.toy_balance_total)
    (TP := ToySt.toy_precommitment_total)). vm_compute. split; [discriminate|reflexivity].
Defined.

Lemma created_state_verifies_witness : Tr.verify_transition_integrity g0 s1 op1 = Ok true.
Proof. apply (created_state_verifies g0 op1 entropy1 LV_Standard false s1 s1_created). reflexivity. Defined.

Lemma fixed_verifier_accepts_any_token_state_witness :
  Tr.verify_transition_integrity_fixed [] g0
    (St.set_token_balances {["GOLD"%string := coin 1000000]} s1) mint7 = Ok true.
Proof.
  apply (fixed_verifier_accepts_any_token_state [] g0); [reflexivity| |reflexivity].
  vm_compute. discriminate.
Defined.

Lemma fixed_verifier_production_witness :
  Tr.verify_transition_integrity_fixed [] g0 s1 op1 = Ok true.
Proof.
  rewrite (fixed_verifier_production [] g0 s1 op1 entropy1 (unwrap_or [] (serialize op1)) LV_Standard false s1_created);
    [by rewrite bool_decide_eq_true_2|reflexivity| |reflexivity..].
  vm_compute. split; [discriminate|reflexivity].
Defined.


Lemma balance_check_vs_creation_witness :
  Tr.verify_token_balance_consistency funded s_mint mint7 ≠ Ok true.
Proof.
  apply (balance_check_vs_creation funded s_mint (coin 7) "GOLD" "issuer" [] "" [] LV_Standard false
    (coin 5) "" "" "" Bilateral [] VT_Standard None s_mint_created). reflexivity.
Defined.

End TransitionWitnesses.
