(* ===== verification/Relationship.v ===== *)
(** * Bilateral relationships (dsm/src/core/state_machine/relationship.rs)

    The pair of states two parties share, the manager that stores the pairs
    under a key derived from the two ids, and the relationship checks the state
    machine uses.  The store's mutex is never poisoned in the model: no panic
    happens while it is held unless a state number reaches [u64::MAX]. *)
From S2P Require Import Prelude Tokens Operations SparseIdx States RandomWalk Transition.

(** ** Data *)

Inductive KeyDerivationStrategy := Canonical | EntityCentric | Hashed.

Record RelationshipStatePair := mkPair {
  rp_entity_id : string;
  rp_counterparty_id : string;
  rp_entity_state : State;
  rp_counterparty_state : State;
  rp_verification_metadata : gmap string bytes;
  rp_relationship_hash : bytes;
  rp_active : bool;
}.

(** [relationship::RelationshipContext] *)
Record ResumedContext := mkResumed {
  cx_entity_id : string;
  cx_counterparty_id : string;
  cx_relationship_hash : bytes;
  cx_entity_state : State;
  cx_counterparty_state : State;
  cx_active : bool;
}.

Record RelationshipProof := mkRelProof {
  pr_entity_id : string;
  pr_counterparty_id : string;
  pr_entity_state_hash : bytes;
  pr_counterparty_state_hash : bytes;
  pr_relationship_hash : bytes;
}.

(** [relationship::StateTransition] *)
Record RelTransition := mkRelTransition {
  rt_operation : Operation;
  rt_new_entropy : option bytes;
  rt_encapsulated_entropy : option bytes;
  rt_device_id : string;
}.

Record RelationshipManager := mkManager {
  relationship_store : gmap string RelationshipStatePair;
  key_derivation_strategy : KeyDerivationStrategy;
}.

(** [hex::encode] / [Hash::to_hex]: two lower-case digits per byte. *)
Definition hex_digit (n : Z) : Ascii.ascii :=
  Ascii.ascii_of_N (Z.to_N (if n <? 10 then 48 + n else 87 + n)).
Definition hex_encode (b : bytes) : string :=
  String.string_of_list_ascii
    (concat ((fun x => let z := coqutil.Byte.byte.unsigned x in
                       [hex_digit (z / 16); hex_digit (z mod 16)]) <$> b)).

(** The eight-byte operation tags shared by the two commitment checks. *)
Definition op_tag (op : Operation) : bytes :=
  str_bytes match op with
  | Genesis => "genesis_"
  | Generic _ _ _ => "generic_"
  | Transfer _ _ _ _ _ _ _ _ _ _ => "transfer"
  | Mint _ _ _ _ _ => "mint____"
  | Burn _ _ _ _ => "burn____"
  | Create _ _ _ _ _ _ _ => "create__"
  | Update _ _ _ _ _ => "update__"
  | AddRelationship _ _ _ _ _ _ _ => "add_rel_"
  | CreateRelationship _ _ _ _ _ => "crt_rel_"
  | RemoveRelationship _ _ _ _ _ _ => "rem_rel_"
  | Recovery _ _ _ _ _ _ _ _ _ _ _ => "recovery"
  | Delete _ _ _ _ => "delete__"
  | Link _ _ _ _ => "link____"
  | Unlink _ _ _ => "unlink__"
  | Invalidate _ _ _ => "invalid_"
  | LockToken _ _ _ _ => "lock____"
  | UnlockToken _ _ _ _ => "unlock__"
  end%string.

Module Pair.
Section Pair.
Context {B3 : Blake3} {SO : Bincode Operation} {SB : Bincode Balance} {SP : Bincode PreCommitment}.
Context {SS : Bincode State}.

(** ** [impl RelationshipStatePair] *)

Definition new (entity_id counterparty_id : string) (entity_state counterparty_state : State)
    : outcome RelationshipStatePair :=
  h1 ← St.get_hash entity_state;
  h2 ← St.get_hash counterparty_state;
  Ok (mkPair entity_id counterparty_id entity_state counterparty_state ∅ (blake3 (h1 ++ h2)) true).

Definition compute_relationship_hash (p : RelationshipStatePair) : outcome bytes :=
  Ok (blake3 (str_bytes (rp_entity_id p) ++ str_bytes (rp_counterparty_id p) ++
              u64_le (state_number (rp_entity_state p)))).

Definition has_pending_unilateral_transactions (p : RelationshipStatePair) : bool :=
  match rp_verification_metadata p !! "pending_transactions"%string with
  | Some d => negb (bool_decide (d = []))
  | None => false
  end.

Definition set_meta (m : gmap string bytes) (h : bytes) (p : RelationshipStatePair) : RelationshipStatePair :=
  mkPair (rp_entity_id p) (rp_counterparty_id p) (rp_entity_state p) (rp_counterparty_state p)
    m h (rp_active p).

Definition set_last_synced_state (p : RelationshipStatePair) (s : option State)
    : outcome RelationshipStatePair :=
  match s with
  | Some synced =>
      b ← serialize_or "Failed to serialize synchronized state" synced;
      Ok (set_meta (<["last_synced_state"%string := b]> (rp_verification_metadata p))
            (blake3 (rp_relationship_hash p ++ hash synced)) p)
  | None => Ok (set_meta (delete "last_synced_state"%string (rp_verification_metadata p))
                  (rp_relationship_hash p) p)
  end.

Definition set_entity_state (s : State) (p : RelationshipStatePair) : RelationshipStatePair :=
  mkPair (rp_entity_id p) (rp_counterparty_id p) s (rp_counterparty_state p)
    (rp_verification_metadata p) (rp_relationship_hash p) (rp_active p).

Definition update_entity_state (p : RelationshipStatePair) (new_state : State)
    : outcome RelationshipStatePair :=
  if state_number new_state <=? state_number (rp_entity_state p) then
    Err (EValidation "Cannot update to a state with a lower or equal state number")
  else Ok (set_entity_state new_state p).

(** The metadata entry created for a failed addition stays behind, so the
    pair is returned on both paths. *)
Definition add_pending_transaction (s : State) : M RelationshipStatePair unit := fun p =>
  match relationship_context s with
  | None => (Err (EValidation "Cannot add a state without relationship context as pending transaction"), p)
  | Some _ =>
      let pending := unwrap_or [] (rp_verification_metadata p !! "pending_transactions"%string) in
      let p := set_meta (<["pending_transactions"%string := pending]> (rp_verification_metadata p))
                 (rp_relationship_hash p) p in
      match serialize s with
      | Some b =>
          (Ok tt, set_meta (<["pending_transactions"%string := pending ++ b]> (rp_verification_metadata p))
                    (blake3 (rp_relationship_hash p ++ b)) p)
      | None => (Err (ESerialization "Failed to add pending transaction to relationship"), p)
      end
  end.

Definition apply_transaction (p : RelationshipStatePair) (s : State) : outcome RelationshipStatePair :=
  Ok (set_entity_state s p).

Definition clear_pending_transactions (p : RelationshipStatePair) : RelationshipStatePair :=
  match rp_verification_metadata p !! "pending_transactions"%string with
  | Some _ =>
      set_meta (<["pending_transactions"%string := []]> (rp_verification_metadata p))
        (blake3 (hash (rp_entity_state p) ++ hash (rp_counterparty_state p))) p
  | None => p
  end.

Definition build_verification_metadata (p : RelationshipStatePair) : outcome bytes :=
  Ok (str_bytes (st_id (rp_counterparty_state p)) ++ u64_le (state_number (rp_counterparty_state p))).

Definition validate_operation (p : RelationshipStatePair) (op : Operation) : outcome bool :=
  match op with
  | AddRelationship _ _ _ _ _ _ _ => Ok true
  | RemoveRelationship _ _ _ _ _ _ => Ok true
  | _ => Ok false
  end.

Definition set_parties (e c : string) (active : bool) (p : RelationshipStatePair) : RelationshipStatePair :=
  mkPair e c (rp_entity_state p) (rp_counterparty_state p)
    (rp_verification_metadata p) (rp_relationship_hash p) active.

Definition handle_operation (p : RelationshipStatePair) (op : Operation) : outcome RelationshipStatePair :=
  ok ← validate_operation p op;
  if negb ok then Err (EValidation "Invalid operation for relationship")
  else
    match op with
    | AddRelationship from_id to_id _ _ _ _ _ => Ok (set_parties from_id to_id true p)
    | RemoveRelationship from_id to_id _ _ _ _ => Ok (set_parties from_id to_id false p)
    | _ => Err (EValidation "Unsupported operation type")
    end.

Definition resume (p : RelationshipStatePair) : outcome ResumedContext :=
  Ok (mkResumed (rp_entity_id p) (rp_counterparty_id p) (rp_relationship_hash p)
        (rp_entity_state p) (rp_counterparty_state p) (rp_active p)).

(** [a != x + 1 || b != y + 1] short-circuits, as does the second test. *)
Definition verify_cross_chain_continuity (p : RelationshipStatePair)
    (new_entity new_counterparty : State) : outcome bool :=
  n1 ← u64_add (state_number (rp_entity_state p)) 1;
  if negb (state_number new_entity =? n1) then Ok false
  else
    n2 ← u64_add (state_number (rp_counterparty_state p)) 1;
    if negb (state_number new_counterparty =? n2) then Ok false
    else
      h1 ← St.get_hash (rp_entity_state p);
      if negb (bool_decide (prev_state_hash new_entity = h1)) then Ok false
      else
        h2 ← St.get_hash (rp_counterparty_state p);
        if negb (bool_decide (prev_state_hash new_counterparty = h2)) then Ok false
        else Ok true.

Definition validate_against_forward_commitment (p : RelationshipStatePair) (op : Operation) : outcome bool :=
  match forward_commitment (rp_entity_state p) with
  | Some c =>
      Ok (forallb (fun '(key, v) =>
            if bool_decide (key = "operation_type"%string)
            then bool_decide (v = op_tag op) else true) (pc_fixed_parameters c))
  | None => Ok true
  end.

(** ** Free functions *)

Definition validate_transition (current new_state : State) (op : Operation) : outcome bool :=
  n ← u64_add (state_number current) 1;
  if negb (state_number new_state =? n) then Ok false
  else
    h ← St.get_hash current;
    if negb (constant_time_eq (prev_state_hash new_state) h) then Ok false
    else
      ok ← St.utils_verify_state_hash new_state;
      if negb ok then Ok false else Ok true.

Definition verify_basic_state_properties (s1 s2 : State) : outcome bool :=
  if bool_decide (hash s1 = []) || bool_decide (hash s2 = []) then Ok false
  else
    h ← St.get_hash s1;
    if negb (bool_decide (prev_state_hash s2 = h)) then Ok false else Ok true.

Definition validate_relationship_state_transition (s1 s2 : State) : outcome bool :=
  basic ← verify_basic_state_properties s1 s2;
  if negb basic then Ok false
  else
    match relationship_context s1, relationship_context s2 with
    | Some rel1, Some rel2 =>
        if negb (bool_decide (rc_counterparty_id rel1 = rc_counterparty_id rel2)) then Ok false
        else
          n ← u64_add (state_number s1) 1;
          if negb (state_number s2 =? n) then Ok false
          else
            h ← St.get_hash s1;
            if negb (bool_decide (prev_state_hash s2 = h)) then Ok false else Ok true
    | _, _ => Ok false
    end.

Definition verify_commitment_compliance (op : Operation) (c : PreCommitment) : outcome bool :=
  match op with
  | AddRelationship _ to_id _ _ _ _ _ =>
      if negb (bool_decide (to_id = pc_counterparty_id c)) then Ok false else Ok true
  | _ => Ok false
  end.

Definition verify_relationship_entropy (prev current : State) (e : bytes) : outcome bool :=
  let expected := generate_deterministic_entropy (entropy prev)
                    (unwrap_or [] (serialize (operation current))) (state_number current) in
  Ok (constant_time_eq e expected).

(** [relationship::apply_transition]: id, sparse index and hash are kept from
    the current state. *)
Definition apply_rel_transition (t : RelTransition) (current : State) : outcome State :=
  n ← u64_add (state_number current) 1;
  prev ← St.get_hash current;
  Ok (mkState (st_id current) n (unwrap_or (entropy current) (rt_new_entropy t)) (hash current) prev
        (sparse_index current) (rt_operation t)
        (encapsulated_entropy current) (device_info current) (flags current) (token_balances current)
        (matches_parameters current) (relationship_context current) (forward_commitment current)
        (position_sequence current) (positions current) (st_public_key current) (device_id current)
        (hashchain_head current) (external_data current) (entity_sig current)
        (counterparty_sig current) (st_value current) (st_commitment current) (state_type current)).

End Pair.
End Pair.

Module Manager.
Section Manager.
Context {B3 : Blake3} {SO : Bincode Operation} {SB : Bincode Balance} {SP : Bincode PreCommitment}.

(** ** [impl RelationshipManager] *)

Definition new (strategy : KeyDerivationStrategy) : RelationshipManager := mkManager ∅ strategy.

Definition get_relationship_key (m : RelationshipManager) (e c : string) : string :=
  match key_derivation_strategy m with
  | Canonical => if bool_decide (String.le e c) then e +:+ ":" +:+ c else c +:+ ":" +:+ e
  | EntityCentric => e +:+ ":" +:+ c
  | Hashed => hex_encode (blake3 (str_bytes e ++ str_bytes c))
  end.

Definition insert_pair (k : string) (p : RelationshipStatePair) (m : RelationshipManager) : RelationshipManager :=
  mkManager (<[k := p]> (relationship_store m)) (key_derivation_strategy m).

Definition store_relationship (m : RelationshipManager) (e c : string) (es cs : State)
    : outcome RelationshipManager :=
  let key := get_relationship_key m e c in
  rp ← Pair.new e c es cs;
  Ok (insert_pair key rp m).

Definition no_relationship : DsmError :=
  ENotFound "Relationship" (Some "No relationship found between {} and {}"%string).

Definition resume_relationship (m : RelationshipManager) (e c : string) : outcome ResumedContext :=
  match relationship_store m !! get_relationship_key m e c with
  | Some rp => Pair.resume rp
  | None => Err no_relationship
  end.

Definition update_relationship (m : RelationshipManager) (e c : string) (es cs : State)
    : outcome RelationshipManager :=
  let key := get_relationship_key m e c in
  match relationship_store m !! key with
  | Some rp =>
      ok ← Pair.verify_cross_chain_continuity rp es cs;
      if negb ok then Err (EValidation "Cross-chain continuity violation detected")
      else
        updated ← Pair.new e c es cs;
        Ok (insert_pair key updated m)
  | None => Err no_relationship
  end.

Definition execute_relationship_transition (m : RelationshipManager) (e c : string)
    (op : Operation) (new_entropy : bytes) : outcome (RelationshipStatePair * RelationshipManager) :=
  context ← resume_relationship m e c;
  relationship ← Pair.new (cx_entity_id context) (cx_counterparty_id context)
                   (cx_entity_state context) (cx_counterparty_state context);
  ok ← Pair.validate_against_forward_commitment relationship op;
  if negb ok then Err (EValidation "Operation does not comply with forward commitment")
  else
    let t := mkRelTransition op (Some new_entropy) None
               (dev_device_id (device_info (cx_entity_state context))) in
    new_entity ← Pair.apply_rel_transition t (cx_entity_state context);
    new_rel ← Pair.new e c new_entity (cx_counterparty_state context);
    m' ← update_relationship m e c (rp_entity_state new_rel) (rp_counterparty_state new_rel);
    Ok (new_rel, m').

Definition verify_relationship_exists (m : RelationshipManager) (e c : string) : outcome bool :=
  Ok (bool_decide (is_Some (relationship_store m !! get_relationship_key m e c))).

Definition export_relationship_proof (m : RelationshipManager) (e c : string) : outcome RelationshipProof :=
  match relationship_store m !! get_relationship_key m e c with
  | Some rp =>
      h1 ← St.get_hash (rp_entity_state rp);
      h2 ← St.get_hash (rp_counterparty_state rp);
      Ok (mkRelProof (rp_entity_id rp) (rp_counterparty_id rp) h1 h2 (rp_relationship_hash rp))
  | None => Err no_relationship
  end.

Definition verify_relationship_proof (m : RelationshipManager) (proof : RelationshipProof) : outcome bool :=
  match relationship_store m !! get_relationship_key m (pr_entity_id proof) (pr_counterparty_id proof) with
  | Some rp =>
      h1 ← St.get_hash (rp_entity_state rp);
      if negb (bool_decide (h1 = pr_entity_state_hash proof)) then Ok false
      else
        h2 ← St.get_hash (rp_counterparty_state rp);
        if negb (bool_decide (h2 = pr_counterparty_state_hash proof)) then Ok false
        else if negb (bool_decide (rp_relationship_hash rp = pr_relationship_hash proof)) then Ok false
        else Ok true
  | None => Ok false
  end.

Definition list_entities (m : RelationshipManager) : outcome (gset string) :=
  Ok (list_to_set (concat ((fun '(_, p) => [rp_entity_id p; rp_counterparty_id p]) <$>
        map_to_list (relationship_store m)))).

(** The order of the result is the iteration order of the store. *)
Definition find_counterparties (m : RelationshipManager) (e : string) : outcome (list string) :=
  Ok (concat ((fun '(_, p) =>
    if bool_decide (rp_entity_id p = e) then [rp_counterparty_id p]
    else if bool_decide (rp_counterparty_id p = e) then [rp_entity_id p] else [])
    <$> map_to_list (relationship_store m))).

Definition get_entity_state (m : RelationshipManager) (e c : string) : outcome State :=
  match relationship_store m !! get_relationship_key m e c with
  | Some rp =>
      if bool_decide (rp_entity_id rp = e) then Ok (rp_entity_state rp)
      else Ok (rp_counterparty_state rp)
  | None => Err no_relationship
  end.

Definition get_relationship_state := get_entity_state.

End Manager.
End Manager.

(** ** Lemmas: keys *)

(** An identifier without the separator of the keys. *)
(* ASCII 58 *)
Definition colon : Ascii.ascii := Eval cbv in Ascii.ascii_of_nat 58.
Definition colon_free (s : string) : Prop := colon ∉ String.list_ascii_of_string s.

Lemma list_ascii_app s t :
  String.list_ascii_of_string (s +:+ t) = String.list_ascii_of_string s ++ String.list_ascii_of_string t.
Proof. induction s as [|a s IH]; [done|]. exact (f_equal (cons a) IH). Qed.

Lemma list_ascii_inj s t : String.list_ascii_of_string s = String.list_ascii_of_string t → s = t.
Proof.
  intros H. rewrite <- (String.string_of_list_ascii_of_string s), H.
  apply String.string_of_list_ascii_of_string.
Qed.

Lemma split_at_sep {A} (x : A) a a' b b' :
  x ∉ a → x ∉ a' → a ++ x :: b = a' ++ x :: b' → a = a' ∧ b = b'.
Proof.
  revert a'. induction a as [|y a IH]; intros [|y' a'] Ha Ha' H; cbn in H; simplify_eq.
  - done.
  - set_solver.
  - set_solver.
  - destruct (IH a') as [-> ->]; [set_solver|set_solver|done|done].
Qed.

Lemma key_split a b a' b' :
  colon_free a → colon_free a' →
  a +:+ ":" +:+ b = a' +:+ ":" +:+ b' → a = a' ∧ b = b'.
Proof.
  intros Ha Ha' H. apply (f_equal String.list_ascii_of_string) in H.
  rewrite !list_ascii_app in H. apply split_at_sep in H as [H1 H2]; [|done..].
  split; by apply list_ascii_inj.
Qed.

Section RelFacts.
Context {B3 : Blake3} {SO : Bincode Operation} {SB : Bincode Balance} {SP : Bincode PreCommitment}.

Lemma canonical_key_sym m e c :
  key_derivation_strategy m = Canonical →
  Manager.get_relationship_key m e c = Manager.get_relationship_key m c e.
Proof.
  intros Hs. unfold Manager.get_relationship_key. rewrite Hs.
  destruct (decide (String.le e c)) as [H1|H1], (decide (String.le c e)) as [H2|H2].
  - assert (e = c) as -> by (by apply (anti_symm String.le)). done.
  - by rewrite bool_decide_eq_true_2, bool_decide_eq_false_2.
  - by rewrite bool_decide_eq_false_2, bool_decide_eq_true_2.
  - by destruct (String.le_total e c).
Qed.

Lemma canonical_key_inj m e c e' c' :
  key_derivation_strategy m = Canonical →
  colon_free e → colon_free c → colon_free e' → colon_free c' →
  Manager.get_relationship_key m e c = Manager.get_relationship_key m e' c' →
  (e = e' ∧ c = c') ∨ (e = c' ∧ c = e').
Proof.
  intros Hs He Hc He' Hc'. unfold Manager.get_relationship_key. rewrite Hs.
  repeat case_bool_decide; intros [-> ->]%key_split; auto.
Qed.

Lemma key_insert_pair k p m e c :
  Manager.get_relationship_key (Manager.insert_pair k p m) e c = Manager.get_relationship_key m e c.
Proof. done. Qed.

Lemma pair_new_inv e c es cs p :
  Pair.new e c es cs = Ok p →
  ∃ h1 h2, St.get_hash es = Ok h1 ∧ St.get_hash cs = Ok h2 ∧ p = mkPair e c es cs ∅ (blake3 (h1 ++ h2)) true.
Proof.
  unfold Pair.new. intros (h1 & H1 & (h2 & H2 & [= <-])%bind_Ok)%bind_Ok. eauto 6.
Qed.

Lemma store_inv m e c es cs m' :
  Manager.store_relationship m e c es cs = Ok m' →
  ∃ h, m' = Manager.insert_pair (Manager.get_relationship_key m e c) (mkPair e c es cs ∅ h true) m.
Proof.
  unfold Manager.store_relationship.
  intros (p & (h1 & h2 & _ & _ & ->)%pair_new_inv & [= <-])%bind_Ok. by eexists.
Qed.

(** Continuity as a conjunction. *)
Lemma continuity_iff p es cs :
  Pair.verify_cross_chain_continuity p es cs = Ok true ↔
  state_number (rp_entity_state p) + 1 ≤ u64_max ∧ state_number (rp_counterparty_state p) + 1 ≤ u64_max ∧
  state_number es = state_number (rp_entity_state p) + 1 ∧
  state_number cs = state_number (rp_counterparty_state p) + 1 ∧
  St.get_hash (rp_entity_state p) = Ok (prev_state_hash es) ∧
  St.get_hash (rp_counterparty_state p) = Ok (prev_state_hash cs).
Proof.
  unfold Pair.verify_cross_chain_continuity. split.
  - intros (n1 & [-> H1]%u64_add_Ok & H)%bind_Ok. destruct (Z.eqb_spec (state_number es) (state_number (rp_entity_state p) + 1)); [|done].
    cbn [negb] in H. apply bind_Ok in H as (n2 & [-> H2]%u64_add_Ok & H).
    destruct (Z.eqb_spec (state_number cs) (state_number (rp_counterparty_state p) + 1)); [|done]. cbn [negb] in H.
    apply bind_Ok in H as (h1 & Hh1 & H). case_bool_decide; [|done]. cbn [negb] in H.
    apply bind_Ok in H as (h2 & Hh2 & H). case_bool_decide; [|done]. subst. done.
  - intros (H1 & H2 & H3 & H4 & H5 & H6). unfold u64_add.
    rewrite !(proj2 (Z.leb_le _ _)) by lia. cbn [mbind outcome_bind].
    rewrite !(proj2 (Z.eqb_eq _ _)) by done. cbn [negb]. rewrite H5. cbn [mbind outcome_bind].
    rewrite bool_decide_eq_true_2 by done. cbn [negb]. rewrite H6. cbn [mbind outcome_bind].
    by rewrite bool_decide_eq_true_2.
Qed.

Lemma update_inv m e c es cs m' :
  Manager.update_relationship m e c es cs = Ok m' →
  ∃ p h, relationship_store m !! Manager.get_relationship_key m e c = Some p ∧
    Pair.verify_cross_chain_continuity p es cs = Ok true ∧
    m' = Manager.insert_pair (Manager.get_relationship_key m e c) (mkPair e c es cs ∅ h true) m.
Proof.
  unfold Manager.update_relationship. destruct (relationship_store m !! _) as [p|]; [|done].
  intros ([] & Hc & H)%bind_Ok; [|done]. cbn [negb] in H.
  apply bind_Ok in H as (q & (h1 & h2 & _ & _ & ->)%pair_new_inv & [= <-]). eauto.
Qed.

(** Every pair is stored under the key of its own parties. *)
Definition manager_wf (m : RelationshipManager) : Prop :=
  ∀ k p, relationship_store m !! k = Some p →
    Manager.get_relationship_key m (rp_entity_id p) (rp_counterparty_id p) = k.

Lemma insert_pair_wf m e c es cs h :
  manager_wf m →
  manager_wf (Manager.insert_pair (Manager.get_relationship_key m e c) (mkPair e c es cs ∅ h true) m).
Proof.
  intros Hwf k p. cbn. rewrite lookup_insert. case_decide; [|apply Hwf].
  intros [= <-]. cbn. done.
Qed.

End RelFacts.
#[export] Hint Resolve insert_pair_wf : dsm.

(** ** Properties *)

Section RelProps.
Context {B3 : Blake3} {SO : Bincode Operation} {SB : Bincode Balance} {SP : Bincode PreCommitment}.

(** [execute_relationship_transition] never succeeds: it advances the
    entity state only and passes the stored counterparty state to
    [update_relationship], whose continuity check requires the counterparty to
    advance as well, so every call that reaches the update is refused. *)
Theorem execute_relationship_transition_never_succeeds (m : RelationshipManager) (e c : string)
    (op : Operation) (new_entropy : bytes) (r : RelationshipStatePair * RelationshipManager) :
  Manager.execute_relationship_transition m e c op new_entropy ≠ Ok r.
Proof.
  unfold Manager.execute_relationship_transition, Manager.resume_relationship.
  destruct (relationship_store m !! _) as [p|] eqn:Hp; [|done]. cbn [mbind outcome_bind Pair.resume].
  intros (q & _ & (ok & _ & H)%bind_Ok)%bind_Ok. destruct ok; [cbn [negb] in H|done].
  apply bind_Ok in H as (es & _ & (nr & (h1 & h2 & _ & _ & ->)%pair_new_inv & (m' & Hu & _)%bind_Ok)%bind_Ok).
  apply update_inv in Hu as (p' & h & Hp' & (_ & _ & _ & Hn & _)%continuity_iff & _).
  rewrite Hp in Hp'. injection Hp' as <-. cbn in Hn. lia.
Qed.

(** Under the canonical key a stored relationship is found by both parties,
    each getting its own state, and storing it leaves every other pair of
    parties with the state it had, for identifiers without the key separator. *)
Theorem relationship_isolation (m m' : RelationshipManager) (e c e' c' : string) (es cs : State) :
  key_derivation_strategy m = Canonical → e ≠ c →
  colon_free e → colon_free c → colon_free e' → colon_free c' →
  Manager.store_relationship m e c es cs = Ok m' →
  Manager.get_entity_state m' e c = Ok es ∧ Manager.get_entity_state m' c e = Ok cs ∧
  (¬ (e' = e ∧ c' = c) → ¬ (e' = c ∧ c' = e) →
     Manager.get_entity_state m' e' c' = Manager.get_entity_state m e' c').
Proof.
  intros Hs Hne He Hc He' Hc' (h & ->)%store_inv. unfold Manager.get_entity_state.
  rewrite !key_insert_pair. cbn. split_and!.
  - rewrite lookup_insert_eq. cbn. by rewrite bool_decide_eq_true_2.
  - rewrite (canonical_key_sym m c e), lookup_insert_eq by done. cbn.
    by rewrite bool_decide_eq_false_2.
  - intros H1 H2. rewrite lookup_insert_ne; [done|].
    intros [[-> ->]|[-> ->]]%canonical_key_inj; naive_solver.
Qed.

(** The relationship keys are ambiguous when identifiers contain the
    separator: parties [x:y] and [z] share their key with [x] and [y:z], so
    storing one relationship replaces the other, and the hashed key is the same
    for any two splits of the concatenated identifiers. *)
Theorem relationship_key_ambiguous (m : RelationshipManager) (x y z : string) :
  (key_derivation_strategy m = EntityCentric →
     Manager.get_relationship_key m (x +:+ ":" +:+ y) z = Manager.get_relationship_key m x (y +:+ ":" +:+ z)) ∧
  (key_derivation_strategy m = Hashed →
     Manager.get_relationship_key m (x +:+ y) z = Manager.get_relationship_key m x (y +:+ z)).
Proof.
  unfold Manager.get_relationship_key. split; intros ->.
  - apply list_ascii_inj. rewrite !list_ascii_app. cbn. by rewrite <- !app_assoc.
  - do 2 f_equal. unfold str_bytes, String.list_byte_of_string.
    rewrite !list_ascii_app, !map_app. by rewrite app_assoc.
Qed.

(** Storing and updating keep every pair under the key of its own parties,
    an update needs both chains to advance by exactly one linked state, and
    from such a store an exported proof is accepted by the verifier. *)
Theorem relationship_store_invariant (m : RelationshipManager) (e c : string) (es cs : State) :
  manager_wf m →
  (∀ m', Manager.store_relationship m e c es cs = Ok m' → manager_wf m') ∧
  (∀ m', Manager.update_relationship m e c es cs = Ok m' →
     manager_wf m' ∧ ∃ p, relationship_store m !! Manager.get_relationship_key m e c = Some p ∧
       state_number es = state_number (rp_entity_state p) + 1 ∧
       state_number cs = state_number (rp_counterparty_state p) + 1 ∧
       St.get_hash (rp_entity_state p) = Ok (prev_state_hash es) ∧
       St.get_hash (rp_counterparty_state p) = Ok (prev_state_hash cs)) ∧
  (∀ proof, Manager.export_relationship_proof m e c = Ok proof →
     Manager.verify_relationship_proof m proof = Ok true).
Proof.
  intros Hwf. split_and!.
  - intros m' (h & ->)%store_inv. by apply insert_pair_wf.
  - intros m' (p & h & Hp & (_ & _ & ?)%continuity_iff & ->)%update_inv.
    split; [by apply insert_pair_wf|]. by exists p.
  - intros proof. unfold Manager.export_relationship_proof.
    destruct (relationship_store m !! _) as [p|] eqn:Hp; [|done].
    intros (h1 & H1 & (h2 & H2 & [= <-])%bind_Ok)%bind_Ok.
    unfold Manager.verify_relationship_proof; cbn. rewrite (Hwf _ _ Hp), Hp, H1. cbn.
    rewrite bool_decide_eq_true_2 by done. cbn. rewrite H2. cbn.
    by rewrite !bool_decide_eq_true_2.
Qed.

End RelProps.

(** ** Witnesses *)

Section RelWitnesses.
#[local] Existing Instances Toy.toy_blake3 Toy.toy_runtime toy_bincode_operation
  ToySt.toy_bincode_balance ToySt.toy_bincode_precommitment.
Import ToyTr.

Definition empty_manager : RelationshipManager := Manager.new Canonical.
Definition demo_manager : RelationshipManager :=
  match Manager.store_relationship empty_manager "alice" "bob" g0 s1 with
  | Ok m => m | _ => empty_manager end.

Lemma demo_stored : Manager.store_relationship empty_manager "alice" "bob" g0 s1 = Ok demo_manager.
Proof. vm_compute. reflexivity. Qed.

Ltac colon_tac := intros Hin; repeat (apply elem_of_cons in Hin as [Hin|Hin]; [discriminate Hin|]);
  by apply elem_of_nil in Hin.

Lemma relationship_isolation_witness :
  Manager.get_entity_state demo_manager "bob" "alice" = Ok s1.
Proof.
  apply (relationship_isolation empty_manager demo_manager "alice" "bob" "carol" "dave" g0 s1);
    [reflexivity|discriminate|colon_tac..|exact demo_stored].
Defined.

Lemma relationship_key_ambiguous_witness :
  Manager.get_relationship_key (Manager.new EntityCentric) "a:b" "c" =
  Manager.get_relationship_key (Manager.new EntityCentric) "a" "b:c".
Proof. apply (relationship_key_ambiguous (Manager.new EntityCentric) "a" "b" "c"). reflexivity. Defined.

Lemma empty_manager_wf : manager_wf empty_manager.
Proof. intros k p Hk. unfold empty_manager, Manager.new in Hk; cbn in Hk. by rewrite lookup_empty in Hk. Qed.

Lemma relationship_store_invariant_witness : manager_wf demo_manager.
Proof.
  destruct (relationship_store_invariant empty_manager "alice" "bob" g0 s1 empty_manager_wf)
    as (Hstore & _). apply Hstore. exact demo_stored.
Defined.

End RelWitnesses.
