(* ===== verification/Sync.v ===== *)
(** * Validation, projection and modal synchronisation

    core/state_machine/validation.rs, state_projection.rs, sync_manager.rs and
    bilateral.rs, with the parts of relationship.rs they use: the decoding of the
    metadata of a pair, its forward-linked commitments and the free transition
    functions. *)
From S2P Require Import Prelude Tokens Operations SparseIdx States RandomWalk Transition Relationship.

(** ** Data *)

(** [relationship::ForwardLinkedCommitment]; the parameters in the iteration
    order of the map. *)
Record RelCommitment := mkRelCommitment {
  fl_next_state_hash : bytes;
  fl_counterparty_id : string;
  fl_fixed_parameters : list (string * bytes);
  fl_variable_parameters : list string;
  fl_entity_signature : bytes;
  fl_counterparty_signature : bytes;
  fl_commitment_hash : bytes;
  fl_min_state_number : Z;
}.

Record IdentityAnchor := mkAnchor {
  ia_id : string;
  ia_genesis_hash : bytes;
  ia_public_key : bytes;
  ia_commitment_proof : bytes;
}.

Record ProjectedState := mkProjected {
  pj_base_state : State;
  pj_projected_operations : list Operation;
  pj_projected_hash : bytes;
  pj_recipient : option IdentityAnchor;
  pj_metadata : gmap string bytes;
}.

Record BilateralStateManager := mkBilateral {
  bm_relationship_manager : RelationshipManager;
  bm_active_sessions : gmap string string;
}.

(** ** [PartialEq for Operation]

    Derived, except that pre-commitments are compared as maps and without their
    security parameters. *)

#[export] Instance TransactionMode_eq_dec : EqDecision TransactionMode.
Proof. solve_decision. Defined.
#[export] Instance VerificationType_eq_dec : EqDecision VerificationType.
Proof. solve_decision. Defined.
#[export] Instance SecurityParameters_eq_dec : EqDecision SecurityParameters.
Proof. solve_decision. Defined.
#[export] Instance PreCommitmentOp_eq_dec : EqDecision PreCommitmentOp.
Proof. solve_decision. Defined.
#[export] Instance Operation_eq_dec : EqDecision Operation.
Proof. solve_decision. Defined.

Definition pre_commit_eqb (a b : PreCommitmentOp) : bool :=
  bool_decide ((list_to_map (pco_fixed_parameters a) : gmap string bytes) = list_to_map (pco_fixed_parameters b)) &&
  bool_decide (pco_variable_parameters a = pco_variable_parameters b).

(** An operation without its pre-commitment, and the pre-commitment. *)
Definition split_pre_commit (op : Operation) : Operation * option PreCommitmentOp :=
  match op with
  | Transfer a b c d e f pc g h i => (Transfer a b c d e f None g h i, pc)
  | op => (op, None)
  end.

Definition operation_eqb (a b : Operation) : bool :=
  bool_decide ((split_pre_commit a).1 = (split_pre_commit b).1) &&
  match (split_pre_commit a).2, (split_pre_commit b).2 with
  | Some x, Some y => pre_commit_eqb x y
  | None, None => true
  | _, _ => false
  end.

Lemma operation_eqb_refl op : operation_eqb op op = true.
Proof.
  unfold operation_eqb. rewrite bool_decide_eq_true_2 by done. destruct (split_pre_commit op).2; [|done].
  unfold pre_commit_eqb. by rewrite !bool_decide_eq_true_2.
Qed.

(** ** relationship.rs *)

Module Rel.
Section Rel.
Context {B3 : Blake3} {SO : Bincode Operation} {SB : Bincode Balance} {SP : Bincode PreCommitment}.
Context {DS : Unbincode State} {DL : Unbincode (list State)}.

Definition get_last_synced_state (p : RelationshipStatePair) : option State :=
  let fallback := if 0 <? state_number (rp_counterparty_state p) then Some (rp_counterparty_state p) else None in
  match rp_verification_metadata p !! "last_synced_state"%string with
  | Some synced_data =>
      if bool_decide (synced_data = []) then fallback
      else match (deserialize synced_data : option State) with Some s => Some s | None => fallback end
  | None => fallback
  end.

Definition get_pending_unilateral_transactions (p : RelationshipStatePair) : list State :=
  match rp_verification_metadata p !! "pending_transactions"%string with
  | Some pending_data =>
      if bool_decide (pending_data = []) then []
      else
        match (deserialize pending_data : option (list State)) with
        | Some states => states
        | None => match (deserialize pending_data : option State) with Some s => [s] | None => [] end
        end
  | None => []
  end.

Definition commitment_new (next_state_hash : bytes) (counterparty_id : string)
    (fixed_parameters : list (string * bytes)) (variable_parameters : list string) : outcome RelCommitment :=
  let h := blake3 (next_state_hash ++ str_bytes counterparty_id ++
             concat (map (fun '(k, v) => str_bytes k ++ v) (sort_by_key fixed_parameters))) in
  Ok (mkRelCommitment next_state_hash counterparty_id fixed_parameters variable_parameters [] [] h 0).

(** [HashMap::get] *)
Definition param (key : string) (l : list (string * bytes)) : option bytes := (list_to_map l : gmap string bytes) !! key.

Definition verify_operation_adherence (c : RelCommitment) (op : Operation) : outcome bool :=
  match param "operation_type" (fl_fixed_parameters c) with
  | Some expected_op => if negb (bool_decide (op_tag op = expected_op)) then Ok false else Ok true
  | None => Ok true
  end.

(** [RelationshipContext::new] *)
Definition context_new (entity_id counterparty_id : string) (entity_state counterparty_state : State)
    : outcome ResumedContext :=
  h1 ← St.get_hash entity_state;
  h2 ← St.get_hash counterparty_state;
  Ok (mkResumed entity_id counterparty_id (blake3 (h1 ++ h2)) entity_state counterparty_state true).

Definition with_operation (n : Z) (op : Operation) (d : DeviceInfo) (s : State) : State :=
  mkState (st_id s) n (entropy s) (hash s) (prev_state_hash s) (sparse_index s) op (encapsulated_entropy s) d (flags s)
    (token_balances s) (matches_parameters s) (relationship_context s) (forward_commitment s) (position_sequence s)
    (positions s) (st_public_key s) (device_id s) (hashchain_head s) (external_data s) (entity_sig s)
    (counterparty_sig s) (st_value s) (st_commitment s) (state_type s).

(** The previous hash, the entropy and the sparse index stay those of the
    current state. *)
Definition execute_transition (current_state : State) (op : Operation) (d : DeviceInfo) : outcome State :=
  n ← u64_add (state_number current_state) 1;
  let next := with_operation n op d current_state in
  h ← St.compute_hash next;
  Ok (St.set_hash h next).

Definition test_entropy (n : Z) : bytes := blake3 (str_bytes ("entropy_" +:+ pretty n)).

Definition extract_state_number_from_entropy (e : bytes) : option Z :=
  find (fun i => constant_time_eq e (test_entropy i)) (seqZ 1 99).

(** The next state number is the constant 0. *)
Definition verify_entropy_evolution (prev_entropy current_entropy : bytes) (op : Operation) : outcome bool :=
  let production :=
    op_bytes ← serialize_or "Failed to serialize operation for entropy verification: {}" op;
    Ok (constant_time_eq current_entropy (blake3 (prev_entropy ++ op_bytes ++ u64_le 0))) in
  match extract_state_number_from_entropy current_entropy with
  | Some state_num => if constant_time_eq current_entropy (test_entropy state_num) then Ok true else production
  | None => production
  end.

End Rel.
End Rel.

(** ** validation.rs *)

Module Valid.
Section Valid.
Context {B3 : Blake3} {SO : Bincode Operation} {SB : Bincode Balance} {SP : Bincode PreCommitment}.

Definition verify_basic_transition (current_state next_state : State) : outcome bool := Ok true.

Definition validate_basic_transition (current_state next_state : State) : outcome bool :=
  n ← u64_add (state_number current_state) 1;
  if negb (state_number next_state =? n) then Ok false
  else
    current_hash ← St.get_hash current_state;
    if negb (bool_decide (prev_state_hash next_state = current_hash)) then Ok false
    else
      let expected_entropy := generate_deterministic_entropy (entropy current_state)
                                (unwrap_or [] (serialize (operation next_state))) (state_number next_state) in
      if negb (bool_decide (entropy next_state = expected_entropy)) then Ok false else Ok true.

Definition validate_bilateral_transition (current_state next_state : State) : outcome bool :=
  basic ← validate_basic_transition current_state next_state;
  if negb basic then Ok false
  else
    match relationship_context current_state with
    | Some current_rel =>
        match relationship_context next_state with
        | Some next_rel =>
            if negb (bool_decide (rc_counterparty_id current_rel = rc_counterparty_id next_rel)) then Ok false
            else if rc_counterparty_state_number next_rel <=? rc_counterparty_state_number current_rel then Ok false
            else Ok true
        | None => Ok false
        end
    | None => Ok true
    end.

Definition validate_device_info (d : DeviceInfo) : outcome bool :=
  if bool_decide (dev_device_id d = ""%string) then Err (EValidation "Device ID cannot be empty")
  else if bool_decide (dev_public_key d = []) then Err (EValidation "Public key cannot be empty")
  else Ok true.

Definition verify_identity_anchor (s : State) : outcome bool := validate_device_info (device_info s).

Definition validate_unilateral_transition (current_state next_state : State) : outcome bool :=
  basic ← validate_basic_transition current_state next_state;
  if negb basic then Ok false else verify_identity_anchor next_state.

(** [validation::verify_state_hash]: the copy has no hash, so its hash is computed. *)
Definition verify_state_hash (s : State) : outcome bool :=
  if bool_decide (hash s = []) then Ok false
  else
    expected_hash ← St.get_hash (St.set_hash [] s);
    Ok (bool_decide (expected_hash = hash s)).

(** The mode of the operations whose validation depends on it. *)
Definition op_mode (op : Operation) : option TransactionMode :=
  match op with
  | Transfer _ _ _ mode _ _ _ _ _ _ => Some mode
  | AddRelationship _ _ _ _ _ mode _ => Some mode
  | RemoveRelationship _ _ _ _ mode _ => Some mode
  | LockToken _ _ _ mode => Some mode
  | UnlockToken _ _ _ mode => Some mode
  | _ => None
  end.

Definition validate_state_transition (current_state next_state : State) (op : Operation) : outcome bool :=
  basic ← verify_basic_transition current_state next_state;
  if negb basic then Ok false
  else
    match op with
    | Genesis => Ok true
    | _ =>
        match op_mode op with
        | Some Bilateral => validate_bilateral_transition current_state next_state
        | Some Unilateral => validate_unilateral_transition current_state next_state
        | None => validate_basic_transition current_state next_state
        end
    end.

Definition validate_sparse_index (state_number : Z) (i : SparseIndex) : outcome bool :=
  expected_indices ← Sparse.calculate_sparse_indices state_number;
  Ok (bool_decide (expected_indices = indices i)).

(** Every arm of the four functions is [Ok(())]. *)
Definition accept (op : Operation) : outcome unit :=
  match op with
  | Genesis | Generic _ _ _ | Transfer _ _ _ _ _ _ _ _ _ _ | Mint _ _ _ _ _ | Burn _ _ _ _ | Create _ _ _ _ _ _ _
  | Update _ _ _ _ _ | AddRelationship _ _ _ _ _ _ _ | CreateRelationship _ _ _ _ _ | RemoveRelationship _ _ _ _ _ _
  | Recovery _ _ _ _ _ _ _ _ _ _ _ | Delete _ _ _ _ | Link _ _ _ _ | Unlink _ _ _ | Invalidate _ _ _
  | LockToken _ _ _ _ | UnlockToken _ _ _ _ => Ok tt
  end.
Definition validate_state (s : State) : outcome unit := accept (operation s).
Definition validate_operation (op : Operation) : outcome unit := accept op.
Definition verify_state_operation (s : State) : outcome unit := accept (operation s).
Definition verify_state_transition (s : State) (op : Operation) : outcome unit := accept op.

End Valid.
End Valid.

(** ** state_projection.rs *)

Module Proj.
Section Proj.
Context {B3 : Blake3} {SO : Bincode Operation} {SB : Bincode Balance} {SP : Bincode PreCommitment}.

(** [IdentityAnchor::as_bytes] *)
Definition anchor_bytes (a : IdentityAnchor) : bytes :=
  str_bytes (ia_id a) ++ ia_genesis_hash a ++ ia_public_key a ++ ia_commitment_proof a.

(** [impl StateExtension for State]: three of the getters return nothing. *)
Definition get_owner_id (s : State) : string := device_id s.
Definition get_entity_signature (s : State) : option bytes := None.
Definition get_counterparty_signature (s : State) : option bytes := None.
Definition get_projection_commitment (s : State) : option bytes := None.

Definition set_owner_id (o : string) (s : State) : State :=
  mkState (st_id s) (state_number s) (entropy s) (hash s) (prev_state_hash s) (sparse_index s)
    (operation s) (encapsulated_entropy s) (device_info s) (flags s) (token_balances s)
    (matches_parameters s) (relationship_context s) (forward_commitment s) (position_sequence s)
    (positions s) (st_public_key s) o (hashchain_head s) (external_data s)
    (entity_sig s) (counterparty_sig s) (st_value s) (st_commitment s) (state_type s).

(** [set_entity_signature], [set_counterparty_signature], [add_flag], [add_metadata]. *)
Definition set_signatures (es cs : option bytes) (s : State) : State :=
  mkState (st_id s) (state_number s) (entropy s) (hash s) (prev_state_hash s) (sparse_index s)
    (operation s) (encapsulated_entropy s) (device_info s) (flags s) (token_balances s)
    (matches_parameters s) (relationship_context s) (forward_commitment s) (position_sequence s)
    (positions s) (st_public_key s) (device_id s) (hashchain_head s) (external_data s)
    es cs (st_value s) (st_commitment s) (state_type s).
Definition add_flag (f : StateFlag) (s : State) : State :=
  mkState (st_id s) (state_number s) (entropy s) (hash s) (prev_state_hash s) (sparse_index s)
    (operation s) (encapsulated_entropy s) (device_info s) ({[ f ]} ∪ flags s) (token_balances s)
    (matches_parameters s) (relationship_context s) (forward_commitment s) (position_sequence s)
    (positions s) (st_public_key s) (device_id s) (hashchain_head s) (external_data s)
    (entity_sig s) (counterparty_sig s) (st_value s) (st_commitment s) (state_type s).
Definition add_metadata (key : string) (v : bytes) (s : State) : State :=
  mkState (st_id s) (state_number s) (entropy s) (hash s) (prev_state_hash s) (sparse_index s)
    (operation s) (encapsulated_entropy s) (device_info s) (flags s) (token_balances s)
    (matches_parameters s) (relationship_context s) (forward_commitment s) (position_sequence s)
    (positions s) (st_public_key s) (device_id s) (hashchain_head s) (<[key := v]> (external_data s))
    (entity_sig s) (counterparty_sig s) (st_value s) (st_commitment s) (state_type s).

Definition set_projection_commitment (c : option bytes) (s : State) : State :=
  match c with Some comm => add_metadata "projection_commitment" comm s | None => s end.

Definition projected_flag : StateFlag := Custom "projected".

Definition generate_projection_commitment (s : State) (recipient : IdentityAnchor) : outcome bytes :=
  h ← St.get_hash s;
  Ok (blake3 (h ++ str_bytes (ia_id recipient) ++ str_bytes "projection")).

Definition project_state (current_state : State) (recipient : IdentityAnchor) : outcome State :=
  let projected := set_owner_id (ia_id recipient) current_state in
  let projected := set_signatures None None projected in
  commitment ← generate_projection_commitment current_state recipient;
  let projected := set_projection_commitment (Some commitment) projected in
  Ok (add_flag projected_flag projected).

Definition verify_projected_state_contents (projected original : State) (recipient : IdentityAnchor) : outcome bool :=
  if negb (state_number projected =? state_number original)
     || negb (bool_decide (prev_state_hash projected = prev_state_hash original))
     || negb (operation_eqb (operation projected) (operation original))
     || negb (bool_decide (entropy projected = entropy original)) then Ok false
  else if negb (bool_decide (get_owner_id projected = ia_id recipient))
     || bool_decide (is_Some (get_entity_signature projected))
     || bool_decide (is_Some (get_counterparty_signature projected))
     || negb (bool_decide (projected_flag ∈ flags projected)) then Ok false
  else Ok true.

Definition verify_projection (projected original : State) (recipient : IdentityAnchor) : outcome bool :=
  match get_projection_commitment projected with
  | None => Ok false
  | Some commitment =>
      expected ← generate_projection_commitment original recipient;
      if negb (bool_decide (commitment = expected)) then Ok false
      else
        ok ← verify_projected_state_contents projected original recipient;
        if negb ok then Ok false else Ok true
  end.

(** [bincode::serialize(operation)?] *)
Definition derive_projected_entropy (base_entropy : bytes) (op : Operation) (recipient : IdentityAnchor) : outcome bytes :=
  op_bytes ← serialize_or "Bincode serialization error" op;
  Ok (blake3 (base_entropy ++ op_bytes ++ anchor_bytes recipient)).

Definition verify_state_projection (projected base : State) (recipient : IdentityAnchor) : outcome bool :=
  n ← u64_add (state_number base) 1;
  if negb (state_number projected =? n) then Ok false
  else
    base_hash ← St.get_hash base;
    if negb (bool_decide (prev_state_hash projected = base_hash)) then Ok false
    else
      e ← derive_projected_entropy (entropy base) (operation projected) recipient;
      if negb (bool_decide (entropy projected = e)) then Ok false else Ok true.

(** [ProjectedState::default()] whatever the hash is. *)
Definition project_state_by_hash (state_hash : bytes) : outcome ProjectedState :=
  Ok (mkProjected default_state [] [] None ∅).

End Proj.
End Proj.

(** ** sync_manager.rs *)

Module Sync.
Section Sync.
Context {B3 : Blake3} {SO : Bincode Operation} {SB : Bincode Balance} {SP : Bincode PreCommitment}.
Context {SS : Bincode State} {DS : Unbincode State} {DL : Unbincode (list State)}.

Definition determine_transaction_mode (p : RelationshipStatePair) (counterparty_online : bool) : TransactionMode :=
  if counterparty_online && negb (Pair.has_pending_unilateral_transactions p) then Bilateral else Unilateral.

(** [for (param_key, param_value) in &previous_commitment.fixed_parameters] *)
Fixpoint parameters_kept (l : list (string * bytes)) (new_state : State) : bool :=
  match l with
  | [] => true
  | (param_key, param_value) :: l =>
      match St.get_parameter new_state param_key with
      | Some state_param => bool_decide (state_param = param_value) && parameters_kept l new_state
      | None => false
      end
  end.

Definition verify_commitment_continuity (previous_commitment : PreCommitment) (new_state : State) : outcome bool :=
  if negb (parameters_kept (pc_fixed_parameters previous_commitment) new_state) then Ok false
  else if state_number new_state <? pc_min_state_number previous_commitment then Ok false
  else Ok true.

(** The verdict on the commitment is dropped in unilateral mode. *)
Definition verify_modal_sync_precedence (p : RelationshipStatePair) (new_state : State) (mode : TransactionMode)
    : outcome bool :=
  match mode with
  | Bilateral =>
      match Rel.get_last_synced_state p with
      | Some last_synced_state =>
          if Pair.has_pending_unilateral_transactions p then Ok false
          else if negb (state_number last_synced_state =? state_number (rp_entity_state p)) then Ok false
          else Ok true
      | None => Ok true
      end
  | Unilateral =>
      match forward_commitment (rp_entity_state p) with
      | Some commitment => _ ← verify_commitment_continuity commitment new_state; Ok true
      | None => Ok true
      end
  end.

(** A call that returns the new pair. *)
Definition replace (f : RelationshipStatePair → outcome RelationshipStatePair) : M RelationshipStatePair unit := fun p =>
  match f p with
  | Ok p' => (Ok tt, p')
  | Err e => (Err e, p)
  | Panic => (Panic, p)
  | Hang => (Hang, p)
  end.

(** [let _ = relationship.set_last_synced_state(..)]: an error is dropped. *)
Definition ignore_error {S} (m : M S unit) : M S unit := fun s =>
  match m s with (Err _, s') => (Ok tt, s') | r => r end.

Definition update_sync_state (new_state : State) (mode : TransactionMode) : M RelationshipStatePair unit :=
  match mode with
  | Bilateral =>
      do* replace (fun p => Pair.update_entity_state p new_state);
      ignore_error (replace (fun p => Pair.set_last_synced_state p (Some new_state)))
  | Unilateral =>
      do* replace (fun p => Pair.update_entity_state p new_state);
      Pair.add_pending_transaction new_state
  end.

Fixpoint apply_pending (pending : list State) : M RelationshipStatePair unit :=
  match pending with
  | [] => mret_st tt
  | transaction :: pending =>
      let* p := mget in
      let* ok := mlift (verify_modal_sync_precedence p transaction Unilateral) in
      do* (if ok : bool then replace (fun p => Pair.apply_transaction p transaction) else mret_st tt);
      apply_pending pending
  end.

Definition process_pending_transactions : M RelationshipStatePair unit :=
  let* p := mget in
  do* apply_pending (Rel.get_pending_unilateral_transactions p);
  mmod Pair.clear_pending_transactions.

End Sync.
End Sync.

(** ** bilateral.rs *)

Module Bilat.
Section Bilat.
Context {B3 : Blake3} {SO : Bincode Operation} {SB : Bincode Balance} {SP : Bincode PreCommitment}.

Definition new : BilateralStateManager := mkBilateral (Manager.new Canonical) ∅.
Definition new_with_strategy (strategy : KeyDerivationStrategy) : BilateralStateManager :=
  mkBilateral (Manager.new strategy) ∅.

Definition execute_transition (entity_id counterparty_id : string) (op : Operation) (e : bytes)
    : M BilateralStateManager RelationshipStatePair := fun m =>
  match Manager.execute_relationship_transition (bm_relationship_manager m) entity_id counterparty_id op e with
  | Ok (new_pair, rm) => (Ok new_pair, mkBilateral rm (bm_active_sessions m))
  | Err err => (Err err, m)
  | Panic => (Panic, m)
  | Hang => (Hang, m)
  end.

Definition get_relationship_state (m : BilateralStateManager) (entity_id counterparty_id : string) : outcome State :=
  Manager.get_relationship_state (bm_relationship_manager m) entity_id counterparty_id.

Definition create_session (m : BilateralStateManager) (entity_id counterparty_id : string)
    : string * BilateralStateManager :=
  let session_id := "session_" +:+ entity_id +:+ "_" +:+ counterparty_id in
  let relationship_id := entity_id +:+ ":" +:+ counterparty_id in
  (session_id, mkBilateral (bm_relationship_manager m) (<[session_id := relationship_id]> (bm_active_sessions m))).

Definition close_session (m : BilateralStateManager) (session_id : string) : bool * BilateralStateManager :=
  (bool_decide (is_Some (bm_active_sessions m !! session_id)),
   mkBilateral (bm_relationship_manager m) (delete session_id (bm_active_sessions m))).

End Bilat.
End Bilat.

(** ** Lemmas *)

Section SyncFacts.
Context {B3 : Blake3} {SO : Bincode Operation} {SB : Bincode Balance} {SP : Bincode PreCommitment}.

(** The entropy the whitepaper's evolution equation gives. *)
Definition evolved_entropy (cur : State) (op : Operation) (n : Z) : bytes :=
  generate_deterministic_entropy (entropy cur) (unwrap_or [] (serialize op)) n.

Lemma validate_basic_iff cur s : Valid.validate_basic_transition cur s = Ok true ↔
  state_number s = state_number cur + 1 ∧ state_number s ≤ u64_max ∧ St.get_hash cur = Ok (prev_state_hash s) ∧
  entropy s = evolved_entropy cur (operation s) (state_number s).
Proof.
  unfold Valid.validate_basic_transition, u64_add. destruct (state_number cur + 1 <=? u64_max) eqn:E; zbool; cbn [mbind outcome_bind];
    [|split; [done|lia]].
  destruct (state_number s =? _) eqn:En; zbool; cbn [negb]; [|split; [done|by intros []]].
  destruct (St.get_hash cur) as [h| | |]; cbn [mbind outcome_bind]; [|split; [done|by intros (_ & _ & ? & _)]..].
  case_bool_decide as Hp; cbn [negb].
  - fold (evolved_entropy cur (operation s) (state_number s)). case_bool_decide as He; cbn [negb].
    + split; [|done]. intros _. rewrite Hp. split_and!; [done|lia|done|done].
    + split; [done|]. intros (_ & _ & _ & H). by rewrite H in He.
  - split; [done|]. intros (_ & _ & [= Hh] & _). by rewrite Hh in Hp.
Qed.

Context {SS : Bincode State} {DS : Unbincode State} {DL : Unbincode (list State)}.

Lemma unilateral_precedence p s : Sync.verify_modal_sync_precedence p s Unilateral = Ok true.
Proof.
  unfold Sync.verify_modal_sync_precedence, Sync.verify_commitment_continuity.
  destruct (forward_commitment (rp_entity_state p)); [|done]. by do 2 (case_test; [done|]).
Qed.

(** All pending transactions are applied, the last one wins. *)
Lemma apply_pending_run l : ∀ p, Sync.apply_pending l p =
  (Ok tt, match last l with Some s => Pair.set_entity_state s p | None => p end).
Proof.
  induction l as [|s l IH]; intros p; [done|]. cbn [Sync.apply_pending]. unfold mbind_st, mget, mlift.
  rewrite unilateral_precedence. unfold Sync.replace, Pair.apply_transaction. rewrite IH.
  destruct l as [|s' l]; [done|]. rewrite last_cons_cons. destruct (last (s' :: l)) eqn:E; [done|by apply last_None in E].
Qed.

Lemma process_pending_run p : ∃ p', Sync.process_pending_transactions p = (Ok tt, p') ∧
  rp_entity_state p' = unwrap_or (rp_entity_state p) (last (Rel.get_pending_unilateral_transactions p)) ∧
  Pair.has_pending_unilateral_transactions p' = false.
Proof.
  unfold Sync.process_pending_transactions, mbind_st, mget, mmod. rewrite apply_pending_run. eexists. split; [done|].
  set (q := match last _ with Some s => Pair.set_entity_state s p | None => p end).
  assert (Hq : rp_entity_state q = unwrap_or (rp_entity_state p) (last (Rel.get_pending_unilateral_transactions p)))
    by (unfold q; by destruct (last _)).
  unfold Pair.clear_pending_transactions, Pair.has_pending_unilateral_transactions.
  destruct (rp_verification_metadata q !! "pending_transactions"%string) eqn:E; cbn [Pair.set_meta rp_entity_state rp_verification_metadata].
  - by rewrite lookup_insert_eq.
  - by rewrite E.
Qed.

(** The encoded transactions a pair holds back. *)
Definition pending_data (p : RelationshipStatePair) : bytes :=
  unwrap_or [] (rp_verification_metadata p !! "pending_transactions"%string).

Lemma has_pending_iff p : Pair.has_pending_unilateral_transactions p = negb (bool_decide (pending_data p = [])).
Proof.
  unfold Pair.has_pending_unilateral_transactions, pending_data.
  by destruct (rp_verification_metadata p !! "pending_transactions"%string).
Qed.

Lemma update_unilateral_run p s b :
  state_number (rp_entity_state p) < state_number s → is_Some (relationship_context s) → serialize s = Some b →
  ∃ p', Sync.update_sync_state s Unilateral p = (Ok tt, p') ∧ rp_entity_state p' = s ∧
    rp_counterparty_state p' = rp_counterparty_state p ∧
    rp_verification_metadata p' !! "pending_transactions"%string = Some (pending_data p ++ b).
Proof.
  intros Hn [c Hc] Hb. unfold Sync.update_sync_state, mbind_st, Sync.replace, Pair.update_entity_state.
  rewrite (proj2 (Z.leb_gt _ _) Hn). unfold Pair.add_pending_transaction. rewrite Hc, Hb.
  eexists. split; [done|]. cbn [Pair.set_meta Pair.set_entity_state rp_entity_state rp_counterparty_state rp_verification_metadata].
  split_and!; [done|done|]. by rewrite lookup_insert_eq.
Qed.

Lemma update_number p s mode p' :
  Sync.update_sync_state s mode p = (Ok tt, p') → rp_entity_state p' = s ∧ state_number (rp_entity_state p) < state_number s.
Proof.
  unfold Sync.update_sync_state, mbind_st, Sync.replace, Pair.update_entity_state, Sync.ignore_error.
  destruct mode; destruct (state_number s <=? _) eqn:E; zbool; try done.
  - unfold Pair.set_last_synced_state, serialize_or. destruct (serialize s); cbn; intros [= <-]; cbn; done.
  - unfold Pair.add_pending_transaction. destruct (relationship_context s); [|done]. destruct (serialize s); [|done].
    intros [= <-]. done.
Qed.

End SyncFacts.

(** ** Properties *)

Section SyncProperties.
Context {B3 : Blake3} {RT : Runtime} {SO : Bincode Operation} {SB : Bincode Balance} {SP : Bincode PreCommitment}.

(** Validation agrees with construction: a next state built with the evolved
    entropy carries a hash and a sparse index that validate, and its transition
    is accepted, except that a bilateral operation is rejected whenever the state
    has a relationship context, because the counterparty number it must advance
    is inherited, and a unilateral one fails on an empty device id or key. *)
Theorem created_state_validation (cur : State) (op : Operation) (vt : LocalVerificationType) (rb : bool) (s' : State) :
  Tr.create_next_state cur op (evolved_entropy cur op (state_number cur + 1)) vt rb = Ok s' →
  Valid.verify_state_hash s' = Ok true ∧
  Valid.validate_sparse_index (state_number s') (sparse_index s') = Ok true ∧
  Valid.validate_state_transition cur s' op =
    match op, Valid.op_mode op with
    | Genesis, _ | _, None => Ok true
    | _, Some Bilateral => Ok (bool_decide (relationship_context cur = None))
    | _, Some Unilateral => Valid.validate_device_info (device_info cur)
    end.
Proof.
  intros H%create_next_state_inv. destruct H as [Hn Hb Hp He Ho _ Hi Hh _ _ Hd _ Hr _]. split_and!.
  - unfold Valid.verify_state_hash. rewrite bool_decide_eq_false_2 by (by eapply compute_hash_nonempty).
    unfold St.get_hash. cbn [St.set_hash hash].
    rewrite compute_hash_set_hash, Hh. cbn. by rewrite bool_decide_eq_true_2.
  - unfold Valid.validate_sparse_index. rewrite Hi. cbn. by rewrite bool_decide_eq_true_2.
  - assert (Hbasic : Valid.validate_basic_transition cur s' = Ok true).
    { apply validate_basic_iff. rewrite Ho, He, Hn. rewrite Hn in Hb. done. }
    assert (Hbi : Valid.validate_bilateral_transition cur s' = Ok (bool_decide (relationship_context cur = None))).
    { unfold Valid.validate_bilateral_transition. rewrite Hbasic, Hr. cbn. destruct (relationship_context cur) as [c|]; [|done].
      rewrite bool_decide_eq_true_2 by done. cbn. by rewrite Z.leb_refl. }
    assert (Hun : Valid.validate_unilateral_transition cur s' = Valid.validate_device_info (device_info cur)).
    { unfold Valid.validate_unilateral_transition, Valid.verify_identity_anchor. by rewrite Hbasic, Hd. }
    unfold Valid.validate_state_transition, Valid.verify_basic_transition. cbn [mbind outcome_bind negb].
    destruct op; cbn [Valid.op_mode]; try done; by destruct mode.
Qed.

(** Validation is sound: a transition accepted for any operation but genesis
    has the next state number, refers to the hash of the current state, and
    carries the entropy the evolution equation prescribes; an accepted bilateral
    one also keeps the counterparty and advances its number. *)
Theorem validation_sound (cur s : State) (op : Operation) :
  op ≠ Genesis → Valid.validate_state_transition cur s op = Ok true →
  state_number s = state_number cur + 1 ∧ St.get_hash cur = Ok (prev_state_hash s) ∧
  entropy s = evolved_entropy cur (operation s) (state_number s) ∧
  (Valid.op_mode op = Some Bilateral → ∀ c, relationship_context cur = Some c →
     ∃ c', relationship_context s = Some c' ∧ rc_counterparty_id c' = rc_counterparty_id c ∧
       rc_counterparty_state_number c < rc_counterparty_state_number c').
Proof.
  intros Hop H.
  assert (Hbasic : Valid.validate_basic_transition cur s = Ok true ∧
    (Valid.op_mode op = Some Bilateral → Valid.validate_bilateral_transition cur s = Ok true)).
  { unfold Valid.validate_state_transition, Valid.verify_basic_transition in H. cbn [mbind outcome_bind negb] in H.
    assert (Hm : match Valid.op_mode op with
      | Some Bilateral => Valid.validate_bilateral_transition cur s
      | Some Unilateral => Valid.validate_unilateral_transition cur s
      | None => Valid.validate_basic_transition cur s end = Ok true) by (by destruct op).
    clear H Hop. destruct (Valid.op_mode op) as [[]|]; [| |done]; (split; [|done]).
    - unfold Valid.validate_bilateral_transition in Hm. apply bind_Ok in Hm as ([] & Hb & Hm); done.
    - unfold Valid.validate_unilateral_transition in Hm. apply bind_Ok in Hm as ([] & Hb & Hm); done. }
  destruct Hbasic as [Hb Hbi]. pose proof (proj1 (validate_basic_iff cur s) Hb) as (H1 & _ & H2 & H3). split_and!; try done.
  intros Hmode c Hc. specialize (Hbi Hmode). unfold Valid.validate_bilateral_transition in Hbi. rewrite Hb, Hc in Hbi. cbn in Hbi.
  destruct (relationship_context s) as [c'|]; [|done]. exists c'. case_bool_decide as Hid; cbn in Hbi; [|done].
  destruct (_ <=? _) eqn:E; zbool; [done|]. done.
Qed.

(** No projection ever verifies: projecting a state succeeds whenever it can be
    hashed, the projection has the contents the verifier asks for and stores the
    commitment the verifier recomputes, yet verification rejects it, because the
    getter of the commitment returns nothing. *)
Theorem projection_never_verifies (s : State) (r : IdentityAnchor) (h : bytes) :
  St.get_hash s = Ok h →
  ∃ p c, Proj.project_state s r = Ok p ∧ Proj.generate_projection_commitment s r = Ok c ∧
    external_data p !! "projection_commitment"%string = Some c ∧
    Proj.verify_projected_state_contents p s r = Ok true ∧ Proj.verify_projection p s r = Ok false.
Proof.
  intros Hh. unfold Proj.project_state, Proj.generate_projection_commitment. rewrite Hh. cbn [mbind outcome_bind].
  do 2 eexists. split; [done|]. split; [done|]. split_and!; [|  |done].
  - cbn. by rewrite lookup_insert_eq.
  - unfold Proj.verify_projected_state_contents, Proj.get_owner_id, Proj.get_entity_signature, Proj.get_counterparty_signature,
      Proj.add_flag, Proj.set_projection_commitment, Proj.add_metadata, Proj.set_signatures, Proj.set_owner_id.
    cbn [state_number prev_state_hash operation entropy device_id flags].
    rewrite Z.eqb_refl, operation_eqb_refl, (bool_decide_eq_true_2 (prev_state_hash s = _)),
      (bool_decide_eq_true_2 (entropy s = _)), (bool_decide_eq_true_2 (ia_id r = _)), (bool_decide_eq_true_2 (_ ∈ _))
      by (done || set_solver). done.
Qed.

Context {SS : Bincode State} {DS : Unbincode State} {DL : Unbincode (list State)}.

(** The modes follow the pending queue: bilateral mode is chosen exactly for an
    online counterparty and an empty queue; a recorded transaction strictly
    advances the entity's state; a unilateral one fills the queue, after which
    only unilateral mode is chosen and a bilateral transaction on a synchronised
    pair is refused; and processing the queue always succeeds and empties it. *)
Theorem modal_synchronisation (p p' : RelationshipStatePair) (s s' : State) (b : bytes) (online : bool) :
  serialize s = Some b → b ≠ [] → Sync.update_sync_state s Unilateral p = (Ok tt, p') →
  rp_entity_state p' = s ∧ state_number (rp_entity_state p) < state_number s ∧
  Sync.determine_transaction_mode p' online = Unilateral ∧
  (is_Some (Rel.get_last_synced_state p') → Sync.verify_modal_sync_precedence p' s' Bilateral = Ok false) ∧
  ∃ q, Sync.process_pending_transactions p' = (Ok tt, q) ∧
    Sync.determine_transaction_mode q online = (if online then Bilateral else Unilateral).
Proof.
  intros Hb Hne H. destruct (update_number _ _ _ _ H) as [H1 H2].
  assert (Hpend : Pair.has_pending_unilateral_transactions p' = true).
  { assert (Hc : is_Some (relationship_context s)).
    { revert H. unfold Sync.update_sync_state, mbind_st, Sync.replace, Pair.update_entity_state, Pair.add_pending_transaction.
      rewrite (proj2 (Z.leb_gt _ _) H2). destruct (relationship_context s); [by eexists|done]. }
    destruct (update_unilateral_run p s b H2 Hc Hb) as (q & Hq & _ & _ & Hm). rewrite H in Hq. injection Hq as <-.
    unfold Pair.has_pending_unilateral_transactions. rewrite Hm. rewrite bool_decide_eq_false_2; [done|].
    intros [_ E]%app_nil. done. }
  unfold Sync.determine_transaction_mode. rewrite Hpend, andb_false_r. split_and!; try done.
  - intros [l Hl]. unfold Sync.verify_modal_sync_precedence. by rewrite Hl, Hpend.
  - destruct (process_pending_run p') as (q & Hq & _ & Hnone). exists q. split; [done|]. rewrite Hnone, andb_true_r. by destruct online.
Qed.

(** Synchronising two offline transactions rolls one of them back: the two
    encodings are stored one after the other, a decoder that allows trailing
    bytes reads only the first, so that after processing the entity is back at
    the first state with an empty queue, and the second state is gone. *)
Theorem pending_transactions_lost (p : RelationshipStatePair) (s1 s2 : State) (b1 b2 : bytes) :
  state_number (rp_entity_state p) < state_number s1 → state_number s1 < state_number s2 →
  is_Some (relationship_context s1) → is_Some (relationship_context s2) →
  serialize s1 = Some b1 → serialize s2 = Some b2 → b1 ≠ [] → pending_data p = [] →
  (deserialize (b1 ++ b2) : option (list State)) = None → (deserialize (b1 ++ b2) : option State) = Some s1 →
  ∃ p1 p2 p3, Sync.update_sync_state s1 Unilateral p = (Ok tt, p1) ∧
    Sync.update_sync_state s2 Unilateral p1 = (Ok tt, p2) ∧ rp_entity_state p2 = s2 ∧
    Sync.process_pending_transactions p2 = (Ok tt, p3) ∧ rp_entity_state p3 = s1 ∧
    Pair.has_pending_unilateral_transactions p3 = false.
Proof.
  intros Hn1 Hn2 Hc1 Hc2 Hb1 Hb2 Hne Hp Hl Hs.
  destruct (update_unilateral_run p s1 b1 Hn1 Hc1 Hb1) as (p1 & Hu1 & He1 & _ & Hm1).
  rewrite Hp in Hm1. cbn [app] in Hm1.
  destruct (update_unilateral_run p1 s2 b2) as (p2 & Hu2 & He2 & _ & Hm2); [by rewrite He1|done|done|].
  unfold pending_data in Hm2. rewrite Hm1 in Hm2. cbn [unwrap_or] in Hm2.
  destruct (process_pending_run p2) as (p3 & Hp3 & He3 & Hnone).
  exists p1, p2, p3. split_and!; try done. rewrite He3. unfold Rel.get_pending_unilateral_transactions.
  rewrite Hm2, bool_decide_eq_false_2 by (by intros [? _]%app_nil). by rewrite Hl, Hs.
Qed.

End SyncProperties.

(** ** Witnesses *)

Module SyncWitness.
#[local] Existing Instances Toy.toy_blake3 Toy.toy_runtime toy_bincode_operation
  ToySt.toy_bincode_balance ToySt.toy_bincode_precommitment.
Import ToyTr.

Definition lock : Operation := LockToken "GOLD" 3 "escrow" Unilateral.
Definition locked : State :=
  match Tr.create_next_state g0 lock (evolved_entropy g0 lock (state_number g0 + 1)) LV_Standard false with
  | Ok s => s | _ => default_state end.

Lemma created_state_validation_witness : Valid.validate_state_transition g0 locked lock = Ok true.
Proof.
  destruct (created_state_validation g0 lock LV_Standard false locked) as (_ & _ & H); [vm_compute; reflexivity|].
  rewrite H. vm_compute. reflexivity.
Defined.

Lemma validation_sound_witness : state_number locked = state_number g0 + 1.
Proof. apply (validation_sound g0 locked lock); [discriminate|vm_compute; reflexivity]. Defined.

Definition anchor : IdentityAnchor := mkAnchor "bob" [] [] [].

Lemma projection_never_verifies_witness :
  ∃ p c, Proj.project_state g0 anchor = Ok p ∧ Proj.generate_projection_commitment g0 anchor = Ok c ∧
    external_data p !! "projection_commitment"%string = Some c ∧
    Proj.verify_projected_state_contents p g0 anchor = Ok true ∧ Proj.verify_projection p g0 anchor = Ok false.
Proof. eapply (projection_never_verifies g0 anchor). vm_compute. reflexivity. Defined.

(** States encoded as their numbers, and a decoder that reads the first number. *)
Definition first : State := St.with_relationship_context (Rel.with_operation 1 Genesis (device_info g0) g0) "bob" 0 [].
Definition second : State := St.with_relationship_context (Rel.with_operation 2 Genesis (device_info g0) g0) "bob" 0 [].
Definition encode_number : Bincode State := fun s => Some (u64_le (state_number s)).
Definition decode_number : Unbincode State := fun b => if of_le_bytes (take 8 b) =? 1 then Some first else Some second.
Definition decode_vec : Unbincode (list State) := fun b => None.
#[local] Existing Instances encode_number decode_number decode_vec.

Definition pair0 : RelationshipStatePair := mkPair "alice" "bob" g0 g0 ∅ [] true.
Definition pair1 : RelationshipStatePair := (Sync.update_sync_state first Unilateral pair0).2.

Lemma modal_synchronisation_witness : Sync.determine_transaction_mode pair1 true = Unilateral.
Proof.
  apply (modal_synchronisation pair0 pair1 first second (u64_le 1) true);
    [vm_compute; reflexivity|vm_compute; discriminate|vm_compute; reflexivity].
Defined.

Lemma pending_transactions_lost_witness :
  ∃ p1 p2 p3, Sync.update_sync_state first Unilateral pair0 = (Ok tt, p1) ∧
    Sync.update_sync_state second Unilateral p1 = (Ok tt, p2) ∧ rp_entity_state p2 = second ∧
    Sync.process_pending_transactions p2 = (Ok tt, p3) ∧ rp_entity_state p3 = first ∧
    Pair.has_pending_unilateral_transactions p3 = false.
Proof.
  apply (pending_transactions_lost pair0 first second (u64_le 1) (u64_le 2));
    try (vm_compute; reflexivity); try (eexists; reflexivity); try (vm_compute; discriminate).
Defined.

End SyncWitness.
