(* ===== verification/Machine.v ===== *)
(** * The state machine (dsm/src/core/state_machine/mod.rs)

    The machine that holds the current state, executes transitions, verifies
    states and chains and generates pre-commitments. *)
From S2P Require Import Prelude Tokens Operations SparseIdx States RandomWalk Transition Relationship.

(** [StateMachine]; its function-pointer fields are constants. *)
Record StateMachine := mkMachine {
  current_state : option State;
  relationship_manager : RelationshipManager;
}.

Module SM.
Section SM.
Context {B3 : Blake3} {RT : Runtime}.
Context {SO : Bincode Operation} {SB : Bincode Balance} {SP : Bincode PreCommitment}.

Definition new_with_strategy (strategy : KeyDerivationStrategy) : StateMachine :=
  mkMachine None (Manager.new strategy).
Definition new : StateMachine := new_with_strategy Canonical.
Definition set_state (s : State) (m : StateMachine) : StateMachine :=
  mkMachine (Some s) (relationship_manager m).

(** ** Free functions *)

Definition generate_transition_entropy (current : State) (op : Operation) : outcome bytes :=
  op_data ← serialize_or "Failed to serialize operation: {}" op;
  n ← u64_add (state_number current) 1;
  Ok (blake3 (entropy current ++ op_data ++ u64_le n)).

Definition verify_entropy_evolution (s1 s2 : State) : outcome bool :=
  match relationship_context s1 with
  | Some _ => Pair.verify_relationship_entropy s1 s2 (entropy s2)
  | None =>
      let expected := generate_deterministic_entropy (entropy s1)
                        (unwrap_or [] (serialize (operation s2))) (state_number s2) in
      Ok (constant_time_eq (entropy s2) expected)
  end.

Definition verify_basic_transition (s1 s2 : State) : outcome bool :=
  n ← u64_add (state_number s1) 1;
  if negb (state_number s2 =? n) then Ok false
  else
    h ← St.get_hash s1;
    if negb (bool_decide (prev_state_hash s2 = h)) then Ok false
    else
      e ← verify_entropy_evolution s1 s2;
      if negb e then Ok false else Ok true.

Definition is_operation_allowed (op : Operation) (current : State) : outcome bool :=
  match op with
  | Genesis => Ok (state_number current =? 0)
  | Recovery _ _ _ _ _ _ _ _ _ _ _ => Ok (bool_decide (Compromised ∈ flags current))
  | _ => Ok true
  end.

Definition verify_standard_transition (curr : State) (next_op : Operation) : outcome bool :=
  ok ← is_operation_allowed next_op curr;
  if negb ok then Ok false else Ok true.

(** [mod::verify_transition_integrity] *)
Definition verify_transition_integrity (prev curr : State) (next_op : Operation) : outcome bool :=
  basic ← verify_basic_transition prev curr;
  if negb basic then Ok false
  else
    match relationship_context curr with
    | Some _ => Pair.validate_relationship_state_transition curr (St.set_operation next_op curr)
    | None => verify_standard_transition curr next_op
    end.

(** [for i in 1..states.len()] over the adjacent pairs. *)
Fixpoint verify_pairs (prev : State) (states : list State) : outcome bool :=
  match states with
  | [] => Ok true
  | curr :: rest =>
      h ← St.get_hash prev;
      if negb (bool_decide (prev_state_hash curr = h)) then
        Err (EValidation "Hash chain broken between states {} and {}")
      else
        ok ← verify_transition_integrity prev curr (operation curr);
        if negb ok then Err (EValidation "Invalid state transition between states {} and {}")
        else verify_pairs curr rest
  end.

Definition verify_state_chain (states : list State) : outcome bool :=
  match states with
  | [] => Ok true
  | s :: rest => verify_pairs s rest
  end.

(** ** Methods *)

Definition execute_transition (op : Operation) : M StateMachine State := fun m =>
  match current_state m with
  | Some cur =>
      match (new_entropy ← generate_transition_entropy cur op;
             t ← Tr.create_transition cur op new_entropy;
             Tr.create_next_state cur (tr_operation t) new_entropy LV_Standard false) with
      | Ok s' => (Ok s', set_state s' m)
      | Err e => (Err e, m)
      | Panic => (Panic, m)
      | Hang => (Hang, m)
      end
  | None => (Err (EStateMachine "No current state exists"), m)
  end.

Definition apply_operation (m : StateMachine) (s : State) (op : Operation) (new_entropy : bytes) : outcome State :=
  Tr.apply_transition s op new_entropy.

Definition verify_state (m : StateMachine) (s : State) : outcome bool :=
  match current_state m with
  | Some cur =>
      n ← u64_add (state_number cur) 1;
      if negb (state_number s =? n) then Ok false
      else
        h ← St.get_hash cur;
        if negb (bool_decide (prev_state_hash s = h)) then Ok false
        else verify_transition_integrity cur s (operation s)
  | None => Err (EStateMachine "No current state exists for verification")
  end.

Definition generate_precommitment (m : StateMachine) (op : Operation) : outcome (bytes * list Position) :=
  match current_state m with
  | Some cur =>
      op_bytes ← serialize_or "Failed to serialize operation" op;
      n ← u64_add (state_number cur) 1;
      let next_entropy := blake3 (entropy cur ++ op_bytes ++ u64_le n) in
      let current_hash := blake3 (hash cur) in
      let seed := Walk.generate_seed current_hash op_bytes (Some next_entropy) in
      ps ← Walk.generate_positions seed None;
      Ok (seed, ps)
  | None => Err (EStateMachine "No current state exists for pre-commitment")
  end.

Definition verify_precommitment (m : StateMachine) (op : Operation) (expected : list Position) : outcome bool :=
  '(_, ps) ← generate_precommitment m op;
  Ok (Walk.verify_positions ps expected).

Definition execute_relationship_transition (m : StateMachine) (e c : string) (op : Operation)
    : outcome (RelationshipStatePair * RelationshipManager) :=
  cur ← ok_or (EStateMachine "No current state exists for relationship transition") (current_state m);
  new_entropy ← generate_transition_entropy cur op;
  Manager.execute_relationship_transition (relationship_manager m) e c op new_entropy.

(** ** Operation templates *)

Definition create_base_operation : outcome Operation :=
  Ok (Create "Create base state" [] [] [] [] [] Unilateral).
Definition update_base_operation : outcome Operation :=
  Ok (Update "Update base state" "" [] [] None).
Definition add_relationship_operation (counterparty_id : string) : outcome Operation :=
  Ok (AddRelationship "" "" "" [] [] Unilateral ("Add relationship with " +:+ counterparty_id)).
Definition remove_relationship_operation (counterparty_id : string) : outcome Operation :=
  Ok (RemoveRelationship "" "" "" [] Unilateral ("Remove relationship with " +:+ counterparty_id)).
Definition generic_operation (operation_type : string) (data : bytes) : outcome Operation :=
  Ok (Generic operation_type data ("Generic operation: " +:+ operation_type)).

End SM.
End SM.

(** ** Executions: sequences of [execute_transition] from one machine *)

Section Runs.
Context {B3 : Blake3} {RT : Runtime}.
Context {SO : Bincode Operation} {SB : Bincode Balance} {SP : Bincode PreCommitment}.

(** The states produced, oldest first; the run stops at the first failure. *)
Fixpoint run (ops : list Operation) (m : StateMachine) : list State * StateMachine :=
  match ops with
  | [] => ([], m)
  | op :: ops =>
      match SM.execute_transition op m with
      | (Ok s, m') => let '(l, m'') := run ops m' in (s :: l, m'')
      | (_, m') => ([], m')
      end
  end.

End Runs.

(** ** Lemmas *)

Section MachineFacts.
Context {B3 : Blake3} {RT : Runtime}.
Context {SO : Bincode Operation} {SB : Bincode Balance} {SP : Bincode PreCommitment}.

Lemma transition_entropy_eq cur op e :
  SM.generate_transition_entropy cur op = Ok e →
  e = generate_deterministic_entropy (entropy cur) (unwrap_or [] (serialize op)) (state_number cur + 1) ∧
  state_number cur + 1 ≤ u64_max.
Proof.
  unfold SM.generate_transition_entropy, serialize_or.
  intros (b & ->%ok_or_Ok & (n & [-> Hn]%u64_add_Ok & [= <-])%bind_Ok)%bind_Ok. done.
Qed.

Lemma create_transition_op cur op e t : Tr.create_transition cur op e = Ok t → tr_operation t = op.
Proof.
  unfold Tr.create_transition. intros (ps & _ & (h & _ & [= <-])%bind_Ok)%bind_Ok. done.
Qed.

(** What a successful execution did. *)
Lemma execute_inv op m s' m' :
  SM.execute_transition op m = (Ok s', m') →
  ∃ cur e, current_state m = Some cur ∧
    SM.generate_transition_entropy cur op = Ok e ∧
    Tr.create_next_state cur op e LV_Standard false = Ok s' ∧ m' = SM.set_state s' m.
Proof.
  unfold SM.execute_transition. destruct (current_state m) as [cur|]; [|done].
  destruct (_ ≫= _) as [x| | |] eqn:E; intros H; try discriminate H. injection H as -> <-.
  apply bind_Ok in E as (e & He & (t & Ht%create_transition_op & Hn)%bind_Ok).
  rewrite Ht in Hn. eauto 8.
Qed.

Lemma execute_fail op m o m' :
  SM.execute_transition op m = (o, m') → is_ok o = false → m' = m.
Proof.
  unfold SM.execute_transition. destruct (current_state m) as [cur|]; [|naive_solver].
  destruct (_ ≫= _); intros H ?; injection H as <- <-; done.
Qed.

Lemma to_array32_Ok e h : length h = 32%nat → Walk.to_array32 e h = Ok h.
Proof. intros Hl. unfold Walk.to_array32. by rewrite Hl. Qed.

(** Executing succeeds from a hashed state below the bound. *)
Lemma execute_total {TO : BincodeTotal Operation} {TB : BincodeTotal Balance}
    {TP : BincodeTotal PreCommitment} op m cur :
  current_state m = Some cur → 0 ≤ state_number cur < 2 ^ 63 - 1 → length (hash cur) = 32%nat →
  ∃ s', SM.execute_transition op m = (Ok s', SM.set_state s' m).
Proof.
  intros Hcur Hn Hl. unfold SM.execute_transition. rewrite Hcur.
  assert (He : ∃ e, SM.generate_transition_entropy cur op = Ok e).
  { unfold SM.generate_transition_entropy, u64_add, u64_max.
    destruct (serialize_or_total "Failed to serialize operation: {}" op) as (b & _ & ->). cbn [mbind outcome_bind].
    rewrite (proj2 (Z.leb_le _ _)) by lia. by eexists. }
  destruct He as [e ->]. cbn [mbind outcome_bind].
  assert (Hh : St.get_hash cur = Ok (hash cur)) by (apply get_hash_cached; by destruct (hash cur)).
  assert (Ht : ∃ t, Tr.create_transition cur op e = Ok t).
  { unfold Tr.create_transition, Tr.generate_position_sequence.
    destruct (serialize_or_total "" op) as (b & _ & ->). cbn [mbind outcome_bind].
    rewrite Hh. cbn [mbind outcome_bind]. rewrite to_array32_Ok by done. cbn [mbind outcome_bind].
    destruct (default_positions_Ok (Walk.generate_seed (hash cur) b (Some e))) as (ps & Hps);
      [apply generate_seed_length|].
    change (Walk.generate_positions ?s (Some default_config)) with (Walk.generate_positions s None).
    rewrite Hps. by eexists. }
  destruct Ht as [t Ht]. rewrite Ht. cbn [mbind outcome_bind].
  destruct (compute_hash_next_total cur (tr_operation t) e LV_Standard false Hn) as [s' ->].
  by eexists.
Qed.

Lemma entropy_evolution_eq s1 s2 :
  SM.verify_entropy_evolution s1 s2 =
    Ok (constant_time_eq (entropy s2) (generate_deterministic_entropy (entropy s1)
          (unwrap_or [] (serialize (operation s2))) (state_number s2))).
Proof. unfold SM.verify_entropy_evolution. by destruct (relationship_context s1). Qed.

Lemma basic_transition_iff s1 s2 :
  SM.verify_basic_transition s1 s2 = Ok true ↔
  state_number s1 + 1 ≤ u64_max ∧ state_number s2 = state_number s1 + 1 ∧
  St.get_hash s1 = Ok (prev_state_hash s2) ∧
  entropy s2 = generate_deterministic_entropy (entropy s1) (unwrap_or [] (serialize (operation s2))) (state_number s2).
Proof.
  unfold SM.verify_basic_transition. split.
  - intros (n & [-> Hn]%u64_add_Ok & H)%bind_Ok.
    destruct (Z.eqb_spec (state_number s2) (state_number s1 + 1)); [|done]. cbn [negb] in H.
    apply bind_Ok in H as (h & Hh & H). case_bool_decide; [|done]. cbn [negb] in H.
    rewrite entropy_evolution_eq in H. cbn in H.
    destruct (constant_time_eq _ _) eqn:E; [|done]. apply constant_time_eq_spec in E. subst. done.
  - intros (Hn & Heq & Hh & He). unfold u64_add. rewrite (proj2 (Z.leb_le _ _)) by lia.
    cbn [mbind outcome_bind]. rewrite (proj2 (Z.eqb_eq _ _)) by done. cbn [negb]. rewrite Hh.
    cbn [mbind outcome_bind]. rewrite bool_decide_eq_true_2 by done. cbn [negb].
    rewrite entropy_evolution_eq, <- He, constant_time_eq_refl. done.
Qed.

(** A state without relationship created by [execute_transition] is a valid
    successor, as long as its operation is allowed. *)
Lemma executed_verifies cur op e s' :
  SM.generate_transition_entropy cur op = Ok e →
  Tr.create_next_state cur op e LV_Standard false = Ok s' →
  SM.verify_basic_transition cur s' = Ok true.
Proof.
  intros He Hs. apply transition_entropy_eq in He as [-> Hn]. apply create_next_state_inv in Hs.
  apply basic_transition_iff.
  rewrite (next_number _ _ _ _ _ Hs), (next_op _ _ _ _ _ Hs), (next_entropy _ _ _ _ _ Hs).
  repeat split; [exact Hn|exact (next_prev _ _ _ _ _ Hs)].
Qed.

(** Operations that no state after genesis is refused for. *)
Definition ordinary (op : Operation) : bool :=
  match op with Genesis | Recovery _ _ _ _ _ _ _ _ _ _ _ => false | _ => true end.

Lemma ordinary_allowed op s : ordinary op = true → SM.is_operation_allowed op s = Ok true.
Proof. by destruct op. Qed.

Lemma integrity_of_basic prev cur op :
  SM.verify_basic_transition prev cur = Ok true → relationship_context cur = None →
  SM.verify_transition_integrity prev cur op = SM.is_operation_allowed op cur.
Proof.
  intros Hb Hr. unfold SM.verify_transition_integrity. rewrite Hb. cbn [mbind outcome_bind negb].
  rewrite Hr. unfold SM.verify_standard_transition.
  destruct (SM.is_operation_allowed op cur) as [[]| | |]; done.
Qed.

(** One execution step of a machine whose current state is hashed. *)
Lemma execute_step {TO : BincodeTotal Operation} {TB : BincodeTotal Balance}
    {TP : BincodeTotal PreCommitment} op m cur :
  current_state m = Some cur → 0 ≤ state_number cur < 2 ^ 63 - 1 → length (hash cur) = 32%nat →
  ∃ s', SM.execute_transition op m = (Ok s', SM.set_state s' m) ∧
    SM.verify_basic_transition cur s' = Ok true ∧ length (hash s') = 32%nat ∧
    state_number s' = state_number cur + 1 ∧ operation s' = op ∧
    relationship_context s' = relationship_context cur ∧ St.verify_state_hash s' = Ok true.
Proof.
  intros Hcur Hn Hl. destruct (execute_total op m cur Hcur Hn Hl) as [s' Hs]. exists s'.
  destruct (execute_inv _ _ _ _ Hs) as (c & e & Hc & He & Hcr & _). rewrite Hcur in Hc. injection Hc as <-.
  split; [done|]. split; [by eapply executed_verifies|].
  apply create_next_state_inv in Hcr. pose proof (next_hash _ _ _ _ _ Hcr) as Hh.
  pose proof (compute_hash_length _ _ Hh) as Hlen.
  split_and!; [done|apply Hcr..|]. unfold St.verify_state_hash. rewrite Hh. cbn.
  by rewrite constant_time_eq_refl.
Qed.

Lemma verify_pairs_cons prev cur rest :
  SM.verify_basic_transition prev cur = Ok true → relationship_context cur = None →
  ordinary (operation cur) = true →
  SM.verify_pairs prev (cur :: rest) = SM.verify_pairs cur rest.
Proof.
  intros Hb Hr Ho. cbn [SM.verify_pairs].
  destruct (proj1 (basic_transition_iff prev cur) Hb) as (_ & _ & -> & _).
  cbn [mbind outcome_bind]. rewrite bool_decide_eq_true_2 by done. cbn [negb].
  rewrite (integrity_of_basic _ _ _ Hb Hr), ordinary_allowed by done. done.
Qed.

(** [s'] differs from [s] in fields that the chain verifier does not read. *)
Definition same_skeleton (s s' : State) : Prop :=
  state_number s' = state_number s ∧ prev_state_hash s' = prev_state_hash s ∧
  hash s' = hash s ∧ hash s ≠ [] ∧ entropy s' = entropy s ∧ operation s' = operation s ∧
  relationship_context s' = relationship_context s ∧ flags s' = flags s.

Lemma skeleton_refl s : hash s ≠ [] → same_skeleton s s.
Proof. intros. repeat split; done. Qed.
Lemma skeleton_set_balances b s : hash s ≠ [] → same_skeleton s (St.set_token_balances b s).
Proof. intros. repeat split; done. Qed.

Lemma skeleton_integrity p p' s s' :
  same_skeleton p p' → same_skeleton s s' →
  SM.verify_transition_integrity p' s' (operation s') = SM.verify_transition_integrity p s (operation s).
Proof.
  intros (Pn & Pp & Ph & Phn & Pe & Po & Pr & Pf) (Qn & Qp & Qh & Qhn & Qe & Qo & Qr & Qf).
  assert (Hgp : St.get_hash p' = St.get_hash p) by (rewrite !get_hash_cached; congruence).
  assert (Hgs : St.get_hash s' = St.get_hash s) by (rewrite !get_hash_cached; congruence).
  assert (Hb : SM.verify_basic_transition p' s' = SM.verify_basic_transition p s).
  { unfold SM.verify_basic_transition. rewrite !entropy_evolution_eq, Pn, Qn, Qp, Hgp, Pe, Qe, Qo. done. }
  unfold SM.verify_transition_integrity. rewrite Hb, Qr.
  unfold Pair.validate_relationship_state_transition, Pair.verify_basic_state_properties,
    SM.verify_standard_transition, SM.is_operation_allowed.
  cbn [St.set_operation hash state_number prev_state_hash relationship_context].
  rewrite Qo, Qn, Qf, Qh, Qp, Qr, Hgs. done.
Qed.

Lemma skeleton_pairs p p' l l' :
  same_skeleton p p' → Forall2 same_skeleton l l' → SM.verify_pairs p' l' = SM.verify_pairs p l.
Proof.
  intros Hp Hl. revert p p' Hp. induction Hl as [|s s' l l' Hs Hl IH]; intros p p' Hp; [done|].
  cbn [SM.verify_pairs]. rewrite (skeleton_integrity p p' s s' Hp Hs), (IH s s' Hs).
  destruct Hp as (_ & _ & Ph & Phn & _), Hs as (_ & Qp & _).
  rewrite !get_hash_cached, Ph, Qp by congruence. done.
Qed.

End MachineFacts.

(** ** Properties *)

Section MachineProps.
Context {B3 : Blake3} {RT : Runtime}.
Context {SO : Bincode Operation} {SB : Bincode Balance} {SP : Bincode PreCommitment}.

(** C1: a machine never gets stuck on ordinary operations and what it produces
    is a verified chain: from a hashed state without relationship, executing any
    list of operations other than genesis and recovery, as long as the numbers
    stay below 2^63, produces one state per operation, each with a correct hash,
    ends with the last of them as current state, and [verify_state_chain] accepts
    the starting state followed by the produced ones. *)
Theorem run_produces_verified_chain {TO : BincodeTotal Operation} {TB : BincodeTotal Balance}
    {TP : BincodeTotal PreCommitment} (ops : list Operation) (m : StateMachine) (cur : State) :
  current_state m = Some cur → length (hash cur) = 32%nat → relationship_context cur = None →
  0 ≤ state_number cur → state_number cur + Z.of_nat (length ops) < 2 ^ 63 →
  forallb ordinary ops = true →
  let '(l, m') := run ops m in
  map operation l = ops ∧ current_state m' = last (cur :: l) ∧
  Forall (fun s => St.verify_state_hash s = Ok true) l ∧
  SM.verify_state_chain (cur :: l) = Ok true.
Proof.
  revert m cur. induction ops as [|op ops IH]; intros m cur Hc Hl Hr H0 Hn Ho; [done|].
  cbn [forallb] in Ho. apply andb_true_iff in Ho as [Hop Ho]. cbn [length] in Hn.
  destruct (execute_step op m cur Hc) as (s' & Hs & Hb & Hl' & Hnum & Hop' & Hr' & Hv); [lia|done|].
  cbn [run]. rewrite Hs. specialize (IH (SM.set_state s' m) s' eq_refl Hl').
  destruct (run ops (SM.set_state s' m)) as [l m''].
  destruct IH as (IH1 & IH2 & IH3 & IH4); [congruence|lia..|done|].
  cbn [map]. rewrite IH1, Hop'. split_and!; [done|done|by constructor|].
  cbn [SM.verify_state_chain] in *. rewrite verify_pairs_cons; congruence.
Qed.

(** Execution is all or nothing: a failed [execute_transition] leaves the
    machine as it was, and a successful one only replaces the current state, by a
    state that [verify_state] accepted on the machine before the step whenever it
    carries no relationship and its operation is allowed. *)
Theorem execute_transition_atomic (op : Operation) (m m' : StateMachine) (o : outcome State) :
  SM.execute_transition op m = (o, m') →
  match o with
  | Ok s' =>
      m' = SM.set_state s' m ∧
      (relationship_context s' = None → SM.verify_state m s' = SM.is_operation_allowed op s')
  | _ => m' = m
  end.
Proof.
  intros H. destruct o as [s'| | |]; try (by eapply execute_fail).
  destruct (execute_inv _ _ _ _ H) as (cur & e & Hcur & He & Hcr & ->). split; [done|]. intros Hr.
  pose proof (executed_verifies _ _ _ _ He Hcr) as Hb. apply create_next_state_inv in Hcr.
  rewrite <- (next_op _ _ _ _ _ Hcr), <- (integrity_of_basic _ _ _ Hb Hr).
  unfold SM.verify_state. rewrite Hcur, (next_prev _ _ _ _ _ Hcr), (next_number _ _ _ _ _ Hcr).
  apply basic_transition_iff in Hb as (Hn & _). unfold u64_add. rewrite (proj2 (Z.leb_le _ _)) by lia.
  cbn [mbind outcome_bind]. rewrite Z.eqb_refl, bool_decide_eq_true_2 by done. done.
Qed.

(** The machine's verifier never accepts a state that carries a
    relationship: [verify_transition_integrity] compares such a state with its
    own clone, whose number is not the successor, so it never returns true, and
    [verify_state] and [verify_state_chain] refuse every relationship state. *)
Theorem relationship_states_never_verify (m : StateMachine) (prev cur : State) (op : Operation)
    (rc : RelationshipContext) (pre post : list State) :
  relationship_context cur = Some rc →
  SM.verify_transition_integrity prev cur op ≠ Ok true ∧
  SM.verify_state m cur ≠ Ok true ∧
  SM.verify_state_chain (pre ++ prev :: cur :: post) ≠ Ok true.
Proof.
  intros Hr.
  assert (Hi : ∀ prev op, SM.verify_transition_integrity prev cur op ≠ Ok true).
  { clear - Hr. intros prev op. unfold SM.verify_transition_integrity. intros (b & _ & H)%bind_Ok.
    destruct b; [|done]. cbn [negb] in H. rewrite Hr in H.
    unfold Pair.validate_relationship_state_transition in H. apply bind_Ok in H as (b & _ & H).
    destruct b; [|done]. cbn [negb St.set_operation relationship_context state_number] in H.
    rewrite Hr, bool_decide_eq_true_2 in H by done. cbn [negb] in H.
    apply bind_Ok in H as (n & [-> _]%u64_add_Ok & H).
    rewrite (proj2 (Z.eqb_neq _ _)) in H by lia. done. }
  assert (Hp : ∀ l p, SM.verify_pairs p (l ++ cur :: post) ≠ Ok true).
  { induction l as [|q l IH]; intros p; cbn [app SM.verify_pairs]; intros (h & _ & H)%bind_Ok;
      case_bool_decide; try done; cbn [negb] in H; apply bind_Ok in H as ([] & Hv & H); try done.
    - exact (Hi _ _ Hv).
    - exact (IH _ H). }
  split_and!; [apply Hi| |].
  - unfold SM.verify_state. destruct (current_state m) as [c|]; [|done].
    intros (n & _ & H)%bind_Ok. destruct (negb _); [done|]. apply bind_Ok in H as (h & _ & H).
    destruct (negb _); [done|]. exact (Hi _ _ H).
  - destruct pre as [|p pre]; cbn [app SM.verify_state_chain]; [apply (Hp [])|].
    rewrite (cons_middle prev), app_assoc. apply Hp.
Qed.

(** Chain verification reads cached hashes only: it gives the same answer
    for two chains whose states agree on number, hashes, entropy, operation,
    relationship and flags, so token balances, forward commitments, device
    information and every other hashed field can be replaced without the chain
    being refused. *)
Theorem chain_verification_ignores_content (l l' : list State) :
  Forall2 same_skeleton l l' → SM.verify_state_chain l' = SM.verify_state_chain l.
Proof. intros []; [done|]. by apply skeleton_pairs. Qed.

(** Pre-commitments round-trip and bind: for a current state, generating a
    pre-commitment never fails with totality of the codec, verification accepts
    the generated positions, and it accepts nothing else. *)
Theorem precommitment_exact {TO : BincodeTotal Operation} (m : StateMachine) (cur : State)
    (op : Operation) (ps : list Position) :
  current_state m = Some cur → state_number cur < u64_max →
  ∃ seed expected, SM.generate_precommitment m op = Ok (seed, expected) ∧
    SM.verify_precommitment m op ps = Ok (bool_decide (ps = expected)).
Proof.
  intros Hc Hn. unfold SM.verify_precommitment, SM.generate_precommitment. rewrite Hc.
  destruct (serialize_or_total "Failed to serialize operation" op) as (b & _ & ->).
  unfold u64_add. cbn [mbind outcome_bind]. rewrite (proj2 (Z.leb_le _ _)) by lia. cbn [mbind outcome_bind].
  match goal with |- context [Walk.generate_positions ?s None] => set (seed := s) end.
  destruct (default_positions_Ok seed (generate_seed_length _ _ _)) as (expected & ->).
  exists seed, expected. split; [done|]. cbn. f_equal. apply eq_iff_eq_true.
  rewrite verify_positions_eq, bool_decide_eq_true. naive_solver.
Qed.

End MachineProps.

(** ** Witnesses *)

Section MachineWitnesses.
#[local] Existing Instances Toy.toy_blake3 Toy.toy_runtime toy_bincode_operation
  ToySt.toy_bincode_balance ToySt.toy_bincode_precommitment.
Import ToyTr.

Definition demo_machine : StateMachine := SM.set_state g0 SM.new.
Definition demo_ops : list Operation := [op1; mint7].
Definition demo_run : list State * StateMachine := run demo_ops demo_machine.

Lemma run_produces_verified_chain_witness :
  SM.verify_state_chain (g0 :: demo_run.1) = Ok true ∧ length demo_run.1 = 2%nat.
Proof.
  pose proof (run_produces_verified_chain (TO := ToySt.toy_operation_total) (TB := ToySt.toy_balance_total)
    (TP := ToySt.toy_precommitment_total) demo_ops demo_machine g0 eq_refl) as H.
  change (run demo_ops demo_machine) with demo_run in H. destruct demo_run as [l m].
  destruct H as (H1 & _ & _ & H4); [vm_compute; reflexivity|reflexivity|vm_compute; discriminate|
    vm_compute; reflexivity|reflexivity|].
  split; [exact H4|]. apply (f_equal length) in H1. rewrite length_map in H1. exact H1.
Defined.

Lemma execute_transition_atomic_witness :
  (SM.execute_transition op1 SM.new).2 = SM.new.
Proof.
  apply (execute_transition_atomic op1 SM.new _ (Err (EStateMachine "No current state exists"))).
  reflexivity.
Defined.

Definition related : State := St.with_relationship_context s1 "bob" 0 [].
Definition demo_context : RelationshipContext := mkRelCtx (device_id s1) (state_number s1) "bob" 0 [] [] true.

Lemma relationship_states_never_verify_witness : SM.verify_state_chain [g0; related] ≠ Ok true.
Proof. apply (relationship_states_never_verify SM.new g0 related op1 demo_context [] []). reflexivity. Defined.

(** The second state of the chain with a million tokens added. *)
Definition forged : State := St.set_token_balances {["GOLD"%string := coin 1000000]} s1.

Lemma chain_verification_ignores_content_witness :
  SM.verify_state_chain [g0; forged] = SM.verify_state_chain [g0; s1] ∧
  St.verify_state_hash forged = Ok false.
Proof.
  split; [|vm_compute; reflexivity].
  apply (chain_verification_ignores_content [g0; s1] [g0; forged]).
  apply Forall2_cons_2; [apply skeleton_refl; vm_compute; discriminate|].
  apply Forall2_cons_2; [apply skeleton_set_balances; vm_compute; discriminate|apply Forall2_nil_2].
Defined.

Lemma precommitment_exact_witness :
  ∃ seed expected, SM.generate_precommitment demo_machine op1 = Ok (seed, expected) ∧
    SM.verify_precommitment demo_machine op1 [] = Ok (bool_decide ([] = expected)).
Proof.
  apply (precommitment_exact (TO := ToySt.toy_operation_total) demo_machine g0 op1 []).
  - reflexivity.
  - vm_compute. reflexivity.
Defined.

End MachineWitnesses.
