(* ===== verification/Merkle.v ===== *)
(** * Sparse Merkle trees (dsm/src/merkle/sparse_merkle_tree.rs and the
      [MerkleProof] and [SparseMerkleTree] types of dsm/src/types/state_types.rs)

    The tree with its node map and the proofs it generates and verifies; the
    abstract tree hash that the node map represents; the plain
    [SparseMerkleTree] record and its own proofs.  A u32 level and a u64 index
    are [Z]; a 32-byte [Hash] is a byte list. *)
From S2P Require Import Prelude Tokens Operations SparseIdx States RandomWalk.

(** ** Data *)

Record NodeId := mkNode { node_level : Z; node_index : Z }.

#[global] Instance NodeId_eq_dec : EqDecision NodeId.
Proof. solve_decision. Defined.
#[global] Instance NodeId_countable : Countable NodeId.
Proof. by refine (inj_countable' (fun n => (node_level n, node_index n)) (fun p => mkNode p.1 p.2) _); intros []. Defined.

Record SparseMerkleTreeImpl := mkTree {
  t_root : bytes;
  t_leaves : gmap Z bytes;
  t_nodes : gmap NodeId bytes;
  t_height : Z;
  t_leaf_count : Z;
}.

(** The fields of [MerkleProofParams] that [MerkleProof::new] uses.  A map
    that is serialised is a list in its iteration order. *)
Record MerkleProofParams := mkProofParams {
  mp_path : list bytes;
  mp_index : Z;
  mp_leaf_hash : bytes;
  mp_root_hash : bytes;
  mp_height : Z;
  mp_leaf_count : Z;
  mp_device_id : string;
  mp_public_key : bytes;
  mp_sparse_index : SparseIndex;
  mp_token_balances : list (string * Balance);
  mp_proof : bytes;
  mp_mode : TransactionMode;
  mp_params : bytes;
}.

Record MerkleProof := mkProof {
  p_path : list bytes;
  p_index : Z;
  p_leaf_hash : bytes;
  p_root_hash : bytes;
  p_height : Z;
  p_leaf_count : Z;
  p_device_id : string;
  p_public_key : bytes;
  p_sparse_index : SparseIndex;
  p_token_balances : list (string * Balance);
  p_mode : TransactionMode;
  p_root : bytes;
  p_siblings : list bytes;
  p_data : bytes;
  p_proof : list bytes;
  p_proof_leaf_count : Z;
  p_proof_index : Z;
  p_proof_height : Z;
  p_proof_token_balances : list (string * Balance);
  p_proof_device_id : string;
}.

(** [SparseMerkleTree]: the plain record of state_types.rs. *)
Record SparseMerkleTree := mkSMT {
  smt_root : bytes;
  smt_leaves : gmap Z bytes;
  smt_nodes : gmap NodeId bytes;
  smt_height : Z;
  smt_leaf_count : Z;
}.

(** [Hash::from([0u8; 32])] *)
Definition zero_hash : bytes := zeros 32.

(** [(n as f64).log2().ceil() as u32] for a length [n] below 2^47, where the
    f64 logarithm is exact enough for the ceiling; the cast of -inf is 0. *)
Definition ceil_log2 (n : Z) : Z := Z.log2_up n.

(** ** The tree *)

Module SMT.
Section SMT.
Context {B3 : Blake3}.

Definition set_nodes (n : gmap NodeId bytes) (t : SparseMerkleTreeImpl) : SparseMerkleTreeImpl :=
  mkTree (t_root t) (t_leaves t) n (t_height t) (t_leaf_count t).
Definition set_leaf (i : Z) (h : bytes) (t : SparseMerkleTreeImpl) : SparseMerkleTreeImpl :=
  mkTree (t_root t) (<[i := h]> (t_leaves t)) (<[mkNode 0 i := h]> (t_nodes t)) (t_height t) (t_leaf_count t).
Definition set_root (r : bytes) (t : SparseMerkleTreeImpl) : SparseMerkleTreeImpl :=
  mkTree r (t_leaves t) (t_nodes t) (t_height t) (t_leaf_count t).
Definition set_leaf_count (c : Z) (t : SparseMerkleTreeImpl) : SparseMerkleTreeImpl :=
  mkTree (t_root t) (t_leaves t) (t_nodes t) (t_height t) c.

Definition new (height : Z) : SparseMerkleTreeImpl :=
  mkTree zero_hash ∅ {[mkNode height 0 := zero_hash]} height 0.

Definition hash_leaf (data : bytes) : bytes := blake3 (Byte.x00 :: data).
Definition hash_node (l r : bytes) : bytes := blake3 (Byte.x01 :: l ++ r).

Definition node_hash (nodes : gmap NodeId bytes) (level index : Z) : bytes :=
  unwrap_or zero_hash (nodes !! mkNode level index).
Definition get_node_hash (t : SparseMerkleTreeImpl) (level index : Z) : outcome bytes :=
  Ok (node_hash (t_nodes t) level index).

(** The loop of [update_path]: [k] levels left, now at [level] on [index]. *)
Fixpoint update_loop (k : nat) (level index : Z) (nodes : gmap NodeId bytes) : gmap NodeId bytes :=
  match k with
  | O => nodes
  | S k =>
      let current_hash := node_hash nodes level index in
      let sibling_hash := node_hash nodes level (Z.lxor index 1) in
      let parent_index := Z.shiftr index 1 in
      let parent_hash := if Z.land index 1 =? 0 then hash_node current_hash sibling_hash
                         else hash_node sibling_hash current_hash in
      update_loop k (level + 1) parent_index (<[mkNode (level + 1) parent_index := parent_hash]> nodes)
  end.

Definition update_path (leaf_index : Z) (t : SparseMerkleTreeImpl) : SparseMerkleTreeImpl :=
  let nodes := update_loop (Z.to_nat (t_height t)) 0 leaf_index (t_nodes t) in
  set_root (unwrap_or zero_hash (nodes !! mkNode (t_height t) 0)) (set_nodes nodes t).

Definition insert (index : Z) (value : bytes) : M SparseMerkleTreeImpl unit := fun t =>
  match u64_shl1 (t_height t) with
  | Ok max_leaves =>
      if max_leaves <=? index then
        (Err (EInvalidOperation "Index {} exceeds tree capacity of {}"), t)
      else
        let t := update_path index (set_leaf index (hash_leaf value) t) in
        match u64_add index 1 with
        | Ok c => (Ok tt, if t_leaf_count t <? c then set_leaf_count c t else t)
        | _ => (Panic, t)
        end
  | _ => (Panic, t)
  end.

(** [MerkleProof::new] *)
Definition proof_new (p : MerkleProofParams) : MerkleProof :=
  mkProof (mp_path p) (mp_index p) (mp_leaf_hash p) (mp_root_hash p) (mp_height p) (mp_leaf_count p)
    (mp_device_id p) (mp_public_key p) (mp_sparse_index p) (mp_token_balances p) Bilateral
    (mp_root_hash p) (mp_path p) [] [] (Walk.as_i32 (mp_leaf_count p)) (Walk.as_i32 (mp_index p))
    (Walk.as_i32 (mp_height p)) [] (mp_device_id p).

(** The sibling hashes from [level] on, [k] levels. *)
Fixpoint sibling_path (k : nat) (level index : Z) (nodes : gmap NodeId bytes) : list bytes :=
  match k with
  | O => []
  | S k => node_hash nodes level (Z.lxor index 1) :: sibling_path k (level + 1) (Z.shiftr index 1) nodes
  end.

Definition get_proof (t : SparseMerkleTreeImpl) (index : Z) : outcome MerkleProof :=
  max_leaves ← u64_shl1 (t_height t);
  if max_leaves <=? index then Err (EInvalidOperation "Index {} exceeds tree capacity of {}")
  else
    leaf_hash ← get_node_hash t 0 index;
    Ok (proof_new (mkProofParams (sibling_path (Z.to_nat (t_height t)) 0 index (t_nodes t)) index
          leaf_hash (t_root t) (t_height t) (t_leaf_count t) EmptyString [] (mkSparse [0]) [] [] Bilateral [])).

(** The loop of [verify_proof]. *)
Fixpoint climb (computed : bytes) (index : Z) (path : list bytes) : bytes :=
  match path with
  | [] => computed
  | sibling :: path =>
      climb (if Z.land index 1 =? 0 then hash_node computed sibling else hash_node sibling computed)
        (Z.shiftr index 1) path
  end.

Definition verify_proof (root_hash value : bytes) (proof : MerkleProof) : outcome bool :=
  Ok (bool_decide (climb (hash_leaf value) (p_index proof) (p_path proof) = root_hash)).

Definition get_leaf (t : SparseMerkleTreeImpl) (index : Z) : option bytes := t_leaves t !! index.
Definition root (t : SparseMerkleTreeImpl) : bytes := t_root t.
Definition leaf_count (t : SparseMerkleTreeImpl) : Z := t_leaf_count t.
Definition compute_root (t : SparseMerkleTreeImpl) : outcome bytes := Ok (t_root t).

(** [for (idx, value) in values.iter().enumerate()] *)
Fixpoint insert_all (idx : Z) (values : list bytes) (t : SparseMerkleTreeImpl) : outcome SparseMerkleTreeImpl :=
  match values with
  | [] => Ok t
  | v :: vs =>
      match insert idx v t with
      | (Ok _, t) => insert_all (idx + 1) vs t
      | (Err e, _) => Err e
      | (Panic, _) => Panic
      | (Hang, _) => Hang
      end
  end.

Definition from_values (values : list bytes) : outcome SparseMerkleTreeImpl :=
  insert_all 0 values (new (ceil_log2 (Z.of_nat (length values)))).

(** [from_sparse_merkle_tree] with the iteration orders of the two loops over
    [tree.leaves] made explicit; [update_path] never returns an error. *)
Definition rebuild (copy_order : list (Z * bytes)) (key_order : list Z) (height : Z) : SparseMerkleTreeImpl :=
  foldl (fun t i => update_path i t)
    (foldl (fun t p => set_leaf p.1 p.2 t) (new height) copy_order) key_order.
Definition from_sparse_merkle_tree (tree : SparseMerkleTree) : SparseMerkleTreeImpl :=
  rebuild (map_to_list (smt_leaves tree)) (map_to_list (smt_leaves tree)).*1 (smt_height tree).

End SMT.
End SMT.

(** ** [SparseMerkleTree], [MerkleProof] and [SerializableMerkleProof] of state_types.rs *)

Module Plain.
Section Plain.
Context {B3 : Blake3}.
Context {SO : Bincode Operation} {SB : Bincode Balance} {SP : Bincode PreCommitment}.
Context {SM : Bincode MerkleProof} (deserialize : bytes → option MerkleProof).

Definition new (height : Z) : SparseMerkleTree := mkSMT zero_hash ∅ ∅ height 0.

Definition compute_root (tree : SparseMerkleTree) : outcome bytes :=
  SMT.compute_root (SMT.from_sparse_merkle_tree tree).

(** The first 8 bytes of the key's hash. *)
Definition key_index (key : bytes) : Z := of_le_bytes (take 8 (blake3 key)).

Definition insert (key : bytes) (value : State) (tree : SparseMerkleTree) : outcome SparseMerkleTree :=
  let index := key_index key in
  state_hash ← (if bool_decide (key = []) then
                  h ← St.get_hash value;
                  if Nat.eqb (length h) 32 then Ok h else Panic
                else Ok (blake3 key));
  Ok (mkSMT (smt_root tree) (<[index := state_hash]> (smt_leaves tree)) (smt_nodes tree)
        (smt_height tree) (smt_leaf_count tree)).

(** The loop [for level in (0..height).rev()] of [MerkleProof::generate];
    [1 << level] panics from level 64 on. *)
Fixpoint gen_siblings (level : nat) (index : Z) (nodes : gmap NodeId bytes) : outcome (list bytes) :=
  match level with
  | O => Ok []
  | S level =>
      bit ← u64_shl1 (Z.of_nat level);
      let sibling := SMT.node_hash nodes (Z.of_nat level) (Z.lxor index bit) in
      rest ← gen_siblings level (Z.ldiff index bit) nodes;
      Ok (sibling :: rest)
  end.

(** [MerkleProof::generate] *)
Definition generate (tree : SparseMerkleTree) (index : Z) : outcome MerkleProof :=
  siblings ← gen_siblings (Z.to_nat (smt_height tree)) index (smt_nodes tree);
  leaf_hash ← ok_or (EMerkle "Leaf data not found") (smt_leaves tree !! index);
  Ok (SMT.proof_new (mkProofParams siblings index leaf_hash (smt_root tree) (smt_height tree)
        (smt_leaf_count tree) EmptyString [] (mkSparse []) [] [] Bilateral [])).

(** [MerkleProof::proof_bytes], [verify] and [serialize] *)
Definition proof_bytes (p : MerkleProof) : bytes :=
  concat (p_path p) ++ p_leaf_hash p ++ p_root_hash p.
Definition verify (p : MerkleProof) : bool := constant_time_eq (p_root_hash p) (proof_bytes p).
Definition proof_serialize (p : MerkleProof) : bytes :=
  u64_le (p_index p) ++ p_leaf_hash p ++ p_root_hash p ++ le_bytes 4 (p_height p) ++
  u64_le (p_leaf_count p) ++ str_bytes (p_device_id p) ++ p_public_key p ++
  concat (map (fun '(token, b) => str_bytes token ++ Bal.to_le_bytes b) (p_token_balances p)).

(** [SparseMerkleTree::generate_proof], [verify_proof], [verify_proof_static], [root_hash] *)
Definition generate_proof (tree : SparseMerkleTree) (key : bytes) : outcome bytes :=
  p ← generate tree (key_index key);
  serialize_or "Failed to serialize Merkle proof" p.
Definition verify_proof (tree : SparseMerkleTree) (key proof : bytes) : outcome bool :=
  p ← ok_or (ESerialization "Failed to deserialize Merkle proof") (deserialize proof);
  let hash := blake3 key in
  let verified := verify p in
  let leaf_hash_matches := bool_decide (p_leaf_hash p = hash) in
  Ok (verified && leaf_hash_matches).
Definition verify_proof_static (root leaf_hash : bytes) (p : MerkleProof) : outcome bool :=
  if negb (verify p) then Ok false
  else if negb (bool_decide (p_leaf_hash p = leaf_hash)) then Ok false
  else if negb (bool_decide (p_root_hash p = root)) then Ok false
  else Ok true.
Definition root_hash (tree : SparseMerkleTree) : bytes := smt_root tree.

End Plain.
End Plain.

Record SerializableMerkleProof := mkSerProof { sp_root : bytes; sp_proof : list bytes; sp_root_hash : bytes }.

Module SerProof.
Section SerProof.
Context {B3 : Blake3}.

Definition new (root : bytes) (proof : list bytes) : SerializableMerkleProof :=
  mkSerProof root proof (blake3 root).
Definition proof_bytes (p : SerializableMerkleProof) : bytes := sp_root_hash p.
Definition serialize (p : SerializableMerkleProof) : bytes := sp_root p ++ concat (sp_proof p).
Definition verify (p : SerializableMerkleProof) (leaf_hash : bytes) : bool :=
  bool_decide (foldl (fun h e => blake3 (h ++ e)) leaf_hash (sp_proof p) = sp_root p).

End SerProof.
End SerProof.

(** ** The abstract tree

    The hash of the subtree at a level and position, as a function of the leaf
    hashes alone: none where the subtree has no leaf. *)
Section Abstract.
Context {B3 : Blake3}.

Fixpoint subtree (leaves : gmap Z bytes) (level : nat) (i : Z) : option bytes :=
  match level with
  | O => leaves !! i
  | S level =>
      match subtree leaves level (2 * i), subtree leaves level (2 * i + 1) with
      | None, None => None
      | l, r => Some (SMT.hash_node (unwrap_or zero_hash l) (unwrap_or zero_hash r))
      end
  end.
Definition tree_hash (leaves : gmap Z bytes) (level : nat) (i : Z) : bytes :=
  unwrap_or zero_hash (subtree leaves level i).

(** The position above leaf [k] at a level. *)
Definition above (k : Z) (level : nat) : Z := Z.shiftr k (Z.of_nat level).

(** The node map agrees with the abstract tree at every leaf and at every node
    that has no leaf of [dirty] below it. *)
Definition agrees (height : nat) (leaves : gmap Z bytes) (dirty : list Z) (nodes : gmap NodeId bytes) : Prop :=
  ∀ (l : nat) i, (l ≤ height)%nat → (∀ k, k ∈ dirty → l ≠ 0%nat → above k l ≠ i) →
  SMT.node_hash nodes (Z.of_nat l) i = tree_hash leaves l i.

(** [t] represents the tree of height [h] over [leaves]. *)
Definition represents (h : nat) (leaves : gmap Z bytes) (t : SparseMerkleTreeImpl) : Prop :=
  t_height t = Z.of_nat h ∧ t_leaves t = leaves ∧ agrees h leaves [] (t_nodes t) ∧
  t_root t = tree_hash leaves h 0.

Lemma above_0 k : above k 0 = k.
Proof. apply Z.shiftr_0_r. Qed.
Lemma above_S k l : above k (S l) = above k l / 2.
Proof.
  unfold above. rewrite !Z.shiftr_div_pow2, Z.div_div by lia. f_equal.
  rewrite Nat2Z.inj_succ, Z.pow_succ_r by lia. lia.
Qed.
Lemma shiftr_1 i : Z.shiftr i 1 = i / 2.
Proof. by rewrite Z.shiftr_div_pow2 by lia. Qed.
Lemma land_1_eqb i : (Z.land i 1 =? 0) = Z.even i.
Proof.
  change 1 with (Z.ones 1). rewrite Z.land_ones by lia. change (2 ^ 1) with 2.
  rewrite Zmod_even. by destruct (Z.even i).
Qed.
Lemma lxor_even d : Z.lxor (2 * d) 1 = 2 * d + 1.
Proof.
  rewrite <- Z.add_nocarry_lxor; [done|]. change 1 with (Z.ones 1).
  rewrite Z.land_ones, Z.mul_comm by lia. change (2 ^ 1) with 2. by rewrite Z.mod_mul.
Qed.
Lemma lxor_odd d : Z.lxor (2 * d + 1) 1 = 2 * d.
Proof. by rewrite <- lxor_even, Z.lxor_assoc, Z.lxor_nilpotent, Z.lxor_0_r. Qed.

(** Whichever child it is, a node and its sibling hash to their parent. *)
Lemma parent_hash_eq (f : Z → bytes) i :
  (if Z.land i 1 =? 0 then SMT.hash_node (f i) (f (Z.lxor i 1))
   else SMT.hash_node (f (Z.lxor i 1)) (f i)) =
  SMT.hash_node (f (2 * (i / 2))) (f (2 * (i / 2) + 1)).
Proof.
  rewrite land_1_eqb. pose proof (Z.div_mod i 2 ltac:(lia)) as Hi. rewrite Zmod_even in Hi.
  destruct (Z.even i).
  - rewrite Z.add_0_r in Hi. rewrite Hi at 2. rewrite lxor_even, <- Hi. done.
  - rewrite Hi at 1. rewrite lxor_odd, <- Hi. done.
Qed.

Lemma node_hash_insert nodes l i h l' i' :
  SMT.node_hash (<[mkNode l i := h]> nodes) l' i' =
  if bool_decide (mkNode l i = mkNode l' i') then h else SMT.node_hash nodes l' i'.
Proof.
  unfold SMT.node_hash. case_bool_decide as E.
  - by rewrite E, lookup_insert_eq.
  - by rewrite lookup_insert_ne.
Qed.

Lemma subtree_above leaves k l : is_Some (leaves !! k) → is_Some (subtree leaves l (above k l)).
Proof.
  intros Hk. induction l as [|l IH]; [by rewrite above_0|]. cbn [subtree]. rewrite above_S.
  pose proof (Z.div_mod (above k l) 2 ltac:(lia)) as Hi. pose proof (Z.mod_pos_bound (above k l) 2 ltac:(lia)).
  destruct IH as [x Hx]. assert (above k l `mod` 2 = 0 ∨ above k l `mod` 2 = 1) as [E|E] by lia.
  - rewrite E, Z.add_0_r in Hi. rewrite <- Hi, Hx. by eexists.
  - rewrite E in Hi. rewrite <- Hi, Hx.
    destruct (subtree leaves l (2 * (above k l / 2))); by eexists.
Qed.

Lemma tree_hash_S leaves l i :
  is_Some (subtree leaves (S l) i) →
  tree_hash leaves (S l) i = SMT.hash_node (tree_hash leaves l (2 * i)) (tree_hash leaves l (2 * i + 1)).
Proof.
  unfold tree_hash. cbn [subtree].
  destruct (subtree leaves l (2 * i)), (subtree leaves l (2 * i + 1)); done || by intros [].
Qed.

Lemma subtree_insert_ne leaves k v l j :
  above k l ≠ j → subtree (<[k := v]> leaves) l j = subtree leaves l j.
Proof.
  revert j. induction l as [|l IH]; intros j Hj; cbn [subtree].
  - rewrite above_0 in Hj. by apply lookup_insert_ne.
  - rewrite above_S in Hj. rewrite !IH; [done|..]; intros E; apply Hj; rewrite E;
      [rewrite Z.add_comm, Z.mul_comm, Z_div_plus by lia; done|rewrite Z.mul_comm, Z.div_mul by lia; done].
Qed.

Lemma above_child k l j : above k l = 2 * j ∨ above k l = 2 * j + 1 → above k (S l) = j.
Proof. rewrite above_S. intros [->| ->]; Z.to_euclidean_division_equations; lia. Qed.

(** Re-hashing the path of [k] clears it from the dirty leaves. *)
Lemma update_loop_agrees (leaves : gmap Z bytes) (h : nat) (D : list Z) k (n l : nat) nodes :
  is_Some (leaves !! k) → (l + n = h)%nat →
  (∀ (l' : nat) i, (l' ≤ h)%nat → (∀ d, d ∈ D → l' ≠ 0%nat → above d l' ≠ i) →
     ((l < l')%nat → above k l' ≠ i) → SMT.node_hash nodes (Z.of_nat l') i = tree_hash leaves l' i) →
  agrees h leaves D (SMT.update_loop n (Z.of_nat l) (above k l) nodes).
Proof.
  intros Hk. revert l nodes. induction n as [|n IH]; intros l nodes Hl Hn; cbn [SMT.update_loop].
  - intros l' i Hl' HD. apply Hn; [done|done|lia].
  - rewrite shiftr_1, <- above_S, (parent_hash_eq (SMT.node_hash nodes (Z.of_nat l))), <- above_S.
    replace (Z.of_nat l + 1) with (Z.of_nat (S l)) by lia. apply IH; [lia|].
    intros l' i Hl' HD Ha. rewrite node_hash_insert. case_bool_decide as E.
    + injection E as El <-. apply Nat2Z.inj in El as <-.
      rewrite tree_hash_S by (by apply subtree_above).
      rewrite !Hn; [done|lia| |lia|lia| |lia]; intros d Hd _ E'; apply (HD d Hd); auto using above_child.
    + apply Hn; [done|done|]. intros Hlt. destruct (decide (l' = S l)) as [->|]; [|apply Ha; lia].
      intros <-. done.
Qed.

Lemma update_path_agrees t (h : nat) leaves k D :
  t_height t = Z.of_nat h → is_Some (leaves !! k) → agrees h leaves (k :: D) (t_nodes t) →
  agrees h leaves D (t_nodes (SMT.update_path k t)).
Proof.
  intros Hh Hk Ha. cbn [SMT.update_path SMT.set_root SMT.set_nodes t_nodes]. rewrite Hh, Nat2Z.id.
  rewrite <- (above_0 k) at 1. apply (update_loop_agrees leaves h D k h 0); [done|lia|].
  intros l' i Hl HD Hlt. apply Ha; [done|]. intros d [->|Hd]%elem_of_cons Hn; [apply Hlt; lia|by apply HD].
Qed.

Lemma update_path_represents t (h : nat) k :
  t_height t = Z.of_nat h → is_Some (t_leaves t !! k) → agrees h (t_leaves t) [k] (t_nodes t) →
  represents h (t_leaves t) (SMT.update_path k t).
Proof.
  intros Hh Hk Ha. pose proof (update_path_agrees t h _ k [] Hh Hk Ha) as Ha'.
  split_and!; [done|done|done|]. rewrite <- Ha'; [|done|by intros ? ?%elem_of_nil].
  cbn. by rewrite Hh.
Qed.

Lemma set_leaf_agrees (h : nat) leaves D k v nodes :
  agrees h leaves D nodes → agrees h (<[k := v]> leaves) (k :: D) (<[mkNode 0 k := v]> nodes).
Proof.
  intros Ha l i Hl HD. rewrite node_hash_insert. case_bool_decide as E.
  - injection E as El <-. assert (l = 0%nat) as -> by lia. unfold tree_hash; cbn. by rewrite lookup_insert_eq.
  - unfold tree_hash. rewrite subtree_insert_ne.
    + apply Ha; [done|]. intros d Hd. apply HD. set_solver.
    + destruct l as [|l]; [rewrite above_0; intros ->; by apply E|]. apply HD; [set_solver|done].
Qed.

Lemma agrees_mono h leaves D D' nodes : D ⊆ D' → agrees h leaves D nodes → agrees h leaves D' nodes.
Proof. intros HD Ha l i Hl H. apply Ha; [done|]. intros d Hd. apply H. by apply HD. Qed.

Lemma node_hash_singleton l i l' i' : SMT.node_hash {[mkNode l i := zero_hash]} l' i' = zero_hash.
Proof.
  unfold SMT.node_hash. rewrite <- insert_empty.
  destruct (decide (mkNode l i = mkNode l' i')) as [->|]; [by rewrite lookup_insert_eq|].
  by rewrite lookup_insert_ne.
Qed.

Lemma subtree_empty l i : subtree ∅ l i = None.
Proof. revert i. induction l as [|l IH]; intros i; cbn; [done|]. by rewrite !IH. Qed.

Lemma new_agrees (h : nat) : agrees h ∅ [] (t_nodes (SMT.new (Z.of_nat h))).
Proof. intros l i _ _. unfold tree_hash. rewrite subtree_empty. apply node_hash_singleton. Qed.

Lemma new_represents (h : nat) : represents h ∅ (SMT.new (Z.of_nat h)).
Proof.
  split_and!; [done|done|apply new_agrees|]. unfold tree_hash. by rewrite subtree_empty.
Qed.

Lemma insert_represents (h : nat) leaves t i v :
  represents h leaves t → (h < 64)%nat → 0 ≤ i < 2 ^ Z.of_nat h →
  ∃ t', SMT.insert i v t = (Ok tt, t') ∧ represents h (<[i := SMT.hash_leaf v]> leaves) t'.
Proof.
  intros (Hh & Hl & Ha & Hr) Hlt Hi. unfold SMT.insert. rewrite Hh, u64_shl1_Ok by lia.
  rewrite (proj2 (Z.leb_gt _ _)) by lia. unfold u64_add.
  assert (2 ^ Z.of_nat h ≤ 2 ^ 63) by (apply Z.pow_le_mono_r; lia).
  rewrite (proj2 (Z.leb_le _ _)) by (unfold u64_max; lia). eexists. split; [done|].
  pose proof (update_path_represents (SMT.set_leaf i (SMT.hash_leaf v) t) h i Hh) as (H1 & H2 & H3 & H4).
  { cbn. by rewrite lookup_insert_eq. }
  { cbn. rewrite Hl. by apply set_leaf_agrees. }
  cbn [SMT.set_leaf t_leaves] in *. rewrite Hl in *. destruct (_ <? _); by split_and!.
Qed.

Lemma climb_path (h : nat) leaves nodes k (n l : nat) :
  agrees h leaves [] nodes → is_Some (leaves !! k) → (l + n ≤ h)%nat →
  SMT.climb (SMT.node_hash nodes (Z.of_nat l) (above k l)) (above k l)
    (SMT.sibling_path n (Z.of_nat l) (above k l) nodes) =
  SMT.node_hash nodes (Z.of_nat (l + n)) (above k (l + n)).
Proof.
  intros Ha Hk. revert l. induction n as [|n IH]; intros l Hl; cbn [SMT.sibling_path SMT.climb].
  - by rewrite Nat.add_0_r.
  - assert (Ha' : ∀ (l' : nat) i, (l' ≤ h)%nat → SMT.node_hash nodes (Z.of_nat l') i = tree_hash leaves l' i).
    { intros l' i Hl'. apply Ha; [done|]. by intros ? ?%elem_of_nil. }
    rewrite (parent_hash_eq (SMT.node_hash nodes (Z.of_nat l))), shiftr_1, <- above_S, !Ha' by lia.
    rewrite <- tree_hash_S by (by apply subtree_above). rewrite <- Ha' by lia.
    replace (Z.of_nat l + 1) with (Z.of_nat (S l)) by lia. rewrite IH by lia.
    replace (l + S n)%nat with (S l + n)%nat by lia. apply Ha'; lia.
Qed.

Lemma above_top k (h : nat) : 0 ≤ k < 2 ^ Z.of_nat h → above k h = 0.
Proof. intros Hk. unfold above. rewrite Z.shiftr_div_pow2 by lia. by apply Z.div_small. Qed.

Lemma sibling_path_length n l i nodes : length (SMT.sibling_path n l i nodes) = n.
Proof. revert l i. induction n; intros; cbn; auto. Qed.

(** A tree gives, for each of its leaves, a proof that climbs to its root. *)
Lemma get_proof_climbs (h : nat) leaves t i x :
  represents h leaves t → (h < 64)%nat → 0 ≤ i < 2 ^ Z.of_nat h → leaves !! i = Some x →
  ∃ p, SMT.get_proof t i = Ok p ∧ length (p_path p) = h ∧ p_index p = i ∧
    p_leaf_hash p = x ∧ SMT.climb x i (p_path p) = SMT.root t.
Proof.
  intros (Hh & Hl & Ha & Hr) Hlt Hi Hx. unfold SMT.get_proof. rewrite Hh, u64_shl1_Ok by lia.
  cbn [mbind outcome_bind]. rewrite (proj2 (Z.leb_gt _ _)) by lia. cbn [SMT.get_node_hash mbind outcome_bind].
  assert (Hx' : SMT.node_hash (t_nodes t) 0 i = x).
  { change 0 with (Z.of_nat 0). rewrite (Ha 0%nat i) by (lia || by intros ? ?%elem_of_nil). unfold tree_hash; cbn. by rewrite Hx. }
  eexists. split; [done|]. cbn [SMT.proof_new p_path p_index p_leaf_hash mp_path mp_index mp_leaf_hash].
  rewrite Nat2Z.id. split_and!; [apply sibling_path_length|done|done|].
  pose proof (climb_path h leaves (t_nodes t) i h 0 Ha ltac:(by rewrite Hx) ltac:(lia)) as Hc.
  rewrite above_0, Nat.add_0_l, above_top in Hc by done. change (Z.of_nat 0) with 0 in Hc. rewrite Hx' in Hc.
  rewrite Hc. unfold SMT.root. rewrite Hr, Ha; [done|done|]. by intros ? ?%elem_of_nil.
Qed.

(** ** Soundness *)

(** What climbing a path feeds to BLAKE3, and what verifying a proof does. *)
Fixpoint climb_inputs (computed : bytes) (index : Z) (path : list bytes) : list bytes :=
  match path with
  | [] => []
  | sibling :: path =>
      let input := Byte.x01 :: (if Z.land index 1 =? 0 then computed ++ sibling else sibling ++ computed) in
      input :: climb_inputs (blake3 input) (Z.shiftr index 1) path
  end.
Definition proof_inputs (v : bytes) (index : Z) (path : list bytes) : list bytes :=
  (Byte.x00 :: v) :: climb_inputs (SMT.hash_leaf v) index path.

(** What hashing the tree of some values feeds to BLAKE3: the values that it
    holds and the pairs of children of its non-empty nodes. *)
Fixpoint tree_inputs (contents : gmap Z bytes) (level : nat) (i : Z) : list bytes :=
  match level with
  | O => match contents !! i with Some v => [Byte.x00 :: v] | None => [] end
  | S level =>
      let leaves := SMT.hash_leaf <$> contents in
      match subtree leaves (S level) i with
      | Some _ =>
          (Byte.x01 :: tree_hash leaves level (2 * i) ++ tree_hash leaves level (2 * i + 1)) ::
          tree_inputs contents level (2 * i) ++ tree_inputs contents level (2 * i + 1)
      | None => []
      end
  end.

(** A collision among the inputs of a proof and of a tree, or an input of the
    proof whose digest is the all-zero one that stands for an empty subtree. *)
Definition broken (proof tree : list bytes) : Prop :=
  collision blake3 (proof ++ tree) ∨ ∃ x, x ∈ proof ∧ blake3 x = zero_hash.

Lemma broken_mono P P' T T' : P ⊆ P' → T ⊆ T' → broken P T → broken P' T'.
Proof.
  intros HP HT [H|(x & Hx & H)]; [left|right; exists x; by split; [apply HP|]].
  eapply collision_mono; [|exact H]. set_solver.
Qed.

(** Equal digests of an input of the proof and one of the tree. *)
Lemma broken_pair P T x y : x ∈ P → y ∈ T → blake3 x = blake3 y → x = y ∨ broken P T.
Proof.
  intros Hx Hy [E|H]%hash_bind; [by left|right; left]. eapply collision_mono; [|exact H]. set_solver.
Qed.

Definition all_32 (leaves : gmap Z bytes) : Prop := map_Forall (fun _ h => length h = 32%nat) leaves.

Lemma climb_snoc h i path x :
  SMT.climb h i (path ++ [x]) =
  if Z.testbit i (Z.of_nat (length path)) then SMT.hash_node x (SMT.climb h i path)
  else SMT.hash_node (SMT.climb h i path) x.
Proof.
  revert h i. induction path as [|y path IH]; intros h i; cbn [app SMT.climb length].
  - rewrite land_1_eqb, Z.bit0_odd, <- Z.negb_even. by destruct (Z.even i).
  - rewrite IH, Z.shiftr_spec by lia. by replace (Z.of_nat (length path) + 1) with (Z.of_nat (S (length path))) by lia.
Qed.

(** The last step of a climb. *)
Definition last_input (h : bytes) (i : Z) (path : list bytes) (x : bytes) : bytes :=
  Byte.x01 :: (if Z.testbit i (Z.of_nat (length path)) then x ++ SMT.climb h i path else SMT.climb h i path ++ x).

Lemma climb_snoc_input h i path x : SMT.climb h i (path ++ [x]) = blake3 (last_input h i path x).
Proof. rewrite climb_snoc. unfold last_input. by destruct (Z.testbit _ _). Qed.

Lemma climb_inputs_snoc h i path x : climb_inputs h i (path ++ [x]) = climb_inputs h i path ++ [last_input h i path x].
Proof.
  unfold last_input. revert h i. induction path as [|y path IH]; intros h i; cbn [app SMT.climb climb_inputs length].
  - rewrite land_1_eqb, Z.bit0_odd, <- Z.negb_even. by destruct (Z.even i).
  - rewrite IH, Z.shiftr_spec by lia. replace (Z.of_nat (length path) + 1) with (Z.of_nat (S (length path))) by lia.
    by destruct (Z.land i 1 =? 0).
Qed.

Lemma climb_length h i path : length h = 32%nat → length (SMT.climb h i path) = 32%nat.
Proof.
  revert h i. induction path as [|y path IH]; intros h i Hh; cbn [SMT.climb]; [done|].
  apply IH. destruct (_ =? _); apply blake3_length.
Qed.

Lemma tree_hash_length leaves l i : all_32 leaves → length (tree_hash leaves l i) = 32%nat.
Proof.
  intros Ha. unfold tree_hash. destruct l; cbn [subtree].
  - destruct (leaves !! i) eqn:E; [by apply (Ha i)|done].
  - destruct (subtree leaves l (2 * i)), (subtree leaves l (2 * i + 1)); try apply blake3_length. done.
Qed.

Lemma tree_hash_shape leaves l i : all_32 leaves →
  tree_hash leaves (S l) i = zero_hash ∨ ∃ y, length y = 65%nat ∧ tree_hash leaves (S l) i = blake3 y.
Proof.
  intros Ha. destruct (subtree leaves (S l) i) eqn:E.
  - right. rewrite tree_hash_S by (by rewrite E). eexists. split; [|reflexivity].
    cbn [length]. by rewrite length_app, !tree_hash_length.
  - left. unfold tree_hash. by rewrite E.
Qed.

Lemma hash_leaf_all_32 (contents : gmap Z bytes) : all_32 (SMT.hash_leaf <$> contents).
Proof. intros i x. rewrite lookup_fmap, fmap_Some. intros (v & _ & ->). apply blake3_length. Qed.

(** The position of a leaf from the position of an ancestor and its low bits. *)
Lemma low_bits i idx (L : nat) (b : bool) :
  Z.testbit idx (Z.of_nat L) = b →
  (2 * i + Z.b2z b) * 2 ^ Z.of_nat L + idx mod 2 ^ Z.of_nat L =
  i * 2 ^ Z.of_nat (S L) + idx mod 2 ^ Z.of_nat (S L).
Proof.
  intros <-. rewrite Nat2Z.inj_succ, Z.pow_succ_r, (Z.mul_comm 2 (2 ^ _)) by lia.
  rewrite (Z.rem_mul_r idx (2 ^ Z.of_nat L) 2) by lia.
  rewrite Z.testbit_spec' by lia. lia.
Qed.

Lemma climb_sound (contents : gmap Z bytes) v idx (L : nat) : ∀ path i,
  Forall (fun h => length h = 32%nat) path →
  SMT.climb (SMT.hash_leaf v) idx path = tree_hash (SMT.hash_leaf <$> contents) L i →
  (length path = L ∧ contents !! (i * 2 ^ Z.of_nat L + idx mod 2 ^ Z.of_nat L) = Some v) ∨
  broken (proof_inputs v idx path) (tree_inputs contents L i).
Proof.
  assert (∀ path, (Byte.x00 :: v) ∈ proof_inputs v idx path) as Hleaf by (intros; apply elem_of_cons; by left).
  assert (∀ path x, last_input (SMT.hash_leaf v) idx path x ∈ proof_inputs v idx (path ++ [x])) as Hlast.
  { intros path x. unfold proof_inputs. rewrite climb_inputs_snoc. set_solver. }
  assert (∀ path x, proof_inputs v idx path ⊆ proof_inputs v idx (path ++ [x])) as Hsub.
  { intros path x. unfold proof_inputs. rewrite climb_inputs_snoc. set_solver. }
  induction L as [|L IH]; intros path i Hp Hc; destruct path as [|x path _] using rev_ind.
  - unfold tree_hash in Hc; cbn in Hc. rewrite lookup_fmap in Hc.
    rewrite Z.mod_1_r, Z.mul_1_r, Z.add_0_r. destruct (contents !! i) as [w|] eqn:E; cbn in Hc.
    + apply (broken_pair (proof_inputs v idx []) (tree_inputs contents 0 i)) in Hc as [[= ->]|Hb];
        [by left|by right|done|cbn; rewrite E; by left].
    + right; right. exists (Byte.x00 :: v). split; [done|exact Hc].
  - right. rewrite climb_snoc_input in Hc. unfold tree_hash in Hc; cbn [subtree] in Hc. rewrite lookup_fmap in Hc.
    destruct (contents !! i) as [w|] eqn:E; cbn in Hc; [|right; eexists; split; [apply Hlast|exact Hc]].
    eapply (broken_pair _ (tree_inputs contents 0 i)) in Hc as [[=]|Hb]; [exact Hb|apply Hlast|cbn; rewrite E; by left].
  - right. destruct (subtree (SMT.hash_leaf <$> contents) (S L) i) eqn:E.
    + rewrite tree_hash_S in Hc by (by rewrite E).
      eapply (broken_pair _ (tree_inputs contents (S L) i)) in Hc as [[=]|Hb]; [exact Hb|apply (Hleaf [])|].
      cbn [tree_inputs]. rewrite E. by left.
    + unfold tree_hash in Hc. rewrite E in Hc. right. exists (Byte.x00 :: v). split; [done|exact Hc].
  - apply Forall_app in Hp as [Hp [Hx _]%Forall_cons]. rewrite climb_snoc_input in Hc.
    destruct (subtree (SMT.hash_leaf <$> contents) (S L) i) eqn:E.
    2: { unfold tree_hash in Hc. rewrite E in Hc. right; right. eexists. split; [apply Hlast|exact Hc]. }
    rewrite tree_hash_S in Hc by (by rewrite E). pose proof (hash_leaf_all_32 contents) as H32.
    pose proof (fun j => tree_hash_length _ L j H32) as Hl.
    pose proof (climb_length (SMT.hash_leaf v) idx path (blake3_length _)) as Hcl.
    eapply (broken_pair _ (tree_inputs contents (S L) i)) in Hc as [Hc|Hb]; [|by right|apply Hlast|cbn [tree_inputs]; rewrite E; by left].
    assert (∀ j, j = 2 * i ∨ j = 2 * i + 1 → tree_inputs contents L j ⊆ tree_inputs contents (S L) i) as Hsubt.
    { intros j Hj. cbn [tree_inputs]. rewrite E. destruct Hj as [->| ->]; set_solver. }
    unfold last_input in Hc. injection Hc as Hc. rewrite length_app, Nat.add_1_r. destruct (Z.testbit idx _) eqn:Eb; apply app_inj_1 in Hc as [Hc1 Hc2]; try congruence.
    + apply IH in Hc2 as [[<- Hlook]|Hb]; [left|right; eapply broken_mono; [apply Hsub|by apply Hsubt; right|exact Hb]|done]. split; [done|].
      change (2 * i + 1) with (2 * i + Z.b2z true) in Hlook. by rewrite low_bits in Hlook.
    + apply IH in Hc1 as [[<- Hlook]|Hb]; [left|right; eapply broken_mono; [apply Hsub|by apply Hsubt; left|exact Hb]|done]. split; [done|].
      rewrite <- (Z.add_0_r (2 * i)) in Hlook. change 0 with (Z.b2z false) in Hlook. by rewrite low_bits in Hlook.
Qed.

(** ** Building a tree from a list of values or of leaves *)

(** The leaves of a list of values, the first at position [idx]. *)
Definition leaves_of (idx : Z) (vs : list bytes) : gmap Z bytes := SMT.hash_leaf <$> map_seqZ idx vs.

Lemma leaves_of_lookup vs (j : nat) v : vs !! j = Some v → leaves_of 0 vs !! Z.of_nat j = Some (SMT.hash_leaf v).
Proof.
  intros Hj. unfold leaves_of. rewrite lookup_fmap, lookup_map_seqZ, option_guard_True by lia.
  replace (Z.to_nat (Z.of_nat j - 0)) with j by lia. by rewrite Hj.
Qed.

Lemma insert_all_represents (h : nat) vs : ∀ idx leaves t,
  represents h leaves t → (h < 64)%nat → 0 ≤ idx → idx + Z.of_nat (length vs) ≤ 2 ^ Z.of_nat h →
  ∃ t', SMT.insert_all idx vs t = Ok t' ∧ represents h (leaves_of idx vs ∪ leaves) t'.
Proof.
  induction vs as [|v vs IH]; intros idx leaves t Hr Hh H0 Hn; cbn [SMT.insert_all].
  - exists t. split; [done|]. unfold leaves_of. cbn [map_seqZ]. by rewrite fmap_empty, (left_id_L ∅ (∪)).
  - cbn [length] in Hn. destruct (insert_represents h leaves t idx v Hr Hh) as (t1 & -> & Hr1); [lia|].
    destruct (IH (idx + 1) _ t1 Hr1 Hh) as (t' & -> & Hr'); [lia..|]. exists t'. split; [done|].
    unfold leaves_of in *. rewrite map_seqZ_cons, fmap_insert, <- insert_union_l, <- (Z.add_1_r idx).
    rewrite insert_union_r; [done|]. rewrite lookup_fmap, lookup_map_seqZ, option_guard_False by lia. done.
Qed.

Lemma log2_up_fits n : 0 ≤ n → n ≤ 2 ^ Z.log2_up n.
Proof.
  intros Hn. destruct (Z.le_gt_cases n 1) as [H|H]; [|apply Z.log2_up_spec; lia].
  rewrite Z.log2_up_eqn0 by lia. cbn. lia.
Qed.

Lemma from_values_represents (values : list bytes) :
  Z.of_nat (length values) < 2 ^ 47 →
  ∃ t (h : nat), SMT.from_values values = Ok t ∧ represents h (leaves_of 0 values) t ∧ (h < 64)%nat ∧
    Z.of_nat (length values) ≤ 2 ^ Z.of_nat h.
Proof.
  intros Hn. unfold SMT.from_values, ceil_log2. set (n := Z.of_nat (length values)) in *.
  set (h := Z.to_nat (Z.log2_up n)). pose proof (Z.log2_up_nonneg n) as H0.
  assert (Hh : Z.log2_up n = Z.of_nat h) by lia. pose proof (log2_up_fits n ltac:(lia)) as Hf.
  assert (Hb : Z.log2_up n ≤ 47).
  { etransitivity; [apply (Z.log2_up_le_mono n (2 ^ 47)); lia|]. rewrite Z.log2_up_pow2; lia. }
  rewrite Hh in *. destruct (insert_all_represents h values 0 ∅ _ (new_represents h))
    as (t & Ht & Hr); [lia..|]. rewrite (right_id_L ∅ (∪)) in Hr.
  exists t, h. split_and!; [done|done|lia|done].
Qed.

Lemma copy_leaves (h : nat) l : ∀ t D,
  t_height t = Z.of_nat h → agrees h (t_leaves t) D (t_nodes t) →
  let t' := foldl (fun t p => SMT.set_leaf p.1 p.2 t) t l in
  t_height t' = Z.of_nat h ∧ t_root t' = t_root t ∧
  t_leaves t' = foldl (fun m p => <[p.1 := p.2]> m) (t_leaves t) l ∧
  agrees h (t_leaves t') (l.*1 ++ D) (t_nodes t').
Proof.
  induction l as [|[k v] l IH]; intros t D Hh Ha; [done|]. cbn [foldl fmap list_fmap].
  pose proof (IH (SMT.set_leaf k v t) (k :: D) Hh (set_leaf_agrees h _ D k v _ Ha)) as (H1 & H2 & H3 & H4).
  split_and!; [done|done|done|]. eapply agrees_mono; [|exact H4]. set_solver.
Qed.

Lemma foldl_insert_map (l : list (Z * bytes)) : ∀ m : gmap Z bytes,
  NoDup l.*1 → foldl (fun m p => <[p.1 := p.2]> m) m l = list_to_map l ∪ m.
Proof.
  induction l as [|[k v] l IH]; intros m Hnd; cbn [foldl].
  - by rewrite list_to_map_nil, (left_id_L ∅ (∪)).
  - apply NoDup_cons in Hnd as [Hk Hnd]. rewrite IH by done. rewrite list_to_map_cons. cbn [fst snd].
    apply not_elem_of_list_to_map in Hk. by rewrite <- insert_union_l, insert_union_r.
Qed.

Lemma update_all (h : nat) ks : ∀ t,
  t_height t = Z.of_nat h → Forall (fun k => is_Some (t_leaves t !! k)) ks →
  agrees h (t_leaves t) ks (t_nodes t) → (ks = [] → t_root t = tree_hash (t_leaves t) h 0) →
  represents h (t_leaves t) (foldl (fun t i => SMT.update_path i t) t ks).
Proof.
  induction ks as [|k ks IH]; intros t Hh Hks Ha Hr; cbn [foldl]; [split_and!; auto|].
  apply Forall_cons in Hks as [Hk Hks]. change (t_leaves t) with (t_leaves (SMT.update_path k t)).
  apply IH; [done|done|by apply update_path_agrees|]. intros ->.
  by destruct (update_path_represents t h k Hh Hk Ha) as (_ & _ & _ & ->).
Qed.

Lemma rebuild_represents (h : nat) leaves copy_order key_order :
  copy_order ≡ₚ map_to_list leaves → key_order ≡ₚ (map_to_list leaves).*1 →
  represents h leaves (SMT.rebuild copy_order key_order (Z.of_nat h)).
Proof.
  intros Hc Hk. unfold SMT.rebuild.
  assert (Hnd : NoDup copy_order.*1) by (rewrite Hc; apply NoDup_fst_map_to_list).
  pose proof (copy_leaves h copy_order (SMT.new (Z.of_nat h)) [] eq_refl (new_agrees h)) as (H1 & H2 & H3 & H4).
  set (t := foldl _ (SMT.new _) copy_order) in *.
  assert (Hl : t_leaves t = leaves).
  { rewrite H3, foldl_insert_map by done. cbn [SMT.new t_leaves]. rewrite map_union_empty.
    symmetry. apply list_to_map_flip. by rewrite Hc. }
  rewrite <- Hl. apply update_all; [done| | |].
  - apply Forall_forall. intros k Hin. rewrite Hk, Hl in *. apply list_elem_of_fmap in Hin as ([k' v] & -> & Hin).
    apply elem_of_map_to_list in Hin. by eexists.
  - eapply agrees_mono; [|exact H4]. rewrite app_nil_r, Hc, Hk. done.
  - intros ->. rewrite H2. apply Permutation_nil_l in Hk.
    assert (leaves = ∅) as ->.
    { apply map_to_list_empty_iff. by destruct (map_to_list leaves). }
    rewrite Hl. cbn. unfold tree_hash. by rewrite subtree_empty.
Qed.

End Abstract.

(** ** Properties *)

Section MerkleProps.
Context {B3 : Blake3}.

(** C4: the node map refines the abstract tree: on a tree of height below 64
    that represents some leaves, inserting in range succeeds and gives a tree
    that represents the leaves with that one replaced; inserting outside the
    range is an error that changes nothing, and a height of 64 or more panics. *)
Theorem merkle_insert_refines (h : nat) (leaves : gmap Z bytes) (t : SparseMerkleTreeImpl) (i : Z) (v : bytes) :
  represents h leaves t → 0 ≤ i →
  if (64 <=? Z.of_nat h) then SMT.insert i v t = (Panic, t)
  else if i <? 2 ^ Z.of_nat h then
    ∃ t', SMT.insert i v t = (Ok tt, t') ∧ represents h (<[i := SMT.hash_leaf v]> leaves) t'
  else SMT.insert i v t = (Err (EInvalidOperation "Index {} exceeds tree capacity of {}"), t).
Proof.
  intros Hr Hi. case_test; zbool.
  - unfold SMT.insert, u64_shl1. destruct Hr as (-> & _). by rewrite (proj2 (Z.ltb_ge _ _)) by lia.
  - case_test; zbool; [apply insert_represents; [done|lia|lia]|].
    unfold SMT.insert. destruct Hr as (-> & _). rewrite u64_shl1_Ok by lia.
    by rewrite (proj2 (Z.leb_le _ _)) by lia.
Qed.

(** C7: inclusion proofs round-trip: for every value stored in a tree,
    [get_proof] returns a proof with one sibling per level that [verify_proof]
    accepts against the tree's root. *)
Theorem merkle_proof_roundtrip (h : nat) (contents : gmap Z bytes) (t : SparseMerkleTreeImpl) (i : Z) (v : bytes) :
  represents h (SMT.hash_leaf <$> contents) t → (h < 64)%nat → 0 ≤ i < 2 ^ Z.of_nat h →
  contents !! i = Some v →
  ∃ p, SMT.get_proof t i = Ok p ∧ length (p_path p) = h ∧ SMT.verify_proof (SMT.root t) v p = Ok true.
Proof.
  intros Hr Hh Hi Hv.
  destruct (get_proof_climbs h _ t i (SMT.hash_leaf v) Hr Hh Hi) as (p & Hp & Hl & Hx & _ & Hc).
  { by rewrite lookup_fmap, Hv. }
  exists p. split_and!; [done|done|]. unfold SMT.verify_proof. by rewrite Hx, Hc, bool_decide_eq_true_2.
Qed.

(** C3: inclusion proofs are sound: whatever proof of 32-byte hashes
    [verify_proof] accepts for a value against the root of a tree, the path has
    exactly one sibling per level and the tree holds that value at the proof's
    index taken modulo the capacity, unless the inputs hashed while verifying this
    proof and while building this tree contain a BLAKE3 collision, or one of those
    hashed while verifying has the zero hash as its digest. *)
Theorem merkle_proof_sound (h : nat) (contents : gmap Z bytes) (t : SparseMerkleTreeImpl) (v : bytes) (p : MerkleProof) :
  represents h (SMT.hash_leaf <$> contents) t → Forall (fun x => length x = 32%nat) (p_path p) →
  SMT.verify_proof (SMT.root t) v p = Ok true →
  (length (p_path p) = h ∧ contents !! (p_index p mod 2 ^ Z.of_nat h) = Some v) ∨
  collision blake3 (proof_inputs v (p_index p) (p_path p) ++ tree_inputs contents h 0) ∨
  ∃ x, x ∈ proof_inputs v (p_index p) (p_path p) ∧ blake3 x = zero_hash.
Proof.
  intros (_ & _ & _ & Hr) Hp. unfold SMT.verify_proof, SMT.root. rewrite Hr.
  intros [= Hc%bool_decide_eq_true]. by apply climb_sound in Hc.
Qed.

(** Rebuilding a tree from its leaves does not depend on the iteration
    order of the hash map: for any two orders in which the leaves are copied and
    any two in which their paths are hashed, the root is the same, and it is the
    root of every tree that represents these leaves. *)
Theorem merkle_rebuild_canonical (tree : SparseMerkleTree) (h : nat)
    (copy_order : list (Z * bytes)) (key_order : list Z) (t : SparseMerkleTreeImpl) :
  smt_height tree = Z.of_nat h →
  copy_order ≡ₚ map_to_list (smt_leaves tree) → key_order ≡ₚ (map_to_list (smt_leaves tree)).*1 →
  represents h (smt_leaves tree) t →
  SMT.root (SMT.rebuild copy_order key_order (smt_height tree)) = SMT.root t ∧
  Plain.compute_root tree = Ok (SMT.root t).
Proof.
  intros Hh Hc Hk (_ & _ & _ & Hr). unfold Plain.compute_root, SMT.compute_root, SMT.from_sparse_merkle_tree, SMT.root.
  rewrite Hh, Hr. split.
  - by destruct (rebuild_represents h _ _ _ Hc Hk) as (_ & _ & _ & ->).
  - by destruct (rebuild_represents h (smt_leaves tree) _ _ (reflexivity _) (reflexivity _)) as (_ & _ & _ & ->).
Qed.

(** A tree built from values proves all of them: [from_values] succeeds on
    fewer than 2^47 values, and for each of them the generated proof verifies
    against the root. *)
Theorem merkle_from_values (values : list bytes) :
  Z.of_nat (length values) < 2 ^ 47 →
  ∃ t, SMT.from_values values = Ok t ∧
    ∀ (j : nat) v, values !! j = Some v →
    ∃ p, SMT.get_proof t (Z.of_nat j) = Ok p ∧ SMT.verify_proof (SMT.root t) v p = Ok true.
Proof.
  intros Hn. destruct (from_values_represents values Hn) as (t & h & Ht & Hr & Hh & Hc).
  exists t. split; [done|]. intros j v Hj. apply lookup_lt_Some in Hj as Hlt.
  destruct (get_proof_climbs h (leaves_of 0 values) t (Z.of_nat j) (SMT.hash_leaf v) Hr Hh) as (p & Hp & _ & Hx & _ & Hcl);
    [lia|by apply leaves_of_lookup|].
  exists p. split; [done|]. unfold SMT.verify_proof. by rewrite Hx, Hcl, bool_decide_eq_true_2.
Qed.

(** The [verify] of the proofs of state_types.rs compares the 32-byte root
    with the concatenation of path, leaf and root, so it rejects every proof, and
    neither [SparseMerkleTree::verify_proof] nor [verify_proof_static] ever
    returns true. *)
Theorem plain_proof_never_verifies (deserialize : bytes → option MerkleProof) (tree : SparseMerkleTree)
    (p : MerkleProof) (key proof root leaf : bytes) :
  (∀ b q, deserialize b = Some q → length (p_leaf_hash q) = 32%nat) →
  length (p_leaf_hash p) = 32%nat →
  Plain.verify p = false ∧ Plain.verify_proof_static root leaf p = Ok false ∧
  Plain.verify_proof deserialize tree key proof ≠ Ok true.
Proof.
  intros Hd Hp.
  assert (Hv : ∀ q, length (p_leaf_hash q) = 32%nat → Plain.verify q = false).
  { intros q Hq. apply not_true_is_false. intros H%constant_time_eq_spec. apply (f_equal length) in H.
    unfold Plain.proof_bytes in H. rewrite !length_app in H. lia. }
  split_and!; [auto|unfold Plain.verify_proof_static; by rewrite Hv|].
  unfold Plain.verify_proof. intros (q & Hq%ok_or_Ok & H)%bind_Ok. by rewrite (Hv q (Hd _ _ Hq)) in H.
Qed.

End MerkleProps.

(** ** Witnesses *)

Section MerkleWitnesses.
#[local] Existing Instance Toy.toy_blake3.

Definition demo_values : list bytes := [str_bytes "a"; str_bytes "b"; str_bytes "c"].
Definition demo_contents : gmap Z bytes := list_to_map (zip [2; 1; 0] (rev demo_values)).
Definition tree_of (o : outcome SparseMerkleTreeImpl) : SparseMerkleTreeImpl :=
  match o with Ok t => t | _ => SMT.new 0 end.
Definition demo_tree : SparseMerkleTreeImpl := tree_of (SMT.from_values demo_values).

Lemma demo_tree_represents : represents 2 (SMT.hash_leaf <$> demo_contents) demo_tree.
Proof.
  destruct (insert_represents 2 ∅ (SMT.new 2) 0 (str_bytes "a") (new_represents 2)) as (t1 & E1 & R1); [lia..|].
  destruct (insert_represents 2 _ t1 1 (str_bytes "b") R1) as (t2 & E2 & R2); [lia..|].
  destruct (insert_represents 2 _ t2 2 (str_bytes "c") R2) as (t3 & E3 & R3); [lia..|].
  assert (H : demo_tree = t3).
  { unfold demo_tree, SMT.from_values, demo_values. cbn [length Z.of_nat SMT.insert_all].
    change (ceil_log2 _) with 2. rewrite E1. change (0 + 1) with 1. rewrite E2. change (1 + 1) with 2.
    rewrite E3. done. }
  rewrite H. unfold demo_contents. cbn [zip zip_with rev demo_values app]. rewrite !list_to_map_cons, list_to_map_nil.
  rewrite !fmap_insert, fmap_empty. exact R3.
Qed.

Lemma merkle_insert_refines_witness :
  SMT.insert 4 [] demo_tree = (Err (EInvalidOperation "Index {} exceeds tree capacity of {}"), demo_tree).
Proof. apply (merkle_insert_refines 2 _ demo_tree 4 [] demo_tree_represents). lia. Defined.

Lemma merkle_proof_roundtrip_witness :
  ∃ p, SMT.get_proof demo_tree 1 = Ok p ∧ length (p_path p) = 2%nat ∧
    SMT.verify_proof (SMT.root demo_tree) (str_bytes "b") p = Ok true.
Proof.
  apply (merkle_proof_roundtrip 2 demo_contents demo_tree 1 (str_bytes "b") demo_tree_represents);
    [lia|lia|reflexivity].
Defined.

Definition demo_proof : MerkleProof :=
  match SMT.get_proof demo_tree 2 with
  | Ok p => p
  | _ => SMT.proof_new (mkProofParams [] 0 [] [] 0 0 EmptyString [] (mkSparse []) [] [] Bilateral [])
  end.

(** Nothing collides among the inputs of this proof and this tree. *)
Lemma merkle_proof_sound_witness :
  length (p_path demo_proof) = 2%nat ∧ demo_contents !! (p_index demo_proof mod 2 ^ Z.of_nat 2) = Some (str_bytes "c").
Proof.
  destruct (merkle_proof_sound 2 demo_contents demo_tree (str_bytes "c") demo_proof demo_tree_represents) as [H|[H|(x & Hx & H)]].
  - repeat constructor.
  - vm_compute. reflexivity.
  - exact H.
  - exfalso. revert H. apply (bool_decide_unpack _). vm_compute. exact I.
  - exfalso. assert (Forall (fun x => blake3 x ≠ zero_hash) (proof_inputs (str_bytes "c") (p_index demo_proof) (p_path demo_proof))) as Hf
      by (apply (bool_decide_unpack _); vm_compute; exact I). rewrite Forall_forall in Hf. exact (Hf x Hx H).
Defined.

Lemma merkle_rebuild_canonical_witness :
  Plain.compute_root (mkSMT zero_hash (SMT.hash_leaf <$> demo_contents) ∅ 2 0) = Ok (SMT.root demo_tree).
Proof.
  apply (merkle_rebuild_canonical (mkSMT zero_hash (SMT.hash_leaf <$> demo_contents) ∅ 2 0) 2
    (map_to_list (SMT.hash_leaf <$> demo_contents)) (map_to_list (SMT.hash_leaf <$> demo_contents)).*1 demo_tree);
    [reflexivity|reflexivity|reflexivity|exact demo_tree_represents].
Defined.

Lemma merkle_from_values_witness : ∃ t, SMT.from_values demo_values = Ok t.
Proof. destruct (merkle_from_values demo_values) as (t & Ht & _); [reflexivity|]. exists t. exact Ht. Defined.

Lemma plain_proof_never_verifies_witness : Plain.verify demo_proof = false.
Proof.
  apply (plain_proof_never_verifies (fun _ => None) (Plain.new 2) demo_proof [] [] [] []);
    [discriminate|vm_compute; reflexivity].
Defined.

End MerkleWitnesses.
