(* ===== verification/Batch.v ===== *)
(** * State batches (dsm/src/core/state_machine/batch.rs)

    The batch record with its cached hash, the builder that accumulates
    transitions in a Merkle tree of height 16, and the manager that finalises,
    proves, verifies and executes batches. *)
From S2P Require Import Prelude Tokens Operations SparseIdx States RandomWalk Transition Merkle.

(** ** Data *)

Record BatchCommitment := mkBatchCommitment {
  bc_transition_index : Z;
  bc_commitment_hash : bytes;
  bc_signatures : list bytes;
  bc_public_keys : list bytes;
}.

(** [ForwardLinkedCommitment] (dsm/src/commitments/precommit.rs); the map and
    the set in their iteration order. *)
Record ForwardLinkedCommitment := mkFLC {
  flc_next_state_hash : bytes;
  flc_entity_id : string;
  flc_counterparty_id : string;
  flc_fixed_parameters : list (string * bytes);
  flc_variable_parameters : list string;
  flc_entity_signature : option bytes;
  flc_counterparty_signature : option bytes;
  flc_commitment_hash : bytes;
  flc_min_state_number : Z;
}.

Record StateBatch := mkBatch {
  b_batch_number : Z;
  b_prev_state_hash : bytes;
  b_transitions_root : bytes;
  b_transition_count : Z;
  b_time_range : Z * Z;
  b_commitments : list BatchCommitment;
  b_forward_commitment : option ForwardLinkedCommitment;
  b_cached_hash : option bytes;
  b_transition_indices : list Z;
}.

Record BatchBuilder := mkBuilder {
  bb_batch_number : Z;
  bb_prev_state_hash : bytes;
  bb_transitions : list StateTransition;
  bb_commitments : list BatchCommitment;
  bb_tree : option SparseMerkleTreeImpl;
}.

Record BatchManager := mkBatchManager {
  bm_batch_counter : Z;
  bm_batches : gmap Z StateBatch;
  bm_active_batch : option BatchBuilder;
  bm_last_state : option State;
  bm_transition_cache : gmap Z (list StateTransition);
}.

(** ** [StateBatch] *)

Module Batch.
Section Batch.
Context {B3 : Blake3} {SC : Bincode BatchCommitment}.

Definition new (number : Z) (prev root : bytes) (count : Z) (range : Z * Z)
    (commitments : list BatchCommitment) (fc : option ForwardLinkedCommitment) : StateBatch :=
  mkBatch number prev root count range commitments fc None [].

Definition set_cached_hash (h : option bytes) (b : StateBatch) : StateBatch :=
  mkBatch (b_batch_number b) (b_prev_state_hash b) (b_transitions_root b) (b_transition_count b)
    (b_time_range b) (b_commitments b) (b_forward_commitment b) h (b_transition_indices b).

Definition commitment_to_bytes (c : BatchCommitment) : outcome bytes :=
  serialize_or "Failed to serialize BatchCommitment" c.

Fixpoint commitments_bytes (cs : list BatchCommitment) : outcome bytes :=
  match cs with
  | [] => Ok []
  | c :: cs => x ← commitment_to_bytes c; y ← commitments_bytes cs; Ok (x ++ y)
  end.

Definition forward_bytes (fc : option ForwardLinkedCommitment) : bytes :=
  match fc with
  | Some fc => flc_commitment_hash fc ++ unwrap_or [] (flc_entity_signature fc) ++
               unwrap_or [] (flc_counterparty_signature fc)
  | None => []
  end.

(** The bytes both [hash] and [verify] feed to the hasher. *)
Definition preimage (b : StateBatch) : outcome bytes :=
  cs ← commitments_bytes (b_commitments b);
  Ok (u64_le (b_batch_number b) ++ b_prev_state_hash b ++ b_transitions_root b ++
      u64_le (b_transition_count b) ++ u64_le (b_time_range b).1 ++ u64_le (b_time_range b).2 ++
      cs ++ forward_bytes (b_forward_commitment b)).

Definition hash : M StateBatch bytes := fun b =>
  match b_cached_hash b with
  | Some h => (Ok h, b)
  | None =>
      match preimage b with
      | Ok x => (Ok (blake3 x), set_cached_hash (Some (blake3 x)) b)
      | Err e => (Err e, b)
      | Panic => (Panic, b)
      | Hang => (Hang, b)
      end
  end.

Definition with_forward_commitment (fc : ForwardLinkedCommitment) (b : StateBatch) : StateBatch :=
  mkBatch (b_batch_number b) (b_prev_state_hash b) (b_transitions_root b) (b_transition_count b)
    (b_time_range b) (b_commitments b) (Some fc) None (b_transition_indices b).

Definition add_commitment (c : BatchCommitment) (b : StateBatch) : StateBatch :=
  mkBatch (b_batch_number b) (b_prev_state_hash b) (b_transitions_root b) (b_transition_count b)
    (b_time_range b) (b_commitments b ++ [c]) (b_forward_commitment b) None (b_transition_indices b).

(** [for commitment in &self.commitments] comparing each with the root. *)
Fixpoint commitments_match (root : bytes) (cs : list BatchCommitment) : outcome bool :=
  match cs with
  | [] => Ok true
  | c :: cs =>
      x ← commitment_to_bytes c;
      if negb (bool_decide (x = root)) then Ok false else commitments_match root cs
  end.

Definition verify_check (prev : bytes) (b : StateBatch) : outcome bool :=
  if negb (bool_decide (b_prev_state_hash b = prev)) then Ok false
  else
    x ← preimage b;
    if negb (bool_decide (blake3 x = b_transitions_root b)) then Ok false
    else
      m ← commitments_match (b_transitions_root b) (b_commitments b);
      if negb m then Ok false
      else
        match b_forward_commitment b with
        | Some fc => Ok (bool_decide (flc_commitment_hash fc = b_transitions_root b))
        | None => Ok true
        end.

(** The cached hash is dropped when every check has passed. *)
Definition verify (prev : bytes) : M StateBatch bool := fun b =>
  match verify_check prev b with
  | Ok true => (Ok true, set_cached_hash None b)
  | o => (o, b)
  end.

End Batch.
End Batch.

(** ** [BatchBuilder] *)

Definition batch_height : Z := 16.

Module Builder.
Section Builder.
Context {B3 : Blake3} {ST : Bincode StateTransition}.

Definition new (number : Z) (prev : bytes) : BatchBuilder :=
  mkBuilder number (if bool_decide (prev = []) then zeros 32 else prev) [] [] None.

Definition set_tree (t : SparseMerkleTreeImpl) (b : BatchBuilder) : BatchBuilder :=
  mkBuilder (bb_batch_number b) (bb_prev_state_hash b) (bb_transitions b) (bb_commitments b) (Some t).
Definition push_transition (t : StateTransition) (b : BatchBuilder) : BatchBuilder :=
  mkBuilder (bb_batch_number b) (bb_prev_state_hash b) (bb_transitions b ++ [t]) (bb_commitments b) (bb_tree b).

Definition add_transition (t : StateTransition) : M BatchBuilder unit := fun b =>
  let tree := unwrap_or (SMT.new batch_height) (bb_tree b) in
  let b := set_tree tree b in
  match serialize_or "Failed to serialize transition" t with
  | Ok transition_bytes =>
      match SMT.insert (Z.of_nat (length (bb_transitions b))) transition_bytes tree with
      | (Ok _, tree) => (Ok tt, push_transition t (set_tree tree b))
      | (Err e, tree) => (Err e, set_tree tree b)
      | (Panic, tree) => (Panic, set_tree tree b)
      | (Hang, tree) => (Hang, set_tree tree b)
      end
  | Err e => (Err e, b)
  | Panic => (Panic, b)
  | Hang => (Hang, b)
  end.

Definition add_commitment (c : BatchCommitment) (b : BatchBuilder) : BatchBuilder :=
  mkBuilder (bb_batch_number b) (bb_prev_state_hash b) (bb_transitions b) (bb_commitments b ++ [c]) (bb_tree b).

(** [for (idx, transition) in transitions.iter().enumerate()]: serialise and insert. *)
Fixpoint insert_transitions (msg : string) (idx : Z) (ts : list StateTransition)
    (tree : SparseMerkleTreeImpl) : outcome SparseMerkleTreeImpl :=
  match ts with
  | [] => Ok tree
  | t :: ts =>
      x ← serialize_or msg t;
      match SMT.insert idx x tree with
      | (Ok _, tree) => insert_transitions msg (idx + 1) ts tree
      | (Err e, _) => Err e
      | (Panic, _) => Panic
      | (Hang, _) => Hang
      end
  end.

(** [iter().map(|t| t.timestamp).min().unwrap_or(0)] and [max] *)
Definition min_time (ts : list StateTransition) : Z :=
  match map tr_timestamp ts with [] => 0 | x :: l => foldl Z.min x l end.
Definition max_time (ts : list StateTransition) : Z :=
  match map tr_timestamp ts with [] => 0 | x :: l => foldl Z.max x l end.

Definition build (b : BatchBuilder) : outcome StateBatch :=
  if bool_decide (length (bb_transitions b) = 0%nat) then
    Ok (Batch.new (bb_batch_number b) (bb_prev_state_hash b) (zeros 32) 0 (0, 0) (bb_commitments b) None)
  else
    let tree := unwrap_or (SMT.new (ceil_log2 (Z.of_nat (length (bb_transitions b))))) (bb_tree b) in
    final_tree ← insert_transitions "Failed to serialize transition" 0 (bb_transitions b) tree;
    Ok (Batch.new (bb_batch_number b) (bb_prev_state_hash b) (SMT.root final_tree)
          (Z.of_nat (length (bb_transitions b)))
          (min_time (bb_transitions b), max_time (bb_transitions b)) (bb_commitments b) None).

End Builder.
End Builder.

(** ** [BatchManager] *)

Module BM.
Section BM.
Context {B3 : Blake3} {RT : Runtime}.
Context {SO : Bincode Operation} {SB : Bincode Balance} {SP : Bincode PreCommitment}.
Context {ST : Bincode StateTransition} {SMP : Bincode MerkleProof} (deserialize : bytes → option MerkleProof).

Definition new : BatchManager := mkBatchManager 0 ∅ None None ∅.

Definition set_active (b : option BatchBuilder) (m : BatchManager) : BatchManager :=
  mkBatchManager (bm_batch_counter m) (bm_batches m) b (bm_last_state m) (bm_transition_cache m).
Definition set_last (s : option State) (m : BatchManager) : BatchManager :=
  mkBatchManager (bm_batch_counter m) (bm_batches m) (bm_active_batch m) s (bm_transition_cache m).

Definition start_batch (prev : option State) : M BatchManager unit := fun m =>
  match bm_active_batch m with
  | Some _ => (Err (batch_error "Batch already in progress"), m)
  | None =>
      let prev_hash := match prev with Some s => St.get_hash s | None => Ok (zeros 32) end in
      match prev_hash with
      | Ok h =>
          let m := set_active (Some (Builder.new (bm_batch_counter m) h)) m in
          (Ok tt, match prev with Some s => set_last (Some s) m | None => m end)
      | Err _ => (Err (batch_error "Failed to hash previous state"), m)
      | Panic => (Panic, m)
      | Hang => (Hang, m)
      end
  end.

(** [builder.add_transition] on the active builder. *)
Definition add_to_active (t : StateTransition) : M BatchManager unit := fun m =>
  match bm_active_batch m with
  | Some b => let '(o, b) := Builder.add_transition t b in (o, set_active (Some b) m)
  | None => (Panic, m)
  end.

Definition add_transition (t : StateTransition) : M BatchManager unit := fun m =>
  match bm_active_batch m with
  | Some _ => add_to_active t m
  | None => (do* start_batch (bm_last_state m); add_to_active t) m
  end.

(** The active builder is taken before it is built; the counter and the maps
    change only when the build succeeds. *)
Definition finalize_batch : M BatchManager StateBatch := fun m =>
  match bm_active_batch m with
  | Some b =>
      let m := set_active None m in
      match Builder.build b with
      | Ok batch =>
          let n := b_batch_number batch in
          let m := mkBatchManager (bm_batch_counter m) (<[n := batch]> (bm_batches m)) (bm_active_batch m)
                     (bm_last_state m) (<[n := bb_transitions b]> (bm_transition_cache m)) in
          match u64_add (bm_batch_counter m) 1 with
          | Ok c => (Ok batch, mkBatchManager c (bm_batches m) (bm_active_batch m) (bm_last_state m)
                                 (bm_transition_cache m))
          | _ => (Panic, m)
          end
      | Err e => (Err e, m)
      | Panic => (Panic, m)
      | Hang => (Hang, m)
      end
  | None => (Err (batch_error "No active batch to finalize - call start_batch() first"), m)
  end.

Definition get_batch (m : BatchManager) (n : Z) : outcome StateBatch :=
  ok_or (ENotFound "Batch" (Some "Batch number {} not found")) (bm_batches m !! n).

(** The placeholder transitions [from .. from + k - 1]. *)
Fixpoint placeholders (batch : StateBatch) (n from : Z) (k : nat) : outcome (list StateTransition) :=
  match k with
  | O => Ok []
  | S k =>
      let e := blake3 (u64_le n ++ u64_le from ++ str_bytes "DSM_DETERMINISTIC_TEST_ENTROPY") in
      ts ← u64_add (b_time_range batch).1 from;
      rest ← placeholders batch n (from + 1) k;
      Ok (mkTransition (Generic ("test_transition_" +:+ pretty from) (take 4 e) "Test transition")
            (Some e) None ("device_" +:+ pretty from) ts [] None None None
            (Some (b_prev_state_hash batch)) None None default_state Genesis [] default_state default_state
          :: rest)
  end.

Definition retrieve_batch_transitions (m : BatchManager) (n : Z) : outcome (list StateTransition) :=
  match bm_transition_cache m !! n with
  | Some ts => Ok ts
  | None =>
      batch ← get_batch m n;
      placeholders batch n 0 (Z.to_nat (b_transition_count batch))
  end.

Definition generate_transition_proof (m : BatchManager) (n i : Z) : outcome bytes :=
  batch ← get_batch m n;
  if b_transition_count batch <=? i then
    Err (EValidation "Invalid transition index: {} (batch has {} transitions)")
  else
    transitions ← retrieve_batch_transitions m n;
    tree ← Builder.insert_transitions "Failed to serialize transition {}" 0 transitions (SMT.new batch_height);
    if negb (bool_decide (SMT.root tree = b_transitions_root batch)) then
      Err (EValidation "Tree root hash mismatch: possible data corruption")
    else
      proof ← SMT.get_proof tree i;
      serialize_or "Failed to serialize Merkle proof" proof.

(** The stored transitions with the one at [i] replaced. *)
Definition replace_at (i : Z) (t : StateTransition) (ts : list StateTransition) : list StateTransition :=
  imap (fun idx x => if Z.of_nat idx =? i then t else x) ts.

Definition verify_transition_in_batch (m : BatchManager) (n i : Z) (t : StateTransition) : outcome bool :=
  batch ← get_batch m n;
  if b_transition_count batch <=? i then
    Err (EValidation "Invalid transition index: {} (batch has {} transitions)")
  else
    transition_bytes ← serialize_or "Failed to serialize transition for verification" t;
    stored ← retrieve_batch_transitions m n;
    if i <? Z.of_nat (length stored) then
      stored_transition ← unwrap (stored !! Z.to_nat i);
      stored_bytes ← serialize_or "Failed to serialize stored transition" stored_transition;
      if negb (bool_decide (transition_bytes = stored_bytes)) then Ok false
      else
        tree ← Builder.insert_transitions "Failed to serialize transition {}" 0 (replace_at i t stored)
                 (SMT.new batch_height);
        Ok (bool_decide (SMT.root tree = b_transitions_root batch))
    else Err (EValidation "Transition index {} out of bounds").

Definition verify_with_proof (m : BatchManager) (n i : Z) (t : StateTransition) : outcome bool :=
  batch ← get_batch m n;
  proof_bytes ← generate_transition_proof m n i;
  proof ← ok_or (ESerialization "Failed to deserialize Merkle proof") (deserialize proof_bytes);
  transition_bytes ← serialize_or "Failed to serialize transition for proof verification" t;
  if Nat.eqb (length (b_transitions_root batch)) 32 then
    SMT.verify_proof (b_transitions_root batch) transition_bytes proof
  else Err (EValidation "Invalid root hash length").

Definition build_state_from_transition (t : StateTransition) (cur : State) : outcome State :=
  Tr.apply_transition cur (tr_operation t) (unwrap_or [] (tr_new_entropy t)).

Fixpoint execute_transitions (cur : State) (ts : list StateTransition) : outcome (list State) :=
  match ts with
  | [] => Ok []
  | t :: ts =>
      s ← build_state_from_transition t cur;
      rest ← execute_transitions s ts;
      Ok (s :: rest)
  end.

Definition execute_batch (m : BatchManager) (batch : StateBatch) (last_state : State) : outcome (list State) :=
  h ← St.get_hash last_state;
  if negb (bool_decide (b_prev_state_hash batch = h)) then
    Err (EValidation "Batch previous state hash mismatch: expected {:?}, got {:?}")
  else
    transitions ← retrieve_batch_transitions m (b_batch_number batch);
    if negb (Z.of_nat (length transitions) =? b_transition_count batch) then
      Err (EValidation "Transition count mismatch: batch claims {}, but found {}")
    else execute_transitions last_state transitions.

Definition verify_batch (m : BatchManager) (batch : StateBatch) (last_state : State) : outcome bool :=
  h ← St.get_hash last_state;
  if negb (bool_decide (b_prev_state_hash batch = h)) then Ok false
  else
    match retrieve_batch_transitions m (b_batch_number batch) with
    | Ok transitions =>
        match Builder.insert_transitions "" 0 transitions (SMT.new batch_height) with
        | Ok tree =>
            if negb (bool_decide (SMT.root tree = b_transitions_root batch)) then Ok false
            else Ok (forallb (fun c => bc_transition_index c <? Z.of_nat (length transitions)) (b_commitments batch))
        | Err _ => Ok false
        | Panic => Panic
        | Hang => Hang
        end
    | Err _ => Ok false
    | Panic => Panic
    | Hang => Hang
    end.

End BM.
End BM.

(** ** Lemmas *)

Section BatchFacts.
Context {B3 : Blake3} {RT : Runtime}.
Context {SO : Bincode Operation} {SB : Bincode Balance} {SP : Bincode PreCommitment}.
Context {ST : Bincode StateTransition} {TT : BincodeTotal StateTransition}.

Definition enc (t : StateTransition) : bytes := unwrap_or [] (serialize t).
Definition transition_leaves (ts : list StateTransition) : gmap Z bytes := leaves_of 0 (enc <$> ts).
(** The Merkle root of a list of transitions, zero when there is none. *)
Definition transitions_root (ts : list StateTransition) : bytes := tree_hash (transition_leaves ts) 16 0.

Lemma transitions_root_length ts : length (transitions_root ts) = 32%nat.
Proof. apply tree_hash_length, hash_leaf_all_32. Qed.

(** The root is zero or the digest of 65 bytes: a node prefix and two hashes. *)
Lemma transitions_root_shape ts :
  transitions_root ts = zero_hash ∨ ∃ y, length y = 65%nat ∧ transitions_root ts = blake3 y.
Proof. apply (tree_hash_shape _ 15 0), hash_leaf_all_32. Qed.

Lemma enc_serialize msg t : serialize_or msg t = Ok (enc t).
Proof. unfold enc. destruct (serialize_or_total msg t) as (b & -> & ->). done. Qed.

Lemma insert_transitions_all msg ts : ∀ idx tree,
  Builder.insert_transitions msg idx ts tree = SMT.insert_all idx (enc <$> ts) tree.
Proof.
  induction ts as [|t ts IH]; intros idx tree; [done|].
  cbn [Builder.insert_transitions fmap list_fmap SMT.insert_all]. rewrite enc_serialize. cbn [mbind outcome_bind].
  destruct (SMT.insert idx (enc t) tree) as [[] tree']; done || apply IH.
Qed.

Lemma rebuild_tree msg ts :
  Z.of_nat (length ts) ≤ 65536 →
  ∃ t, Builder.insert_transitions msg 0 ts (SMT.new batch_height) = Ok t ∧
    represents 16 (transition_leaves ts) t.
Proof.
  intros Hl. rewrite insert_transitions_all.
  destruct (insert_all_represents 16 (enc <$> ts) 0 ∅ _ (new_represents 16)) as (t & Ht & Hr);
    [lia|lia|rewrite length_fmap; change (2 ^ Z.of_nat 16) with 65536; lia|].
  rewrite (right_id_L ∅ (∪)) in Hr. eauto.
Qed.

(** The builder's tree holds its transitions. *)
Definition builder_ok (b : BatchBuilder) : Prop :=
  Z.of_nat (length (bb_transitions b)) ≤ 65536 ∧
  match bb_tree b with
  | Some t => represents 16 (transition_leaves (bb_transitions b)) t
  | None => bb_transitions b = []
  end.

Lemma builder_tree b : builder_ok b →
  represents 16 (transition_leaves (bb_transitions b)) (unwrap_or (SMT.new batch_height) (bb_tree b)).
Proof. intros [_ H]. destruct (bb_tree b); [done|]. rewrite H. apply (new_represents 16). Qed.

Lemma transition_leaves_snoc ts t :
  transition_leaves (ts ++ [t]) = <[Z.of_nat (length ts) := SMT.hash_leaf (enc t)]> (transition_leaves ts).
Proof.
  unfold transition_leaves, leaves_of. rewrite fmap_app.
  change (enc <$> [t]) with [enc t]. rewrite map_seqZ_snoc, fmap_insert, length_fmap. done.
Qed.

Lemma builder_add t b :
  builder_ok b → Z.of_nat (length (bb_transitions b)) < 65536 →
  ∃ b', Builder.add_transition t b = (Ok tt, b') ∧ builder_ok b' ∧
    bb_transitions b' = bb_transitions b ++ [t] ∧ bb_batch_number b' = bb_batch_number b ∧
    bb_prev_state_hash b' = bb_prev_state_hash b ∧ bb_commitments b' = bb_commitments b.
Proof.
  intros Hb Hl. unfold Builder.add_transition. rewrite enc_serialize. cbn [Builder.set_tree bb_transitions].
  destruct (insert_represents 16 _ _ (Z.of_nat (length (bb_transitions b))) (enc t) (builder_tree b Hb))
    as (tree & -> & Hr); [lia|change (2 ^ Z.of_nat 16) with 65536; lia|].
  eexists. split; [done|]. split_and!; try done.
  split; cbn [Builder.push_transition Builder.set_tree bb_tree bb_transitions].
  - rewrite length_app. cbn. lia.
  - by rewrite transition_leaves_snoc.
Qed.

Lemma build_ok b : builder_ok b →
  ∃ range, Builder.build b =
    Ok (Batch.new (bb_batch_number b) (bb_prev_state_hash b) (transitions_root (bb_transitions b))
          (Z.of_nat (length (bb_transitions b))) range (bb_commitments b) None).
Proof.
  intros Hb. unfold Builder.build. case_bool_decide as E.
  - destruct (bb_transitions b); [|done]. exists (0, 0). unfold transitions_root, tree_hash, transition_leaves, leaves_of.
    cbn [fmap list_fmap map_seqZ]. by rewrite fmap_empty, subtree_empty.
  - destruct Hb as [Hl Hb]. destruct (bb_tree b) as [t|]; [|by rewrite Hb in E]. cbn [unwrap_or].
    rewrite insert_transitions_all.
    destruct (insert_all_represents 16 (enc <$> bb_transitions b) 0 _ t Hb) as (t' & -> & Hr);
      [lia|lia|rewrite length_fmap; change (2 ^ Z.of_nat 16) with 65536; lia|].
    cbn [mbind outcome_bind]. change (leaves_of 0 (enc <$> bb_transitions b)) with (transition_leaves (bb_transitions b)) in Hr.
    rewrite (idemp_L (∪)) in Hr. destruct Hr as (_ & _ & _ & Hr).
    exists (Builder.min_time (bb_transitions b), Builder.max_time (bb_transitions b)).
    unfold transitions_root. rewrite <- Hr. reflexivity.
Qed.

(** A finalised batch as the manager keeps it. *)
Definition recorded (m : BatchManager) (batch : StateBatch) (ts : list StateTransition) : Prop :=
  bm_batches m !! b_batch_number batch = Some batch ∧
  bm_transition_cache m !! b_batch_number batch = Some ts ∧
  b_transition_count batch = Z.of_nat (length ts) ∧ Z.of_nat (length ts) ≤ 65536 ∧
  b_transitions_root batch = transitions_root ts.

Lemma recorded_retrieve m batch ts :
  recorded m batch ts → BM.retrieve_batch_transitions m (b_batch_number batch) = Ok ts.
Proof. intros (_ & H & _). unfold BM.retrieve_batch_transitions. by rewrite H. Qed.

Lemma recorded_tree msg m batch ts : recorded m batch ts →
  ∃ t, Builder.insert_transitions msg 0 ts (SMT.new batch_height) = Ok t ∧
    represents 16 (transition_leaves ts) t ∧ SMT.root t = b_transitions_root batch.
Proof.
  intros (_ & _ & _ & Hl & Hr). destruct (rebuild_tree msg ts Hl) as (t & Ht & Hrep).
  exists t. split_and!; [done|done|]. rewrite Hr. destruct Hrep as (_ & _ & _ & Hroot). exact Hroot.
Qed.

Lemma recorded_proof {SMP : Bincode MerkleProof} {TP : BincodeTotal MerkleProof} m batch ts i t :
  recorded m batch ts → ts !! i = Some t →
  ∃ p b, BM.generate_transition_proof m (b_batch_number batch) (Z.of_nat i) = Ok b ∧ serialize p = Some b ∧
    SMT.verify_proof (b_transitions_root batch) (enc t) p = Ok true.
Proof.
  intros Hrec Ht. pose proof (lookup_lt_Some _ _ _ Ht) as Hlt. pose proof Hrec as (Hb & _ & Hc & Hl & _).
  unfold BM.generate_transition_proof, BM.get_batch. rewrite Hb. cbn [ok_or mbind outcome_bind].
  rewrite (proj2 (Z.leb_gt _ _)) by lia. rewrite (recorded_retrieve _ _ _ Hrec). cbn [mbind outcome_bind].
  destruct (recorded_tree "Failed to serialize transition {}" m batch ts Hrec) as (tree & -> & Hrep & Hroot).
  cbn [mbind outcome_bind]. rewrite bool_decide_eq_true_2 by done. cbn [negb].
  destruct (get_proof_climbs 16 _ tree (Z.of_nat i) (SMT.hash_leaf (enc t)) Hrep) as (p & -> & _ & Hx & _ & Hcl);
    [lia|change (2 ^ Z.of_nat 16) with 65536; lia|unfold transition_leaves; apply leaves_of_lookup; by rewrite list_lookup_fmap, Ht|].
  cbn [mbind outcome_bind]. destruct (serialize_or_total "Failed to serialize Merkle proof" p) as (b & Hs & ->).
  exists p, b. split_and!; [done|done|]. unfold SMT.verify_proof. by rewrite Hx, Hcl, Hroot, bool_decide_eq_true_2.
Qed.

End BatchFacts.

(** Conversion must not unfold the 2^16 nodes of the tree. *)
#[global] Opaque transitions_root.

(** ** Batches built through the manager *)

Section ManagerFacts.
Context {B3 : Blake3} {RT : Runtime}.
Context {SO : Bincode Operation} {SB : Bincode Balance} {SP : Bincode PreCommitment}.
Context {ST : Bincode StateTransition}.

(** Adding a list of transitions in order. *)
Fixpoint add_all (ts : list StateTransition) : M BatchManager unit :=
  match ts with
  | [] => mret_st tt
  | t :: ts => do* BM.add_transition t; add_all ts
  end.

Context {TT : BincodeTotal StateTransition}.

Lemma add_all_ok ts : ∀ m b,
  bm_active_batch m = Some b → builder_ok b →
  Z.of_nat (length (bb_transitions b)) + Z.of_nat (length ts) ≤ 65536 →
  ∃ b' m', add_all ts m = (Ok tt, m') ∧ bm_active_batch m' = Some b' ∧ builder_ok b' ∧
    bm_batch_counter m' = bm_batch_counter m ∧ bb_transitions b' = bb_transitions b ++ ts ∧
    bb_batch_number b' = bb_batch_number b ∧ bb_prev_state_hash b' = bb_prev_state_hash b ∧
    bb_commitments b' = bb_commitments b.
Proof.
  induction ts as [|t ts IH]; intros m b Ha Hb Hl; cbn [add_all].
  - exists b, m. rewrite app_nil_r. by split_and!.
  - cbn [length] in Hl. unfold mbind_st, BM.add_transition, BM.add_to_active. rewrite Ha.
    destruct (builder_add t b Hb) as (b1 & -> & Hb1 & Ht & Hn & Hp & Hc); [lia|].
    destruct (IH (BM.set_active (Some b1) m) b1 eq_refl Hb1) as (b' & m' & H1 & H2 & H3 & H4 & H5 & H6 & H7 & H8).
    { rewrite Ht, length_app. cbn [length]. lia. }
    exists b', m'. split_and!; [done|done|done|done| |congruence..].
    by rewrite H5, Ht, <- app_assoc.
Qed.

Lemma finalize_ok m b :
  bm_active_batch m = Some b → builder_ok b → bm_batch_counter m < u64_max →
  ∃ batch m', BM.finalize_batch m = (Ok batch, m') ∧ recorded m' batch (bb_transitions b) ∧
    b_batch_number batch = bb_batch_number b ∧ b_prev_state_hash batch = bb_prev_state_hash b ∧
    b_commitments batch = bb_commitments b ∧ bm_active_batch m' = None ∧
    bm_batch_counter m' = bm_batch_counter m + 1.
Proof.
  intros Ha Hb Hc. unfold BM.finalize_batch. rewrite Ha. destruct (build_ok b Hb) as (range & ->).
  cbn [bm_batch_counter BM.set_active]. unfold u64_add. rewrite (proj2 (Z.leb_le _ _)) by lia.
  do 2 eexists. split; [reflexivity|]. split_and!; try reflexivity.
  unfold recorded. cbn [bm_batches bm_transition_cache Batch.new b_batch_number b_transition_count b_transitions_root].
  split_and!; [apply lookup_insert_eq|apply lookup_insert_eq|reflexivity|apply Hb|reflexivity].
Qed.

Lemma recorded_verify_batch m batch ts s :
  recorded m batch ts → St.get_hash s = Ok (b_prev_state_hash batch) → b_commitments batch = [] →
  BM.verify_batch m batch s = Ok true.
Proof.
  intros Hrec Hh Hcs. unfold BM.verify_batch. rewrite Hh. cbn [mbind outcome_bind].
  rewrite bool_decide_eq_true_2 by done. cbn [negb]. rewrite (recorded_retrieve _ _ _ Hrec).
  destruct (recorded_tree "" m batch ts Hrec) as (t & -> & _ & ->).
  rewrite bool_decide_eq_true_2 by done. cbn [negb]. by rewrite Hcs.
Qed.

Lemma replace_at_enc i t ts t0 :
  ts !! i = Some t0 → enc t = enc t0 → enc <$> BM.replace_at (Z.of_nat i) t ts = enc <$> ts.
Proof.
  intros Hi He. apply list_eq. intros j. unfold BM.replace_at. rewrite !list_lookup_fmap, list_lookup_imap.
  destruct (ts !! j) as [x|] eqn:Hj; [|done]. cbn. f_equal.
  destruct (Z.eqb_spec (Z.of_nat j) (Z.of_nat i)); [|done]. assert (j = i) as -> by lia. congruence.
Qed.

(** The states of an executed batch follow each other. *)
Fixpoint linked (prev : State) (l : list State) : Prop :=
  match l with
  | [] => True
  | s :: l => state_number s = state_number prev + 1 ∧ St.get_hash prev = Ok (prev_state_hash s) ∧
              St.compute_hash s = Ok (hash s) ∧ linked s l
  end.

Lemma execute_transitions_linked ts : ∀ cur l,
  BM.execute_transitions cur ts = Ok l → linked cur l ∧ map operation l = map tr_operation ts.
Proof.
  induction ts as [|t ts IH]; intros cur l; cbn [BM.execute_transitions].
  - intros [= <-]. done.
  - intros (s & Hs & (rest & Hr & [= <-])%bind_Ok)%bind_Ok. apply IH in Hr as [Hl Hm].
    unfold BM.build_state_from_transition in Hs. rewrite (apply_transition_eq _ _ _ LV_Standard false) in Hs.
    apply create_next_state_inv in Hs. split; [|cbn; by rewrite Hm, (next_op _ _ _ _ _ Hs)].
    cbn [linked]. split_and!; [apply Hs..|done].
Qed.

Lemma execute_transitions_total {TO : BincodeTotal Operation} {TB : BincodeTotal Balance}
    {TP : BincodeTotal PreCommitment} ts : ∀ cur,
  0 ≤ state_number cur → state_number cur + Z.of_nat (length ts) < 2 ^ 63 →
  ∃ l, BM.execute_transitions cur ts = Ok l.
Proof.
  induction ts as [|t ts IH]; intros cur H0 Hn; cbn [BM.execute_transitions]; [by eexists|].
  cbn [length] in Hn. unfold BM.build_state_from_transition. rewrite (apply_transition_eq _ _ _ LV_Standard false).
  destruct (compute_hash_next_total cur (tr_operation t) (unwrap_or [] (tr_new_entropy t)) LV_Standard false)
    as (s & Hs); [lia|].
  rewrite Hs. cbn [mbind outcome_bind]. apply create_next_state_inv in Hs. pose proof (next_number _ _ _ _ _ Hs).
  destruct (IH s) as (l & ->); [lia..|]. by eexists.
Qed.

End ManagerFacts.

(** ** [StateBatch::hash] *)

Section CacheFacts.
Context {B3 : Blake3} {SC : Bincode BatchCommitment}.

(** A cached hash is the hash of the current fields. *)
Definition cache_ok (b : StateBatch) : Prop :=
  ∀ h, b_cached_hash b = Some h → ∃ x, Batch.preimage b = Ok x ∧ h = blake3 x.

Lemma preimage_set_cached h b : Batch.preimage (Batch.set_cached_hash h b) = Batch.preimage b.
Proof. done. Qed.

Lemma preimage_length b x : Batch.preimage b = Ok x →
  (length (b_prev_state_hash b) + length (b_transitions_root b) + 32 ≤ length x)%nat.
Proof.
  unfold Batch.preimage. intros (cs & _ & <-%Ok_inj)%bind_Ok. rewrite !length_app, !length_le_bytes. lia.
Qed.

Lemma verify_check_root prev b :
  Batch.verify_check prev b = Ok true →
  ∃ x, Batch.preimage b = Ok x ∧ blake3 x = b_transitions_root b ∧ b_prev_state_hash b = prev.
Proof.
  unfold Batch.verify_check. case_bool_decide; [|done]. cbn [negb]. intros (x & Hx & H')%bind_Ok.
  case_bool_decide; [|done]. by exists x.
Qed.

End CacheFacts.

(** ** Properties *)

Section BatchProps.
Context {B3 : Blake3} {RT : Runtime}.
Context {SO : Bincode Operation} {SB : Bincode Balance} {SP : Bincode PreCommitment}.
Context {ST : Bincode StateTransition} {TT : BincodeTotal StateTransition}.

(** C8: the batch life cycle succeeds and is verified: on a manager with no
    active batch, starting a batch on a hashed state, adding up to 65536
    transitions and finalising returns a batch that carries the state's hash, the
    counter's number, the number of transitions and their Merkle root; the
    manager records it with its transitions, is ready for the next batch, and
    [verify_batch] accepts it after the same state. *)
Theorem batch_lifecycle (m : BatchManager) (s : State) (ts : list StateTransition) (h : bytes) :
  bm_active_batch m = None → St.get_hash s = Ok h → h ≠ [] → bm_batch_counter m < u64_max →
  Z.of_nat (length ts) ≤ 65536 →
  ∃ batch m', (do* BM.start_batch (Some s); do* add_all ts; BM.finalize_batch) m = (Ok batch, m') ∧
    b_batch_number batch = bm_batch_counter m ∧ b_prev_state_hash batch = h ∧ recorded m' batch ts ∧
    bm_active_batch m' = None ∧ bm_batch_counter m' = bm_batch_counter m + 1 ∧
    BM.verify_batch m' batch s = Ok true.
Proof.
  intros Ha Hh Hne Hc Hl. unfold mbind_st at 1, BM.start_batch. rewrite Ha, Hh.
  set (m1 := BM.set_last _ _). set (b1 := Builder.new (bm_batch_counter m) h).
  assert (Hb1 : builder_ok b1) by (split; [cbn; lia|done]).
  assert (Hp1 : bb_prev_state_hash b1 = h) by (cbn; by rewrite bool_decide_eq_false_2).
  destruct (add_all_ok ts m1 b1 eq_refl Hb1) as (b' & m2 & H1 & H2 & H3 & H4 & H5 & H6 & H7 & H8); [cbn; lia|].
  unfold mbind_st. rewrite H1.
  destruct (finalize_ok m2 b' H2 H3) as (batch & m' & Hf & Hrec & Hn & Hp & Hcs & Hact & Hcnt); [rewrite H4; done|].
  rewrite H5 in Hrec. exists batch, m'. split_and!; [done|by rewrite Hn, H6|by rewrite Hp, H7|done|done|by rewrite Hcnt, H4|].
  eapply recorded_verify_batch; [done|by rewrite Hp, H7, Hp1|by rewrite Hcs, H8].
Qed.

(** Membership in a recorded batch is decided exactly: for a valid index,
    [verify_transition_in_batch] answers whether the given transition serialises
    to the same bytes as the recorded one. *)
Theorem batch_membership_exact (m : BatchManager) (batch : StateBatch) (ts : list StateTransition)
    (i : nat) (t0 t : StateTransition) :
  recorded m batch ts → ts !! i = Some t0 →
  BM.verify_transition_in_batch m (b_batch_number batch) (Z.of_nat i) t = Ok (bool_decide (enc t = enc t0)).
Proof.
  intros Hrec Hi. pose proof (lookup_lt_Some _ _ _ Hi) as Hlt. pose proof Hrec as (Hb & _ & Hc & _).
  unfold BM.verify_transition_in_batch, BM.get_batch. rewrite Hb. cbn [ok_or mbind outcome_bind].
  rewrite (proj2 (Z.leb_gt _ _)) by lia. rewrite enc_serialize. cbn [mbind outcome_bind].
  rewrite (recorded_retrieve _ _ _ Hrec). cbn [mbind outcome_bind]. rewrite (proj2 (Z.ltb_lt _ _)) by lia.
  rewrite Nat2Z.id, Hi. cbn [unwrap mbind outcome_bind]. rewrite enc_serialize. cbn [mbind outcome_bind].
  case_bool_decide as He; cbn [negb]; [|done].
  rewrite insert_transitions_all, (replace_at_enc i t ts t0 Hi He), <- (insert_transitions_all "").
  destruct (recorded_tree "" m batch ts Hrec) as (tree & -> & _ & Hroot). cbn [mbind outcome_bind].
  by rewrite bool_decide_eq_true_2.
Qed.

(** The proof path of a batch is complete: for every transition of a
    recorded batch a serialised Merkle proof is generated, and when the codec of
    proofs round-trips [verify_with_proof] accepts the transition. *)
Theorem batch_proof_complete {SMP : Bincode MerkleProof} {TP : BincodeTotal MerkleProof}
    (deserialize : bytes → option MerkleProof) (m : BatchManager) (batch : StateBatch)
    (ts : list StateTransition) (i : nat) (t : StateTransition) :
  (∀ p b, serialize p = Some b → deserialize b = Some p) →
  recorded m batch ts → ts !! i = Some t →
  is_ok (BM.generate_transition_proof m (b_batch_number batch) (Z.of_nat i)) = true ∧
  BM.verify_with_proof deserialize m (b_batch_number batch) (Z.of_nat i) t = Ok true.
Proof.
  intros Hcodec Hrec Hi. destruct (recorded_proof m batch ts i t Hrec Hi) as (p & b & Hg & Hs & Hv).
  split; [by rewrite Hg|]. unfold BM.verify_with_proof, BM.get_batch. pose proof Hrec as (-> & _ & _ & _ & Hroot).
  cbn [ok_or mbind outcome_bind]. rewrite Hg. cbn [mbind outcome_bind]. rewrite (Hcodec _ _ Hs).
  cbn [ok_or mbind outcome_bind]. rewrite enc_serialize. cbn [mbind outcome_bind].
  replace (length (b_transitions_root batch)) with 32%nat; [done|]. rewrite Hroot.
  by rewrite transitions_root_length.
Qed.

(** Executing a recorded batch on the state it was started from succeeds
    while the numbers stay below 2^63, and the states it returns carry the
    operations of the transitions in order, consecutive numbers, the hash of
    their predecessor and their own correct hash. *)
Theorem execute_batch_chain {TO : BincodeTotal Operation} {TB : BincodeTotal Balance}
    {TP : BincodeTotal PreCommitment} (m : BatchManager) (batch : StateBatch) (ts : list StateTransition) (s : State) :
  recorded m batch ts → St.get_hash s = Ok (b_prev_state_hash batch) →
  0 ≤ state_number s → state_number s + Z.of_nat (length ts) < 2 ^ 63 →
  ∃ l, BM.execute_batch m batch s = Ok l ∧ linked s l ∧ map operation l = map tr_operation ts.
Proof.
  intros Hrec Hh H0 Hn. unfold BM.execute_batch. rewrite Hh. cbn [mbind outcome_bind].
  rewrite bool_decide_eq_true_2 by done. cbn [negb]. rewrite (recorded_retrieve _ _ _ Hrec). cbn [mbind outcome_bind].
  pose proof Hrec as (_ & _ & -> & _). rewrite Z.eqb_refl. cbn [negb].
  destruct (execute_transitions_total ts s H0 Hn) as (l & Hl). exists l. split; [done|].
  by eapply execute_transitions_linked.
Qed.

(** The builder's capacity is 65536 transitions: adding one more is an
    error and leaves the transitions of the builder as they were. *)
Theorem builder_capacity (b : BatchBuilder) (t : StateTransition) :
  builder_ok b → Z.of_nat (length (bb_transitions b)) = 65536 →
  ∃ b', Builder.add_transition t b = (Err (EInvalidOperation "Index {} exceeds tree capacity of {}"), b') ∧
    bb_transitions b' = bb_transitions b ∧ builder_ok b'.
Proof.
  intros Hb Hl. pose proof (builder_tree b Hb) as Ht. unfold Builder.add_transition. rewrite enc_serialize.
  cbn [Builder.set_tree bb_transitions]. rewrite Hl. unfold SMT.insert. pose proof Ht as (Hh & _).
  rewrite Hh, u64_shl1_Ok by lia. change (2 ^ Z.of_nat 16) with 65536. rewrite (proj2 (Z.leb_le _ _)) by lia.
  eexists. split; [reflexivity|]. split; [reflexivity|]. split; [cbn; lia|exact Ht].
Qed.

Context {SC : Bincode BatchCommitment}.

(** No batch that the builder makes passes [StateBatch::verify], which
    requires the Merkle root to be the hash of the batch that contains it: for a
    32-byte predecessor hash the verification does not return true, unless the
    preimage of this very batch has the zero hash as its digest, or the digest of
    another input, a pair of child hashes. *)
Theorem built_batch_never_verifies (b : BatchBuilder) (batch : StateBatch) (prev : bytes) :
  builder_ok b → Builder.build b = Ok batch → length (bb_prev_state_hash b) = 32%nat →
  (Batch.verify prev batch).1 ≠ Ok true ∨
  ∃ x, Batch.preimage batch = Ok x ∧ (blake3 x = zero_hash ∨ ∃ y, length y = 65%nat ∧ x ≠ y ∧ blake3 x = blake3 y).
Proof.
  intros Hb Hbuild Hp. destruct (Batch.verify prev batch).1 as [[]| | |] eqn:Hv; try (by left). right. destruct (build_ok b Hb) as (range & Hb'). rewrite Hbuild in Hb'.
  apply Ok_inj in Hb'.
  assert (Hc : Batch.verify_check prev batch = Ok true)
    by (unfold Batch.verify in Hv; by destruct (Batch.verify_check prev batch) as [[]| | |]).
  apply verify_check_root in Hc as (x & Hx & Hroot & _).
  exists x. split; [exact Hx|]. apply preimage_length in Hx as Hlen. rewrite Hb' in Hlen, Hroot.
  cbn [Batch.new b_prev_state_hash b_transitions_root] in Hlen, Hroot.
  rewrite transitions_root_length in Hlen.
  destruct (transitions_root_shape (bb_transitions b)) as [E|(y & Hy & E)]; rewrite E in Hroot.
  - by left.
  - right. exists y. split; [done|]. split; [|done]. intros ->. lia.
Qed.

(** The cached batch hash never goes stale: if the cache of a batch is
    coherent then [hash] returns the digest of the current fields, and hashing,
    adding a commitment, setting the forward commitment and verifying all keep
    the cache coherent. *)
Theorem batch_hash_cache_coherent (b : StateBatch) (c : BatchCommitment) (fc : ForwardLinkedCommitment) (prev : bytes) :
  cache_ok b →
  (∀ h, (Batch.hash b).1 = Ok h → ∃ x, Batch.preimage b = Ok x ∧ h = blake3 x) ∧
  cache_ok (Batch.hash b).2 ∧ cache_ok (Batch.add_commitment c b) ∧
  cache_ok (Batch.with_forward_commitment fc b) ∧ cache_ok (Batch.verify prev b).2.
Proof.
  intros Hb. split_and!; [| |by intros h [=]|by intros h [=]|].
  - unfold Batch.hash. intros h. destruct (b_cached_hash b) eqn:E; [intros [= <-]; by apply Hb|].
    destruct (Batch.preimage b) as [x| | |] eqn:Ex; try done. intros [= <-]. by exists x.
  - unfold Batch.hash. destruct (b_cached_hash b) eqn:E; [done|].
    destruct (Batch.preimage b) as [x| | |] eqn:Ex; try done. intros h [= <-]. by exists x.
  - unfold Batch.verify. destruct (Batch.verify_check prev b) as [[]| | |]; done || by intros h [=].
Qed.

End BatchProps.

(** ** Witnesses *)

Module ToyBatch.
Section ToyBatch.
#[local] Existing Instances Toy.toy_blake3 Toy.toy_runtime toy_bincode_operation
  ToySt.toy_bincode_balance ToySt.toy_bincode_precommitment.
Import ToyTr.

Definition toy_bincode_transition : Bincode StateTransition :=
  fun t => Some (match serialize (tr_operation t) with Some b => b | None => [] end).
Definition toy_bincode_commitment : Bincode BatchCommitment := fun c => Some (bc_commitment_hash c).
Lemma toy_transition_total : @BincodeTotal StateTransition toy_bincode_transition.
Proof. intros t. by eexists. Qed.

Definition demo_transition (op : Operation) : StateTransition :=
  mkTransition op (Some []) None EmptyString 7 [] None None None None None None default_state Genesis []
    default_state default_state.
Definition demo_transitions : list StateTransition := [demo_transition op1; demo_transition mint7].
End ToyBatch.
End ToyBatch.

(** A codec of proofs that round-trips, from the countability of its fields. *)
Module ProofCodec.

#[export] Instance u8_countable : Countable u8.
Proof. exact (inj_countable Byte.to_N Byte.of_N Byte.of_to_N). Defined.
#[export] Instance mode_eq_dec : EqDecision TransactionMode.
Proof. solve_decision. Defined.
#[export] Instance mode_countable : Countable TransactionMode.
Proof.
  by refine (inj_countable' (fun m => match m with Bilateral => true | Unilateral => false end)
    (fun b => if b : bool then Bilateral else Unilateral) _); intros [].
Defined.
#[export] Instance sparse_eq_dec : EqDecision SparseIndex.
Proof. solve_decision. Defined.
#[export] Instance sparse_countable : Countable SparseIndex.
Proof. by refine (inj_countable' indices mkSparse _); intros []. Defined.
#[export] Instance balance_eq_dec : EqDecision Balance.
Proof. solve_decision. Defined.
#[export] Instance balance_countable : Countable Balance.
Proof.
  by refine (inj_countable' (fun b => (bal_value b, bal_locked b, bal_last_updated b, bal_state_hash b))
    (fun '(a, b, c, d) => mkBalance a b c d) _); intros [].
Defined.
#[export] Instance proof_eq_dec : EqDecision MerkleProof.
Proof. solve_decision. Defined.
#[export] Instance proof_countable : Countable MerkleProof.
Proof.
  by refine (inj_countable'
    (fun p => ((p_path p, p_index p, p_leaf_hash p, p_root_hash p, p_height p, p_leaf_count p, p_device_id p),
               (p_public_key p, p_sparse_index p, p_token_balances p, p_mode p, p_root p, p_siblings p, p_data p),
               (p_proof p, p_proof_leaf_count p, p_proof_index p, p_proof_height p, p_proof_token_balances p,
                p_proof_device_id p)))
    (fun '((a1, a2, a3, a4, a5, a6, a7), (b1, b2, b3, b4, b5, b6, b7), (c1, c2, c3, c4, c5, c6)) =>
       mkProof a1 a2 a3 a4 a5 a6 a7 b1 b2 b3 b4 b5 b6 b7 c1 c2 c3 c4 c5 c6) _); intros [].
Defined.

(** One byte per binary digit. *)
Fixpoint pos_bytes (p : positive) : bytes :=
  match p with
  | xH => []
  | xO p => Byte.x00 :: pos_bytes p
  | xI p => Byte.x01 :: pos_bytes p
  end.
Fixpoint bytes_pos (b : bytes) : positive :=
  match b with
  | [] => 1
  | x :: b => if bool_decide (x = Byte.x00) then xO (bytes_pos b) else xI (bytes_pos b)
  end.
Lemma bytes_pos_bytes p : bytes_pos (pos_bytes p) = p.
Proof. induction p as [p IH|p IH|]; cbn; by rewrite ?IH. Qed.

Definition encode_proof : Bincode MerkleProof := fun p => Some (pos_bytes (encode p)).
Definition decode_proof (b : bytes) : option MerkleProof := decode (bytes_pos b).
Lemma encode_total : @BincodeTotal MerkleProof encode_proof.
Proof. intros p. by eexists. Qed.
Lemma codec_roundtrip p b : encode_proof p = Some b → decode_proof b = Some p.
Proof. intros [= <-]. unfold decode_proof. by rewrite bytes_pos_bytes, decode_encode. Qed.

End ProofCodec.

Section BatchWitnesses.
#[local] Existing Instances Toy.toy_blake3 Toy.toy_runtime toy_bincode_operation
  ToySt.toy_bincode_balance ToySt.toy_bincode_precommitment
  ToyBatch.toy_bincode_transition ToyBatch.toy_bincode_commitment ProofCodec.encode_proof.
#[local] Existing Instance ToyBatch.toy_transition_total.
Import ToyTr ToyBatch.

Lemma g0_hashed : St.get_hash g0 = Ok (hash g0) ∧ hash g0 ≠ [].
Proof. split; [|vm_compute; discriminate]. apply get_hash_cached. vm_compute. discriminate. Qed.

Lemma batch_lifecycle_witness :
  ∃ batch m', (do* BM.start_batch (Some g0); do* add_all demo_transitions; BM.finalize_batch) BM.new = (Ok batch, m') ∧
    recorded m' batch demo_transitions ∧ BM.verify_batch m' batch g0 = Ok true.
Proof.
  destruct (batch_lifecycle BM.new g0 demo_transitions (hash g0)) as (batch & m' & H1 & _ & _ & H2 & _ & _ & H3);
    [reflexivity|apply g0_hashed|apply g0_hashed|reflexivity|vm_compute; discriminate|].
  exists batch, m'. split; [exact H1|split; [exact H2|exact H3]].
Defined.

(** The same batch, built by the helper lemmas. *)
Definition demo_batch : StateBatch :=
  Batch.new 0 (hash g0) (transitions_root demo_transitions) 2 (7, 7) [] None.
Definition demo_manager_b : BatchManager :=
  mkBatchManager 1 {[0 := demo_batch]} None (Some g0) {[0 := demo_transitions]}.

Lemma demo_recorded : recorded demo_manager_b demo_batch demo_transitions.
Proof.
  unfold recorded. split; [apply lookup_singleton_eq|]. split; [apply lookup_singleton_eq|].
  split; [reflexivity|]. split; [cbn; lia|reflexivity].
Qed.

Lemma batch_membership_exact_witness :
  BM.verify_transition_in_batch demo_manager_b 0 1 (demo_transition mint7) = Ok true ∧
  BM.verify_transition_in_batch demo_manager_b 0 1 (demo_transition op1) = Ok false.
Proof.
  split.
  - etransitivity; [apply (batch_membership_exact demo_manager_b demo_batch demo_transitions 1
      (demo_transition mint7) (demo_transition mint7) demo_recorded eq_refl)|reflexivity].
  - etransitivity; [apply (batch_membership_exact demo_manager_b demo_batch demo_transitions 1
      (demo_transition mint7) (demo_transition op1) demo_recorded eq_refl)|vm_compute; reflexivity].
Defined.

Lemma batch_proof_complete_witness :
  BM.verify_with_proof ProofCodec.decode_proof demo_manager_b 0 0 (demo_transition op1) = Ok true.
Proof.
  apply (batch_proof_complete (SMP := ProofCodec.encode_proof) (TP := ProofCodec.encode_total)
    ProofCodec.decode_proof demo_manager_b demo_batch demo_transitions 0 (demo_transition op1)
    ProofCodec.codec_roundtrip demo_recorded eq_refl).
Defined.

Lemma execute_batch_chain_witness :
  ∃ l, BM.execute_batch demo_manager_b demo_batch g0 = Ok l ∧ map operation l = [op1; mint7].
Proof.
  destruct (execute_batch_chain (TO := ToySt.toy_operation_total) (TB := ToySt.toy_balance_total)
    (TP := ToySt.toy_precommitment_total) demo_manager_b demo_batch demo_transitions g0 demo_recorded)
    as (l & H1 & _ & H2); [apply g0_hashed|vm_compute; discriminate|vm_compute; reflexivity|].
  exists l. split; [exact H1|exact H2].
Defined.

(** A full builder: 65536 copies of one transition. *)
Definition full_transitions : list StateTransition := replicate (Z.to_nat 65536) (demo_transition op1).

Lemma full_length : Z.of_nat (length full_transitions) = 65536.
Proof. unfold full_transitions. rewrite length_replicate. lia. Qed.
#[local] Opaque full_transitions.

Lemma full_builder : ∃ b, builder_ok b ∧ bb_transitions b = full_transitions.
Proof.
  pose proof full_length as Hl. generalize dependent full_transitions. intros ts Hl.
  destruct (rebuild_tree "" ts) as (t & _ & Hr); [lia|].
  exists (mkBuilder 0 [] ts [] (Some t)). split; [|reflexivity]. split; [|exact Hr]. cbn. lia.
Qed.

Lemma builder_capacity_witness :
  ∃ b b', bb_transitions b = full_transitions ∧ Builder.add_transition (demo_transition op1) b =
    (Err (EInvalidOperation "Index {} exceeds tree capacity of {}"), b').
Proof.
  destruct full_builder as (b & Hb & Ht).
  destruct (builder_capacity b (demo_transition op1) Hb) as (b' & H & _); [rewrite Ht; exact full_length|].
  exists b, b'. split; [exact Ht|exact H].
Defined.

Lemma built_batch_never_verifies_witness :
  ∃ range, Builder.build (mkBuilder 0 (hash g0) [] [] None) = Ok (Batch.new 0 (hash g0) zero_hash 0 range [] None) ∧
    ((Batch.verify (hash g0) (Batch.new 0 (hash g0) zero_hash 0 range [] None)).1 ≠ Ok true ∨
     ∃ x, Batch.preimage (Batch.new 0 (hash g0) zero_hash 0 range [] None) = Ok x ∧
       (blake3 x = zero_hash ∨ ∃ y, length y = 65%nat ∧ x ≠ y ∧ blake3 x = blake3 y)).
Proof.
  exists (0, 0). split; [reflexivity|].
  apply (built_batch_never_verifies (mkBuilder 0 (hash g0) [] [] None) _ (hash g0));
    [split; [cbn; lia|reflexivity]|reflexivity|vm_compute; reflexivity].
Defined.

Lemma batch_hash_cache_coherent_witness :
  cache_ok demo_batch ∧ cache_ok (Batch.hash demo_batch).2.
Proof.
  assert (H : cache_ok demo_batch) by (intros h Hh; discriminate Hh). split; [exact H|].
  apply (batch_hash_cache_coherent demo_batch (mkBatchCommitment 0 [] [] [])
    (mkFLC [] EmptyString EmptyString [] [] None None [] 0) [] H).
Defined.

End BatchWitnesses.
