(* ===== verification/HashChain.v ===== *)
(** * The hash chain (dsm/src/core/state_machine/hashchain.rs)

    The store of states with its current state, the look-ups and the chain
    verification; the batches kept beside the chain with their status machine;
    the Merkle proof of this file.  The chain's own [sparse_checkpoints] map is
    never written by the source, and is kept here because the look-up reads it. *)
From S2P Require Import Prelude Tokens Operations SparseIdx States RandomWalk Transition Merkle Batch.

(** ** Data *)

Inductive BatchStatus :=
  | Pending
  | Finalized
  | Committed
  | Failed (msg : string).

#[global] Instance BatchStatus_eq_dec : EqDecision BatchStatus.
Proof. solve_decision. Defined.

Record BatchValidationState := mkValidation {
  validation_count : Z;
  required_validations : Z;
  validation_signatures : list bytes;
}.

Record HashChain := mkChain {
  hc_states : gmap string State;
  hc_current : option State;
  hc_checkpoints : gmap Z State;
  hc_manager : BatchManager;
  hc_batches : gmap Z StateBatch;
  hc_cached : gmap Z (list StateTransition);
  hc_next_batch_id : Z;
  hc_statuses : gmap Z BatchStatus;
  hc_validation : gmap Z BatchValidationState;
}.

(** [hashchain::MerkleProof] *)
Record ChainProof := mkChainProof {
  cp_index : Z;
  cp_siblings : list bytes;
  cp_leaf_data : bytes;
  cp_height : Z;
}.

Module ChainMerkle.
Section ChainMerkle.
Context {B3 : Blake3}.

Definition generate (tree : SparseMerkleTree) (index : Z) : outcome ChainProof :=
  siblings ← Plain.gen_siblings (Z.to_nat (smt_height tree)) index (smt_nodes tree);
  leaf_data ← ok_or (EMerkle "Leaf data not found") (smt_leaves tree !! index);
  Ok (mkChainProof index siblings leaf_data (smt_height tree)).

(** The loop over the levels; [index >> level] panics from level 64 on. *)
Fixpoint climb (computed : bytes) (index level : Z) (siblings : list bytes) : outcome bytes :=
  match siblings with
  | [] => Ok computed
  | s :: siblings =>
      if 64 <=? level then Panic
      else
        let bit := Z.land (Z.shiftr index level) 1 in
        climb (blake3 (if bit =? 0 then computed ++ s else s ++ computed)) index (level + 1) siblings
  end.

Definition verify (p : ChainProof) (root_hash : bytes) : outcome bool :=
  h ← climb (blake3 (cp_leaf_data p)) (cp_index p) 0 (cp_siblings p);
  Ok (constant_time_eq h root_hash).

End ChainMerkle.
End ChainMerkle.

(** [values().find(P)] and [values().any(P)] on the state map. *)
Definition find_state (P : State → bool) (m : gmap string State) : option State :=
  snd <$> head (filter (fun p => P p.2 = true) (map_to_list m)).
Definition any_state (P : State → bool) (m : gmap string State) : bool :=
  existsb P (map_to_list m).*2.

Module HC.
Section HC.
Context {B3 : Blake3} {RT : Runtime}.
Context {SO : Bincode Operation} {SB : Bincode Balance} {SP : Bincode PreCommitment}.
Context {ST : Bincode StateTransition}.

Definition new : HashChain := mkChain ∅ None ∅ BM.new ∅ ∅ 0 ∅ ∅.

Definition set_states (m : gmap string State) (cur : option State) (c : HashChain) : HashChain :=
  mkChain m cur (hc_checkpoints c) (hc_manager c) (hc_batches c) (hc_cached c) (hc_next_batch_id c)
    (hc_statuses c) (hc_validation c).
Definition set_manager (bm : BatchManager) (c : HashChain) : HashChain :=
  mkChain (hc_states c) (hc_current c) (hc_checkpoints c) bm (hc_batches c) (hc_cached c)
    (hc_next_batch_id c) (hc_statuses c) (hc_validation c).
Definition set_batches (b : gmap Z StateBatch) (c : HashChain) : HashChain :=
  mkChain (hc_states c) (hc_current c) (hc_checkpoints c) (hc_manager c) b (hc_cached c)
    (hc_next_batch_id c) (hc_statuses c) (hc_validation c).
Definition set_cached (m : gmap Z (list StateTransition)) (c : HashChain) : HashChain :=
  mkChain (hc_states c) (hc_current c) (hc_checkpoints c) (hc_manager c) (hc_batches c) m
    (hc_next_batch_id c) (hc_statuses c) (hc_validation c).
Definition set_next_id (n : Z) (c : HashChain) : HashChain :=
  mkChain (hc_states c) (hc_current c) (hc_checkpoints c) (hc_manager c) (hc_batches c) (hc_cached c)
    n (hc_statuses c) (hc_validation c).
Definition set_status (id : Z) (s : BatchStatus) (c : HashChain) : HashChain :=
  mkChain (hc_states c) (hc_current c) (hc_checkpoints c) (hc_manager c) (hc_batches c) (hc_cached c)
    (hc_next_batch_id c) (<[id := s]> (hc_statuses c)) (hc_validation c).
Definition set_validation (id : Z) (v : BatchValidationState) (c : HashChain) : HashChain :=
  mkChain (hc_states c) (hc_current c) (hc_checkpoints c) (hc_manager c) (hc_batches c) (hc_cached c)
    (hc_next_batch_id c) (hc_statuses c) (<[id := v]> (hc_validation c)).

(** ** States *)

(** The sparse index names the predecessor, a cached transition starts from
    it, or the index names genesis. *)
Definition index_ok (c : HashChain) (s : State) : bool :=
  let prev_num := state_number s - 1 in
  Sparse.contains (indices (sparse_index s)) prev_num ||
  existsb (fun ts => existsb (fun t => state_number (tr_previous_state t) =? prev_num) ts)
    (map_to_list (hc_cached c)).*2 ||
  Sparse.contains (indices (sparse_index s)) 0.

Definition add_state (s : State) : M HashChain unit := fun c =>
  if any_state (fun x => state_number x =? state_number s) (hc_states c) then
    (Err (EGeneric "Conflicting state_number detected. Attempted to add a state whose state_number already exists in the chain."), c)
  else if (0 <? state_number s) && negb (index_ok c s) then
    (Err (EValidation "Sparse index must include previous state reference for proper chain traversal"), c)
  else
    let cur := match hc_current c with
               | Some cur => if state_number cur <? state_number s then s else cur
               | None => s
               end in
    (Ok tt, set_states (<[st_id s := s]> (hc_states c)) (Some cur) c).

Definition get_state (c : HashChain) (id : string) : option State := hc_states c !! id.

Definition get_latest_state (c : HashChain) : outcome State :=
  ok_or (ENotFound "State" (Some "Chain is empty")) (hc_current c).

(** The walk from a checkpoint: it stops at the target or where the next id is
    missing.  Each turn moves to the state stored under the next id, so a walk
    longer than the number of stored states repeats itself forever. *)
Fixpoint walk (fuel : nat) (c : HashChain) (cur : State) (n : Z) : outcome State :=
  match fuel with
  | O => Hang
  | S fuel =>
      if state_number cur =? n then Ok cur
      else
        k ← u64_add (state_number cur) 1;
        match hc_states c !! state_id k with
        | Some next => walk fuel c next n
        | None => Err (ENotFound "State" (Some "State number {} not found"))
        end
  end.

(** The largest checkpoint number in (0, n], 0 if there is none. *)
Definition nearest_checkpoint (c : HashChain) (n : Z) : Z :=
  foldl (fun best k => if (k <=? n) && (best <? k) then k else best) 0 (map_to_list (hc_checkpoints c)).*1.

Definition get_state_by_number (c : HashChain) (n : Z) : outcome State :=
  match hc_current c with
  | None => Err (ENotFound "State" (Some "Chain is empty"))
  | Some current =>
      if state_number current <? n then Err (ENotFound "State" (Some "State number {} is out of range"))
      else
        match find_state (fun s => state_number s =? n) (hc_states c) with
        | Some s => Ok s
        | None =>
            let cp := nearest_checkpoint c n in
            if 0 <? cp then
              start ← unwrap (hc_checkpoints c !! cp);
              walk (S (S (size (hc_states c)))) c start n
            else Err (ENotFound "State" (Some "State number {} not found"))
        end
  end.

Definition get_state_by_hash (c : HashChain) (h : bytes) : outcome State :=
  ok_or (ENotFound "State" (Some "State with given hash not found"))
    (find_state (fun s => bool_decide (hash s = h)) (hc_states c)).

Definition has_state_with_hash (c : HashChain) (h : bytes) : outcome bool :=
  Ok (any_state (fun s => bool_decide (hash s = h)) (hc_states c)).

Definition verify_state_hash (s : State) : outcome bool :=
  expected ← St.compute_hash s;
  Ok (constant_time_eq expected (hash s)).

(** The [while] loop of [verify_chain], [k] states left. *)
Fixpoint verify_loop (k : nat) (states : gmap string State) (num : Z) (current_hash : bytes) : outcome bool :=
  match k with
  | O => Ok true
  | S k =>
      let num := num + 1 in
      next ← ok_or (EValidation "Chain is missing state {}") (states !! state_id num);
      if negb (bool_decide (prev_state_hash next = current_hash)) then
        Err (EValidation "Hash chain broken at state {}")
      else
        ok ← verify_state_hash next;
        if negb ok then Err (EValidation "State {} has invalid hash")
        else
          h ← St.get_hash next;
          verify_loop k states num h
  end.

Definition verify_chain (c : HashChain) : outcome bool :=
  if bool_decide (hc_states c = ∅) then Ok true
  else
    genesis ← ok_or (EValidation "Chain is missing genesis state")
                (find_state (fun s => state_number s =? 0) (hc_states c));
    ok ← verify_state_hash genesis;
    if negb ok then Err (EValidation "Genesis state hash is invalid")
    else
      h ← St.get_hash genesis;
      current ← unwrap (hc_current c);
      verify_loop (Z.to_nat (state_number current)) (hc_states c) 0 h.

(** [for num in start..=end] *)
Fixpoint extract_loop (k : nat) (c : HashChain) (num : Z) : outcome (list State) :=
  match k with
  | O => Ok []
  | S k =>
      s ← get_state_by_number c num;
      rest ← extract_loop k c (num + 1);
      Ok (s :: rest)
  end.

Definition extract_subsequence (c : HashChain) (start_num end_num : Z) : outcome (list State) :=
  if end_num <? start_num then Err (EInvalidParameter "Start number {} is greater than end number {}")
  else
    match hc_current c with
    | None => Err (ENotFound "State" (Some "Chain is empty"))
    | Some current =>
        if state_number current <? end_num then Err (ENotFound "State" (Some "State number {} is out of range"))
        else extract_loop (Z.to_nat (end_num - start_num + 1)) c start_num
    end.

(** The powers of two up to the current number; 65 turns reach the shift that
    panics. *)
Fixpoint checkpoint_loop (fuel : nat) (c : HashChain) (current_num power checkpoint : Z)
    (acc : gmap Z bytes) : outcome (gmap Z bytes) :=
  match fuel with
  | O => Hang
  | S fuel =>
      if checkpoint <=? current_num then
        acc ← (match get_state_by_number c (current_num - checkpoint) with
               | Ok s => h ← St.get_hash s; Ok (<[checkpoint := h]> acc)
               | Err _ => Ok acc
               | Panic => Panic
               | Hang => Hang
               end);
        next ← u64_shl1 (power + 1);
        checkpoint_loop fuel c current_num (power + 1) next acc
      else Ok acc
  end.

Definition calculate_sparse_checkpoints (c : HashChain) : outcome (gmap Z bytes) :=
  match hc_current c with
  | Some current => checkpoint_loop 65 c (state_number current) 0 1 ∅
  | None => Ok ∅
  end.

Definition verify_state (c : HashChain) (s : State) : outcome bool :=
  ok ← verify_state_hash s;
  if negb ok then Ok false
  else if state_number s =? 0 then Ok true
  else
    match get_state_by_number c (state_number s - 1) with
    | Ok prev => h ← St.get_hash prev; Ok (constant_time_eq (prev_state_hash s) h)
    | Err _ => Err (EVerification "Cannot verify state {} - previous state not found")
    | Panic => Panic
    | Hang => Hang
    end.

(** ** Batches *)

Definition create_batch : M HashChain Z := fun c =>
  let batch_id := hc_next_batch_id c in
  match u64_add batch_id 1 with
  | Ok next =>
      let prev_hash := match hc_current c with Some s => hash s | None => zeros 32 end in
      let batch := mkBatch batch_id prev_hash (zeros 32) 0 (now, now) [] None None [] in
      let c := set_status batch_id Pending
                 (set_batches (<[batch_id := batch]> (hc_batches c)) (set_next_id next c)) in
      match BM.start_batch (hc_current c) (hc_manager c) with
      | (Ok _, bm) => (Ok batch_id, set_manager bm c)
      | (Err e, bm) => (Err e, set_manager bm c)
      | (Panic, bm) => (Panic, set_manager bm c)
      | (Hang, bm) => (Hang, set_manager bm c)
      end
  | _ => (Panic, c)
  end.

Definition get_batch_status (c : HashChain) (id : Z) : outcome BatchStatus :=
  ok_or (ENotFound "BatchStatus" (Some "Batch {} not found")) (hc_statuses c !! id).

Definition get_batch (c : HashChain) (id : Z) : outcome StateBatch :=
  ok_or (ENotFound "Batch" (Some "Batch number {} not found")) (hc_batches c !! id).

Definition bump_batch (count : Z) (b : StateBatch) : StateBatch :=
  mkBatch (b_batch_number b) (b_prev_state_hash b) (b_transitions_root b) count
    (b_time_range b) (b_commitments b) (b_forward_commitment b) (b_cached_hash b)
    (b_transition_indices b ++ [b_transition_count b]).

Definition add_transition_to_batch (id : Z) (t : StateTransition) : M HashChain Z := fun c =>
  match hc_statuses c !! id with
  | None => (Err (ENotFound "Batch" (Some "Batch ID {} not found")), c)
  | Some Pending =>
      match hc_batches c !! id with
      | None => (Panic, c)
      | Some batch =>
          let index := b_transition_count batch in
          let c := set_cached (<[id := unwrap_or [] (hc_cached c !! id) ++ [t]]> (hc_cached c)) c in
          match u64_add (b_transition_count batch) 1 with
          | Ok count =>
              let c := set_batches (<[id := bump_batch count batch]> (hc_batches c)) c in
              match BM.add_transition t (hc_manager c) with
              | (Ok _, bm) => (Ok index, set_manager bm c)
              | (Err e, bm) => (Err e, set_manager bm c)
              | (Panic, bm) => (Panic, set_manager bm c)
              | (Hang, bm) => (Hang, set_manager bm c)
              end
          | _ => (Panic, c)
          end
      end
  | Some _ => (Err (EValidation "Cannot add transition to a batch that is not in Pending state: {:?}"), c)
  end.

(** The leaves [idx ↦ blake3(serialize(transition))] of both tree builders. *)
Fixpoint hashed_leaves (idx : Z) (ts : list StateTransition) (leaves : gmap Z bytes) : outcome (gmap Z bytes) :=
  match ts with
  | [] => Ok leaves
  | t :: ts =>
      x ← serialize_or "Failed to serialize transition for tree" t;
      hashed_leaves (idx + 1) ts (<[idx := blake3 x]> leaves)
  end.

Definition with_computed_root (tree : SparseMerkleTree) : outcome SparseMerkleTree :=
  root ← Plain.compute_root tree;
  Ok (mkSMT root (smt_leaves tree) (smt_nodes tree) (smt_height tree) (smt_leaf_count tree)).

Definition reconstruct_merkle_tree (ts : list StateTransition) (height : Z) : outcome SparseMerkleTree :=
  leaves ← hashed_leaves 0 ts ∅;
  with_computed_root (mkSMT zero_hash leaves ∅ height 0).

Definition compute_batch_merkle_root (c : HashChain) (id : Z) : outcome bytes :=
  ts ← ok_or (ENotFound "BatchTransitions" (Some "No cached transitions for batch {}")) (hc_cached c !! id);
  if bool_decide (length ts = 0%nat) then Ok (zeros 32)
  else
    tree ← reconstruct_merkle_tree ts (ceil_log2 (Z.of_nat (length ts)));
    _ ← Plain.compute_root tree;
    Ok (smt_root tree).

Definition set_batch_root (root : bytes) (b : StateBatch) : StateBatch :=
  mkBatch (b_batch_number b) (b_prev_state_hash b) root (b_transition_count b)
    (b_time_range b) (b_commitments b) (b_forward_commitment b) (b_cached_hash b) (b_transition_indices b).

Definition finalize_batch (id : Z) : M HashChain unit := fun c =>
  match hc_statuses c !! id with
  | Some Pending =>
      let ts := unwrap_or [] (hc_cached c !! id) in
      let root := if bool_decide (length ts = 0%nat) then Ok (zeros 32)
                  else tree ← reconstruct_merkle_tree ts (ceil_log2 (Z.of_nat (length ts))); Ok (smt_root tree) in
      match root with
      | Ok root => (Ok tt, set_status id Finalized (set_batches (alter (set_batch_root root) id (hc_batches c)) c))
      | Err e => (Err e, c)
      | Panic => (Panic, c)
      | Hang => (Hang, c)
      end
  | Some _ => (Err (EInvalidOperation "Cannot finalize a batch that is not in Pending state: {:?}"), c)
  | None => (Err (ENotFound "Batch" (Some "Batch {} not found")), c)
  end.

Definition transition_batch_state (id : Z) (new_status : BatchStatus) : M HashChain unit := fun c =>
  match get_batch_status c id with
  | Ok current =>
      match current, new_status with
      | Pending, Finalized | Finalized, Committed => (Ok tt, set_status id new_status c)
      | _, _ => (Err (EInvalidOperation "Invalid batch state transition from {:?} to {:?}"), c)
      end
  | Err e => (Err e, c)
  | Panic => (Panic, c)
  | Hang => (Hang, c)
  end.

(** The loop of [commit_batch]. *)
Fixpoint apply_transitions (ts : list StateTransition) (s : State) : M HashChain unit :=
  match ts with
  | [] => mret_st tt
  | t :: ts =>
      let* s := mlift (Tr.create_next_state s (tr_operation t) (unwrap_or [] (tr_new_entropy t)) LV_Standard false) in
      do* add_state s;
      apply_transitions ts s
  end.

Definition commit_batch (id : Z) : M HashChain unit :=
  do* transition_batch_state id Committed;
  let* c := mget in
  let* ts := mlift (ok_or (ENotFound "BatchTransitions" (Some "No cached transitions for batch {}")) (hc_cached c !! id)) in
  let* cur := mlift (get_latest_state c) in
  apply_transitions ts cur.

Definition validate_batch (id : Z) (sig : bytes) : M HashChain unit := fun c =>
  match get_batch_status c id with
  | Ok Finalized =>
      let v := unwrap_or (mkValidation 0 2 []) (hc_validation c !! id) in
      let v := mkValidation (validation_count v + 1) (required_validations v) (validation_signatures v ++ [sig]) in
      let c := set_validation id v c in
      if required_validations v <=? validation_count v then commit_batch id c else (Ok tt, c)
  | Ok _ => (Err (EValidation "Cannot validate batch that is not Finalized: {:?}"), c)
  | Err e => (Err e, c)
  | Panic => (Panic, c)
  | Hang => (Hang, c)
  end.

End HC.
End HC.

(** ** Look-ups *)

Lemma find_state_Some P m s : find_state P m = Some s → P s = true ∧ ∃ id, m !! id = Some s.
Proof.
  unfold find_state. intros H. destruct (head _) as [[id x]|] eqn:E; [|done]. injection H as <-.
  apply head_Some_elem_of, list_elem_of_filter in E as [HP Hin]. apply elem_of_map_to_list in Hin. eauto.
Qed.

Lemma find_state_None P m : find_state P m = None ↔ ∀ id s, m !! id = Some s → P s = false.
Proof.
  unfold find_state. split.
  - intros H id s Hs. apply not_true_is_false. intros HP.
    destruct (filter (fun p : string * State => P p.2 = true) (map_to_list m)) as [|p l] eqn:E; [|done].
    assert (Hin : (id, s) ∈ filter (fun p : string * State => P p.2 = true) (map_to_list m))
      by (apply list_elem_of_filter; split; [done|by apply elem_of_map_to_list]).
    rewrite E in Hin. by apply elem_of_nil in Hin.
  - intros H. destruct (find_state P m) as [s|] eqn:E; [|exact E].
    apply find_state_Some in E as [HP (id & Hs)]. by rewrite (H id s Hs) in HP.
Qed.

Lemma any_state_find P m : any_state P m = match find_state P m with Some _ => true | None => false end.
Proof.
  unfold any_state. apply eq_iff_eq_true. rewrite existsb_exists. split.
  - intros (s & Hin & HP). destruct (find_state P m) eqn:E; [done|].
    apply list_elem_of_In, list_elem_of_fmap in Hin as ([id x] & -> & Hin). apply elem_of_map_to_list in Hin.
    cbn in HP. rewrite (proj1 (find_state_None P m) E id x Hin) in HP. done.
  - destruct (find_state P m) as [s|] eqn:E; [|done]. apply find_state_Some in E as [HP (id & Hs)].
    exists s. split; [|done]. apply list_elem_of_In, list_elem_of_fmap. exists (id, s). split; [done|].
    by apply elem_of_map_to_list.
Qed.

Lemma any_state_false P m : any_state P m = false ↔ ∀ id s, m !! id = Some s → P s = false.
Proof. rewrite any_state_find, <- find_state_None. by destruct (find_state P m). Qed.

(** ** Well-formed chains *)

(** Numbers identify states, states are stored under their id, and the current
    state has the largest number. *)
Record chain_wf (c : HashChain) : Prop := {
  wf_key : ∀ id s, hc_states c !! id = Some s → st_id s = id;
  wf_number : ∀ id id' s s', hc_states c !! id = Some s → hc_states c !! id' = Some s' →
              state_number s = state_number s' → id = id';
  wf_current : match hc_current c with
               | Some cur => ∀ id s, hc_states c !! id = Some s → state_number s ≤ state_number cur
               | None => hc_states c = ∅
               end;
}.

(** Every batch has a status, its cached transitions are counted, and its id
    has been handed out. *)
Record batches_wf (c : HashChain) : Prop := {
  wf_status : ∀ id, is_Some (hc_statuses c !! id) ↔ is_Some (hc_batches c !! id);
  wf_next : ∀ id, is_Some (hc_batches c !! id) → 0 ≤ id < hc_next_batch_id c;
  wf_next_pos : 0 ≤ hc_next_batch_id c;
  wf_cached : ∀ id, is_Some (hc_cached c !! id) → is_Some (hc_batches c !! id);
  wf_count : ∀ id b, hc_batches c !! id = Some b →
             b_transition_count b = Z.of_nat (length (unwrap_or [] (hc_cached c !! id)));
}.

Section ChainFacts.
Context {B3 : Blake3} {RT : Runtime}.
Context {SO : Bincode Operation} {SB : Bincode Balance} {SP : Bincode PreCommitment}.
Context {ST : Bincode StateTransition}.

(** The call returned a value or an error. *)
Definition returns {A} (o : outcome A) : bool :=
  match o with Ok _ | Err _ => true | _ => false end.

(** One call of a method that takes [&mut self] and returns. *)
Inductive hc_step : HashChain → HashChain → Prop :=
  | step_add_state s c : returns (HC.add_state s c).1 = true → hc_step c (HC.add_state s c).2
  | step_create_batch c : returns (HC.create_batch c).1 = true → hc_step c (HC.create_batch c).2
  | step_add_transition id t c :
      returns (HC.add_transition_to_batch id t c).1 = true → hc_step c (HC.add_transition_to_batch id t c).2
  | step_finalize id c : returns (HC.finalize_batch id c).1 = true → hc_step c (HC.finalize_batch id c).2
  | step_commit id c : returns (HC.commit_batch id c).1 = true → hc_step c (HC.commit_batch id c).2
  | step_validate id sig c : returns (HC.validate_batch id sig c).1 = true → hc_step c (HC.validate_batch id sig c).2.

Definition reachable (c : HashChain) : Prop := rtc hc_step HC.new c.

Lemma add_state_wf s c : chain_wf c → chain_wf (HC.add_state s c).2.
Proof.
  intros [Hk Hn Hc]. unfold HC.add_state. destruct (any_state _ _) eqn:Ea; [done|].
  destruct (_ && _); [done|]. pose proof (proj1 (any_state_false _ _) Ea) as Ha. cbn.
  assert (Hne : ∀ id x, hc_states c !! id = Some x → state_number x ≠ state_number s).
  { intros id x Hx. specialize (Ha id x Hx). by apply Z.eqb_neq in Ha. }
  constructor; cbn.
  - intros id x [[<- <-]|[_ Hx]]%lookup_insert_Some; [done|by apply Hk].
  - intros id id' x x' [[<- <-]|[_ Hx]]%lookup_insert_Some [[<- <-]|[_ Hx']]%lookup_insert_Some E; try done.
    + by destruct (Hne _ _ Hx').
    + by destruct (Hne _ _ Hx).
    + by eapply Hn.
  - intros id x Hx. apply lookup_insert_Some in Hx as [[<- <-]|[_ Hx]]; destruct (hc_current c) as [cur|].
    + case_test; zbool; lia.
    + lia.
    + specialize (Hc id x Hx). case_test; zbool; lia.
    + rewrite Hc in Hx. by rewrite lookup_empty in Hx.
Qed.

(** What [add_state] and the loop of [commit_batch] leave alone. *)
Definition same_batches (c c' : HashChain) : Prop :=
  hc_batches c' = hc_batches c ∧ hc_cached c' = hc_cached c ∧ hc_next_batch_id c' = hc_next_batch_id c ∧
  hc_statuses c' = hc_statuses c ∧ hc_manager c' = hc_manager c.

Lemma add_state_same s c : same_batches c (HC.add_state s c).2.
Proof. unfold HC.add_state. by repeat case_match. Qed.

Lemma same_batches_trans c1 c2 c3 : same_batches c1 c2 → same_batches c2 c3 → same_batches c1 c3.
Proof. unfold same_batches. intuition congruence. Qed.

Lemma apply_transitions_inv ts : ∀ s c, chain_wf c →
  chain_wf (HC.apply_transitions ts s c).2 ∧ same_batches c (HC.apply_transitions ts s c).2.
Proof.
  induction ts as [|t ts IH]; intros s c Hc; cbn [HC.apply_transitions]; [done|].
  unfold mbind_st, mlift. destruct (Tr.create_next_state _ _ _ _ _) as [s'| | |]; try done.
  pose proof (add_state_wf s' c Hc) as Hc'. pose proof (add_state_same s' c) as Hs.
  destruct (HC.add_state s' c) as [[[]| | |] c']; try done. cbn in Hc', Hs.
  destruct (IH s' c' Hc') as [H1 H2]. split; [done|by eapply same_batches_trans].
Qed.

Lemma batches_wf_same c c' : same_batches c c' → batches_wf c → batches_wf c'.
Proof.
  intros (H1 & H2 & H3 & H4 & _) [W1 W2 W3 W4 W5].
  constructor; rewrite ?H1, ?H2, ?H3, ?H4; done.
Qed.

Lemma set_status_wf id st c :
  is_Some (hc_statuses c !! id) → batches_wf c → batches_wf (HC.set_status id st c).
Proof.
  intros Hid [W1 W2 W3 W4 W5]. constructor; cbn; try done. intros j. rewrite <- W1.
  destruct (decide (j = id)) as [->|]; [by rewrite lookup_insert_eq|by rewrite lookup_insert_ne].
Qed.

Lemma set_status_chain id st c : chain_wf c → chain_wf (HC.set_status id st c).
Proof. intros []. by constructor. Qed.

Lemma commit_eq id c :
  HC.commit_batch id c =
  match hc_statuses c !! id with
  | Some Finalized =>
      let c1 := HC.set_status id Committed c in
      match hc_cached c !! id, hc_current c with
      | Some ts, Some cur => HC.apply_transitions ts cur c1
      | Some _, None => (Err (ENotFound "State" (Some "Chain is empty")), c1)
      | None, _ => (Err (ENotFound "BatchTransitions" (Some "No cached transitions for batch {}")), c1)
      end
  | Some _ => (Err (EInvalidOperation "Invalid batch state transition from {:?} to {:?}"), c)
  | None => (Err (ENotFound "BatchStatus" (Some "Batch {} not found")), c)
  end.
Proof.
  unfold HC.commit_batch, mbind_st, HC.transition_batch_state, HC.get_batch_status.
  destruct (hc_statuses c !! id) as [[]|]; try reflexivity. cbn.
  destruct (hc_cached c !! id); [|reflexivity]. cbn. unfold HC.get_latest_state. cbn.
  by destruct (hc_current c).
Qed.

Lemma commit_cases id c :
  (HC.commit_batch id c).2 = c ∨
  (hc_statuses c !! id = Some Finalized ∧
   let c1 := HC.set_status id Committed c in
   ((HC.commit_batch id c).2 = c1 ∨
    ∃ ts cur, (HC.commit_batch id c).2 = (HC.apply_transitions ts cur c1).2)).
Proof.
  rewrite commit_eq. destruct (hc_statuses c !! id) as [[]|]; try (by left). right. split; [done|]. cbn zeta.
  destruct (hc_cached c !! id), (hc_current c); eauto.
Qed.

Lemma commit_wf id c :
  chain_wf c ∧ batches_wf c → chain_wf (HC.commit_batch id c).2 ∧ batches_wf (HC.commit_batch id c).2.
Proof.
  intros [Hc Hb]. destruct (commit_cases id c) as [->|(Hs & H)]; [done|].
  assert (Hb1 : batches_wf (HC.set_status id Committed c)) by (apply set_status_wf; [by rewrite Hs|done]).
  pose proof (set_status_chain id Committed c Hc) as Hc1.
  destruct H as [->|(ts & cur & ->)]; [done|].
  destruct (apply_transitions_inv ts cur _ Hc1) as [H1 H2]. split; [done|]. by eapply batches_wf_same.
Qed.

Lemma create_cases c :
  HC.create_batch c = (Panic, c) ∨
  ∃ o bm, (o, bm) = BM.start_batch (hc_current c) (hc_manager c) ∧ hc_next_batch_id c + 1 ≤ u64_max ∧
    let id := hc_next_batch_id c in
    let c1 := HC.set_status id Pending
      (HC.set_batches (<[id := mkBatch id (match hc_current c with Some s => hash s | None => zeros 32 end)
                                 (zeros 32) 0 (now, now) [] None None []]> (hc_batches c))
         (HC.set_next_id (id + 1) c)) in
    HC.create_batch c = (match o with Ok _ => Ok id | Err e => Err e | Panic => Panic | Hang => Hang end, HC.set_manager bm c1).
Proof.
  unfold HC.create_batch, u64_add. destruct (Z.leb_spec (hc_next_batch_id c + 1) u64_max) as [Hle|]; [|by left].
  right. cbn [hc_current HC.set_status HC.set_batches HC.set_next_id hc_manager].
  destruct (BM.start_batch (hc_current c) (hc_manager c)) as [o bm]. exists o, bm. split; [done|]. split; [done|].
  by destruct o.
Qed.

Lemma create_wf c : chain_wf c ∧ batches_wf c → chain_wf (HC.create_batch c).2 ∧ batches_wf (HC.create_batch c).2.
Proof.
  intros [[Hk Hn Hc] [W1 W2 W3 W4 W5]]. destruct (create_cases c) as [->|(o & bm & _ & _ & E)]; [done|].
  cbn zeta in E. rewrite E. clear E. split; [done|].
  set (n := hc_next_batch_id c) in *. assert (Hfresh : hc_batches c !! n = None).
  { destruct (hc_batches c !! n) eqn:E; [|done]. specialize (W2 n). rewrite E in W2. destruct W2; [done|lia]. }
  constructor; cbn.
  - intros id. destruct (decide (id = n)) as [->|]; [by rewrite !lookup_insert_eq|by rewrite !lookup_insert_ne].
  - intros id. destruct (decide (id = n)) as [->|]; [intros _; lia|]. rewrite lookup_insert_ne by done.
    intros H. apply W2 in H. fold n in H. lia.
  - lia.
  - intros id H. apply W4 in H. destruct (decide (id = n)) as [->|]; [by rewrite lookup_insert_eq|by rewrite lookup_insert_ne].
  - intros id b [[<- <-]|[_ Hb]]%lookup_insert_Some; [|by apply W5]. cbn.
    destruct (hc_cached c !! n) eqn:E; [|done]. specialize (W4 n). rewrite E, Hfresh in W4. by destruct W4.
Qed.

Lemma add_transition_cases id t c :
  (HC.add_transition_to_batch id t c).2 = c ∨
  ∃ b, hc_statuses c !! id = Some Pending ∧ hc_batches c !! id = Some b ∧
  let c1 := HC.set_cached (<[id := unwrap_or [] (hc_cached c !! id) ++ [t]]> (hc_cached c)) c in
  (u64_max < b_transition_count b + 1 ∧ HC.add_transition_to_batch id t c = (Panic, c1)) ∨
  ∃ o bm, (o, bm) = BM.add_transition t (hc_manager c) ∧ HC.add_transition_to_batch id t c =
    (match o with Ok _ => Ok (b_transition_count b) | Err e => Err e | Panic => Panic | Hang => Hang end,
     HC.set_manager bm
     (HC.set_batches (<[id := HC.bump_batch (b_transition_count b + 1) b]> (hc_batches c)) c1)).
Proof.
  unfold HC.add_transition_to_batch. destruct (hc_statuses c !! id) as [[]|]; try (by left).
  destruct (hc_batches c !! id) as [b|] eqn:Eb; [|by left]. right. exists b. split; [done|]. split; [done|]. cbn zeta.
  unfold u64_add. destruct (Z.leb_spec (b_transition_count b + 1) u64_max); [right|by left].
  cbn [hc_manager HC.set_batches HC.set_cached hc_batches].
  destruct (BM.add_transition t (hc_manager c)) as [o bm]. exists o, bm. split; [done|]. by destruct o.
Qed.

(** Counting a batch's new transition with its cache keeps the invariant. *)
Lemma bump_wf id t b count bm c :
  batches_wf c → hc_batches c !! id = Some b → count = b_transition_count b + 1 →
  batches_wf (HC.set_manager bm (HC.set_batches (<[id := HC.bump_batch count b]> (hc_batches c))
    (HC.set_cached (<[id := unwrap_or [] (hc_cached c !! id) ++ [t]]> (hc_cached c)) c))).
Proof.
  intros [W1 W2 W3 W4 W5] Hb ->.
  assert (Hd : ∀ j x, is_Some (<[id := x]> (hc_batches c) !! j) ↔ is_Some (hc_batches c !! j)).
  { intros j x. destruct (decide (j = id)) as [->|]; [by rewrite lookup_insert_eq, Hb|by rewrite lookup_insert_ne]. }
  constructor; cbn; try done.
  - intros j. by rewrite Hd.
  - intros j. rewrite Hd. apply W2.
  - intros j H. rewrite Hd. destruct (decide (j = id)) as [->|]; [by rewrite Hb|].
    rewrite lookup_insert_ne in H by done. by apply W4.
  - intros j x [[<- <-]|[Hne Hx]]%lookup_insert_Some.
    + rewrite lookup_insert_eq. cbn. rewrite length_app. cbn. rewrite (W5 _ _ Hb). lia.
    + rewrite lookup_insert_ne by done. by apply W5.
Qed.

Lemma finalize_cases id c :
  (HC.finalize_batch id c).2 = c ∨
  ∃ root, hc_statuses c !! id = Some Pending ∧
    (HC.finalize_batch id c).2 =
    HC.set_status id Finalized (HC.set_batches (alter (HC.set_batch_root root) id (hc_batches c)) c).
Proof.
  unfold HC.finalize_batch. destruct (hc_statuses c !! id) as [[]|] eqn:Es; try (by left).
  match goal with |- context [match ?r with Ok _ => _ | _ => _ end] => destruct r as [root| | |] end; try (by left).
  right. by exists root.
Qed.

Lemma finalize_wf id c :
  chain_wf c ∧ batches_wf c → chain_wf (HC.finalize_batch id c).2 ∧ batches_wf (HC.finalize_batch id c).2.
Proof.
  intros [Hc Hb]. destruct (finalize_cases id c) as [->|(root & Hs & ->)]; [done|]. split; [by destruct Hc|].
  apply set_status_wf; [cbn; by rewrite Hs|]. destruct Hb as [W1 W2 W3 W4 W5].
  assert (Hd : ∀ j, is_Some (alter (HC.set_batch_root root) id (hc_batches c) !! j) ↔ is_Some (hc_batches c !! j)).
  { intros j. destruct (decide (j = id)) as [->|]; [by rewrite lookup_alter_eq, fmap_is_Some|by rewrite lookup_alter_ne]. }
  constructor; cbn; try done.
  - intros j. by rewrite Hd.
  - intros j. rewrite Hd. apply W2.
  - intros j H. rewrite Hd. by apply W4.
  - intros j x Hx. destruct (decide (j = id)) as [->|]; [|rewrite lookup_alter_ne in Hx by done; by apply W5].
    rewrite lookup_alter_eq in Hx. apply fmap_Some in Hx as (y & Hy & ->). cbn. by apply W5.
Qed.

Lemma validate_cases id sig c :
  (HC.validate_batch id sig c).2 = c ∨
  ∃ v, hc_statuses c !! id = Some Finalized ∧ let c1 := HC.set_validation id v c in
    ((HC.validate_batch id sig c).2 = c1 ∨ (HC.validate_batch id sig c).2 = (HC.commit_batch id c1).2).
Proof.
  unfold HC.validate_batch, HC.get_batch_status. destruct (hc_statuses c !! id) as [[]|]; try (by left).
  right. cbn [ok_or]. eexists. split; [done|]. cbn zeta. destruct (_ <=? _); [by right|by left].
Qed.

Lemma set_validation_wf id v c : chain_wf c ∧ batches_wf c →
  chain_wf (HC.set_validation id v c) ∧ batches_wf (HC.set_validation id v c).
Proof. intros [[] []]. split; by constructor. Qed.

Lemma step_wf c c' : hc_step c c' → chain_wf c ∧ batches_wf c → chain_wf c' ∧ batches_wf c'.
Proof.
  intros [s c1 _|c1 _|id t c1 Hret|id c1 _|id c1 _|id sig c1 _] Hw.
  - destruct Hw. split; [by apply add_state_wf|]. eapply batches_wf_same; [apply add_state_same|done].
  - by apply create_wf.
  - destruct Hw as [Hc Hb]. destruct (add_transition_cases id t c1) as [->|(b & _ & Hbt & [[_ E]|(o & bm & _ & E)])];
      [done|by rewrite E in Hret|rewrite E]. split; [by destruct Hc|by apply bump_wf].
  - by apply finalize_wf.
  - by apply commit_wf.
  - destruct (validate_cases id sig c1) as [->|(v & _ & [->| ->])]; [done|by apply set_validation_wf|].
    by apply commit_wf, set_validation_wf.
Qed.

Lemma steps_wf c c' : rtc hc_step c c' → chain_wf c ∧ batches_wf c → chain_wf c' ∧ batches_wf c'.
Proof. induction 1 as [|x y z Hs _ IH]; [done|]. intros Hw. apply IH. by eapply step_wf. Qed.

Lemma new_wf : chain_wf HC.new ∧ batches_wf HC.new.
Proof.
  split; constructor; cbn; try done; intros *; rewrite ?lookup_empty; try done; by intros [].
Qed.

(** ** The status machine *)

(** The moves of one call. *)
Inductive status_move : option BatchStatus → option BatchStatus → Prop :=
  | stay o : status_move o o
  | opened : status_move None (Some Pending)
  | finalized : status_move (Some Pending) (Some Finalized)
  | committed : status_move (Some Finalized) (Some Committed).

Definition status_moves (c c' : HashChain) : Prop :=
  ∀ id, status_move (hc_statuses c !! id) (hc_statuses c' !! id).

Lemma set_status_moves id st c :
  status_move (hc_statuses c !! id) (Some st) → status_moves c (HC.set_status id st c).
Proof.
  intros H j. cbn. destruct (decide (j = id)) as [->|]; [by rewrite lookup_insert_eq|].
  rewrite lookup_insert_ne by done. constructor.
Qed.

Lemma commit_moves id c : chain_wf c → status_moves c (HC.commit_batch id c).2.
Proof.
  intros Hw. destruct (commit_cases id c) as [->|(Hs & H)]; [intros j; constructor|].
  assert (Hm : status_moves c (HC.set_status id Committed c)) by (apply set_status_moves; rewrite Hs; constructor).
  destruct H as [->|(ts & cur & ->)]; [done|]. intros j.
  destruct (apply_transitions_inv ts cur _ (set_status_chain id Committed c Hw)) as (_ & _ & _ & _ & -> & _). apply Hm.
Qed.

Lemma step_moves c c' : chain_wf c ∧ batches_wf c → hc_step c c' → status_moves c c'.
Proof.
  intros Hw Hstep. revert Hw. destruct Hstep as [s c1 _|c1 _|id t c1 _|id c1 _|id c1 _|id sig c1 _]; intros [Hc Hb].
  - intros j. destruct (add_state_same s c1) as (_ & _ & _ & -> & _). constructor.
  - destruct (create_cases c1) as [->|(o & bm & _ & _ & ->)]; [intros j; constructor|]. intros j. cbn.
    destruct (decide (j = hc_next_batch_id c1)) as [->|]; [|rewrite lookup_insert_ne by done; constructor].
    rewrite lookup_insert_eq. destruct (hc_statuses c1 !! hc_next_batch_id c1) eqn:E; [|constructor].
    destruct Hb as [W1 W2 _ _ _]. specialize (W1 (hc_next_batch_id c1)). rewrite E in W1.
    destruct (W2 (hc_next_batch_id c1)); [by apply W1|lia].
  - destruct (add_transition_cases id t c1) as [->|(b & _ & _ & [[_ ->]|(o & bm & _ & ->)])]; intros j; constructor.
  - destruct (finalize_cases id c1) as [->|(root & Hs & ->)]; [intros j; constructor|].
    apply (set_status_moves id Finalized (HC.set_batches (alter (HC.set_batch_root root) id (hc_batches c1)) c1)).
    cbn. rewrite Hs. constructor.
  - by apply commit_moves.
  - destruct (validate_cases id sig c1) as [->|(v & _ & [->| ->])]; [intros j; constructor..|].
    apply (commit_moves id (HC.set_validation id v c1)). by destruct (set_validation_wf id v c1 (conj Hc Hb)).
Qed.

(** ** The builder of the batch manager is never released *)

Lemma bm_add_active t m : is_Some (bm_active_batch m) → is_Some (bm_active_batch (BM.add_transition t m).2).
Proof.
  intros [b Hb]. unfold BM.add_transition, BM.add_to_active. rewrite Hb.
  destruct (Builder.add_transition t b) as [o b']. by eexists.
Qed.

Lemma bm_start_active p m : is_Some (bm_active_batch m) →
  BM.start_batch p m = (Err (batch_error "Batch already in progress"), m).
Proof. intros [b Hb]. unfold BM.start_batch. by rewrite Hb. Qed.

Lemma step_active c c' : chain_wf c → hc_step c c' →
  is_Some (bm_active_batch (hc_manager c)) → is_Some (bm_active_batch (hc_manager c')).
Proof.
  intros Hw Hstep. revert Hw. destruct Hstep as [s c1 _|c1 _|id t c1 _|id c1 _|id c1 _|id sig c1 _]; intros Hc Ha.
  - by destruct (add_state_same s c1) as (_ & _ & _ & _ & ->).
  - destruct (create_cases c1) as [->|(o & bm & Hs & _ & ->)]; [done|]. cbn.
    rewrite bm_start_active in Hs by done. by injection Hs as -> ->.
  - destruct (add_transition_cases id t c1) as [->|(b & _ & _ & [[_ ->]|(o & bm & Hs & ->)])]; [done..|].
    cbn. change bm with (o, bm).2. rewrite Hs. by apply bm_add_active.
  - by destruct (finalize_cases id c1) as [->|(root & Hs & ->)].
  - destruct (commit_cases id c1) as [->|(Hs & [->|(ts & cur & ->)])]; [done..|].
    by destruct (apply_transitions_inv ts cur _ (set_status_chain id Committed c1 Hc)) as (_ & _ & _ & _ & _ & ->).
  - destruct (validate_cases id sig c1) as [->|(v & _ & [->| ->])]; [done..|].
    assert (Hc' : chain_wf (HC.set_validation id v c1)) by (destruct Hc; by constructor).
    destruct (commit_cases id (HC.set_validation id v c1)) as [->|(Hs & [->|(ts & cur & ->)])]; [done..|].
    by destruct (apply_transitions_inv ts cur _ (set_status_chain id Committed _ Hc')) as (_ & _ & _ & _ & _ & ->).
Qed.

End ChainFacts.

(** ** Canonical chains

    A chain as the machine grows it: a genesis state followed by linked states,
    stored under their canonical ids. *)

Definition id_ok (s : State) : Prop :=
  st_id s = state_id (state_number s) ∨ state_number s = 0 ∧ st_id s = "genesis"%string.
Definition chain_map (l : list State) : gmap string State := list_to_map ((fun s => (st_id s, s)) <$> l).

Lemma state_id_inj a b : state_id a = state_id b → a = b.
Proof. unfold state_id. intros H. apply (inj (String.append "state_")) in H. by apply (inj pretty) in H. Qed.

Lemma id_ok_inj s s' : id_ok s → id_ok s' → st_id s = st_id s' → state_number s = state_number s'.
Proof.
  intros [-> |[Hn ->]] [-> |[Hn' ->]] E; [by apply state_id_inj|discriminate E|discriminate E|congruence].
Qed.

Section Canonical.
Context {B3 : Blake3} {RT : Runtime}.
Context {SO : Bincode Operation} {SB : Bincode Balance} {SP : Bincode PreCommitment}.
Context {ST : Bincode StateTransition}.

Record canonical (g : State) (l : list State) (c : HashChain) : Prop := {
  cn_genesis : state_number g = 0;
  cn_hash : St.compute_hash g = Ok (hash g);
  cn_linked : linked g l;
  cn_ids : Forall id_ok (g :: l);
  cn_states : hc_states c = chain_map (g :: l);
  cn_current : hc_current c = last (g :: l);
}.

Lemma linked_number l : ∀ p i s, linked p l → (p :: l) !! i = Some s → state_number s = state_number p + Z.of_nat i.
Proof.
  induction l as [|q l IH]; intros p [|i] s Hl Hi; cbn in Hi.
  - injection Hi as ->. lia.
  - by destruct i.
  - injection Hi as ->. lia.
  - destruct Hl as (Hn & _ & _ & Hl). rewrite (IH q i s Hl Hi), Hn. lia.
Qed.

Lemma linked_snoc l : ∀ p q s, linked p l → last (p :: l) = Some q →
  state_number s = state_number q + 1 → St.get_hash q = Ok (prev_state_hash s) → St.compute_hash s = Ok (hash s) →
  linked p (l ++ [s]).
Proof.
  induction l as [|x l IH]; intros p q s Hl Hq Hn Hp Hh.
  - injection Hq as ->. cbn. by split_and!.
  - destruct Hl as (H1 & H2 & H3 & Hl). cbn [app linked]. split_and!; [done..|]. by eapply IH.
Qed.

Lemma linked_ids_NoDup p l : linked p l → Forall id_ok (p :: l) → NoDup (st_id <$> (p :: l)).
Proof.
  intros Hl Hid. apply NoDup_alt. intros i j x Hi Hj. rewrite list_lookup_fmap in Hi, Hj.
  apply fmap_Some in Hi as (s & Hi & ->), Hj as (s' & Hj & Heq).
  apply id_ok_inj in Heq; [|by eapply Forall_lookup_1..]. rewrite (linked_number l p i s), (linked_number l p j s') in Heq by done. lia.
Qed.

Lemma chain_map_lookup l id s : NoDup (st_id <$> l) → chain_map l !! id = Some s ↔ s ∈ l ∧ st_id s = id.
Proof.
  intros Hnd. unfold chain_map. rewrite <- elem_of_list_to_map.
  - rewrite list_elem_of_fmap. naive_solver.
  - rewrite <- list_fmap_compose. exact Hnd.
Qed.

Context {g : State} {l : list State} {c : HashChain}.
Hypothesis Hcan : canonical g l c.

Lemma can_lookup id s : hc_states c !! id = Some s ↔ s ∈ g :: l ∧ st_id s = id.
Proof. destruct Hcan as [_ _ Hl Hid -> _]. apply chain_map_lookup. by apply linked_ids_NoDup. Qed.

Lemma can_number i s : (g :: l) !! i = Some s → state_number s = Z.of_nat i.
Proof. destruct Hcan as [Hg _ Hl _ _ _]. intros Hi. rewrite (linked_number l g i s Hl Hi). lia. Qed.

Lemma can_stored s : s ∈ g :: l → hc_states c !! st_id s = Some s.
Proof. intros Hs. by apply can_lookup. Qed.

Lemma can_stored_next s : s ∈ l → hc_states c !! state_id (state_number s) = Some s.
Proof.
  intros Hs. apply list_elem_of_lookup in Hs as [i Hi]. pose proof (can_number (S i) s Hi) as Hn.
  destruct Hcan as [_ _ _ Hid _ _]. apply (Forall_lookup_1 _ _ (S i) s) in Hid; [|done].
  destruct Hid as [<- |[H0 _]]; [|lia]. apply can_stored. apply list_elem_of_lookup. by exists (S i).
Qed.

Lemma can_last : ∃ cur, hc_current c = Some cur ∧ last (g :: l) = Some cur ∧
  state_number cur = Z.of_nat (length l) ∧ St.compute_hash cur = Ok (hash cur).
Proof.
  destruct (last (g :: l)) as [cur|] eqn:E; [|by apply last_None in E]. exists cur.
  split_and!; [by rewrite (cn_current _ _ _ Hcan)|done| |].
  - rewrite last_lookup in E. apply can_number in E. cbn in E. done.
  - destruct Hcan as [_ Hh Hl _ _ _]. clear Hcan. revert g Hh Hl E.
    induction l as [|x l' IH]; intros p Hp Hl E; [by injection E as <-|].
    destruct Hl as (_ & _ & Hx & Hl). by apply (IH x).
Qed.

(** A state of the chain is found by its number, and by nothing else. *)
Lemma can_find n :
  find_state (fun s => state_number s =? n) (hc_states c) = if 0 <=? n then (g :: l) !! Z.to_nat n else None.
Proof.
  destruct (find_state _ _) as [s|] eqn:E.
  - apply find_state_Some in E as [Hn (id & Hs)]. apply Z.eqb_eq in Hn as <-.
    apply can_lookup in Hs as [Hin _]. apply list_elem_of_lookup in Hin as [i Hi].
    rewrite (can_number i s Hi), (proj2 (Z.leb_le _ _)), Nat2Z.id by lia. done.
  - pose proof (proj1 (find_state_None _ _) E) as Hnone. case_test; [|done]. zbool.
    destruct ((g :: l) !! Z.to_nat n) as [s|] eqn:Hi; [|done].
    assert (Hs : state_number s = n) by (rewrite (can_number _ _ Hi); lia).
    specialize (Hnone _ _ (can_stored s (list_elem_of_lookup_2 _ _ _ Hi))). cbn in Hnone.
    apply Z.eqb_neq in Hnone. done.
Qed.

Lemma verify_loop_ok l' : ∀ p, linked p l' → St.compute_hash p = Ok (hash p) →
  (∀ s, s ∈ l' → hc_states c !! state_id (state_number s) = Some s) →
  HC.verify_loop (length l') (hc_states c) (state_number p) (hash p) = Ok true.
Proof.
  induction l' as [|s l' IH]; intros p Hl Hp Hst; [done|]. destruct Hl as (Hn & Hh & Hs & Hl).
  cbn [length HC.verify_loop]. rewrite <- Hn, (Hst s) by set_solver. cbn [ok_or mbind outcome_bind].
  rewrite get_hash_cached in Hh by (by eapply compute_hash_nonempty). apply Ok_inj in Hh.
  rewrite bool_decide_eq_true_2 by done. cbn [negb]. unfold HC.verify_state_hash. rewrite Hs. cbn [mbind outcome_bind].
  rewrite constant_time_eq_refl. cbn [negb]. rewrite get_hash_cached by (by eapply compute_hash_nonempty).
  cbn [mbind outcome_bind]. apply IH; [done|done|]. set_solver.
Qed.

Lemma can_verify : HC.verify_chain c = Ok true.
Proof.
  unfold HC.verify_chain. assert (Hg : hc_states c !! st_id g = Some g) by (apply can_stored; set_solver).
  rewrite bool_decide_eq_false_2 by (intros E; rewrite E, lookup_empty in Hg; done).
  rewrite (can_find 0). change (if 0 <=? 0 then (g :: l) !! Z.to_nat 0 else None) with (Some g).
  cbn [ok_or mbind outcome_bind].
  pose proof (cn_hash _ _ _ Hcan) as Hh.
  unfold HC.verify_state_hash. rewrite Hh. cbn [mbind outcome_bind]. rewrite constant_time_eq_refl. cbn [negb].
  rewrite get_hash_cached by (by eapply compute_hash_nonempty). cbn [mbind outcome_bind].
  destruct can_last as (cur & Hc & _ & Hn & _). rewrite Hc. cbn [unwrap mbind outcome_bind]. rewrite Hn, Nat2Z.id.
  rewrite <- (cn_genesis _ _ _ Hcan). apply verify_loop_ok; [apply Hcan|done|].
  exact can_stored_next.
Qed.

End Canonical.

Section Growth.
Context {B3 : Blake3} {RT : Runtime}.
Context {SO : Bincode Operation} {SB : Bincode Balance} {SP : Bincode PreCommitment}.
Context {ST : Bincode StateTransition}.

(** Appending the successor of the current state. *)
Lemma add_next g l c cur op e vt rb s :
  canonical g l c → hc_current c = Some cur → Tr.create_next_state cur op e vt rb = Ok s →
  state_number s < 2 ^ 63 →
  ∃ c', HC.add_state s c = (Ok tt, c') ∧ canonical g (l ++ [s]) c'.
Proof.
  intros Hcan Hcur Hs Hb. apply create_next_state_inv in Hs.
  destruct (can_last Hcan) as (cur' & Hc' & Hlast & Hnum & Hch). rewrite Hcur in Hc'. injection Hc' as <-.
  pose proof (next_number _ _ _ _ _ Hs) as Hn. unfold HC.add_state.
  replace (any_state _ _) with false.
  2: { symmetry. apply any_state_false. intros id x Hx. apply (can_lookup Hcan) in Hx as [Hx _].
       apply list_elem_of_lookup in Hx as [i Hi]. pose proof (lookup_lt_Some _ _ _ Hi) as Hlt. cbn in Hlt.
       apply Z.eqb_neq. rewrite (can_number Hcan i x Hi). lia. }
  assert (Hidx : HC.index_ok c s = true).
  { unfold HC.index_ok, Sparse.contains. destruct (sparse_indices_elem (state_number s)) as (idx & Hl & _ & _ & Hin); [lia|].
    rewrite (next_index _ _ _ _ _ Hs) in Hl. apply Ok_inj in Hl as ->.
    rewrite (bool_decide_eq_true_2 (0 ∈ idx)); [by rewrite orb_true_r|]. apply Hin. by left. }
  rewrite Hidx, andb_false_r, Hcur, (proj2 (Z.ltb_lt _ _)) by lia. eexists. split; [done|].
  assert (Hlnk : linked g (l ++ [s])).
  { eapply linked_snoc; [apply Hcan|exact Hlast|done|apply (next_prev _ _ _ _ _ Hs)|apply (next_hash _ _ _ _ _ Hs)]. }
  assert (Hids : Forall id_ok (g :: (l ++ [s]))).
  { apply (Forall_app id_ok (g :: l) [s]). split; [apply Hcan|]. constructor; [|constructor].
    left. by rewrite (next_id _ _ _ _ _ Hs), Hn. }
  constructor; [apply Hcan|apply Hcan|done|done| |].
  - cbn [HC.set_states hc_states]. rewrite (cn_states _ _ _ Hcan). apply map_eq. intros id.
    pose proof (linked_ids_NoDup g _ Hlnk Hids) as Hnd.
    apply option_eq. intros x. rewrite chain_map_lookup by done. rewrite lookup_insert_Some.
    rewrite chain_map_lookup by (apply linked_ids_NoDup; apply Hcan).
    change (g :: (l ++ [s])) with ((g :: l) ++ [s]) in *. rewrite elem_of_app, list_elem_of_singleton.
    rewrite fmap_app in Hnd. apply NoDup_app in Hnd as (_ & Hnd & _).
    assert (Hne : x ∈ g :: l → st_id s ≠ st_id x).
    { intros Hx Heq. apply (Hnd (st_id x)); [by apply list_elem_of_fmap_2|]. rewrite <- Heq. set_solver. }
    split.
    + intros [[<- <-]|(_ & Hx & Hid)]; [by split; [right|]|by split; [left|]].
    + intros [[Hx| ->] <-]; [right; auto|by left].
  - cbn [HC.set_states hc_current]. change (g :: (l ++ [s])) with ((g :: l) ++ [s]). by rewrite last_snoc.
Qed.

Lemma canonical_batches g l c c' : hc_states c' = hc_states c → hc_current c' = hc_current c →
  canonical g l c → canonical g l c'.
Proof. intros E1 E2 []. constructor; rewrite ?E1, ?E2; done. Qed.

Lemma apply_transitions_grow {TO : BincodeTotal Operation} {TB : BincodeTotal Balance}
    {TP : BincodeTotal PreCommitment} g ts : ∀ l c cur,
  canonical g l c → hc_current c = Some cur → Z.of_nat (length l) + Z.of_nat (length ts) < 2 ^ 63 →
  ∃ l' c', HC.apply_transitions ts cur c = (Ok tt, c') ∧ canonical g (l ++ l') c' ∧
    map operation l' = map tr_operation ts.
Proof.
  induction ts as [|t ts IH]; intros l c cur Hcan Hcur Hb; cbn [HC.apply_transitions].
  - exists [], c. by rewrite app_nil_r.
  - cbn [length] in Hb. unfold mbind_st, mlift.
    destruct (can_last Hcan) as (cur' & Hc' & _ & Hnum & _). rewrite Hcur in Hc'. injection Hc' as <-.
    destruct (compute_hash_next_total cur (tr_operation t) (unwrap_or [] (tr_new_entropy t)) LV_Standard false)
      as (s & Hs); [lia|]. rewrite Hs. pose proof (create_next_state_inv _ _ _ _ _ _ Hs) as Hnx.
    pose proof (next_number _ _ _ _ _ Hnx) as Hn.
    destruct (add_next g l c cur _ _ _ _ s Hcan Hcur Hs) as (c1 & -> & Hcan1); [lia|].
    assert (Hcur1 : hc_current c1 = Some s).
    { rewrite (cn_current _ _ _ Hcan1). change (g :: (l ++ [s])) with ((g :: l) ++ [s]). by rewrite last_snoc. }
    destruct (IH (l ++ [s]) c1 s Hcan1 Hcur1) as (l' & c' & H1 & H2 & H3); [rewrite length_app; cbn; lia|].
    exists (s :: l'), c'. split_and!; [done|by rewrite <- app_assoc in H2|].
    cbn. by rewrite H3, (next_op _ _ _ _ _ Hnx).
Qed.

Lemma can_by_number g l c n : canonical g l c → 0 ≤ n →
  HC.get_state_by_number c n =
  match (g :: l) !! Z.to_nat n with
  | Some s => Ok s
  | None => Err (ENotFound "State" (Some "State number {} is out of range"))
  end.
Proof.
  intros Hcan Hn. destruct (can_last Hcan) as (cur & Hc & _ & Hnum & _). unfold HC.get_state_by_number.
  rewrite Hc, Hnum. case_test; zbool.
  - rewrite lookup_ge_None_2; [done|]. cbn. lia.
  - rewrite (can_find Hcan), (proj2 (Z.leb_le _ _)) by done.
    destruct ((g :: l) !! Z.to_nat n) eqn:E; [done|]. apply lookup_ge_None_1 in E. cbn in E. lia.
Qed.

Lemma extract_loop_can g l c k : ∀ n, canonical g l c → 0 ≤ n → (Z.to_nat n + k ≤ S (length l))%nat →
  HC.extract_loop k c n = Ok (take k (drop (Z.to_nat n) (g :: l))).
Proof.
  induction k as [|k IH]; intros n Hcan Hn Hk; cbn [HC.extract_loop]; [done|].
  rewrite (can_by_number g l c n Hcan Hn).
  destruct ((g :: l) !! Z.to_nat n) as [s|] eqn:E.
  2: { apply lookup_ge_None_1 in E. cbn [length] in E. lia. }
  cbn [mbind outcome_bind]. rewrite IH by (done || lia). cbn [mbind outcome_bind].
  rewrite (drop_S _ _ _ E). cbn [take]. by replace (Z.to_nat (n + 1)) with (S (Z.to_nat n)) by lia.
Qed.

End Growth.

(** ** Properties *)

Section ChainProps.
Context {B3 : Blake3} {RT : Runtime}.
Context {SO : Bincode Operation} {SB : Bincode Balance} {SP : Bincode PreCommitment}.
Context {ST : Bincode StateTransition}.

(** C5: the chain's invariants hold in every reachable state: after any
    sequence of calls that return, with any arguments, state numbers identify the
    stored states, states are stored under their id, the current state has the
    largest number, every batch has a status and an id below the next one, and
    its count is the number of its cached transitions. *)
Theorem chain_reachable_wf (c : HashChain) : reachable c → chain_wf c ∧ batches_wf c.
Proof. intros H. apply (steps_wf _ _ H), new_wf. Qed.

(** Batch statuses only move forward: in a reachable chain, one call
    leaves each batch's status as it was, opens the batch as pending, finalises
    a pending one or commits a finalised one, and does nothing else. *)
Theorem batch_status_forward (c c' : HashChain) (id : Z) :
  reachable c → hc_step c c' → status_move (hc_statuses c !! id) (hc_statuses c' !! id).
Proof.
  intros Hr Hs. apply step_moves; [|done]. apply (steps_wf _ _ Hr), new_wf.
Qed.

(** A chain can create one batch only: after a successful [create_batch],
    whatever calls follow, every further [create_batch] returns an error, since
    nothing in the chain ever finishes the batch manager's active batch; the
    failed call still consumes an id and leaves a pending batch behind. *)
Theorem second_batch_never_created (c0 c : HashChain) (id : Z) :
  chain_wf c0 ∧ batches_wf c0 → (HC.create_batch c0).1 = Ok id → rtc hc_step (HC.create_batch c0).2 c →
  hc_next_batch_id c < u64_max →
  (HC.create_batch c).1 = Err (batch_error "Batch already in progress") ∧
  hc_statuses (HC.create_batch c).2 !! hc_next_batch_id c = Some Pending.
Proof.
  intros Hw Hok Hr Hb.
  assert (Hact : is_Some (bm_active_batch (hc_manager (HC.create_batch c0).2))).
  { destruct (create_cases c0) as [E|(o & bm & Hs & _ & E)]; rewrite E in Hok |- *; [done|]. cbn in *.
    destruct o as [[]| | |]; try done. unfold BM.start_batch in Hs.
    destruct (bm_active_batch (hc_manager c0)); [done|].
    destruct (match hc_current c0 with Some s => St.get_hash s | None => _ end); [|done..].
    injection Hs as ->. by destruct (hc_current c0); eexists. }
  assert (Hw' := create_wf c0 Hw).
  assert (Ha : is_Some (bm_active_batch (hc_manager c))).
  { induction Hr as [|x y z Hs _ IH]; [done|]. apply IH; [done| |by eapply step_wf].
    eapply step_active; [apply Hw'|done|done]. }
  destruct (create_cases c) as [E|(o & bm & Hs & _ & E)].
  - exfalso. unfold HC.create_batch, u64_add in E. rewrite (proj2 (Z.leb_le _ _)) in E by lia.
    cbn in E. by rewrite bm_start_active in E.
  - rewrite E. rewrite bm_start_active in Hs by done. injection Hs as -> ->. cbn. by rewrite lookup_insert_eq.
Qed.

(** C6: committing a batch extends the chain: on a canonical chain, committing
    a finalised batch with cached transitions succeeds while the numbers stay
    below 2^63, appends one state per transition with its operation, marks the
    batch committed, and the resulting chain passes [verify_chain]. *)
Theorem commit_extends_chain {TO : BincodeTotal Operation} {TB : BincodeTotal Balance}
    {TP : BincodeTotal PreCommitment} (g : State) (l : list State) (c : HashChain) (id : Z)
    (ts : list StateTransition) :
  canonical g l c → hc_statuses c !! id = Some Finalized → hc_cached c !! id = Some ts →
  Z.of_nat (length l) + Z.of_nat (length ts) < 2 ^ 63 →
  ∃ l' c', HC.commit_batch id c = (Ok tt, c') ∧ canonical g (l ++ l') c' ∧
    map operation l' = map tr_operation ts ∧ hc_statuses c' !! id = Some Committed ∧
    HC.verify_chain c' = Ok true.
Proof.
  intros Hcan Hs Ht Hb. rewrite commit_eq, Hs, Ht. cbn zeta. set (c1 := HC.set_status id Committed c).
  destruct (can_last Hcan) as (cur & Hcur & _). rewrite Hcur.
  assert (Hcan1 : canonical g l c1) by (by apply (canonical_batches g l c)).
  destruct (apply_transitions_grow g ts l c1 cur Hcan1 Hcur Hb) as (l' & c' & E & Hcan' & Hm).
  exists l', c'. split_and!; [done|done|done| |by apply (can_verify Hcan')].
  assert (Hst : ∀ ts s x, hc_statuses (HC.apply_transitions ts s x).2 = hc_statuses x).
  { clear. induction ts as [|t ts IH]; intros s x; cbn [HC.apply_transitions]; [done|]. unfold mbind_st, mlift.
    destruct (Tr.create_next_state _ _ _ _ _) as [s'| | |]; try done.
    pose proof (add_state_same s' x) as (_ & _ & _ & H & _).
    destruct (HC.add_state s' x) as [[[]| | |] x']; cbn in *; rewrite ?IH; done. }
  change c' with (@Ok DsmError unit tt, c').2. rewrite <- E, Hst. apply lookup_insert_eq.
Qed.

(** An empty batch cannot be committed and is lost in trying: committing a
    finalised batch without cached transitions returns an error after its status
    has been set to committed, so it can never be committed or validated again. *)
Theorem empty_batch_commit_lost (c : HashChain) (id : Z) (sig : bytes) :
  hc_statuses c !! id = Some Finalized → hc_cached c !! id = None →
  let '(o, c') := HC.commit_batch id c in
  o = Err (ENotFound "BatchTransitions" (Some "No cached transitions for batch {}")) ∧
  hc_statuses c' !! id = Some Committed ∧ is_ok (HC.commit_batch id c').1 = false ∧
  is_ok (HC.validate_batch id sig c').1 = false.
Proof.
  intros Hs Ht. rewrite commit_eq, Hs, Ht. cbn zeta.
  assert (H : hc_statuses (HC.set_status id Committed c) !! id = Some Committed) by apply lookup_insert_eq.
  split_and!; [done|done| |].
  - by rewrite commit_eq, H.
  - unfold HC.validate_batch, HC.get_batch_status. by rewrite H.
Qed.

(** Look-ups agree with the chain: on a canonical chain,
    [get_state_by_number] returns the state at that position, or an error beyond
    the current state, and [extract_subsequence] returns exactly the states of
    the range. *)
Theorem chain_lookup_exact (g : State) (l : list State) (c : HashChain) (a b : Z) :
  canonical g l c → 0 ≤ a ≤ b → b ≤ Z.of_nat (length l) →
  HC.get_state_by_number c a = ok_or (ENotFound "State" (Some "State number {} is out of range")) ((g :: l) !! Z.to_nat a) ∧
  HC.get_state_by_number c (Z.of_nat (length l) + 1 + a) =
    Err (ENotFound "State" (Some "State number {} is out of range")) ∧
  HC.extract_subsequence c a b = Ok (take (Z.to_nat (b - a + 1)) (drop (Z.to_nat a) (g :: l))).
Proof.
  intros Hcan Hab Hb. split_and!.
  - rewrite (can_by_number g l c a Hcan) by lia. by destruct ((g :: l) !! Z.to_nat a).
  - rewrite (can_by_number g l c _ Hcan) by lia. rewrite lookup_ge_None_2; [done|]. cbn. lia.
  - unfold HC.extract_subsequence. rewrite (proj2 (Z.ltb_ge _ _)) by lia.
    destruct (can_last Hcan) as (cur & -> & _ & -> & _). rewrite (proj2 (Z.ltb_ge _ _)) by lia.
    apply extract_loop_can; [done|lia|lia].
Qed.

End ChainProps.

(** ** Witnesses *)

Section ChainWitnesses.
#[local] Existing Instances Toy.toy_blake3 Toy.toy_runtime toy_bincode_operation
  ToySt.toy_bincode_balance ToySt.toy_bincode_precommitment ToyBatch.toy_bincode_transition.
Import ToyTr ToyBatch.

Definition chain0 : HashChain := (HC.add_state g0 HC.new).2.
Definition chain1 : HashChain := (HC.create_batch chain0).2.
Definition chain2 : HashChain := (HC.add_transition_to_batch 0 (demo_transition op1) chain1).2.
Definition chain3 : HashChain := (HC.finalize_batch 0 chain2).2.

Lemma g0_correct : state_number g0 = 0 ∧ St.compute_hash g0 = Ok (hash g0) ∧ id_ok g0.
Proof. split; [reflexivity|]. split; [vm_compute; reflexivity|]. right. split; reflexivity. Qed.

Lemma chain0_canonical : canonical g0 [] chain0.
Proof.
  destruct g0_correct as (H0 & Hh & Hid). apply Build_canonical.
  - exact H0.
  - exact Hh.
  - exact I.
  - apply Forall_cons_2; [exact Hid|apply Forall_nil_2].
  - vm_compute. reflexivity.
  - vm_compute. reflexivity.
Qed.

Lemma chain3_reachable : reachable chain3.
Proof.
  unfold reachable. apply (rtc_l _ _ chain0); [apply step_add_state; vm_compute; reflexivity|].
  apply (rtc_l _ _ chain1); [apply step_create_batch; vm_compute; reflexivity|].
  apply (rtc_l _ _ chain2); [apply step_add_transition; vm_compute; reflexivity|].
  apply (rtc_l _ _ chain3); [apply step_finalize; vm_compute; reflexivity|]. apply rtc_refl.
Qed.

Lemma chain_reachable_wf_witness : reachable chain3 ∧ chain_wf chain3.
Proof. split; [exact chain3_reachable|]. apply (chain_reachable_wf chain3 chain3_reachable). Defined.

Lemma batch_status_forward_witness :
  status_move (hc_statuses chain3 !! 0) (hc_statuses (HC.commit_batch 0 chain3).2 !! 0).
Proof.
  apply (batch_status_forward chain3 _ 0 chain3_reachable). apply step_commit. vm_compute. reflexivity.
Defined.

Lemma second_batch_never_created_witness :
  (HC.create_batch chain3).1 = Err (batch_error "Batch already in progress").
Proof.
  apply (second_batch_never_created chain0 chain3 0).
  - split; [apply add_state_wf, new_wf|]. eapply batches_wf_same; [apply add_state_same|apply new_wf].
  - vm_compute. reflexivity.
  - apply (rtc_l _ _ chain2); [apply step_add_transition; vm_compute; reflexivity|].
    apply (rtc_l _ _ chain3); [apply step_finalize; vm_compute; reflexivity|]. apply rtc_refl.
  - vm_compute. reflexivity.
Defined.

Lemma chain3_canonical : canonical g0 [] chain3.
Proof.
  apply (canonical_batches g0 [] chain0); [vm_compute; reflexivity|vm_compute; reflexivity|exact chain0_canonical].
Qed.

Lemma commit_extends_chain_witness :
  ∃ l' c', HC.commit_batch 0 chain3 = (Ok tt, c') ∧ map operation l' = [op1] ∧ HC.verify_chain c' = Ok true.
Proof.
  destruct (commit_extends_chain (TO := ToySt.toy_operation_total) (TB := ToySt.toy_balance_total)
    (TP := ToySt.toy_precommitment_total) g0 [] chain3 0 [demo_transition op1] chain3_canonical)
    as (l' & c' & H1 & _ & H2 & _ & H3); [vm_compute; reflexivity|vm_compute; reflexivity|vm_compute; reflexivity|].
  exists l', c'. split; [exact H1|split; [exact H2|exact H3]].
Defined.

Definition empty_finalized : HashChain := (HC.finalize_batch 0 chain1).2.

Lemma empty_batch_commit_lost_witness :
  (HC.commit_batch 0 empty_finalized).1 =
    Err (ENotFound "BatchTransitions" (Some "No cached transitions for batch {}")).
Proof.
  pose proof (empty_batch_commit_lost empty_finalized 0 []) as H.
  destruct (HC.commit_batch 0 empty_finalized) as [o c']. apply H; vm_compute; reflexivity.
Defined.

Lemma chain_lookup_exact_witness : HC.get_state_by_number chain0 0 = Ok g0.
Proof.
  apply (chain_lookup_exact g0 [] chain0 0 0 chain0_canonical); [lia|cbn; lia].
Defined.

End ChainWitnesses.
