(* ===== verification/Policy.v ===== *)
(** * Token policies (dsm/src/types/policy_types.rs and
      dsm/src/cpta/policy_verification.rs)

    Policy files, their conditions and the verification of an operation against
    a policy.  The store that reads policy files from disk
    (dsm/src/cpta/policy_store.rs) is an interface of this library. *)
From S2P Require Import Prelude Tokens Operations.
From Stdlib Require Import Ascii.

(** ** Data *)

Inductive AllowedOperation := AllowAll | AllowSpecific (op : Operation).

Inductive VaultCondition :=
  | VTime (t : Z)
  | VHash (h : string)
  | VMinimumBalance (b : Z)
  | VVaultType (ty : string)
  | VCustom (parameters : gmap string string).

Inductive PolicyCondition :=
  | TimeLock (unlock_time : Z)
  | IdentityConstraint (allowed_identities : list string) (allow_derived : bool)
  | VaultEnforcement (condition : VaultCondition)
  | OperationRestriction (allowed_operations : list Operation)
  | GeographicRestriction (allowed_regions : list string)
  | CustomCondition (constraint_type : string) (parameters : gmap string string).

Record PolicyRole := mkRole { role_id : string; role_name : string; role_permissions : list Operation }.

Record PolicyFile := mkPolicyFile {
  pf_name : string;
  pf_version : string;
  pf_created_at : Z;
  pf_author : string;
  pf_description : option string;
  pf_conditions : list PolicyCondition;
  pf_roles : list PolicyRole;
  pf_metadata : gmap string string;
}.

Record TokenPolicy := mkTokenPolicy {
  tp_file : PolicyFile;
  tp_anchor : bytes;
  tp_verified : bool;
  tp_last_verified : Z;
}.

Inductive PolicyVerificationResult :=
  | Valid
  | Invalid (message : string)
  | Unverifiable (message : string).

(** ** Text *)

Definition digit (c : ascii) : option Z :=
  let n := Z.of_N (N_of_ascii c) in
  if (48 <=? n) && (n <=? 57) then Some (n - 48) else None.

Fixpoint parse_digits (s : string) (acc : Z) : option Z :=
  match s with
  | EmptyString => Some acc
  | String c s =>
      match digit c with
      | Some d => if acc * 10 + d <=? u64_max then parse_digits s (acc * 10 + d) else None
      | None => None
      end
  end.

(** [str::parse::<u64>]: an optional plus sign and at least one digit. *)
Definition parse_u64 (s : string) : option Z :=
  match s with
  | EmptyString => None
  | String "+" EmptyString => None
  | String "+" s => parse_digits s 0
  | _ => parse_digits s 0
  end.

(** [str::split(',')] and [str::trim] on ASCII text. *)
Fixpoint split_comma (cur s : string) : list string :=
  match s with
  | EmptyString => [cur]
  | String "," s => cur :: split_comma EmptyString s
  | String c s => split_comma (cur +:+ String c EmptyString) s
  end.
Definition is_space (c : ascii) : bool :=
  let n := N_of_ascii c in ((9 <=? n)%N && (n <=? 13)%N) || (n =? 32)%N.
Fixpoint trim_start (s : string) : string :=
  match s with
  | String c s' => if is_space c then trim_start s' else s
  | EmptyString => EmptyString
  end.
Definition trim (s : string) : string :=
  String.rev (trim_start (String.rev (trim_start s))).

(** ** [verify_policy] *)

Module Policy.

Definition is_mint (op : Operation) : bool := match op with Mint _ _ _ _ _ => true | _ => false end.
Definition is_transfer (op : Operation) : bool := match op with Transfer _ _ _ _ _ _ _ _ _ _ => true | _ => false end.
Definition is_burn (op : Operation) : bool := match op with Burn _ _ _ _ => true | _ => false end.

(** The new limit after a custom condition of the given type. *)
Definition limit_of (parameters : gmap string string) (old : option Z) : option Z :=
  match parameters !! "value"%string with
  | Some v => match parse_u64 v with Some m => Some m | None => old end
  | None => old
  end.

(** One turn of the loop over the conditions for a mint: allowed, limit,
    signature required. *)
Definition mint_step (st : bool * option Z * bool) (c : PolicyCondition) : bool * option Z * bool :=
  let '(allowed, limit, sig) := st in
  match c with
  | OperationRestriction ops => (if negb (existsb is_mint ops) then false else allowed, limit, sig)
  | CustomCondition ty ps =>
      if String.eqb ty "max_mint" then (allowed, limit_of ps limit, sig)
      else if String.eqb ty "requires_signature" then
        (allowed, limit, if bool_decide (ps !! "value"%string = Some "true"%string) then true else sig)
      else st
  | _ => st
  end.

(** For a transfer: allowed, limit, restricted contexts. *)
Definition transfer_step (st : bool * option Z * list string) (c : PolicyCondition) : bool * option Z * list string :=
  let '(allowed, limit, contexts) := st in
  match c with
  | OperationRestriction ops => (if negb (existsb is_transfer ops) then false else allowed, limit, contexts)
  | CustomCondition ty ps =>
      if String.eqb ty "max_transfer" then (allowed, limit_of ps limit, contexts)
      else if String.eqb ty "restricted_contexts" then
        (allowed, limit, match ps !! "contexts"%string with
                         | Some s => map trim (split_comma EmptyString s)
                         | None => contexts
                         end)
      else st
  | _ => st
  end.

Definition burn_step (st : bool * option Z) (c : PolicyCondition) : bool * option Z :=
  let '(allowed, limit) := st in
  match c with
  | OperationRestriction ops => (if negb (existsb is_burn ops) then false else allowed, limit)
  | CustomCondition ty ps => if String.eqb ty "max_burn" then (allowed, limit_of ps limit) else st
  | _ => st
  end.

Definition exceeds (amount : Z) (limit : option Z) : bool :=
  match limit with Some m => m <? amount | None => false end.

Definition verify_policy (policy : TokenPolicy) (op : Operation) (context : option string)
    (extra_data signature : option bytes) : PolicyVerificationResult :=
  let conditions := pf_conditions (tp_file policy) in
  match op with
  | Mint amount _ _ _ _ =>
      let '(allowed, limit, needs_sig) := foldl mint_step (true, None, false) conditions in
      if negb allowed then Invalid "Minting is not allowed by policy"
      else if exceeds (bal_value amount) limit then Invalid "Mint amount exceeds policy limit of {}"
      else
        match signature with
        | None => if needs_sig then Invalid "Mint operation requires signature, but none provided" else Valid
        | Some sig => if bool_decide (sig = []) then Invalid "Invalid signature for mint operation" else Valid
        end
  | Transfer _ amount _ _ _ _ _ _ _ _ =>
      let '(allowed, limit, contexts) := foldl transfer_step (true, None, []) conditions in
      if negb allowed then Invalid "Transfers are not allowed by policy"
      else if exceeds (bal_value amount) limit then Invalid "Transfer amount exceeds policy limit of {}"
      else
        match context with
        | Some ctx => if bool_decide (ctx ∈ contexts) then Invalid "Transfers restricted in context: {}" else Valid
        | None => Valid
        end
  | Burn amount _ _ _ =>
      let '(allowed, limit) := foldl burn_step (true, None) conditions in
      if negb allowed then Invalid "Burning is not allowed by policy"
      else if exceeds (bal_value amount) limit then Invalid "Burn amount exceeds policy limit of {}"
      else Valid
  | _ => Valid
  end.

Definition verify_policy_anchor (anchor : bytes) : outcome bool :=
  if forallb (fun b => bool_decide (b = Byte.x00)) anchor then Err (EValidation "Policy anchor is empty or invalid")
  else Ok true.

Section File.
Context {B3 : Blake3} {RT : Runtime} (to_vec : PolicyFile → option bytes).

Definition file_new (name version author : string) : PolicyFile :=
  mkPolicyFile name version now author None [] [] ∅.
Definition add_condition (c : PolicyCondition) (f : PolicyFile) : PolicyFile :=
  mkPolicyFile (pf_name f) (pf_version f) (pf_created_at f) (pf_author f) (pf_description f)
    (pf_conditions f ++ [c]) (pf_roles f) (pf_metadata f).
Definition add_role (r : PolicyRole) (f : PolicyFile) : PolicyFile :=
  mkPolicyFile (pf_name f) (pf_version f) (pf_created_at f) (pf_author f) (pf_description f)
    (pf_conditions f) (pf_roles f ++ [r]) (pf_metadata f).
Definition add_metadata (k v : string) (f : PolicyFile) : PolicyFile :=
  mkPolicyFile (pf_name f) (pf_version f) (pf_created_at f) (pf_author f) (pf_description f)
    (pf_conditions f) (pf_roles f) (<[k := v]> (pf_metadata f)).
Definition with_description (d : string) (f : PolicyFile) : PolicyFile :=
  mkPolicyFile (pf_name f) (pf_version f) (pf_created_at f) (pf_author f) (Some d)
    (pf_conditions f) (pf_roles f) (pf_metadata f).

(** [PolicyAnchor::from_policy]; [to_vec] is serde_json's encoder. *)
Definition generate_anchor (f : PolicyFile) : outcome bytes :=
  x ← ok_or (ESerialization "Failed to serialize policy file: {}") (to_vec f);
  Ok (blake3 x).
Definition policy_new (f : PolicyFile) : outcome TokenPolicy :=
  anchor ← generate_anchor f;
  Ok (mkTokenPolicy f anchor false now).
Definition mark_verified (p : TokenPolicy) : TokenPolicy :=
  mkTokenPolicy (tp_file p) (tp_anchor p) true now.
Definition is_condition_satisfied (c : PolicyCondition) : bool :=
  match c with TimeLock unlock_time => unlock_time <=? now | _ => true end.
Definition are_time_conditions_satisfied (p : TokenPolicy) : bool :=
  forallb (fun c => match c with TimeLock _ => is_condition_satisfied c | _ => true end) (pf_conditions (tp_file p)).

End File.
End Policy.

(** ** The reference reading of a policy *)

(** The limits a policy states for a constraint type, in order. *)
Definition stated_limits (ty : string) (cs : list PolicyCondition) : list Z :=
  omap (fun c => match c with
                 | CustomCondition t ps => if String.eqb t ty then ps !! "value"%string ≫= parse_u64 else None
                 | _ => None
                 end) cs.
Definition permits (kind : Operation → bool) (cs : list PolicyCondition) : bool :=
  forallb (fun c => match c with OperationRestriction ops => existsb kind ops | _ => true end) cs.
Definition needs_signature (cs : list PolicyCondition) : bool :=
  existsb (fun c => match c with
                    | CustomCondition t ps => String.eqb t "requires_signature" &&
                                              bool_decide (ps !! "value"%string = Some "true"%string)
                    | _ => false
                    end) cs.
(** The conditions [verify_policy] looks at. *)
Definition enforced (c : PolicyCondition) : bool :=
  match c with OperationRestriction _ | CustomCondition _ _ => true | _ => false end.

(** The last stated limit, or the given one. *)
Definition last_or (m : option Z) (l : list Z) : option Z :=
  match last l with Some x => Some x | None => m end.

Lemma last_or_cons m x l : last_or m (x :: l) = last_or (Some x) l.
Proof. unfold last_or. destruct l as [|y l]; [done|]. cbn [last]. by destruct (last (y :: l)) eqn:E; [|apply last_None in E]. Qed.

Lemma limit_of_cons ty ps m cs :
  last_or (Policy.limit_of ps m) (stated_limits ty cs) = last_or m (stated_limits ty (CustomCondition ty ps :: cs)).
Proof.
  unfold stated_limits at 2. cbn [omap list_omap]. rewrite String.eqb_refl. unfold Policy.limit_of.
  destruct (ps !! "value"%string) as [v|]; [|done]. cbn. destruct (parse_u64 v); [|done].
  by rewrite last_or_cons.
Qed.

Lemma stated_limits_skip ty c cs :
  match c with CustomCondition t _ => String.eqb t ty = false | _ => True end →
  stated_limits ty (c :: cs) = stated_limits ty cs.
Proof. unfold stated_limits. cbn [omap list_omap]. by destruct c; intros H; rewrite ?H. Qed.

(** Restrictions accumulate: allowed only if every restriction allows. *)
Lemma restrict_and (x a p : bool) : (if negb x then false else a) && p = a && (x && p).
Proof. by destruct x, a, p. Qed.

Lemma burn_scan cs : ∀ a m,
  foldl Policy.burn_step (a, m) cs = (a && permits Policy.is_burn cs, last_or m (stated_limits "max_burn" cs)).
Proof.
  induction cs as [|c cs IH]; intros a m; [by rewrite andb_true_r|]. cbn [foldl permits forallb].
  destruct c; cbn [Policy.burn_step]; try (rewrite IH; by rewrite stated_limits_skip).
  - rewrite IH, stated_limits_skip, <- restrict_and by done. done.
  - destruct (String.eqb_spec constraint_type "max_burn") as [->|Hne].
    + by rewrite IH, limit_of_cons.
    + rewrite IH, stated_limits_skip by (by apply String.eqb_neq). done.
Qed.

Lemma transfer_scan cs : ∀ a m ctx,
  ∃ ctx', foldl Policy.transfer_step (a, m, ctx) cs =
    (a && permits Policy.is_transfer cs, last_or m (stated_limits "max_transfer" cs), ctx').
Proof.
  induction cs as [|c cs IH]; intros a m ctx; [exists ctx; by rewrite andb_true_r|]. cbn [foldl permits forallb].
  destruct c; cbn [Policy.transfer_step]; try (rewrite stated_limits_skip by done; apply IH).
  - rewrite stated_limits_skip by done. destruct (IH (if negb (existsb Policy.is_transfer allowed_operations) then false else a) m ctx)
      as (ctx' & ->). rewrite restrict_and. by exists ctx'.
  - destruct (String.eqb_spec constraint_type "max_transfer") as [->|Hne].
    + rewrite <- limit_of_cons. apply IH.
    + rewrite stated_limits_skip by (by apply String.eqb_neq). case_test; apply IH.
Qed.

Lemma mint_scan cs : ∀ a m sg,
  foldl Policy.mint_step (a, m, sg) cs =
    (a && permits Policy.is_mint cs, last_or m (stated_limits "max_mint" cs), sg || needs_signature cs).
Proof.
  induction cs as [|c cs IH]; intros a m sg; [by rewrite andb_true_r, orb_false_r|].
  cbn [foldl permits forallb needs_signature existsb].
  destruct c; cbn [Policy.mint_step]; try (rewrite IH; by rewrite stated_limits_skip).
  - rewrite IH, stated_limits_skip, <- restrict_and by done. done.
  - destruct (String.eqb_spec constraint_type "max_mint") as [->|Hne].
    + by rewrite IH, limit_of_cons.
    + rewrite stated_limits_skip by (by apply String.eqb_neq).
      destruct (String.eqb constraint_type "requires_signature"); rewrite IH; [|done].
      f_equal. case_bool_decide; by destruct sg.
Qed.

(** The steps skip what they do not enforce. *)
Lemma foldl_enforced {A} (f : A → PolicyCondition → A) cs : ∀ a,
  (∀ a c, enforced c = false → f a c = a) →
  foldl f a (filter (fun c => enforced c = true) cs) = foldl f a cs.
Proof.
  induction cs as [|c cs IH]; intros a Hf; [done|]. rewrite filter_cons. destruct (enforced c) eqn:E; cbn.
  - by apply IH.
  - rewrite Hf by done. by apply IH.
Qed.

(** ** Properties *)

(** A policy with other conditions. *)
Definition with_conditions (cs : list PolicyCondition) (p : TokenPolicy) : TokenPolicy :=
  let f := tp_file p in
  mkTokenPolicy (mkPolicyFile (pf_name f) (pf_version f) (pf_created_at f) (pf_author f) (pf_description f)
    cs (pf_roles f) (pf_metadata f)) (tp_anchor p) (tp_verified p) (tp_last_verified p).

(** Without context and signature, a mint, transfer or burn is valid
    exactly when every operation restriction of the policy lists its kind, its
    amount does not exceed the last well-formed limit the policy states for it,
    and, for a mint, no condition requires a signature. *)
Theorem policy_verdict_exact (p : TokenPolicy) (op : Operation) (extra : option bytes) :
  Policy.verify_policy p op None extra None = Valid ↔
  let cs := pf_conditions (tp_file p) in
  match op with
  | Mint amount _ _ _ _ =>
      permits Policy.is_mint cs = true ∧ needs_signature cs = false ∧
      (∀ m, last (stated_limits "max_mint" cs) = Some m → bal_value amount ≤ m)
  | Transfer _ amount _ _ _ _ _ _ _ _ =>
      permits Policy.is_transfer cs = true ∧ (∀ m, last (stated_limits "max_transfer" cs) = Some m → bal_value amount ≤ m)
  | Burn amount _ _ _ =>
      permits Policy.is_burn cs = true ∧ (∀ m, last (stated_limits "max_burn" cs) = Some m → bal_value amount ≤ m)
  | _ => True
  end.
Proof.
  assert (Hx : ∀ amount l, Policy.exceeds amount (last_or None l) = false ↔ (∀ m, last l = Some m → amount ≤ m)).
  { intros amount l. unfold last_or. destruct (last l) as [m|]; cbn; [|naive_solver].
    rewrite Z.ltb_ge. split; [by intros ? ? [= <-]|auto]. }
  unfold Policy.verify_policy. cbn zeta. destruct op; try done.
  - destruct (transfer_scan (pf_conditions (tp_file p)) true None []) as (ctx & ->). rewrite <- Hx. cbn.
    destruct (permits _ _), (Policy.exceeds _ _); naive_solver.
  - rewrite mint_scan, <- Hx. cbn. destruct (permits _ _), (Policy.exceeds _ _), (needs_signature _); naive_solver.
  - rewrite burn_scan, <- Hx. cbn. destruct (permits _ _), (Policy.exceeds _ _); naive_solver.
Qed.

(** Time locks, identity constraints, vault conditions and geographic
    restrictions are not enforced: the verdict on any operation is that of the
    policy with all these conditions removed. *)
Theorem policy_conditions_unenforced (p : TokenPolicy) (op : Operation) (ctx : option string) (extra sig : option bytes) :
  Policy.verify_policy (with_conditions (filter (fun c => enforced c = true) (pf_conditions (tp_file p))) p) op ctx extra sig =
  Policy.verify_policy p op ctx extra sig.
Proof.
  unfold Policy.verify_policy. cbn [with_conditions tp_file pf_conditions].
  destruct op; try done; rewrite foldl_enforced; try done; by intros [[] ?] [] || intros [? ?] [].
Qed.
