(* ===== verification/TokenState.v ===== *)
(** * The token state manager (dsm/src/core/token/token_state_manager.rs and the
      [Token] type of dsm/src/types/token_types.rs)

    Balance updates of token operations, the token store, the balance cache and
    its lock, policy checks and forward commitments.  The cache lock is a
    parking_lot [RwLock], which is not reentrant: the manager records whether its
    write lock is held, and taking it again never returns. *)
From S2P Require Import Prelude Tokens Operations SparseIdx States Relationship Policy.

(** ** Data *)

Inductive TokenStatus := Active | Revoked | Expired | Locked.
#[global] Instance TokenStatus_eq_dec : EqDecision TokenStatus.
Proof. solve_decision. Defined.

Record Token := mkToken {
  tok_id : string;
  tok_owner_id : string;
  tok_token_data : bytes;
  tok_metadata : bytes;
  tok_token_hash : bytes;
  tok_status : TokenStatus;
  tok_balance : Balance;
  tok_policy_anchor : option bytes;
}.

(** [TokenStateManager].  The policy store is what [get_policy] answers for an
    anchor; [tm_runtime] says whether the async runtime could be created. *)
Record TokenStateManager := mkTokenManager {
  tm_token_store : gmap string Token;
  tm_balance_cache : gmap string Balance;
  tm_cache_write_held : bool;
  tm_policy_store : option (bytes → outcome TokenPolicy);
  tm_runtime : bool;
}.

Record TokenTransfer := mkTokenTransfer {
  tt_sender : bytes;
  tt_recipient : bytes;
  tt_amount : Z;
  tt_token_id : string;
  tt_timestamp : Z;
}.

Module Tok.
Section Tok.
Context {B3 : Blake3} {RT : Runtime}.

Definition new (owner_id : string) (token_data metadata : bytes) (balance : Balance) : Token :=
  mkToken (owner_id +:+ "-" +:+ hex_encode (blake3 token_data)) owner_id token_data metadata
    (blake3 (token_data ++ metadata)) Active balance None.
Definition new_with_policy (owner_id : string) (token_data metadata : bytes) (balance : Balance)
    (policy_anchor : bytes) : Token :=
  mkToken (owner_id +:+ "-" +:+ hex_encode (blake3 token_data)) owner_id token_data metadata
    (blake3 (token_data ++ metadata)) Active balance (Some policy_anchor).
Definition set_status (s : TokenStatus) (t : Token) : Token :=
  mkToken (tok_id t) (tok_owner_id t) (tok_token_data t) (tok_metadata t) (tok_token_hash t) s
    (tok_balance t) (tok_policy_anchor t).
Definition set_owner (owner : string) (t : Token) : Token :=
  mkToken (tok_id t) owner (tok_token_data t) (tok_metadata t) (tok_token_hash t) (tok_status t)
    (tok_balance t) (tok_policy_anchor t).
Definition set_policy_anchor (anchor : bytes) (t : Token) : Token :=
  mkToken (tok_id t) (tok_owner_id t) (tok_token_data t) (tok_metadata t) (tok_token_hash t) (tok_status t)
    (tok_balance t) (Some anchor).
Definition is_valid (t : Token) : bool := bool_decide (tok_status t = Active).
Definition update_balance (amount : Z) (is_addition : bool) (t : Token) : Token :=
  mkToken (tok_id t) (tok_owner_id t) (tok_token_data t) (tok_metadata t) (tok_token_hash t) (tok_status t)
    (Bal.update (tok_balance t) amount is_addition) (tok_policy_anchor t).

End Tok.
End Tok.

Module TM.
Section TM.
Context {B3 : Blake3} {RT : Runtime}.
Context {SO : Bincode Operation} {SB : Bincode Balance} {SP : Bincode PreCommitment}.

Definition new (runtime : bool) : TokenStateManager := mkTokenManager ∅ ∅ false None runtime.
Definition with_policy_store (store : bytes → outcome TokenPolicy) (runtime : bool) : TokenStateManager :=
  mkTokenManager ∅ ∅ false (Some store) runtime.

Definition set_store (s : gmap string Token) (m : TokenStateManager) : TokenStateManager :=
  mkTokenManager s (tm_balance_cache m) (tm_cache_write_held m) (tm_policy_store m) (tm_runtime m).
Definition set_cache (c : gmap string Balance) (m : TokenStateManager) : TokenStateManager :=
  mkTokenManager (tm_token_store m) c (tm_cache_write_held m) (tm_policy_store m) (tm_runtime m).
Definition set_held (h : bool) (m : TokenStateManager) : TokenStateManager :=
  mkTokenManager (tm_token_store m) (tm_balance_cache m) h (tm_policy_store m) (tm_runtime m).

(** [self.balance_cache.write()] and the end of the guard's scope. *)
Definition write_cache : M TokenStateManager unit := fun m =>
  if tm_cache_write_held m then (Hang, m) else (Ok tt, set_held true m).
Definition drop_guard : M TokenStateManager unit := mmod (set_held false).

Definition max_cache_size : nat := Z.to_nat 10000.

Definition evict (cache : gmap string Balance) : gmap string Balance :=
  if (Z.of_nat max_cache_size <? Z.of_nat (size cache)) then
    list_to_map (drop (size cache - max_cache_size) (sort_by_key (map_to_list cache)))
  else cache.

Definition optimize_balance_cache : M TokenStateManager unit :=
  do* write_cache;
  do* mmod (fun m => set_cache (evict (tm_balance_cache m)) m);
  drop_guard.

Definition update_balance_cache (new_balances : gmap string Balance) : M TokenStateManager unit :=
  do* write_cache;
  do* mmod (fun m => set_cache (new_balances ∪ tm_balance_cache m) m);
  do* optimize_balance_cache;
  drop_guard.

Definition bulk_load_balances (balances : gmap string Balance) : M TokenStateManager unit :=
  do* write_cache;
  do* mmod (fun m => set_cache (balances ∪ tm_balance_cache m) m);
  do* optimize_balance_cache;
  drop_guard.

(** ** Balances *)

Definition make_balance_key (owner_pk : bytes) (token_id : string) : string := hex_encode owner_pk +:+ token_id.

Definition balance_of (m : gmap string Balance) (key : string) : Balance := unwrap_or (Bal.new 0) (m !! key).

Definition verify_mint_authorization (authorized_by : string) (proof : bytes) : outcome bool := Ok true.
Definition verify_token_ownership (token_id : string) (proof : bytes) : outcome bool := Ok true.

(** The [match operation] of [apply_token_operation]. *)
Definition updated_balances (s : State) (op : Operation) : outcome (gmap string Balance) :=
  let balances := token_balances s in
  let owner_pk := dev_public_key (device_info s) in
  match op with
  | Transfer _ amount token_id _ _ _ _ recipient _ _ =>
      let sender_key := make_balance_key owner_pk token_id in
      let recipient_key := make_balance_key (str_bytes recipient) token_id in
      let sender := balance_of balances sender_key in
      if bal_value sender <? bal_value amount then
        Err (EInsufficientBalance token_id (bal_value sender) (bal_value amount))
      else
        let new_sender := Bal.new (saturating_sub (bal_value sender) (bal_value amount)) in
        let recipient_balance := balance_of balances recipient_key in
        let new_recipient := Bal.new (saturating_add (bal_value recipient_balance) (bal_value amount)) in
        Ok (<[recipient_key := new_recipient]> (<[sender_key := new_sender]> balances))
  | Mint amount token_id authorized_by proof _ =>
      ok ← verify_mint_authorization authorized_by proof;
      if negb ok then Err (EUnauthorized "Invalid mint authorization")
      else
        let owner_key := make_balance_key owner_pk token_id in
        let current := balance_of balances owner_key in
        Ok (<[owner_key := Bal.new (saturating_add (bal_value current) (bal_value amount))]> balances)
  | Burn amount token_id proof _ =>
      ok ← verify_token_ownership token_id proof;
      if negb ok then Err (EUnauthorized "Invalid burn authorization")
      else
        let owner_key := make_balance_key owner_pk token_id in
        let owner := balance_of balances owner_key in
        if bal_value owner <? bal_value amount then
          Err (EInsufficientBalance token_id (bal_value owner) (bal_value amount))
        else Ok (<[owner_key := Bal.new (saturating_sub (bal_value owner) (bal_value amount))]> balances)
  | _ => Ok balances
  end.

(** ** Policies *)

Definition policy_token_id (op : Operation) : option string :=
  match op with
  | Transfer _ _ token_id _ _ _ _ _ _ _ => Some token_id
  | Mint _ token_id _ _ _ => Some token_id
  | Burn _ token_id _ _ => Some token_id
  | LockToken token_id _ _ _ => Some token_id
  | UnlockToken token_id _ _ _ => Some token_id
  | _ => None
  end.

Definition get_token (m : TokenStateManager) (token_id : string) : outcome Token :=
  ok_or (ENotFound "Token" (Some token_id)) (tm_token_store m !! token_id).

Definition verify_token_policy (m : TokenStateManager) (op : Operation) : outcome unit :=
  match tm_policy_store m, policy_token_id op with
  | Some store, Some token_id =>
      match get_token m token_id with
      | Ok token =>
          match tok_policy_anchor token with
          | Some anchor =>
              if negb (tm_runtime m) then Err (EInternal "No runtime available for policy verification")
              else
                match store anchor with
                | Ok policy =>
                    match Policy.verify_policy policy op None None None with
                    | Valid => Ok tt
                    | Invalid message => Err (EPolicyViolation token_id message)
                    | Unverifiable _ => Err (EValidation "Policy verification failed: {}")
                    end
                | Err _ => Err (EValidation "Failed to retrieve policy for token {}: {}")
                | Panic => Panic
                | Hang => Hang
                end
          | None => Ok tt
          end
      | _ => Ok tt
      end
  | _, _ => Ok tt
  end.

Definition apply_token_operation (s : State) (op : Operation) : M TokenStateManager (gmap string Balance) := fun m =>
  (do* mlift (verify_token_policy m op);
   let* new_balances := mlift (updated_balances s op) in
   do* update_balance_cache new_balances;
   mret_st new_balances) m.

(** ** Forward commitments *)

Definition fixed_parameter (c : PreCommitment) (key : string) : option bytes :=
  (list_to_map (pc_fixed_parameters c) : gmap string bytes) !! key.

Definition fixed_matches (c : PreCommitment) (key : string) (actual : string) : bool :=
  match fixed_parameter c key with
  | Some expected => bool_decide (str_bytes actual = expected)
  | None => true
  end.

Definition amount_matches (c : PreCommitment) (amount : Balance) : bool :=
  if bool_decide ("amount"%string ∈ pc_variable_parameters c) then true
  else
    match fixed_parameter c "amount" with
    | Some expected => if Nat.eqb (length expected) 8 then bal_value amount =? of_le_bytes expected else false
    | None => false
    end.

Definition verify_precommitment_parameters (c : PreCommitment) (op : Operation) : outcome bool :=
  let ty := pc_operation_type c in
  let matches_type :=
    match op with
    | Transfer _ _ _ _ _ _ _ _ _ _ => String.eqb ty "transfer"
    | Mint _ _ _ _ _ => String.eqb ty "mint"
    | Burn _ _ _ _ => String.eqb ty "burn"
    | LockToken _ _ _ _ => String.eqb ty "lock"
    | UnlockToken _ _ _ _ => String.eqb ty "unlock"
    | _ => false
    end in
  if negb matches_type then Ok false
  else
    let matches_fixed :=
      match op with
      | Transfer _ _ token_id _ _ _ _ recipient _ _ => fixed_matches c "token_id" token_id && fixed_matches c "recipient" recipient
      | Mint _ token_id _ _ _ => fixed_matches c "token_id" token_id
      | Burn _ token_id _ _ => fixed_matches c "token_id" token_id
      | _ => true
      end in
    if negb matches_fixed then Ok false
    else
      let variable_valid :=
        match op with
        | Transfer _ amount _ _ _ _ _ _ _ _ => amount_matches c amount
        | Mint amount _ _ _ _ => amount_matches c amount
        | Burn amount _ _ _ => amount_matches c amount
        | _ => true
        end in
      Ok (matches_type && matches_fixed && variable_valid).

Definition compute_commitment_hash (c : PreCommitment) : outcome bytes :=
  Ok (blake3 (pc_hash c ++
    concat (map (fun '(k, v) => str_bytes k ++ v) (sort_by_key (pc_fixed_parameters c))) ++
    concat (map str_bytes (sort_strings (pc_variable_parameters c))))).

(** [for window in states.windows(2)] *)
Fixpoint validate_commitment_chain (states : list State) : outcome bool :=
  match states with
  | current :: ((next :: _) as rest) =>
      match forward_commitment current with
      | Some c =>
          if state_number next <? pc_min_state_number c then Ok false
          else
            ok ← verify_precommitment_parameters c (operation next);
            if negb ok then Ok false
            else
              expected ← compute_commitment_hash c;
              if negb (bool_decide (expected = pc_hash c)) then Ok false
              else validate_commitment_chain rest
      | None => validate_commitment_chain rest
      end
  | _ => Ok true
  end.

(** ** Token states *)

(** [while n > 0]: push [n] when its low bit is set, then halve it. *)
Fixpoint halving_indices (p : positive) : list Z :=
  match p with
  | xH => [1]
  | xO p => halving_indices p
  | xI q => Zpos p :: halving_indices q
  end.
Definition token_indices (n : Z) : list Z := match n with Zpos p => halving_indices p | _ => [] end.

Definition create_token_state_transition (cur : State) (op : Operation) (new_entropy : bytes)
    (encapsulated : option bytes) : M TokenStateManager State :=
  do* mlift (validate op);
  let* updated := apply_token_operation cur op in
  let* prev_hash := mlift (St.get_hash cur) in
  let* n := mlift (u64_add (state_number cur) 1) in
  do* match forward_commitment cur with
      | Some c =>
          let* ok := mlift (verify_precommitment_parameters c op) in
          if negb ok then mfail (EPolicyViolation "forward commitment" "Operation violates forward commitment parameters")
          else mret_st tt
      | None => mret_st tt
      end;
  let p := St.with_sparse_index (St.with_prev_state_hash (St.with_encapsulated_entropy
             (St.params_new n new_entropy op (device_info cur)) (unwrap_or [] encapsulated)) prev_hash)
             (mkSparse (token_indices n)) in
  let s := St.set_token_balances updated (St.new p) in
  let* h := mlift (St.compute_hash s) in
  mret_st (St.set_hash h s).

(** ** Token store *)

Definition token_exists (m : TokenStateManager) (token_id : string) : outcome bool :=
  Ok (bool_decide (is_Some (tm_token_store m !! token_id))).

(** [self.balance_cache.read()] waits for the write lock. *)
Definition get_token_balance_from_store (m : TokenStateManager) (owner_pk : bytes) (token_id : string) : outcome Balance :=
  if tm_cache_write_held m then Hang
  else Ok (balance_of (tm_balance_cache m) (make_balance_key owner_pk token_id)).

(** The arguments of [Token::new] in the order the source passes them. *)
Definition update_token_metadata (token_id : string) (metadata : bytes) : M TokenStateManager unit := fun m =>
  match tm_token_store m !! token_id with
  | Some old =>
      let token := Tok.new token_id (str_bytes (tok_owner_id old)) metadata (tok_balance old) in
      let token := Tok.set_status (tok_status old) token in
      (Ok tt, set_store (<[token_id := token]> (tm_token_store m)) m)
  | None => (Err (ENotFound "Token" (Some token_id)), m)
  end.

Definition revoke_token (token_id : string) : M TokenStateManager unit := fun m =>
  match tm_token_store m !! token_id with
  | Some t => (Ok tt, set_store (<[token_id := Tok.set_status Revoked t]> (tm_token_store m)) m)
  | None => (Err (ENotFound "Token" (Some token_id)), m)
  end.

Definition verify_token (m : TokenStateManager) (token_id : string) : outcome bool :=
  match tm_token_store m !! token_id with Some t => Ok (Tok.is_valid t) | None => Ok false end.

Definition list_tokens (m : TokenStateManager) : outcome (list string) := Ok (map_to_list (tm_token_store m)).*1.

Definition get_tokens_by_owner (m : TokenStateManager) (owner_id : string) : outcome (list Token) :=
  Ok (filter (fun t => tok_owner_id t = owner_id) (map_to_list (tm_token_store m)).*2).

Definition create_token_transfer (sender recipient : State) (amount : Z) (token_id : string) : outcome TokenTransfer :=
  Ok (mkTokenTransfer (dev_public_key (device_info sender)) (dev_public_key (device_info recipient)) amount token_id now).

End TM.
End TM.

(** ** Lemmas *)

(** The sum of all balances of a state. *)
Definition total (m : gmap string Balance) : Z := map_fold (fun _ b acc => bal_value b + acc) 0 m.
Definition value_at (m : gmap string Balance) (k : string) : Z := match m !! k with Some b => bal_value b | None => 0 end.

Lemma total_insert_fresh m k b : m !! k = None → total (<[k := b]> m) = bal_value b + total m.
Proof. intros Hk. unfold total. rewrite map_fold_insert_L; [done|intros; lia|done]. Qed.

Lemma total_insert m k b : total (<[k := b]> m) = total m - value_at m k + bal_value b.
Proof.
  unfold value_at. destruct (m !! k) as [x|] eqn:E.
  - rewrite <- (insert_delete_id m k x E) at 2. rewrite <- insert_delete_eq.
    rewrite !total_insert_fresh by apply lookup_delete_eq. lia.
  - rewrite total_insert_fresh by done. lia.
Qed.

Lemma value_at_insert m k b k' :
  value_at (<[k := b]> m) k' = if bool_decide (k = k') then bal_value b else value_at m k'.
Proof.
  unfold value_at. case_bool_decide as E; [subst; by rewrite lookup_insert_eq|by rewrite lookup_insert_ne].
Qed.

Lemma list_ascii_string_app (a b : list Ascii.ascii) :
  String.string_of_list_ascii (a ++ b) = String.string_of_list_ascii a +:+ String.string_of_list_ascii b.
Proof. induction a as [|x a IH]; [done|]. cbn [app String.string_of_list_ascii]. rewrite IH. done. Qed.

Lemma hex_encode_app x y : hex_encode (x ++ y) = hex_encode x +:+ hex_encode y.
Proof. unfold hex_encode. by rewrite fmap_app, concat_app, list_ascii_string_app. Qed.

Lemma str_append_assoc (a b c : string) : a +:+ (b +:+ c) = (a +:+ b) +:+ c.
Proof. induction a as [|x a IH]; [done|]. exact (f_equal (String.String x) IH). Qed.

Section TokenFacts.
Context {B3 : Blake3} {RT : Runtime}.
Context {SO : Bincode Operation} {SB : Bincode Balance} {SP : Bincode PreCommitment}.

Lemma balance_of_value m k : bal_value (TM.balance_of m k) = value_at m k.
Proof. unfold TM.balance_of, value_at. by destruct (m !! k). Qed.

Lemma update_cache_hangs b m : (TM.update_balance_cache b m).1 = Hang.
Proof.
  unfold TM.update_balance_cache, TM.optimize_balance_cache, TM.write_cache, mbind_st, mmod.
  by destruct (tm_cache_write_held m).
Qed.

Lemma apply_not_ok s op m : is_ok (TM.apply_token_operation s op m).1 = false.
Proof.
  unfold TM.apply_token_operation, mbind_st at 1, mlift. destruct (TM.verify_token_policy m op); try done.
  unfold mbind_st at 1. destruct (TM.updated_balances s op) as [b| | |]; try done.
  unfold mbind_st. pose proof (update_cache_hangs b m) as H.
  destruct (TM.update_balance_cache b m) as [[]]; done.
Qed.

End TokenFacts.

(** ** Properties *)

Section TokenProps.
Context {B3 : Blake3} {RT : Runtime}.
Context {SO : Bincode Operation} {SB : Bincode Balance} {SP : Bincode PreCommitment}.

(** The balances that [apply_token_operation] computes, and writes into the
    cache before it deadlocks, conserve the supply: for a transfer between
    different balance keys exactly the amount moves when the sender has it and the
    recipient does not overflow, every other balance and the total stay; without
    funds it is an insufficient-balance error. *)
Theorem transfer_conserves (s : State) (to_ : string) (amount : Balance) (tid : string) (mode : TransactionMode)
    (nonce : bytes) (vt : VerificationType) (pc : option PreCommitmentOp) (recipient to_name msg : string) :
  let sk := TM.make_balance_key (dev_public_key (device_info s)) tid in
  let rk := TM.make_balance_key (str_bytes recipient) tid in
  let a := bal_value amount in
  sk ≠ rk → 0 ≤ a → value_at (token_balances s) rk + a ≤ u64_max →
  if value_at (token_balances s) sk <? a then
    TM.updated_balances s (Transfer to_ amount tid mode nonce vt pc recipient to_name msg) =
      Err (EInsufficientBalance tid (value_at (token_balances s) sk) a)
  else
    ∃ b, TM.updated_balances s (Transfer to_ amount tid mode nonce vt pc recipient to_name msg) = Ok b ∧
      value_at b sk = value_at (token_balances s) sk - a ∧ value_at b rk = value_at (token_balances s) rk + a ∧
      (∀ k, k ≠ sk → k ≠ rk → b !! k = token_balances s !! k) ∧ total b = total (token_balances s).
Proof.
  intros sk rk a Hne Ha Ho. unfold TM.updated_balances. rewrite !balance_of_value. fold sk rk a.
  case_test; [done|]. zbool. eexists. split; [done|].
  rewrite !value_at_insert, total_insert, value_at_insert, total_insert.
  rewrite (bool_decide_eq_false_2 (rk = sk)), (bool_decide_eq_true_2 (sk = sk)), (bool_decide_eq_true_2 (rk = rk)) by done.
  rewrite (bool_decide_eq_false_2 (sk = rk)) by done. cbn [Bal.new bal_value]. unfold saturating_sub, saturating_add.
  split_and!; [lia|lia| |lia]. intros k Hk1 Hk2. by rewrite !lookup_insert_ne.
Qed.

(** The balances computed for a transfer to oneself create tokens: when the recipient's key is the
    sender's own, the sender ends with the amount added, and the total grows by
    the amount. *)
Theorem self_transfer_inflates (s : State) (to_ : string) (amount : Balance) (tid : string) (mode : TransactionMode)
    (nonce : bytes) (vt : VerificationType) (pc : option PreCommitmentOp) (recipient to_name msg : string) :
  let sk := TM.make_balance_key (dev_public_key (device_info s)) tid in
  let a := bal_value amount in
  dev_public_key (device_info s) = str_bytes recipient →
  0 ≤ a ≤ value_at (token_balances s) sk → value_at (token_balances s) sk + a ≤ u64_max →
  ∃ b, TM.updated_balances s (Transfer to_ amount tid mode nonce vt pc recipient to_name msg) = Ok b ∧
    value_at b sk = value_at (token_balances s) sk + a ∧ total b = total (token_balances s) + a.
Proof.
  intros sk a Hpk Ha Ho. unfold TM.updated_balances. rewrite <- Hpk, !balance_of_value. fold sk a.
  rewrite (proj2 (Z.ltb_ge _ _)) by lia. eexists. split; [done|].
  rewrite insert_insert_eq, value_at_insert, total_insert, bool_decide_eq_true_2 by done. cbn [Bal.new bal_value].
  unfold saturating_add. lia.
Qed.

(** The balances computed for minting and burning change the owner's balance
    and the total by their amount, without checking any authorisation: a mint always succeeds, a burn
    succeeds exactly when the owner has the amount. *)
Theorem mint_burn_totals (s : State) (amount : Balance) (tid by_ : string) (proof : bytes) (msg : string) :
  let k := TM.make_balance_key (dev_public_key (device_info s)) tid in
  let a := bal_value amount in
  0 ≤ a → value_at (token_balances s) k + a ≤ u64_max →
  (∃ b, TM.updated_balances s (Mint amount tid by_ proof msg) = Ok b ∧
     value_at b k = value_at (token_balances s) k + a ∧ total b = total (token_balances s) + a) ∧
  (if value_at (token_balances s) k <? a then
     TM.updated_balances s (Burn amount tid proof msg) = Err (EInsufficientBalance tid (value_at (token_balances s) k) a)
   else
     ∃ b, TM.updated_balances s (Burn amount tid proof msg) = Ok b ∧
       value_at b k = value_at (token_balances s) k - a ∧ total b = total (token_balances s) - a).
Proof.
  intros k a Ha Ho. unfold TM.updated_balances, TM.verify_mint_authorization, TM.verify_token_ownership.
  cbn [mbind outcome_bind negb]. rewrite !balance_of_value. fold k a. split.
  - eexists. split; [done|]. rewrite value_at_insert, total_insert, bool_decide_eq_true_2 by done.
    cbn [Bal.new bal_value]. unfold saturating_add. lia.
  - case_test; [done|]. zbool. eexists. split; [done|].
    rewrite value_at_insert, total_insert, bool_decide_eq_true_2 by done.
    cbn [Bal.new bal_value]. unfold saturating_sub. lia.
Qed.

(** No token operation ever completes: [update_balance_cache] takes the
    cache's write lock and calls [optimize_balance_cache], which takes it again,
    so an operation that passes its checks deadlocks; neither
    [apply_token_operation], [bulk_load_balances] nor
    [create_token_state_transition] ever returns a result. *)
Theorem token_operations_deadlock (s : State) (op : Operation) (e : bytes) (enc : option bytes)
    (b : gmap string Balance) (m : TokenStateManager) :
  (TM.verify_token_policy m op = Ok tt → is_ok (TM.updated_balances s op) = true →
   (TM.apply_token_operation s op m).1 = Hang) ∧
  (TM.bulk_load_balances b m).1 = Hang ∧
  is_ok (TM.apply_token_operation s op m).1 = false ∧
  is_ok (TM.create_token_state_transition s op e enc m).1 = false.
Proof.
  split_and!.
  - intros Hp Hu. unfold TM.apply_token_operation, mbind_st, mlift. rewrite Hp.
    destruct (TM.updated_balances s op) as [nb| | |]; try done. pose proof (update_cache_hangs nb m) as H.
    destruct (TM.update_balance_cache nb m) as [[]]; done.
  - apply update_cache_hangs.
  - apply apply_not_ok.
  - unfold TM.create_token_state_transition, mbind_st at 1, mlift at 1. destruct (validate op); try done.
    unfold mbind_st at 1. pose proof (apply_not_ok s op m) as H.
    destruct (TM.apply_token_operation s op m) as [[] ?]; done.
Qed.

(** *** Every history of a manager *)

(** The calls that touch a manager's state, and the balances that a call would
    write into the cache if its lock were free. *)
Inductive TokenCall :=
  | CApply (s : State) (op : Operation)
  | CTransition (s : State) (op : Operation) (e : bytes) (enc : option bytes)
  | CBulk (balances : gmap string Balance)
  | COptimize
  | CMetadata (token_id : string) (metadata : bytes)
  | CRevoke (token_id : string).

Definition token_run (c : TokenCall) : M TokenStateManager unit :=
  match c with
  | CApply s op => do* TM.apply_token_operation s op; mret_st tt
  | CTransition s op e enc => do* TM.create_token_state_transition s op e enc; mret_st tt
  | CBulk b => TM.bulk_load_balances b
  | COptimize => TM.optimize_balance_cache
  | CMetadata id md => TM.update_token_metadata id md
  | CRevoke id => TM.revoke_token id
  end.

(** What the owner of a state lacks for an operation. *)
Definition refusal (s : State) (op : Operation) : option DsmError :=
  let funds tid := value_at (token_balances s) (TM.make_balance_key (dev_public_key (device_info s)) tid) in
  let check tid a := if funds tid <? a then Some (EInsufficientBalance tid (funds tid) a) else None in
  match op with
  | Transfer _ amount tid _ _ _ _ _ _ _ | Burn amount tid _ _ => check tid (bal_value amount)
  | _ => None
  end.

Definition call_writes (c : TokenCall) : option (gmap string Balance) :=
  match c with
  | CApply s op => match TM.updated_balances s op with Ok b => Some b | _ => None end
  | CTransition s op _ _ => match validate op, TM.updated_balances s op with Ok _, Ok b => Some b | _, _ => None end
  | CBulk b => Some b
  | _ => None
  end.

(** What a call returns, given whether the lock has been taken. *)
Definition call_outcome (held : bool) (c : TokenCall) : outcome unit :=
  let apply s op := match refusal s op with Some e => Err e | None => Hang end in
  match c with
  | CApply s op => apply s op
  | CTransition s op _ _ => _ ← validate op; apply s op
  | CBulk _ => Hang
  | COptimize => if held then Hang else Ok tt
  | CMetadata id _ | CRevoke id => Err (ENotFound "Token" (Some id))
  end.

(** A manager with an empty token store whose cache is what the first call that
    got past its checks has written, under a lock it still holds. *)
Definition manager_after (first : option (gmap string Balance)) (m : TokenStateManager) : Prop :=
  tm_token_store m = ∅ ∧ tm_cache_write_held m = bool_decide (is_Some first) ∧ tm_balance_cache m = unwrap_or ∅ first.

Lemma updated_balances_refusal s op :
  match refusal s op with
  | Some e => TM.updated_balances s op = Err e
  | None => is_ok (TM.updated_balances s op) = true
  end.
Proof.
  destruct op; cbn; try done; rewrite balance_of_value; by destruct (_ <? _).
Qed.

(** Taking the lock, and taking it again. *)
Lemma write_twice first m b : manager_after first m →
  TM.update_balance_cache b m = (Hang, (TM.update_balance_cache b m).2) ∧
  manager_after (Some (unwrap_or b first)) (TM.update_balance_cache b m).2 ∧
  (is_Some first → (TM.update_balance_cache b m).2 = m).
Proof.
  intros (Hs & Hh & Hc). unfold TM.update_balance_cache, TM.optimize_balance_cache, TM.write_cache, mbind_st, mmod.
  rewrite Hh. destruct first as [x|]; cbn in *.
  - split; [done|]. split; [by split_and!|done].
  - split; [done|]. split; [split_and!; [done..|]; cbn; by rewrite Hc, (right_id_L ∅ (∪))|by intros []].
Qed.

Lemma policy_passes m op : tm_token_store m = ∅ → TM.verify_token_policy m op = Ok tt.
Proof.
  intros Hs. unfold TM.verify_token_policy, TM.get_token. destruct (tm_policy_store m), (TM.policy_token_id op); try done.
  by rewrite Hs, lookup_empty.
Qed.

Lemma apply_history first m s op : manager_after first m →
  let '(o, m') := TM.apply_token_operation s op m in
  match refusal s op with
  | Some e => o = Err e ∧ m' = m
  | None => o = Hang ∧ (is_Some first → m' = m) ∧
      ∃ b, TM.updated_balances s op = Ok b ∧ manager_after (Some (unwrap_or b first)) m'
  end.
Proof.
  intros Hm. unfold TM.apply_token_operation, mbind_st, mlift. rewrite policy_passes by apply Hm.
  pose proof (updated_balances_refusal s op) as Hu. destruct (refusal s op) as [e|]; [by rewrite Hu|].
  destruct (TM.updated_balances s op) as [b| | |]; try done. destruct (write_twice first m b Hm) as (-> & Hw & Hsame).
  split; [done|]. split; [exact Hsame|]. by exists b.
Qed.

Lemma token_run_history first m c : manager_after first m →
  (token_run c m).1 = call_outcome (bool_decide (is_Some first)) c ∧
  manager_after (match first with Some b => Some b | None => call_writes c end) (token_run c m).2 ∧
  (is_Some first ∨ call_writes c = None → (token_run c m).2 = m).
Proof.
  intros Hm. assert (Hf : manager_after (match first with Some b => Some b | None => None end) m) by (by destruct first).
  destruct c as [s op|s op e enc|b| |id md|id]; cbn [token_run call_outcome call_writes].
  - pose proof (apply_history first m s op Hm) as H. pose proof (updated_balances_refusal s op) as Hu.
    unfold mbind_st. destruct (TM.apply_token_operation s op m) as [o m']. destruct (refusal s op) as [e|].
    + destruct H as [-> ->]. by rewrite Hu.
    + destruct H as (-> & Hsame & b & -> & H). split; [done|]. split; [by destruct first|]. intros [?|[=]]. by apply Hsame.
  - pose proof (apply_history first m s op Hm) as H. pose proof (updated_balances_refusal s op) as Hu.
    unfold TM.create_token_state_transition, mbind_st, mlift. destruct (validate op); cbn [mbind outcome_bind]; [|done..].
    destruct (TM.apply_token_operation s op m) as [o m']. destruct (refusal s op) as [e'|].
    + destruct H as [-> ->]. by rewrite Hu.
    + destruct H as (-> & Hsame & b & -> & H). split; [done|]. split; [by destruct first|]. intros [?|[=]]. by apply Hsame.
  - change (TM.bulk_load_balances b) with (TM.update_balance_cache b). destruct (write_twice first m b Hm) as (-> & Hw & Hsame).
    split; [done|]. split; [by destruct first|]. intros [?|[=]]. by apply Hsame.
  - destruct Hm as (Hs & Hh & Hc). unfold TM.optimize_balance_cache, TM.write_cache, TM.drop_guard, mbind_st, mmod. rewrite Hh.
    destruct first as [x|]; cbn in *; [done|]. split; [done|]. destruct m; cbn in *. subst. done.
  - destruct Hm as (Hs & Hh & Hc). unfold TM.update_token_metadata. by rewrite Hs, lookup_empty.
  - destruct Hm as (Hs & Hh & Hc). unfold TM.revoke_token. by rewrite Hs, lookup_empty.
Qed.

Lemma token_runs_after calls : ∀ first m, manager_after first m →
  manager_after (match first with Some b => Some b | None => head (omap call_writes calls) end)
    (fold_left (fun m c => (token_run c m).2) calls m).
Proof.
  induction calls as [|c calls IH]; intros first m Hm; cbn [fold_left omap list_omap]; [by destruct first|].
  destruct (token_run_history first m c Hm) as (_ & H & _). apply IH in H. by destruct first as [b|], (call_writes c).
Qed.


(** Balance keys do not separate owner and token: the key of an owner
    whose public key is a prefix, with the hex of the rest put in front of the
    token's id, is the same key. *)
Theorem balance_key_ambiguous (pk rest : bytes) (tid : string) :
  TM.make_balance_key (pk ++ rest) tid = TM.make_balance_key pk (hex_encode rest +:+ tid).
Proof. unfold TM.make_balance_key. by rewrite hex_encode_app, str_append_assoc. Qed.

(** Updating the metadata of a token in the store, which no method of the
    manager fills, drops its policy and its owner: the token
    stored afterwards has its own id as owner, the old owner's name as data and
    no policy anchor, so every operation on it passes the policy check. *)
Theorem metadata_update_drops_policy (m : TokenStateManager) (tid : string) (metadata : bytes) (old : Token) (op : Operation) :
  tm_token_store m !! tid = Some old → TM.policy_token_id op = Some tid →
  let '(o, m') := TM.update_token_metadata tid metadata m in
  o = Ok tt ∧ TM.verify_token_policy m' op = Ok tt ∧
  ∃ t, tm_token_store m' !! tid = Some t ∧ tok_owner_id t = tid ∧
    tok_token_data t = str_bytes (tok_owner_id old) ∧ tok_policy_anchor t = None ∧
    tok_status t = tok_status old ∧ tok_metadata t = metadata.
Proof.
  intros Hs Hop. unfold TM.update_token_metadata. rewrite Hs. split; [done|].
  set (t := Tok.set_status _ _). set (m' := TM.set_store _ m).
  assert (Ht : tm_token_store m' !! tid = Some t) by apply lookup_insert_eq. split.
  - unfold TM.verify_token_policy, TM.get_token. rewrite Hop, Ht. by destruct (tm_policy_store m').
  - exists t. by split_and!.
Qed.

End TokenProps.

(** ** Witnesses *)

Section TokenWitnesses.
#[local] Existing Instances Toy.toy_blake3 Toy.toy_runtime toy_bincode_operation
  ToySt.toy_bincode_balance ToySt.toy_bincode_precommitment.

Definition units (v : Z) : Balance := mkBalance v 0 0 None.
Definition own_key : string := TM.make_balance_key (str_bytes "pk") "GOLD".
Definition rich : State := St.set_token_balances {[own_key := units 10]} ToySt.genesis.
Definition pay (recipient : string) : Operation :=
  Transfer EmptyString (units 3) "GOLD" Bilateral [] VT_Standard None recipient EmptyString EmptyString.

Lemma transfer_conserves_witness :
  ∃ b, TM.updated_balances rich (pay "bob") = Ok b ∧ value_at b own_key = 7 ∧ total b = 10.
Proof.
  destruct (transfer_conserves rich EmptyString (units 3) "GOLD" Bilateral [] VT_Standard None "bob" EmptyString EmptyString)
    as (b & H1 & H2 & _ & _ & H3); [vm_compute; discriminate|vm_compute; discriminate|vm_compute; discriminate|].
  exists b. split; [exact H1|split; [exact H2|exact H3]].
Defined.

Lemma self_transfer_inflates_witness :
  ∃ b, TM.updated_balances rich (pay "pk") = Ok b ∧ value_at b own_key = 13 ∧ total b = 13.
Proof.
  destruct (self_transfer_inflates rich EmptyString (units 3) "GOLD" Bilateral [] VT_Standard None "pk" EmptyString EmptyString)
    as (b & H1 & H2 & H3); [reflexivity|vm_compute; split; discriminate|vm_compute; discriminate|].
  exists b. split; [exact H1|split; [exact H2|exact H3]].
Defined.

Lemma mint_burn_totals_witness :
  ∃ b, TM.updated_balances rich (Mint (units 3) "GOLD" EmptyString [] EmptyString) = Ok b ∧ total b = 13.
Proof.
  destruct (mint_burn_totals rich (units 3) "GOLD" EmptyString [] EmptyString) as [(b & H1 & _ & H2) _];
    [vm_compute; discriminate|vm_compute; discriminate|].
  exists b. split; [exact H1|exact H2].
Defined.

Lemma token_operations_deadlock_witness :
  (TM.apply_token_operation rich (pay "bob") (TM.new true)).1 = Hang.
Proof. apply (token_operations_deadlock rich (pay "bob") [] None ∅ (TM.new true)); vm_compute; reflexivity. Defined.

Definition guarded : Token := Tok.new_with_policy "alice" [] [] (units 10) (zeros 32).
Definition guarded_manager : TokenStateManager :=
  TM.set_store {["GOLD"%string := guarded]} (TM.with_policy_store (fun _ => Err EInvalidIndex) true).

Lemma metadata_update_drops_policy_witness :
  TM.verify_token_policy guarded_manager (pay "bob") =
    Err (EValidation "Failed to retrieve policy for token {}: {}") ∧
  TM.verify_token_policy (TM.update_token_metadata "GOLD" [] guarded_manager).2 (pay "bob") = Ok tt.
Proof.
  split; [vm_compute; reflexivity|].
  apply (metadata_update_drops_policy guarded_manager "GOLD" [] guarded (pay "bob")); [vm_compute; reflexivity|reflexivity].
Defined.

End TokenWitnesses.
