(* ===== verification/VectorClock.v ===== *)
(** * Vector clocks (dsm_storage_node/src/storage/vector_clock.rs)

    The clocks that order updates in the storage node's epidemic protocol.  A
    missing entry counts as 0, so clocks are compared up to [clock_equiv]. *)
From S2P Require Import Prelude.

Inductive VectorClockRelation := Before | After | Concurrent | Equal.

Record VectorClock := mkClock { counters : gmap string Z }.

Module VC.

Definition new : VectorClock := mkClock ∅.
Definition with_node (node : string) (v : Z) : VectorClock := mkClock {[node := v]}.

Definition get (c : VectorClock) (node : string) : Z := unwrap_or 0 (counters c !! node).

(** [*counter += 1] panics on overflow, with the entry already created. *)
Definition increment (node : string) : M VectorClock unit := fun c =>
  let v := get c node in
  match u64_add v 1 with
  | Ok v' => (Ok tt, mkClock (<[node := v']> (counters c)))
  | _ => (Panic, mkClock (<[node := v]> (counters c)))
  end.

Definition set (node : string) (v : Z) (c : VectorClock) : VectorClock :=
  mkClock (<[node := v]> (counters c)).

(** One turn of the loop of [merge]. *)
Definition merge_entry (m : gmap string Z) (e : string * Z) : gmap string Z :=
  <[e.1 := Z.max (unwrap_or 0 (m !! e.1)) e.2]> m.
Definition merge (c other : VectorClock) : VectorClock :=
  mkClock (foldl merge_entry (counters c) (map_to_list (counters other))).

(** The two loops of [compare]: [inl] is the early return. *)
Fixpoint scan_self (l : list (string * Z)) (other : VectorClock) (gt lt : bool) : VectorClockRelation + (bool * bool) :=
  match l with
  | [] => inr (gt, lt)
  | (node, v) :: l =>
      let w := get other node in
      let gt := if w <? v then true else gt in
      let lt := if v <? w then true else lt in
      if gt && lt then inl Concurrent else scan_self l other gt lt
  end.
Fixpoint scan_other (l : list (string * Z)) (c : VectorClock) (gt lt : bool) : VectorClockRelation + (bool * bool) :=
  match l with
  | [] => inr (gt, lt)
  | (node, w) :: l =>
      let lt := if bool_decide (counters c !! node = None) && (0 <? w) then true else lt in
      if gt && lt then inl Concurrent else scan_other l c gt lt
  end.

Definition compare (c other : VectorClock) : VectorClockRelation :=
  match scan_self (map_to_list (counters c)) other false false with
  | inl r => r
  | inr (gt, lt) =>
      match scan_other (map_to_list (counters other)) c gt lt with
      | inl r => r
      | inr (true, false) => After
      | inr (false, true) => Before
      | inr (false, false) => Equal
      | inr (true, true) => Concurrent
      end
  end.

Definition dominates (c other : VectorClock) : bool :=
  match compare c other with After | Equal => true | _ => false end.

(** [Display]: the entries in key order. *)
Fixpoint show_entries (first : bool) (l : list (string * Z)) : string :=
  match l with
  | [] => EmptyString
  | (node, v) :: l => (if first then EmptyString else ",") +:+ node +:+ ":" +:+ pretty v +:+ show_entries false l
  end.
Definition to_string (c : VectorClock) : string :=
  "{" +:+ show_entries true (sort_by_key (map_to_list (counters c))) +:+ "}".

End VC.

(** ** The causal order *)

(** Counters are u64. *)
Definition clock_wf (c : VectorClock) : Prop := map_Forall (fun _ v => u64_ok v) (counters c).
Definition clock_le (a b : VectorClock) : Prop := ∀ n, VC.get a n ≤ VC.get b n.
Definition clock_equiv (a b : VectorClock) : Prop := ∀ n, VC.get a n = VC.get b n.

#[global] Instance clock_le_pre : PreOrder clock_le.
Proof. split; [intros a n; lia|]. intros a b c H1 H2 n. specialize (H1 n). specialize (H2 n). lia. Qed.
#[global] Instance clock_equiv_equivalence : Equivalence clock_equiv.
Proof. split; [by intros a n|by intros a b H n|by intros a b c H1 H2 n; rewrite H1]. Qed.
#[global] Instance clock_le_proper : Proper (clock_equiv ==> clock_equiv ==> iff) clock_le.
Proof.
  intros a a' Ha b b' Hb. split; intros H n; specialize (H n); specialize (Ha n); specialize (Hb n); lia.
Qed.

Lemma get_nonneg c n : clock_wf c → 0 ≤ VC.get c n.
Proof.
  intros Hw. unfold VC.get. destruct (counters c !! n) as [v|] eqn:E; [|done]. apply (Hw n v E).
Qed.

Lemma clock_le_antisym a b : clock_le a b → clock_le b a → clock_equiv a b.
Proof. intros H1 H2 n. specialize (H1 n). specialize (H2 n). lia. Qed.

(** ** Merge *)

Lemma merge_entries_get l : ∀ m n, NoDup l.*1 → Forall (fun e => 0 ≤ e.2) l → map_Forall (fun _ v => 0 ≤ v) m →
  unwrap_or 0 (foldl VC.merge_entry m l !! n) =
  Z.max (unwrap_or 0 (m !! n)) (unwrap_or 0 ((list_to_map l : gmap string Z) !! n)).
Proof.
  assert (H0 : ∀ (m : gmap string Z) n, map_Forall (fun _ v => 0 ≤ v) m → 0 ≤ unwrap_or 0 (m !! n)).
  { intros m n Hm. destruct (m !! n) eqn:E; [by apply (Hm n)|done]. }
  induction l as [|[k v] l IH]; intros m n Hnd Hl Hm; cbn [foldl].
  - rewrite list_to_map_nil, lookup_empty. cbn. specialize (H0 m n Hm). lia.
  - apply NoDup_cons in Hnd as [Hk Hnd]. apply Forall_cons in Hl as [Hv Hl]. cbn in Hv.
    rewrite list_to_map_cons. rewrite IH; [|done|done|].
    + unfold VC.merge_entry. cbn [fst snd]. destruct (decide (n = k)) as [->|Hne].
      * rewrite !lookup_insert_eq. cbn [unwrap_or]. apply not_elem_of_list_to_map in Hk. cbn in Hk. rewrite Hk. cbn [unwrap_or].
        specialize (H0 m k Hm). lia.
      * by rewrite !lookup_insert_ne.
    + unfold VC.merge_entry. cbn [fst snd]. apply map_Forall_insert_2; [lia|done].
Qed.

Lemma merge_get a b n : clock_wf a → clock_wf b → VC.get (VC.merge a b) n = Z.max (VC.get a n) (VC.get b n).
Proof.
  intros Ha Hb. unfold VC.get, VC.merge. cbn [counters]. rewrite merge_entries_get.
  - by rewrite list_to_map_to_list.
  - apply NoDup_fst_map_to_list.
  - apply Forall_forall. intros [k v] Hin%elem_of_map_to_list. apply (Hb k v Hin).
  - intros k v Hk. apply (Ha k v Hk).
Qed.

Lemma merge_entries_wf l : ∀ m : gmap string Z, Forall (fun e => u64_ok e.2) l → map_Forall (fun _ v => u64_ok v) m →
  map_Forall (fun _ v => u64_ok v) (foldl VC.merge_entry m l).
Proof.
  induction l as [|[k v] l IH]; intros m Hl Hm; cbn [foldl]; [done|]. apply Forall_cons in Hl as [Hv Hl]. cbn in Hv.
  apply IH; [done|]. unfold VC.merge_entry. cbn. apply map_Forall_insert_2; [|done].
  unfold u64_ok in *. destruct (m !! k) as [w|] eqn:E; cbn; [specialize (Hm k w E); cbn in Hm|]; lia.
Qed.

Lemma merge_wf a b : clock_wf a → clock_wf b → clock_wf (VC.merge a b).
Proof.
  intros Ha Hb. apply merge_entries_wf; [|done]. apply Forall_forall. intros [k v] Hin%elem_of_map_to_list. apply (Hb k v Hin).
Qed.

(** ** Compare *)

(** What the flags of [compare] mean. *)
Definition some_gt (a b : VectorClock) : Prop := ∃ n, VC.get b n < VC.get a n.

Lemma ex_cons (P : string → Z → Prop) n v l :
  (∃ n' v', (n', v') ∈ (n, v) :: l ∧ P n' v') ↔ P n v ∨ ∃ n' v', (n', v') ∈ l ∧ P n' v'.
Proof.
  split.
  - intros (n' & v' & [[= -> ->]|Hin]%elem_of_cons & HP); eauto.
  - intros [HP|(n' & v' & Hin & HP)]; do 2 eexists; split; try done; [by left|by right].
Qed.

Lemma scan_self_spec l other : ∀ gt lt,
  match VC.scan_self l other gt lt with
  | inl r => r = Concurrent ∧ (gt = true ∨ ∃ n v, (n, v) ∈ l ∧ VC.get other n < v) ∧
             (lt = true ∨ ∃ n v, (n, v) ∈ l ∧ v < VC.get other n)
  | inr (gt', lt') => (gt' = true ↔ gt = true ∨ ∃ n v, (n, v) ∈ l ∧ VC.get other n < v) ∧
                      (lt' = true ↔ lt = true ∨ ∃ n v, (n, v) ∈ l ∧ v < VC.get other n)
  end.
Proof.
  induction l as [|[n v] l IH]; intros gt lt; cbn [VC.scan_self].
  - split; (split; [by left|]); by intros [|(? & ? & []%elem_of_nil & _)].
  - set (gt1 := if VC.get other n <? v then true else gt). set (lt1 := if v <? VC.get other n then true else lt).
    assert (Hg : gt1 = true ↔ gt = true ∨ VC.get other n < v).
    { unfold gt1. destruct (Z.ltb_spec (VC.get other n) v); [naive_solver|]. split; [by left|]. intros [|]; [done|lia]. }
    assert (Hl : lt1 = true ↔ lt = true ∨ v < VC.get other n).
    { unfold lt1. destruct (Z.ltb_spec v (VC.get other n)); [naive_solver|]. split; [by left|]. intros [|]; [done|lia]. }
    pose proof (ex_cons (fun n v => VC.get other n < v) n v l) as Xg.
    pose proof (ex_cons (fun n v => v < VC.get other n) n v l) as Xl. cbn beta in Xg, Xl.
    destruct (gt1 && lt1) eqn:E.
    + apply andb_true_iff in E as [E1 E2]. apply Hg in E1. apply Hl in E2. rewrite Xg, Xl. intuition.
    + specialize (IH gt1 lt1).
      destruct (VC.scan_self l other gt1 lt1) as [r|[gt' lt']]; rewrite Xg, Xl; intuition.
Qed.

Lemma scan_other_spec l c : ∀ gt lt,
  match VC.scan_other l c gt lt with
  | inl r => r = Concurrent ∧ gt = true ∧ (lt = true ∨ ∃ n w, (n, w) ∈ l ∧ counters c !! n = None ∧ 0 < w)
  | inr (gt', lt') => gt' = gt ∧ (lt' = true ↔ lt = true ∨ ∃ n w, (n, w) ∈ l ∧ counters c !! n = None ∧ 0 < w)
  end.
Proof.
  induction l as [|[n w] l IH]; intros gt lt; cbn [VC.scan_other].
  - split; [done|]. split; [by left|]. by intros [|(? & ? & []%elem_of_nil & _)].
  - set (lt1 := if _ && _ then true else lt).
    assert (Hl : lt1 = true ↔ lt = true ∨ (counters c !! n = None ∧ 0 < w)).
    { unfold lt1. case_bool_decide as E; cbn [andb]; [|naive_solver].
      destruct (Z.ltb_spec 0 w); [naive_solver|]. split; [by left|]. intros [|[]]; [done|lia]. }
    pose proof (ex_cons (fun n w => counters c !! n = None ∧ 0 < w) n w l) as Xl. cbn beta in Xl.
    destruct (gt && lt1) eqn:E.
    + apply andb_true_iff in E as [E1 E2]. apply Hl in E2. rewrite Xl. intuition.
    + specialize (IH gt lt1). destruct (VC.scan_other l c gt lt1) as [r|[gt' lt']]; rewrite Xl; intuition.
Qed.

Lemma entries_gt a b : clock_wf b →
  (∃ n v, (n, v) ∈ map_to_list (counters a) ∧ VC.get b n < v) ↔ some_gt a b.
Proof.
  intros Hb. split.
  - intros (n & v & Hin%elem_of_map_to_list & Hlt). exists n. unfold VC.get at 2. by rewrite Hin.
  - intros (n & Hlt). pose proof (get_nonneg b n Hb). unfold VC.get at 2 in Hlt.
    destruct (counters a !! n) as [v|] eqn:E; cbn in Hlt; [|lia].
    exists n, v. split; [by apply elem_of_map_to_list|done].
Qed.

Lemma entries_lt a b : clock_wf b →
  (∃ n v, (n, v) ∈ map_to_list (counters a) ∧ v < VC.get b n) ∨
  (∃ n w, (n, w) ∈ map_to_list (counters b) ∧ counters a !! n = None ∧ 0 < w) ↔ some_gt b a.
Proof.
  intros Hb. split.
  - intros [(n & v & Hin%elem_of_map_to_list & Hlt)|(n & w & Hin%elem_of_map_to_list & Hnone & Hlt)]; exists n; unfold VC.get.
    + rewrite Hin. exact Hlt.
    + by rewrite Hin, Hnone.
  - intros (n & Hlt). destruct (counters a !! n) as [v|] eqn:E.
    + left. exists n, v. unfold VC.get in Hlt at 1. rewrite E in Hlt. split; [by apply elem_of_map_to_list|done].
    + right. unfold VC.get in Hlt. rewrite E in Hlt. destruct (counters b !! n) as [w|] eqn:Ew; cbn in Hlt; [|lia].
      exists n, w. split; [by apply elem_of_map_to_list|done].
Qed.

Definition relation_of (gt lt : bool) : VectorClockRelation :=
  match gt, lt with true, false => After | false, true => Before | false, false => Equal | true, true => Concurrent end.

Lemma compare_flags a b : clock_wf b →
  ∃ gt lt, (gt = true ↔ some_gt a b) ∧ (lt = true ↔ some_gt b a) ∧ VC.compare a b = relation_of gt lt.
Proof.
  intros Hb. unfold VC.compare. pose proof (scan_self_spec (map_to_list (counters a)) b false false) as H1.
  pose proof (entries_gt a b Hb) as Hg. pose proof (entries_lt a b Hb) as Hl.
  destruct (VC.scan_self _ b false false) as [r|[g l]].
  - destruct H1 as (-> & [|G] & [|L]); try done. exists true, true. intuition.
  - destruct H1 as [G L]. pose proof (scan_other_spec (map_to_list (counters b)) a g l) as H2.
    destruct (VC.scan_other _ a g l) as [r|[g' l']].
    + destruct H2 as (-> & -> & L'). exists true, true. intuition congruence.
    + destruct H2 as [-> L']. exists g, l'. split_and!; [intuition congruence|intuition congruence|by destruct g, l'].
Qed.

Lemma not_some_gt a b : ¬ some_gt a b ↔ clock_le a b.
Proof.
  split.
  - intros H n. destruct (Z.le_gt_cases (VC.get a n) (VC.get b n)); [done|]. destruct H. by exists n.
  - intros H (n & Hn). specialize (H n). lia.
Qed.

Lemma flag_false (f : bool) (P : Prop) : (f = true ↔ P) → f = false ↔ ¬ P.
Proof. destruct f; naive_solver. Qed.

(** The mirrored relation. *)
Definition flip_relation (r : VectorClockRelation) : VectorClockRelation :=
  match r with Before => After | After => Before | r => r end.

(** Merging clocks one after the other. *)
Definition merge_all (c : VectorClock) (l : list VectorClock) : VectorClock := foldl VC.merge c l.

Lemma merge_all_get l : ∀ c n, clock_wf c → Forall clock_wf l →
  VC.get (merge_all c l) n = foldr Z.max (VC.get c n) (map (fun x => VC.get x n) l).
Proof.
  induction l as [|x l IH]; intros c n Hc Hl; [done|]. apply Forall_cons in Hl as [Hx Hl].
  cbn [merge_all foldl map foldr]. unfold merge_all in IH. rewrite IH, merge_get by auto using merge_wf.
  generalize (map (fun x => VC.get x n) l). intros zs. induction zs as [|z zs IHz]; cbn; lia.
Qed.

(** ** Properties *)

(** C12: [compare] decides the causal order: on well-formed clocks it answers
    after, before, equal or concurrent exactly as the counters, a missing one
    counting as 0, are pointwise above, below, equal or neither; comparing the
    other way round gives the mirrored answer, and [dominates] is the order. *)
Theorem compare_decides_causality (a b : VectorClock) :
  clock_wf a → clock_wf b →
  match VC.compare a b with
  | Before => clock_le a b ∧ ¬ clock_le b a
  | After => clock_le b a ∧ ¬ clock_le a b
  | Equal => clock_equiv a b
  | Concurrent => ¬ clock_le a b ∧ ¬ clock_le b a
  end ∧
  VC.compare b a = flip_relation (VC.compare a b) ∧
  (VC.dominates a b = true ↔ clock_le b a).
Proof.
  intros Ha Hb. destruct (compare_flags a b Hb) as (g & l & Hg & Hl & E).
  destruct (compare_flags b a Ha) as (g' & l' & Hg' & Hl' & E').
  assert (g' = l) as -> by (apply eq_true_iff_eq; by rewrite Hg', Hl).
  assert (l' = g) as -> by (apply eq_true_iff_eq; by rewrite Hl', Hg).
  pose proof (flag_false _ _ Hg) as Ng. pose proof (flag_false _ _ Hl) as Nl. rewrite not_some_gt in Ng, Nl.
  unfold VC.dominates. rewrite E, E'.
  assert (clock_le a b ↔ g = false) as Hab by (symmetry; exact Ng).
  assert (clock_le b a ↔ l = false) as Hba by (symmetry; exact Nl).
  destruct g, l; cbn [relation_of flip_relation]; rewrite ?Hab, ?Hba; split_and!; try done.
  apply clock_le_antisym; [by apply Hab|by apply Hba].
Qed.

(** [merge] is the least upper bound: the merged clock is above both, and
    below every clock that is above both. *)
Theorem merge_least_upper_bound (a b c : VectorClock) :
  clock_wf a → clock_wf b →
  clock_wf (VC.merge a b) ∧ clock_le a (VC.merge a b) ∧ clock_le b (VC.merge a b) ∧
  (clock_le a c → clock_le b c → clock_le (VC.merge a b) c).
Proof.
  intros Ha Hb. split; [by apply merge_wf|]. unfold clock_le. split_and!; intros.
  - rewrite merge_get by done. lia.
  - rewrite merge_get by done. lia.
  - rewrite merge_get by done. specialize (H n). specialize (H0 n). lia.
Qed.

(** Replicas converge: merging the same clocks in any order gives
    equivalent clocks. *)
Theorem merge_order_independent (c : VectorClock) (l l' : list VectorClock) :
  clock_wf c → Forall clock_wf l → l ≡ₚ l' → clock_equiv (merge_all c l) (merge_all c l').
Proof.
  intros Hc Hl Hp n. rewrite !merge_all_get; [|done|by rewrite <- Hp|done|done].
  clear Hl. induction Hp as [|x l l' _ IH|x y l|l1 l2 l3 _ IH1 _ IH2]; cbn; lia || congruence.
Qed.

(** An increment moves a clock strictly forward: it raises the node's
    counter by one and no other, and the new clock compares after the old one; at
    the largest u64 it panics. *)
Theorem increment_advances (c : VectorClock) (node : string) :
  clock_wf c →
  if VC.get c node =? u64_max then (VC.increment node c).1 = Panic
  else
    ∃ c', VC.increment node c = (Ok tt, c') ∧ clock_wf c' ∧ VC.get c' node = VC.get c node + 1 ∧
      (∀ n, n ≠ node → VC.get c' n = VC.get c n) ∧ VC.compare c' c = After.
Proof.
  intros Hc. unfold VC.increment, u64_add. pose proof (get_nonneg c node Hc) as H0.
  assert (Hm : VC.get c node ≤ u64_max).
  { unfold VC.get, u64_max. destruct (counters c !! node) as [v|] eqn:E; cbn; [apply (Hc node v E)|lia]. }
  case_test; zbool.
  - by rewrite (proj2 (Z.leb_gt _ _)) by lia.
  - rewrite (proj2 (Z.leb_le _ _)) by lia. eexists. split; [done|].
    set (c' := mkClock _). assert (Hn : VC.get c' node = VC.get c node + 1) by (unfold VC.get; cbn; by rewrite lookup_insert_eq).
    assert (Ho : ∀ n, n ≠ node → VC.get c' n = VC.get c n) by (intros n Hne; unfold VC.get; cbn; by rewrite lookup_insert_ne).
    assert (Hw : clock_wf c') by (apply map_Forall_insert_2; [unfold u64_ok; lia|done]).
    split_and!; [done|done|done|]. destruct (compare_flags c' c Hc) as (g & l & Hg & Hl & ->).
    assert (g = true) as -> by (apply Hg; exists node; lia).
    assert (l = false) as ->; [|done]. apply (flag_false _ _ Hl). apply not_some_gt. intros n.
    destruct (decide (n = node)) as [->|Hne]; [lia|]. rewrite Ho by done. lia.
Qed.

(** ** Witnesses *)

Definition clock_a : VectorClock := mkClock {["a"%string := 2]}.
Definition clock_b : VectorClock := mkClock {["b"%string := 1]}.
Lemma clock_a_wf : clock_wf clock_a.
Proof. apply map_Forall_singleton. split; [lia|reflexivity || (vm_compute; discriminate)]. Qed.
Lemma clock_b_wf : clock_wf clock_b.
Proof. apply map_Forall_singleton. split; [lia|reflexivity || (vm_compute; discriminate)]. Qed.

Lemma compare_decides_causality_witness : VC.compare clock_a clock_b = Concurrent ∧ ¬ clock_le clock_a clock_b.
Proof.
  split; [vm_compute; reflexivity|].
  exact (proj1 (proj1 (compare_decides_causality clock_a clock_b clock_a_wf clock_b_wf))).
Defined.

Lemma merge_least_upper_bound_witness : clock_le clock_a (VC.merge clock_a clock_b).
Proof. apply (merge_least_upper_bound clock_a clock_b clock_a clock_a_wf clock_b_wf). Defined.

Lemma merge_order_independent_witness :
  clock_equiv (merge_all VC.new [clock_a; clock_b]) (merge_all VC.new [clock_b; clock_a]).
Proof.
  apply (merge_order_independent VC.new [clock_a; clock_b] [clock_b; clock_a]).
  - apply map_Forall_empty.
  - apply Forall_cons_2; [exact clock_a_wf|apply Forall_cons_2; [exact clock_b_wf|apply Forall_nil_2]].
  - apply perm_swap.
Defined.

Lemma increment_advances_witness : ∃ c', VC.increment "a" clock_a = (Ok tt, c') ∧ VC.compare c' clock_a = After.
Proof.
  destruct (increment_advances clock_a "a" clock_a_wf) as (c' & H1 & _ & _ & _ & H2). exists c'. split; [exact H1|exact H2].
Defined.
