(* ===== verification/Sphincs.v ===== *)
(** * Signatures (dsm/src/crypto/sphincs.rs)

    The signature scheme the code calls SPHINCS+: key generation, the WOTS chain
    of the seeded generator, signing, verification and the self test.  The
    random generators are parameters; the hash contexts and the memory pool are
    overwritten before every use, so they carry nothing between calls. *)
From S2P Require Import Prelude.

Definition CRYPTO_N : nat := 32.
Definition SPX_ADDR_TYPE_WOTS : Z := 0.
Definition SPX_ADDR_TYPE_HASHTREE : Z := 2.
Definition SPX_WOTS_LEN : nat := 64.
Definition SPX_WOTS_PK_BYTES : nat := Z.to_nat 2144.
Definition CRYPTO_PUBLICKEYBYTES : nat := 64.
Definition CRYPTO_SECRETKEYBYTES : nat := 128.
Definition CRYPTO_BYTES : nat := Z.to_nat 49216.
Definition CHAIN_LEN : nat := 15.

(** [&l[a..b]]: a range outside the slice panics. *)
Definition slice (a b : nat) (l : bytes) : outcome bytes :=
  if (a <=? b)%nat && (b <=? length l)%nat then Ok (take (b - a) (drop a l)) else Panic.

(** [l[a..a + src.len()].copy_from_slice(src)] *)
Definition write_at (a : nat) (src l : bytes) : outcome bytes :=
  if (a + length src <=? length l)%nat then Ok (take a l ++ src ++ drop (a + length src) l) else Panic.

(** [SpxAddress]: eight u32 words. *)
Record SpxAddress := mkAddr { addr : list Z }.

Module Addr.

Definition new : SpxAddress := mkAddr (replicate 8 0).
Definition set (i : nat) (w : Z) (a : SpxAddress) : SpxAddress := mkAddr (<[i := w]> (addr a)).
Definition word (i : nat) (a : SpxAddress) : Z := nth i (addr a) 0.

Definition set_type (t : Z) : SpxAddress → SpxAddress := set 3 t.
Definition set_chain_addr (chain : Z) (a : SpxAddress) : SpxAddress :=
  set 6 (Z.lor (Z.land (word 6 a) 0xFFFFFF00) chain) a.
Definition set_hash_addr (h : Z) : SpxAddress → SpxAddress := set 7 h.
Definition set_keypair_addr (k : Z) : SpxAddress → SpxAddress := set 5 k.
Definition set_tree_height (h : Z) : SpxAddress → SpxAddress := set 4 h.
Definition set_tree_index (i : Z) : SpxAddress → SpxAddress := set 2 i.

(** [u32::to_be_bytes] of each word. *)
Definition into_bytes (a : SpxAddress) : bytes := mjoin (map (fun w => rev (le_bytes 4 w)) (addr a)).

End Addr.

Module Sphincs.
Section Sphincs.
Context {B3 : Blake3}.

(** Every caller passes an output of [CRYPTO_N] bytes, the length of a digest. *)
Definition thash (inputs : list bytes) : bytes := blake3 (mjoin inputs).

(** ** The WOTS chain of [wots_gen_pk] *)

(** [for j in 0..CHAIN_LEN]: [k] steps left, [j] done. *)
Fixpoint chain_loop (k : nat) (j : Z) (buf pub_seed : bytes) (a : SpxAddress) : bytes * SpxAddress :=
  match k with
  | O => (buf, a)
  | S k =>
      let a := Addr.set_chain_addr j (Addr.set_hash_addr j a) in
      chain_loop k (j + 1) (thash [buf; pub_seed; Addr.into_bytes a]) pub_seed a
  end.

(** [for i in 0..SPX_WOTS_LEN]: the address is shared by all turns. *)
Fixpoint wots_loop (k : nat) (i : Z) (sk_seed pub_seed : bytes) (a : SpxAddress) (pk : bytes) : outcome bytes :=
  match k with
  | O => Ok pk
  | S k =>
      let a := Addr.set_chain_addr 0 (Addr.set_keypair_addr i a) in
      let start := blake3 (sk_seed ++ le_bytes 1 i ++ Addr.into_bytes a) in
      let '(buf, a) := chain_loop CHAIN_LEN 0 start pub_seed a in
      pk ← write_at (Z.to_nat i * CRYPTO_N) buf pk;
      wots_loop k (i + 1) sk_seed pub_seed a pk
  end.

Definition wots_gen_pk (pk sk_seed pub_seed : bytes) (a : SpxAddress) : outcome bytes :=
  wots_loop SPX_WOTS_LEN 0 sk_seed pub_seed (Addr.set_type SPX_ADDR_TYPE_WOTS a) pk.

(** ** Key generation

    [random] is what the generator writes into the first 96 bytes of the secret
    key; the public root closes both keys. *)
Definition assemble (random root : bytes) : outcome (bytes * bytes) :=
  pub_seed ← slice (2 * CRYPTO_N) (3 * CRYPTO_N) random;
  Ok (pub_seed ++ root, random ++ root).

Definition generate_sphincs_keypair (random : bytes) : outcome (bytes * bytes) :=
  sk_seed ← slice 0 CRYPTO_N random;
  pub_seed ← slice (2 * CRYPTO_N) (3 * CRYPTO_N) random;
  assemble random (thash [sk_seed; pub_seed]).

Definition generate_sphincs_keypair_from_seed (chacha20 : bytes → bytes) (seed : bytes) : outcome (bytes * bytes) :=
  let random := chacha20 seed in
  sk_seed ← slice 0 CRYPTO_N random;
  pub_seed ← slice (2 * CRYPTO_N) (3 * CRYPTO_N) random;
  let wots_addr := Addr.set_type SPX_ADDR_TYPE_WOTS Addr.new in
  wots_pk ← wots_gen_pk (zeros SPX_WOTS_PK_BYTES) sk_seed pub_seed wots_addr;
  let root_addr := Addr.set_type SPX_ADDR_TYPE_HASHTREE Addr.new in
  assemble random (blake3 (pub_seed ++ Addr.into_bytes root_addr ++ wots_pk)).

(** ** Signing and verifying *)

Definition crypto_sign_signature (sig message sk : bytes) : outcome bytes :=
  _ ← slice 0 CRYPTO_N sk;
  sk_prf ← slice CRYPTO_N (2 * CRYPTO_N) sk;
  pub_seed ← slice (2 * CRYPTO_N) (3 * CRYPTO_N) sk;
  pub_root ← slice (3 * CRYPTO_N) (4 * CRYPTO_N) sk;
  sig ← write_at 0 (blake3 (sk_prf ++ message)) sig;
  r ← slice 0 CRYPTO_N sig;
  write_at CRYPTO_N (thash [r; pub_seed; pub_root; message]) sig.

Definition crypto_sign_verify (sig message pk : bytes) : outcome bool :=
  pub_seed ← slice 0 CRYPTO_N pk;
  pub_root ← slice CRYPTO_N (2 * CRYPTO_N) pk;
  r ← slice 0 CRYPTO_N sig;
  digest ← slice CRYPTO_N (2 * CRYPTO_N) sig;
  Ok (bool_decide (thash [r; pub_seed; pub_root; message] = digest)).

Definition sphincs_sign (sk message : bytes) : outcome bytes :=
  if bool_decide (message = []) then Err (ECrypto "Cannot sign empty message")
  else crypto_sign_signature (zeros CRYPTO_BYTES) message sk.

Definition sphincs_verify (pk message signature : bytes) : outcome bool :=
  if bool_decide (message = []) then Err (ECrypto "Cannot verify empty message")
  else crypto_sign_verify signature message pk.

(** ** The self test *)

Definition verify_sphincs_implementation (random : bytes) : outcome unit :=
  '(pk, sk) ← generate_sphincs_keypair random;
  let message := str_bytes "SPHINCS+ verification test message" in
  signature ← crypto_sign_signature (zeros CRYPTO_BYTES) message sk;
  verification ← crypto_sign_verify signature message pk;
  if negb verification then Err (ECrypto "Signature verification failed on valid message")
  else
    tampered ← crypto_sign_verify signature (str_bytes "Modified message") pk;
    if tampered : bool then Err (ECrypto "Verification incorrectly passed on modified message")
    else Ok tt.

(** The state is the flag [SPHINCS_INITIALIZED]; a failed self test panics with
    the flag already set. *)
Definition init_sphincs (random : bytes) : M bool unit := fun initialized =>
  if initialized then (Ok tt, true)
  else
    match verify_sphincs_implementation random with
    | Ok _ => (Ok tt, true)
    | Hang => (Hang, true)
    | _ => (Panic, true)
    end.

End Sphincs.
End Sphincs.

(** ** Slices *)

Lemma slice_app_l n l1 l2 : length l1 = n → slice 0 n (l1 ++ l2) = Ok l1.
Proof.
  intros <-. unfold slice. rewrite length_app. cbn [Nat.leb].
  rewrite (proj2 (Nat.leb_le _ _)) by lia. cbn [andb]. by rewrite Nat.sub_0_r, drop_0, take_app_length.
Qed.

Lemma slice_app_r a b l1 l2 : length l1 = a → (a ≤ b)%nat →
  slice a b (l1 ++ l2) = slice 0 (b - a) l2.
Proof.
  intros <- Hb. unfold slice. rewrite length_app, drop_app_length, (proj2 (Nat.leb_le _ _) Hb), drop_0, Nat.sub_0_r.
  cbn [andb Nat.leb]. destruct (Nat.leb_spec b (length l1 + length l2)), (Nat.leb_spec (b - length l1) (length l2)); done || lia.
Qed.

Lemma slice_full n l : length l = n → slice 0 n l = Ok l.
Proof. intros H. rewrite <- (app_nil_r l) at 1. by apply slice_app_l. Qed.

Lemma slice_total a b l : (a ≤ b ≤ length l)%nat → ∃ s, slice a b l = Ok s ∧ length s = (b - a)%nat.
Proof.
  intros [Ha Hb]. unfold slice. rewrite (proj2 (Nat.leb_le _ _) Ha), (proj2 (Nat.leb_le _ _) Hb). cbn [andb].
  eexists. split; [done|]. rewrite length_take, length_drop. lia.
Qed.

Lemma write_at_total a src l : (a + length src ≤ length l)%nat →
  write_at a src l = Ok (take a l ++ src ++ drop (a + length src) l).
Proof. intros H. unfold write_at. by rewrite (proj2 (Nat.leb_le _ _) H). Qed.

Lemma length_write_at a src l l' : write_at a src l = Ok l' → length l' = length l.
Proof.
  unfold write_at. destruct (Nat.leb_spec (a + length src) (length l)); [|done]. intros [= <-].
  rewrite !length_app, length_take, length_drop. lia.
Qed.

Section Facts.
Context {B3 : Blake3}.

Lemma thash_length l : length (Sphincs.thash l) = 32%nat.
Proof. apply blake3_length. Qed.

(** The public and the secret key of a pair share seed and root. *)
Definition keypair (pk sk : bytes) : Prop :=
  ∃ sk_seed sk_prf pub_seed pub_root,
    length sk_seed = 32%nat ∧ length sk_prf = 32%nat ∧ length pub_seed = 32%nat ∧ length pub_root = 32%nat ∧
    pk = pub_seed ++ pub_root ∧ sk = sk_seed ++ sk_prf ++ pub_seed ++ pub_root.

Lemma assemble_keypair random root : length random = 96%nat → length root = 32%nat →
  ∃ pk sk, Sphincs.assemble random root = Ok (pk, sk) ∧ keypair pk sk.
Proof.
  intros Hr Hroot.
  destruct (slice_total 64 96 random) as (p & Hp & Hlp); [lia|]. unfold Sphincs.assemble.
  change (2 * CRYPTO_N)%nat with 64%nat. change (3 * CRYPTO_N)%nat with 96%nat.
  rewrite Hp. cbn [mbind outcome_bind]. do 2 eexists. split; [done|].
  assert (p = drop 64 random) as ->.
  { unfold slice in Hp. case_test; [|done]. apply Ok_inj in Hp. rewrite <- Hp. apply take_ge. rewrite length_drop. lia. }
  exists (take 32 random), (take 32 (drop 32 random)), (drop 64 random), root.
  rewrite !length_take, !length_drop. split_and!; try lia; [done|].
  rewrite !app_assoc. f_equal. rewrite <- (take_drop 32 random) at 1. rewrite <- app_assoc. f_equal.
  rewrite <- (take_drop 32 (drop 32 random)) at 1. by rewrite drop_drop.
Qed.

(** The chains write inside the key buffer, so the seeded generator never panics. *)
Lemma chain_loop_length k : ∀ j buf p a, length buf = 32%nat → length (Sphincs.chain_loop k j buf p a).1 = 32%nat.
Proof. induction k as [|k IH]; intros; cbn [Sphincs.chain_loop]; [done|]. apply IH, thash_length. Qed.

Lemma wots_loop_total k : ∀ i sk_seed p a pk, 0 ≤ i → ((Z.to_nat i + k) * 32 ≤ length pk)%nat →
  ∃ pk', Sphincs.wots_loop k i sk_seed p a pk = Ok pk' ∧ length pk' = length pk.
Proof.
  induction k as [|k IH]; intros i sk_seed p a pk Hi Hl; [by exists pk|]. cbn [Sphincs.wots_loop].
  match goal with |- context [Sphincs.chain_loop ?n ?j ?b ?q ?ad] =>
    pose proof (chain_loop_length n j b q ad (blake3_length _)) as Hc;
    destruct (Sphincs.chain_loop n j b q ad) as [buf a'] end.
  cbn [fst] in Hc. rewrite write_at_total by (unfold CRYPTO_N; lia). cbn [mbind outcome_bind].
  match goal with |- context [Sphincs.wots_loop k _ _ _ _ ?q] => set (pk' := q) end.
  assert (Hl' : length pk' = length pk).
  { apply (length_write_at (Z.to_nat i * CRYPTO_N) buf). apply write_at_total. unfold CRYPTO_N. lia. }
  destruct (IH (i + 1) sk_seed p a' pk') as (r & Hr & Hlr); [lia|rewrite Hl'; lia|].
  exists r. split; [exact Hr|lia].
Qed.

Lemma generate_keypair random : length random = 96%nat →
  ∃ pk sk, Sphincs.generate_sphincs_keypair random = Ok (pk, sk) ∧ keypair pk sk.
Proof.
  intros H. unfold Sphincs.generate_sphincs_keypair.
  destruct (slice_total 0 CRYPTO_N random) as (a & -> & _); [unfold CRYPTO_N; lia|].
  destruct (slice_total (2 * CRYPTO_N) (3 * CRYPTO_N) random) as (b & -> & _); [unfold CRYPTO_N; lia|].
  cbn [mbind outcome_bind]. apply assemble_keypair; [done|apply thash_length].
Qed.

(** The root of a pair generated without a seed is the hash of the two seeds. *)
Lemma generate_keypair_shape random pk sk :
  length random = 96%nat → Sphincs.generate_sphincs_keypair random = Ok (pk, sk) →
  ∃ seed rest pub, length seed = 32%nat ∧ length pub = 32%nat ∧ pk = pub ++ blake3 (seed ++ pub) ∧ sk = seed ++ rest.
Proof.
  intros Hr. unfold Sphincs.generate_sphincs_keypair, Sphincs.assemble. change CRYPTO_N with 32%nat. cbn [Nat.mul Nat.add].
  destruct (slice_total 64 96 random) as (pub & -> & Hlp); [lia|].
  assert (slice 0 32 random = Ok (take 32 random)) as ->.
  { unfold slice. by rewrite drop_0, (proj2 (Nat.leb_le 32 _)) by lia. }
  cbn [mbind outcome_bind]. intros [= <- <-]. exists (take 32 random), (drop 32 random ++ blake3 (take 32 random ++ pub)), pub.
  unfold Sphincs.thash. cbn [mjoin list_join]. rewrite app_nil_r, length_take, app_assoc, take_drop. split_and!; [lia|done..].
Qed.

Lemma generate_keypair_from_seed chacha20 seed : length (chacha20 seed) = 96%nat →
  ∃ pk sk, Sphincs.generate_sphincs_keypair_from_seed chacha20 seed = Ok (pk, sk) ∧ keypair pk sk.
Proof.
  intros H. unfold Sphincs.generate_sphincs_keypair_from_seed.
  destruct (slice_total 0 CRYPTO_N (chacha20 seed)) as (a & -> & _); [unfold CRYPTO_N; lia|].
  destruct (slice_total (2 * CRYPTO_N) (3 * CRYPTO_N) (chacha20 seed)) as (b & -> & _); [unfold CRYPTO_N; lia|].
  cbn [mbind outcome_bind]. unfold Sphincs.wots_gen_pk.
  destruct (wots_loop_total SPX_WOTS_LEN 0 a b (Addr.set_type SPX_ADDR_TYPE_WOTS (Addr.set_type SPX_ADDR_TYPE_WOTS Addr.new))
    (zeros SPX_WOTS_PK_BYTES)) as (w & -> & _).
  - done.
  - unfold zeros. rewrite length_replicate. unfold SPX_WOTS_LEN, SPX_WOTS_PK_BYTES. lia.
  - cbn [mbind outcome_bind]. apply assemble_keypair; [done|apply blake3_length].
Qed.

(** A signature as the verifier reads it. *)
Lemma verify_shape seed root r d rest message :
  length seed = 32%nat → length root = 32%nat → length r = 32%nat → length d = 32%nat →
  Sphincs.crypto_sign_verify (r ++ d ++ rest) message (seed ++ root) =
    Ok (bool_decide (blake3 (r ++ seed ++ root ++ message) = d)).
Proof.
  intros Hs Hr Hn Hd. unfold Sphincs.crypto_sign_verify. change CRYPTO_N with 32%nat.
  rewrite !(slice_app_l 32) by done. cbn [mbind outcome_bind].
  rewrite (slice_app_r 32 _ seed root) by (done || lia). rewrite (slice_full _ root) by done.
  cbn [mbind outcome_bind].
  rewrite (slice_app_r 32 _ r) by (done || lia). rewrite (slice_app_l _ d) by done. cbn [mbind outcome_bind].
  unfold Sphincs.thash. cbn [mjoin list_join]. by rewrite app_nil_r.
Qed.

(** What the verifier hashes: nonce, public key and message. *)
Definition verifier_input (pk message sig : bytes) : bytes := take 32 sig ++ take 64 pk ++ message.

Lemma verify_input sig message pk v : Sphincs.crypto_sign_verify sig message pk = Ok v →
  v = bool_decide (blake3 (verifier_input pk message sig) = take 32 (drop 32 sig)).
Proof.
  unfold Sphincs.crypto_sign_verify, slice. change CRYPTO_N with 32%nat. rewrite !drop_0.
  repeat case_test; try done. intros [= <-]. unfold Sphincs.thash, verifier_input. cbn [mjoin list_join].
  rewrite app_nil_r. cbn [Nat.sub Nat.mul Nat.add]. change 64%nat with (32 + 32)%nat.
  by rewrite <- (take_take_drop pk 32 32), <- app_assoc.
Qed.

Lemma sign_shape sk_seed sk_prf seed root message sig :
  length sk_seed = 32%nat → length sk_prf = 32%nat → length seed = 32%nat → length root = 32%nat →
  (64 ≤ length sig)%nat →
  let r := blake3 (sk_prf ++ message) in
  Sphincs.crypto_sign_signature sig message (sk_seed ++ sk_prf ++ seed ++ root) =
    Ok (r ++ blake3 (r ++ seed ++ root ++ message) ++ drop 64 sig).
Proof.
  intros H1 H2 H3 H4 Hs r. unfold Sphincs.crypto_sign_signature. change CRYPTO_N with 32%nat.
  rewrite (slice_app_l 32) by done. cbn [mbind outcome_bind].
  rewrite !(slice_app_r 32 _ sk_seed) by (done || lia). cbn [Nat.mul Nat.add Nat.sub].
  rewrite (slice_app_l 32 sk_prf) by done. cbn [mbind outcome_bind].
  rewrite app_assoc, !(slice_app_r 64 _ (sk_seed ++ sk_prf)) by (rewrite ?length_app; lia).
  cbn [Nat.sub]. rewrite (slice_app_l 32 seed) by done. cbn [mbind outcome_bind].
  rewrite app_assoc, (slice_app_r 96 _ ((sk_seed ++ sk_prf) ++ seed)) by (rewrite ?length_app; lia).
  cbn [Nat.sub]. rewrite (slice_full 32 root) by done. cbn [mbind outcome_bind].
  fold r. assert (Hr : length r = 32%nat) by apply blake3_length.
  rewrite write_at_total by lia. cbn [mbind outcome_bind]. rewrite take_0, app_nil_l, Hr.
  rewrite (slice_app_l 32 r) by done. cbn [mbind outcome_bind].
  rewrite write_at_total by (rewrite length_app, length_drop, thash_length, Hr; lia).
  rewrite thash_length, (take_app_length' r) by done.
  rewrite (drop_app_ge r) by lia. rewrite Hr, drop_drop. unfold Sphincs.thash. cbn [mjoin list_join].
  by rewrite app_nil_r.
Qed.

End Facts.

(** ** Properties *)

Section Properties.
Context {B3 : Blake3}.

Lemma crypto_bytes_64 : (64 ≤ CRYPTO_BYTES)%nat.
Proof. unfold CRYPTO_BYTES. lia. Qed.
#[local] Opaque CRYPTO_BYTES.

Lemma sign_verify pk sk message : keypair pk sk → message ≠ [] →
  ∃ sig, Sphincs.sphincs_sign sk message = Ok sig ∧ length sig = CRYPTO_BYTES ∧
    Sphincs.sphincs_verify pk message sig = Ok true.
Proof.
  intros (a & b & p & r & Ha & Hb & Hp & Hr & -> & ->) Hm. unfold Sphincs.sphincs_sign, Sphincs.sphincs_verify.
  rewrite bool_decide_eq_false_2 by done.
  assert (Hz : length (zeros CRYPTO_BYTES) = CRYPTO_BYTES) by apply length_replicate.
  assert (H64 : (64 ≤ length (zeros CRYPTO_BYTES))%nat) by (rewrite Hz; exact crypto_bytes_64).
  rewrite sign_shape by assumption.
  eexists. split; [done|]. split.
  - rewrite !length_app, !blake3_length, length_drop, Hz. pose proof crypto_bytes_64. lia.
  - rewrite verify_shape by (assumption || apply blake3_length). by rewrite bool_decide_eq_true_2.
Qed.

(** Signatures round-trip: with 96 bytes from either generator, key
    generation returns a 64-byte public and a 128-byte secret key, signing any
    non-empty message succeeds with a signature of [CRYPTO_BYTES] bytes, and
    verification under the public key accepts it. *)
Theorem signature_roundtrip (chacha20 : bytes → bytes) (random seed message : bytes) :
  length random = 96%nat → length (chacha20 seed) = 96%nat → message ≠ [] →
  ∀ gen, gen = Sphincs.generate_sphincs_keypair random ∨
         gen = Sphincs.generate_sphincs_keypair_from_seed chacha20 seed →
  ∃ pk sk sig, gen = Ok (pk, sk) ∧ length pk = CRYPTO_PUBLICKEYBYTES ∧ length sk = CRYPTO_SECRETKEYBYTES ∧
    Sphincs.sphincs_sign sk message = Ok sig ∧ length sig = CRYPTO_BYTES ∧
    Sphincs.sphincs_verify pk message sig = Ok true.
Proof.
  intros Hr Hs Hm gen Hg.
  assert (∃ pk sk, gen = Ok (pk, sk) ∧ keypair pk sk) as (pk & sk & -> & Hk).
  { destruct Hg as [->| ->]; [by apply generate_keypair|by apply generate_keypair_from_seed]. }
  destruct (sign_verify pk sk message Hk Hm) as (sig & H1 & H2 & H3).
  exists pk, sk, sig. split_and!; try done;
    destruct Hk as (a & b & p & r & Ha & Hb & Hp & Hrr & -> & ->); rewrite !length_app; unfold CRYPTO_PUBLICKEYBYTES, CRYPTO_SECRETKEYBYTES; lia.
Qed.

(** The signature scheme is forgeable by anyone: from the public key alone, for
    every non-empty message and every 32 bytes in the place of the nonce, the
    nonce followed by the hash of nonce, public key and message is accepted;
    no part of the secret key enters the check. *)
Theorem signature_forgeable (pk r message : bytes) :
  length pk = CRYPTO_PUBLICKEYBYTES → length r = CRYPTO_N → message ≠ [] →
  Sphincs.sphincs_verify pk message (r ++ blake3 (r ++ pk ++ message)) = Ok true.
Proof.
  intros Hpk Hr Hm. unfold Sphincs.sphincs_verify. rewrite bool_decide_eq_false_2 by done.
  unfold CRYPTO_PUBLICKEYBYTES in Hpk.
  rewrite <- (app_nil_r (blake3 (r ++ pk ++ message))). rewrite <- (take_drop 32 pk).
  rewrite verify_shape; [| rewrite length_take; lia | rewrite length_drop; lia | done | apply blake3_length].
  rewrite app_assoc. by rewrite bool_decide_eq_true_2 by (by rewrite !app_assoc).
Qed.

(** A signature binds the message: one signature accepted for two messages
    under one key means equal messages or a collision of the two inputs that the
    verifications hash. *)
Theorem signature_binds_message (pk m m' sig : bytes) :
  Sphincs.sphincs_verify pk m sig = Ok true → Sphincs.sphincs_verify pk m' sig = Ok true →
  m = m' ∨ collision blake3 [verifier_input pk m sig; verifier_input pk m' sig].
Proof.
  unfold Sphincs.sphincs_verify. do 2 case_test; try done.
  intros H1%verify_input%eq_sym%bool_decide_eq_true H2%verify_input%eq_sym%bool_decide_eq_true.
  rewrite <- H2 in H1. apply hash_bind in H1 as [E|Hc]; [left|by right].
  by do 2 apply (inj (app _)) in E.
Qed.

(** The self test passes, or the inputs that it hashes for the message and for
    the modified message collide. *)
Theorem self_test_passes (random : bytes) :
  length random = 96%nat →
  ∃ pk sk sig, Sphincs.generate_sphincs_keypair random = Ok (pk, sk) ∧
    Sphincs.crypto_sign_signature (zeros CRYPTO_BYTES) (str_bytes "SPHINCS+ verification test message") sk = Ok sig ∧
    (Sphincs.init_sphincs random false = (Ok tt, true) ∨
     collision blake3 [verifier_input pk (str_bytes "Modified message") sig;
       verifier_input pk (str_bytes "SPHINCS+ verification test message") sig]).
Proof.
  intros Hr. destruct (generate_keypair random Hr) as (pk & sk & Hg & Hk). exists pk, sk.
  unfold Sphincs.init_sphincs, Sphincs.verify_sphincs_implementation. rewrite Hg. cbn [mbind outcome_bind].
  destruct Hk as (a & b & p & r & Ha & Hb & Hp & Hrr & -> & ->).
  assert (H64 : (64 ≤ length (zeros CRYPTO_BYTES))%nat)
    by (unfold zeros; rewrite length_replicate; exact crypto_bytes_64).
  rewrite sign_shape by assumption. eexists. split; [done|]. split; [done|].
  cbn [mbind outcome_bind]. rewrite !verify_shape by (assumption || apply blake3_length). cbn [mbind outcome_bind].
  rewrite bool_decide_eq_true_2 by done. cbn [negb]. case_bool_decide as E; [right|by left].
  unfold verifier_input. rewrite !(take_app_length' (blake3 _)), !take_ge by (rewrite ?length_app, ?blake3_length; lia).
  rewrite <- !app_assoc. apply hash_bind in E as [E|?]; [|done]. by do 3 apply (inj (app _)) in E.
Qed.

End Properties.

(** ** Witnesses *)

Section Witnesses.
#[local] Existing Instances Toy.toy_blake3.

Lemma signature_roundtrip_witness :
  ∃ pk sk sig, Sphincs.generate_sphincs_keypair (zeros 96) = Ok (pk, sk) ∧
    Sphincs.sphincs_sign sk [Byte.x01] = Ok sig ∧ Sphincs.sphincs_verify pk [Byte.x01] sig = Ok true.
Proof.
  destruct (signature_roundtrip (fun _ => zeros 96) (zeros 96) [] [Byte.x01] eq_refl eq_refl
    ltac:(discriminate) _ (or_introl eq_refl)) as (pk & sk & sig & H1 & _ & _ & H2 & _ & H3).
  exists pk, sk, sig. split; [exact H1|split; [exact H2|exact H3]].
Defined.

Lemma signature_forgeable_witness :
  Sphincs.sphincs_verify (zeros 64) [Byte.x01] (zeros 32 ++ blake3 (zeros 32 ++ zeros 64 ++ [Byte.x01])) = Ok true.
Proof. apply (signature_forgeable (zeros 64) (zeros 32) [Byte.x01] eq_refl eq_refl). discriminate. Defined.

End Witnesses.
