(* ===== verification/Precommit.v ===== *)
(** * Pre-commitments (dsm/src/commitments/precommit.rs and
      dsm/src/commitments/parameter_comparison.rs)

    Pre-commitments with several execution forks, the selection of one fork and
    the invalidation of the others; forward-linked commitments with their
    signatures; the comparison of an operation with committed parameters.
    Signature maps are only looked up and counted and are [gmap]s; parameter maps
    and sets are lists in their iteration order.  A [CommitmentError] is the
    [DsmError] it is converted to; the readings of the clock are an argument, and
    one before the epoch is [None]. *)
From S2P Require Import Prelude Tokens Operations SparseIdx States Batch Sphincs.

(** ** Data *)

Record EmbeddedCommitment := mkEmbedded {
  ec_commitment_hash : bytes;
  ec_entity_signature : bytes;
  ec_counterparty_signature : bytes;
  ec_variable_parameters : list string;
  ec_fixed_parameters : list (string * bytes);
  ec_counterparty_id : string;
  ec_min_state_number : Z;
}.

(** [ForkPath]: fork id, fixed parameters, variable parameters. *)
Abbreviation ForkPath := (string * list (string * bytes) * list string)%type.

Record ForkInvalidationProof := mkInvalidation {
  ip_fork_id : string;
  ip_fork_hash : bytes;
  ip_selected_fork_hash : bytes;
  ip_signatures : gmap string bytes;
  ip_timestamp : Z;
}.

Record PreCommitmentFork := mkFork {
  fk_fork_id : string;
  fk_hash : bytes;
  fk_fixed_params : list (string * bytes);
  fk_variable_params : list string;
  fk_positions : bytes;
  fk_signatures : gmap string bytes;
  fk_is_selected : bool;
  fk_invalidation_proof : option ForkInvalidationProof;
}.

(** [precommit::PreCommitment]; the state's own [PreCommitment] is in [States]. *)
Record ForkedCommitment := mkForked {
  fc_hash : bytes;
  fc_signatures : gmap string bytes;
  fc_forks : list PreCommitmentFork;
  fc_selected_fork_id : option string;
  fc_forward_commitment : option ForwardLinkedCommitment;
  fc_commitment_hash : bytes;
  fc_fixed_parameters : gmap string bytes;
  fc_variable_parameters : list string;
  fc_security_params : SecurityParameters;
  fc_data : bytes;
}.

(** Parameters in sorted order, as every hash of this file absorbs them. *)
Definition params_bytes (fixed : list (string * bytes)) (vars : list string) : bytes :=
  mjoin (map (fun p => str_bytes p.1 ++ p.2) (sort_by_key fixed)) ++ mjoin (map str_bytes (sort_strings vars)).

(** [CommitmentError::Verification] becomes [DsmError::Validation]. *)
Definition verification_error (msg : string) : DsmError := EValidation msg.

(** ** [ForkInvalidationProof] *)

Definition proof_verify_integrity (p : ForkInvalidationProof) (expected_fork_hash : bytes) (min_signatures : Z)
    : outcome bool :=
  if negb (bool_decide (expected_fork_hash = ip_fork_hash p)) then Ok false
  else if Z.of_nat (size (ip_signatures p)) <? min_signatures then Ok false
  else Ok true.

(** ** [PreCommitment] *)
Module PC.
Section PC.
Context {B3 : Blake3} {RT : Runtime}.
Context {SO : Bincode Operation} {SB : Bincode Balance} {SP : Bincode PreCommitment}.

Definition generate_hash (s : State) (op : Operation) (next_entropy : bytes) : outcome bytes :=
  state_hash ← St.get_hash s;
  op_bytes ← serialize_or "Failed to serialize operation" op;
  Ok (blake3 (state_hash ++ op_bytes ++ next_entropy)).

Definition new (hash : bytes) : ForkedCommitment :=
  mkForked hash ∅ [] None None (blake3 hash) ∅ [] default_security [].

Definition new_with_signatures (hash : bytes) (signatures : gmap string bytes) : ForkedCommitment :=
  mkForked hash signatures [] None None (blake3 (hash ++ str_bytes "commitment_hash")) ∅ [] default_security [].

Definition default : ForkedCommitment :=
  mkForked (zeros 32) ∅ [] None None (zeros 32) ∅ [] default_security [].

(** One byte per position, derived from the digest and a counter. *)
Definition create_fork_positions (fork_hash : bytes) (count : Z) : bytes :=
  let base := blake3 fork_hash in
  map (fun i => nth 0 (blake3 (base ++ u64_le (Z.of_nat i))) Byte.x00) (seq 0 (Z.to_nat count)).

Definition fork_buffer (base_hash : bytes) (fork_id : string) (fixed : list (string * bytes)) (vars : list string) : bytes :=
  base_hash ++ str_bytes fork_id ++ params_bytes fixed vars.

(** One turn of the loop over the paths of [new_forked]. *)
Definition make_fork (base_hash : bytes) (count : Z) (p : ForkPath) : PreCommitmentFork :=
  let '(fork_id, fixed, vars) := p in
  let buffer := fork_buffer base_hash fork_id fixed vars in
  mkFork fork_id (blake3 buffer) fixed vars (create_fork_positions buffer count) ∅ false None.

Definition add_variables (acc vars : list string) : list string :=
  foldl (fun acc v => if bool_decide (v ∈ acc) then acc else acc ++ [v]) acc vars.

Definition new_forked (base_hash : bytes) (paths : list ForkPath) (security : option SecurityParameters)
    : outcome ForkedCommitment :=
  match paths with
  | [] => Err (verification_error "At least one fork path required")
  | _ =>
      let security := unwrap_or default_security security in
      let forks := map (make_fork base_hash (min_positions security)) paths in
      let fixed := foldl (fun m (p : ForkPath) => foldl (fun m kv => <[kv.1 := kv.2]> m) m p.1.2) (∅ : gmap string bytes) paths in
      let vars := foldl (fun acc (p : ForkPath) => add_variables acc p.2) [] paths in
      Ok (mkForked base_hash ∅ forks None None (blake3 base_hash) fixed vars security [])
  end.

Definition set_signatures (m : gmap string bytes) (c : ForkedCommitment) : ForkedCommitment :=
  mkForked (fc_hash c) m (fc_forks c) (fc_selected_fork_id c) (fc_forward_commitment c) (fc_commitment_hash c)
    (fc_fixed_parameters c) (fc_variable_parameters c) (fc_security_params c) (fc_data c).
Definition set_forks (l : list PreCommitmentFork) (c : ForkedCommitment) : ForkedCommitment :=
  mkForked (fc_hash c) (fc_signatures c) l (fc_selected_fork_id c) (fc_forward_commitment c) (fc_commitment_hash c)
    (fc_fixed_parameters c) (fc_variable_parameters c) (fc_security_params c) (fc_data c).
Definition set_selected (id : option string) (c : ForkedCommitment) : ForkedCommitment :=
  mkForked (fc_hash c) (fc_signatures c) (fc_forks c) id (fc_forward_commitment c) (fc_commitment_hash c)
    (fc_fixed_parameters c) (fc_variable_parameters c) (fc_security_params c) (fc_data c).

Definition add_signature (signer_id : string) (signature : bytes) : M ForkedCommitment unit := fun c =>
  match fc_signatures c !! signer_id with
  | Some _ => (Err (verification_error "Signature from {} already exists"), c)
  | None => (Ok tt, set_signatures (<[signer_id := signature]> (fc_signatures c)) c)
  end.

Definition has_signature_from (c : ForkedCommitment) (signer_id : string) : bool :=
  existsb (fun k => bool_decide (str_bytes k = str_bytes signer_id)) (map_to_list (fc_signatures c)).*1.

Definition has_required_signatures (c : ForkedCommitment) (required : Z) : bool :=
  required <=? Z.of_nat (size (fc_signatures c)).

(** [forks.iter().find(|f| f.fork_id == id)] and its mutable counterpart. *)
Fixpoint find_fork (id : string) (l : list PreCommitmentFork) : option PreCommitmentFork :=
  match l with
  | [] => None
  | f :: l => if bool_decide (fk_fork_id f = id) then Some f else find_fork id l
  end.
Fixpoint update_fork (g : PreCommitmentFork → PreCommitmentFork) (id : string) (l : list PreCommitmentFork)
    : list PreCommitmentFork :=
  match l with
  | [] => []
  | f :: l => if bool_decide (fk_fork_id f = id) then g f :: l else f :: update_fork g id l
  end.

(** [clock] is the reading of the system clock, [None] for one before the epoch. *)
Definition create_invalidation_proof (clock : option Z) (c : ForkedCommitment) (fork_id selected_fork_id : string)
    : outcome ForkInvalidationProof :=
  fork ← ok_or (verification_error "Fork to invalidate not found") (find_fork fork_id (fc_forks c));
  selected ← ok_or (verification_error "Selected fork not found") (find_fork selected_fork_id (fc_forks c));
  timestamp ← ok_or (ECrypto "Failed to get system time") clock;
  Ok (mkInvalidation fork_id (fk_hash fork) (fk_hash selected) (fc_signatures c) timestamp).

Definition compute_fork_verification_context (c : ForkedCommitment) (f : PreCommitmentFork) : outcome bytes :=
  Ok (fork_buffer (fc_hash c) (fk_fork_id f) (fk_fixed_params f) (fk_variable_params f)).

(** The signatures of the fork that the commitment holds as well. *)
Definition valid_signatures (c : ForkedCommitment) (f : PreCommitmentFork) : Z :=
  Z.of_nat (length (List.filter (fun '(signer, sig) => bool_decide (fc_signatures c !! signer = Some sig))
    (map_to_list (fk_signatures f)))).

Definition verify_fork_selection (c : ForkedCommitment) (f : PreCommitmentFork) : outcome bool :=
  let min_signatures := min_signatures (fc_security_params c) in
  if (min_signatures =? 1) && negb (bool_decide (fk_signatures f = ∅)) then Ok true
  else if bool_decide (fk_signatures f = ∅) then Ok false
  else if valid_signatures c f <? min_signatures then Ok false
  else if negb (bool_decide (create_fork_positions (fk_hash f) (min_positions (fc_security_params c)) = fk_positions f))
  then Ok false
  else
    context ← compute_fork_verification_context c f;
    Ok (bool_decide (blake3 context = fk_hash f)).

Definition mark_selected (f : PreCommitmentFork) : PreCommitmentFork :=
  mkFork (fk_fork_id f) (fk_hash f) (fk_fixed_params f) (fk_variable_params f) (fk_positions f)
    (fk_signatures f) true (fk_invalidation_proof f).
Definition mark_invalid (p : ForkInvalidationProof) (f : PreCommitmentFork) : PreCommitmentFork :=
  mkFork (fk_fork_id f) (fk_hash f) (fk_fixed_params f) (fk_variable_params f) (fk_positions f)
    ∅ false (Some p).

(** [for other_fork_id in fork_ids]; the clock is read once per turn. *)
Fixpoint invalidate_loop (clock : nat → option Z) (others : list string) (fork_id : string) : M ForkedCommitment unit :=
  match others with
  | [] => mret_st tt
  | other :: others =>
      let* c := mget in
      let* p := mlift (create_invalidation_proof (clock 0%nat) c other fork_id) in
      do* mmod (fun c => set_forks (update_fork (mark_invalid p) other (fc_forks c)) c);
      invalidate_loop (fun i => clock (S i)) others fork_id
  end.

Definition other_fork_ids (fork_id : string) (c : ForkedCommitment) : list string :=
  map fk_fork_id (List.filter (fun f => negb (bool_decide (fk_fork_id f = fork_id))) (fc_forks c)).

(** An error of the clock leaves the loop with the fork marked already. *)
Definition select_fork (clock : nat → option Z) (fork_id : string) : M ForkedCommitment unit := fun c =>
  match (fork ← ok_or (verification_error "Fork with ID {} not found") (find_fork fork_id (fc_forks c));
         verify_fork_selection c fork) with
  | Ok true =>
      invalidate_loop clock (other_fork_ids fork_id c) fork_id
        (set_selected (Some fork_id) (set_forks (update_fork mark_selected fork_id (fc_forks c)) c))
  | Ok false => (Err (verification_error "Fork with ID {} has insufficient signatures for selection"), c)
  | Err e => (Err e, c)
  | Panic => (Panic, c)
  | Hang => (Hang, c)
  end.

(** The two loops of [verify_signatures]; [is_err] drops the verdict. *)
Fixpoint check_signatures (public_keys : gmap string bytes) (hash : bytes) (l : list (string * bytes)) : outcome bool :=
  match l with
  | [] => Ok true
  | (signer, sig) :: l =>
      match public_keys !! signer with
      | None => Panic
      | Some pk =>
          match Sphincs.sphincs_verify pk hash sig with
          | Ok _ => check_signatures public_keys hash l
          | Err _ => Ok false
          | Panic => Panic
          | Hang => Hang
          end
      end
  end.

Definition verify_signatures (c : ForkedCommitment) (public_keys : gmap string bytes) : outcome bool :=
  let l := map_to_list (fc_signatures c) in
  if forallb (fun p => bool_decide (is_Some (public_keys !! p.1))) l
  then check_signatures public_keys (fc_hash c) l
  else Err (verification_error "Public key for signer {} not provided").

Definition get_selected_fork (c : ForkedCommitment) : option PreCommitmentFork :=
  id ← fc_selected_fork_id c; find_fork id (fc_forks c).

Definition is_fork_invalidated (c : ForkedCommitment) (fork_id : string) : outcome bool :=
  match find_fork fork_id (fc_forks c) with
  | None => Ok false
  | Some f =>
      match fk_invalidation_proof f with
      | None => Ok false
      | Some p =>
          if Z.of_nat (size (ip_signatures p)) <? min_signatures (fc_security_params c) then Ok false
          else if negb (bool_decide (ip_fork_hash p = fk_hash f)) then Ok false
          else if negb (existsb (fun g => bool_decide (fk_hash g = ip_selected_fork_hash p)) (fc_forks c)) then Ok false
          else Ok true
      end
  end.

Definition add_forward_commitment (fc : ForwardLinkedCommitment) (c : ForkedCommitment) : ForkedCommitment :=
  mkForked (fc_hash c) (fc_signatures c) (fc_forks c) (fc_selected_fork_id c) (Some fc) (fc_commitment_hash c)
    (fc_fixed_parameters c) (fc_variable_parameters c) (fc_security_params c) (fc_data c).
Definition get_forward_commitment (c : ForkedCommitment) : option ForwardLinkedCommitment := fc_forward_commitment c.
Definition with_security_params (p : SecurityParameters) (c : ForkedCommitment) : ForkedCommitment :=
  mkForked (fc_hash c) (fc_signatures c) (fc_forks c) (fc_selected_fork_id c) (fc_forward_commitment c)
    (fc_commitment_hash c) (fc_fixed_parameters c) (fc_variable_parameters c) p (fc_data c).

Definition verify (c : ForkedCommitment) (s : State) : outcome bool :=
  state_hash ← St.get_hash s;
  if negb (bool_decide (fc_hash c = state_hash)) then Ok false
  else if negb (bool_decide (fc_commitment_hash c = blake3 (fc_hash c))) then Ok false
  else
    match fc_selected_fork_id c with
    | Some fork_id =>
        match find_fork fork_id (fc_forks c) with
        | None => Ok false
        | Some f =>
            if negb (fk_is_selected f) then Ok false
            else
              ok ← verify_fork_selection c f;
              if negb ok then Ok false else Ok true
        end
    | None => Ok true
    end.

Definition from_forward_linked_commitment (flc : ForwardLinkedCommitment) : outcome ForkedCommitment :=
  let signatures : gmap string bytes := match flc_entity_signature flc with Some s => {["entity"%string := s]} | None => ∅ end in
  let signatures := match flc_counterparty_signature flc with
                    | Some s => <["counterparty"%string := s]> signatures | None => signatures end in
  let fork := mkFork "default" (flc_commitment_hash flc) (flc_fixed_parameters flc) (flc_variable_parameters flc)
                [] signatures true None in
  Ok (mkForked (flc_commitment_hash flc) signatures [fork] (Some "default"%string) (Some flc)
        (flc_commitment_hash flc) (list_to_map (flc_fixed_parameters flc)) (flc_variable_parameters flc)
        default_security []).

(** [Vec<u8>::zeroize]: the bytes are overwritten and the vector is emptied. *)
Definition zeroize_fork (f : PreCommitmentFork) : PreCommitmentFork :=
  mkFork (fk_fork_id f) [] (fk_fixed_params f) (fk_variable_params f) []
    ((fun _ => []) <$> fk_signatures f) (fk_is_selected f)
    ((fun p => mkInvalidation (ip_fork_id p) [] [] ((fun _ => []) <$> ip_signatures p) (ip_timestamp p))
       <$> fk_invalidation_proof f).
Definition zeroize_forward (c : ForwardLinkedCommitment) : ForwardLinkedCommitment :=
  mkFLC (flc_next_state_hash c) (flc_entity_id c) (flc_counterparty_id c) (flc_fixed_parameters c)
    (flc_variable_parameters c) ((fun _ => []) <$> flc_entity_signature c)
    ((fun _ => []) <$> flc_counterparty_signature c) [] (flc_min_state_number c).
Definition zeroize (c : ForkedCommitment) : ForkedCommitment :=
  mkForked [] ((fun _ => []) <$> fc_signatures c) (map zeroize_fork (fc_forks c)) (fc_selected_fork_id c)
    (zeroize_forward <$> fc_forward_commitment c) [] (fc_fixed_parameters c) (fc_variable_parameters c)
    (fc_security_params c) (fc_data c).

End PC.
End PC.

(** ** Parameters of an operation (parameter_comparison.rs) *)
Module Params.
Section Params.
Context {SM : Bincode TransactionMode} {SV : Bincode VerificationType} {SPO : Bincode PreCommitmentOp}.
Context {SB : Bincode Balance} {SL : Bincode (list bytes)}.

(** [params.insert(k, v)] for each pair in order. *)
Definition extend (m : gmap string bytes) (l : list (string * bytes)) : gmap string bytes :=
  foldl (fun m kv => <[kv.1 := kv.2]> m) m l.

Definition balance_to_bytes (b : Balance) : bytes := unwrap_or [] (serialize b).

Definition kind (name : string) : string * bytes := ("operation_type"%string, str_bytes name).

Definition verify_bilateral_transfer_parameters (nonce : bytes) (verification : VerificationType)
    (pre_commit : option PreCommitmentOp) : outcome (gmap string bytes) :=
  v ← unwrap (serialize verification);
  let params := extend ∅ [kind "transfer"; ("nonce"%string, nonce); ("verification"%string, v)] in
  match pre_commit with
  | Some pc => x ← unwrap (serialize pc); Ok (<["pre_commit"%string := x]> params)
  | None => Ok params
  end.

Definition verify_unilateral_transfer_parameters (nonce : bytes) (verification : VerificationType)
    : outcome (gmap string bytes) :=
  v ← unwrap (serialize verification);
  Ok (extend ∅ [kind "transfer"; ("nonce"%string, nonce); ("verification"%string, v)]).

(** The parameters of an operation that carries a mode. *)
Definition with_mode (mode : TransactionMode) (l : list (string * bytes)) : outcome (gmap string bytes) :=
  x ← unwrap (serialize mode); Ok (extend ∅ (l ++ [("mode"%string, x)])).

Definition extract_operation_parameters (op : Operation) : outcome (gmap string bytes) :=
  match op with
  | Genesis => Ok (extend ∅ [kind "genesis"])
  | Transfer _ amount token_id mode nonce verification pre_commit _ _ _ =>
      let params := extend ∅ [("token_id"%string, str_bytes token_id); ("amount"%string, u64_le (bal_value amount))] in
      extra ← match mode with
              | Bilateral => verify_bilateral_transfer_parameters nonce verification pre_commit
              | Unilateral => verify_unilateral_transfer_parameters nonce verification
              end;
      Ok (extra ∪ params)
  | Mint amount token_id authorized_by proof message =>
      Ok (extend ∅ [kind "mint"; ("amount"%string, balance_to_bytes amount); ("token_id"%string, str_bytes token_id);
        ("authorized_by"%string, str_bytes authorized_by); ("proof_of_authorization"%string, proof);
        ("message"%string, str_bytes message)])
  | Burn amount token_id proof message =>
      Ok (extend ∅ [kind "burn"; ("amount"%string, balance_to_bytes amount); ("token_id"%string, str_bytes token_id);
        ("proof_of_ownership"%string, proof); ("message"%string, str_bytes message)])
  | Create message identity_data public_key metadata commitment proof mode =>
      with_mode mode [kind "create"; ("identity_data"%string, identity_data); ("public_key"%string, public_key);
        ("metadata"%string, metadata); ("commitment"%string, commitment); ("message"%string, str_bytes message);
        ("proof"%string, proof)]
  | Update message identity_id updated_data proof forward_link =>
      Ok (extend ∅ ([kind "update"; ("identity_id"%string, str_bytes identity_id); ("updated_data"%string, updated_data);
        ("proof"%string, proof)] ++
        (match forward_link with Some l => [("forward_link"%string, l)] | None => [] end) ++
        [("message"%string, str_bytes message)]))
  | AddRelationship from_id to_id relationship_type metadata proof mode message =>
      with_mode mode [kind "add_relationship"; ("from_id"%string, str_bytes from_id); ("to_id"%string, str_bytes to_id);
        ("relationship_type"%string, str_bytes relationship_type); ("metadata"%string, metadata);
        ("proof"%string, proof); ("message"%string, str_bytes message)]
  | CreateRelationship message counterparty_id commitment proof mode =>
      with_mode mode [kind "create_relationship"; ("counterparty_id"%string, str_bytes counterparty_id);
        ("commitment"%string, commitment); ("proof"%string, proof); ("message"%string, str_bytes message)]
  | RemoveRelationship from_id to_id relationship_type proof mode message =>
      with_mode mode [kind "remove_relationship"; ("from_id"%string, str_bytes from_id); ("to_id"%string, str_bytes to_id);
        ("relationship_type"%string, str_bytes relationship_type); ("proof"%string, proof);
        ("message"%string, str_bytes message)]
  | Recovery message state_number state_hash state_entropy invalidation_data new_state_data new_state_number
      new_state_hash new_state_entropy compromise_proof authority_sigs =>
      Ok (extend ∅ [kind "recovery"; ("state_number"%string, str_bytes (pretty state_number));
        ("state_hash"%string, state_hash); ("message"%string, str_bytes message);
        ("invalidation_data"%string, invalidation_data); ("new_state_data"%string, new_state_data);
        ("new_state_number"%string, str_bytes (pretty new_state_number)); ("new_state_hash"%string, new_state_hash);
        ("new_state_entropy"%string, new_state_entropy); ("compromise_proof"%string, compromise_proof);
        ("authority_sigs"%string, unwrap_or [] (serialize authority_sigs)); ("state_entropy"%string, state_entropy);
        ("message"%string, str_bytes message)])
  | Invalidate _ _ _ => Ok (extend ∅ [kind "invalidate"])
  | Delete reason proof mode id =>
      with_mode mode [kind "delete"; ("id"%string, str_bytes id); ("proof"%string, proof); ("reason"%string, str_bytes reason)]
  | Link target_id link_type proof mode =>
      with_mode mode [kind "link"; ("target_id"%string, str_bytes target_id); ("link_type"%string, str_bytes link_type);
        ("proof"%string, proof)]
  | Generic operation_type data message =>
      Ok (extend ∅ [kind operation_type; ("data"%string, data); ("message"%string, str_bytes message)])
  | Unlink target_id proof mode =>
      with_mode mode [kind "unlink"; ("target_id"%string, str_bytes target_id); ("proof"%string, proof)]
  | LockToken token_id amount purpose mode =>
      with_mode mode [kind "lock_token"; ("token_id"%string, str_bytes token_id); ("amount"%string, u64_le amount);
        ("purpose"%string, str_bytes purpose)]
  | UnlockToken token_id amount purpose mode =>
      with_mode mode [kind "unlock_token"; ("token_id"%string, str_bytes token_id); ("amount"%string, u64_le amount);
        ("purpose"%string, str_bytes purpose)]
  end.

(** The variable parameters and the timeout are not used by the source. *)
Definition verify_operation_parameters (op : Operation) (fixed : list (string * bytes)) (variable : list string)
    (timeout : Z) : outcome bool :=
  params ← extract_operation_parameters op;
  Ok (forallb (fun '(k, v) => bool_decide (params !! k = Some v)) fixed).

End Params.
End Params.

(** ** [ForwardLinkedCommitment] *)
Module FLC.
Section FLC.
Context {B3 : Blake3}.

Definition compute_hash (c : ForwardLinkedCommitment) : outcome bytes :=
  Ok (blake3 (flc_next_state_hash c ++ str_bytes (flc_counterparty_id c) ++
        params_bytes (flc_fixed_parameters c) (flc_variable_parameters c))).

Definition set_hash (h : bytes) (c : ForwardLinkedCommitment) : ForwardLinkedCommitment :=
  mkFLC (flc_next_state_hash c) (flc_entity_id c) (flc_counterparty_id c) (flc_fixed_parameters c)
    (flc_variable_parameters c) (flc_entity_signature c) (flc_counterparty_signature c) h (flc_min_state_number c).
Definition set_sigs (e p : option bytes) (c : ForwardLinkedCommitment) : ForwardLinkedCommitment :=
  mkFLC (flc_next_state_hash c) (flc_entity_id c) (flc_counterparty_id c) (flc_fixed_parameters c)
    (flc_variable_parameters c) e p (flc_commitment_hash c) (flc_min_state_number c).

Definition new (next_state_hash : bytes) (counterparty_id : string) (fixed : list (string * bytes))
    (vars : list string) (min_state_number : option Z) : outcome ForwardLinkedCommitment :=
  let c := mkFLC next_state_hash "entity" counterparty_id fixed vars None None [] (unwrap_or 0 min_state_number) in
  h ← compute_hash c;
  Ok (set_hash h c).

Definition sign (private_key : bytes) (c : ForwardLinkedCommitment) : outcome bytes :=
  match Sphincs.sphincs_sign private_key (flc_commitment_hash c) with
  | Ok sig => Ok sig
  | Err _ => Err (ECrypto "Failed to sign with SPHINCS+")
  | Panic => Panic
  | Hang => Hang
  end.

Definition sign_as_entity (private_key : bytes) : M ForwardLinkedCommitment unit :=
  let* c := mget in
  let* sig := mlift (sign private_key c) in
  mput (set_sigs (Some sig) (flc_counterparty_signature c) c).
Definition sign_as_counterparty (private_key : bytes) : M ForwardLinkedCommitment unit :=
  let* c := mget in
  let* sig := mlift (sign private_key c) in
  mput (set_sigs (flc_entity_signature c) (Some sig) c).

Definition is_some {A} (o : option A) : bool := match o with Some _ => true | None => false end.

Definition is_fully_signed (c : ForwardLinkedCommitment) : bool :=
  is_some (flc_entity_signature c) && is_some (flc_counterparty_signature c).

Definition has_signature_from (c : ForwardLinkedCommitment) (entity_id : string) : bool :=
  let is_counterparty := bool_decide (str_bytes entity_id = str_bytes (flc_counterparty_id c)) in
  if is_counterparty && is_some (flc_counterparty_signature c) then true
  else is_some (flc_entity_signature c).

Definition verify_integrity (c : ForwardLinkedCommitment) : outcome bool :=
  expected ← compute_hash c;
  Ok (bool_decide (expected = flc_commitment_hash c)).

Definition check_signature (msg : string) (pk : bytes) (c : ForwardLinkedCommitment) (sig : option bytes) : outcome bool :=
  match sig with
  | Some sig =>
      match Sphincs.sphincs_verify pk (flc_commitment_hash c) sig with
      | Ok valid => Ok valid
      | Err _ => Err (ECrypto msg)
      | Panic => Panic
      | Hang => Hang
      end
  | None => Ok false
  end.
Definition verify_entity_signature (c : ForwardLinkedCommitment) (pk : bytes) : outcome bool :=
  check_signature "Error verifying entity signature" pk c (flc_entity_signature c).
Definition verify_counterparty_signature (c : ForwardLinkedCommitment) (pk : bytes) : outcome bool :=
  check_signature "Error verifying counterparty signature" pk c (flc_counterparty_signature c).

Definition verify_operation_adherence {SM : Bincode TransactionMode} {SV : Bincode VerificationType}
    {SPO : Bincode PreCommitmentOp} {SB : Bincode Balance} {SL : Bincode (list bytes)}
    (c : ForwardLinkedCommitment) (op : Operation) : outcome bool :=
  Params.verify_operation_parameters op (flc_fixed_parameters c) (flc_variable_parameters c) (flc_min_state_number c).

Definition embed (c : ForwardLinkedCommitment) (e p : bytes) : EmbeddedCommitment :=
  mkEmbedded (flc_commitment_hash c) e p (flc_variable_parameters c) (flc_fixed_parameters c)
    (flc_counterparty_id c) (flc_min_state_number c).

Definition to_embedded_commitment (c : ForwardLinkedCommitment) : outcome EmbeddedCommitment :=
  e ← unwrap (flc_entity_signature c);
  p ← unwrap (flc_counterparty_signature c);
  Ok (embed c e p).

Definition try_to_embedded_commitment (c : ForwardLinkedCommitment) : outcome EmbeddedCommitment :=
  e ← ok_or (verification_error "Entity signature must be present when creating embedded commitment")
        (flc_entity_signature c);
  p ← ok_or (verification_error "Counterparty signature must be present when creating embedded commitment")
        (flc_counterparty_signature c);
  Ok (embed c e p).

Definition zeroize (c : ForwardLinkedCommitment) : ForwardLinkedCommitment :=
  mkFLC [] (flc_entity_id c) (flc_counterparty_id c) (map (fun p => (p.1, [])) (flc_fixed_parameters c))
    (flc_variable_parameters c) ((fun _ => []) <$> flc_entity_signature c)
    ((fun _ => []) <$> flc_counterparty_signature c) [] (flc_min_state_number c).

End FLC.
End FLC.

(** ** Forks *)

Lemma find_fork_Some id l f : PC.find_fork id l = Some f → fk_fork_id f = id ∧ f ∈ l.
Proof.
  induction l as [|g l IH]; cbn; [done|]. case_bool_decide as E.
  - intros [= <-]. set_solver.
  - intros [H1 H2]%IH. set_solver.
Qed.

Lemma find_fork_NoDup l f : NoDup (map fk_fork_id l) → f ∈ l → PC.find_fork (fk_fork_id f) l = Some f.
Proof.
  induction l as [|g l IH]; cbn; [by intros _ ?%elem_of_nil|]. intros [Hn Hnd]%NoDup_cons [->|Hin]%elem_of_cons.
  - by rewrite bool_decide_eq_true_2.
  - rewrite bool_decide_eq_false_2; [by apply IH|]. intros E. apply Hn. rewrite E. by apply list_elem_of_fmap_2.
Qed.

Lemma find_fork_in id l : id ∈ map fk_fork_id l → ∃ f, PC.find_fork id l = Some f.
Proof.
  induction l as [|g l IH]; cbn; [by intros ?%elem_of_nil|]. case_bool_decide as E; [by eexists|].
  intros [H|H]%elem_of_cons; [done|by apply IH].
Qed.

Section Forks.
Variable g : PreCommitmentFork → PreCommitmentFork.
Hypothesis g_id : ∀ f, fk_fork_id (g f) = fk_fork_id f.

Lemma update_fork_ids id l : map fk_fork_id (PC.update_fork g id l) = map fk_fork_id l.
Proof. induction l as [|f l IH]; cbn; [done|]. case_bool_decide; cbn; [by rewrite g_id|by rewrite IH]. Qed.

Lemma find_update_fork j id l :
  PC.find_fork j (PC.update_fork g id l) =
    if bool_decide (j = id) then g <$> PC.find_fork j l else PC.find_fork j l.
Proof.
  induction l as [|f l IH]; cbn; [by case_bool_decide|].
  destruct (decide (fk_fork_id f = id)) as [E|E].
  - rewrite (bool_decide_eq_true_2 _ E). cbn. rewrite g_id, E.
    destruct (decide (id = j)) as [->|Hj]; [by rewrite !bool_decide_eq_true_2 by done|].
    by rewrite !(bool_decide_eq_false_2 (id = j)), (bool_decide_eq_false_2 (j = id)) by done.
  - rewrite (bool_decide_eq_false_2 _ E). cbn. rewrite IH. case_bool_decide as E'; [|done].
    by rewrite bool_decide_eq_false_2 by congruence.
Qed.
End Forks.

Section Selection.
Context {B3 : Blake3} {RT : Runtime}.
Context {SO : Bincode Operation} {SB : Bincode Balance} {SP : Bincode PreCommitment}.

Definition invalidation_of (t : Z) (c : ForkedCommitment) (selected f : PreCommitmentFork) : ForkInvalidationProof :=
  mkInvalidation (fk_fork_id f) (fk_hash f) (fk_hash selected) (fc_signatures c) t.

(** [f'] is the fork [f] of [c] invalidated for [sel] at a reading of the clock:
    without signatures, not selected, and with the proof. *)
Definition invalidated (clock : nat → option Z) (c : ForkedCommitment) (sel f f' : PreCommitmentFork) : Prop :=
  ∃ i t, clock i = Some t ∧
    f' = mkFork (fk_fork_id f) (fk_hash f) (fk_fixed_params f) (fk_variable_params f) (fk_positions f) ∅ false
           (Some (invalidation_of t c sel f)).

(** The selected fork. *)
Definition chosen (f : PreCommitmentFork) : PreCommitmentFork :=
  mkFork (fk_fork_id f) (fk_hash f) (fk_fixed_params f) (fk_variable_params f) (fk_positions f) (fk_signatures f) true
    (fk_invalidation_proof f).

(** The forks [forks'] are those of [c] with the first fork under each id of
    [others] invalidated. *)
Definition invalidated_forks (clock : nat → option Z) (c : ForkedCommitment) (sel : PreCommitmentFork)
    (others : list string) (forks' : list PreCommitmentFork) : Prop :=
  map fk_fork_id forks' = map fk_fork_id (fc_forks c) ∧
  ∀ j, (j ∉ others → PC.find_fork j forks' = PC.find_fork j (fc_forks c)) ∧
       (j ∈ others → ∀ f, PC.find_fork j (fc_forks c) = Some f → ∃ f', PC.find_fork j forks' = Some f' ∧ invalidated clock c sel f f').

Definition clock_error : DsmError := ECrypto "Failed to get system time".

(** The loop invalidates up to the first reading that fails. *)
Lemma invalidate_loop_spec others id : ∀ clock c sel,
  PC.find_fork id (fc_forks c) = Some sel → id ∉ others → others ⊆ map fk_fork_id (fc_forks c) →
  ∃ n forks', (n ≤ length others)%nat ∧ (∀ i, (i < n)%nat → is_Some (clock i)) ∧
    invalidated_forks clock c sel (take n others) forks' ∧
    ((n = length others ∧ PC.invalidate_loop clock others id c = (Ok tt, PC.set_forks forks' c)) ∨
     ((n < length others)%nat ∧ clock n = None ∧
      PC.invalidate_loop clock others id c = (Err clock_error, PC.set_forks forks' c))).
Proof.
  induction others as [|o others IH]; intros clock c sel Hsel Hid Hsub.
  - exists 0%nat, (fc_forks c). split_and!; [done|lia| |left; by destruct c].
    split; [done|]. intros j. by split; [|intros ?%not_elem_of_nil].
  - apply not_elem_of_cons in Hid as [Hne Hid]. destruct (find_fork_in o (fc_forks c)) as [f Hf]; [set_solver|].
    cbn [PC.invalidate_loop]. unfold mbind_st, mget, mlift, PC.create_invalidation_proof.
    rewrite Hf, Hsel. cbn [ok_or mbind outcome_bind]. destruct (clock 0%nat) as [t|] eqn:Ht; cycle 1.
    { exists 0%nat, (fc_forks c). split_and!; [cbn; lia|lia| |right; split_and!; [cbn; lia|done|by destruct c]].
      split; [done|]. intros j. by split; [|intros ?%not_elem_of_nil]. }
    cbn [ok_or mbind outcome_bind]. unfold mmod.
    set (p := mkInvalidation o (fk_hash f) (fk_hash sel) (fc_signatures c) t).
    set (c1 := PC.set_forks _ c).
    assert (Hp : p = invalidation_of t c sel f) by (apply find_fork_Some in Hf as [<- _]; done).
    assert (Hj : ∀ j, PC.find_fork j (fc_forks c1) =
      if bool_decide (j = o) then PC.mark_invalid p <$> PC.find_fork j (fc_forks c) else PC.find_fork j (fc_forks c))
      by (intros; by apply find_update_fork).
    assert (Hids : map fk_fork_id (fc_forks c1) = map fk_fork_id (fc_forks c)) by (by apply update_fork_ids).
    destruct (IH (fun i => clock (S i)) c1 sel) as (n & forks' & Hn & Hc & [Hi Hfind] & Hrun).
    { by rewrite Hj, bool_decide_eq_false_2. } { done. } { rewrite Hids. set_solver. }
    exists (S n), forks'. split_and!; [cbn; lia|intros [|i] Hin; [by eexists|apply Hc; lia]| |].
    + split; [congruence|]. intros j. cbn [take]. destruct (Hfind j) as [Hout Hin]. rewrite Hj in Hout, Hin.
      destruct (decide (j = o)) as [->|Hjo]; [rewrite bool_decide_eq_true_2 in * by done; rewrite Hf in *|
        rewrite bool_decide_eq_false_2 in * by done].
      * split; [set_solver|]. intros _ f0 [= <-]. destruct (decide (o ∈ take n others)) as [Ho|Ho].
        -- destruct (Hin Ho _ eq_refl) as (f' & H1 & i & u & Hu & ->). eexists. split; [exact H1|]. by exists (S i), u.
        -- exists (PC.mark_invalid p f). rewrite Hp in *. split; [by apply Hout|]. by exists 0%nat, t.
      * split; [set_solver|]. intros Hj' f0 Hf0. destruct (Hin ltac:(set_solver) f0 Hf0) as (f' & H1 & i & u & Hu & ->).
        eexists. split; [exact H1|]. by exists (S i), u.
    + destruct Hrun as [[-> Hrun]|(Hlt & Hcn & Hrun)]; [left|right]; split_and!; try done. cbn. lia.
Qed.

Lemma elem_of_other_fork_ids id c j : j ∈ PC.other_fork_ids id c ↔ j ≠ id ∧ j ∈ map fk_fork_id (fc_forks c).
Proof.
  unfold PC.other_fork_ids. rewrite !list_elem_of_fmap. setoid_rewrite list_elem_of_In. setoid_rewrite filter_In. split.
  - intros (f & -> & Hin & Hf). apply negb_true_iff, bool_decide_eq_false in Hf. eauto.
  - intros [Hj (f & -> & Hin)]. exists f. by rewrite bool_decide_eq_false_2.
Qed.

(** The commitment [c'] is [c] with the fork [sel] under [id] selected and the
    first fork under each id of [others] invalidated for it. *)
Definition selection (clock : nat → option Z) (c : ForkedCommitment) (id : string) (sel : PreCommitmentFork)
    (others : list string) (c' : ForkedCommitment) : Prop :=
  c' = PC.set_forks (fc_forks c') (PC.set_selected (Some id) c) ∧
  map fk_fork_id (fc_forks c') = map fk_fork_id (fc_forks c) ∧
  PC.get_selected_fork c' = Some (chosen sel) ∧
  ∀ j f, j ≠ id → PC.find_fork j (fc_forks c) = Some f →
    (j ∉ others → PC.find_fork j (fc_forks c') = Some f) ∧
    (j ∈ others → ∃ f', PC.find_fork j (fc_forks c') = Some f' ∧ invalidated clock c sel f f').

(** A selection that is accepted. *)
Lemma select_fork_spec clock c id sel :
  PC.find_fork id (fc_forks c) = Some sel → PC.verify_fork_selection c sel = Ok true →
  let others := PC.other_fork_ids id c in
  ∃ n c', (n ≤ length others)%nat ∧ (∀ i, (i < n)%nat → is_Some (clock i)) ∧
    selection clock c id sel (take n others) c' ∧
    ((n = length others ∧ PC.select_fork clock id c = (Ok tt, c')) ∨
     ((n < length others)%nat ∧ clock n = None ∧ PC.select_fork clock id c = (Err clock_error, c'))).
Proof.
  intros Hsel Hv others. unfold PC.select_fork. rewrite Hsel. cbn [ok_or mbind outcome_bind]. rewrite Hv.
  fold others. set (c1 := PC.set_selected _ _).
  assert (Hids : map fk_fork_id (fc_forks c1) = map fk_fork_id (fc_forks c)) by (by apply update_fork_ids).
  assert (Hfind1 : ∀ j, PC.find_fork j (fc_forks c1) =
    if bool_decide (j = id) then PC.mark_selected <$> PC.find_fork j (fc_forks c) else PC.find_fork j (fc_forks c))
    by (intros; by apply find_update_fork).
  assert (Hid : id ∉ others) by (unfold others; rewrite elem_of_other_fork_ids; by intros []).
  destruct (invalidate_loop_spec others id clock c1 (PC.mark_selected sel)) as (n & forks' & Hn & Hc & [Hi Hf] & Hrun).
  { by rewrite Hfind1, bool_decide_eq_true_2, Hsel. } { done. }
  { rewrite Hids. intros j [_ Hj]%elem_of_other_fork_ids. done. }
  exists n, (PC.set_forks forks' c1). split_and!; [done|done| |exact Hrun]. split_and!; [done|by rewrite <- Hids| |].
  - assert (Hid' : id ∉ take n others) by (intros H%subseteq_take; done).
    unfold PC.get_selected_fork. cbn. destruct (Hf id) as [Hout _]. by rewrite Hout, Hfind1, bool_decide_eq_true_2, Hsel.
  - intros j f Hj Hjf. cbn. destruct (Hf j) as [Hout Hin]. rewrite Hfind1, bool_decide_eq_false_2 in Hout, Hin by done.
    split; intros H; [by rewrite Hout|]. destruct (Hin H f Hjf) as (f' & H1 & H2). exists f'. split; [exact H1|exact H2].
Qed.

(** With distinct ids a complete selection treats every fork. *)
Lemma selection_forks clock c id sel c' : NoDup (map fk_fork_id (fc_forks c)) → PC.find_fork id (fc_forks c) = Some sel →
  selection clock c id sel (PC.other_fork_ids id c) c' →
  Forall2 (fun f f' => if bool_decide (fk_fork_id f = id) then f' = chosen f else invalidated clock c sel f f')
    (fc_forks c) (fc_forks c').
Proof.
  intros Hnd Hsel (Hc' & Hi & Hs & Hf). apply Forall2_same_length_lookup_2.
  { by rewrite <- (length_map fk_fork_id), <- Hi, length_map. }
  intros k f f' Hk Hk'. assert (Hid : fk_fork_id f' = fk_fork_id f).
  { apply (f_equal (fun l => l !! k)) in Hi. change map with (@fmap list _) in Hi at 1.
    rewrite !list_lookup_fmap, Hk, Hk' in Hi. by injection Hi. }
  pose proof (find_fork_NoDup _ f Hnd (list_elem_of_lookup_2 _ _ _ Hk)) as H1.
  pose proof (find_fork_NoDup (fc_forks c') f' ltac:(by rewrite Hi) (list_elem_of_lookup_2 _ _ _ Hk')) as H2. rewrite Hid in H2.
  case_bool_decide as E.
  - subst id. rewrite Hc' in Hs. cbn in Hs. unfold PC.get_selected_fork in Hs. cbn in Hs. rewrite H2 in Hs. injection Hs as ->. congruence.
  - destruct (Hf _ f E H1) as [_ Hin]. destruct Hin as (g & Hg & Hinv).
    { apply elem_of_other_fork_ids. split; [done|]. by eapply list_elem_of_fmap_2, list_elem_of_lookup_2. }
    rewrite H2 in Hg. by injection Hg as ->.
Qed.

Lemma verify_fork_selection_returns c f : ∃ b, PC.verify_fork_selection c f = Ok b.
Proof. unfold PC.verify_fork_selection, PC.compute_fork_verification_context. repeat case_test; by eexists. Qed.

(** C24: selecting a fork is exclusive, and atomic up to the clock.  When
    [select_fork] succeeds, the fork was accepted by [verify_fork_selection] and
    is the selected one; the first fork under every other id (with distinct ids,
    every other fork) has lost its signatures and carries an invalidation proof
    that names the selected fork's hash, which [is_fork_invalidated] accepts
    exactly when the commitment holds enough signatures.  It fails with nothing
    changed when there is no fork under the id or the fork is not accepted, and
    otherwise only when the clock, read once per invalidation, fails: then the
    fork is selected already, the forks before the failed reading are invalidated
    and the others are as before. *)
Theorem select_fork_exclusive (clock : nat → option Z) (c : ForkedCommitment) (id : string) :
  let others := PC.other_fork_ids id c in
  let accepted sel := PC.find_fork id (fc_forks c) = Some sel ∧ PC.verify_fork_selection c sel = Ok true in
  match PC.select_fork clock id c with
  | (Ok _, c') => ∃ sel, accepted sel ∧ (∀ i, (i < length others)%nat → is_Some (clock i)) ∧
      selection clock c id sel others c' ∧
      (∀ j f, j ≠ id → PC.find_fork j (fc_forks c) = Some f → PC.is_fork_invalidated c' j =
        Ok (min_signatures (fc_security_params c) <=? Z.of_nat (size (fc_signatures c)))) ∧
      (NoDup (map fk_fork_id (fc_forks c)) →
        Forall2 (fun f f' => if bool_decide (fk_fork_id f = id) then f' = chosen f else invalidated clock c sel f f')
          (fc_forks c) (fc_forks c'))
  | (Err e, c') =>
      (c' = c ∧ ¬ (∃ sel, accepted sel)) ∨
      (∃ sel n, accepted sel ∧ (n < length others)%nat ∧ (∀ i, (i < n)%nat → is_Some (clock i)) ∧ clock n = None ∧
        e = clock_error ∧ selection clock c id sel (take n others) c')
  | _ => False
  end.
Proof.
  intros others accepted. destruct (PC.find_fork id (fc_forks c)) as [sel|] eqn:Hsel; cycle 1.
  { unfold PC.select_fork. rewrite Hsel. left. split; [done|]. by intros (? & [=] & _). }
  destruct (PC.verify_fork_selection c sel) as [[]| | |] eqn:Hv.
  2: { unfold PC.select_fork. rewrite Hsel. cbn [ok_or mbind outcome_bind]. rewrite Hv. left. split; [done|].
       intros (? & [= <-] & Hv'). by rewrite Hv in Hv'. }
  2-4: by destruct (verify_fork_selection_returns c sel) as [? Hv']; rewrite Hv in Hv'.
  destruct (select_fork_spec clock c id sel Hsel Hv) as (n & c' & Hn & Hc & Hs & [[-> ->]|(Hlt & Hcn & ->)]); [|right; by exists sel, n].
  rewrite firstn_all in Hs. exists sel. split_and!; [done..|exact Hs| |].
  - intros j f Hj Hjf. destruct Hs as (Hc' & _ & Hself & Hf). destruct (Hf j f Hj Hjf) as [_ Hin].
    destruct Hin as (f' & Hf' & i & t & _ & ->).
    { apply elem_of_other_fork_ids. apply find_fork_Some in Hjf as [<- Hin]. split; [done|by apply list_elem_of_fmap_2]. }
    unfold PC.is_fork_invalidated. rewrite Hf'. rewrite Hc'. cbn. rewrite Z.leb_antisym. destruct (_ <? _); [done|]. cbn.
    rewrite bool_decide_eq_true_2 by done. cbn. replace (existsb _ _) with true; [done|]. symmetry. apply existsb_exists.
    unfold PC.get_selected_fork in Hself. rewrite Hc' in Hself. cbn in Hself. apply find_fork_Some in Hself as [_ Hin].
    exists (PC.mark_selected sel). split; [by apply list_elem_of_In|by apply bool_decide_eq_true_2].
  - intros Hnd. by apply selection_forks.
Qed.

(** What it takes to select a fork that [new_forked] built: with a
    threshold of one signature any signature at all is enough; otherwise the
    fork needs enough signatures that the commitment holds too, and the position
    bytes derived from the fork's contents must equal those derived from their
    digest, because the constructor and the check hash different inputs. *)
Theorem forked_selection_exact (base : bytes) (paths : list ForkPath) (security : SecurityParameters)
    (c : ForkedCommitment) (sigs csigs : gmap string bytes) (id : string) (fixed : list (string * bytes)) (vars : list string) :
  PC.new_forked base paths (Some security) = Ok c → (id, fixed, vars) ∈ paths →
  let buffer := PC.fork_buffer base id fixed vars in
  ∃ f, f ∈ fc_forks c ∧ fk_fork_id f = id ∧
    let signed := mkFork (fk_fork_id f) (fk_hash f) (fk_fixed_params f) (fk_variable_params f) (fk_positions f) sigs false None in
    PC.verify_fork_selection (PC.set_signatures csigs c) signed =
      Ok (negb (bool_decide (sigs = ∅)) &&
          ((min_signatures security =? 1) ||
           ((min_signatures security <=? PC.valid_signatures (PC.set_signatures csigs c) signed) &&
            bool_decide (PC.create_fork_positions (blake3 buffer) (min_positions security) =
                         PC.create_fork_positions buffer (min_positions security))))).
Proof.
  intros Hc Hin buffer. unfold PC.new_forked in Hc. destruct paths as [|p0 ps] eqn:Hp; [done|]. rewrite <- Hp in *.
  cbn [unwrap_or] in Hc. apply Ok_inj in Hc as <-. cbn [fc_forks].
  exists (PC.make_fork base (min_positions security) (id, fixed, vars)).
  split_and!; [by apply list_elem_of_fmap_2|done|]. cbn zeta.
  unfold PC.verify_fork_selection. cbn [fk_signatures fk_hash fk_positions PC.make_fork fc_security_params PC.set_signatures].
  fold buffer. destruct (min_signatures security =? 1) eqn:E1; cbn [andb orb].
  - destruct (bool_decide (sigs = ∅)); done.
  - destruct (bool_decide (sigs = ∅)); [done|]. cbn [negb andb]. rewrite Z.leb_antisym. destruct (_ <? _); [done|].
    cbn [negb andb]. destruct (bool_decide (_ = PC.create_fork_positions buffer _)); [|done].
    cbn. by rewrite bool_decide_eq_true_2.
Qed.

(** [verify_signatures] does not look at the verdict of the signature
    check: with a key of at least 64 bytes for every signer, it accepts every
    signature of at least 64 bytes, valid or not, on a non-empty hash. *)
Theorem verify_signatures_ignores_verdict (c : ForkedCommitment) (public_keys : gmap string bytes) :
  fc_hash c ≠ [] →
  (∀ signer sig, fc_signatures c !! signer = Some sig → (64 ≤ length sig)%nat ∧
    ∃ pk, public_keys !! signer = Some pk ∧ (64 ≤ length pk)%nat) →
  PC.verify_signatures c public_keys = Ok true.
Proof.
  intros Hh Hs. unfold PC.verify_signatures.
  assert (Hl : ∀ p, p ∈ map_to_list (fc_signatures c) → (64 ≤ length p.2)%nat ∧
    ∃ pk, public_keys !! p.1 = Some pk ∧ (64 ≤ length pk)%nat).
  { intros [k v] Hin%elem_of_map_to_list. by apply Hs. }
  generalize dependent (map_to_list (fc_signatures c)). intros l Hl.
  rewrite (proj2 (forallb_forall _ _)).
  - induction l as [|[k v] l IH]; cbn [PC.check_signatures]; [done|].
    destruct (Hl (k, v)) as [Hv (pk & Hpk & Hlen)]; [set_solver|]. cbn in Hv, Hpk. rewrite Hpk.
    assert (∃ b, Sphincs.sphincs_verify pk (fc_hash c) v = Ok b) as [b ->].
    { unfold Sphincs.sphincs_verify, Sphincs.crypto_sign_verify. rewrite bool_decide_eq_false_2 by done.
      change CRYPTO_N with 32%nat.
      destruct (slice_total 0 32 pk) as (? & -> & _); [lia|]. destruct (slice_total 32 (2 * 32) pk) as (? & -> & _); [lia|].
      destruct (slice_total 0 32 v) as (? & -> & _); [lia|]. destruct (slice_total 32 (2 * 32) v) as (? & -> & _); [lia|].
      by eexists. }
    apply IH. intros p Hp. apply Hl. set_solver.
  - intros p Hin%list_elem_of_In. destruct (Hl p Hin) as [_ (pk & Hpk & _)]. apply bool_decide_eq_true_2. by eexists.
Qed.

(** A commitment converted from a forward-linked one is never accepted:
    its only fork is selected without positions and [verify] requires 32 of
    them, and one made by [new_with_signatures] is accepted only when the hash
    with the suffix of the constructor collides with the hash alone, since its
    commitment hash covers a suffix the check leaves out. *)
Theorem converted_commitment_never_verifies (flc : ForwardLinkedCommitment) (c : ForkedCommitment) (s : State)
    (hash : bytes) (sigs : gmap string bytes) :
  (PC.from_forward_linked_commitment flc = Ok c → PC.verify c s ≠ Ok true) ∧
  (PC.verify (PC.new_with_signatures hash sigs) s = Ok true → collision blake3 [hash ++ str_bytes "commitment_hash"; hash]).
Proof.
  split.
  - unfold PC.from_forward_linked_commitment. intros <-%Ok_inj. unfold PC.verify.
    destruct (St.get_hash s); cbn [mbind outcome_bind]; [|done..].
    destruct (negb _); [done|]. destruct (negb _); [done|]. cbn [fc_selected_fork_id fc_forks PC.find_fork fk_fork_id].
    rewrite bool_decide_eq_true_2 by done. cbn [fk_is_selected negb].
    unfold PC.verify_fork_selection. cbn [fc_security_params default_security min_signatures min_positions fk_signatures fk_positions fk_hash].
    change (2 =? 1) with false. cbn [andb]. destruct (bool_decide _); [done|]. destruct (_ <? _); [done|].
    rewrite (bool_decide_eq_false_2 (_ = [])); [done|]. done.
  - unfold PC.verify. destruct (St.get_hash s); cbn [mbind outcome_bind]; [|done..].
    destruct (negb _); [done|]. destruct (negb (bool_decide (_ = blake3 _))) eqn:E; [done|]. intros _.
    apply negb_false_iff, bool_decide_eq_true in E. cbn in E.
    apply hash_bind in E as [H|?]; [|done]. apply (f_equal length) in H. rewrite length_app in H. cbn in H. lia.
Qed.

End Selection.

(** ** Forward-linked commitments *)

Section Forward.
Context {B3 : Blake3}.

Lemma params_bytes_perm fixed fixed' vars vars' :
  NoDup fixed.*1 → fixed ≡ₚ fixed' → vars ≡ₚ vars' → params_bytes fixed vars = params_bytes fixed' vars'.
Proof.
  intros Hn Hf Hv. unfold params_bytes, sort_strings. rewrite (sort_by_key_perm fixed fixed' Hn Hf).
  assert (merge_sort String.le vars = merge_sort String.le vars') as ->; [|done].
  apply (StronglySorted_unique String.le).
  - apply (StronglySorted_merge_sort String.le).
  - apply (StronglySorted_merge_sort String.le).
  - by rewrite !(merge_sort_Permutation String.le).
Qed.

Lemma sign_valid pk sk (c : ForwardLinkedCommitment) msg : keypair pk sk → flc_commitment_hash c ≠ [] →
  ∃ sig, FLC.sign sk c = Ok sig ∧ FLC.check_signature msg pk c (Some sig) = Ok true.
Proof.
  intros Hk Hh. destruct (sign_verify pk sk _ Hk Hh) as (sig & H1 & _ & H2). exists sig.
  unfold FLC.sign, FLC.check_signature. by rewrite H1, H2.
Qed.

(** C25: the life of a forward-linked commitment: a new one passes its integrity
    check, whatever the iteration order of its parameters; signed by both
    parties with generated keys it is fully signed, both signatures verify, the
    integrity check still passes, and it embeds, with the panicking and the
    checked conversion agreeing; unsigned, one panics and the other errs. *)
Theorem forward_commitment_lifecycle (nsh : bytes) (cp : string) (fixed fixed' : list (string * bytes))
    (vars vars' : list string) (min : option Z) (epk esk cpk csk : bytes) :
  NoDup fixed.*1 → fixed ≡ₚ fixed' → vars ≡ₚ vars' → keypair epk esk → keypair cpk csk →
  ∃ c c2, FLC.new nsh cp fixed vars min = Ok c ∧
    (∃ c', FLC.new nsh cp fixed' vars' min = Ok c' ∧ flc_commitment_hash c' = flc_commitment_hash c) ∧
    FLC.verify_integrity c = Ok true ∧ FLC.is_fully_signed c = false ∧
    FLC.to_embedded_commitment c = Panic ∧
    FLC.try_to_embedded_commitment c =
      Err (verification_error "Entity signature must be present when creating embedded commitment") ∧
    (do* FLC.sign_as_entity esk; FLC.sign_as_counterparty csk) c = (Ok tt, c2) ∧
    FLC.is_fully_signed c2 = true ∧ FLC.verify_integrity c2 = Ok true ∧
    FLC.verify_entity_signature c2 epk = Ok true ∧ FLC.verify_counterparty_signature c2 cpk = Ok true ∧
    is_ok (FLC.to_embedded_commitment c2) = true ∧
    FLC.try_to_embedded_commitment c2 = FLC.to_embedded_commitment c2.
Proof.
  intros Hn Hf Hv He Hc. unfold FLC.new. cbn [mbind outcome_bind FLC.compute_hash]. cbn [flc_next_state_hash flc_counterparty_id flc_fixed_parameters flc_variable_parameters].
  rewrite <- (params_bytes_perm fixed fixed' vars vars' Hn Hf Hv).
  set (h := blake3 _). assert (Hh : h ≠ []) by (intros E; pose proof (blake3_length (nsh ++ str_bytes cp ++ params_bytes fixed vars)) as Hl; fold h in Hl; by rewrite E in Hl).
  set (c := FLC.set_hash h _).
  destruct (sign_valid epk esk c "Error verifying entity signature" He Hh) as (s1 & Hs1 & Hv1).
  set (c1 := FLC.set_sigs (Some s1) None c).
  destruct (sign_valid cpk csk c1 "Error verifying counterparty signature" Hc Hh) as (s2 & Hs2 & Hv2).
  exists c, (FLC.set_sigs (Some s1) (Some s2) c).
  split_and!; try done.
  - by eexists.
  - unfold FLC.verify_integrity, FLC.compute_hash. cbn. fold h. by rewrite bool_decide_eq_true_2.
  - unfold FLC.sign_as_entity, FLC.sign_as_counterparty, mbind_st, mget, mlift, mput. rewrite Hs1.
    change (FLC.set_sigs (Some s1) (flc_counterparty_signature c) c) with c1. by rewrite Hs2.
  - unfold FLC.verify_integrity, FLC.compute_hash. cbn. fold h. by rewrite bool_decide_eq_true_2.
Qed.

End Forward.

(** ** Witnesses *)

Section PrecommitWitnesses.
#[local] Existing Instances Toy.toy_blake3 Toy.toy_runtime toy_bincode_operation
  ToySt.toy_bincode_balance ToySt.toy_bincode_precommitment.

Definition toy_path : ForkPath := ("left"%string, [("amount"%string, [Byte.x05])], ["memo"%string]).
Definition toy_sigs : gmap string bytes := {["alice"%string := zeros 64]}.

(** Two forks, the first signed and one signature enough. *)
Definition toy_forked : ForkedCommitment :=
  mkForked [Byte.x01] toy_sigs
    [mkFork "left" [Byte.x02] [] [] [] toy_sigs false None; mkFork "right" [Byte.x03] [] [] [] ∅ false None]
    None None [] ∅ [] (mkSecurity 1 0 32) [].

(** [select_fork] is not atomic: a clock before the epoch is reported after
    the fork has been selected, and a second fork stays as it was. *)
Theorem select_fork_not_atomic : ∃ c', PC.select_fork (fun _ => None) "left" toy_forked = (Err clock_error, c') ∧
  fc_selected_fork_id c' = Some "left"%string ∧ fc_selected_fork_id toy_forked = None ∧
  PC.find_fork "right" (fc_forks c') = PC.find_fork "right" (fc_forks toy_forked).
Proof. eexists. split; [reflexivity|]. split_and!; reflexivity. Qed.

(** With the default threshold of two signatures the fork is refused. *)
Lemma forked_selection_exact_witness :
  ∃ c f, PC.new_forked [Byte.x01] [toy_path] (Some default_security) = Ok c ∧ f ∈ fc_forks c ∧
    fk_fork_id f = "left"%string.
Proof.
  destruct (forked_selection_exact [Byte.x01] [toy_path] default_security _ toy_sigs toy_sigs "left"
    [("amount"%string, [Byte.x05])] ["memo"%string] eq_refl ltac:(apply list_elem_of_singleton; reflexivity)) as (f & H1 & H2 & _).
  eexists _, f. split; [reflexivity|]. split; [exact H1|exact H2].
Defined.

Lemma verify_signatures_ignores_verdict_witness :
  PC.verify_signatures (PC.new_with_signatures [Byte.x01] toy_sigs) {["alice"%string := zeros 64]} = Ok true.
Proof.
  apply (verify_signatures_ignores_verdict (PC.new_with_signatures [Byte.x01] toy_sigs)); [discriminate|].
  intros signer sig H. change (fc_signatures _) with toy_sigs in H. unfold toy_sigs in H.
  apply lookup_singleton_Some in H as [<- <-]. split; [reflexivity || (vm_compute; lia)|].
  exists (zeros 64). split; [apply lookup_singleton_eq|]. vm_compute. lia.
Defined.

Lemma toy_keypair : keypair (zeros 64) (zeros 128).
Proof. exists (zeros 32), (zeros 32), (zeros 32), (zeros 32). split_and!; reflexivity. Qed.

Lemma forward_commitment_lifecycle_witness :
  ∃ c c2, FLC.new [Byte.x01] "bob" [("amount"%string, [Byte.x05])] ["memo"%string] None = Ok c ∧
    (do* FLC.sign_as_entity (zeros 128); FLC.sign_as_counterparty (zeros 128)) c = (Ok tt, c2) ∧
    FLC.verify_entity_signature c2 (zeros 64) = Ok true.
Proof.
  destruct (forward_commitment_lifecycle [Byte.x01] "bob" [("amount"%string, [Byte.x05])] [("amount"%string, [Byte.x05])]
    ["memo"%string] ["memo"%string] None (zeros 64) (zeros 128) (zeros 64) (zeros 128)
    ltac:(apply NoDup_singleton) (Permutation_refl _) (Permutation_refl _) toy_keypair toy_keypair)
    as (c & c2 & H1 & _ & _ & _ & _ & _ & H2 & _ & _ & H3 & _).
  exists c, c2. split; [exact H1|split; [exact H2|exact H3]].
Defined.

End PrecommitWitnesses.
