(* ===== verification/MTree.v ===== *)
(** * Binary Merkle trees (dsm/src/merkle/tree.rs, dsm/src/merkle/mod.rs)

    The tree that is rebuilt from its leaves on every insertion, the proofs it
    generates and their verification.  An odd level promotes its last node when
    the tree is built and duplicates it when a proof is made. *)
From S2P Require Import Prelude States.

#[warnings="-register-all"]
Inductive MerkleNode := MNode (mn_hash : bytes) (left right : option MerkleNode).
Record MerkleTree := mkMTree { mt_root : option MerkleNode; mt_leaves : list bytes }.
Record TreeProof := mkTreeProof { tp_path : list bytes; tp_leaf_index : nat }.

Definition mn_hash (n : MerkleNode) : bytes := match n with MNode h _ _ => h end.

Module MTree.
Section MTree.
Context {B3 : Blake3}.

Definition combine_hashes (l r : bytes) : bytes := blake3 (l ++ r).

(** The first 32 bytes, or the digest of a shorter input. *)
Definition to_hash (data : bytes) : bytes :=
  if (32 <=? length data)%nat then take 32 data else blake3 data.

(** One turn of the loop of [rebuild]: pairs are hashed, a single node is promoted. *)
Fixpoint next_level (l : list MerkleNode) : list MerkleNode :=
  match l with
  | a :: b :: l => MNode (combine_hashes (mn_hash a) (mn_hash b)) (Some a) (Some b) :: next_level l
  | l => l
  end.

(** [while current_level.len() > 1]; a level gets shorter in every turn. *)
Fixpoint build_loop (fuel : nat) (l : list MerkleNode) : outcome (list MerkleNode) :=
  match l with
  | _ :: _ :: _ => match fuel with O => Hang | S fuel => build_loop fuel (next_level l) end
  | _ => Ok l
  end.

Definition rebuild (leaves : list bytes) : outcome MerkleTree :=
  match leaves with
  | [] => Ok (mkMTree None [])
  | _ =>
      level ← build_loop (length leaves) (map (fun h => MNode h None None) leaves);
      root ← unwrap (head level);
      Ok (mkMTree (Some root) leaves)
  end.

Definition new_empty : MerkleTree := mkMTree None [].

Definition add_leaf (leaf : bytes) (t : MerkleTree) : outcome MerkleTree := rebuild (mt_leaves t ++ [to_hash leaf]).

Fixpoint add_leaves (leaves : list bytes) (t : MerkleTree) : outcome MerkleTree :=
  match leaves with
  | [] => Ok t
  | x :: leaves => t ← add_leaf x t; add_leaves leaves t
  end.
Definition new (leaves : list bytes) : outcome MerkleTree := add_leaves leaves new_empty.

Definition root_hash (t : MerkleTree) : option bytes := mn_hash <$> mt_root t.

(** [(leaf_count - 1).next_power_of_two().trailing_zeros() + 1] *)
Definition get_tree_height (t : MerkleTree) : Z :=
  if bool_decide (mt_leaves t = []) then 0 else Z.log2_up (Z.of_nat (length (mt_leaves t)) - 1) + 1.

(** ** Proofs *)

Fixpoint dup_level (l : list bytes) : list bytes :=
  match l with
  | a :: b :: l => combine_hashes a b :: dup_level l
  | [a] => [combine_hashes a a]
  | [] => []
  end.

Definition sibling_index (i : nat) : nat := if Nat.even i then (i + 1)%nat else (i - 1)%nat.

(** [level_nodes[sibling_index]], or the last node when there is none. *)
Definition sibling (l : list bytes) (i : nat) : bytes :=
  if (length l <=? sibling_index i)%nat then nth (length l - 1) l [] else nth (sibling_index i) l [].

Fixpoint proof_loop (fuel : nat) (l : list bytes) (i : nat) : outcome (list bytes) :=
  match l with
  | _ :: _ :: _ =>
      match fuel with
      | O => Hang
      | S fuel => rest ← proof_loop fuel (dup_level l) (i / 2); Ok (sibling l i :: rest)
      end
  | _ => Ok []
  end.

Definition generate_proof (t : MerkleTree) (leaf_index : nat) : outcome TreeProof :=
  if (length (mt_leaves t) <=? leaf_index)%nat then Ok (mkTreeProof [] leaf_index)
  else
    path ← proof_loop (length (mt_leaves t)) (mt_leaves t) leaf_index;
    Ok (mkTreeProof path leaf_index).

Fixpoint climb (h : bytes) (i : nat) (path : list bytes) : bytes :=
  match path with
  | [] => h
  | s :: path => climb (if Nat.even i then combine_hashes h s else combine_hashes s h) (i / 2) path
  end.

Definition verify_proof (root_hash leaf_hash : bytes) (path : list bytes) (leaf_index : nat) : bool :=
  constant_time_eq (climb leaf_hash leaf_index path) root_hash.

(** [MerkleProof::verify] *)
Definition proof_verify (p : TreeProof) (root_hash leaf_hash : bytes) : bool :=
  verify_proof (to_hash root_hash) (to_hash leaf_hash) (tp_path p) (tp_leaf_index p).

(** ** The functions of merkle/mod.rs *)

Definition create_merkle_tree (leaves : list bytes) : outcome bytes :=
  t ← new leaves; Ok (unwrap_or (zeros 32) (root_hash t)).

Definition mod_generate_proof (merkle_root : bytes) (leaf_index : nat) : outcome (list bytes) :=
  t ← new [merkle_root]; p ← generate_proof t leaf_index; Ok (tp_path p).

Definition mod_verify_proof (merkle_root leaf : bytes) (proof : list bytes) : bool :=
  if (32 <=? length merkle_root)%nat && (32 <=? length leaf)%nat then
    verify_proof (take 32 merkle_root) (take 32 leaf)
      (map (take 32) (List.filter (fun p => (32 <=? length p)%nat) proof)) 0
  else false.

End MTree.
End MTree.

(** ** Levels *)

Lemma pair_ind {A} (P : list A → Prop) :
  P [] → (∀ a, P [a]) → (∀ a b l, P l → P (a :: b :: l)) → ∀ l, P l.
Proof.
  intros H0 H1 H2 l. enough (P l ∧ ∀ a, P (a :: l)) by tauto.
  induction l as [|b l [IH1 IH2]]; [auto|]. split; [apply IH2|]. intros a. by apply H2.
Qed.

Section Levels.
Context {B3 : Blake3}.

(** Both level functions halve the length, rounding up. *)
Definition half_up (n : nat) : nat := ((n + 1) / 2)%nat.

Lemma half_up_SS n : half_up (S (S n)) = S (half_up n).
Proof. unfold half_up. replace (S (S n) + 1)%nat with (1 * 2 + (n + 1))%nat by lia. by rewrite Nat.div_add_l. Qed.

Lemma half_up_lt n : (2 ≤ n)%nat → (1 ≤ half_up n < n)%nat.
Proof. intros H. unfold half_up. split; [apply Nat.div_le_lower_bound; lia|apply Nat.Div0.div_lt_upper_bound; lia]. Qed.

Lemma half_up_pow2 k : half_up (2 ^ S k) = (2 ^ k)%nat.
Proof. unfold half_up. rewrite Nat.pow_succ_r'. rewrite Nat.mul_comm, Nat.div_add_l; [cbn; lia|lia]. Qed.

Lemma length_next_level l : length (MTree.next_level l) = half_up (length l).
Proof. induction l as [|a|a b l IH] using pair_ind; [done|done|]. cbn [MTree.next_level length]. by rewrite IH, half_up_SS. Qed.

Lemma length_dup_level l : length (MTree.dup_level l) = half_up (length l).
Proof. induction l as [|a|a b l IH] using pair_ind; [done|done|]. cbn [MTree.dup_level length]. by rewrite IH, half_up_SS. Qed.

(** On an even level the tree and the proof agree. *)
Lemma next_level_even k : ∀ l, length l = (2 * k)%nat → map mn_hash (MTree.next_level l) = MTree.dup_level (map mn_hash l).
Proof.
  induction k as [|k IH]; intros [|a [|b l]] Hl; cbn in Hl |- *; try done; try lia.
  f_equal. apply IH. lia.
Qed.

Lemma build_loop_total fuel : ∀ l, l ≠ [] → (length l ≤ fuel + 1)%nat →
  ∃ r, MTree.build_loop fuel l = Ok [r].
Proof.
  induction fuel as [|fuel IH]; intros l Hne Hl; destruct l as [|a [|b l]]; cbn [MTree.build_loop];
    try done; try (by eexists); [cbn in Hl; lia|].
  pose proof (length_next_level (a :: b :: l)) as Hn. pose proof (half_up_lt (length (a :: b :: l)) ltac:(cbn; lia)).
  apply IH; [intros E; rewrite E in Hn; cbn in Hn, H; lia|lia].
Qed.

(** The root of the tree that duplicates the last node of an odd level. *)
Fixpoint dup_root (fuel : nat) (l : list bytes) : bytes :=
  match l with
  | [] => []
  | [h] => h
  | _ => match fuel with O => [] | S fuel => dup_root fuel (MTree.dup_level l) end
  end.

Lemma build_loop_pow2 k : ∀ fuel l, length l = (2 ^ k)%nat → (k ≤ fuel)%nat →
  ∃ r, MTree.build_loop fuel l = Ok [r] ∧ mn_hash r = dup_root fuel (map mn_hash l).
Proof.
  induction k as [|k IH]; intros fuel l Hl Hf.
  - destruct l as [|a [|b l]]; try done. exists a. by destruct fuel.
  - assert (Hge : (2 ≤ length l)%nat) by (rewrite Hl, Nat.pow_succ_r'; pose proof (Nat.pow_nonzero 2 k); lia).
    destruct l as [|a [|b l]]; [cbn in Hge; lia..|]. destruct fuel as [|fuel]; [lia|].
    destruct (IH fuel (MTree.next_level (a :: b :: l))) as (r & Hr & Hh); [|lia|].
    + by rewrite length_next_level, Hl, half_up_pow2.
    + exists r. split; [exact Hr|]. rewrite Hh. cbn [map dup_root].
      rewrite (next_level_even (2 ^ k)); [done|]. by rewrite Hl.
Qed.

(** Fuel beyond the height is not used. *)
Lemma dup_root_fuel k : ∀ l f1 f2, length l = (2 ^ k)%nat → (k ≤ f1)%nat → (k ≤ f2)%nat → dup_root f1 l = dup_root f2 l.
Proof.
  induction k as [|k IH]; intros l f1 f2 Hl H1 H2.
  - destruct l as [|a [|b l]]; try done. by destruct f1, f2.
  - rewrite Nat.pow_succ_r' in Hl. pose proof (Nat.pow_nonzero 2 k ltac:(lia)).
    destruct l as [|a [|b l]]; [cbn in Hl; lia..|]. destruct f1 as [|f1], f2 as [|f2]; try lia. cbn [dup_root].
    apply IH; [|lia..]. rewrite length_dup_level, Hl, <- Nat.pow_succ_r'. apply half_up_pow2.
Qed.

Lemma dup_level_lookup l : ∀ j, (j < half_up (length l))%nat →
  nth j (MTree.dup_level l) [] =
    MTree.combine_hashes (nth (2 * j) l []) (if (length l <=? 2 * j + 1)%nat then nth (2 * j) l [] else nth (2 * j + 1) l []).
Proof.
  induction l as [|a|a b l IH] using pair_ind; intros j Hj.
  - by apply Nat.nlt_0_r in Hj.
  - assert (j = 0)%nat as -> by (cbn in Hj; lia). done.
  - cbn [length] in Hj. rewrite half_up_SS in Hj. destruct j as [|j]; [done|].
    cbn [MTree.dup_level nth]. rewrite IH by lia.
    replace (2 * S j)%nat with (S (S (2 * j))) by lia. cbn [nth Nat.add length Nat.leb]. done.
Qed.

(** One step of a verifier follows one level. *)
Lemma climb_level l i : (i < length l)%nat → (2 ≤ length l)%nat →
  (if Nat.even i then MTree.combine_hashes (nth i l []) (MTree.sibling l i)
   else MTree.combine_hashes (MTree.sibling l i) (nth i l [])) = nth (i / 2) (MTree.dup_level l) [].
Proof.
  intros Hi Hl.
  assert (Hh : (i / 2 < half_up (length l))%nat).
  { unfold half_up. apply Nat.div_le_lower_bound; [lia|]. pose proof (Nat.div_mod i 2 ltac:(lia)). lia. }
  rewrite dup_level_lookup by done. unfold MTree.sibling, MTree.sibling_index.
  destruct (Nat.even i) eqn:E.
  - apply Nat.even_spec in E as [m ->]. rewrite (Nat.mul_comm 2 m), Nat.div_mul, (Nat.mul_comm m 2) by lia.
    destruct (Nat.leb_spec (length l) (2 * m + 1)); [|done]. by replace (length l - 1)%nat with (2 * m)%nat by lia.
  - assert (Nat.odd i = true) as [m ->]%Nat.odd_spec by (unfold Nat.odd; by rewrite E).
    replace ((2 * m + 1) / 2)%nat with m by (rewrite Nat.add_comm, Nat.mul_comm, Nat.div_add; cbn; lia).
    replace (2 * m + 1 - 1)%nat with (2 * m)%nat by lia.
    rewrite (proj2 (Nat.leb_gt _ _)) by lia. by rewrite (proj2 (Nat.leb_gt _ _)) by lia.
Qed.

(** Generated proofs lead to the root of the duplicating tree. *)
Lemma proof_loop_climb fuel : ∀ l i, (i < length l)%nat → (length l ≤ fuel + 1)%nat →
  ∃ path, MTree.proof_loop fuel l i = Ok path ∧ MTree.climb (nth i l []) i path = dup_root fuel l.
Proof.
  induction fuel as [|fuel IH]; intros l i Hi Hl; destruct l as [|a [|b l]]; cbn [length] in *; try lia.
  - assert (i = 0)%nat as -> by lia. by exists [].
  - assert (i = 0)%nat as -> by lia. by exists [].
  - set (l0 := a :: b :: l) in *. assert (Hl0 : length l0 = S (S (length l))) by done.
    pose proof (half_up_lt (length l0) ltac:(lia)) as Hh. rewrite <- length_dup_level in Hh.
    destruct (IH (MTree.dup_level l0) (i / 2)%nat) as (path & Hp & Hc); [| lia |].
    { rewrite length_dup_level. unfold half_up. apply Nat.div_le_lower_bound; [lia|].
      pose proof (Nat.div_mod i 2 ltac:(lia)). lia. }
    exists (MTree.sibling l0 i :: path). split.
    + change (MTree.proof_loop (S fuel) l0 i) with (rest ← MTree.proof_loop fuel (MTree.dup_level l0) (i / 2)%nat; Ok (MTree.sibling l0 i :: rest)).
      by rewrite Hp.
    + cbn [MTree.climb]. rewrite climb_level by lia. exact Hc.
Qed.

Lemma to_hash_length d : length (MTree.to_hash d) = 32%nat.
Proof.
  unfold MTree.to_hash. destruct (Nat.leb_spec 32 (length d)); [rewrite length_take; lia|apply blake3_length].
Qed.

Lemma combine_inj a b c d : length a = 32%nat → length c = 32%nat →
  MTree.combine_hashes a b = MTree.combine_hashes c d → collision blake3 [a ++ b; c ++ d] ∨ (a = c ∧ b = d).
Proof.
  unfold MTree.combine_hashes. intros Ha Hc [E|E]%hash_bind; [right|by left]. by apply app_inj_1 in E; [|lia].
Qed.

(** What climbing a path feeds to BLAKE3, and what hashing the levels does. *)
Fixpoint path_inputs (h : bytes) (i : nat) (path : list bytes) : list bytes :=
  match path with
  | [] => []
  | s :: path =>
      let input := if Nat.even i then h ++ s else s ++ h in
      input :: path_inputs (blake3 input) (i / 2) path
  end.

Fixpoint level_inputs (l : list bytes) : list bytes :=
  match l with
  | a :: b :: l => (a ++ b) :: level_inputs l
  | [a] => [a ++ a]
  | [] => []
  end.
Fixpoint levels_inputs (k : nat) (l : list bytes) : list bytes :=
  match k with O => [] | S k => level_inputs l ++ levels_inputs k (MTree.dup_level l) end.

Lemma elem_of_level_inputs l : ∀ j, (2 * j + 1 < length l)%nat → nth (2 * j) l [] ++ nth (2 * j + 1) l [] ∈ level_inputs l.
Proof.
  induction l as [|a|a b l IH] using pair_ind; intros j Hj; cbn [length] in Hj; [lia..|]. destruct j as [|j]; [by left|].
  right. replace (2 * S j)%nat with (S (S (2 * j))) by lia. apply IH. lia.
Qed.

Lemma nth_length_32 l i : Forall (fun x : bytes => length x = 32%nat) l → (i < length l)%nat → length (nth i l []) = 32%nat.
Proof. intros H Hi. rewrite List.Forall_forall in H. apply H. by apply nth_In. Qed.

Lemma dup_level_32 l : Forall (fun x : bytes => length x = 32%nat) (MTree.dup_level l).
Proof.
  induction l as [|a|a b l IH] using pair_ind; cbn [MTree.dup_level]; repeat (apply Forall_cons_2 || apply Forall_nil_2);
    try apply blake3_length. exact IH.
Qed.

(** A path with one hash per level leads to the root from one leaf only. *)
Lemma tree_climb_sound k : ∀ l i h path,
  length l = (2 ^ k)%nat → Forall (fun x => length x = 32%nat) l → length h = 32%nat →
  length path = k → Forall (fun x => length x = 32%nat) path →
  MTree.climb h i path = dup_root k l →
  collision blake3 (path_inputs h i path ++ levels_inputs k l) ∨ h = nth (i mod 2 ^ k)%nat l [].
Proof.
  induction k as [|k IH]; intros l i h path Hl Hl32 Hh Hp Hp32 Hc.
  - destruct path; [|done]. destruct l as [|x [|y l]]; try done. right. exact Hc.
  - destruct path as [|s path]; [done|]. apply Forall_cons in Hp32 as [Hs Hp32]. injection Hp as Hp.
    rewrite Nat.pow_succ_r' in Hl. assert (Hk : (2 ^ k ≠ 0)%nat) by (by apply Nat.pow_nonzero).
    destruct l as [|x [|y l]]; [cbn in Hl; lia..|]. set (l0 := x :: y :: l) in *.
    cbn [MTree.climb] in Hc. change (dup_root (S k) l0) with (dup_root k (MTree.dup_level l0)) in Hc.
    assert (Hd : length (MTree.dup_level l0) = (2 ^ k)%nat) by (rewrite length_dup_level, Hl, <- Nat.pow_succ_r'; apply half_up_pow2).
    apply IH in Hc; [|done|apply dup_level_32|by destruct (Nat.even i); apply blake3_length|done|done].
    destruct Hc as [Hc|Hc].
    { left. eapply collision_mono; [|exact Hc]. cbn [path_inputs levels_inputs]. destruct (Nat.even i); set_solver. }
    assert (Hj : ((i / 2) mod 2 ^ k < 2 ^ k)%nat) by (by apply Nat.mod_upper_bound).
    assert (Hi : (i mod (2 * 2 ^ k) = 2 * ((i / 2) mod 2 ^ k) + i mod 2)%nat) by (rewrite Nat.Div0.mod_mul_r; lia).
    rewrite dup_level_lookup in Hc by (rewrite Hl, <- Nat.pow_succ_r', half_up_pow2; done).
    rewrite (proj2 (Nat.leb_gt _ _)) in Hc by lia. rewrite Nat.pow_succ_r', Hi.
    assert (H0 : length (nth (2 * ((i / 2) mod 2 ^ k))%nat l0 []) = 32%nat) by (apply nth_length_32; [done|lia]).
    pose proof (elem_of_level_inputs l0 ((i / 2) mod 2 ^ k)%nat ltac:(lia)) as Hin.
    cbn [path_inputs levels_inputs]. destruct (Nat.even i) eqn:E.
    + apply combine_inj in Hc as [Hc|[Hc _]]; [left; eapply collision_mono; [|exact Hc]; set_solver|right|done|done].
      apply Nat.even_spec in E as [m ->]. by rewrite (Nat.mul_comm 2 m), Nat.Div0.mod_mul, Nat.mul_comm, Nat.add_0_r in *.
    + apply combine_inj in Hc as [Hc|[_ Hc]]; [left; eapply collision_mono; [|exact Hc]; set_solver|right|done|done].
      replace (i mod 2)%nat with 1%nat; [done|]. pose proof (Nat.mod_upper_bound i 2 ltac:(lia)).
      destruct (i mod 2)%nat as [|[|n]] eqn:Em; [|done|lia]. exfalso. apply Nat.Div0.mod_divides in Em as [m Em].
      rewrite Em in E. by rewrite (proj2 (Nat.even_spec _)) in E by (by exists m).
Qed.

End Levels.

(** ** Properties *)

Section TreeProperties.
Context {B3 : Blake3}.

Lemma rebuild_total leaves : leaves ≠ [] →
  ∃ root, MTree.rebuild leaves = Ok (mkMTree (Some root) leaves).
Proof.
  intros Hne. unfold MTree.rebuild. destruct leaves as [|x leaves]; [done|].
  destruct (build_loop_total (length (x :: leaves)) (map (fun h => MNode h None None) (x :: leaves))) as (r & Hr);
    [done|rewrite length_map; lia|]. rewrite Hr. by eexists.
Qed.

Lemma add_leaves_total leaves : ∀ t, (mt_root t = None ↔ mt_leaves t = []) →
  ∃ t', MTree.add_leaves leaves t = Ok t' ∧ mt_leaves t' = mt_leaves t ++ map MTree.to_hash leaves ∧
    (mt_root t' = None ↔ mt_leaves t' = []).
Proof.
  induction leaves as [|x leaves IH]; intros t Ht; cbn [MTree.add_leaves map].
  - exists t. by rewrite app_nil_r.
  - unfold MTree.add_leaf. destruct (rebuild_total (mt_leaves t ++ [MTree.to_hash x])) as (r & Hr); [by destruct (mt_leaves t)|].
    rewrite Hr. cbn [mbind outcome_bind].
    destruct (IH (mkMTree (Some r) (mt_leaves t ++ [MTree.to_hash x]))) as (t' & H1 & H2 & H3).
    + cbn. split; [done|]. by destruct (mt_leaves t).
    + exists t'. cbn in H2. by rewrite H2, <- app_assoc in *.
Qed.

(** Building and proving terminate: for every list of leaves [new] returns a
    tree with exactly these leaves and a root unless there are none, and
    [generate_proof] returns for every index, with an empty path beyond the
    leaves. *)
Theorem tree_operations_terminate (leaves : list bytes) (i : nat) :
  ∃ t p, MTree.new leaves = Ok t ∧ mt_leaves t = map MTree.to_hash leaves ∧
    (MTree.root_hash t = None ↔ leaves = []) ∧
    MTree.generate_proof t i = Ok p ∧ tp_leaf_index p = i ∧ ((length leaves ≤ i)%nat → tp_path p = []).
Proof.
  destruct (add_leaves_total leaves MTree.new_empty) as (t & H1 & H2 & H3); [done|]. exists t.
  unfold MTree.generate_proof. rewrite H2 in *. cbn [mt_leaves MTree.new_empty app] in *. rewrite length_map.
  assert (Hroot : MTree.root_hash t = None ↔ leaves = []).
  { unfold MTree.root_hash. rewrite fmap_None, H3. by destruct leaves. }
  destruct (Nat.leb_spec (length leaves) i) as [Hi|Hi]; [by eexists|].
  destruct (proof_loop_climb (length leaves) (map MTree.to_hash leaves) i) as (path & -> & _);
    [rewrite length_map; lia..|]. eexists. split_and!; try done. intros; cbn; lia.
Qed.

Lemma add_leaves_rebuild leaves : ∀ t t', leaves ≠ [] → MTree.add_leaves leaves t = Ok t' → MTree.rebuild (mt_leaves t') = Ok t'.
Proof.
  induction leaves as [|x leaves IH]; intros t t' Hne H; [done|]. cbn [MTree.add_leaves] in H. unfold MTree.add_leaf in H.
  destruct (rebuild_total (mt_leaves t ++ [MTree.to_hash x])) as (r & Hr); [by destruct (mt_leaves t)|].
  rewrite Hr in H. cbn [mbind outcome_bind] in H. destruct leaves as [|y leaves].
  - apply Ok_inj in H as <-. exact Hr.
  - by apply (IH _ t') in H.
Qed.

(** The tree of a non-empty list of leaves. *)
Lemma new_spec leaves : leaves ≠ [] →
  ∃ r, MTree.new leaves = Ok (mkMTree (Some r) (map MTree.to_hash leaves)) ∧
    MTree.build_loop (length leaves) (map (fun h => MNode h None None) (map MTree.to_hash leaves)) = Ok [r].
Proof.
  intros Hne. destruct (add_leaves_total leaves MTree.new_empty) as (t & H1 & H2 & _); [done|].
  pose proof (add_leaves_rebuild leaves _ _ Hne H1) as Hr. cbn in H2. rewrite H2 in Hr.
  destruct (build_loop_total (length leaves) (map (fun h => MNode h None None) (map MTree.to_hash leaves))) as (r & Hb);
    [by destruct leaves|rewrite !length_map; lia|].
  exists r. split; [|exact Hb]. unfold MTree.new. rewrite H1. f_equal. unfold MTree.rebuild in Hr. rewrite length_map, Hb in Hr.
  destruct leaves; [done|]. by apply Ok_inj in Hr.
Qed.

Lemma new_pow2 leaves k : length leaves = (2 ^ k)%nat →
  ∃ r, MTree.new leaves = Ok (mkMTree (Some r) (map MTree.to_hash leaves)) ∧
    mn_hash r = dup_root (length leaves) (map MTree.to_hash leaves).
Proof.
  intros Hl. pose proof (Nat.pow_nonzero 2 k ltac:(lia)). destruct (new_spec leaves) as (r & Hn & Hb); [by destruct leaves|].
  destruct (build_loop_pow2 k (length leaves) (map (fun h => MNode h None None) (map MTree.to_hash leaves)))
    as (r' & Hb' & Hr); [by rewrite !length_map|rewrite Hl; apply Nat.lt_le_incl, Nat.pow_gt_lin_r; lia|].
  rewrite Hb in Hb'. injection Hb' as <-. exists r. split; [done|]. rewrite Hr, map_map. f_equal.
  rewrite <- map_id. by apply map_ext.
Qed.

(** Proofs round-trip on full trees: with a power of two of leaves, the proof
    generated for any leaf verifies against the root. *)
Theorem tree_proof_complete (leaves : list bytes) (k i : nat) :
  length leaves = (2 ^ k)%nat → (i < 2 ^ k)%nat →
  ∃ t root p, MTree.new leaves = Ok t ∧ MTree.root_hash t = Some root ∧ MTree.generate_proof t i = Ok p ∧
    MTree.verify_proof root (nth i (mt_leaves t) []) (tp_path p) (tp_leaf_index p) = true.
Proof.
  intros Hl Hi. destruct (new_pow2 leaves k Hl) as (r & Hn & Hr).
  destruct (proof_loop_climb (length leaves) (map MTree.to_hash leaves) i) as (path & Hp & Hc); [rewrite length_map; lia..|].
  eexists _, (mn_hash r), _. split_and!; [exact Hn|done| |].
  - unfold MTree.generate_proof. cbn [mt_leaves]. rewrite length_map, (proj2 (Nat.leb_gt _ _)) by lia. by rewrite Hp.
  - unfold MTree.verify_proof. cbn [mt_leaves tp_path tp_leaf_index]. rewrite Hc, Hr. apply constant_time_eq_refl.
Qed.

(** C18: proofs are sound on full trees: a path of one 32-byte hash per level that
    verifies for a 32-byte hash names the leaf at the index taken modulo the
    number of leaves, unless two of the inputs hashed while verifying this path
    and while building this tree collide under BLAKE3 (the inputs are listed, so
    the statement says something for every hash function). *)
Theorem tree_proof_sound (leaves : list bytes) (k i : nat) (t : MerkleTree) (root h : bytes) (path : list bytes) :
  length leaves = (2 ^ k)%nat → MTree.new leaves = Ok t → MTree.root_hash t = Some root →
  length h = 32%nat → length path = k → Forall (fun x => length x = 32%nat) path →
  MTree.verify_proof root h path i = true →
  collision blake3 (path_inputs h i path ++ levels_inputs k (mt_leaves t)) ∨ h = nth (i mod 2 ^ k)%nat (mt_leaves t) [].
Proof.
  intros Hl Hn Hroot Hh Hp Hp32 Hv. destruct (new_pow2 leaves k Hl) as (r & Hn' & Hr).
  rewrite Hn in Hn'. apply Ok_inj in Hn' as ->. cbn in Hroot. injection Hroot as <-.
  unfold MTree.verify_proof in Hv. apply constant_time_eq_spec in Hv. cbn [mt_leaves].
  apply (tree_climb_sound k _ i h path); try done.
  - by rewrite length_map.
  - apply Forall_map, Forall_forall. intros x _. apply to_hash_length.
  - rewrite Hv, Hr. apply (dup_root_fuel k); [by rewrite length_map| |done].
    rewrite Hl. apply Nat.lt_le_incl, Nat.pow_gt_lin_r. lia.
Qed.

(** A tree of three leaves proves none of them: building promotes the third
    leaf and proving duplicates it, so that no generated proof verifies unless
    the two inputs of the root collide or the third leaf is the hash of its own
    double. *)
Theorem three_leaves_never_verify (a b c : bytes) (i : nat) (t : MerkleTree) (root : bytes) (p : TreeProof) :
  MTree.new [a; b; c] = Ok t → MTree.root_hash t = Some root → (i < 3)%nat → MTree.generate_proof t i = Ok p →
  MTree.verify_proof root (nth i (mt_leaves t) []) (tp_path p) (tp_leaf_index p) = false ∨
  collision blake3 (map (fun x => blake3 (MTree.to_hash a ++ MTree.to_hash b) ++ x)
    [blake3 (MTree.to_hash c ++ MTree.to_hash c); MTree.to_hash c]) ∨
  MTree.to_hash c = blake3 (MTree.to_hash c ++ MTree.to_hash c).
Proof.
  intros Hn Hroot Hi Hp. destruct (MTree.verify_proof _ _ _ _) eqn:Hv; [right|by left]. destruct (new_spec [a; b; c]) as (r & Hn' & Hb); [done|].
  rewrite Hn in Hn'. apply Ok_inj in Hn' as ->. cbn in Hroot, Hb. injection Hroot as <-. injection Hb as <-.
  destruct (proof_loop_climb 3 (map MTree.to_hash [a; b; c]) i) as (path & Hpath & Hc); [done|cbn; lia|].
  unfold MTree.generate_proof in Hp. cbn [mt_leaves] in Hp. rewrite length_map, (proj2 (Nat.leb_gt _ _)) in Hp by (cbn; lia).
  cbn [length] in Hp. rewrite Hpath in Hp. apply Ok_inj in Hp as <-.
  unfold MTree.verify_proof in Hv. apply constant_time_eq_spec in Hv. cbn [mt_leaves tp_path tp_leaf_index] in Hv.
  rewrite Hc in Hv. cbn in Hv. by apply combine_inj in Hv as [Hv|[_ Hv]]; [left|right|apply blake3_length..].
Qed.

End TreeProperties.

(** ** Witnesses *)

Section TreeWitnesses.
#[local] Existing Instances Toy.toy_blake3.

Lemma tree_proof_complete_witness :
  ∃ t root p, MTree.new [[Byte.x01]; [Byte.x02]] = Ok t ∧ MTree.root_hash t = Some root ∧ MTree.generate_proof t 1 = Ok p ∧
    MTree.verify_proof root (nth 1 (mt_leaves t) []) (tp_path p) (tp_leaf_index p) = true.
Proof. apply (tree_proof_complete [[Byte.x01]; [Byte.x02]] 1 1); [reflexivity|cbn; lia]. Defined.

Definition toy_tree : MerkleTree :=
  match MTree.new [[Byte.x01]; [Byte.x02]; [Byte.x03]] with Ok t => t | _ => MTree.new_empty end.
Definition toy_full : MerkleTree :=
  match MTree.new [[Byte.x01]; [Byte.x02]] with Ok t => t | _ => MTree.new_empty end.

(** The hashes of this tree do not collide, so the path names its leaf. *)
Lemma tree_proof_sound_witness : MTree.to_hash [Byte.x02] = nth (3 mod 2 ^ 1)%nat (mt_leaves toy_full) [].
Proof.
  pose proof (tree_proof_sound (B3 := Toy.toy_blake3) [[Byte.x01]; [Byte.x02]] 1 3 toy_full (unwrap_or [] (MTree.root_hash toy_full))
    (MTree.to_hash [Byte.x02]) [MTree.to_hash [Byte.x01]] eq_refl ltac:(vm_compute; reflexivity)
    ltac:(vm_compute; reflexivity) ltac:(vm_compute; reflexivity) eq_refl ltac:(by repeat constructor)
    ltac:(vm_compute; reflexivity)) as [Hc|H]; [exfalso|exact H].
  revert Hc. apply (bool_decide_unpack (¬ collision blake3 _)). vm_compute. exact I.
Defined.

Definition toy_proof : TreeProof := match MTree.generate_proof toy_tree 2 with Ok p => p | _ => mkTreeProof [] 0 end.

(** The generated proof of the third leaf is refused. *)
Lemma three_leaves_never_verify_witness :
  MTree.verify_proof (unwrap_or [] (MTree.root_hash toy_tree)) (nth 2 (mt_leaves toy_tree) []) (tp_path toy_proof)
    (tp_leaf_index toy_proof) = false ∧
  (MTree.verify_proof (unwrap_or [] (MTree.root_hash toy_tree)) (nth 2 (mt_leaves toy_tree) []) (tp_path toy_proof)
    (tp_leaf_index toy_proof) = false ∨
   collision blake3 (map (fun x => blake3 (MTree.to_hash [Byte.x01] ++ MTree.to_hash [Byte.x02]) ++ x)
     [blake3 (MTree.to_hash [Byte.x03] ++ MTree.to_hash [Byte.x03]); MTree.to_hash [Byte.x03]]) ∨
   MTree.to_hash [Byte.x03] = blake3 (MTree.to_hash [Byte.x03] ++ MTree.to_hash [Byte.x03])).
Proof.
  split; [vm_compute; reflexivity|].
  apply (three_leaves_never_verify [Byte.x01] [Byte.x02] [Byte.x03] 2); [vm_compute; reflexivity..|lia|vm_compute; reflexivity].
Defined.

End TreeWitnesses.
