(* ===== verification/Devices.v ===== *)
(** * Device hierarchy (dsm/src/core/identity/hierarchical_device_management.rs)

    The sub-identities of one master genesis state: their sub-genesis states,
    the Merkle tree over them, the state chain of each device, the checks one
    device makes of another, and the signed invalidation markers.  A method that
    fails keeps what it wrote before the failure, so the operations of the
    manager return the manager on every outcome. *)
From S2P Require Import Prelude Tokens Operations SparseIdx States Sphincs MTree.

(** ** Data *)

Record SparseIndexVerifier := mkVerifier {
  sv_sparse_indices : list Z;
  sv_checkpoints : gmap Z bytes;
}.

Record DeviceSubIdentity := mkSub {
  ds_device_id : string;
  ds_sub_genesis : State;
  ds_current_state : State;
  ds_merkle_proof : option TreeProof;
  ds_verifier : SparseIndexVerifier;
}.

Record HierarchicalDeviceManager := mkDevices {
  dm_master_genesis : State;
  dm_tree : MerkleTree;
  dm_devices : gmap string DeviceSubIdentity;
}.

Record DeviceProof := mkDeviceProof {
  dp_device1_hash : bytes;
  dp_device2_hash : bytes;
  dp_relationship_proof : bytes;
}.

Record DeviceInvalidationMarker := mkMarker {
  im_state_number : Z;
  im_state_hash : bytes;
  im_state_entropy : bytes;
  im_device_id : string;
  im_reason : string;
  im_signature : bytes;
}.

Definition set_state_number (n : Z) (s : State) : State :=
  mkState (st_id s) n (entropy s) (hash s) (prev_state_hash s) (sparse_index s)
    (operation s) (encapsulated_entropy s) (device_info s) (flags s) (token_balances s)
    (matches_parameters s) (relationship_context s) (forward_commitment s) (position_sequence s)
    (positions s) (st_public_key s) (device_id s) (hashchain_head s) (external_data s)
    (entity_sig s) (counterparty_sig s) (st_value s) (st_commitment s) (state_type s).

(** ** [impl SparseIndexVerifier] *)

Module Verifier.
Section Verifier.
Context {B3 : Blake3} {SO : Bincode Operation} {SB : Bincode Balance} {SP : Bincode PreCommitment}.

Definition new : SparseIndexVerifier := mkVerifier [] ∅.

(** [while sparse <= state_number]: the shift of a u64 by 64 panics. *)
Fixpoint powers (fuel : nat) (n power sparse : Z) : outcome (list Z) :=
  if sparse <=? n then
    match fuel with
    | O => Hang
    | S fuel =>
        next ← u64_shl1 (power + 1);
        rest ← powers fuel n (power + 1) next;
        Ok (sparse :: rest)
    end
  else Ok [sparse].

Definition update_sparse_indices (s : State) : M SparseIndexVerifier unit :=
  let* sparse := mlift (powers 65 (state_number s) 0 1) in
  do* mmod (fun v => mkVerifier sparse (sv_checkpoints v));
  let* h := mlift (St.get_hash s) in
  mmod (fun v => mkVerifier (sv_sparse_indices v) (<[state_number s := h]> (sv_checkpoints v))).

Definition verify_state (v : SparseIndexVerifier) (current_state new_state : State) : outcome bool :=
  n ← u64_add (state_number current_state) 1;
  if negb (state_number new_state =? n) then Ok false
  else
    h ← St.get_hash current_state;
    if negb (bool_decide (prev_state_hash new_state = h)) then Ok false else Ok true.

(** The scan of the checkpoints for the greatest index below [n], in the
    iteration order [l]. *)
Definition nearest_checkpoint (n : Z) (l : list (Z * bytes)) : option (Z * bytes) :=
  fold_left (fun nearest '(idx, h) =>
    if (idx <? n) && match nearest with None => true | Some (i, _) => i <? idx end
    then Some (idx, h) else nearest) l None.

(** [while current.state_number > 0] *)
Fixpoint chain_loop (fuel : nat) (checkpoints : list (Z * bytes)) (genesis current : State) : outcome bool :=
  if negb (0 <? state_number current) then Ok true
  else
    match fuel with
    | O => Hang
    | S fuel =>
        match nearest_checkpoint (state_number current) checkpoints with
        | Some (checkpoint_num, checkpoint_hash) =>
            if negb (bool_decide (prev_state_hash current = checkpoint_hash)) then Ok false
            else if checkpoint_num =? 0 then Ok true
            else chain_loop fuel checkpoints genesis (set_state_number checkpoint_num genesis)
        | None =>
            if state_number current =? 1 then
              genesis_hash ← St.get_hash genesis;
              Ok (bool_decide (prev_state_hash current = genesis_hash))
            else if negb (Nat.eqb (length (prev_state_hash current)) 32) then Ok false
            else
              chain_loop fuel checkpoints genesis (set_state_number (state_number current - 1) current)
        end
    end.

Definition verify_chain (v : SparseIndexVerifier) (genesis s : State) : outcome bool :=
  if state_number s =? 0 then Ok true
  else if state_number s =? 1 then
    genesis_hash ← St.get_hash genesis;
    Ok (bool_decide (prev_state_hash s = genesis_hash))
  else chain_loop (Z.to_nat (state_number s)) (map_to_list (sv_checkpoints v)) genesis s.

End Verifier.
End Verifier.

(** ** [impl DeviceSubIdentity] *)

Module Sub.
Section Sub.
Context {B3 : Blake3} {SO : Bincode Operation} {SB : Bincode Balance} {SP : Bincode PreCommitment}.

Definition new (device_id : string) (sub_genesis : State) : DeviceSubIdentity :=
  mkSub device_id sub_genesis sub_genesis None Verifier.new.

Definition set_current (s : State) (d : DeviceSubIdentity) : DeviceSubIdentity :=
  mkSub (ds_device_id d) (ds_sub_genesis d) s (ds_merkle_proof d) (ds_verifier d).

(** A call on the field [sparse_index_verifier]. *)
Definition on_verifier {A} (m : M SparseIndexVerifier A) : M DeviceSubIdentity A := fun d =>
  let '(r, v) := m (ds_verifier d) in
  (r, mkSub (ds_device_id d) (ds_sub_genesis d) (ds_current_state d) (ds_merkle_proof d) v).

(** The state is replaced before the sparse indices are updated, so a failure
    of the latter leaves the new state in place. *)
Definition update_state (new_state : State) : M DeviceSubIdentity unit :=
  let* d := mget in
  do* (if state_number (ds_current_state d) =? 0 then
         if negb (state_number new_state =? 1) then
           mfail (EValidation "First state transition must be to state 1")
         else
           let* h := mlift (St.get_hash (ds_current_state d)) in
           if negb (bool_decide (prev_state_hash new_state = h)) then
             mfail (EValidation "Invalid state transition - prev_state_hash mismatch")
           else mret_st tt
       else
         let* n := mlift (u64_add (state_number (ds_current_state d)) 1) in
         if negb (state_number new_state =? n) then
           mfail (EValidation "Invalid state transition - non-sequential state numbers")
         else
           let* h := mlift (St.get_hash (ds_current_state d)) in
           if negb (bool_decide (prev_state_hash new_state = h)) then
             mfail (EValidation "Invalid state transition - hash chain broken")
           else mret_st tt);
  do* mmod (set_current new_state);
  let* d := mget in
  on_verifier (Verifier.update_sparse_indices (ds_current_state d)).

Definition set_merkle_proof (proof : TreeProof) (d : DeviceSubIdentity) : DeviceSubIdentity :=
  mkSub (ds_device_id d) (ds_sub_genesis d) (ds_current_state d) (Some proof) (ds_verifier d).

(** The comparison with the root is commented out in the source. *)
Definition verify_merkle_proof (d : DeviceSubIdentity) (root_hash : bytes) : outcome bool :=
  match ds_merkle_proof d with
  | Some proof =>
      device_hash ← St.get_hash (ds_sub_genesis d);
      if (length root_hash <? 32)%nat || (length device_hash <? 32)%nat then Ok false else Ok true
  | None => Ok false
  end.

End Sub.
End Sub.

(** ** [impl DeviceProof], [impl DeviceInvalidationMarker] *)

Module Marker.
Section Marker.
Context {B3 : Blake3}.

Definition verify_integrity (p : DeviceProof) : outcome bool :=
  if negb (Nat.eqb (length (dp_device1_hash p)) 32) || negb (Nat.eqb (length (dp_device2_hash p)) 32)
  then Ok false else Ok true.

Definition to_bytes (m : DeviceInvalidationMarker) : bytes :=
  u64_be (im_state_number m) ++ im_state_hash m ++ im_state_entropy m ++
  str_bytes (im_device_id m) ++ str_bytes (im_reason m).

Definition set_signature (s : bytes) (m : DeviceInvalidationMarker) : DeviceInvalidationMarker :=
  mkMarker (im_state_number m) (im_state_hash m) (im_state_entropy m) (im_device_id m) (im_reason m) s.

(** [sphincs_sign(&data, private_key)]: the source passes the data where the
    callee expects the secret key. *)
Definition sign (m : DeviceInvalidationMarker) (private_key : bytes) : outcome DeviceInvalidationMarker :=
  match Sphincs.sphincs_sign (to_bytes m) private_key with
  | Ok s => Ok (set_signature s m)
  | Err _ => Err (ECrypto "Failed to sign invalidation marker")
  | Panic => Panic
  | Hang => Hang
  end.

(** [sphincs_verify(&data, &self.signature, public_key)]: public key, message
    and signature are rotated in the same way. *)
Definition verify (m : DeviceInvalidationMarker) (public_key : bytes) : outcome bool :=
  match Sphincs.sphincs_verify (to_bytes m) (im_signature m) public_key with
  | Err _ => Err (ECrypto "Failed to verify invalidation marker signature")
  | r => r
  end.

End Marker.
End Marker.

(** ** [impl HierarchicalDeviceManager] *)

Module Devices.
Section Devices.
Context {B3 : Blake3} {SO : Bincode Operation} {SB : Bincode Balance} {SP : Bincode PreCommitment}.

Definition new (master_genesis : State) : HierarchicalDeviceManager :=
  mkDevices master_genesis MTree.new_empty ∅.

Definition set_devices (ds : gmap string DeviceSubIdentity) (m : HierarchicalDeviceManager) : HierarchicalDeviceManager :=
  mkDevices (dm_master_genesis m) (dm_tree m) ds.
Definition set_tree (t : MerkleTree) (m : HierarchicalDeviceManager) : HierarchicalDeviceManager :=
  mkDevices (dm_master_genesis m) t (dm_devices m).

Definition merkle_root (m : HierarchicalDeviceManager) : bytes :=
  match MTree.root_hash (dm_tree m) with Some h => h | None => zeros 32 end.

Definition default_public_key : bytes := [Byte.x01; Byte.x02; Byte.x03; Byte.x04].

Definition generate_sub_genesis (m : HierarchicalDeviceManager) (device_id : string) (device_entropy : bytes)
    : outcome State :=
  master_hash ← St.get_hash (dm_master_genesis m);
  let sub_genesis_entropy := blake3 (master_hash ++ str_bytes device_id ++ device_entropy) in
  let sub_genesis := St.new_genesis sub_genesis_entropy (mkDevice device_id default_public_key) in
  h ← St.get_hash sub_genesis;
  Ok (St.set_hash h sub_genesis).

Definition get_device (m : HierarchicalDeviceManager) (device_id : string) : option DeviceSubIdentity :=
  dm_devices m !! device_id.

Definition get_device_ids (m : HierarchicalDeviceManager) : list string := (map_to_list (dm_devices m)).*1.

(** The first pass of [rebuild_merkle_tree]: one leaf per device. *)
Fixpoint add_device_leaves (entries : list (string * DeviceSubIdentity)) : M HierarchicalDeviceManager unit :=
  match entries with
  | [] => mret_st tt
  | (_, device) :: entries =>
      let* h := mlift (St.get_hash (ds_sub_genesis device)) in
      let* m := mget in
      let* t := mlift (MTree.add_leaf h (dm_tree m)) in
      do* mmod (set_tree t);
      add_device_leaves entries
  end.

(** The second pass: the proofs, numbered from [idx]. *)
Fixpoint collect_proofs (t : MerkleTree) (idx : nat) (entries : list (string * DeviceSubIdentity))
    : outcome (list (string * TreeProof)) :=
  match entries with
  | [] => Ok []
  | (device_id, _) :: entries =>
      proof ← MTree.generate_proof t idx;
      rest ← collect_proofs t (S idx) entries;
      Ok ((device_id, proof) :: rest)
  end.

Definition store_proofs (proofs : list (string * TreeProof)) (ds : gmap string DeviceSubIdentity)
    : gmap string DeviceSubIdentity :=
  fold_left (fun ds '(device_id, proof) => alter (Sub.set_merkle_proof proof) device_id ds) proofs ds.

Definition sorted_entries (m : HierarchicalDeviceManager) : list (string * DeviceSubIdentity) :=
  sort_by_key (map_to_list (dm_devices m)).

Definition rebuild_merkle_tree : M HierarchicalDeviceManager unit :=
  do* mmod (set_tree MTree.new_empty);
  let* m := mget in
  let entries := sorted_entries m in
  do* add_device_leaves entries;
  let* m := mget in
  let* proofs := mlift (collect_proofs (dm_tree m) 0 entries) in
  mmod (fun m => set_devices (store_proofs proofs (dm_devices m)) m).

Definition add_device (device_id : string) (device_entropy : bytes)
    : M HierarchicalDeviceManager DeviceSubIdentity :=
  let* m := mget in
  if bool_decide (is_Some (dm_devices m !! device_id)) then
    mfail (EValidation "Device with id {} already exists")
  else
    let* sub_genesis := mlift (generate_sub_genesis m device_id device_entropy) in
    do* mmod (fun m => set_devices (<[device_id := Sub.new device_id sub_genesis]> (dm_devices m)) m);
    do* rebuild_merkle_tree;
    let* m := mget in
    match dm_devices m !! device_id with
    | Some updated_device =>
        let* _ := mlift (Sub.verify_merkle_proof updated_device (merkle_root m)) in
        mret_st updated_device
    | None => mfail (EValidation "Device {} not found after adding")
    end.

Definition not_found : DsmError := EValidation "Device with id {} not found".

(** A call on the device stored under [device_id]. *)
Definition on_device {A} (device_id : string) (device : DeviceSubIdentity) (f : M DeviceSubIdentity A)
    : M HierarchicalDeviceManager A := fun m =>
  let '(r, d) := f device in (r, set_devices (<[device_id := d]> (dm_devices m)) m).

Definition update_device_state (device_id : string) (new_state : State) : M HierarchicalDeviceManager unit :=
  let* m := mget in
  match dm_devices m !! device_id with
  | Some device =>
      do* (if state_number (ds_current_state device) =? 0 then
             let* genesis_hash := mlift (St.get_hash (ds_current_state device)) in
             if negb (state_number new_state =? 1) then
               mfail (EValidation "First state transition must be to state 1")
             else if negb (bool_decide (prev_state_hash new_state = genesis_hash)) then
               mfail (EValidation "Invalid state transition - prev_state_hash mismatch")
             else mret_st tt
           else
             let* n := mlift (u64_add (state_number (ds_current_state device)) 1) in
             if negb (state_number new_state =? n) then
               mfail (EValidation "Invalid state transition - non-sequential state numbers")
             else
               let* current_hash := mlift (St.get_hash (ds_current_state device)) in
               if negb (bool_decide (prev_state_hash new_state = current_hash)) then
                 mfail (EValidation "Invalid state transition - hash chain broken")
               else mret_st tt);
      on_device device_id device (Sub.update_state new_state)
  | None => mfail not_found
  end.

Definition generate_device_invalidation (m : HierarchicalDeviceManager) (device_id reason : string)
    : outcome DeviceInvalidationMarker :=
  match get_device m device_id with
  | Some device =>
      let s := ds_current_state device in
      h ← St.get_hash s;
      Ok (mkMarker (state_number s) h (entropy s) device_id reason [])
  | None => Err not_found
  end.

Definition remove_device (device_id : string) : M HierarchicalDeviceManager unit :=
  let* m := mget in
  match dm_devices m !! device_id with
  | Some _ => do* mmod (set_devices (delete device_id (dm_devices m))); rebuild_merkle_tree
  | None => mfail not_found
  end.

(** [for device in self.devices.values()] *)
Fixpoint verify_all (root : bytes) (l : list (string * DeviceSubIdentity)) : outcome bool :=
  match l with
  | [] => Ok true
  | (_, device) :: l =>
      ok ← Sub.verify_merkle_proof device root;
      if negb ok then Ok false else verify_all root l
  end.

Definition verify_all_devices (m : HierarchicalDeviceManager) : outcome bool :=
  verify_all (merkle_root m) (map_to_list (dm_devices m)).

(** [if let Err(_) = r { return Ok(false) }; if !r.unwrap() { return Ok(false) }] *)
Definition proof_accepted (r : outcome bool) (k : outcome bool) : outcome bool :=
  match r with
  | Err _ => Ok false
  | Ok b => if negb b then Ok false else k
  | Panic => Panic
  | Hang => Hang
  end.

(** A fresh verifier that knows the genesis state only. *)
Definition verify_from_genesis (genesis s : State) : outcome bool :=
  match Verifier.update_sparse_indices genesis Verifier.new with
  | (Ok _, verifier) => Verifier.verify_chain verifier genesis s
  | (Err e, _) => Err e
  | (Panic, _) => Panic
  | (Hang, _) => Hang
  end.

Definition is_zero (b : u8) : bool := bool_decide (b = Byte.x00).

Definition cross_device_verify (m : HierarchicalDeviceManager) (verifying_device_id target_device_id : string)
    (target_state : State) : outcome bool :=
  verifying_device ← ok_or not_found (get_device m verifying_device_id);
  target_device ← ok_or not_found (get_device m target_device_id);
  let root := merkle_root m in
  if forallb is_zero root then Ok false
  else
    proof_accepted (Sub.verify_merkle_proof verifying_device root)
      (proof_accepted (Sub.verify_merkle_proof target_device root)
        (if state_number target_state =? 0 then
           h ← St.get_hash target_state;
           genesis_hash ← St.get_hash (ds_sub_genesis target_device);
           Ok (bool_decide (h = genesis_hash))
         else if state_number target_state =? 1 then
           genesis_hash ← St.get_hash (ds_sub_genesis target_device);
           Ok (bool_decide (prev_state_hash target_state = genesis_hash))
         else verify_from_genesis (ds_sub_genesis target_device) target_state)).

Definition verify_device_against_merkle_root (m : HierarchicalDeviceManager) (device_id : string)
    (root : bytes) : outcome bool :=
  device ← ok_or not_found (get_device m device_id);
  match ds_merkle_proof device with
  | Some proof =>
      h ← St.get_hash (ds_current_state device);
      Marker.verify_integrity (mkDeviceProof h root (concat (tp_path proof)))
  | None => Ok false
  end.

(** [a != x || b != y] short-circuits. *)
Definition verify_device_relationship (m : HierarchicalDeviceManager) (device1_id device2_id : string)
    (proof : DeviceProof) : outcome bool :=
  device1 ← ok_or not_found (get_device m device1_id);
  device2 ← ok_or not_found (get_device m device2_id);
  h1 ← St.get_hash (ds_current_state device1);
  if negb (bool_decide (dp_device1_hash proof = h1)) then Ok false
  else
    h2 ← St.get_hash (ds_current_state device2);
    if negb (bool_decide (dp_device2_hash proof = h2)) then Ok false
    else
      pos1 ← ok_or not_found (get_device m device1_id);
      pos2 ← ok_or not_found (get_device m device2_id);
      if state_number (ds_current_state pos2) <? state_number (ds_current_state pos1) then Ok false
      else Marker.verify_integrity proof.

Definition verify_relationship_attestation (m : HierarchicalDeviceManager) (device1 device2 : State) : outcome bool :=
  match relationship_context device1, relationship_context device2 with
  | Some r1, Some r2 =>
      if negb (bool_decide (rc_counterparty_id r1 = device_id device2)) ||
         negb (bool_decide (rc_counterparty_id r2 = device_id device1)) then Ok false
      else if negb (rc_counterparty_state_number r1 =? state_number device2) ||
              negb (rc_counterparty_state_number r2 =? state_number device1) then Ok false
      else Ok true
  | _, _ => Ok false
  end.

(** ** Free functions *)

Definition verify_sparse_index (genesis current : State) : outcome bool :=
  if state_number current =? 0 then
    h ← St.get_hash current;
    genesis_hash ← St.get_hash genesis;
    Ok (bool_decide (h = genesis_hash))
  else if state_number current =? 1 then
    genesis_hash ← St.get_hash genesis;
    Ok (bool_decide (prev_state_hash current = genesis_hash))
  else verify_from_genesis genesis current.

Definition verify_sparse_index_with_checkpoint (genesis s : State) (checkpoint_num : Z)
    (checkpoint_hash : bytes) : outcome bool :=
  if state_number s <=? checkpoint_num then
    Err (EValidation "State number must be greater than checkpoint")
  else
    next ← u64_add checkpoint_num 1;
    if state_number s =? next then
      if negb (bool_decide (prev_state_hash s = checkpoint_hash)) then Ok false else Ok true
    else
      genesis_hash ← St.get_hash genesis;
      if negb (Nat.eqb (length genesis_hash) 32) then Ok false
      else
        gap ← u64_sub (state_number s) checkpoint_num;
        if 100 <? gap then Ok false else Ok true.

(** [identity::create_master_identity]: the devices are added in order, the
    manager is dropped at the end. *)
Fixpoint add_devices (device_ids : list string) (device_entropies : list bytes)
    : M HierarchicalDeviceManager (list DeviceSubIdentity) :=
  match device_ids, device_entropies with
  | [], _ => mret_st []
  | id :: ids, e :: es =>
      let* d := add_device id e in
      let* rest := add_devices ids es in
      mret_st (d :: rest)
  | _ :: _, [] => mfail (EValidation "Device entropy not provided for all device IDs")
  end.

Definition create_master_identity (master_id : string) (master_entropy : bytes) (device_ids : list string)
    (device_entropies : list bytes) : outcome (State * list DeviceSubIdentity) :=
  let master_genesis := St.new_genesis master_entropy (mkDevice master_id default_public_key) in
  match add_devices device_ids device_entropies (new master_genesis) with
  | (r, _) => identities ← r; Ok (master_genesis, identities)
  end.

End Devices.
End Devices.

(** A step of a method whose first call returns. *)
Lemma mbind_run {E S A B} (m : M_of E S A) (k : A → M_of E S B) s a s' :
  m s = (Ok a, s') → mbind_st m k s = k a s'.
Proof. unfold mbind_st. by intros ->. Qed.

(** ** Sorted entries *)

Lemma elem_of_sort_by_key {A} (l : list (string * A)) e : e ∈ sort_by_key l ↔ e ∈ l.
Proof. unfold sort_by_key. by rewrite (merge_sort_Permutation key_le l). Qed.

Lemma sorted_strings_unique (l1 l2 : list string) :
  StronglySorted String.le l1 → StronglySorted String.le l2 → l1 ≡ₚ l2 → l1 = l2.
Proof. apply StronglySorted_unique. apply _. Qed.

Lemma sort_by_key_keys {A} (l : list (string * A)) : StronglySorted String.le (sort_by_key l).*1.
Proof.
  assert (H : StronglySorted key_le (sort_by_key l)) by apply (StronglySorted_merge_sort key_le).
  induction H as [|e l' H IH Hall]; cbn; constructor; [done|]. by apply Forall_fmap.
Qed.

(** Maps with the same keys are listed in the same order. *)
Lemma sort_by_key_dom {A B} (m : gmap string A) (m' : gmap string B) :
  dom m = dom m' → (sort_by_key (map_to_list m)).*1 = (sort_by_key (map_to_list m')).*1.
Proof.
  intros Hd. apply sorted_strings_unique; [apply sort_by_key_keys..|].
  unfold sort_by_key. rewrite !(merge_sort_Permutation key_le).
  apply NoDup_Permutation; [apply NoDup_fst_map_to_list..|]. intros k.
  rewrite !list_elem_of_fmap.
  transitivity (k ∈ dom m); [|rewrite Hd]; rewrite elem_of_dom; split.
  - intros ([k' a] & -> & H%elem_of_map_to_list). by eexists.
  - intros [a H]. exists (k, a). by rewrite elem_of_map_to_list.
  - intros [a H]. exists (k, a). by rewrite elem_of_map_to_list.
  - intros ([k' a] & -> & H%elem_of_map_to_list). by eexists.
Qed.

Lemma sorted_lookup {A} (m : gmap string A) i k a :
  sort_by_key (map_to_list m) !! i = Some (k, a) → m !! k = Some a.
Proof. intros H%list_elem_of_lookup_2. by rewrite elem_of_sort_by_key, elem_of_map_to_list in H. Qed.

(** Two maps related key by key are listed as related lists. *)
Lemma sorted_entries_related {A B} (R : A → B → Prop) (m : gmap string A) (m' : gmap string B) :
  (∀ k, option_Forall2 R (m !! k) (m' !! k)) →
  Forall2 (fun e e' => e.1 = e'.1 ∧ R e.2 e'.2) (sort_by_key (map_to_list m)) (sort_by_key (map_to_list m')).
Proof.
  intros HR. assert (Hk : (sort_by_key (map_to_list m)).*1 = (sort_by_key (map_to_list m')).*1).
  { apply sort_by_key_dom, set_eq. intros k. rewrite !elem_of_dom. specialize (HR k).
    destruct (m !! k), (m' !! k); inversion HR; split; intros [? ?]; done || by eexists. }
  apply Forall2_same_length_lookup. split; [by rewrite <-(length_fmap fst), Hk, length_fmap|].
  intros i [k a] [k' b] H1 H2. assert (k = k') as <-.
  { apply (f_equal (.!! i)) in Hk. rewrite !list_lookup_fmap, H1, H2 in Hk. by injection Hk. }
  split; [done|]. specialize (HR k). apply sorted_lookup in H1, H2. rewrite H1, H2 in HR. by inversion HR.
Qed.

(** ** The device manager *)

Section DeviceFacts.
Context {B3 : Blake3} {SO : Bincode Operation} {SB : Bincode Balance} {SP : Bincode PreCommitment}.

(** A list of states that continues [prev]: consecutive numbers, each state
    carrying the hash of the one before it. *)
Fixpoint follows (prev : State) (l : list State) : Prop :=
  match l with
  | [] => True
  | s :: l => state_number s = state_number prev + 1 ∧ St.get_hash prev = Ok (prev_state_hash s) ∧ follows s l
  end.

Lemma follows_snoc l : ∀ p q s, follows p l → last (p :: l) = Some q →
  state_number s = state_number q + 1 → St.get_hash q = Ok (prev_state_hash s) → follows p (l ++ [s]).
Proof.
  induction l as [|x l IH]; intros p q s Hf Hq Hn Hh.
  - injection Hq as ->. cbn. done.
  - destruct Hf as (H1 & H2 & Hf). cbn [app follows]. split_and!; [done..|].
    apply (IH x q); [done| |done|done]. rewrite last_cons_cons in Hq. exact Hq.
Qed.

Lemma follows_number l : ∀ p i s, follows p l → (p :: l) !! i = Some s → state_number s = state_number p + Z.of_nat i.
Proof.
  induction l as [|x l IH]; intros p [|i] s Hf Hi; try done; try (injection Hi as ->; lia).
  destruct Hf as (H1 & _ & Hf). rewrite (IH x i s Hf Hi), H1. lia.
Qed.

(** The sub-genesis of a device is hashed, and derived from the master, the
    device id and some entropy. *)
Definition sub_genesis_ok (master : State) (id : string) (g : State) : Prop :=
  ∃ master_hash e, St.get_hash master = Ok master_hash ∧
    g = St.set_hash (hash g) (St.new_genesis (blake3 (master_hash ++ str_bytes id ++ e))
          (mkDevice id Devices.default_public_key)) ∧
    St.compute_hash g = Ok (hash g).

(** The states a device went through, and the checkpoints it keeps of them. *)
Definition device_chain (d : DeviceSubIdentity) (l : list State) : Prop :=
  follows (ds_sub_genesis d) l ∧ last (ds_sub_genesis d :: l) = Some (ds_current_state d) ∧
  ∀ k h, sv_checkpoints (ds_verifier d) !! k = Some h ↔
    ∃ s, s ∈ l ∧ state_number s = k ∧ k < 2 ^ 63 ∧ St.get_hash s = Ok h.

Definition device_ok (master : State) (id : string) (d : DeviceSubIdentity) : Prop :=
  ds_device_id d = id ∧ sub_genesis_ok master id (ds_sub_genesis d) ∧ ∃ l, device_chain d l.

Definition leaf_of (e : string * DeviceSubIdentity) : bytes := hash (ds_sub_genesis e.2).
Definition leaves_of (m : HierarchicalDeviceManager) : list bytes := map leaf_of (Devices.sorted_entries m).

(** The tree is the tree of the sub-genesis hashes in the order of the ids, and
    every device holds the proof of its position. *)
Definition tree_ok (m : HierarchicalDeviceManager) : Prop := MTree.new (leaves_of m) = Ok (dm_tree m).
Definition proofs_ok (m : HierarchicalDeviceManager) : Prop :=
  ∀ i id d, Devices.sorted_entries m !! i = Some (id, d) →
    ∃ p, MTree.generate_proof (dm_tree m) i = Ok p ∧ ds_merkle_proof d = Some p.

Definition devices_ok (m : HierarchicalDeviceManager) : Prop :=
  map_Forall (device_ok (dm_master_genesis m)) (dm_devices m).

Definition manager_ok (m : HierarchicalDeviceManager) : Prop := devices_ok m ∧ tree_ok m ∧ proofs_ok m.

(** *** Sub-genesis states *)

Lemma sub_genesis_hash master id g : sub_genesis_ok master id g →
  length (hash g) = 32%nat ∧ St.get_hash g = Ok (hash g) ∧ state_number g = 0.
Proof.
  intros (mh & e & _ & Hg & Hh). pose proof (compute_hash_length _ _ Hh) as Hl. split_and!; [done| |by rewrite Hg].
  apply get_hash_cached. intros E. by rewrite E in Hl.
Qed.

Lemma generate_sub_genesis_ok m id e g : Devices.generate_sub_genesis m id e = Ok g →
  sub_genesis_ok (dm_master_genesis m) id g.
Proof.
  unfold Devices.generate_sub_genesis. intros (mh & Hm & (h & Hh & Hg)%bind_Ok)%bind_Ok.
  apply Ok_inj in Hg as <-. exists mh, e. split_and!; [done|done|]. rewrite compute_hash_set_hash. exact Hh.
Qed.

Lemma device_new_ok master id g : sub_genesis_ok master id g → device_ok master id (Sub.new id g).
Proof.
  intros Hg. split_and!; [done|done|]. exists []. split_and!; [done|done|]. intros k h. cbn. rewrite lookup_empty.
  split; [done|]. intros (s & Hs & _). by apply elem_of_nil in Hs.
Qed.

(** *** Rebuilding the tree *)

Lemma generate_proof_total t i : ∃ p, MTree.generate_proof t i = Ok p.
Proof.
  unfold MTree.generate_proof. destruct (Nat.leb_spec (length (mt_leaves t)) i); [by eexists|].
  destruct (proof_loop_climb (length (mt_leaves t)) (mt_leaves t) i) as (path & -> & _); [lia..|]. by eexists.
Qed.

Lemma add_device_leaves_run entries : ∀ m t',
  Forall (fun e => St.get_hash (ds_sub_genesis e.2) = Ok (leaf_of e)) entries →
  MTree.add_leaves (map leaf_of entries) (dm_tree m) = Ok t' →
  Devices.add_device_leaves entries m = (Ok tt, Devices.set_tree t' m).
Proof.
  induction entries as [|[id d] entries IH]; intros m t' Hall Ht.
  - apply Ok_inj in Ht as <-. by destruct m.
  - apply Forall_cons in Hall as [Hd Hall]. cbn [map MTree.add_leaves] in Ht. apply bind_Ok in Ht as (t1 & H1 & Ht).
    cbn [Devices.add_device_leaves]. cbn [snd] in Hd.
    unfold mbind_st at 1, mlift at 1. rewrite Hd. unfold mbind_st at 1, mget at 1. cbn [fst snd].
    unfold mbind_st at 1, mlift at 1. rewrite H1. unfold mbind_st at 1, mmod at 1.
    by rewrite (IH (Devices.set_tree t1 m) t').
Qed.

Lemma collect_proofs_total t entries : ∀ idx, ∃ proofs, Devices.collect_proofs t idx entries = Ok proofs.
Proof.
  induction entries as [|[id d] entries IH]; intros idx; cbn [Devices.collect_proofs]; [by eexists|].
  destruct (generate_proof_total t idx) as (p & ->), (IH (S idx)) as (ps & ->). by eexists.
Qed.

(** What storing the proofs does to each device. *)
Lemma store_proofs_spec t entries : ∀ idx proofs ds,
  Devices.collect_proofs t idx entries = Ok proofs → NoDup entries.*1 →
  (∀ k, k ∉ entries.*1 → Devices.store_proofs proofs ds !! k = ds !! k) ∧
  (∀ i k d, entries !! i = Some (k, d) → ds !! k = Some d →
    ∃ p, MTree.generate_proof t (idx + i) = Ok p ∧
      Devices.store_proofs proofs ds !! k = Some (Sub.set_merkle_proof p d)).
Proof.
  induction entries as [|[id d0] entries IH]; intros idx proofs ds Hc Hnd.
  - apply Ok_inj in Hc as <-. by split.
  - cbn [Devices.collect_proofs] in Hc. apply bind_Ok in Hc as (p0 & Hp0 & Hc). apply bind_Ok in Hc as (ps & Hps & Hc).
    apply Ok_inj in Hc as <-. rewrite fmap_cons in Hnd. apply NoDup_cons in Hnd as [Hid Hnd]. cbn [fst] in Hid.
    destruct (IH (S idx) ps (alter (Sub.set_merkle_proof p0) id ds) Hps Hnd) as [H1 H2].
    change (Devices.store_proofs ((id, p0) :: ps) ds) with (Devices.store_proofs ps (alter (Sub.set_merkle_proof p0) id ds)).
    split.
    + intros k Hk. rewrite fmap_cons in Hk. cbn [fst] in Hk. rewrite H1 by set_solver. rewrite lookup_alter_ne; set_solver.
    + intros [|i] k d Hi Hd.
      * injection Hi as -> ->. exists p0. rewrite Nat.add_0_r. split; [done|]. rewrite H1, lookup_alter_eq by done. by rewrite Hd.
      * rewrite <- Nat.add_succ_comm. apply H2; [exact Hi|]. rewrite lookup_alter_ne; [done|]. intros ->.
        apply Hid. apply list_elem_of_fmap. exists (k, d). split; [done|]. by eapply list_elem_of_lookup_2.
Qed.

Lemma device_ok_proof master id d p : device_ok master id d → device_ok master id (Sub.set_merkle_proof p d).
Proof. done. Qed.

Lemma entries_NoDup m : NoDup (Devices.sorted_entries m).*1.
Proof.
  unfold Devices.sorted_entries, sort_by_key. rewrite (merge_sort_Permutation key_le). apply NoDup_fst_map_to_list.
Qed.

Lemma entries_hashed m : devices_ok m →
  Forall (fun e => St.get_hash (ds_sub_genesis e.2) = Ok (leaf_of e)) (Devices.sorted_entries m).
Proof.
  intros Hm. apply Forall_forall. intros [id d] He.
  unfold Devices.sorted_entries in He. rewrite elem_of_sort_by_key, elem_of_map_to_list in He.
  destruct (Hm id d He) as (_ & Hg & _). by destruct (sub_genesis_hash _ _ _ Hg) as (_ & ? & _).
Qed.

(** The maps agree up to the stored proofs. *)
Definition same_but_proofs (m m' : HierarchicalDeviceManager) : Prop :=
  dm_master_genesis m' = dm_master_genesis m ∧
  ∀ k, option_Forall2 (fun d d' => ∃ p, d' = Sub.set_merkle_proof p d) (dm_devices m !! k) (dm_devices m' !! k).

Lemma leaves_related m m' :
  (∀ k, option_Forall2 (fun d d' => ds_sub_genesis d' = ds_sub_genesis d) (dm_devices m !! k) (dm_devices m' !! k)) →
  leaves_of m' = leaves_of m.
Proof.
  intros H. apply sorted_entries_related in H. unfold leaves_of, Devices.sorted_entries.
  induction H as [|e e' l l' [_ He] _ IH]; cbn [map]; [done|]. unfold leaf_of at 1 3. by rewrite He, IH.
Qed.

Lemma same_but_proofs_leaves m m' : same_but_proofs m m' → leaves_of m' = leaves_of m.
Proof.
  intros [_ H]. apply leaves_related. intros k. specialize (H k).
  inversion H as [d d' [p ->]|]; by constructor.
Qed.

Lemma same_but_proofs_ok m m' : same_but_proofs m m' → devices_ok m → devices_ok m'.
Proof.
  intros [Hg H] Hm id d' Hd'. specialize (H id). rewrite Hd' in H. rewrite Hg.
  inversion H as [d ? [p ->] Hd|]; subst. apply device_ok_proof, Hm. done.
Qed.

Lemma rebuild_run m : devices_ok m →
  ∃ m', Devices.rebuild_merkle_tree m = (Ok tt, m') ∧ same_but_proofs m m' ∧ manager_ok m'.
Proof.
  intros Hm. set (m0 := Devices.set_tree MTree.new_empty m).
  assert (Hentries : Devices.sorted_entries m0 = Devices.sorted_entries m) by done.
  destruct (add_leaves_total (leaves_of m) MTree.new_empty) as (t & Ht & _); [done|].
  destruct (collect_proofs_total t (Devices.sorted_entries m) 0) as (proofs & Hp).
  destruct (store_proofs_spec t (Devices.sorted_entries m) 0 proofs (dm_devices m) Hp (entries_NoDup m)) as [S1 S2].
  set (m' := Devices.set_devices (Devices.store_proofs proofs (dm_devices m)) (Devices.set_tree t m0)).
  assert (Hrun : Devices.rebuild_merkle_tree m = (Ok tt, m')).
  { unfold Devices.rebuild_merkle_tree. unfold mbind_st at 1, mmod at 1. fold m0.
    unfold mbind_st at 1, mget at 1. cbn zeta. rewrite Hentries. unfold mbind_st at 1.
    rewrite (add_device_leaves_run _ m0 t (entries_hashed m Hm) Ht).
    unfold mbind_st, mget, mlift, mmod. cbn [dm_tree Devices.set_tree]. by rewrite Hp. }
  assert (Hsame : same_but_proofs m m').
  { split; [done|]. intros k. cbn [m' Devices.set_devices dm_devices]. destruct (dm_devices m !! k) as [d|] eqn:Hd.
    - assert (He : (k, d) ∈ Devices.sorted_entries m)
        by (unfold Devices.sorted_entries; by rewrite elem_of_sort_by_key, elem_of_map_to_list).
      apply list_elem_of_lookup in He as [i Hi]. destruct (S2 i k d Hi Hd) as (p & _ & ->). constructor. by exists p.
    - rewrite S1; [rewrite Hd; constructor|]. intros ([k' d] & -> & He)%list_elem_of_fmap. cbn [fst] in Hd.
      unfold Devices.sorted_entries in He. rewrite elem_of_sort_by_key, elem_of_map_to_list in He. congruence. }
  exists m'. split; [done|]. split; [done|]. split_and!; [by eapply same_but_proofs_ok| |].
  - unfold tree_ok. by rewrite (same_but_proofs_leaves m m' Hsame).
  - intros i id d' Hi. pose proof (sorted_lookup _ _ _ _ Hi) as Hd'. destruct Hsame as [_ Hs].
    pose proof (sorted_entries_related _ _ _ Hs) as Hf. apply Forall2_lookup_r with (i := i) (y := (id, d')) in Hf; [|done].
    destruct Hf as ([id0 d] & Hi0 & Heq & _). cbn [fst] in Heq. subst id0.
    destruct (S2 i id d Hi0 (sorted_lookup _ _ _ _ Hi0)) as (p & Hg & Hst). exists p. split; [done|].
    cbn [m' Devices.set_devices dm_devices] in Hd'. rewrite Hst in Hd'. by injection Hd' as <-.
Qed.

(** *** Sparse indices *)

(** The number of bit_length of [n]. *)
Definition bit_length (n : Z) : Z := if n <? 1 then 0 else Z.log2 n + 1.

Lemma bits_le n p : 0 ≤ p → bit_length n ≤ p ↔ n < 2 ^ p.
Proof.
  intros Hp. unfold bit_length. destruct (n <? 1) eqn:E; zbool.
  - pose proof (Z.pow_pos_nonneg 2 p). lia.
  - pose proof (Z.log2_lt_pow2 n p ltac:(lia)). lia.
Qed.

Lemma powers_run n fuel : ∀ p, 0 ≤ p ≤ 63 → 64 ≤ Z.of_nat fuel + p →
  Verifier.powers fuel n p (2 ^ p) =
    if 2 ^ 63 <=? n then Panic else Ok ((Z.pow 2) <$> seqZ p (Z.max 1 (bit_length n - p + 1))).
Proof.
  induction fuel as [|fuel IH]; intros p Hp Hf; [lia|]. cbn [Verifier.powers].
  destruct (2 ^ p <=? n) eqn:E; zbool.
  - assert (Hb : p < bit_length n) by (pose proof (bits_le n p); lia).
    unfold u64_shl1. destruct (p + 1 <? 64) eqn:E1; zbool; cbn [mbind outcome_bind].
    + rewrite Z.shiftl_1_l, IH by lia. destruct (2 ^ 63 <=? n); [done|]. cbn [mbind outcome_bind]. f_equal.
      rewrite (seqZ_cons p), fmap_cons by lia. replace (Z.succ p) with (p + 1) by lia. do 3 f_equal. lia.
    + assert (p = 63) as -> by lia. by rewrite (proj2 (Z.leb_le _ _) E).
  - assert (2 ^ p ≤ 2 ^ 63) by (apply Z.pow_le_mono_r; lia). rewrite (proj2 (Z.leb_gt _ _)) by lia.
    assert (bit_length n ≤ p) by (apply bits_le; lia). rewrite Z.max_l by lia. done.
Qed.

Lemma powers_start n : Verifier.powers 65 n 0 1 =
  if 2 ^ 63 <=? n then Panic else Ok ((Z.pow 2) <$> seqZ 0 (bit_length n + 1)).
Proof.
  change 1 with (2 ^ 0) at 1. rewrite (powers_run n 65 0) by lia. destruct (2 ^ 63 <=? n); [done|]. do 3 f_equal. unfold bit_length.
  destruct (n <? 1); [lia|]. pose proof (Z.log2_nonneg n). lia.
Qed.

(** The checkpoint of a state is stored when its number is below 2^63 and its
    hash can be computed. *)
Lemma update_sparse_checkpoints s v :
  sv_checkpoints (Verifier.update_sparse_indices s v).2 =
    match 2 ^ 63 <=? state_number s, St.get_hash s with
    | false, Ok h => <[state_number s := h]> (sv_checkpoints v)
    | _, _ => sv_checkpoints v
    end.
Proof.
  unfold Verifier.update_sparse_indices, mbind_st, mlift, mmod. rewrite powers_start.
  destruct (2 ^ 63 <=? state_number s); [done|]. by destruct (St.get_hash s).
Qed.

(** *** Updating a device *)

(** A state that continues the chain of [cur]. *)
Definition continues (cur s : State) : Prop :=
  state_number s = state_number cur + 1 ∧ St.get_hash cur = Ok (prev_state_hash s).

Definition with_state (s : State) (v : SparseIndexVerifier) (d : DeviceSubIdentity) : DeviceSubIdentity :=
  mkSub (ds_device_id d) (ds_sub_genesis d) s (ds_merkle_proof d) v.

Lemma update_state_spec s d :
  (Sub.update_state s d).2 = d ∨
  continues (ds_current_state d) s ∧
  Sub.update_state s d =
    ((Verifier.update_sparse_indices s (ds_verifier d)).1,
     with_state s (Verifier.update_sparse_indices s (ds_verifier d)).2 d).
Proof.
  unfold Sub.update_state, Sub.on_verifier, continues, mbind_st, mget, mlift, mmod, mfail, mret_st, with_state.
  destruct (state_number (ds_current_state d) =? 0) eqn:E0; zbool.
  - destruct (state_number s =? 1) eqn:E1; zbool; cbn [negb]; [|by left].
    destruct (St.get_hash (ds_current_state d)) as [h| | |] eqn:Eh; cbn [snd]; try (by left).
    case_bool_decide as Hp; cbn [negb]; [|by left]. right. rewrite Hp. split; [split; [lia|done]|].
    cbn [Sub.set_current ds_verifier ds_current_state ds_device_id ds_sub_genesis ds_merkle_proof].
    by destruct (Verifier.update_sparse_indices s (ds_verifier d)).
  - destruct (u64_add _ 1) as [n| | |] eqn:En; cbn [snd]; try (by left). apply u64_add_Ok in En as [-> _].
    destruct (state_number s =? _) eqn:E1; zbool; cbn [negb]; [|by left].
    destruct (St.get_hash (ds_current_state d)) as [h| | |] eqn:Eh; cbn [snd]; try (by left).
    case_bool_decide as Hp; cbn [negb]; [|by left]. right. rewrite Hp. split; [split; [lia|done]|].
    cbn [Sub.set_current ds_verifier ds_current_state ds_device_id ds_sub_genesis ds_merkle_proof].
    by destruct (Verifier.update_sparse_indices s (ds_verifier d)).
Qed.

Lemma device_chain_snoc d l s : device_chain d l → state_number (ds_sub_genesis d) = 0 → continues (ds_current_state d) s →
  device_chain (with_state s (Verifier.update_sparse_indices s (ds_verifier d)).2 d) (l ++ [s]).
Proof.
  intros (Hf & Hlast & Hc) Hg [Hn Hp]. split_and!.
  - by apply (follows_snoc l _ (ds_current_state d)).
  - cbn [with_state ds_sub_genesis ds_current_state]. by rewrite app_comm_cons, last_snoc.
  - intros k h. cbn [with_state ds_verifier]. rewrite update_sparse_checkpoints.
    assert (Hfresh : ∀ s', s' ∈ l → state_number s' ≠ state_number s).
    { intros s' [i Hi]%list_elem_of_lookup. rewrite last_lookup in Hlast. cbn [length Nat.pred] in Hlast.
      rewrite (follows_number l _ (S i) s' Hf Hi), Hn, (follows_number l _ _ _ Hf Hlast).
      apply lookup_lt_Some in Hi. lia. }
    setoid_rewrite elem_of_app. setoid_rewrite list_elem_of_singleton.
    assert (Hsame : ¬ (state_number s < 2 ^ 63 ∧ is_Some (match St.get_hash s with Ok h => Some h | _ => None end)) →
      (∃ s', s' ∈ l ∧ state_number s' = k ∧ k < 2 ^ 63 ∧ St.get_hash s' = Ok h) ↔
      (∃ s', (s' ∈ l ∨ s' = s) ∧ state_number s' = k ∧ k < 2 ^ 63 ∧ St.get_hash s' = Ok h)).
    { intros Hno. split; [intros (s' & ? & ?); exists s'; tauto|].
      intros (s' & [Hs'| ->] & H1 & H2 & H3); [eauto|]. destruct Hno. rewrite H3. split; [lia|by eexists]. }
    destruct (2 ^ 63 <=? state_number s) eqn:Eb; zbool; [rewrite Hc; apply Hsame; lia|].
    destruct (St.get_hash s) as [h'| | |] eqn:Eh; [clear Hsame|rewrite Hc; apply Hsame; by intros [_ []]..].
    destruct (decide (k = state_number s)) as [->|Hk].
    + rewrite lookup_insert_eq. split; [intros [= <-]; exists s; eauto|].
      intros (s' & [Hs'| ->] & H1 & H2 & H3); [by destruct (Hfresh s')|congruence].
    + rewrite lookup_insert_ne, Hc by done. split; [intros (s' & ? & ?); exists s'; tauto|].
      intros (s' & [Hs'| ->] & H1 & H2 & H3); [eauto|done].
Qed.

Lemma update_state_ok master id d s : device_ok master id d →
  let d' := (Sub.update_state s d).2 in
  device_ok master id d' ∧ ds_sub_genesis d' = ds_sub_genesis d ∧ ds_merkle_proof d' = ds_merkle_proof d.
Proof.
  intros (Hid & Hg & l & Hl). cbn zeta. destruct (update_state_spec s d) as [->|[Hc ->]]; [split_and!; eauto|].
  - split; [done|]. eauto.
  - split_and!; [|done|done]. split; [done|]. split; [done|]. exists (l ++ [s]).
    apply device_chain_snoc; [done| |done]. by destruct (sub_genesis_hash _ _ _ Hg) as (_ & _ & ?).
Qed.

(** *** Runs *)

Inductive DeviceOp :=
  | AddDevice (device_id : string) (device_entropy : bytes)
  | RemoveDevice (device_id : string)
  | UpdateDevice (device_id : string) (new_state : State).

Definition apply_op (op : DeviceOp) (m : HierarchicalDeviceManager) : HierarchicalDeviceManager :=
  match op with
  | AddDevice id e => (Devices.add_device id e m).2
  | RemoveDevice id => (Devices.remove_device id m).2
  | UpdateDevice id s => (Devices.update_device_state id s m).2
  end.

(** A sequence of calls, whatever each of them returned. *)
Definition run_ops (ops : list DeviceOp) (m : HierarchicalDeviceManager) : HierarchicalDeviceManager :=
  fold_left (fun m op => apply_op op m) ops m.

Lemma new_manager_ok g : manager_ok (Devices.new g).
Proof. split_and!; [apply map_Forall_empty|done|intros i id d Hi; done]. Qed.

Lemma add_device_run id e m : manager_ok m →
  (Devices.add_device id e m).2 = m ∨
  ∃ g m' d, Devices.generate_sub_genesis m id e = Ok g ∧ dm_devices m !! id = None ∧
    same_but_proofs (Devices.set_devices (<[id := Sub.new id g]> (dm_devices m)) m) m' ∧ manager_ok m' ∧
    dm_devices m' !! id = Some d ∧ Devices.add_device id e m = (Ok d, m').
Proof.
  intros (Hd & _ & _). unfold Devices.add_device. rewrite (mbind_run mget _ m m m) by done. case_bool_decide as Hin; [by left|].
  destruct (Devices.generate_sub_genesis m id e) as [g| | |] eqn:Eg; [right|by left..].
  rewrite (mbind_run (mlift _) _ m g m) by done.
  apply eq_None_not_Some in Hin.
  set (m1 := Devices.set_devices (<[id := Sub.new id g]> (dm_devices m)) m).
  assert (Hok : devices_ok m1).
  { apply map_Forall_insert_2; [|done]. by eapply device_new_ok, generate_sub_genesis_ok. }
  destruct (rebuild_run m1 Hok) as (m' & Hr & Hs & Hm').
  rewrite (mbind_run (mmod _) _ m tt m1) by done. rewrite (mbind_run _ _ _ _ _ Hr), (mbind_run mget _ m' m' m') by done.
  pose proof (proj2 Hs id) as Hid. cbn [m1 Devices.set_devices dm_devices] in Hid. rewrite lookup_insert_eq in Hid.
  inversion Hid as [? d' [p Hp] Hx Hy|]; subst. exists g, m', (Sub.set_merkle_proof p (Sub.new id g)).
  split_and!; [done|done|done|done|done|].
  unfold mbind_st, mlift, mret_st, Sub.verify_merkle_proof. cbn [ds_merkle_proof Sub.set_merkle_proof ds_sub_genesis Sub.new].
  destruct (sub_genesis_hash _ _ _ (generate_sub_genesis_ok _ _ _ _ Eg)) as (_ & -> & _). cbn [mbind outcome_bind].
  by destruct (_ || _).
Qed.

Lemma remove_device_run id m : manager_ok m →
  dm_devices m !! id = None ∧ (Devices.remove_device id m).2 = m ∨
  ∃ m', is_Some (dm_devices m !! id) ∧
    same_but_proofs (Devices.set_devices (delete id (dm_devices m)) m) m' ∧ manager_ok m' ∧
    Devices.remove_device id m = (Ok tt, m').
Proof.
  intros (Hd & _ & _). unfold Devices.remove_device. rewrite (mbind_run mget _ m m m) by done.
  destruct (dm_devices m !! id) as [d|] eqn:E; [right|by left].
  assert (Hok : devices_ok (Devices.set_devices (delete id (dm_devices m)) m)) by (by apply map_Forall_delete).
  destruct (rebuild_run _ Hok) as (m' & Hr & Hs & Hm'). exists m'. split_and!; [done|done|done|].
  unfold mbind_st, mmod. exact Hr.
Qed.

Lemma update_device_run id s m :
  (Devices.update_device_state id s m).2 = m ∨
  ∃ d, dm_devices m !! id = Some d ∧
    Devices.update_device_state id s m = Devices.on_device id d (Sub.update_state s) m.
Proof.
  unfold Devices.update_device_state. rewrite (mbind_run mget _ m m m) by done.
  destruct (dm_devices m !! id) as [d|] eqn:Ed; [|by left].
  unfold mbind_st, mlift, mfail, mret_st.
  destruct (state_number (ds_current_state d) =? 0).
  - destruct (St.get_hash (ds_current_state d)); cbn [snd]; try (by left).
    destruct (negb _); cbn [snd]; [by left|]. destruct (negb _); cbn [snd]; [by left|]. right. by exists d.
  - destruct (u64_add _ 1); cbn [snd]; try (by left). destruct (negb _); cbn [snd]; [by left|].
    destruct (St.get_hash (ds_current_state d)); cbn [snd]; try (by left).
    destruct (negb _); cbn [snd]; [by left|]. right. by exists d.
Qed.

Lemma update_device_ok id s m : manager_ok m → manager_ok (Devices.update_device_state id s m).2.
Proof.
  intros (Hd & Ht & Hp). destruct (update_device_run id s m) as [->|(d & Ed & ->)]; [done|].
  destruct (update_state_ok (dm_master_genesis m) id d s (Hd id d Ed)) as (Hok & Hg & Hpr).
  unfold Devices.on_device. destruct (Sub.update_state s d) as [r d'] eqn:Eu. cbn [snd] in *.
  set (m' := Devices.set_devices (<[id := d']> (dm_devices m)) m).
  assert (Hrel : ∀ k, option_Forall2 (fun x x' => ds_sub_genesis x' = ds_sub_genesis x ∧ ds_merkle_proof x' = ds_merkle_proof x)
    (dm_devices m !! k) (dm_devices m' !! k)).
  { intros k. cbn [m' Devices.set_devices dm_devices]. destruct (decide (k = id)) as [->|Hk].
    - rewrite Ed, lookup_insert_eq. by constructor.
    - rewrite lookup_insert_ne by done. destruct (dm_devices m !! k); by constructor. }
  split_and!.
  - by apply map_Forall_insert_2.
  - unfold tree_ok. rewrite (leaves_related m m'); [done|]. intros k. destruct (Hrel k) as [x y []|]; by constructor.
  - intros i k x Hi. pose proof (sorted_entries_related _ _ _ Hrel) as Hf.
    apply Forall2_lookup_r with (i := i) (y := (k, x)) in Hf; [|done].
    destruct Hf as ([k0 x0] & Hi0 & Heq & _ & Hx). cbn [fst snd] in Heq, Hx. subst k0.
    destruct (Hp i k x0 Hi0) as (p & ? & ?). exists p. by rewrite Hx.
Qed.

Lemma apply_op_ok op m : manager_ok m → manager_ok (apply_op op m).
Proof.
  intros Hm. destruct op as [id e|id|id s]; cbn [apply_op]; [| |by apply update_device_ok].
  - destruct (add_device_run id e m Hm) as [->|(g & m' & d & _ & _ & _ & H & _ & ->)]; done.
  - destruct (remove_device_run id m Hm) as [[_ ->]|(m' & _ & _ & H & ->)]; done.
Qed.

Lemma run_ops_ok ops : ∀ m, manager_ok m → manager_ok (run_ops ops m).
Proof. induction ops as [|op ops IH]; intros m Hm; [done|]. by apply IH, apply_op_ok. Qed.

End DeviceFacts.

(** ** Signing with rotated arguments

    [sphincs_sign(&data, key)] and [sphincs_verify(&data, &signature, key)], as
    the invalidation markers and the checkpoints call them. *)

Section Rotated.
Context {B3 : Blake3}.

Lemma sign_signature_total sig message sk : (128 ≤ length sk)%nat → (64 ≤ length sig)%nat →
  ∃ s, Sphincs.crypto_sign_signature sig message sk = Ok s ∧ length s = length sig.
Proof.
  intros Hk Hs. unfold Sphincs.crypto_sign_signature. change CRYPTO_N with 32%nat. cbn [Nat.mul Nat.add].
  destruct (slice_total 0 32 sk) as (? & -> & _); [lia|]. destruct (slice_total 32 64 sk) as (prf & -> & _); [lia|].
  destruct (slice_total 64 96 sk) as (? & -> & _); [lia|]. destruct (slice_total 96 128 sk) as (? & -> & _); [lia|].
  cbn [mbind outcome_bind]. destruct (write_at 0 (blake3 (prf ++ message)) sig) as [sig'| | |] eqn:Hw;
    [|rewrite write_at_total in Hw by (rewrite blake3_length; lia); done..].
  pose proof (length_write_at _ _ _ _ Hw) as Hl. cbn [mbind outcome_bind].
  destruct (slice_total 0 32 sig') as (r & -> & _); [lia|]. cbn [mbind outcome_bind].
  match goal with |- ∃ s, write_at 32 ?x _ = _ ∧ _ => destruct (write_at 32 x sig') as [s| | |] eqn:Hw' end;
    [|rewrite write_at_total in Hw' by (rewrite thash_length; lia); done..].
  exists s. split; [done|]. pose proof (length_write_at _ _ _ _ Hw'). lia.
Qed.

Lemma sign_short_key message data : message ≠ [] → (length data < 128)%nat →
  Sphincs.sphincs_sign data message = Panic.
Proof.
  intros Hm Hd. unfold Sphincs.sphincs_sign, Sphincs.crypto_sign_signature. rewrite bool_decide_eq_false_2 by done.
  change CRYPTO_N with 32%nat. cbn [Nat.mul Nat.add].
  assert (H : slice 96 128 data = Panic).
  { unfold slice. rewrite (proj2 (Nat.leb_gt 128 _)) by lia. by rewrite andb_false_r. }
  assert (Hc : ∀ a b, (∃ x, slice a b data = Ok x) ∨ slice a b data = Panic)
    by (intros; unfold slice; case_test; eauto).
  rewrite H. destruct (Hc 0%nat 32%nat) as [[x ->]| ->]; [|done]. destruct (Hc 32%nat 64%nat) as [[y ->]| ->]; [|done].
  destruct (Hc 64%nat 96%nat) as [[z ->]| ->]; done.
Qed.

(** What key generation hashed for the public key [pk], and what the verifier
    hashes when data, signature and key are passed in the places of key, message
    and signature. *)
Definition rotated_inputs (pk sk data sig : bytes) : list bytes :=
  [verifier_input data sig pk; take 32 sk ++ take 32 pk].

(** Data shorter than a secret key panics; longer data is signed, and what the
    verifier then checks fails for every generated key. *)
Lemma rotated_signature random pk sk data :
  length random = 96%nat → Sphincs.generate_sphincs_keypair random = Ok (pk, sk) →
  ((length data < 128)%nat → Sphincs.sphincs_sign data sk = Panic) ∧
  ((128 ≤ length data)%nat → ∃ sig, Sphincs.sphincs_sign data sk = Ok sig ∧
     (Sphincs.sphincs_verify data sig pk = Ok false ∨ collision blake3 (rotated_inputs pk sk data sig))).
Proof.
  intros Hr Hg. pose proof Hr as Hr96. destruct (generate_keypair random Hr) as (pk' & sk' & Hg' & Hk). rewrite Hg in Hg'.
  apply Ok_inj in Hg'. injection Hg' as <- <-.
  assert (Hsk : sk ≠ []).
  { destruct Hk as (a & b & p & r & Ha & _ & _ & _ & _ & ->). destruct a; [done|discriminate]. }
  split; [by apply sign_short_key|]. intros Hd. unfold Sphincs.sphincs_sign. rewrite bool_decide_eq_false_2 by done.
  destruct (sign_signature_total (zeros CRYPTO_BYTES) sk data Hd) as (sig & Hs & Hl).
  { unfold zeros. rewrite length_replicate. exact crypto_bytes_64. }
  exists sig. split; [done|]. unfold zeros in Hl. rewrite length_replicate in Hl. pose proof crypto_bytes_64 as H64.
  unfold Sphincs.sphincs_verify. rewrite bool_decide_eq_false_2 by (intros ->; cbn [length] in Hl; lia).
  destruct (generate_keypair_shape random pk sk Hr Hg) as (seed & prf & pub & Hl1 & Hl2 & Hpk & Hk').
  assert (Hv : ∃ v, Sphincs.crypto_sign_verify pk sig data = Ok v).
  { unfold Sphincs.crypto_sign_verify. change CRYPTO_N with 32%nat. cbn [Nat.mul Nat.add]. rewrite Hpk.
    destruct (slice_total 0 32 data) as (d0 & -> & _); [lia|]. destruct (slice_total 32 64 data) as (d1 & -> & _); [lia|].
    rewrite (slice_app_l 32 pub), (slice_app_r 32 64 pub), (slice_full _ (blake3 _)) by (done || lia || apply blake3_length).
    by eexists. }
  destruct Hv as [v Hv]. rewrite Hv. apply verify_input in Hv as ->. case_bool_decide as Heq; [right|by left].
  unfold rotated_inputs. assert (Hpub : take 32 (drop 32 pk) = blake3 (take 32 sk ++ take 32 pk)).
  { rewrite Hpk, Hk', drop_app_length', !take_app_length' by done. apply take_ge. by rewrite blake3_length. }
  rewrite Hpub in Heq. apply hash_bind in Heq as [E|?]; [|done].
  apply (f_equal length) in E. unfold verifier_input in E. rewrite !length_app, !length_take in E. lia.
Qed.

End Rotated.

(** ** Properties *)

Section DeviceProperties.
Context {B3 : Blake3} {SO : Bincode Operation} {SB : Bincode Balance} {SP : Bincode PreCommitment}.

Lemma apply_op_master op m : manager_ok m → dm_master_genesis (apply_op op m) = dm_master_genesis m.
Proof.
  intros Hm. destruct op as [id e|id|id s]; cbn [apply_op].
  - destruct (add_device_run id e m Hm) as [->|(g & m' & d & _ & _ & [H _] & _ & _ & ->)]; [done|]. exact H.
  - destruct (remove_device_run id m Hm) as [[_ ->]|(m' & _ & [H _] & _ & ->)]; [done|]. exact H.
  - destruct (update_device_run id s m) as [->|(d & _ & ->)]; [done|]. unfold Devices.on_device. by destruct (Sub.update_state s d).
Qed.

(** C17: the device hierarchy stays consistent through every sequence of calls,
    failed ones included: the master never changes, the tree is the Merkle tree
    of the sub-genesis hashes in the order of the device ids, every device holds
    the proof of its own position, its sub-genesis is derived from the master
    and its id and carries its recomputed hash, its current state is the end of
    a hash-linked chain of consecutive states from the sub-genesis, and its
    checkpoints are exactly the hashes of the states of that chain. *)
Theorem device_manager_invariant (ops : list DeviceOp) (g : State) :
  dm_master_genesis (run_ops ops (Devices.new g)) = g ∧ manager_ok (run_ops ops (Devices.new g)).
Proof.
  split; [|apply run_ops_ok, new_manager_ok].
  enough (H : ∀ m, manager_ok m → dm_master_genesis (run_ops ops m) = dm_master_genesis m) by apply H, new_manager_ok.
  induction ops as [|op ops IH]; intros m Hm; [done|]. cbn [run_ops fold_left]. rewrite <- (apply_op_master op m Hm).
  apply IH, apply_op_ok, Hm.
Qed.

Lemma length_leaves m : length (leaves_of m) = size (dm_devices m).
Proof.
  unfold leaves_of, Devices.sorted_entries, sort_by_key. rewrite length_map, (merge_sort_Permutation key_le).
  apply length_map_to_list.
Qed.

Lemma leaf_lookup m i id d : devices_ok m → Devices.sorted_entries m !! i = Some (id, d) →
  nth i (map MTree.to_hash (leaves_of m)) [] = hash (ds_sub_genesis d).
Proof.
  intros Hm Hi. apply nth_lookup_Some. unfold leaves_of. rewrite map_map, list_lookup_fmap, Hi. cbn. f_equal.
  destruct (Hm id d) as (_ & Hg & _); [by eapply sorted_lookup|].
  destruct (sub_genesis_hash _ _ _ Hg) as (Hl & _ & _). unfold MTree.to_hash, leaf_of. cbn [snd]. rewrite Hl. cbn [Nat.leb].
  apply take_ge. lia.
Qed.

(** The stored proofs are genuine for a power of two of devices: after any
    sequence of calls that leaves such a number, the proof each device holds
    leads from its sub-genesis hash to the Merkle root, so the comparison that
    [verify_merkle_proof] skips would have succeeded. *)
Theorem device_proofs_genuine (ops : list DeviceOp) (g : State) (k : nat) (id : string) (d : DeviceSubIdentity) :
  let m := run_ops ops (Devices.new g) in
  size (dm_devices m) = (2 ^ k)%nat → dm_devices m !! id = Some d →
  ∃ p, ds_merkle_proof d = Some p ∧
    MTree.verify_proof (Devices.merkle_root m) (hash (ds_sub_genesis d)) (tp_path p) (tp_leaf_index p) = true.
Proof.
  intros m Hsz Hd. destruct (run_ops_ok ops _ (new_manager_ok g)) as (Hok & Ht & Hp). fold m in Hok, Ht, Hp.
  destruct (new_pow2 (leaves_of m) k) as (r & Hn & Hr); [by rewrite length_leaves|].
  rewrite Ht in Hn. apply Ok_inj in Hn.
  assert (He : (id, d) ∈ Devices.sorted_entries m)
    by (unfold Devices.sorted_entries; by rewrite elem_of_sort_by_key, elem_of_map_to_list).
  apply list_elem_of_lookup in He as [i Hi]. destruct (Hp i id d Hi) as (p & Hgen & Hpr). exists p. split; [done|].
  assert (Hlt : (i < length (map MTree.to_hash (leaves_of m)))%nat).
  { apply lookup_lt_Some in Hi. unfold leaves_of. by rewrite !length_map. }
  destruct (proof_loop_climb (length (leaves_of m)) (map MTree.to_hash (leaves_of m)) i) as (path & Hpath & Hc);
    [done|rewrite length_map; lia|].
  assert (Hroot : Devices.merkle_root m = mn_hash r) by (unfold Devices.merkle_root; by rewrite Hn).
  unfold MTree.generate_proof in Hgen. rewrite Hn in Hgen. cbn [mt_leaves] in Hgen.
  rewrite (proj2 (Nat.leb_gt _ _) Hlt), length_map, Hpath in Hgen. cbn [mbind outcome_bind] in Hgen.
  apply Ok_inj in Hgen as <-. unfold MTree.verify_proof. cbn [tp_path tp_leaf_index].
  rewrite <- (leaf_lookup m i id d Hok Hi), Hc, <- Hr, Hroot. apply constant_time_eq_refl.
Qed.

(** *** What one device checks of another *)

Lemma next_level_32 l : Forall (fun n => length (mn_hash n) = 32%nat) l →
  Forall (fun n => length (mn_hash n) = 32%nat) (MTree.next_level l).
Proof.
  induction l as [|a|a b l IH] using pair_ind; cbn [MTree.next_level]; [done|done|].
  intros (_ & Hl)%Forall_cons. apply Forall_cons in Hl as [_ Hl]. apply Forall_cons_2; [apply blake3_length|by apply IH].
Qed.

Lemma build_loop_32 fuel : ∀ l l', Forall (fun n => length (mn_hash n) = 32%nat) l →
  MTree.build_loop fuel l = Ok l' → Forall (fun n => length (mn_hash n) = 32%nat) l'.
Proof.
  induction fuel as [|fuel IH]; intros [|a [|b l]] l' Hl; cbn [MTree.build_loop];
    try (intros H; apply Ok_inj in H as <-; exact Hl); [done|].
  apply IH. by apply next_level_32.
Qed.

Lemma merkle_root_32 m : tree_ok m → length (Devices.merkle_root m) = 32%nat.
Proof.
  unfold tree_ok. intros Ht. unfold Devices.merkle_root. destruct (decide (leaves_of m = [])) as [E|E].
  - rewrite E in Ht. apply Ok_inj in Ht as <-. done.
  - destruct (new_spec _ E) as (r & Hn & Hb). rewrite Ht in Hn. apply Ok_inj in Hn as ->. cbn.
    apply build_loop_32 in Hb; [by inversion_clear Hb|].
    rewrite map_map. apply Forall_map, Forall_true. intros x. apply to_hash_length.
Qed.

Lemma verify_merkle_proof_accepts m id d : manager_ok m → dm_devices m !! id = Some d →
  Sub.verify_merkle_proof d (Devices.merkle_root m) = Ok true.
Proof.
  intros (Hok & Ht & Hp) Hd. destruct (Hok id d Hd) as (_ & Hg & _). destruct (sub_genesis_hash _ _ _ Hg) as (Hl & Hh & _).
  assert (He : (id, d) ∈ Devices.sorted_entries m)
    by (unfold Devices.sorted_entries; by rewrite elem_of_sort_by_key, elem_of_map_to_list).
  apply list_elem_of_lookup in He as [i Hi]. destruct (Hp i id d Hi) as (p & _ & Hpr).
  unfold Sub.verify_merkle_proof. rewrite Hpr, Hh. cbn [mbind outcome_bind]. by rewrite (merkle_root_32 m Ht), Hl.
Qed.

Lemma verify_from_genesis_exact g s : state_number g = 0 → St.get_hash g = Ok (hash g) → 2 ≤ state_number s →
  Devices.verify_from_genesis g s = Ok (bool_decide (prev_state_hash s = hash g)).
Proof.
  intros Hn Hh Hs. unfold Devices.verify_from_genesis, Verifier.update_sparse_indices, mbind_st, mlift, mmod.
  rewrite powers_start, Hn, Hh. change (2 ^ 63 <=? 0) with false. cbn match. unfold Verifier.verify_chain.
  rewrite (proj2 (Z.eqb_neq (state_number s) 0)), (proj2 (Z.eqb_neq (state_number s) 1)) by lia.
  cbn [Verifier.new sv_checkpoints]. rewrite insert_empty, map_to_list_singleton.
  replace (Z.to_nat (state_number s)) with (S (Z.to_nat (state_number s - 1))) by lia. cbn [Verifier.chain_loop].
  rewrite (proj2 (Z.ltb_lt 0 (state_number s))) by lia. cbn [negb Verifier.nearest_checkpoint fold_left andb].
  unfold Verifier.nearest_checkpoint. cbn [fold_left]. rewrite (proj2 (Z.ltb_lt 0 (state_number s))) by lia. cbn [andb].
  case_bool_decide; done.
Qed.

(** Equal digests of states with different numbers collide. *)
Lemma compute_hash_numbers s s' h : u64_ok (state_number s) → u64_ok (state_number s') →
  St.compute_hash s = Ok h → St.compute_hash s' = Ok h →
  state_number s = state_number s' ∨ collision blake3 (state_inputs [s; s']).
Proof.
  intros Hs Hs'. unfold St.compute_hash. intros (i & Hi & [= <-])%bind_Ok (i' & Hi' & [= Heq])%bind_Ok.
  unfold state_inputs. cbn [omap list_omap]. rewrite Hi, Hi'. apply eq_sym, hash_bind in Heq as [->|?]; [left|by right].
  assert (Hpre : ∀ x, St.hash_input x (map_to_list (token_balances x)) = Ok i' → ∃ r, i' = u64_le (state_number x) ++ r).
  { intros x. unfold St.hash_input. intros (? & _ & (? & _ & (? & _ & [= <-])%bind_Ok)%bind_Ok)%bind_Ok. by eexists. }
  destruct (Hpre s Hi) as [r Hr], (Hpre s' Hi') as [r' Hr']. rewrite Hr in Hr'.
  apply app_inj_1 in Hr' as [E _]; [by apply u64_le_inj|by rewrite !length_le_bytes].
Qed.

(** Cross-device verification looks at the sub-genesis only: for two known
    devices of a manager reached by any calls, a state beyond genesis is accepted
    exactly when it names the sub-genesis of the target as its predecessor,
    whatever its own number, so that a state that follows a non-genesis state
    whose hash is its recomputed hash is rejected, unless that state and the
    sub-genesis have colliding contents. *)
Theorem cross_device_verify_exact (ops : list DeviceOp) (g : State) (v t : string) (dv dt : DeviceSubIdentity)
    (s : State) :
  let m := run_ops ops (Devices.new g) in
  dm_devices m !! v = Some dv → dm_devices m !! t = Some dt → 1 ≤ state_number s →
  Devices.cross_device_verify m v t s =
    (if forallb Devices.is_zero (Devices.merkle_root m) then Ok false
     else Ok (bool_decide (prev_state_hash s = hash (ds_sub_genesis dt)))) ∧
  ∀ q, 1 ≤ state_number q ≤ u64_max → St.compute_hash q = Ok (prev_state_hash s) →
    Devices.cross_device_verify m v t s = Ok false ∨ collision blake3 (state_inputs [q; ds_sub_genesis dt]).
Proof.
  intros m Hv Ht Hs. pose proof (run_ops_ok ops _ (new_manager_ok g)) as Hm. fold m in Hm.
  destruct (proj1 Hm t dt Ht) as (_ & Hg & _). destruct (sub_genesis_hash _ _ _ Hg) as (_ & Hh & Hn).
  assert (Heq : Devices.cross_device_verify m v t s =
    (if forallb Devices.is_zero (Devices.merkle_root m) then Ok false
     else Ok (bool_decide (prev_state_hash s = hash (ds_sub_genesis dt))))).
  { unfold Devices.cross_device_verify, Devices.get_device. rewrite Hv, Ht. cbn [ok_or mbind outcome_bind].
    destruct (forallb _ _); [done|].
    rewrite (verify_merkle_proof_accepts m v dv), (verify_merkle_proof_accepts m t dt) by done.
    cbn [Devices.proof_accepted negb]. rewrite (proj2 (Z.eqb_neq (state_number s) 0)) by lia.
    destruct (state_number s =? 1) eqn:E1; zbool; [by rewrite Hh|]. apply verify_from_genesis_exact; [done|done|lia]. }
  split; [done|]. intros q Hq Hpq. rewrite Heq. destruct (forallb _ _); [by left|]. case_bool_decide as E; [right|by left].
  destruct Hg as (_ & _ & _ & _ & Hc). rewrite E in Hpq.
  destruct (compute_hash_numbers q (ds_sub_genesis dt) (hash (ds_sub_genesis dt))) as [Hbad|]; [|by rewrite Hn|done|done| |done].
  - split; lia.
  - lia.
Qed.

(** *** The chain verifier returns *)

Lemma nearest_checkpoint_below n l i h : Verifier.nearest_checkpoint n l = Some (i, h) → i < n.
Proof.
  unfold Verifier.nearest_checkpoint.
  enough (H : ∀ acc, (∀ i h, acc = Some (i, h) → i < n) → ∀ i h, fold_left (fun nearest '(idx, h) =>
    if (idx <? n) && match nearest with None => true | Some (i, _) => i <? idx end
    then Some (idx, h) else nearest) l acc = Some (i, h) → i < n) by (by apply H).
  induction l as [|[idx x] l IH]; intros acc Hacc i' h' H; [by eapply Hacc|]. cbn [fold_left] in H.
  revert H. apply IH. intros j y. case_test; [|by apply Hacc]. zbool. intros [= <- _]. done.
Qed.

(** The walk back to genesis ends: for every set of checkpoints and every
    state, [verify_chain] returns a verdict when the genesis state can be hashed,
    within as many turns as the number of the state. *)
Theorem verify_chain_terminates (v : SparseIndexVerifier) (genesis s : State) (h : bytes) :
  St.get_hash genesis = Ok h → ∃ b, Verifier.verify_chain v genesis s = Ok b.
Proof.
  intros Hh. unfold Verifier.verify_chain. case_test; [by eexists|]. case_test; [rewrite Hh; by eexists|].
  generalize (map_to_list (sv_checkpoints v)) as l. intros l.
  enough (H : ∀ fuel s, (Z.to_nat (state_number s) ≤ fuel)%nat → ∃ b, Verifier.chain_loop fuel l genesis s = Ok b) by (by apply H).
  clear - Hh. induction fuel as [|fuel IH]; intros s Hf; cbn [Verifier.chain_loop].
  - rewrite (proj2 (Z.ltb_ge 0 (state_number s))) by lia. by eexists.
  - destruct (0 <? state_number s) eqn:E; zbool; cbn [negb]; [|by eexists].
    destruct (Verifier.nearest_checkpoint (state_number s) l) as [[num x]|] eqn:En.
    + apply nearest_checkpoint_below in En. case_test; [by eexists|]. case_test; [by eexists|]. apply IH. cbn. lia.
    + case_test; [rewrite Hh; by eexists|]. case_test; [by eexists|]. apply IH. cbn. lia.
Qed.

(** Invalidation markers cannot be used: for every generated key pair,
    signing a marker whose data is shorter than a secret key panics, and a longer
    marker is signed but its signature is rejected under the public key of the
    pair, unless what the rejection hashes collides with what key generation did. *)
Theorem marker_signatures_fail (random pk sk : bytes) (marker : DeviceInvalidationMarker) :
  length random = 96%nat → Sphincs.generate_sphincs_keypair random = Ok (pk, sk) →
  ((length (Marker.to_bytes marker) < 128)%nat → Marker.sign marker sk = Panic) ∧
  ((128 ≤ length (Marker.to_bytes marker))%nat → ∃ signed, Marker.sign marker sk = Ok signed ∧
     (Marker.verify signed pk = Ok false ∨
      collision blake3 (rotated_inputs pk sk (Marker.to_bytes marker) (im_signature signed)))).
Proof.
  intros Hr Hg. destruct (rotated_signature random pk sk (Marker.to_bytes marker) Hr Hg) as [H1 H2].
  unfold Marker.sign, Marker.verify. split; [intros Hl; by rewrite H1|]. intros Hl.
  destruct (H2 Hl) as (sig & Hs & Hv). rewrite Hs. eexists. split; [done|].
  change (Marker.to_bytes (Marker.set_signature sig marker)) with (Marker.to_bytes marker). cbn [Marker.set_signature im_signature].
  destruct Hv as [->|Hv]; [by left|by right].
Qed.

End DeviceProperties.

(** ** Witnesses *)

Module DevicesWitness.
#[local] Existing Instances Toy.toy_blake3 toy_bincode_operation ToySt.toy_bincode_balance ToySt.toy_bincode_precommitment.

Definition master : State := St.new_genesis [Byte.x07] (mkDevice "master" [Byte.x01]).
Definition two_ops : list DeviceOp := [AddDevice "phone" [Byte.x0a]; AddDevice "laptop" [Byte.x0b]].
Definition two : HierarchicalDeviceManager := run_ops two_ops (Devices.new master).
Definition device (id : string) : DeviceSubIdentity :=
  match dm_devices two !! id with Some d => d | None => Sub.new id default_state end.

(** A state numbered 5 that claims the sub-genesis as its predecessor. *)
Definition forged : State :=
  St.new (mkStateParams 5 [] None (hash (ds_sub_genesis (device "laptop"))) (mkSparse []) Genesis (mkDevice "x" [])
    None false "" [] []).

Lemma device_proofs_genuine_witness :
  ∃ p, ds_merkle_proof (device "phone") = Some p ∧
    MTree.verify_proof (Devices.merkle_root two) (hash (ds_sub_genesis (device "phone"))) (tp_path p) (tp_leaf_index p) = true.
Proof. apply (device_proofs_genuine two_ops master 1 "phone" (device "phone")); vm_compute; reflexivity. Defined.

Lemma cross_device_verify_exact_witness :
  Devices.cross_device_verify two "phone" "laptop" forged = Ok true ∧
  Devices.cross_device_verify two "phone" "laptop" forged =
    (if forallb Devices.is_zero (Devices.merkle_root two) then Ok false
     else Ok (bool_decide (prev_state_hash forged = hash (ds_sub_genesis (device "laptop"))))).
Proof.
  split; [vm_compute; reflexivity|].
  apply (cross_device_verify_exact two_ops master "phone" "laptop" (device "phone") (device "laptop") forged);
    [vm_compute; reflexivity..|vm_compute; discriminate].
Defined.

Lemma verify_chain_terminates_witness :
  ∃ b, Verifier.verify_chain (mkVerifier [] {[ 3 := [] ]}) master forged = Ok b.
Proof. eapply (verify_chain_terminates (mkVerifier [] {[ 3 := [] ]}) master forged). vm_compute. reflexivity. Defined.

Definition keys : bytes * bytes :=
  match Sphincs.generate_sphincs_keypair (zeros 96) with Ok k => k | _ => ([], []) end.
Definition marker : DeviceInvalidationMarker := mkMarker 1 (zeros 32) (zeros 32) "phone" "lost" [].

Lemma marker_signatures_fail_witness : Marker.sign marker keys.2 = Panic.
Proof.
  apply (marker_signatures_fail (zeros 96) keys.1 keys.2 marker); [vm_compute; reflexivity..|].
  apply Nat.ltb_lt. vm_compute. reflexivity.
Defined.

End DevicesWitness.
