(* ===== verification/NodeTypes.v ===== *)
(** * Types of the storage node (dsm_storage_node/src/types/, dsm_storage_node/src/error/)

    The error type, the entries the node keeps and the records its interfaces
    exchange.  Calls of this crate return [outcome_of StorageNodeError]. *)
From S2P Require Import Prelude.

(** [StorageNodeError]; messages are the literal format strings. *)
Inductive StorageNodeError :=
  | NNetworkClientNotSet
  | NInvalidNodeId (msg : string)
  | NInvalidOperation (msg : string)
  | NTimeout
  | NInternal
  | NConfiguration
  | NNotFound (msg : string)
  | NStorage (msg : string)
  | NConfig (msg : string)
  | NEncryption (msg : string)
  | NDistribution (msg : string)
  | NNodeManagement (msg : string)
  | NStaking (msg : string)
  | NAuthentication (msg : string)
  | NInvalidState (msg : string)
  | NDatabase (msg : string)
  | NSerialization (msg : string)
  | NNetwork (msg : string)
  | NIO (msg : string)
  | NJson (msg : string)
  | NSqlite (msg : string)
  | NRequest (msg : string)
  | NUnknown (msg : string)
  | NRateLimitExceeded (msg : string)
  | NConcurrencyLimitExceeded
  | NTaskCancelled (msg : string)
  | NTaskFailed (msg : string)
  | NQueueFull (msg : string)
  | NReceiveFailure (msg : string)
  | NInvalidInput (msg : string).

Abbreviation nout := (outcome_of StorageNodeError).
Abbreviation NM := (M_of StorageNodeError).

(** u64 arithmetic with overflow checks, as in the dsm crate. *)
Definition n_add (a b : Z) : nout Z := if a + b <=? u64_max then Ok (a + b) else Panic.
Definition n_sub (a b : Z) : nout Z := if b <=? a then Ok (a - b) else Panic.
Definition n_mul (a b : Z) : nout Z := if a * b <=? u64_max then Ok (a * b) else Panic.
Definition n_div (a b : Z) : nout Z := if b =? 0 then Panic else Ok (a / b).

(** [AtomicU64::fetch_add] and [fetch_sub] wrap around. *)
Definition wrap_add (a b : Z) : Z := (a + b) mod 2 ^ 64.
Definition wrap_sub (a b : Z) : Z := (a - b) mod 2 ^ 64.

(** The iteration of a [DashMap] or a [HashMap]: some enumeration of the entries,
    taken to depend on the contents only. *)
Class DashOrder := {
  dash_iter : ∀ {A}, gmap string A → list (string * A);
  dash_iter_perm : ∀ {A} (m : gmap string A), dash_iter m ≡ₚ map_to_list m;
}.

Record BlindedStateEntry := mkEntry {
  blinded_id : string;
  encrypted_payload : bytes;
  e_timestamp : Z;
  e_ttl : Z;
  e_region : string;
  e_priority : Z;
  e_proof_hash : bytes;
  e_metadata : gmap string string;
}.

Record StorageNode := mkNodeInfo {
  sn_id : string;
  sn_name : string;
  sn_region : string;
  sn_public_key : string;
  sn_endpoint : string;
}.

#[global] Instance StorageNode_eq_dec : EqDecision StorageNode.
Proof. solve_decision. Defined.

Record StorageResponse := mkResponse {
  r_blinded_id : string;
  r_timestamp : Z;
  r_status : string;
  r_message : option string;
}.

Record StorageStats := mkStats {
  total_entries : Z;
  total_bytes : Z;
  total_expired : Z;
  oldest_entry : option Z;
  newest_entry : option Z;
}.

Lemma n_add_Ok a b c : n_add a b = Ok c ↔ c = a + b ∧ a + b ≤ u64_max.
Proof. unfold n_add. case_test; zbool; naive_solver lia. Qed.

Lemma n_sub_Ok a b c : n_sub a b = Ok c ↔ c = a - b ∧ b ≤ a.
Proof. unfold n_sub. case_test; zbool; naive_solver lia. Qed.

Lemma n_mul_Ok a b c : n_mul a b = Ok c ↔ c = a * b ∧ a * b ≤ u64_max.
Proof. unfold n_mul. case_test; zbool; naive_solver lia. Qed.

Lemma dash_iter_empty {DO : DashOrder} {A} : dash_iter (∅ : gmap string A) = [].
Proof. apply Permutation_nil_r. rewrite dash_iter_perm. by rewrite map_to_list_empty. Qed.

Lemma elem_of_iter {DO : DashOrder} {A} (m : gmap string A) k x : (k, x) ∈ dash_iter m ↔ m !! k = Some x.
Proof. by rewrite dash_iter_perm, elem_of_map_to_list. Qed.
