(* ===== verification/Digest.v ===== *)
(** * Digests (dsm_storage_node/src/storage/digest.rs)

    The digests nodes exchange to find out what they miss, their comparison, the
    Merkle tree over the entries and the registry of peer digests.  An iterator
    over entries is a list; the entries of a digest are a map.  [cap] keeps the
    most recent entries; among equal timestamps the choice follows the
    enumeration of the map. *)
From S2P Require Import Prelude NodeTypes VectorClock.

(** ** Data *)

#[global] Instance VectorClock_eq_dec : EqDecision VectorClock.
Proof. solve_decision. Defined.

Record EpidemicEntry := mkEpidemic {
  ep_entry : BlindedStateEntry;
  ep_vector_clock : VectorClock;
  ep_last_modified : Z;
  ep_last_sync : Z;
  ep_received_from : option string;
  ep_propagation_count : Z;
  ep_verification_count : Z;
  ep_origin_region : string;
}.

Record DigestEntry := mkDigestEntry {
  de_vector_clock : VectorClock;
  de_hash : bytes;
  de_timestamp : Z;
  de_size : Z;
}.

Inductive DigestType := DFull | DIncremental | DDelta | DRegion | DBloom | DMerkle.
#[global] Instance DigestType_eq_dec : EqDecision DigestType.
Proof. solve_decision. Defined.
#[global] Instance DigestType_countable : Countable DigestType.
Proof.
  by refine (inj_countable' (fun t => match t with DFull => 0 | DIncremental => 1 | DDelta => 2 | DRegion => 3 | DBloom => 4 | DMerkle => 5 end%nat)
    (fun n => match n with 0 => DFull | 1 => DIncremental | 2 => DDelta | 3 => DRegion | 4 => DBloom | _ => DMerkle end%nat) _); intros [].
Defined.

Record StorageDigest := mkDigest {
  d_entries : gmap string DigestEntry;
  d_node_id : string;
  d_region : string;
  d_timestamp : Z;
  d_type : DigestType;
  d_merkle_root : option bytes;
}.

Record DigestDiff := mkDiff {
  only_in_first : gset string;
  only_in_second : gset string;
  conflicts : gmap string (DigestEntry * DigestEntry);
  total_compared : Z;
}.

(** [digest::MerkleNode] *)
#[warnings="-register-all"]
Inductive DigestNode := DNode (dn_hash : bytes) (dn_entries : option (list string)) (dn_children : list DigestNode).
Definition dn_hash (n : DigestNode) : bytes := match n with DNode h _ _ => h end.

Record DigestGenerator := mkGenerator {
  g_node_id : string;
  g_region : string;
  bloom_filter_size : Z;
  bloom_hash_count : Z;
  max_entries_per_digest : nat;
  merkle_branching_factor : nat;
}.

Record DigestRegistry := mkDigestRegistry {
  dr_node_id : string;
  peer_digests : gmap string StorageDigest;
  last_generation : gmap DigestType Z;
  difference_sets : gmap string DigestDiff;
}.

Module Gen.
Section Gen.
Context {B3 : Blake3} {RT : Runtime}.

Definition new (node_id region : string) : DigestGenerator := mkGenerator node_id region 8192 5 1000 4.

Definition create_digest_entry (e : EpidemicEntry) : DigestEntry :=
  mkDigestEntry (ep_vector_clock e) (blake3 (encrypted_payload (ep_entry e))) (ep_last_modified e)
    (Z.of_nat (length (encrypted_payload (ep_entry e)))).

(** [for entry in entries { if keep(entry) { map.insert(id, digest) } }] *)
Definition collect (keep : EpidemicEntry → bool) (l : list EpidemicEntry) : gmap string DigestEntry :=
  foldl (fun m e => if keep e then <[blinded_id (ep_entry e) := create_digest_entry e]> m else m) ∅ l.

Definition newer (p q : string * DigestEntry) : Prop := de_timestamp q.2 ≤ de_timestamp p.2.
#[global] Instance newer_dec : RelDecision newer.
Proof. intros p q. unfold newer. apply _. Defined.

Definition cap (g : DigestGenerator) (m : gmap string DigestEntry) : gmap string DigestEntry :=
  if (max_entries_per_digest g <? size m)%nat
  then list_to_map (take (max_entries_per_digest g) (merge_sort newer (map_to_list m)))
  else m.

Definition generate_full_digest (g : DigestGenerator) (l : list EpidemicEntry) : nout StorageDigest :=
  Ok (mkDigest (cap g (collect (fun _ => true) l)) (g_node_id g) (g_region g) now DFull None).

Definition generate_incremental_digest (g : DigestGenerator) (l : list EpidemicEntry) (since : Z) : nout StorageDigest :=
  Ok (mkDigest (cap g (collect (fun e => since <=? ep_last_modified e) l)) (g_node_id g) (g_region g) now DIncremental None).

Definition generate_delta_digest (g : DigestGenerator) (l : list EpidemicEntry) (ids : gset string) : nout StorageDigest :=
  Ok (mkDigest (collect (fun e => bool_decide (blinded_id (ep_entry e) ∈ ids)) l) (g_node_id g) (g_region g) now DDelta None).

Definition generate_region_digest (g : DigestGenerator) (l : list EpidemicEntry) (target : string) : nout StorageDigest :=
  Ok (mkDigest (cap g (collect (fun e => bool_decide (e_region (ep_entry e) = target)) l)) (g_node_id g) target now DRegion None).

Definition compute_bloom_filter_hash (ids : gset string) : bytes :=
  blake3 (mjoin (map str_bytes (sort_strings (elements ids)))).

Definition generate_bloom_digest (g : DigestGenerator) (l : list EpidemicEntry) : nout StorageDigest :=
  let ids : gset string := list_to_set (map (fun e => blinded_id (ep_entry e)) l) in
  Ok (mkDigest ∅ (g_node_id g) (g_region g) now DBloom (Some (compute_bloom_filter_hash ids))).

(** ** The Merkle tree *)

(** [hash.as_bytes()[0] as usize % branching]; one byte read as a number *)
Definition group_index (branching : nat) (key : string) : nat :=
  (Z.to_nat (of_le_bytes (take 1 (blake3 (str_bytes key)))) mod branching)%nat.

Definition group (branching i : nat) (m : gmap string DigestEntry) : gmap string DigestEntry :=
  filter (fun p => group_index branching p.1 = i) m.

Definition leaf_node (m : gmap string DigestEntry) : DigestNode :=
  let l := sort_by_key (map_to_list m) in
  DNode (blake3 (mjoin (map (fun p => str_bytes p.1 ++ de_hash p.2) l))) (Some l.*1) [].

(** The recursion of [build_merkle_tree]; each call splits the entries by the
    same function of their keys.  [Hang] is a recursion deeper than [fuel]. *)
Fixpoint build_merkle_tree (fuel : nat) (branching : nat) (m : gmap string DigestEntry) : nout (option DigestNode) :=
  if bool_decide (m = ∅) then Ok None
  else if (size m <=? branching)%nat then Ok (Some (leaf_node m))
  else if bool_decide (branching = 0%nat) then Panic
  else
    match fuel with
    | O => Hang
    | S fuel =>
        children ← foldr (fun i rest =>
          child ← build_merkle_tree fuel branching (group branching i m);
          rest ← rest;
          Ok (match child with Some c => c :: rest | None => rest end)) (Ok []) (seq 0 branching);
        match children with
        | [] => Ok None
        | _ => Ok (Some (DNode (blake3 (mjoin (map dn_hash children))) None children))
        end
    end.

Definition generate_merkle_digest (fuel : nat) (g : DigestGenerator) (l : list EpidemicEntry) : nout StorageDigest :=
  tree ← build_merkle_tree fuel (merkle_branching_factor g) (collect (fun _ => true) l);
  Ok (mkDigest ∅ (g_node_id g) (g_region g) now DMerkle (dn_hash <$> tree)).

(** ** Comparing digests *)

Definition differ (a b : DigestEntry) : bool :=
  negb (bool_decide (de_hash a = de_hash b)) || negb (bool_decide (de_vector_clock a = de_vector_clock b)).

Definition conflicting (d2 : StorageDigest) (p : string * DigestEntry) : bool :=
  match d_entries d2 !! p.1 with Some b => differ p.2 b | None => false end.

Definition compare_digests (d1 d2 : StorageDigest) : DigestDiff :=
  mkDiff (dom (filter (fun p => d_entries d2 !! p.1 = None) (d_entries d1)))
    (dom (filter (fun p => d_entries d1 !! p.1 = None) (d_entries d2)))
    (map_zip_with (fun a b => (a, b)) (filter (fun p => conflicting d2 p = true) (d_entries d1))
       (d_entries d2))
    (Z.of_nat (size (d_entries d1)) + Z.of_nat (size (d_entries d2))).

End Gen.
End Gen.

Module Reg.
Section Reg.
Context {RT : Runtime}.

Definition new (node_id : string) : DigestRegistry := mkDigestRegistry node_id ∅ ∅ ∅.

Definition set_peers (m : gmap string StorageDigest) (r : DigestRegistry) : DigestRegistry :=
  mkDigestRegistry (dr_node_id r) m (last_generation r) (difference_sets r).
Definition register_peer_digest (peer : string) (d : StorageDigest) (r : DigestRegistry) : DigestRegistry :=
  set_peers (<[peer := d]> (peer_digests r)) r.
Definition get_peer_digest (r : DigestRegistry) (peer : string) : option StorageDigest := peer_digests r !! peer.
Definition register_generation (t : DigestType) (ts : Z) (r : DigestRegistry) : DigestRegistry :=
  mkDigestRegistry (dr_node_id r) (peer_digests r) (<[t := ts]> (last_generation r)) (difference_sets r).
Definition get_last_generation (r : DigestRegistry) (t : DigestType) : option Z := last_generation r !! t.
Definition register_difference_set (peer : string) (d : DigestDiff) (r : DigestRegistry) : DigestRegistry :=
  mkDigestRegistry (dr_node_id r) (peer_digests r) (last_generation r) (<[peer := d]> (difference_sets r)).
Definition get_difference_set (r : DigestRegistry) (peer : string) : option DigestDiff := difference_sets r !! peer.

(** [current_time - digest.timestamp] panics for a digest from the future; what
    [retain] has removed by then depends on the iteration, so that the registry
    after a panic is left unspecified by returning it as it was. *)
Definition clear_old_digests (max_age : Z) : NM DigestRegistry unit := fun r =>
  if forallb (fun p => d_timestamp p.2 <=? now) (map_to_list (peer_digests r))
  then (Ok tt, set_peers (filter (fun p => now - d_timestamp p.2 ≤ max_age) (peer_digests r)) r)
  else (Panic, r).

End Reg.
End Reg.

(** ** The Merkle digest returns exactly when one split suffices *)

Section MerkleProofs.
Context {B3 : Blake3}.

Lemma group_index_lt b k : (0 < b)%nat → (Gen.group_index b k < b)%nat.
Proof. intros. apply Nat.mod_upper_bound. lia. Qed.

Lemma group_idem b i m : Gen.group b i (Gen.group b i m) = Gen.group b i m.
Proof.
  unfold Gen.group. rewrite map_filter_filter.
  apply map_filter_ext. intros k x _. simpl. naive_solver.
Qed.

Lemma group_other b i j m : i ≠ j → Gen.group b j (Gen.group b i m) = ∅.
Proof.
  intros Hij. unfold Gen.group. rewrite map_filter_filter.
  apply map_empty. intros k. apply map_lookup_filter_None. right.
  intros x _ [? ?]. simpl in *. congruence.
Qed.

Definition sum_sizes b m (l : list nat) : nat := foldr (fun i n => (size (Gen.group b i m) + n)%nat) 0%nat l.

Lemma group_insert b i k x m : m !! k = None →
  size (Gen.group b i (<[k := x]> m)) = (size (Gen.group b i m) + if decide (Gen.group_index b k = i) then 1 else 0)%nat.
Proof.
  intros Hk. unfold Gen.group. rewrite map_filter_insert. simpl.
  assert (filter (fun p => Gen.group_index b p.1 = i) m !! k = None) as Hn
    by (apply map_lookup_filter_None; auto).
  destruct (decide _).
  - rewrite map_size_insert_None by done. lia.
  - rewrite delete_id by done. lia.
Qed.

Lemma sum_sizes_insert b k x m l : NoDup l → m !! k = None →
  sum_sizes b (<[k := x]> m) l = (sum_sizes b m l + if decide (Gen.group_index b k ∈ l) then 1 else 0)%nat.
Proof.
  intros Hl Hk. induction Hl as [|i l Hi Hl IH]; simpl; [done|].
  rewrite group_insert, IH by done.
  repeat destruct (decide _); subst; rewrite ?elem_of_cons in *; try lia; naive_solver.
Qed.

(** Every entry is in one of the groups. *)
Lemma sum_sizes_all b m : (0 < b)%nat → sum_sizes b m (seq 0 b) = size m.
Proof.
  intros H0. induction m as [|k x m Hk IH] using map_ind.
  - rewrite map_size_empty. induction (seq 0 b) as [|i l IHl]; [done|]. simpl.
    rewrite IHl. unfold Gen.group. by rewrite map_filter_empty, map_size_empty.
  - rewrite sum_sizes_insert, IH, map_size_insert_None by (done || apply NoDup_seq).
    rewrite decide_True; [lia|]. apply elem_of_seq. pose proof (group_index_lt b k H0). lia.
Qed.

Lemma sum_sizes_bound b m l : (∀ i, size (Gen.group b i m) ≤ b)%nat → (sum_sizes b m l ≤ length l * b)%nat.
Proof. intros Hb. induction l as [|i l IH]; simpl; [lia|]. specialize (Hb i). lia. Qed.

Lemma size_pos_nonempty (m : gmap string DigestEntry) b : (b < size m)%nat → m ≠ ∅.
Proof. intros Hb ->. rewrite map_size_empty in Hb. lia. Qed.

Definition returns_or_hangs {A} (o : nout A) : Prop := (∃ a, o = Ok a) ∨ o = Hang.

(** The loop over the groups. *)
Abbreviation children_of f l := (foldr (fun (i : nat) rest =>
  child ← f i; rest ← rest;
  Ok (match child with Some c => c :: rest | None => rest end)) (Ok []) l).

Lemma children_cases (f : nat → nout (option DigestNode)) l :
  (∀ i, i ∈ l → returns_or_hangs (f i)) → returns_or_hangs (children_of f l).
Proof.
  induction l as [|i l IH]; intros Hf; simpl; [left; eauto|].
  destruct (Hf i) as [[c Hc]|Hc]; [set_solver| |]; rewrite Hc; simpl; [|by right].
  destruct IH as [[r Hr]|Hr]; [set_solver| |]; rewrite Hr; simpl; [left; eauto|by right].
Qed.

Lemma children_hang (f : nat → nout (option DigestNode)) l j :
  (∀ i, i ∈ l → returns_or_hangs (f i)) → j ∈ l → f j = Hang → children_of f l = Hang.
Proof.
  induction l as [|i l IH]; intros Hf Hj Hh; [set_solver|]. simpl.
  destruct (Hf i) as [[c Hc]|Hc]; [set_solver| |]; rewrite Hc; simpl; [|done].
  apply elem_of_cons in Hj as [->|Hj]; [congruence|].
  rewrite IH; [done| set_solver| done| done].
Qed.

Lemma children_ok (f : nat → nout (option DigestNode)) l :
  (∀ i, i ∈ l → ∃ c, f i = Ok c) → ∃ r, children_of f l = Ok r.
Proof.
  induction l as [|i l IH]; intros Hf; simpl; [eauto|].
  destruct (Hf i) as [c Hc]; [set_solver|]. rewrite Hc. simpl.
  destruct IH as [r Hr]; [set_solver|]. rewrite Hr. simpl. eauto.
Qed.

Lemma build_small fuel b m : (size m ≤ b)%nat → ∃ t, Gen.build_merkle_tree fuel b m = Ok t.
Proof.
  intros Hb. destruct fuel; simpl; case_bool_decide; [eauto| |eauto|];
    (destruct (Nat.leb_spec (size m) b); [eauto|lia]).
Qed.

Lemma build_no_fuel b m : (0 < b)%nat → (b < size m)%nat → Gen.build_merkle_tree 0 b m = Hang.
Proof.
  intros H0 Hb. simpl. rewrite bool_decide_eq_false_2 by by eapply size_pos_nonempty.
  destruct (Nat.leb_spec (size m) b); [lia|]. by rewrite bool_decide_eq_false_2 by lia.
Qed.

Lemma build_big fuel b m : (0 < b)%nat → (b < size m)%nat →
  Gen.build_merkle_tree (S fuel) b m =
    (children ← children_of (fun i => Gen.build_merkle_tree fuel b (Gen.group b i m)) (seq 0 b);
     match children with
     | [] => Ok None
     | _ => Ok (Some (DNode (blake3 (mjoin (map dn_hash children))) None children))
     end).
Proof.
  intros H0 Hb. simpl. rewrite bool_decide_eq_false_2 by by eapply size_pos_nonempty.
  destruct (Nat.leb_spec (size m) b); [lia|].
  by rewrite bool_decide_eq_false_2 by lia.
Qed.

Lemma build_cases fuel b : (0 < b)%nat → ∀ m, returns_or_hangs (Gen.build_merkle_tree fuel b m).
Proof.
  intros H0. induction fuel as [|fuel IH]; intros m.
  all: destruct (decide (size m ≤ b)%nat) as [Hs|Hs]; [left; by apply build_small|].
  - right. apply build_no_fuel; lia.
  - rewrite build_big by lia.
    destruct (children_cases (fun i => Gen.build_merkle_tree fuel b (Gen.group b i m)) (seq 0 b)) as [[r ->]| ->];
      [auto| |by right].
    left. simpl. destruct r; eauto.
Qed.

(** A group larger than a leaf is split into itself. *)
Lemma build_group_hangs fuel b i m : (0 < b)%nat → (i < b)%nat → (b < size (Gen.group b i m))%nat →
  Gen.build_merkle_tree fuel b (Gen.group b i m) = Hang.
Proof.
  intros H0 Hi Hb. induction fuel as [|fuel IH].
  - by apply build_no_fuel.
  - rewrite build_big by done.
    rewrite (children_hang _ _ i); [done| | |].
    + intros. by apply build_cases.
    + apply elem_of_seq. lia.
    + by rewrite group_idem.
Qed.

Lemma group_out b i m : (0 < b)%nat → (b ≤ i)%nat → Gen.group b i m = ∅.
Proof.
  intros H0 Hi. apply map_empty. intros k. apply map_lookup_filter_None. right.
  intros x _ Hk. simpl in Hk. pose proof (group_index_lt b k H0). lia.
Qed.

Lemma build_all_groups b m : (0 < b)%nat → (b < size m)%nat → (∀ i, size (Gen.group b i m) ≤ b)%nat →
  ∃ t, Gen.build_merkle_tree 1 b m = Ok t.
Proof.
  intros H0 Hs Hall. rewrite build_big by lia.
  destruct (children_ok (fun i => Gen.build_merkle_tree 0 b (Gen.group b i m)) (seq 0 b)) as [r ->].
  - intros i Hi. by apply build_small.
  - simpl. destruct r; eauto.
Qed.

Lemma build_ok_groups fuel b m t : (0 < b)%nat → (b < size m)%nat →
  Gen.build_merkle_tree fuel b m = Ok t → ∀ i, (size (Gen.group b i m) ≤ b)%nat.
Proof.
  intros H0 Hs Ht i. destruct fuel as [|fuel]; [rewrite build_no_fuel in Ht by lia; congruence|].
  destruct (decide (i < b)%nat); [|rewrite group_out, map_size_empty by lia; lia].
  destruct (decide (size (Gen.group b i m) ≤ b)%nat); [done|]. exfalso.
  rewrite build_big, (children_hang _ _ i) in Ht; [discriminate Ht|..]; try lia.
  - intros. by apply build_cases.
  - apply elem_of_seq. lia.
  - apply build_group_hangs; lia.
Qed.

(** C39: building the Merkle digest returns exactly when the entries fit one leaf,
    or when one split by the first byte of the key hash leaves no more than
    [branching] entries in each group, and one nested call is then enough.  In
    every other case no number of nested calls is: each call splits a group by
    the same function and hands the unchanged group to the next call. *)
Theorem merkle_digest_returns_iff (b : nat) (m : gmap string DigestEntry) : (0 < b)%nat →
  ((∃ fuel t, Gen.build_merkle_tree fuel b m = Ok t) ↔
   (size m ≤ b)%nat ∨ ∀ i, (size (Gen.group b i m) ≤ b)%nat) ∧
  ((∃ t, Gen.build_merkle_tree 1 b m = Ok t) ∨ ∀ fuel, Gen.build_merkle_tree fuel b m = Hang).
Proof.
  intros H0.
  assert ((size m ≤ b)%nat ∨ (∀ i, size (Gen.group b i m) ≤ b)%nat → ∃ t, Gen.build_merkle_tree 1 b m = Ok t) as Hok.
  { intros [Hs|Hall]; [by apply build_small|].
    destruct (decide (size m ≤ b)%nat); [by apply build_small|]. apply build_all_groups; [done|lia|done]. }
  assert (∀ fuel t, Gen.build_merkle_tree fuel b m = Ok t → (size m ≤ b)%nat ∨ (∀ i, size (Gen.group b i m) ≤ b)%nat) as Hinv.
  { intros fuel t Ht. destruct (decide (size m ≤ b)%nat); [by left|right].
    eapply build_ok_groups; [done|lia|done]. }
  split; [split; [naive_solver|eauto]|].
  destruct (build_cases 1 b H0 m) as [?|H1]; [by left|right]. intros fuel.
  destruct (build_cases fuel b H0 m) as [[t Ht]|]; [|done].
  destruct Hok as [t' Ht']; [by eapply Hinv|congruence].
Qed.

(** With the branching factor 4 the generator sets, the Merkle digest of more
    than 16 identifiers is never produced, whatever the identifiers are: one of
    the four groups has more than four of them. *)
Theorem merkle_digest_diverges `{!Runtime} (node region : string) (l : list EpidemicEntry) (fuel : nat) :
  (16 < size (Gen.collect (fun _ => true) l))%nat →
  Gen.generate_merkle_digest fuel (Gen.new node region) l = Hang.
Proof.
  intros Hs. unfold Gen.generate_merkle_digest. set (m := Gen.collect _ l) in *. simpl.
  assert (returns_or_hangs (Gen.build_merkle_tree fuel 4 m)) as [[t Ht]| ->] by (apply build_cases; lia); [|done].
  exfalso. assert (∀ i, size (Gen.group 4 i m) ≤ 4)%nat as Hall by (eapply build_ok_groups; [lia..|done]).
  pose proof (sum_sizes_bound 4 m (seq 0 4) Hall) as Hb.
  rewrite sum_sizes_all in Hb by lia. simpl in Hb. lia.
Qed.

End MerkleProofs.

(** ** Digest comparison and the registry *)

Lemma differ_spec a b : Gen.differ a b = true ↔ de_hash a ≠ de_hash b ∨ de_vector_clock a ≠ de_vector_clock b.
Proof. unfold Gen.differ. rewrite orb_true_iff, !negb_true_iff, !bool_decide_eq_false. done. Qed.

Lemma conflicts_lookup d1 d2 id a b : conflicts (Gen.compare_digests d1 d2) !! id = Some (a, b) ↔
  d_entries d1 !! id = Some a ∧ d_entries d2 !! id = Some b ∧
  (de_hash a ≠ de_hash b ∨ de_vector_clock a ≠ de_vector_clock b).
Proof.
  unfold Gen.compare_digests, Gen.conflicting. simpl. rewrite <-differ_spec, map_lookup_zip_with_Some.
  setoid_rewrite map_lookup_filter_Some. simpl. split.
  - intros (x & y & [= -> ->] & [Hx Hd] & Hy). by rewrite Hy in Hd.
  - intros (Hx & Hy & Hd). exists a, b. by rewrite Hy.
Qed.

(** Comparing digests partitions the identifiers: an identifier is reported as
    only in one digest exactly when the other lacks it, as a conflict (with both
    entries) exactly when both have it and hash or clock differ; swapping the
    digests swaps the report; a digest compared with itself differs nowhere. *)
Theorem compare_digests_exact (d1 d2 : StorageDigest) :
  let diff := Gen.compare_digests d1 d2 in
  (∀ id, id ∈ only_in_first diff ↔ is_Some (d_entries d1 !! id) ∧ d_entries d2 !! id = None) ∧
  (∀ id, id ∈ only_in_second diff ↔ d_entries d1 !! id = None ∧ is_Some (d_entries d2 !! id)) ∧
  (∀ id a b, conflicts diff !! id = Some (a, b) ↔
     d_entries d1 !! id = Some a ∧ d_entries d2 !! id = Some b ∧
     (de_hash a ≠ de_hash b ∨ de_vector_clock a ≠ de_vector_clock b)) ∧
  (only_in_first (Gen.compare_digests d2 d1) = only_in_second diff ∧
   conflicts (Gen.compare_digests d2 d1) = prod_swap <$> conflicts diff) ∧
  (only_in_first (Gen.compare_digests d1 d1) = ∅ ∧ conflicts (Gen.compare_digests d1 d1) = ∅).
Proof.
  simpl. split_and!; intros.
  - rewrite elem_of_dom. unfold is_Some. setoid_rewrite map_lookup_filter_Some. naive_solver.
  - rewrite elem_of_dom. unfold is_Some. setoid_rewrite map_lookup_filter_Some. naive_solver.
  - apply conflicts_lookup.
  - done.
  - apply map_eq. intros id. apply option_eq. intros [a b].
    rewrite lookup_fmap_Some. split.
    + intros (Ha & Hb & Hd)%conflicts_lookup. exists (b, a). split; [done|].
      apply conflicts_lookup. naive_solver.
    + intros ([b' a'] & [= <- <-] & (Ha & Hb & Hd)%conflicts_lookup).
      apply conflicts_lookup. naive_solver.
  - apply elem_of_equiv_empty_L. intros id. rewrite elem_of_dom. intros [x Hx].
    apply map_lookup_filter_Some in Hx. naive_solver.
  - apply map_empty. intros id. apply eq_None_not_Some. intros [[a b] (? & ? & ?)%conflicts_lookup].
    naive_solver.
Qed.

(** The entries [cap] drops are no newer than the ones it keeps. *)
#[global] Instance newer_total : Total Gen.newer.
Proof. intros p q. unfold Gen.newer. lia. Qed.
#[global] Instance newer_trans : Transitive Gen.newer.
Proof. intros p q r. unfold Gen.newer. lia. Qed.

(** A full digest has at most [max_entries_per_digest] entries, every one of
    them the digest entry of the last stored entry of its identifier, all of them
    when they fit, and otherwise exactly the maximum, none of which is older than
    an entry left out. *)
Theorem full_digest_most_recent `{!Blake3} `{!Runtime} (g : DigestGenerator) (l : list EpidemicEntry) :
  ∃ d, Gen.generate_full_digest g l = Ok d ∧
    let m := Gen.collect (fun _ => true) l in
    d_entries d ⊆ m ∧ size (d_entries d) = Nat.min (max_entries_per_digest g) (size m) ∧
    ∀ id id' e e', d_entries d !! id = Some e → m !! id' = Some e' → d_entries d !! id' = None →
      de_timestamp e' ≤ de_timestamp e.
Proof.
  eexists. split; [done|]. simpl. generalize (Gen.collect (fun _ => true) l). intros m.
  unfold Gen.cap. destruct (Nat.ltb_spec (max_entries_per_digest g) (size m)) as [Hlt|Hge].
  2: { split_and!; [done|lia|congruence]. }
  set (s := merge_sort Gen.newer (map_to_list m)). set (n := max_entries_per_digest g) in *.
  assert (s ≡ₚ map_to_list m) as Hp by apply merge_sort_Permutation.
  assert (NoDup s.*1) as Hnd by (rewrite Hp; apply NoDup_fst_map_to_list).
  assert (NoDup (take n s).*1) as Hnt.
  { rewrite fmap_take. rewrite <-(take_drop n s.*1) in Hnd. by apply NoDup_app in Hnd as (? & _). }
  assert (∀ k x, (list_to_map (take n s) : gmap string DigestEntry) !! k = Some x ↔ (k, x) ∈ take n s) as Hlk.
  { intros. symmetry. by apply elem_of_list_to_map. }
  split_and!.
  - apply map_subseteq_spec. intros k x Hx%Hlk%elem_of_take.
    destruct Hx as (i & Hi & _). apply elem_of_map_to_list. rewrite <-Hp. by eapply list_elem_of_lookup_2.
  - rewrite map_size_list_to_map by done. rewrite length_take, Hp, length_map_to_list. done.
  - intros id id' e e' He He' Hn. apply Hlk in He.
    assert ((id', e') ∈ s) as Hin by (rewrite Hp; by apply elem_of_map_to_list).
    rewrite <-(take_drop n s), elem_of_app in Hin. destruct Hin as [Hin%Hlk|Hin]; [congruence|].
    apply (sorted_take_drop Gen.newer n s (id, e) (id', e')); [|done..].
    apply (StronglySorted_merge_sort Gen.newer).
Qed.

(** Cleaning the registry keeps exactly the digests of the last [max_age]
    seconds when no peer's clock is ahead; one digest stamped in the future makes
    the call panic, whatever the other digests are. *)
Theorem clear_old_digests_exact `{!Runtime} (max_age : Z) (r : DigestRegistry) :
  ((∀ p d, peer_digests r !! p = Some d → d_timestamp d ≤ now) →
     ∃ r', Reg.clear_old_digests max_age r = (Ok tt, r') ∧
       (∀ p d, Reg.get_peer_digest r' p = Some d ↔
          Reg.get_peer_digest r p = Some d ∧ now - d_timestamp d ≤ max_age) ∧
       last_generation r' = last_generation r ∧ difference_sets r' = difference_sets r) ∧
  (∀ p d, peer_digests r !! p = Some d → now < d_timestamp d → fst (Reg.clear_old_digests max_age r) = Panic).
Proof.
  split.
  - intros Hts. unfold Reg.clear_old_digests.
    rewrite (proj2 (forallb_forall _ _)).
    + eexists. split; [done|]. split; [|done]. intros p d. unfold Reg.get_peer_digest. simpl.
      by rewrite map_lookup_filter_Some.
    + intros [p d] Hin. apply Z.leb_le, (Hts p d), elem_of_map_to_list, list_elem_of_In, Hin.
  - intros p d Hp Hd. unfold Reg.clear_old_digests. case_match eqn:Hf; [|done]. exfalso.
    rewrite forallb_forall in Hf. specialize (Hf (p, d)). apply elem_of_map_to_list, list_elem_of_In in Hp.
    apply Hf, Z.leb_le in Hp. simpl in Hp. lia.
Qed.

(** ** Witnesses *)

#[local] Existing Instances Toy.toy_blake3 Toy.toy_runtime.

Module DigestWitness.
Definition entry (i : nat) : EpidemicEntry :=
  mkEpidemic (mkEntry (pretty (Z.of_nat i)) [] 0 0 "eu" 0 [] ∅) (VC.new) 0 0 None 0 0 "eu".
Definition seventeen : list EpidemicEntry := map entry (seq 0 17).
End DigestWitness.

Lemma merkle_digest_returns_iff_witness :
  (0 < 4)%nat ∧ ∀ fuel, Gen.build_merkle_tree fuel 4 (Gen.collect (fun _ => true) DigestWitness.seventeen) = Hang.
Proof.
  split; [lia|].
  destruct (merkle_digest_returns_iff 4 (Gen.collect (fun _ => true) DigestWitness.seventeen) ltac:(lia)) as [_ [[t Ht]|Hh]];
    [|exact Hh].
  exfalso. revert Ht. vm_compute. discriminate.
Defined.

Lemma merkle_digest_diverges_witness :
  (16 < size (Gen.collect (fun _ => true) DigestWitness.seventeen))%nat ∧
  Gen.generate_merkle_digest 40 (Gen.new "n" "eu") DigestWitness.seventeen = Hang.
Proof.
  split; [apply Nat.ltb_lt; vm_compute; reflexivity|].
  apply merkle_digest_diverges. apply Nat.ltb_lt. vm_compute. reflexivity.
Defined.
