(* ===== verification/Engine.v ===== *)
(** * Storage engines (dsm_storage_node/src/storage/: mod.rs, memory_storage.rs,
    distributed_storage.rs)

    The [StorageEngine] trait is a class over the state of an engine; the class
    [EngineLaws] says what its callers may rely on.  [MemoryStorage] is an
    instance with its laws, [DistributedStorage] is one over any lawful local
    engine, and the theorem on histories of commands is proved once against the
    laws.  A [DashMap] is a map with an enumeration order that the crate leaves
    open ([NodeTypes.DashOrder]). *)
From S2P Require Import Prelude NodeTypes.

(** ** The trait *)

Class StorageEngine (S : Type) := {
  store : BlindedStateEntry → NM S StorageResponse;
  retrieve : string → NM S (option BlindedStateEntry);
  delete_entry : string → NM S bool;
  exists_entry : string → NM S bool;
  list_ids : option nat → option nat → NM S (list string);
  get_stats : NM S StorageStats;
}.

(** What a caller may rely on.  An engine may drop entries while it stores
    another one, and it never invents or alters one. *)
Class EngineLaws (S : Type) `{StorageEngine S} := {
  contents : S → gmap string BlindedStateEntry;
  store_ok s e r : fst (store e s) = Ok r →
    contents (snd (store e s)) !! blinded_id e = Some e ∧
    contents (snd (store e s)) ⊆ <[blinded_id e := e]> (contents s);
  store_failed s e : is_ok (fst (store e s)) = false → contents (snd (store e s)) ⊆ contents s;
  retrieve_keeps s id : contents (snd (retrieve id s)) = contents s;
  retrieve_ok s id r : fst (retrieve id s) = Ok r → r = contents s !! id;
  delete_ok s id b : fst (delete_entry id s) = Ok b →
    contents (snd (delete_entry id s)) = delete id (contents s) ∧ b = bool_decide (is_Some (contents s !! id));
  delete_failed s id : is_ok (fst (delete_entry id s)) = false → contents (snd (delete_entry id s)) = contents s;
  exists_keeps s id : contents (snd (exists_entry id s)) = contents s;
  exists_ok s id b : fst (exists_entry id s) = Ok b → b = bool_decide (is_Some (contents s !! id));
  list_keeps s lim off : contents (snd (list_ids lim off s)) = contents s;
  list_ok s lim off l : fst (list_ids lim off s) = Ok l →
    NoDup l ∧ ∀ id, id ∈ l → is_Some (contents s !! id);
  stats_keeps s : contents (snd (get_stats s)) = contents s;
}.

(** ** The memory engine *)

Inductive EvictionPolicy := LRU | LFU | FIFO.

Record MemoryStorageConfig := mkMemConfig {
  max_memory_bytes : Z;
  max_entries : Z;
  persistence_path : option string;
  eviction_policy : EvictionPolicy;
  db_path : string;
  compression : option string;
}.

Record MemoryStorage := mkMem {
  entries : gmap string BlindedStateEntry;
  ms_total_bytes : Z;
  ms_config : MemoryStorageConfig;
  access_counts : gmap string Z;
  last_accessed : gmap string Z;
  insertion_order : list string;
}.

Module Mem.
Section Mem.
Context {RT : Runtime} {DO : DashOrder} {BE : Bincode BlindedStateEntry} {BP : Bincode (string * BlindedStateEntry)}.

Definition set_entries m s := mkMem m (ms_total_bytes s) (ms_config s) (access_counts s) (last_accessed s) (insertion_order s).
Definition set_bytes b s := mkMem (entries s) b (ms_config s) (access_counts s) (last_accessed s) (insertion_order s).
Definition set_counts m s := mkMem (entries s) (ms_total_bytes s) (ms_config s) m (last_accessed s) (insertion_order s).
Definition set_accessed m s := mkMem (entries s) (ms_total_bytes s) (ms_config s) (access_counts s) m (insertion_order s).
Definition set_order l s := mkMem (entries s) (ms_total_bytes s) (ms_config s) (access_counts s) (last_accessed s) l.

Definition default_config : MemoryStorageConfig := mkMemConfig (1024 * 1024 * 1024) 1000000 None LRU "default_db_path" (Some "lz4"%string).

(** [StorageFactory::create_memory_storage] *)
Definition factory_config (database_path : string) : MemoryStorageConfig :=
  mkMemConfig (1024 * 1024 * 1024) 1000000 (Some (database_path +:+ ".memdb")) LRU database_path (Some "lz4"%string).

(** [new]; [loaded] is what reading and decoding the persistence file yields. *)
Definition new (config : MemoryStorageConfig) (loaded : option (list (string * BlindedStateEntry))) : MemoryStorage :=
  let empty := mkMem ∅ 0 config ∅ ∅ [] in
  match persistence_path config, loaded with
  | Some _, Some l => foldl (fun s p => set_order (insertion_order s ++ [p.1]) (set_entries (<[p.1 := p.2]> (entries s)) s)) empty l
  | _, _ => empty
  end.

Definition size_of {T} `{Bincode T} (x : T) : nout Z :=
  match serialize x with
  | Some b => Ok (Z.of_nat (length b))
  | None => Err (NSerialization "")
  end.

Definition by_value (p q : string * Z) : Prop := p.2 ≤ q.2.
#[global] Instance by_value_dec : RelDecision by_value.
Proof. intros p q. unfold by_value. apply _. Defined.

(** The ages [now - *entry.value()], a panic when the clock went back. *)
Definition ages (s : MemoryStorage) : nout (list (string * Z)) :=
  mapM (fun p => age ← n_sub now p.2; Ok (p.1, age)) (dash_iter (last_accessed s)).

Definition to_evict (s : MemoryStorage) : nout (list string) :=
  match eviction_policy (ms_config s) with
  | LRU => l ← ages s; Ok (take 100 (merge_sort by_value l).*1)
  | LFU => Ok (take 100 (merge_sort by_value (dash_iter (access_counts s))).*1)
  | FIFO => Ok (take 100 (insertion_order s))
  end.

(** One turn of the eviction loop: [remove] yields the key and the entry, and
    the size subtracted is that of the pair. *)
Definition evict_one (id : string) : NM MemoryStorage unit := fun s =>
  match entries s !! id with
  | None => (Ok tt, s)
  | Some e =>
      let s := set_entries (delete id (entries s)) s in
      match size_of (id, e) with
      | Ok n => (Ok tt, set_accessed (delete id (last_accessed s)) (set_counts (delete id (access_counts s))
                          (set_bytes (wrap_sub (ms_total_bytes s) n) s)))
      | Err err => (Err err, s)
      | Panic => (Panic, s)
      | Hang => (Hang, s)
      end
  end.

Fixpoint evict_all (ids : list string) : NM MemoryStorage unit :=
  match ids with
  | [] => mret_st tt
  | id :: ids => do* evict_one id; evict_all ids
  end.

Definition within_limits (s : MemoryStorage) : bool :=
  (ms_total_bytes s <=? max_memory_bytes (ms_config s)) && (Z.of_nat (size (entries s)) <=? max_entries (ms_config s)).

Definition evict : NM MemoryStorage unit := fun s =>
  if within_limits s then (Ok tt, s)
  else (let* ids := mlift (to_evict s) in evict_all ids) s.

Definition update_access_metrics (id : string) : NM MemoryStorage unit := fun s =>
  let s := set_accessed (<[id := now]> (last_accessed s)) s in
  match access_counts s !! id with
  | Some c => (let* c' := mlift (n_add c 1) in mmod (set_counts (<[id := c']> (access_counts s)))) s
  | None => (Ok tt, set_counts (<[id := 1]> (access_counts s)) s)
  end.

Definition store (e : BlindedStateEntry) : NM MemoryStorage StorageResponse :=
  let* n := mlift (size_of e) in
  do* evict;
  do* mmod (fun s => set_entries (<[blinded_id e := e]> (entries s)) s);
  do* mmod (fun s => set_bytes (wrap_add (ms_total_bytes s) n) s);
  do* mmod (fun s => set_order (insertion_order s ++ [blinded_id e]) s);
  mret_st (mkResponse (blinded_id e) now "success" (Some "Entry stored successfully"%string)).

Definition retrieve (id : string) : NM MemoryStorage (option BlindedStateEntry) := fun s =>
  match entries s !! id with
  | Some e => (do* update_access_metrics id; mret_st (Some e)) s
  | None => (Ok None, s)
  end.

Definition delete_entry (id : string) : NM MemoryStorage bool := fun s =>
  match entries s !! id with
  | Some _ => (Ok true, set_accessed (delete id (last_accessed s)) (set_counts (delete id (access_counts s))
                          (set_entries (delete id (entries s)) s)))
  | None => (Ok false, s)
  end.

Definition exists_entry (id : string) : NM MemoryStorage bool := fun s =>
  (Ok (bool_decide (is_Some (entries s !! id))), s).

Definition list_ids (limit offset : option nat) : NM MemoryStorage (list string) := fun s =>
  (Ok (sort_strings (take (unwrap_or 100%nat limit) (drop (unwrap_or 0%nat offset) (dash_iter (entries s)).*1))), s).

Definition get_stats : NM MemoryStorage StorageStats := fun s =>
  (Ok (mkStats (Z.of_nat (size (entries s))) (ms_total_bytes s) 0 None None), s).

End Mem.
End Mem.

#[global] Instance mem_engine {RT : Runtime} {DO : DashOrder} {BE : Bincode BlindedStateEntry}
    {BP : Bincode (string * BlindedStateEntry)} : StorageEngine MemoryStorage := {|
  store := Mem.store;
  retrieve := Mem.retrieve;
  delete_entry := Mem.delete_entry;
  exists_entry := Mem.exists_entry;
  list_ids := Mem.list_ids;
  get_stats := Mem.get_stats;
|}.

(** ** The distributed engine: a local engine and the entries to distribute *)

Record DistributedNodeConfig := mkDistConfig {
  dc_id : string;
  dc_name : string;
  dc_region : string;
  dc_endpoint : string;
  dc_replication_factor : Z;
  dc_min_regions : Z;
  dc_bootstrap_nodes : list string;
  dc_sync_interval : Z;
}.

Record DistributedStorage (S : Type) := mkDist {
  local_storage : S;
  ds_config : DistributedNodeConfig;
  ds_nodes : gmap string StorageNode;
  distribution_cache : gmap string BlindedStateEntry;
  sync_state : gmap string Z;
}.
Arguments mkDist {S}.
Arguments local_storage {S}.
Arguments ds_config {S}.
Arguments ds_nodes {S}.
Arguments distribution_cache {S}.
Arguments sync_state {S}.

Module Dist.
Section Dist.
Context {RT : Runtime} {DO : DashOrder} {S : Type} `{SE : StorageEngine S}.

Definition set_local (l : S) (s : DistributedStorage S) := mkDist l (ds_config s) (ds_nodes s) (distribution_cache s) (sync_state s).
Definition set_cache m (s : DistributedStorage S) := mkDist (local_storage s) (ds_config s) (ds_nodes s) m (sync_state s).

(** [new]; [uuid] is the fresh UUID of the node name, [replication_factor as u8] truncates. *)
Definition new (local : S) (node_id uuid : string) (storage_nodes : list StorageNode) (replication_factor : Z) : DistributedStorage S :=
  mkDist local (mkDistConfig node_id ("dsm-node-" +:+ uuid) "global" "http://localhost:3000" (replication_factor mod 256) 1 [] 60)
    (foldl (fun m n => <[sn_id n := n]> m) ∅ storage_nodes) ∅ ∅.

(** A call of the local engine. *)
Definition local {A} (m : NM S A) : NM (DistributedStorage S) A := fun s =>
  let '(o, l) := m (local_storage s) in (o, set_local l s).

Definition determine_responsible_nodes (s : DistributedStorage S) (id : string) : list StorageNode :=
  take (Z.to_nat (dc_replication_factor (ds_config s))) (dash_iter (ds_nodes s)).*2.

Definition store (e : BlindedStateEntry) : NM (DistributedStorage S) StorageResponse :=
  do* local (Engine.store e);
  do* mmod (fun s => set_cache (<[blinded_id e := e]> (distribution_cache s)) s);
  mret_st (mkResponse (blinded_id e) now "success" (Some "Entry stored successfully"%string)).

Definition retrieve (id : string) : NM (DistributedStorage S) (option BlindedStateEntry) :=
  let* r := local (Engine.retrieve id) in
  match r with Some e => mret_st (Some e) | None => mret_st None end.

Definition delete_entry (id : string) : NM (DistributedStorage S) bool := local (Engine.delete_entry id).

Definition exists_entry (id : string) : NM (DistributedStorage S) bool :=
  let* b := local (Engine.exists_entry id) in
  if b then mret_st true else mret_st false.

Definition list_ids (limit offset : option nat) : NM (DistributedStorage S) (list string) := local (Engine.list_ids limit offset).
Definition get_stats : NM (DistributedStorage S) StorageStats := local Engine.get_stats.

End Dist.
End Dist.

#[global] Instance dist_engine {RT : Runtime} {S : Type} `{SE : StorageEngine S} : StorageEngine (DistributedStorage S) := {|
  store := Dist.store;
  retrieve := Dist.retrieve;
  delete_entry := Dist.delete_entry;
  exists_entry := Dist.exists_entry;
  list_ids := Dist.list_ids;
  get_stats := Dist.get_stats;
|}.

(** ** Histories of commands *)

Inductive command :=
  | CStore (e : BlindedStateEntry)
  | CRetrieve (id : string)
  | CDelete (id : string)
  | CExists (id : string)
  | CList (limit offset : option nat)
  | CStats.

Inductive reply :=
  | RStored (r : nout StorageResponse)
  | RRetrieved (r : nout (option BlindedStateEntry))
  | RDeleted (r : nout bool)
  | RExists (r : nout bool)
  | RList (r : nout (list string))
  | RStats (r : nout StorageStats).

Definition exec {S : Type} `{SE : StorageEngine S} (c : command) (s : S) : reply * S :=
  match c with
  | CStore e => (RStored (fst (store e s)), snd (store e s))
  | CRetrieve id => (RRetrieved (fst (retrieve id s)), snd (retrieve id s))
  | CDelete id => (RDeleted (fst (delete_entry id s)), snd (delete_entry id s))
  | CExists id => (RExists (fst (exists_entry id s)), snd (exists_entry id s))
  | CList l o => (RList (fst (list_ids l o s)), snd (list_ids l o s))
  | CStats => (RStats (fst (get_stats s)), snd (get_stats s))
  end.

Fixpoint exec_all {S : Type} `{SE : StorageEngine S} (cs : list command) (s : S) : list (command * reply) * S :=
  match cs with
  | [] => ([], s)
  | c :: cs => let '(r, s') := exec c s in let '(h, s'') := exec_all cs s' in ((c, r) :: h, s'')
  end.

(** The abstract store: the acknowledged writes and deletions of a history. *)
Definition spec_step (m : gmap string BlindedStateEntry) (cr : command * reply) : gmap string BlindedStateEntry :=
  match cr with
  | (CStore e, RStored (Ok _)) => <[blinded_id e := e]> m
  | (CDelete id, RDeleted (Ok _)) => delete id m
  | _ => m
  end.

(** What a reply may say of the acknowledged contents [m]. *)
Definition reply_sound (m : gmap string BlindedStateEntry) (cr : command * reply) : Prop :=
  match cr with
  | (CRetrieve id, RRetrieved (Ok (Some e))) => m !! id = Some e
  | (CDelete id, RDeleted (Ok true)) => is_Some (m !! id)
  | (CExists id, RExists (Ok true)) => is_Some (m !! id)
  | (CList _ _, RList (Ok l)) => NoDup l ∧ ∀ id, id ∈ l → is_Some (m !! id)
  | _ => True
  end.

Fixpoint history_sound (m : gmap string BlindedStateEntry) (h : list (command * reply)) : Prop :=
  match h with
  | [] => True
  | cr :: h => reply_sound m cr ∧ history_sound (spec_step m cr) h
  end.

(** ** The history theorem, against the interface *)

Section History.
Context {S : Type} `{EL : EngineLaws S}.

Lemma exec_contents c (s : S) m : contents s ⊆ m →
  contents (snd (exec c s)) ⊆ spec_step m (c, fst (exec c s)).
Proof.
  intros Hm. destruct c as [e|id|id|id|l o|]; simpl.
  - destruct (fst (store e s)) as [r| | |] eqn:Hr.
    1: destruct (store_ok s e r Hr) as [_ Hsub]; etrans; [exact Hsub|by apply insert_mono].
    all: etrans; [apply store_failed; by rewrite Hr|done].
  - by rewrite retrieve_keeps.
  - destruct (fst (delete_entry id s)) as [b| | |] eqn:Hr.
    1: destruct (delete_ok s id b Hr) as [-> _]; by apply delete_mono.
    all: by rewrite delete_failed by (by rewrite Hr).
  - by rewrite exists_keeps.
  - by rewrite list_keeps.
  - by rewrite stats_keeps.
Qed.

Lemma exec_reply c (s : S) m : contents s ⊆ m → reply_sound m (c, fst (exec c s)).
Proof.
  intros Hm. assert (∀ id, is_Some (contents s !! id) → is_Some (m !! id)) as Hs.
  { intros id [x Hx]. exists x. by eapply lookup_weaken. }
  destruct c as [e|id|id|id|l o|]; simpl; try done.
  - destruct (fst (retrieve id s)) as [[e|]| | |] eqn:Hr; try done.
    apply retrieve_ok in Hr. eapply lookup_weaken; [symmetry; exact Hr|done].
  - destruct (fst (delete_entry id s)) as [[]| | |] eqn:Hr; try done.
    apply delete_ok in Hr as [_ Hb]. by eapply Hs, bool_decide_eq_true_1.
  - destruct (fst (exists_entry id s)) as [[]| | |] eqn:Hr; try done.
    apply exists_ok in Hr. by eapply Hs, bool_decide_eq_true_1.
  - destruct (fst (list_ids l o s)) as [ids| | |] eqn:Hr; try done.
    apply list_ok in Hr as [Hn Hl]. split; [done|]. intros id Hid. by apply Hs, Hl.
Qed.

Lemma exec_all_sound cs : ∀ (s : S) m, contents s ⊆ m →
  history_sound m (fst (exec_all cs s)) ∧ contents (snd (exec_all cs s)) ⊆ foldl spec_step m (fst (exec_all cs s)).
Proof.
  induction cs as [|c cs IH]; intros s m Hm; simpl; [done|].
  destruct (exec c s) as [r s'] eqn:He. destruct (exec_all cs s') as [h s''] eqn:Ha. simpl.
  pose proof (exec_reply c s m Hm) as Hr. pose proof (exec_contents c s m Hm) as Hc.
  rewrite He in Hr, Hc. simpl in *. destruct (IH s' _ Hc) as [Hh Hf]. rewrite Ha in Hh, Hf. done.
Qed.

End History.

(** ** The laws of the memory engine *)

Section MemLaws.
Context {RT : Runtime} {DO : DashOrder} {BE : Bincode BlindedStateEntry} {BP : Bincode (string * BlindedStateEntry)}.

Lemma evict_one_contents id s : entries (snd (Mem.evict_one id s)) = delete id (entries s).
Proof.
  unfold Mem.evict_one. destruct (entries s !! id) as [e|] eqn:He; simpl.
  - by destruct (Mem.size_of (id, e)).
  - by rewrite delete_id.
Qed.

Lemma evict_all_contents ids s : entries (snd (Mem.evict_all ids s)) ⊆ entries s.
Proof.
  revert s. induction ids as [|id ids IH]; intros s; [done|]. simpl. unfold mbind_st.
  pose proof (evict_one_contents id s) as Hone. destruct (Mem.evict_one id s) as [[[]| | |] s']; simpl in *.
  1: etrans; [apply IH|].
  all: rewrite Hone; apply delete_subseteq.
Qed.

Lemma evict_contents s : entries (snd (Mem.evict s)) ⊆ entries s.
Proof.
  unfold Mem.evict. destruct (Mem.within_limits s); [done|]. unfold mbind_st, mlift.
  destruct (Mem.to_evict s); try done. apply evict_all_contents.
Qed.

Lemma store_cases e s :
  (is_ok (fst (Mem.store e s)) = false ∧ entries (snd (Mem.store e s)) ⊆ entries s) ∨
  (∃ r, fst (Mem.store e s) = Ok r ∧
    entries (snd (Mem.store e s)) = <[blinded_id e := e]> (entries (snd (Mem.evict s)))).
Proof.
  unfold Mem.store, mbind_st, mlift, mmod, mret_st.
  destruct (Mem.size_of e) as [n| | |]; try (left; split; done).
  pose proof (evict_contents s). destruct (Mem.evict s) as [[[]| | |] s']; simpl in *; eauto.
Qed.

Lemma retrieve_contents id s : entries (snd (Mem.retrieve id s)) = entries s.
Proof.
  unfold Mem.retrieve, Mem.update_access_metrics, mbind_st, mlift, mmod, mret_st.
  destruct (entries s !! id); [|done]. simpl. destruct (access_counts s !! id); simpl; [|done].
  by destruct (n_add _ 1).
Qed.

Lemma retrieve_result id s r : fst (Mem.retrieve id s) = Ok r → r = entries s !! id.
Proof.
  unfold Mem.retrieve, Mem.update_access_metrics, mbind_st, mlift, mmod, mret_st.
  destruct (entries s !! id); simpl; [|by intros [= <-]].
  destruct (access_counts s !! id); simpl; [destruct (n_add _ 1)|]; simpl; intros H; try discriminate H;
    by apply Ok_inj in H.
Qed.

Lemma list_result s lim off l : fst (Mem.list_ids lim off s) = Ok l →
  NoDup l ∧ ∀ id, id ∈ l → is_Some (entries s !! id).
Proof.
  unfold Mem.list_ids. simpl. intros H. apply Ok_inj in H. subst l.
  set (l := (dash_iter (entries s)).*1). unfold sort_strings.
  assert (l ≡ₚ (map_to_list (entries s)).*1) as Hp by (unfold l; by rewrite dash_iter_perm).
  assert (take (unwrap_or 100%nat lim) (drop (unwrap_or 0%nat off) l) `sublist_of` l) as Hsub
    by (etrans; [apply sublist_take|apply sublist_drop]).
  split.
  - rewrite merge_sort_Permutation. eapply sublist_NoDup; [|exact Hsub]. rewrite Hp. apply NoDup_fst_map_to_list.
  - intros id. rewrite merge_sort_Permutation. intros Hid.
    eapply elem_of_submseteq in Hid; [|by apply sublist_submseteq, Hsub].
    rewrite Hp in Hid. apply list_elem_of_fmap in Hid as ([k x] & -> & Hx%elem_of_map_to_list). eauto.
Qed.

#[global] Instance mem_laws : EngineLaws MemoryStorage.
Proof.
  refine {| contents := entries |}; simpl.
  - intros s e r Hr. destruct (store_cases e s) as [[Hf _]|(r' & _ & ->)]; [by rewrite Hr in Hf|].
    split; [apply lookup_insert_eq|apply insert_mono, evict_contents].
  - intros s e Hf. destruct (store_cases e s) as [[_ Hs]|(r' & Hr & _)]; [done|by rewrite Hr in Hf].
  - intros s id. apply retrieve_contents.
  - intros s id r. apply retrieve_result.
  - intros s id b. unfold Mem.delete_entry. destruct (entries s !! id) eqn:He; simpl; intros H; apply Ok_inj in H; subst b.
    + done.
    + split; [by rewrite delete_id|done].
  - intros s id. unfold Mem.delete_entry. by destruct (entries s !! id).
  - done.
  - intros s id b H. by apply Ok_inj in H.
  - done.
  - apply list_result.
  - done.
Defined.

End MemLaws.

(** ** The laws of the distributed engine *)

Section DistLaws.
Context {RT : Runtime} {DO : DashOrder} {S : Type} `{EL : EngineLaws S}.

Lemma local_fst {A} (m : NM S A) s : fst (Dist.local m s) = fst (m (local_storage s)).
Proof. unfold Dist.local. by destruct (m (local_storage s)). Qed.
Lemma local_snd {A} (m : NM S A) s : local_storage (snd (Dist.local m s)) = snd (m (local_storage s)).
Proof. unfold Dist.local. by destruct (m (local_storage s)). Qed.

Lemma dist_store e (s : DistributedStorage S) :
  local_storage (snd (Dist.store e s)) = snd (store e (local_storage s)) ∧
  is_ok (fst (Dist.store e s)) = is_ok (fst (store e (local_storage s))).
Proof.
  unfold Dist.store, mbind_st. pose proof (local_fst (store e) s) as H1. pose proof (local_snd (store e) s) as H2.
  destruct (Dist.local (store e) s) as [[r| | |] s']; simpl in *; by rewrite <-H1, <-H2.
Qed.

Lemma dist_retrieve id (s : DistributedStorage S) :
  local_storage (snd (Dist.retrieve id s)) = snd (retrieve id (local_storage s)) ∧
  fst (Dist.retrieve id s) = fst (retrieve id (local_storage s)).
Proof.
  unfold Dist.retrieve, mbind_st. pose proof (local_fst (retrieve id) s) as H1. pose proof (local_snd (retrieve id) s) as H2.
  destruct (Dist.local (retrieve id) s) as [[[]| | |] s']; simpl in *; by rewrite <-H1, <-H2.
Qed.

Lemma dist_exists id (s : DistributedStorage S) :
  local_storage (snd (Dist.exists_entry id s)) = snd (exists_entry id (local_storage s)) ∧
  fst (Dist.exists_entry id s) = fst (exists_entry id (local_storage s)).
Proof.
  unfold Dist.exists_entry, mbind_st. pose proof (local_fst (exists_entry id) s) as H1.
  pose proof (local_snd (exists_entry id) s) as H2.
  destruct (Dist.local (exists_entry id) s) as [[[]| | |] s']; simpl in *; by rewrite <-H1, <-H2.
Qed.

#[global] Instance dist_laws : EngineLaws (DistributedStorage S).
Proof.
  refine {| contents := fun s => contents (local_storage s) |}; simpl.
  - intros s e r Hr. destruct (dist_store e s) as [-> Hok]. rewrite Hr in Hok. simpl in Hok.
    destruct (fst (store e (local_storage s))) as [r'| | |] eqn:Hr'; try discriminate Hok.
    by eapply store_ok.
  - intros s e Hf. destruct (dist_store e s) as [-> Hok]. rewrite Hf in Hok. by apply store_failed.
  - intros s id. destruct (dist_retrieve id s) as [-> _]. apply retrieve_keeps.
  - intros s id r. destruct (dist_retrieve id s) as [_ ->]. apply retrieve_ok.
  - intros s id b. unfold Dist.delete_entry. rewrite local_fst, local_snd. apply delete_ok.
  - intros s id. unfold Dist.delete_entry. rewrite local_fst, local_snd. apply delete_failed.
  - intros s id. destruct (dist_exists id s) as [-> _]. apply exists_keeps.
  - intros s id b. destruct (dist_exists id s) as [_ ->]. apply exists_ok.
  - intros s lim off. unfold Dist.list_ids. rewrite local_snd. apply list_keeps.
  - intros s lim off l. unfold Dist.list_ids. rewrite local_fst. apply list_ok.
  - intros s. unfold Dist.get_stats. rewrite local_snd. apply stats_keeps.
Defined.

End DistLaws.

(** C13: a distributed engine over a memory engine never serves stale or invented
    data: along any history of commands from a fresh pair, failures included,
    what [retrieve], [exists], [delete] and [list] report is contained in the
    store the acknowledged writes and deletions define, and so are the contents
    after it.  Evictions may only lose entries. *)
Theorem distributed_history_sound {RT : Runtime} {DO : DashOrder} {BE : Bincode BlindedStateEntry}
    {BP : Bincode (string * BlindedStateEntry)} (config : MemoryStorageConfig) (node_id uuid : string)
    (nodes : list StorageNode) (replication : Z) (cs : list command) :
  let s0 := Dist.new (Mem.new config None) node_id uuid nodes replication in
  let '(h, s) := exec_all cs s0 in
  history_sound ∅ h ∧ entries (local_storage s) ⊆ foldl spec_step ∅ h.
Proof.
  intros s0. destruct (exec_all cs s0) as [h s] eqn:He.
  assert (contents s0 ⊆ (∅ : gmap string BlindedStateEntry)) as H0.
  { unfold s0, Mem.new. simpl. by destruct (persistence_path config). }
  pose proof (exec_all_sound cs s0 ∅ H0) as Hs. by rewrite He in Hs.
Qed.

(** ** Within its limits the memory engine is the abstract store *)

(** The bytes a command adds to the counter. *)
Definition cost {BE : Bincode BlindedStateEntry} (c : command) : Z :=
  match c with
  | CStore e => match serialize e with Some b => Z.of_nat (length b) | None => 0 end
  | _ => 0
  end.
Definition total_cost {BE : Bincode BlindedStateEntry} (cs : list command) : Z := foldr (fun c n => cost c + n) 0 cs.
Definition store_count (cs : list command) : Z :=
  Z.of_nat (length (List.filter (fun c => match c with CStore _ => true | _ => false end) cs)).

Definition reply_exact (m : gmap string BlindedStateEntry) (cr : command * reply) : Prop :=
  match cr with
  | (CRetrieve id, RRetrieved (Ok r)) => r = m !! id
  | (CDelete id, RDeleted r) => r = Ok (bool_decide (is_Some (m !! id)))
  | (CExists id, RExists r) => r = Ok (bool_decide (is_Some (m !! id)))
  | _ => True
  end.
Fixpoint history_exact (m : gmap string BlindedStateEntry) (h : list (command * reply)) : Prop :=
  match h with
  | [] => True
  | cr :: h => reply_exact m cr ∧ history_exact (spec_step m cr) h
  end.

Section MemExact.
Context {RT : Runtime} {DO : DashOrder} {BE : Bincode BlindedStateEntry} {BP : Bincode (string * BlindedStateEntry)}.

Lemma cost_nonneg c : 0 ≤ cost c.
Proof. destruct c; simpl; try lia. case_match; lia. Qed.
Lemma total_cost_nonneg cs : 0 ≤ total_cost cs.
Proof. induction cs as [|c cs IH]; simpl; [lia|]. pose proof (cost_nonneg c). lia. Qed.

Definition grows (c : command) : nat := match c with CStore _ => 1%nat | _ => 0%nat end.

Lemma retrieve_frame id s :
  ms_config (snd (Mem.retrieve id s)) = ms_config s ∧ ms_total_bytes (snd (Mem.retrieve id s)) = ms_total_bytes s.
Proof.
  unfold Mem.retrieve, Mem.update_access_metrics, mbind_st, mlift, mmod, mret_st.
  destruct (entries s !! id); [|done]. simpl. destruct (access_counts s !! id); simpl; [|done].
  by destruct (n_add _ 1).
Qed.

Lemma delete_frame id s :
  ms_config (snd (Mem.delete_entry id s)) = ms_config s ∧ ms_total_bytes (snd (Mem.delete_entry id s)) = ms_total_bytes s ∧
  entries (snd (Mem.delete_entry id s)) = delete id (entries s).
Proof. unfold Mem.delete_entry. destruct (entries s !! id) eqn:?; simpl; split_and!; try done. by rewrite delete_id. Qed.

Lemma store_roomy e s : Mem.within_limits s = true →
  Mem.store e s =
    match serialize e with
    | Some b => (Ok (mkResponse (blinded_id e) now "success" (Some "Entry stored successfully"%string)),
        Mem.set_order (insertion_order s ++ [blinded_id e]) (Mem.set_bytes (wrap_add (ms_total_bytes s) (Z.of_nat (length b)))
          (Mem.set_entries (<[blinded_id e := e]> (entries s)) s)))
    | None => (Err (NSerialization ""), s)
    end.
Proof.
  intros Hl. unfold Mem.store, mbind_st, mlift, Mem.size_of, Mem.evict, mmod, mret_st.
  destruct (serialize e); [|done]. by rewrite Hl.
Qed.

Lemma exec_exact c s : Mem.within_limits s = true → 0 ≤ ms_total_bytes s → ms_total_bytes s + cost c ≤ u64_max →
  let '(r, s') := exec c s in
  reply_exact (entries s) (c, r) ∧ entries s' = spec_step (entries s) (c, r) ∧
  ms_config s' = ms_config s ∧ ms_total_bytes s' = ms_total_bytes s + cost c ∧
  (size (entries s') ≤ size (entries s) + grows c)%nat.
Proof.
  intros Hl H0 Hb. destruct c as [e|id|id|id|l o|]; simpl in *.
  - rewrite store_roomy by done. destruct (serialize e) as [b|]; simpl in *.
    + unfold wrap_add. rewrite Z.mod_small by (unfold u64_max in *; lia). split_and!; try done.
      rewrite map_size_insert. case_match; unfold Datatypes.id; lia.
    + split_and!; (done || lia).
  - destruct (retrieve_frame id s) as [-> ->]. rewrite retrieve_contents. split_and!; try (done || lia).
    destruct (fst (Mem.retrieve id s)) eqn:Hr; try done. by apply retrieve_result.
  - destruct (delete_frame id s) as (-> & -> & ->).
    assert (fst (Mem.delete_entry id s) = Ok (bool_decide (is_Some (entries s !! id)))) as ->.
    { unfold Mem.delete_entry. by destruct (entries s !! id). }
    simpl. rewrite map_size_delete. split_and!; try (done || lia). case_match; unfold Datatypes.id; lia.
  - split_and!; (done || lia).
  - split_and!; (done || lia).
  - split_and!; (done || lia).
Qed.

Lemma store_count_cons c cs : store_count (c :: cs) = Z.of_nat (grows c) + store_count cs.
Proof. unfold store_count. destruct c; simpl; lia. Qed.

Lemma exec_all_exact cs : ∀ s, 0 ≤ ms_total_bytes s → max_memory_bytes (ms_config s) ≤ u64_max →
  ms_total_bytes s + total_cost cs ≤ max_memory_bytes (ms_config s) →
  Z.of_nat (size (entries s)) + store_count cs ≤ max_entries (ms_config s) →
  let '(h, s') := exec_all cs s in history_exact (entries s) h ∧ entries s' = foldl spec_step (entries s) h.
Proof.
  induction cs as [|c cs IH]; intros s H0 Hm Hb Hn; simpl; [done|].
  rewrite store_count_cons in Hn. simpl in Hb. pose proof (total_cost_nonneg cs). pose proof (cost_nonneg c).
  assert (0 ≤ store_count cs) by (unfold store_count; lia).
  pose proof (exec_exact c s) as Hc. destruct (exec c s) as [r s'].
  destruct Hc as (Hr & He & Hcfg & Hby & Hsz); [|lia..|].
  { unfold Mem.within_limits. apply andb_true_iff. rewrite !Z.leb_le. lia. }
  specialize (IH s'). rewrite Hcfg, Hby in IH. destruct (exec_all cs s') as [h s''].
  destruct IH as [Hh Hf]; [lia..|]. rewrite He in Hh, Hf. done.
Qed.

(** C21: while the stored bytes and the number of stores stay within the limits of
    its configuration, the memory engine is the abstract store: nothing is
    evicted, every [retrieve] that returns gives the last acknowledged write or
    nothing, and [exists] and [delete] always answer and answer exactly. *)
Theorem memory_exact_within_limits (config : MemoryStorageConfig) (cs : list command)
    (Hmax : max_memory_bytes config ≤ u64_max)
    (Hbytes : total_cost cs ≤ max_memory_bytes config) (Hcount : store_count cs ≤ max_entries config) :
  let '(h, s) := exec_all cs (Mem.new config None) in
  history_exact ∅ h ∧ entries s = foldl spec_step ∅ h.
Proof.
  assert (Mem.new config None = mkMem ∅ 0 config ∅ ∅ []) as ->.
  { unfold Mem.new. by destruct (persistence_path config). }
  apply (exec_all_exact cs (mkMem ∅ 0 config ∅ ∅ [])); simpl; [done|done|lia|].
  rewrite map_size_empty. simpl. lia.
Qed.

End MemExact.

(** ** Eviction *)

Section Eviction.
Context {RT : Runtime} {DO : DashOrder} {BE : Bincode BlindedStateEntry} {BP : Bincode (string * BlindedStateEntry)}.

#[global] Instance by_value_total : Total Mem.by_value.
Proof. intros p q. unfold Mem.by_value. lia. Qed.
#[global] Instance by_value_trans : Transitive Mem.by_value.
Proof. intros p q r. unfold Mem.by_value. lia. Qed.

Lemma mapM_ages l l' : mapM (fun p : string * Z => age ← n_sub now p.2; Ok (p.1, age)) l = @Ok StorageNodeError _ l' →
  l' = map (fun p => (p.1, now - p.2)) l.
Proof.
  revert l'. induction l as [|[k t] l IH]; intros l'; simpl; [by intros [= <-]|].
  unfold n_sub. case_test; simpl; [|discriminate].
  destruct (mapM _ l) as [l''| | |] eqn:Hl; simpl; try discriminate. intros [= <-]. by rewrite (IH l'').
Qed.

Lemma evict_all_removed ids s s' id : Mem.evict_all ids s = (Ok tt, s') →
  entries s' !! id = if decide (id ∈ ids) then None else entries s !! id.
Proof.
  revert s. induction ids as [|i ids IH]; intros s; simpl.
  { intros [= <-]. done. }
  unfold mbind_st. pose proof (evict_one_contents i s) as Hone.
  destruct (Mem.evict_one i s) as [[[]| | |] s1]; try discriminate. simpl in Hone.
  intros ->%IH. rewrite Hone. destruct (decide (id = i)) as [->|Hne].
  - rewrite lookup_delete_eq. repeat destruct (decide _); set_solver.
  - rewrite lookup_delete_ne by done. repeat destruct (decide _); set_solver.
Qed.

(** Under the LRU policy an eviction removes the entries read most recently:
    a removed entry had been retrieved, and no surviving entry was retrieved
    later than it; an entry that was never retrieved is never evicted. *)
Theorem lru_evicts_most_recently_used (s s' : MemoryStorage) (id : string)
    (Hpol : eviction_policy (ms_config s) = LRU) (Hev : Mem.evict s = (Ok tt, s'))
    (Hold : is_Some (entries s !! id)) (Hgone : entries s' !! id = None) :
  ∃ t, last_accessed s !! id = Some t ∧
    ∀ id' t', is_Some (entries s' !! id') → last_accessed s !! id' = Some t' → t' ≤ t.
Proof.
  unfold Mem.evict in Hev. destruct (Mem.within_limits s).
  { injection Hev as <-. destruct Hold. congruence. }
  unfold mbind_st, mlift, Mem.to_evict in Hev. rewrite Hpol in Hev.
  destruct (Mem.ages s) as [l| | |] eqn:Hl; simpl in Hev; try discriminate.
  apply mapM_ages in Hl. set (srt := merge_sort Mem.by_value l) in *.
  assert (∀ k a, (k, a) ∈ srt ↔ last_accessed s !! k = Some (now - a)) as Hin.
  { intros k a. unfold srt. rewrite merge_sort_Permutation, Hl, dash_iter_perm, list_elem_of_fmap.
    split.
    - intros ([k' t] & [= -> ->] & Hx%elem_of_map_to_list). simpl in *. rewrite Hx. f_equal. lia.
    - intros Hx. exists (k, now - a). split; [simpl; f_equal; lia|]. by apply elem_of_map_to_list. }
  assert (StronglySorted Mem.by_value srt) as Hss by apply (StronglySorted_merge_sort Mem.by_value).
  assert (id ∈ take 100 srt.*1) as Hid.
  { rewrite (evict_all_removed _ _ _ id Hev) in Hgone. destruct (decide _); [done|].
    destruct Hold. congruence. }
  rewrite <-fmap_take in Hid. apply list_elem_of_fmap in Hid as ([k a] & -> & Hka). simpl.
  exists (now - a). split; [apply Hin; rewrite <-(take_drop 100 srt); set_solver|].
  intros id' t' [e' He'] Ht'.
  rewrite (evict_all_removed _ _ _ id' Hev) in He'. destruct (decide _) as [|Hnot]; [done|].
  assert ((id', now - t') ∈ srt) as Hs by (apply Hin; rewrite Ht'; f_equal; lia).
  rewrite <-(take_drop 100 srt), elem_of_app in Hs. destruct Hs as [Hs|Hs].
  { destruct Hnot. rewrite <-fmap_take. apply list_elem_of_fmap. eexists (_, _). done. }
  pose proof (sorted_take_drop Mem.by_value 100 srt _ _ Hss Hka Hs) as Hle. unfold Mem.by_value in Hle. simpl in Hle. lia.
Qed.

(** An eviction that finds no victims changes nothing. *)
Lemma evict_nothing s : (∀ ids, Mem.to_evict s = Ok ids → ∀ id, id ∈ ids → entries s !! id = None) →
  is_ok (Mem.to_evict s) = true → Mem.evict s = (Ok tt, s).
Proof.
  intros Hnone Hok. unfold Mem.evict. destruct (Mem.within_limits s); [done|]. unfold mbind_st, mlift.
  destruct (Mem.to_evict s) as [ids| | |]; try discriminate. specialize (Hnone ids eq_refl). clear Hok.
  induction ids as [|id ids IH]; [done|]. simpl. unfold mbind_st, Mem.evict_one.
  rewrite Hnone by set_solver. apply IH. set_solver.
Qed.

Lemma unread_evict s : eviction_policy (ms_config s) ≠ FIFO → access_counts s = ∅ → last_accessed s = ∅ →
  Mem.evict s = (Ok tt, s).
Proof.
  intros Hpol Hc Hl. apply evict_nothing.
  - intros ids. unfold Mem.to_evict, Mem.ages. rewrite Hc, Hl, !dash_iter_empty.
    destruct (eviction_policy (ms_config s)); [| |done]; simpl; intros H; apply Ok_inj in H; subst ids; intros id Hid;
      by apply not_elem_of_nil in Hid.
  - unfold Mem.to_evict, Mem.ages. rewrite Hc, Hl, !dash_iter_empty. by destruct (eviction_policy (ms_config s)).
Qed.

Lemma store_no_evict e s b : serialize e = Some b → Mem.evict s = (Ok tt, s) →
  Mem.store e s = (Ok (mkResponse (blinded_id e) now "success" (Some "Entry stored successfully"%string)),
        Mem.set_order (insertion_order s ++ [blinded_id e]) (Mem.set_bytes (wrap_add (ms_total_bytes s) (Z.of_nat (length b)))
          (Mem.set_entries (<[blinded_id e := e]> (entries s)) s))).
Proof. intros Hb He. unfold Mem.store, mbind_st, mlift, Mem.size_of, mmod, mret_st. by rewrite Hb, He. Qed.

Lemma unread_stores `{!BincodeTotal BlindedStateEntry} es : ∀ s,
  eviction_policy (ms_config s) ≠ FIFO → access_counts s = ∅ → last_accessed s = ∅ →
  entries (snd (exec_all (map CStore es) s)) = foldl (fun m e => <[blinded_id e := e]> m) (entries s) es.
Proof.
  induction es as [|e es IH]; intros s Hpol Hc Hl; [done|]. simpl.
  destruct (bincode_total e) as [b Hb].
  pose proof (store_no_evict e s b Hb (unread_evict s Hpol Hc Hl)) as ->. simpl.
  match goal with |- context [exec_all _ ?s0] => specialize (IH s0) end.
  destruct (exec_all (map CStore es) _) as [h s'']. simpl in *. by apply IH.
Qed.

Lemma inserts_size es (m : gmap string BlindedStateEntry) : NoDup (map blinded_id es) →
  (∀ e, e ∈ es → m !! blinded_id e = None) →
  size (foldl (fun m e => <[blinded_id e := e]> m) m es) = (size m + length es)%nat.
Proof.
  revert m. induction es as [|e es IH]; intros m Hn Hm; simpl; [lia|].
  apply NoDup_cons in Hn as [He Hn]. rewrite IH; [|done|].
  - rewrite map_size_insert_None by (apply Hm; set_solver). lia.
  - intros e' He'. rewrite lookup_insert_ne; [apply Hm; set_solver|].
    intros Heq. apply He. apply list_elem_of_fmap. exists e'. eauto.
Qed.

(** Under LRU and LFU the limits bound nothing while nobody reads: any number
    of stores of different entries is kept, whatever [max_entries] and
    [max_memory_bytes] are, since only retrieved entries are candidates. *)
Theorem unread_entries_never_evicted `{!BincodeTotal BlindedStateEntry} (config : MemoryStorageConfig)
    (es : list BlindedStateEntry) (Hpol : eviction_policy config ≠ FIFO) (Hids : NoDup (map blinded_id es)) :
  size (entries (snd (exec_all (map CStore es) (Mem.new config None)))) = length es.
Proof.
  assert (Mem.new config None = mkMem ∅ 0 config ∅ ∅ []) as ->.
  { unfold Mem.new. by destruct (persistence_path config). }
  rewrite unread_stores by done. simpl. rewrite inserts_size by done. by rewrite map_size_empty.
Qed.

(** The front of the insertion order, once gone, blocks the FIFO policy. *)
Definition stalled (s : MemoryStorage) : Prop :=
  eviction_policy (ms_config s) = FIFO ∧ (100 ≤ length (insertion_order s))%nat ∧
  ∀ id, id ∈ take 100 (insertion_order s) → entries s !! id = None.

(** The FIFO policy stops for good: the insertion order is never shortened, so
    once the first hundred identifiers in it are gone, storing any further
    entries (under other identifiers) evicts nothing and they all stay. *)
Theorem fifo_eviction_stalls `{!BincodeTotal BlindedStateEntry} (s : MemoryStorage) (es : list BlindedStateEntry)
    (Hst : stalled s) (Hfresh : ∀ e, e ∈ es → blinded_id e ∉ take 100 (insertion_order s)) :
  let s' := snd (exec_all (map CStore es) s) in
  stalled s' ∧ entries s' = foldl (fun m e => <[blinded_id e := e]> m) (entries s) es.
Proof.
  revert s Hst Hfresh. induction es as [|e es IH]; intros s Hst Hfresh; [done|]. simpl.
  destruct (bincode_total e) as [b Hb]. destruct Hst as (Hpol & Hlen & Hgone).
  assert (Mem.evict s = (Ok tt, s)) as Hev.
  { apply evict_nothing; unfold Mem.to_evict; rewrite Hpol; [|done].
    intros ids H. apply Ok_inj in H. subst ids. exact Hgone. }
  pose proof (store_no_evict e s b Hb Hev) as ->. simpl.
  match goal with |- context [exec_all _ ?s0] => specialize (IH s0) end.
  destruct (exec_all (map CStore es) _) as [h s'']. simpl in *.
  assert (take 100 (insertion_order s ++ [blinded_id e]) = take 100 (insertion_order s)) as Htk by by apply take_app_le.
  apply IH; rewrite ?Htk.
  - unfold stalled. simpl. rewrite Htk. split_and!; [done|rewrite length_app; simpl; lia|].
    intros id Hid. rewrite lookup_insert_ne; [by apply Hgone|]. intros Heq. apply (Hfresh e); [set_solver|by rewrite Heq].
  - intros e' He'. apply Hfresh. set_solver.
Qed.

(** bincode writes a pair as its parts and a string as its length in eight bytes
    and its bytes. *)
Class BincodePair : Prop :=
  bincode_pair id e b : serialize e = Some b →
    ∃ p, serialize (id, e) = Some p ∧ length p = (8 + String.length id + length b)%nat.

(** The byte counter leaves the contents.  A deletion does not give bytes
    back, and an eviction gives back more than the store took: it subtracts the
    size of the pair of key and entry, so that after evicting its only entry the
    counter of an empty store has wrapped around below zero. *)
Theorem byte_counter_drifts `{!BincodePair} (config : MemoryStorageConfig) (e : BlindedStateEntry) (b : bytes)
    (Hb : serialize e = Some b) (Hsize : 8 + Z.of_nat (String.length (blinded_id e)) + Z.of_nat (length b) < 2 ^ 64)
    (Hfits : 0 ≤ max_entries config ∧ 0 ≤ max_memory_bytes config) :
  let s1 := snd (Mem.store e (Mem.new config None)) in
  (entries s1 = {[blinded_id e := e]} ∧ ms_total_bytes s1 = Z.of_nat (length b)) ∧
  (let s2 := snd (Mem.delete_entry (blinded_id e) s1) in
   entries s2 = ∅ ∧ ms_total_bytes s2 = Z.of_nat (length b)) ∧
  (let s3 := snd (Mem.evict_one (blinded_id e) s1) in
   entries s3 = ∅ ∧ ms_total_bytes s3 = 2 ^ 64 - (8 + Z.of_nat (String.length (blinded_id e)))).
Proof.
  assert (Mem.new config None = mkMem ∅ 0 config ∅ ∅ []) as ->.
  { unfold Mem.new. by destruct (persistence_path config). }
  rewrite store_roomy, Hb.
  2: { unfold Mem.within_limits. simpl. rewrite map_size_empty. apply andb_true_iff. rewrite !Z.leb_le. simpl. lia. }
  assert (wrap_add 0 (Z.of_nat (length b)) = Z.of_nat (length b)) as Hw.
  { unfold wrap_add. rewrite Z.mod_small; lia. }
  simpl. rewrite Hw. split_and!; try done.
  - unfold Mem.delete_entry. simpl. rewrite insert_empty, lookup_singleton_eq. simpl. by rewrite delete_singleton_eq.
  - unfold Mem.delete_entry. simpl. by rewrite insert_empty, lookup_singleton_eq.
  - rewrite evict_one_contents. simpl. by rewrite insert_empty, delete_singleton_eq.
  - unfold Mem.evict_one. simpl. rewrite insert_empty, lookup_singleton_eq. unfold Mem.size_of.
    destruct (bincode_pair (blinded_id e) e b Hb) as (p & -> & Hp). simpl. rewrite Hp. unfold wrap_sub.
    symmetry. apply Z.mod_unique with (-1); lia.
Qed.
End Eviction.

(** ** Witnesses *)

Lemma length_str_bytes s : length (str_bytes s) = String.length s.
Proof. unfold str_bytes, String.list_byte_of_string. rewrite length_map. induction s; simpl; [done|]. by f_equal. Qed.

Module EngineWitness.
Definition enc (e : BlindedStateEntry) : bytes := str_bytes (blinded_id e) ++ encrypted_payload e.
#[global] Instance toy_bincode_entry : Bincode BlindedStateEntry := fun e => Some (enc e).
#[global] Instance toy_bincode_pair : Bincode (string * BlindedStateEntry) := fun p =>
  Some (u64_le (Z.of_nat (String.length p.1)) ++ str_bytes p.1 ++ enc p.2).
#[global] Instance toy_order : DashOrder := {| dash_iter A := map_to_list; dash_iter_perm A m := reflexivity _ |}.
#[global] Instance toy_total : BincodeTotal BlindedStateEntry.
Proof. intros e. by eexists. Qed.
#[global] Instance toy_pair_law : BincodePair.
Proof.
  intros id e b Hb. injection Hb as <-. eexists. split; [reflexivity|]. rewrite !length_app, length_str_bytes.
  change (length (u64_le (Z.of_nat (String.length (id, e).1)))) with 8%nat. simpl. lia.
Qed.
Definition e1 : BlindedStateEntry := mkEntry "a" [Byte.x01] 0 0 "eu" 0 [] ∅.
Definition e2 : BlindedStateEntry := mkEntry "b" [Byte.x02] 0 0 "eu" 0 [] ∅.
Definition tight (p : EvictionPolicy) : MemoryStorageConfig := mkMemConfig 1000 0 None p "" None.
Definition roomy : MemoryStorageConfig := mkMemConfig 1000 10 None LRU "" None.
End EngineWitness.
Import EngineWitness.
#[local] Existing Instance Toy.toy_runtime.

Lemma memory_exact_within_limits_witness :
  total_cost [CStore e1; CDelete "a"; CStore e2; CRetrieve "b"] ≤ 1000 ∧
  entries (snd (exec_all [CStore e1; CDelete "a"; CStore e2; CRetrieve "b"] (Mem.new roomy None))) !! "b"%string = Some e2.
Proof.
  split; [vm_compute; discriminate|].
  pose proof (memory_exact_within_limits roomy [CStore e1; CDelete "a"; CStore e2; CRetrieve "b"]
    ltac:(vm_compute; discriminate) ltac:(vm_compute; discriminate) ltac:(vm_compute; discriminate)) as H.
  destruct (exec_all _ _) as [h s] eqn:He. destruct H as [_ H]. cbn [snd]. rewrite H.
  apply (f_equal fst) in He. vm_compute in He. subst h. vm_compute. reflexivity.
Defined.

Lemma unread_entries_never_evicted_witness :
  max_entries (tight LRU) = 0 ∧ size (entries (snd (exec_all (map CStore [e1; e2]) (Mem.new (tight LRU) None)))) = 2%nat.
Proof.
  split; [done|]. apply (unread_entries_never_evicted (tight LRU) [e1; e2]); [done|].
  apply (bool_decide_unpack _). vm_compute. exact I.
Defined.

Module LruWitness.
(** Two entries, the second read last, over a limit of none. *)
Definition before : MemoryStorage := mkMem {["a" := e1; "b" := e2]} 10 (tight LRU) {["b" := 1]} {["b" := 1600000000]} ["a"; "b"]%string.
Definition after : MemoryStorage := Eval vm_compute in snd (Mem.evict before).
End LruWitness.

Lemma lru_evicts_most_recently_used_witness :
  Mem.evict LruWitness.before = (Ok tt, LruWitness.after) ∧ entries LruWitness.after !! "a"%string = Some e1 ∧
  ∃ t, last_accessed LruWitness.before !! "b"%string = Some t.
Proof.
  assert (Mem.evict LruWitness.before = (Ok tt, LruWitness.after)) as He by (vm_compute; reflexivity).
  split_and!; [exact He|vm_compute; reflexivity|].
  destruct (lru_evicts_most_recently_used LruWitness.before LruWitness.after "b" ltac:(reflexivity) He
    ltac:(vm_compute; eexists; reflexivity) ltac:(vm_compute; reflexivity)) as (t & Ht & _).
  exists t. exact Ht.
Defined.

Module FifoWitness.
Definition stuck : MemoryStorage := mkMem ∅ 0 (tight FIFO) ∅ ∅ (replicate 100 "a"%string).
End FifoWitness.

Lemma fifo_eviction_stalls_witness :
  stalled FifoWitness.stuck ∧ entries (snd (exec_all (map CStore [e2]) FifoWitness.stuck)) = {["b"%string := e2]}.
Proof.
  assert (stalled FifoWitness.stuck) as Hst.
  { split_and!; [reflexivity|apply Nat.leb_le; vm_compute; reflexivity|]. intros id _. apply lookup_empty. }
  split; [exact Hst|]. refine (proj2 (fifo_eviction_stalls FifoWitness.stuck [e2] Hst _)).
  intros e ->%list_elem_of_singleton. apply (bool_decide_unpack _). vm_compute. exact I.
Defined.

Lemma byte_counter_drifts_witness :
  ms_total_bytes (snd (Mem.evict_one "a" (snd (Mem.store e1 (Mem.new roomy None))))) = 2 ^ 64 - 9.
Proof.
  assert (serialize e1 = Some (enc e1)) as Hb by reflexivity.
  pose proof (byte_counter_drifts roomy e1 (enc e1) Hb ltac:(vm_compute; reflexivity)
    ltac:(split; vm_compute; discriminate)) as (_ & _ & _ & Hw).
  exact Hw.
Defined.
