(* ===== verification/Float.v ===== *)
(** * Double-precision numbers

    The f64 operations of the source, by the executable specification of IEEE 754
    arithmetic of the Standard Library (53 bits of precision, exponents below
    1024, round to nearest even), and the saturating [as] casts. *)
From S2P Require Import Prelude.
From Stdlib Require Export SpecFloat.

Abbreviation f64 := spec_float.

Definition f64_zero : f64 := S754_zero false.
(** [n as f64] of an integer *)
Definition f64_of_Z (n : Z) : f64 := binary_normalize 53 1024 n 0 false.
Definition f64_add : f64 → f64 → f64 := SFadd 53 1024.
Definition f64_sub : f64 → f64 → f64 := SFsub 53 1024.
Definition f64_mul : f64 → f64 → f64 := SFmul 53 1024.
Definition f64_div : f64 → f64 → f64 := SFdiv 53 1024.
(** A decimal literal [n / d], correctly rounded. *)
Definition f64_lit (n d : Z) : f64 := f64_div (f64_of_Z n) (f64_of_Z d).
Definition f64_ltb : f64 → f64 → bool := SFltb.
Definition f64_leb : f64 → f64 → bool := SFleb.

(** [x as u64]: NaN is 0, otherwise truncated towards zero and saturated. *)
Definition f64_to_u64 (x : f64) : Z :=
  match x with
  | S754_finite false m e => Z.min (Z.shiftl (Zpos m) e) u64_max
  | S754_infinity false => u64_max
  | _ => 0
  end.

Lemma f64_to_u64_ok x : u64_ok (f64_to_u64 x).
Proof.
  unfold u64_ok, u64_max. destruct x as [| [] | |[] m e]; cbn -[Z.shiftl Z.pow]; unfold u64_max; try lia.
  assert (0 ≤ Z.shiftl (Z.pos m) e) by (apply Z.shiftl_nonneg; lia). lia.
Qed.
