(* ===== verification/Keys.v ===== *)
(** * Byte strings as numbers

    The comparisons, distances and sorts the storage node makes on 32-byte
    identifiers and byte boundaries: the lexicographic order of slices, the
    exclusive or, the big-endian value that explains both, and the stable sort
    of [slice::sort_by_key]. *)
From S2P Require Import Prelude.
From coqutil Require Byte.
Import coqutil.Byte.

(** ** Slices *)

Abbreviation u8_val := byte.unsigned.

(** [Ord] on byte slices *)
Fixpoint bytes_cmp (a b : bytes) : comparison :=
  match a, b with
  | [], [] => Eq
  | [], _ :: _ => Lt
  | _ :: _, [] => Gt
  | x :: a, y :: b => match u8_val x ?= u8_val y with Eq => bytes_cmp a b | c => c end
  end.
Definition bytes_ltb (a b : bytes) : bool := match bytes_cmp a b with Lt => true | _ => false end.
Definition bytes_leb (a b : bytes) : bool := match bytes_cmp a b with Gt => false | _ => true end.

Definition byte_xor (a b : u8) : u8 := byte.of_Z (Z.lxor (u8_val a) (u8_val b)).
Definition bytes_xor (a b : bytes) : bytes := zip_with byte_xor a b.

(** [iter().fold(0, |acc, b| (acc << 8) | b)] *)
Definition be_Z (a : bytes) : Z := foldl (fun acc b => acc * 256 + u8_val b) 0 a.

(** The bytes of a u64, most significant first *)
Definition be_bytes (v : Z) : bytes :=
  map (fun j => byte.of_Z (Z.land (Z.shiftr v (8 * (7 - j))) 255)) [0; 1; 2; 3; 4; 5; 6; 7].

(** [std::str::from_utf8]: the length of the well-formed character at the front,
    the ranges of the second byte excluding overlong forms, surrogates and values
    beyond the last code point. *)
Definition cont (b : u8) : bool := (128 <=? u8_val b) && (u8_val b <=? 191).
Definition between (lo hi : Z) (b : u8) : bool := (lo <=? u8_val b) && (u8_val b <=? hi).
Fixpoint utf8_valid (b : bytes) : bool :=
  match b with
  | [] => true
  | x :: b1 =>
      if u8_val x <=? 127 then utf8_valid b1
      else if between 194 223 x then
        match b1 with y :: b2 => cont y && utf8_valid b2 | _ => false end
      else if between 224 239 x then
        match b1 with
        | y :: z :: b3 =>
            between (if u8_val x =? 224 then 160 else 128) (if u8_val x =? 237 then 159 else 191) y && cont z && utf8_valid b3
        | _ => false
        end
      else if between 240 244 x then
        match b1 with
        | y :: z :: w :: b4 =>
            between (if u8_val x =? 240 then 144 else 128) (if u8_val x =? 244 then 143 else 191) y && cont z && cont w && utf8_valid b4
        | _ => false
        end
      else false
  end.
Definition from_utf8 (b : bytes) : option string := if utf8_valid b then Some (String.string_of_list_byte b) else None.

Lemma utf8_valid_ascii a b : Forall (fun x => u8_val x ≤ 127) a → utf8_valid (a ++ b) = utf8_valid b.
Proof.
  induction 1 as [|x a Hx _ IH]; [done|]. cbn [app utf8_valid]. by rewrite (proj2 (Z.leb_le _ _) Hx).
Qed.

#[export] Instance u8_countable_keys : Countable u8.
Proof.
  refine (inj_countable' (fun b => Z.to_N (u8_val b)) (fun n => byte.of_Z (Z.of_N n)) _).
  intros b. pose proof (byte.unsigned_range b). rewrite Z2N.id by lia. apply byte.of_Z_unsigned.
Defined.

(** ** The stable sort *)

Section StableSort.
Context {A : Type} (leb : A → A → bool).

Fixpoint sort_insert (x : A) (l : list A) : list A :=
  match l with
  | [] => [x]
  | y :: l => if leb x y then x :: y :: l else y :: sort_insert x l
  end.
Definition stable_sort (l : list A) : list A := foldr sort_insert [] l.

Lemma sort_insert_perm x l : sort_insert x l ≡ₚ x :: l.
Proof.
  induction l as [|y l IH]; simpl; [done|]. destruct (leb x y); [done|]. rewrite IH. constructor.
Qed.
Lemma stable_sort_perm l : stable_sort l ≡ₚ l.
Proof. induction l as [|x l IH]; simpl; [done|]. by rewrite sort_insert_perm, IH. Qed.

Context (Htotal : ∀ x y, leb x y = false → leb y x = true) (Htrans : ∀ x y z, leb x y = true → leb y z = true → leb x z = true).

Lemma sort_insert_sorted x l : StronglySorted (fun a b => leb a b = true) l → StronglySorted (fun a b => leb a b = true) (sort_insert x l).
Proof.
  induction 1 as [|y l Hl IH Hy]; simpl; [repeat constructor|]. destruct (leb x y) eqn:Hxy.
  - constructor; [by constructor|]. constructor; [done|]. rewrite Forall_forall in *. eauto.
  - constructor; [done|]. rewrite sort_insert_perm. constructor; [by apply Htotal|done].
Qed.
Lemma stable_sort_sorted l : StronglySorted (fun a b => leb a b = true) (stable_sort l).
Proof. induction l as [|x l IH]; simpl; [constructor|]. by apply sort_insert_sorted. Qed.
End StableSort.

(** ** Big-endian values *)

Lemma u8_val_range b : 0 ≤ u8_val b < 256.
Proof. pose proof (byte.unsigned_range b). lia. Qed.

Lemma u8_val_inj a b : u8_val a = u8_val b → a = b.
Proof. intros H. rewrite <-(byte.of_Z_unsigned a), <-(byte.of_Z_unsigned b). by rewrite H. Qed.

Lemma foldl_be acc a : foldl (fun acc b => acc * 256 + u8_val b) acc a = acc * 256 ^ Z.of_nat (length a) + be_Z a.
Proof.
  unfold be_Z. revert acc. induction a as [|b a IH]; intros acc; simpl length; cbn [foldl]; [lia|].
  rewrite IH, (IH (0 * 256 + u8_val b)). rewrite Nat2Z.inj_succ, Z.pow_succ_r by lia. lia.
Qed.

Lemma be_Z_cons b a : be_Z (b :: a) = u8_val b * 256 ^ Z.of_nat (length a) + be_Z a.
Proof. unfold be_Z at 1. cbn [foldl]. rewrite foldl_be. lia. Qed.

Lemma be_Z_range a : 0 ≤ be_Z a < 256 ^ Z.of_nat (length a).
Proof.
  induction a as [|b a IH]; [done|]. rewrite be_Z_cons. pose proof (u8_val_range b).
  simpl length. rewrite Nat2Z.inj_succ, Z.pow_succ_r by lia. nia.
Qed.

Lemma be_Z_inj a b : length a = length b → be_Z a = be_Z b → a = b.
Proof.
  revert b. induction a as [|x a IH]; intros [|y b] Hl; try done. rewrite !be_Z_cons.
  simpl in Hl. injection Hl as Hl. pose proof (be_Z_range a). pose proof (be_Z_range b).
  rewrite Hl in *. intros Heq. assert (u8_val x = u8_val y) as Hxy%u8_val_inj by nia. subst y.
  f_equal. apply IH; [done|lia].
Qed.

Lemma bytes_cmp_be a b : length a = length b → bytes_cmp a b = (be_Z a ?= be_Z b).
Proof.
  revert b. induction a as [|x a IH]; intros [|y b] Hl; try done. simpl in *. injection Hl as Hl.
  rewrite !be_Z_cons, IH by done. pose proof (be_Z_range a). pose proof (be_Z_range b). rewrite Hl in *.
  destruct (Z.compare_spec (u8_val x) (u8_val y)) as [->|Hlt|Hgt]; symmetry.
  - destruct (Z.compare_spec (be_Z a) (be_Z b)); [apply Z.compare_eq_iff|apply Z.compare_lt_iff|apply Z.compare_gt_iff]; lia.
  - apply Z.compare_lt_iff. nia.
  - apply Z.compare_gt_iff. nia.
Qed.

(** A longer key against a boundary: only its prefix counts. *)
Lemma bytes_cmp_prefix h s : (length s < length h)%nat →
  bytes_cmp h s = match be_Z (take (length s) h) ?= be_Z s with Eq => Gt | c => c end.
Proof.
  intros Hl. rewrite <-bytes_cmp_be by (rewrite length_take; lia).
  revert h Hl. induction s as [|y s IH]; intros [|x h] Hl; simpl in *; try lia; [done|].
  destruct (u8_val x ?= u8_val y); [|done..]. apply IH. lia.
Qed.

Lemma bytes_below h s : (length s < length h)%nat → bytes_ltb h s = (be_Z (take (length s) h) <? be_Z s).
Proof.
  intros Hl. unfold bytes_ltb. rewrite bytes_cmp_prefix by done. unfold Z.ltb.
  by destruct (be_Z (take (length s) h) ?= be_Z s).
Qed.

(** ** The exclusive or *)

Lemma lxor_bound k x y : 0 ≤ k → 0 ≤ x < 2 ^ k → 0 ≤ y < 2 ^ k → 0 ≤ Z.lxor x y < 2 ^ k.
Proof.
  intros Hk Hx Hy. split; [apply Z.lxor_nonneg; lia|].
  destruct (decide (Z.lxor x y = 0)) as [->|Hne]; [lia|].
  assert (0 < Z.lxor x y) by (assert (0 ≤ Z.lxor x y) by (apply Z.lxor_nonneg; lia); lia).
  apply Z.log2_lt_pow2; [done|]. pose proof (Z.log2_lxor x y ltac:(lia) ltac:(lia)).
  assert (∀ z, 0 ≤ z < 2 ^ k → z = 0 ∨ Z.log2 z < k) as Hlog.
  { intros z Hz. destruct (decide (z = 0)); [by left|right]. apply Z.log2_lt_pow2; lia. }
  destruct (decide (k = 0)) as [->|]; [simpl in *; exfalso; assert (x = 0) by lia; assert (y = 0) by lia; by subst|].
  destruct (Hlog x Hx) as [->|], (Hlog y Hy) as [->|]; simpl in *; rewrite ?Z.log2_nonpos in * by lia; lia.
Qed.

Lemma concat_lxor k a x : 0 ≤ k → 0 ≤ x < 2 ^ k → a * 2 ^ k + x = Z.lxor (Z.shiftl a k) x.
Proof.
  intros Hk Hx. rewrite <-Z.shiftl_mul_pow2 by done. apply Z.add_nocarry_lxor.
  apply Z.bits_inj_0. intros n. rewrite Z.land_spec. destruct (decide (n < k)).
  - destruct (decide (0 ≤ n)); [by rewrite Z.shiftl_spec_low|by rewrite Z.testbit_neg_r by lia].
  - rewrite andb_comm. rewrite <-(Z.mod_small x (2 ^ k)) by done. by rewrite Z.mod_pow2_bits_high by lia.
Qed.

Lemma lxor_concat k a b x y : 0 ≤ k → 0 ≤ x < 2 ^ k → 0 ≤ y < 2 ^ k →
  Z.lxor (a * 2 ^ k + x) (b * 2 ^ k + y) = Z.lxor a b * 2 ^ k + Z.lxor x y.
Proof.
  intros Hk Hx Hy. rewrite !(concat_lxor k) by (done || by apply lxor_bound).
  rewrite Z.shiftl_lxor. rewrite !Z.lxor_assoc. f_equal.
  rewrite <-!Z.lxor_assoc. f_equal. apply Z.lxor_comm.
Qed.

Lemma length_bytes_xor a b : length a = length b → length (bytes_xor a b) = length a.
Proof. intros H. unfold bytes_xor. rewrite length_zip_with. lia. Qed.

Lemma byte_xor_val a b : u8_val (byte_xor a b) = Z.lxor (u8_val a) (u8_val b).
Proof.
  unfold byte_xor. rewrite byte.unsigned_of_Z. apply Z.mod_small.
  apply (lxor_bound 8); [lia|apply u8_val_range..].
Qed.

Lemma be_Z_xor a b : length a = length b → be_Z (bytes_xor a b) = Z.lxor (be_Z a) (be_Z b).
Proof.
  revert b. induction a as [|x a IH]; intros [|y b] Hl; try done. simpl in Hl. injection Hl as Hl.
  cbn [bytes_xor zip_with]. change (zip_with byte_xor a b) with (bytes_xor a b).
  rewrite !be_Z_cons, byte_xor_val, IH, length_bytes_xor by done. rewrite <-Hl.
  pose proof (be_Z_range a) as Ha. pose proof (be_Z_range b) as Hb. rewrite <-Hl in Hb.
  replace (256 ^ Z.of_nat (length a)) with (2 ^ (8 * Z.of_nat (length a))) in *
    by (rewrite Z.pow_mul_r by lia; done).
  symmetry. apply lxor_concat; [lia|done|done].
Qed.

Lemma lxor_le_add x y : 0 ≤ x → 0 ≤ y → Z.lxor x y ≤ x + y.
Proof.
  intros Hx Hy. pose proof (Z.add_lxor_2land x y).
  assert (0 ≤ Z.land x y) by (apply Z.land_nonneg; lia). lia.
Qed.

(** The bytes of a u64 are its big-endian value. *)
Lemma next_byte v k : 0 ≤ k → v / 2 ^ (8 * (k + 1)) * 256 + u8_val (byte.of_Z (Z.land (Z.shiftr v (8 * k)) 255)) = v / 2 ^ (8 * k).
Proof.
  intros Hk. rewrite byte.unsigned_of_Z. change 255 with (Z.ones 8). rewrite Z.land_ones, Z.shiftr_div_pow2 by lia.
  unfold byte.wrap. change (2 ^ 8) with 256. rewrite Z.mod_mod by lia.
  replace (2 ^ (8 * (k + 1))) with (2 ^ (8 * k) * 256) by (rewrite Z.mul_add_distr_l, Z.pow_add_r by lia; done).
  rewrite <-Z.div_div by lia. pose proof (Z.div_mod (v / 2 ^ (8 * k)) 256). lia.
Qed.

Lemma be_Z_be_bytes v : u64_ok v → be_Z (be_bytes v) = v.
Proof.
  intros [H0 Hv]. unfold be_Z, be_bytes. cbn [map foldl].
  pose proof (next_byte v (7 - 0) ltac:(lia)) as E7. pose proof (next_byte v (7 - 1) ltac:(lia)) as E6.
  pose proof (next_byte v (7 - 2) ltac:(lia)) as E5. pose proof (next_byte v (7 - 3) ltac:(lia)) as E4.
  pose proof (next_byte v (7 - 4) ltac:(lia)) as E3. pose proof (next_byte v (7 - 5) ltac:(lia)) as E2.
  pose proof (next_byte v (7 - 6) ltac:(lia)) as E1. pose proof (next_byte v (7 - 7) ltac:(lia)) as E0.
  assert (v / 2 ^ (8 * (7 - 0 + 1)) = 0) as Hz by (apply Z.div_small; unfold u64_max in Hv; simpl; lia).
  assert (v / 2 ^ (8 * (7 - 7)) = v) as H1 by apply Z.div_1_r.
  change (7 - 1 + 1) with (7 - 0) in E6. change (7 - 2 + 1) with (7 - 1) in E5. change (7 - 3 + 1) with (7 - 2) in E4.
  change (7 - 4 + 1) with (7 - 3) in E3. change (7 - 5 + 1) with (7 - 4) in E2. change (7 - 6 + 1) with (7 - 5) in E1.
  change (7 - 7 + 1) with (7 - 6) in E0. rewrite Hz in E7. rewrite H1 in E0. rewrite E7, E6, E5, E4, E3, E2, E1, E0. done.
Qed.
