(* ===== verification/Hexa.v ===== *)
(** * Hexadecimal text

    The interface to the hex crate, and a concrete codec for the witnesses. *)
From S2P Require Import Prelude.

(** The hex crate: lower-case digits, two for each byte. *)
Class Hex := {
  hex_encode : bytes → string;
  hex_decode : string → option bytes;
  hex_encode_length : ∀ b, String.length (hex_encode b) = (2 * length b)%nat;
  hex_round_trip : ∀ b, hex_decode (hex_encode b) = Some b;
}.

Module ToyHex.
Definition digit (n : nat) : Ascii.ascii := Ascii.ascii_of_nat (if (n <? 10)%nat then 48 + n else 87 + n)%nat.
Definition undigit (c : Ascii.ascii) : nat := let n := Ascii.nat_of_ascii c in (if (n <? 58)%nat then n - 48 else n - 87)%nat.
Fixpoint enc (b : bytes) : string :=
  match b with
  | [] => EmptyString
  | x :: b => let n := N.to_nat (Byte.to_N x) in String (digit (n / 16)) (String (digit (n mod 16)) (enc b))
  end.
Fixpoint dec (s : string) : option bytes :=
  match s with
  | EmptyString => Some []
  | String c (String d s) => b ← dec s; x ← Byte.of_N (N.of_nat (16 * undigit c + undigit d)); Some (x :: b)
  | _ => None
  end.
Lemma enc_length b : String.length (enc b) = (2 * length b)%nat.
Proof. induction b as [|x b IH]; simpl; [done|]. rewrite IH. lia. Qed.
Lemma enc_dec b : dec (enc b) = Some b.
Proof. induction b as [|x b IH]; [done|]. cbn [enc dec]. rewrite IH. cbn [mbind option_bind]. by destruct x. Qed.
Definition toy_hex : Hex := {| hex_encode := enc; hex_decode := dec; hex_encode_length := enc_length; hex_round_trip := enc_dec |}.
End ToyHex.
