(* ===== verification/Topology.v ===== *)
(** * The overlay network (dsm_storage_node/src/storage/topology.rs)

    Node identifiers with their XOR distance, the routing table of a node
    (buckets by distance, long-range, geographic and reputation connections), its
    maintenance, and the search of the nodes nearest to a key.  The network
    client is kept as the fact that one is set: what it answers does not change
    the topology.  The random draws of the message propagation are parameters. *)
From S2P Require Import Prelude NodeTypes Float Keys Hexa.
From coqutil Require Byte.
Import coqutil.Byte.

(** ** Identifiers and distances *)

Record NodeId := mkNodeId { node_bytes : bytes }.
Record Distance := mkDistance { dist_bytes : bytes }.

#[global] Instance NodeId_eq_dec : EqDecision NodeId.
Proof. solve_decision. Defined.
#[global] Instance NodeId_countable : Countable NodeId.
Proof. by refine (inj_countable' node_bytes mkNodeId _); intros []. Defined.

(** [[u8; 32]] *)
Definition id_ok (i : NodeId) : Prop := length (node_bytes i) = 32%nat.

Module Id.
Section Id.
Context {B3 : Blake3}.

Definition to_string {HX : Hex} (i : NodeId) : string := hex_encode (node_bytes i).

Definition from_string {HX : Hex} (s : string) : nout NodeId :=
  if negb (String.length s =? 64)%nat then Err (NInvalidNodeId "Invalid NodeId length: {}")
  else
    match hex_decode s with
    | None => Err (NInvalidNodeId "Invalid NodeId hex: {}")
    | Some b =>
        if negb (length b =? 32)%nat then Err (NInvalidNodeId "Decoded length is not 32 bytes: {}")
        else Ok (mkNodeId b)
    end.

Definition from_device_entropy (device_salt : bytes) (app_id : string) : NodeId :=
  mkNodeId (blake3 (device_salt ++ str_bytes app_id)).

Definition calculate_key_hash (key : string) : NodeId := mkNodeId (blake3 (str_bytes key)).

Definition xor_distance (a b : NodeId) : Distance := mkDistance (bytes_xor (node_bytes a) (node_bytes b)).

(** [Ord for Distance] *)
Definition dist_cmp (a b : Distance) : comparison := bytes_cmp (dist_bytes a) (dist_bytes b).

(** [u8::leading_zeros] of a non-zero byte *)
Definition leading_zeros (b : u8) : Z := 7 - Z.log2 (byte.unsigned b).

Fixpoint bucket_index_from (i : Z) (d : bytes) : Z :=
  match d with
  | [] => 256
  | b :: d => if negb (byte.unsigned b =? 0) then i * 8 + leading_zeros b else bucket_index_from (i + 1) d
  end.
Definition bucket_index (d : Distance) : Z := bucket_index_from 0 (dist_bytes d).

End Id.
End Id.

(** ** The routing table *)

Inductive ConnectionType := Structural | LongRange | Geographic | Reputation.
#[global] Instance ConnectionType_eq_dec : EqDecision ConnectionType.
Proof. solve_decision. Defined.

Record NodeMetrics := mkMetrics {
  avg_response_time : f64;
  success_rate : f64;
  transfer_rate : f64;
  available_storage : Z;
}.

Record NodeInfo := mkInfo {
  n_id : NodeId;
  n_address : string;
  n_last_seen : Z;
  n_reputation : Z;
  n_region : option Z;
  n_connection_type : ConnectionType;
  n_metrics : NodeMetrics;
}.

Record HybridTopologyConfig := mkTopoConfig {
  structural_connection_count : Z;
  long_range_connection_count : Z;
  geographic_connections_per_region : Z;
  min_region_coverage : Z;
  epidemic_alpha : f64;
  epidemic_beta : f64;
  min_reputation_threshold : Z;
  refresh_interval_seconds : Z;
}.

Record HybridTopology := mkTopology {
  local_id : NodeId;
  t_config : HybridTopologyConfig;
  routing_buckets : list (list NodeInfo);
  long_range_connections : list NodeInfo;
  geographic_connections : gmap Z (list NodeInfo);
  reputation_connections : list NodeInfo;
  all_nodes : gmap NodeId NodeInfo;
  seen_messages : gmap bytes Z;
  local_region : option Z;
  network_client : bool;
  last_refresh : Z;
}.

Module Topo.
Section Topo.
Context {B3 : Blake3} {RT : Runtime}.

Definition default_config : HybridTopologyConfig :=
  mkTopoConfig 20 15 5 3 (f64_lit 8 10) (f64_lit 2 10) 50 300.

Definition new (id : NodeId) (config : HybridTopologyConfig) (region : option Z) : HybridTopology :=
  mkTopology id config (replicate 256 []) [] ∅ [] ∅ ∅ region false now.

Definition set_buckets b t := mkTopology (local_id t) (t_config t) b (long_range_connections t) (geographic_connections t)
  (reputation_connections t) (all_nodes t) (seen_messages t) (local_region t) (network_client t) (last_refresh t).
Definition set_long l t := mkTopology (local_id t) (t_config t) (routing_buckets t) l (geographic_connections t)
  (reputation_connections t) (all_nodes t) (seen_messages t) (local_region t) (network_client t) (last_refresh t).
Definition set_geo g t := mkTopology (local_id t) (t_config t) (routing_buckets t) (long_range_connections t) g
  (reputation_connections t) (all_nodes t) (seen_messages t) (local_region t) (network_client t) (last_refresh t).
Definition set_rep r t := mkTopology (local_id t) (t_config t) (routing_buckets t) (long_range_connections t) (geographic_connections t)
  r (all_nodes t) (seen_messages t) (local_region t) (network_client t) (last_refresh t).
Definition set_all m t := mkTopology (local_id t) (t_config t) (routing_buckets t) (long_range_connections t) (geographic_connections t)
  (reputation_connections t) m (seen_messages t) (local_region t) (network_client t) (last_refresh t).
Definition set_seen m t := mkTopology (local_id t) (t_config t) (routing_buckets t) (long_range_connections t) (geographic_connections t)
  (reputation_connections t) (all_nodes t) m (local_region t) (network_client t) (last_refresh t).
Definition set_refresh r t := mkTopology (local_id t) (t_config t) (routing_buckets t) (long_range_connections t) (geographic_connections t)
  (reputation_connections t) (all_nodes t) (seen_messages t) (local_region t) (network_client t) r.
Definition set_network_client t := mkTopology (local_id t) (t_config t) (routing_buckets t) (long_range_connections t) (geographic_connections t)
  (reputation_connections t) (all_nodes t) (seen_messages t) (local_region t) true (last_refresh t).

(** The bucket of a node: [self.routing_buckets[bucket_idx]] panics out of range. *)
Definition bucket_of (t : HybridTopology) (id : NodeId) : Z := Id.bucket_index (Id.xor_distance (local_id t) id).
Definition get_bucket (t : HybridTopology) (idx : Z) : nout (list NodeInfo) := unwrap (routing_buckets t !! Z.to_nat idx).
Definition put_bucket (idx : Z) (b : list NodeInfo) (t : HybridTopology) : HybridTopology :=
  set_buckets (<[Z.to_nat idx := b]> (routing_buckets t)) t.

(** [if let Some(pos) = l.iter().position(same id) { l.remove(pos) }] *)
Fixpoint remove_node (id : NodeId) (l : list NodeInfo) : list NodeInfo :=
  match l with
  | [] => []
  | n :: l => if bool_decide (n_id n = id) then l else n :: remove_node id l
  end.

(** [l.sort_by_key(|n| Reverse(n.last_seen))] and [l.sort_by_key(|n| Reverse(n.reputation))] *)
Definition most_recent_first : list NodeInfo → list NodeInfo := stable_sort (fun a b => n_last_seen b <=? n_last_seen a).
Definition best_reputation_first : list NodeInfo → list NodeInfo := stable_sort (fun a b => n_reputation b <=? n_reputation a).

(** Remove, push, and keep the [limit] most recently seen. *)
Definition push_limited (limit : Z) (n : NodeInfo) (l : list NodeInfo) : list NodeInfo :=
  let l := remove_node (n_id n) l ++ [n] in
  if limit <? Z.of_nat (length l) then take (Z.to_nat limit) (most_recent_first l) else l.

Definition determine_connection_type (t : HybridTopology) (id : NodeId) (region : option Z) : nout ConnectionType :=
  let geographic :=
    match local_region t, region with
    | Some lr, Some nr =>
        negb (lr =? nr) &&
        (Z.of_nat (length (unwrap_or [] (geographic_connections t !! nr))) <? geographic_connections_per_region (t_config t))
    | _, _ => false
    end in
  if geographic then Ok Geographic
  else
    bucket ← get_bucket t (bucket_of t id);
    if Z.of_nat (length bucket) <? structural_connection_count (t_config t) then Ok Structural
    else if Z.of_nat (length (long_range_connections t)) <? long_range_connection_count (t_config t) then Ok LongRange
    else Ok Reputation.

(** The [match connection_type] of [add_node]. *)
Definition place (n : NodeInfo) (t : HybridTopology) : nout HybridTopology :=
  match n_connection_type n with
  | Structural =>
      bucket ← get_bucket t (bucket_of t (n_id n));
      Ok (put_bucket (bucket_of t (n_id n)) (push_limited (structural_connection_count (t_config t)) n bucket) t)
  | LongRange => Ok (set_long (push_limited (long_range_connection_count (t_config t)) n (long_range_connections t)) t)
  | Geographic =>
      match n_region n with
      | Some reg =>
          let l := unwrap_or [] (geographic_connections t !! reg) in
          Ok (set_geo (<[reg := push_limited (geographic_connections_per_region (t_config t)) n l]> (geographic_connections t)) t)
      | None => Ok t
      end
  | Reputation =>
      if min_reputation_threshold (t_config t) <=? n_reputation n
      then Ok (set_rep (take 20 (best_reputation_first (remove_node (n_id n) (reputation_connections t) ++ [n]))) t)
      else Ok t
  end.

Definition default_metrics : NodeMetrics := mkMetrics f64_zero f64_zero f64_zero 0.

Definition add_node (id : NodeId) (address : string) (region : option Z) (reputation : Z) : NM HybridTopology unit := fun t =>
  if bool_decide (id = local_id t) then (Ok tt, t)
  else
    match determine_connection_type t id region with
    | Ok ct =>
        let info := mkInfo id address now reputation region ct default_metrics in
        match place info t with
        | Ok t' => (Ok tt, set_all (<[id := info]> (all_nodes t')) t')
        | Err e => (Err e, t) | Panic => (Panic, t) | Hang => (Hang, t)
        end
    | Err e => (Err e, t) | Panic => (Panic, t) | Hang => (Hang, t)
    end.

(** ** The nearest nodes *)

(** [BTreeMap::insert] on the sorted entries *)
Fixpoint bt_insert (d : Distance) (n : NodeInfo) (l : list (Distance * NodeInfo)) : list (Distance * NodeInfo) :=
  match l with
  | [] => [(d, n)]
  | (d', n') :: l' =>
      match Id.dist_cmp d d' with
      | Lt => (d, n) :: l
      | Eq => (d', n) :: l'
      | Gt => (d', n') :: bt_insert d n l'
      end
  end.

Definition insert_all (target : NodeId) (ns : list NodeInfo) (l : list (Distance * NodeInfo)) : list (Distance * NodeInfo) :=
  foldl (fun l n => bt_insert (Id.xor_distance (n_id n) target) n l) l ns.

(** The loop over adjacent buckets; [i] grows by one and the loop ends once both
    neighbours are out of range, so that 256 turns are enough. *)
Fixpoint expand (fuel : nat) (t : HybridTopology) (target : NodeId) (idx i want : Z) (l : list (Distance * NodeInfo))
    : nout (list (Distance * NodeInfo)) :=
  if (Z.of_nat (length l) <? want) && ((i <=? idx) || (idx + i <? 256)) then
    match fuel with
    | O => Hang
    | S fuel =>
        l ← (if i <=? idx then b ← get_bucket t (idx - i); Ok (insert_all target b l) else Ok l);
        l ← (if idx + i <? 256 then b ← get_bucket t (idx + i); Ok (insert_all target b l) else Ok l);
        expand fuel t target idx (i + 1) want l
    end
  else Ok l.

Definition find_closest_nodes (t : HybridTopology) (target : NodeId) (count : Z) : nout (list NodeInfo) :=
  let idx := bucket_of t target in
  bucket ← get_bucket t idx;
  want ← n_mul count 2;
  l ← expand 256 t target idx 1 want (insert_all target bucket []);
  let l := insert_all target (long_range_connections t) l in
  let l := insert_all target (reputation_connections t) l in
  Ok (take (Z.to_nat count) l).*2.

Definition get_responsible_nodes (t : HybridTopology) (key : string) (replication_factor : Z) : nout (list NodeInfo) :=
  find_closest_nodes t (Id.calculate_key_hash key) replication_factor.
Definition find_responsible_nodes (t : HybridTopology) (key : string) (count : Z) : nout (list NodeInfo) :=
  get_responsible_nodes t key count.

(** ** Propagation *)

(** What [propagate_message] sends: nothing, or to these addresses with this TTL.
    [draw] tells which of the random draws against alpha, beta and the
    reputation succeed. *)
Definition propagate_message (draw : ConnectionType → NodeInfo → bool) (message_id : bytes) (ttl : Z)
    : NM HybridTopology (option (gset string * Z)) := fun t =>
  match seen_messages t !! message_id with
  | Some _ => (Ok None, t)
  | None =>
      let seen := <[message_id := now]> (seen_messages t) in
      match n_sub now 3600 with
      | Ok cutoff =>
          let t := set_seen (filter (fun p => cutoff < p.2) seen) t in
          if ttl =? 0 then (Ok None, t)
          else if network_client t then
            let addresses l : gset string := list_to_set (map n_address l) in
            (Ok (Some (addresses (mjoin (routing_buckets t)) ∪
                       addresses (List.filter (draw LongRange) (long_range_connections t)) ∪
                       addresses (List.filter (draw Geographic) (mjoin (map_to_list (geographic_connections t)).*2)) ∪
                       addresses (List.filter (draw Reputation) (reputation_connections t)), ttl - 1)), t)
          else (Err NNetworkClientNotSet, t)
      | _ => (Panic, set_seen seen t)
      end
  end.

(** ** Refresh *)

(** [target_bytes[i / 8] ^= 1 << (7 - i % 8)] *)
Definition flip_bit (i : Z) (id : NodeId) : NodeId :=
  mkNodeId (alter (fun b => byte.of_Z (Z.lxor (byte.unsigned b) (Z.shiftl 1 (7 - i mod 8)))) (Z.to_nat (i / 8)) (node_bytes id)).

(** The identifiers looked up for buckets less than half full *)
Definition discovery_targets (t : HybridTopology) : list NodeId :=
  mjoin (imap (fun i bucket =>
    if Z.of_nat (length bucket) <? structural_connection_count (t_config t) / 2 then [flip_bit (Z.of_nat i) (local_id t)] else [])
    (routing_buckets t)).

(** The regions looked up *)
Definition missing_regions (t : HybridTopology) : list Z :=
  match local_region t with
  | None => []
  | Some lr =>
      List.filter (fun r => negb (r =? lr) &&
        (Z.of_nat (length (unwrap_or [] (geographic_connections t !! r))) <? geographic_connections_per_region (t_config t)))
        [0; 1; 2; 3; 4; 5; 6; 7]
  end.

Definition fresh (threshold : Z) (n : NodeInfo) : bool := threshold <? n_last_seen n.

Definition drop_stale (threshold : Z) (t : HybridTopology) : HybridTopology :=
  set_all (filter (fun p => fresh threshold p.2 = true) (all_nodes t))
  (set_rep (List.filter (fresh threshold) (reputation_connections t))
  (set_geo (List.filter (fresh threshold) <$> geographic_connections t)
  (set_long (List.filter (fresh threshold) (long_range_connections t))
  (set_buckets (map (List.filter (fresh threshold)) (routing_buckets t)) t)))).

Definition refresh_if_needed : NM HybridTopology bool := fun t =>
  match n_sub now (last_refresh t) with
  | Ok age =>
      if age <? refresh_interval_seconds (t_config t) then (Ok false, t)
      else
        let t := set_refresh now t in
        match n_sub now 3600 with
        | Ok threshold => (Ok true, drop_stale threshold t)
        | _ => (Panic, t)
        end
  | _ => (Panic, t)
  end.

(** ** Reputation *)

Definition score (success : bool) (response_time : option Z) (n : NodeInfo) : NodeInfo :=
  let m := n_metrics n in
  let '(rep, m) :=
    if success then
      (Z.min (Z.min (n_reputation n + 1) 255) 100,
       match response_time with
       | Some rt => mkMetrics (f64_add (f64_mul (avg_response_time m) (f64_lit 9 10)) (f64_mul (f64_of_Z rt) (f64_lit 1 10)))
                      (f64_add (f64_mul (success_rate m) (f64_lit 9 10)) (f64_lit 1 10)) (transfer_rate m) (available_storage m)
       | None => m
       end)
    else (saturating_sub (n_reputation n) 1,
          mkMetrics (avg_response_time m) (f64_mul (success_rate m) (f64_lit 9 10)) (transfer_rate m) (available_storage m)) in
  mkInfo (n_id n) (n_address n) now rep (n_region n) (n_connection_type n) m.

Definition as_reputation (n : NodeInfo) : NodeInfo :=
  mkInfo (n_id n) (n_address n) (n_last_seen n) (n_reputation n) (n_region n) Reputation (n_metrics n).

(** Remove a node from the collection of its old type. *)
Definition unplace (old : ConnectionType) (n : NodeInfo) (t : HybridTopology) : nout HybridTopology :=
  match old with
  | Structural =>
      bucket ← get_bucket t (bucket_of t (n_id n));
      Ok (put_bucket (bucket_of t (n_id n)) (remove_node (n_id n) bucket) t)
  | LongRange => Ok (set_long (remove_node (n_id n) (long_range_connections t)) t)
  | Geographic =>
      match n_region n with
      | Some reg => Ok (set_geo (alter (remove_node (n_id n)) reg (geographic_connections t)) t)
      | None => Ok t
      end
  | Reputation => Ok t
  end.

Definition update_node_reputation (id : NodeId) (success : bool) (response_time : option Z) : NM HybridTopology unit := fun t =>
  match all_nodes t !! id with
  | None => (Ok tt, t)
  | Some n =>
      let n := score success response_time n in
      if (min_reputation_threshold (t_config t) <=? n_reputation n) && negb (bool_decide (n_connection_type n = Reputation)) then
        let old := n_connection_type n in
        let n := as_reputation n in
        let t := set_all (<[id := n]> (all_nodes t)) t in
        match unplace old n t with
        | Ok t => (Ok tt, set_rep (take 20 (best_reputation_first (reputation_connections t ++ [n]))) t)
        | Err e => (Err e, t) | Panic => (Panic, t) | Hang => (Hang, t)
        end
      else (Ok tt, set_all (<[id := n]> (all_nodes t)) t)
  end.

(** ** Views *)

(** [HashMap::from_iter]: the last node of an identifier wins. *)
Definition all_neighbors (t : HybridTopology) : gmap NodeId NodeInfo :=
  foldl (fun m n => <[n_id n := n]> m) ∅
    (mjoin (routing_buckets t) ++ long_range_connections t ++ mjoin (map_to_list (geographic_connections t)).*2
     ++ reputation_connections t).

Definition immediate_neighbors (t : HybridTopology) : list NodeInfo :=
  let l := stable_sort (fun a b => match Id.dist_cmp (Id.xor_distance (local_id t) (n_id a)) (Id.xor_distance (local_id t) (n_id b)) with
    | Gt => false | _ => true end) (mjoin (routing_buckets t)) in
  if structural_connection_count (t_config t) <? Z.of_nat (length l) then take (Z.to_nat (structural_connection_count (t_config t))) l else l.

Definition long_links (t : HybridTopology) : list NodeInfo := long_range_connections t.
Definition get_node (t : HybridTopology) (id : NodeId) : option NodeInfo := all_nodes t !! id.

End Topo.
End Topo.

(** ** The XOR metric *)

Definition dist (a b : NodeId) : Z := be_Z (dist_bytes (Id.xor_distance a b)).

Lemma dist_lxor a b : id_ok a → id_ok b → dist a b = Z.lxor (be_Z (node_bytes a)) (be_Z (node_bytes b)).
Proof. intros Ha Hb. apply be_Z_xor. by rewrite Ha, Hb. Qed.

Lemma dist_length a b : id_ok a → id_ok b → length (dist_bytes (Id.xor_distance a b)) = 32%nat.
Proof. intros Ha Hb. simpl. rewrite length_bytes_xor; [done|by rewrite Ha, Hb]. Qed.

Lemma dist_sym a b : id_ok a → id_ok b → dist a b = dist b a.
Proof. intros. rewrite !dist_lxor by done. apply Z.lxor_comm. Qed.

Lemma id_inj a b : id_ok a → id_ok b → be_Z (node_bytes a) = be_Z (node_bytes b) → a = b.
Proof. intros Ha Hb H. destruct a as [a], b as [b]. f_equal. apply be_Z_inj; [|done]. unfold id_ok in *. simpl in *. congruence. Qed.

Lemma dist_inj a b c : id_ok a → id_ok b → id_ok c → dist a c = dist b c → a = b.
Proof.
  intros Ha Hb Hc. rewrite !dist_lxor by done. intros H. apply id_inj; [done..|].
  apply (f_equal (fun x => Z.lxor x (be_Z (node_bytes c)))) in H.
  by rewrite !Z.lxor_assoc, !Z.lxor_nilpotent, !Z.lxor_0_r in H.
Qed.

Lemma dist_zero a b : id_ok a → id_ok b → dist a b = 0 ↔ a = b.
Proof.
  intros Ha Hb. rewrite dist_lxor by done. rewrite Z.lxor_eq_0_iff. split; [by apply id_inj|congruence].
Qed.

Lemma dist_nonneg a b : 0 ≤ dist a b.
Proof. apply be_Z_range. Qed.

Lemma dist_lt a b : id_ok a → id_ok b → dist a b < 2 ^ 256.
Proof. intros Ha Hb. pose proof (be_Z_range (dist_bytes (Id.xor_distance a b))) as H. rewrite dist_length in H by done. apply H. Qed.

Lemma bucket_index_from_log2 i d :
  Id.bucket_index_from i d =
    if be_Z d =? 0 then 256 else i * 8 + (8 * Z.of_nat (length d) - 1 - Z.log2 (be_Z d)).
Proof.
  revert i. induction d as [|b d IH]; intros i; [done|]. cbn [Id.bucket_index_from]. rewrite be_Z_cons, IH.
  pose proof (u8_val_range b) as Hb. pose proof (be_Z_range d) as Hd.
  destruct (Z.eqb_spec (byte.unsigned b) 0) as [->|Hne]; cbn [negb length].
  - rewrite Z.mul_0_l, Z.add_0_l. destruct (be_Z d =? 0); lia.
  - destruct (Z.eqb_spec (byte.unsigned b * 256 ^ Z.of_nat (length d) + be_Z d) 0) as [H0|_]; [nia|].
    unfold Id.leading_zeros. rewrite (Z.log2_unique (byte.unsigned b * 256 ^ Z.of_nat (length d) + be_Z d)
      (8 * Z.of_nat (length d) + Z.log2 (byte.unsigned b))); [lia|pose proof (Z.log2_nonneg (byte.unsigned b)); lia|].
    pose proof (Z.log2_spec (byte.unsigned b) ltac:(lia)) as [Hl Hu].
    pose proof (Z.log2_nonneg (byte.unsigned b)).
    rewrite Z.pow_succ_r in Hu by lia.
    rewrite Z.pow_succ_r, Z.pow_add_r, Z.pow_mul_r by lia. change (2 ^ 8) with 256.
    assert (0 < 256 ^ Z.of_nat (length d)) by (apply Z.pow_pos_nonneg; lia). nia.
Qed.

Lemma bucket_index_log2 a b : id_ok a → id_ok b →
  Id.bucket_index (Id.xor_distance a b) = if bool_decide (a = b) then 256 else 255 - Z.log2 (dist a b).
Proof.
  intros Ha Hb. unfold Id.bucket_index. rewrite bucket_index_from_log2, dist_length by done.
  change (be_Z (dist_bytes (Id.xor_distance a b))) with (dist a b).
  case_bool_decide as Hab; destruct (Z.eqb_spec (dist a b) 0) as [Hz|Hz]; try done.
  - by apply dist_zero in Hab.
  - by apply dist_zero in Hz.
Qed.

(** The XOR distance is a metric on node identifiers, ordered by [Ord], in
    which a point and a distance determine the other point; the bucket index of
    two nodes is the number of leading bits they share, and 256, outside the
    routing table, exactly for equal nodes. *)
Theorem xor_distance_metric (a b c : NodeId) (Ha : id_ok a) (Hb : id_ok b) (Hc : id_ok c) :
  Id.xor_distance a b = Id.xor_distance b a ∧ (dist a b = 0 ↔ a = b) ∧ dist a c ≤ dist a b + dist b c ∧
  (dist a c = dist b c → a = b) ∧
  Id.dist_cmp (Id.xor_distance a c) (Id.xor_distance b c) = (dist a c ?= dist b c) ∧
  (Id.bucket_index (Id.xor_distance a b) = 256 ↔ a = b) ∧
  (a ≠ b → let k := Id.bucket_index (Id.xor_distance a b) in
     0 ≤ k < 256 ∧ 2 ^ (255 - k) ≤ dist a b < 2 ^ (256 - k)).
Proof.
  assert (a ≠ b → 0 < dist a b) as Hpos.
  { intros Hab. pose proof (dist_nonneg a b). assert (dist a b ≠ 0) by (rewrite dist_zero; done). lia. }
  assert (a ≠ b → 0 ≤ Z.log2 (dist a b) < 256) as Hlog.
  { intros Hab. split; [apply Z.log2_nonneg|]. apply Z.log2_lt_pow2; [auto|by apply dist_lt]. }
  split_and!.
  - unfold Id.xor_distance. f_equal. apply be_Z_inj; [rewrite !length_bytes_xor; congruence|].
    apply (dist_sym a b Ha Hb).
  - by apply dist_zero.
  - rewrite !dist_lxor by done. etrans; [|apply lxor_le_add; apply Z.lxor_nonneg; split; intros _; apply be_Z_range].
    rewrite Z.lxor_assoc, <-(Z.lxor_assoc (be_Z (node_bytes b))), Z.lxor_nilpotent, Z.lxor_0_l. done.
  - by apply dist_inj.
  - unfold Id.dist_cmp. apply bytes_cmp_be. by rewrite !dist_length.
  - rewrite bucket_index_log2 by done. case_bool_decide; [done|]. split; [|done]. specialize (Hlog ltac:(done)). lia.
  - intros Hab. rewrite bucket_index_log2 by done. rewrite bool_decide_eq_false_2 by done. simpl.
    specialize (Hlog Hab). pose proof (Z.log2_spec (dist a b) (Hpos Hab)) as Hs. split; [lia|].
    replace (255 - (255 - Z.log2 (dist a b))) with (Z.log2 (dist a b)) by lia.
    replace (256 - (255 - Z.log2 (dist a b))) with (Z.succ (Z.log2 (dist a b))) by lia. done.
Qed.

(** ** The routing table invariant *)

Definition good (l : NodeId) (n : NodeInfo) : Prop := id_ok (n_id n) ∧ n_id n ≠ l.

(** A list of connections: within its limit, one entry for each node. *)
Definition listed (limit : Z) (P : NodeInfo → Prop) (l : list NodeInfo) : Prop :=
  Z.of_nat (length l) ≤ limit ∧ NoDup (map n_id l) ∧ Forall P l.

Definition in_bucket (l : NodeId) (i : nat) (n : NodeInfo) : Prop :=
  good l n ∧ Id.bucket_index (Id.xor_distance l (n_id n)) = Z.of_nat i.

Record topo_ok (t : HybridTopology) : Prop := mkTopoOk {
  ok_local : id_ok (local_id t);
  ok_limits : 0 ≤ structural_connection_count (t_config t) ∧ 0 ≤ long_range_connection_count (t_config t) ∧
              0 ≤ geographic_connections_per_region (t_config t);
  ok_buckets : length (routing_buckets t) = 256%nat;
  ok_bucket : ∀ i b, routing_buckets t !! i = Some b →
    listed (structural_connection_count (t_config t)) (in_bucket (local_id t) i) b;
  ok_long : listed (long_range_connection_count (t_config t)) (good (local_id t)) (long_range_connections t);
  ok_geo : ∀ r l, geographic_connections t !! r = Some l →
    listed (geographic_connections_per_region (t_config t)) (good (local_id t)) l;
  ok_rep : (length (reputation_connections t) ≤ 20)%nat ∧ Forall (good (local_id t)) (reputation_connections t);
  ok_all : ∀ id n, all_nodes t !! id = Some n → n_id n = id ∧ good (local_id t) n;
}.

Lemma bucket_range l n : id_ok l → good l n → 0 ≤ Id.bucket_index (Id.xor_distance l (n_id n)) < 256.
Proof.
  intros Hl [Hn Hne]. rewrite bucket_index_log2 by done. rewrite bool_decide_eq_false_2 by congruence.
  assert (0 < dist l (n_id n)) as Hp.
  { pose proof (dist_nonneg l (n_id n)). assert (dist l (n_id n) ≠ 0) by (rewrite dist_zero; congruence). lia. }
  pose proof (Z.log2_nonneg (dist l (n_id n))).
  assert (Z.log2 (dist l (n_id n)) < 256) by (apply Z.log2_lt_pow2; [done|by apply dist_lt]). lia.
Qed.

Lemma remove_node_sublist id l : Topo.remove_node id l `sublist_of` l.
Proof. induction l as [|n l IH]; simpl; [done|]. case_bool_decide; [by apply sublist_cons|by apply sublist_skip]. Qed.

Lemma remove_node_gone id l : NoDup (map n_id l) → id ∉ map n_id (Topo.remove_node id l).
Proof.
  induction l as [|n l IH]; simpl; [set_solver|]. intros [Hn Hl]%NoDup_cons.
  case_bool_decide as Hid; [by subst|]. simpl. rewrite not_elem_of_cons. split; [congruence|by apply IH].
Qed.

Lemma sublist_forall {A} (P : A → Prop) l l' : l' `sublist_of` l → Forall P l → Forall P l'.
Proof. intros Hs Hl. rewrite Forall_forall in *. intros x Hx. apply Hl. eapply elem_of_submseteq; [done|by apply sublist_submseteq]. Qed.

Lemma listed_sublist limit P l l' : l' `sublist_of` l → listed limit P l → listed limit P l'.
Proof.
  intros Hs (Hlen & Hn & Hf). split_and!.
  - apply sublist_length in Hs. lia.
  - eapply sublist_NoDup; [exact Hn|]. exact (fmap_sublist n_id _ _ Hs).
  - by eapply sublist_forall.
Qed.

Lemma listed_take limit P k l : 0 ≤ k → NoDup (map n_id l) → Forall P l → k ≤ limit → listed limit P (take (Z.to_nat k) l).
Proof.
  intros Hk Hn Hf Hle. split_and!.
  - rewrite length_take. lia.
  - eapply sublist_NoDup; [exact Hn|]. exact (fmap_sublist n_id _ _ (sublist_take l (Z.to_nat k))).
  - eapply sublist_forall; [apply sublist_take|done].
Qed.

Lemma push_limited_listed limit P n l : 0 ≤ limit → P n → listed limit P l → listed limit P (Topo.push_limited limit n l).
Proof.
  intros Hl Hn Hlist. pose proof (listed_sublist _ _ _ _ (remove_node_sublist (n_id n) l) Hlist) as (Hlen & Hnd & Hf).
  destruct Hlist as (_ & Hnd0 & _). unfold Topo.push_limited.
  assert (NoDup (map n_id (Topo.remove_node (n_id n) l ++ [n]))) as Hnd'.
  { rewrite map_app. apply NoDup_app. split_and!; [done| |apply NoDup_singleton].
    intros x Hx. simpl. rewrite list_elem_of_singleton. intros ->. by apply (remove_node_gone (n_id n) l). }
  assert (Forall P (Topo.remove_node (n_id n) l ++ [n])) as Hf' by (apply Forall_app; split; [done|by constructor]).
  case_test; zbool.
  - unfold Topo.most_recent_first. apply listed_take; [done| | |done].
    + by rewrite (Permutation_map n_id (stable_sort_perm _ _)).
    + by rewrite (stable_sort_perm _ _).
  - split_and!; done.
Qed.

Lemma filter_sublist {A} (f : A → bool) l : List.filter f l `sublist_of` l.
Proof. induction l as [|x l IH]; simpl; [done|]. destruct (f x); [by apply sublist_skip|by apply sublist_cons]. Qed.

Lemma get_bucket_ok t n : topo_ok t → good (local_id t) n →
  ∃ b i, Topo.bucket_of t (n_id n) = Z.of_nat i ∧ (i < 256)%nat ∧ routing_buckets t !! i = Some b ∧
    Topo.get_bucket t (Topo.bucket_of t (n_id n)) = Ok b.
Proof.
  intros Hok Hn. pose proof (bucket_range _ _ (ok_local t Hok) Hn) as Hr.
  unfold Topo.get_bucket, Topo.bucket_of. set (k := Id.bucket_index _) in *.
  destruct (lookup_lt_is_Some_2 (routing_buckets t) (Z.to_nat k)) as [b Hb]; [rewrite (ok_buckets t Hok); lia|].
  exists b, (Z.to_nat k). rewrite Hb. split_and!; [lia|lia|done|done].
Qed.

(** Replacing a bucket. *)
Lemma put_bucket_ok t i b : topo_ok t → (i < 256)%nat →
  listed (structural_connection_count (t_config t)) (in_bucket (local_id t) i) b →
  topo_ok (Topo.put_bucket (Z.of_nat i) b t).
Proof.
  intros [] Hi Hb. constructor; simpl; rewrite ?Nat2Z.id; try done.
  - by rewrite length_insert.
  - intros j b' Hj. destruct (decide (j = i)) as [->|Hne].
    + rewrite list_lookup_insert_eq in Hj by lia. by injection Hj as <-.
    + rewrite list_lookup_insert_ne in Hj by done. by apply ok_bucket0.
Qed.

Lemma set_all_ok t m : topo_ok t → (∀ id n, m !! id = Some n → n_id n = id ∧ good (local_id t) n) → topo_ok (Topo.set_all m t).
Proof. intros [] Hm. by constructor. Qed.
Lemma set_rep_ok t l : topo_ok t → (length l ≤ 20)%nat → Forall (good (local_id t)) l → topo_ok (Topo.set_rep l t).
Proof. intros [] Hl Hf. by constructor. Qed.

Lemma best_twenty_ok t l : Forall (good (local_id t)) l →
  (length (take 20 (Topo.best_reputation_first l)) ≤ 20)%nat ∧
  Forall (good (local_id t)) (take 20 (Topo.best_reputation_first l)).
Proof.
  intros Hf. rewrite length_take. split; [lia|]. eapply sublist_forall; [apply sublist_take|].
  unfold Topo.best_reputation_first. by rewrite (stable_sort_perm _ l).
Qed.

Lemma insert_all_ok t id n : topo_ok t → n_id n = id → good (local_id t) n →
  topo_ok (Topo.set_all (<[id := n]> (all_nodes t)) t).
Proof.
  intros Hok Hid Hg. apply set_all_ok; [done|]. intros id' n' [[-> ->]|[_ H]]%lookup_insert_Some; [done|].
  by apply (ok_all t Hok).
Qed.

Lemma place_ok t n : topo_ok t → good (local_id t) n →
  ∃ t', Topo.place n t = Ok t' ∧ topo_ok t' ∧ local_id t' = local_id t.
Proof.
  intros Hok Hn. destruct (ok_limits t Hok) as (H1 & H2 & H3). unfold Topo.place.
  destruct (n_connection_type n).
  - destruct (get_bucket_ok t n Hok Hn) as (b & i & Hi & Hlt & Hb & ->). simpl. eexists. split; [done|].
    split; [|done]. rewrite Hi. apply put_bucket_ok; [done|done|].
    apply push_limited_listed; [done|split; [done|exact Hi]|by apply ok_bucket].
  - eexists. split; [done|]. split; [|done]. destruct Hok. constructor; try done.
    by apply push_limited_listed.
  - destruct (n_region n) as [reg|]; [|by eexists]. eexists. split; [done|]. split; [|done].
    destruct Hok. constructor; try done. simpl. intros r l [[<- <-]|[_ H]]%lookup_insert_Some; [|by apply (ok_geo0 r)].
    apply push_limited_listed; [done|done|]. destruct (geographic_connections t !! reg) eqn:Hg; simpl; [by eapply ok_geo0|].
    split_and!; [done|constructor|constructor].
  - case_test; [|by eexists]. eexists. split; [done|]. split; [|done].
    assert (Forall (good (local_id t)) (Topo.remove_node (n_id n) (reputation_connections t) ++ [n])) as Hf.
    { apply Forall_app. split; [|by constructor]. eapply sublist_forall; [apply remove_node_sublist|by apply ok_rep]. }
    destruct (best_twenty_ok t _ Hf). by apply set_rep_ok.
Qed.

Lemma determine_ok t id region : topo_ok t → id_ok id → id ≠ local_id t →
  ∃ ct, Topo.determine_connection_type t id region = Ok ct.
Proof.
  intros Hok Hid Hne. unfold Topo.determine_connection_type. case_test; [by eexists|].
  destruct (get_bucket_ok t (mkInfo id "" 0 0 None Structural Topo.default_metrics) Hok) as (b & i & _ & _ & _ & Hb).
  { by split. }
  simpl in Hb. rewrite Hb. simpl. repeat case_test; eauto.
Qed.

Lemma add_node_ok {RT : Runtime} id addr region rep t : topo_ok t → id_ok id →
  fst (Topo.add_node id addr region rep t) = Ok tt ∧ topo_ok (snd (Topo.add_node id addr region rep t)).
Proof.
  intros Hok Hid. unfold Topo.add_node. case_bool_decide as Hl; [done|].
  destruct (determine_ok t id region Hok Hid Hl) as [ct ->].
  destruct (place_ok t (mkInfo id addr now rep region ct Topo.default_metrics) Hok) as (t' & -> & Hok' & Hloc); [by split|].
  simpl. split; [done|]. apply insert_all_ok; [done|done|]. split; [done|]. simpl. congruence.
Qed.

Lemma unplace_ok t old n : topo_ok t → good (local_id t) n →
  ∃ t', Topo.unplace old n t = Ok t' ∧ topo_ok t' ∧ local_id t' = local_id t.
Proof.
  intros Hok Hn. unfold Topo.unplace. destruct old.
  - destruct (get_bucket_ok t n Hok Hn) as (b & i & Hi & Hlt & Hb & ->). simpl. eexists. split; [done|]. split; [|done].
    rewrite Hi. apply put_bucket_ok; [done|done|]. eapply listed_sublist; [apply remove_node_sublist|by apply ok_bucket].
  - eexists. split; [done|]. split; [|done]. destruct Hok. constructor; try done.
    eapply listed_sublist; [apply remove_node_sublist|done].
  - destruct (n_region n) as [reg|]; [|by eexists]. eexists. split; [done|]. split; [|done].
    destruct Hok. constructor; try done. simpl. intros r l Hr. destruct (decide (reg = r)) as [->|Hne].
    + rewrite lookup_alter_eq in Hr. apply fmap_Some in Hr as (l0 & Hl0 & ->).
      eapply listed_sublist; [apply remove_node_sublist|by apply (ok_geo0 r)].
    + rewrite lookup_alter_ne in Hr by done. by apply (ok_geo0 r).
  - by eexists.
Qed.

Lemma update_ok {RT : Runtime} id success rt t : topo_ok t →
  fst (Topo.update_node_reputation id success rt t) = Ok tt ∧ topo_ok (snd (Topo.update_node_reputation id success rt t)).
Proof.
  intros Hok. unfold Topo.update_node_reputation. destruct (all_nodes t !! id) as [n|] eqn:Hn; [|done].
  destruct (ok_all t Hok id n Hn) as [Hid Hg].
  assert (n_id (Topo.score success rt n) = n_id n) as Hs by (unfold Topo.score; by destruct success).
  assert (good (local_id t) (Topo.score success rt n)) as Hgs by (unfold good; by rewrite Hs).
  case_test.
  - set (n' := Topo.as_reputation (Topo.score success rt n)).
    set (t1 := Topo.set_all (<[id := n']> (all_nodes t)) t).
    assert (topo_ok t1) as Hok1 by (apply insert_all_ok; [done|by rewrite <-Hid, <-Hs|exact Hgs]).
    destruct (unplace_ok t1 (n_connection_type (Topo.score success rt n)) n' Hok1 Hgs) as (t2 & -> & Hok2 & Hloc).
    simpl. split; [done|].
    assert (Forall (good (local_id t2)) (reputation_connections t2 ++ [n'])) as Hf.
    { apply Forall_app. split; [by apply ok_rep|]. constructor; [|constructor]. rewrite Hloc. exact Hgs. }
    destruct (best_twenty_ok t2 _ Hf). by apply set_rep_ok.
  - simpl. split; [done|]. apply insert_all_ok; [done|by rewrite Hs|done].
Qed.

Lemma drop_stale_ok th t : topo_ok t → topo_ok (Topo.drop_stale th t).
Proof.
  intros []. constructor; simpl; try done.
  - by rewrite length_map.
  - intros i b Hb. change (map ?f ?l !! i) with ((f <$> l) !! i) in Hb. rewrite list_lookup_fmap in Hb.
    apply fmap_Some in Hb as (b0 & Hb0 & ->). eapply listed_sublist; [apply filter_sublist|by apply ok_bucket0].
  - eapply listed_sublist; [apply filter_sublist|done].
  - intros r l Hr. rewrite lookup_fmap in Hr. apply fmap_Some in Hr as (l0 & Hl0 & ->).
    eapply listed_sublist; [apply filter_sublist|by apply (ok_geo0 r)].
  - destruct ok_rep0 as [Hl Hf]. split.
    + etrans; [|exact Hl]. apply sublist_length, filter_sublist.
    + eapply sublist_forall; [apply filter_sublist|done].
  - intros id n [H _]%map_lookup_filter_Some. by apply ok_all0.
Qed.

Lemma refresh_ok {RT : Runtime} t : topo_ok t → topo_ok (snd (Topo.refresh_if_needed t)).
Proof.
  intros Hok. unfold Topo.refresh_if_needed.
  assert (topo_ok (Topo.set_refresh now t)) as Hr by (destruct Hok; by constructor).
  destruct (n_sub now (last_refresh t)); try done. case_test; [done|].
  destruct (n_sub now 3600); try done. by apply drop_stale_ok.
Qed.

Lemma set_seen_ok t m : topo_ok t → topo_ok (Topo.set_seen m t).
Proof. intros []. by constructor. Qed.

Lemma propagate_ok {RT : Runtime} draw id ttl t : topo_ok t → topo_ok (snd (Topo.propagate_message draw id ttl t)).
Proof.
  intros Hok. unfold Topo.propagate_message. destruct (seen_messages t !! id); [done|].
  destruct (n_sub now 3600); try (by apply set_seen_ok). repeat case_test; by apply set_seen_ok.
Qed.

(** The operations that change a topology; each reads the clock when it runs. *)
Inductive topo_step : HybridTopology → HybridTopology → Prop :=
  | step_add (RT : Runtime) id addr region rep t : id_ok id →
      topo_step t (snd (Topo.add_node id addr region rep t))
  | step_update (RT : Runtime) id success rt t : topo_step t (snd (Topo.update_node_reputation id success rt t))
  | step_refresh (RT : Runtime) t : topo_step t (snd (Topo.refresh_if_needed t))
  | step_propagate (RT : Runtime) draw id ttl t : topo_step t (snd (Topo.propagate_message draw id ttl t))
  | step_client t : topo_step t (Topo.set_network_client t).

Inductive topo_reach (config : HybridTopologyConfig) (id : NodeId) : HybridTopology → Prop :=
  | reach_new (RT : Runtime) region : topo_reach config id (Topo.new id config region)
  | reach_step t t' : topo_reach config id t → topo_step t t' → topo_reach config id t'.

Lemma new_ok {RT : Runtime} id config region : id_ok id →
  0 ≤ structural_connection_count config → 0 ≤ long_range_connection_count config →
  0 ≤ geographic_connections_per_region config → topo_ok (Topo.new id config region).
Proof.
  intros Hid H1 H2 H3. constructor; try done.
  - intros i b Hb. unfold Topo.new, routing_buckets in Hb. apply lookup_replicate in Hb as [-> _]. split_and!; [done|constructor|constructor].
  - split_and!; [done|constructor|constructor].
  - split; [simpl; lia|constructor].
Qed.

Lemma step_ok t t' : topo_step t t' → topo_ok t → topo_ok t'.
Proof.
  intros [] Hok.
  - by apply add_node_ok.
  - by apply update_ok.
  - by apply refresh_ok.
  - by apply propagate_ok.
  - destruct Hok. by constructor.
Qed.

(** C14: every topology that operations reach from a new one is well formed: 256
    buckets, each within its limit, without duplicates, and holding only nodes
    at its own distance from the local node; the other collections within their
    limits; the local node nowhere.  Adding a node and scoring one then never
    panic. *)
Theorem topology_invariant (config : HybridTopologyConfig) (id : NodeId) (t : HybridTopology)
    (Hid : id_ok id)
    (Hc : 0 ≤ structural_connection_count config ∧ 0 ≤ long_range_connection_count config ∧
          0 ≤ geographic_connections_per_region config)
    (Hr : topo_reach config id t) :
  topo_ok t ∧
  (∀ (RT : Runtime) i addr region rep, id_ok i → fst (Topo.add_node i addr region rep t) = Ok tt) ∧
  (∀ (RT : Runtime) i success rt, fst (Topo.update_node_reputation i success rt t) = Ok tt).
Proof.
  assert (topo_ok t) as Hok.
  { destruct Hc as (H1 & H2 & H3). induction Hr as [RT region|t t' _ IH Hs]; [by apply new_ok|by eapply step_ok]. }
  split_and!; [done| |].
  - intros RT i addr region rep Hi. by apply add_node_ok.
  - intros RT i success rt. by apply update_ok.
Qed.

(** ** The nearest nodes *)

Section Closest.
Context (target : NodeId) (Htarget : id_ok target).

Abbreviation entry := (Distance * NodeInfo)%type.
Definition dval (p : entry) : Z := be_Z (dist_bytes p.1).

(** The search map: sorted, every node at its distance. *)
Definition at_distance (p : entry) : Prop := p.1 = Id.xor_distance (n_id p.2) target ∧ id_ok (n_id p.2).
Definition bt_wf (l : list entry) : Prop := StronglySorted (fun p q => dval p < dval q) l ∧ Forall at_distance l.

Definition ids (l : list entry) : list NodeId := map (fun p => n_id p.2) l.

Lemma dval_at p : at_distance p → dval p = dist (n_id p.2) target.
Proof. intros [Hp _]. unfold dval. by rewrite Hp. Qed.

Lemma cmp_at p q : at_distance p → at_distance q → Id.dist_cmp p.1 q.1 = (dval p ?= dval q).
Proof. intros [Hp Hpo] [Hq Hqo]. unfold Id.dist_cmp. apply bytes_cmp_be. by rewrite Hp, Hq, !dist_length. Qed.

Lemma bt_insert_elem d n l p : at_distance (d, n) → Forall at_distance l → p ∈ Topo.bt_insert d n l →
  p = (d, n) ∨ p ∈ l.
Proof.
  intros Hn. induction 1 as [|[d' n'] l Hp Hl IH]; simpl; [set_solver|].
  pose proof (cmp_at (d, n) (d', n') Hn Hp) as Hc. simpl in Hc. rewrite Hc.
  destruct (Z.compare_spec (dval (d, n)) (dval (d', n'))) as [He|Hlt|Hgt]; rewrite ?elem_of_cons; [|naive_solver..].
  intros [->|Hin]; [left|naive_solver]. f_equal. rewrite !dval_at in He by done. simpl in He.
  apply dist_inj in He; [|by apply Hn|by apply Hp|done]. destruct Hn as [Hn1 _], Hp as [Hp1 _]. simpl in Hn1, Hp1. by rewrite Hp1, Hn1, He.
Qed.

Lemma bt_insert_wf d n l : at_distance (d, n) → bt_wf l → bt_wf (Topo.bt_insert d n l) ∧
  (∀ i, i ∈ ids (Topo.bt_insert d n l) ↔ i = n_id n ∨ i ∈ ids l).
Proof.
  intros Hn [Hs Hf]. induction Hs as [|[d' n'] l Hs IH Hall]; simpl.
  { split; [|intros i; set_solver]. split; [apply SSorted_cons; [apply SSorted_nil|by apply Forall_nil]|by apply Forall_singleton]. }
  apply Forall_cons in Hf as [Hp Hf]. specialize (IH Hf) as [[IHs IHf] IHi].
  pose proof (cmp_at (d, n) (d', n') Hn Hp) as Hc. simpl in Hc. rewrite Hc.
  destruct (Z.compare_spec (dval (d, n)) (dval (d', n'))) as [He|Hlt|Hgt].
  - assert (n_id n = n_id n') as Hid.
    { rewrite !dval_at in He by done. simpl in He. by apply dist_inj in He; [|apply Hn|apply Hp|]. }
    split; [split|].
    + constructor; [done|]. exact Hall.
    + constructor; [|done]. split; [|by apply Hn]. simpl. destruct Hp as [Hp1 _]. simpl in Hp1. by rewrite Hp1, Hid.
    + intros i. simpl. rewrite !elem_of_cons, Hid. naive_solver.
  - split; [split|].
    + constructor; [by constructor|]. constructor; [done|]. eapply Forall_impl; [exact Hall|]. simpl. intros q Hq. lia.
    + by rewrite !Forall_cons.
    + intros i. simpl. rewrite !elem_of_cons. naive_solver.
  - split; [split|].
    + constructor; [done|]. rewrite Forall_forall. intros q Hq.
      apply bt_insert_elem in Hq as [->|Hq]; [done| |done|done]. rewrite Forall_forall in Hall. by apply Hall.
    + by constructor.
    + intros i. simpl. rewrite !elem_of_cons, IHi. naive_solver.
Qed.

Lemma insert_all_wf ns l : Forall (fun n => id_ok (n_id n)) ns → bt_wf l →
  bt_wf (Topo.insert_all target ns l) ∧
  (∀ i, i ∈ ids (Topo.insert_all target ns l) ↔ i ∈ map n_id ns ∨ i ∈ ids l) ∧
  (∀ p, p ∈ Topo.insert_all target ns l → p.2 ∈ ns ∨ p ∈ l).
Proof.
  unfold Topo.insert_all. revert l. induction ns as [|n ns IH]; intros l Hns Hl; simpl.
  { split_and!; [done| |by right]. intros i. set_solver. }
  apply Forall_cons in Hns as [Hn Hns].
  assert (at_distance (Id.xor_distance (n_id n) target, n)) as Hat by done.
  destruct (bt_insert_wf _ _ _ Hat Hl) as [Hw Hi]. destruct (IH _ Hns Hw) as (IH1 & IH2 & IH3).
  split_and!; [done| |].
  - intros i. rewrite IH2, Hi, elem_of_cons. naive_solver.
  - intros p Hp. destruct (IH3 p Hp) as [?|Hin]; [left; set_solver|].
    apply bt_insert_elem in Hin as [->|?]; [left; set_solver|by right|done|by destruct Hl].
Qed.

Lemma ids_nodup l : bt_wf l → NoDup (ids l).
Proof.
  intros [Hs Hf]. induction Hs as [|p l Hs IH Hall]; simpl; [constructor|]. apply Forall_cons in Hf as [Hp Hf].
  constructor; [|by apply IH]. intros (q & Hq & Hin)%list_elem_of_fmap. rewrite Forall_forall in Hall, Hf.
  specialize (Hall q Hin). rewrite !dval_at in Hall by (done || by apply Hf). rewrite Hq in Hall. lia.
Qed.

(** What the first [k] entries leave out is farther, and there are [k] of them. *)
Lemma take_closest k l i : bt_wf l → i ∈ ids l →
  i ∈ ids (take k l) ∨ (length (take k l) = k ∧ ∀ p, p ∈ take k l → dist (n_id p.2) target < dist i target).
Proof.
  intros [Hs Hf] (q & -> & Hq)%list_elem_of_fmap. destruct (decide (length l ≤ k)%nat) as [Hle|Hgt].
  { left. rewrite take_ge by done. apply list_elem_of_fmap. eauto. }
  rewrite <-(take_drop k l), elem_of_app in Hq. destruct Hq as [Hq|Hq]; [left; apply list_elem_of_fmap; eauto|].
  right. rewrite length_take. split; [lia|]. intros p Hp.
  pose proof (sorted_take_drop _ k l p q Hs Hp Hq) as Hlt. simpl in Hlt. rewrite Forall_forall in Hf.
  rewrite !dval_at in Hlt; [done|apply Hf; rewrite <-(take_drop k l); set_solver..].
Qed.

Lemma sorted_nodes k l : bt_wf l → StronglySorted (fun a b => dist (n_id a) target < dist (n_id b) target) (take k l).*2.
Proof.
  intros [Hs Hf]. revert k. induction Hs as [|p l Hs IH Hall]; intros [|k]; simpl; try apply SSorted_nil.
  apply Forall_cons in Hf as [Hp Hf]. constructor; [by apply IH|].
  rewrite Forall_forall in Hall. rewrite Forall_forall in Hf. apply Forall_forall. intros n (q & -> & Hq)%list_elem_of_fmap.
  assert (q ∈ l) as Hin by (rewrite <-(take_drop k l); set_solver).
  specialize (Hall q Hin). by rewrite !dval_at in Hall by (done || by apply Hf).
Qed.
End Closest.

Section ClosestNodes.
Context (t : HybridTopology) (target : NodeId) (Hok : topo_ok t) (Htarget : id_ok target).

Lemma get_bucket_range idx : 0 ≤ idx < 256 →
  ∃ b, Topo.get_bucket t idx = Ok b ∧ routing_buckets t !! Z.to_nat idx = Some b ∧ Forall (fun n => id_ok (n_id n)) b.
Proof.
  intros Hi. unfold Topo.get_bucket.
  destruct (lookup_lt_is_Some_2 (routing_buckets t) (Z.to_nat idx)) as [b Hb]; [rewrite (ok_buckets t Hok); lia|].
  exists b. rewrite Hb. split_and!; [done|done|]. destruct (ok_bucket t Hok _ b Hb) as (_ & _ & Hf).
  eapply Forall_impl; [exact Hf|]. intros n [[Hn _] _]. done.
Qed.

(** The nodes of the buckets. *)
Definition in_buckets (n : NodeInfo) : Prop := ∃ j b, routing_buckets t !! j = Some b ∧ n ∈ b.

(** The buckets nearer than [i] have been searched. *)
Definition searched (idx i : Z) (l : list (Distance * NodeInfo)) : Prop :=
  ∀ j b n, routing_buckets t !! j = Some b → n ∈ b → idx - i < Z.of_nat j < idx + i → n_id n ∈ ids l.

Record search_ok (idx i : Z) (l : list (Distance * NodeInfo)) : Prop := mkSearch {
  search_wf : bt_wf target l;
  search_from : ∀ p, p ∈ l → in_buckets p.2;
  search_done : searched idx i l;
}.

Lemma add_bucket k b l : routing_buckets t !! k = Some b → Forall (fun n => id_ok (n_id n)) b →
  bt_wf target l → (∀ p, p ∈ l → in_buckets p.2) →
  let l' := Topo.insert_all target b l in
  bt_wf target l' ∧ (∀ p, p ∈ l' → in_buckets p.2) ∧ (∀ n, n ∈ b → n_id n ∈ ids l') ∧ (∀ i, i ∈ ids l → i ∈ ids l').
Proof.
  intros Hb Hf Hw Hin. destruct (insert_all_wf target Htarget b l Hf Hw) as (H1 & H2 & H3). split_and!; [done| | |].
  - intros p [Hp|Hp]%H3; [by exists k, b|by apply Hin].
  - intros n Hn. apply H2. left. apply list_elem_of_fmap. eauto.
  - intros i Hi. apply H2. by right.
Qed.

(** One side of a turn of the search loop. *)
Lemma add_side (c : bool) k l : bt_wf target l → (∀ p, p ∈ l → in_buckets p.2) → (c = true → 0 ≤ k < 256) →
  ∃ l', (if c then b ← Topo.get_bucket t k; Ok (Topo.insert_all target b l) else Ok l) = @Ok StorageNodeError _ l' ∧
    bt_wf target l' ∧ (∀ p, p ∈ l' → in_buckets p.2) ∧ (∀ i, i ∈ ids l → i ∈ ids l') ∧
    (c = true → ∀ b n, routing_buckets t !! Z.to_nat k = Some b → n ∈ b → n_id n ∈ ids l').
Proof.
  intros Hw Hin Hk. destruct c; [|by exists l].
  destruct (get_bucket_range k (Hk eq_refl)) as (b & -> & Hb & Hf). simpl.
  destruct (add_bucket _ b l Hb Hf Hw Hin) as (H1 & H2 & H3 & H4).
  eexists. split; [done|]. split_and!; [done|done|done|]. intros _ b' n Hb' Hn. rewrite Hb in Hb'. injection Hb' as <-. auto.
Qed.

Lemma expand_ok fuel idx i want l : 0 ≤ idx < 256 → 1 ≤ i → 256 - i ≤ Z.of_nat fuel → search_ok idx i l →
  ∃ l' i', Topo.expand fuel t target idx i want l = Ok l' ∧ i ≤ i' ∧ search_ok idx i' l' ∧
    (want ≤ Z.of_nat (length l') ∨ (idx < i' ∧ 256 ≤ idx + i')).
Proof.
  intros Hidx. revert i l. induction fuel as [|fuel IH]; intros i l Hi Hfuel Hl; cbn [Topo.expand].
  all: destruct (Z.ltb_spec (Z.of_nat (length l)) want) as [Hw|Hw]; cbn [andb]; [|by exists l, i; split_and!; [done|lia|done|left]].
  all: destruct ((i <=? idx) || (idx + i <? 256)) eqn:Hgo;
    [|apply orb_false_iff in Hgo as [H1 H2]; zbool; by exists l, i; split_and!; [done|lia|done|right]].
  { apply orb_true_iff in Hgo. rewrite Z.leb_le, Z.ltb_lt in Hgo. lia. }
  destruct Hl as [Hlw Hlf Hls].
  destruct (add_side (i <=? idx) (idx - i) l Hlw Hlf) as (l1 & -> & W1 & F1 & M1 & B1); [intros ?; zbool; lia|]. cbn [mbind outcome_bind].
  destruct (add_side (idx + i <? 256) (idx + i) l1 W1 F1) as (l2 & -> & W2 & F2 & M2 & B2); [intros ?; zbool; lia|]. cbn [mbind outcome_bind].
  destruct (IH (i + 1) l2) as (l' & i' & He & Hi' & Hs' & Hend); [lia|lia| |].
  2: { exists l', i'. split_and!; [done|lia|done|done]. }
  constructor; [done|done|]. intros j b n Hb Hn Hj.
  pose proof (lookup_lt_Some _ _ _ Hb) as Hlt. rewrite (ok_buckets t Hok) in Hlt.
  destruct (decide (Z.of_nat j = idx - i)) as [Hj1|Hj1].
  { apply M2, (B1 ltac:(apply Z.leb_le; lia) b n); [|done]. rewrite <-Hj1. by rewrite Nat2Z.id. }
  destruct (decide (Z.of_nat j = idx + i)) as [Hj2|Hj2].
  { apply (B2 ltac:(apply Z.ltb_lt; lia) b n); [|done]. rewrite <-Hj2. by rewrite Nat2Z.id. }
  apply M2, M1, (Hls j b n Hb Hn). lia.
Qed.

Lemma target_bucket : target ≠ local_id t → 0 ≤ Topo.bucket_of t target < 256.
Proof.
  intros Hne. apply (bucket_range (local_id t) (mkInfo target "" 0 0 None Structural Topo.default_metrics) (ok_local t Hok)).
  by split.
Qed.

(** A node that a result [l] leaves out is farther than everything in it, and
    the result is full. *)
Definition covered (count : Z) (l : list NodeInfo) (n : NodeInfo) : Prop :=
  n_id n ∈ map n_id l ∨
  (Z.of_nat (length l) = count ∧ ∀ n', n' ∈ l → dist (n_id n') target < dist (n_id n) target).

(** The bucket of the target. *)
Definition target_nodes : list NodeInfo := unwrap_or [] (routing_buckets t !! Z.to_nat (Topo.bucket_of t target)).

Lemma in_buckets_join l : (∀ p, p ∈ l → in_buckets p.2) → ∀ i, i ∈ ids l → i ∈ map n_id (mjoin (routing_buckets t)).
Proof.
  intros Hl i (p & -> & Hp)%list_elem_of_fmap. destruct (Hl p Hp) as (j & b & Hb & Hn).
  apply list_elem_of_fmap. exists p.2. split; [done|]. apply list_elem_of_join. exists b. split; [done|]. by eapply list_elem_of_lookup_2.
Qed.

Lemma buckets_length_bound l : bt_wf target l → (∀ p, p ∈ l → in_buckets p.2) → (length l ≤ length (mjoin (routing_buckets t)))%nat.
Proof.
  intros Hw Hl. rewrite <-(length_map (fun p => n_id p.2) l), <-(length_map n_id (mjoin (routing_buckets t))).
  apply submseteq_length, NoDup_submseteq; [by apply (ids_nodup target)|]. by apply in_buckets_join.
Qed.

Lemma forall_ids P l : Forall (good P) l → Forall (fun n => id_ok (n_id n)) l.
Proof. intros Hl. eapply Forall_impl; [exact Hl|]. by intros n [? _]. Qed.

Lemma find_closest_result count : target ≠ local_id t → 0 ≤ count → count * 2 ≤ u64_max →
  ∃ l, Topo.find_closest_nodes t target count = Ok (take (Z.to_nat count) l).*2 ∧ bt_wf target l ∧
    (∀ p, p ∈ l → in_buckets p.2 ∨ p.2 ∈ long_range_connections t ∨ p.2 ∈ reputation_connections t) ∧
    (∀ n, n ∈ target_nodes ∨ n ∈ long_range_connections t ∨ n ∈ reputation_connections t → n_id n ∈ ids l) ∧
    (Z.of_nat (length (mjoin (routing_buckets t))) < count * 2 → ∀ n, in_buckets n → n_id n ∈ ids l).
Proof.
  intros Hne Hc Hmax. pose proof (target_bucket Hne) as Hidx. unfold Topo.find_closest_nodes.
  destruct (get_bucket_range _ Hidx) as (b & -> & Hb & Hbf). cbn [mbind outcome_bind].
  rewrite (proj2 (n_mul_Ok count 2 (count * 2))) by done. cbn [mbind outcome_bind].
  assert (bt_wf target []) as Hnil by (split; [apply SSorted_nil|by apply Forall_nil]).
  destruct (add_bucket _ b [] Hb Hbf Hnil) as (W0 & F0 & B0 & _); [by intros p ?%not_elem_of_nil|].
  destruct (expand_ok 256 (Topo.bucket_of t target) 1 (count * 2) (Topo.insert_all target b [])) as
    (l1 & i' & -> & Hi' & [W1 F1 S1] & Hend); [done|lia|lia| |].
  { constructor; [done|done|]. intros j b' n Hb' Hn Hj. assert (j = Z.to_nat (Topo.bucket_of t target)) as -> by lia.
    rewrite Hb in Hb'. injection Hb' as <-. by apply B0. }
  cbn [mbind outcome_bind].
  destruct (insert_all_wf target Htarget (long_range_connections t) l1) as (W2 & I2 & F2); [|done|].
  { destruct (ok_long t Hok) as (_ & _ & Hf). by eapply forall_ids. }
  destruct (insert_all_wf target Htarget (reputation_connections t) (Topo.insert_all target (long_range_connections t) l1))
    as (W3 & I3 & F3); [|done|].
  { destruct (ok_rep t Hok) as [_ Hf]. by eapply forall_ids. }
  eexists. split; [done|]. split_and!; [done| | |].
  - intros p [?|[?|?]%F2]%F3; [by right; right|by right; left|left; by apply F1].
  - intros n [Hn|[Hn|Hn]]; rewrite I3, I2.
    + right; right. unfold target_nodes in Hn. rewrite Hb in Hn. simpl in Hn. apply (S1 _ b n Hb Hn). lia.
    + right; left. apply list_elem_of_fmap. eauto.
    + left. apply list_elem_of_fmap. eauto.
  - intros Hfew n (j & b' & Hb' & Hn). rewrite I3, I2. right; right. apply (S1 j b' n Hb' Hn).
    pose proof (lookup_lt_Some _ _ _ Hb') as Hlt. rewrite (ok_buckets t Hok) in Hlt.
    pose proof (buckets_length_bound l1 W1 F1). lia.
Qed.

End ClosestNodes.

(** C20: the search for the nearest nodes is total except for the local node
    itself, for which it indexes past the last bucket and panics.  Otherwise it
    returns at most [count] nodes in order of their distance, all of them known;
    of the target's bucket and of the long-range and reputation connections no
    nearer node is left out, and of no bucket at all when the table holds fewer
    than [2 * count] structural nodes. *)
Theorem find_closest_nodes_correct (t : HybridTopology) (target : NodeId) (count : Z)
    (Hok : topo_ok t) (Htarget : id_ok target) (Hc : 0 ≤ count) (Hmax : count * 2 ≤ u64_max) :
  (target = local_id t → Topo.find_closest_nodes t target count = Panic) ∧
  (target ≠ local_id t → ∃ l, Topo.find_closest_nodes t target count = Ok l ∧ Z.of_nat (length l) ≤ count ∧
     StronglySorted (fun a b => dist (n_id a) target < dist (n_id b) target) l ∧
     (∀ n, n ∈ l → in_buckets t n ∨ n ∈ long_range_connections t ∨ n ∈ reputation_connections t) ∧
     (∀ n, n ∈ target_nodes t target ∨ n ∈ long_range_connections t ∨ n ∈ reputation_connections t → covered target count l n) ∧
     (Z.of_nat (length (mjoin (routing_buckets t))) < count * 2 → ∀ n, in_buckets t n → covered target count l n)).
Proof.
  split.
  - intros ->. unfold Topo.find_closest_nodes, Topo.bucket_of. rewrite bucket_index_log2 by done.
    rewrite bool_decide_eq_true_2 by done. unfold Topo.get_bucket.
    rewrite lookup_ge_None_2; [done|]. rewrite (ok_buckets t Hok). lia.
  - intros Hne. destruct (find_closest_result t target Hok Htarget count Hne Hc Hmax) as (l & -> & Hw & Hfrom & Hsel & Hall).
    assert (∀ n, n_id n ∈ ids l → covered target count (take (Z.to_nat count) l).*2 n) as Hcov.
    { intros n Hn. destruct (take_closest target Htarget (Z.to_nat count) l (n_id n) Hw Hn) as [Hin|[Hlen Hfar]].
      - left. apply list_elem_of_fmap in Hin as (p & Hp & Hin). apply list_elem_of_fmap. exists p.2. split; [done|].
        apply list_elem_of_fmap. eauto.
      - right. rewrite length_fmap, Hlen. split; [lia|]. intros n' (p & -> & Hp)%list_elem_of_fmap. by apply Hfar. }
    eexists. split; [done|]. split_and!.
    + rewrite length_fmap, length_take. lia.
    + by apply sorted_nodes.
    + intros n (p & -> & Hp)%list_elem_of_fmap. apply Hfrom. rewrite <-(take_drop (Z.to_nat count) l). set_solver.
    + intros n Hn. by apply Hcov, Hsel.
    + intros Hfew n Hn. apply Hcov. by apply Hall.
Qed.

(** ** Discovery *)

Lemma be_Z_alter_xor k v a : (k < length a)%nat → 0 ≤ v < 256 →
  be_Z (alter (fun b => byte.of_Z (Z.lxor (byte.unsigned b) v)) k a) =
  Z.lxor (be_Z a) (v * 256 ^ Z.of_nat (length a - 1 - k)).
Proof.
  intros Hk Hv. revert k Hk. induction a as [|x a IH]; intros k Hk; [simpl in Hk; lia|].
  pose proof (be_Z_range a) as Hr. set (n := Z.of_nat (length a)) in *.
  assert (256 ^ n = 2 ^ (8 * n)) as Hp by (rewrite Z.pow_mul_r by lia; done).
  destruct k as [|k]; cbn [alter list_alter].
  - rewrite !be_Z_cons. cbn [length]. replace (Z.of_nat (S (length a) - 1 - 0)) with n by lia. fold n.
    rewrite byte.unsigned_of_Z. unfold byte.wrap.
    rewrite Z.mod_small by (apply (lxor_bound 8); [lia|apply u8_val_range|done]).
    rewrite Hp in *. rewrite <-(Z.add_0_r (v * 2 ^ (8 * n))). rewrite lxor_concat by lia.
    by rewrite Z.lxor_0_r.
  - simpl in Hk. rewrite !be_Z_cons, length_alter, IH by lia. cbn [length].
    replace (S (length a) - 1 - S k)%nat with (length a - 1 - k)%nat by lia. fold n.
    set (y := v * 256 ^ Z.of_nat (length a - 1 - k)).
    assert (0 ≤ y < 256 ^ n) as Hy.
    { unfold y. split; [apply Z.mul_nonneg_nonneg; [lia|apply Z.pow_nonneg; lia]|].
      apply Z.lt_le_trans with (256 * 256 ^ Z.of_nat (length a - 1 - k)).
      - apply Z.mul_lt_mono_pos_r; [apply Z.pow_pos_nonneg; lia|lia].
      - rewrite <-Z.pow_succ_r by lia. apply Z.pow_le_mono_r; lia. }
    rewrite Hp in *. rewrite <-(Z.add_0_l y) at 2. rewrite <-(Z.mul_0_l (2 ^ (8 * n))). rewrite lxor_concat by lia.
    rewrite Z.lxor_0_r. done.
Qed.

Lemma flip_bit_ok i id : id_ok id → id_ok (Topo.flip_bit i id).
Proof. intros H. unfold id_ok, Topo.flip_bit in *. simpl. by rewrite length_alter. Qed.

Lemma flip_bit_dist i id : id_ok id → 0 ≤ i < 256 → dist id (Topo.flip_bit i id) = 2 ^ (255 - i).
Proof.
  intros Hid Hi. rewrite dist_lxor by (done || by apply flip_bit_ok). unfold Topo.flip_bit. cbn [node_bytes].
  assert (0 ≤ i mod 8 < 8) as Hm by (apply Z.mod_pos_bound; lia). pose proof (Z.div_mod i 8 ltac:(lia)) as Hdm.
  assert (0 ≤ i / 8 < 32) as Hd by (split; [apply Z.div_pos; lia|apply Z.div_lt_upper_bound; lia]).
  unfold id_ok in Hid. rewrite be_Z_alter_xor; [|lia|].
  - rewrite <-Z.lxor_assoc, Z.lxor_nilpotent, Z.lxor_0_l, Hid.
    rewrite Z.shiftl_mul_pow2, Z.mul_1_l by lia.
    change 256 with (2 ^ 8). rewrite <-Z.pow_mul_r, <-Z.pow_add_r by lia. f_equal. lia.
  - rewrite Z.shiftl_mul_pow2, Z.mul_1_l by lia. split; [apply Z.pow_nonneg; lia|].
    change 256 with (2 ^ 8). apply Z.pow_lt_mono_r; lia.
Qed.

(** The refresh looks nodes up where they are missing: the identifier made for
    a bucket falls into that bucket, and one is made for exactly the buckets
    that are less than half full. *)
Theorem discovery_hits_bucket (t : HybridTopology) (Hok : topo_ok t) :
  (∀ i, 0 ≤ i < 256 → Topo.bucket_of t (Topo.flip_bit i (local_id t)) = i) ∧
  (∀ id, id ∈ Topo.discovery_targets t ↔
     ∃ i b, routing_buckets t !! i = Some b ∧
       Z.of_nat (length b) < structural_connection_count (t_config t) / 2 ∧
       id = Topo.flip_bit (Z.of_nat i) (local_id t)).
Proof.
  split.
  - intros i Hi. unfold Topo.bucket_of. pose proof (ok_local t Hok) as Hl.
    rewrite bucket_index_log2 by (done || by apply flip_bit_ok). rewrite flip_bit_dist by done.
    rewrite Z.log2_pow2 by lia. rewrite bool_decide_eq_false_2; [lia|].
    intros Heq. pose proof (flip_bit_dist i (local_id t) Hl Hi) as Hd.
    rewrite <-Heq in Hd. rewrite (proj2 (dist_zero _ _ Hl Hl) eq_refl) in Hd.
    pose proof (Z.pow_pos_nonneg 2 (255 - i)). lia.
  - intros id. unfold Topo.discovery_targets. rewrite list_elem_of_join. split.
    + intros (l & Hid & Hl). apply elem_of_lookup_imap in Hl as (i & b & -> & Hb).
      case_test; [|set_solver]. zbool. apply list_elem_of_singleton in Hid as ->. eauto.
    + intros (i & b & Hb & Hlt & ->). eexists. split; [|apply elem_of_lookup_imap; eexists i, b; split; [done|exact Hb]].
      simpl. rewrite (proj2 (Z.ltb_lt _ _) Hlt). set_solver.
Qed.

(** ** Propagation *)

(** A message is propagated at most once an hour: whatever the first call
    answers, a second call with the same identifier at the same time sends
    nothing and reports success, also when the first one failed for want of a
    network client; what is sent carries the TTL less one, to every structural
    connection. *)
Theorem propagate_once {RT : Runtime} (draw draw' : ConnectionType → NodeInfo → bool) (mid : bytes) (ttl ttl' : Z) (t : HybridTopology)
    (Hnow : 3600 ≤ now) :
  let '(r, t1) := Topo.propagate_message draw mid ttl t in
  Topo.propagate_message draw' mid ttl' t1 = (Ok None, t1) ∧
  (seen_messages t !! mid = None → ttl ≠ 0 → network_client t = false → r = Err NNetworkClientNotSet) ∧
  (∀ targets ttl1, r = Ok (Some (targets, ttl1)) →
     ttl1 = ttl - 1 ∧ ttl ≠ 0 ∧ ∀ n, in_buckets t n → n_address n ∈ targets).
Proof.
  unfold Topo.propagate_message at 1. destruct (seen_messages t !! mid) as [ts|] eqn:Hseen.
  { split_and!; [|done|done]. unfold Topo.propagate_message. by rewrite Hseen. }
  rewrite (proj2 (n_sub_Ok now 3600 (now - 3600))) by lia.
  set (m := filter _ _). assert (m !! mid = Some now) as Hm.
  { apply map_lookup_filter_Some. split; [apply lookup_insert_eq|simpl; lia]. }
  assert (∀ t1, seen_messages t1 = m → Topo.propagate_message draw' mid ttl' t1 = (Ok None, t1)) as Hagain.
  { intros t1 H1. unfold Topo.propagate_message. by rewrite H1, Hm. }
  destruct (Z.eqb_spec ttl 0) as [->|Httl]; [split_and!; [by apply Hagain|done|done]|].
  cbn [network_client Topo.set_seen]. destruct (network_client t) eqn:Hc; (split_and!; [by apply Hagain|done|]); [|done].
  intros targets ttl1 H. apply Ok_inj in H. injection H as <- <-. split_and!; [done|done|].
  intros n (j & b & Hb & Hn). rewrite !elem_of_union. left; left; left. apply elem_of_list_to_set, list_elem_of_fmap.
  exists n. split; [done|]. apply list_elem_of_join. exists b. split; [done|]. by eapply list_elem_of_lookup_2.
Qed.

(** The printed form of an identifier reads back as that identifier. *)
Lemma node_id_round_trip {HX : Hex} (i : NodeId) : id_ok i → Id.from_string (Id.to_string i) = Ok i.
Proof.
  intros Hi. unfold id_ok in Hi. unfold Id.from_string, Id.to_string. rewrite hex_encode_length, hex_round_trip, Hi. simpl.
  by destruct i.
Qed.

(** ** Witnesses *)

Module TopoWitness.
Definition node (b : u8) : NodeId := mkNodeId (replicate 32 b).
Definition config : HybridTopologyConfig := Topo.default_config.
Definition one : HybridTopology :=
  snd (@Topo.add_node Toy.toy_runtime (node Byte.x01) "addr" None 10 (@Topo.new Toy.toy_runtime (node Byte.x00) config None)).
Lemma one_reach : topo_reach config (node Byte.x00) one.
Proof. eapply reach_step; [exact (reach_new config (node Byte.x00) Toy.toy_runtime None)|]. exact (step_add Toy.toy_runtime (node Byte.x01) "addr" None 10 _ ltac:(reflexivity)). Defined.
Lemma one_ok : topo_ok one.
Proof. apply add_node_ok; [apply new_ok; (reflexivity || (vm_compute; discriminate))|reflexivity]. Qed.
End TopoWitness.

Lemma xor_distance_metric_witness :
  Id.bucket_index (Id.xor_distance (TopoWitness.node Byte.x00) (TopoWitness.node Byte.x01)) = 7 ∧
  dist (TopoWitness.node Byte.x00) (TopoWitness.node Byte.x01) ≤
    dist (TopoWitness.node Byte.x00) (TopoWitness.node Byte.x02) + dist (TopoWitness.node Byte.x02) (TopoWitness.node Byte.x01).
Proof.
  split; [vm_compute; reflexivity|].
  exact (proj1 (proj2 (proj2 (xor_distance_metric (TopoWitness.node Byte.x00) (TopoWitness.node Byte.x02) (TopoWitness.node Byte.x01)
    ltac:(reflexivity) ltac:(reflexivity) ltac:(reflexivity))))).
Defined.

Lemma topology_invariant_witness :
  topo_reach TopoWitness.config (TopoWitness.node Byte.x00) TopoWitness.one ∧ topo_ok TopoWitness.one.
Proof.
  split; [exact TopoWitness.one_reach|].
  refine (proj1 (topology_invariant TopoWitness.config (TopoWitness.node Byte.x00) TopoWitness.one ltac:(reflexivity) _ TopoWitness.one_reach)).
  split_and!; vm_compute; discriminate.
Defined.

Lemma find_closest_nodes_correct_witness :
  ∃ l, Topo.find_closest_nodes TopoWitness.one (TopoWitness.node Byte.x03) 3 = Ok l ∧ length l = 1%nat.
Proof.
  destruct (proj2 (find_closest_nodes_correct TopoWitness.one (TopoWitness.node Byte.x03) 3 TopoWitness.one_ok
    ltac:(reflexivity) ltac:(lia) ltac:(vm_compute; discriminate)) ltac:(vm_compute; discriminate)) as (l & Hl & _).
  exists l. split; [exact Hl|]. vm_compute in Hl. apply Ok_inj in Hl. subst l. reflexivity.
Defined.

Lemma discovery_hits_bucket_witness :
  Topo.bucket_of TopoWitness.one (Topo.flip_bit 200 (TopoWitness.node Byte.x00)) = 200.
Proof. exact (proj1 (discovery_hits_bucket TopoWitness.one TopoWitness.one_ok) 200 ltac:(lia)). Defined.

#[local] Existing Instance Toy.toy_runtime.

Lemma propagate_once_witness :
  3600 ≤ now ∧
  Topo.propagate_message (fun _ _ => true) [] 4 (snd (Topo.propagate_message (fun _ _ => true) [] 4 TopoWitness.one))
  = (Ok None, snd (Topo.propagate_message (fun _ _ => true) [] 4 TopoWitness.one)).
Proof.
  assert (3600 ≤ now) as Hnow by (vm_compute; discriminate). split; [exact Hnow|].
  pose proof (propagate_once (fun _ _ => true) (fun _ _ => true) [] 4 4 TopoWitness.one Hnow) as H.
  destruct (Topo.propagate_message (fun _ _ => true) [] 4 TopoWitness.one) as [r t1]. exact (proj1 H).
Defined.
