(* ===== verification/Metrics.v ===== *)
(** * Metrics of the storage node (dsm_storage_node/src/storage/metrics.rs)

    [Hist] is [LatencyHistogram], [OpM] is [OperationMetrics], [KeyM] is
    [KeyMetrics] and [Coll] is [MetricsCollector] with its timers.  Counters are
    64-bit and checked, the atomic ones wrap.  Clones of a collector share all
    their parts.  The figures that the sysinfo library reads are not modelled. *)
From S2P Require Import Prelude Hexa NodeTypes VectorClock Float Topology.

(** ** Data *)

Inductive OperationType :=
  | OpStore | OpRetrieve | OpDelete | OpExists | OpList | GossipSend | GossipReceive | AntiEntropy
  | TopologyUpdate | HealthCheckPing | HealthCheckPong.

#[global] Instance OperationType_eq_dec : EqDecision OperationType.
Proof. solve_decision. Defined.
#[global] Instance OperationType_countable : Countable OperationType.
Proof.
  by refine (inj_countable'
    (fun t => match t with OpStore => 0 | OpRetrieve => 1 | OpDelete => 2 | OpExists => 3 | OpList => 4 | GossipSend => 5
              | GossipReceive => 6 | AntiEntropy => 7 | TopologyUpdate => 8 | HealthCheckPing => 9 | HealthCheckPong => 10 end%nat)
    (fun n => match n with 0 => OpStore | 1 => OpRetrieve | 2 => OpDelete | 3 => OpExists | 4 => OpList | 5 => GossipSend
              | 6 => GossipReceive | 7 => AntiEntropy | 8 => TopologyUpdate | 9 => HealthCheckPing | _ => HealthCheckPong end%nat) _); intros [].
Defined.

Inductive OperationOutcome := Success | Failure (message : string) | Timeout | PartialSuccess.

Record LatencyBucket := mkBucket { min_us : Z; max_us : Z; count : Z }.

Record LatencyHistogram := mkHistogram {
  lh_buckets : list LatencyBucket;
  lh_min_latency_us : Z;
  lh_max_latency_us : Z;
  lh_total_count : Z;
  lh_latency_sum_us : Z;
}.

Record OperationMetrics := mkOperationMetrics {
  om_operation_type : OperationType;
  om_total_count : Z;
  om_success_count : Z;
  om_failure_count : Z;
  om_timeout_count : Z;
  om_latency_histogram : LatencyHistogram;
  om_recent_latencies : list Z;
  om_max_recent_latencies : nat;
  om_total_data_size : Z;
}.

Record KeyMetrics := mkKeyMetrics {
  km_blinded_id : string;
  km_total_operations : Z;
  km_read_operations : Z;
  km_write_operations : Z;
  km_replication_count : Z;
  km_verification_count : Z;
  km_last_read : Z;
  km_last_write : Z;
  km_access_timestamps : list Z;
  km_max_access_timestamps : nat;
}.

(** [while v.len() > max { v.pop_front() }] *)
Definition keep_last {A} (max : nat) (v : list A) : list A := drop (length v - max) v.

(** ** Histograms *)

Module Hist.

Definition new : LatencyHistogram :=
  mkHistogram [mkBucket 0 100 0; mkBucket 100 1000 0; mkBucket 1000 10000 0; mkBucket 10000 100000 0;
               mkBucket 100000 1000000 0; mkBucket 1000000 10000000 0; mkBucket 10000000 u64_max 0]
    u64_max 0 0 0.

Definition incr (b : LatencyBucket) : outcome LatencyBucket :=
  c ← u64_add (count b) 1; Ok (mkBucket (min_us b) (max_us b) c).

Definition fits (latency_us : Z) (b : LatencyBucket) : bool := (min_us b <=? latency_us) && (latency_us <? max_us b).

(** The loop that increments the first bucket that fits. *)
Fixpoint add_bucket (latency_us : Z) (l : list LatencyBucket) : outcome (list LatencyBucket) :=
  match l with
  | [] => Ok []
  | b :: l =>
      if fits latency_us b then (b' ← incr b; Ok (b' :: l))
      else (l' ← add_bucket latency_us l; Ok (b :: l'))
  end.

(** [last_mut] *)
Fixpoint incr_last (l : list LatencyBucket) : outcome (list LatencyBucket) :=
  match l with
  | [] => Ok []
  | [b] => b' ← incr b; Ok [b']
  | b :: l => l' ← incr_last l; Ok (b :: l')
  end.

Definition add_latency (latency_us : Z) (h : LatencyHistogram) : outcome LatencyHistogram :=
  let min' := if latency_us <? lh_min_latency_us h then latency_us else lh_min_latency_us h in
  let max' := if lh_max_latency_us h <? latency_us then latency_us else lh_max_latency_us h in
  total ← u64_add (lh_total_count h) 1;
  sum ← u64_add (lh_latency_sum_us h) latency_us;
  buckets ← add_bucket latency_us (lh_buckets h);
  buckets ← (if latency_us =? u64_max then incr_last buckets else Ok buckets);
  Ok (mkHistogram buckets min' max' total sum).

Definition average_latency_us (h : LatencyHistogram) : f64 :=
  if lh_total_count h =? 0 then f64_zero else f64_div (f64_of_Z (lh_latency_sum_us h)) (f64_of_Z (lh_total_count h)).

(** The search for the bucket in which the running count reaches the target;
    the midpoint is computed with a checked sum of the bounds. *)
Fixpoint midpoint (target count_sum : Z) (l : list LatencyBucket) : outcome (option f64) :=
  match l with
  | [] => Ok None
  | b :: l =>
      count_sum ← u64_add count_sum (count b);
      if target <=? count_sum then
        bounds ← u64_add (min_us b) (max_us b);
        Ok (Some (f64_div (f64_of_Z bounds) (f64_of_Z 2)))
      else midpoint target count_sum l
  end.

Definition median_latency_us (h : LatencyHistogram) : outcome f64 :=
  if lh_total_count h =? 0 then Ok f64_zero
  else
    m ← midpoint (lh_total_count h / 2) 0 (lh_buckets h);
    Ok (unwrap_or (average_latency_us h) m).

(** [x.round() as u64] *)
Definition f64_round_u64 (x : f64) : Z :=
  match x with
  | S754_finite false m e =>
      Z.min (if 0 <=? e then Z.shiftl (Zpos m) e else Z.shiftr (Zpos m + Z.shiftl 1 (- e - 1)) (- e)) u64_max
  | S754_infinity false => u64_max
  | _ => 0
  end.

Definition percentile_latency_us (percentile : f64) (h : LatencyHistogram) : outcome f64 :=
  if lh_total_count h =? 0 then Ok f64_zero
  else
    let target := f64_round_u64 (f64_div (f64_mul (f64_of_Z (lh_total_count h)) percentile) (f64_of_Z 100)) in
    m ← midpoint target 0 (lh_buckets h);
    Ok (unwrap_or (f64_of_Z (lh_max_latency_us h)) m).

(** The loop over the buckets of the other histogram: those without a
    counterpart are dropped. *)
Fixpoint merge_buckets (mine other : list LatencyBucket) : outcome (list LatencyBucket) :=
  match mine, other with
  | b :: mine, o :: other =>
      c ← u64_add (count b) (count o);
      rest ← merge_buckets mine other;
      Ok (mkBucket (min_us b) (max_us b) c :: rest)
  | _, _ => Ok mine
  end.

Definition merge (other h : LatencyHistogram) : outcome LatencyHistogram :=
  total ← u64_add (lh_total_count h) (lh_total_count other);
  sum ← u64_add (lh_latency_sum_us h) (lh_latency_sum_us other);
  buckets ← merge_buckets (lh_buckets h) (lh_buckets other);
  Ok (mkHistogram buckets (Z.min (lh_min_latency_us h) (lh_min_latency_us other))
        (Z.max (lh_max_latency_us h) (lh_max_latency_us other)) total sum).

End Hist.

(** ** Metrics of an operation *)

Module OpM.

Definition new (operation_type : OperationType) : OperationMetrics :=
  mkOperationMetrics operation_type 0 0 0 0 Hist.new [] 100 0.

Definition record_operation (outcome : OperationOutcome) (latency_us : Z) (data_size : option Z) (m : OperationMetrics)
    : Prelude.outcome OperationMetrics :=
  total ← u64_add (om_total_count m) 1;
  success ← (match outcome with Success | PartialSuccess => u64_add (om_success_count m) 1 | _ => Ok (om_success_count m) end);
  failure ← (match outcome with Failure _ | PartialSuccess => u64_add (om_failure_count m) 1 | _ => Ok (om_failure_count m) end);
  timeout ← (match outcome with Timeout => u64_add (om_timeout_count m) 1 | _ => Ok (om_timeout_count m) end);
  histogram ← Hist.add_latency latency_us (om_latency_histogram m);
  let recent := keep_last (om_max_recent_latencies m) (om_recent_latencies m ++ [latency_us]) in
  size ← (match data_size with Some size => u64_add (om_total_data_size m) size | None => Ok (om_total_data_size m) end);
  Ok (mkOperationMetrics (om_operation_type m) total success failure timeout histogram recent (om_max_recent_latencies m) size).

Definition success_rate (m : OperationMetrics) : f64 :=
  if om_total_count m =? 0 then f64_zero else f64_div (f64_of_Z (om_success_count m)) (f64_of_Z (om_total_count m)).
Definition average_latency_us (m : OperationMetrics) : f64 := Hist.average_latency_us (om_latency_histogram m).

Definition average_recent_latency_us (m : OperationMetrics) : outcome f64 :=
  match om_recent_latencies m with
  | [] => Ok f64_zero
  | l =>
      sum ← foldl (fun acc x => acc ≫= fun acc => u64_add acc x) (Ok 0) l;
      Ok (f64_div (f64_of_Z sum) (f64_of_Z (Z.of_nat (length l))))
  end.

Definition operations_per_second (elapsed_seconds : f64) (m : OperationMetrics) : f64 :=
  if f64_leb elapsed_seconds f64_zero then f64_zero else f64_div (f64_of_Z (om_total_count m)) elapsed_seconds.
Definition throughput_bytes_per_second (elapsed_seconds : f64) (m : OperationMetrics) : f64 :=
  if f64_leb elapsed_seconds f64_zero then f64_zero else f64_div (f64_of_Z (om_total_data_size m)) elapsed_seconds.

Definition merge (other m : OperationMetrics) : outcome OperationMetrics :=
  total ← u64_add (om_total_count m) (om_total_count other);
  success ← u64_add (om_success_count m) (om_success_count other);
  failure ← u64_add (om_failure_count m) (om_failure_count other);
  timeout ← u64_add (om_timeout_count m) (om_timeout_count other);
  histogram ← Hist.merge (om_latency_histogram other) (om_latency_histogram m);
  size ← u64_add (om_total_data_size m) (om_total_data_size other);
  let recent := keep_last (om_max_recent_latencies m) (om_recent_latencies m ++ om_recent_latencies other) in
  Ok (mkOperationMetrics (om_operation_type m) total success failure timeout histogram recent (om_max_recent_latencies m) size).

End OpM.

(** ** Metrics of a key *)

Module KeyM.

Definition new (blinded_id : string) : KeyMetrics := mkKeyMetrics blinded_id 0 0 0 1 1 0 0 [] 100.

(** [now] is the clock in milliseconds. *)
Definition record_read (now : Z) (m : KeyMetrics) : outcome KeyMetrics :=
  total ← u64_add (km_total_operations m) 1;
  reads ← u64_add (km_read_operations m) 1;
  Ok (mkKeyMetrics (km_blinded_id m) total reads (km_write_operations m) (km_replication_count m) (km_verification_count m)
        now (km_last_write m) (keep_last (km_max_access_timestamps m) (km_access_timestamps m ++ [now])) (km_max_access_timestamps m)).

Definition record_write (now : Z) (m : KeyMetrics) : outcome KeyMetrics :=
  total ← u64_add (km_total_operations m) 1;
  writes ← u64_add (km_write_operations m) 1;
  Ok (mkKeyMetrics (km_blinded_id m) total (km_read_operations m) writes (km_replication_count m) (km_verification_count m)
        (km_last_read m) now (keep_last (km_max_access_timestamps m) (km_access_timestamps m ++ [now])) (km_max_access_timestamps m)).

Definition update_counts (replication_count verification_count : Z) (m : KeyMetrics) : KeyMetrics :=
  mkKeyMetrics (km_blinded_id m) (km_total_operations m) (km_read_operations m) (km_write_operations m)
    replication_count verification_count (km_last_read m) (km_last_write m) (km_access_timestamps m) (km_max_access_timestamps m).

Definition access_frequency (now window_minutes : Z) (m : KeyMetrics) : outcome f64 :=
  match km_access_timestamps m with
  | [] => Ok f64_zero
  | l =>
      minutes ← u64_mul window_minutes 60;
      window_ms ← u64_mul minutes 1000;
      let cutoff := saturating_sub now window_ms in
      let count_in_window := length (List.filter (fun ts => cutoff <=? ts) l) in
      if window_minutes =? 0 then Ok f64_zero
      else Ok (f64_div (f64_of_Z (Z.of_nat count_in_window)) (f64_of_Z window_minutes))
  end.

End KeyM.

(** ** The collector *)

Inductive MetricsNodeStatus := NodeOnline | NodeOffline | NodeDegraded | NodeUnknown.

Record NodeMetrics := mkNodeMetrics {
  nm_node_id : string;
  nm_status : MetricsNodeStatus;
  nm_total_operations : Z;
  nm_success_operations : Z;
  nm_failure_operations : Z;
  nm_average_latency_us : f64;
  nm_recent_average_latency_us : f64;
  nm_last_updated : Z;
}.

Record NetworkMetrics := mkNetworkMetrics {
  nw_total_nodes : Z;
  nw_connected_nodes : Z;
  nw_disconnected_nodes : Z;
  nw_diameter_estimate : Z;
  nw_avg_coordination_number : f64;
  nw_connectivity : f64;
  nw_total_messages_sent : Z;
  nw_total_messages_received : Z;
  nw_total_bytes_sent : Z;
  nw_total_bytes_received : Z;
  nw_message_types_received : gmap string Z;
  nw_message_types_sent : gmap string Z;
}.

Record StorageMetrics := mkStorageMetrics {
  sm_total_entries : Z;
  sm_total_bytes : Z;
  sm_avg_entry_size : Z;
  sm_replicated_entries : Z;
  sm_avg_replication_factor : f64;
  sm_max_replication_factor : Z;
  sm_min_replication_factor : Z;
  sm_conflict_rate : f64;
  sm_read_repair_rate : f64;
  sm_space_amplification : f64;
}.

Record EpidemicMetrics := mkEpidemicMetrics {
  ep_gossip_rounds : Z;
  ep_anti_entropy_rounds : Z;
  ep_avg_gossip_fanout : f64;
  ep_avg_entries_per_gossip : f64;
  ep_avg_anti_entropy_time_ms : Z;
  ep_avg_convergence_time_ms : Z;
  ep_total_updates_propagated : Z;
  ep_total_conflicts_resolved : Z;
  ep_failed_propagations : Z;
}.

Record MetricsCollectorConfig := mkCollectorConfig {
  cc_collection_interval_ms : Z;
  cc_max_key_metrics : nat;
  cc_max_node_metrics : nat;
  cc_snapshot_interval_ms : Z;
  cc_max_snapshots : nat;
  cc_enable_detailed_metrics : bool;
  cc_operation_history_limit : nat;
}.

(** Times in nanoseconds. *)
Record OperationContext := mkOperationContext {
  oc_op_type : OperationType;
  oc_target_node : option NodeId;
  oc_key : option string;
  oc_start_time : Z;
  oc_duration : Z;
  oc_data_size : option Z;
  oc_outcome : OperationOutcome;
}.

Record MetricsSnapshot := mkSnapshot {
  ms_timestamp : Z;
  ms_operation_metrics : gmap OperationType OperationMetrics;
  ms_network_metrics : NetworkMetrics;
  ms_storage_metrics : StorageMetrics;
  ms_epidemic_metrics : EpidemicMetrics;
}.

(** The atomic counters. *)
Record Counters := mkCounters {
  ct_total_messages_sent : Z;
  ct_total_messages_received : Z;
  ct_total_bytes_sent : Z;
  ct_total_bytes_received : Z;
  ct_gossip_rounds : Z;
  ct_anti_entropy_rounds : Z;
  ct_total_conflicts_resolved : Z;
  ct_total_read_repairs : Z;
}.

Record MetricsCollector := mkCollector {
  mc_config : MetricsCollectorConfig;
  mc_operation_metrics : gmap OperationType OperationMetrics;
  mc_node_metrics : gmap string NodeMetrics;
  mc_key_metrics : gmap string KeyMetrics;
  mc_network_metrics : NetworkMetrics;
  mc_storage_metrics : StorageMetrics;
  mc_epidemic_metrics : EpidemicMetrics;
  mc_snapshots : list MetricsSnapshot;
  mc_operation_history : list OperationContext;
  mc_counters : Counters;
  mc_custom_metrics : gmap string f64;
}.

Record OperationTimer := mkTimer {
  ot_op_type : OperationType;
  ot_target_node : option NodeId;
  ot_key : option string;
  ot_start_time : Z;
  ot_data_size : option Z;
  ot_outcome : option OperationOutcome;
}.

Module Coll.

Definition default_config : MetricsCollectorConfig := mkCollectorConfig 5000 100 100 60000 60 true 1000.

Definition new (config : MetricsCollectorConfig) : MetricsCollector :=
  mkCollector config ∅ ∅ ∅
    (mkNetworkMetrics 0 0 0 0 f64_zero f64_zero 0 0 0 0 ∅ ∅)
    (mkStorageMetrics 0 0 0 0 f64_zero 0 0 f64_zero f64_zero f64_zero)
    (mkEpidemicMetrics 0 0 f64_zero f64_zero 0 0 0 0 0)
    [] [] (mkCounters 0 0 0 0 0 0 0 0) ∅.

(** [if len > limit { pop_front }] *)
Definition push_history (limit : nat) (op : OperationContext) (l : list OperationContext) : list OperationContext :=
  let l := l ++ [op] in if (limit <? length l)%nat then drop 1 l else l.

Definition record_operation (op : OperationContext) (c : MetricsCollector) : MetricsCollector :=
  mkCollector (mc_config c) (mc_operation_metrics c) (mc_node_metrics c) (mc_key_metrics c) (mc_network_metrics c)
    (mc_storage_metrics c) (mc_epidemic_metrics c) (mc_snapshots c)
    (push_history (cc_operation_history_limit (mc_config c)) op (mc_operation_history c)) (mc_counters c) (mc_custom_metrics c).

(** [inst] is the monotonic clock in nanoseconds. *)
Definition start_operation (inst : Z) (op_type : OperationType) (target_node : option NodeId) (key : option string) : OperationTimer :=
  mkTimer op_type target_node key inst None None.
Definition set_data_size (size : Z) (t : OperationTimer) : OperationTimer :=
  mkTimer (ot_op_type t) (ot_target_node t) (ot_key t) (ot_start_time t) (Some size) (ot_outcome t).
(** What [success] and [failure] hand to the task that records it. *)
Definition success (t : OperationTimer) : OperationTimer :=
  mkTimer (ot_op_type t) (ot_target_node t) (ot_key t) (ot_start_time t) (ot_data_size t) (Some Success).
Definition failure (error_message : string) (t : OperationTimer) : OperationTimer :=
  mkTimer (ot_op_type t) (ot_target_node t) (ot_key t) (ot_start_time t) (ot_data_size t) (Some (Failure error_message)).

Definition set_operation_metrics (m : gmap OperationType OperationMetrics) (k : gmap string KeyMetrics) (c : MetricsCollector)
    : MetricsCollector :=
  mkCollector (mc_config c) m (mc_node_metrics c) k (mc_network_metrics c) (mc_storage_metrics c) (mc_epidemic_metrics c)
    (mc_snapshots c) (mc_operation_history c) (mc_counters c) (mc_custom_metrics c).

(** The turn of the task that records a timer, at [inst] and the system time
    [now], both in nanoseconds. *)
Definition record (inst now : Z) (timer : OperationTimer) (c : MetricsCollector) : outcome MetricsCollector :=
  let duration := Z.max 0 (inst - ot_start_time timer) in
  let latency_us := (duration / 1000) mod 2 ^ 64 in
  let out := unwrap_or (Failure "Outcome not set") (ot_outcome timer) in
  metrics ← OpM.record_operation out latency_us (ot_data_size timer)
              (unwrap_or (OpM.new (ot_op_type timer)) (mc_operation_metrics c !! ot_op_type timer));
  keys ← (match ot_key timer with
          | Some key =>
              k ← KeyM.record_write ((now / 10 ^ 6) mod 2 ^ 64) (unwrap_or (KeyM.new key) (mc_key_metrics c !! key));
              Ok (<[key := k]> (mc_key_metrics c))
          | None => Ok (mc_key_metrics c)
          end);
  Ok (record_operation
        (mkOperationContext (ot_op_type timer) (ot_target_node timer) (ot_key timer) (now - duration) duration (ot_data_size timer) out)
        (set_operation_metrics (<[ot_op_type timer := metrics]> (mc_operation_metrics c)) keys c)).

(** [fetch_add] *)
Definition wrapping_add (a b : Z) : Z := (a + b) mod 2 ^ 64.

Definition set_counters (f : Counters → Counters) (c : MetricsCollector) : MetricsCollector :=
  mkCollector (mc_config c) (mc_operation_metrics c) (mc_node_metrics c) (mc_key_metrics c) (mc_network_metrics c)
    (mc_storage_metrics c) (mc_epidemic_metrics c) (mc_snapshots c) (mc_operation_history c) (f (mc_counters c)) (mc_custom_metrics c).

Definition add_messages (sent received : Z) (t : Counters) : Counters :=
  mkCounters (wrapping_add (ct_total_messages_sent t) sent) (wrapping_add (ct_total_messages_received t) received)
    (ct_total_bytes_sent t) (ct_total_bytes_received t) (ct_gossip_rounds t) (ct_anti_entropy_rounds t)
    (ct_total_conflicts_resolved t) (ct_total_read_repairs t).

Definition record_message_propagated : MetricsCollector → MetricsCollector := set_counters (add_messages 1 0).

Definition record_custom_metric (name : string) (value : f64) (c : MetricsCollector) : MetricsCollector :=
  mkCollector (mc_config c) (mc_operation_metrics c) (mc_node_metrics c) (mc_key_metrics c) (mc_network_metrics c)
    (mc_storage_metrics c) (mc_epidemic_metrics c) (mc_snapshots c) (mc_operation_history c) (mc_counters c)
    (<[name := value]> (mc_custom_metrics c)).
Definition record_routing_table_size (size : Z) : MetricsCollector → MetricsCollector :=
  record_custom_metric "routing_table_size" (f64_of_Z size).

Definition merge_operations (other : list (OperationType * OperationMetrics)) (m : gmap OperationType OperationMetrics)
    : outcome (gmap OperationType OperationMetrics) :=
  foldl (fun acc p => acc ≫= fun acc =>
           match acc !! p.1 with
           | Some mine => merged ← OpM.merge p.2 mine; Ok (<[p.1 := merged]> acc)
           | None => Ok (<[p.1 := p.2]> acc)
           end) (Ok m) other.

Definition merge_network (other n : NetworkMetrics) : outcome NetworkMetrics :=
  ms ← u64_add (nw_total_messages_sent n) (nw_total_messages_sent other);
  mr ← u64_add (nw_total_messages_received n) (nw_total_messages_received other);
  bs ← u64_add (nw_total_bytes_sent n) (nw_total_bytes_sent other);
  br ← u64_add (nw_total_bytes_received n) (nw_total_bytes_received other);
  Ok (mkNetworkMetrics (nw_total_nodes n) (nw_connected_nodes n) (nw_disconnected_nodes n) (nw_diameter_estimate n)
        (nw_avg_coordination_number n) (nw_connectivity n) ms mr bs br (nw_message_types_received n) (nw_message_types_sent n)).

(** [merge] of another collector, whose operations are met in the order
    [order].  A clone shares the locks: its iterator or its read guard is held
    while the write lock is asked for. *)
Definition merge (order : list (OperationType * OperationMetrics)) (is_clone : bool) (other c : MetricsCollector)
    : outcome MetricsCollector :=
  if is_clone then Hang
  else
    operations ← merge_operations order (mc_operation_metrics c);
    network ← merge_network (mc_network_metrics other) (mc_network_metrics c);
    Ok (set_counters (add_messages (ct_total_messages_sent (mc_counters other)) (ct_total_messages_received (mc_counters other)))
          (mkCollector (mc_config c) operations (mc_node_metrics other ∪ mc_node_metrics c) (mc_key_metrics c) network
             (mc_storage_metrics c) (mc_epidemic_metrics c) (mc_snapshots c) (mc_operation_history c) (mc_counters c) (mc_custom_metrics c))).

Definition get_latest_snapshot (c : MetricsCollector) : option MetricsSnapshot := last (mc_snapshots c).
Definition get_all_snapshots (c : MetricsCollector) : list MetricsSnapshot := mc_snapshots c.
Definition get_config (c : MetricsCollector) : MetricsCollectorConfig := mc_config c.

Definition network_report (t : Counters) (n : NetworkMetrics) : NetworkMetrics :=
  mkNetworkMetrics (nw_total_nodes n) (nw_connected_nodes n) (nw_disconnected_nodes n) (nw_diameter_estimate n)
    (nw_avg_coordination_number n) (nw_connectivity n) (ct_total_messages_sent t) (ct_total_messages_received t)
    (ct_total_bytes_sent t) (ct_total_bytes_received t) (nw_message_types_received n) (nw_message_types_sent n).

Definition epidemic_report (t : Counters) (e : EpidemicMetrics) : EpidemicMetrics :=
  mkEpidemicMetrics (ct_gossip_rounds t) (ct_anti_entropy_rounds t) (ep_avg_gossip_fanout e) (ep_avg_entries_per_gossip e)
    (ep_avg_anti_entropy_time_ms e) (ep_avg_convergence_time_ms e) (ep_total_updates_propagated e)
    (ct_total_conflicts_resolved t) (ep_failed_propagations e).

(** The space amplification is computed with the average size of before. *)
Definition storage_report (t : Counters) (s : StorageMetrics) : StorageMetrics :=
  mkStorageMetrics (sm_total_entries s) (sm_total_bytes s)
    (if 0 <? sm_total_entries s then sm_total_bytes s / sm_total_entries s else 0)
    (sm_replicated_entries s) (sm_avg_replication_factor s) (sm_max_replication_factor s) (sm_min_replication_factor s)
    (sm_conflict_rate s)
    (if 0 <? sm_total_entries s then f64_div (f64_of_Z (ct_total_read_repairs t)) (f64_of_Z (sm_total_entries s)) else f64_zero)
    (if 0 <? sm_replicated_entries s
     then f64_div (f64_of_Z (sm_total_bytes s)) (f64_mul (f64_of_Z (sm_replicated_entries s)) (f64_of_Z (sm_avg_entry_size s)))
     else f64_zero).

(** [now] is the clock in milliseconds. *)
Definition generate_report (now : Z) (c : MetricsCollector) : MetricsSnapshot * MetricsCollector :=
  let network := network_report (mc_counters c) (mc_network_metrics c) in
  let epidemic := epidemic_report (mc_counters c) (mc_epidemic_metrics c) in
  let storage := storage_report (mc_counters c) (mc_storage_metrics c) in
  let snapshot := mkSnapshot now (mc_operation_metrics c) network storage epidemic in
  (snapshot,
   mkCollector (mc_config c) (mc_operation_metrics c) (mc_node_metrics c) (mc_key_metrics c) network storage epidemic
     (keep_last (cc_max_snapshots (mc_config c)) (mc_snapshots c ++ [snapshot]))
     (mc_operation_history c) (mc_counters c) (mc_custom_metrics c)).

End Coll.

(** * Facts *)

(** ** Histograms are tallies *)

Definition sumZ (l : list Z) : Z := foldr Z.add 0 l.

Lemma sumZ_app l1 l2 : sumZ (l1 ++ l2) = sumZ l1 + sumZ l2.
Proof. induction l1 as [|x l IH]; cbn; [done|]. unfold sumZ in *. lia. Qed.

Lemma sumZ_nonneg l : Forall (λ x, 0 ≤ x) l → 0 ≤ sumZ l.
Proof. induction 1 as [|x l Hx Hl IH]; cbn; [done|]. unfold sumZ in *. lia. Qed.

(** The number of elements that pass a test. *)
Definition tallyZ {A} (p : A → bool) (l : list A) : Z := Z.of_nat (length (List.filter p l)).

Lemma tally_snoc {A} (p : A → bool) l x : tallyZ p (l ++ [x]) = tallyZ p l + (if p x then 1 else 0).
Proof. unfold tallyZ. rewrite List.filter_app, length_app. cbn. destruct (p x); cbn; lia. Qed.

Lemma tally_app {A} (p : A → bool) l1 l2 : tallyZ p (l1 ++ l2) = tallyZ p l1 + tallyZ p l2.
Proof. unfold tallyZ. rewrite List.filter_app, length_app. lia. Qed.

Lemma tally_bound {A} (p : A → bool) l : 0 ≤ tallyZ p l ≤ Z.of_nat (length l).
Proof. unfold tallyZ. pose proof (List.filter_length_le p l). lia. Qed.

Definition latency_ok (x : Z) : Prop := 0 ≤ x ≤ u64_max.

(** A latency in the range of a bucket; the last one includes its upper end. *)
Definition in_bucket (lo hi x : Z) : bool := (lo <=? x) && ((x <? hi) || ((hi =? u64_max) && (x =? u64_max))).

(** The histogram of a list of latencies, from the definition of its parts. *)
Definition histogram_of (l : list Z) : LatencyHistogram :=
  mkHistogram
    (map (fun b => mkBucket (min_us b) (max_us b) (tallyZ (in_bucket (min_us b) (max_us b)) l)) (lh_buckets Hist.new))
    (foldr Z.min u64_max l) (foldr Z.max 0 l) (Z.of_nat (length l)) (sumZ l).

Definition histogram_fits (l : list Z) : bool := (Z.of_nat (length l) <=? u64_max) && (sumZ l <=? u64_max).

Definition add_all (l : list Z) (h : LatencyHistogram) : outcome LatencyHistogram :=
  foldl (fun acc x => acc ≫= Hist.add_latency x) (Ok h) l.

Lemma incr_below lo hi c : c < u64_max → Hist.incr (mkBucket lo hi c) = Ok (mkBucket lo hi (c + 1)).
Proof. intros H. unfold Hist.incr, u64_add. cbn [count]. destruct (Z.leb_spec (c + 1) u64_max); [done|lia]. Qed.

Lemma foldr_min_le l : foldr Z.min u64_max l ≤ u64_max.
Proof. induction l as [|y l IH]; cbn; lia. Qed.

Lemma foldr_max_ge l : 0 ≤ foldr Z.max 0 l.
Proof. induction l as [|y l IH]; cbn; lia. Qed.

Lemma foldr_min_snoc l x : foldr Z.min u64_max (l ++ [x]) = if x <? foldr Z.min u64_max l then x else foldr Z.min u64_max l.
Proof.
  induction l as [|y l IH]; [cbn [app foldr]; destruct (Z.ltb_spec x u64_max); lia|].
  cbn [app foldr]. rewrite IH. destruct (Z.ltb_spec x (foldr Z.min u64_max l)), (Z.ltb_spec x (Z.min y (foldr Z.min u64_max l))); lia.
Qed.

Lemma foldr_max_snoc l x : 0 ≤ x → foldr Z.max 0 (l ++ [x]) = if foldr Z.max 0 l <? x then x else foldr Z.max 0 l.
Proof.
  intros Hx. induction l as [|y l IH]; [cbn [app foldr]; destruct (Z.ltb_spec 0 x); lia|].
  cbn [app foldr]. rewrite IH. destruct (Z.ltb_spec (foldr Z.max 0 l) x), (Z.ltb_spec (Z.max y (foldr Z.max 0 l)) x); lia.
Qed.

Lemma foldr_min_app l1 l2 : foldr Z.min u64_max (l1 ++ l2) = Z.min (foldr Z.min u64_max l1) (foldr Z.min u64_max l2).
Proof.
  induction l1 as [|y l IH]; cbn; [|rewrite IH; lia].
  pose proof (foldr_min_le l2). lia.
Qed.

Lemma foldr_max_app l1 l2 : foldr Z.max 0 (l1 ++ l2) = Z.max (foldr Z.max 0 l1) (foldr Z.max 0 l2).
Proof.
  induction l1 as [|y l IH]; cbn; [|rewrite IH; lia].
  pose proof (foldr_max_ge l2). lia.
Qed.

(** One more latency goes to exactly one bucket. *)
Lemma buckets_step l x : latency_ok x → Z.of_nat (length l) < u64_max →
  (b ← Hist.add_bucket x (lh_buckets (histogram_of l)); if x =? u64_max then Hist.incr_last b else Ok b) =
  Ok (lh_buckets (histogram_of (l ++ [x]))).
Proof.
  unfold latency_ok. intros Hx Hn. assert (∀ p, tallyZ p l < u64_max) as Hb.
  { intros p. pose proof (tally_bound p l). lia. }
  unfold histogram_of. cbn [lh_buckets Hist.new map min_us max_us]. setoid_rewrite tally_snoc.
  cbn [Hist.add_bucket]. unfold Hist.fits. cbn [min_us max_us].
  assert (∀ lo hi, hi < u64_max → in_bucket lo hi x = (lo <=? x) && (x <? hi)) as Hin.
  { intros lo hi Hhi. unfold in_bucket. rewrite (proj2 (Z.eqb_neq hi u64_max)) by lia. cbn [andb]. by rewrite orb_false_r. }
  rewrite !Hin by (unfold u64_max; lia).
  assert (in_bucket 10000000 u64_max x = (10000000 <=? x)) as Hlast.
  { unfold in_bucket. rewrite Z.eqb_refl. cbn [andb]. destruct (10000000 <=? x); [cbn [andb]|done].
    destruct (Z.ltb_spec x u64_max); [done|]. cbn [orb]. apply Z.eqb_eq. lia. }
  rewrite Hlast.
  destruct (Z.ltb_spec x 100); [|destruct (Z.ltb_spec x 1000); [|destruct (Z.ltb_spec x 10000); [|destruct (Z.ltb_spec x 100000);
    [|destruct (Z.ltb_spec x 1000000); [|destruct (Z.ltb_spec x 10000000); [|destruct (Z.ltb_spec x u64_max)]]]]]];
  repeat match goal with |- context [?a <=? x] => destruct (Z.leb_spec a x); [|try lia] end; try lia;
  cbn [andb]; rewrite ?incr_below by apply Hb; cbn [mbind outcome_bind];
  (destruct (Z.eqb_spec x u64_max); [try (unfold u64_max in *; lia)|try lia]);
  rewrite ?Z.add_0_r; try done.
  cbn [Hist.incr_last]. by rewrite incr_below by apply Hb.
Qed.

Lemma add_latency_step l x : latency_ok x → Z.of_nat (length l) ≤ u64_max →
  Hist.add_latency x (histogram_of l) = if histogram_fits (l ++ [x]) then Ok (histogram_of (l ++ [x])) else Panic.
Proof.
  intros Hx Hn. unfold Hist.add_latency, histogram_fits, u64_add.
  assert (Z.of_nat (length (l ++ [x])) = Z.of_nat (length l) + 1) as Hlen by (rewrite length_app; cbn; lia).
  assert (sumZ (l ++ [x]) = sumZ l + x) as Hsum by (rewrite sumZ_app; cbn; lia).
  rewrite Hlen, Hsum. change (lh_total_count (histogram_of l)) with (Z.of_nat (length l)).
  change (lh_latency_sum_us (histogram_of l)) with (sumZ l).
  destruct (Z.leb_spec (Z.of_nat (length l) + 1) u64_max) as [H1|H1]; [cbn [mbind outcome_bind andb]|done].
  destruct (Z.leb_spec (sumZ l + x) u64_max) as [H2|H2]; [cbn [mbind outcome_bind]|done].
  pose proof (buckets_step l x Hx ltac:(lia)) as Hb. unfold mbind, outcome_bind in Hb |- *.
  destruct (Hist.add_bucket x _) as [b| | |]; [|discriminate Hb..].
  rewrite Hb. f_equal. unfold histogram_of. cbn [lh_min_latency_us lh_max_latency_us lh_buckets]. unfold latency_ok in Hx.
  by rewrite Hlen, Hsum, foldr_min_snoc, foldr_max_snoc by lia.
Qed.

Lemma histogram_fits_prefix l1 l2 : Forall latency_ok (l1 ++ l2) → histogram_fits (l1 ++ l2) = true → histogram_fits l1 = true.
Proof.
  intros [H1 H2]%Forall_app. unfold histogram_fits. rewrite length_app, sumZ_app, !andb_true_iff, !Z.leb_le.
  assert (0 ≤ sumZ l2) by (apply sumZ_nonneg; eapply Forall_impl; [exact H2|unfold latency_ok; lia]). lia.
Qed.

(** The histogram of a stream of latencies is the tally of its elements, as
    long as their number and their sum fit 64 bits; otherwise recording panics. *)
Theorem histogram_exact (l : list Z) :
  Forall latency_ok l → add_all l Hist.new = if histogram_fits l then Ok (histogram_of l) else Panic.
Proof.
  induction l as [|x l IH] using rev_ind; [intros _; vm_compute; reflexivity|]. intros [Hl Hx]%Forall_app. apply Forall_inv in Hx.
  unfold add_all in *. rewrite foldl_app. cbn [foldl]. rewrite IH by done.
  destruct (histogram_fits l) eqn:E; cbn [mbind outcome_bind].
  - apply add_latency_step; [exact Hx|]. unfold histogram_fits in E. apply andb_true_iff in E as [E _]. lia.
  - destruct (histogram_fits (l ++ [x])) eqn:E'; [|done].
    apply histogram_fits_prefix in E'; [congruence|]. by apply Forall_app_2; [|constructor].
Qed.

Lemma merge_buckets_tally l1 l2 (bs : list LatencyBucket) :
  (∀ p : Z → bool, tallyZ p (l1 ++ l2) ≤ u64_max) →
  Hist.merge_buckets (map (fun b => mkBucket (min_us b) (max_us b) (tallyZ (in_bucket (min_us b) (max_us b)) l1)) bs)
    (map (fun b => mkBucket (min_us b) (max_us b) (tallyZ (in_bucket (min_us b) (max_us b)) l2)) bs) =
  Ok (map (fun b => mkBucket (min_us b) (max_us b) (tallyZ (in_bucket (min_us b) (max_us b)) (l1 ++ l2))) bs).
Proof.
  intros Hb. induction bs as [|b bs IH]; [done|]. cbn [map Hist.merge_buckets count min_us max_us]. unfold u64_add.
  specialize (Hb (in_bucket (min_us b) (max_us b))). rewrite tally_app in *.
  destruct (Z.leb_spec (tallyZ (in_bucket (min_us b) (max_us b)) l1 + tallyZ (in_bucket (min_us b) (max_us b)) l2) u64_max); [|lia].
  cbn [mbind outcome_bind]. rewrite IH. done.
Qed.

Lemma merge_histograms l1 l2 :
  Hist.merge (histogram_of l2) (histogram_of l1) = if histogram_fits (l1 ++ l2) then Ok (histogram_of (l1 ++ l2)) else Panic.
Proof.
  unfold Hist.merge, histogram_fits, u64_add. cbn [histogram_of lh_total_count lh_latency_sum_us lh_buckets lh_min_latency_us lh_max_latency_us].
  rewrite length_app, Nat2Z.inj_add, sumZ_app.
  destruct (Z.leb_spec (Z.of_nat (length l1) + Z.of_nat (length l2)) u64_max) as [H1|H1]; [cbn [mbind outcome_bind andb]|done].
  destruct (Z.leb_spec (sumZ l1 + sumZ l2) u64_max) as [H2|H2]; [cbn [mbind outcome_bind]|done].
  rewrite merge_buckets_tally; [|intros p; pose proof (tally_bound p (l1 ++ l2)) as [_ Hp]; rewrite length_app in Hp; lia].
  cbn [mbind outcome_bind]. unfold histogram_of. by rewrite foldr_min_app, foldr_max_app, length_app, Nat2Z.inj_add, sumZ_app.
Qed.

(** ** The median *)

Lemma below_next lo hi l : 0 ≤ lo → lo ≤ hi → hi < u64_max →
  tallyZ (λ x, x <? lo) l + tallyZ (in_bucket lo hi) l = tallyZ (λ x, x <? hi) l.
Proof.
  intros H1 H2 H3. induction l as [|x l IH] using rev_ind; [done|]. rewrite !tally_snoc.
  unfold in_bucket at 2. rewrite (proj2 (Z.eqb_neq hi u64_max)) by lia. cbn [andb]. rewrite orb_false_r.
  destruct (Z.ltb_spec x lo), (Z.leb_spec lo x), (Z.ltb_spec x hi); cbn [andb]; lia.
Qed.

(** The midpoint of the bucket in which the count reaches [half]. *)
Definition median_cases (half : Z) (l : list Z) : outcome f64 :=
  let below t := tallyZ (λ x, x <? t) l in
  if half <=? below 100 then Ok (f64_div (f64_of_Z 100) (f64_of_Z 2))
  else if half <=? below 1000 then Ok (f64_div (f64_of_Z 1100) (f64_of_Z 2))
  else if half <=? below 10000 then Ok (f64_div (f64_of_Z 11000) (f64_of_Z 2))
  else if half <=? below 100000 then Ok (f64_div (f64_of_Z 110000) (f64_of_Z 2))
  else if half <=? below 1000000 then Ok (f64_div (f64_of_Z 1100000) (f64_of_Z 2))
  else if half <=? below 10000000 then Ok (f64_div (f64_of_Z 11000000) (f64_of_Z 2))
  else Panic.

Lemma midpoint_step half lo hi l bs : 0 ≤ lo → lo ≤ hi → hi < 2 ^ 63 → Z.of_nat (length l) ≤ u64_max →
  Hist.midpoint half (tallyZ (λ x, x <? lo) l) (mkBucket lo hi (tallyZ (in_bucket lo hi) l) :: bs) =
  if half <=? tallyZ (λ x, x <? hi) l then Ok (Some (f64_div (f64_of_Z (lo + hi)) (f64_of_Z 2)))
  else Hist.midpoint half (tallyZ (λ x, x <? hi) l) bs.
Proof.
  intros H1 H2 H3 Hn. cbn [Hist.midpoint count min_us max_us]. pose proof (tally_bound (λ x, x <? hi) l).
  assert (u64_add (tallyZ (λ x, x <? lo) l) (tallyZ (in_bucket lo hi) l) = Ok (tallyZ (λ x, x <? hi) l)) as ->.
  { rewrite u64_add_Ok, (below_next lo hi) by (unfold u64_max; lia). lia. }
  cbn [mbind outcome_bind]. case_match; [|done]. unfold u64_add.
  destruct (Z.leb_spec (lo + hi) u64_max); [done|unfold u64_max in *; lia].
Qed.

Lemma all_below l : Forall latency_ok l → tallyZ (λ x, x <? 10000000) l + tallyZ (in_bucket 10000000 u64_max) l = Z.of_nat (length l).
Proof.
  induction l as [|x l IH] using rev_ind; [done|]. intros [Hl Hx]%Forall_app. apply Forall_inv in Hx. specialize (IH Hl).
  rewrite !tally_snoc, length_app. cbn [length].
  unfold latency_ok in Hx. unfold in_bucket at 2. rewrite Z.eqb_refl. cbn [andb].
  destruct (Z.ltb_spec x 10000000), (Z.leb_spec 10000000 x), (Z.ltb_spec x u64_max), (Z.eqb_spec x u64_max); cbn [andb orb]; lia.
Qed.

Lemma midpoint_tally l : Z.of_nat (length l) ≤ u64_max → Forall latency_ok l →
  Hist.midpoint (Z.of_nat (length l) / 2) 0 (lh_buckets (histogram_of l)) ≫= (λ m, Ok (unwrap_or (Hist.average_latency_us (histogram_of l)) m)) =
  median_cases (Z.of_nat (length l) / 2) l.
Proof.
  intros Hn Hl. assert (tallyZ (λ x, x <? 0) l = 0) as H0.
  { clear Hn. revert Hl. induction l as [|x l IH] using rev_ind; [done|]. intros [Hl Hx]%Forall_app. apply Forall_inv in Hx.
    rewrite tally_snoc, (IH Hl). unfold latency_ok in Hx.
    destruct (Z.ltb_spec x 0); lia. }
  rewrite <- H0 at 1. unfold median_cases. cbn [lh_buckets histogram_of Hist.new map min_us max_us].
  do 6 (rewrite midpoint_step by lia; case_match; [done|]).
  cbn [Hist.midpoint count min_us max_us]. unfold u64_add. rewrite all_below by done.
  destruct (Z.leb_spec (Z.of_nat (length l)) u64_max); [|lia]. cbn [mbind outcome_bind].
  destruct (Z.leb_spec (Z.of_nat (length l) / 2) (Z.of_nat (length l))) as [_|Hlt]; [done|].
  pose proof (Z.div_le_upper_bound (Z.of_nat (length l)) 2 (Z.of_nat (length l))). lia.
Qed.

(** The median is the midpoint of the first bucket up to which at least half of
    the measurements, rounded down, have been counted.  It is the midpoint 50 of the
    first bucket for a single measurement of any size, and a panic as soon as that
    bucket is the last one, whose bounds overflow when they are added. *)
Theorem median_exact (l : list Z) :
  Forall latency_ok l → histogram_fits l = true →
  let half := Z.of_nat (length l) / 2 in
  let below t := tallyZ (λ x, x <? t) l in
  Hist.median_latency_us (histogram_of l) =
    match l with
    | [] => Ok f64_zero
    | _ =>
        if half <=? below 100 then Ok (f64_div (f64_of_Z 100) (f64_of_Z 2))
        else if half <=? below 1000 then Ok (f64_div (f64_of_Z 1100) (f64_of_Z 2))
        else if half <=? below 10000 then Ok (f64_div (f64_of_Z 11000) (f64_of_Z 2))
        else if half <=? below 100000 then Ok (f64_div (f64_of_Z 110000) (f64_of_Z 2))
        else if half <=? below 1000000 then Ok (f64_div (f64_of_Z 1100000) (f64_of_Z 2))
        else if half <=? below 10000000 then Ok (f64_div (f64_of_Z 11000000) (f64_of_Z 2))
        else Panic
    end.
Proof.
  intros Hl Hf. cbv zeta. unfold histogram_fits in Hf. apply andb_true_iff in Hf as [Hn _]. apply Z.leb_le in Hn.
  unfold Hist.median_latency_us. change (lh_total_count (histogram_of l)) with (Z.of_nat (length l)).
  assert (Hist.midpoint (Z.of_nat (length l) / 2) 0 (lh_buckets (histogram_of l)) ≫= (λ m, Ok (unwrap_or (Hist.average_latency_us (histogram_of l)) m)) =
    median_cases (Z.of_nat (length l) / 2) l) as ->; [|by destruct l].
  unfold median_cases. apply (midpoint_tally l); [done|]. exact Hl.
Qed.

(** ** Operations *)

Definition Sample : Type := OperationOutcome * Z * option Z.
Definition is_success (s : Sample) : bool := match s.1.1 with Success | PartialSuccess => true | _ => false end.
Definition is_failure (s : Sample) : bool := match s.1.1 with Failure _ | PartialSuccess => true | _ => false end.
Definition is_timeout (s : Sample) : bool := match s.1.1 with Timeout => true | _ => false end.
Definition is_partial (s : Sample) : bool := match s.1.1 with PartialSuccess => true | _ => false end.
Definition latency_of (s : Sample) : Z := s.1.2.
Definition size_of (s : Sample) : Z := unwrap_or 0 s.2.

Definition sample_ok (s : Sample) : Prop := latency_ok (latency_of s) ∧ 0 ≤ size_of s.

Definition record_all (l : list Sample) (m : OperationMetrics) : outcome OperationMetrics :=
  foldl (fun acc s => acc ≫= OpM.record_operation s.1.1 s.1.2 s.2) (Ok m) l.

(** The metrics of a list of samples, from the definition of their parts. *)
Definition metrics_of (t : OperationType) (l : list Sample) : OperationMetrics :=
  mkOperationMetrics t (Z.of_nat (length l)) (tallyZ is_success l) (tallyZ is_failure l) (tallyZ is_timeout l)
    (histogram_of (latency_of <$> l)) (keep_last 100 (latency_of <$> l)) 100 (sumZ (size_of <$> l)).

Definition metrics_fit (l : list Sample) : bool :=
  histogram_fits (latency_of <$> l) && (sumZ (size_of <$> l) <=? u64_max).

Lemma keep_last_app {A} n (l1 l2 : list A) : keep_last n (keep_last n l1 ++ l2) = keep_last n (l1 ++ l2).
Proof.
  unfold keep_last. rewrite !length_app, length_drop.
  destruct (decide (length l1 ≤ n)%nat).
  - replace (length l1 - n)%nat with 0%nat by lia. rewrite drop_0. f_equal. lia.
  - replace (l1 ++ l2) with (take (length l1 - n) l1 ++ (drop (length l1 - n) l1 ++ l2)) by (by rewrite app_assoc, take_drop).
    rewrite (drop_app_ge (take _ _)) by (rewrite length_take; lia). f_equal. rewrite length_take. lia.
Qed.

Lemma keep_last_merge {A} n (l1 l2 : list A) : keep_last n (keep_last n l1 ++ keep_last n l2) = keep_last n (l1 ++ l2).
Proof.
  rewrite keep_last_app. unfold keep_last at 2. unfold keep_last. rewrite !length_app, length_drop.
  destruct (decide (length l2 ≤ n)%nat).
  - replace (length l2 - n)%nat with 0%nat by lia. rewrite drop_0. f_equal. lia.
  - rewrite !(drop_app_ge l1) by lia. rewrite drop_drop. f_equal. lia.
Qed.

Lemma incr_tally (p : Sample → bool) (l : list Sample) s : Z.of_nat (length l) < u64_max →
  (if p s then u64_add (tallyZ p l) 1 else Ok (tallyZ p l)) = Ok (tallyZ p (l ++ [s])).
Proof.
  intros Hn. rewrite tally_snoc. pose proof (tally_bound p l).
  destruct (p s); [rewrite u64_add_Ok; lia|by rewrite Z.add_0_r].
Qed.

Lemma record_step t l s : sample_ok s → metrics_fit l = true →
  OpM.record_operation s.1.1 s.1.2 s.2 (metrics_of t l) = if metrics_fit (l ++ [s]) then Ok (metrics_of t (l ++ [s])) else Panic.
Proof.
  intros [Hs Hz] Hfit. unfold metrics_fit, histogram_fits in Hfit. rewrite !andb_true_iff, !Z.leb_le, length_fmap in Hfit.
  destruct Hfit as [[Hn Hsum] Hsize]. unfold OpM.record_operation, metrics_fit.
  cbn [metrics_of om_operation_type om_total_count om_success_count om_failure_count om_timeout_count om_latency_histogram
       om_recent_latencies om_max_recent_latencies om_total_data_size].
  rewrite !fmap_app, !fmap_cons, !fmap_nil.
  destruct (decide (Z.of_nat (length l) = u64_max)) as [Hmax|Hlt].
  { assert (u64_add (Z.of_nat (length l)) 1 = Panic) as ->.
    { unfold u64_add. destruct (Z.leb_spec (Z.of_nat (length l) + 1) u64_max); [lia|done]. }
    unfold histogram_fits. rewrite length_app, length_fmap. cbn [length].
    destruct (Z.leb_spec (Z.of_nat (length l + 1)) u64_max); [lia|done]. }
  replace (u64_add (Z.of_nat (length l)) 1) with (@Ok DsmError _ (Z.of_nat (length (l ++ [s]))))
    by (symmetry; apply u64_add_Ok; rewrite length_app; cbn; lia). cbn [mbind outcome_bind].
  assert ((match s.1.1 with Success | PartialSuccess => u64_add (tallyZ is_success l) 1 | _ => Ok (tallyZ is_success l) end) =
    Ok (tallyZ is_success (l ++ [s]))) as ->.
  { rewrite <- (incr_tally is_success l s) by lia. unfold is_success. by destruct (s.1.1). }
  assert ((match s.1.1 with Failure _ | PartialSuccess => u64_add (tallyZ is_failure l) 1 | _ => Ok (tallyZ is_failure l) end) =
    Ok (tallyZ is_failure (l ++ [s]))) as ->.
  { rewrite <- (incr_tally is_failure l s) by lia. unfold is_failure. by destruct (s.1.1). }
  assert ((match s.1.1 with Timeout => u64_add (tallyZ is_timeout l) 1 | _ => Ok (tallyZ is_timeout l) end) =
    Ok (tallyZ is_timeout (l ++ [s]))) as ->.
  { rewrite <- (incr_tally is_timeout l s) by lia. unfold is_timeout. by destruct (s.1.1). }
  cbn [mbind outcome_bind]. change s.1.2 with (latency_of s). rewrite add_latency_step by (rewrite ?length_fmap; done || lia).
  destruct (histogram_fits _); [cbn [mbind outcome_bind andb]|done].
  rewrite sumZ_app. cbn [fmap list_fmap sumZ foldr]. rewrite Z.add_0_r.
  assert ((match s.2 with Some size => u64_add (sumZ (size_of <$> l)) size | None => Ok (sumZ (size_of <$> l)) end) =
    if sumZ (size_of <$> l) + size_of s <=? u64_max then Ok (sumZ (size_of <$> l) + size_of s) else Panic) as ->.
  { change (size_of s) with (unwrap_or 0 s.2). destruct (s.2) as [z|]; cbn [unwrap_or]; [done|]. rewrite Z.add_0_r.
    by rewrite (proj2 (Z.leb_le _ _) Hsize). }
  destruct (sumZ (size_of <$> l) + size_of s <=? u64_max); [|done]. cbn [mbind outcome_bind].
  rewrite keep_last_app. unfold metrics_of. rewrite !fmap_app, !fmap_cons, !fmap_nil, sumZ_app.
  change (sumZ [size_of s]) with (size_of s + 0). by rewrite Z.add_0_r.
Qed.

Lemma metrics_fit_prefix l1 l2 : Forall sample_ok (l1 ++ l2) → metrics_fit (l1 ++ l2) = true → metrics_fit l1 = true.
Proof.
  intros Hok. unfold metrics_fit. rewrite !fmap_app, !andb_true_iff, !Z.leb_le, sumZ_app. intros [H1 H2]. split.
  - apply (histogram_fits_prefix _ (latency_of <$> l2)); [|done]. rewrite <- fmap_app. apply Forall_fmap.
    eapply Forall_impl; [exact Hok|]. by intros s [? _].
  - apply Forall_app in Hok as [_ Hok]. assert (0 ≤ sumZ (size_of <$> l2)); [|lia]. apply sumZ_nonneg, Forall_fmap.
    eapply Forall_impl; [exact Hok|]. by intros s [_ ?].
Qed.

Lemma record_all_spec t l : Forall sample_ok l →
  record_all l (OpM.new t) = if metrics_fit l then Ok (metrics_of t l) else Panic.
Proof.
  induction l as [|s l IH] using rev_ind; [intros _; reflexivity|]. intros [Hl Hs]%Forall_app. apply Forall_inv in Hs.
  unfold record_all in *. rewrite foldl_app. cbn [foldl]. rewrite IH by done.
  destruct (metrics_fit l) eqn:E; cbn [mbind outcome_bind]; [by apply record_step|].
  destruct (metrics_fit (l ++ [s])) eqn:E'; [|done].
  apply metrics_fit_prefix in E'; [congruence|]. by apply Forall_app_2; [|constructor].
Qed.

Lemma outcomes_partition l :
  tallyZ is_success l + tallyZ is_failure l + tallyZ is_timeout l =
  Z.of_nat (length l) + tallyZ is_partial l.
Proof.
  induction l as [|s l IH] using rev_ind; [done|]. rewrite !tally_snoc, length_app. cbn [length].
  unfold is_success at 2, is_failure at 2, is_timeout at 2, is_partial at 2. destruct (s.1.1); cbn; lia.
Qed.

(** Merging is recording: metrics recorded on two collectors and merged are the
    metrics of the samples of both recorded on one, the histogram with its extremes
    and the hundred most recent latencies included; merging panics exactly when
    recording them on one would have. *)
Theorem merge_is_recording (t t' : OperationType) (l1 l2 : list Sample) (m1 m2 : OperationMetrics) :
  Forall sample_ok l1 → Forall sample_ok l2 →
  record_all l1 (OpM.new t) = Ok m1 → record_all l2 (OpM.new t') = Ok m2 →
  OpM.merge m2 m1 = record_all (l1 ++ l2) (OpM.new t) ∧
  om_success_count m1 + om_failure_count m1 + om_timeout_count m1 =
    om_total_count m1 + tallyZ is_partial l1.
Proof.
  intros H1 H2. rewrite !record_all_spec by (done || by apply Forall_app_2).
  destruct (metrics_fit l1) eqn:E1; [intros <-%Ok_inj|done]. destruct (metrics_fit l2) eqn:E2; [intros <-%Ok_inj|done].
  split; [|by apply outcomes_partition].
  unfold OpM.merge, metrics_fit. cbn [metrics_of om_operation_type om_total_count om_success_count om_failure_count om_timeout_count
    om_latency_histogram om_recent_latencies om_max_recent_latencies om_total_data_size].
  rewrite !fmap_app, sumZ_app.
  destruct (decide (Z.of_nat (length l1) + Z.of_nat (length l2) ≤ u64_max)) as [Hn|Hn]; cycle 1.
  { assert (u64_add (Z.of_nat (length l1)) (Z.of_nat (length l2)) = Panic) as ->.
    { unfold u64_add. destruct (Z.leb_spec (Z.of_nat (length l1) + Z.of_nat (length l2)) u64_max); [lia|done]. }
    unfold histogram_fits. rewrite length_app, !length_fmap.
    destruct (Z.leb_spec (Z.of_nat (length l1 + length l2)) u64_max); [lia|done]. }
  assert (∀ p : Sample → bool, u64_add (tallyZ p l1) (tallyZ p l2) = Ok (tallyZ p (l1 ++ l2))) as Hadd.
  { intros p. pose proof (tally_bound p l1). pose proof (tally_bound p l2). apply u64_add_Ok. rewrite tally_app. lia. }
  assert (u64_add (Z.of_nat (length l1)) (Z.of_nat (length l2)) = Ok (Z.of_nat (length (l1 ++ l2)))) as ->
    by (apply u64_add_Ok; rewrite length_app; lia).
  rewrite !Hadd. cbn [mbind outcome_bind]. rewrite merge_histograms. destruct (histogram_fits _); [cbn [mbind outcome_bind andb]|done].
  unfold u64_add. destruct (sumZ (size_of <$> l1) + sumZ (size_of <$> l2) <=? u64_max); [cbn [mbind outcome_bind]|done].
  rewrite keep_last_merge. unfold metrics_of. by rewrite !fmap_app, sumZ_app.
Qed.

(** ** The collector *)

(** A completed timer with the times at which its task runs. *)
Definition Completed : Type := Z * Z * OperationTimer.
Definition timer_of (x : Completed) : OperationTimer := x.2.
Definition duration_of (x : Completed) : Z := Z.max 0 (x.1.1 - ot_start_time x.2).
Definition outcome_of_timer (x : Completed) : OperationOutcome := unwrap_or (Failure "Outcome not set") (ot_outcome x.2).
Definition sample_of (x : Completed) : Sample := (outcome_of_timer x, (duration_of x / 1000) mod 2 ^ 64, ot_data_size x.2).
Definition millis_of (x : Completed) : Z := (x.1.2 / 10 ^ 6) mod 2 ^ 64.
Definition context_of (x : Completed) : OperationContext :=
  mkOperationContext (ot_op_type x.2) (ot_target_node x.2) (ot_key x.2) (x.1.2 - duration_of x) (duration_of x)
    (ot_data_size x.2) (outcome_of_timer x).

Definition record_timers (l : list Completed) (c : MetricsCollector) : outcome MetricsCollector :=
  foldl (fun acc x => acc ≫= Coll.record x.1.1 x.1.2 x.2) (Ok c) l.

Definition of_type (t : OperationType) (l : list Completed) : list Completed :=
  List.filter (fun x => bool_decide (ot_op_type x.2 = t)) l.
Definition of_key (k : string) (l : list Completed) : list Completed :=
  List.filter (fun x => bool_decide (ot_key x.2 = Some k)) l.

(** The metrics of a key all of whose operations count as writes. *)
Definition key_metrics_of (k : string) (l : list Completed) : KeyMetrics :=
  let times := millis_of <$> l in
  mkKeyMetrics k (Z.of_nat (length l)) 0 (Z.of_nat (length l)) 1 1 0 (default 0 (last times)) (keep_last 100 times) 100.

Definition nonempty {A B} (f : list A → B) (l : list A) : option B := match l with [] => None | _ => Some (f l) end.

(** What a collector holds after the timers of a list were recorded. *)
Record recorded (config : MetricsCollectorConfig) (l : list Completed) (c : MetricsCollector) : Prop := {
  rec_config : mc_config c = config;
  rec_operations : ∀ t, mc_operation_metrics c !! t = nonempty (λ l, metrics_of t (sample_of <$> l)) (of_type t l);
  rec_keys : ∀ k, mc_key_metrics c !! k = nonempty (key_metrics_of k) (of_key k l);
  rec_history : mc_operation_history c = keep_last (cc_operation_history_limit config) (context_of <$> l);
}.

Lemma keep_last_length {A} n (l : list A) : (length (keep_last n l) ≤ n)%nat.
Proof. unfold keep_last. rewrite length_drop. lia. Qed.

Lemma push_history_keeps n x l : (length l ≤ n)%nat → Coll.push_history n x l = keep_last n (l ++ [x]).
Proof.
  intros Hn. unfold Coll.push_history, keep_last. rewrite length_app. cbn [length]. case_match eqn:E.
  - apply Nat.ltb_lt in E. f_equal. lia.
  - apply Nat.ltb_ge in E. by replace (length l + 1 - n)%nat with 0%nat by lia.
Qed.

Lemma last_snoc_default {A} (d : A) l x : default d (last (l ++ [x])) = x.
Proof. by rewrite last_snoc. Qed.

Lemma record_write_step k l x : Z.of_nat (length l) < u64_max →
  KeyM.record_write (millis_of x) (unwrap_or (KeyM.new k) (nonempty (key_metrics_of k) l)) = Ok (key_metrics_of k (l ++ [x])).
Proof.
  intros Hn. assert (unwrap_or (KeyM.new k) (nonempty (key_metrics_of k) l) = key_metrics_of k l) as -> by (by destruct l).
  unfold KeyM.record_write. cbn [key_metrics_of km_total_operations km_write_operations km_blinded_id km_read_operations
    km_replication_count km_verification_count km_last_read km_max_access_timestamps km_access_timestamps].
  assert (u64_add (Z.of_nat (length l)) 1 = Ok (Z.of_nat (length (l ++ [x])))) as ->
    by (apply u64_add_Ok; rewrite length_app; cbn; lia).
  cbn [mbind outcome_bind]. unfold key_metrics_of. rewrite fmap_app, fmap_cons, fmap_nil, last_snoc_default, keep_last_app. done.
Qed.

Lemma nonempty_snoc {A B} (f : list A → B) l x : nonempty f (l ++ [x]) = Some (f (l ++ [x])).
Proof. by destruct l. Qed.

Lemma of_type_snoc t l x : of_type t (l ++ [x]) = of_type t l ++ (if bool_decide (ot_op_type x.2 = t) then [x] else []).
Proof. unfold of_type. rewrite List.filter_app. cbn. by case_bool_decide. Qed.

Lemma of_key_snoc k l x : of_key k (l ++ [x]) = of_key k l ++ (if bool_decide (ot_key x.2 = Some k) then [x] else []).
Proof. unfold of_key. rewrite List.filter_app. cbn. by case_bool_decide. Qed.

Lemma of_key_length k l : (length (of_key k l) ≤ length l)%nat.
Proof. apply List.filter_length_le. Qed.

Lemma sample_of_ok x : (∀ z, ot_data_size x.2 = Some z → 0 ≤ z) → sample_ok (sample_of x).
Proof.
  intros Hz. split.
  - unfold latency_ok, latency_of, u64_max. cbn [sample_of fst snd]. pose proof (Z.mod_pos_bound (duration_of x / 1000) (2 ^ 64)). lia.
  - unfold size_of. cbn [sample_of snd]. destruct (ot_data_size x.2); [by apply Hz|done].
Qed.

Lemma record_timer_step config l c x :
  (∀ z, ot_data_size x.2 = Some z → 0 ≤ z) → Z.of_nat (length l) < u64_max →
  metrics_fit (sample_of <$> of_type (ot_op_type x.2) l) = true →
  metrics_fit (sample_of <$> of_type (ot_op_type x.2) (l ++ [x])) = true →
  recorded config l c → ∃ c', Coll.record x.1.1 x.1.2 x.2 c = Ok c' ∧ recorded config (l ++ [x]) c'.
Proof.
  intros Hz Hn Hfit Hfit' [Hc Ho Hk Hh]. unfold Coll.record. rewrite Ho.
  set (t := ot_op_type x.2) in *.
  assert (unwrap_or (OpM.new t) (nonempty (λ l, metrics_of t (sample_of <$> l)) (of_type t l)) = metrics_of t (sample_of <$> of_type t l)) as ->
    by (destruct (of_type t l); reflexivity).
  rewrite of_type_snoc, bool_decide_eq_true_2, fmap_app, fmap_cons, fmap_nil in Hfit' by done.
  pose proof (record_step t (sample_of <$> of_type t l) (sample_of x) (sample_of_ok x Hz) Hfit) as Hr.
  rewrite Hfit' in Hr. unfold sample_of at 1 2 3 in Hr. cbn [fst snd] in Hr. fold (duration_of x). fold (outcome_of_timer x).
  rewrite Hr. cbn [mbind outcome_bind]. fold (millis_of x).
  assert (∃ keys, (match ot_key x.2 with
     | Some key => k ← KeyM.record_write (millis_of x) (unwrap_or (KeyM.new key) (mc_key_metrics c !! key)); Ok (<[key := k]> (mc_key_metrics c))
     | None => Ok (mc_key_metrics c) end) = Ok keys ∧ ∀ k, keys !! k = nonempty (key_metrics_of k) (of_key k (l ++ [x]))) as (keys & -> & Hkeys).
  { destruct (ot_key x.2) as [key|] eqn:Ek.
    - rewrite Hk, record_write_step by (pose proof (of_key_length key l); lia).
      eexists. split; [reflexivity|]. intros k. rewrite of_key_snoc, Ek. destruct (decide (key = k)) as [->|Hne].
      + by rewrite lookup_insert_eq, bool_decide_eq_true_2, nonempty_snoc.
      + rewrite lookup_insert_ne, bool_decide_eq_false_2, app_nil_r by congruence. apply Hk.
    - exists (mc_key_metrics c). split; [done|]. intros k. by rewrite of_key_snoc, Ek, bool_decide_eq_false_2, app_nil_r. }
  cbn [mbind outcome_bind]. eexists. split; [reflexivity|]. constructor; cbn; [done| |exact Hkeys|].
  - intros t'. rewrite of_type_snoc. fold t. destruct (decide (t = t')) as [<-|Hne].
    + by rewrite lookup_insert_eq, bool_decide_eq_true_2, nonempty_snoc, fmap_app.
    + by rewrite lookup_insert_ne, bool_decide_eq_false_2, app_nil_r.
  - rewrite Hh, Hc, push_history_keeps by apply keep_last_length. by rewrite keep_last_app, fmap_app.
Qed.

(** A collector holds what its timers say: after any list of completed timers
    whose counters fit, the metrics of each type of operation are those of its
    timers, the history is that of the last operations up to its limit, and every
    key has as many writes as it has operations of any type, and no reads. *)
Theorem collector_exact (config : MetricsCollectorConfig) (l : list Completed) :
  Forall (λ x, ∀ z, ot_data_size (timer_of x) = Some z → 0 ≤ z) l → Z.of_nat (length l) ≤ u64_max →
  (∀ t, metrics_fit (sample_of <$> of_type t l) = true) →
  ∃ c, record_timers l (Coll.new config) = Ok c ∧ recorded config l c.
Proof.
  induction l as [|x l IH] using rev_ind.
  { intros _ _ _. exists (Coll.new config). split; [done|]. by constructor. }
  rewrite length_app. cbn [length]. intros [Hl Hx]%Forall_app Hn Hfit. apply Forall_inv in Hx.
  assert (∀ t, metrics_fit (sample_of <$> of_type t l) = true) as Hfit'.
  { intros t. specialize (Hfit t). rewrite of_type_snoc, fmap_app in Hfit. eapply metrics_fit_prefix; [|exact Hfit].
    apply Forall_app_2; apply Forall_fmap.
    - apply Forall_forall. intros y Hy. apply sample_of_ok. rewrite Forall_forall in Hl. apply Hl.
      apply list_elem_of_In in Hy. unfold of_type in Hy. apply List.filter_In in Hy as [Hy _]. by apply list_elem_of_In.
    - case_bool_decide; [|constructor]. constructor; [by apply sample_of_ok|constructor]. }
  destruct (IH Hl ltac:(lia) Hfit') as (c & Hc & Hr).
  destruct (record_timer_step config l c x Hx ltac:(lia) (Hfit' _) (Hfit _) Hr) as (c' & Hc' & Hr').
  exists c'. split; [|done]. unfold record_timers in *. rewrite foldl_app, Hc. exact Hc'.
Qed.

(** A report leaves at most the configured number of snapshots, the newest of
    which is the one returned, if any is kept; of the storage metrics it can only
    change the average size of an entry, the read-repair rate and the space
    amplification, which a collector that starts empty reports as zero for ever. *)
Theorem reports_stay_empty (config : MetricsCollectorConfig) (times : list Z) (now : Z) :
  let c := foldl (fun c t => (Coll.generate_report t c).2) (Coll.new config) times in
  let '(snapshot, c') := Coll.generate_report now c in
  (length (mc_snapshots c') ≤ cc_max_snapshots config)%nat ∧
  (cc_max_snapshots config ≠ 0%nat → Coll.get_latest_snapshot c' = Some snapshot) ∧
  ms_storage_metrics snapshot = mc_storage_metrics (Coll.new config).
Proof.
  cbv zeta. assert (∀ c, mc_config c = config → mc_storage_metrics c = mc_storage_metrics (Coll.new config) →
    let c' := foldl (fun c t => (Coll.generate_report t c).2) c times in
    mc_config c' = config ∧ mc_storage_metrics c' = mc_storage_metrics (Coll.new config)) as H.
  { induction times as [|t times IH]; intros c Hc Hs; [done|]. cbn [foldl]. apply IH; [done|].
    cbn [Coll.generate_report snd mc_storage_metrics]. by rewrite Hs. }
  destruct (H (Coll.new config) eq_refl eq_refl) as [Hc Hs]. revert Hc Hs.
  generalize (foldl (fun c t => (Coll.generate_report t c).2) (Coll.new config) times). intros c Hc Hs.
  unfold Coll.generate_report. cbn [mc_snapshots]. split_and!.
  - rewrite Hc. apply keep_last_length.
  - intros Hne. rewrite Hc. unfold Coll.get_latest_snapshot, keep_last. cbn [mc_snapshots]. rewrite length_app. cbn [length].
    rewrite drop_app_le by lia. apply last_snoc.
  - cbn [ms_storage_metrics]. by rewrite Hs.
Qed.

(** ** Witnesses *)

Module MetricsWitness.
Definition slow : Z := 20000000.

Lemma histogram_exact_witness : add_all [5; slow] Hist.new = Ok (histogram_of [5; slow]).
Proof. apply (histogram_exact [5; slow]). repeat constructor; vm_compute; discriminate. Defined.

Lemma slows_ok : Forall latency_ok [slow] ∧ Forall latency_ok [slow; slow].
Proof. split; repeat constructor; vm_compute; discriminate. Qed.

(** A single slow operation has a median of 50; two of them panic. *)
Lemma median_exact_witness :
  Hist.median_latency_us (histogram_of [slow]) = Ok (f64_of_Z 50) ∧ Hist.median_latency_us (histogram_of [slow; slow]) = Panic.
Proof.
  split.
  - etrans; [exact (median_exact [slow] (proj1 slows_ok) eq_refl)|vm_compute; reflexivity].
  - etrans; [exact (median_exact [slow; slow] (proj2 slows_ok) eq_refl)|vm_compute; reflexivity].
Defined.

Definition samples : list Sample := [(Success, 5, Some 10); (PartialSuccess, 700, None)].
Lemma samples_ok : Forall sample_ok samples.
Proof. repeat constructor; vm_compute; discriminate. Qed.

Lemma merge_is_recording_witness :
  OpM.merge (metrics_of OpStore samples) (metrics_of OpStore samples) = record_all (samples ++ samples) (OpM.new OpStore).
Proof.
  exact (proj1 (merge_is_recording OpStore OpStore samples samples (metrics_of OpStore samples) (metrics_of OpStore samples)
    samples_ok samples_ok eq_refl eq_refl)).
Defined.

(** A retrieval counts as a write of its key. *)
Definition retrieval : Completed := (3000, 10 ^ 9, Coll.success (Coll.start_operation 1000 OpRetrieve None (Some "key"%string))).

Lemma collector_exact_witness :
  ∃ c, record_timers [retrieval] (Coll.new Coll.default_config) = Ok c ∧
    (km_write_operations <$> mc_key_metrics c !! "key"%string) = Some 1 ∧ (km_read_operations <$> mc_key_metrics c !! "key"%string) = Some 0.
Proof.
  destruct (collector_exact Coll.default_config [retrieval]) as (c & Hc & Hr).
  - repeat constructor. intros z. discriminate.
  - vm_compute. discriminate.
  - intros t. destruct t; vm_compute; reflexivity.
  - exists c. split; [exact Hc|]. rewrite (rec_keys _ _ _ Hr). split; reflexivity.
Defined.
End MetricsWitness.
