(* ===== verification/Partition.v ===== *)
(** * The partition ring (dsm_storage_node/src/storage/partition.rs)

    The key space cut into ranges, their assignment to nodes by the four
    strategies, the transfers a change of ownership starts, and the look-up of
    the nodes responsible for a key.  The spawned transfer task is a pending
    action of the state that [run_transfer] executes; the shuffle of the random
    strategy and the iteration orders of the maps are parameters.  The instant of
    the last rebalance, which nothing reads, is left out. *)
From S2P Require Import Prelude NodeTypes Float Keys Topology.

(** ** Data *)

Inductive PartitionStrategy := ConsistentHash | PRandom | GeographyAware | LoadBalanced.

Record Partition := mkPartition {
  p_id : string;
  p_start : bytes;
  p_end : bytes;
  p_primary : string;
  p_replicas : list string;
  p_last_assignment : Z;
  p_generation : Z;
  p_keyspace_fraction : f64;
  p_estimated_items : Z;
  p_estimated_size : Z;
}.

Inductive TransferState := TNone | TPreparing | TTransferring | TVerifying | TComplete | TFailed.
#[global] Instance TransferState_eq_dec : EqDecision TransferState.
Proof. solve_decision. Defined.

Record PartitionTransfer := mkTransfer {
  pt_partition_id : string;
  pt_source : string;
  pt_target : string;
  pt_state : TransferState;
  pt_start_time : Z;
  pt_completion_time : option Z;
  pt_total_items : Z;
  pt_transferred_items : Z;
  pt_items_per_second : f64;
  pt_total_bytes : Z;
  pt_transferred_bytes : Z;
  pt_bytes_per_second : f64;
  pt_priority : Z;
  pt_retry_count : Z;
}.

Record PartitionConfig := mkPartConfig {
  partition_count : Z;
  replication_factor : Z;
  strategy : PartitionStrategy;
  min_nodes_for_rebalance : Z;
  max_partitions_per_node : Z;
  rebalance_check_interval_ms : Z;
  placement_stability : f64;
  rebalance_throttle : Z;
  min_transfer_interval_ms : Z;
}.

Definition TransferHandlerFn := PartitionTransfer → nout unit.

Inductive MovePriority := MLow | MMedium | MHigh | MCritical.
Record PartitionMove := mkMove {
  mv_partition_id : string;
  mv_source_node : string;
  mv_target_node : string;
  mv_reason : string;
  mv_priority : MovePriority;
}.

Record RegionMetrics := mkRegion {
  rm_total_capacity : Z;
  rm_current_load : Z;
  rm_partition_count : Z;
  rm_node_count : Z;
  rm_avg_latency : f64;
  rm_failure_rate : f64;
}.

Record PartitionMetrics := mkPMetrics {
  pm_item_count : Z;
  pm_size_bytes : Z;
  pm_key_distribution : gmap string Z;
}.

Record PartitionManager := mkManager {
  m_node_id : string;
  m_config : PartitionConfig;
  partitions : gmap string Partition;
  m_nodes : gmap string StorageNode;
  node_partition_counts : gmap string Z;
  active_transfers : gmap string PartitionTransfer;
  ring_generation : Z;
  transfer_handlers : gmap string TransferHandlerFn;
  replication_queue : list string;
  spawned : list (string * PartitionTransfer * TransferHandlerFn);
}.

(** ** Formatting and casts *)

Definition hex_digit (n : Z) : string :=
  String (Ascii.ascii_of_nat (Z.to_nat (if n <? 10 then 48 + n else 87 + n))) EmptyString.
Fixpoint hex_digits (fuel : nat) (n : Z) : string :=
  match fuel with
  | O => EmptyString
  | S fuel => if n =? 0 then EmptyString else hex_digits fuel (n / 16) +:+ hex_digit (n mod 16)
  end.
Fixpoint zero_pad (k : nat) (s : string) : string :=
  match k with O => s | S k => "0" +:+ zero_pad k s end.
(** [format!("{:0width$x}", n)] *)
Definition format_hex (width : nat) (n : Z) : string :=
  let s := hex_digits 16 n in zero_pad (width - String.length s) s.

(** [n as i32] of a u64 *)
Definition as_i32 (n : Z) : Z := let w := n mod 2 ^ 32 in if w <? 2 ^ 31 then w else w - 2 ^ 32.
Definition i32_add (a b : Z) : nout Z := if (- 2 ^ 31 <=? a + b) && (a + b <? 2 ^ 31) then Ok (a + b) else Panic.

Module PM.
Section PM.
Context {B3 : Blake3} {RT : Runtime} {DO : DashOrder}.
(** [selected_nodes.shuffle(&mut rng)] for a partition *)
Context (shuffle : string → list string → list string).

Definition set_partitions x s := mkManager (m_node_id s) (m_config s) x (m_nodes s) (node_partition_counts s)
  (active_transfers s) (ring_generation s) (transfer_handlers s) (replication_queue s) (spawned s).
Definition set_nodes x s := mkManager (m_node_id s) (m_config s) (partitions s) x (node_partition_counts s)
  (active_transfers s) (ring_generation s) (transfer_handlers s) (replication_queue s) (spawned s).
Definition set_counts x s := mkManager (m_node_id s) (m_config s) (partitions s) (m_nodes s) x
  (active_transfers s) (ring_generation s) (transfer_handlers s) (replication_queue s) (spawned s).
Definition set_transfers x s := mkManager (m_node_id s) (m_config s) (partitions s) (m_nodes s) (node_partition_counts s)
  x (ring_generation s) (transfer_handlers s) (replication_queue s) (spawned s).
Definition set_generation x s := mkManager (m_node_id s) (m_config s) (partitions s) (m_nodes s) (node_partition_counts s)
  (active_transfers s) x (transfer_handlers s) (replication_queue s) (spawned s).
Definition set_handlers x s := mkManager (m_node_id s) (m_config s) (partitions s) (m_nodes s) (node_partition_counts s)
  (active_transfers s) (ring_generation s) x (replication_queue s) (spawned s).
Definition set_queue x s := mkManager (m_node_id s) (m_config s) (partitions s) (m_nodes s) (node_partition_counts s)
  (active_transfers s) (ring_generation s) (transfer_handlers s) x (spawned s).
Definition set_spawned x s := mkManager (m_node_id s) (m_config s) (partitions s) (m_nodes s) (node_partition_counts s)
  (active_transfers s) (ring_generation s) (transfer_handlers s) (replication_queue s) x.

Definition PS := NM PartitionManager.

Definition default_config : PartitionConfig := mkPartConfig 256 3 ConsistentHash 3 32 60000 (f64_lit 8 10) 5 5000.

Definition new (node_id : string) (config : PartitionConfig) : PartitionManager :=
  mkManager node_id config ∅ ∅ ∅ ∅ 1 ∅ [] [].

Fixpoint for_each {A} (l : list A) (f : A → PS unit) : PS unit :=
  match l with
  | [] => mret_st tt
  | x :: l => do* f x; for_each l f
  end.

(** ** The ring *)

(** [(i as f64 * step) as u64] with [step = u64::MAX as f64 / count as f64] *)
Definition boundary (count i : Z) : Z :=
  f64_to_u64 (f64_mul (f64_of_Z i) (f64_div (f64_of_Z u64_max) (f64_of_Z count))).

Definition partition_name (i : Z) : string := "partition-" +:+ format_hex 8 i.

Definition new_partition (count i : Z) : Partition :=
  mkPartition (partition_name i) (be_bytes (boundary count i)) (be_bytes (boundary count (i + 1))) "" [] now 1
    (f64_div (f64_of_Z 1) (f64_of_Z count)) 0 0.

Definition create_partitions : PS unit := mmod (fun s =>
  let count := partition_count (m_config s) in
  set_partitions (foldl (fun m i => <[partition_name (Z.of_nat i) := new_partition count (Z.of_nat i)]> m) ∅
    (seq 0 (Z.to_nat count))) s).

Definition reset_counts (ids : list string) (s : PartitionManager) : PartitionManager :=
  set_counts (foldl (fun m id => <[id := 0]> m) (node_partition_counts s) ids) s.

Definition initialize : PS unit :=
  do* create_partitions;
  mmod (fun s => reset_counts (dash_iter (m_nodes s)).*1 s).

Definition get_node_count (s : PartitionManager) : Z := Z.of_nat (size (m_nodes s)).

(** ** Transfers *)

Definition transfer_priority (p : Partition) : nout Z :=
  score ← i32_add 0 (as_i32 (p_estimated_size p / (1024 * 1024)));
  score ← i32_add score (as_i32 (p_estimated_items p / 1000));
  i32_add score (as_i32 (saturating_sub now (p_last_assignment p) / 3600)).

Definition transfer_key (priority : Z) (partition_id : string) : string := pretty priority +:+ "-" +:+ partition_id.

Definition set_state (st : TransferState) (done : option Z) (x : PartitionTransfer) : PartitionTransfer :=
  mkTransfer (pt_partition_id x) (pt_source x) (pt_target x) st (pt_start_time x) done (pt_total_items x)
    (pt_transferred_items x) (pt_items_per_second x) (pt_total_bytes x) (pt_transferred_bytes x) (pt_bytes_per_second x)
    (pt_priority x) (pt_retry_count x).

Definition create_transfer (p : Partition) (source target : string) : PS unit :=
  if bool_decide (source = "") || bool_decide (source = target) then mret_st tt
  else
    let* priority := mlift (transfer_priority p) in
    let x := mkTransfer (p_id p) source target TPreparing now None (p_estimated_items p) 0 f64_zero (p_estimated_size p) 0 f64_zero priority 0 in
    let key := transfer_key priority (p_id p) in
    do* mmod (fun s => set_transfers (<[key := x]> (active_transfers s)) s);
    mmod (fun s =>
      match transfer_handlers s !! source with
      | Some h => set_spawned (spawned s ++ [(key, x, h)]) s
      | None => set_transfers (alter (set_state TFailed (pt_completion_time x)) key (active_transfers s)) s
      end).

(** The body of the spawned task, when the scheduler runs the first pending one. *)
Definition run_transfer : PS unit := mmod (fun s =>
  match spawned s with
  | [] => s
  | (key, x, h) :: rest =>
      let s := set_spawned rest s in
      match h x with
      | Ok _ => set_transfers (alter (set_state TComplete (Some now)) key (active_transfers s)) s
      | Err _ => set_transfers (alter (fun y => set_state TFailed (pt_completion_time y) y) key (active_transfers s)) s
      | _ => s
      end
  end).

Definition register_transfer_handler (node_id : string) (h : TransferHandlerFn) : PS unit :=
  mmod (fun s => set_handlers (<[node_id := h]> (transfer_handlers s)) s).

(** ** Consistent hashing *)

(** The first eight bytes of the hash of a key as a position *)
Definition position_of (key : string) : Z := be_Z (take 8 (node_bytes (Id.calculate_key_hash key))).

Definition vnode_key (node_id : string) (v i : Z) : string :=
  node_id +:+ "-" +:+ format_hex 8 v +:+ "-" +:+ format_hex 4 i.

Definition hash_ring (density : nat) (node_ids : list string) : gmap Z string :=
  foldl (fun ring p => foldl (fun ring v => <[position_of (vnode_key p.2 (Z.of_nat v) (Z.of_nat p.1)) := p.2]> ring) ring (seq 0 density))
    ∅ (imap pair node_ids).

Definition pos_le (p q : Z * string) : Prop := p.1 ≤ q.1.
#[global] Instance pos_le_dec : RelDecision pos_le.
Proof. intros p q. unfold pos_le. apply _. Defined.
(** The entries of the [BTreeMap] in order *)
Definition ring_entries (ring : gmap Z string) : list (Z * string) := merge_sort pos_le (map_to_list ring).

(** [hash_ring.range(p..).next()] *)
Definition next_from (entries : list (Z * string)) (p : Z) : option (Z * string) := List.find (fun e => p <=? e.1) entries.

Record scan := mkScan { sc_pos : Z; sc_assigned : gset string; sc_replicas : list string }.

(** Phase 1: at most as many turns as the ring has entries *)
Fixpoint forward_scan (turns : nat) (entries : list (Z * string)) (rf : Z) (s : scan) : nout scan :=
  match turns with
  | O => Ok s
  | S turns =>
      from ← n_add (sc_pos s) 1;
      match next_from entries from with
      | None => Ok s
      | Some (pos, node) =>
          if bool_decide (node ∈ sc_assigned s) then forward_scan turns entries rf (mkScan pos (sc_assigned s) (sc_replicas s))
          else
            let s := mkScan pos ({[node]} ∪ sc_assigned s) (sc_replicas s ++ [node]) in
            limit ← n_mul rf 2;
            if limit <=? Z.of_nat (length (sc_replicas s)) then Ok s else forward_scan turns entries rf s
      end
  end.

(** Phase 2: the entries from the start of the ring up to the current position *)
Fixpoint wrap_scan (entries : list (Z * string)) (wanted : Z) (s : scan) : scan :=
  match entries with
  | [] => s
  | (pos, node) :: entries =>
      if sc_pos s <=? pos then s
      else if bool_decide (node ∈ sc_assigned s) then wrap_scan entries wanted s
      else
        let s := mkScan (sc_pos s) ({[node]} ∪ sc_assigned s) (sc_replicas s ++ [node]) in
        if wanted <=? Z.of_nat (length (sc_replicas s)) then s else wrap_scan entries wanted s
  end.

(** The primary and the replicas of a partition at a position *)
Definition assign (entries : list (Z * string)) (rf position : Z) (local : string) : nout (string * list string) :=
  let primary :=
    match next_from entries position with
    | Some (_, node) => node
    | None => match entries with (_, node) :: _ => node | [] => local end
    end in
  s ← forward_scan (length entries) entries rf (mkScan position {[primary]} []);
  wanted ← n_sub rf 1;
  let s := if (Z.of_nat (length (sc_replicas s)) <? wanted) && negb (bool_decide (entries = [])) then wrap_scan entries wanted s else s in
  Ok (primary, take (Z.to_nat (saturating_sub rf 1)) (sc_replicas s)).

Definition reassign (primary : string) (replicas : list string) (generation : Z) (p : Partition) : Partition :=
  mkPartition (p_id p) (p_start p) (p_end p) primary replicas now generation (p_keyspace_fraction p)
    (p_estimated_items p) (p_estimated_size p).

(** [if let Some(mut count) = node_partition_counts.get_mut(id) { *count += 1 }] *)
Definition bump_count (id : string) : PS unit := fun s =>
  match node_partition_counts s !! id with
  | None => (Ok tt, s)
  | Some c => (let* c' := mlift (n_add c 1) in mmod (fun s => set_counts (<[id := c']> (node_partition_counts s)) s)) s
  end.

(** The update of one partition, its counter and the transfer *)
Definition update_partition (id primary : string) (replicas : list string) : PS unit := fun s =>
  match partitions s !! id with
  | None => (Ok tt, s)
  | Some p =>
      (let* g := mlift (n_add (ring_generation s) 1) in
       let p' := reassign primary replicas g p in
       do* mmod (fun s => set_partitions (<[id := p']> (partitions s)) s);
       do* bump_count primary;
       if negb (bool_decide (p_primary p = "")) && negb (bool_decide (p_primary p = primary))
       then create_transfer p' (p_primary p) primary
       else mret_st tt) s
  end.

Definition VIRTUAL_NODE_DENSITY : nat := 512.

Definition rebalance_consistent_hash (density : nat) : PS unit := fun s =>
  let node_ids := (dash_iter (m_nodes s)).*1 in
  if bool_decide (node_ids = []) then
    for_each (dash_iter (partitions s)).*1 (fun id =>
      let* g := mlift (n_add (ring_generation s) 1) in
      mmod (fun s => set_partitions (alter (fun p => mkPartition (p_id p) (p_start p) (p_end p) (m_node_id s) [] (p_last_assignment p) g
        (p_keyspace_fraction p) (p_estimated_items p) (p_estimated_size p)) id (partitions s)) s)) s
  else
    let ring := hash_ring density node_ids in
    if bool_decide (ring = ∅) then (Err (NStorage "Critical topology corruption: virtual node injection phase failed"), reset_counts node_ids s)
    else if negb (size (list_to_set (map_to_list ring).*2 : gset string) =? length node_ids)%nat then (Panic, reset_counts node_ids s)
    else
      for_each (dash_iter (partitions s)).*1 (fun id => fun s =>
        (let* a := mlift (assign (ring_entries ring) (replication_factor (m_config s)) (position_of id) (m_node_id s)) in
         update_partition id (fst a) (snd a)) s) (reset_counts node_ids s).

(** ** The other strategies *)

Definition rebalance_random : PS unit := fun s =>
  let node_ids := (dash_iter (m_nodes s)).*1 in
  if bool_decide (node_ids = []) then (Ok tt, s)
  else
    for_each (dash_iter (partitions s)).*1 (fun id => fun s =>
      match shuffle id node_ids with
      | [] => (Panic, s)
      | primary :: rest =>
          update_partition id primary (take (Z.to_nat (Z.min (replication_factor (m_config s)) (Z.of_nat (length rest)))) rest) s
      end) (reset_counts node_ids s).

Definition count_of (s : PartitionManager) (id : string) : Z := unwrap_or 0 (node_partition_counts s !! id).

(** [nodes_by_region] *)
Definition by_region (nodes : list StorageNode) : gmap string (list StorageNode) :=
  foldl (fun m n => <[sn_region n := unwrap_or [] (m !! sn_region n) ++ [n]]> m) ∅ nodes.

Definition region_metrics (s : PartitionManager) (l : list StorageNode) : RegionMetrics :=
  mkRegion (Z.of_nat (length l)) 0 (foldr Z.add 0 (map (fun n => count_of s (sn_id n)) l)) (Z.of_nat (length l)) f64_zero f64_zero.

(** The comparison that sorts the regions: not greater *)
Definition region_leb (a b : string * RegionMetrics) : bool :=
  let load m := f64_div (f64_of_Z (rm_current_load m)) (f64_of_Z (rm_total_capacity m)) in
  let health m := f64_mul (rm_failure_rate m) (rm_avg_latency m) in
  let leb x y := negb (f64_ltb y x) in
  if f64_ltb (SFabs (f64_sub (load b.2) (load a.2))) (f64_lit 1 10) then leb (health a.2) (health b.2) else leb (load a.2) (load b.2).

Definition select_target_regions (primary_region : string) (metrics : gmap string RegionMetrics) (rf : Z) : nout (list string) :=
  n ← n_sub rf 1;
  Ok (primary_region :: take (Z.to_nat n) (List.filter (fun r => negb (bool_decide (r = primary_region))) (stable_sort region_leb (dash_iter metrics)).*1)).

Definition select_best_node_in_region (s : PartitionManager) (l : list StorageNode) (assigned : gset string) : option StorageNode :=
  head (stable_sort (fun a b => count_of s (sn_id a) <=? count_of s (sn_id b)) (List.filter (fun n => negb (bool_decide (sn_id n ∈ assigned))) l)).

Definition pick_in_regions (s : PartitionManager) (regions : gmap string (list StorageNode)) (targets : list string)
    (primary : string) : list string :=
  fst (foldl (fun acc r =>
    let '(replicas, assigned) := acc in
    match regions !! r with
    | None => acc
    | Some l =>
        match select_best_node_in_region s l assigned with
        | Some n => (replicas ++ [sn_id n], {[sn_id n]} ∪ assigned)
        | None => acc
        end
    end) ([], {[primary]} : gset string) targets).

(** [target_regions[0] = primary_region] when the region is missing; the first
    target is the primary region already, so that the test always fails. *)
Definition keep_primary_region (regions : gmap string (list StorageNode)) (primary_region : string) (targets : list string) : list string :=
  if negb (bool_decide (primary_region ∈ targets)) && bool_decide (is_Some (regions !! primary_region))
  then <[0%nat := primary_region]> targets else targets.

Definition rebalance_geography_aware : PS unit := fun s0 =>
  let nodes := m_nodes s0 in
  let regions := by_region (dash_iter nodes).*2 in
  let metrics := region_metrics s0 <$> regions in
  for_each (dash_iter (partitions s0)).*1 (fun id => fun s =>
    match partitions s !! id with
    | None => (Ok tt, s)
    | Some p =>
        let primary_region := unwrap_or ""%string (sn_region <$> nodes !! p_primary p) in
        (let* targets := mlift (select_target_regions primary_region metrics (replication_factor (m_config s))) in
         let replicas := pick_in_regions s regions (keep_primary_region regions primary_region targets) (p_primary p) in
         if bool_decide (replicas = p_replicas p) then mret_st tt
         else
           let* g := mlift (n_add (ring_generation s) 1) in
           mmod (fun s => set_partitions (<[id := reassign (p_primary p) replicas g p]> (partitions s)) s)) s
    end) s0.

(** [get_partition_load] *)
Definition get_partition_load (p : Partition) : f64 :=
  let size_load := f64_div (f64_of_Z (p_estimated_size p)) (f64_mul (f64_of_Z 1024) (f64_of_Z 1024)) in
  let item_load := f64_div (f64_of_Z (p_estimated_items p)) (f64_of_Z 1000) in
  f64_add (f64_mul size_load (f64_lit 7 10)) (f64_mul item_load (f64_lit 3 10)).

(** The targets: an equal share, the remainder to the first nodes *)
Definition target_counts (total : Z) (ids : list string) : nout (gmap string Z) :=
  base ← n_div total (Z.of_nat (length ids));
  let remainder := total mod Z.of_nat (length ids) in
  Ok (foldl (fun m p => <[p.2 := if Z.of_nat p.1 <? remainder then base + 1 else base]> m) ∅ (imap pair ids)).

(** The order of the candidates: under target first, then by load *)
Definition candidate_leb (counts targets : gmap string Z) (a b : string) : bool :=
  let c x := unwrap_or 0 (counts !! x) in
  let under x := c x <? unwrap_or 0 (targets !! x) in
  match under a, under b with
  | true, false => true
  | false, true => false
  | _, _ => c a <=? c b
  end.

Definition should_move (counts targets : gmap string Z) (current best : string) : bool :=
  if bool_decide (current = "") then true
  else
    match counts !! current with
    | Some c => (unwrap_or 0 (targets !! current) <? c) && (unwrap_or 0 (counts !! best) <? unwrap_or 0 (targets !! best))
    | None => true
    end.

(** The counts of the metrics after a move *)
Definition move_counts (old best : string) (counts : gmap string Z) : nout (gmap string Z) :=
  counts ← match counts !! best with
           | Some c => c' ← n_add c 1; Ok (<[best := c']> counts)
           | None => Ok counts
           end;
  if bool_decide (old = "") then Ok counts
  else Ok (alter (fun c => saturating_sub c 1) old counts).

(** One partition of the load-balanced loop; the metrics are local to the loop. *)
Definition balance_one (ids : list string) (targets : gmap string Z) (id : string) (counts : gmap string Z)
    : PS (gmap string Z) := fun s =>
  match partitions s !! id with
  | None => (Panic, s)
  | Some p =>
      let candidates := stable_sort (candidate_leb counts targets) ids in
      (let* r :=
         match candidates with
         | best :: _ =>
             if should_move counts targets (p_primary p) best then
               let* counts' := mlift (move_counts (p_primary p) best counts) in
               let p' := mkPartition (p_id p) (p_start p) (p_end p) best (p_replicas p) (p_last_assignment p) (p_generation p)
                 (p_keyspace_fraction p) (p_estimated_items p) (p_estimated_size p) in
               do* mmod (fun s => set_partitions (<[id := p']> (partitions s)) s);
               do* (if negb (bool_decide (p_primary p = "")) && negb (bool_decide (p_primary p = best))
                    then create_transfer p' (p_primary p) best else mret_st tt);
               mret_st (p', counts')
             else mret_st (p, counts)
         | [] => mret_st (p, counts)
         end in
       let '(p', counts') := r in
       let replicas := take (Z.to_nat (saturating_sub (replication_factor (m_config s)) 1))
         (List.filter (fun n => negb (bool_decide (n = p_primary p'))) candidates) in
       let* g := mlift (n_add (ring_generation s) 1) in
       do* mmod (fun s => set_partitions (<[id := reassign (p_primary p') replicas g p']> (partitions s)) s);
       mret_st counts') s
  end.

Fixpoint balance_all (ids : list string) (targets : gmap string Z) (ps : list string) (counts : gmap string Z) : PS unit :=
  match ps with
  | [] => mret_st tt
  | id :: ps => let* counts' := balance_one ids targets id counts in balance_all ids targets ps counts'
  end.

(** [get_node_capacity_usage], a value the balancing computes and does not use *)
Definition get_node_capacity_usage (s : PartitionManager) (id : string) : nout Z :=
  a ← n_mul (count_of s id) 10; b ← n_mul a 1024; n_mul b 1024.

Definition rebalance_load_balanced : PS unit := fun s =>
  let ids := (dash_iter (m_nodes s)).*1 in
  let counts := foldl (fun m id => <[id := count_of s id]> m) ∅ ids in
  (do* mlift (mapM (get_node_capacity_usage s) ids);
   let* targets := mlift (target_counts (partition_count (m_config s)) ids) in
   let heaviest := stable_sort (fun a b => negb (f64_ltb a.2 b.2)) (map (fun e => (p_id e.2, get_partition_load e.2)) (dash_iter (partitions s))) in
   balance_all ids targets heaviest.*1 counts) s.

Definition rebalance : PS unit := fun s =>
  if Z.of_nat (size (m_nodes s)) <? min_nodes_for_rebalance (m_config s) then (Ok tt, s)
  else
    (do* match strategy (m_config s) with
         | ConsistentHash => rebalance_consistent_hash VIRTUAL_NODE_DENSITY
         | PRandom => rebalance_random
         | GeographyAware => rebalance_geography_aware
         | LoadBalanced => rebalance_load_balanced
         end;
     mmod (fun s => set_generation (wrap_add (ring_generation s) 1) s)) s.

Definition rebalance_if_enough : PS unit := fun s =>
  if min_nodes_for_rebalance (m_config s) <=? get_node_count s then rebalance s else (Ok tt, s).

Definition add_node (n : StorageNode) : PS unit :=
  do* mmod (fun s => set_nodes (<[sn_id n := n]> (m_nodes s)) s);
  do* mmod (fun s => set_counts (<[sn_id n := 0]> (node_partition_counts s)) s);
  rebalance_if_enough.

Definition remove_node (id : string) : PS unit :=
  do* mmod (fun s => set_nodes (delete id (m_nodes s)) s);
  do* mmod (fun s => set_counts (delete id (node_partition_counts s)) s);
  rebalance_if_enough.

(** ** Look-ups *)

Definition partition_contains_hash (start end_ hash : bytes) : bool := negb (bytes_ltb hash start) && bytes_ltb hash end_.

(** [String::from_utf8_lossy(key)]: keys are byte strings of valid UTF-8 *)
Definition get_partition_for_key (s : PartitionManager) (key : string) : nout Partition :=
  let hash := node_bytes (Id.calculate_key_hash key) in
  match List.find (fun e => partition_contains_hash (p_start e.2) (p_end e.2) hash) (dash_iter (partitions s)) with
  | Some (_, p) => Ok p
  | None => ok_or (NNotFound "No partitions available") (snd <$> head (dash_iter (partitions s)))
  end.

Definition get_responsible_nodes (s : PartitionManager) (key : string) : nout (string * list string) :=
  p ← get_partition_for_key s key; Ok (p_primary p, p_replicas p).
Definition is_responsible_for_key (s : PartitionManager) (key : string) : nout bool :=
  p ← get_partition_for_key s key;
  Ok (bool_decide (p_primary p = m_node_id s) || bool_decide (m_node_id s ∈ p_replicas p)).
Definition is_primary_for_key (s : PartitionManager) (key : string) : nout bool :=
  p ← get_partition_for_key s key; Ok (bool_decide (p_primary p = m_node_id s)).
Definition get_partition (s : PartitionManager) (id : string) : nout Partition :=
  ok_or (NNotFound "Partition {} not found") (partitions s !! id).
Definition get_transfers_for_partition (s : PartitionManager) (id : string) : option PartitionTransfer :=
  List.find (fun x => bool_decide (pt_partition_id x = id)) (dash_iter (active_transfers s)).*2.

Definition process_transfer_chunk (s : PartitionManager) (id : string) : nout unit :=
  p ← get_partition s id;
  if negb (bool_decide (p_primary p = m_node_id s)) && negb (bool_decide (m_node_id s ∈ p_replicas p))
  then Err (NInvalidOperation "This node is not responsible for partition {}") else Ok tt.

(** ** Metrics and load moves *)

Definition schedule_replication (p : Partition) : PS unit := mmod (fun s => set_queue (replication_queue s ++ [p_id p]) s).

Definition update_partition_metrics (id : string) (items size_bytes : Z) (fraction : f64) : PS unit := fun s =>
  match partitions s !! id with
  | None => (Err (NNotFound "Partition {} not found"), s)
  | Some p =>
      (do* schedule_replication p;
       mmod (fun s => set_partitions (<[id := mkPartition (p_id p) (p_start p) (p_end p) (p_primary p) (p_replicas p)
         (p_last_assignment p) (p_generation p) fraction items size_bytes]> (partitions s)) s)) s
  end.

Definition calculate_partition_metrics (p : Partition) : PartitionMetrics :=
  mkPMetrics (p_estimated_items p) (p_estimated_size p) {["simulated_prefix"%string := p_estimated_items p]}.

(** The ratio of a node with the assumed capacity of 100 *)
Definition load_ratio (load : Z) : f64 := f64_div (f64_of_Z load) (f64_of_Z 100).

Definition rebalance_load (threshold : f64) (s : PartitionManager) : list PartitionMove :=
  let node_loads := foldl (fun m p => <[p.1 := count_of s p.1]> m) (∅ : gmap string Z) (dash_iter (m_nodes s)) in
  let loads := dash_iter node_loads in
  let total := foldr Z.add 0 loads.*2 in
  let capacity := 100 * Z.of_nat (length loads) in
  let global := if 0 <? capacity then f64_div (f64_of_Z total) (f64_of_Z capacity) else f64_zero in
  let over := List.filter (fun p => f64_ltb (f64_mul global (f64_add (f64_of_Z 1) threshold)) (load_ratio p.2)) loads in
  let under := List.filter (fun p => f64_ltb (load_ratio p.2) (f64_mul global (f64_sub (f64_of_Z 1) threshold))) loads in
  let over := stable_sort (fun a b => negb (f64_ltb (load_ratio a.2) (load_ratio b.2))) over in
  let under := stable_sort (fun a b => negb (f64_ltb (load_ratio b.2) (load_ratio a.2))) under in
  mjoin (map (fun o =>
    mjoin (map (fun p =>
      match under with
      | [] => []
      | u :: _ =>
          if f64_ltb threshold (f64_sub (load_ratio o.2) (load_ratio u.2))
          then [mkMove (p_id p) o.1 u.1 "load_balance" MHigh] else []
      end) (List.filter (fun p => bool_decide (p_primary p = o.1)) (dash_iter (partitions s)).*2))) over).

Definition drop_count (id : string) : PS unit := fun s =>
  match node_partition_counts s !! id with
  | None => (Ok tt, s)
  | Some c => (let* c' := mlift (n_sub c 1) in mmod (fun s => set_counts (<[id := c']> (node_partition_counts s)) s)) s
  end.

Definition apply_moves (moves : list PartitionMove) : PS unit :=
  for_each moves (fun mv => fun s =>
    match partitions s !! mv_partition_id mv with
    | None => (Ok tt, s)
    | Some p =>
        let moved := mkPartition (p_id p) (p_start p) (p_end p) (mv_target_node mv) (p_replicas p) (p_last_assignment p)
          (p_generation p) (p_keyspace_fraction p) (p_estimated_items p) (p_estimated_size p) in
        (do* mmod (fun s => set_partitions (<[mv_partition_id mv := moved]> (partitions s)) s);
         do* drop_count (mv_source_node mv);
         do* bump_count (mv_target_node mv);
         do* create_transfer moved (p_primary p) (mv_target_node mv);
         let* g := mlift (n_add (ring_generation s) 1) in
         mmod (fun s => set_partitions (<[mv_partition_id mv := reassign (mv_target_node mv) (p_replicas p) g p]> (partitions s)) s)) s
    end).

(** [rebalance_geography] plans nothing. *)
Definition rebalance_geography (s : PartitionManager) : list PartitionMove := [].

Definition coordinate_rebalancing : PS unit := fun s =>
  match rebalance_load (f64_lit 2 10) s with
  | [] => match rebalance_geography s with [] => (Ok tt, s) | moves => apply_moves moves s end
  | moves => apply_moves moves s
  end.

End PM.
End PM.

(** ** The key space is partitioned *)

Section Keyspace.
Context {B3 : Blake3} {RT : Runtime} {DO : DashOrder}.

Lemma contains_hash_spec b0 b1 hash : u64_ok b0 → u64_ok b1 → length hash = 32%nat →
  PM.partition_contains_hash (be_bytes b0) (be_bytes b1) hash = (b0 <=? be_Z (take 8 hash)) && (be_Z (take 8 hash) <? b1).
Proof.
  intros H0 H1 Hh. unfold PM.partition_contains_hash.
  rewrite !bytes_below by (change (length (be_bytes _)) with 8%nat; lia).
  change (length (be_bytes _)) with 8%nat. rewrite !be_Z_be_bytes by done. by rewrite <-Z.leb_antisym.
Qed.

(** The grid of a count that divides the key space evenly. *)
Definition grid (count : nat) : Prop :=
  (∀ i, (i < count)%nat → PM.boundary (Z.of_nat count) (Z.of_nat i) = Z.of_nat i * (2 ^ 64 / Z.of_nat count)) ∧
  PM.boundary (Z.of_nat count) (Z.of_nat count) = u64_max ∧
  2 ^ 64 / Z.of_nat count * Z.of_nat count = 2 ^ 64 ∧
  NoDup (map (fun i => PM.partition_name (Z.of_nat i)) (seq 0 count)).

Definition grid_check (count : nat) : bool :=
  forallb (fun i => PM.boundary (Z.of_nat count) (Z.of_nat i) =? Z.of_nat i * (2 ^ 64 / Z.of_nat count)) (seq 0 count) &&
  (PM.boundary (Z.of_nat count) (Z.of_nat count) =? u64_max) &&
  (2 ^ 64 / Z.of_nat count * Z.of_nat count =? 2 ^ 64) &&
  bool_decide (NoDup (map (fun i => PM.partition_name (Z.of_nat i)) (seq 0 count))).

Lemma grid_check_ok count : grid_check count = true → grid count.
Proof.
  unfold grid_check. rewrite !andb_true_iff, !Z.eqb_eq, bool_decide_eq_true.
  intros [[[Hf Hl] Hd] Hn]. split_and!; [|done..].
  intros i Hi. rewrite forallb_forall in Hf. apply Z.eqb_eq, Hf, list_elem_of_In, elem_of_seq. lia.
Qed.

Lemma grid_16 : grid 16.
Proof. apply grid_check_ok. vm_compute. reflexivity. Qed.
Lemma grid_256 : grid 256.
Proof. apply grid_check_ok. vm_compute. reflexivity. Qed.

Definition ring_of (count : nat) : gmap string Partition :=
  foldl (fun m i => <[PM.partition_name (Z.of_nat i) := PM.new_partition (Z.of_nat count) (Z.of_nat i)]> m) ∅ (seq 0 count).

Lemma foldl_insert_lookup {A} (f : nat → string) (g : nat → A) l (m : gmap string A) k x : NoDup (map f l) →
  (foldl (fun m i => <[f i := g i]> m) m l) !! k = Some x ↔
  (∃ i, i ∈ l ∧ k = f i ∧ x = g i) ∨ ((k ∉ map f l) ∧ (m !! k = Some x)).
Proof.
  revert m. induction l as [|i l IH]; intros m; simpl; [set_solver|].
  intros [Hi Hl]%NoDup_cons. rewrite IH by done. setoid_rewrite elem_of_cons.
  destruct (decide (k = f i)) as [->|Hne].
  - rewrite lookup_insert_eq. split.
    + intros [(j & Hj & Hk & ->)|[_ [= <-]]]; [|naive_solver]. exfalso. apply Hi. rewrite Hk. by apply list_elem_of_fmap_2.
    + intros [(j & [->|Hj] & Hk & ->)|[Hn _]]; [by right| |naive_solver].
      exfalso. apply Hi. rewrite Hk. by apply list_elem_of_fmap_2.
  - rewrite lookup_insert_ne by done. naive_solver.
Qed.

Lemma ring_of_lookup count k p : grid count →
  ring_of count !! k = Some p ↔
  ∃ i, (i < count)%nat ∧ k = PM.partition_name (Z.of_nat i) ∧ p = PM.new_partition (Z.of_nat count) (Z.of_nat i).
Proof.
  intros (_ & _ & _ & Hn). unfold ring_of.
  rewrite (foldl_insert_lookup (fun i => PM.partition_name (Z.of_nat i)) (fun i => PM.new_partition (Z.of_nat count) (Z.of_nat i))) by done.
  setoid_rewrite elem_of_seq. rewrite lookup_empty. split; [intros [(i & ? & ? & ?)|[_ H]]|intros (i & ? & ? & ?); left; exists i]; [|done|].
  - exists i. split_and!; [lia|done|done].
  - split_and!; [lia|lia|done|done].
Qed.

Lemma grid_contains count i key : grid count → (i < count)%nat →
  PM.partition_contains_hash (p_start (PM.new_partition (Z.of_nat count) (Z.of_nat i))) (p_end (PM.new_partition (Z.of_nat count) (Z.of_nat i)))
    (node_bytes (Id.calculate_key_hash key)) = true ↔
  PM.position_of key ≠ u64_max ∧ PM.position_of key / (2 ^ 64 / Z.of_nat count) = Z.of_nat i.
Proof.
  intros (Hb & Hl & Hd & _) Hi. simpl p_start; simpl p_end. set (w := 2 ^ 64 / Z.of_nat count) in *.
  assert (∀ a b, u64_ok (PM.boundary a b)) as Hu by (intros; apply f64_to_u64_ok).
  rewrite contains_hash_spec by (apply Hu || apply blake3_length). fold (PM.position_of key).
  pose proof (be_Z_range (take 8 (node_bytes (Id.calculate_key_hash key)))) as Hr. fold (PM.position_of key) in Hr.
  assert (length (take 8 (node_bytes (Id.calculate_key_hash key))) = 8%nat) as Hlen
    by (rewrite length_take; simpl; rewrite blake3_length; lia).
  rewrite Hlen in Hr. change (256 ^ Z.of_nat 8) with (2 ^ 64) in Hr. set (k := PM.position_of key) in *.
  assert (0 < w) as Hw by (destruct (decide (w ≤ 0)); [nia|lia]).
  rewrite andb_true_iff, Z.leb_le, Z.ltb_lt, (Hb i Hi).
  assert (k / w = Z.of_nat i ↔ Z.of_nat i * w ≤ k < (Z.of_nat i + 1) * w) as Hdiv.
  { split; [intros <-; pose proof (Z.div_mod k w ltac:(lia)); pose proof (Z.mod_pos_bound k w Hw); lia|].
    intros Hk. symmetry. apply Z.div_unique with (k - Z.of_nat i * w); lia. }
  rewrite Hdiv. destruct (decide (S i = count)) as [He|Hne].
  - replace (Z.of_nat i + 1) with (Z.of_nat count) by lia. rewrite Hl, (Z.mul_comm (Z.of_nat count) w), Hd. unfold u64_max in *. lia.
  - replace (Z.of_nat i + 1) with (Z.of_nat (S i)) by lia. rewrite (Hb (S i)) by lia.
    assert (Z.of_nat (S i) * w ≤ (Z.of_nat count - 1) * w) by nia. unfold u64_max in *. nia.
Qed.

Lemma position_index count key : grid count →
  ∃ i, Z.of_nat i = PM.position_of key / (2 ^ 64 / Z.of_nat count) ∧ (i < count)%nat.
Proof.
  intros (_ & _ & Hd & _). pose proof (be_Z_range (take 8 (node_bytes (Id.calculate_key_hash key)))) as Hr.
  fold (PM.position_of key) in Hr.
  assert (length (take 8 (node_bytes (Id.calculate_key_hash key))) = 8%nat) as Hlen
    by (rewrite length_take; simpl; rewrite blake3_length; lia).
  rewrite Hlen in Hr. change (256 ^ Z.of_nat 8) with (2 ^ 64) in Hr. set (w := 2 ^ 64 / Z.of_nat count) in *.
  assert (0 < w) as Hw by (destruct (decide (w ≤ 0)); [nia|lia]).
  assert (0 ≤ PM.position_of key / w) by (apply Z.div_pos; lia).
  assert (PM.position_of key / w < Z.of_nat count) by (apply Z.div_lt_upper_bound; lia).
  exists (Z.to_nat (PM.position_of key / w)). lia.
Qed.

Lemma ring_of_size count : grid count → size (ring_of count) = count.
Proof.
  intros Hg. assert (map_to_list (ring_of count) ≡ₚ
    map (fun i => (PM.partition_name (Z.of_nat i), PM.new_partition (Z.of_nat count) (Z.of_nat i))) (seq 0 count)) as Hp.
  { apply NoDup_Permutation; [apply NoDup_map_to_list| |].
    - destruct Hg as (_ & _ & _ & Hn). apply (NoDup_fmap_1 fst). by rewrite <-list_fmap_compose.
    - intros [k p]. rewrite elem_of_map_to_list, ring_of_lookup by done. rewrite list_elem_of_fmap. split.
      + intros (i & Hi & -> & ->). exists i. split; [done|]. apply elem_of_seq. lia.
      + intros (i & [= -> ->] & Hi%elem_of_seq). exists i. split_and!; [lia|done|done]. }
  rewrite <-length_map_to_list, Hp, length_map, length_seq. done.
Qed.

Lemma lookup_in_grid s count key i : grid count → partitions s = ring_of count → (i < count)%nat →
  PM.position_of key ≠ u64_max → Z.of_nat i = PM.position_of key / (2 ^ 64 / Z.of_nat count) →
  PM.get_partition_for_key s key = Ok (PM.new_partition (Z.of_nat count) (Z.of_nat i)).
Proof.
  intros Hg Hp Hi Hk Hpos. unfold PM.get_partition_for_key. rewrite Hp.
  destruct (List.find _ (dash_iter (ring_of count))) as [[id p]|] eqn:Hf.
  - apply List.find_some in Hf as [Hin Hc]. apply list_elem_of_In, elem_of_iter in Hin.
    apply ring_of_lookup in Hin as (j & Hj & _ & ->); [|done]. simpl in Hc.
    apply grid_contains in Hc as [_ Hj']; [|done|done]. do 3 f_equal. lia.
  - exfalso. eapply List.find_none in Hf; [|apply list_elem_of_In, elem_of_iter, (ring_of_lookup count); [done|]; by exists i].
    cbn [snd] in Hf. rewrite (proj2 (grid_contains count i key Hg Hi)) in Hf; [done|]. split; [done|lia].
Qed.

Lemma fallback_in_grid s count key : grid count → partitions s = ring_of count → PM.position_of key = u64_max →
  ∃ e rest, dash_iter (ring_of count) = e :: rest ∧ PM.get_partition_for_key s key = Ok e.2.
Proof.
  intros Hg Hp Hk. unfold PM.get_partition_for_key. rewrite Hp.
  destruct (List.find _ (dash_iter (ring_of count))) as [[id p]|] eqn:Hf.
  { exfalso. apply List.find_some in Hf as [Hin Hc]. apply list_elem_of_In, elem_of_iter in Hin.
    apply ring_of_lookup in Hin as (j & Hj & _ & ->); [|done]. simpl in Hc. apply grid_contains in Hc as [? _]; done. }
  destruct (dash_iter (ring_of count)) as [|e rest] eqn:He; [|by exists e, rest].
  exfalso. destruct (position_index count key Hg) as (i & _ & Hi).
  assert (ring_of count !! PM.partition_name (Z.of_nat i) = Some (PM.new_partition (Z.of_nat count) (Z.of_nat i))) as Hl
    by (apply ring_of_lookup; [done|]; by exists i).
  apply elem_of_iter in Hl. rewrite He in Hl. by apply not_elem_of_nil in Hl.
Qed.

Lemma new_partition_inj count i j : grid count → (i < count)%nat → (j < count)%nat →
  PM.new_partition (Z.of_nat count) (Z.of_nat i) = PM.new_partition (Z.of_nat count) (Z.of_nat j) → i = j.
Proof.
  intros (Hb & _ & Hd & _) Hi Hj Heq. apply (f_equal p_start) in Heq. simpl in Heq.
  apply (f_equal be_Z) in Heq. rewrite !be_Z_be_bytes in Heq by apply f64_to_u64_ok.
  rewrite !Hb in Heq by done. assert (2 ^ 64 / Z.of_nat count ≠ 0) by nia. nia.
Qed.

(** C26: the ring of 256 partitions (the default) and the ring of 16 (the one the
    storage factory asks for) cut the key space evenly: whatever the iteration
    order of the map, a key belongs to exactly the partition its position names.
    The one position that belongs to none is the last, since the final boundary
    is exclusive; such a key falls to the partition that happens to come first. *)
Theorem keyspace_partitioned (s s' : PartitionManager) (key : string) (count : nat)
    (Hcount : count = 16%nat ∨ count = 256%nat)
    (Hcfg : partition_count (m_config s) = Z.of_nat count) (Hs : PM.create_partitions s = (Ok tt, s')) :
  size (partitions s') = count ∧
  (PM.position_of key ≠ u64_max →
   ∃ i, Z.of_nat i = PM.position_of key / (2 ^ 64 / Z.of_nat count) ∧ (i < count)%nat ∧
     PM.get_partition_for_key s' key = Ok (PM.new_partition (Z.of_nat count) (Z.of_nat i)) ∧
     ∀ id p, partitions s' !! id = Some p →
       (PM.partition_contains_hash (p_start p) (p_end p) (node_bytes (Id.calculate_key_hash key)) = true ↔
        p = PM.new_partition (Z.of_nat count) (Z.of_nat i))) ∧
  (PM.position_of key = u64_max → ∃ e rest,
     dash_iter (partitions s') = e :: rest ∧ PM.get_partition_for_key s' key = Ok e.2).
Proof.
  assert (grid count) as Hg by (destruct Hcount as [-> | ->]; [apply grid_16|apply grid_256]).
  assert (partitions s' = ring_of count) as Hp.
  { injection Hs as <-. simpl. by rewrite Hcfg, Nat2Z.id. }
  split_and!; rewrite ?Hp.
  - by apply ring_of_size.
  - intros Hk. destruct (position_index count key Hg) as (i & Hi & Hlt). exists i. split_and!; [done|done| |].
    + by apply lookup_in_grid.
    + intros id p. rewrite ring_of_lookup by done. intros (j & Hj & _ & ->). rewrite grid_contains by done.
      split; [intros [_ Hj']; do 2 f_equal; lia|]. intros Hij. split; [done|].
      by apply (new_partition_inj count) in Hij as ->.
  - intros Hk. apply fallback_in_grid; done.
Qed.

End Keyspace.

(** ** Assignment on the ring *)

Lemma filter_length_lt {A} (P Q : A → bool) l x : (∀ y, Q y = true → P y = true) → x ∈ l → P x = true → Q x = false →
  (length (List.filter Q l) < length (List.filter P l))%nat.
Proof.
  intros HQP. assert (∀ l, length (List.filter Q l) ≤ length (List.filter P l))%nat as Hle.
  { intros l'. induction l' as [|y l' IH]; simpl; [done|]. destruct (Q y) eqn:HQ; [rewrite (HQP y HQ); simpl; lia|].
    destruct (P y); simpl; lia. }
  intros Hx HP HQ. induction l as [|y l IH]; [by apply not_elem_of_nil in Hx|]. simpl.
  apply elem_of_cons in Hx as [<-|Hx].
  - rewrite HP, HQ. simpl. specialize (Hle l). lia.
  - specialize (IH Hx). destruct (Q y) eqn:HQy; [rewrite (HQP y HQy); simpl; lia|]. destruct (P y); simpl; lia.
Qed.

Lemma filter_length_le {A} (P : A → bool) l : (length (List.filter P l) ≤ length l)%nat.
Proof. induction l as [|x l IH]; simpl; [done|]. destruct (P x); simpl; lia. Qed.

Lemma sorted_key_inj (l : list (Z * string)) : StronglySorted (fun p q => p.1 < q.1) l →
  ∀ x y, x ∈ l → y ∈ l → x.1 = y.1 → x = y.
Proof.
  induction 1 as [|z l Hl IH Hall]; intros x y; [by intros ?%not_elem_of_nil|]. rewrite Forall_forall in Hall.
  intros [->|Hx]%elem_of_cons [->|Hy]%elem_of_cons Hxy; [done| | |by apply IH].
  - specialize (Hall y Hy). simpl in Hall. lia.
  - specialize (Hall x Hx). simpl in Hall. lia.
Qed.

Section Assign.
Context (entries : list (Z * string)).
Context (Hsorted : StronglySorted (fun p q => p.1 < q.1) entries).
Context (Hedge : ∀ e, e ∈ entries → e.1 < u64_max).

Lemma next_from_Some p e : PM.next_from entries p = Some e →
  e ∈ entries ∧ p ≤ e.1 ∧ ∀ e', e' ∈ entries → p ≤ e'.1 → e.1 ≤ e'.1.
Proof.
  unfold PM.next_from. clear Hedge. induction Hsorted as [|x l Hl IH Hall]; simpl; [done|].
  destruct (Z.leb_spec p x.1) as [Hp|Hp].
  - intros [= <-]. split_and!; [set_solver|done|]. rewrite Forall_forall in Hall.
    intros e' [->|He']%elem_of_cons _; [done|]. specialize (Hall e' He'). simpl in Hall. lia.
  - intros He. destruct (IH Hl He) as (H1 & H2 & H3). split_and!; [set_solver|done|].
    intros e' [->|He']%elem_of_cons Hle; [lia|by apply H3].
Qed.

Lemma next_from_None p e : PM.next_from entries p = None → e ∈ entries → e.1 < p.
Proof.
  unfold PM.next_from. intros Hn He. eapply List.find_none in Hn; [|by apply list_elem_of_In].
  by apply Z.leb_gt in Hn.
Qed.

Context (rf position : Z) (Hrf : 1 ≤ rf) (Hmax : rf * 2 ≤ u64_max).
Context (primary : string).

Record scan_ok (s : PM.scan) : Prop := mkScanOk {
  so_assigned : ∀ n, n ∈ PM.sc_assigned s ↔ n = primary ∨ n ∈ PM.sc_replicas s;
  so_nodup : NoDup (primary :: PM.sc_replicas s);
  so_known : ∀ n, n ∈ PM.sc_replicas s → n ∈ entries.*2;
  so_from : position ≤ PM.sc_pos s;
}.
Definition passed (s : PM.scan) : Prop :=
  ∀ e, e ∈ entries → position < e.1 ≤ PM.sc_pos s → e.2 ∈ PM.sc_assigned s.

Lemma scan_push s p pos node : scan_ok s → node ∉ PM.sc_assigned s → (pos, node) ∈ entries → position ≤ p →
  scan_ok (PM.mkScan p ({[node]} ∪ PM.sc_assigned s) (PM.sc_replicas s ++ [node])).
Proof.
  intros [Ha Hn Hk _] Hnode He Hpos. constructor; simpl; [| | |done].
  - intros n. rewrite elem_of_union, elem_of_singleton, Ha, elem_of_app, list_elem_of_singleton. naive_solver.
  - rewrite app_comm_cons. apply NoDup_app. split_and!; [done| |apply NoDup_singleton].
    intros n Hin ->%list_elem_of_singleton. apply Hnode, Ha. by apply elem_of_cons.
  - intros n [Hin| ->%list_elem_of_singleton]%elem_of_app; [by apply Hk|]. apply list_elem_of_fmap. by exists (pos, node).
Qed.

Lemma scan_move s pos : scan_ok s → PM.sc_pos s ≤ pos → scan_ok (PM.mkScan pos (PM.sc_assigned s) (PM.sc_replicas s)).
Proof. intros [Ha Hn Hk Hf] Hpos. constructor; simpl; [done..|lia]. Qed.

(** Entries not yet visited by the forward scan *)
Definition ahead (p : Z) : nat := length (List.filter (fun e => p <? e.1) entries).

Lemma ahead_lt p e : e ∈ entries → p < e.1 → (ahead e.1 < ahead p)%nat.
Proof.
  intros He Hlt. unfold ahead. apply filter_length_lt with e; [|done|by apply Z.ltb_lt|by apply Z.ltb_irrefl].
  intros y. rewrite !Z.ltb_lt. lia.
Qed.

Lemma forward_scan_ok turns : ∀ s, scan_ok s → passed s → PM.sc_pos s < u64_max → (ahead (PM.sc_pos s) ≤ turns)%nat →
  ∃ s', PM.forward_scan turns entries rf s = Ok s' ∧ scan_ok s' ∧
    (rf * 2 ≤ Z.of_nat (length (PM.sc_replicas s')) ∨
     ∀ e, e ∈ entries → position < e.1 → e.2 ∈ PM.sc_assigned s').
Proof.
  induction turns as [|turns IH]; intros s Hok Hpass Hlt Hturns; cbn [PM.forward_scan].
  { exists s. split_and!; [done|done|right]. intros e He Hp. apply Hpass; [done|]. split; [done|].
    destruct (decide (e.1 ≤ PM.sc_pos s)); [done|]. pose proof (ahead_lt (PM.sc_pos s) e He ltac:(lia)). lia. }
  rewrite (proj2 (n_add_Ok _ 1 (PM.sc_pos s + 1))) by lia. cbn [mbind outcome_bind].
  destruct (PM.next_from entries (PM.sc_pos s + 1)) as [[pos node]|] eqn:Hnext.
  2: { exists s. split_and!; [done|done|right]. intros e He Hp. apply Hpass; [done|].
       pose proof (next_from_None _ e Hnext He). lia. }
  apply next_from_Some in Hnext as (He & Hpos & Hleast). simpl in Hpos, Hleast.
  pose proof (ahead_lt (PM.sc_pos s) (pos, node) He ltac:(simpl; lia)) as Hah. simpl in Hah.
  pose proof (Hedge _ He) as Hed. simpl in Hed. pose proof (so_from s Hok).
  assert (∀ A, PM.sc_assigned s ⊆ A → node ∈ A → ∀ e, e ∈ entries → position < e.1 ≤ pos → e.2 ∈ A) as Hstep.
  { intros A Hsub Hnode e Hin Hr. destruct (decide (e.1 ≤ PM.sc_pos s)); [apply Hsub, Hpass; [done|lia]|].
    specialize (Hleast e Hin ltac:(lia)).
    assert (e = (pos, node)) as -> by (apply (sorted_key_inj entries Hsorted); [done|done|simpl; lia]). done. }
  case_bool_decide as Hin.
  - destruct (IH (PM.mkScan pos (PM.sc_assigned s) (PM.sc_replicas s))) as (s' & Hs' & H1 & H2);
      [apply scan_move; [done|lia]|exact (Hstep _ ltac:(done) Hin)|done|simpl; lia|]. exists s'. done.
  - pose proof (scan_push s pos pos node Hok Hin He ltac:(lia)) as Hok'.
    assert (PM.sc_assigned s ⊆ {[node]} ∪ PM.sc_assigned s) as Hsub by apply union_subseteq_r.
    assert (node ∈ {[node]} ∪ PM.sc_assigned s) as Hnew by (apply elem_of_union_l, elem_of_singleton; reflexivity).
    rewrite (proj2 (n_mul_Ok rf 2 (rf * 2))) by (split; [reflexivity|assumption]). cbn [mbind outcome_bind].
    case_test; zbool; [eexists; split; [done|]; split; [done|by left]|].
    destruct (IH (PM.mkScan pos ({[node]} ∪ PM.sc_assigned s) (PM.sc_replicas s ++ [node]))) as (s' & Hs' & H1 & H2);
      [exact Hok'|exact (Hstep _ Hsub Hnew)|exact Hed|simpl; lia|]. exists s'. split; [exact Hs'|split; [exact H1|exact H2]].
Qed.

Lemma wrap_scan_ok wanted l : ∀ s, (∀ e, e ∈ l → e ∈ entries) → StronglySorted (fun p q => p.1 < q.1) l → scan_ok s →
  let s' := PM.wrap_scan l wanted s in
  scan_ok s' ∧ (∀ n, n ∈ PM.sc_assigned s → n ∈ PM.sc_assigned s') ∧
  (wanted ≤ Z.of_nat (length (PM.sc_replicas s')) ∨ ∀ e, e ∈ l → e.1 < PM.sc_pos s → e.2 ∈ PM.sc_assigned s').
Proof.
  induction l as [|[pos node] l IH]; intros s Hsub Hl Hok; cbn [PM.wrap_scan].
  { split_and!; [exact Hok|auto|right]. intros e He. by apply not_elem_of_nil in He. }
  inversion_clear Hl as [|? ? Hl' Hall]. rewrite Forall_forall in Hall.
  assert (∀ e, e ∈ l → e ∈ entries) as Hsub' by (intros e He; apply Hsub, elem_of_cons; auto).
  assert ((pos, node) ∈ entries) as Hin by (apply Hsub, elem_of_cons; auto).
  destruct (Z.leb_spec (PM.sc_pos s) pos) as [Hge|Hlt].
  { split_and!; [exact Hok|auto|right]. intros e [->|He]%elem_of_cons Hp; [simpl in Hp; lia|].
    specialize (Hall e He). simpl in Hall. lia. }
  case_bool_decide as Hn.
  - destruct (IH s Hsub' Hl' Hok) as (H1 & H2 & H3). split_and!; [exact H1|exact H2|].
    destruct H3 as [H3|H3]; [by left|right]. intros e [->|He]%elem_of_cons Hp; [by apply H2|by apply H3].
  - set (s1 := PM.mkScan (PM.sc_pos s) ({[node]} ∪ PM.sc_assigned s) (PM.sc_replicas s ++ [node])).
    assert (scan_ok s1) as Hok1 by (apply (scan_push s (PM.sc_pos s) pos node Hok Hn Hin), Hok).
    assert (node ∈ PM.sc_assigned s1) as Hnew by (apply elem_of_union_l, elem_of_singleton; reflexivity).
    assert (∀ n, n ∈ PM.sc_assigned s → n ∈ PM.sc_assigned s1) as Hold by (intros n; apply elem_of_union_r).
    case_test; zbool; [split_and!; [exact Hok1|exact Hold|by left]|].
    destruct (IH s1 Hsub' Hl' Hok1) as (H1 & H2 & H3). split_and!; [exact H1|auto|].
    destruct H3 as [H3|H3]; [by left|right]. intros e [->|He]%elem_of_cons Hp; [by apply H2|by apply H3].
Qed.
End Assign.

(** The number of different nodes on the ring *)
Definition ring_nodes (entries : list (Z * string)) : gset string := list_to_set entries.*2.

Section AssignTheorem.
Context (entries : list (Z * string)) (rf position : Z) (local : string).
Context (Hsorted : StronglySorted (fun p q => p.1 < q.1) entries) (Hne : entries ≠ []).
Context (Hedge : ∀ e, e ∈ entries → e.1 < u64_max) (Hpos : position < u64_max).
Context (Hrf : 1 ≤ rf) (Hmax : rf * 2 ≤ u64_max).

(** The first entry at or after the position, around the ring *)
Definition successor (primary : string) : Prop :=
  ∃ pos, (pos, primary) ∈ entries ∧
    ((position ≤ pos ∧ ∀ e, e ∈ entries → position ≤ e.1 → pos ≤ e.1) ∨
     ((∀ e, e ∈ entries → e.1 < position) ∧ ∀ e, e ∈ entries → pos ≤ e.1)).

Definition primary_of : string :=
  match PM.next_from entries position with
  | Some (_, node) => node
  | None => match entries with (_, node) :: _ => node | [] => local end
  end.

Lemma primary_successor : successor primary_of.
Proof.
  unfold primary_of. destruct (PM.next_from entries position) as [[pos node]|] eqn:Hn.
  - apply (next_from_Some entries Hsorted) in Hn as (Hin & Hle & Hleast). exists pos. split; [done|]. left. done.
  - assert (∀ e, e ∈ entries → e.1 < position) as Hbefore by (intros e; exact (next_from_None entries position e Hn)).
    unfold successor. clear Hn Hedge. destruct entries as [|[pos node] l]; [done|].
    exists pos. split; [apply elem_of_cons; by left|]. right. split; [done|]. inversion_clear Hsorted as [|? ? _ Hall].
    rewrite Forall_forall in Hall. intros e [->|Hin]%elem_of_cons; [done|]. specialize (Hall e Hin). simpl in Hall. lia.
Qed.

Lemma scan_size s : scan_ok entries position primary_of s →
  (length (PM.sc_replicas s) + 1 ≤ size (ring_nodes entries))%nat ∧
  ((∀ e, e ∈ entries → e.2 ∈ PM.sc_assigned s) → (length (PM.sc_replicas s) + 1 = size (ring_nodes entries))%nat).
Proof.
  intros [Ha Hn Hk _].
  assert (size (list_to_set (primary_of :: PM.sc_replicas s) : gset string) = (length (PM.sc_replicas s) + 1)%nat) as Hsize
    by (rewrite size_list_to_set by done; simpl; lia).
  assert ((list_to_set (primary_of :: PM.sc_replicas s) : gset string) ⊆ ring_nodes entries) as Hsub.
  { intros n. rewrite elem_of_list_to_set, elem_of_cons. unfold ring_nodes. rewrite elem_of_list_to_set.
    intros [->|Hin]; [|by apply Hk]. destruct primary_successor as (pos & Hin & _). apply list_elem_of_fmap. by exists (pos, primary_of). }
  split; [rewrite <-Hsize; by apply subseteq_size|].
  intros Hall. rewrite <-Hsize. f_equal. apply set_eq. intros n. split; [apply Hsub|].
  unfold ring_nodes. rewrite !elem_of_list_to_set. intros (e & -> & He)%list_elem_of_fmap.
  rewrite elem_of_cons. by apply Ha, Hall.
Qed.

Lemma assign_scan : ∃ s, PM.assign entries rf position local = Ok (primary_of, take (Z.to_nat (rf - 1)) (PM.sc_replicas s)) ∧
  scan_ok entries position primary_of s ∧
  (rf - 1 ≤ Z.of_nat (length (PM.sc_replicas s)) ∨ ∀ e, e ∈ entries → e.2 ∈ PM.sc_assigned s).
Proof.
  unfold PM.assign. fold primary_of.
  destruct (forward_scan_ok entries Hsorted Hedge rf position Hmax primary_of (length entries) (PM.mkScan position {[primary_of]} []))
    as (s1 & -> & Hok1 & Hend1).
  { constructor; simpl; [|apply NoDup_singleton|intros n Hn; by apply not_elem_of_nil in Hn|done].
    intros n. rewrite elem_of_singleton. split; [by left|]. intros [->|Hn]; [done|by apply not_elem_of_nil in Hn]. }
  { intros e _ Hr. simpl in Hr. lia. }
  { done. }
  { unfold ahead. apply filter_length_le. }
  cbn [mbind outcome_bind]. rewrite (proj2 (n_sub_Ok rf 1 (rf - 1))) by lia. cbn [mbind outcome_bind].
  replace (saturating_sub rf 1) with (rf - 1) by (unfold saturating_sub; lia).
  rewrite bool_decide_eq_false_2 by done. cbn [negb]. rewrite andb_true_r.
  case_test; zbool; (eexists; split; [reflexivity|]).
  2: { split; [done|by left]. }
  destruct (wrap_scan_ok entries position primary_of (rf - 1) entries s1) as (Hok2 & Hmono & Hend2); [done|done|done|].
  split; [done|]. destruct Hend2 as [?|Hend2]; [by left|right]. intros e He.
  destruct Hend1 as [?|Hend1]; [lia|].
  destruct (decide (position < e.1)) as [Hlt|Hge]; [by apply Hmono, Hend1|].
  destruct (decide (e.1 < PM.sc_pos s1)) as [Hlt|Hge']; [by apply Hend2|].
  apply Hmono, (so_assigned _ _ _ _ Hok1). left. pose proof (so_from _ _ _ _ Hok1).
  destruct primary_successor as (pos & Hin & [[Hle Hleast]|[Hall _]]); [|specialize (Hall e He); lia].
  specialize (Hleast e He ltac:(lia)).
  assert ((pos, primary_of) = e) as Heq by (apply (sorted_key_inj entries Hsorted); [done|done|simpl; lia]).
  by rewrite <-Heq.
Qed.
End AssignTheorem.

(** ** The rebalance by consistent hashing *)

#[global] Instance pos_le_total : Total PM.pos_le.
Proof. intros p q. unfold PM.pos_le. lia. Qed.
#[global] Instance pos_le_trans : Transitive PM.pos_le.
Proof. intros p q r. unfold PM.pos_le. lia. Qed.

Lemma ring_entries_perm ring : PM.ring_entries ring ≡ₚ map_to_list ring.
Proof. apply merge_sort_Permutation. Qed.

Lemma ring_entries_sorted ring : StronglySorted (fun p q => p.1 < q.1) (PM.ring_entries ring).
Proof.
  assert (NoDup (PM.ring_entries ring).*1) as Hn by (rewrite ring_entries_perm; apply NoDup_fst_map_to_list).
  assert (StronglySorted PM.pos_le (PM.ring_entries ring)) as Hs by apply (StronglySorted_merge_sort PM.pos_le).
  revert Hn. induction Hs as [|p l Hs IH Hall]; intros Hn; [constructor|]. rewrite fmap_cons in Hn.
  apply NoDup_cons in Hn as [Hp Hn]. constructor; [by apply IH|]. rewrite Forall_forall in Hall |- *.
  intros q Hq. specialize (Hall q Hq). unfold PM.pos_le in Hall. assert (p.1 ≠ q.1); [|lia].
  intros Heq. apply Hp. rewrite Heq. by apply list_elem_of_fmap_2.
Qed.

Lemma elem_of_ring_entries ring pos n : (pos, n) ∈ PM.ring_entries ring ↔ ring !! pos = Some n.
Proof. by rewrite ring_entries_perm, elem_of_map_to_list. Qed.

Lemma foldl_zero ids (m : gmap string Z) n :
  foldl (fun m id => <[id := 0]> m) m ids !! n = if decide (n ∈ ids) then Some 0 else m !! n.
Proof.
  revert m. induction ids as [|i ids IH]; intros m; simpl; [done|]. rewrite IH.
  destruct (decide (n = i)) as [->|Hne].
  - rewrite (decide_True (P := i ∈ i :: ids)) by (apply elem_of_cons; by left).
    destruct (decide _); [done|]. apply lookup_insert_eq.
  - rewrite lookup_insert_ne by done.
    destruct (decide (n ∈ ids)) as [H|H], (decide (n ∈ i :: ids)) as [H'|H']; rewrite elem_of_cons in H'; [done|exfalso; tauto..|done].
Qed.

Lemma foldl_inv {A B} (P : B → Prop) (f : B → A → B) l b :
  P b → (∀ b a, a ∈ l → P b → P (f b a)) → P (foldl f b l).
Proof.
  revert b. induction l as [|a l IH]; intros b Hb Hf; simpl; [done|].
  apply IH; [apply Hf; [apply elem_of_cons; by left|done]|]. intros b' a' Ha'. apply Hf, elem_of_cons. by right.
Qed.

Section Rebalance.
Context {B3 : Blake3} {RT : Runtime} {DO : DashOrder}.

(** What a valid assignment of a partition is, on a ring, for a replication factor *)
Record assigned (ring : gmap Z string) (rf : Z) (id : string) (p : Partition) : Prop := mkAssigned {
  as_primary : successor (PM.ring_entries ring) (PM.position_of id) (p_primary p);
  as_distinct : NoDup (p_primary p :: p_replicas p);
  as_replicas : ∀ n, n ∈ p_replicas p → n ∈ ring_nodes (PM.ring_entries ring);
  as_count : Z.of_nat (length (p_replicas p)) = Z.min (rf - 1) (Z.of_nat (size (ring_nodes (PM.ring_entries ring))) - 1);
}.

Lemma assign_valid ring rf id local : ring ≠ ∅ → (∀ pos n, ring !! pos = Some n → pos < u64_max) →
  PM.position_of id < u64_max → 1 ≤ rf → rf * 2 ≤ u64_max →
  ∃ primary replicas, PM.assign (PM.ring_entries ring) rf (PM.position_of id) local = Ok (primary, replicas) ∧
    primary ∈ ring_nodes (PM.ring_entries ring) ∧
    ∀ g p, assigned ring rf id (PM.reassign primary replicas g p).
Proof.
  intros Hne Hedge Hpos Hrf Hmax. set (es := PM.ring_entries ring).
  assert (StronglySorted (fun p q => p.1 < q.1) es) as Hsorted by apply ring_entries_sorted.
  assert (es ≠ []) as Hes.
  { intros He. apply Hne, map_to_list_empty_iff, Permutation_nil_r. rewrite <-ring_entries_perm. fold es. by rewrite He. }
  assert (∀ e, e ∈ es → e.1 < u64_max) as Hed.
  { intros [pos n] Hin. apply elem_of_ring_entries in Hin. by apply (Hedge pos n). }
  destruct (assign_scan es rf (PM.position_of id) local Hsorted Hes Hed Hpos Hrf Hmax) as (sc & Ha & Hok & Hend).
  pose proof (primary_successor es (PM.position_of id) local Hsorted Hes) as Hsucc.
  pose proof (scan_size es (PM.position_of id) local Hsorted Hes sc Hok) as [Hle Heq].
  eexists _, _. split; [exact Ha|]. split.
  { destruct Hsucc as (pos & Hin & _). unfold ring_nodes. apply elem_of_list_to_set, list_elem_of_fmap. by eexists (_, _). }
  intros g p. destruct Hok as [_ Hnd Hk _]. constructor; simpl.
  - done.
  - apply NoDup_cons in Hnd as [Hp Hn]. apply NoDup_cons. split.
    + intros Hin. apply Hp. rewrite <-(take_drop (Z.to_nat (rf - 1)) (PM.sc_replicas sc)). apply elem_of_app. by left.
    + eapply sublist_NoDup; [exact Hn|apply sublist_take].
  - intros n Hin. unfold ring_nodes. apply elem_of_list_to_set, Hk.
    rewrite <-(take_drop (Z.to_nat (rf - 1)) (PM.sc_replicas sc)). apply elem_of_app. by left.
  - rewrite length_take. fold es. destruct Hend as [?|Hall]; [lia|]. specialize (Heq Hall). lia.
Qed.

(** The parts of the state a rebalance leaves alone *)
Definition same_frame (s s' : PartitionManager) : Prop :=
  m_config s' = m_config s ∧ m_node_id s' = m_node_id s ∧ ring_generation s' = ring_generation s ∧ m_nodes s' = m_nodes s.

Lemma create_transfer_ok p source target s z : PM.transfer_priority p = Ok z →
  ∃ s', PM.create_transfer p source target s = (Ok tt, s') ∧ same_frame s s' ∧
    partitions s' = partitions s ∧ node_partition_counts s' = node_partition_counts s.
Proof.
  intros Hz. unfold PM.create_transfer. case_test; [by exists s|].
  unfold mbind_st, mlift, mmod. rewrite Hz. simpl. eexists. split; [reflexivity|]. by destruct (transfer_handlers s !! source).
Qed.

Lemma bump_count_ok id s c : node_partition_counts s !! id = Some c → c < u64_max →
  PM.bump_count id s = (Ok tt, PM.set_counts (<[id := c + 1]> (node_partition_counts s)) s).
Proof.
  intros Hc Hlt. unfold PM.bump_count, mbind_st, mlift, mmod. rewrite Hc.
  by rewrite (proj2 (n_add_Ok c 1 (c + 1))) by lia.
Qed.

Lemma update_partition_ok id primary replicas p c s : partitions s !! id = Some p →
  ring_generation s < u64_max → is_ok (PM.transfer_priority (PM.reassign "" [] 0 p)) = true →
  node_partition_counts s !! primary = Some c → c < u64_max →
  ∃ s', PM.update_partition id primary replicas s = (Ok tt, s') ∧ same_frame s s' ∧
    partitions s' = <[id := PM.reassign primary replicas (ring_generation s + 1) p]> (partitions s) ∧
    node_partition_counts s' = <[primary := c + 1]> (node_partition_counts s).
Proof.
  intros Hp Hg Hprio Hc Hlt. unfold PM.update_partition. rewrite Hp. unfold mbind_st, mlift, mmod, mret_st.
  rewrite (proj2 (n_add_Ok (ring_generation s) 1 (ring_generation s + 1))) by lia.
  set (p' := PM.reassign primary replicas (ring_generation s + 1) p).
  set (s1 := PM.set_partitions (<[id := p']> (partitions s)) s).
  rewrite (bump_count_ok primary s1 c Hc Hlt). set (s2 := PM.set_counts _ s1).
  case_test; [|by exists s2].
  change (PM.transfer_priority (PM.reassign "" [] 0 p)) with (PM.transfer_priority p') in Hprio.
  destruct (PM.transfer_priority p') as [z| | |] eqn:Hz; try discriminate Hprio.
  destruct (create_transfer_ok p' (p_primary p) primary s2 z Hz) as (s3 & -> & Hf & Hps & Hcs).
  exists s3. split_and!; [done|exact Hf|by rewrite Hps|by rewrite Hcs].
Qed.

Section Loop.
Context (ring : gmap Z string) (P0 : gmap string Partition) (rf g : Z) (total : nat).
Context (Hring : ring ≠ ∅) (Hedge : ∀ pos n, ring !! pos = Some n → pos < u64_max) (Hrf : 1 ≤ rf) (Hmax : rf * 2 ≤ u64_max).
Context (Hg : g < u64_max) (Htotal : Z.of_nat total ≤ u64_max).
Context (Hpos : ∀ id p, P0 !! id = Some p → PM.position_of id < u64_max).
Context (Hprio : ∀ id p, P0 !! id = Some p → is_ok (PM.transfer_priority (PM.reassign "" [] 0 p)) = true).

(** The outcome for one partition: assigned, with the rest of it kept *)
Definition rebalanced (id : string) (p' : Partition) : Prop :=
  assigned ring rf id p' ∧ ∃ p, P0 !! id = Some p ∧
    p_start p' = p_start p ∧ p_end p' = p_end p ∧ p_id p' = p_id p ∧ p_generation p' = g + 1.

(** [left] partitions are still to be done; every ring node has been counted at
    most once for each of the others. *)
Record loop_inv (left : list string) (s : PartitionManager) : Prop := mkLoop {
  li_rf : replication_factor (m_config s) = rf;
  li_gen : ring_generation s = g;
  li_left : ∀ id, id ∈ left → ∃ p, partitions s !! id = Some p ∧ P0 !! id = Some p;
  li_done : ∀ id p', partitions s !! id = Some p' → id ∈ left ∨ rebalanced id p';
  li_dom : ∀ id, is_Some (partitions s !! id) ↔ is_Some (P0 !! id);
  li_counts : ∀ n, n ∈ ring_nodes (PM.ring_entries ring) →
    ∃ c, node_partition_counts s !! n = Some c ∧ 0 ≤ c ≤ Z.of_nat (total - length left);
  li_length : (length left ≤ total)%nat;
  li_nodup : NoDup left;
}.

Definition turn (id : string) : NM PartitionManager unit := fun s =>
  (let* a := mlift (PM.assign (PM.ring_entries ring) (replication_factor (m_config s)) (PM.position_of id) (m_node_id s)) in
   PM.update_partition id (fst a) (snd a)) s.

Lemma turn_ok id left s : loop_inv (id :: left) s →
  ∃ s', turn id s = (Ok tt, s') ∧ loop_inv left s' ∧ same_frame s s'.
Proof.
  intros [H1 H2 H3 H4 H5 H6 H7 H8]. destruct (H3 id) as (p & Hp & Hp0); [apply elem_of_cons; by left|].
  unfold turn, mbind_st, mlift. rewrite H1.
  destruct (assign_valid ring rf id (m_node_id s) Hring Hedge (Hpos id p Hp0) Hrf Hmax) as (primary & replicas & -> & Hin & Hval).
  destruct (H6 primary Hin) as (c & Hc & Hcb). simpl length in Hcb, H7.
  destruct (update_partition_ok id primary replicas p c s Hp ltac:(lia) (Hprio id p Hp0) Hc ltac:(lia)) as (s' & Hs' & Hf & Hps & Hcs).
  exists s'. split; [exact Hs'|]. split; [|exact Hf]. destruct Hf as (F1 & F2 & F3 & F4). apply NoDup_cons in H8 as [Hid Hnd].
  constructor; [congruence|congruence| | | | |lia|done].
  - intros i Hi. destruct (H3 i) as (q & Hq & Hq0); [apply elem_of_cons; by right|]. exists q. split; [|done].
    rewrite Hps, lookup_insert_ne by (intros ->; done). done.
  - intros i q. rewrite Hps. intros [[<- <-]|[Hne Hq]]%lookup_insert_Some.
    + right. split; [apply Hval|]. exists p. split_and!; [done..|]. simpl. by rewrite H2.
    + destruct (H4 i q Hq) as [[->|?]%elem_of_cons|?]; [done|by left|by right].
  - intros i. rewrite Hps. destruct (decide (i = id)) as [->|Hne]; [rewrite lookup_insert_eq, Hp0; split; eauto|].
    rewrite lookup_insert_ne by done. apply H5.
  - intros n Hn. rewrite Hcs. destruct (decide (n = primary)) as [->|Hne].
    + exists (c + 1). rewrite lookup_insert_eq. split; [done|lia].
    + rewrite lookup_insert_ne by done. destruct (H6 n Hn) as (c' & Hc' & Hb'). exists c'. split; [done|]. simpl in Hb'. lia.
Qed.

Lemma loop_ok left : ∀ s, loop_inv left s →
  ∃ s', PM.for_each left turn s = (Ok tt, s') ∧ loop_inv [] s' ∧ same_frame s s'.
Proof.
  induction left as [|id left IH]; intros s Hs; [by exists s|]. cbn [PM.for_each]. unfold mbind_st.
  destruct (turn_ok id left s Hs) as (s1 & -> & Hs1 & F1). destruct (IH s1 Hs1) as (s2 & -> & Hs2 & F2).
  exists s2. split_and!; [done|done|]. unfold same_frame in *. destruct F1 as (? & ? & ? & ?), F2 as (? & ? & ? & ?).
  split_and!; congruence.
Qed.
End Loop.

Lemma loop_inv_start ring ids s : (∀ n, n ∈ ring_nodes (PM.ring_entries ring) ↔ n ∈ ids) →
  loop_inv ring (partitions s) (replication_factor (m_config s)) (ring_generation s) (size (partitions s))
    (dash_iter (partitions s)).*1 (PM.reset_counts ids s).
Proof.
  intros Hids. constructor; simpl; try done.
  - intros id. rewrite dash_iter_perm. intros ([k p] & -> & Hp%elem_of_map_to_list)%list_elem_of_fmap. by exists p.
  - intros id p Hp. left. rewrite dash_iter_perm. apply list_elem_of_fmap. exists (id, p). split; [done|]. by apply elem_of_map_to_list.
  - intros n Hn%Hids. exists 0. rewrite foldl_zero, decide_True by done. split; [done|lia].
  - rewrite length_fmap, dash_iter_perm, length_map_to_list. lia.
  - rewrite dash_iter_perm. apply NoDup_fst_map_to_list.
Qed.

(** The nodes on the ring are the nodes of the cluster. *)
Lemma hash_ring_values density ids pos n : PM.hash_ring density ids !! pos = Some n → n ∈ ids.
Proof.
  revert pos n. unfold PM.hash_ring.
  apply (foldl_inv (fun ring : gmap Z string => ∀ q x, ring !! q = Some x → x ∈ ids)).
  { intros q x H. by rewrite lookup_empty in H. }
  intros ring [i y] Hin Hr. apply elem_of_lookup_imap in Hin as (j & z & [= -> ->] & Hj). cbn [fst snd].
  apply (foldl_inv (fun ring : gmap Z string => ∀ q x, ring !! q = Some x → x ∈ ids)); [exact Hr|].
  intros ring' v _ Hr' q x [[_ <-]|[_ Hx]]%lookup_insert_Some; [by eapply list_elem_of_lookup_2|by eapply Hr'].
Qed.

Lemma ring_nodes_all density ids : NoDup ids → (∀ n, n ∈ ids → ∃ pos, PM.hash_ring density ids !! pos = Some n) →
  ring_nodes (PM.ring_entries (PM.hash_ring density ids)) = list_to_set ids ∧
  (list_to_set (map_to_list (PM.hash_ring density ids)).*2 : gset string) = list_to_set ids.
Proof.
  intros Hn Hall.
  assert (∀ n, n ∈ (map_to_list (PM.hash_ring density ids)).*2 ↔ n ∈ ids) as Hiff.
  { intros n. rewrite list_elem_of_fmap. split.
    - intros ([pos x] & -> & Hx%elem_of_map_to_list). by eapply hash_ring_values.
    - intros (pos & Hp)%Hall. exists (pos, n). split; [done|]. by apply elem_of_map_to_list. }
  assert ((list_to_set (map_to_list (PM.hash_ring density ids)).*2 : gset string) = list_to_set ids) as Heq.
  { apply set_eq. intros n. rewrite !elem_of_list_to_set. apply Hiff. }
  split; [|done]. rewrite <-Heq. apply set_eq. intros n. unfold ring_nodes. rewrite !elem_of_list_to_set.
  by rewrite ring_entries_perm.
Qed.

(** C19: the rebalance by consistent hashing succeeds and assigns every
    partition under these conditions: the cluster has nodes, each of them is on the
    ring, no position on the ring or of a partition is the last one of the key space,
    the replication factor is between 1 and 2^62 (with 0 the code panics), the ring
    generation is below the largest u64, the number of partitions is a u64, and the
    priority computed from a partition's estimated size and items does not overflow
    an i32 (it panics otherwise).  Then the primary is the owner of the first
    virtual node at or after the partition's position, around the ring; the replicas
    are different nodes of the cluster other than the primary, as many as the
    replication factor asks for or the cluster has; the ranges stay. *)
Theorem consistent_hash_rebalance (density : nat) (s : PartitionManager)
    (Hnodes : (dash_iter (m_nodes s)).*1 ≠ [])
    (Hring : ∀ n, n ∈ (dash_iter (m_nodes s)).*1 → ∃ pos, PM.hash_ring density (dash_iter (m_nodes s)).*1 !! pos = Some n)
    (Hedge : ∀ pos n, PM.hash_ring density (dash_iter (m_nodes s)).*1 !! pos = Some n → pos < u64_max)
    (Hpos : ∀ id p, partitions s !! id = Some p → PM.position_of id < u64_max)
    (Hrf : 1 ≤ replication_factor (m_config s) ≤ 2 ^ 62)
    (Hgen : ring_generation s < u64_max) (Hsize : Z.of_nat (size (partitions s)) ≤ u64_max)
    (Hprio : ∀ id p, partitions s !! id = Some p → is_ok (PM.transfer_priority (PM.reassign "" [] 0 p)) = true) :
  ∃ s', PM.rebalance_consistent_hash density s = (Ok tt, s') ∧
    (∀ id, is_Some (partitions s' !! id) ↔ is_Some (partitions s !! id)) ∧
    ∀ id p', partitions s' !! id = Some p' →
      p_primary p' ∈ dom (m_nodes s) ∧ NoDup (p_primary p' :: p_replicas p') ∧
      (∀ n, n ∈ p_replicas p' → n ∈ dom (m_nodes s)) ∧
      Z.of_nat (length (p_replicas p')) = Z.min (replication_factor (m_config s) - 1) (Z.of_nat (size (m_nodes s)) - 1) ∧
      successor (PM.ring_entries (PM.hash_ring density (dash_iter (m_nodes s)).*1)) (PM.position_of id) (p_primary p') ∧
      p_generation p' = ring_generation s + 1 ∧
      ∃ p, partitions s !! id = Some p ∧ p_start p' = p_start p ∧ p_end p' = p_end p.
Proof.
  set (ids := (dash_iter (m_nodes s)).*1) in *.
  assert (NoDup ids) as Hnd by (unfold ids; rewrite dash_iter_perm; apply NoDup_fst_map_to_list).
  assert (∀ n, n ∈ ids ↔ n ∈ dom (m_nodes s)) as Hdom.
  { intros n. unfold ids. rewrite dash_iter_perm, elem_of_dom, list_elem_of_fmap. unfold is_Some. split.
    - intros ([k x] & -> & Hx%elem_of_map_to_list). eauto.
    - intros (x & Hx). exists (n, x). split; [done|]. by apply elem_of_map_to_list. }
  destruct (ring_nodes_all density ids Hnd Hring) as [Hrn Hset]. set (ring := PM.hash_ring density ids) in *.
  assert (size (list_to_set ids : gset string) = length ids) as Hsz by by apply size_list_to_set.
  assert (ring ≠ ∅) as Hne.
  { intros He. destruct ids as [|n l]; [done|]. destruct (Hring n) as [pos Hp]; [apply elem_of_cons; by left|].
    rewrite He, lookup_empty in Hp. done. }
  assert (length ids = size (m_nodes s)) as Hlen by (unfold ids; rewrite length_fmap, dash_iter_perm; apply length_map_to_list).
  unfold PM.rebalance_consistent_hash. fold ids. rewrite bool_decide_eq_false_2 by done. fold ring.
  rewrite bool_decide_eq_false_2 by done. rewrite Hset, Hsz, Nat.eqb_refl. cbn [negb].
  destruct (loop_ok ring (partitions s) (replication_factor (m_config s)) (ring_generation s) (size (partitions s)) Hne Hedge
    ltac:(lia) ltac:(unfold u64_max; lia) Hgen Hsize Hpos Hprio (dash_iter (partitions s)).*1 (PM.reset_counts ids s)) as (s' & Hs' & Hinv & _).
  { apply loop_inv_start. intros n. rewrite Hrn. by rewrite elem_of_list_to_set. }
  exists s'. split; [exact Hs'|]. destruct Hinv as [_ _ _ Hdone Hd _ _ _]. split; [exact Hd|].
  intros id p' Hp'. destruct (Hdone id p' Hp') as [?%not_elem_of_nil|[[Has1 Has2 Has3 Has4] (p & Hp & E1 & E2 & _ & E4)]]; [done|].
  rewrite Hrn in Has3, Has4. split_and!; [|done| |lia|done|done|by exists p].
  - apply Hdom. destruct Has1 as (pos & Hin & _). apply elem_of_ring_entries in Hin. by eapply hash_ring_values.
  - intros n Hn%Has3. apply elem_of_list_to_set in Hn. by apply Hdom.
Qed.
End Rebalance.

(** ** The other strategies *)

Lemma for_each_inv {A} (I : PartitionManager → Prop) (l : list A) f s :
  I s → (∀ a s, I s → I (snd (f a s))) → I (snd (PM.for_each l f s)).
Proof.
  intros Hs Hf. revert s Hs. induction l as [|a l IH]; intros s Hs; simpl; [done|]. unfold mbind_st.
  pose proof (Hf a s Hs) as Ha. destruct (f a s) as [[[]| | |] s1]; simpl in *; [by apply IH|done..].
Qed.

Section Strategies.
Context {B3 : Blake3} {RT : Runtime} {DO : DashOrder}.

(** The geography-aware strategy never chooses a primary: whatever it does to
    the replicas, every partition keeps the primary it had.  On a ring that was
    only initialised that is the empty name, so that no node is primary for any
    key. *)
Theorem geography_never_assigns_primary (s : PartitionManager) :
  let s' := snd (PM.rebalance_geography_aware s) in
  (∀ id p', partitions s' !! id = Some p' → ∃ p, partitions s !! id = Some p ∧ p_primary p' = p_primary p) ∧
  ((∀ id p, partitions s !! id = Some p → p_primary p = ""%string) → m_node_id s' ≠ ""%string →
   ∀ key, PM.is_primary_for_key s' key ≠ Ok true).
Proof.
  intros s'.
  assert (∀ id p', partitions s' !! id = Some p' → ∃ p, partitions s !! id = Some p ∧ p_primary p' = p_primary p) as Hkeep.
  { unfold s', PM.rebalance_geography_aware.
    apply (for_each_inv (fun s1 => ∀ id p', partitions s1 !! id = Some p' → ∃ p, partitions s !! id = Some p ∧ p_primary p' = p_primary p));
      [eauto|].
    intros id s1 Hs1. destruct (partitions s1 !! id) as [p|] eqn:Hp; [|done]. unfold mbind_st, mlift, mmod, mret_st.
    destruct (PM.select_target_regions _ _ _) as [targets| | |]; [|done..]. case_bool_decide; [done|].
    destruct (n_add (ring_generation s1) 1); [|done..]. simpl. intros i q [[<- <-]|[_ Hq]]%lookup_insert_Some; [|by apply Hs1].
    simpl. by apply Hs1. }
  split; [exact Hkeep|]. intros Hempty Hid key Hk. unfold PM.is_primary_for_key in Hk.
  apply bind_Ok in Hk as (p & Hp & Heq). apply Ok_inj, bool_decide_eq_true in Heq.
  assert (∃ id, partitions s' !! id = Some p) as (id & Hlk).
  { unfold PM.get_partition_for_key in Hp. destruct (List.find _ _) as [[i q]|] eqn:Hf.
    - apply List.find_some in Hf as [Hin _]. apply list_elem_of_In, elem_of_iter in Hin. apply Ok_inj in Hp as ->. eauto.
    - destruct (dash_iter (partitions s')) as [|[i q] l] eqn:Hl; simpl in Hp; [discriminate|]. apply Ok_inj in Hp as ->.
      exists i. apply elem_of_iter. rewrite Hl. apply elem_of_cons. by left. }
  destruct (Hkeep id p Hlk) as (p0 & Hp0 & Hpe). apply Hid. rewrite <-Heq, Hpe. by eapply Hempty.
Qed.

(** The targets of the load-balanced strategy *)
Definition total_targets (ids : list string) (targets : gmap string Z) : Z :=
  foldr (fun id n => unwrap_or 0 (targets !! id) + n) 0 ids.

Lemma total_targets_ext ids m m' : (∀ id, id ∈ ids → m !! id = m' !! id) → total_targets ids m = total_targets ids m'.
Proof.
  intros H. induction ids as [|x ids IH]; [done|]. simpl. rewrite H by (apply elem_of_cons; by left).
  rewrite IH; [done|]. intros id Hid. apply H, elem_of_cons. by right.
Qed.
Lemma total_targets_app l1 l2 m : total_targets (l1 ++ l2) m = total_targets l1 m + total_targets l2 m.
Proof. induction l1 as [|x l1 IH]; simpl; [done|]. rewrite IH. lia. Qed.

Definition shares (base r : Z) (ids : list string) : gmap string Z :=
  foldl (fun m p => <[p.2 := if Z.of_nat p.1 <? r then base + 1 else base]> m) ∅ (imap pair ids).

Lemma shares_total base r ids : NoDup ids → 0 ≤ r →
  total_targets ids (shares base r ids) = Z.of_nat (length ids) * base + Z.min r (Z.of_nat (length ids)) ∧
  ∀ id, id ∈ ids → shares base r ids !! id = Some base ∨ shares base r ids !! id = Some (base + 1).
Proof.
  intros Hn Hr. induction ids as [|x ids IH] using rev_ind; [simpl; split; [lia|]; intros id Hid; by apply not_elem_of_nil in Hid|].
  apply NoDup_app in Hn as (Hn & Hx & _).
  assert (x ∉ ids) as Hxn by (intros H; apply (Hx x H); apply list_elem_of_singleton; reflexivity).
  destruct (IH Hn) as [IH1 IH2].
  assert (shares base r (ids ++ [x]) = <[x := if Z.of_nat (length ids) <? r then base + 1 else base]> (shares base r ids)) as Hs.
  { unfold shares. rewrite imap_app, foldl_app. simpl. by rewrite Nat.add_0_r. }
  rewrite Hs. split.
  - rewrite total_targets_app, (total_targets_ext ids _ (shares base r ids)), IH1.
    2: { intros id Hid. apply lookup_insert_ne. intros ->. done. }
    simpl. rewrite lookup_insert_eq, length_app. simpl. case_test; zbool; lia.
  - intros id [Hid| ->%list_elem_of_singleton]%elem_of_app.
    + rewrite lookup_insert_ne by (intros ->; done). by apply IH2.
    + rewrite lookup_insert_eq. case_test; auto.
Qed.

(** The load-balanced strategy aims at an even distribution: the targets of
    the nodes add up to the number of partitions and differ by at most one. *)
Theorem target_counts_fair (total : Z) (ids : list string) (Hids : NoDup ids) (Hne : ids ≠ []) (Ht : 0 ≤ total) :
  ∃ targets base, PM.target_counts total ids = Ok targets ∧ total_targets ids targets = total ∧
    ∀ id, id ∈ ids → targets !! id = Some base ∨ targets !! id = Some (base + 1).
Proof.
  set (n := Z.of_nat (length ids)). assert (0 < n) as Hn by (unfold n; destruct ids; [done|simpl; lia]).
  unfold PM.target_counts, n_div. fold n. destruct (Z.eqb_spec n 0); [lia|]. cbn [mbind outcome_bind].
  pose proof (Z.mod_pos_bound total n Hn) as Hr. pose proof (Z.div_mod total n ltac:(lia)) as Hdm.
  destruct (shares_total (total / n) (total mod n) ids Hids ltac:(lia)) as [H1 H2]. fold n in H1.
  exists (shares (total / n) (total mod n) ids), (total / n). split_and!; [reflexivity|lia|exact H2].
Qed.

(** A change of ownership is tracked to its end: the transfer is recorded under
    its priority and partition, as failed at once when the source has no handler;
    otherwise it is preparing until the spawned task runs, and then complete,
    with its time, or failed as the handler says. *)
Theorem transfer_lifecycle (p : Partition) (source target : string) (s : PartitionManager) (z : Z)
    (Hsrc : source ≠ ""%string) (Htgt : source ≠ target) (Hz : PM.transfer_priority p = Ok z) (Hidle : spawned s = []) :
  let key := PM.transfer_key z (p_id p) in
  ∃ s1 x, PM.create_transfer p source target s = (Ok tt, s1) ∧ active_transfers s1 !! key = Some x ∧
    pt_partition_id x = p_id p ∧ pt_source x = source ∧ pt_target x = target ∧
    (transfer_handlers s !! source = None → pt_state x = TFailed ∧ spawned s1 = []) ∧
    (∀ h, transfer_handlers s !! source = Some h → pt_state x = TPreparing ∧
       ∃ s2 y, PM.run_transfer s1 = (Ok tt, s2) ∧ spawned s2 = [] ∧ active_transfers s2 !! key = Some y ∧
         (h x = Ok tt → pt_state y = TComplete ∧ pt_completion_time y = Some now) ∧
         (∀ e, h x = Err e → pt_state y = TFailed ∧ pt_completion_time y = None)).
Proof.
  intros key. unfold PM.create_transfer. rewrite !bool_decide_eq_false_2 by done. cbn [orb].
  unfold mbind_st, mlift, mmod. rewrite Hz. fold key. simpl.
  set (x0 := mkTransfer (p_id p) source target TPreparing now None _ _ _ _ _ _ _ _).
  destruct (transfer_handlers s !! source) as [h|] eqn:Hh.
  - eexists _, x0. split; [reflexivity|]. simpl. rewrite lookup_insert_eq. split_and!; [done|done|done|done|done|].
    intros h' [= <-]. split; [done|]. unfold PM.run_transfer, mmod. simpl. rewrite Hidle. simpl.
    destruct (h x0) as [[]|e| |] eqn:Hr.
    + eexists _, _. split; [reflexivity|]. simpl. rewrite lookup_alter_eq, lookup_insert_eq. split_and!; [done|reflexivity|done|done].
    + eexists _, _. split; [reflexivity|]. simpl. rewrite lookup_alter_eq, lookup_insert_eq. split_and!; [done|reflexivity|done|done].
    + eexists _, _. split; [reflexivity|]. simpl. rewrite lookup_insert_eq. split_and!; [done|reflexivity|done|done].
    + eexists _, _. split; [reflexivity|]. simpl. rewrite lookup_insert_eq. split_and!; [done|reflexivity|done|done].
  - eexists _, _. split; [reflexivity|]. simpl. rewrite lookup_alter_eq, lookup_insert_eq. split_and!; [reflexivity|done|done|done| |done].
    intros _. done.
Qed.
End Strategies.

(** ** Witnesses *)

Module PartWitness.
#[global] Instance toy_order : DashOrder := {| dash_iter A := map_to_list; dash_iter_perm A m := reflexivity _ |}.
Definition node (id : string) : StorageNode := mkNodeInfo id id "eu" "" "".
Definition config (count : Z) : PartitionConfig := mkPartConfig count 2 ConsistentHash 1 32 60000 f64_zero 5 5000.
End PartWitness.
Import PartWitness.
#[local] Existing Instances Toy.toy_blake3 Toy.toy_runtime.

Module PartState.
Definition bare : PartitionManager := PM.new "a" (config 16).
Definition ready : PartitionManager :=
  PM.set_nodes {["a"%string := node "a"; "b"%string := node "b"]} (snd (PM.create_partitions bare)).
Definition check_ring (s : PartitionManager) (density : nat) : bool :=
  let ids := (dash_iter (m_nodes s)).*1 in
  let ring := PM.hash_ring density ids in
  forallb (fun n => bool_decide (n ∈ (map_to_list ring).*2)) ids &&
  forallb (fun e => e.1 <? u64_max) (map_to_list ring) &&
  forallb (fun e => PM.position_of e.1 <? u64_max) (map_to_list (partitions s)) &&
  forallb (fun e => is_ok (PM.transfer_priority (PM.reassign "" [] 0 e.2))) (map_to_list (partitions s)).
End PartState.

Lemma in_map_to_list {K A} `{Countable K} (m : gmap K A) k x : m !! k = Some x → In (k, x) (map_to_list m).
Proof. intros Hx. by apply list_elem_of_In, elem_of_map_to_list. Qed.

Lemma keyspace_partitioned_witness :
  PM.create_partitions PartState.bare = (Ok tt, snd (PM.create_partitions PartState.bare)) ∧
  size (partitions (snd (PM.create_partitions PartState.bare))) = 16%nat.
Proof.
  split; [reflexivity|].
  exact (proj1 (keyspace_partitioned PartState.bare (snd (PM.create_partitions PartState.bare)) "key" 16
    ltac:(left; reflexivity) ltac:(reflexivity) ltac:(reflexivity))).
Defined.

Lemma consistent_hash_rebalance_witness :
  PartState.check_ring PartState.ready 8 = true ∧
  ∃ s', PM.rebalance_consistent_hash 8 PartState.ready = (Ok tt, s').
Proof.
  assert (PartState.check_ring PartState.ready 8 = true) as Hc by (vm_compute; reflexivity).
  split; [exact Hc|]. unfold PartState.check_ring in Hc. rewrite !andb_true_iff, !forallb_forall in Hc.
  destruct Hc as [[[H1 H2] H3] H4].
  assert (∀ id p, partitions PartState.ready !! id = Some p → In (id, p) (map_to_list (partitions PartState.ready))) as Hin.
  { intros id p Hp. exact (in_map_to_list _ id p Hp). }
  destruct (consistent_hash_rebalance 8 PartState.ready) as (s' & Hs' & _).
  - vm_compute. discriminate.
  - intros n Hn. apply list_elem_of_In, H1, bool_decide_eq_true, list_elem_of_fmap in Hn as ([pos x] & -> & Hx%elem_of_map_to_list).
    exists pos. exact Hx.
  - intros pos n Hp. exact (proj1 (Z.ltb_lt pos u64_max) (H2 (pos, n) (in_map_to_list _ pos n Hp))).
  - intros id p Hp. exact (proj1 (Z.ltb_lt (PM.position_of id) u64_max) (H3 (id, p) (Hin id p Hp))).
  - vm_compute. split; discriminate.
  - vm_compute. reflexivity.
  - vm_compute. discriminate.
  - intros id p Hp. exact (H4 (id, p) (Hin id p Hp)).
  - exists s'. exact Hs'.
Defined.

Lemma target_counts_fair_witness :
  ∃ targets base, PM.target_counts 16 ["a"; "b"; "c"]%string = Ok targets ∧
    total_targets ["a"; "b"; "c"]%string targets = 16 ∧ (targets !! "a"%string = Some base ∨ targets !! "a"%string = Some (base + 1)).
Proof.
  destruct (target_counts_fair 16 ["a"; "b"; "c"]%string) as (t & b & H1 & H2 & H3).
  - apply (bool_decide_unpack _). vm_compute. exact I.
  - discriminate.
  - lia.
  - exists t, b. split; [exact H1|]. split; [exact H2|]. apply H3. apply elem_of_cons. left. reflexivity.
Defined.

Lemma transfer_lifecycle_witness :
  ∃ s1 x, PM.create_transfer (PM.new_partition 16 3) "a" "b" PartState.bare = (Ok tt, s1) ∧
    active_transfers s1 !! PM.transfer_key 0 "partition-00000003" = Some x ∧ pt_state x = TFailed.
Proof.
  destruct (transfer_lifecycle (PM.new_partition 16 3) "a" "b" PartState.bare 0 ltac:(discriminate) ltac:(discriminate)
    ltac:(vm_compute; reflexivity) ltac:(reflexivity)) as (s1 & x & H1 & H2 & _ & _ & _ & H3 & _).
  exists s1, x. split; [exact H1|]. split; [exact H2|]. exact (proj1 (H3 ltac:(reflexivity))).
Defined.
