(* ===== verification/Epidemic.v ===== *)
(** * The epidemic storage engine (dsm_storage_node/src/storage/epidemic_storage.rs)

    The engine a storage node runs by default: a local store with a vector clock,
    behind the partition ring, which decides whether a key is served here or
    forwarded.  Another node, reached through the network client, is a parameter.
    The topology and the metrics, which these operations do not read, are left
    out, and so is the gossip task, which only logs the size of the digest. *)
From S2P Require Import Prelude NodeTypes Float VectorClock Hexa Topology Engine Partition.

(** [epidemic_storage::EpidemicEntry]; the timestamp is in seconds *)
Record StoredEntry := mkStored {
  st_key : string;
  st_value : bytes;
  st_vector_clock : VectorClock;
  st_timestamp : Z;
}.

Inductive ConflictResolutionStrategy := LastWriteWins | ByVectorClock | CustomStrategy (name : string).

Record EpidemicConfig := mkEpiConfig {
  ec_node_id : NodeId;
  ec_gossip_interval_ms : Z;
  ec_reconciliation_interval_ms : Z;
  ec_topology_maintenance_interval_ms : Z;
  ec_gossip_fanout : Z;
  ec_max_reconciliation_diff : Z;
  ec_conflict_resolution_strategy : ConflictResolutionStrategy;
  ec_partition_count : Z;
  ec_replication_factor : Z;
  ec_partition_strategy : PartitionStrategy;
  ec_min_nodes_for_rebalance : Z;
  ec_max_partitions_per_node : Z;
  ec_k_neighbors : Z;
  ec_alpha : f64;
  ec_max_long_links : Z;
  ec_max_topology_connections : Z;
  ec_topology_connection_timeout_ms : Z;
  ec_rebalance_check_interval_ms : option Z;
  ec_placement_stability : option f64;
  ec_rebalance_throttle : option Z;
  ec_min_transfer_interval_ms : option Z;
}.

Record EpidemicStorageEngine := mkEpi {
  epi_node_id : NodeId;
  epi_config : EpidemicConfig;
  local_store : gmap string StoredEntry;
  epi_clock : VectorClock;
  partition_manager : PartitionManager;
}.

(** The [forward_*] calls of the network client *)
Class NetworkClient := {
  forward_put : string → string → bytes → nout unit;
  forward_get : string → string → nout (option bytes);
  forward_delete : string → string → nout unit;
}.

Module Epi.
Section Epi.
Context {B3 : Blake3} {RT : Runtime} {DO : DashOrder} {HX : Hex} {NC : NetworkClient}.

Definition ES := NM EpidemicStorageEngine.

Definition new (config : EpidemicConfig) : EpidemicStorageEngine :=
  let partition_config := mkPartConfig (ec_partition_count config) (ec_replication_factor config) (ec_partition_strategy config)
    (ec_min_nodes_for_rebalance config) (ec_max_partitions_per_node config)
    (unwrap_or 60000 (ec_rebalance_check_interval_ms config)) (unwrap_or (f64_lit 8 10) (ec_placement_stability config))
    (unwrap_or 5 (ec_rebalance_throttle config)) (unwrap_or 5000 (ec_min_transfer_interval_ms config)) in
  mkEpi (ec_node_id config) config ∅ VC.new (PM.new (Id.to_string (ec_node_id config)) partition_config).

Definition put_local (m : gmap string StoredEntry) (c : VectorClock) (s : EpidemicStorageEngine) : EpidemicStorageEngine :=
  mkEpi (epi_node_id s) (epi_config s) m c (partition_manager s).

(** Write a value under a key with the advanced clock *)
Definition write_local (key : string) (value : bytes) : ES unit := fun s =>
  match VC.increment (Id.to_string (epi_node_id s)) (epi_clock s) with
  | (Ok _, c) => (Ok tt, put_local (<[key := mkStored key value c now]> (local_store s)) c s)
  | (_, c) => (Panic, put_local (local_store s) c s)
  end.

(** The test at the start of every operation: [Some node] to forward to *)
Definition forward_to (s : EpidemicStorageEngine) (key : string) : nout (option string) :=
  responsible ← PM.is_responsible_for_key (partition_manager s) key;
  if (responsible : bool) then Ok None
  else
    nodes ← PM.get_responsible_nodes (partition_manager s) key;
    if bool_decide (nodes.1 = Id.to_string (epi_node_id s)) then Ok None else Ok (Some nodes.1).

Definition put (key : string) (value : bytes) : ES unit := fun s =>
  (let* target := mlift (forward_to s key) in
   match target with
   | Some primary => mlift (forward_put primary key value)
   | None => write_local key value
   end) s.

Definition get (key : string) : ES (option bytes) := fun s =>
  (let* target := mlift (forward_to s key) in
   match target with
   | Some primary => mlift (forward_get primary key)
   | None => mret_st (st_value <$> local_store s !! key)
   end) s.

(** A deletion writes a tombstone, the empty value. *)
Definition delete_internal (key : string) : ES unit := fun s =>
  (let* target := mlift (forward_to s key) in
   match target with
   | Some primary => mlift (forward_delete primary key)
   | None => write_local key []
   end) s.

Definition served (id : string) (value : bytes) (ts : Z) : BlindedStateEntry :=
  mkEntry id value ts 3600 "default" 0 (zeros 32) ∅.

Definition get_blinded_state_digest (s : EpidemicStorageEngine) : gmap string BlindedStateEntry :=
  map_imap (fun key e => if bool_decide (st_value e = []) then None else Some (served key (st_value e) (st_timestamp e))) (local_store s).

Definition store (e : BlindedStateEntry) : ES StorageResponse :=
  do* put (blinded_id e) (encrypted_payload e);
  mret_st (mkResponse (blinded_id e) now "success" (Some "Stored entry"%string)).

Definition retrieve (id : string) : ES (option BlindedStateEntry) :=
  let* data := get id in
  match data with
  | Some value => mret_st (Some (served id value now))
  | None => mret_st None
  end.

Definition exists_entry (id : string) : ES bool := fun s => (Ok (bool_decide (is_Some (local_store s !! id))), s).

Definition list_ids (limit offset : option nat) : ES (list string) := fun s =>
  let keys := (dash_iter (local_store s)).*1 in
  let keys := match offset with Some n => drop n keys | None => keys end in
  (Ok (match limit with Some n => take n keys | None => keys end), s).

Definition opt_min (o : option Z) (x : Z) : option Z := match o with Some y => Some (if x <? y then x else y) | None => Some x end.
Definition opt_max (o : option Z) (x : Z) : option Z := match o with Some y => Some (if y <? x then x else y) | None => Some x end.

(** The loop of [get_stats]: an entry from the future makes [current_time - timestamp] panic. *)
Definition stats_step (acc : nout StorageStats) (p : string * StoredEntry) : nout StorageStats :=
  a ← acc;
  let ts := st_timestamp p.2 in
  bytes ← n_add (total_bytes a) (Z.of_nat (length (st_value p.2)));
  age ← n_sub now ts;
  Ok (mkStats (total_entries a) bytes (if 3600 <? age then total_expired a + 1 else total_expired a)
        (opt_min (oldest_entry a) ts) (opt_max (newest_entry a) ts)).
Definition get_stats : ES StorageStats := fun s =>
  (foldl stats_step (Ok (mkStats (Z.of_nat (size (local_store s))) 0 0 None None)) (dash_iter (local_store s)), s).

Definition delete_entry (id : string) : ES bool :=
  do* delete_internal id; mret_st true.

End Epi.
End Epi.

#[global] Instance epidemic_engine {B3 : Blake3} {RT : Runtime} {DO : DashOrder} {HX : Hex} {NC : NetworkClient}
    : StorageEngine EpidemicStorageEngine := {|
  store := Epi.store;
  retrieve := Epi.retrieve;
  delete_entry := Epi.delete_entry;
  exists_entry := Epi.exists_entry;
  list_ids := Epi.list_ids;
  get_stats := Epi.get_stats;
|}.

Section Proofs.
Context {B3 : Blake3} {RT : Runtime} {DO : DashOrder} {HX : Hex} {NC : NetworkClient}.

Lemma empty_ring_err s key : partitions s = ∅ → PM.is_responsible_for_key s key = Err (NNotFound "No partitions available").
Proof.
  intros Hp. unfold PM.is_responsible_for_key, PM.get_partition_for_key. rewrite Hp, dash_iter_empty. done.
Qed.

Lemma empty_ring_forward s key : partitions (partition_manager s) = ∅ → Epi.forward_to s key = Err (NNotFound "No partitions available").
Proof. intros Hp. unfold Epi.forward_to. by rewrite empty_ring_err. Qed.

Definition unserved (c : command) (r : reply) : Prop :=
  match c, r with
  | CStore _, RStored (Err (NNotFound _)) | CRetrieve _, RRetrieved (Err (NNotFound _)) | CDelete _, RDeleted (Err (NNotFound _)) => True
  | CExists _, RExists (Ok false) | CList _ _, RList (Ok []) => True
  | CStats, RStats (Ok st) => total_entries st = 0
  | _, _ => False
  end.

Lemma new_unserved config c : let s := Epi.new config in exec c s = (fst (exec c s), s) ∧ unserved c (fst (exec c s)).
Proof.
  intros s. assert (partitions (partition_manager s) = ∅) as Hp by reflexivity.
  destruct c as [e|id|id|id|l o|]; simpl.
  - unfold Epi.store, Epi.put, mbind_st, mlift. by rewrite empty_ring_forward.
  - unfold Epi.retrieve, Epi.get, mbind_st, mlift. by rewrite empty_ring_forward.
  - unfold Epi.delete_entry, Epi.delete_internal, mbind_st, mlift. by rewrite empty_ring_forward.
  - done.
  - split; [done|]. rewrite dash_iter_empty. destruct o as [[]|], l as [[]|]; done.
  - unfold Epi.get_stats. simpl. rewrite dash_iter_empty. done.
Qed.

(** The epidemic engine serves nothing as it is constructed: its partition
    ring is never initialised, so that along every history of commands each
    store, retrieve and delete fails with "No partitions available", no entry
    exists, and the engine stays as it was. *)
Theorem epidemic_engine_never_serves (config : EpidemicConfig) (cs : list command) :
  let '(h, s) := exec_all cs (Epi.new config) in
  s = Epi.new config ∧ Forall (fun cr => unserved cr.1 cr.2) h.
Proof.
  induction cs as [|c cs IH]; simpl; [done|].
  destruct (new_unserved config c) as [He Hu]. destruct (exec c (Epi.new config)) as [r s'] eqn:Hc. simpl in *.
  injection He as ->. destruct (exec_all cs (Epi.new config)) as [h s'']. destruct IH as [-> Hh]. split; [done|].
  constructor; [exact Hu|exact Hh].
Qed.

Lemma write_local_ok key value s : VC.get (epi_clock s) (Id.to_string (epi_node_id s)) < u64_max →
  ∃ c, Epi.write_local key value s = (Ok tt, Epi.put_local (<[key := mkStored key value c now]> (local_store s)) c s).
Proof.
  intros Hc. unfold Epi.write_local, VC.increment. set (v := VC.get _ _) in *.
  rewrite (proj2 (u64_add_Ok v 1 (v + 1))) by lia. by eexists.
Qed.

(** On a node responsible for a key the engine keeps the payload and loses the
    rest: after a store, [retrieve] answers the payload with a fixed TTL, region
    and priority, no proof hash and no metadata; after a delete, which always
    reports success, the entry still exists, and is answered with an empty
    payload instead of not found.  Only the digest leaves tombstones out. *)
Theorem epidemic_store_and_delete (s : EpidemicStorageEngine) (e : BlindedStateEntry)
    (Hr : Epi.forward_to s (blinded_id e) = Ok None)
    (Hc : VC.get (epi_clock s) (Id.to_string (epi_node_id s)) < u64_max - 1)
    (Hlow : 0 ≤ VC.get (epi_clock s) (Id.to_string (epi_node_id s))) :
  let id := blinded_id e in
  ∃ s1 s2 r, Epi.store e s = (Ok r, s1) ∧
    Epi.retrieve id s1 = (Ok (Some (Epi.served id (encrypted_payload e) now)), s1) ∧
    Epi.delete_entry id s1 = (Ok true, s2) ∧
    Epi.retrieve id s2 = (Ok (Some (Epi.served id [] now)), s2) ∧
    Epi.exists_entry id s2 = (Ok true, s2) ∧ Epi.get_blinded_state_digest s2 !! id = None.
Proof.
  intros id.
  assert (∀ s', epi_node_id s' = epi_node_id s → partition_manager s' = partition_manager s → Epi.forward_to s' id = Ok None) as Hfwd.
  { intros s' H1 H2. unfold Epi.forward_to. rewrite H1, H2. exact Hr. }
  set (v := VC.get (epi_clock s) (Id.to_string (epi_node_id s))) in *.
  unfold Epi.store, Epi.put, Epi.retrieve, Epi.get, Epi.delete_entry, Epi.delete_internal, mbind_st, mlift, mret_st.
  fold id. rewrite (Hfwd s) by done. unfold Epi.write_local at 1, VC.increment at 1. fold v.
  rewrite (proj2 (u64_add_Ok v 1 (v + 1))) by lia.
  set (c1 := mkClock (<[Id.to_string (epi_node_id s) := v + 1]> (counters (epi_clock s)))).
  set (s1 := Epi.put_local _ c1 s).
  destruct (write_local_ok id [] s1) as (c2 & Hw).
  { unfold VC.get, s1, c1. simpl. rewrite lookup_insert_eq. simpl. lia. }
  set (s2 := Epi.put_local (<[id := mkStored id [] c2 now]> (local_store s1)) c2 s1) in *.
  exists s1, s2. eexists. split; [reflexivity|]. rewrite (Hfwd s1), (Hfwd s2) by done. simpl. rewrite Hw.
  simpl. rewrite !lookup_insert_eq. split_and!; [done|done|done| |].
  - unfold Epi.exists_entry. simpl. by rewrite lookup_insert_eq.
  - unfold Epi.get_blinded_state_digest. rewrite map_lookup_imap. simpl. by rewrite lookup_insert_eq.
Qed.
End Proofs.

(** ** Witnesses *)

Module EpiWitness.
#[local] Existing Instance ToyHex.toy_hex.
#[global] Instance toy_network : NetworkClient :=
  {| forward_put _ _ _ := Ok tt; forward_get _ _ := Ok None; forward_delete _ _ := Ok tt |}.

Definition me : NodeId := mkNodeId (replicate 32 Byte.x01).
Definition config : EpidemicConfig :=
  mkEpiConfig me 5000 30000 60000 3 100 LastWriteWins 16 3 ConsistentHash 2 8 4 (f64_lit 1 2) 15 10 1000 None None None None.
Definition whole : Partition :=
  mkPartition "all" [] (replicate 33 Byte.xff) (Id.to_string me) [] 0 1 (f64_of_Z 1) 0 0.
Definition engine : EpidemicStorageEngine :=
  mkEpi me config ∅ VC.new (mkManager (Id.to_string me) PM.default_config {["all"%string := whole]} ∅ ∅ ∅ 1 ∅ [] []).
Definition e : BlindedStateEntry := mkEntry "k" [Byte.x07] 0 10 "eu" 5 (zeros 32) ∅.
End EpiWitness.
Import EpiWitness PartWitness.
#[local] Existing Instances Toy.toy_blake3 Toy.toy_runtime ToyHex.toy_hex.

Lemma epidemic_store_and_delete_witness :
  Epi.forward_to engine "k" = Ok None ∧
  ∃ s2, Epi.retrieve "k" s2 = (Ok (Some (Epi.served "k" [] now)), s2) ∧ Epi.exists_entry "k" s2 = (Ok true, s2).
Proof.
  assert (Epi.forward_to engine "k" = Ok None) as Hf by (vm_compute; reflexivity). split; [exact Hf|].
  destruct (epidemic_store_and_delete engine e Hf ltac:(vm_compute; reflexivity) ltac:(vm_compute; discriminate))
    as (s1 & s2 & r & _ & _ & _ & H1 & H2 & _).
  exists s2. split; [exact H1|exact H2].
Defined.
