(* ===== verification/Reconcile.v ===== *)
(** * State reconciliation (dsm_storage_node/src/storage/reconciliation.rs)

    Conflicting copies of an entry and the policies that choose among them, the
    deltas that bring one copy to another, the detection of conflicts and the
    processor that runs reconciliations concurrently.  The semaphore of the engine
    is never closed, so acquiring it only delays a call; the engine's interior
    state (history, table of running calls, metrics channel) is threaded. *)
From S2P Require Import Prelude VectorClock NodeTypes Digest Keys.

(** ** Data *)

Inductive ConflictResolutionPolicy :=
  | LastWriteWins
  | HighestVectorClockCoverage
  | HighestPriority
  | DeterministicMerge
  | Custom.

#[global] Instance policy_kind_eq_dec : EqDecision ConflictResolutionPolicy.
Proof. solve_decision. Defined.

#[global] Instance policy_kind_countable : Countable ConflictResolutionPolicy.
Proof.
  refine (inj_countable'
    (fun p => match p with LastWriteWins => 0%nat | HighestVectorClockCoverage => 1%nat | HighestPriority => 2%nat
                         | DeterministicMerge => 3%nat | Custom => 4%nat end)
    (fun n => match n with 0%nat => LastWriteWins | 1%nat => HighestVectorClockCoverage | 2%nat => HighestPriority
                         | 3%nat => DeterministicMerge | _ => Custom end) _).
  by intros [].
Defined.

Inductive DeltaOperation :=
  | SetValue (value : bytes)
  | UpdateMetadata (key value : string)
  | DeleteMetadata (key : string).

Record EntryDelta := mkDelta {
  dl_blinded_id : string;
  base_vector_clock : VectorClock;
  target_vector_clock : VectorClock;
  dl_operations : list DeltaOperation;
}.

Record ConflictRecord := mkConflict {
  cr_blinded_id : string;
  detection_time : Z;
  vector_clocks : list VectorClock;
  cr_resolution_method : ConflictResolutionPolicy;
  resolved_vector_clock : VectorClock;
  involved_nodes : list string;
}.

Record ReconciliationContext := mkContext {
  cx_blinded_id : string;
  cx_entries : list EpidemicEntry;
  cx_region : string;
  cx_priority : Z;
  oldest_timestamp : Z;
  newest_timestamp : Z;
  all_metadata : gmap string (gset string);
}.

Record ReconciliationResult := mkResult {
  rr_blinded_id : string;
  resolved_entry : EpidemicEntry;
  rr_resolution_method : ConflictResolutionPolicy;
  conflict_record : option ConflictRecord;
  delta_operations : option (list DeltaOperation);
}.

(** A bounded [tokio::sync::mpsc] channel whose receiver is alive. *)
Record MetricsChannel := mkChannel {
  mc_capacity : nat;
  mc_queue : list (string * ConflictRecord);
}.

Record ReconciliationEngine := mkRecEngine {
  default_policy : ConflictResolutionPolicy;
  region_policies : gmap string ConflictResolutionPolicy;
  id_policies : gmap string ConflictResolutionPolicy;
  custom_handler : option (ReconciliationContext → EpidemicEntry);
  conflict_history : list ConflictRecord;
  max_conflict_history : nat;
  rec_in_progress : gmap string Z;
  metrics_tx : option MetricsChannel;
}.

Module Rec.

(** ** Field updates of the engine and of an entry *)

Definition set_history h g := mkRecEngine (default_policy g) (region_policies g) (id_policies g) (custom_handler g) h
  (max_conflict_history g) (rec_in_progress g) (metrics_tx g).
Definition set_in_progress m g := mkRecEngine (default_policy g) (region_policies g) (id_policies g) (custom_handler g)
  (conflict_history g) (max_conflict_history g) m (metrics_tx g).
Definition set_metrics t g := mkRecEngine (default_policy g) (region_policies g) (id_policies g) (custom_handler g)
  (conflict_history g) (max_conflict_history g) (rec_in_progress g) t.

Definition set_clock c (e : EpidemicEntry) := mkEpidemic (ep_entry e) c (ep_last_modified e) (ep_last_sync e)
  (ep_received_from e) (ep_propagation_count e) (ep_verification_count e) (ep_origin_region e).
Definition set_verification v (e : EpidemicEntry) := mkEpidemic (ep_entry e) (ep_vector_clock e) (ep_last_modified e)
  (ep_last_sync e) (ep_received_from e) (ep_propagation_count e) v (ep_origin_region e).
Definition set_entry b (e : EpidemicEntry) := mkEpidemic b (ep_vector_clock e) (ep_last_modified e)
  (ep_last_sync e) (ep_received_from e) (ep_propagation_count e) (ep_verification_count e) (ep_origin_region e).
Definition set_modified t (e : EpidemicEntry) := mkEpidemic (ep_entry e) (ep_vector_clock e) t
  (ep_last_sync e) (ep_received_from e) (ep_propagation_count e) (ep_verification_count e) (ep_origin_region e).
Definition set_metadata m (b : BlindedStateEntry) := mkEntry (blinded_id b) (encrypted_payload b) (e_timestamp b) (e_ttl b)
  (e_region b) (e_priority b) (e_proof_hash b) m.
Definition set_payload p (b : BlindedStateEntry) := mkEntry (blinded_id b) p (e_timestamp b) (e_ttl b)
  (e_region b) (e_priority b) (e_proof_hash b) (e_metadata b).
Definition set_timestamp t (b : BlindedStateEntry) := mkEntry (blinded_id b) (encrypted_payload b) t (e_ttl b)
  (e_region b) (e_priority b) (e_proof_hash b) (e_metadata b).

(** [Iterator::max_by_key]: the last of the elements with the largest key. *)
Definition max_by_key {A} (f : A → Z) (l : list A) : option A :=
  foldl (fun best x => match best with Some b => if f x <? f b then Some b else Some x | None => Some x end) None l.

(** ** [ReconciliationContext] *)

(** The inner loop of [new]: one entry's metadata joins the union. *)
Definition add_metadata (all : gmap string (gset string)) (e : EpidemicEntry) : gmap string (gset string) :=
  foldl (fun all p => <[p.1 := {[p.2]} ∪ default ∅ (all !! p.1)]> all) all (map_to_list (e_metadata (ep_entry e))).

Definition context_step (c : ReconciliationContext) (e : EpidemicEntry) : ReconciliationContext :=
  let b := ep_entry e in
  mkContext (cx_blinded_id c) (cx_entries c)
    (if bool_decide (cx_region c = "") then e_region b else cx_region c)
    (if cx_priority c <? e_priority b then e_priority b else cx_priority c)
    (if e_timestamp b <? oldest_timestamp c then e_timestamp b else oldest_timestamp c)
    (if newest_timestamp c <? e_timestamp b then e_timestamp b else newest_timestamp c)
    (add_metadata (all_metadata c) e).
Definition new_context (id : string) (entries : list EpidemicEntry) : ReconciliationContext :=
  foldl context_step (mkContext id entries "" 0 u64_max 0 ∅) entries.

Section Context_methods.
Context {DO : DashOrder}.

Definition count_value (key : string) (counts : gmap string Z) (e : EpidemicEntry) : gmap string Z :=
  match e_metadata (ep_entry e) !! key with
  | Some v => <[v := unwrap_or 0 (counts !! v) + 1]> counts
  | None => counts
  end.
Definition value_counts (entries : list EpidemicEntry) (key : string) : gmap string Z :=
  foldl (count_value key) ∅ entries.

(** The body of the loop of [merged_metadata] for one key; each key is visited
    once.  A count is at most the number of entries. *)
Definition merged_value (c : ReconciliationContext) (key : string) (values : gset string) : option string :=
  if (size values =? 1)%nat then head (elements values)
  else fst <$> max_by_key snd (dash_iter (value_counts (cx_entries c) key)).
Definition merged_metadata (c : ReconciliationContext) : gmap string string :=
  map_imap (merged_value c) (all_metadata c).

End Context_methods.

(** ** [ReconciliationEngine]: configuration *)

Definition new (p : ConflictResolutionPolicy) : ReconciliationEngine :=
  mkRecEngine p ∅ ∅ None [] 1000 ∅ None.
Definition set_custom_handler (h : ReconciliationContext → EpidemicEntry) (g : ReconciliationEngine) :=
  mkRecEngine (default_policy g) (region_policies g) (id_policies g) (Some h) (conflict_history g)
    (max_conflict_history g) (rec_in_progress g) (metrics_tx g).
Definition set_metrics_sender (tx : MetricsChannel) (g : ReconciliationEngine) := set_metrics (Some tx) g.
Definition set_region_policy (region : string) (p : ConflictResolutionPolicy) (g : ReconciliationEngine) :=
  mkRecEngine (default_policy g) (<[region := p]> (region_policies g)) (id_policies g) (custom_handler g)
    (conflict_history g) (max_conflict_history g) (rec_in_progress g) (metrics_tx g).
Definition set_id_policy (id : string) (p : ConflictResolutionPolicy) (g : ReconciliationEngine) :=
  mkRecEngine (default_policy g) (region_policies g) (<[id := p]> (id_policies g)) (custom_handler g)
    (conflict_history g) (max_conflict_history g) (rec_in_progress g) (metrics_tx g).

Definition get_policy (g : ReconciliationEngine) (id region : string) : ConflictResolutionPolicy :=
  match id_policies g !! id with
  | Some p => p
  | None => match region_policies g !! region with Some p => p | None => default_policy g end
  end.

(** ** The policies *)

Definition u32_max : Z := 2 ^ 32 - 1.

(** [entries.map(verification_count).max().unwrap_or(0) + 1], a checked u32 addition. *)
Definition next_verification (entries : list EpidemicEntry) : nout Z :=
  let m := unwrap_or 0 (max_by_key id (map ep_verification_count entries)) in
  if m + 1 <=? u32_max then Ok (m + 1) else Panic.

Definition resolve_lww (c : ReconciliationContext) : nout EpidemicEntry :=
  match max_by_key (fun e => e_timestamp (ep_entry e)) (cx_entries c) with
  | Some newest =>
      let result := foldl (fun r e => set_clock (VC.merge (ep_vector_clock r) (ep_vector_clock e)) r) newest (cx_entries c) in
      v ← next_verification (cx_entries c);
      Ok (set_verification v result)
  | None => Err (NStorage "Empty entry list in LWW resolution")
  end.

(** The comparison of [scores.sort_by(|a, b| b.0.cmp(&a.0))]: descending coverage. *)
Definition coverage_leb (a b : nat * EpidemicEntry) : bool := (b.1 <=? a.1)%nat.
Definition resolve_vector_clock_coverage (c : ReconciliationContext) : nout EpidemicEntry :=
  let scores := stable_sort coverage_leb (map (fun e => (size (counters (ep_vector_clock e)), e)) (cx_entries c)) in
  match head scores with
  | Some (_, winner) =>
      let result := foldl (fun r e => set_clock (VC.merge (ep_vector_clock r) (ep_vector_clock e)) r) winner (cx_entries c) in
      v ← next_verification (cx_entries c);
      Ok (set_verification v result)
  | None => Err (NStorage "Empty entry list in vector clock coverage resolution")
  end.

(** The loop of the next two policies: only entries under another id are merged. *)
Definition merge_others (base : EpidemicEntry) (entries : list EpidemicEntry) : EpidemicEntry :=
  foldl (fun r e =>
    if bool_decide (blinded_id (ep_entry e) ≠ blinded_id (ep_entry base))
    then set_clock (VC.merge (ep_vector_clock r) (ep_vector_clock e)) r else r) base entries.

Definition resolve_priority (c : ReconciliationContext) : nout EpidemicEntry :=
  match max_by_key (fun e => e_priority (ep_entry e)) (cx_entries c) with
  | Some highest =>
      let result := merge_others highest (cx_entries c) in
      v ← next_verification (cx_entries c);
      Ok (set_verification v result)
  | None => Err (NStorage "Empty entry list in priority resolution")
  end.

Section Engine_ops.
Context {RT : Runtime} {DO : DashOrder}.

Definition resolve_deterministic_merge (c : ReconciliationContext) : nout EpidemicEntry :=
  base ← ok_or (NStorage "Empty entry list in deterministic merge")
           (max_by_key (fun e => e_timestamp (ep_entry e)) (cx_entries c));
  let result := merge_others base (cx_entries c) in
  let result := set_entry (set_metadata (merged_metadata c) (ep_entry result)) result in
  v ← next_verification (cx_entries c);
  let result := set_verification v result in
  Ok (set_entry (set_timestamp now (ep_entry result)) result).

(** ** Deltas *)

Definition delta_delete (target : gmap string string) (key : string) : list DeltaOperation :=
  if bool_decide (target !! key = None) then [DeleteMetadata key] else [].
Definition delta_update (source : gmap string string) (p : string * string) : list DeltaOperation :=
  match source !! p.1 with
  | Some v => if bool_decide (v ≠ p.2) then [UpdateMetadata p.1 p.2] else []
  | None => [UpdateMetadata p.1 p.2]
  end.
Definition calculate_delta_operations (source target : EpidemicEntry) : list DeltaOperation :=
  let s := ep_entry source in let t := ep_entry target in
  (if bool_decide (encrypted_payload s ≠ encrypted_payload t) then [SetValue (encrypted_payload t)] else []) ++
  concat (map (delta_delete (e_metadata t)) (dash_iter (e_metadata s)).*1) ++
  concat (map (delta_update (e_metadata s)) (dash_iter (e_metadata t))).

Definition create_entry_delta (source target : EpidemicEntry) : EntryDelta :=
  mkDelta (blinded_id (ep_entry source)) (ep_vector_clock source) (ep_vector_clock target)
    (calculate_delta_operations source target).

Definition apply_operation (b : BlindedStateEntry) (op : DeltaOperation) : BlindedStateEntry :=
  match op with
  | SetValue v => set_payload v b
  | UpdateMetadata k v => set_metadata (<[k := v]> (e_metadata b)) b
  | DeleteMetadata k => set_metadata (delete k (e_metadata b)) b
  end.
Definition apply_delta (base : EpidemicEntry) (d : EntryDelta) : nout EpidemicEntry :=
  if bool_decide (blinded_id (ep_entry base) ≠ dl_blinded_id d)
  then Err (NStorage "Delta blinded_id {} doesn't match base {}")
  else if negb (forallb (fun p => p.2 <=? VC.get (ep_vector_clock base) p.1) (map_to_list (counters (base_vector_clock d))))
  then Err (NStorage "Delta base vector clock is not compatible with entry")
  else
    let result := set_entry (foldl apply_operation (ep_entry base) (dl_operations d)) base in
    Ok (set_modified now (set_clock (target_vector_clock d) result)).

(** ** [reconcile] *)

Definition resolve (g : ReconciliationEngine) (policy : ConflictResolutionPolicy) (c : ReconciliationContext) : nout EpidemicEntry :=
  match policy with
  | LastWriteWins => resolve_lww c
  | HighestVectorClockCoverage => resolve_vector_clock_coverage c
  | HighestPriority => resolve_priority c
  | DeterministicMerge => resolve_deterministic_merge c
  | Custom => match custom_handler g with Some h => Ok (h c) | None => resolve_lww c end
  end.

(** [push_back] and the pruning loop, which pops the front while the history is too long. *)
Definition push_history (r : ConflictRecord) (g : ReconciliationEngine) : ReconciliationEngine :=
  let h := conflict_history g ++ [r] in
  set_history (drop (length h - max_conflict_history g) h) g.

(** [try_send]: a full channel only logs a warning. *)
Definition send_metrics (id : string) (r : ConflictRecord) (g : ReconciliationEngine) : ReconciliationEngine :=
  match metrics_tx g with
  | Some tx =>
      if (length (mc_queue tx) <? mc_capacity tx)%nat
      then set_metrics (Some (mkChannel (mc_capacity tx) (mc_queue tx ++ [(id, r)]))) g else g
  | None => g
  end.

Definition make_record (id : string) (entries : list EpidemicEntry) (policy : ConflictResolutionPolicy)
    (result : EpidemicEntry) : ConflictRecord :=
  mkConflict id now (map ep_vector_clock entries) policy (ep_vector_clock result) (omap ep_received_from entries).

Definition reconcile (entries : list EpidemicEntry) : NM ReconciliationEngine ReconciliationResult :=
  let* g := mget in
  match entries with
  | [] => mfail (NStorage "Cannot reconcile empty entry list")
  | [e] => mret_st (mkResult (blinded_id (ep_entry e)) e (default_policy g) None None)
  | e0 :: _ =>
      let id := blinded_id (ep_entry e0) in
      do* mmod (fun g => set_in_progress (<[id := now]> (rec_in_progress g)) g);
      let context := new_context id entries in
      let policy := get_policy g id (cx_region context) in
      let* result := mlift (resolve g policy context) in
      let record := make_record id entries policy result in
      do* mmod (push_history record);
      do* mmod (send_metrics id record);
      let deltas := calculate_delta_operations e0 result in
      do* mmod (fun g => set_in_progress (delete id (rec_in_progress g)) g);
      mret_st (mkResult id result policy (Some record) (Some deltas))
  end.

Fixpoint batch_reconcile (batches : list (list EpidemicEntry)) : NM ReconciliationEngine (list ReconciliationResult) :=
  match batches with
  | [] => mret_st []
  | b :: bs =>
      let* r := reconcile b in
      let* rs := batch_reconcile bs in
      mret_st (r :: rs)
  end.

End Engine_ops.

(** ** Queries *)

Definition is_reconciliation_in_progress (g : ReconciliationEngine) (id : string) : bool :=
  bool_decide (is_Some (rec_in_progress g !! id)).
Definition get_conflict_history (g : ReconciliationEngine) (limit : nat) : list ConflictRecord :=
  take limit (conflict_history g).
Definition get_conflict_stats (g : ReconciliationEngine) : gmap ConflictResolutionPolicy nat :=
  foldl (fun stats r => <[cr_resolution_method r := S (default 0%nat (stats !! cr_resolution_method r))]> stats)
    ∅ (conflict_history g).

(** ** [detect_conflicts] *)

Definition is_concurrent (a b : EpidemicEntry) : bool :=
  match VC.compare (ep_vector_clock a) (ep_vector_clock b) with Concurrent => true | _ => false end.
(** The two nested loops over [i < j], which stop at the first concurrent pair. *)
Fixpoint has_concurrent (group : list EpidemicEntry) : bool :=
  match group with
  | [] => false
  | e :: group => existsb (is_concurrent e) group || has_concurrent group
  end.
Definition group_entry (groups : gmap string (list EpidemicEntry)) (e : EpidemicEntry) : gmap string (list EpidemicEntry) :=
  let id := blinded_id (ep_entry e) in <[id := default [] (groups !! id) ++ [e]]> groups.
Definition detect_conflicts {DO : DashOrder} (entries : list EpidemicEntry) : list (list EpidemicEntry) :=
  List.filter (fun g => (1 <? length g)%nat && has_concurrent g) (dash_iter (foldl group_entry ∅ entries)).*2.

(** ** The audit log; dates are formatted by the chrono crate *)

Definition debug_policy (p : ConflictResolutionPolicy) : string :=
  match p with
  | LastWriteWins => "LastWriteWins"
  | HighestVectorClockCoverage => "HighestVectorClockCoverage"
  | HighestPriority => "HighestPriority"
  | DeterministicMerge => "DeterministicMerge"
  | Custom => "Custom"
  end.
Section Audit.
Context (format_timestamp : Z → string).
Definition nl : string := String (Ascii.ascii_of_nat 10) "".
Definition audit_clock (i : nat) (vc : VectorClock) : string :=
  "  Clock #" +:+ pretty (S i) +:+ ": " +:+ VC.to_string vc +:+ nl.
Definition audit_record (detailed : bool) (i : nat) (r : ConflictRecord) : string :=
  "Conflict #" +:+ pretty (S i) +:+ ": " +:+ cr_blinded_id r +:+ nl +:+
  "Time: " +:+ format_timestamp (detection_time r) +:+ nl +:+
  "Resolution Method: " +:+ debug_policy (cr_resolution_method r) +:+ nl +:+
  "Involved Nodes: " +:+ String.concat ", " (involved_nodes r) +:+ nl +:+
  (if detailed
   then "Vector Clocks:" +:+ nl +:+ String.concat "" (imap audit_clock (vector_clocks r)) +:+
        "Resolved Clock: " +:+ VC.to_string (resolved_vector_clock r) +:+ nl
   else "") +:+ nl.
Definition generate_conflict_audit (records : list ConflictRecord) (detailed : bool) : string :=
  "Conflict Resolution Audit Log" +:+ nl +:+ "==============================" +:+ nl +:+ nl +:+
  String.concat "" (imap (audit_record detailed) records).
End Audit.

End Rec.

(** ** [ReconciliationProcessor]

    A request is a list of entries with the identity of the one-shot channel its
    answer goes to.  A spawned task runs at some later moment and is collected by
    the loop afterwards; until then it occupies one of [max_concurrent] slots. *)

Record RecTask := mkTask { t_id : nat; t_entries : list EpidemicEntry; t_done : bool }.

Record RecProcessor := mkProcessor {
  pr_engine : ReconciliationEngine;
  pr_inbound : list (nat * list EpidemicEntry);
  pr_in_flight : list RecTask;
  pr_answers : list (nat * nout ReconciliationResult);
}.

Module Proc.

Definition channel_capacity : nat := 1000.
Definition new (g : ReconciliationEngine) : RecProcessor := mkProcessor g [] [] [].

(** What the requester reads: a task that panics, or is dropped, drops its
    sender, and the receiver reports that. *)
Definition response (o : nout ReconciliationResult) : nout ReconciliationResult :=
  match o with
  | Ok r => Ok r
  | Err e => Err e
  | _ => Err (NNetwork "Failed to receive reconciliation response: {}")
  end.

(** [reconcile_async] of a processor: the receiver of the channel is inside
    [self], and [start] takes [self] by value, so while the borrow lasts nobody
    serves the request; the call waits. *)
Definition reconcile_async (entries : list EpidemicEntry) (id : nat) : NM RecProcessor ReconciliationResult := fun s =>
  if (length (pr_inbound s) <? channel_capacity)%nat
  then (Hang, mkProcessor (pr_engine s) (pr_inbound s ++ [(id, entries)]) (pr_in_flight s) (pr_answers s))
  else (Hang, s).

(** A request enters the channel through a sender of [get_sender]. *)
Definition submit (r : nat * list EpidemicEntry) (s : RecProcessor) : option RecProcessor :=
  if (length (pr_inbound s) <? channel_capacity)%nat
  then Some (mkProcessor (pr_engine s) (pr_inbound s ++ [r]) (pr_in_flight s) (pr_answers s)) else None.

Section Loop.
Context {RT : Runtime} {DO : DashOrder} (max_concurrent : nat).

(** The steps of the loop of [start] and of the tasks it spawned. *)
Inductive step : RecProcessor → RecProcessor → Prop :=
  (** a free slot: the request is spawned *)
  | step_spawn g id es q fl ans :
      (length fl < max_concurrent)%nat →
      step (mkProcessor g ((id, es) :: q) fl ans) (mkProcessor g q (fl ++ [mkTask id es false]) ans)
  (** no slot: the loop waits for a task, then spawns *)
  | step_wait g id es q fl1 t fl2 ans :
      (max_concurrent ≤ length (fl1 ++ t :: fl2))%nat → t_done t = true →
      step (mkProcessor g ((id, es) :: q) (fl1 ++ t :: fl2) ans) (mkProcessor g q (fl1 ++ fl2 ++ [mkTask id es false]) ans)
  (** no slot and no task to wait for: the request is dropped *)
  | step_drop g id es q ans :
      (max_concurrent ≤ 0)%nat →
      step (mkProcessor g ((id, es) :: q) [] ans) (mkProcessor g q [] (ans ++ [(id, response Panic)]))
  (** a spawned task runs [reconcile] and answers *)
  | step_run g q fl1 id es fl2 ans :
      step (mkProcessor g q (fl1 ++ mkTask id es false :: fl2) ans)
        (mkProcessor (Rec.reconcile es g).2 q (fl1 ++ mkTask id es true :: fl2) (ans ++ [(id, response (Rec.reconcile es g).1)]))
  (** the loop collects a task that ended *)
  | step_collect g q fl1 t fl2 ans :
      t_done t = true →
      step (mkProcessor g q (fl1 ++ t :: fl2) ans) (mkProcessor g q (fl1 ++ fl2) ans).

(** The requests submitted along an execution. *)
Inductive run : RecProcessor → list (nat * list EpidemicEntry) → RecProcessor → Prop :=
  | run_nil s : run s [] s
  | run_submit s l s' r s'' : run s l s' → submit r s' = Some s'' → run s (l ++ [r]) s''
  | run_step s l s' s'' : run s l s' → step s' s'' → run s l s''.

End Loop.
End Proc.

(** ** Lemmas: the largest element *)

Section Max.
Context {A : Type} (f : A → Z).

Lemma max_from_spec l : ∀ b, ∃ m,
  foldl (fun best x => match best with Some b => if f x <? f b then Some b else Some x | None => Some x end) (Some b) l = Some m ∧
  m ∈ b :: l ∧ ∀ x, x ∈ b :: l → f x ≤ f m.
Proof.
  induction l as [|x l IH]; intros b; cbn [foldl].
  - exists b. split_and!; [done|by apply list_elem_of_here|]. intros x Hx. apply list_elem_of_singleton in Hx as ->. lia.
  - destruct (f x <? f b) eqn:E; zbool; [destruct (IH b) as (m & -> & Hin & Hmax)|destruct (IH x) as (m & -> & Hin & Hmax)];
      exists m; (split; [done|]).
    + split; [set_solver|]. intros y Hy. assert (f b ≤ f m) by (apply Hmax; set_solver).
      apply elem_of_cons in Hy as [->|Hy]; [done|]. apply elem_of_cons in Hy as [->|Hy]; [lia|apply Hmax; set_solver].
    + split; [set_solver|]. intros y Hy. assert (f x ≤ f m) by (apply Hmax; set_solver).
      apply elem_of_cons in Hy as [->|Hy]; [lia|]. by apply Hmax.
Qed.

Lemma max_by_key_Some l m : Rec.max_by_key f l = Some m → m ∈ l ∧ ∀ x, x ∈ l → f x ≤ f m.
Proof.
  destruct l as [|b l]; [done|]. unfold Rec.max_by_key. cbn [foldl].
  destruct (max_from_spec l b) as (m' & -> & H). by intros [= ->].
Qed.

Lemma max_by_key_None l : Rec.max_by_key f l = None ↔ l = [].
Proof.
  destruct l as [|b l]; [done|]. unfold Rec.max_by_key. cbn [foldl]. destruct (max_from_spec l b) as (m' & -> & _). done.
Qed.

(** With distinct keys the maximum does not depend on the order. *)
Lemma max_by_key_perm l l' : NoDup (f <$> l) → l ≡ₚ l' → Rec.max_by_key f l = Rec.max_by_key f l'.
Proof.
  intros Hnd Hp. destruct (Rec.max_by_key f l) as [m|] eqn:E, (Rec.max_by_key f l') as [m'|] eqn:E'; [|exfalso..|done].
  - apply max_by_key_Some in E as [Hm Hmax], E' as [Hm' Hmax']. f_equal.
    rewrite <- Hp in Hm'. assert (f m = f m') as Hf.
    { apply Z.le_antisymm; [apply Hmax'; by rewrite <- Hp|by apply Hmax]. }
    apply list_elem_of_lookup in Hm as [i Hi], Hm' as [j Hj].
    assert (i = j) as ->; [|congruence].
    apply (NoDup_lookup (f <$> l) i j (f m)); [done| |];
      rewrite list_lookup_fmap, ?Hi, ?Hj; cbn; congruence.
  - apply max_by_key_None in E'. subst l'. symmetry in Hp. by apply Permutation_nil in Hp as ->.
  - apply max_by_key_None in E. subst l. by apply Permutation_nil in Hp as ->.
Qed.
End Max.

(** A largest key, as a value, never depends on the order. *)
Lemma max_value_perm (l l' : list Z) : l ≡ₚ l' → Rec.max_by_key id l = Rec.max_by_key id l'.
Proof.
  intros Hp. destruct (Rec.max_by_key id l) as [m|] eqn:E, (Rec.max_by_key id l') as [m'|] eqn:E'; [|exfalso..|done].
  - apply max_by_key_Some in E as [Hm Hmax], E' as [Hm' Hmax']. f_equal.
    apply Z.le_antisymm; [apply Hmax'; by rewrite <- Hp|apply Hmax; by rewrite Hp].
  - apply max_by_key_None in E'. subst l'. symmetry in Hp. by apply Permutation_nil in Hp as ->.
  - apply max_by_key_None in E. subst l. by apply Permutation_nil in Hp as ->.
Qed.

Lemma next_verification_perm l l' : l ≡ₚ l' → Rec.next_verification l = Rec.next_verification l'.
Proof. intros Hp. unfold Rec.next_verification. by rewrite (max_value_perm _ _ (Permutation_map _ Hp)). Qed.

(** ** Lemmas: merging clocks over a list of entries *)

Abbreviation clocks l := (map ep_vector_clock l).

Lemma merge_entries_clock l : ∀ r,
  foldl (fun r e => Rec.set_clock (VC.merge (ep_vector_clock r) (ep_vector_clock e)) r) r l =
  Rec.set_clock (merge_all (ep_vector_clock r) (clocks l)) r.
Proof.
  induction l as [|e l IH]; intros r; cbn [foldl map]; [by destruct r|]. rewrite IH. unfold merge_all. by destruct r.
Qed.

Lemma merge_others_same base l : (∀ e, e ∈ l → blinded_id (ep_entry e) = blinded_id (ep_entry base)) →
  Rec.merge_others base l = base.
Proof.
  intros H. unfold Rec.merge_others.
  assert (∀ r, foldl (fun r e => if bool_decide (blinded_id (ep_entry e) ≠ blinded_id (ep_entry base))
    then Rec.set_clock (VC.merge (ep_vector_clock r) (ep_vector_clock e)) r else r) r l = r) as Hl; [|apply Hl].
  induction l as [|e l IH]; intros r; cbn [foldl]; [done|].
  rewrite bool_decide_eq_false_2 by (intros Hn; apply Hn, H; set_solver). apply IH. set_solver.
Qed.

(** The merged clock is the least clock above all of them. *)
Definition clock_lub (c : VectorClock) (l : list VectorClock) : Prop :=
  (∀ x, x ∈ l → clock_le x c) ∧ ∀ d, (∀ x, x ∈ l → clock_le x d) → clock_le c d.

Lemma foldr_max_le z (zs : list Z) b : foldr Z.max z zs ≤ b ↔ z ≤ b ∧ ∀ x, x ∈ zs → x ≤ b.
Proof.
  induction zs as [|y zs IH]; cbn [foldr]; [set_solver|]. rewrite Z.max_lub_iff, IH. set_solver.
Qed.

Lemma merge_all_lub c l : clock_wf c → Forall clock_wf l → c ∈ l → clock_lub (merge_all c l) l.
Proof.
  intros Hc Hl Hin. split.
  - intros x Hx n. rewrite merge_all_get by done.
    pose proof (proj1 (foldr_max_le (VC.get c n) (map (fun x => VC.get x n) l) _) (Z.le_refl _)) as [_ H].
    apply H, list_elem_of_In, in_map_iff. exists x. split; [done|by apply list_elem_of_In].
  - intros d Hd n. rewrite merge_all_get by done. apply foldr_max_le. split; [by apply Hd|].
    intros z Hz. apply list_elem_of_In, in_map_iff in Hz as (x & <- & Hx). apply Hd. by apply list_elem_of_In.
Qed.

Lemma clock_lub_unique c d l : clock_lub c l → clock_lub d l → clock_equiv c d.
Proof. intros [H1 H2] [H3 H4]. apply clock_le_antisym; auto. Qed.

Lemma clock_lub_perm c l l' : l ≡ₚ l' → clock_lub c l → clock_lub c l'.
Proof.
  intros Hp [H1 H2]. split; [intros x; rewrite <- Hp; apply H1|]. intros d Hd. apply H2. intros x. rewrite Hp. apply Hd.
Qed.

Lemma elem_clock e l : e ∈ l → ep_vector_clock e ∈ clocks l.
Proof. intros H. apply list_elem_of_In, in_map, list_elem_of_In, H. Qed.

Lemma clocks_wf l : Forall (fun e => clock_wf (ep_vector_clock e)) l → Forall clock_wf (clocks l).
Proof. intros H. by apply Forall_map. Qed.

(** Entries that agree on everything but the spelling of the clock. *)
Definition entry_equiv (a b : EpidemicEntry) : Prop :=
  clock_equiv (ep_vector_clock a) (ep_vector_clock b) ∧ Rec.set_clock (ep_vector_clock b) a = b.

#[global] Instance entry_equiv_equivalence : Equivalence entry_equiv.
Proof.
  split.
  - intros a. split; [done|by destruct a].
  - intros a b [H1 H2]. split; [by symmetry|]. rewrite <- H2. by destruct a.
  - intros a b c [H1 H2] [H3 H4]. split; [by etrans|]. rewrite <- H4, <- H2. by destruct a.
Qed.

(** ** Lemmas: the context *)

Lemma context_fixed l : ∀ c, cx_entries (foldl Rec.context_step c l) = cx_entries c ∧
  cx_blinded_id (foldl Rec.context_step c l) = cx_blinded_id c.
Proof. induction l as [|e l IH]; intros c; cbn [foldl]; [done|]. by destruct (IH (Rec.context_step c e)) as [-> ->]. Qed.

Lemma new_context_entries id l : cx_entries (Rec.new_context id l) = l.
Proof. apply context_fixed. Qed.

(** What one policy's resolution is, given the entries. *)
Lemma lww_spec c : Forall (fun e => clock_wf (ep_vector_clock e)) (cx_entries c) →
  match Rec.resolve_lww c with
  | Ok r => ∃ w v, Rec.max_by_key (fun e => e_timestamp (ep_entry e)) (cx_entries c) = Some w ∧
      Rec.next_verification (cx_entries c) = Ok v ∧
      r = Rec.set_verification v (Rec.set_clock (ep_vector_clock r) w) ∧ clock_lub (ep_vector_clock r) (clocks (cx_entries c))
  | Err _ => cx_entries c = []
  | Panic => Rec.next_verification (cx_entries c) = Panic
  | Hang => False
  end.
Proof.
  intros Hwf. unfold Rec.resolve_lww. destruct (Rec.max_by_key _ _) as [w|] eqn:E; [|by apply max_by_key_None in E].
  rewrite merge_entries_clock. unfold Rec.next_verification. case_test; cbn [mbind outcome_bind]; [|done].
  eexists w, _. split_and!; [done..|]. cbn [Rec.set_verification Rec.set_clock ep_vector_clock].
  apply max_by_key_Some in E as [Hin _].
  apply merge_all_lub; [|by apply clocks_wf|by apply elem_clock]. by apply (proj1 (Forall_forall _ _) Hwf).
Qed.

(** [reconcile] on two entries or more. *)
Definition started {RT : Runtime} (id : string) (g : ReconciliationEngine) : ReconciliationEngine :=
  Rec.set_in_progress (<[id := now]> (rec_in_progress g)) g.
Definition finished (id : string) (g : ReconciliationEngine) : ReconciliationEngine :=
  Rec.set_in_progress (delete id (rec_in_progress g)) g.

Lemma reconcile_many {RT : Runtime} {DO : DashOrder} e0 e1 l g :
  let es := e0 :: e1 :: l in let id := blinded_id (ep_entry e0) in
  let c := Rec.new_context id es in let p := Rec.get_policy g id (cx_region c) in
  Rec.reconcile es g =
    match Rec.resolve g p c with
    | Ok r => let rc := Rec.make_record id es p r in
        (Ok (mkResult id r p (Some rc) (Some (Rec.calculate_delta_operations e0 r))),
         finished id (Rec.send_metrics id rc (Rec.push_history rc (started id g))))
    | Err e => (Err e, started id g)
    | Panic => (Panic, started id g)
    | Hang => (Hang, started id g)
    end.
Proof.
  intros es id c p. unfold Rec.reconcile, mbind_st, mget, mmod, mlift. cbn [es]. fold es id c p.
  by destruct (Rec.resolve g p c).
Qed.

Lemma next_verification_panic l : Rec.next_verification l = Panic → ∃ e, e ∈ l ∧ Rec.u32_max ≤ ep_verification_count e.
Proof.
  unfold Rec.next_verification. case_test; [done|]. intros _. zbool.
  destruct (Rec.max_by_key id _) as [m|] eqn:E; cbn in *; [|unfold Rec.u32_max in *; lia].
  apply max_by_key_Some in E as [Hin _]. apply list_elem_of_In, in_map_iff in Hin as (e & <- & He).
  exists e. split; [by apply list_elem_of_In|unfold id in *; lia].
Qed.

Lemma perm_two {A} (l l' : list A) : (2 ≤ length l)%nat → l ≡ₚ l' → ∃ a b k, l' = a :: b :: k.
Proof. intros H2 Hp. rewrite Hp in H2. destruct l' as [|a [|b k]]; cbn in H2; [lia|lia|eauto]. Qed.

(** What last-write-wins gives on a list of entries of one id. *)
Lemma reconcile_lww {RT : Runtime} {DO : DashOrder} g id l :
  (∀ region, Rec.get_policy g id region = LastWriteWins) →
  (∀ e, e ∈ l → blinded_id (ep_entry e) = id) →
  Forall (fun e => clock_wf (ep_vector_clock e)) l → (2 ≤ length l)%nat →
  match (Rec.reconcile l g).1 with
  | Ok r => ∃ w v, Rec.max_by_key (fun e => e_timestamp (ep_entry e)) l = Some w ∧ Rec.next_verification l = Ok v ∧
      resolved_entry r = Rec.set_verification v (Rec.set_clock (ep_vector_clock (resolved_entry r)) w) ∧
      clock_lub (ep_vector_clock (resolved_entry r)) (clocks l)
  | Panic => Rec.next_verification l = Panic
  | _ => False
  end.
Proof.
  intros Hp Hid Hwf H2. destruct (perm_two l l H2 (reflexivity l)) as (e0 & e1 & k & ->).
  rewrite reconcile_many. cbv zeta. rewrite (Hid e0) by set_solver. rewrite Hp. cbn [Rec.resolve].
  pose proof (lww_spec (Rec.new_context id (e0 :: e1 :: k))) as H. rewrite new_context_entries in H. specialize (H Hwf).
  by destruct (Rec.resolve_lww _).
Qed.

(** ** Lemmas: deltas *)

Section Delta.
Context {RT : Runtime} {DO : DashOrder}.
Implicit Types (m s t : gmap string string) (b : BlindedStateEntry).

Lemma apply_operations_fixed ops : ∀ b, let b' := foldl Rec.apply_operation b ops in
  b' = Rec.set_payload (encrypted_payload b') (Rec.set_metadata (e_metadata b') b).
Proof.
  induction ops as [|op ops IH]; intros b; cbn [foldl]; [by destruct b|]. cbv zeta in *. rewrite IH at 1. by destruct op.
Qed.

(** The metadata part of a delta leaves the payload alone. *)
Definition metadata_op (op : DeltaOperation) : Prop := match op with SetValue _ => False | _ => True end.
Lemma metadata_ops_payload ops : Forall metadata_op ops → ∀ b,
  encrypted_payload (foldl Rec.apply_operation b ops) = encrypted_payload b.
Proof. induction 1 as [|op ops Hop _ IH]; intros b; cbn [foldl]; [done|]. rewrite IH. by destruct op. Qed.

Lemma delta_metadata_ops s t ks ps :
  Forall metadata_op (concat (map (Rec.delta_delete t) ks) ++ concat (map (Rec.delta_update s) ps)).
Proof.
  apply Forall_app. split.
  - induction ks as [|k ks IH]; cbn; [constructor|]. apply Forall_app. split; [|done].
    unfold Rec.delta_delete. case_bool_decide; repeat constructor.
  - induction ps as [|p ps IH]; cbn; [constructor|]. apply Forall_app. split; [|done].
    unfold Rec.delta_update. destruct (s !! p.1); [case_bool_decide|]; repeat constructor.
Qed.

Lemma delete_phase t ks : ∀ b k,
  e_metadata (foldl Rec.apply_operation b (concat (map (Rec.delta_delete t) ks))) !! k =
  if decide (k ∈ ks ∧ t !! k = None) then None else e_metadata b !! k.
Proof.
  induction ks as [|k' ks IH]; intros b k; cbn [map concat]; [by rewrite decide_False by set_solver|].
  rewrite foldl_app, IH. unfold Rec.delta_delete. case_bool_decide as Ht; cbn [foldl Rec.apply_operation Rec.set_metadata e_metadata].
  - destruct (decide (k = k')) as [->|Hne].
    + rewrite lookup_delete_eq. repeat case_decide; set_solver.
    + rewrite lookup_delete_ne by done. repeat case_decide; set_solver.
  - repeat case_decide; try done; set_solver.
Qed.

Lemma update_phase s ps : NoDup ps.*1 → ∀ b k,
  e_metadata (foldl Rec.apply_operation b (concat (map (Rec.delta_update s) ps))) !! k =
  match (list_to_map ps : gmap string string) !! k with
  | Some v => if decide (s !! k = Some v) then e_metadata b !! k else Some v
  | None => e_metadata b !! k
  end.
Proof.
  induction ps as [|[k' v] ps IH]; intros Hnd b k; [done|].
  rewrite fmap_cons in Hnd. cbn [fst] in Hnd. apply NoDup_cons in Hnd as [Hk' Hnd].
  cbn [map concat]. rewrite foldl_app, IH by done. cbn [list_to_map foldr fst snd].
  assert (∀ b, e_metadata (foldl Rec.apply_operation b (Rec.delta_update s (k', v))) =
    if decide (s !! k' = Some v) then e_metadata b else <[k' := v]> (e_metadata b)) as ->.
  { intros b'. unfold Rec.delta_update. cbn [fst snd]. destruct (s !! k') as [v'|] eqn:E.
    - case_bool_decide; case_decide; cbn; congruence.
    - by case_decide. }
  destruct (decide (k = k')) as [->|Hne].
  - rewrite lookup_insert_eq, (not_elem_of_list_to_map_1 ps k') by done. case_decide; [done|by rewrite lookup_insert_eq].
  - rewrite lookup_insert_ne by done. by case_decide; rewrite ?lookup_insert_ne by done.
Qed.

Lemma dash_to_map {A} (m : gmap string A) : list_to_map (dash_iter m) = m ∧ NoDup (dash_iter m).*1.
Proof.
  assert (NoDup (dash_iter m).*1) as Hnd by (rewrite dash_iter_perm; apply NoDup_fst_map_to_list).
  split; [|done]. rewrite (list_to_map_proper (dash_iter m) (map_to_list m)); [apply list_to_map_to_list|done|apply dash_iter_perm].
Qed.

Lemma elem_of_iter_keys {A} (m : gmap string A) k : k ∈ (dash_iter m).*1 ↔ is_Some (m !! k).
Proof.
  rewrite list_elem_of_fmap. split.
  - intros ([k' x] & -> & H). apply elem_of_iter in H. eauto.
  - intros [x H]. exists (k, x). by rewrite elem_of_iter.
Qed.

Lemma delta_entry source target b : b = ep_entry source →
  foldl Rec.apply_operation b (Rec.calculate_delta_operations source target) =
  Rec.set_payload (encrypted_payload (ep_entry target)) (Rec.set_metadata (e_metadata (ep_entry target)) b).
Proof.
  intros ->. rewrite apply_operations_fixed. f_equal; [|f_equal].
  - unfold Rec.calculate_delta_operations. rewrite foldl_app, metadata_ops_payload by apply delta_metadata_ops.
    by case_bool_decide as H.
  - unfold Rec.calculate_delta_operations. set (p := if bool_decide _ then _ else _). rewrite !foldl_app. apply map_eq. intros k.
    destruct (dash_to_map (e_metadata (ep_entry target))) as [Hm Hnd].
    rewrite update_phase, delete_phase, Hm by done.
    assert (e_metadata (foldl Rec.apply_operation (ep_entry source) p) = e_metadata (ep_entry source)) as -> by (unfold p; by case_bool_decide).
    destruct (e_metadata (ep_entry target) !! k) as [v|] eqn:E.
    + case_decide; [|done]. by rewrite decide_False by naive_solver.
    + case_decide as Hd; [done|]. destruct (e_metadata (ep_entry source) !! k) as [w|] eqn:Ew; [|done].
      exfalso. apply Hd. split; [|done]. by apply elem_of_iter_keys; eauto.
Qed.
End Delta.

(** ** Lemmas: conflict groups *)

Lemma group_lookup l : ∀ m k, (foldl Rec.group_entry m l : gmap string (list EpidemicEntry)) !! k =
  match List.filter (fun e => bool_decide (blinded_id (ep_entry e) = k)) l with
  | [] => m !! k
  | es => Some (default [] (m !! k) ++ es)
  end.
Proof.
  induction l as [|e l IH]; intros m k; cbn [foldl List.filter]; [done|]. rewrite IH. unfold Rec.group_entry.
  case_bool_decide as Hk.
  - subst k. rewrite lookup_insert_eq. cbn [default from_option id]. destruct (List.filter _ l); [done|].
    by rewrite <- app_assoc.
  - by rewrite lookup_insert_ne by done.
Qed.

Lemma has_concurrent_spec l : Rec.has_concurrent l = true ↔
  ∃ i j a b, (i < j)%nat ∧ l !! i = Some a ∧ l !! j = Some b ∧ Rec.is_concurrent a b = true.
Proof.
  induction l as [|e l IH]; cbn [Rec.has_concurrent]; [split; [done|intros (i & j & a & b & _ & H & _); by destruct i]|].
  rewrite orb_true_iff, IH, existsb_exists. split.
  - intros [(b & Hin & Hc)|(i & j & a & b & Hij & Ha & Hb & Hc)].
    + apply list_elem_of_In, list_elem_of_lookup in Hin as [j Hj]. exists 0%nat, (S j), e, b. split_and!; [lia|done..].
    + exists (S i), (S j), a, b. split_and!; [lia|done..].
  - intros (i & j & a & b & Hij & Ha & Hb & Hc). destruct j as [|j]; [lia|]. destruct i as [|i].
    + left. injection Ha as ->. exists b. split; [|done]. apply list_elem_of_In, list_elem_of_lookup. eauto.
    + right. exists i, j, a, b. split_and!; [lia|done..].
Qed.

Lemma has_concurrent_length l : Rec.has_concurrent l = true → (1 < length l)%nat.
Proof.
  rewrite has_concurrent_spec. intros (i & j & a & b & Hij & _ & Hb & _). apply lookup_lt_Some in Hb. lia.
Qed.

(** ** Lemmas: the processor *)

(** The parts of an engine that decide the outcome of a reconciliation; no call
    of [reconcile] changes them. *)
Definition same_settings (g g' : ReconciliationEngine) : Prop :=
  default_policy g = default_policy g' ∧ region_policies g = region_policies g' ∧ id_policies g = id_policies g' ∧
  custom_handler g = custom_handler g' ∧ max_conflict_history g = max_conflict_history g'.

#[global] Instance same_settings_equivalence : Equivalence same_settings.
Proof.
  split; unfold same_settings.
  - intros g. split_and!; reflexivity.
  - intros g g' (? & ? & ? & ? & ?). split_and!; symmetry; assumption.
  - intros a b c (? & ? & ? & ? & ?) (? & ? & ? & ? & ?). split_and!; etrans; eassumption.
Qed.

Ltac same_fields := unfold same_settings; split_and!; reflexivity.

Lemma send_metrics_settings id r g : same_settings (Rec.send_metrics id r g) g.
Proof. unfold Rec.send_metrics. destruct (metrics_tx g); [case_test|]; same_fields. Qed.

Section Settings.
Context {RT : Runtime} {DO : DashOrder}.

Lemma reconcile_settings es g : same_settings (Rec.reconcile es g).2 g.
Proof.
  destruct es as [|e0 [|e1 l]]; [reflexivity..|]. rewrite reconcile_many. cbv zeta.
  destruct (Rec.resolve g _ _); cbn [snd]; [|same_fields..].
  etrans; [|etrans; [apply send_metrics_settings|]]; same_fields.
Qed.

Lemma reconcile_outcome es g g' : same_settings g g' → (Rec.reconcile es g).1 = (Rec.reconcile es g').1.
Proof.
  intros (H1 & H2 & H3 & H4 & H5). destruct es as [|e0 [|e1 l]]; [done|unfold Rec.reconcile, mbind_st, mget, mret_st; cbn; by rewrite H1|].
  rewrite !reconcile_many. cbv zeta. unfold Rec.resolve, Rec.get_policy. rewrite H1, H2, H3, H4.
  set (o := match _ with LastWriteWins => _ | _ => _ end). by destruct o.
Qed.
End Settings.

(** The answer of a request, computed alone on the engine [g]. *)
Definition alone {RT : Runtime} {DO : DashOrder} (g : ReconciliationEngine) (r : nat * list EpidemicEntry) : nat * nout ReconciliationResult :=
  (r.1, Proc.response (Rec.reconcile r.2 g).1).

Definition pending_task (t : RecTask) : list (nat * list EpidemicEntry) :=
  if t_done t then [] else [(t_id t, t_entries t)].
Definition pending (fl : list RecTask) : list (nat * list EpidemicEntry) := concat (map pending_task fl).

Lemma pending_app a b : pending (a ++ b) = pending a ++ pending b.
Proof. unfold pending. by rewrite map_app, concat_app. Qed.
Lemma pending_done fl1 t fl2 : t_done t = true → pending (fl1 ++ t :: fl2) = pending (fl1 ++ fl2).
Proof. intros H. rewrite !pending_app. unfold pending at 2. cbn [map concat]. unfold pending_task at 1. by rewrite H. Qed.

Ltac proc_fields := cbn [pr_engine pr_in_flight pr_inbound pr_answers] in *.

Section ProcInv.
Context {RT : Runtime} {DO : DashOrder} (g0 : ReconciliationEngine) (max : nat).

(** After the requests [subs]: the answered ones got the answer they get alone,
    the others are in a slot or in the channel. *)
Definition proc_inv (subs : list (nat * list EpidemicEntry)) (s : RecProcessor) : Prop :=
  same_settings (pr_engine s) g0 ∧ (length (pr_in_flight s) ≤ max)%nat ∧
  ∃ answered, subs ≡ₚ answered ++ pending (pr_in_flight s) ++ pr_inbound s ∧ pr_answers s = map (alone g0) answered.

Context (Hmax : (0 < max)%nat).

Lemma step_inv subs s s' : proc_inv subs s → Proc.step max s s' → proc_inv subs s'.
Proof.
  intros (Hg & Hl & ans & Hp & Ha) Hstep. destruct Hstep; proc_fields.
  - split; [done|]. proc_fields. split; [rewrite length_app; cbn; lia|]. exists ans. split; [|done].
    rewrite Hp, pending_app. unfold pending at 3. cbn. by rewrite <- !app_assoc.
  - split; [done|]. proc_fields. split; [rewrite length_app in *; cbn in *; rewrite length_app; cbn; lia|]. exists ans. split; [|done].
    rewrite Hp, (pending_done fl1 t fl2) by done. rewrite !pending_app. unfold pending at 5. cbn. by rewrite <- !app_assoc.
  - lia.
  - split; [cbn; etrans; [apply reconcile_settings|done]|]. proc_fields. split; [by rewrite length_app in *|].
    exists (ans ++ [(id, es)]). split.
    + rewrite Hp, (pending_done fl1 (mkTask id es true) fl2) by done. rewrite !pending_app. unfold pending at 2. cbn.
      rewrite <- !app_assoc. apply Permutation_app_head. cbn. symmetry. apply Permutation_middle.
    + rewrite map_app, Ha, (reconcile_outcome es g g0) by done. done.
  - split; [done|]. proc_fields. split; [rewrite length_app in *; cbn in *; lia|]. exists ans. by rewrite <- (pending_done fl1 t fl2).
Qed.

Lemma run_inv subs s : Proc.run max (Proc.new g0) subs s → proc_inv subs s.
Proof.
  remember (Proc.new g0) as s0. induction 1 as [s|s l s' r s'' _ IH Hsub|s l s' s'' _ IH Hs]; subst.
  - split; [reflexivity|]. cbn. split; [lia|]. by exists [].
  - destruct (IH eq_refl) as (Hg & Hl & ans & Hp & Ha). unfold Proc.submit in Hsub. case_test; [|done].
    injection Hsub as <-. split; [done|]. split; [done|]. exists ans. split; [|done]. cbn. by rewrite Hp, <- !app_assoc.
  - by apply (step_inv _ s'); [apply IH|].
Qed.

(** Work left: three units for a request in the channel, two for a spawned task,
    one for a task to collect. *)
Definition task_work (t : RecTask) : nat := if t_done t then 1 else 2.
Fixpoint flight_work (fl : list RecTask) : nat :=
  match fl with [] => 0 | t :: fl => (task_work t + flight_work fl)%nat end.
Definition work (s : RecProcessor) : nat := (3 * length (pr_inbound s) + flight_work (pr_in_flight s))%nat.

Lemma flight_work_app a b : flight_work (a ++ b) = (flight_work a + flight_work b)%nat.
Proof. induction a as [|t a IH]; cbn [app flight_work]; lia. Qed.

Lemma step_work s s' : Proc.step max s s' → (work s' < work s)%nat.
Proof.
  destruct 1; unfold work; cbn [pr_inbound pr_in_flight length]; rewrite ?flight_work_app; cbn [flight_work];
    rewrite ?flight_work_app; cbn [flight_work]; unfold task_work; cbn [t_done]; repeat case_match; simplify_eq; lia.
Qed.

Lemma work_left s : (pr_inbound s ≠ [] ∨ pr_in_flight s ≠ []) → ∃ s', Proc.step max s s'.
Proof.
  destruct s as [g q fl ans]. cbn. intros H. destruct fl as [|[id es []] fl].
  - destruct q as [|[id es] q]; [naive_solver|]. eexists. by apply Proc.step_spawn.
  - eexists. by apply (Proc.step_collect max g q [] (mkTask id es true) fl ans).
  - eexists. by apply (Proc.step_run max g q [] id es fl ans).
Qed.
End ProcInv.

(** ** Lemmas: merged metadata *)

Lemma add_metadata_lookup all e k : Rec.add_metadata all e !! k =
  match e_metadata (ep_entry e) !! k with Some v => Some ({[v]} ∪ default ∅ (all !! k)) | None => all !! k end.
Proof.
  unfold Rec.add_metadata. set (m := e_metadata (ep_entry e)). clearbody m.
  assert (∀ l : list (string * string), NoDup l.*1 → ∀ all : gmap string (gset string),
    foldl (fun (all : gmap string (gset string)) p => <[p.1 := {[p.2]} ∪ default ∅ (all !! p.1)]> all) all l !! k =
    match (list_to_map l : gmap string string) !! k with Some v => Some ({[v]} ∪ default ∅ (all !! k)) | None => all !! k end) as H.
  { induction l as [|[k' v] l IH]; intros Hnd a; [done|]. rewrite fmap_cons in Hnd. apply NoDup_cons in Hnd as [Hk' Hnd].
    cbn [foldl fst snd]. rewrite IH by done. cbn [list_to_map foldr fst snd]. destruct (decide (k = k')) as [->|Hne].
    - by rewrite !lookup_insert_eq, (not_elem_of_list_to_map_1 l k').
    - by rewrite !lookup_insert_ne. }
  rewrite H by apply NoDup_fst_map_to_list. by rewrite list_to_map_to_list.
Qed.

Definition carries (k v : string) (e : EpidemicEntry) : bool := bool_decide (e_metadata (ep_entry e) !! k = Some v).

(** The union holds, under each key, the values some entry carries. *)
Lemma all_metadata_spec l : ∀ c k vs, (∀ vs, all_metadata c !! k = Some vs → vs ≠ ∅) →
  all_metadata (foldl Rec.context_step c l) !! k = Some vs →
  vs ≠ ∅ ∧ ∀ v, v ∈ vs ↔ v ∈ default ∅ (all_metadata c !! k) ∨ ∃ e, e ∈ l ∧ carries k v e = true.
Proof.
  induction l as [|e l IH]; intros c k vs Hne Hvs; cbn [foldl] in Hvs.
  - rewrite Hvs. split; [by apply Hne|]. cbn. set_solver.
  - apply IH in Hvs as [H1 H2]; cbn [Rec.context_step all_metadata] in *.
    + split; [done|]. intros v. rewrite H2, add_metadata_lookup. unfold carries at 2.
      setoid_rewrite elem_of_cons. destruct (e_metadata (ep_entry e) !! k) as [w|] eqn:E; cbn [default from_option id].
      * rewrite elem_of_union, elem_of_singleton. split.
        -- intros [[->|?]|(e' & ? & ?)]; [right; exists e; split; [by left|by rewrite bool_decide_eq_true, E]|by left|right; exists e'; split; [by right|done]].
        -- intros [?|(e' & [->|?] & Hc)]; [by left; right| |right; by exists e']. apply bool_decide_eq_true in Hc. left; left. congruence.
      * split; [intros [?|(e' & ? & ?)]; [by left|right; exists e'; split; [by right|done]]|].
        intros [?|(e' & [->|?] & Hc)]; [by left| |right; by exists e']. apply bool_decide_eq_true in Hc. congruence.
    + intros ws. rewrite add_metadata_lookup. destruct (e_metadata (ep_entry e) !! k); [|apply Hne]. intros [= <-]. set_solver.
Qed.

Lemma all_metadata_dom l : ∀ c k, is_Some (all_metadata (foldl Rec.context_step c l) !! k) ↔
  is_Some (all_metadata c !! k) ∨ ∃ e v, e ∈ l ∧ carries k v e = true.
Proof.
  induction l as [|e l IH]; intros c k; cbn [foldl]; [set_solver|]. rewrite IH. cbn [Rec.context_step all_metadata].
  rewrite add_metadata_lookup. destruct (e_metadata (ep_entry e) !! k) as [w|] eqn:E.
  - split; [|by left]. intros _. right. exists e, w. split; [set_solver|]. by apply bool_decide_eq_true.
  - split; [intros [?|(e' & v & ? & ?)]; [by left|right; exists e', v; split; [set_solver|done]]|].
    intros [?|(e' & v & Hin & Hc)]; [by left|]. apply elem_of_cons in Hin as [->|?]; [|right; by exists e', v].
    apply bool_decide_eq_true in Hc. congruence.
Qed.

Definition occurrences (k v : string) (l : list EpidemicEntry) : Z := Z.of_nat (length (List.filter (carries k v) l)).

Lemma occurrences_pos k v l : (∃ e, e ∈ l ∧ carries k v e = true) ↔ 0 < occurrences k v l.
Proof.
  unfold occurrences. split.
  - intros (e & He & Hc). assert (e ∈ List.filter (carries k v) l) as Hin by (rewrite list_elem_of_In, filter_In, <- list_elem_of_In; done).
    destruct (List.filter _ l); [by apply not_elem_of_nil in Hin|cbn; lia].
  - destruct (List.filter (carries k v) l) as [|e f] eqn:E; [cbn; lia|]. intros _. exists e.
    assert (In e (List.filter (carries k v) l)) as Hin by (rewrite E; by left). apply filter_In in Hin as [? ?]. by rewrite list_elem_of_In.
Qed.

Lemma value_counts_get l k v : unwrap_or 0 (Rec.value_counts l k !! v) = occurrences k v l ∧
  (is_Some (Rec.value_counts l k !! v) ↔ 0 < occurrences k v l).
Proof.
  unfold Rec.value_counts. assert (∀ m : gmap string Z,
    let r := foldl (Rec.count_value k) m l !! v in
    unwrap_or 0 r = unwrap_or 0 (m !! v) + occurrences k v l ∧ (is_Some r ↔ is_Some (m !! v) ∨ 0 < occurrences k v l)) as H.
  { unfold occurrences. induction l as [|e l IH]; intros m; cbv zeta; cbn [foldl List.filter length].
    - split; [cbn; lia|]. cbn. intuition lia.
    - destruct (IH (Rec.count_value k m e)) as [H1 H2]. cbv zeta in H1, H2. rewrite H1, H2.
      destruct (carries k v e) eqn:Hc; unfold carries in Hc.
      + apply bool_decide_eq_true in Hc. unfold Rec.count_value. rewrite Hc, lookup_insert_eq. cbn [length unwrap_or].
        split; [lia|]. split; [intros; right; lia|intros _; left; eauto].
      + apply bool_decide_eq_false in Hc. unfold Rec.count_value. destruct (e_metadata (ep_entry e) !! k) as [w|]; [|done].
        by rewrite lookup_insert_ne by congruence. }
  destruct (H ∅) as [H1 H2]. cbv zeta in *. rewrite H1, H2, lookup_empty. cbn. split; [lia|].
  split; [intros [[? ?]|?]; [done|lia]|by right].
Qed.

(** ** Lemmas: the history *)

Definition last_n {A} (n : nat) (l : list A) : list A := drop (length l - n) l.

Lemma last_n_snoc {A} n (l : list A) x : last_n n (last_n n l ++ [x]) = last_n n (l ++ [x]).
Proof.
  unfold last_n. rewrite !length_app, length_drop. cbn [length].
  destruct (decide (length l ≤ n)%nat) as [H|H].
  - replace (length l - n)%nat with 0%nat by lia. rewrite drop_0. f_equal. lia.
  - rewrite <- (drop_app_le l [x]) by lia. rewrite drop_drop. f_equal. lia.
Qed.

Lemma last_n_short {A} n (l : list A) : (length l ≤ n)%nat → last_n n l = l.
Proof. intros H. unfold last_n. by replace (length l - n)%nat with 0%nat by lia. Qed.

Section History.
Context {RT : Runtime} {DO : DashOrder}.

(** Calls of [reconcile] one after the other, whatever each returns. *)
Definition calls (g : ReconciliationEngine) (ls : list (list EpidemicEntry)) : ReconciliationEngine :=
  foldl (fun g es => (Rec.reconcile es g).2) g ls.
Definition record_of (o : nout ReconciliationResult) : option ConflictRecord :=
  match o with Ok r => conflict_record r | _ => None end.
Definition records (g : ReconciliationEngine) (ls : list (list EpidemicEntry)) : list ConflictRecord :=
  omap (fun es => record_of (Rec.reconcile es g).1) ls.

Lemma send_metrics_history id r g : conflict_history (Rec.send_metrics id r g) = conflict_history g.
Proof. unfold Rec.send_metrics. destruct (metrics_tx g); [case_test|]; done. Qed.

Lemma reconcile_history es g : conflict_history (Rec.reconcile es g).2 =
  match record_of (Rec.reconcile es g).1 with
  | Some r => last_n (max_conflict_history g) (conflict_history g ++ [r])
  | None => conflict_history g
  end.
Proof.
  destruct es as [|e0 [|e1 l]]; [done..|]. rewrite reconcile_many. cbv zeta. destruct (Rec.resolve g _ _); [|done..].
  cbn [fst snd record_of conflict_record]. unfold finished. cbn [Rec.set_in_progress conflict_history]. by rewrite send_metrics_history.
Qed.

Lemma calls_history ls : ∀ g, (length (conflict_history g) ≤ max_conflict_history g)%nat →
  same_settings (calls g ls) g ∧
  conflict_history (calls g ls) = last_n (max_conflict_history g) (conflict_history g ++ records g ls).
Proof.
  induction ls as [|es ls IH] using rev_ind; intros g Hl.
  - split; [reflexivity|]. cbn. by rewrite app_nil_r, last_n_short.
  - destruct (IH g Hl) as [Hs Hh]. unfold calls, records in *. rewrite foldl_app, omap_app. cbn [foldl]. set (g' := foldl _ g ls) in *.
    split; [by etrans; [apply reconcile_settings|]|]. rewrite reconcile_history, (reconcile_outcome es g' g Hs).
    destruct Hs as (_ & _ & _ & _ & ->). rewrite Hh. cbn.
    destruct (record_of _) as [r|]; [by rewrite app_assoc, last_n_snoc|by rewrite app_nil_r].
Qed.
End History.

Lemma stats_lookup l p : ∀ m : gmap ConflictResolutionPolicy nat,
  default 0%nat (foldl (fun stats r => <[cr_resolution_method r := S (default 0%nat (stats !! cr_resolution_method r))]> stats) m l !! p) =
  (default 0 (m !! p) + length (List.filter (fun r => bool_decide (cr_resolution_method r = p)) l))%nat.
Proof.
  induction l as [|r l IH]; intros m; cbn [foldl List.filter length]; [lia|]. rewrite IH. case_bool_decide as Hp.
  - rewrite Hp, lookup_insert_eq. cbn. lia.
  - by rewrite lookup_insert_ne.
Qed.

Lemma compare_concurrent a b : clock_wf b → VC.compare a b = Concurrent ↔ ¬ clock_le a b ∧ ¬ clock_le b a.
Proof.
  intros Hb. destruct (compare_flags a b Hb) as (g & l & Hg & Hl & ->).
  rewrite <- (not_some_gt a b), <- (not_some_gt b a), <- Hg, <- Hl. destruct g, l; cbn; naive_solver.
Qed.

(** ** Properties *)

(** C28: last-write-wins converges: two replicas that hold the same copies of an
    entry, in whatever order, with distinct timestamps, resolve to the same entry up
    to the spelling of its clock: the newest copy, under the least clock above all
    the clocks.  The only failure is the overflow of the verification count. *)
Theorem lww_converges {RT : Runtime} {DO : DashOrder} (g : ReconciliationEngine) (id : string) (l l' : list EpidemicEntry) :
  (∀ region, Rec.get_policy g id region = LastWriteWins) →
  (∀ e, e ∈ l → blinded_id (ep_entry e) = id) →
  Forall (fun e => clock_wf (ep_vector_clock e)) l →
  NoDup ((fun e => e_timestamp (ep_entry e)) <$> l) → (2 ≤ length l)%nat → l ≡ₚ l' →
  match (Rec.reconcile l g).1, (Rec.reconcile l' g).1 with
  | Ok r, Ok r' =>
      entry_equiv (resolved_entry r) (resolved_entry r') ∧
      clock_lub (ep_vector_clock (resolved_entry r)) (clocks l) ∧
      ∃ w, w ∈ l ∧ ep_entry (resolved_entry r) = ep_entry w ∧ ∀ e, e ∈ l → e_timestamp (ep_entry e) ≤ e_timestamp (ep_entry w)
  | Panic, Panic => ∃ e, e ∈ l ∧ Rec.u32_max ≤ ep_verification_count e
  | _, _ => False
  end.
Proof.
  intros Hp Hid Hwf Hts H2 Hperm.
  pose proof (reconcile_lww g id l Hp Hid Hwf H2) as H.
  assert (∀ e, e ∈ l' → blinded_id (ep_entry e) = id) as Hid' by (intros e; rewrite <- Hperm; apply Hid).
  assert (Forall (fun e => clock_wf (ep_vector_clock e)) l' ∧ (2 ≤ length l')%nat) as [Hwf' H2'] by by rewrite <- Hperm.
  pose proof (reconcile_lww g id l' Hp Hid' Hwf' H2') as H'.
  rewrite <- (next_verification_perm l l' Hperm), <- (max_by_key_perm _ l l' Hts Hperm) in H'.
  destruct (Rec.reconcile l g).1 as [r| | |], (Rec.reconcile l' g).1 as [r'| | |]; try done.
  - destruct H as (w & v & Hw & Hv & E & Hlub), H' as (w' & v' & Hw' & Hv' & E' & Hlub').
    assert (w' = w) as -> by congruence. assert (v' = v) as -> by congruence.
    split; [|split; [done|]].
    + split.
      * apply (clock_lub_unique _ _ (clocks l)); [done|]. by apply (clock_lub_perm _ (clocks l')); [apply Permutation_map|].
      * rewrite E, E'. by destruct (resolved_entry r').
    + exists w. apply max_by_key_Some in Hw as [Hw Hmax]. split_and!; [done|by rewrite E|done].
  - destruct H as (? & ? & ? & ? & ?). congruence.
  - destruct H' as (? & ? & ? & ? & ?). congruence.
  - by apply next_verification_panic.
Qed.

(** The two policies that choose by priority or merge the metadata do not
    settle a conflict: they merge only clocks of entries under another id, so the
    resolved entry keeps the winner's clock alone, and a losing copy that was
    concurrent with the winner is still detected as conflicting with the result. *)
Theorem merge_policies_keep_conflict {RT : Runtime} {DO : DashOrder} (g : ReconciliationEngine) (id : string)
    (l : list EpidemicEntry) (policy : ConflictResolutionPolicy) (r : ReconciliationResult) :
  policy = HighestPriority ∨ policy = DeterministicMerge →
  (∀ region, Rec.get_policy g id region = policy) →
  (∀ e, e ∈ l → blinded_id (ep_entry e) = id) → (2 ≤ length l)%nat →
  (Rec.reconcile l g).1 = Ok r →
  ∃ w, w ∈ l ∧ ep_vector_clock (resolved_entry r) = ep_vector_clock w ∧
    ∀ e, e ∈ l → Rec.is_concurrent w e = true → Rec.detect_conflicts [resolved_entry r; e] = [[resolved_entry r; e]].
Proof.
  intros Hpol Hp Hid H2 Hr. destruct (perm_two l l H2 (reflexivity l)) as (e0 & e1 & k & El).
  assert (∃ w, w ∈ l ∧ ep_vector_clock (resolved_entry r) = ep_vector_clock w ∧ blinded_id (ep_entry (resolved_entry r)) = id) as (w & Hw & Hc & Hb).
  { rewrite El, reconcile_many in Hr. cbv zeta in Hr. rewrite <- El, (Hid e0), Hp in Hr by set_solver.
    destruct (Rec.resolve g policy _) as [res| | |] eqn:E; [|done..]. injection Hr as <-. cbn [resolved_entry].
    destruct Hpol as [-> | ->]; cbn [Rec.resolve] in E; unfold Rec.resolve_priority, Rec.resolve_deterministic_merge in E;
      rewrite new_context_entries in E; destruct (Rec.max_by_key _ l) as [w|] eqn:Em; try done;
      apply max_by_key_Some in Em as [Hw _]; cbn [ok_or mbind outcome_bind] in E;
      rewrite merge_others_same in E by (intros e He; rewrite !Hid by done; done);
      destruct (Rec.next_verification l) as [v| | |]; try done; cbn [mbind outcome_bind] in E; apply Ok_inj in E as <-; exists w;
      (split; [exact Hw|split; [reflexivity|exact (Hid w Hw)]]). }
  exists w. split_and!; [done..|]. intros e He Hcon. unfold Rec.detect_conflicts. cbn [foldl]. unfold Rec.group_entry at 1 2.
  rewrite Hb, (Hid e He), lookup_empty, lookup_insert_eq, insert_insert_eq. cbn [default from_option Datatypes.id app].
  assert (dash_iter ({[id := [resolved_entry r; e]]} : gmap string (list EpidemicEntry)) = [(id, [resolved_entry r; e])]) as Hd.
  { apply Permutation_singleton_r. rewrite dash_iter_perm. by rewrite map_to_list_singleton. }
  unfold singletonM, map_singleton in Hd. rewrite Hd. cbn. unfold Rec.is_concurrent in *. rewrite Hc. by rewrite Hcon.
Qed.

(** The detection of conflicts is exact: the groups reported are, for some id,
    all the entries under it in their order, with two of them causally unrelated. *)
Theorem detect_conflicts_exact {DO : DashOrder} (l : list EpidemicEntry) (group : list EpidemicEntry) :
  Forall (fun e => clock_wf (ep_vector_clock e)) l →
  group ∈ Rec.detect_conflicts l ↔
  ∃ id, group = List.filter (fun e => bool_decide (blinded_id (ep_entry e) = id)) l ∧
    ∃ i j a b, (i < j)%nat ∧ group !! i = Some a ∧ group !! j = Some b ∧
      ¬ clock_le (ep_vector_clock a) (ep_vector_clock b) ∧ ¬ clock_le (ep_vector_clock b) (ep_vector_clock a).
Proof.
  intros Hwf. unfold Rec.detect_conflicts. rewrite list_elem_of_In, filter_In, <- list_elem_of_In, andb_true_iff.
  assert (∀ id a b i j, let grp := List.filter (fun e => bool_decide (blinded_id (ep_entry e) = id)) l in
    grp !! i = Some a → grp !! j = Some b → Rec.is_concurrent a b = true ↔
    ¬ clock_le (ep_vector_clock a) (ep_vector_clock b) ∧ ¬ clock_le (ep_vector_clock b) (ep_vector_clock a)) as Hcon.
  { intros id a b i j grp _ Hb. rewrite <- compare_concurrent.
    - unfold Rec.is_concurrent. by destruct (VC.compare _ _).
    - apply list_elem_of_lookup_2, list_elem_of_In, filter_In in Hb as [Hb _].
      apply (proj1 (Forall_forall _ _) Hwf). by apply list_elem_of_In. }
  rewrite list_elem_of_fmap. split.
  - intros ([[k grp] [-> Hin]] & Hlen & Hc). cbn [snd] in *. apply elem_of_iter in Hin. rewrite group_lookup, lookup_empty in Hin.
    exists k. assert (grp = List.filter (fun e => bool_decide (blinded_id (ep_entry e) = k)) l) as ->.
    { destruct (List.filter _ l); [done|]. by injection Hin as <-. }
    split; [done|]. apply has_concurrent_spec in Hc as (i & j & a & b & ? & Ha & Hb & Hc).
    exists i, j, a, b. split_and!; [done..| |]; by apply (Hcon k a b i j).
  - intros (id & -> & i & j & a & b & Hij & Ha & Hb & Hn). set (grp := List.filter _ l) in *.
    assert (Rec.has_concurrent grp = true) as Hc.
    { apply has_concurrent_spec. exists i, j, a, b. split_and!; [done..|]. by apply (Hcon id a b i j). }
    split; [|by rewrite (proj2 (Nat.ltb_lt _ _) (has_concurrent_length _ Hc))].
    exists (id, grp). split; [done|]. apply elem_of_iter. rewrite group_lookup, lookup_empty. fold grp.
    destruct grp; [done|]. done.
Qed.

(** C29: a delta brings one copy to the other: applied to its source it never
    fails, and the result has the target's payload, metadata and clock and the
    source's other fields. *)
Theorem delta_roundtrip {RT : Runtime} {DO : DashOrder} (source target : EpidemicEntry) :
  ∃ r, Rec.apply_delta source (Rec.create_entry_delta source target) = Ok r ∧
    encrypted_payload (ep_entry r) = encrypted_payload (ep_entry target) ∧
    e_metadata (ep_entry r) = e_metadata (ep_entry target) ∧
    ep_vector_clock r = ep_vector_clock target ∧
    r = Rec.set_modified now (Rec.set_clock (ep_vector_clock r)
          (Rec.set_entry (Rec.set_payload (encrypted_payload (ep_entry r)) (Rec.set_metadata (e_metadata (ep_entry r)) (ep_entry source))) source)).
Proof.
  unfold Rec.apply_delta, Rec.create_entry_delta. cbn [dl_blinded_id base_vector_clock target_vector_clock dl_operations].
  rewrite bool_decide_eq_false_2 by naive_solver.
  assert (forallb (fun p => p.2 <=? VC.get (ep_vector_clock source) p.1) (map_to_list (counters (ep_vector_clock source))) = true) as ->.
  { apply forallb_forall. intros [n v] Hin. apply list_elem_of_In, elem_of_map_to_list in Hin. cbn.
    unfold VC.get. rewrite Hin. cbn. apply Z.leb_refl. }
  cbn [negb]. rewrite (delta_entry source target (ep_entry source) eq_refl). eexists. split; [done|]. done.
Qed.

(** The merged metadata take the most common values: a key is kept exactly
    when some entry carries it, with a value no other value of that key outnumbers. *)
Theorem merged_metadata_majority {DO : DashOrder} (id key : string) (l : list EpidemicEntry) :
  match Rec.merged_metadata (Rec.new_context id l) !! key with
  | Some v => 0 < occurrences key v l ∧ ∀ w, occurrences key w l ≤ occurrences key v l
  | None => ∀ v, occurrences key v l = 0
  end.
Proof.
  unfold Rec.merged_metadata. rewrite map_lookup_imap.
  pose proof (fun v => occurrences_pos key v l) as Hocc.
  assert (∀ v, 0 ≤ occurrences key v l) as Hpos by (intros; unfold occurrences; lia).
  pose proof (all_metadata_dom l (mkContext id l "" 0 u64_max 0 ∅) key) as Hdom. cbn [all_metadata] in Hdom.
  rewrite lookup_empty in Hdom. fold (Rec.new_context id l) in Hdom.
  destruct (all_metadata (Rec.new_context id l) !! key) as [vs|] eqn:E; cbn [mbind option_bind].
  - destruct (all_metadata_spec l (mkContext id l "" 0 u64_max 0 ∅) key vs) as [Hne Hvs]; [intros ws H; cbn in H; by rewrite lookup_empty in H|exact E|].
    assert (∀ v, v ∈ vs ↔ 0 < occurrences key v l) as Hin.
    { intros v. rewrite Hvs, <- Hocc. cbn [all_metadata]. rewrite lookup_empty. cbn. set_solver. }
    unfold Rec.merged_value. rewrite new_context_entries. case_test.
    + apply Nat.eqb_eq in Heqb. destruct (size_1_elem_of vs Heqb) as [v Hv]. apply leibniz_equiv in Hv as Hv'. rewrite Hv', elements_singleton. cbn [head].
      split; [apply Hin; set_solver|]. intros w. destruct (decide (w = v)) as [->|Hwv]; [lia|].
      assert (¬ 0 < occurrences key w l) by (rewrite <- Hin; set_solver). specialize (Hpos v). lia.
    + destruct (Rec.max_by_key snd _) as [[v n]|] eqn:Em; cbn [fmap option_fmap option_map fst].
      * apply max_by_key_Some in Em as [Hm Hmax]. apply elem_of_iter in Hm.
        destruct (value_counts_get l key v) as [H1 H2]. rewrite Hm in H1, H2. cbn in H1. split; [apply H2; eauto|].
        intros w. destruct (value_counts_get l key w) as [H3 H4]. rewrite <- H3, <- H1.
        destruct (Rec.value_counts l key !! w) as [c|] eqn:Ew; cbn; [apply (Hmax (w, c)); by apply elem_of_iter|]. rewrite H1. apply Hpos.
      * apply max_by_key_None in Em. intros v. destruct (value_counts_get l key v) as [H1 H2].
        destruct (Rec.value_counts l key !! v) as [c|] eqn:Ev; [|by rewrite <- H1].
        apply elem_of_iter in Ev. rewrite Em in Ev. by apply not_elem_of_nil in Ev.
  - intros v. specialize (Hpos v). destruct (decide (0 < occurrences key v l)) as [Hlt|]; [|lia].
    exfalso. apply Hocc in Hlt as (e & He & Hc). assert (is_Some (@None (gset string))) as [? ?]; [|done]. apply Hdom. right. by exists e, v.
Qed.

(** The history is the last thousand conflicts: after any calls it holds the
    newest records that fit, oldest first, so [get_conflict_history] returns the
    oldest ones kept, and the statistics count its records by policy. *)
Theorem conflict_history_exact {RT : Runtime} {DO : DashOrder} (g : ReconciliationEngine) (ls : list (list EpidemicEntry)) (limit : nat) :
  (length (conflict_history g) ≤ max_conflict_history g)%nat →
  let h := last_n (max_conflict_history g) (conflict_history g ++ records g ls) in
  Rec.get_conflict_history (calls g ls) limit = take limit h ∧
  (length (conflict_history (calls g ls)) ≤ max_conflict_history g)%nat ∧
  ∀ p, default 0%nat (Rec.get_conflict_stats (calls g ls) !! p) =
       length (List.filter (fun r => bool_decide (cr_resolution_method r = p)) h).
Proof.
  intros Hl h. destruct (calls_history ls g Hl) as [_ Hh]. fold h in Hh.
  unfold Rec.get_conflict_history, Rec.get_conflict_stats. rewrite Hh. split_and!; [done| |].
  - unfold h, last_n. rewrite length_drop. lia.
  - intros p. rewrite stats_lookup, lookup_empty. done.
Qed.

(** The concurrent processor refines the sequential engine: with a slot or
    more, in every state of every interleaving each answer sent is the one its
    request gets when it is reconciled alone, no request is lost or answered twice,
    the slots are never exceeded, every step reduces the work left, and a state
    without steps has answered every request. *)
Theorem processor_serves_all {RT : Runtime} {DO : DashOrder} (g : ReconciliationEngine) (max : nat)
    (subs : list (nat * list EpidemicEntry)) (s : RecProcessor) :
  (0 < max)%nat → Proc.run max (Proc.new g) subs s →
  (length (pr_in_flight s) ≤ max)%nat ∧
  (∃ answered, subs ≡ₚ answered ++ pending (pr_in_flight s) ++ pr_inbound s ∧ pr_answers s = map (alone g) answered) ∧
  (∀ s', Proc.step max s s' → (work s' < work s)%nat) ∧
  ((∀ s', ¬ Proc.step max s s') → pr_answers s ≡ₚ map (alone g) subs).
Proof.
  intros Hmax Hrun. destruct (run_inv g max Hmax subs s Hrun) as (_ & Hl & ans & Hp & Ha).
  split_and!; [done|by exists ans|by apply step_work|]. intros Hstuck.
  assert (pr_inbound s = [] ∧ pr_in_flight s = []) as [Hq Hf].
  { destruct (pr_inbound s) eqn:E1, (pr_in_flight s) eqn:E2; try done; exfalso;
      (destruct (work_left max Hmax s) as [s' Hs']; [rewrite E1, E2; naive_solver|by apply (Hstuck s')]). }
  rewrite Ha. rewrite Hq, Hf in Hp. cbn in Hp. rewrite app_nil_r in Hp. by rewrite Hp.
Qed.

(** A processor without slots answers nothing: with [max_concurrent = 0] the
    loop waits for a task of an empty set and drops the request, whose sender only
    learns that the response channel closed. *)
Theorem processor_without_slots {RT : Runtime} {DO : DashOrder} (g : ReconciliationEngine)
    (subs : list (nat * list EpidemicEntry)) (s : RecProcessor) (id : nat) (o : nout ReconciliationResult) :
  Proc.run 0 (Proc.new g) subs s → (id, o) ∈ pr_answers s →
  o = Err (NNetwork "Failed to receive reconciliation response: {}").
Proof.
  intros Hrun Hin.
  assert (pr_in_flight s = [] ∧ Forall (fun a => a.2 = Proc.response Panic) (pr_answers s)) as [_ H].
  { clear Hin. remember (Proc.new g) as s0. induction Hrun as [s|s l s' r s'' _ IH Hsub|s l s' s'' _ IH Hs]; subst; [done| |].
    - unfold Proc.submit in Hsub. case_test; [|done]. injection Hsub as <-. by apply IH.
    - destruct (IH eq_refl) as [Hf Ha]. destruct Hs; proc_fields; try lia; try (by destruct fl1). 
      split; [done|]. apply Forall_app. split; [done|by repeat constructor]. }
  rewrite Forall_forall in H. apply (H _ Hin).
Qed.

(** ** Witnesses *)

Module ReconcileWitness.

#[local] Existing Instance Toy.toy_runtime.
#[local] Instance toy_dash : DashOrder := {| dash_iter A := map_to_list; dash_iter_perm A m := reflexivity _ |}.

Definition copy (payload : bytes) (ts : Z) (priority : Z) (c : VectorClock) : EpidemicEntry :=
  mkEpidemic (mkEntry "x" payload ts 0 "r" priority [] {["k"%string := "v"%string]}) c ts 0 None 0 1 "r".
Definition copy_a : EpidemicEntry := copy [] 10 1 clock_a.
Definition copy_b : EpidemicEntry := copy [] 20 0 clock_b.

Lemma copies_wf : Forall (fun e => clock_wf (ep_vector_clock e)) [copy_a; copy_b].
Proof. apply Forall_cons; split; [exact clock_a_wf|]. apply Forall_singleton. exact clock_b_wf. Qed.
Lemma copies_id e : e ∈ [copy_a; copy_b] → blinded_id (ep_entry e) = "x"%string.
Proof. intros H. repeat (apply elem_of_cons in H as [-> | H]; [done|]). by apply not_elem_of_nil in H. Qed.

Lemma lww_converges_witness :
  is_ok (Rec.reconcile [copy_a; copy_b] (Rec.new LastWriteWins)).1 = true ∧
  match (Rec.reconcile [copy_a; copy_b] (Rec.new LastWriteWins)).1, (Rec.reconcile [copy_b; copy_a] (Rec.new LastWriteWins)).1 with
  | Ok r, Ok r' => entry_equiv (resolved_entry r) (resolved_entry r')
  | Panic, Panic => True
  | _, _ => False
  end.
Proof.
  split; [vm_compute; reflexivity|].
  pose proof (lww_converges (Rec.new LastWriteWins) "x" [copy_a; copy_b] [copy_b; copy_a] (fun _ => eq_refl) copies_id copies_wf) as H.
  assert (NoDup ((fun e => e_timestamp (ep_entry e)) <$> [copy_a; copy_b])) as Hnd by (apply (bool_decide_unpack _); vm_compute; reflexivity).
  specialize (H Hnd (le_n 2) (perm_swap _ _ _)). revert H.
  generalize (Rec.reconcile [copy_a; copy_b] (Rec.new LastWriteWins)).1, (Rec.reconcile [copy_b; copy_a] (Rec.new LastWriteWins)).1.
  intros [| | |] [| | |]; tauto.
Defined.

Lemma merge_policies_keep_conflict_witness :
  Rec.is_concurrent copy_a copy_b = true ∧
  ∃ r, (Rec.reconcile [copy_a; copy_b] (Rec.new HighestPriority)).1 = Ok r ∧
    ∃ w, w ∈ [copy_a; copy_b] ∧ ep_vector_clock (resolved_entry r) = ep_vector_clock w.
Proof.
  split; [vm_compute; reflexivity|].
  assert (is_ok (Rec.reconcile [copy_a; copy_b] (Rec.new HighestPriority)).1 = true) as Hok by (vm_compute; reflexivity).
  destruct (Rec.reconcile [copy_a; copy_b] (Rec.new HighestPriority)).1 as [r| | |] eqn:E; [|discriminate Hok..].
  exists r. split; [reflexivity|].
  destruct (merge_policies_keep_conflict (Rec.new HighestPriority) "x" [copy_a; copy_b] HighestPriority r
    (or_introl eq_refl) (fun _ => eq_refl) copies_id (le_n 2) E) as (w & Hw & Hc & _). exists w. split; assumption.
Defined.

Lemma detect_conflicts_exact_witness : [copy_a; copy_b] ∈ Rec.detect_conflicts [copy_a; copy_b].
Proof.
  apply (detect_conflicts_exact [copy_a; copy_b] [copy_a; copy_b] copies_wf). exists "x"%string. split; [vm_compute; reflexivity|].
  exists 0%nat, 1%nat, copy_a, copy_b. split_and!; [lia|reflexivity|reflexivity| |];
    intros H; [specialize (H "a"%string)|specialize (H "b"%string)]; vm_compute in H; by apply H.
Defined.

Lemma conflict_history_exact_witness :
  (length (conflict_history (calls (Rec.new LastWriteWins) [[copy_a; copy_b]; [copy_a]; []])) ≤ 1000)%nat.
Proof. apply (conflict_history_exact (Rec.new LastWriteWins) [[copy_a; copy_b]; [copy_a]; []] 1). cbn. lia. Defined.

(** A request submitted, spawned and run. *)
Definition served : RecProcessor :=
  let g := Rec.new LastWriteWins in
  mkProcessor (Rec.reconcile [] g).2 [] [mkTask 7 [] true] [(7%nat, Proc.response (Rec.reconcile [] g).1)].

Definition submitted (es : list EpidemicEntry) : RecProcessor := mkProcessor (Rec.new LastWriteWins) [(7%nat, es)] [] [].
Lemma submitted_run max es : Proc.run max (Proc.new (Rec.new LastWriteWins)) [(7%nat, es)] (submitted es).
Proof. exact (Proc.run_submit max _ [] (Proc.new (Rec.new LastWriteWins)) (7%nat, es) (submitted es) (Proc.run_nil max _) eq_refl). Qed.

Lemma served_run : Proc.run 1 (Proc.new (Rec.new LastWriteWins)) [(7%nat, [])] served.
Proof.
  eapply Proc.run_step; [eapply Proc.run_step; [apply submitted_run|]|].
  - apply (Proc.step_spawn 1 (Rec.new LastWriteWins) 7 [] [] [] []). cbn. lia.
  - apply (Proc.step_run 1 (Rec.new LastWriteWins) [] [] 7 [] [] []).
Qed.

Lemma processor_serves_all_witness : (length (pr_in_flight served) ≤ 1)%nat.
Proof. apply (processor_serves_all (Rec.new LastWriteWins) 1 [(7%nat, [])] served); [lia|exact served_run]. Defined.

Definition unserved : RecProcessor :=
  mkProcessor (Rec.new LastWriteWins) [] [] [(7%nat, Proc.response Panic)].
Lemma unserved_run : Proc.run 0 (Proc.new (Rec.new LastWriteWins)) [(7%nat, [copy_a])] unserved.
Proof.
  eapply Proc.run_step; [apply submitted_run|].
  apply (Proc.step_drop 0 (Rec.new LastWriteWins) 7 [copy_a] [] []). lia.
Qed.

Lemma processor_without_slots_witness :
  Proc.response Panic = Err (NNetwork "Failed to receive reconciliation response: {}").
Proof.
  apply (processor_without_slots (Rec.new LastWriteWins) [(7%nat, [copy_a])] unserved 7); [exact unserved_run|]. apply list_elem_of_here.
Defined.

End ReconcileWitness.
