(* ===== verification/Tasks.v ===== *)
(** * The task scheduler of the storage node (dsm_storage_node/src/storage/tasks.rs)

    Priority queues, the control channel, running tasks and their metadata, the
    recurring tasks and the standard tasks of the epidemic protocol.  Handlers of
    the scheduler are functions; the loop, the spawned tasks and the watchers that
    wait for them are the steps of a relation.  Instants are nanoseconds. *)
From S2P Require Import Prelude NodeTypes.
From AAC_tactics Require Import AAC.
From AAC_tactics Require Instances.
Import Instances.Lists.

(** ** Data *)

Inductive TaskPriority := Low | Normal | High | Critical.

#[global] Instance TaskPriority_eq_dec : EqDecision TaskPriority.
Proof. solve_decision. Defined.

#[global] Instance TaskPriority_countable : Countable TaskPriority.
Proof.
  refine (inj_countable'
    (fun p => match p with Low => 0%nat | Normal => 1%nat | High => 2%nat | Critical => 3%nat end)
    (fun n => match n with 0%nat => Low | 1%nat => Normal | 2%nat => High | _ => Critical end) _).
  by intros [].
Defined.

Inductive TaskState := TCreated | TQueued | TRunning | TCompleted | TFailed | TCancelled.

Record TaskMetadata := mkMeta {
  tm_id : string;
  tm_name : string;
  tm_task_type : string;
  tm_priority : TaskPriority;
  tm_state : TaskState;
  tm_created_at : Z;
  tm_started_at : option Z;
  tm_completed_at : option Z;
  tm_error_message : option string;
  tm_dependencies : list string;
  tm_retry_count : nat;
  tm_max_retries : nat;
  tm_context : gmap string string;
}.

(** The action is what its future resolves to ([Hang]: it never does); the
    channels of the completion notice and of the metrics are numbered. *)
Record Task := mkTask {
  tk_metadata : TaskMetadata;
  tk_action : nout unit;
  tk_notify : option nat;
  tk_metrics_callback : option nat;
}.

Record TaskMetrics := mkTaskMetrics {
  mt_id : string;
  mt_success : bool;
  mt_duration_ms : Z;
  mt_retry_count : nat;
  mt_error_message : option string;
}.

Inductive OverflowPolicy := RejectNew | DropLowest | DropOldest.

Record TaskSchedulerConfig := mkTaskConfig {
  max_concurrent_tasks : nat;
  max_queue_size : nat;
  default_timeout_seconds : Z;
  default_max_retries : nat;
  retry_delay_ms : Z;
  tick_interval_ms : Z;
  overflow_policy : OverflowPolicy;
}.

(** The factory is given the identifier and the instant it draws. *)
Record RecurringTaskDef := mkRecurring {
  rd_name : string;
  rd_task_type : string;
  rd_priority : TaskPriority;
  rd_interval_ms : Z;
  rd_last_execution : option Z;
  rd_factory : string → Z → Task;
}.

Inductive ControlMessage :=
  | Schedule (task : Task)
  | Cancel (task_id : string)
  | Shutdown.

(** A spawned task: still running, ended with a value or a panic, or aborted. *)
Inductive JobStatus := JActive | JEnded (r : nout unit) | JAborted.
Record Job := mkJob { jb_task : Task; jb_status : JobStatus }.

(** The second task spawned for each job: it first takes the handle out of the
    table of running tasks, then waits for the job. *)
Inductive Watcher := WStart (task_id : string) | WHolding (task_id : string) (job : nat).

(** The scheduler, with the tokio tasks it has spawned: a handle is the index of
    its job.  [ts_discarded] lists the tasks dropped without being run, and the
    last two fields what was sent to completion and metrics channels. *)
Record TaskScheduler := mkScheduler {
  ts_config : TaskSchedulerConfig;
  ts_queues : gmap TaskPriority (list Task);
  ts_running : gmap string nat;
  ts_metadata : gmap string TaskMetadata;
  ts_recurring : list RecurringTaskDef;
  ts_control : list ControlMessage;
  ts_running_flag : bool;
  ts_running_count : nat;
  ts_loops : nat;
  ts_jobs : list Job;
  ts_watchers : list Watcher;
  ts_discarded : list Task;
  ts_notified : list (nat * nout unit);
  ts_metrics : list (nat * TaskMetrics);
}.

(** [Display] of [StorageNodeError] (dsm_storage_node/src/error/mod.rs). *)
Definition error_text (e : StorageNodeError) : string :=
  match e with
  | NNetworkClientNotSet => "Network client not set"
  | NInvalidNodeId m => "Invalid node ID: " +:+ m
  | NInvalidOperation m => "Invalid operation: " +:+ m
  | NTimeout => "Operation timed out"
  | NInternal => "Internal error"
  | NConfiguration => "Configuration error"
  | NNotFound m => "Not found: " +:+ m
  | NStorage m => "Storage error: " +:+ m
  | NConfig m => "Configuration error: " +:+ m
  | NEncryption m => "Encryption error: " +:+ m
  | NDistribution m => "Distribution error: " +:+ m
  | NNodeManagement m => "Node management error: " +:+ m
  | NStaking m => "Staking error: " +:+ m
  | NAuthentication m => "Authentication error: " +:+ m
  | NInvalidState m => "Invalid state: " +:+ m
  | NDatabase m => "Database error: " +:+ m
  | NSerialization m => "Serialization error: " +:+ m
  | NNetwork m => "Network error: " +:+ m
  | NIO m => "IO error: " +:+ m
  | NJson m => "JSON error: " +:+ m
  | NSqlite m => "SQLite error: " +:+ m
  | NRequest m => "Request error: " +:+ m
  | NUnknown m => "Unknown error: " +:+ m
  | NRateLimitExceeded m => "Rate limit exceeded: " +:+ m
  | NConcurrencyLimitExceeded => "Concurrency limit exceeded"
  | NTaskCancelled m => "Task cancelled: " +:+ m
  | NTaskFailed m => "Task failed: " +:+ m
  | NQueueFull m => "Queue full: " +:+ m
  | NReceiveFailure m => "Receive failure: " +:+ m
  | NInvalidInput m => "Invalid input: " +:+ m
  end.

Module Sched.

(** ** Field updates *)

Definition set_queues q s := mkScheduler (ts_config s) q (ts_running s) (ts_metadata s) (ts_recurring s) (ts_control s)
  (ts_running_flag s) (ts_running_count s) (ts_loops s) (ts_jobs s) (ts_watchers s) (ts_discarded s) (ts_notified s) (ts_metrics s).
Definition set_running r s := mkScheduler (ts_config s) (ts_queues s) r (ts_metadata s) (ts_recurring s) (ts_control s)
  (ts_running_flag s) (ts_running_count s) (ts_loops s) (ts_jobs s) (ts_watchers s) (ts_discarded s) (ts_notified s) (ts_metrics s).
Definition set_metadata m s := mkScheduler (ts_config s) (ts_queues s) (ts_running s) m (ts_recurring s) (ts_control s)
  (ts_running_flag s) (ts_running_count s) (ts_loops s) (ts_jobs s) (ts_watchers s) (ts_discarded s) (ts_notified s) (ts_metrics s).
Definition set_recurring r s := mkScheduler (ts_config s) (ts_queues s) (ts_running s) (ts_metadata s) r (ts_control s)
  (ts_running_flag s) (ts_running_count s) (ts_loops s) (ts_jobs s) (ts_watchers s) (ts_discarded s) (ts_notified s) (ts_metrics s).
Definition set_control c s := mkScheduler (ts_config s) (ts_queues s) (ts_running s) (ts_metadata s) (ts_recurring s) c
  (ts_running_flag s) (ts_running_count s) (ts_loops s) (ts_jobs s) (ts_watchers s) (ts_discarded s) (ts_notified s) (ts_metrics s).
Definition set_flag f n s := mkScheduler (ts_config s) (ts_queues s) (ts_running s) (ts_metadata s) (ts_recurring s) (ts_control s)
  f (ts_running_count s) n (ts_jobs s) (ts_watchers s) (ts_discarded s) (ts_notified s) (ts_metrics s).
Definition set_jobs js n s := mkScheduler (ts_config s) (ts_queues s) (ts_running s) (ts_metadata s) (ts_recurring s) (ts_control s)
  (ts_running_flag s) n (ts_loops s) js (ts_watchers s) (ts_discarded s) (ts_notified s) (ts_metrics s).
Definition set_watchers w s := mkScheduler (ts_config s) (ts_queues s) (ts_running s) (ts_metadata s) (ts_recurring s) (ts_control s)
  (ts_running_flag s) (ts_running_count s) (ts_loops s) (ts_jobs s) w (ts_discarded s) (ts_notified s) (ts_metrics s).
Definition discard ts s := mkScheduler (ts_config s) (ts_queues s) (ts_running s) (ts_metadata s) (ts_recurring s) (ts_control s)
  (ts_running_flag s) (ts_running_count s) (ts_loops s) (ts_jobs s) (ts_watchers s) (ts_discarded s ++ ts) (ts_notified s) (ts_metrics s).
Definition send_to (n : option nat) r s := mkScheduler (ts_config s) (ts_queues s) (ts_running s) (ts_metadata s) (ts_recurring s) (ts_control s)
  (ts_running_flag s) (ts_running_count s) (ts_loops s) (ts_jobs s) (ts_watchers s) (ts_discarded s)
  (match n with Some n => ts_notified s ++ [(n, r)] | None => ts_notified s end) (ts_metrics s).
Definition call_metrics (n : option nat) m s := mkScheduler (ts_config s) (ts_queues s) (ts_running s) (ts_metadata s) (ts_recurring s) (ts_control s)
  (ts_running_flag s) (ts_running_count s) (ts_loops s) (ts_jobs s) (ts_watchers s) (ts_discarded s) (ts_notified s)
  (match n with Some n => ts_metrics s ++ [(n, m)] | None => ts_metrics s end).

Definition with_state st (m : TaskMetadata) := mkMeta (tm_id m) (tm_name m) (tm_task_type m) (tm_priority m) st (tm_created_at m)
  (tm_started_at m) (tm_completed_at m) (tm_error_message m) (tm_dependencies m) (tm_retry_count m) (tm_max_retries m) (tm_context m).
Definition with_started t (m : TaskMetadata) := mkMeta (tm_id m) (tm_name m) (tm_task_type m) (tm_priority m) (tm_state m) (tm_created_at m)
  (Some t) (tm_completed_at m) (tm_error_message m) (tm_dependencies m) (tm_retry_count m) (tm_max_retries m) (tm_context m).
Definition with_completed t (m : TaskMetadata) := mkMeta (tm_id m) (tm_name m) (tm_task_type m) (tm_priority m) (tm_state m) (tm_created_at m)
  (tm_started_at m) (Some t) (tm_error_message m) (tm_dependencies m) (tm_retry_count m) (tm_max_retries m) (tm_context m).
Definition with_error e (m : TaskMetadata) := mkMeta (tm_id m) (tm_name m) (tm_task_type m) (tm_priority m) (tm_state m) (tm_created_at m)
  (tm_started_at m) (tm_completed_at m) (Some e) (tm_dependencies m) (tm_retry_count m) (tm_max_retries m) (tm_context m).

(** [if let Some(metadata) = metadata_guard.get_mut(&id) { ... }] *)
Definition update_meta (id : string) (f : TaskMetadata → TaskMetadata) s := set_metadata (alter f id (ts_metadata s)) s.

Definition task_id (t : Task) : string := tm_id (tk_metadata t).

(** ** Construction *)

Definition default_config : TaskSchedulerConfig := mkTaskConfig 10 1000 60 3 1000 100 RejectNew.
Definition new (c : TaskSchedulerConfig) : TaskScheduler :=
  mkScheduler c ∅ ∅ ∅ [] [] false (max_concurrent_tasks c) 0 [] [] [] [] [].

(** The queue of a priority; an absent queue is empty. *)
Definition queue (s : TaskScheduler) (p : TaskPriority) : list Task := default [] (ts_queues s !! p).
Definition queued (s : TaskScheduler) : list Task := queue s Critical ++ queue s High ++ queue s Normal ++ queue s Low.

(** ** [process_scheduled_tasks_impl] *)

Fixpoint pop_first (ps : list TaskPriority) (qs : gmap TaskPriority (list Task)) : option (Task * gmap TaskPriority (list Task)) :=
  match ps with
  | [] => None
  | p :: ps =>
      match qs !! p with
      | Some (t :: q) => Some (t, <[p := q]> qs)
      | _ => pop_first ps qs
      end
  end.

Definition process_scheduled_tasks (now : Z) (s : TaskScheduler) : TaskScheduler :=
  match ts_running_count s with
  | O => s
  | S permits =>
      match pop_first [Critical; High; Normal; Low] (ts_queues s) with
      | None => s
      | Some (t, qs) =>
          let id := task_id t in
          let s := set_queues qs s in
          let s := update_meta id (fun m => with_started now (with_state TRunning m)) s in
          let handle := length (ts_jobs s) in
          let s := set_jobs (ts_jobs s ++ [mkJob t JActive]) permits s in
          let s := set_running (<[id := handle]> (ts_running s)) s in
          set_watchers (ts_watchers s ++ [WStart id]) s
      end
  end.

(** ** Overflow of a queue *)

Definition dropped_text : string := "Task dropped due to queue overflow".
Definition rejected_text : string := "Task rejected due to queue overflow".

(** Pop the back of a queue, cancel that task and notify. *)
Definition drop_back (now : Z) (p : TaskPriority) (s : TaskScheduler) : TaskScheduler :=
  match last (queue s p) with
  | Some t =>
      let s := set_queues (<[p := removelast (queue s p)]> (ts_queues s)) s in
      let s := update_meta (task_id t) (fun m => with_error dropped_text (with_completed now (with_state TCancelled m))) s in
      discard [t] (send_to (tk_notify t) (Err (NTaskCancelled dropped_text)) s)
  | None => s
  end.

Definition push (p : TaskPriority) (t : Task) (s : TaskScheduler) : TaskScheduler :=
  set_queues (<[p := queue s p ++ [t]]> (ts_queues s)) s.

(** ** [handle_schedule_impl] *)

Definition reject (now : Z) (t : Task) (s : TaskScheduler) : TaskScheduler :=
  let s := update_meta (task_id t) (fun m => with_error rejected_text (with_completed now (with_state TCancelled m))) s in
  discard [t] (send_to (tk_notify t) (Err (NQueueFull "Task queue is full")) s).

Definition enqueue (p : TaskPriority) (t : Task) (s : TaskScheduler) : TaskScheduler :=
  update_meta (task_id t) (with_state TQueued) (push p t s).

Definition handle_schedule (now : Z) (t : Task) (s : TaskScheduler) : TaskScheduler :=
  let p := tm_priority (tk_metadata t) in
  let s := set_queues (<[p := queue s p]> (ts_queues s)) s in
  if (max_queue_size (ts_config s) <=? length (queue s p))%nat then
    match overflow_policy (ts_config s) with
    | RejectNew => reject now t s
    | DropLowest =>
        if bool_decide (p = Low) then reject now t s else enqueue p t (drop_back now Low s)
    | DropOldest => enqueue p t (drop_back now p s)
    end
  else enqueue p t s.

(** ** [process_recurring_tasks_impl] *)

(** [now.duration_since(last).as_millis() >= interval]; the difference saturates at 0. *)
Definition due (now : Z) (d : RecurringTaskDef) : bool :=
  match rd_last_execution d with
  | Some last => rd_interval_ms d <=? Z.max 0 (now - last) / 1000000
  | None => true
  end.
Definition mark_executed (now : Z) (d : RecurringTaskDef) : RecurringTaskDef :=
  if due now d
  then mkRecurring (rd_name d) (rd_task_type d) (rd_priority d) (rd_interval_ms d) (Some now) (rd_factory d) else d.
(** The instances made for the definitions that are due; [uuid] gives the
    identifier that each factory call draws. *)
Fixpoint instances (uuid : nat → string) (now : Z) (i : nat) (ds : list RecurringTaskDef) : list (TaskPriority * Task) :=
  match ds with
  | [] => []
  | d :: ds =>
      if due now d then (rd_priority d, rd_factory d (uuid i) now) :: instances uuid now (S i) ds
      else instances uuid now (S i) ds
  end.

Definition add_recurring (now : Z) (s : TaskScheduler) (x : TaskPriority * Task) : TaskScheduler :=
  let p := x.1 in let t := x.2 in
  let s := set_metadata (<[task_id t := tk_metadata t]> (ts_metadata s)) s in
  let s := set_queues (<[p := queue s p]> (ts_queues s)) s in
  if (max_queue_size (ts_config s) <=? length (queue s p))%nat then
    match overflow_policy (ts_config s) with
    | RejectNew => discard [t] s
    | DropLowest => if bool_decide (p = Low) then discard [t] s else push p t (drop_back now Low s)
    | DropOldest => push p t (drop_back now p s)
    end
  else push p t s.

Definition process_recurring_tasks (uuid : nat → string) (now : Z) (s : TaskScheduler) : TaskScheduler :=
  let todo := instances uuid now 0 (ts_recurring s) in
  foldl (add_recurring now) (set_recurring (map (mark_executed now) (ts_recurring s)) s) todo.

(** ** [handle_cancel_impl] *)

(** [handle.abort()]: a job that still runs is dropped, with its permit, at once
    and not at its next suspension. *)
Definition abort (j : nat) (s : TaskScheduler) : TaskScheduler :=
  match ts_jobs s !! j with
  | Some (mkJob t JActive) => set_jobs (<[j := mkJob t JAborted]> (ts_jobs s)) (S (ts_running_count s)) s
  | _ => s
  end.
Definition handle_cancel (now : Z) (id : string) (s : TaskScheduler) : TaskScheduler :=
  let s' := set_running (delete id (ts_running s)) s in
  let s' := match ts_running s !! id with Some j => abort j s' | None => s' end in
  update_meta id (fun m => with_completed now (with_state TCancelled m)) s'.

(** ** The interface *)

(** [control_tx.send(..).await] waits while the 100 places of the channel are taken. *)
Definition send (msg : ControlMessage) : NM TaskScheduler unit := fun s =>
  if (length (ts_control s) <? 100)%nat then (Ok tt, set_control (ts_control s ++ [msg]) s) else (Hang, s).

(** [start]: the queues are replaced by empty ones and the loop is spawned. *)
Definition start : NM TaskScheduler unit := fun s =>
  if ts_running_flag s then (Err (NInvalidState "Scheduler is already running"), s)
  else
    let lost := queued s in
    let qs := <[Critical := []]> (<[High := []]> (<[Normal := []]> (<[Low := []]> (ts_queues s)))) in
    (Ok tt, discard lost (set_queues qs (set_flag true (S (ts_loops s)) s))).

Definition schedule_with_context (uuid : string) (now : Z) (name task_type : string) (p : TaskPriority)
    (context : gmap string string) (action : nout unit) (channel : nat) : NM TaskScheduler string :=
  let* s := mget in
  let id := task_type +:+ "-" +:+ uuid in
  let m := mkMeta id name task_type p TCreated now None None None [] 0 (default_max_retries (ts_config s)) context in
  do* mmod (fun s => set_metadata (<[id := m]> (ts_metadata s)) s);
  do* send (Schedule (mkTask m action (Some channel) None));
  mret_st id.
Definition schedule (uuid : string) (now : Z) (name task_type : string) (p : TaskPriority) (action : nout unit) (channel : nat) :
    NM TaskScheduler string := schedule_with_context uuid now name task_type p ∅ action channel.

Definition cancel (id : string) : NM TaskScheduler unit := send (Cancel id).

(** One look of [wait_for_task], of [watch_task] and of its polling loop at the
    task: [None] is to look again later. *)
Definition poll (m : TaskMetadata) : option (nout unit) :=
  match tm_state m with
  | TCompleted => Some (Ok tt)
  | TFailed => Some (Err (NTaskFailed (default "Unknown error"%string (tm_error_message m))))
  | TCancelled => Some (Err (NTaskCancelled "Task {} was cancelled"))
  | _ => None
  end.
(** [wait_for_task] as far as it can get without the scheduler making progress. *)
Definition wait_for_task (s : TaskScheduler) (id : string) : nout unit :=
  match ts_metadata s !! id with
  | None => Err (NNotFound "Task {} not found")
  | Some m => match poll m with Some r => r | None => Hang end
  end.
Definition schedule_and_wait (uuid : string) (now : Z) (name task_type : string) (p : TaskPriority) (action : nout unit)
    (channel : nat) : NM TaskScheduler unit :=
  let* id := schedule uuid now name task_type p action channel in
  let* s := mget in mlift (wait_for_task s id).

Definition register_recurring (name task_type : string) (p : TaskPriority) (interval : Z) (factory : string → Z → Task) :
    NM TaskScheduler unit :=
  mmod (fun s => set_recurring (ts_recurring s ++ [mkRecurring name task_type p interval None factory]) s).

(** [shutdown] sends the message and waits until the loop has cleared the flag. *)
Definition shutdown : NM TaskScheduler unit :=
  do* send Shutdown; let* s := mget in if ts_running_flag s then mlift Hang else mret_st tt.

Definition get_queue_depths (s : TaskScheduler) : gmap TaskPriority nat := length <$> ts_queues s.
Definition get_task_metadata (s : TaskScheduler) (id : string) : option TaskMetadata := ts_metadata s !! id.
Definition get_all_task_metadata {DO : DashOrder} (s : TaskScheduler) : list TaskMetadata := (dash_iter (ts_metadata s)).*2.
Definition get_running_task_count (s : TaskScheduler) : nat := size (ts_running s).

(** ** Jobs and watchers *)

(** The end of the spawned future: with the action's result, or [Timeout]; a
    panic unwinds before the notification. *)
Definition end_job (duration : Z) (j : nat) (t : Task) (r : nout unit) (s : TaskScheduler) : TaskScheduler :=
  let s := set_jobs (<[j := mkJob t (JEnded r)]> (ts_jobs s)) (S (ts_running_count s)) s in
  match r with
  | Ok _ | Err _ =>
      let s := send_to (tk_notify t) r s in
      call_metrics (tk_metrics_callback t)
        (mkTaskMetrics (task_id t) (is_ok r) duration 0 (match r with Err e => Some (error_text e) | _ => None end)) s
  | _ => s
  end.

(** What the watcher writes once the job is over; [detail] is the text of the join error. *)
Definition completion (detail : string) (now : Z) (st : JobStatus) (m : TaskMetadata) : TaskMetadata :=
  let m := with_completed now m in
  match st with
  | JEnded (Ok _) => with_state TCompleted m
  | JEnded (Err e) => with_error (error_text e) (with_state TFailed m)
  | _ => with_error ("Task panicked: " +:+ detail) (with_state TFailed m)
  end.

(** One message of the control channel. *)
Definition handle (now : Z) (msg : ControlMessage) (s : TaskScheduler) : TaskScheduler :=
  match msg with
  | Schedule t => handle_schedule now t s
  | Cancel id => handle_cancel now id s
  | Shutdown => set_flag false (ts_loops s) s
  end.

(** The end of a loop: every handle still in the table is aborted. *)
Definition cleanup_one (now : Z) (s : TaskScheduler) (x : string * nat) : TaskScheduler :=
  update_meta x.1 (fun m => with_completed now (with_state TCancelled m)) (abort x.2 s).
Definition cleanup (now : Z) (s : TaskScheduler) : TaskScheduler :=
  foldl (cleanup_one now) (set_running ∅ s) (map_to_list (ts_running s)).

(** The tasks that a message hands over. *)
Definition handed (msg : ControlMessage) : list Task := match msg with Schedule t => [t] | _ => [] end.

(** The steps, labelled with the tasks that the scheduler receives.  A tick of the
    loop is a [step_scheduled] and then a [step_recurring], between which others may
    come; both are public methods as well, and so are the handlers of two messages
    ([step_handle]), so that these steps need no loop.  A turn of the loop that gets
    a message reads the flag and handles it. *)
Inductive step : TaskScheduler → list Task → TaskScheduler → Prop :=
  | step_start s : ts_running_flag s = false → step s [] (start s).2
  | step_schedule s uuid now name ty p cx action ch :
      (length (ts_control s) < 100)%nat →
      step s [] (schedule_with_context uuid now name ty p cx action ch s).2
  | step_cancel s id : (length (ts_control s) < 100)%nat → step s [] (cancel id s).2
  | step_shutdown s : (length (ts_control s) < 100)%nat → step s [] (shutdown s).2
  | step_register s name ty p interval factory : step s [] (register_recurring name ty p interval factory s).2
  | step_scheduled s now : step s [] (process_scheduled_tasks now s)
  | step_recurring s now uuid : step s (instances uuid now 0 (ts_recurring s)).*2 (process_recurring_tasks uuid now s)
  | step_handle s now msg : msg ≠ Shutdown → step s (handed msg) (handle now msg s)
  | step_message s now msg c :
      ts_running_flag s = true → (0 < ts_loops s)%nat → ts_control s = msg :: c →
      step s (handed msg) (handle now msg (set_control c s))
  | step_stop s now :
      ts_running_flag s = false → (0 < ts_loops s)%nat →
      step s [] (cleanup now (set_flag false (pred (ts_loops s)) s))
  | step_end s j t r duration :
      ts_jobs s !! j = Some (mkJob t JActive) → (r = tk_action t ∧ r ≠ Hang) ∨ r = Err NTimeout →
      step s [] (end_job duration j t r s)
  | step_take s id ws1 ws2 :
      ts_watchers s = ws1 ++ WStart id :: ws2 →
      step s [] (set_running (delete id (ts_running s))
        (set_watchers (ws1 ++ match ts_running s !! id with Some j => [WHolding id j] | None => [] end ++ ws2) s))
  | step_complete s id j t st detail now ws1 ws2 :
      ts_watchers s = ws1 ++ WHolding id j :: ws2 → ts_jobs s !! j = Some (mkJob t st) → st ≠ JActive →
      step s [] (update_meta id (completion detail now st) (set_watchers (ws1 ++ ws2) s)).

Inductive run : TaskScheduler → list Task → TaskScheduler → Prop :=
  | run_nil s : run s [] s
  | run_step s l s' l' s'' : run s l s' → step s' l' s'' → run s (l ++ l') s''.

End Sched.

(** ** [EpidemicTasks] *)

Record EpidemicTasks := mkEpidemicTasks {
  et_scheduler : TaskScheduler;
  et_node_id : string;
  et_registered : gset string;
}.

Module EpTasks.

Definition new (node : string) (s : TaskScheduler) : EpidemicTasks := mkEpidemicTasks s node ∅.

(** The factories of the standard tasks: their action sleeps and succeeds. *)
Definition factory (name ty : string) (p : TaskPriority) (uuid : string) (now : Z) : Task :=
  mkTask (mkMeta (ty +:+ "-" +:+ uuid) name ty p TCreated now None None None [] 0 3 ∅) (Ok tt) None None.

Definition register (name ty : string) (p : TaskPriority) (interval : Z) : NM EpidemicTasks unit := fun e =>
  if bool_decide (ty ∈ et_registered e) then (Ok tt, e)
  else
    let (o, s) := Sched.register_recurring name ty p interval (factory name ty p) (et_scheduler e) in
    match o with
    | Ok _ => (Ok tt, mkEpidemicTasks s (et_node_id e) ({[ty]} ∪ et_registered e))
    | o => (o, mkEpidemicTasks s (et_node_id e) (et_registered e))
    end.

Definition register_gossip_task : NM EpidemicTasks unit := register "Gossip Protocol" "gossip" Normal 5000.
Definition register_anti_entropy_task : NM EpidemicTasks unit := register "Anti-Entropy Protocol" "anti-entropy" Normal 60000.
Definition register_topology_update_task : NM EpidemicTasks unit := register "Topology Update" "topology-update" Normal 30000.
Definition register_health_check_task : NM EpidemicTasks unit := register "Health Check" "health-check" Normal 15000.
Definition register_pruning_task : NM EpidemicTasks unit := register "Storage Pruning" "pruning" Low 3600000.

Definition register_standard_tasks : NM EpidemicTasks unit :=
  do* register_gossip_task;
  do* register_anti_entropy_task;
  do* register_topology_update_task;
  do* register_health_check_task;
  do* register_pruning_task;
  mret_st tt.

Definition schedule_task (uuid : string) (now : Z) (name ty : string) (p : TaskPriority) (action : nout unit) (channel : nat) :
    NM EpidemicTasks string := fun e =>
  let (o, s) := Sched.schedule uuid now name ty p action channel (et_scheduler e) in
  (o, mkEpidemicTasks s (et_node_id e) (et_registered e)).

End EpTasks.

(** ** Lemmas: queues *)

(** Concatenations are compared modulo associativity and commutativity. *)
#[local] Instance perm_lift {A} : AAC_lift (@Permutation A) (@Permutation A).
Proof. split; [apply Permutation_Equivalence|]. intros a b H c d H'. by rewrite H, H'. Qed.

Ltac sched_cbn := cbn [ts_config ts_queues ts_running ts_metadata ts_recurring ts_control ts_running_flag ts_running_count
  ts_loops ts_jobs ts_watchers ts_discarded ts_notified ts_metrics Sched.set_queues Sched.set_running Sched.set_metadata
  Sched.set_recurring Sched.set_control Sched.set_flag Sched.set_jobs Sched.set_watchers Sched.discard Sched.send_to
  Sched.call_metrics Sched.update_meta fst snd] in *.

Lemma queue_insert s p p' l : Sched.queue (Sched.set_queues (<[p := l]> (ts_queues s)) s) p' =
  if decide (p' = p) then l else Sched.queue s p'.
Proof. unfold Sched.queue. sched_cbn. case_decide; subst; [by rewrite lookup_insert_eq|by rewrite lookup_insert_ne]. Qed.

Lemma queued_ext s s' : ts_queues s = ts_queues s' → Sched.queued s = Sched.queued s'.
Proof. intros H. unfold Sched.queued, Sched.queue. by rewrite H. Qed.

(** Replacing one queue. *)
Lemma queued_insert s p l :
  Sched.queued (Sched.set_queues (<[p := l]> (ts_queues s)) s) ++ Sched.queue s p ≡ₚ Sched.queued s ++ l.
Proof. unfold Sched.queued. rewrite !queue_insert. destruct p; simpl; aac_reflexivity. Qed.

Lemma queued_replace s p l a b : Sched.queue s p ++ a ≡ₚ l ++ b →
  Sched.queued (Sched.set_queues (<[p := l]> (ts_queues s)) s) ++ b ≡ₚ Sched.queued s ++ a.
Proof.
  intros H. pose proof (queued_insert s p l) as Hq. set (s' := Sched.set_queues _ s) in *.
  apply (Permutation_app_inv_l (Sched.queue s p)).
  transitivity ((Sched.queued s' ++ Sched.queue s p) ++ b); [aac_reflexivity|]. rewrite Hq.
  transitivity (Sched.queued s ++ (l ++ b)); [aac_reflexivity|]. rewrite <- H. aac_reflexivity.
Qed.

(** What the handling of queues does to the rest: tasks move between the queues and
    the discarded ones, [extra] come in, and nothing else changes but metadata and
    notifications. *)
Definition queue_step (s : TaskScheduler) (extra : list Task) (s' : TaskScheduler) : Prop :=
  Sched.queued s' ++ ts_discarded s' ≡ₚ (Sched.queued s ++ ts_discarded s) ++ extra ∧
  ts_jobs s' = ts_jobs s ∧ ts_running_count s' = ts_running_count s ∧ ts_config s' = ts_config s ∧
  ts_running s' = ts_running s ∧ ts_watchers s' = ts_watchers s ∧ ts_recurring s' = ts_recurring s.

Lemma queue_step_refl s s' : Sched.queued s' = Sched.queued s → ts_discarded s' = ts_discarded s →
  ts_jobs s' = ts_jobs s → ts_running_count s' = ts_running_count s → ts_config s' = ts_config s →
  ts_running s' = ts_running s → ts_watchers s' = ts_watchers s → ts_recurring s' = ts_recurring s → queue_step s [] s'.
Proof. intros H1 H2 H3 H4 H5 H6 H7 H8. split_and!; try done. by rewrite H1, H2, app_nil_r. Qed.

Lemma queue_step_trans a b c x y : queue_step a x b → queue_step b y c → queue_step a (x ++ y) c.
Proof.
  intros (H1 & H2 & H3 & H4 & H5 & H6 & H7) (G1 & G2 & G3 & G4 & G5 & G6 & G7). split_and!; try congruence.
  rewrite G1, H1. aac_reflexivity.
Qed.

Lemma push_step p t s : queue_step s [t] (Sched.push p t s).
Proof.
  split_and!; try done. unfold Sched.push.
  transitivity ((Sched.queued (Sched.set_queues (<[p := Sched.queue s p ++ [t]]> (ts_queues s)) s) ++ []) ++ ts_discarded s);
    [sched_cbn; aac_reflexivity|].
  rewrite (queued_replace s p _ [t] []) by aac_reflexivity. aac_reflexivity.
Qed.

Lemma touch_step s p : queue_step s [] (Sched.set_queues (<[p := Sched.queue s p]> (ts_queues s)) s).
Proof.
  apply queue_step_refl; try done. unfold Sched.queued. rewrite !queue_insert. by destruct p.
Qed.

Lemma discard_step ts s : queue_step s ts (Sched.discard ts s).
Proof. split_and!; try done. change (Sched.queued (Sched.discard ts s)) with (Sched.queued s). sched_cbn. aac_reflexivity. Qed.

Lemma meta_step s m n r : queue_step s [] (Sched.send_to n r (Sched.set_metadata m s)).
Proof. by apply queue_step_refl. Qed.

Lemma last_removelast {A} (l : list A) x : last l = Some x → l = removelast l ++ [x].
Proof.
  intros H. apply last_Some in H as [l' ->]. by rewrite removelast_last.
Qed.

Lemma drop_back_step now p s : queue_step s [] (Sched.drop_back now p s).
Proof.
  unfold Sched.drop_back. destruct (last (Sched.queue s p)) as [t|] eqn:E; [|by apply queue_step_refl].
  apply last_removelast in E. split_and!; try done. sched_cbn.
  set (l := removelast (Sched.queue s p)) in *.
  transitivity ((Sched.queued (Sched.set_queues (<[p := l]> (ts_queues s)) s) ++ [t]) ++ ts_discarded s).
  - rewrite (queued_ext _ (Sched.set_queues (<[p := l]> (ts_queues s)) s)) by done. aac_reflexivity.
  - rewrite (queued_replace s p l [] [t]); [aac_reflexivity|]. by rewrite app_nil_r, <- E.
Qed.

Lemma reject_step now t s : queue_step s [t] (Sched.reject now t s).
Proof.
  unfold Sched.reject. eapply (queue_step_trans s _ _ [] [t]); [|apply discard_step]. apply meta_step.
Qed.

Lemma enqueue_step p t s : queue_step s [t] (Sched.enqueue p t s).
Proof. eapply (queue_step_trans s _ _ [t] []); [apply push_step|]. by apply queue_step_refl. Qed.

Lemma handle_schedule_step now t s : queue_step s [t] (Sched.handle_schedule now t s).
Proof.
  unfold Sched.handle_schedule. cbv zeta. set (p := tm_priority (tk_metadata t)).
  eapply (queue_step_trans s _ _ [] [t]); [apply (touch_step s p)|].
  set (s1 := Sched.set_queues _ s).
  destruct (_ <=? _)%nat; [|apply enqueue_step]. destruct (overflow_policy _).
  - apply reject_step.
  - case_bool_decide; [apply reject_step|]. eapply (queue_step_trans s1 _ _ [] [t]); [apply drop_back_step|apply enqueue_step].
  - eapply (queue_step_trans s1 _ _ [] [t]); [apply drop_back_step|apply enqueue_step].
Qed.

Lemma add_recurring_step now s x : queue_step s [x.2] (Sched.add_recurring now s x).
Proof.
  unfold Sched.add_recurring. cbv zeta. destruct x as [p t]. cbn [fst snd].
  set (s0 := Sched.set_metadata _ s). eapply (queue_step_trans s s0 _ [] [t]); [by apply queue_step_refl|].
  eapply (queue_step_trans s0 _ _ [] [t]); [apply (touch_step s0 p)|]. set (s1 := Sched.set_queues _ s0).
  destruct (_ <=? _)%nat; [|apply push_step]. destruct (overflow_policy _).
  - apply discard_step.
  - case_bool_decide; [apply discard_step|]. eapply (queue_step_trans s1 _ _ [] [t]); [apply drop_back_step|apply push_step].
  - eapply (queue_step_trans s1 _ _ [] [t]); [apply drop_back_step|apply push_step].
Qed.

Lemma add_all_step now xs : ∀ s, queue_step s xs.*2 (foldl (Sched.add_recurring now) s xs).
Proof.
  induction xs as [|x xs IH]; intros s; cbn [foldl]; [by apply queue_step_refl|].
  rewrite fmap_cons. eapply (queue_step_trans s _ _ [x.2] _ (add_recurring_step now s x)). apply IH.
Qed.

(** ** Lemmas: jobs *)

Definition is_active (j : Job) : bool := match jb_status j with JActive => true | _ => false end.
Definition active (js : list Job) : nat := length (List.filter is_active js).

Lemma active_app a b : active (a ++ b) = (active a + active b)%nat.
Proof. unfold active. by rewrite List.filter_app, length_app. Qed.

Lemma active_insert js j t st : js !! j = Some (mkJob t JActive) → st ≠ JActive →
  S (active (<[j := mkJob t st]> js)) = active js.
Proof.
  intros Hj Hst. rewrite (insert_take_drop js j (mkJob t st)) by (by apply lookup_lt_Some in Hj).
  rewrite <- (take_drop_middle js j (mkJob t JActive) Hj) at 3. rewrite !active_app.
  assert (active (mkJob t st :: drop (S j) js) = active (drop (S j) js)) as -> by by destruct st.
  change (active (mkJob t JActive :: drop (S j) js)) with (S (active (drop (S j) js))). lia.
Qed.

Lemma job_tasks_insert (js : list Job) j t st st' : js !! j = Some (mkJob t st) → jb_task <$> <[j := mkJob t st']> js = jb_task <$> js.
Proof. intros Hj. rewrite list_fmap_insert. apply list_insert_id. by rewrite list_lookup_fmap, Hj. Qed.

(** The job [j] is one of the task [id]. *)
Definition job_of (s : TaskScheduler) (id : string) (j : nat) : Prop :=
  ∃ t st, ts_jobs s !! j = Some (mkJob t st) ∧ Sched.task_id t = id.

(** After the tasks [received]: each is in a job, in a queue or was discarded, the
    permits and the active jobs make up the limit, and handles belong to jobs of
    their task. *)
Record sched_inv (c : TaskSchedulerConfig) (received : list Task) (s : TaskScheduler) : Prop := {
  si_config : ts_config s = c;
  si_tasks : received ≡ₚ (jb_task <$> ts_jobs s) ++ (Sched.queued s ++ ts_discarded s);
  si_permits : (ts_running_count s + active (ts_jobs s))%nat = max_concurrent_tasks c;
  si_running : ∀ id j, ts_running s !! id = Some j → job_of s id j;
  si_watchers : ∀ id j, WHolding id j ∈ ts_watchers s → job_of s id j;
}.

Section Inv.
Context (c : TaskSchedulerConfig).
Implicit Types (l : list Task) (s : TaskScheduler).

Lemma inv_queue_step l s x s' : sched_inv c l s → queue_step s x s' → sched_inv c (l ++ x) s'.
Proof.
  intros [H1 H2 H3 H4 H5] (G1 & G2 & G3 & G4 & G5 & G6 & G7). unfold job_of in *. split.
  - congruence.
  - rewrite G2, G1, H2. aac_reflexivity.
  - by rewrite G2, G3.
  - unfold job_of. rewrite G2, G5. done.
  - unfold job_of. rewrite G2, G6. done.
Qed.

(** Updates that touch none of the fields of the invariant. *)
Lemma inv_ext l s s' : sched_inv c l s → ts_config s' = ts_config s → ts_queues s' = ts_queues s →
  ts_discarded s' = ts_discarded s → ts_jobs s' = ts_jobs s → ts_running_count s' = ts_running_count s →
  ts_running s' = ts_running s → ts_watchers s' = ts_watchers s → sched_inv c l s'.
Proof.
  intros [H1 H2 H3 H4 H5] E1 E2 E3 E4 E5 E6 E7. unfold job_of in *. split; unfold job_of.
  - congruence.
  - by rewrite E4, E3, (queued_ext s' s).
  - by rewrite E4, E5.
  - by rewrite E4, E6.
  - by rewrite E4, E7.
Qed.

(** A job ends or is aborted: its permit comes back. *)
Lemma inv_retire l s j t st : sched_inv c l s → ts_jobs s !! j = Some (mkJob t JActive) → st ≠ JActive →
  sched_inv c l (Sched.set_jobs (<[j := mkJob t st]> (ts_jobs s)) (S (ts_running_count s)) s).
Proof.
  intros [H1 H2 H3 H4 H5] Hj Hst. pose proof (active_insert _ _ _ _ Hj Hst) as Ha.
  assert (∀ id k, job_of s id k → job_of (Sched.set_jobs (<[j := mkJob t st]> (ts_jobs s)) (S (ts_running_count s)) s) id k) as Hk.
  { intros id k (t' & st' & Hk & Hid). unfold job_of. sched_cbn. destruct (decide (k = j)) as [->|Hne].
    - rewrite list_lookup_insert_eq by (by apply lookup_lt_Some in Hj). exists t, st. split; [done|]. congruence.
    - rewrite list_lookup_insert_ne by done. by exists t', st'. }
  split; sched_cbn; eauto.
  - by rewrite (job_tasks_insert _ _ _ _ _ Hj).
  - lia.
Qed.

Lemma inv_abort l s j : sched_inv c l s → sched_inv c l (Sched.abort j s).
Proof.
  intros H. unfold Sched.abort. destruct (ts_jobs s !! j) as [[t []]|] eqn:E; try done. by apply inv_retire.
Qed.

Lemma inv_unregister l s r : sched_inv c l s → (∀ id j, r !! id = Some j → ts_running s !! id = Some j) →
  sched_inv c l (Sched.set_running r s).
Proof. intros [H1 H2 H3 H4 H5] Hr. split; sched_cbn; eauto. Qed.

Lemma inv_meta l s id f : sched_inv c l s → sched_inv c l (Sched.update_meta id f s).
Proof. intros H. by apply (inv_ext l s). Qed.

Lemma inv_cancel l s now id : sched_inv c l s → sched_inv c l (Sched.handle_cancel now id s).
Proof.
  intros H. unfold Sched.handle_cancel. cbv zeta. apply inv_meta.
  assert (sched_inv c l (Sched.set_running (delete id (ts_running s)) s)) as Hd.
  { apply inv_unregister; [done|]. by intros k j [_ ?]%lookup_delete_Some. }
  destruct (ts_running s !! id); [by apply inv_abort|done].
Qed.

Lemma inv_cleanup l now xs : ∀ s, sched_inv c l s → sched_inv c l (foldl (Sched.cleanup_one now) s xs).
Proof.
  induction xs as [|x xs IH]; intros s H; cbn [foldl]; [done|]. apply IH. unfold Sched.cleanup_one. by apply inv_meta, inv_abort.
Qed.
End Inv.

(** The queue that [pop_first] takes from: the first that is not empty. *)
Lemma pop_first_spec ps qs :
  match Sched.pop_first ps qs with
  | Some (t, qs') => ∃ ps1 p ps2 q, ps = ps1 ++ p :: ps2 ∧ qs !! p = Some (t :: q) ∧ qs' = <[p := q]> qs ∧
      ∀ p', p' ∈ ps1 → default [] (qs !! p') = []
  | None => ∀ p, p ∈ ps → default [] (qs !! p) = []
  end.
Proof.
  induction ps as [|p ps IH]; cbn [Sched.pop_first]; [intros p H; by apply not_elem_of_nil in H|].
  destruct (qs !! p) as [[|t q]|] eqn:E.
  1, 3: destruct (Sched.pop_first ps qs) as [[t' qs']|];
    [destruct IH as (ps1 & p1 & ps2 & q1 & -> & H1 & H2 & H3); exists (p :: ps1), p1, ps2, q1; split_and!; try done;
       intros p' [->|Hp']%elem_of_cons; [by rewrite E|by apply H3]
    |intros p' [->|Hp']%elem_of_cons; [by rewrite E|by apply IH]].
  exists [], p, ps, q. split_and!; try done. intros p' H. by apply not_elem_of_nil in H.
Qed.

Section Steps.
Context (c : TaskSchedulerConfig).
Implicit Types (l : list Task) (s : TaskScheduler).

Lemma inv_process l s now : sched_inv c l s → sched_inv c l (Sched.process_scheduled_tasks now s).
Proof.
  intros H. unfold Sched.process_scheduled_tasks. destruct (ts_running_count s) as [|permits] eqn:Ep; [done|].
  pose proof (pop_first_spec [Critical; High; Normal; Low] (ts_queues s)) as Hpop.
  destruct (Sched.pop_first _ _) as [[t qs]|]; [|done]. destruct Hpop as (ps1 & p & ps2 & q & _ & Hq & -> & _).
  destruct H as [H1 H2 H3 H4 H5]. cbv zeta. match goal with |- sched_inv _ _ ?x => set (s' := x) end.
  assert (∀ id j, job_of s id j → job_of s' id j) as Hold.
  { intros id j (t' & st & Hj & Hid). exists t', st. split; [|done]. unfold s'. sched_cbn. by apply lookup_app_l_Some. }
  split.
  - done.
  - rewrite (queued_ext s' (Sched.set_queues (<[p := q]> (ts_queues s)) s)) by done.
    change (ts_jobs s') with (ts_jobs s ++ [mkJob t JActive]). change (ts_discarded s') with (ts_discarded s).
    rewrite H2, fmap_app.
    assert (Sched.queue s p ++ [] ≡ₚ q ++ [t]) as Hr.
    { rewrite app_nil_r. unfold Sched.queue. rewrite Hq. cbn. apply Permutation_cons_append. }
    apply queued_replace in Hr. rewrite app_nil_r in Hr. rewrite <- Hr.
    change (jb_task <$> [mkJob t JActive]) with [t]. aac_reflexivity.
  - change (ts_jobs s') with (ts_jobs s ++ [mkJob t JActive]). change (ts_running_count s') with permits.
    rewrite active_app. change (active [mkJob t JActive]) with 1%nat. lia.
  - intros id j. change (ts_running s') with (<[Sched.task_id t := length (ts_jobs s)]> (ts_running s)).
    destruct (decide (id = Sched.task_id t)) as [->|Hne].
    + rewrite lookup_insert_eq. intros [= <-]. exists t, JActive. split; [|done].
      change (ts_jobs s') with (ts_jobs s ++ [mkJob t JActive]). by rewrite lookup_app_r, Nat.sub_diag.
    + rewrite lookup_insert_ne by done. intros Hr. by apply Hold, H4.
  - intros id j [Hw|Hw]%elem_of_app; [by apply Hold, H5|]. apply list_elem_of_singleton in Hw. done.
Qed.

Lemma inv_recurring l s uuid now : sched_inv c l s →
  sched_inv c (l ++ (Sched.instances uuid now 0 (ts_recurring s)).*2) (Sched.process_recurring_tasks uuid now s).
Proof.
  intros H. unfold Sched.process_recurring_tasks. cbv zeta. eapply inv_queue_step; [|apply add_all_step]. by apply (inv_ext c l s).
Qed.

Lemma process_recurring_same s now : ts_recurring (Sched.process_scheduled_tasks now s) = ts_recurring s.
Proof.
  unfold Sched.process_scheduled_tasks. destruct (ts_running_count s); [done|]. by destruct (Sched.pop_first _ _) as [[]|].
Qed.

Lemma send_inv l s msg : sched_inv c l s → sched_inv c l (Sched.send msg s).2.
Proof. intros H. unfold Sched.send. case_test; [by apply (inv_ext c l s)|done]. Qed.

Lemma start_inv l s : ts_running_flag s = false → sched_inv c l s → sched_inv c l (Sched.start s).2.
Proof.
  intros Hf [H1 H2 H3 H4 H5]. unfold Sched.start. rewrite Hf. cbv zeta. cbn [snd].
  match goal with |- sched_inv _ _ ?x => set (s' := x) end. split; try done.
  assert (Sched.queued s' = []) as ->.
  2: { change (ts_jobs s') with (ts_jobs s). change (ts_discarded s') with (ts_discarded s ++ Sched.queued s). rewrite H2. aac_reflexivity. }
  unfold Sched.queued, Sched.queue, s'. sched_cbn. by simplify_map_eq.
Qed.

Lemma inv_handle l s now msg : sched_inv c l s → sched_inv c (l ++ Sched.handed msg) (Sched.handle now msg s).
Proof.
  intros H. destruct msg; cbn [Sched.handle Sched.handed]; rewrite ?app_nil_r.
  - eapply inv_queue_step; [done|apply handle_schedule_step].
  - by apply inv_cancel.
  - by apply (inv_ext c l s).
Qed.

Lemma scheduler_step_inv l s x s' : sched_inv c l s → Sched.step s x s' → sched_inv c (l ++ x) s'.
Proof.
  intros H Hstep. destruct Hstep; rewrite ?app_nil_r.
  - by apply start_inv.
  - unfold Sched.schedule_with_context, mbind_st, mget, mmod, Sched.send. sched_cbn.
    rewrite (proj2 (Nat.ltb_lt _ _)) by done. by apply (inv_ext c l s).
  - by apply send_inv.
  - unfold Sched.shutdown, mbind_st, mget, Sched.send. rewrite (proj2 (Nat.ltb_lt _ _)) by done. sched_cbn.
    destruct (ts_running_flag s); by apply (inv_ext c l s).
  - by apply (inv_ext c l s).
  - by apply inv_process.
  - by apply inv_recurring.
  - by apply inv_handle.
  - apply inv_handle. by apply (inv_ext c l s).
  - unfold Sched.cleanup. apply inv_cleanup, inv_unregister; [by apply (inv_ext c l s)|]. intros id j Hid. by rewrite lookup_empty in Hid.
  - unfold Sched.end_job. assert (r ≠ Hang) as Hr by (destruct H1 as [[_ ?]| ->]; done).
    pose proof (inv_retire c l s j t (JEnded r) H H0 ltac:(done)) as Hret. destruct r; try done; by eapply inv_ext.
  - destruct H as [H1 H2 H3 H4 H5]. split; sched_cbn; try done.
    + intros k j [_ Hk]%lookup_delete_Some. by apply H4.
    + intros k j [Hk|[Hk|Hk]%elem_of_app]%elem_of_app; [apply H5; rewrite H0; set_solver| |apply H5; rewrite H0; set_solver].
      destruct (ts_running s !! id) as [j'|] eqn:E; [|by apply not_elem_of_nil in Hk].
      apply list_elem_of_singleton in Hk as [= -> ->]. by apply H4.
  - apply inv_meta. destruct H as [G1 G2 G3 G4 G5]. split; sched_cbn; try done. intros k i Hk. apply G5. rewrite H0. set_solver.
Qed.

Lemma scheduler_run_inv l s : Sched.run (Sched.new c) l s → sched_inv c l s.
Proof.
  remember (Sched.new c) as s0. induction 1 as [s|s l s' l' s'' _ IH Hs]; subst.
  - split; [done|done|apply Nat.add_0_r| |].
    + intros id j H. cbn in H. by rewrite lookup_empty in H.
    + intros id j H. by apply not_elem_of_nil in H.
  - by eapply scheduler_step_inv; [apply IH|].
Qed.
End Steps.

(** ** Lemmas: the states of tasks *)

(** What the recorded state of a task says about its jobs. *)
Definition state_ok (s : TaskScheduler) (id : string) (m : TaskMetadata) : Prop :=
  match tm_state m with
  | TCreated | TQueued => True
  | TRunning => is_Some (tm_started_at m) ∧ ∃ j, job_of s id j
  | TCompleted => is_Some (tm_completed_at m) ∧
      ∃ j t, ts_jobs s !! j = Some (mkJob t (JEnded (Ok tt))) ∧ Sched.task_id t = id
  | TFailed => is_Some (tm_completed_at m) ∧ is_Some (tm_error_message m) ∧
      ∃ j t st, ts_jobs s !! j = Some (mkJob t st) ∧ Sched.task_id t = id ∧ st ≠ JActive ∧ st ≠ JEnded (Ok tt)
  | TCancelled => is_Some (tm_completed_at m)
  end.
Definition meta_ok (s : TaskScheduler) : Prop := map_Forall (state_ok s) (ts_metadata s).

(** Jobs stay, and those that are over stay as they are. *)
Definition jobs_grow (s s' : TaskScheduler) : Prop := ∀ j t st,
  ts_jobs s !! j = Some (mkJob t st) → ∃ st', ts_jobs s' !! j = Some (mkJob t st') ∧ (st ≠ JActive → st' = st).

Lemma state_ok_grow s s' id m : jobs_grow s s' → state_ok s id m → state_ok s' id m.
Proof.
  intros Hg. unfold state_ok, job_of. destruct (tm_state m); try done.
  - intros (? & j & t & st & Hj & Hid). split; [done|]. destruct (Hg _ _ _ Hj) as (st' & ? & _). by exists j, t, st'.
  - intros (? & j & t & Hj & Hid). split; [done|]. destruct (Hg _ _ _ Hj) as (st' & Hj' & E). rewrite E in Hj' by done. by exists j, t.
  - intros (? & ? & j & t & st & Hj & Hid & H1 & H2). split_and!; [done..|].
    destruct (Hg _ _ _ Hj) as (st' & Hj' & E). rewrite E in Hj' by done. by exists j, t, st.
Qed.

Lemma jobs_grow_eq s s' : ts_jobs s' = ts_jobs s → jobs_grow s s'.
Proof. intros E j t st H. exists st. by rewrite E. Qed.

Lemma meta_ok_grow s s' : jobs_grow s s' → ts_metadata s' = ts_metadata s → meta_ok s → meta_ok s'.
Proof. intros Hg E H id m. rewrite E. intros Hm. apply (state_ok_grow s); [done|]. by apply H. Qed.

Lemma meta_ok_update s id f : (∀ m, ts_metadata s !! id = Some m → state_ok s id m → state_ok s id (f m)) → meta_ok s →
  meta_ok (Sched.update_meta id f s).
Proof.
  intros Hf H k m. unfold Sched.update_meta. sched_cbn. destruct (decide (k = id)) as [->|Hne].
  - rewrite lookup_alter_eq. intros (m0 & Hm & ->)%fmap_Some. apply Hf; [done|]. by apply H.
  - rewrite lookup_alter_ne by done. apply H.
Qed.

(** Updates after which the state is created, queued or cancelled need no job. *)
Lemma meta_ok_cancel s id f : (∀ m, tm_state (f m) = TCancelled ∧ is_Some (tm_completed_at (f m))) → meta_ok s →
  meta_ok (Sched.update_meta id f s).
Proof. intros Hf. apply meta_ok_update. intros m _ _. unfold state_ok. by destruct (Hf m) as [-> ?]. Qed.

Lemma meta_ok_same s s' : ts_jobs s' = ts_jobs s → ts_metadata s' = ts_metadata s → meta_ok s → meta_ok s'.
Proof. intros Hj. apply meta_ok_grow. by apply jobs_grow_eq. Qed.

Lemma meta_ok_drop now p s : meta_ok s → meta_ok (Sched.drop_back now p s).
Proof.
  intros H. unfold Sched.drop_back. destruct (last _) as [t|]; [|done].
  cbv zeta. set (s1 := Sched.set_queues _ s). assert (meta_ok s1) as H1 by done.
  eapply meta_ok_same; [| |apply (meta_ok_cancel s1 (Sched.task_id t)
    (fun m => Sched.with_error Sched.dropped_text (Sched.with_completed now (Sched.with_state TCancelled m)))); [|exact H1]]; done.
Qed.

Lemma meta_ok_reject now t s : meta_ok s → meta_ok (Sched.reject now t s).
Proof.
  intros H. unfold Sched.reject. eapply meta_ok_same; [| |apply (meta_ok_cancel s (Sched.task_id t)
    (fun m => Sched.with_error Sched.rejected_text (Sched.with_completed now (Sched.with_state TCancelled m))))]; done.
Qed.

Lemma meta_ok_push p t s : meta_ok s → meta_ok (Sched.push p t s).
Proof. by apply meta_ok_same. Qed.

Lemma meta_ok_enqueue p t s : meta_ok s → meta_ok (Sched.enqueue p t s).
Proof. intros H. apply meta_ok_update; [|by apply meta_ok_push]. by intros m _ _. Qed.

Lemma meta_ok_schedule now t s : meta_ok s → meta_ok (Sched.handle_schedule now t s).
Proof.
  intros H. unfold Sched.handle_schedule. cbv zeta. set (s1 := Sched.set_queues _ s). assert (meta_ok s1) as H1 by done.
  destruct (_ <=? _)%nat; [|by apply meta_ok_enqueue].
  destruct (overflow_policy _); [|case_bool_decide|]; auto using meta_ok_reject, meta_ok_enqueue, meta_ok_drop.
Qed.

Lemma meta_ok_insert s id m : tm_state m = TCreated → meta_ok s → meta_ok (Sched.set_metadata (<[id := m]> (ts_metadata s)) s).
Proof. intros Hm H. apply map_Forall_insert_2; [|done]. unfold state_ok. by rewrite Hm. Qed.

Lemma meta_ok_recurring now xs : ∀ s, Forall (fun x => tm_state (tk_metadata x.2) = TCreated) xs → meta_ok s →
  meta_ok (foldl (Sched.add_recurring now) s xs).
Proof.
  induction xs as [|x xs IH]; intros s Hx H; cbn [foldl]; [done|]. apply Forall_cons in Hx as [Hx Hxs]. apply IH; [done|].
  unfold Sched.add_recurring. cbv zeta. set (s1 := Sched.set_queues _ _).
  assert (meta_ok s1) as H1 by (eapply meta_ok_same; [| |by apply (meta_ok_insert s (Sched.task_id x.2))]; done).
  destruct (_ <=? _)%nat; [|by apply meta_ok_push].
  destruct (overflow_policy _); [|case_bool_decide|]; auto using meta_ok_push, meta_ok_drop.
Qed.

Lemma abort_grow j s : jobs_grow s (Sched.abort j s).
Proof.
  intros k t st Hk. unfold Sched.abort. destruct (ts_jobs s !! j) as [[t' []]|] eqn:E; [|by exists st..]. sched_cbn.
  destruct (decide (k = j)) as [->|Hne]; [|exists st; by rewrite list_lookup_insert_ne].
  rewrite list_lookup_insert_eq by (by apply lookup_lt_Some in E). assert (t' = t ∧ st = JActive) as [-> ->] by (split; congruence).
  by exists JAborted.
Qed.

Lemma abort_fixed j s : ts_metadata (Sched.abort j s) = ts_metadata s ∧ ts_recurring (Sched.abort j s) = ts_recurring s.
Proof. unfold Sched.abort. by destruct (ts_jobs s !! j) as [[? []]|]. Qed.

Lemma meta_ok_abort j s : meta_ok s → meta_ok (Sched.abort j s).
Proof. apply meta_ok_grow; [apply abort_grow|apply abort_fixed]. Qed.

Lemma meta_ok_handle_cancel now id s : meta_ok s → meta_ok (Sched.handle_cancel now id s).
Proof.
  intros H. unfold Sched.handle_cancel. cbv zeta. apply meta_ok_cancel; [done|].
  destruct (ts_running s !! id); [apply meta_ok_abort|]; done.
Qed.

Lemma meta_ok_cleanup now xs : ∀ s, meta_ok s → meta_ok (foldl (Sched.cleanup_one now) s xs).
Proof.
  induction xs as [|x xs IH]; intros s H; cbn [foldl]; [done|]. apply IH. apply meta_ok_cancel; [done|]. by apply meta_ok_abort.
Qed.

Lemma meta_ok_process now s : meta_ok s → meta_ok (Sched.process_scheduled_tasks now s).
Proof.
  intros H. unfold Sched.process_scheduled_tasks. destruct (ts_running_count s) as [|permits]; [done|].
  destruct (Sched.pop_first _ _) as [[t qs]|]; [|done]. cbv zeta. match goal with |- meta_ok ?x => set (s' := x) end.
  assert (jobs_grow s s') as Hg by (intros j t' st Hj; exists st; split; [by apply lookup_app_l_Some|done]).
  intros id m Hm. change (ts_metadata s') with
    (alter (fun m => Sched.with_started now (Sched.with_state TRunning m)) (Sched.task_id t) (ts_metadata s)) in Hm.
  destruct (decide (id = Sched.task_id t)) as [->|Hne].
  - rewrite lookup_alter_eq in Hm. apply fmap_Some in Hm as (m0 & Hm & ->). split; [done|]. exists (length (ts_jobs s)), t, JActive.
    split; [|done]. change (ts_jobs s') with (ts_jobs s ++ [mkJob t JActive]). by rewrite lookup_app_r, Nat.sub_diag.
  - rewrite lookup_alter_ne in Hm by done. apply (state_ok_grow s); [done|]. by apply H.
Qed.

(** A factory that makes fresh tasks, as those of the standard tasks do. *)
Definition makes_fresh (d : RecurringTaskDef) : Prop := ∀ u t, tm_state (tk_metadata (rd_factory d u t)) = TCreated.

Lemma instances_fresh uuid now ds : ∀ i, Forall makes_fresh ds →
  Forall (fun x => tm_state (tk_metadata x.2) = TCreated) (Sched.instances uuid now i ds).
Proof.
  induction ds as [|d ds IH]; intros i H; cbn [Sched.instances]; [constructor|]. apply Forall_cons in H as [Hd Hds].
  destruct (Sched.due now d); [constructor; [apply Hd|]|]; by apply IH.
Qed.

Lemma mark_fresh now ds : Forall makes_fresh (map (Sched.mark_executed now) ds) ↔ Forall makes_fresh ds.
Proof.
  rewrite Forall_map. apply Forall_proper; [|done]. intros d. unfold Sched.mark_executed. by destruct (Sched.due now d).
Qed.

Lemma cleanup_recurring now xs : ∀ s, ts_recurring (foldl (Sched.cleanup_one now) s xs) = ts_recurring s.
Proof.
  induction xs as [|x xs IH]; intros s; cbn [foldl]; [done|]. rewrite IH. unfold Sched.cleanup_one, Sched.update_meta. sched_cbn.
  apply abort_fixed.
Qed.

Lemma handle_recurring now msg s : ts_recurring (Sched.handle now msg s) = ts_recurring s.
Proof.
  destruct msg; cbn [Sched.handle]; [|unfold Sched.handle_cancel; cbv zeta|done].
  - by destruct (handle_schedule_step now task s) as (_ & _ & _ & _ & _ & _ & ->).
  - unfold Sched.update_meta. sched_cbn. destruct (ts_running s !! task_id); [|done]. by rewrite (proj2 (abort_fixed _ _)).
Qed.

Lemma step_fresh s x s' : Sched.step s x s' → Forall makes_fresh (ts_recurring s') → Forall makes_fresh (ts_recurring s).
Proof.
  destruct 1; try done.
  - unfold Sched.start. by rewrite H.
  - unfold Sched.schedule_with_context, mbind_st, mget, mmod, Sched.send. sched_cbn. by rewrite (proj2 (Nat.ltb_lt _ _)).
  - unfold Sched.cancel, Sched.send. by rewrite (proj2 (Nat.ltb_lt _ _)).
  - unfold Sched.shutdown, mbind_st, mget, Sched.send. rewrite (proj2 (Nat.ltb_lt _ _)) by done. sched_cbn. by destruct (ts_running_flag s).
  - cbn. intros H%Forall_app. by destruct H.
  - by rewrite process_recurring_same.
  - unfold Sched.process_recurring_tasks. cbv zeta. destruct (add_all_step now (Sched.instances uuid now 0 (ts_recurring s))
      (Sched.set_recurring (map (Sched.mark_executed now) (ts_recurring s)) s))
      as (_ & _ & _ & _ & _ & _ & ->). sched_cbn. by rewrite mark_fresh.
  - by rewrite handle_recurring.
  - by rewrite handle_recurring.
  - unfold Sched.cleanup. by rewrite cleanup_recurring.
  - unfold Sched.end_job. by destruct r.
Qed.

Lemma meta_ok_end s j t r duration : ts_jobs s !! j = Some (mkJob t JActive) → meta_ok s → meta_ok (Sched.end_job duration j t r s).
Proof.
  intros Hj. apply meta_ok_grow; [|by destruct r]. assert (ts_jobs (Sched.end_job duration j t r s) = <[j := mkJob t (JEnded r)]> (ts_jobs s)) as E
    by by destruct r. intros k t' st Hk. rewrite E. destruct (decide (k = j)) as [->|Hne].
  - rewrite list_lookup_insert_eq by (by apply lookup_lt_Some in Hj). assert (t' = t ∧ st = JActive) as [-> ->] by (split; congruence). by eexists.
  - rewrite list_lookup_insert_ne by done. by exists st.
Qed.

Lemma meta_ok_complete s id j t st detail now : ts_jobs s !! j = Some (mkJob t st) → Sched.task_id t = id → st ≠ JActive →
  meta_ok s → meta_ok (Sched.update_meta id (Sched.completion detail now st) s).
Proof.
  intros Hj Hid Hst. apply meta_ok_update. intros m _ _. unfold Sched.completion. cbv zeta.
  destruct st as [|[[]|e| |]|]; try done; unfold state_ok; cbn; (split; [done|]); try (split; [done|]).
  - by exists j, t.
  - by exists j, t, (JEnded (Err e)).
  - by exists j, t, (JEnded Panic).
  - by exists j, t, (JEnded Hang).
  - by exists j, t, JAborted.
Qed.

Lemma meta_ok_handle now msg s : meta_ok s → meta_ok (Sched.handle now msg s).
Proof. destruct msg; cbn [Sched.handle]; [by apply meta_ok_schedule|by apply meta_ok_handle_cancel|done]. Qed.

Lemma step_meta c l s x s' : sched_inv c l s → Forall makes_fresh (ts_recurring s) → Sched.step s x s' → meta_ok s → meta_ok s'.
Proof.
  intros Hinv Hf Hstep H. destruct Hstep; try done.
  - unfold Sched.start. by rewrite H0.
  - unfold Sched.schedule_with_context, mbind_st, mget, mmod, Sched.send. sched_cbn. rewrite (proj2 (Nat.ltb_lt _ _)) by done.
    cbn [snd]. set (id := (ty +:+ "-" +:+ uuid)%string). set (m := mkMeta id _ _ _ _ _ _ _ _ _ _ _ _).
    apply (meta_ok_same (Sched.set_metadata (<[id := m]> (ts_metadata s)) s)); [done..|]. by apply meta_ok_insert.
  - unfold Sched.cancel, Sched.send. by rewrite (proj2 (Nat.ltb_lt _ _)).
  - unfold Sched.shutdown, mbind_st, mget, Sched.send. rewrite (proj2 (Nat.ltb_lt _ _)) by done. sched_cbn. by destruct (ts_running_flag s).
  - by apply (meta_ok_process now).
  - unfold Sched.process_recurring_tasks. cbv zeta. apply meta_ok_recurring; [by apply instances_fresh|done].
  - by apply meta_ok_handle.
  - by apply meta_ok_handle.
  - unfold Sched.cleanup. by apply meta_ok_cleanup.
  - by apply meta_ok_end.
  - destruct (si_watchers _ _ _ Hinv id j) as (t' & st' & Hj & Hid); [rewrite H0; set_solver|].
    apply (meta_ok_complete (Sched.set_watchers (ws1 ++ ws2) s) id j t st); try done. congruence.
Qed.

Lemma run_meta c l s : Sched.run (Sched.new c) l s → Forall makes_fresh (ts_recurring s) → meta_ok s.
Proof.
  remember (Sched.new c) as s0. induction 1 as [s|s l s' l' s'' Hr IH Hs]; intros Hf; subst; [by apply map_Forall_empty|].
  pose proof (step_fresh _ _ _ Hs Hf) as Hf'. eapply step_meta; [by apply scheduler_run_inv|done|done|]. by apply IH.
Qed.

(** ** Lemmas: lengths of queues *)

Definition bounded (b : nat) (s : TaskScheduler) : Prop := ∀ p, (length (Sched.queue s p) ≤ b)%nat.

Lemma bounded_queues b s s' : ts_queues s' = ts_queues s → bounded b s → bounded b s'.
Proof. intros E H p. unfold Sched.queue. rewrite E. apply H. Qed.

Lemma bounded_insert b s p l : (length l ≤ b)%nat → bounded b s → bounded b (Sched.set_queues (<[p := l]> (ts_queues s)) s).
Proof. intros Hl H p'. rewrite queue_insert. case_decide; [done|apply H]. Qed.

Lemma bounded_drop now p b s : bounded b s → bounded b (Sched.drop_back now p s).
Proof.
  intros H. unfold Sched.drop_back. destruct (last (Sched.queue s p)) as [t|] eqn:E; [|done].
  apply (bounded_queues b (Sched.set_queues (<[p := removelast (Sched.queue s p)]> (ts_queues s)) s)); [done|].
  apply bounded_insert; [|done]. specialize (H p). apply last_removelast, (f_equal length) in E. rewrite length_app in E. cbn in E. lia.
Qed.

Lemma drop_back_length now p s : length (Sched.queue (Sched.drop_back now p s) p) = pred (length (Sched.queue s p)).
Proof.
  unfold Sched.drop_back. destruct (last (Sched.queue s p)) as [t|] eqn:E.
  - cbv zeta. change (length (Sched.queue (Sched.set_queues (<[p := removelast (Sched.queue s p)]> (ts_queues s)) s) p) = pred (length (Sched.queue s p))).
    rewrite queue_insert, decide_True by done. apply last_removelast, (f_equal length) in E. rewrite length_app in E. cbn in E. lia.
  - apply last_None in E. by rewrite E.
Qed.

(** The bound that an overflow policy keeps; the policy [DropLowest] keeps none. *)
Definition queue_bound (c : TaskSchedulerConfig) : nat :=
  match overflow_policy c with RejectNew => max_queue_size c | _ => Nat.max 1 (max_queue_size c) end.

Section Bound.
Context (c : TaskSchedulerConfig).

Lemma bounded_push p t s : (length (Sched.queue s p) < queue_bound c)%nat → bounded (queue_bound c) s →
  bounded (queue_bound c) (Sched.push p t s).
Proof. intros Hl H. apply bounded_insert; [rewrite length_app; cbn; lia|done]. Qed.

Lemma bounded_enqueue p t s : (length (Sched.queue s p) < queue_bound c)%nat → bounded (queue_bound c) s →
  bounded (queue_bound c) (Sched.enqueue p t s).
Proof. apply bounded_push. Qed.

(** Room after the oldest policy's drop. *)
Lemma drop_room now p s : overflow_policy c = DropOldest → bounded (queue_bound c) s →
  (length (Sched.queue (Sched.drop_back now p s) p) < queue_bound c)%nat.
Proof. intros Ho H. rewrite drop_back_length. specialize (H p). unfold queue_bound in *. rewrite Ho in *. lia. Qed.

Lemma room p s : (max_queue_size c <=? length (Sched.queue s p))%nat = false → (length (Sched.queue s p) < queue_bound c)%nat.
Proof. intros H%Nat.leb_gt. unfold queue_bound. destruct (overflow_policy c); lia. Qed.

Lemma bounded_schedule now t s : overflow_policy c ≠ DropLowest → ts_config s = c → bounded (queue_bound c) s → bounded (queue_bound c) (Sched.handle_schedule now t s).
Proof.
  intros Hpol Hc H. unfold Sched.handle_schedule. cbv zeta. set (p := tm_priority (tk_metadata t)).
  set (s1 := Sched.set_queues _ s). assert (bounded (queue_bound c) s1) as H1 by (apply bounded_insert; [apply H|done]).
  change (ts_config s1) with (ts_config s). rewrite Hc. destruct (_ <=? _)%nat eqn:E; [|by apply bounded_enqueue; [apply room|]].
  destruct (overflow_policy c) eqn:Ho; [by apply (bounded_queues _ s1)|done|].
  apply bounded_enqueue; [by apply drop_room|by apply bounded_drop].
Qed.

Lemma bounded_recurring now xs : overflow_policy c ≠ DropLowest → ∀ s, ts_config s = c → bounded (queue_bound c) s →
  bounded (queue_bound c) (foldl (Sched.add_recurring now) s xs).
Proof.
  intros Hpol. induction xs as [|x xs IH]; intros s Hc H; cbn [foldl]; [done|].
  apply IH; [destruct (add_recurring_step now s x) as (_ & _ & _ & -> & _); done|].
  unfold Sched.add_recurring. cbv zeta. set (s1 := Sched.set_queues _ _). change (ts_config s1) with (ts_config s). rewrite Hc.
  assert (bounded (queue_bound c) s1) as H1 by (apply bounded_insert; [apply H|done]).
  destruct (_ <=? _)%nat eqn:E; [|by apply bounded_push; [apply room|]].
  destruct (overflow_policy c) eqn:Ho; [done|done|]. apply bounded_push; [by apply drop_room|by apply bounded_drop].
Qed.

Lemma abort_queues j s : ts_queues (Sched.abort j s) = ts_queues s.
Proof. unfold Sched.abort. by destruct (ts_jobs s !! j) as [[? []]|]. Qed.

Lemma cleanup_queues now xs : ∀ s, ts_queues (foldl (Sched.cleanup_one now) s xs) = ts_queues s.
Proof.
  induction xs as [|x xs IH]; intros s; cbn [foldl]; [done|]. rewrite IH. unfold Sched.cleanup_one, Sched.update_meta. sched_cbn. apply abort_queues.
Qed.

Lemma bounded_process now s : bounded (queue_bound c) s → bounded (queue_bound c) (Sched.process_scheduled_tasks now s).
Proof.
  intros H. unfold Sched.process_scheduled_tasks. destruct (ts_running_count s); [done|].
  pose proof (pop_first_spec [Critical; High; Normal; Low] (ts_queues s)) as Hpop.
  destruct (Sched.pop_first _ _) as [[t qs]|]; [|done]. destruct Hpop as (ps1 & p & ps2 & q & _ & Hq & -> & _).
  apply (bounded_queues _ (Sched.set_queues (<[p := q]> (ts_queues s)) s)); [done|]. apply bounded_insert; [|done].
  specialize (H p). unfold Sched.queue in H. rewrite Hq in H. cbn in H. lia.
Qed.

Lemma bounded_handle now msg s : overflow_policy c ≠ DropLowest → ts_config s = c → bounded (queue_bound c) s →
  bounded (queue_bound c) (Sched.handle now msg s).
Proof.
  intros Hpol Hc H. destruct msg; cbn [Sched.handle]; [by apply bounded_schedule| |by apply (bounded_queues _ s)].
  apply (bounded_queues _ s); [|done]. unfold Sched.handle_cancel, Sched.update_meta. sched_cbn.
  destruct (ts_running s !! task_id); [by rewrite abort_queues|done].
Qed.

Lemma bounded_step s x s' : overflow_policy c ≠ DropLowest → ts_config s = c → bounded (queue_bound c) s → Sched.step s x s' → bounded (queue_bound c) s'.
Proof.
  intros Hpol Hc H Hstep. destruct Hstep; try done.
  - unfold Sched.start. rewrite H0. intros p. unfold Sched.queue. cbn [snd]. sched_cbn. destruct p; simplify_map_eq; cbn; lia.
  - unfold Sched.schedule_with_context, mbind_st, mget, mmod, Sched.send. sched_cbn. rewrite (proj2 (Nat.ltb_lt _ _)) by done. by apply (bounded_queues _ s).
  - unfold Sched.cancel, Sched.send. rewrite (proj2 (Nat.ltb_lt _ _)) by done. by apply (bounded_queues _ s).
  - unfold Sched.shutdown, mbind_st, mget, Sched.send. rewrite (proj2 (Nat.ltb_lt _ _)) by done. sched_cbn.
    destruct (ts_running_flag s); by apply (bounded_queues _ s).
  - by apply bounded_process.
  - by apply bounded_recurring.
  - by apply bounded_handle.
  - by apply bounded_handle.
  - apply (bounded_queues _ s); [|done]. unfold Sched.cleanup. by rewrite cleanup_queues.
  - apply (bounded_queues _ s); [|done]. unfold Sched.end_job. by destruct r.
Qed.
End Bound.

Definition standard (name ty : string) (p : TaskPriority) (interval : Z) : RecurringTaskDef :=
  mkRecurring name ty p interval None (EpTasks.factory name ty p).

Definition rank (p : TaskPriority) : nat := match p with Low => 0 | Normal => 1 | High => 2 | Critical => 3 end.

(** ** Properties *)

(** C16: the scheduler neither loses nor duplicates work and keeps its limit: in
    every state it can reach, by whatever interleaving of its interface (the public
    processing and handling methods included), its loop, the tasks and their
    watchers, each task it received is in exactly one of a job,
    a queue and the discarded ones, and the permits left and the tasks that run add
    up to the configured number of concurrent tasks. *)
Theorem scheduler_conserves_tasks (c : TaskSchedulerConfig) (received : list Task) (s : TaskScheduler) :
  Sched.run (Sched.new c) received s →
  received ≡ₚ (jb_task <$> ts_jobs s) ++ Sched.queued s ++ ts_discarded s ∧
  (ts_running_count s + active (ts_jobs s))%nat = max_concurrent_tasks c.
Proof. intros H. by destruct (scheduler_run_inv c received s H). Qed.

(** C27: the recorded state of a task tells the truth about its executions: in every
    reachable state, with recurring tasks made fresh, a task recorded as running
    has a job, one recorded as completed has a job that ended well, one recorded as
    failed has a job that ended otherwise and an error message; so waiting for a
    task returns without error only when it was executed successfully. *)
Theorem task_states_sound (c : TaskSchedulerConfig) (received : list Task) (s : TaskScheduler) (id : string) :
  Sched.run (Sched.new c) received s → Forall makes_fresh (ts_recurring s) →
  match ts_metadata s !! id with Some m => state_ok s id m | None => True end ∧
  (Sched.wait_for_task s id = Ok tt → ∃ j t, ts_jobs s !! j = Some (mkJob t (JEnded (Ok tt))) ∧ Sched.task_id t = id).
Proof.
  intros Hr Hf. pose proof (run_meta c received s Hr Hf) as H. unfold Sched.wait_for_task, Sched.poll.
  destruct (ts_metadata s !! id) as [m|] eqn:E; [|done]. specialize (H id m E). split; [done|].
  unfold state_ok in H. destruct (tm_state m); try done. intros _. apply H.
Qed.

(** The next task is the oldest of the highest priority: a tick starts at most
    one task; with a permit and a queued task it starts the head of a queue above
    which all queues are empty, and removes just that one; otherwise it changes
    nothing. *)
Theorem highest_priority_first (now : Z) (s : TaskScheduler) :
  let s' := Sched.process_scheduled_tasks now s in
  if decide (ts_running_count s = 0%nat ∨ Sched.queued s = []) then s' = s
  else ∃ p t q, Sched.queue s p = t :: q ∧ (∀ p', (rank p < rank p')%nat → Sched.queue s p' = []) ∧
    (∀ p', Sched.queue s' p' = if decide (p' = p) then q else Sched.queue s p') ∧
    ts_jobs s' = ts_jobs s ++ [mkJob t JActive] ∧ S (ts_running_count s') = ts_running_count s ∧ ts_discarded s' = ts_discarded s.
Proof.
  cbv zeta. unfold Sched.process_scheduled_tasks. pose proof (pop_first_spec [Critical; High; Normal; Low] (ts_queues s)) as Hpop.
  destruct (Sched.pop_first _ _) as [[t qs]|].
  - destruct Hpop as (ps1 & p & ps2 & q & Hps & Hq & -> & Hhigh). assert (Sched.queue s p = t :: q) as Hp by (unfold Sched.queue; by rewrite Hq).
    assert (Sched.queued s ≠ []) as Hne.
    { unfold Sched.queued. destruct p; rewrite Hp; intros H; apply (f_equal length) in H; rewrite !length_app in H; cbn in H; lia. }
    case_decide as Hd; destruct (ts_running_count s) as [|permits]; [done|naive_solver|naive_solver|].
    exists p, t, q. split_and!; try done.
    + intros p' Hr. apply Hhigh. destruct ps1 as [|p1 [|p2 [|p3 [|p4 ps1]]]]; cbn in Hps; simplify_eq; destruct p'; cbn in Hr; try lia; set_solver.
    + intros p'. apply (queue_insert s p p' q).
  - assert (Sched.queued s = []) as He by (unfold Sched.queued, Sched.queue; rewrite !Hpop by set_solver; done).
    rewrite decide_True by by right. by destruct (ts_running_count s).
Qed.

(** Queues stay within the configured size when new tasks are rejected, and
    within that size or one, whichever is more, when tasks are dropped from the same
    queue. *)
Theorem queues_bounded (c : TaskSchedulerConfig) (received : list Task) (s : TaskScheduler) (p : TaskPriority) :
  overflow_policy c ≠ DropLowest → Sched.run (Sched.new c) received s → (length (Sched.queue s p) ≤ queue_bound c)%nat.
Proof.
  intros Hpol Hr. revert p. change (bounded (queue_bound c) s). remember (Sched.new c) as s0.
  induction Hr as [s|s l s' l' s'' Hr IH Hs]; subst; [intros p; unfold Sched.queue; cbn; rewrite lookup_empty; cbn; lia|].
  eapply (bounded_step c s'); [done|by destruct (scheduler_run_inv c l s' Hr)|by apply IH|done].
Qed.

(** Cancelling does not stop a task: unless its handle is still in the table,
    a cancellation leaves jobs, queues and permits alone; a queued task that was
    cancelled is started when its turn comes, and is recorded as running again. *)
Theorem cancel_does_not_stop (s : TaskScheduler) (now now' : Z) (t : Task) (q : list Task) (m : TaskMetadata) (permits : nat) :
  ts_running s !! Sched.task_id t = None → ts_queues s !! Critical = Some (t :: q) → ts_running_count s = S permits →
  ts_metadata s !! Sched.task_id t = Some m →
  let s1 := Sched.handle_cancel now (Sched.task_id t) s in
  let s2 := Sched.process_scheduled_tasks now' s1 in
  (tm_state <$> ts_metadata s1 !! Sched.task_id t) = Some TCancelled ∧
  ts_jobs s1 = ts_jobs s ∧ ts_queues s1 = ts_queues s ∧ ts_running_count s1 = ts_running_count s ∧
  ts_jobs s2 = ts_jobs s ++ [mkJob t JActive] ∧ (tm_state <$> ts_metadata s2 !! Sched.task_id t) = Some TRunning.
Proof.
  intros Hr Hq Hp Hm. cbv zeta. unfold Sched.handle_cancel. rewrite Hr. cbv zeta. unfold Sched.update_meta. sched_cbn.
  unfold Sched.process_scheduled_tasks. sched_cbn. rewrite Hp. cbn [Sched.pop_first]. rewrite Hq. sched_cbn.
  rewrite !lookup_alter_eq, Hm. done.
Qed.

(** The standard tasks are registered once: registering them on a fresh manager
    adds the five definitions, registering again changes nothing; all five are due
    at once, and after an execution none is due again before its period is over. *)
Theorem standard_tasks_once (node : string) (s : TaskScheduler) (now now' : Z) :
  let e := (EpTasks.register_standard_tasks (EpTasks.new node s)).2 in
  EpTasks.register_standard_tasks (EpTasks.new node s) = (Ok tt, e) ∧
  (EpTasks.register_standard_tasks e) = (Ok tt, e) ∧
  ∃ ds, ts_recurring (et_scheduler e) = ts_recurring s ++ ds ∧
    map rd_interval_ms ds = [5000; 60000; 30000; 15000; 3600000] ∧
    Forall (fun d => makes_fresh d ∧ Sched.due now d = true ∧
      (now ≤ now' < now + rd_interval_ms d * 1000000 → Sched.due now' (Sched.mark_executed now d) = false)) ds.
Proof.
  cbv zeta. split; [reflexivity|]. split; [reflexivity|]. eexists. split; [|split].
  - transitivity (((((ts_recurring s ++ [standard "Gossip Protocol" "gossip" Normal 5000]) ++ [standard "Anti-Entropy Protocol" "anti-entropy" Normal 60000])
      ++ [standard "Topology Update" "topology-update" Normal 30000]) ++ [standard "Health Check" "health-check" Normal 15000])
      ++ [standard "Storage Pruning" "pruning" Low 3600000]); [reflexivity|]. rewrite <- !app_assoc. reflexivity.
  - reflexivity.
  - assert (∀ n ty p i f, (∀ u t, tm_state (tk_metadata (f u t)) = TCreated) → let d := mkRecurring n ty p i None f in
      makes_fresh d ∧ Sched.due now d = true ∧ (now ≤ now' < now + rd_interval_ms d * 1000000 → Sched.due now' (Sched.mark_executed now d) = false)) as H.
    { intros n ty p i f Hf d. split_and!; [done|done|]. intros Hn. cbn in Hn. cbn. apply Z.leb_gt.
      apply Z.div_lt_upper_bound; lia. }
    cbn [app]. repeat (apply Forall_cons; split; [by apply H|]). constructor.
Qed.

(** ** Witnesses *)

Module TasksWitness.

(** A task scheduled, received, started, ended, and recorded as completed. *)
Definition meta : TaskMetadata := mkMeta "t-u" "n" "t" Critical TCreated 5 None None None [] 0 3 ∅.
Definition task : Task := mkTask meta (Ok tt) (Some 0%nat) None.
Definition started := (Sched.start (Sched.new Sched.default_config)).2.
Definition sent := (Sched.schedule_with_context "u" 5 "n" "t" Critical ∅ (Ok tt) 0 started).2.
Definition received := Sched.handle 6 (Schedule task) (Sched.set_control [] sent).
Definition started_job := Sched.process_scheduled_tasks 7 received.
Definition ticked := Sched.process_recurring_tasks (fun _ => "v"%string) 7 started_job.
Definition ended := Sched.end_job 1 0 task (Ok tt) ticked.
Definition taken := Sched.set_running (delete "t-u"%string (ts_running ended)) (Sched.set_watchers ([] ++ [WHolding "t-u" 0] ++ []) ended).
Definition done_ := Sched.update_meta "t-u" (Sched.completion "" 9 (JEnded (Ok tt))) (Sched.set_watchers ([] ++ []) taken).

Lemma received_run : Sched.run (Sched.new Sched.default_config) [task] received.
Proof.
  apply (Sched.run_step _ [] sent [task]).
  - apply (Sched.run_step _ [] started []).
    + apply (Sched.run_step _ [] (Sched.new Sched.default_config) []); [constructor|]. by apply Sched.step_start.
    + apply Sched.step_schedule. cbn. lia.
  - by apply (Sched.step_message sent 6 (Schedule task) []); [vm_compute; lia..|vm_compute].
Qed.

Lemma done_run : Sched.run (Sched.new Sched.default_config) [task] done_.
Proof.
  apply (Sched.run_step _ [task] taken []).
  - apply (Sched.run_step _ [task] ended []).
    + apply (Sched.run_step _ [task] ticked []).
      * apply (Sched.run_step _ [task] started_job []); [|exact (Sched.step_recurring started_job 7 (fun _ => "v"%string))].
        apply (Sched.run_step _ [task] received []); [apply received_run|apply Sched.step_scheduled].
      * apply Sched.step_end; [vm_compute; reflexivity|left; done].
    + by apply (Sched.step_take ended "t-u" [] []).
  - by apply (Sched.step_complete taken "t-u" 0 task (JEnded (Ok tt)) "" 9 [] []).
Qed.

Lemma scheduler_conserves_tasks_witness : [task] ≡ₚ (jb_task <$> ts_jobs done_) ++ Sched.queued done_ ++ ts_discarded done_.
Proof. apply (scheduler_conserves_tasks Sched.default_config [task] done_). exact done_run. Defined.

Lemma task_states_sound_witness :
  Sched.wait_for_task done_ "t-u" = Ok tt ∧ ∃ j t, ts_jobs done_ !! j = Some (mkJob t (JEnded (Ok tt))) ∧ Sched.task_id t = "t-u"%string.
Proof.
  assert (Sched.wait_for_task done_ "t-u" = Ok tt) as Hw by (vm_compute; reflexivity). split; [exact Hw|].
  apply (task_states_sound Sched.default_config [task] done_ "t-u"); [exact done_run| |exact Hw].
  replace (ts_recurring done_) with (@nil RecurringTaskDef) by (vm_compute; reflexivity). constructor.
Defined.

Lemma queues_bounded_witness : (length (Sched.queue received Critical) ≤ 1000)%nat.
Proof. apply (queues_bounded Sched.default_config [task] received Critical); [discriminate|exact received_run]. Defined.

Lemma cancel_does_not_stop_witness :
  (tm_state <$> ts_metadata (Sched.process_scheduled_tasks 8 (Sched.handle_cancel 7 "t-u" received)) !! "t-u"%string) = Some TRunning.
Proof.
  apply (cancel_does_not_stop received 7 8 task [] (Sched.with_state TQueued meta) 9); vm_compute; reflexivity.
Defined.

End TasksWitness.
