(* ===== verification/Routing.v ===== *)
(** * Routing over the topology (dsm_storage_node/src/storage/routing.rs)

    The routing table of a node: known entries, the cache of routes, failed links,
    the strategies that choose a next hop, and the breadth-first search for a route
    over the neighbours that the topology suggests.  The topology is read only
    here; its iteration orders and the random choice are arguments.  Instants are
    nanoseconds. *)
From S2P Require Import Prelude NodeTypes Float Keys Hexa Topology.

(** ** Data *)

Record RoutingEntry := mkRoutingEntry {
  re_node : StorageNode;
  re_cost : Z;
  re_distance : Distance;
  re_next_hop : option StorageNode;
  re_last_updated : Z;
  re_success_count : Z;
  re_failure_count : Z;
}.

Inductive RoutingStrategy := Greedy | Perimeter | Probabilistic | Hybrid.

Record RoutingTable := mkTable {
  rt_self_id : NodeId;
  rt_entries : gmap NodeId RoutingEntry;
  rt_route_cache : gmap NodeId (list StorageNode);
  rt_failed_routes : gmap (NodeId * NodeId) Z;
  rt_strategy : RoutingStrategy;
  rt_max_cache_size : nat;
  rt_max_cache_age : Z;
  rt_topology : HybridTopology;
}.

Record EpidemicRouter := mkRouter {
  er_self_id : NodeId;
  er_table : RoutingTable;
  er_strategy : RoutingStrategy;
  er_max_hops : nat;
}.

(** The iteration of a [DashMap] keyed by node identifiers. *)
Class NodeOrder := {
  node_iter : ∀ {A}, gmap NodeId A → list (NodeId * A);
  node_iter_perm : ∀ {A} (m : gmap NodeId A), node_iter m ≡ₚ map_to_list m;
}.

Module Route.

(** ** Conversions *)

Section Conversions.
Context {HX : Hex}.

(** [NodeId::from(&StorageNode)]: an identifier that does not parse panics. *)
Definition node_id_of (n : StorageNode) : nout NodeId :=
  match Id.from_string (sn_id n) with Ok i => Ok i | _ => Panic end.

(** [StorageNode::from(&NodeInfo)] *)
Definition storage_node (n : NodeInfo) : StorageNode :=
  let id := Id.to_string (n_id n) in
  mkNodeInfo id ("Node " +:+ id) (match n_region n with Some r => pretty r | None => "unknown" end) "key-placeholder" (n_address n).

End Conversions.

(** ** Field updates *)

Definition set_entries m t := mkTable (rt_self_id t) m (rt_route_cache t) (rt_failed_routes t) (rt_strategy t)
  (rt_max_cache_size t) (rt_max_cache_age t) (rt_topology t).
Definition set_cache m t := mkTable (rt_self_id t) (rt_entries t) m (rt_failed_routes t) (rt_strategy t)
  (rt_max_cache_size t) (rt_max_cache_age t) (rt_topology t).
Definition set_failed m t := mkTable (rt_self_id t) (rt_entries t) (rt_route_cache t) m (rt_strategy t)
  (rt_max_cache_size t) (rt_max_cache_age t) (rt_topology t).

Definition new (id : NodeId) (topology : HybridTopology) (s : RoutingStrategy) : RoutingTable :=
  mkTable id ∅ ∅ ∅ s 1000 (300 * 1000000000) topology.

Section Table.
Context {B3 : Blake3} {HX : Hex} {NO : NodeOrder}.

(** Entries of the cache that satisfy a test are collected, then removed. *)
Definition uncache (f : NodeId → list StorageNode → bool) (t : RoutingTable) : RoutingTable :=
  set_cache (filter (fun p => f p.1 p.2 = false) (rt_route_cache t)) t.

Definition update_entry (instant : Z) (node : StorageNode) (cost : Z) (next_hop : option StorageNode) : NM RoutingTable unit := fun t =>
  match node_id_of node with
  | Ok id =>
      if bool_decide (id = rt_self_id t) then (Ok tt, t)
      else
        let e := mkRoutingEntry node cost (Id.xor_distance (rt_self_id t) id) next_hop instant 0 0 in
        let t := set_entries (<[id := e]> (rt_entries t)) t in
        (Ok tt, uncache (fun _ r => existsb (fun n => bool_decide (sn_id n = sn_id node)) r) t)
  | _ => (Panic, t)
  end.

(** ** Strategies *)

Definition greedy_routing (t : RoutingTable) (target : NodeId) : nout (option StorageNode) :=
  closest ← Topo.find_closest_nodes (rt_topology t) target 1;
  Ok (storage_node <$> head closest).

Definition link_failed (t : RoutingTable) (a b : NodeId) : bool := bool_decide (is_Some (rt_failed_routes t !! (a, b))).

(** The test of [retain]: nearer to the target than we are, and not a failed link. *)
Definition usable (t : RoutingTable) (target : NodeId) (n : NodeInfo) : bool :=
  match Id.dist_cmp (Id.xor_distance (n_id n) target) (Id.xor_distance (rt_self_id t) target) with
  | Lt => negb (link_failed t (rt_self_id t) (n_id n))
  | _ => false
  end.
Definition perimeter_routing (t : RoutingTable) (target : NodeId) : nout (option StorageNode) :=
  closest ← Topo.find_closest_nodes (rt_topology t) target 5;
  match List.filter (usable t target) closest with
  | n :: _ => Ok (Some (storage_node n))
  | [] => greedy_routing t target
  end.

(** [choice] is the index that the generator draws below the length it is given. *)
Definition probabilistic_routing (choice : nat → nat) (t : RoutingTable) (target : NodeId) : nout (option StorageNode) :=
  closest ← Topo.find_closest_nodes (rt_topology t) target 3;
  Ok (storage_node <$> closest !! choice (length closest)).

Definition hybrid_routing (t : RoutingTable) (target : NodeId) : nout (option StorageNode) :=
  greedy ← greedy_routing t target;
  match greedy with
  | Some n =>
      id ← node_id_of n;
      if link_failed t (rt_self_id t) id then perimeter_routing t target else Ok greedy
  | None => Ok None
  end.

Definition find_next_hop (choice : nat → nat) (t : RoutingTable) (target : NodeId) : nout (option StorageNode) :=
  match rt_entries t !! target with
  | Some e => Ok (Some (match re_next_hop e with Some h => h | None => re_node e end))
  | None =>
      match rt_route_cache t !! target with
      | Some (h :: _) => Ok (Some h)
      | _ =>
          match rt_strategy t with
          | Greedy => greedy_routing t target
          | Perimeter => perimeter_routing t target
          | Probabilistic => probabilistic_routing choice t target
          | Hybrid => hybrid_routing t target
          end
      end
  end.

(** ** The search for a route *)

Definition get_node_neighbors (node : StorageNode) (topology : HybridTopology) : nout (list StorageNode) :=
  id ← node_id_of node;
  closest ← Topo.find_closest_nodes topology id 5;
  Ok (map storage_node closest).

(** The neighbours the loop looks at for one node, with their identifiers; a node
    the topology does not know is skipped. *)
Definition successors (topology : HybridTopology) (current : NodeId) : nout (list (NodeId * StorageNode)) :=
  match Topo.get_node topology current with
  | None => Ok []
  | Some n =>
      ns ← get_node_neighbors (storage_node n) topology;
      mapM (fun s => i ← node_id_of s; Ok (i, s)) ns
  end.

End Table.

(** Visited nodes, queue and paths of the search. *)
Record Search := mkSearchState {
  visited : gset NodeId;
  sq : list NodeId;
  paths : gmap NodeId (list StorageNode);
}.

Section Bfs.
Context (succ : NodeId → nout (list (NodeId * StorageNode))) (failed : NodeId → NodeId → bool)
  (target : NodeId) (max_hops : nat).

(** One turn of the inner loop. *)
Definition visit (current : NodeId) (path : list StorageNode) (s : Search) (x : NodeId * StorageNode) : Search :=
  if bool_decide (x.1 ∈ visited s) then s
  else if failed current x.1 then s
  else mkSearchState ({[x.1]} ∪ visited s) (sq s ++ [x.1]) (<[x.1 := path ++ [x.2]]> (paths s)).

(** The loop over the queue; [Hang] is a search longer than [fuel]. *)
Fixpoint bfs (fuel : nat) (s : Search) : nout (option (list StorageNode)) :=
  match fuel with
  | O => Hang
  | S fuel =>
      match sq s with
      | [] => Ok None
      | current :: q =>
          let s := mkSearchState (visited s) q (paths s) in
          if bool_decide (current = target) then Ok (paths s !! current)
          else
            match paths s !! current with
            | None => bfs fuel s
            | Some path =>
                if (max_hops <=? length path)%nat then bfs fuel s
                else
                  ns ← succ current;
                  bfs fuel (foldl (visit current path) s ns)
            end
      end
  end.
End Bfs.

Section Routes.
Context {B3 : Blake3} {HX : Hex} {NO : NodeOrder}.

(** The two loops that fill the queue. *)
Definition start_neighbor (s : Search) (n : NodeInfo) : Search :=
  mkSearchState ({[n_id n]} ∪ visited s) (sq s ++ [n_id n]) (<[n_id n := [storage_node n]]> (paths s)).
Definition start_link (s : Search) (n : NodeInfo) : Search :=
  if bool_decide (n_id n ∈ visited s) then s else start_neighbor s n.
Definition initial (topology : HybridTopology) : Search :=
  foldl start_link (foldl start_neighbor (mkSearchState ∅ [] ∅) (Topo.immediate_neighbors topology)) (Topo.long_links topology).

(** All the places of the topology that hold nodes. *)
Definition known (topology : HybridTopology) : list NodeInfo :=
  mjoin (routing_buckets topology) ++ long_range_connections topology ++ reputation_connections topology.
Definition fuel_for (topology : HybridTopology) : nat := S (length (sq (initial topology)) + length (known topology)).

Definition calculate_route (t : RoutingTable) (target : NodeId) (max_hops : nat) : nout (option (list StorageNode)) :=
  match rt_entries t !! target with
  | Some e => Ok (Some (match re_next_hop e with Some h => [h; re_node e] | None => [re_node e] end))
  | None =>
      bfs (successors (rt_topology t)) (link_failed t) target max_hops (fuel_for (rt_topology t)) (initial (rt_topology t))
  end.

(** ** The cache *)

(** Older than the maximal age, or without an entry. *)
Definition stale (instant : Z) (t : RoutingTable) (key : NodeId) : bool :=
  match rt_entries t !! key with
  | Some e => rt_max_cache_age t <? Z.max 0 (instant - re_last_updated e)
  | None => true
  end.
Definition oldest_first : list (NodeId * RoutingEntry) → list (NodeId * RoutingEntry) :=
  stable_sort (fun a b => re_last_updated a.2 <=? re_last_updated b.2).
Definition prune_cache (instant : Z) : NM RoutingTable unit := fun t =>
  let t := uncache (fun k _ => stale instant t k) t in
  if (rt_max_cache_size t <? size (rt_route_cache t))%nat then
    let es := oldest_first (node_iter (rt_entries t)) in
    let half := (rt_max_cache_size t / 2)%nat in
    if (length es <? half)%nat then (Panic, t)
    else (Ok tt, set_cache (foldl (fun m e => delete e.1 m) (rt_route_cache t) (take (length es - half) es)) t)
  else (Ok tt, t).

(** The part of [find_route] after a miss. *)
Definition search_and_cache (instant : Z) (target : NodeId) (max_hops : nat) : NM RoutingTable (option (list StorageNode)) :=
  let* t := mget in
  let* route := mlift (calculate_route t target max_hops) in
  match route with
  | None => mret_st None
  | Some r =>
      do* (if negb (bool_decide (r = [])) && (length r <=? max_hops)%nat then
             do* mmod (fun t => set_cache (<[target := r]> (rt_route_cache t)) t);
             let* t := mget in
             if (rt_max_cache_size t <? size (rt_route_cache t))%nat then prune_cache instant else mret_st tt
           else mret_st tt);
      mret_st (Some r)
  end.
Definition find_route (instant : Z) (target : NodeId) (max_hops : nat) : NM RoutingTable (option (list StorageNode)) :=
  let* t := mget in
  match rt_route_cache t !! target with
  | Some r =>
      if negb (bool_decide (r = [])) && (length r <=? max_hops)%nat then mret_st (Some r)
      else search_and_cache instant target max_hops
  | None => search_and_cache instant target max_hops
  end.

(** ** Failures *)

(** Whether a cached route uses the link, in either direction; the identifiers of
    its nodes are parsed pair by pair until the link is found. *)
Fixpoint uses_link (a b : NodeId) (r : list StorageNode) : nout bool :=
  match r with
  | x :: (y :: _) as r' =>
      i ← node_id_of x;
      j ← node_id_of y;
      if (bool_decide (i = a) && bool_decide (j = b)) || (bool_decide (i = b) && bool_decide (j = a)) then Ok true
      else uses_link a b r'
  | _ => Ok false
  end.
(** The keys of the cached routes that use the link. *)
Fixpoint routes_using (a b : NodeId) (l : list (NodeId * list StorageNode)) : nout (list NodeId) :=
  match l with
  | [] => Ok []
  | (k, r) :: l =>
      u ← uses_link a b r;
      ks ← routes_using a b l;
      Ok (if (u : bool) then k :: ks else ks)
  end.

Definition u32_incr (n : Z) : nout Z := if n + 1 <=? 2 ^ 32 - 1 then Ok (n + 1) else Panic.

Definition mark_route_failed (instant : Z) (from to : NodeId) : NM RoutingTable unit :=
  do* mmod (fun t => set_failed (<[(from, to) := instant]> (rt_failed_routes t)) t);
  let* t := mget in
  let* ks := mlift (routes_using from to (node_iter (rt_route_cache t))) in
  do* mmod (fun t => set_cache (foldl (fun m k => delete k m) (rt_route_cache t) ks) t);
  let* t := mget in
  match rt_entries t !! to with
  | Some e =>
      let* n := mlift (u32_incr (re_failure_count e)) in
      mmod (fun t => set_entries (<[to := mkRoutingEntry (re_node e) (re_cost e) (re_distance e) (re_next_hop e)
        (re_last_updated e) (re_success_count e) n]> (rt_entries t)) t)
  | None => mret_st tt
  end.

Definition mark_route_success (to : NodeId) : NM RoutingTable unit :=
  let* t := mget in
  do* (match rt_entries t !! to with
       | Some e =>
           let* n := mlift (u32_incr (re_success_count e)) in
           mmod (fun t => set_entries (<[to := mkRoutingEntry (re_node e) (re_cost e) (re_distance e) (re_next_hop e)
             (re_last_updated e) n (re_failure_count e)]> (rt_entries t)) t)
       | None => mret_st tt
       end);
  mmod (fun t => set_failed (filter (fun p => p.1.2 ≠ to) (rt_failed_routes t)) t).

(** ** Responsible nodes *)

Definition find_responsible_nodes (t : RoutingTable) (key : bytes) (count : Z) : nout (list StorageNode) :=
  let key_hash := Id.calculate_key_hash (default ""%string (from_utf8 key)) in
  let target := match Id.from_string (Id.to_string key_hash) with Ok i => i | _ => rt_self_id t end in
  closest ← Topo.find_closest_nodes (rt_topology t) target count;
  Ok (map storage_node closest).
Definition find_responsible_nodes_for_id (t : RoutingTable) (id : string) (count : Z) : nout (list StorageNode) :=
  find_responsible_nodes t (str_bytes id) count.

End Routes.
End Route.

(** ** [EpidemicRouter] *)

Module Router.
Section Router.
Context {B3 : Blake3} {HX : Hex} {NO : NodeOrder}.

(** The table is created with the greedy strategy, whatever strategy is given. *)
Definition new (id : NodeId) (topology : HybridTopology) (s : RoutingStrategy) (max_hops : nat) : EpidemicRouter :=
  mkRouter id (Route.new id topology Greedy) s max_hops.

Definition on_table {A} (m : NM RoutingTable A) : NM EpidemicRouter A := fun r =>
  let (o, t) := m (er_table r) in (o, mkRouter (er_self_id r) t (er_strategy r) (er_max_hops r)).

Definition find_next_hop (choice : nat → nat) (r : EpidemicRouter) (target : NodeId) : nout (option StorageNode) :=
  Route.find_next_hop choice (er_table r) target.
Definition find_route (instant : Z) (target : NodeId) : NM EpidemicRouter (option (list StorageNode)) := fun r =>
  on_table (Route.find_route instant target (er_max_hops r)) r.
Definition find_responsible_nodes (r : EpidemicRouter) (key : bytes) (count : Z) : nout (list StorageNode) :=
  Route.find_responsible_nodes (er_table r) key count.
Definition find_responsible_nodes_for_id (r : EpidemicRouter) (id : string) (count : Z) : nout (list StorageNode) :=
  Route.find_responsible_nodes_for_id (er_table r) id count.
Definition update_node (instant : Z) (n : StorageNode) (cost : Z) (hop : option StorageNode) : NM EpidemicRouter unit :=
  on_table (Route.update_entry instant n cost hop).
Definition mark_route_failed (instant : Z) (a b : NodeId) : NM EpidemicRouter unit := on_table (Route.mark_route_failed instant a b).
Definition mark_route_success (a : NodeId) : NM EpidemicRouter unit := on_table (Route.mark_route_success a).
Definition routing_table (r : EpidemicRouter) : RoutingTable := er_table r.
Definition self_id (r : EpidemicRouter) : NodeId := er_self_id r.
Definition strategy (r : EpidemicRouter) : RoutingStrategy := er_strategy r.
Definition set_strategy (s : RoutingStrategy) (r : EpidemicRouter) : EpidemicRouter := mkRouter (er_self_id r) (er_table r) s (er_max_hops r).
Definition max_hops (r : EpidemicRouter) : nat := er_max_hops r.
Definition set_max_hops (n : nat) (r : EpidemicRouter) : EpidemicRouter := mkRouter (er_self_id r) (er_table r) (er_strategy r) n.

End Router.
End Router.

(** ** The search is breadth first *)

Section BfsCorrect.
Context (succ : NodeId → nout (list (NodeId * StorageNode))) (failed : NodeId → NodeId → bool)
  (target : NodeId) (max_hops : nat) (roots : list (NodeId * StorageNode)).

Definition edge (a b : NodeId) (node : StorageNode) : Prop := ∃ ns, succ a = Ok ns ∧ (b, node) ∈ ns ∧ failed a b = false.

(** The routes within the limit of hops. *)
Inductive route : NodeId → list StorageNode → Prop :=
  | route_root n node : (n, node) ∈ roots → route n [node]
  | route_step a p b node : route a p → (length p < max_hops)%nat → edge a b node → route b (p ++ [node]).

Definition dom_ok (s : Route.Search) : Prop := ∀ n, n ∈ Route.visited s ↔ is_Some (Route.paths s !! n).

Record grown (c : NodeId) (p : list StorageNode) (ns : list (NodeId * StorageNode)) (s s' : Route.Search) (fresh : list NodeId) : Prop := {
  g_dom : dom_ok s';
  g_queue : Route.sq s' = Route.sq s ++ fresh;
  g_new : ∀ n, n ∈ fresh → Route.paths s !! n = None ∧
    ∃ node, (n, node) ∈ ns ∧ failed c n = false ∧ Route.paths s' !! n = Some (p ++ [node]);
  g_old : ∀ n q, Route.paths s !! n = Some q → Route.paths s' !! n = Some q;
  g_only : ∀ n q, Route.paths s' !! n = Some q → Route.paths s !! n = Some q ∨ n ∈ fresh;
  g_all : ∀ b node, (b, node) ∈ ns → failed c b = false → is_Some (Route.paths s' !! b);
  g_visited : ∀ n, n ∈ Route.visited s' ↔ n ∈ Route.visited s ∨ n ∈ fresh;
  g_size : size (Route.visited s') = (size (Route.visited s) + length fresh)%nat;
}.

Lemma grown_nil c p s : dom_ok s → grown c p [] s s [].
Proof.
  intros H. split; [done|by rewrite app_nil_r|intros n Hn; by apply not_elem_of_nil in Hn|done|by left
    |intros b node Hn; by apply not_elem_of_nil in Hn| |cbn; lia].
  intros n. split; [by left|]. intros [?|Hn]; [done|]. by apply not_elem_of_nil in Hn.
Qed.

Lemma grown_snoc c p ns x s s' fresh : grown c p ns s s' fresh →
  ∃ fresh', grown c p (ns ++ [x]) s (Route.visit failed c p s' x) fresh'.
Proof.
  intros [H1 H2 H3 H4 H5 H6 H7 H8]. destruct x as [b node]. unfold Route.visit. cbn [fst snd].
  assert (∀ (P : Prop) n node0, (n, node0) ∈ ns → (n, node0) ∈ ns ++ [(b, node)]) as Hin by (intros; set_solver).
  case_bool_decide as Hv; [|destruct (failed c b) eqn:Hf].
  1, 2: exists fresh; split; try done;
    [intros n Hn; destruct (H3 n Hn) as (? & node0 & ? & ? & ?); split; [done|exists node0; split_and!; [set_solver|done|done]]
    |intros b0 node0 [Hn|Hn]%elem_of_app Hb; [by apply (H6 b0 node0)|apply list_elem_of_singleton in Hn as [= -> ->]; try congruence; by apply H1]].
  assert (Route.paths s' !! b = None) as Hb by (apply eq_None_not_Some; rewrite <- (H1 b); done).
  exists (fresh ++ [b]). split; cbn [Route.visited Route.sq Route.paths].
  - intros n. cbn. rewrite elem_of_union, elem_of_singleton, (H1 n). destruct (decide (n = b)) as [->|Hne].
    + rewrite lookup_insert_eq. split; [by eexists|by left].
    + rewrite lookup_insert_ne by done. naive_solver.
  - by rewrite H2, app_assoc.
  - intros n [Hn|Hn]%elem_of_app.
    + destruct (H3 n Hn) as (? & node0 & ? & ? & ?). split; [done|]. exists node0. split_and!; [set_solver|done|].
      rewrite lookup_insert_ne by congruence. done.
    + apply list_elem_of_singleton in Hn as ->. split.
      * destruct (Route.paths s !! b) as [q|] eqn:E; [|done]. apply H4 in E. congruence.
      * exists node. split_and!; [set_solver|done|by rewrite lookup_insert_eq].
  - intros n q Hq. apply H4 in Hq. rewrite lookup_insert_ne by congruence. done.
  - intros n q. destruct (decide (n = b)) as [->|Hne]; [right; set_solver|]. rewrite lookup_insert_ne by done.
    intros Hq. destruct (H5 n q Hq); [by left|right; set_solver].
  - intros b0 node0 [Hn|Hn]%elem_of_app Hb0.
    + destruct (decide (b0 = b)) as [->|Hne]; [rewrite lookup_insert_eq; by eexists|]. rewrite lookup_insert_ne by done. by apply (H6 b0 node0).
    + apply list_elem_of_singleton in Hn as [= -> ->]. rewrite lookup_insert_eq. by eexists.
  - intros n. set_solver.
  - rewrite size_union by set_solver. rewrite size_singleton, H8, length_app. cbn. lia.
Qed.

Lemma fold_visit c p ns s : dom_ok s → ∃ fresh, grown c p ns s (foldl (Route.visit failed c p) s ns) fresh.
Proof.
  intros H. induction ns as [|x ns IH] using rev_ind; [exists []; by apply grown_nil|].
  destruct IH as [fresh IH]. rewrite foldl_app. cbn [foldl]. by eapply grown_snoc.
Qed.

(** The queue holds nodes of two consecutive levels; what left it is settled. *)
Record search_inv (d : nat) (q1 q2 : list NodeId) (s : Route.Search) : Prop := {
  v_dom : dom_ok s;
  v_queue : Route.sq s = q1 ++ q2;
  v_q1 : ∀ n, n ∈ q1 → ∃ p, Route.paths s !! n = Some p ∧ length p = d;
  v_q2 : ∀ n, n ∈ q2 → ∃ p, Route.paths s !! n = Some p ∧ length p = S d;
  v_path : ∀ n p, Route.paths s !! n = Some p → route n p;
  v_done : ∀ a p, Route.paths s !! a = Some p → a ∉ Route.sq s → a ≠ target ∧ (length p ≤ d)%nat ∧
    ((length p < max_hops)%nat → ∀ b node, edge a b node → ∃ p', Route.paths s !! b = Some p' ∧ (length p' ≤ S (length p))%nat);
  v_roots : ∀ n node, (n, node) ∈ roots → ∃ p, Route.paths s !! n = Some p ∧ length p = 1%nat;
}.

Lemma queue_level d q1 q2 s n : search_inv d q1 q2 s → n ∈ Route.sq s →
  ∃ p, Route.paths s !! n = Some p ∧ (length p = d ∨ length p = S d).
Proof.
  intros H Hn. rewrite (v_queue _ _ _ _ H) in Hn. apply elem_of_app in Hn as [Hn|Hn].
  - destruct (v_q1 _ _ _ _ H n Hn) as (p & ? & ?). exists p. tauto.
  - destruct (v_q2 _ _ _ _ H n Hn) as (p & ? & ?). exists p. tauto.
Qed.

Lemma length_bound d q1 q2 s n p : search_inv d q1 q2 s → Route.paths s !! n = Some p → (length p ≤ S d)%nat.
Proof.
  intros H Hp. destruct (decide (n ∈ Route.sq s)) as [Hn|Hn].
  - destruct (queue_level _ _ _ _ _ H Hn) as (p' & Hp' & ?). rewrite Hp in Hp'. injection Hp' as <-. lia.
  - destruct (v_done _ _ _ _ H n p Hp Hn) as (_ & ? & _). lia.
Qed.

(** The next level begins when the first part of the queue is used up. *)
Lemma next_level d q2 s : search_inv d [] q2 s → search_inv (S d) q2 [] s.
Proof.
  intros [H1 H2 H3 H4 H5 H6 H7]. split; try done.
  - by rewrite H2, app_nil_r.
  - intros n Hn. by apply not_elem_of_nil in Hn.
  - intros a p Ha Hn. destruct (H6 a p Ha Hn) as (? & ? & ?). split_and!; [done|lia|done].
Qed.

(** Everything within the current level has been found, by a path no longer. *)
Lemma level_complete d q1 q2 s n p : search_inv d q1 q2 s → route n p → (length p ≤ d)%nat ∨ Route.sq s = [] →
  ∃ p', Route.paths s !! n = Some p' ∧ (length p' ≤ length p)%nat.
Proof.
  intros H Hr. induction Hr as [n node Hin|a p b node Hr IH Hlt He]; intros Hd.
  - destruct (v_roots _ _ _ _ H n node Hin) as (p & ? & ?). exists p. cbn. split; [done|lia].
  - rewrite length_app in *. cbn [length] in *. destruct IH as (pa & Ha & Hla); [destruct Hd; [left; lia|by right]|].
    assert (a ∉ Route.sq s) as Hq.
    { destruct Hd as [Hd| ->]; [|by apply not_elem_of_nil]. intros Hq. destruct (queue_level _ _ _ _ _ H Hq) as (p' & Hp' & ?).
      rewrite Ha in Hp'. injection Hp' as <-. lia. }
    destruct (v_done _ _ _ _ H a pa Ha Hq) as (_ & _ & Hs). destruct (Hs ltac:(lia) b node He) as (p' & ? & ?).
    exists p'. split; [done|lia].
Qed.

(** A node leaves the queue without successors to look at. *)
Lemma pop_only d c q1 q2 s p : search_inv d (c :: q1) q2 s → c ≠ target → Route.paths s !! c = Some p → (max_hops ≤ length p)%nat →
  search_inv d q1 q2 (Route.mkSearchState (Route.visited s) (q1 ++ q2) (Route.paths s)).
Proof.
  intros [H1 H2 H3 H4 H5 H6 H7] Hc Hp Hm. split; cbn [Route.visited Route.sq Route.paths]; try done.
  - intros n Hn. apply H3. set_solver.
  - intros a pa Ha Hn. destruct (decide (a = c)) as [->|Hne].
    + rewrite Hp in Ha. injection Ha as <-. destruct (H3 c) as (p' & Hp' & ?); [set_solver|]. rewrite Hp in Hp'. injection Hp' as <-.
      split_and!; [done|lia|lia].
    + apply H6; [done|]. rewrite H2. set_solver.
Qed.

(** A node leaves the queue and its successors are visited. *)
Lemma pop_visit d c q1 q2 s p ns fresh s' : search_inv d (c :: q1) q2 s → c ≠ target → Route.paths s !! c = Some p →
  (length p < max_hops)%nat → succ c = Ok ns →
  grown c p ns (Route.mkSearchState (Route.visited s) (q1 ++ q2) (Route.paths s)) s' fresh → search_inv d q1 (q2 ++ fresh) s'.
Proof.
  intros H Hc Hp Hm Hs [G1 G2 G3 G4 G5 G6 G7 G8]. cbn [Route.visited Route.sq Route.paths] in *.
  pose proof (fun n q => length_bound d (c :: q1) q2 s n q H) as Hbound. destruct H as [H1 H2 H3 H4 H5 H6 H7].
  assert (length p = d) as Hd. { destruct (H3 c) as (p' & Hp' & ?); [set_solver|]. congruence. }
  assert (∀ n node, n ∈ fresh → Route.paths s' !! n = Some (p ++ [node]) → length (p ++ [node]) = S d) as Hlen.
  { intros. rewrite length_app. cbn. lia. }
  split; try done.
  - by rewrite G2, app_assoc.
  - intros n Hn. destruct (H3 n) as (q & ? & ?); [set_solver|]. exists q. split; [by apply G4|done].
  - intros n [Hn|Hn]%elem_of_app.
    + destruct (H4 n Hn) as (q & ? & ?). exists q. split; [by apply G4|done].
    + destruct (G3 n Hn) as (_ & node & _ & _ & Hq). exists (p ++ [node]). split; [done|by apply (Hlen n)].
  - intros n q Hq. destruct (G5 n q Hq) as [Ho|Hn]; [by apply H5|]. destruct (G3 n Hn) as (_ & node & Hin & Hf & Hq').
    rewrite Hq in Hq'. injection Hq' as ->. apply (route_step c p n node); [by apply H5|done|]. by exists ns.
  - intros a pa Ha Hn. rewrite G2 in Hn. assert ((a ∉ (q1 ++ q2)) ∧ (a ∉ fresh)) as [Hn1 Hn2] by set_solver.
    destruct (G5 a pa Ha) as [Ho|?]; [|done]. destruct (decide (a = c)) as [->|Hne].
    + assert (pa = p) as -> by congruence. split_and!; [done|lia|]. intros _ b node (ns' & Hs' & Hin & Hf).
      assert (ns' = ns) as -> by congruence. destruct (G6 b node Hin Hf) as [pb Hb]. exists pb. split; [done|].
      destruct (G5 b pb Hb) as [Hob|Hnb]; [rewrite Hd; by apply (Hbound b)|].
      destruct (G3 b Hnb) as (_ & node' & _ & _ & Hb'). rewrite Hb in Hb'. injection Hb' as ->. rewrite length_app. cbn. lia.
    + destruct (H6 a pa Ho) as (? & ? & Hsucc); [rewrite H2; set_solver|]. split_and!; [done|done|].
      intros Hlt b node He. destruct (Hsucc Hlt b node He) as (pb & ? & ?). exists pb. split; [by apply G4|done].
  - intros n node Hin. destruct (H7 n node Hin) as (q & ? & ?). exists q. split; [by apply G4|done].
Qed.

Context (U : gset NodeId)
  (Hclosed : ∀ c, c ∈ U → ∃ ns, succ c = Ok ns ∧ ∀ x, x ∈ ns → x.1 ∈ U).

(** With fuel for every node, the search returns: a shortest route within the limit,
    or nothing when there is none. *)
Lemma bfs_correct fuel : ∀ d q1 q2 s, search_inv d q1 q2 s → Route.visited s ⊆ U →
  (length (Route.sq s) + (size U - size (Route.visited s)) < fuel)%nat →
  match Route.bfs succ failed target max_hops fuel s with
  | Ok (Some p) => route target p ∧ ∀ p', route target p' → (length p ≤ length p')%nat
  | Ok None => ∀ p', ¬ route target p'
  | _ => False
  end.
Proof.
  induction fuel as [|fuel IH]; intros d q1 q2 s H HU Hf; [lia|]. cbn [Route.bfs].
  destruct (Route.sq s) as [|c q] eqn:Eq.
  { intros p' Hp'. destruct (level_complete _ _ _ _ _ _ H Hp' (or_intror Eq)) as (p & Hp & _).
    destruct (v_done _ _ _ _ H target p Hp) as [Hn _]; [|done]. rewrite Eq. apply not_elem_of_nil. }
  assert (∃ d q1' q2, q = q1' ++ q2 ∧ search_inv d (c :: q1') q2 s) as (d' & q1' & q2' & -> & H').
  { pose proof (v_queue _ _ _ _ H) as Hq. rewrite Eq in Hq. destruct q1 as [|c1 q1]; cbn in Hq.
    - subst q2. exists (S d), q, []. split; [by rewrite app_nil_r|]. by apply next_level.
    - injection Hq as <- ->. by exists d, q1, q2. }
  destruct (v_q1 _ _ _ _ H' c) as (p & Hp & Hlen); [set_solver|]. cbn [Route.paths]. rewrite Hp.
  case_bool_decide as Hc.
  { subst c. split; [by apply (v_path _ _ _ _ H')|]. intros p' Hp'. destruct (decide (length p' ≤ d')%nat) as [Hd|Hd]; [|lia].
    destruct (level_complete _ _ _ _ _ _ H' Hp' (or_introl Hd)) as (p2 & Hp2 & ?). rewrite Hp in Hp2. injection Hp2 as <-. lia. }
  cbn [length] in Hf. destruct (max_hops <=? length p)%nat eqn:Em; [apply Nat.leb_le in Em|apply Nat.leb_gt in Em].
  - eapply IH; [by eapply pop_only|done|]. cbn [Route.sq Route.visited]. lia.
  - assert (c ∈ U) as HcU by (apply HU, (v_dom _ _ _ _ H'); eauto). destruct (Hclosed c HcU) as (ns & Hs & Hns).
    rewrite Hs. cbn [mbind outcome_bind].
    destruct (fold_visit c p ns (Route.mkSearchState (Route.visited s) (q1' ++ q2') (Route.paths s)) (v_dom _ _ _ _ H')) as [fresh Hg].
    pose proof (pop_visit _ _ _ _ _ _ _ _ _ H' Hc Hp Em Hs Hg) as H2.
    destruct Hg as [_ G2 G3 _ _ _ G7 G8]. cbn [Route.sq Route.visited] in *. set (s' := foldl _ _ ns) in *.
    assert (Route.visited s' ⊆ U) as HU'.
    { intros n [Hn|Hn]%G7; [by apply HU|]. destruct (G3 n Hn) as (_ & node & Hin & _). apply (Hns _ Hin). }
    pose proof (subseteq_size _ _ HU') as Hsz. eapply IH; [exact H2|exact HU'|]. rewrite G8 in *. rewrite G2, !length_app. rewrite length_app in Hf. lia.
Qed.
End BfsCorrect.

(** ** The search over a topology *)

Section Instance_of_search.
Context {B3 : Blake3} {HX : Hex} (t : HybridTopology) (Hok : topo_ok t).

Definition pair_of (n : NodeInfo) : NodeId * StorageNode := (n_id n, Route.storage_node n).
(** Where a route can start. *)
Definition first_hops : list (NodeId * StorageNode) := map pair_of (Topo.immediate_neighbors t ++ Topo.long_links t).
Definition known_ids : gset NodeId := list_to_set (map n_id (Route.known t)).

Lemma node_id_storage n : id_ok (n_id n) → Route.node_id_of (Route.storage_node n) = Ok (n_id n).
Proof. intros H. unfold Route.node_id_of. cbn [Route.storage_node sn_id]. by rewrite node_id_round_trip. Qed.

Lemma in_buckets_known n : in_buckets t n → n ∈ mjoin (routing_buckets t).
Proof. intros (j & b & Hb & Hn). apply list_elem_of_join. exists b. split; [done|]. by eapply list_elem_of_lookup_2. Qed.

Lemma known_good n : n ∈ Route.known t → good (local_id t) n.
Proof.
  intros [Hn|[Hn|Hn]%elem_of_app]%elem_of_app.
  - apply list_elem_of_join in Hn as (b & Hn & Hb). apply list_elem_of_lookup in Hb as [i Hb].
    destruct (ok_bucket t Hok i b Hb) as (_ & _ & Hf). rewrite Forall_forall in Hf. apply (Hf n Hn).
  - destruct (ok_long t Hok) as (_ & _ & Hf). rewrite Forall_forall in Hf. by apply Hf.
  - destruct (ok_rep t Hok) as [_ Hf]. rewrite Forall_forall in Hf. by apply Hf.
Qed.

Lemma elem_known_ids i : i ∈ known_ids ↔ ∃ n, n ∈ Route.known t ∧ n_id n = i.
Proof.
  unfold known_ids. rewrite elem_of_list_to_set, list_elem_of_In, in_map_iff. setoid_rewrite list_elem_of_In. naive_solver.
Qed.

Lemma immediate_known n : n ∈ Topo.immediate_neighbors t → n ∈ Route.known t.
Proof.
  intros Hn. apply elem_of_app. left. unfold Topo.immediate_neighbors in Hn. cbv zeta in Hn.
  assert (∀ l k, n ∈ take k l → n ∈ l) as Htake by (intros l k H; rewrite <- (take_drop k l); set_solver).
  case_test; [apply Htake in Hn|]; by rewrite stable_sort_perm in Hn.
Qed.

Lemma mapM_ids l : Forall (fun n => id_ok (n_id n)) l →
  mapM (fun s => i ← Route.node_id_of s; Ok (i, s)) (map Route.storage_node l) = (Ok (map pair_of l) : nout _).
Proof.
  induction 1 as [|n l Hn _ IH]; [done|]. cbn [map mapM]. rewrite node_id_storage by done. cbn [mbind outcome_bind].
  rewrite IH. done.
Qed.

Lemma successors_closed c : c ∈ known_ids →
  ∃ ns, Route.successors t c = Ok ns ∧ ∀ x, x ∈ ns → x.1 ∈ known_ids.
Proof.
  intros Hc. unfold Route.successors, Topo.get_node. destruct (all_nodes t !! c) as [n|] eqn:E.
  2: { exists []. split; [done|]. intros x Hx. by apply not_elem_of_nil in Hx. }
  destruct (ok_all t Hok c n E) as [Hid [Hgood Hne]]. unfold Route.get_node_neighbors. rewrite node_id_storage by done. cbn [mbind outcome_bind].
  assert (5 * 2 ≤ u64_max) as H5 by (unfold u64_max; lia).
  destruct (find_closest_result t (n_id n) Hok Hgood 5 Hne ltac:(lia) H5) as (l & -> & _ & Hfrom & _). cbn [mbind outcome_bind].
  set (ms := (take (Z.to_nat 5) l).*2).
  assert (∀ m, m ∈ ms → m ∈ Route.known t) as Hms.
  { intros m (p & -> & Hp)%list_elem_of_fmap. assert (p ∈ l) as Hpl by (rewrite <- (take_drop (Z.to_nat 5) l); set_solver).
    unfold Route.known. destruct (Hfrom p Hpl) as [H|[H|H]]; [apply in_buckets_known in H|..]; set_solver. }
  exists (map pair_of ms). split.
  - apply mapM_ids. apply Forall_forall. intros m Hm. by apply known_good, Hms.
  - intros x Hx. apply list_elem_of_In, in_map_iff in Hx as (m & <- & Hm). apply elem_known_ids. exists m.
    split; [|done]. by apply Hms, list_elem_of_In.
Qed.

(** The state before the loop. *)
Record start_ok (ns : list NodeInfo) (s : Route.Search) : Prop := {
  st_dom : dom_ok s;
  st_path : ∀ n p, Route.paths s !! n = Some p → ∃ m, m ∈ ns ∧ n_id m = n ∧ p = [Route.storage_node m];
  st_queue : ∀ n, n ∈ Route.sq s ↔ is_Some (Route.paths s !! n);
  st_all : ∀ m, m ∈ ns → is_Some (Route.paths s !! n_id m);
}.

Lemma start_neighbor_ok ns n s : start_ok ns s → start_ok (ns ++ [n]) (Route.start_neighbor s n).
Proof.
  intros [H1 H2 H3 H4]. unfold Route.start_neighbor. split; cbn [Route.visited Route.sq Route.paths].
  - intros i. cbn. rewrite elem_of_union, elem_of_singleton, (H1 i), lookup_insert_is_Some. destruct (decide (i = n_id n)); naive_solver.
  - intros i p. destruct (decide (i = n_id n)) as [->|Hne].
    + rewrite lookup_insert_eq. intros [= <-]. exists n. set_solver.
    + rewrite lookup_insert_ne by done. intros (m & ? & ? & ?)%H2. exists m. set_solver.
  - intros i. rewrite elem_of_app, list_elem_of_singleton, (H3 i), lookup_insert_is_Some. destruct (decide (i = n_id n)); naive_solver.
  - intros m [Hm|Hm]%elem_of_app; rewrite lookup_insert_is_Some.
    + destruct (decide (n_id n = n_id m)); [by left|right; split; [done|by apply H4]].
    + apply list_elem_of_singleton in Hm as ->. by left.
Qed.

Lemma start_link_ok ns n s : start_ok ns s → start_ok (ns ++ [n]) (Route.start_link s n).
Proof.
  intros H. unfold Route.start_link. case_bool_decide as Hv; [|by apply start_neighbor_ok].
  destruct H as [H1 H2 H3 H4]. split; try done.
  - intros i p (m & ? & ? & ?)%H2. exists m. set_solver.
  - intros m [Hm|Hm]%elem_of_app; [by apply H4|]. apply list_elem_of_singleton in Hm as ->. by apply H1.
Qed.

Lemma initial_ok : start_ok (Topo.immediate_neighbors t ++ Topo.long_links t) (Route.initial t).
Proof.
  assert (start_ok [] (Route.mkSearchState ∅ [] ∅)) as H0.
  { split; cbn [Route.visited Route.sq Route.paths].
    - intros i. cbn. rewrite lookup_empty. split; [set_solver|by intros []].
    - intros i p. by rewrite lookup_empty.
    - intros i. rewrite lookup_empty. split; [set_solver|by intros []].
    - intros m Hm. by apply not_elem_of_nil in Hm. }
  assert (∀ ns, start_ok ns (foldl Route.start_neighbor (Route.mkSearchState ∅ [] ∅) ns)) as H1.
  { intros ns. induction ns as [|n ns IH] using rev_ind; [done|]. rewrite foldl_app. cbn [foldl]. by apply start_neighbor_ok. }
  unfold Route.initial. generalize (Topo.long_links t). intros ls. specialize (H1 (Topo.immediate_neighbors t)).
  induction ls as [|n ls IH] using rev_ind; [by rewrite app_nil_r|]. rewrite foldl_app, app_assoc. cbn [foldl]. by apply start_link_ok.
Qed.

Lemma initial_known i : i ∈ Route.visited (Route.initial t) → i ∈ known_ids.
Proof.
  intros [p Hp]%(st_dom _ _ initial_ok). destruct (st_path _ _ initial_ok i p Hp) as (m & Hm & <- & _).
  apply elem_known_ids. exists m. split; [|done]. apply elem_of_app in Hm as [Hm|Hm]; [by apply immediate_known|].
  unfold Route.known, Topo.long_links in *. set_solver.
Qed.

Lemma initial_inv target max_hops failed :
  search_inv (Route.successors t) failed target max_hops first_hops 1 (Route.sq (Route.initial t)) [] (Route.initial t).
Proof.
  pose proof initial_ok as [H1 H2 H3 H4]. split.
  - done.
  - by rewrite app_nil_r.
  - intros n [p Hp]%H3. exists p. split; [done|]. by destruct (H2 n p Hp) as (m & _ & _ & ->).
  - intros n Hn. by apply not_elem_of_nil in Hn.
  - intros n p (m & Hm & <- & ->)%H2. apply route_root. unfold first_hops. apply list_elem_of_In, in_map_iff. exists m.
    split; [done|by apply list_elem_of_In].
  - intros a p Ha Hn. exfalso. apply Hn, H3. eauto.
  - intros n node Hin. apply list_elem_of_In, in_map_iff in Hin as (m & [= <- <-] & Hm). apply list_elem_of_In in Hm.
    destruct (H4 m Hm) as [p Hp]. exists p. split; [done|]. by destruct (H2 _ p Hp) as (m' & _ & _ & ->).
Qed.

(** The last node of a route is its destination. *)
Lemma route_last failed max_hops n p : route (Route.successors t) failed max_hops first_hops n p →
  ∃ node, last p = Some node ∧ Route.node_id_of node = Ok n.
Proof.
  intros Hr. assert (n ∈ known_ids ∧ ∃ node, last p = Some node ∧ Route.node_id_of node = Ok n) as [_ ?]; [|done].
  induction Hr as [n node Hin|a p b node Hr [Ha _] Hlt (ns & Hs & Hin & _)].
  - apply list_elem_of_In, in_map_iff in Hin as (m & [= <- <-] & Hm). apply list_elem_of_In in Hm.
    assert (m ∈ Route.known t) as Hk.
    { apply elem_of_app in Hm as [Hm|Hm]; [by apply immediate_known|]. unfold Route.known, Topo.long_links in *. set_solver. }
    split; [apply elem_known_ids; by exists m|]. eexists. split; [done|]. apply node_id_storage. by apply known_good.
  - destruct (successors_closed a Ha) as (ns' & Hs' & Hc). assert (ns' = ns) as -> by congruence. specialize (Hc _ Hin). cbn in Hc.
    split; [done|]. exists node. split; [by rewrite last_snoc|]. unfold Route.successors in Hs. destruct (Topo.get_node t a) as [m|]; [|].
    2: { apply Ok_inj in Hs as <-. by apply not_elem_of_nil in Hin. }
    apply bind_Ok in Hs as (ms & _ & Hs). clear -Hs Hin. revert ns Hs Hin.
    induction ms as [|s ms IH]; intros ns; cbn [mapM]; [intros Hs Hin; apply Ok_inj in Hs as <-; by apply not_elem_of_nil in Hin|].
    intros (x & (i & Hi & Hx)%bind_Ok & (xs & Hxs & E)%bind_Ok)%bind_Ok Hin. apply Ok_inj in Hx as <-, E as <-.
    apply elem_of_cons in Hin as [[= -> ->]|Hin]; [done|]. by eapply IH.
Qed.

End Instance_of_search.

Lemma list_to_set_le (l : list NodeId) : (size (list_to_set l : gset NodeId) ≤ length l)%nat.
Proof.
  induction l as [|x l IH]; cbn [list_to_set length]; [by rewrite size_empty|]. rewrite size_union_alt, size_singleton.
  assert (size ((list_to_set l : gset NodeId) ∖ {[x]}) ≤ size (list_to_set l : gset NodeId))%nat by (apply subseteq_size; set_solver). lia.
Qed.

(** ** The table *)

Section TableInv.
Context {B3 : Blake3} {HX : Hex} {NO : NodeOrder}.
Implicit Types (t : RoutingTable).

(** The routes within a limit of hops that a table allows. *)
Abbreviation table_route t max_hops :=
  (route (Route.successors (rt_topology t)) (Route.link_failed t) max_hops (first_hops (rt_topology t))).

(** A route that ends at the node [k]. *)
Definition leads_to (k : NodeId) (r : list StorageNode) : Prop :=
  ∃ node, last r = Some node ∧ Route.node_id_of node = Ok k.

Record table_ok t : Prop := {
  to_topology : topo_ok (rt_topology t);
  to_entries : ∀ k e, rt_entries t !! k = Some e → Route.node_id_of (re_node e) = Ok k ∧ k ≠ rt_self_id t;
  to_cache : ∀ k r, rt_route_cache t !! k = Some r → leads_to k r;
  to_size : (size (rt_route_cache t) ≤ rt_max_cache_size t)%nat;
}.

Lemma calculate_total t target max_hops : topo_ok (rt_topology t) → rt_entries t !! target = None →
  match Route.calculate_route t target max_hops with
  | Ok (Some p) => table_route t max_hops target p ∧ ∀ p', table_route t max_hops target p' → (length p ≤ length p')%nat
  | Ok None => ∀ p', ¬ table_route t max_hops target p'
  | _ => False
  end.
Proof.
  intros Hok Hn. unfold Route.calculate_route. rewrite Hn.
  apply (bfs_correct _ _ _ _ _ (known_ids (rt_topology t)) (successors_closed (rt_topology t) Hok)
    (Route.fuel_for (rt_topology t)) 1 (Route.sq (Route.initial (rt_topology t))) []).
  - by apply initial_inv.
  - intros i Hi. by apply initial_known.
  - unfold Route.fuel_for. assert (size (known_ids (rt_topology t)) ≤ length (Route.known (rt_topology t)))%nat; [|lia].
    unfold known_ids. rewrite <- (length_map n_id). apply list_to_set_le.
Qed.

(** Without the search: direct entries end at their node. *)
Lemma calculate_leads t target max_hops : table_ok t →
  match Route.calculate_route t target max_hops with
  | Ok (Some p) => leads_to target p
  | Ok None => rt_entries t !! target = None ∧ ∀ p', ¬ table_route t max_hops target p'
  | _ => False
  end.
Proof.
  intros [H1 H2 H3 H4]. destruct (rt_entries t !! target) as [e|] eqn:E.
  - unfold Route.calculate_route. rewrite E. destruct (H2 target e E) as [He _].
    destruct (re_next_hop e); by exists (re_node e).
  - pose proof (calculate_total t target max_hops H1 E) as H. destruct (Route.calculate_route t target max_hops) as [[p|]| | |]; try done.
    destruct H as [H _]. by apply route_last in H.
Qed.

Lemma cache_subset_ok t m : table_ok t → m ⊆ rt_route_cache t → table_ok (Route.set_cache m t).
Proof.
  intros [H1 H2 H3 H4] Hm. split; cbn [Route.set_cache rt_topology rt_entries rt_self_id rt_route_cache rt_max_cache_size]; try done.
  - intros k r Hk. apply H3. by eapply lookup_weaken.
  - pose proof (map_subseteq_size _ _ Hm). lia.
Qed.

Lemma uncache_subset f t : rt_route_cache (Route.uncache f t) ⊆ rt_route_cache t.
Proof. apply map_filter_subseteq. Qed.

Lemma delete_all_subset (ks : list NodeId) : ∀ m : gmap NodeId (list StorageNode), foldl (fun m k => delete k m) m ks ⊆ m.
Proof. induction ks as [|k ks IH]; intros m; cbn [foldl]; [done|]. etrans; [apply IH|apply delete_subseteq]. Qed.

Lemma delete_all_gone (ks : list NodeId) k : ∀ m : gmap NodeId (list StorageNode), k ∈ ks ∨ m !! k = None →
  foldl (fun m k => delete k m) m ks !! k = None.
Proof.
  induction ks as [|k' ks IH]; intros m H; cbn [foldl]; [destruct H as [H|]; [by apply not_elem_of_nil in H|done]|].
  apply IH. destruct (decide (k = k')) as [->|Hne]; [right; by rewrite lookup_delete_eq|].
  destruct H as [H|H]; [left; set_solver|right; by rewrite lookup_delete_ne].
Qed.

Lemma foldl_fst (es : list (NodeId * RoutingEntry)) : ∀ m : gmap NodeId (list StorageNode),
  foldl (fun m e => delete e.1 m) m es = foldl (fun m k => delete k m) m es.*1.
Proof. induction es as [|e es IH]; intros m; [done|]. rewrite fmap_cons. cbn [foldl]. apply IH. Qed.

(** Keys of the cache that have an entry. *)
Definition covered_cache t : Prop := ∀ k, is_Some (rt_route_cache t !! k) → is_Some (rt_entries t !! k).

Lemma prune_spec instant t : ∃ t', Route.prune_cache instant t = (Ok tt, t') ∧ rt_route_cache t' ⊆ rt_route_cache t ∧
  t' = Route.set_cache (rt_route_cache t') t ∧ (size (rt_route_cache t') ≤ rt_max_cache_size t)%nat.
Proof.
  unfold Route.prune_cache. cbv zeta. set (t1 := Route.uncache _ t).
  assert (rt_route_cache t1 ⊆ rt_route_cache t) as Hsub by apply uncache_subset.
  assert (covered_cache t1) as Hcov.
  { intros k [r Hr]. unfold t1, Route.uncache in Hr. cbn in Hr. apply map_lookup_filter_Some in Hr as [_ Hst]. cbn in Hst.
    unfold Route.stale in Hst. change (rt_entries t1) with (rt_entries t). destruct (rt_entries t !! k); [by eexists|done]. }
  change (rt_max_cache_size t1) with (rt_max_cache_size t). destruct (_ <? _)%nat eqn:Esz.
  2: { exists t1. apply Nat.ltb_ge in Esz. split_and!; [done|done|by destruct t|done]. }
  apply Nat.ltb_lt in Esz. set (es := Route.oldest_first (node_iter (rt_entries t1))).
  assert (es ≡ₚ map_to_list (rt_entries t1)) as Hes by (unfold es, Route.oldest_first; by rewrite stable_sort_perm, node_iter_perm).
  assert (size (rt_route_cache t1) ≤ length es)%nat as Hle.
  { rewrite Hes, length_map_to_list, <- !size_dom. apply subseteq_size. intros k Hk. apply elem_of_dom in Hk. by apply elem_of_dom, Hcov. }
  set (half := (rt_max_cache_size t / 2)%nat). assert (half ≤ rt_max_cache_size t)%nat as Hhalf by (apply Nat.Div0.div_le_upper_bound; lia).
  destruct (length es <? half)%nat eqn:El; [apply Nat.ltb_lt in El; lia|]. rewrite foldl_fst.
  set (ks := (take (length es - half) es).*1). set (m := foldl _ (rt_route_cache t1) ks).
  assert (m ⊆ rt_route_cache t1) as Hm by apply delete_all_subset.
  exists (Route.set_cache m t1). split_and!; [done|by etrans|by destruct t|]. cbn [Route.set_cache rt_route_cache].
  assert (dom m ⊆ (list_to_set (drop (length es - half) es).*1 : gset NodeId)) as Hdom.
  { intros k [r Hr]%elem_of_dom. destruct (Hcov k) as [e He]; [exists r; by eapply lookup_weaken|].
    apply elem_of_map_to_list in He. rewrite <- Hes, <- (take_drop (length es - half) es) in He.
    apply elem_of_list_to_set, list_elem_of_fmap. exists (k, e). split; [done|]. apply elem_of_app in He as [He|He]; [|done].
    exfalso. assert (m !! k = None) as Hn; [|congruence]. apply delete_all_gone. left. apply list_elem_of_fmap. by exists (k, e). }
  apply subseteq_size in Hdom. rewrite size_dom in Hdom. pose proof (list_to_set_le (drop (length es - half) es).*1) as Hd.
  rewrite length_fmap, length_drop in Hd. lia.
Qed.

Lemma search_and_cache_ok instant target max_hops t : table_ok t →
  table_ok (Route.search_and_cache instant target max_hops t).2 ∧
  match (Route.search_and_cache instant target max_hops t).1 with
  | Ok (Some p) => leads_to target p
  | Ok None => rt_entries t !! target = None ∧ ∀ p', ¬ table_route t max_hops target p'
  | _ => False
  end.
Proof.
  intros H. pose proof (calculate_leads t target max_hops H) as Hc. unfold Route.search_and_cache, mbind_st, mget, mlift.
  destruct (Route.calculate_route t target max_hops) as [[p|]| | |]; try done.
  destruct (negb (bool_decide (p = [])) && (length p <=? max_hops)%nat); [|done]. cbn [mmod mret_st].
  set (t1 := Route.set_cache (<[target := p]> (rt_route_cache t)) t). destruct H as [H1 H2 H3 H4].
  assert (∀ k r, rt_route_cache t1 !! k = Some r → leads_to k r) as Hcache.
  { intros k r. unfold t1. cbn. destruct (decide (k = target)) as [->|Hne]; [rewrite lookup_insert_eq; by intros [= <-]|].
    rewrite lookup_insert_ne by done. apply H3. }
  destruct (_ <? _)%nat eqn:Es.
  - destruct (prune_spec instant t1) as (t' & -> & Hsub & Et & Hsz). cbn. split; [|done].
    rewrite Et. split; cbn [Route.set_cache rt_topology rt_entries rt_self_id rt_route_cache rt_max_cache_size]; try done.
    intros k r Hk. apply Hcache. by eapply lookup_weaken.
  - cbn. split; [|done]. apply Nat.ltb_ge in Es. by split.
Qed.

Lemma find_route_ok instant target max_hops t : table_ok t →
  table_ok (Route.find_route instant target max_hops t).2 ∧
  match (Route.find_route instant target max_hops t).1 with
  | Ok (Some p) => leads_to target p
  | Ok None => rt_entries t !! target = None ∧ ∀ p', ¬ table_route t max_hops target p'
  | _ => False
  end.
Proof.
  intros H. unfold Route.find_route. unfold mbind_st at 1 2, mget at 1 2.
  destruct (rt_route_cache t !! target) as [r|] eqn:E; [|by apply search_and_cache_ok].
  destruct (negb _ && _); [|by apply search_and_cache_ok]. cbn. split; [done|]. by apply (to_cache t H).
Qed.

Lemma update_entry_ok instant node cost hop t : table_ok t → table_ok (Route.update_entry instant node cost hop t).2.
Proof.
  intros H. unfold Route.update_entry. destruct (Route.node_id_of node) as [id| | |] eqn:E; try done.
  case_bool_decide as Hs; [done|]. cbn [snd]. apply cache_subset_ok; [|apply map_filter_subseteq].
  destruct H as [H1 H2 H3 H4]. split; cbn [Route.set_entries rt_topology rt_entries rt_self_id rt_route_cache rt_max_cache_size]; try done.
  intros k e. destruct (decide (k = id)) as [->|Hne]; [rewrite lookup_insert_eq; by intros [= <-]|]. rewrite lookup_insert_ne by done. apply H2.
Qed.

(** Counters of an entry change nothing that the invariant speaks of. *)
Lemma recount_ok t k e e' : table_ok t → rt_entries t !! k = Some e → re_node e' = re_node e →
  table_ok (Route.set_entries (<[k := e']> (rt_entries t)) t).
Proof.
  intros [H1 H2 H3 H4] Hk Hn. split; cbn [Route.set_entries rt_topology rt_entries rt_self_id rt_route_cache rt_max_cache_size]; try done.
  intros k' e0. destruct (decide (k' = k)) as [->|Hne]; [rewrite lookup_insert_eq; intros [= <-]; rewrite Hn; by apply H2|].
  rewrite lookup_insert_ne by done. apply H2.
Qed.

Lemma set_failed_ok t m : table_ok t → table_ok (Route.set_failed m t).
Proof. by intros [H1 H2 H3 H4]. Qed.

Lemma mark_failed_ok instant a b t : table_ok t → table_ok (Route.mark_route_failed instant a b t).2.
Proof.
  intros H. unfold Route.mark_route_failed, mbind_st, mget, mmod, mlift. set (t1 := Route.set_failed _ t).
  assert (table_ok t1) as H1 by by apply set_failed_ok. destruct (Route.routes_using a b _) as [ks| | |]; try done.
  set (t2 := Route.set_cache _ t1). assert (table_ok t2) as H2 by (apply cache_subset_ok; [done|apply delete_all_subset]).
  destruct (rt_entries t2 !! b) as [e|] eqn:E; [|done]. destruct (Route.u32_incr (re_failure_count e)); try done.
  cbn [snd]. by apply (recount_ok t2 b e).
Qed.

Lemma mark_success_ok b t : table_ok t → table_ok (Route.mark_route_success b t).2.
Proof.
  intros H. unfold Route.mark_route_success, mbind_st, mget, mmod, mlift. destruct (rt_entries t !! b) as [e|] eqn:E.
  - destruct (Route.u32_incr (re_success_count e)); try done. cbn [snd]. apply set_failed_ok. by apply (recount_ok t b e).
  - cbn. by apply set_failed_ok.
Qed.

(** The changes of a table: its operations, and changes of the shared topology
    within the invariant that the topology keeps. *)
Inductive table_step : RoutingTable → RoutingTable → Prop :=
  | ts_update t instant node cost hop : table_step t (Route.update_entry instant node cost hop t).2
  | ts_find t instant target max_hops : table_step t (Route.find_route instant target max_hops t).2
  | ts_failed t instant a b : table_step t (Route.mark_route_failed instant a b t).2
  | ts_success t b : table_step t (Route.mark_route_success b t).2
  | ts_topology t topology : topo_ok topology →
      table_step t (mkTable (rt_self_id t) (rt_entries t) (rt_route_cache t) (rt_failed_routes t) (rt_strategy t)
        (rt_max_cache_size t) (rt_max_cache_age t) topology).

Lemma table_step_ok t t' : table_step t t' → table_ok t → table_ok t'.
Proof.
  destruct 1; intros Hok; [by apply update_entry_ok|by apply find_route_ok|by apply mark_failed_ok|by apply mark_success_ok|].
  by destruct Hok.
Qed.

Lemma new_table_ok id topology s : topo_ok topology → table_ok (Route.new id topology s).
Proof.
  intros H. split; cbn; [done| | |].
  - intros k e. by rewrite lookup_empty.
  - intros k r. by rewrite lookup_empty.
  - rewrite map_size_empty. lia.
Qed.

Lemma steps_ok t t' : table_ok t → rtc table_step t t' → table_ok t'.
Proof. intros H Hr. induction Hr; [done|]. eauto using table_step_ok. Qed.

Lemma uses_link_spec a b r : Route.uses_link a b r = Ok false → ∀ i x y, r !! i = Some x → r !! S i = Some y →
  Route.node_id_of x = Ok a → Route.node_id_of y = Ok b → False.
Proof.
  induction r as [|x0 [|y0 r] IH]; [done|done|]. cbn [Route.uses_link]. intros (i0 & Hi & (j0 & Hj & H)%bind_Ok)%bind_Ok i x y Hx Hy Hix Hiy.
  destruct (_ || _) eqn:E; [done|]. destruct i as [|i].
  - cbn in Hx, Hy. injection Hx as <-. injection Hy as <-. rewrite Hix in Hi. rewrite Hiy in Hj.
    apply Ok_inj in Hi as <-, Hj as <-. by rewrite !bool_decide_eq_true_2 in E.
  - by apply (IH H i x y).
Qed.

Lemma routes_using_spec a b l ks : Route.routes_using a b l = Ok ks → ∀ k r, (k, r) ∈ l → k ∈ ks ∨ Route.uses_link a b r = Ok false.
Proof.
  revert ks. induction l as [|[k0 r0] l IH]; intros ks; cbn [Route.routes_using]; [intros _ k r H; by apply not_elem_of_nil in H|].
  intros (u & Hu & (ks' & Hks & E)%bind_Ok)%bind_Ok k r Hin. apply Ok_inj in E as <-.
  apply elem_of_cons in Hin as [[= -> ->]|Hin].
  - destruct u; [left; set_solver|by right].
  - destruct (IH ks' Hks k r Hin); [left; destruct u; set_solver|by right].
Qed.

(** ** Properties *)

(** C15: the search for a route is a total breadth-first search: whenever the table
    has no direct entry for the target, over any topology that keeps its invariant,
    it returns, a route that begins at a first hop, follows suggested neighbours
    over links that have not failed, ends at the target and is a shortest one within
    the limit of hops; and it returns none exactly when there is no such route. *)
Theorem route_search_shortest t (target : NodeId) (max_hops : nat) :
  topo_ok (rt_topology t) → rt_entries t !! target = None →
  ∃ result, Route.calculate_route t target max_hops = Ok result ∧
    match result with
    | Some p => table_route t max_hops target p ∧ leads_to target p ∧
        ∀ p', table_route t max_hops target p' → (length p ≤ length p')%nat
    | None => ∀ p', ¬ table_route t max_hops target p'
    end.
Proof.
  intros Hok Hn. pose proof (calculate_total t target max_hops Hok Hn) as H.
  destruct (Route.calculate_route t target max_hops) as [r| | |]; try done. exists r. split; [done|].
  destruct r as [p|]; [|done]. destruct H as [H1 H2]. split_and!; [done|by eapply route_last|done].
Qed.

(** Along every sequence of updates, look-ups, failure and success reports and
    changes of the topology, the cache stays within its limit, and a look-up never
    fails: it returns a route that ends at the target, or none when the table has
    neither an entry nor a route within the limit of hops. *)
Theorem routing_table_invariant (id : NodeId) (topology : HybridTopology) (s : RoutingStrategy) t
    (instant : Z) (target : NodeId) (max_hops : nat) :
  topo_ok topology → rtc table_step (Route.new id topology s) t →
  (size (rt_route_cache t) ≤ rt_max_cache_size t)%nat ∧
  match (Route.find_route instant target max_hops t).1 with
  | Ok (Some p) => leads_to target p
  | Ok None => rt_entries t !! target = None ∧ ∀ p', ¬ table_route t max_hops target p'
  | _ => False
  end.
Proof.
  intros Hok Hr. pose proof (steps_ok _ _ (new_table_ok id topology s Hok) Hr) as H.
  split; [by apply to_size|]. by apply find_route_ok.
Qed.

(** A failed link is not reused: after a failure report that returns, no cached
    route crosses the link in that direction, and no route found by searching
    does. *)
Theorem failed_link_not_reused t t' (instant : Z) (a b : NodeId) :
  Route.mark_route_failed instant a b t = (Ok tt, t') →
  Route.link_failed t' a b = true ∧
  (∀ k r i x y, rt_route_cache t' !! k = Some r → r !! i = Some x → r !! S i = Some y →
     Route.node_id_of x = Ok a → Route.node_id_of y = Ok b → False) ∧
  (∀ node, ¬ edge (Route.successors (rt_topology t')) (Route.link_failed t') a b node).
Proof.
  unfold Route.mark_route_failed, mbind_st, mget, mmod, mlift. set (t1 := Route.set_failed _ t).
  destruct (Route.routes_using a b (node_iter (rt_route_cache t1))) as [ks| | |] eqn:Ek; try done.
  set (t2 := Route.set_cache _ t1). intros H.
  assert (rt_route_cache t' = rt_route_cache t2 ∧ rt_failed_routes t' = rt_failed_routes t2) as [Hc Hf].
  { destruct (rt_entries t2 !! b) as [e|]; [destruct (Route.u32_incr _); try done|]; by injection H as <-. }
  assert (Route.link_failed t' a b = true) as Hl.
  { unfold Route.link_failed. rewrite Hf. apply bool_decide_eq_true_2. cbn. rewrite lookup_insert_eq. by eexists. }
  split_and!; [done| |].
  - intros k r i x y Hr. rewrite Hc in Hr. assert (rt_route_cache t1 !! k = Some r) as Hr1 by (eapply lookup_weaken; [exact Hr|apply delete_all_subset]).
    apply elem_of_map_to_list in Hr1. rewrite <- node_iter_perm in Hr1.
    destruct (routes_using_spec a b _ ks Ek k r Hr1) as [Hin|Hu]; [|by apply uses_link_spec].
    unfold t2 in Hr. cbn in Hr. rewrite delete_all_gone in Hr by by left. done.
  - intros node (ns & _ & _ & Hn). congruence.
Qed.
End TableInv.

(** ** Witnesses *)

Module RoutingWitness.
#[local] Existing Instances Toy.toy_blake3 ToyHex.toy_hex.
#[local] Instance toy_nodes : NodeOrder := {| node_iter A := map_to_list; node_iter_perm A m := reflexivity _ |}.

Definition table : RoutingTable := Route.new (TopoWitness.node Byte.x00) TopoWitness.one Hybrid.
Definition goal : NodeId := TopoWitness.node Byte.x01.

Lemma route_search_shortest_witness :
  is_ok (Route.calculate_route table goal 3) = true ∧ ∃ p, Route.calculate_route table goal 3 = Ok (Some p) ∧ leads_to goal p.
Proof.
  split; [vm_compute; reflexivity|].
  assert (match Route.calculate_route table goal 3 with Ok (Some _) => true | _ => false end = true) as Hs by (vm_compute; reflexivity).
  destruct (route_search_shortest table goal 3 TopoWitness.one_ok (lookup_empty _)) as (r & E & Hr).
  rewrite E in *. destruct r as [p|]; [|discriminate Hs]. exists p. split; [reflexivity|exact (proj1 (proj2 Hr))].
Defined.

Lemma routing_table_invariant_witness :
  (size (rt_route_cache (Route.find_route 5 goal 3 table).2) ≤ rt_max_cache_size (Route.find_route 5 goal 3 table).2)%nat.
Proof.
  refine (proj1 (routing_table_invariant (TopoWitness.node Byte.x00) TopoWitness.one Hybrid _ 6 goal 3 TopoWitness.one_ok _)).
  apply rtc_once. apply ts_find.
Defined.

Lemma failed_link_not_reused_witness :
  Route.link_failed (Route.mark_route_failed 7 (TopoWitness.node Byte.x02) goal table).2 (TopoWitness.node Byte.x02) goal = true.
Proof.
  assert (is_ok (Route.mark_route_failed 7 (TopoWitness.node Byte.x02) goal table).1 = true) as Hok by (vm_compute; reflexivity).
  pose proof (failed_link_not_reused table) as H.
  destruct (Route.mark_route_failed 7 (TopoWitness.node Byte.x02) goal table) as [[[]| | |] t'] eqn:E; [|discriminate Hok..].
  exact (proj1 (H t' 7 (TopoWitness.node Byte.x02) goal E)).
Defined.

End RoutingWitness.
