(* ===== verification/Health.v ===== *)
(** * Health monitoring (dsm_storage_node/src/storage/health.rs)

    The health record of a node with its ping statistics and the three failure
    detectors, and the monitor: the turns of its two background tasks, the
    messages it handles and the look-ups it answers.  Instants are nanoseconds.
    The map of records sits behind a tokio [RwLock], which is not reentrant: a
    task that waits for the lock while it holds the write guard waits for ever,
    and so does everybody else from then on.  The logarithm and the exponential of
    the C library are an interface. *)
From S2P Require Import Prelude NodeTypes Float Keys Hexa Topology Routing.

(** [f64::ln] and [f64::exp]. *)
Class Libm := { f64_ln : f64 → f64; f64_exp : f64 → f64 }.

(** Single precision, for the loads of a status report, which are only stored. *)
Abbreviation f32 := spec_float.
Definition f32_lit (n d : Z) : f32 := SFdiv 24 128 (binary_normalize 24 128 n 0 false) (binary_normalize 24 128 d 0 false).

(** ** Data *)

Inductive FailureDetectorAlgorithm := Timeout | PhiAccrual | Adaptive.
#[global] Instance FailureDetectorAlgorithm_eq_dec : EqDecision FailureDetectorAlgorithm.
Proof. solve_decision. Defined.

Inductive NodeStatus := Online | Offline | Unknown | PendingStatus | Suspended.
#[global] Instance NodeStatus_eq_dec : EqDecision NodeStatus.
Proof. solve_decision. Defined.

Inductive HealthCheckMessage :=
  | Ping (sender : string) (timestamp sequence : Z)
  | Pong (sender responder : string) (request_timestamp response_timestamp sequence : Z)
  | StatusReport (sender : string) (status : NodeStatus) (system_load memory_usage storage_usage : f32)
      (uptime timestamp : Z).

Record NodeHealth := mkHealth {
  nh_node : StorageNode;
  nh_status : NodeStatus;
  nh_last_seen : Z;
  nh_failure_value : f64;
  nh_ping_history : list Z;
  nh_avg_ping_rtt : Z;
  nh_system_load : f32;
  nh_memory_usage : f32;
  nh_storage_usage : f32;
  nh_success_count : Z;
  nh_failure_count : Z;
  nh_pending_pings : gmap Z Z;
}.

Record HealthCheckConfig := mkHealthConfig {
  ping_interval_ms : Z;
  ping_timeout_ms : Z;
  status_report_interval_ms : Z;
  failure_detector : FailureDetectorAlgorithm;
  phi_threshold : f64;
  max_concurrent_pings : nat;
  health_check_batch_size : nat;
}.

(** [hm_write_held]: somebody holds the write guard of the map of records.
    [hm_outbox]: what is in the channel of 100 messages.  [hm_metrics]: the three
    readings of the metrics collector, when there is one. *)
Record HealthMonitor := mkMonitor {
  hm_node_id : string;
  hm_node_health : gmap string NodeHealth;
  hm_write_held : bool;
  hm_topology : HybridTopology;
  hm_config : HealthCheckConfig;
  hm_outbox : list (StorageNode * HealthCheckMessage);
  hm_sequence : Z;
  hm_start_time : Z;
  hm_metrics : option (f32 * f32 * f32);
}.

(** ** The record of a node *)

Module NHealth.

Definition new (instant : Z) (n : StorageNode) : NodeHealth :=
  mkHealth n Unknown instant f64_zero [] 0 f64_zero f64_zero f64_zero 0 0 ∅.

(** [Instant::elapsed], which saturates. *)
Definition elapsed (instant since : Z) : Z := Z.max 0 (instant - since).
Definition from_millis (ms : Z) : Z := ms * 1000000.
Definition from_secs (s : Z) : Z := s * 1000000000.

Definition set_history (l : list Z) (h : NodeHealth) : NodeHealth :=
  mkHealth (nh_node h) (nh_status h) (nh_last_seen h) (nh_failure_value h) l (nh_avg_ping_rtt h) (nh_system_load h)
    (nh_memory_usage h) (nh_storage_usage h) (nh_success_count h) (nh_failure_count h) (nh_pending_pings h).
Definition set_status (s : NodeStatus) (h : NodeHealth) : NodeHealth :=
  mkHealth (nh_node h) s (nh_last_seen h) (nh_failure_value h) (nh_ping_history h) (nh_avg_ping_rtt h) (nh_system_load h)
    (nh_memory_usage h) (nh_storage_usage h) (nh_success_count h) (nh_failure_count h) (nh_pending_pings h).
Definition set_failure_value (v : f64) (h : NodeHealth) : NodeHealth :=
  mkHealth (nh_node h) (nh_status h) (nh_last_seen h) v (nh_ping_history h) (nh_avg_ping_rtt h) (nh_system_load h)
    (nh_memory_usage h) (nh_storage_usage h) (nh_success_count h) (nh_failure_count h) (nh_pending_pings h).
Definition set_pending (p : gmap Z Z) (h : NodeHealth) : NodeHealth :=
  mkHealth (nh_node h) (nh_status h) (nh_last_seen h) (nh_failure_value h) (nh_ping_history h) (nh_avg_ping_rtt h)
    (nh_system_load h) (nh_memory_usage h) (nh_storage_usage h) (nh_success_count h) (nh_failure_count h) p.
Definition set_failures (c : Z) (h : NodeHealth) : NodeHealth :=
  mkHealth (nh_node h) (nh_status h) (nh_last_seen h) (nh_failure_value h) (nh_ping_history h) (nh_avg_ping_rtt h)
    (nh_system_load h) (nh_memory_usage h) (nh_storage_usage h) (nh_success_count h) c (nh_pending_pings h).
Definition seen_online (instant avg successes : Z) (h : NodeHealth) : NodeHealth :=
  mkHealth (nh_node h) Online instant (nh_failure_value h) (nh_ping_history h) avg (nh_system_load h)
    (nh_memory_usage h) (nh_storage_usage h) successes (nh_failure_count h) (nh_pending_pings h).

(** [self.ping_history.iter().sum::<u64>()] *)
Fixpoint sum_u64 (acc : Z) (l : list Z) : nout Z :=
  match l with
  | [] => Ok acc
  | x :: l => acc ← n_add acc x; sum_u64 acc l
  end.

(** [while len > 20 { pop_front }] *)
Definition keep_20 (l : list Z) : list Z := drop (length l - 20) l.

Definition add_ping_rtt (instant rtt_ms : Z) : NM NodeHealth unit :=
  do* mmod (fun h => set_history (keep_20 (nh_ping_history h ++ [rtt_ms])) h);
  let* h := mget in
  let* avg := mlift (match nh_ping_history h with
                     | [] => Ok (nh_avg_ping_rtt h)
                     | l => sum ← sum_u64 0 l; n_div sum (Z.of_nat (length l))
                     end) in
  do* mput (seen_online instant avg (nh_success_count h) h);
  let* c := mlift (n_add (nh_success_count h) 1) in
  mput (seen_online instant avg c h).

Definition record_timeout (instant : Z) : NM NodeHealth unit := fun h =>
  match n_add (nh_failure_count h) 1 with
  | Ok c =>
      let h := set_failures c h in
      (Ok tt, if (3 <? c) && (from_secs 30 <? elapsed instant (nh_last_seen h)) then set_status Offline h else h)
  | _ => (Panic, h)
  end.

Section Phi.
Context {LM : Libm}.

(** Abramowitz and Stegun 7.1.26. *)
Definition erf (x : f64) : f64 :=
  let a1 := f64_lit 254829592 1000000000 in
  let a2 := SFopp (f64_lit 284496736 1000000000) in
  let a3 := f64_lit 1421413741 1000000000 in
  let a4 := SFopp (f64_lit 1453152027 1000000000) in
  let a5 := f64_lit 1061405429 1000000000 in
  let p := f64_lit 3275911 10000000 in
  let one := f64_of_Z 1 in
  let sign := if f64_ltb x f64_zero then SFopp one else one in
  let x := SFabs x in
  let t := f64_div one (f64_add one (f64_mul p x)) in
  let y := f64_mul (f64_add (f64_mul (f64_add (f64_mul (f64_add (f64_mul (f64_add (f64_mul a5 t) a4) t) a3) t) a2) t) a1) t in
  f64_mul sign (f64_sub one (f64_mul y (f64_exp (f64_mul (SFopp x) x)))).

(** [std::f64::consts::SQRT_2] *)
Definition SQRT_2 : f64 := S754_finite false 6369051672525773 (-52).
Definition cdf (x : f64) : f64 := f64_div (f64_add (f64_of_Z 1) (erf (f64_div x SQRT_2))) (f64_of_Z 2).

Definition variance (mean : f64) (l : list Z) : f64 :=
  f64_div (fold_left (fun acc rtt => let diff := f64_sub (f64_of_Z rtt) mean in f64_add acc (f64_mul diff diff)) l f64_zero)
    (f64_of_Z (Z.of_nat (length l))).

Definition calculate_phi (instant : Z) (h : NodeHealth) : f64 * NodeHealth :=
  match nh_ping_history h with
  | [] => (f64_zero, h)
  | l =>
      let mean := f64_of_Z (nh_avg_ping_rtt h) in
      let std_dev := SFsqrt 53 1024 (variance mean l) in
      let time_since_last_seen := f64_of_Z (elapsed instant (nh_last_seen h) / 1000000) in
      if f64_ltb f64_zero std_dev then
        let y := f64_div (f64_sub time_since_last_seen mean) std_dev in
        let phi := f64_mul (SFopp (f64_of_Z 1)) (f64_ln (f64_sub (f64_of_Z 1) (cdf y))) in
        (phi, set_failure_value phi h)
      else if f64_ltb (f64_mul mean (f64_of_Z 3)) time_since_last_seen then
        (f64_of_Z 10, set_failure_value (f64_of_Z 10) h)
      else (f64_zero, set_failure_value f64_zero h)
  end.

End Phi.

Definition is_suspected_failed (instant : Z) (algorithm : FailureDetectorAlgorithm) (threshold : f64) (h : NodeHealth) : nout bool :=
  match algorithm with
  | Timeout => Ok ((from_secs 30 <? elapsed instant (nh_last_seen h)) && (3 <? nh_failure_count h))
  | PhiAccrual => Ok (f64_ltb threshold (nh_failure_value h))
  | Adaptive =>
      total ← n_add (nh_success_count h) (nh_failure_count h);
      let failure_ratio := if 0 <? total then f64_div (f64_of_Z (nh_failure_count h)) (f64_of_Z total) else f64_zero in
      let adjusted_threshold := f64_mul threshold (f64_sub (f64_of_Z 1) (f64_mul failure_ratio (f64_lit 1 2))) in
      Ok (f64_ltb adjusted_threshold (nh_failure_value h))
  end.

Definition update_from_status_report (instant : Z) (status : NodeStatus) (system_load memory_usage storage_usage : f32)
    (h : NodeHealth) : NodeHealth :=
  mkHealth (nh_node h) status instant (nh_failure_value h) (nh_ping_history h) (nh_avg_ping_rtt h) system_load
    memory_usage storage_usage (nh_success_count h) (nh_failure_count h) (nh_pending_pings h).

(** The sequence numbers of the pings that have timed out. *)
Definition timed_out_pings (instant timeout_duration : Z) (h : NodeHealth) : list Z :=
  map fst (filter (fun p => timeout_duration < elapsed instant p.2) (map_to_list (nh_pending_pings h))).

(** [for seq in timed_out_pings] *)
Fixpoint expire (instant : Z) (seqs : list Z) : NM NodeHealth unit :=
  match seqs with
  | [] => mret_st tt
  | seq :: seqs =>
      do* mmod (fun h => set_pending (delete seq (nh_pending_pings h)) h);
      do* record_timeout instant;
      expire instant seqs
  end.

(** The body of [process_ping_timeouts] for one record. *)
Definition check_node (instant ping_timeout : Z) (algorithm : FailureDetectorAlgorithm) (threshold : f64) : NM NodeHealth unit :=
  let* h := mget in
  do* expire instant (timed_out_pings instant (from_millis ping_timeout) h);
  let* h := mget in
  let* suspected := mlift (is_suspected_failed instant algorithm threshold h) in
  if suspected then mmod (set_status Offline) else mret_st tt.

End NHealth.

(** ** The monitor *)

Module Monitor.
Section Monitor.
Context {HX : Hex} {DO : DashOrder} {NO : NodeOrder}.

Definition default_config : HealthCheckConfig := mkHealthConfig 5000 2000 30000 PhiAccrual (f64_of_Z 8) 10 5.

Definition new (instant : Z) (node_id : string) (topology : HybridTopology) (config : HealthCheckConfig)
    (metrics : option (f32 * f32 * f32)) : HealthMonitor :=
  mkMonitor node_id ∅ false topology config [] 0 instant metrics.

Definition set_health (x : gmap string NodeHealth) (m : HealthMonitor) : HealthMonitor :=
  mkMonitor (hm_node_id m) x (hm_write_held m) (hm_topology m) (hm_config m) (hm_outbox m) (hm_sequence m)
    (hm_start_time m) (hm_metrics m).
Definition set_held (b : bool) (m : HealthMonitor) : HealthMonitor :=
  mkMonitor (hm_node_id m) (hm_node_health m) b (hm_topology m) (hm_config m) (hm_outbox m) (hm_sequence m)
    (hm_start_time m) (hm_metrics m).
Definition set_outbox (l : list (StorageNode * HealthCheckMessage)) (m : HealthMonitor) : HealthMonitor :=
  mkMonitor (hm_node_id m) (hm_node_health m) (hm_write_held m) (hm_topology m) (hm_config m) l (hm_sequence m)
    (hm_start_time m) (hm_metrics m).
Definition set_sequence (n : Z) (m : HealthMonitor) : HealthMonitor :=
  mkMonitor (hm_node_id m) (hm_node_health m) (hm_write_held m) (hm_topology m) (hm_config m) (hm_outbox m) n
    (hm_start_time m) (hm_metrics m).

(** [node_health.read().await] *)
Definition read_lock : NM HealthMonitor (gmap string NodeHealth) := fun m =>
  if hm_write_held m then (Hang, m) else (Ok (hm_node_health m), m).

(** A scope that holds the guard of [node_health.write().await]; the guard is
    dropped at its end and by a panic, but not while the scope waits. *)
Definition with_write {A} (f : NM HealthMonitor A) : NM HealthMonitor A := fun m =>
  if hm_write_held m then (Hang, m)
  else
    match f (set_held true m) with
    | (Hang, m') => (Hang, m')
    | (o, m') => (o, set_held false m')
    end.

(** [message_tx.try_send(..)]: a full channel only logs an error. *)
Definition try_send (msg : StorageNode * HealthCheckMessage) (m : HealthMonitor) : HealthMonitor :=
  if (length (hm_outbox m) <? 100)%nat then set_outbox (hm_outbox m ++ [msg]) m else m.

(** The loop of [FailureDetectorAlgorithm::process_ping_timeouts]. *)
Fixpoint check_all (instant : Z) (c : HealthCheckConfig) (l : list (string * NodeHealth)) : NM HealthMonitor unit :=
  match l with
  | [] => mret_st tt
  | (id, h) :: l =>
      let '(o, h') := NHealth.check_node instant (ping_timeout_ms c) (failure_detector c) (phi_threshold c) h in
      do* mmod (fun m => set_health (<[id := h']> (hm_node_health m)) m);
      do* mlift o;
      check_all instant c l
  end.

Definition process_ping_timeouts (instant : Z) : NM HealthMonitor unit :=
  with_write (let* m := mget in check_all instant (hm_config m) (dash_iter (hm_node_health m))).

(** The [StorageNode] of a neighbour. *)
Definition neighbour (n : NodeInfo) : StorageNode :=
  let id := Id.to_string (n_id n) in
  mkNodeInfo id ("Node " +:+ id) (match n_region n with Some r => pretty r | None => "unknown" end) "N/A"
    ("http://" +:+ n_address n).

Definition all_neighbors (m : HealthMonitor) : list NodeInfo := (node_iter (Topo.all_neighbors (hm_topology m))).*2.

(** [health_map.entry(id).or_insert_with(..)] for every neighbour but the node itself. *)
Definition add_neighbour (instant : Z) (self : string) (x : gmap string NodeHealth) (n : NodeInfo) : gmap string NodeHealth :=
  let id := Id.to_string (n_id n) in
  if bool_decide (id = self) then x
  else match x !! id with
       | Some _ => x
       | None => <[id := NHealth.set_status Online (NHealth.new instant (neighbour n))]> x
       end.

Definition update_node_health_from_topology_nodes (instant : Z) (all_nodes : list NodeInfo) : NM HealthMonitor unit :=
  with_write (mmod (fun m => set_health (fold_left (fun x n =>
    let id := Id.to_string (n_id n) in
    if bool_decide (x !! id = None) && negb (bool_decide (id = hm_node_id m))
    then <[id := NHealth.new instant (neighbour n)]> x else x) all_nodes (hm_node_health m)) m)).

Definition select_nodes_to_ping (batch_size : nat) : NM HealthMonitor (list StorageNode) :=
  let* x := read_lock in
  mret_st (map nh_node (take batch_size (filter (fun h => nh_status h = Online) (map snd (dash_iter x))))).

(** [for node in nodes_to_ping] *)
Fixpoint send_pings (instant now_ms sequence : Z) (nodes : list StorageNode) : NM HealthMonitor unit :=
  match nodes with
  | [] => mret_st tt
  | n :: nodes =>
      do* with_write (mmod (fun m => set_health (alter (fun h => NHealth.set_pending (<[sequence := instant]> (nh_pending_pings h)) h)
                                                   (sn_id n) (hm_node_health m)) m));
      let* m := mget in
      do* mput (try_send (n, Ping (hm_node_id m) now_ms sequence) m);
      send_pings instant now_ms sequence nodes
  end.

(** One turn of the ping task.  The guard of the map taken for the update is
    alive until the end of the turn. *)
Definition ping_tick (instant now_ms : Z) : NM HealthMonitor unit :=
  let* m := mget in
  match all_neighbors m with
  | [] => mret_st tt
  | all_nodes =>
      with_write
        (do* mmod (fun m => set_health (fold_left (add_neighbour instant (hm_node_id m)) all_nodes (hm_node_health m)) m);
         let* nodes_to_ping := select_nodes_to_ping (health_check_batch_size (hm_config m)) in
         match nodes_to_ping with
         | [] => mret_st tt
         | _ =>
             let* m := mget in
             let* seq := mlift (n_add (hm_sequence m) 1) in
             do* mmod (set_sequence seq);
             do* process_ping_timeouts instant;
             do* send_pings instant now_ms seq nodes_to_ping;
             process_ping_timeouts instant
         end)
  end.

(** One turn of the status report task. *)
Definition status_report_tick (instant now_ms : Z) : NM HealthMonitor unit :=
  mmod (fun m =>
    let uptime := NHealth.elapsed instant (hm_start_time m) / 1000000000 in
    let '(system_load, memory_usage, storage_usage) :=
      unwrap_or (f32_lit 1 10, f32_lit 2 10, f32_lit 3 10) (hm_metrics m) in
    let report := StatusReport (hm_node_id m) Online system_load memory_usage storage_usage uptime now_ms in
    fold_left (fun m peer => try_send (neighbour peer, report) m) (all_neighbors m) m).

Definition process_message (instant now_ms : Z) (sender_node : StorageNode) (message : HealthCheckMessage) : NM HealthMonitor unit :=
  match message with
  | Ping sender timestamp sequence =>
      mmod (fun m => try_send (sender_node, Pong sender (hm_node_id m) timestamp now_ms sequence) m)
  | Pong _ responder request_timestamp _ sequence =>
      let rtt_ms := saturating_sub now_ms request_timestamp in
      with_write
        (let* m := mget in
         match hm_node_health m !! responder with
         | Some h =>
             match nh_pending_pings h !! sequence with
             | Some _ =>
                 let '(o, h') := NHealth.add_ping_rtt instant rtt_ms (NHealth.set_pending (delete sequence (nh_pending_pings h)) h) in
                 do* mput (set_health (<[responder := h']> (hm_node_health m)) m);
                 do* mlift o;
                 if bool_decide (failure_detector (hm_config m) = Timeout) then mret_st tt
                 else mmod (fun m => set_health (<[responder := NHealth.set_failure_value f64_zero h']> (hm_node_health m)) m)
             | None => mret_st tt
             end
         | None => mret_st tt
         end)
  | StatusReport sender status system_load memory_usage storage_usage _ _ =>
      with_write (mmod (fun m => set_health
        (alter (NHealth.update_from_status_report instant status system_load memory_usage storage_usage) sender (hm_node_health m)) m))
  end.

Definition get_all_node_health : NM HealthMonitor (gmap string NodeHealth) := read_lock.

(** [health_map.iter().filter(..).map(..)] *)
Fixpoint suspected_ids (instant : Z) (c : HealthCheckConfig) (l : list (string * NodeHealth)) : nout (list string) :=
  match l with
  | [] => Ok []
  | (id, h) :: l =>
      suspected ← NHealth.is_suspected_failed instant (failure_detector c) (phi_threshold c) h;
      rest ← suspected_ids instant c l;
      Ok (if suspected : bool then id :: rest else rest)
  end.

Definition get_suspected_nodes (instant : Z) : NM HealthMonitor (list string) :=
  let* x := read_lock in
  let* m := mget in
  mlift (suspected_ids instant (hm_config m) (dash_iter x)).

End Monitor.
End Monitor.

(** ** Facts about records *)

Lemma keep_20_snoc l x : NHealth.keep_20 (NHealth.keep_20 l ++ [x]) = NHealth.keep_20 (l ++ [x]).
Proof.
  unfold NHealth.keep_20. rewrite !length_app, length_drop. cbn [length].
  destruct (decide (length l ≤ 20)%nat) as [H|H].
  - replace (length l - 20)%nat with 0%nat by lia. rewrite drop_0. f_equal. lia.
  - rewrite !drop_app_le by (rewrite ?length_drop; lia). rewrite drop_drop. f_equal. f_equal. lia.
Qed.

Lemma keep_20_length l : (length (NHealth.keep_20 l) ≤ 20)%nat.
Proof. unfold NHealth.keep_20. rewrite length_drop. lia. Qed.

Definition sum_list (l : list Z) : Z := foldr Z.add 0 l.

Lemma sum_list_bounds b l : 0 ≤ b → Forall (fun x => 0 ≤ x < b) l → 0 ≤ sum_list l ≤ b * Z.of_nat (length l).
Proof. unfold sum_list. intros Hb. induction 1; cbn [foldr length]; lia. Qed.

Lemma sum_u64_ok l acc : Forall (fun x => 0 ≤ x < 2 ^ 59) l → 0 ≤ acc → acc + 2 ^ 59 * Z.of_nat (length l) ≤ u64_max →
  NHealth.sum_u64 acc l = Ok (acc + sum_list l).
Proof.
  intros H. revert acc. induction H as [|x l Hx Hl IH]; intros acc Ha Hb; cbn [NHealth.sum_u64 sum_list foldr]; [f_equal; lia|].
  cbn [length] in Hb. unfold n_add. rewrite (proj2 (Z.leb_le _ _)) by lia. cbn [mbind outcome_bind].
  rewrite IH by lia. unfold sum_list. f_equal. lia.
Qed.

(** A measurement below 2^59 is recorded without overflow. *)
Lemma add_ping_rtt_ok instant rtt h :
  Forall (fun x => 0 ≤ x < 2 ^ 59) (nh_ping_history h) → 0 ≤ rtt < 2 ^ 59 → nh_success_count h < u64_max →
  let l := NHealth.keep_20 (nh_ping_history h ++ [rtt]) in
  NHealth.add_ping_rtt instant rtt h =
    (Ok tt, NHealth.seen_online instant (sum_list l / Z.of_nat (length l)) (nh_success_count h + 1) (NHealth.set_history l h)).
Proof.
  intros Hh Hr Hs l. unfold NHealth.add_ping_rtt, mbind_st, mmod, mget, mlift, mput. fold l.
  cbn [NHealth.set_history nh_ping_history nh_success_count].
  assert (Forall (fun x => 0 ≤ x < 2 ^ 59) l) as Hl.
  { apply Forall_drop, Forall_app. split; [done|]. by constructor. }
  assert (length l ≠ 0)%nat as Hne.
  { unfold l, NHealth.keep_20. rewrite length_drop, length_app. cbn [length]. lia. }
  pose proof (keep_20_length (nh_ping_history h ++ [rtt])) as H20. fold l in H20.
  destruct l as [|x l'] eqn:El; [done|]. rewrite <- El in *.
  rewrite sum_u64_ok by (done || (unfold u64_max; lia)). cbn [mbind outcome_bind]. unfold n_div.
  rewrite (proj2 (Z.eqb_neq _ _)) by lia. unfold n_add. rewrite (proj2 (Z.leb_le _ _)) by lia. by rewrite Z.add_0_l.
Qed.

Lemma record_timeout_ok instant h : nh_failure_count h < u64_max →
  NHealth.record_timeout instant h =
    (Ok tt, (if (3 <? nh_failure_count h + 1) && (NHealth.from_secs 30 <? NHealth.elapsed instant (nh_last_seen h))
             then NHealth.set_status Offline else id) (NHealth.set_failures (nh_failure_count h + 1) h)).
Proof.
  intros H. unfold NHealth.record_timeout, n_add. rewrite (proj2 (Z.leb_le _ _)) by lia.
  cbn [NHealth.set_failures nh_last_seen]. by destruct (_ && _).
Qed.

(** What [n] expired pings do to the status. *)
Definition late (instant : Z) (h : NodeHealth) : bool := NHealth.from_secs 30 <? NHealth.elapsed instant (nh_last_seen h).

Definition expired (instant : Z) (seqs : list Z) (h : NodeHealth) : NodeHealth :=
  let c := nh_failure_count h + Z.of_nat (length seqs) in
  (if negb (bool_decide (seqs = [])) && (3 <? c) && late instant h then NHealth.set_status Offline else id)
    (NHealth.set_failures c (NHealth.set_pending (foldr delete (nh_pending_pings h) seqs) h)).

Lemma expire_ok instant seqs h : nh_failure_count h + Z.of_nat (length seqs) ≤ u64_max →
  NHealth.expire instant seqs h = (Ok tt, expired instant (rev seqs) h).
Proof.
  revert h. induction seqs as [|q seqs IH]; intros h Hc.
  { cbn [NHealth.expire rev]. unfold mret_st, expired. cbn. rewrite Z.add_0_r. by destruct h. }
  cbn [length] in Hc. cbn [NHealth.expire]. unfold mbind_st at 1, mmod. unfold mbind_st.
  rewrite record_timeout_ok by (cbn [NHealth.set_pending nh_failure_count]; lia).
  cbn [NHealth.set_pending nh_failure_count nh_last_seen].
  match goal with |- context [NHealth.expire instant seqs ?h'] => set (h1 := h') end. rewrite (IH h1).
  2: { subst h1. destruct (_ && _); cbn [id NHealth.set_status NHealth.set_failures nh_failure_count]; lia. }
  f_equal. unfold expired, late. rewrite !length_rev. subst h1. cbn [rev length].
  rewrite foldr_app. cbn [foldr]. rewrite (bool_decide_eq_false_2 (rev seqs ++ [q] = [])) by (by destruct (rev seqs)).
  fold (late instant h). unfold late.
  destruct (NHealth.from_secs 30 <? _) eqn:El; destruct (3 <? nh_failure_count h + 1) eqn:E1; cbn [andb negb id];
    cbn [NHealth.set_status NHealth.set_failures NHealth.set_pending nh_failure_count nh_last_seen nh_pending_pings];
    rewrite ?El, ?andb_false_r, ?andb_true_r; cbn [negb andb];
    replace (nh_failure_count h + 1 + Z.of_nat (length seqs)) with (nh_failure_count h + Z.of_nat (S (length seqs))) by lia.
  - destruct (3 <? nh_failure_count h + Z.of_nat (S (length seqs))) eqn:E2; zbool; [|lia].
    by destruct (negb _); cbn.
  - destruct (decide (seqs = [])) as [->|Hn].
    + cbn [rev length]. rewrite bool_decide_eq_true_2 by done. cbn [negb andb].
      replace (nh_failure_count h + Z.of_nat 1) with (nh_failure_count h + 1) by lia. rewrite E1. done.
    + rewrite bool_decide_eq_false_2; [done|]. intros E. apply Hn. by rewrite <- (rev_involutive seqs), E.
  - done.
  - done.
Qed.

Lemma foldr_delete_lookup (m : gmap Z Z) l k : foldr delete m l !! k = if decide (k ∈ l) then None else m !! k.
Proof.
  induction l as [|x l IH]; cbn [foldr]; [by rewrite decide_False by apply not_elem_of_nil|].
  destruct (decide (k = x)) as [->|Hn].
  - rewrite lookup_delete_eq, decide_True; [done|]. by left.
  - rewrite lookup_delete_ne, IH by done. apply decide_ext. rewrite elem_of_cons. tauto.
Qed.

Lemma elem_of_timed_out instant t h k :
  k ∈ NHealth.timed_out_pings instant t h ↔ ∃ i, nh_pending_pings h !! k = Some i ∧ t < NHealth.elapsed instant i.
Proof.
  unfold NHealth.timed_out_pings. rewrite list_elem_of_fmap. split.
  - intros ([k' i] & -> & Hf). apply list_elem_of_filter in Hf as [Ht Hi]. exists i. split; [by apply elem_of_map_to_list|done].
  - intros (i & Hi & Ht). exists (k, i). split; [done|]. apply list_elem_of_filter. split; [done|by apply elem_of_map_to_list].
Qed.

(** The pings that remain. *)
Definition in_time (instant t : Z) (p : Z * Z) : Prop := NHealth.elapsed instant p.2 ≤ NHealth.from_millis t.
#[global] Instance in_time_dec instant t p : Decision (in_time instant t p).
Proof. unfold in_time. apply _. Defined.

Lemma expired_pending instant t h :
  foldr delete (nh_pending_pings h) (rev (NHealth.timed_out_pings instant (NHealth.from_millis t) h)) =
  filter (in_time instant t) (nh_pending_pings h).
Proof.
  apply map_eq. intros k. rewrite foldr_delete_lookup.
  assert (k ∈ rev (NHealth.timed_out_pings instant (NHealth.from_millis t) h) ↔
          ∃ i, nh_pending_pings h !! k = Some i ∧ NHealth.from_millis t < NHealth.elapsed instant i) as Hk.
  { rewrite <- elem_of_timed_out, !list_elem_of_In. symmetry. apply in_rev. }
  case_decide as Hd.
  - apply Hk in Hd as (i & Hi & Ht). symmetry. apply map_lookup_filter_None_2. right. intros x Hx. unfold in_time. cbn.
    assert (x = i) as -> by congruence. lia.
  - destruct (nh_pending_pings h !! k) as [i|] eqn:E.
    + symmetry. apply map_lookup_filter_Some_2; [done|]. unfold in_time. cbn. apply Z.nlt_ge. intros Hlt. apply Hd, Hk. by exists i.
    + symmetry. apply map_lookup_filter_None_2. by left.
Qed.

Lemma timed_out_nil instant t h : nh_pending_pings h = filter (in_time instant t) (nh_pending_pings h) →
  NHealth.timed_out_pings instant (NHealth.from_millis t) h = [].
Proof.
  intros H. destruct (NHealth.timed_out_pings _ _ h) as [|k l] eqn:E; [done|].
  assert (k ∈ NHealth.timed_out_pings instant (NHealth.from_millis t) h) as Hk by (rewrite E; left).
  apply elem_of_timed_out in Hk as (i & Hi & Ht). rewrite H in Hi.
  apply map_lookup_filter_Some in Hi as [_ Hi]. unfold in_time in Hi. cbn in Hi. lia.
Qed.

(** ** Properties of records *)

Definition add_rtts (l : list (Z * Z)) (h : NodeHealth) : NodeHealth :=
  fold_left (fun h p => (NHealth.add_ping_rtt p.1 p.2 h).2) l h.

(** The ping statistics are exact: after any sequence of round-trip times the
    history holds the last twenty in their order, the average is their mean
    rounded down, every measurement counted, and the node is online and was seen
    at the last one; no step overflows while the times stay below 2^59 ms. *)
Theorem ping_statistics_exact (l : list (Z * Z)) (instant : Z) (n : StorageNode) :
  Forall (fun p => 0 ≤ p.2 < 2 ^ 59) l → Z.of_nat (length l) < u64_max →
  let h := add_rtts l (NHealth.new instant n) in
  nh_ping_history h = NHealth.keep_20 (map snd l) ∧ nh_success_count h = Z.of_nat (length l) ∧ nh_node h = n ∧
  (∀ p, last l = Some p → nh_status h = Online ∧ nh_last_seen h = p.1 ∧
     nh_avg_ping_rtt h = sum_list (nh_ping_history h) / Z.of_nat (length (nh_ping_history h))) ∧
  (∀ i rtt, 0 ≤ rtt < 2 ^ 59 → (NHealth.add_ping_rtt i rtt h).1 = Ok tt).
Proof.
  intros Hl Hn h. subst h. induction l as [|[i rtt] l IH] using rev_ind.
  { unfold add_rtts. cbn [fold_left]. split_and!; [done..|]. intros i rtt Hr. by rewrite add_ping_rtt_ok. }
  apply Forall_app in Hl as [Hl Hr]. apply Forall_cons in Hr as [Hr _]. cbn [snd] in Hr.
  rewrite length_app in Hn. cbn [length] in Hn.
  destruct (IH Hl ltac:(lia)) as (Hh & Hs & Hnode & _ & _). clear IH.
  unfold add_rtts. rewrite fold_left_app. cbn [fold_left fst snd]. fold (add_rtts l (NHealth.new instant n)).
  set (h := add_rtts l (NHealth.new instant n)) in *.
  assert (Forall (fun x => 0 ≤ x < 2 ^ 59) (nh_ping_history h)) as Hb.
  { rewrite Hh. apply Forall_drop, Forall_map. exact Hl. }
  rewrite add_ping_rtt_ok by (done || lia). cbn [snd].
  set (k := NHealth.keep_20 (nh_ping_history h ++ [rtt])).
  assert (k = NHealth.keep_20 (map snd (l ++ [(i, rtt)]))) as Hk.
  { unfold k. by rewrite Hh, keep_20_snoc, map_app. }
  cbn [NHealth.seen_online NHealth.set_history nh_ping_history nh_success_count nh_node nh_status nh_last_seen nh_avg_ping_rtt].
  split_and!; [done|rewrite Hs, length_app; cbn [length]; lia|done| |].
  - intros p Hp. rewrite last_snoc in Hp. injection Hp as <-. done.
  - intros i' rtt' Hr'. rewrite add_ping_rtt_ok; [done| |done|].
    + cbn [NHealth.seen_online NHealth.set_history nh_ping_history]. apply Forall_drop, Forall_app. split; [done|]. by constructor.
    + cbn [NHealth.seen_online nh_success_count]. lia.
Qed.

(** Timeouts are processed exactly: with the timeout detector, a pass drops
    just the pings that waited longer than the limit, counts each as a failure,
    and marks the node offline exactly when it was last seen more than thirty
    seconds ago and has failed more than three times; a second pass at the same
    instant changes nothing. *)
Theorem timeouts_processed_exactly (instant t : Z) (threshold : f64) (h : NodeHealth) :
  nh_failure_count h + Z.of_nat (size (nh_pending_pings h)) ≤ u64_max →
  ∃ h', NHealth.check_node instant t Timeout threshold h = (Ok tt, h') ∧
    nh_pending_pings h' = filter (in_time instant t) (nh_pending_pings h) ∧
    nh_failure_count h' = nh_failure_count h + Z.of_nat (length (NHealth.timed_out_pings instant (NHealth.from_millis t) h)) ∧
    nh_status h' = (if late instant h && (3 <? nh_failure_count h') then Offline else nh_status h) ∧
    NHealth.check_node instant t Timeout threshold h' = (Ok tt, h').
Proof.
  intros Hc. set (seqs := NHealth.timed_out_pings instant (NHealth.from_millis t) h).
  assert (length seqs ≤ size (nh_pending_pings h))%nat as Hlen.
  { unfold seqs, NHealth.timed_out_pings. rewrite length_map, <- length_map_to_list. apply length_filter. }
  pose proof (expired_pending instant t h) as Hp. fold seqs in Hp.
  unfold NHealth.check_node at 1, mbind_st, mget, mlift. fold seqs. rewrite expire_ok by lia.
  set (h1 := expired instant (rev seqs) h).
  assert (nh_pending_pings h1 = filter (in_time instant t) (nh_pending_pings h) ∧
    nh_failure_count h1 = nh_failure_count h + Z.of_nat (length seqs) ∧ nh_last_seen h1 = nh_last_seen h ∧
    nh_status h1 = (if negb (bool_decide (rev seqs = [])) && (3 <? nh_failure_count h1) && late instant h then Offline else nh_status h))
    as (H1 & H2 & H3 & H4).
  { unfold h1, expired. rewrite length_rev, Hp. destruct (_ && late instant h) eqn:E;
      cbn [id NHealth.set_status NHealth.set_failures NHealth.set_pending nh_pending_pings nh_failure_count nh_last_seen nh_status];
      rewrite ?E; done. }
  unfold NHealth.is_suspected_failed. rewrite H3. fold (late instant h).
  set (h2 := if late instant h && (3 <? nh_failure_count h1) then NHealth.set_status Offline h1 else h1).
  assert ((if late instant h && (3 <? nh_failure_count h1) then mmod (NHealth.set_status Offline) else mret_st tt) h1
          = (Ok tt, h2) :> nout unit * NodeHealth) as -> by (unfold h2; destruct (late instant h && (3 <? nh_failure_count h1)); done).
  assert (nh_pending_pings h2 = nh_pending_pings h1 ∧ nh_failure_count h2 = nh_failure_count h1 ∧ nh_last_seen h2 = nh_last_seen h1
    ∧ nh_status h2 = if late instant h && (3 <? nh_failure_count h1) then Offline else nh_status h1) as (P1 & P2 & P3 & P4)
    by (unfold h2; destruct (late instant h && (3 <? nh_failure_count h1)); done).
  exists h2. rewrite P1, P2. split_and!; [done|done|done| |].
  - rewrite P4, H4. destruct (late instant h), (3 <? nh_failure_count h1); cbn [andb]; rewrite ?andb_false_r; try done.
  - unfold NHealth.check_node, mbind_st, mget, mlift. rewrite timed_out_nil.
    2: { rewrite P1, H1. symmetry. by apply map_filter_filter_l. }
    cbn [NHealth.expire]. unfold mret_st at 1, NHealth.is_suspected_failed. rewrite P2, P3, H3. fold (late instant h).
    unfold h2. destruct (late instant h && (3 <? nh_failure_count h1)); done.
Qed.

(** ** Properties of the monitor *)

Section MonitorProperties.
Context {HX : Hex} {DO : DashOrder} {NO : NodeOrder}.

(** What changes a monitor: the turns of its tasks, the messages and calls it
    gets, changes of the topology by others, and the reader of the channel. *)
Inductive HealthOp :=
  | OpPing (instant now_ms : Z)
  | OpReport (instant now_ms : Z)
  | OpMessage (instant now_ms : Z) (sender_node : StorageNode) (message : HealthCheckMessage)
  | OpTimeouts (instant : Z)
  | OpTopology (t : HybridTopology)
  | OpReceive.

Definition apply_health (m : HealthMonitor) (op : HealthOp) : HealthMonitor :=
  match op with
  | OpPing i n => (Monitor.ping_tick i n m).2
  | OpReport i n => (Monitor.status_report_tick i n m).2
  | OpMessage i n s msg => (Monitor.process_message i n s msg m).2
  | OpTimeouts i => (Monitor.process_ping_timeouts i m).2
  | OpTopology t => mkMonitor (hm_node_id m) (hm_node_health m) (hm_write_held m) t (hm_config m) (hm_outbox m)
                      (hm_sequence m) (hm_start_time m) (hm_metrics m)
  | OpReceive => Monitor.set_outbox (tail (hm_outbox m)) m
  end.
Definition run_health : list HealthOp → HealthMonitor → HealthMonitor := fun ops m => fold_left apply_health ops m.

Definition is_ping (msg : HealthCheckMessage) : bool := match msg with Ping _ _ _ => true | _ => false end.

(** The lock is held, or there are no records; no ping was sent. *)
Definition inert (m : HealthMonitor) : Prop :=
  (hm_write_held m = true ∨ hm_node_health m = ∅) ∧ hm_sequence m = 0 ∧ Forall (fun p => is_ping p.2 = false) (hm_outbox m).

Lemma mget_run {A} (f : HealthMonitor → NM HealthMonitor A) m : mbind_st mget f m = f m m.
Proof. reflexivity. Qed.

Lemma held_write {A} (f : NM HealthMonitor A) m : hm_write_held m = true → Monitor.with_write f m = (Hang, m).
Proof. intros H. unfold Monitor.with_write. by rewrite H. Qed.

Lemma ping_tick_hangs i n m : Monitor.all_neighbors m ≠ [] →
  ∃ m', Monitor.ping_tick i n m = (Hang, m') ∧ hm_write_held m' = true ∧ hm_sequence m' = hm_sequence m ∧ hm_outbox m' = hm_outbox m.
Proof.
  intros Hn. unfold Monitor.ping_tick, mbind_st at 1, mget. destruct (Monitor.all_neighbors m) as [|x l] eqn:E; [done|].
  destruct (hm_write_held m) eqn:Hh; [exists m; by rewrite held_write|].
  unfold Monitor.with_write. rewrite Hh. unfold mbind_st at 1, mmod, mbind_st at 1, Monitor.select_nodes_to_ping.
  unfold mbind_st at 1, Monitor.read_lock. cbn [Monitor.set_health Monitor.set_held hm_write_held].
  eexists. split; [reflexivity|]. split_and!; reflexivity.
Qed.

Lemma try_send_fields msg m : is_ping msg.2 = false → inert m →
  inert (Monitor.try_send msg m) ∧ hm_write_held (Monitor.try_send msg m) = hm_write_held m.
Proof.
  intros Hp (H1 & H2 & H3). unfold Monitor.try_send. case_test; [|by split_and!].
  split; [|done]. split_and!; [done|done|]. cbn. apply Forall_app. split; [done|by constructor].
Qed.

Lemma report_inert i n m : inert m → inert (Monitor.status_report_tick i n m).2 ∧
  hm_write_held (Monitor.status_report_tick i n m).2 = hm_write_held m.
Proof.
  unfold Monitor.status_report_tick, mmod. cbn [snd]. destruct (unwrap_or _ (hm_metrics m)) as [[a b] c].
  generalize (hm_node_id m) (NHealth.elapsed i (hm_start_time m) / 1000000000). intros self up.
  generalize (Monitor.all_neighbors m). intros l. revert m.
  induction l as [|p l IH]; intros m Hm; cbn [fold_left]; [done|].
  destruct (try_send_fields (Monitor.neighbour p, StatusReport self Online a b c up n) m eq_refl Hm) as [Hi Hh].
  destruct (IH _ Hi) as [Hi' Hh']. by rewrite Hh', Hh.
Qed.

Lemma message_inert i n s msg m : inert m → inert (Monitor.process_message i n s msg m).2 ∧
  hm_write_held (Monitor.process_message i n s msg m).2 = hm_write_held m.
Proof.
  intros Hm. destruct msg as [sender ts q|a responder rt c q|sender st x y z u ts]; cbn [Monitor.process_message].
  - unfold mmod. cbn [snd]. by apply try_send_fields.
  - destruct (hm_write_held m) eqn:Hh; [rewrite held_write by done; by split|].
    destruct Hm as ([Hc|He] & Hs & Ho); [congruence|].
    unfold Monitor.with_write. rewrite Hh, mget_run. cbn [Monitor.set_held hm_node_health]. rewrite He, lookup_empty.
    split; [|reflexivity]. split; [right; exact He|]. split; [exact Hs|exact Ho].
  - destruct (hm_write_held m) eqn:Hh; [rewrite held_write by done; by split|].
    destruct Hm as ([Hc|He] & Hs & Ho); [congruence|].
    unfold Monitor.with_write, mmod. rewrite Hh. split; [|reflexivity].
    split; [right|split; [exact Hs|exact Ho]]. cbn. by rewrite He, alter_empty.
Qed.

Lemma timeouts_inert i m : inert m → inert (Monitor.process_ping_timeouts i m).2 ∧
  hm_write_held (Monitor.process_ping_timeouts i m).2 = hm_write_held m.
Proof.
  intros Hm. unfold Monitor.process_ping_timeouts. destruct (hm_write_held m) eqn:Hh; [rewrite held_write by done; by split|].
  destruct Hm as ([Hc|He] & Hs & Ho); [congruence|].
  unfold Monitor.with_write. rewrite Hh, mget_run. cbn [Monitor.set_held hm_node_health]. rewrite He, dash_iter_empty.
  split; [|reflexivity]. split; [right; exact He|]. split; [exact Hs|exact Ho].
Qed.

Lemma apply_health_inert m op : inert m → inert (apply_health m op) ∧
  (hm_write_held m = true → hm_write_held (apply_health m op) = true).
Proof.
  intros Hm. destruct op as [i n|i n|i n s msg|i|t|]; cbn [apply_health].
  - destruct (Monitor.all_neighbors m) as [|x l] eqn:E.
    { unfold Monitor.ping_tick, mbind_st, mget. rewrite E. done. }
    destruct (ping_tick_hangs i n m) as (m' & -> & Hh & Hs & Ho); [congruence|]. cbn [snd]. split; [|done].
    destruct Hm as (_ & ? & ?). split_and!; [by left|congruence|congruence].
  - destruct (report_inert i n m Hm) as [? ->]. done.
  - destruct (message_inert i n s msg m Hm) as [? ->]. done.
  - destruct (timeouts_inert i m Hm) as [? ->]. done.
  - done.
  - split; [|done]. destruct Hm as (? & ? & Ho). split_and!; [done|done|]. cbn.
    destruct (hm_outbox m); [done|]. by apply Forall_cons in Ho as [_ ?].
Qed.

Lemma run_health_inert ops m : inert m → inert (run_health ops m) ∧
  (hm_write_held m = true → hm_write_held (run_health ops m) = true).
Proof.
  revert m. induction ops as [|op ops IH]; intros m Hm; [done|]. unfold run_health. cbn [fold_left].
  destruct (apply_health_inert m op Hm) as [H1 H2]. destruct (IH _ H1) as [H3 H4]. split; [done|auto].
Qed.

(** The monitor never monitors: in every state it reaches from its creation,
    by whatever interleaving of its tasks, messages, calls and changes of the
    topology, no ping was ever sent, and a look-up finds no record of any node and
    suspects none, or it never returns. *)
Theorem health_monitor_inert (instant : Z) (node_id : string) (t : HybridTopology) (c : HealthCheckConfig)
    (metrics : option (f32 * f32 * f32)) (ops : list HealthOp) (i : Z) :
  let m := run_health ops (Monitor.new instant node_id t c metrics) in
  Forall (fun p => is_ping p.2 = false) (hm_outbox m) ∧
  ((Monitor.get_all_node_health m).1 = Ok ∅ ∧ (Monitor.get_suspected_nodes i m).1 = Ok [] ∨
   (Monitor.get_all_node_health m).1 = Hang ∧ (Monitor.get_suspected_nodes i m).1 = Hang).
Proof.
  intros m. assert (inert m) as (H1 & _ & H3).
  { apply run_health_inert. split_and!; [by right|done|by constructor]. }
  split; [done|]. unfold Monitor.get_all_node_health, Monitor.get_suspected_nodes, mbind_st, Monitor.read_lock, mget, mlift.
  destruct (hm_write_held m) eqn:Hh; [by right|left]. destruct H1 as [?|H1]; [congruence|].
  cbn [fst]. rewrite H1, dash_iter_empty. done.
Qed.

(** The ping task deadlocks with itself: on its first turn with a neighbour it
    waits for a read guard while it holds the write guard, and never returns; from
    then on, whatever else happens, every further turn with a neighbour, every
    pong and status report, every pass over the timeouts and every look-up waits
    for ever too, while pings of others are still answered. *)
Theorem ping_task_deadlocks (i now_ms : Z) (m : HealthMonitor) (ops : list HealthOp) :
  Monitor.all_neighbors m ≠ [] → inert m →
  ∃ m', Monitor.ping_tick i now_ms m = (Hang, m') ∧
    let m'' := run_health ops m' in
    (Monitor.all_neighbors m'' ≠ [] → (Monitor.ping_tick i now_ms m'').1 = Hang) ∧
    (Monitor.process_ping_timeouts i m'').1 = Hang ∧ (Monitor.get_all_node_health m'').1 = Hang ∧
    (Monitor.get_suspected_nodes i m'').1 = Hang ∧
    ∀ s msg, (Monitor.process_message i now_ms s msg m'').1 = if is_ping msg then Ok tt else Hang.
Proof.
  intros Hn Hm. destruct (ping_tick_hangs i now_ms m Hn) as (m' & -> & Hh & Hs & Ho). exists m'. split; [done|].
  assert (inert m') as Hm'. { destruct Hm as (_ & ? & ?). split_and!; [by left|congruence|congruence]. }
  destruct (run_health_inert ops m' Hm') as [_ Hr]. specialize (Hr Hh). cbn zeta. set (m'' := run_health ops m') in *.
  split_and!.
  - intros Hn'. by destruct (ping_tick_hangs i now_ms m'' Hn') as (x & -> & _).
  - unfold Monitor.process_ping_timeouts. by rewrite held_write.
  - unfold Monitor.get_all_node_health, Monitor.read_lock. by rewrite Hr.
  - unfold Monitor.get_suspected_nodes, mbind_st, Monitor.read_lock. by rewrite Hr.
  - intros s [| |]; cbn [Monitor.process_message is_ping]; [done|by rewrite held_write|by rewrite held_write].
Qed.

End MonitorProperties.

(** ** Witnesses *)

Module HealthWitness.
#[local] Existing Instance ToyHex.toy_hex.
#[local] Instance toy_dash : DashOrder := {| dash_iter A := map_to_list; dash_iter_perm A m := reflexivity _ |}.
#[local] Instance toy_nodes : NodeOrder := {| node_iter A := map_to_list; node_iter_perm A m := reflexivity _ |}.

Definition peer : StorageNode := mkNodeInfo "peer" "Node peer" "unknown" "N/A" "http://addr".

Lemma ping_statistics_exact_witness :
  nh_avg_ping_rtt (add_rtts [(1, 10); (2, 21)] (NHealth.new 0 peer)) = 15 ∧
  nh_ping_history (add_rtts [(1, 10); (2, 21)] (NHealth.new 0 peer)) = [10; 21].
Proof.
  destruct (ping_statistics_exact [(1, 10); (2, 21)] 0 peer) as (H1 & _ & _ & H2 & _);
    [repeat constructor; cbn; lia|vm_compute; reflexivity|].
  destruct (H2 (2, 21) eq_refl) as (_ & _ & H3). split; [rewrite H3, H1; reflexivity|exact H1].
Defined.

(** A node last seen at 0 with four pings pending since 1 s, at 40 s. *)
Definition silent : NodeHealth :=
  NHealth.set_pending (list_to_map [(1, 1000000000); (2, 1000000000); (3, 1000000000); (4, 1000000000)]) (NHealth.new 0 peer).

Lemma timeouts_processed_exactly_witness :
  ∃ h', NHealth.check_node 40000000000 2000 Timeout f64_zero silent = (Ok tt, h') ∧ nh_failure_count h' = 4 ∧ nh_status h' = Offline.
Proof.
  destruct (timeouts_processed_exactly 40000000000 2000 f64_zero silent) as (h' & H1 & _ & H2 & H3 & _);
    [vm_compute; discriminate|].
  exists h'. assert (nh_failure_count h' = 4) as H4 by (rewrite H2; vm_compute; reflexivity).
  split; [exact H1|split; [exact H4|rewrite H3, H4; vm_compute; reflexivity]].
Defined.

Definition monitor : HealthMonitor :=
  Monitor.new 0 (Id.to_string (TopoWitness.node Byte.x00)) TopoWitness.one Monitor.default_config None.

Lemma ping_task_deadlocks_witness :
  ∃ m', Monitor.ping_tick 5000000000 1700000000000 monitor = (Hang, m') ∧ (Monitor.get_all_node_health m').1 = Hang.
Proof.
  destruct (ping_task_deadlocks 5000000000 1700000000000 monitor []) as (m' & H1 & _ & _ & H2 & _).
  - vm_compute. discriminate.
  - split_and!; [by right|reflexivity|constructor].
  - exists m'. split; [exact H1|exact H2].
Defined.
End HealthWitness.
