(* ===== verification/Kyber.v ===== *)
(** * Key encapsulation and authenticated encryption ([crypto/kyber.rs])

    The ML-KEM implementation (pqcrypto_mlkem) and the AES-256-GCM cipher
    (aes_gcm) are crates outside the repository and enter as the interfaces
    [Mlkem] and [Aead].  What they draw from the operating system's generator is
    an argument of the calls that draw it. *)
From S2P Require Import Prelude States.
Import coqutil.Byte.

(** ** The external crates *)

(** The sizes of a parameter set of ML-KEM. *)
Record KemSizes := mkKemSizes {
  public_key_size : nat; secret_key_size : nat; ciphertext_size : nat; shared_secret_size : nat;
}.
Definition kem768 : KemSizes := mkKemSizes (Z.to_nat 1184) (Z.to_nat 2400) (Z.to_nat 1088) 32.
Definition kem512 : KemSizes := mkKemSizes (Z.to_nat 800) (Z.to_nat 1632) (Z.to_nat 768) 32.

(** [keypair], [encapsulate] and [decapsulate] of one parameter set, with the
    sizes and the correctness the crate documents. *)
Class Mlkem (ps : KemSizes) := {
  kem_keypair : bytes → bytes * bytes;
  kem_encapsulate : bytes → bytes → bytes * bytes;   (* randomness, public key: (ss, ct) *)
  kem_decapsulate : bytes → bytes → bytes;           (* ct, sk *)
  kem_pk_length : ∀ r, length (kem_keypair r).1 = public_key_size ps;
  kem_sk_length : ∀ r, length (kem_keypair r).2 = secret_key_size ps;
  kem_ss_length : ∀ r pk, length (kem_encapsulate r pk).1 = shared_secret_size ps;
  kem_ct_length : ∀ r pk, length (kem_encapsulate r pk).2 = ciphertext_size ps;
  kem_ss_length' : ∀ ct sk, length (kem_decapsulate ct sk) = shared_secret_size ps;
  kem_correct : ∀ r r', kem_decapsulate (kem_encapsulate r' (kem_keypair r).1).2 (kem_keypair r).2
                        = (kem_encapsulate r' (kem_keypair r).1).1;
}.

(** [PublicKey::from_bytes] and the like: the bytes, if they have the size. *)
Definition sized (n : nat) (b : bytes) : option bytes := if (length b =? n)%nat then Some b else None.

(** AES-256-GCM: [encrypt] and [decrypt] under a 32-byte key and a 12-byte nonce. *)
Class Aead := {
  aead_encrypt : bytes → bytes → bytes → option bytes;
  aead_decrypt : bytes → bytes → bytes → option bytes;
  aead_round_trip : ∀ k n d c, aead_encrypt k n d = Some c → aead_decrypt k n c = Some d;
}.

(** ** Data *)

Record KyberKeyPair := mkKyberKeyPair { kp_public_key : bytes; kp_secret_key : bytes }.
Record EncapsulationResult := mkEncapsulation { en_shared_secret : bytes; en_ciphertext : bytes }.
(** The hasher is kept as the bytes it was fed. *)
Record EntropyContext := mkEntropyContext { ec_context : string; ec_entropy : bytes; ec_hasher : bytes }.

(** The statics [KYBER_INITIALIZED] and [LAST_HEALTH_CHECK] (nanoseconds). *)
Record KyberState := mkKyberState { ky_initialized : bool; ky_last_check : Z }.

Module Kyber.
Section Kyber.
Context {B3 : Blake3} {K : Mlkem kem768} {AE : Aead}.

Definition KYBER_HEALTH_CHECK_INTERVAL : Z := 3600 * 10 ^ 9.

(** ** Self test *)

(** The steps inside [catch_unwind]; errors are strings. *)
Definition verify_steps (r1 r2 r3 : bytes) : outcome_of string unit :=
  let '(pk, sk) := kem_keypair r1 in
  if negb (length pk =? public_key_size kem768)%nat then Err "Public key size integrity error: {} vs expected {}" else
  if negb (length sk =? secret_key_size kem768)%nat then Err "Secret key size integrity error: {} vs expected {}" else
  let '(ss1, ct) := kem_encapsulate r2 pk in
  let ss2 := kem_decapsulate ct sk in
  if negb (bool_decide (ss1 = ss2)) then Err "Shared secret mismatch after encapsulation/decapsulation cycle" else
  if negb (length ct =? ciphertext_size kem768)%nat then Err "Ciphertext size integrity error: {} vs expected {}" else
  if negb (length ss1 =? shared_secret_size kem768)%nat then Err "Shared secret size integrity error: {} vs expected {}" else
  pk' ← ok_or "Failed to deserialize public key: {:?}" (sized (public_key_size kem768) pk);
  if negb (bool_decide (pk = pk')) then Err "Public key serialization/deserialization mismatch" else
  ct' ← ok_or "Failed to deserialize ciphertext: {:?}" (sized (ciphertext_size kem768) ct);
  if negb (bool_decide (ct = ct')) then Err "Ciphertext serialization/deserialization mismatch" else
  let '(ss3, ct2) := kem_encapsulate r3 pk' in
  sk' ← ok_or "Failed to deserialize secret key: {:?}" (sized (secret_key_size kem768) sk);
  let ss4 := kem_decapsulate ct2 sk' in
  if negb (bool_decide (ss3 = ss4)) then Err "Shared secret mismatch with deserialized keys" else
  Ok tt.

Definition verify_kyber_subsystem (r1 r2 r3 : bytes) : outcome_of string unit :=
  match verify_steps r1 r2 r3 with
  | Panic => Err "Kyber subsystem verification panicked: {}"%string
  | o => o
  end.

(** The first call verifies and marks the subsystem initialised; later calls
    verify again when an hour has passed since the last check.  [now] is the
    [Instant] of the call and [now'] the one read after the verification. *)
Definition init_kyber (now now' : Z) (r1 r2 r3 : bytes) : M KyberState unit := fun s =>
  if ky_initialized s then
    if KYBER_HEALTH_CHECK_INTERVAL <=? Z.max 0 (now - ky_last_check s) then
      match verify_kyber_subsystem r1 r2 r3 with
      | Ok _ => (Ok tt, mkKyberState true now)
      | _ => (Err (ECrypto "Critical: Kyber subsystem integrity check failed: {}"), s)
      end
    else (Ok tt, s)
  else
    match verify_kyber_subsystem r1 r2 r3 with
    | Ok _ => (Ok tt, mkKyberState true now')
    | _ => (Err (ECrypto "Kyber KEM initialization failure: {}"), s)
    end.

(** ** Sizes *)

Definition shared_secret_bytes : nat := shared_secret_size kem768.
Definition ciphertext_bytes : nat := ciphertext_size kem768.
Definition public_key_bytes : nat := public_key_size kem768.
Definition secret_key_bytes : nat := secret_key_size kem768.

(** ** Keys *)

Definition checked_keypair (r : bytes) : outcome (bytes * bytes) :=
  let '(pk, sk) := kem_keypair r in
  if negb (length pk =? public_key_bytes)%nat || negb (length sk =? secret_key_bytes)%nat
  then Err (ECrypto "Generated key sizes do not match expected values: pk={}, sk={}")
  else Ok (pk, sk).

(** [r] is what [keypair] draws, [r1 r2 r3] what the self test draws. *)
Definition generate_kyber_keypair (now now' : Z) (r1 r2 r3 r : bytes) : M KyberState (bytes * bytes) :=
  let* s := mget in
  do* (if ky_initialized s then mret_st tt else init_kyber now now' r1 r2 r3);
  mlift (checked_keypair r).

(** The seed derived from the entropy is computed and not used. *)
Definition generate_kyber_keypair_from_entropy (r entropy : bytes) (context : string) : outcome (bytes * bytes) :=
  if (length entropy <? 16)%nat
  then Err (ECrypto "Insufficient entropy for secure key generation (minimum 16 bytes required)")
  else
    let _seed := blake3 (str_bytes context ++ entropy) in
    checked_keypair r.

Definition generate_deterministic_kyber_keypair (r entropy : bytes) (context : string) : outcome (bytes * bytes) :=
  if (length entropy <? 32)%nat
  then Err (ECrypto "Minimum 32 bytes of entropy required for deterministic key generation")
  else
    let _seed := blake3 (str_bytes context ++ entropy) in
    checked_keypair r.

(** ** Derived bytes *)

Definition new_entropy_context (context : string) (entropy : bytes) : EntropyContext :=
  mkEntropyContext context entropy (str_bytes context).

(** [while output.len() < length]: append the digest and hash it again. *)
Fixpoint derive_loop (fuel : nat) (len : nat) (current output : bytes) : outcome bytes :=
  if (length output <? len)%nat then
    match fuel with
    | O => Hang
    | S fuel => derive_loop fuel len (blake3 current) (output ++ current)
    end
  else Ok (take len output).

Definition derive_bytes_from_context (fuel : nat) (c : EntropyContext) (purpose : string) (len : nat) : outcome bytes :=
  derive_loop fuel len (blake3 (str_bytes (ec_context c) ++ str_bytes purpose ++ ec_entropy c)) [].

Definition derive_symmetric_key (fuel : nat) (shared_secret : bytes) (key_size : nat) (context : option string) : outcome bytes :=
  let ctx := unwrap_or "DSM_SYMMETRIC_KEY"%string context in
  derive_loop fuel key_size (blake3 (str_bytes ctx ++ shared_secret)) [].

(** ** Encapsulation *)

Definition kyber_encapsulate (r public_key : bytes) : outcome (bytes * bytes) :=
  if negb (length public_key =? public_key_size kem768)%nat then Err EInvalidPublicKey else
  pk ← ok_or EInvalidPublicKey (sized (public_key_size kem768) public_key);
  let '(ss, ct) := kem_encapsulate r pk in
  if negb (length ct =? ciphertext_size kem768)%nat || negb (length ss =? shared_secret_size kem768)%nat
  then Err (ECrypto "Unexpected output sizes: ct={}, ss={}")
  else Ok (ss, ct).

Definition kyber_decapsulate (secret_key ciphertext : bytes) : outcome bytes :=
  if negb (length secret_key =? secret_key_size kem768)%nat then Err EInvalidSecretKey else
  if negb (length ciphertext =? ciphertext_size kem768)%nat then Err EInvalidCiphertext else
  sk ← ok_or EInvalidSecretKey (sized (secret_key_size kem768) secret_key);
  ct ← ok_or EInvalidCiphertext (sized (ciphertext_size kem768) ciphertext);
  let ss := kem_decapsulate ct sk in
  if negb (length ss =? shared_secret_size kem768)%nat
  then Err (ECrypto "Unexpected shared secret size: {}")
  else Ok ss.

Definition generate (now now' : Z) (r1 r2 r3 r : bytes) : M KyberState KyberKeyPair :=
  let* k := generate_kyber_keypair now now' r1 r2 r3 r in mret_st (mkKyberKeyPair k.1 k.2).

Definition generate_from_entropy (r entropy : bytes) (context : option string) : outcome KyberKeyPair :=
  k ← generate_kyber_keypair_from_entropy r entropy (unwrap_or "DSM_KYBER_KEY"%string context);
  Ok (mkKyberKeyPair k.1 k.2).

Definition encapsulate (r : bytes) (k : KyberKeyPair) : outcome EncapsulationResult :=
  e ← kyber_encapsulate r (kp_public_key k); Ok (mkEncapsulation e.1 e.2).

Definition encapsulate_for_recipient (r recipient_public_key : bytes) : outcome EncapsulationResult :=
  e ← kyber_encapsulate r recipient_public_key; Ok (mkEncapsulation e.1 e.2).

Definition decapsulate (k : KyberKeyPair) (ciphertext : bytes) : outcome bytes :=
  kyber_decapsulate (kp_secret_key k) ciphertext.

(** ** Symmetric encryption *)

(** The first [min 32 32] bytes of the digest of the key are copied into a
    zeroed array. *)
Definition aes_key (key : bytes) : bytes :=
  let h := blake3 key in take 32 (take 32 h ++ zeros 32).

Definition aes_encrypt (key nonce data : bytes) : outcome bytes :=
  if negb (length nonce =? 12)%nat then Err (ECrypto "Invalid nonce size for AES-GCM: {}") else
  ok_or (ECrypto "AES encryption failed: {}") (aead_encrypt (aes_key key) nonce data).

Definition aes_decrypt (key nonce ciphertext : bytes) : outcome bytes :=
  if negb (length nonce =? 12)%nat then Err (ECrypto "Invalid nonce size for AES-GCM: {}") else
  ok_or (ECrypto "AES-GCM decryption failed: authentication tag verification error or malformed ciphertext: {}")
    (aead_decrypt (aes_key key) nonce ciphertext).

(** [nonce] is the twelve bytes drawn from [OsRng]; the key derivation needs one turn. *)
Definition encrypt_with_shared_secret (nonce shared_secret data : bytes) : outcome (bytes * bytes) :=
  key ← derive_symmetric_key 1 shared_secret 32 None;
  ciphertext ← aes_encrypt key nonce data;
  Ok (nonce, ciphertext).

Definition decrypt_with_shared_secret (shared_secret nonce ciphertext : bytes) : outcome bytes :=
  key ← derive_symmetric_key 1 shared_secret 32 None;
  aes_decrypt key nonce ciphertext.

Definition secure_compare (a b : bytes) : bool :=
  if negb (length a =? length b)%nat then false else constant_time_eq a b.

End Kyber.
End Kyber.

Section Facts.
Context {B3 : Blake3} {K : Mlkem kem768} {AE : Aead}.

(** ** Derivation of bytes *)

(** The infinite sequence of digests that derivation cuts. *)
Fixpoint digests (k : nat) (h : bytes) : bytes :=
  match k with O => [] | S k => h ++ digests k (blake3 h) end.

Lemma length_digests k h : length h = 32%nat → length (digests k h) = (32 * k)%nat.
Proof.
  revert h. induction k as [|k IH]; intros h Hh; [done|]. cbn [digests].
  rewrite length_app, Hh, IH by apply blake3_length. lia.
Qed.

Lemma digests_prefix k k' h : (k ≤ k')%nat → digests k h `prefix_of` digests k' h.
Proof.
  revert k' h. induction k as [|k IH]; intros k' h Hk; [apply prefix_nil|].
  destruct k' as [|k']; [lia|]. cbn [digests]. apply prefix_app, IH. lia.
Qed.

Lemma derive_loop_ok fuel len current output :
  length current = 32%nat → (len ≤ length output + 32 * fuel)%nat →
  ∃ k, (k ≤ fuel)%nat ∧ (len ≤ length output + 32 * k)%nat ∧
    Kyber.derive_loop fuel len current output = Ok (take len (output ++ digests k current)).
Proof.
  revert current output. induction fuel as [|fuel IH]; intros current output Hc Hl; cbn [Kyber.derive_loop].
  - destruct (length output <? len)%nat eqn:E; [apply Nat.ltb_lt in E; lia|].
    apply Nat.ltb_ge in E. exists 0%nat. cbn. rewrite app_nil_r. split; [lia|split; [lia|done]].
  - destruct (length output <? len)%nat eqn:E.
    + destruct (IH (blake3 current) (output ++ current)) as (k & Hk & Hlen & ->);
        [apply blake3_length|rewrite length_app; lia|].
      rewrite length_app, Hc in Hlen. exists (S k). cbn [digests]. rewrite app_assoc. split; [lia|split; [lia|done]].
    + apply Nat.ltb_ge in E. exists 0%nat. cbn. rewrite app_nil_r. split; [lia|split; [lia|done]].
Qed.

Lemma derive_loop_digests fuel len k current :
  length current = 32%nat → (len ≤ 32 * fuel)%nat → (len ≤ 32 * k)%nat →
  Kyber.derive_loop fuel len current [] = Ok (take len (digests k current)).
Proof.
  intros Hc Hf Hk. destruct (derive_loop_ok fuel len current []) as (k' & _ & Hk' & ->); [done|cbn; lia|].
  cbn in *. f_equal. destruct (Nat.le_ge_cases k k') as [H|H];
    apply (digests_prefix _ _ current) in H as [x ->];
    rewrite take_app_le; try done; rewrite length_digests by done; lia.
Qed.

(** Deriving bytes ends for every length, gives exactly that many, and a
    shorter derivation is a prefix of a longer one. *)
Theorem derivation_terminates (c : EntropyContext) (purpose : string) (len : nat) :
  ∃ out, Kyber.derive_bytes_from_context len c purpose len = Ok out ∧ length out = len ∧
    ∀ fuel n, (n ≤ len)%nat → (n ≤ 32 * fuel)%nat →
      Kyber.derive_bytes_from_context fuel c purpose n = Ok (take n out).
Proof.
  unfold Kyber.derive_bytes_from_context. set (h := blake3 _).
  assert (Hh : length h = 32%nat) by apply blake3_length.
  exists (take len (digests len h)). rewrite (derive_loop_digests len len len h) by (done || lia).
  repeat split.
  - rewrite length_take, length_digests by done. lia.
  - intros fuel n Hn Hf. rewrite (derive_loop_digests fuel n len h) by (done || lia).
    rewrite take_take. by rewrite Nat.min_l by lia.
Qed.

(** ** Key agreement and encryption *)

Lemma checked_keypair_ok r : Kyber.checked_keypair r = Ok (kem_keypair r).
Proof.
  unfold Kyber.checked_keypair, Kyber.public_key_bytes, Kyber.secret_key_bytes.
  pose proof (kem_pk_length r) as Hp. pose proof (kem_sk_length r) as Hs.
  destruct (kem_keypair r) as [pk sk]. cbn [fst snd] in *. by rewrite Hp, Hs, !Nat.eqb_refl.
Qed.

Lemma sized_ok n b : length b = n → sized n b = Some b.
Proof. intros <-. unfold sized. by rewrite Nat.eqb_refl. Qed.

Lemma kyber_encapsulate_ok r pk : length pk = public_key_size kem768 →
  Kyber.kyber_encapsulate r pk = Ok (kem_encapsulate r pk).
Proof.
  intros Hp. unfold Kyber.kyber_encapsulate. rewrite Hp, Nat.eqb_refl, (sized_ok _ _ Hp). cbn -[Nat.eqb kem768].
  pose proof (kem_ss_length r pk) as Hs. pose proof (kem_ct_length r pk) as Hc.
  destruct (kem_encapsulate r pk) as [ss ct]. cbn [fst snd] in *. by rewrite Hs, Hc, !Nat.eqb_refl.
Qed.

Lemma kyber_decapsulate_ok sk ct : length sk = secret_key_size kem768 → length ct = ciphertext_size kem768 →
  Kyber.kyber_decapsulate sk ct = Ok (kem_decapsulate ct sk).
Proof.
  intros Hs Hc. unfold Kyber.kyber_decapsulate.
  rewrite Hs, Hc, !Nat.eqb_refl, (sized_ok _ _ Hs), (sized_ok _ _ Hc). cbn -[Nat.eqb kem768].
  by rewrite kem_ss_length', Nat.eqb_refl.
Qed.

Lemma verify_kyber_ok r1 r2 r3 : Kyber.verify_kyber_subsystem r1 r2 r3 = Ok tt.
Proof.
  unfold Kyber.verify_kyber_subsystem, Kyber.verify_steps.
  pose proof (kem_pk_length r1) as Hp. pose proof (kem_sk_length r1) as Hs.
  pose proof (kem_correct r1 r2) as H2. pose proof (kem_correct r1 r3) as H3.
  destruct (kem_keypair r1) as [pk sk]. cbn [fst snd] in *.
  pose proof (kem_ss_length r2 pk) as Hss. pose proof (kem_ct_length r2 pk) as Hct.
  rewrite Hp, Hs, !Nat.eqb_refl, (sized_ok _ _ Hp), (sized_ok _ _ Hs).
  destruct (kem_encapsulate r2 pk) as [ss1 ct]. cbn [fst snd] in *.
  rewrite H2, (bool_decide_eq_true_2 _ eq_refl). rewrite Hss, Hct, !Nat.eqb_refl, (sized_ok _ _ Hct).
  cbn -[Nat.eqb kem768]. rewrite !(bool_decide_eq_true_2 _ eq_refl). cbn -[Nat.eqb kem768].
  destruct (kem_encapsulate r3 pk) as [ss3 ct2]. cbn [fst snd] in *.
  rewrite H3, (bool_decide_eq_true_2 _ eq_refl). done.
Qed.

Lemma aes_roundtrip key nonce data c :
  Kyber.aes_encrypt key nonce data = Ok c → Kyber.aes_decrypt key nonce c = Ok data.
Proof.
  unfold Kyber.aes_encrypt, Kyber.aes_decrypt. destruct (length nonce =? 12)%nat; [|done]. cbn [negb].
  rewrite ok_or_Ok. intros H. by rewrite (aead_round_trip _ _ _ _ H).
Qed.

(** The whole exchange: a generated key pair, an encapsulation for its public
    key, and data encrypted under the sender's secret reach the holder of the
    secret key unchanged; the self test passes, and the subsystem is
    initialised by the generation of the key. *)
Theorem kyber_exchange (now now' : Z) (r1 r2 r3 r re nonce data : bytes) (s : KyberState) :
  ∃ k e, Kyber.generate now now' r1 r2 r3 r s = (Ok k, mkKyberState true (if ky_initialized s then ky_last_check s else now')) ∧
    Kyber.encapsulate_for_recipient re (kp_public_key k) = Ok e ∧
    Kyber.decapsulate k (en_ciphertext e) = Ok (en_shared_secret e) ∧
    (∀ n c, Kyber.encrypt_with_shared_secret nonce (en_shared_secret e) data = Ok (n, c) →
       n = nonce ∧ (ss ← Kyber.decapsulate k (en_ciphertext e); Kyber.decrypt_with_shared_secret ss n c) = Ok data).
Proof.
  exists (mkKyberKeyPair (kem_keypair r).1 (kem_keypair r).2),
    (mkEncapsulation (kem_encapsulate re (kem_keypair r).1).1 (kem_encapsulate re (kem_keypair r).1).2).
  assert (Hd : Kyber.decapsulate (mkKyberKeyPair (kem_keypair r).1 (kem_keypair r).2)
                 (kem_encapsulate re (kem_keypair r).1).2 = Ok (kem_encapsulate re (kem_keypair r).1).1).
  { unfold Kyber.decapsulate. cbn [kp_secret_key]. rewrite kyber_decapsulate_ok, kem_correct; [done|apply kem_sk_length|apply kem_ct_length]. }
  split; [|split; [|split]].
  - unfold Kyber.generate, Kyber.generate_kyber_keypair, mbind_st, mget, mret_st, mlift.
    destruct s as [[] last]; cbn [ky_initialized ky_last_check].
    + by rewrite checked_keypair_ok.
    + unfold Kyber.init_kyber. cbn [ky_initialized]. by rewrite verify_kyber_ok, checked_keypair_ok.
  - unfold Kyber.encapsulate_for_recipient. cbn [kp_public_key]. rewrite kyber_encapsulate_ok; [done|apply kem_pk_length].
  - exact Hd.
  - cbn [en_ciphertext en_shared_secret]. rewrite Hd. cbn [mbind outcome_bind]. intros n c.
    unfold Kyber.encrypt_with_shared_secret, Kyber.decrypt_with_shared_secret.
    destruct (Kyber.derive_symmetric_key _ _ _ _) as [key| | |]; try done. cbn [mbind outcome_bind].
    destruct (Kyber.aes_encrypt key nonce data) as [c'| | |] eqn:E; try done. cbn [mbind outcome_bind].
    intros [= -> ->]. split; [done|]. by apply aes_roundtrip.
Qed.

(** The "deterministic" generators ignore their entropy: what they return is
    the key pair the system generator draws, whatever the entropy and the
    context are, so that the same entropy gives different keys. *)
Theorem deterministic_keys_ignore_entropy (r e1 e2 : bytes) (c1 c2 : string) :
  (32 ≤ length e1)%nat → (32 ≤ length e2)%nat →
  Kyber.generate_deterministic_kyber_keypair r e1 c1 = Ok (kem_keypair r) ∧
  Kyber.generate_deterministic_kyber_keypair r e2 c2 = Kyber.generate_deterministic_kyber_keypair r e1 c1 ∧
  Kyber.generate_kyber_keypair_from_entropy r e2 c2 = Kyber.generate_kyber_keypair_from_entropy r e1 c1.
Proof.
  intros H1 H2. unfold Kyber.generate_deterministic_kyber_keypair, Kyber.generate_kyber_keypair_from_entropy.
  rewrite checked_keypair_ok. repeat case_match; try done;
    repeat match goal with H : (_ <? _)%nat = true |- _ => apply Nat.ltb_lt in H end; lia.
Qed.

End Facts.

(** A toy KEM (the shared secret is a checksum of public key and randomness,
    and travels in the clear) and a toy cipher, for the witnesses. *)
Module ToyKem.
Definition pad (n : nat) (b : bytes) : bytes := take n (b ++ zeros n).
Lemma length_pad n b : length (pad n b) = n.
Proof. unfold pad, zeros. rewrite length_take, length_app, length_replicate. lia. Qed.
Lemma pad_take n m b : (n ≤ m)%nat → length b = n → take n (pad m b) = b.
Proof. intros H <-. unfold pad. rewrite take_take, Nat.min_l by lia. by rewrite take_app_length. Qed.

Definition toy_ss (r : bytes) : bytes := pad 32 r.
#[local] Obligation Tactic := idtac.
#[refine] Definition toy_kem (ps : KemSizes) (H : (shared_secret_size ps = 32)%nat) (H' : (32 ≤ ciphertext_size ps)%nat) : Mlkem ps := {|
  kem_keypair r := (pad (public_key_size ps) r, pad (secret_key_size ps) r);
  kem_encapsulate r pk := (toy_ss r, pad (ciphertext_size ps) (toy_ss r));
  kem_decapsulate ct sk := pad 32 (take 32 ct) |}.
Proof.
  all: intros; cbn [fst snd]; rewrite ?length_pad; try done; unfold toy_ss.
  - rewrite length_pad. done.
  - rewrite pad_take; [|done|apply length_pad]. unfold pad at 1. rewrite take_app_le by (rewrite length_pad; lia).
    by rewrite take_ge by (rewrite length_pad; lia).
Defined.

Definition toy_kem768 : Mlkem kem768.
Proof. refine (toy_kem kem768 eq_refl _). cbn. lia. Defined.
Definition toy_kem512 : Mlkem kem512.
Proof. refine (toy_kem kem512 eq_refl _). cbn. lia. Defined.

#[refine] Definition toy_aead : Aead := {|
  aead_encrypt k n d := Some (rev d); aead_decrypt k n c := Some (rev c) |}.
Proof. intros k n d c [= <-]. by rewrite rev_involutive. Defined.
End ToyKem.

#[local] Existing Instances Toy.toy_blake3 ToyKem.toy_kem768 ToyKem.toy_aead.

Lemma deterministic_keys_ignore_entropy_witness :
  Kyber.generate_deterministic_kyber_keypair [] (zeros 32) "a" = Ok (kem_keypair []) ∧
  Kyber.generate_deterministic_kyber_keypair [] (zeros 33) "b" = Kyber.generate_deterministic_kyber_keypair [] (zeros 32) "a" ∧
  Kyber.generate_kyber_keypair_from_entropy [] (zeros 33) "b" = Kyber.generate_kyber_keypair_from_entropy [] (zeros 32) "a".
Proof.
  apply (deterministic_keys_ignore_entropy [] (zeros 32) (zeros 33) "a" "b"); cbn; lia.
Defined.
