(* ===== verification/Pedersen.v ===== *)
(** * Pedersen commitments ([crypto/pedersen.rs])

    A [BigUint] is a non-negative [Z].  SHA3-512 and SHAKE256 (crate sha3) and
    the prime generator (crate num_primes) are interfaces; the random numbers a
    call draws are given as sequences of draws. *)
From S2P Require Import Prelude States Keys.
Import coqutil.Byte.
From Stdlib Require Import Zpow_facts.

(** ** The external crates *)

Class Sha3 := {
  sha3_512 : bytes → bytes;
  shake256 : nat → bytes → bytes;   (* output length, input *)
  sha3_512_length : ∀ m, length (sha3_512 m) = 64%nat;
  shake256_length : ∀ n m, length (shake256 n m) = n;
}.

Class PrimeTest := is_prime : Z → bool.

(** What one call draws: the primes of [Generator::new_prime], the buffers of
    the search for [g], the buffer for [x], the buffers of the blinding factor. *)
Record Draws := mkDraws {
  d_prime : nat → Z; d_g : nat → bytes; d_x : bytes; d_r : nat → bytes;
}.

(** ** Arithmetic of [BigUint] *)

Definition big_rem (a m : Z) : outcome Z := if m =? 0 then Panic else Ok (a mod m).
Definition big_sub (a b : Z) : outcome Z := if b <=? a then Ok (a - b) else Panic.
Definition modpow (a e m : Z) : outcome Z := if m =? 0 then Panic else Ok (a ^ e mod m).
(** [bits()] and [div_ceil(8)] *)
Definition bits (a : Z) : Z := if a =? 0 then 0 else Z.log2 a + 1.
Definition byte_length (a : Z) : nat := Z.to_nat ((bits a + 7) / 8).
(** [to_bytes_be]: the shortest form, and one zero byte for zero. *)
Definition to_bytes_be (a : Z) : bytes := rev (le_bytes (Nat.max 1 (byte_length a)) a).

(** ** Data *)

Inductive SecurityLevel := Standard128 | Medium192 | High256.
#[export] Instance SecurityLevel_eq_dec : EqDecision SecurityLevel.
Proof. solve_decision. Defined.

Definition DOMAIN_COMMIT : bytes := str_bytes "DSM.v1.pedersen.commit".

Record PedersenParams := mkPedersenParams { pp_g : Z; pp_h : Z; pp_p : Z; pp_q : Z; pp_security_level : SecurityLevel }.

Record PedersenCommitment := mkPedersen {
  pc_commitment : Z; pc_commitment_hash : bytes; pc_hash_rounds : nat; pc_security_level : SecurityLevel;
}.

Module Ped.
Section Ped.
Context {B3 : Blake3} {S3 : Sha3} {PT : PrimeTest}.

(** ** Parameters *)

(** The search for a safe prime, from the [k]-th draw on. *)
Fixpoint find_prime (fuel : nat) (d : Draws) (k : nat) : outcome (Z * Z) :=
  match fuel with
  | O => Hang
  | S fuel =>
      let q := d_prime d k in
      let p := q * 2 + 1 in
      if is_prime p then Ok (p, q) else find_prime fuel d (S k)
  end.

Definition candidate_g (p : Z) (buf : bytes) : outcome Z :=
  p_minus_1 ← big_sub p 1;
  range ← big_sub p_minus_1 2;
  c ← big_rem (be_Z buf) range;
  modpow (2 + c) 2 p.

Fixpoint find_g (fuel : nat) (d : Draws) (p q : Z) (k : nat) : outcome Z :=
  match fuel with
  | O => Hang
  | S fuel =>
      g ← candidate_g p (d_g d k);
      e ← modpow g q p;
      if e =? 1 then Ok g else find_g fuel d p q (S k)
  end.

(** The first argument of the source, the size wanted for [p], is not used. *)
Definition generate_pedersen_params (fuel : nat) (d : Draws) : outcome (Z * Z * Z * Z) :=
  '(p, q) ← find_prime fuel d 0;
  g ← find_g fuel d p q 0;
  x ← big_rem (be_Z (d_x d)) q;
  h ← modpow g x p;
  Ok (p, q, g, h).

(** The sizes in bits asked for [p] and [q]. *)
Definition level_bits (l : SecurityLevel) : Z * Z :=
  match l with Standard128 => (3072, 256) | Medium192 => (7680, 384) | High256 => (15360, 512) end.

(** [d_prime] draws primes of [(level_bits l).2] bits. *)
Definition params_new (fuel : nat) (d : Draws) (l : SecurityLevel) : outcome PedersenParams :=
  '(p, q, g, h) ← generate_pedersen_params fuel d;
  Ok (mkPedersenParams g h p q l).

(** ** Hashing a commitment *)

Definition hash_round (i : nat) (result : bytes) : bytes :=
  if Nat.even i then shake256 64 result else blake3 result.

Fixpoint hash_rounds_from (rounds i : nat) (result : bytes) : bytes :=
  match rounds with
  | O => result
  | S n => hash_rounds_from n (S i) (hash_round i result)
  end.

Definition hash_commitment (commitment : Z) (rounds : nat) : outcome bytes :=
  Ok (shake256 32 (hash_rounds_from rounds 0 (sha3_512 (to_bytes_be commitment)))).

(** ** Commitments *)

Definition default : PedersenCommitment := mkPedersen 0 (zeros 32) 10 Standard128.

Fixpoint randomness_from (fuel : nat) (d : Draws) (q : Z) (k : nat) : outcome Z :=
  match fuel with
  | O => Hang
  | S fuel => let v := be_Z (d_r d k) in if v <? q then Ok v else randomness_from fuel d q (S k)
  end.
Definition generate_randomness (fuel : nat) (d : Draws) (q : Z) : outcome Z := randomness_from fuel d q 0.

Definition compute_commitment (value : bytes) (r : Z) (params : PedersenParams) : outcome Z :=
  let v := of_le_bytes value in
  a ← modpow (pp_g params) v (pp_p params);
  b ← modpow (pp_h params) r (pp_p params);
  big_rem (a * b) (pp_p params).

Definition rounds_of (l : SecurityLevel) : nat :=
  match l with Standard128 => 10 | Medium192 => 14 | High256 => 20 end.

Definition commit (fuel : nat) (d : Draws) (params : PedersenParams) (value : bytes) : outcome (PedersenCommitment * Z) :=
  let hash_rounds := rounds_of (pp_security_level params) in
  r ← generate_randomness fuel d (pp_q params);
  commitment ← compute_commitment value r params;
  h ← hash_commitment commitment hash_rounds;
  Ok (mkPedersen commitment h hash_rounds (pp_security_level params), r).

Definition combine (a b : PedersenCommitment) (params : PedersenParams) : outcome PedersenCommitment :=
  if negb (bool_decide (pc_security_level a = pc_security_level b))
  then Err (ECrypto "Cannot combine commitments with different security levels")
  else
    combined ← big_rem (pc_commitment a * pc_commitment b) (pp_p params);
    h ← hash_commitment combined (pc_hash_rounds a);
    Ok (mkPedersen combined h (pc_hash_rounds a) (pc_security_level a)).

Definition verify (c : PedersenCommitment) (value : bytes) (r : Z) (params : PedersenParams) : outcome bool :=
  expected ← compute_commitment value r params;
  expected_hash ← hash_commitment expected (pc_hash_rounds c);
  Ok (constant_time_eq (pc_commitment_hash c) expected_hash && (pc_commitment c =? expected)).

Definition smart_commit (fuel : nat) (d : Draws) (params : PedersenParams) (value recipient : bytes) (condition : string)
    : outcome (PedersenCommitment * Z) :=
  let sha3_result := sha3_512 (DOMAIN_COMMIT ++ recipient ++ str_bytes condition ++ value) in
  commit fuel d params (blake3 sha3_result).

(** The free function [verify] checks the stored hash only. *)
Definition verify_hash (c : PedersenCommitment) : outcome bool :=
  h ← hash_commitment (pc_commitment c) (pc_hash_rounds c);
  Ok (constant_time_eq (pc_commitment_hash c) h).

Definition to_bytes {SC : Bincode PedersenCommitment} (c : PedersenCommitment) : bytes := unwrap_or [] (serialize c).

End Ped.
End Ped.

Section Facts.
Context {B3 : Blake3} {S3 : Sha3} {PT : PrimeTest}.

Definition commitment_of (params : PedersenParams) (v r : Z) : Z :=
  (pp_g params ^ v * pp_h params ^ r) mod pp_p params.

Lemma compute_commitment_eq value r params : pp_p params ≠ 0 →
  Ped.compute_commitment value r params = Ok (commitment_of params (of_le_bytes value) r).
Proof.
  intros Hp. unfold Ped.compute_commitment, modpow, big_rem, commitment_of.
  rewrite (proj2 (Z.eqb_neq _ _) Hp). cbn [mbind outcome_bind]. by rewrite <-Z.mul_mod by done.
Qed.

Lemma find_prime_inv fuel d k p q : Ped.find_prime fuel d k = Ok (p, q) →
  ∃ j, (k ≤ j)%nat ∧ q = d_prime d j ∧ p = 2 * q + 1 ∧ is_prime p = true.
Proof.
  revert k. induction fuel as [|fuel IH]; intros k; cbn [Ped.find_prime]; [done|].
  destruct (is_prime (d_prime d k * 2 + 1)) eqn:E.
  - intros [= <- <-]. exists k. split_and!; [done|done|lia|done].
  - intros (j & Hj & ?)%IH. exists j. split; [lia|done].
Qed.

Lemma find_g_inv fuel d p q k g : Ped.find_g fuel d p q k = Ok g → p ≠ 0 ∧ g ^ q mod p = 1 ∧ ∃ c, g = c ^ 2 mod p.
Proof.
  revert k. induction fuel as [|fuel IH]; intros k; cbn [Ped.find_g]; [done|].
  intros (g' & Hc & (e & He & H)%bind_Ok)%bind_Ok.
  unfold Ped.candidate_g in Hc. apply bind_Ok in Hc as (? & _ & (? & _ & (c & _ & Hc)%bind_Ok)%bind_Ok).
  unfold modpow in Hc, He. destruct (p =? 0) eqn:Ep; [done|]. apply Z.eqb_neq in Ep.
  apply Ok_inj in Hc, He. destruct (e =? 1) eqn:E1; [|by apply (IH (S k))].
  apply Ok_inj in H. apply Z.eqb_eq in E1. subst. split_and!; [done|done|]. by exists (2 + c).
Qed.

Lemma power_order g x q p : 1 < p → 0 ≤ x → 0 ≤ q → g ^ q mod p = 1 → (g ^ x mod p) ^ q mod p = 1.
Proof.
  intros Hp Hx Hq Hg. rewrite <-Zpower_mod by lia. rewrite <-Z.pow_mul_r, (Z.mul_comm x), Z.pow_mul_r by lia.
  rewrite Zpower_mod, Hg, Z.pow_1_l by lia. apply Z.mod_small. lia.
Qed.

(** Generated parameters: [p] is the safe prime [2q + 1] that the primality
    test accepted, [g] is a square of order dividing [q] and [h] is a power of
    it, so that both generate subgroups of order dividing [q].  The size asked
    for [p] plays no role: when the generator draws [q] with [b] bits, [p] has
    at most [b + 1]. *)
Theorem pedersen_params_sound (fuel : nat) (d : Draws) (l : SecurityLevel) (params : PedersenParams)
    (Hq : ∀ k, 2 ≤ d_prime d k < 2 ^ (Ped.level_bits l).2)
    (Hok : Ped.params_new fuel d l = Ok params) :
  pp_p params = 2 * pp_q params + 1 ∧ is_prime (pp_p params) = true ∧
  0 ≤ pp_g params < pp_p params ∧ pp_g params ^ pp_q params mod pp_p params = 1 ∧
  (∃ x, 0 ≤ x < pp_q params ∧ pp_h params = pp_g params ^ x mod pp_p params) ∧
  pp_h params ^ pp_q params mod pp_p params = 1 ∧
  bits (pp_p params) ≤ (Ped.level_bits l).2 + 1 < (Ped.level_bits l).1.
Proof.
  unfold Ped.params_new in Hok. apply bind_Ok in Hok as ([[[p q] g] h] & Hg & ->%Ok_inj%eq_sym). cbn [pp_p pp_q pp_g pp_h].
  unfold Ped.generate_pedersen_params in Hg. apply bind_Ok in Hg as ([p' q'] & (j & _ & Hj & Hp & Hpr)%find_prime_inv & Hg).
  apply bind_Ok in Hg as (g' & (Hp0 & Hord & c & Hc)%find_g_inv & (x & Hx & (h' & Hh & Heq)%bind_Ok)%bind_Ok).
  apply Ok_inj in Heq. injection Heq as -> -> -> ->. specialize (Hq j). rewrite <-Hj in Hq. clear Hj.
  unfold big_rem in Hx. destruct (Z.eqb_spec q 0); [lia|]. apply Ok_inj in Hx.
  unfold modpow in Hh. destruct (Z.eqb_spec p 0); [done|]. apply Ok_inj in Hh.
  assert (0 ≤ x < q) by (subst x; apply Z.mod_pos_bound; lia).
  split_and!; try done.
  - rewrite Hc. apply Z.mod_pos_bound. lia.
  - rewrite Hc. apply Z.mod_pos_bound. lia.
  - by exists x.
  - subst h. apply power_order; lia || done.
  - unfold bits. destruct (Z.eqb_spec p 0); [lia|].
    enough (Z.log2 p < (Ped.level_bits l).2 + 1) by lia.
    apply Z.log2_lt_pow2; [lia|]. rewrite Z.pow_add_r by (destruct l; cbn; lia). lia.
  - destruct l; cbn; lia.
Qed.

Lemma randomness_inv fuel d q k r : Ped.randomness_from fuel d q k = Ok r → 0 ≤ r < q.
Proof.
  revert k. induction fuel as [|fuel IH]; intros k; cbn [Ped.randomness_from]; [done|].
  destruct (Z.ltb_spec (be_Z (d_r d k)) q); [|apply IH]. intros <-%Ok_inj. pose proof (be_Z_range (d_r d k)). lia.
Qed.

Lemma randomness_returns d q j fuel k : be_Z (d_r d (k + j)) < q → (j < fuel)%nat →
  is_ok (Ped.randomness_from fuel d q k) = true.
Proof.
  revert k j. induction fuel as [|fuel IH]; intros k j Hj Hf; [lia|]. cbn [Ped.randomness_from].
  destruct (Z.ltb_spec (be_Z (d_r d k)) q); [done|]. destruct j as [|j]; [rewrite Nat.add_0_r in Hj; lia|].
  apply (IH (S k) j); [by rewrite Nat.add_succ_comm|lia].
Qed.

Lemma commit_inv fuel d params value c r : pp_p params ≠ 0 → Ped.commit fuel d params value = Ok (c, r) →
  0 ≤ r < pp_q params ∧
  c = mkPedersen (commitment_of params (of_le_bytes value) r)
        (shake256 32 (Ped.hash_rounds_from (Ped.rounds_of (pp_security_level params)) 0
           (sha3_512 (to_bytes_be (commitment_of params (of_le_bytes value) r)))))
        (Ped.rounds_of (pp_security_level params)) (pp_security_level params).
Proof.
  intros Hp. unfold Ped.commit, Ped.generate_randomness. intros (r' & Hr%randomness_inv & H)%bind_Ok.
  rewrite compute_commitment_eq in H by done. cbn [mbind outcome_bind Ped.hash_commitment] in H.
  apply Ok_inj in H. injection H as <- <-. done.
Qed.

Lemma verify_eq c value r params : pp_p params ≠ 0 →
  Ped.verify c value r params =
    Ok (constant_time_eq (pc_commitment_hash c)
          (shake256 32 (Ped.hash_rounds_from (pc_hash_rounds c) 0
             (sha3_512 (to_bytes_be (commitment_of params (of_le_bytes value) r)))))
        && (pc_commitment c =? commitment_of params (of_le_bytes value) r)).
Proof. intros Hp. unfold Ped.verify. by rewrite compute_commitment_eq by done. Qed.

Lemma verify_hashed n v hr l value r params : pp_p params ≠ 0 → n = commitment_of params (of_le_bytes value) r →
  v = shake256 32 (Ped.hash_rounds_from hr 0 (sha3_512 (to_bytes_be n))) →
  Ped.verify (mkPedersen n v hr l) value r params = Ok true.
Proof. intros Hp -> ->. rewrite verify_eq by done. cbn. by rewrite constant_time_eq_refl, Z.eqb_refl. Qed.

Lemma commitment_of_mul params v1 r1 v2 r2 : pp_p params ≠ 0 → 0 ≤ v1 → 0 ≤ v2 → 0 ≤ r1 → 0 ≤ r2 →
  (commitment_of params v1 r1 * commitment_of params v2 r2) mod pp_p params = commitment_of params (v1 + v2) (r1 + r2).
Proof.
  intros Hp ????. unfold commitment_of. rewrite <-Z.mul_mod, !Z.pow_add_r by done. f_equal. ring.
Qed.

Lemma of_le_nonneg b : 0 ≤ of_le_bytes b.
Proof. apply of_le_bytes_bound. Qed.

(** Commitments open, and combine homomorphically: a commitment verifies with
    the value and the blinding factor it was made with, and the combination of
    two commitments under the same parameters opens to the sum of the values
    (as little-endian numbers) with the sum of the factors. *)
Theorem pedersen_homomorphic (f1 f2 : nat) (d1 d2 : Draws) (params : PedersenParams) (v1 v2 v : bytes)
    (c1 c2 : PedersenCommitment) (r1 r2 : Z)
    (Hp : pp_p params ≠ 0)
    (H1 : Ped.commit f1 d1 params v1 = Ok (c1, r1)) (H2 : Ped.commit f2 d2 params v2 = Ok (c2, r2))
    (Hv : of_le_bytes v = of_le_bytes v1 + of_le_bytes v2) :
  Ped.verify c1 v1 r1 params = Ok true ∧ Ped.verify_hash c1 = Ok true ∧
  ∃ c, Ped.combine c1 c2 params = Ok c ∧ Ped.verify c v (r1 + r2) params = Ok true.
Proof.
  apply commit_inv in H1 as [Hr1 ->], H2 as [Hr2 ->]; try done.
  split; [by apply verify_hashed|]. split; [unfold Ped.verify_hash; cbn; by rewrite constant_time_eq_refl|].
  unfold Ped.combine. cbn [pc_security_level pc_commitment pc_hash_rounds].
  rewrite (bool_decide_eq_true_2 _ eq_refl). cbn [negb]. unfold big_rem. rewrite (proj2 (Z.eqb_neq _ _) Hp).
  cbn [mbind outcome_bind Ped.hash_commitment]. eexists. split; [done|].
  pose proof (of_le_nonneg v1). pose proof (of_le_nonneg v2).
  apply verify_hashed; [done| |done]. rewrite commitment_of_mul by (done || lia). by rewrite Hv.
Qed.

(** Whoever draws the parameters knows the logarithm of [h] and can open a
    commitment to other values: adding the logarithm to the value and taking one
    from the blinding factor gives the same commitment. *)
Theorem pedersen_trapdoor (params : PedersenParams) (x : Z) (c : PedersenCommitment) (v v' : bytes) (r : Z)
    (Hp : pp_p params ≠ 0) (Hx : 0 ≤ x) (Hh : pp_h params = pp_g params ^ x mod pp_p params)
    (Hr : 1 ≤ r) (Hv : of_le_bytes v' = of_le_bytes v + x) (Hok : Ped.verify c v r params = Ok true) :
  Ped.verify c v' (r - 1) params = Ok true.
Proof.
  rewrite verify_eq in Hok |- * by done. rewrite Hv. rewrite <-Hok. clear Hok. f_equal.
  enough (commitment_of params (of_le_bytes v + x) (r - 1) = commitment_of params (of_le_bytes v) r) as -> by done.
  pose proof (of_le_nonneg v). unfold commitment_of.
  replace (pp_h params ^ r) with (pp_h params * pp_h params ^ (r - 1)) by (rewrite <-Z.pow_succ_r by lia; f_equal; lia).
  rewrite Z.pow_add_r by lia. rewrite <-!Z.mul_assoc. rewrite (Z.mul_mod (_ ^ of_le_bytes v)), (Z.mul_mod (_ ^ of_le_bytes v) (pp_h params * _)) by done.
  do 2 f_equal. rewrite (Z.mul_mod (pp_h params)), Hh, Z.mod_mod by done. by rewrite <-Z.mul_mod.
Qed.

End Facts.

(** Small concrete externals for the witnesses. *)
Module ToyPed.
#[refine] Definition toy_sha3 : Sha3 := {|
  sha3_512 m := le_bytes 64 (Toy.checksum m); shake256 n m := le_bytes n (Toy.checksum m) |}.
Proof. all: intros; apply length_le_bytes. Defined.
Definition toy_prime : PrimeTest := fun p => bool_decide (p = 23).
(** q = 11, p = 23 *)
Definition draws : Draws := mkDraws (fun k => match k with O => 7 | _ => 11 end) (fun _ => [Byte.x05]) [Byte.x04] (fun k => match k with O => [Byte.xff] | _ => [Byte.x03] end).
Definition params : PedersenParams := mkPedersenParams 3 12 23 11 Standard128.
End ToyPed.

#[local] Existing Instances Toy.toy_blake3 ToyPed.toy_sha3 ToyPed.toy_prime.

Example toy_params : Ped.params_new 4 ToyPed.draws Standard128 = Ok ToyPed.params.
Proof. vm_compute. reflexivity. Qed.

Lemma pedersen_params_sound_witness :
  bits (pp_p ToyPed.params) ≤ 257 ∧ pp_h ToyPed.params ^ pp_q ToyPed.params mod pp_p ToyPed.params = 1.
Proof.
  assert (Hq : ∀ k, 2 ≤ d_prime ToyPed.draws k < 2 ^ (Ped.level_bits Standard128).2).
  { intros [|k]; vm_compute; split; (discriminate || reflexivity). }
  destruct (pedersen_params_sound 4 ToyPed.draws Standard128 ToyPed.params Hq toy_params) as (_ & _ & _ & _ & _ & H & H' & _).
  split; [exact H'|exact H].
Defined.

Definition toy_commitment (v : bytes) : PedersenCommitment * Z :=
  match Ped.commit 3 ToyPed.draws ToyPed.params v with Ok x => x | _ => (Ped.default, 0) end.

Lemma pedersen_homomorphic_witness : ∃ c,
  Ped.combine (toy_commitment [Byte.x02]).1 (toy_commitment [Byte.x05]).1 ToyPed.params = Ok c ∧
  Ped.verify c [Byte.x07] 6 ToyPed.params = Ok true.
Proof.
  refine (proj2 (proj2 (pedersen_homomorphic 3 3 ToyPed.draws ToyPed.draws ToyPed.params [Byte.x02] [Byte.x05] [Byte.x07]
    (toy_commitment [Byte.x02]).1 (toy_commitment [Byte.x05]).1 3 3 _ _ _ _))).
  - discriminate.
  - vm_compute. reflexivity.
  - vm_compute. reflexivity.
  - vm_compute. reflexivity.
Defined.

Lemma pedersen_trapdoor_witness :
  Ped.verify (toy_commitment [Byte.x02]).1 [Byte.x06] 2 ToyPed.params = Ok true.
Proof.
  refine (pedersen_trapdoor ToyPed.params 4 (toy_commitment [Byte.x02]).1 [Byte.x02] [Byte.x06] 3 _ _ _ _ _ _);
    try lia; try discriminate; vm_compute; reflexivity.
Defined.
