(* ===== verification/BatchProof.v ===== *)
(** * Proofs of transitions in a batch (dsm/src/core/state_machine/batch_proof.rs)

    The proof record with its verification by a sandwich of SHA3-512 and BLAKE3,
    its signature, the generator with its cache of trees, and the two methods
    that the file adds to the batch manager.  The vectorised copies of the
    generator are plain copies of 32 bytes. *)
From S2P Require Import Prelude Tokens Operations SparseIdx States RandomWalk Transition Merkle Batch Sphincs Keys Pedersen.

(** ** Data *)

Record BatchProofMetadata := mkBatchProofMeta {
  bpm_transition_count : Z;
  bpm_time_range : Z * Z;
  bpm_prev_hash : bytes;
}.

Record BatchTransitionProof := mkBatchProof {
  bp_transition_index : Z;
  bp_tree_height : Z;
  bp_siblings : list bytes;
  bp_transition_hash : bytes;
  bp_root_hash : bytes;
  bp_batch_number : Z;
  bp_metadata : BatchProofMetadata;
  bp_signature : bytes;
}.

Record BatchProofGenerator := mkProofGenerator {
  pg_tree_cache : gmap Z SparseMerkleTreeImpl;
  pg_transition_cache : gmap (Z * Z) StateTransition;
}.

(** ** Proofs *)

Module BTP.
Section BTP.
Context {B3 : Blake3} {S3 : Sha3} {ST : Bincode StateTransition}.

Definition new (transition_index tree_height : Z) (siblings : list bytes) (transition_hash root_hash : bytes)
    (batch_number : Z) (metadata : BatchProofMetadata) : BatchTransitionProof :=
  mkBatchProof transition_index tree_height siblings transition_hash root_hash batch_number metadata [].

(** SHA3-512 inside BLAKE3. *)
Definition sandwich (m : bytes) : bytes := blake3 (sha3_512 m).

(** [current_index >> level]: an amount of 64 or more panics. *)
Definition u64_shr (n level : Z) : outcome Z := if level <? 64 then Ok (Z.shiftr n level) else Panic.

(** The loop over the levels; [index] is shifted after every level and again by
    the level when its bit is read. *)
Fixpoint climb (level index : Z) (current_hash : bytes) (siblings : list bytes) : outcome bytes :=
  match siblings with
  | [] => Ok current_hash
  | sibling :: siblings =>
      shifted ← u64_shr index level;
      let current_hash :=
        if Z.land shifted 1 =? 0 then sandwich (Byte.x01 :: current_hash ++ sibling)
        else sandwich (Byte.x01 :: sibling ++ current_hash) in
      climb (level + 1) (Z.shiftr index 1) current_hash siblings
  end.

(** [self.siblings.len() as u32] *)
Definition sibling_count (p : BatchTransitionProof) : Z := Z.of_nat (length (bp_siblings p)) `mod` 2 ^ 32.

Definition reconstruct_root_quantum_resistant (p : BatchTransitionProof) : outcome bytes :=
  if negb (sibling_count p =? bp_tree_height p) then
    Err (EMerkle "Sibling count ({}) doesn't match tree height ({})")
  else climb 0 (bp_transition_index p) (bp_transition_hash p) (bp_siblings p).

Definition verify (p : BatchTransitionProof) (t : StateTransition) (batch_root_hash : bytes) : outcome bool :=
  serialized ← serialize_or "Failed to serialize transition" t;
  if negb (bool_decide (sandwich serialized = bp_transition_hash p)) then Ok false
  else
    reconstructed_root ← reconstruct_root_quantum_resistant p;
    Ok (bool_decide (reconstructed_root = batch_root_hash)).

(** The message that is signed. *)
Definition message_hash (p : BatchTransitionProof) : bytes := sandwich (bp_transition_hash p ++ bp_root_hash p).

Definition verify_with_quantum_signatures (p : BatchTransitionProof) (t : StateTransition)
    (batch_root_hash public_key : bytes) : outcome bool :=
  valid ← verify p t batch_root_hash;
  if negb valid then Ok false
  else Sphincs.sphincs_verify public_key (message_hash p) (bp_signature p).

Definition set_signature (sig : bytes) (p : BatchTransitionProof) : BatchTransitionProof :=
  mkBatchProof (bp_transition_index p) (bp_tree_height p) (bp_siblings p) (bp_transition_hash p)
    (bp_root_hash p) (bp_batch_number p) (bp_metadata p) sig.

Definition sign_with_sphincs (secret_key : bytes) : M BatchTransitionProof unit := fun p =>
  match Sphincs.sphincs_sign secret_key (message_hash p) with
  | Ok sig => (Ok tt, set_signature sig p)
  | Err e => (Err e, p)
  | Panic => (Panic, p)
  | Hang => (Hang, p)
  end.

(** [for (proof, transition) in proofs.iter().zip(transitions.iter())] *)
Fixpoint verify_all (l : list (BatchTransitionProof * StateTransition)) (batch_root_hash : bytes) : outcome bool :=
  match l with
  | [] => Ok true
  | (proof, transition) :: l =>
      valid ← verify proof transition batch_root_hash;
      if negb valid then Ok false else verify_all l batch_root_hash
  end.

Definition batch_verify (proofs : list BatchTransitionProof) (transitions : list StateTransition)
    (batch_root_hash : bytes) : outcome bool :=
  if negb (Nat.eqb (length proofs) (length transitions)) then
    Err (EValidation "Proof count ({}) doesn't match transition count ({})")
  else verify_all (zip proofs transitions) batch_root_hash.

Definition to_bytes {SPr : Bincode BatchTransitionProof} (p : BatchTransitionProof) : outcome bytes :=
  serialize_or "Failed to serialize batch proof" p.
Definition from_bytes {UPr : Unbincode BatchTransitionProof} (b : bytes) : outcome BatchTransitionProof :=
  ok_or (ESerialization "Failed to deserialize batch proof") (deserialize b).

Definition verify_batch_transition_proof (p : BatchTransitionProof) (t : StateTransition)
    (batch_root_hash : bytes) : outcome bool := verify p t batch_root_hash.

End BTP.
End BTP.

(** ** The generator and the batch manager *)

Module PG.
Section PG.
Context {B3 : Blake3} {S3 : Sha3} {ST : Bincode StateTransition}.

Definition new : BatchProofGenerator := mkProofGenerator ∅ ∅.
Definition clear_caches (g : BatchProofGenerator) : BatchProofGenerator := mkProofGenerator ∅ ∅.

Definition cache_tree (n : Z) (tree : SparseMerkleTreeImpl) (g : BatchProofGenerator) : BatchProofGenerator :=
  mkProofGenerator (<[n := tree]> (pg_tree_cache g)) (pg_transition_cache g).
Definition cache_transition (k : Z * Z) (t : StateTransition) (g : BatchProofGenerator) : BatchProofGenerator :=
  mkProofGenerator (pg_tree_cache g) (<[k := t]> (pg_transition_cache g)).

Definition get_or_build_tree (batch : StateBatch) : M BatchProofGenerator SparseMerkleTreeImpl := fun g =>
  match pg_tree_cache g !! b_batch_number batch with
  | Some tree => (Ok tree, g)
  | None =>
      let tree := SMT.new (ceil_log2 (b_transition_count batch)) in
      (Ok tree, cache_tree (b_batch_number batch) tree g)
  end.

(** [sibling.copy_from_slice(path.inner().as_bytes())] on hashes of 32 bytes. *)
Definition extract_sibling_hashes (paths : list bytes) : outcome (list bytes) := Ok paths.

(** [.map_err(|e| DsmError::merkle(..))] *)
Definition proof_error (o : outcome MerkleProof) : outcome MerkleProof :=
  match o with Err _ => Err (EMerkle "Failed to generate Merkle proof: {:?}") | _ => o end.

(** [x.copy_from_slice(v)] into 32 bytes, after a check of the length. *)
Definition hash_array (msg : string) (v : bytes) : outcome bytes :=
  if Nat.eqb (length v) 32 then Ok v else Err (EValidation msg).

Definition generate_proof (batch : StateBatch) (transition_index : Z) (t : StateTransition) :
    M BatchProofGenerator BatchTransitionProof :=
  if b_transition_count batch <=? transition_index then
    do* mlift (u64_sub (b_transition_count batch) 1);
    mfail (EValidation "Transition index {} out of bounds (max: {})")
  else
    let* serialized := mlift (serialize_or "Failed to serialize transition" t) in
    let* tree := get_or_build_tree batch in
    let* merkle_proof := mlift (proof_error (SMT.get_proof tree transition_index)) in
    let* prev_hash := mlift (hash_array "Invalid previous state hash length" (b_prev_state_hash batch)) in
    let metadata := mkBatchProofMeta (b_transition_count batch) (b_time_range batch) prev_hash in
    let* siblings := mlift (extract_sibling_hashes (p_path merkle_proof)) in
    let transition_hash := blake3 serialized in
    let* root_hash := mlift (hash_array "Invalid transitions root hash length" (b_transitions_root batch)) in
    let tree_height := Z.of_nat (length (p_path merkle_proof)) `mod` 2 ^ 32 in
    do* mmod (cache_transition (b_batch_number batch, transition_index) t);
    mret_st (BTP.new transition_index tree_height siblings transition_hash root_hash (b_batch_number batch) metadata).

Definition generate_transition_proof_complete (m : BatchManager) (batch_number transition_index : Z)
    (t : StateTransition) : outcome BatchTransitionProof :=
  batch ← BM.get_batch m batch_number;
  (generate_proof batch transition_index t new).1.

(** [root_hash.copy_from_slice(..)] without a check of the length. *)
Definition copy_32 (v : bytes) : outcome bytes := if Nat.eqb (length v) 32 then Ok v else Panic.

Definition verify_transition_in_batch_complete (m : BatchManager) (batch_number transition_index : Z)
    (t : StateTransition) (proof : BatchTransitionProof) : outcome bool :=
  batch ← BM.get_batch m batch_number;
  if negb (bp_batch_number proof =? batch_number) then Ok false
  else if negb (bp_transition_index proof =? transition_index) then Ok false
  else
    root_hash ← copy_32 (b_transitions_root batch);
    BTP.verify proof t root_hash.

End PG.
End PG.

(** ** Facts *)

Section BatchProofFacts.
Context {B3 : Blake3} {S3 : Sha3} {ST : Bincode StateTransition}.

(** What the loop computes: at each level the side is the bit of the index at
    twice that level. *)
Fixpoint climb_even (i : Z) (level : nat) (current : bytes) (siblings : list bytes) : bytes :=
  match siblings with
  | [] => current
  | x :: siblings =>
      climb_even i (S level)
        (BTP.sandwich (Byte.x01 :: if Z.testbit i (2 * Z.of_nat level) then x ++ current else current ++ x)) siblings
  end.

Lemma climb_is_even i siblings level current :
  BTP.climb (Z.of_nat level) (Z.shiftr i (Z.of_nat level)) current siblings =
  if decide (siblings = [] ∨ level + length siblings ≤ 64)%nat then Ok (climb_even i level current siblings) else Panic.
Proof.
  revert level current. induction siblings as [|x siblings IH]; intros level current; cbn [BTP.climb climb_even length].
  { by rewrite decide_True by tauto. }
  unfold BTP.u64_shr. case_test; zbool; cbn [mbind outcome_bind].
  2: { rewrite decide_False; [done|]. intros [|]; [done|lia]. }
  rewrite !Z.shiftr_shiftr by lia. replace (Z.of_nat level + 1) with (Z.of_nat (S level)) by lia.
  rewrite IH, land_1_eqb, <- Z.negb_odd, <- Z.bit0_odd, Z.shiftr_spec by lia.
  replace (0 + (Z.of_nat level + Z.of_nat level)) with (2 * Z.of_nat level) by lia.
  erewrite (decide_ext (siblings = [] ∨ _)%nat); [destruct (Z.testbit i _); reflexivity|].
  split; [intros [->|]; right; cbn [length]; lia|intros [|]; [done|right; lia]].
Qed.

Lemma sandwich_length m : length (BTP.sandwich m) = 32%nat.
Proof. apply blake3_length. Qed.

(** What climbing the siblings hashes. *)
Fixpoint climb_messages (i : Z) (level : nat) (current : bytes) (siblings : list bytes) : list bytes :=
  match siblings with
  | [] => []
  | x :: siblings =>
      let m := Byte.x01 :: if Z.testbit i (2 * Z.of_nat level) then x ++ current else current ++ x in
      m :: climb_messages i (S level) (BTP.sandwich m) siblings
  end.

Lemma climb_even_inj i j level xs ys a b :
  length xs = length ys → length a = 32%nat → length b = 32%nat →
  Forall (fun x => length x = 32%nat) xs → Forall (fun x => length x = 32%nat) ys →
  (∀ l, level ≤ l < level + length xs → Z.testbit i (2 * Z.of_nat l) = Z.testbit j (2 * Z.of_nat l))%nat →
  climb_even i level a xs = climb_even j level b ys →
  a = b ∨ collision BTP.sandwich (climb_messages i level a xs ++ climb_messages j level b ys).
Proof.
  revert level ys a b. induction xs as [|x xs IH]; intros level [|y ys] a b Hl Ha Hb Hxs Hys Hbits; try done; cbn [climb_even].
  { by left. }
  apply Forall_cons in Hxs as [Hx Hxs], Hys as [Hy Hys]. cbn [length] in *.
  rewrite (Hbits level) by lia. intros H.
  cbn [climb_messages]. rewrite (Hbits level) by lia.
  apply IH in H as [H|H]; [|right; eapply collision_mono; [|exact H]; set_solver
    |lia|apply sandwich_length|apply sandwich_length|done|done|intros l ?; apply Hbits; lia].
  apply hash_bind in H as [H|H]; [left|right; eapply collision_mono; [|exact H]; set_solver]. injection H as H.
  destruct (Z.testbit j _); [apply app_inj_1 in H|apply app_inj_1 in H]; [tauto|congruence|tauto|congruence].
Qed.

(** The arrays of a proof have 32 bytes, its index and height their width. *)
Definition proof_typed (p : BatchTransitionProof) : Prop :=
  Forall (fun x => length x = 32%nat) (bp_siblings p) ∧ length (bp_transition_hash p) = 32%nat ∧
  u64_ok (bp_transition_index p).

Lemma verify_true p t root :
  BTP.verify p t root = Ok true ↔
  ∃ b, serialize t = Some b ∧ BTP.sandwich b = bp_transition_hash p ∧ (length (bp_siblings p) ≤ 64)%nat ∧
    bp_tree_height p = Z.of_nat (length (bp_siblings p)) ∧
    climb_even (bp_transition_index p) 0 (bp_transition_hash p) (bp_siblings p) = root.
Proof.
  unfold BTP.verify, BTP.reconstruct_root_quantum_resistant, BTP.sibling_count, serialize_or.
  destruct (serialize t) as [b|]; cbn [ok_or mbind outcome_bind]; [|naive_solver].
  pose proof (climb_is_even (bp_transition_index p) (bp_siblings p) 0 (bp_transition_hash p)) as Hc.
  change (Z.of_nat 0) with 0 in Hc. rewrite Z.shiftr_0_r in Hc. rewrite Hc. clear Hc.
  case_bool_decide as Hs; cbn [negb]; [|naive_solver].
  destruct (decide (length (bp_siblings p) ≤ 64)%nat) as [Hl|Hl].
  - rewrite Z.mod_small by lia. rewrite decide_True by (right; lia).
    case_test; zbool; cbn [mbind outcome_bind]; [naive_solver lia|].
    split; [intros H; apply Ok_inj, bool_decide_eq_true in H; naive_solver|].
    intros (? & ? & ? & ? & ? & ->). by rewrite bool_decide_eq_true_2.
  - rewrite decide_False; [|intros [E|]; [rewrite E in Hl; cbn in Hl; lia|lia]].
    case_test; cbn [mbind outcome_bind]; naive_solver lia.
Qed.

Lemma climb_even_ext i j level xs a :
  (∀ l, level ≤ l < level + length xs → Z.testbit i (2 * Z.of_nat l) = Z.testbit j (2 * Z.of_nat l))%nat →
  climb_even i level a xs = climb_even j level a xs.
Proof.
  revert level a. induction xs as [|x xs IH]; intros level a H; cbn [climb_even]; [done|].
  rewrite (H level) by (cbn; lia). apply IH. intros l Hl. apply H. cbn. lia.
Qed.

(** A fresh tree has no nodes below its root. *)
Lemma empty_siblings h k level i : 0 ≤ level → level + Z.of_nat k ≤ h →
  SMT.sibling_path k level i (t_nodes (SMT.new h)) = replicate k zero_hash.
Proof.
  revert level i. induction k as [|k IH]; intros level i Hl Hk; cbn [SMT.sibling_path replicate]; [done|].
  rewrite IH by lia. f_equal. unfold SMT.node_hash, SMT.new. cbn [t_nodes].
  rewrite lookup_singleton_ne; [done|]. intros E. injection E. lia.
Qed.

Lemma empty_tree_proof (count i : Z) : 0 ≤ i < count → count < 2 ^ 47 →
  ∃ p, SMT.get_proof (SMT.new (ceil_log2 count)) i = Ok p ∧
    p_path p = replicate (Z.to_nat (ceil_log2 count)) zero_hash.
Proof.
  intros Hi Hc. unfold SMT.get_proof, u64_shl1, ceil_log2. cbn [SMT.new t_height].
  pose proof (Z.log2_up_nonneg count). pose proof (Z.log2_up_le_mono count (2 ^ 47)) as Hm.
  rewrite (Z.log2_up_pow2 47) in Hm by lia.
  rewrite (proj2 (Z.ltb_lt _ _)) by lia. cbn [mbind outcome_bind]. rewrite Z.shiftl_1_l.
  assert (count ≤ 2 ^ Z.log2_up count).
  { destruct (decide (1 < count)); [apply Z.log2_log2_up_spec; lia|].
    assert (count = 1) as -> by lia. done. }
  rewrite (proj2 (Z.leb_gt _ _)) by lia. unfold SMT.get_node_hash. cbn [mbind outcome_bind].
  eexists. split; [reflexivity|]. cbn [SMT.proof_new p_path mp_path].
  apply (empty_siblings (Z.log2_up count)); lia.
Qed.

(** A proof that carries the plain BLAKE3 hash of the transition is refused. *)
Lemma single_hash_refused p t b root :
  serialize t = Some b → length b ≠ 64%nat → bp_transition_hash p = blake3 b →
  BTP.verify p t root = Ok false ∨ collision blake3 [sha3_512 b; b].
Proof.
  intros Hs Hb Hh. unfold BTP.verify, serialize_or. rewrite Hs. cbn [ok_or mbind outcome_bind].
  case_bool_decide as E; [|by left]. right. rewrite Hh in E. unfold BTP.sandwich in E.
  apply hash_bind in E as [Eb|Hc]; [|exact Hc]. destruct Hb. rewrite <- Eb. apply sha3_512_length.
Qed.

End BatchProofFacts.

(** ** Properties *)

Section BatchProofProperties.
Context {B3 : Blake3} {S3 : Sha3} {ST : Bincode StateTransition}.

(** What verifying a proof for a serialised transition hashes. *)
Definition proof_messages (b : bytes) (p : BatchTransitionProof) : list bytes :=
  b :: climb_messages (bp_transition_index p) 0 (bp_transition_hash p) (bp_siblings p).

(** A batch root binds its transitions: two proofs of one height that verify
    against the same root, at indices that agree in the bits the verifier reads,
    are proofs of transitions with the same serialisation, unless two of the
    messages that verifying the two proofs hashes have the same digest. *)
Theorem batch_proof_binding (p q : BatchTransitionProof) (t u : StateTransition) (root : bytes) :
  proof_typed p → proof_typed q → bp_tree_height p = bp_tree_height q →
  (∀ l : nat, Z.of_nat l < bp_tree_height p →
     Z.testbit (bp_transition_index p) (2 * Z.of_nat l) = Z.testbit (bp_transition_index q) (2 * Z.of_nat l)) →
  BTP.verify p t root = Ok true → BTP.verify q u root = Ok true →
  serialize t = serialize u ∨ ∃ b c, serialize t = Some b ∧ serialize u = Some c ∧
    collision BTP.sandwich (proof_messages b p ++ proof_messages c q).
Proof.
  intros (Hp & Hph & _) (Hq & Hqh & _) Hh Hbits Hvp Hvq.
  apply verify_true in Hvp as (b & Eb & Hb & Hlp & Hhp & Hcp), Hvq as (c & Ec & Hc & Hlq & Hhq & Hcq).
  subst root. symmetry in Hcq.
  apply climb_even_inj in Hcq as [H|H]; [| |lia|done|done|done|done|intros l ?; apply Hbits; lia].
  - rewrite <- Hb, <- Hc in H. apply hash_bind in H as [->|H]; [left; congruence|right]. exists b, c. split_and!; [done..|].
    eapply collision_mono; [|exact H]. unfold proof_messages. set_solver.
  - right. exists b, c. split_and!; [done..|]. eapply collision_mono; [|exact H]. unfold proof_messages. set_solver.
Qed.

Definition at_index (i : Z) (p : BatchTransitionProof) : BatchTransitionProof :=
  mkBatchProof i (bp_tree_height p) (bp_siblings p) (bp_transition_hash p) (bp_root_hash p)
    (bp_batch_number p) (bp_metadata p) (bp_signature p).

(** A proof does not bind its position: the index is shifted twice on the way
    up, so that only its bits at even positions are read, and the same proof is
    accepted, or refused, at every index that agrees in those bits. *)
Theorem batch_proof_position_ambiguous (p : BatchTransitionProof) (i : Z) (t : StateTransition) (root : bytes) :
  (∀ l : nat, (l < length (bp_siblings p))%nat →
     Z.testbit i (2 * Z.of_nat l) = Z.testbit (bp_transition_index p) (2 * Z.of_nat l)) →
  BTP.verify (at_index i p) t root = BTP.verify p t root.
Proof.
  intros Hbits. unfold BTP.verify, BTP.reconstruct_root_quantum_resistant, BTP.sibling_count.
  cbn [at_index bp_transition_index bp_tree_height bp_siblings bp_transition_hash].
  assert (BTP.climb 0 i (bp_transition_hash p) (bp_siblings p) =
          BTP.climb 0 (bp_transition_index p) (bp_transition_hash p) (bp_siblings p)) as ->; [|done].
  pose proof (climb_is_even i (bp_siblings p) 0 (bp_transition_hash p)) as H1.
  pose proof (climb_is_even (bp_transition_index p) (bp_siblings p) 0 (bp_transition_hash p)) as H2.
  change (Z.of_nat 0) with 0 in H1, H2. rewrite Z.shiftr_0_r in H1, H2. rewrite H1, H2.
  f_equal. case_decide; [|done]. f_equal. apply climb_even_ext. intros l Hl. apply Hbits. lia.
Qed.

(** Signed proofs verify: a signature by a generated key is accepted with its
    public key on every proof that verifies, and signing changes nothing else. *)
Theorem signed_batch_proof_verifies (p : BatchTransitionProof) (t : StateTransition) (root pk sk : bytes) :
  keypair pk sk →
  ∃ p', BTP.sign_with_sphincs sk p = (Ok tt, p') ∧ p' = BTP.set_signature (bp_signature p') p ∧
    BTP.verify_with_quantum_signatures p' t root pk = BTP.verify p t root.
Proof.
  intros Hk. destruct (sign_verify pk sk (BTP.message_hash p) Hk) as (sig & Hs & _ & Hv).
  { intros E. pose proof (sandwich_length (bp_transition_hash p ++ bp_root_hash p)) as Hl.
    unfold BTP.message_hash in E. by rewrite E in Hl. }
  exists (BTP.set_signature sig p). unfold BTP.sign_with_sphincs. rewrite Hs. split_and!; [done|done|].
  unfold BTP.verify_with_quantum_signatures.
  change (BTP.verify (BTP.set_signature sig p) t root) with (BTP.verify p t root).
  change (BTP.message_hash (BTP.set_signature sig p)) with (BTP.message_hash p).
  destruct (BTP.verify p t root) as [[]| | |]; try done.
Qed.

(** Verification of many proofs accepts exactly when every proof verifies
    against its own transition and the counts are the same. *)
Theorem batch_verify_exact (proofs : list BatchTransitionProof) (ts : list StateTransition) (root : bytes) :
  BTP.batch_verify proofs ts root = Ok true ↔ Forall2 (fun p t => BTP.verify p t root = Ok true) proofs ts.
Proof.
  unfold BTP.batch_verify. destruct (Nat.eqb_spec (length proofs) (length ts)) as [Hl|Hl]; cbn [negb].
  2: { split; [done|]. intros H. by apply Forall2_length in H. }
  revert ts Hl. induction proofs as [|p proofs IH]; intros [|t ts] Hl; try done.
  cbn [zip_with BTP.verify_all]. rewrite Forall2_cons, <- (IH ts) by (cbn in Hl; lia).
  destruct (BTP.verify p t root) as [[]| | |]; cbn [mbind outcome_bind negb]; naive_solver.
Qed.

(** The proofs the batch manager makes are of no use: for a stored batch with
    transitions the call panics on an empty batch and errs on an index out of
    range or a hash of another length; otherwise it returns a proof whose siblings
    are the empty tree's zeros whatever the batch contains, and which the manager
    refuses for that very transition, unless its serialisation has the same BLAKE3
    digest as its SHA3-512 digest. *)
Theorem manager_proofs_refused (m : BatchManager) (n i : Z) (batch : StateBatch) (t : StateTransition) (b : bytes) :
  bm_batches m !! n = Some batch → serialize t = Some b → length b ≠ 64%nat →
  0 ≤ i → 0 ≤ b_transition_count batch < 2 ^ 47 →
  let h := Z.to_nat (ceil_log2 (b_transition_count batch)) in
  let o := PG.generate_transition_proof_complete m n i t in
  if b_transition_count batch =? 0 then o = Panic
  else if b_transition_count batch <=? i then o = Err (EValidation "Transition index {} out of bounds (max: {})")
  else if negb (Nat.eqb (length (b_prev_state_hash batch)) 32) then o = Err (EValidation "Invalid previous state hash length")
  else if negb (Nat.eqb (length (b_transitions_root batch)) 32) then o = Err (EValidation "Invalid transitions root hash length")
  else ∃ p, o = Ok p ∧ bp_siblings p = replicate h zero_hash ∧ bp_transition_hash p = blake3 b ∧
    bp_transition_index p = i ∧ bp_root_hash p = b_transitions_root batch ∧
    (PG.verify_transition_in_batch_complete m n i t p = Ok false ∨ collision blake3 [sha3_512 b; b]).
Proof.
  intros Hm Hs Hb Hi Hc h o. unfold o, PG.generate_transition_proof_complete, BM.get_batch. rewrite Hm.
  cbn [ok_or mbind outcome_bind]. unfold PG.generate_proof.
  destruct (Z.eqb_spec (b_transition_count batch) 0) as [E|Hn].
  { rewrite E, (proj2 (Z.leb_le _ _)) by lia. reflexivity. }
  destruct (Z.leb_spec (b_transition_count batch) i) as [Hle|Hlt].
  { unfold u64_sub. rewrite (proj2 (Z.leb_le _ _)) by lia. reflexivity. }
  destruct (empty_tree_proof (b_transition_count batch) i) as (mp & Hg & Hp); [lia|lia|].
  unfold serialize_or, mbind_st, mlift. rewrite Hs. cbn [ok_or].
  unfold PG.get_or_build_tree. cbn [PG.new pg_tree_cache]. rewrite lookup_empty, Hg. cbn [PG.proof_error].
  unfold PG.hash_array. destruct (Nat.eqb (length (b_prev_state_hash batch)) 32); [|reflexivity].
  destruct (Nat.eqb (length (b_transitions_root batch)) 32) eqn:Er; [|reflexivity]. cbn [negb].
  eexists. split; [reflexivity|]. cbn. rewrite Hp. split_and!; try done.
  unfold PG.verify_transition_in_batch_complete, BM.get_batch. rewrite Hm. cbn [ok_or mbind outcome_bind].
  case_test; [by left|]. case_test; [by left|]. unfold PG.copy_32. rewrite Er. cbn [mbind outcome_bind].
  by apply (single_hash_refused _ t b).
Qed.

End BatchProofProperties.

(** ** Witnesses *)

Module BatchProofWitness.
#[local] Existing Instances Toy.toy_blake3 ToyPed.toy_sha3 toy_bincode_operation ToyBatch.toy_bincode_transition.
Import ToyTr ToyBatch.

Definition leaf : bytes := BTP.sandwich (unwrap_or [] (serialize (demo_transition op1))).
Definition meta0 : BatchProofMetadata := mkBatchProofMeta 3 (7, 7) (zeros 32).
Definition proof0 : BatchTransitionProof := BTP.new 0 2 [zeros 32; zeros 32] leaf (zeros 32) 1 meta0.
Definition root0 : bytes := climb_even 0 0 leaf [zeros 32; zeros 32].

Lemma proof0_typed : proof_typed proof0.
Proof.
  unfold proof_typed. cbn [proof0 BTP.new bp_siblings bp_transition_hash bp_transition_index].
  split_and!; [repeat constructor|apply sandwich_length|vm_compute; split; discriminate].
Qed.

Lemma proof0_verifies : BTP.verify proof0 (demo_transition op1) root0 = Ok true.
Proof.
  apply verify_true. eexists. split; [reflexivity|]. split; [reflexivity|]. split; [cbn; lia|]. split; reflexivity.
Qed.

Lemma batch_proof_binding_witness :
  BTP.verify proof0 (demo_transition op1) root0 = Ok true ∧
  (serialize (demo_transition op1) = serialize (demo_transition op1) ∨
   ∃ b c, serialize (demo_transition op1) = Some b ∧ serialize (demo_transition op1) = Some c ∧
     collision BTP.sandwich (proof_messages b proof0 ++ proof_messages c proof0)).
Proof.
  split; [apply proof0_verifies|].
  exact (batch_proof_binding proof0 proof0 (demo_transition op1) (demo_transition op1) root0 proof0_typed proof0_typed
    eq_refl (fun _ _ => eq_refl) proof0_verifies proof0_verifies).
Defined.

(** The proof for position 0 is accepted at position 2. *)
Lemma batch_proof_position_ambiguous_witness :
  BTP.verify (at_index 2 proof0) (demo_transition op1) root0 = Ok true.
Proof.
  rewrite (batch_proof_position_ambiguous proof0 2 (demo_transition op1) root0); [apply proof0_verifies|].
  intros l Hl. cbn in Hl. destruct l as [|[|l]]; [reflexivity|reflexivity|lia].
Defined.

Lemma toy_signing_pair : keypair (zeros 64) (zeros 128).
Proof. exists (zeros 32), (zeros 32), (zeros 32), (zeros 32). split_and!; reflexivity. Qed.

Lemma signed_batch_proof_verifies_witness :
  ∃ p', BTP.sign_with_sphincs (zeros 128) proof0 = (Ok tt, p') ∧
    BTP.verify_with_quantum_signatures p' (demo_transition op1) root0 (zeros 64) = Ok true.
Proof.
  destruct (signed_batch_proof_verifies proof0 (demo_transition op1) root0 (zeros 64) (zeros 128) toy_signing_pair)
    as (p' & H1 & _ & H2).
  exists p'. split; [exact H1|]. rewrite H2. apply proof0_verifies.
Defined.

Definition batch0 : StateBatch := mkBatch 1 (zeros 32) (zeros 32) 3 (7, 7) [] None None [].
Definition manager0 : BatchManager := mkBatchManager 1 {[1 := batch0]} None None ∅.

Lemma manager_proofs_refused_witness :
  ∃ p, PG.generate_transition_proof_complete manager0 1 2 (demo_transition op1) = Ok p ∧
    bp_siblings p = [zero_hash; zero_hash] ∧
    (PG.verify_transition_in_batch_complete manager0 1 2 (demo_transition op1) p = Ok false ∨
     collision blake3 [sha3_512 (unwrap_or [] (serialize (demo_transition op1))); unwrap_or [] (serialize (demo_transition op1))]).
Proof.
  destruct (manager_proofs_refused manager0 1 2 batch0 (demo_transition op1)
    (unwrap_or [] (serialize (demo_transition op1)))) as (p & H1 & H2 & _ & _ & _ & H3);
    [reflexivity|reflexivity|vm_compute; discriminate|lia|vm_compute; split; [discriminate|reflexivity]|].
  exists p. split; [exact H1|split; [exact H2|exact H3]].
Defined.
End BatchProofWitness.
