(* ===== verification/Ceremony.v ===== *)
(** * The state builder and the genesis ceremony
    (dsm/src/types/state_builder.rs, core/state_machine/genesis.rs)

    [Builder] is [StateBuilder] with all its setters, [Genesis] is
    [GenesisCreator]: the selection of storage nodes, their contributions, the
    verification positions and the genesis states made of them.  ChaCha20 is an
    interface: a generator made from a seed of 32 bytes, and uniform draws from a
    range. *)
From S2P Require Import Prelude Tokens Operations SparseIdx States RandomWalk Transition Merkle Keys Hexa NodeTypes.

(** [rand_chacha::ChaCha20Rng] with [rand::Rng::gen_range]. *)
Class ChaCha20Rng (R : Type) := {
  from_seed : bytes → R;
  gen_range : Z → Z → R → Z * R;      (* [gen_range(lo..hi)] for a non-empty range *)
  gen_range_bounds : ∀ lo hi r, lo < hi → lo ≤ (gen_range lo hi r).1 < hi;
}.

(** ** The builder *)

Record StateBuilder := mkStateBuilder {
  sb_id : string;
  sb_state_number : Z;
  sb_entropy : bytes;
  sb_encapsulated_entropy : option bytes;
  sb_prev_state_hash : bytes;
  sb_sparse_index : option SparseIndex;
  sb_operation : Operation;
  sb_device_id : string;
  sb_public_key : bytes;
  sb_hash : bytes;
  sb_flags : gset StateFlag;
  sb_relationship_context : option RelationshipContext;
  sb_token_balances : gmap string Balance;
  sb_forward_commitment : option PreCommitment;
  sb_positions : list (list Z);
  sb_position_sequence : option PositionSequence;
}.

Module SBuilder.
Section SBuilder.
Context {B3 : Blake3} {SO : Bincode Operation} {SR : Bincode RelationshipContext}.

Definition new : StateBuilder := mkStateBuilder "" 0 [] None [] None Genesis "" [] [] ∅ None ∅ None [] None.

Definition with_id (id : string) (b : StateBuilder) : StateBuilder :=
  mkStateBuilder id (sb_state_number b) (sb_entropy b) (sb_encapsulated_entropy b) (sb_prev_state_hash b)
    (sb_sparse_index b) (sb_operation b) (sb_device_id b) (sb_public_key b) (sb_hash b) (sb_flags b)
    (sb_relationship_context b) (sb_token_balances b) (sb_forward_commitment b) (sb_positions b) (sb_position_sequence b).
Definition with_state_number (n : Z) (b : StateBuilder) : StateBuilder :=
  mkStateBuilder (sb_id b) n (sb_entropy b) (sb_encapsulated_entropy b) (sb_prev_state_hash b)
    (sb_sparse_index b) (sb_operation b) (sb_device_id b) (sb_public_key b) (sb_hash b) (sb_flags b)
    (sb_relationship_context b) (sb_token_balances b) (sb_forward_commitment b) (sb_positions b) (sb_position_sequence b).
Definition with_entropy (e : bytes) (b : StateBuilder) : StateBuilder :=
  mkStateBuilder (sb_id b) (sb_state_number b) e (sb_encapsulated_entropy b) (sb_prev_state_hash b)
    (sb_sparse_index b) (sb_operation b) (sb_device_id b) (sb_public_key b) (sb_hash b) (sb_flags b)
    (sb_relationship_context b) (sb_token_balances b) (sb_forward_commitment b) (sb_positions b) (sb_position_sequence b).
Definition with_encapsulated_entropy (e : bytes) (b : StateBuilder) : StateBuilder :=
  mkStateBuilder (sb_id b) (sb_state_number b) (sb_entropy b) (Some e) (sb_prev_state_hash b)
    (sb_sparse_index b) (sb_operation b) (sb_device_id b) (sb_public_key b) (sb_hash b) (sb_flags b)
    (sb_relationship_context b) (sb_token_balances b) (sb_forward_commitment b) (sb_positions b) (sb_position_sequence b).
Definition with_forward_commitment (c : PreCommitment) (b : StateBuilder) : StateBuilder :=
  mkStateBuilder (sb_id b) (sb_state_number b) (sb_entropy b) (sb_encapsulated_entropy b) (sb_prev_state_hash b)
    (sb_sparse_index b) (sb_operation b) (sb_device_id b) (sb_public_key b) (sb_hash b) (sb_flags b)
    (sb_relationship_context b) (sb_token_balances b) (Some c) (sb_positions b) (sb_position_sequence b).
Definition with_prev_hash (h : bytes) (b : StateBuilder) : StateBuilder :=
  mkStateBuilder (sb_id b) (sb_state_number b) (sb_entropy b) (sb_encapsulated_entropy b) h
    (sb_sparse_index b) (sb_operation b) (sb_device_id b) (sb_public_key b) (sb_hash b) (sb_flags b)
    (sb_relationship_context b) (sb_token_balances b) (sb_forward_commitment b) (sb_positions b) (sb_position_sequence b).
Definition with_sparse_index (i : SparseIndex) (b : StateBuilder) : StateBuilder :=
  mkStateBuilder (sb_id b) (sb_state_number b) (sb_entropy b) (sb_encapsulated_entropy b) (sb_prev_state_hash b)
    (Some i) (sb_operation b) (sb_device_id b) (sb_public_key b) (sb_hash b) (sb_flags b)
    (sb_relationship_context b) (sb_token_balances b) (sb_forward_commitment b) (sb_positions b) (sb_position_sequence b).
Definition with_operation (op : Operation) (b : StateBuilder) : StateBuilder :=
  mkStateBuilder (sb_id b) (sb_state_number b) (sb_entropy b) (sb_encapsulated_entropy b) (sb_prev_state_hash b)
    (sb_sparse_index b) op (sb_device_id b) (sb_public_key b) (sb_hash b) (sb_flags b)
    (sb_relationship_context b) (sb_token_balances b) (sb_forward_commitment b) (sb_positions b) (sb_position_sequence b).
Definition with_device_id (d : string) (b : StateBuilder) : StateBuilder :=
  mkStateBuilder (sb_id b) (sb_state_number b) (sb_entropy b) (sb_encapsulated_entropy b) (sb_prev_state_hash b)
    (sb_sparse_index b) (sb_operation b) d (sb_public_key b) (sb_hash b) (sb_flags b)
    (sb_relationship_context b) (sb_token_balances b) (sb_forward_commitment b) (sb_positions b) (sb_position_sequence b).
Definition with_public_key (k : bytes) (b : StateBuilder) : StateBuilder :=
  mkStateBuilder (sb_id b) (sb_state_number b) (sb_entropy b) (sb_encapsulated_entropy b) (sb_prev_state_hash b)
    (sb_sparse_index b) (sb_operation b) (sb_device_id b) k (sb_hash b) (sb_flags b)
    (sb_relationship_context b) (sb_token_balances b) (sb_forward_commitment b) (sb_positions b) (sb_position_sequence b).
Definition with_device_info (d : DeviceInfo) (b : StateBuilder) : StateBuilder :=
  with_public_key (dev_public_key d) (with_device_id (dev_device_id d) b).
Definition with_flags (f : gset StateFlag) (b : StateBuilder) : StateBuilder :=
  mkStateBuilder (sb_id b) (sb_state_number b) (sb_entropy b) (sb_encapsulated_entropy b) (sb_prev_state_hash b)
    (sb_sparse_index b) (sb_operation b) (sb_device_id b) (sb_public_key b) (sb_hash b) f
    (sb_relationship_context b) (sb_token_balances b) (sb_forward_commitment b) (sb_positions b) (sb_position_sequence b).
Definition with_flag (f : StateFlag) (b : StateBuilder) : StateBuilder := with_flags ({[ f ]} ∪ sb_flags b) b.
Definition with_token_balances (t : gmap string Balance) (b : StateBuilder) : StateBuilder :=
  mkStateBuilder (sb_id b) (sb_state_number b) (sb_entropy b) (sb_encapsulated_entropy b) (sb_prev_state_hash b)
    (sb_sparse_index b) (sb_operation b) (sb_device_id b) (sb_public_key b) (sb_hash b) (sb_flags b)
    (sb_relationship_context b) t (sb_forward_commitment b) (sb_positions b) (sb_position_sequence b).
Definition with_token_balance (id : string) (x : Balance) (b : StateBuilder) : StateBuilder :=
  with_token_balances (<[id := x]> (sb_token_balances b)) b.
Definition with_parameter (key : string) (value : bytes) (b : StateBuilder) : StateBuilder := b.
Definition with_relationship_context (c : RelationshipContext) (b : StateBuilder) : StateBuilder :=
  mkStateBuilder (sb_id b) (sb_state_number b) (sb_entropy b) (sb_encapsulated_entropy b) (sb_prev_state_hash b)
    (sb_sparse_index b) (sb_operation b) (sb_device_id b) (sb_public_key b) (sb_hash b) (sb_flags b)
    (Some c) (sb_token_balances b) (sb_forward_commitment b) (sb_positions b) (sb_position_sequence b).
Definition build_relationship_context (b : StateBuilder) : StateBuilder :=
  match sb_relationship_context b with
  | None => with_relationship_context (mkRelCtx (sb_device_id b) 0 "" 0 [] [] true) b
  | Some _ => b
  end.

(** The hash of the fields, when none is set. *)
Definition state_hash (b : StateBuilder) : outcome bytes :=
  match sb_hash b with
  | [] =>
      serialized_op ← serialize_or "Failed to serialize operation" (sb_operation b);
      serialized_ctx ← match sb_relationship_context b with
                       | Some ctx => serialize_or "Failed to serialize relationship context" ctx
                       | None => Ok []
                       end;
      Ok (blake3 (str_bytes (sb_id b) ++ u64_le (sb_state_number b) ++ sb_entropy b ++
            unwrap_or [] (sb_encapsulated_entropy b) ++ sb_prev_state_hash b ++ serialized_op ++
            str_bytes (sb_device_id b) ++ sb_public_key b ++ serialized_ctx))
  | h => Ok h
  end.

(** Every field but those checked is moved into a variable that is not used, the
    sparse index (an f64 logarithm of the number) among them; the state returned
    is the default. *)
Definition build (b : StateBuilder) : outcome State :=
  _ ← state_hash b;
  if bool_decide (sb_entropy b = []) then Err (EInvalidParameter "Entropy is required for state creation")
  else if bool_decide (sb_device_id b = ""%string) then Err (EInvalidParameter "Device ID is required for state creation")
  else if bool_decide (sb_public_key b = []) then Err (EInvalidParameter "Public key is required for state creation")
  else Ok default_state.

End SBuilder.
End SBuilder.

(** ** The ceremony *)

Record GenesisStateWrapper := mkGenesisWrapper {
  gw_device_id : string;
  gw_app_id : string;
  gw_ceremony_id : string;
  gw_merkle_proof : bytes;
  gw_timestamp : Z;
}.

Record StorageNode := mkStorageNode {
  sn_node_id : string;
  sn_public_key : bytes;
  sn_address : string;
  sn_reputation : Z;
}.

Record GenesisParams := mkGenesisParams {
  gp_ceremony_id : string;
  gp_app_id : string;
  gp_node_count : nat;
  gp_threshold : nat;
  gp_selection_seed : option bytes;
  gp_initial_entropy : option bytes;
  gp_device_info : option DeviceInfo;
  gp_metadata : gmap string bytes;
}.

Record MpcContribution := mkMpcContribution {
  mc_secret : bytes;
  mc_blinding : bytes;
  mc_node_id : string;
  mc_blinded_value : bytes;
}.

Record GenesisCreator := mkGenesisCreator {
  gc_nodes : list StorageNode;
  gc_params : GenesisParams;
  gc_selected_nodes : list StorageNode;
  gc_contributions : gmap string MpcContribution;
}.

Record IdentityClaim := mkIdentityClaim {
  ic_identity_id : string;
  ic_timestamp : Z;
  ic_expiration : Z;
  ic_public_key : bytes;
  ic_signature : bytes;
  ic_claim_hash : bytes;
  ic_anchor_commitment : bytes;
  ic_device_info : DeviceInfo;
  ic_meta_data : gmap string bytes;
}.

Module Genesis.
Section Genesis.
Context {B3 : Blake3} {HX : Hex} {RT : Runtime} {DO : DashOrder} {R : Type} {CR : ChaCha20Rng R}.
Context {SO : Bincode Operation} {SB : Bincode Balance} {SP : Bincode PreCommitment} {SR : Bincode RelationshipContext}.

Definition default_params : GenesisParams :=
  mkGenesisParams "default_ceremony" "com.dsm.default" 5 3 None None None ∅.

Definition contribution_new (secret blinding : bytes) (node_id : string) : MpcContribution :=
  mkMpcContribution secret blinding node_id (blake3 (secret ++ blinding)).
Definition blinded_value (c : MpcContribution) : bytes := mc_blinded_value c.
Definition node_id (c : MpcContribution) : string := mc_node_id c.

Definition new (nodes : list StorageNode) (params : GenesisParams) : GenesisCreator :=
  mkGenesisCreator nodes params [] ∅.

(** [gen_range(lo..hi)] panics on an empty range. *)
Definition draw (lo hi : Z) (r : R) : outcome (Z * R) := if lo <? hi then Ok (gen_range lo hi r) else Panic.

(** The first 32 bytes of the seed, padded with zeros. *)
Definition rng_seed (seed : bytes) : bytes := take 32 seed ++ zeros (32 - length seed).

(** [sort_by(|a, b| b.reputation.cmp(&a.reputation))] *)
Definition by_reputation (a b : StorageNode) : bool := sn_reputation b <=? sn_reputation a.

(** [.map(|n| n.reputation as u32).sum()], with overflow checks. *)
Definition reputation_sum (l : list StorageNode) : Z := foldr (fun n acc => sn_reputation n + acc) 0 l.
Definition total_reputation (l : list StorageNode) : outcome Z :=
  if reputation_sum l <? 2 ^ 32 then Ok (reputation_sum l) else Panic.

(** The index the draw falls on; 0 when it falls on none. *)
Fixpoint selected_idx (i : nat) (selection : Z) (candidates : list StorageNode) : nat :=
  match candidates with
  | [] => 0
  | node :: candidates =>
      if selection <? sn_reputation node then i else selected_idx (S i) (selection - sn_reputation node) candidates
  end.

(** [for _ in 0..node_count] *)
Fixpoint weighted_selection (k : nat) (r : R) (candidates selected : list StorageNode) : outcome (list StorageNode) :=
  match k with
  | O => Ok selected
  | S k =>
      match candidates with
      | [] => Ok selected
      | _ =>
          total ← total_reputation candidates;
          '(selection, r) ← draw 0 total r;
          let i := selected_idx 0 selection candidates in
          match candidates !! i with
          | Some node => weighted_selection k r (delete i candidates) (selected ++ [node])
          | None => Panic
          end
      end
  end.

(** What [select_storage_nodes] computes before it stores the selection. *)
Definition selection (nodes : list StorageNode) (params : GenesisParams) : outcome (list StorageNode) :=
  let node_count := Nat.min (gp_node_count params) (length nodes) in
  let nodes := stable_sort by_reputation nodes in
  match gp_selection_seed params with
  | Some seed => weighted_selection node_count (from_seed (rng_seed seed)) nodes []
  | None => Ok (take node_count nodes)
  end.

Definition select_storage_nodes : M GenesisCreator (list StorageNode) := fun c =>
  match selection (gc_nodes c) (gc_params c) with
  | Ok selected => (Ok selected, mkGenesisCreator (gc_nodes c) (gc_params c) selected (gc_contributions c))
  | o => (o, c)
  end.

Definition add_contribution (node_id : string) (contribution : MpcContribution) : M GenesisCreator unit := fun c =>
  if negb (existsb (fun n => bool_decide (sn_node_id n = node_id)) (gc_selected_nodes c)) then
    (Err (EInvalidParameter "Node {} is not part of the selected nodes"), c)
  else (Ok tt, mkGenesisCreator (gc_nodes c) (gc_params c) (gc_selected_nodes c)
                 (<[node_id := contribution]> (gc_contributions c))).

Definition threshold_met (c : GenesisCreator) : bool :=
  (gp_threshold (gc_params c) <=? size (gc_contributions c))%nat.

(** [k] draws from [-100..100]. *)
Fixpoint position (k : nat) (r : R) : outcome (list Z * R) :=
  match k with
  | O => Ok ([], r)
  | S k =>
      '(x, r) ← draw (-100) 100 r;
      '(pos, r) ← position k r;
      Ok (x :: pos, r)
  end.
Fixpoint position_list (n : nat) (r : R) : outcome (list (list Z)) :=
  match n with
  | O => Ok []
  | S n =>
      '(pos, r) ← position 3 r;
      rest ← position_list n r;
      Ok (pos :: rest)
  end.

Definition generate_verification_positions (seed : bytes) : outcome (list (list Z)) :=
  position_list 5 (from_seed (rng_seed seed)).

Definition verify_positions (seed : bytes) (positions : list (list Z)) : outcome bool :=
  expected_positions ← generate_verification_positions seed;
  Ok (bool_decide (expected_positions = positions)).

Definition set_entity_signature (sig : option bytes) (s : State) : State :=
  mkState (st_id s) (state_number s) (States.entropy s) (hash s) (prev_state_hash s) (sparse_index s)
    (operation s) (encapsulated_entropy s) (device_info s) (flags s) (token_balances s)
    (matches_parameters s) (relationship_context s) (forward_commitment s) (position_sequence s)
    (positions s) (st_public_key s) (device_id s) (hashchain_head s) (external_data s)
    sig (counterparty_sig s) (st_value s) (st_commitment s) (state_type s).

(** The entropy of the ceremony, with the contributions in the order of the map. *)
Definition ceremony_entropy (c : GenesisCreator) : bytes :=
  blake3 (str_bytes (gp_ceremony_id (gc_params c)) ++ str_bytes (gp_app_id (gc_params c)) ++
    mjoin (map (fun kv => blinded_value kv.2) (dash_iter (gc_contributions c))) ++
    unwrap_or [] (gp_initial_entropy (gc_params c))).

Definition ceremony_device (c : GenesisCreator) (device_id : string) (entropy : bytes) : DeviceInfo :=
  match gp_device_info (gc_params c) with
  | Some info => info
  | None => mkDevice device_id (blake3 (entropy ++ str_bytes "KEY_MATERIAL"))
  end.

Definition create_genesis_state (c : GenesisCreator) : outcome State :=
  if negb (threshold_met c) then Err (EValidation "Threshold not met: have {} contributions, need {}")
  else
    let entropy := ceremony_entropy c in
    let device_id := "device_" +:+ hex_encode (take 8 entropy) in
    let device_info := ceremony_device c device_id entropy in
    let builder := SBuilder.with_entropy entropy (SBuilder.with_device_info device_info
      (SBuilder.with_prev_hash (zeros 32) (SBuilder.with_id device_id (SBuilder.with_state_number 0 SBuilder.new)))) in
    let builder := fold_left (fun b kv => SBuilder.with_parameter kv.1 kv.2 b) (dash_iter (gp_metadata (gc_params c))) builder in
    state ← SBuilder.build builder;
    h ← St.get_hash state;
    Ok (set_entity_signature (Some (blake3 h)) state).

Definition create_genesis_state_wrapper (c : GenesisCreator) (merkle_proof : bytes) : outcome GenesisStateWrapper :=
  state ← create_genesis_state c;
  Ok (mkGenesisWrapper (dev_device_id (device_info state)) (gp_app_id (gc_params c)) (gp_ceremony_id (gc_params c))
        merkle_proof now).

Definition create_genesis (claim : IdentityClaim) (initial_tokens : option Z) : outcome State :=
  let builder := SBuilder.with_device_info (ic_device_info claim) (SBuilder.with_prev_hash (zeros 32)
    (SBuilder.with_id (ic_identity_id claim) (SBuilder.with_state_number 0 SBuilder.new))) in
  let builder := match initial_tokens with
                 | Some amount => SBuilder.with_token_balance "DSM" (Bal.new amount) builder
                 | None => builder
                 end in
  SBuilder.build (SBuilder.with_entropy (blake3 (str_bytes (ic_identity_id claim) ++ u64_le (ic_timestamp claim))) builder).

Definition verify_genesis (s : State) : outcome bool :=
  if negb (state_number s =? 0) then Ok false
  else if bool_decide (States.entropy s = zeros 32) then Ok false
  else if bool_decide (dev_device_id (device_info s) = ""%string) || bool_decide (dev_public_key (device_info s) = [])
  then Ok false
  else Ok true.

End Genesis.
End Genesis.

(** ** Facts about the selection *)

Section SelectionFacts.
Context {R : Type} {CR : ChaCha20Rng R}.

Definition respected (n : StorageNode) : Prop := 0 < sn_reputation n.
#[global] Instance respected_dec n : Decision (respected n).
Proof. unfold respected. apply _. Defined.

(** Reputations are bytes, and there are fewer than 2^24 nodes. *)
Definition nodes_typed (l : list StorageNode) : Prop :=
  Forall (fun n => 0 ≤ sn_reputation n ≤ 255) l ∧ Z.of_nat (length l) < 2 ^ 24.

Lemma reputation_sum_bounds l : Forall (fun n => 0 ≤ sn_reputation n ≤ 255) l →
  0 ≤ Genesis.reputation_sum l ≤ 255 * Z.of_nat (length l).
Proof. induction 1 as [|n l Hn Hl IH]; cbn [Genesis.reputation_sum foldr length]; [lia|]. unfold Genesis.reputation_sum in IH. lia. Qed.

Lemma reputation_sum_pos l : Forall (fun n => 0 ≤ sn_reputation n ≤ 255) l →
  0 < Genesis.reputation_sum l ↔ filter respected l ≠ [].
Proof.
  induction 1 as [|n l Hn Hl IH]; [done|]. pose proof (reputation_sum_bounds l Hl) as Hb.
  unfold Genesis.reputation_sum in *. cbn [foldr]. rewrite filter_cons. case_decide as Hd; unfold respected in Hd.
  - split; [done|lia].
  - rewrite <- IH. lia.
Qed.

Lemma selected_idx_spec l i x : 0 ≤ x < Genesis.reputation_sum l →
  ∃ j n, Genesis.selected_idx i x l = (i + j)%nat ∧ l !! j = Some n ∧ respected n.
Proof.
  revert i x. induction l as [|n l IH]; intros i x; unfold Genesis.reputation_sum; cbn [foldr Genesis.selected_idx]; [lia|].
  intros Hx. destruct (Z.ltb_spec x (sn_reputation n)) as [Hlt|Hge].
  - exists 0%nat, n. split_and!; [lia|done|unfold respected; lia].
  - destruct (IH (S i) (x - sn_reputation n)) as (j & m & -> & Hj & Hm); [unfold Genesis.reputation_sum; lia|].
    exists (S j), m. split_and!; [lia|done|done].
Qed.

Lemma nodes_typed_perm l l' : l ≡ₚ l' → nodes_typed l → nodes_typed l'.
Proof. intros H [H1 H2]. unfold nodes_typed. by rewrite <- H. Qed.

(** Every turn takes one node with a positive reputation, until none is left. *)
Lemma weighted_selection_spec k r l acc : nodes_typed l → (k ≤ length l)%nat →
  if decide (k ≤ length (filter respected l))%nat
  then ∃ sel rest, Genesis.weighted_selection k r l acc = Ok (acc ++ sel) ∧ length sel = k ∧
         Forall respected sel ∧ sel ++ rest ≡ₚ l
  else Genesis.weighted_selection k r l acc = Panic.
Proof.
  revert r l acc. induction k as [|k IH]; intros r l acc Ht Hk.
  { rewrite decide_True by lia. exists [], l. by rewrite app_nil_r. }
  destruct l as [|n0 l0]; [cbn in Hk; lia|]. cbn [Genesis.weighted_selection]. set (l := n0 :: l0) in *. clearbody l.
  pose proof (reputation_sum_bounds l (proj1 Ht)) as Hb. pose proof (reputation_sum_pos l (proj1 Ht)) as Hpos.
  unfold Genesis.total_reputation. rewrite (proj2 (Z.ltb_lt _ _)) by (destruct Ht; lia). cbn [mbind outcome_bind].
  unfold Genesis.draw. destruct (Z.ltb_spec 0 (Genesis.reputation_sum l)) as [Hs|Hs]; cbn [mbind outcome_bind].
  2: { rewrite decide_False; [done|]. destruct (filter respected l) eqn:E; [cbn; lia|].
       assert (0 < Genesis.reputation_sum l) by (apply Hpos; congruence). lia. }
  pose proof (gen_range_bounds 0 (Genesis.reputation_sum l) r Hs) as Hd.
  destruct (gen_range 0 (Genesis.reputation_sum l) r) as [x r']; cbn [fst] in Hd.
  destruct (selected_idx_spec l 0 x) as (j & n & -> & Hj & Hn); [lia|]. cbn [Nat.add]. rewrite Hj.
  pose proof (delete_Permutation l j n Hj) as Hperm.
  assert (filter respected l ≡ₚ n :: filter respected (delete j l)) as Hf.
  { rewrite Hperm at 1. by rewrite filter_cons_True. }
  apply Permutation_length in Hf. cbn [length] in Hf.
  assert (nodes_typed (delete j l)) as Ht'.
  { apply (nodes_typed_perm _ _ Hperm) in Ht as [H1 H2]. apply Forall_cons in H1 as [_ H1]. cbn [length] in H2. split; [done|lia]. }
  pose proof (Permutation_length Hperm) as Hlen. cbn [length] in Hlen.
  specialize (IH r' (delete j l) (acc ++ [n]) Ht' ltac:(lia)). case_decide as H1.
  - rewrite decide_True by lia. destruct IH as (sel & rest & -> & Hl & Hsel & Hp). exists (n :: sel), rest.
    rewrite <- (assoc_L (++)). cbn [length app]. split_and!; [done|lia|by constructor|]. by rewrite Hp, <- Hperm.
  - rewrite decide_False by lia. exact IH.
Qed.

Lemma by_reputation_sorted l :
  StronglySorted (fun a b => Genesis.by_reputation a b = true) (stable_sort Genesis.by_reputation l).
Proof.
  apply stable_sort_sorted; unfold Genesis.by_reputation; intros *; [rewrite Z.leb_gt, Z.leb_le; lia|].
  rewrite !Z.leb_le. lia.
Qed.

Lemma selection_subset nodes params sel : nodes_typed nodes → Genesis.selection nodes params = Ok sel →
  length sel = Nat.min (gp_node_count params) (length nodes) ∧ ∃ rest, sel ++ rest ≡ₚ nodes.
Proof.
  intros Ht. unfold Genesis.selection. pose proof (stable_sort_perm Genesis.by_reputation nodes) as Hp.
  destruct (gp_selection_seed params) as [seed|].
  - pose proof (weighted_selection_spec (Nat.min (gp_node_count params) (length nodes)) (from_seed (Genesis.rng_seed seed))
      (stable_sort Genesis.by_reputation nodes) [] (nodes_typed_perm _ _ (symmetry Hp) Ht)) as H.
    rewrite Hp in H at 1. specialize (H ltac:(lia)). case_decide; [|intros E; congruence].
    destruct H as (s & rest & -> & Hl & _ & Hs). cbn [app]. intros [= <-]. split; [done|]. exists rest. by rewrite Hs.
  - intros [= <-]. rewrite length_take, Hp. split; [lia|].
    eexists (drop _ _). by rewrite take_drop.
Qed.

End SelectionFacts.

(** ** Properties *)

Section CeremonyProperties.
Context {B3 : Blake3} {HX : Hex} {RT : Runtime} {DO : DashOrder} {R : Type} {CR : ChaCha20Rng R}.
Context {SO : Bincode Operation} {SB : Bincode Balance} {SP : Bincode PreCommitment} {SR : Bincode RelationshipContext}.

(** The selection of nodes is exact: without a seed it is a choice of the
    requested number of nodes none of which has a lower reputation than one left
    out; with a seed, whatever the generator, it takes that many distinct nodes of
    positive reputation when there are so many, and panics otherwise. *)
Theorem node_selection_exact (nodes : list StorageNode) (params : GenesisParams) :
  nodes_typed nodes →
  let k := Nat.min (gp_node_count params) (length nodes) in
  match gp_selection_seed params with
  | None => ∃ sel rest, Genesis.selection nodes params = Ok sel ∧ length sel = k ∧ sel ++ rest ≡ₚ nodes ∧
      ∀ a b, a ∈ sel → b ∈ rest → sn_reputation b ≤ sn_reputation a
  | Some _ =>
      if decide (k ≤ length (filter respected nodes))%nat
      then ∃ sel rest, Genesis.selection nodes params = Ok sel ∧ length sel = k ∧ sel ++ rest ≡ₚ nodes ∧ Forall respected sel
      else Genesis.selection nodes params = Panic
  end.
Proof.
  intros Ht k. unfold Genesis.selection. fold k. pose proof (stable_sort_perm Genesis.by_reputation nodes) as Hp.
  destruct (gp_selection_seed params) as [seed|].
  - pose proof (weighted_selection_spec k (from_seed (Genesis.rng_seed seed)) (stable_sort Genesis.by_reputation nodes) []
      (nodes_typed_perm _ _ (symmetry Hp) Ht)) as H.
    rewrite Hp in H at 1. specialize (H ltac:(lia)).
    assert (length (filter respected (stable_sort Genesis.by_reputation nodes)) = length (filter respected nodes)) as E
      by (by rewrite Hp). rewrite E in H. case_decide; [|done].
    destruct H as (sel & rest & -> & Hl & Hr & Hs). exists sel, rest. by rewrite Hs.
  - exists (take k (stable_sort Genesis.by_reputation nodes)), (drop k (stable_sort Genesis.by_reputation nodes)).
    split; [done|]. split; [rewrite length_take, Hp; lia|]. split; [by rewrite take_drop|].
    intros a b Ha Hb. pose proof (by_reputation_sorted nodes) as Hs.
    rewrite <- (take_drop k (stable_sort Genesis.by_reputation nodes)) in Hs.
    apply Z.leb_le. exact (StronglySorted_app_1_elem_of _ _ _ a b Hs Ha Hb).
Qed.

(** The operations that change a ceremony. *)
Inductive CeremonyOp :=
  | OpSelect
  | OpContribute (node_id : string) (contribution : MpcContribution).

Definition apply_ceremony (c : GenesisCreator) (op : CeremonyOp) : GenesisCreator :=
  match op with
  | OpSelect => (Genesis.select_storage_nodes c).2
  | OpContribute id x => (Genesis.add_contribution id x c).2
  end.

Definition ceremony_ok (nodes : list StorageNode) (params : GenesisParams) (c : GenesisCreator) : Prop :=
  gc_nodes c = nodes ∧ gc_params c = params ∧
  (gc_selected_nodes c = [] ∨ Genesis.selection nodes params = Ok (gc_selected_nodes c)) ∧
  ∀ id, is_Some (gc_contributions c !! id) → id ∈ map sn_node_id (gc_selected_nodes c).

Lemma apply_ceremony_ok nodes params c op : ceremony_ok nodes params c → ceremony_ok nodes params (apply_ceremony c op).
Proof.
  intros Hok. pose proof Hok as (Hn & Hp & Hs & Hc). destruct op as [|id x]; cbn [apply_ceremony].
  - unfold Genesis.select_storage_nodes. rewrite Hn, Hp. destruct (Genesis.selection nodes params) as [sel| | |] eqn:E; cbn [snd];
      [|exact Hok..].
    unfold ceremony_ok. split_and!; [done|done|by right|]. intros id Hid. apply Hc in Hid. destruct Hs as [Hs|Hs]; [by rewrite Hs in Hid; apply elem_of_nil in Hid|].
    cbn [gc_selected_nodes]. congruence.
  - unfold Genesis.add_contribution. case_test; cbn [snd]; [exact Hok|].
    apply negb_false_iff, existsb_exists in Heqb as (n & Hin & Hid). apply bool_decide_eq_true in Hid. subst id.
    unfold ceremony_ok. split_and!; [done|done|done|]. cbn [gc_contributions gc_selected_nodes]. intros id [y Hy].
    apply lookup_insert_Some in Hy as [[<- _]|[_ Hy]]; [|apply Hc; by eexists].
    apply list_elem_of_fmap. exists n. split; [done|by apply list_elem_of_In].
Qed.

Lemma contributions_le_selected (m : gmap string MpcContribution) (l : list StorageNode) :
  (∀ id, is_Some (m !! id) → id ∈ map sn_node_id l) → (size m ≤ length l)%nat.
Proof.
  intros H. rewrite <- (length_map sn_node_id l), <- size_dom.
  apply submseteq_length, NoDup_submseteq; [apply NoDup_elements|].
  intros id Hid. by apply H, elem_of_dom, elem_of_elements.
Qed.

(** A ceremony stays within its selection: along every sequence of selections
    and contributions the nodes and parameters never change, a repeated selection
    gives the same nodes, every contribution is stored for a selected node, and
    there are at most as many as the nodes requested, so that a threshold above
    that number is never met and no genesis state is ever made. *)
Theorem ceremony_invariant (nodes : list StorageNode) (params : GenesisParams) (ops : list CeremonyOp) :
  nodes_typed nodes →
  let c := fold_left apply_ceremony ops (Genesis.new nodes params) in
  ceremony_ok nodes params c ∧ (size (gc_contributions c) ≤ Nat.min (gp_node_count params) (length nodes))%nat ∧
  ((gp_node_count params < gp_threshold params)%nat →
     Genesis.create_genesis_state c = Err (EValidation "Threshold not met: have {} contributions, need {}")).
Proof.
  intros Ht c. assert (ceremony_ok nodes params c) as Hok.
  { subst c. assert (ceremony_ok nodes params (Genesis.new nodes params)) as H0.
    { unfold ceremony_ok. split_and!; [done|done|by left|]. intros id [x Hx]. cbn [Genesis.new gc_contributions] in Hx. by rewrite lookup_empty in Hx. }
    revert H0. generalize (Genesis.new nodes params). induction ops as [|op ops IH]; intros c0 H0; [done|].
    apply IH. by apply apply_ceremony_ok. }
  assert (size (gc_contributions c) ≤ Nat.min (gp_node_count params) (length nodes))%nat as Hsz.
  { destruct Hok as (_ & _ & Hs & Hc). etrans; [apply (contributions_le_selected _ _ Hc)|].
    destruct Hs as [->|Hs]; [cbn; lia|]. apply (selection_subset _ _ _ Ht) in Hs as [-> _]. lia. }
  split_and!; [done|done|]. intros Hlt. unfold Genesis.create_genesis_state, Genesis.threshold_met.
  destruct Hok as (_ & -> & _ & _). by rewrite (proj2 (Nat.leb_gt _ _)) by lia.
Qed.

(** What [build] decides when there is no relationship. *)
Lemma build_checked {TO : BincodeTotal Operation} b : sb_relationship_context b = None → sb_entropy b ≠ [] →
  SBuilder.build b =
  if bool_decide (sb_device_id b = ""%string) then Err (EInvalidParameter "Device ID is required for state creation")
  else if bool_decide (sb_public_key b = []) then Err (EInvalidParameter "Public key is required for state creation")
  else Ok default_state.
Proof.
  intros Hr He. unfold SBuilder.build, SBuilder.state_hash. rewrite Hr.
  destruct (serialize_or_total "Failed to serialize operation" (sb_operation b)) as (x & _ & ->).
  destruct (sb_hash b); cbn [mbind outcome_bind]; by rewrite bool_decide_eq_false_2.
Qed.

Lemma with_parameters_id l b : fold_left (fun b (kv : string * bytes) => SBuilder.with_parameter kv.1 kv.2 b) l b = b.
Proof. by induction l as [|kv l IH]. Qed.

(** Every genesis is the same: whatever the nodes, the contributions, the
    entropy and the metadata, the ceremony either errs or returns the default
    state with a signature that depends on nothing, a claim yields the default
    state, and neither is accepted by the genesis verifier; the wrapper names no
    device. *)
Theorem every_genesis_is_the_default {TO : BincodeTotal Operation} {TB : BincodeTotal Balance} {TP : BincodeTotal PreCommitment}
    (c : GenesisCreator) (claim : IdentityClaim) (tokens : option Z) (proof : bytes) :
  ∃ h, St.get_hash default_state = Ok h ∧
    (let g := Genesis.set_entity_signature (Some (blake3 h)) default_state in
     Genesis.verify_genesis g = Ok false ∧
     match Genesis.create_genesis_state c with
     | Ok s => s = g ∧ Genesis.threshold_met c = true
     | Err _ => Genesis.threshold_met c = false ∨
         ∃ d, gp_device_info (gc_params c) = Some d ∧ (dev_device_id d = "" ∨ dev_public_key d = [])
     | _ => False
     end) ∧
    Genesis.verify_genesis default_state = Ok false ∧
    (∀ s, Genesis.create_genesis claim tokens = Ok s → s = default_state) ∧
    (∀ w, Genesis.create_genesis_state_wrapper c proof = Ok w → gw_device_id w = "").
Proof.
  destruct (get_hash_total default_state) as (h & Hh & _). exists h. split; [done|].
  assert (match Genesis.create_genesis_state c with
     | Ok s => s = Genesis.set_entity_signature (Some (blake3 h)) default_state ∧ Genesis.threshold_met c = true
     | Err _ => Genesis.threshold_met c = false ∨
         ∃ d, gp_device_info (gc_params c) = Some d ∧ (dev_device_id d = "" ∨ dev_public_key d = [])
     | _ => False
     end) as Hc.
  { unfold Genesis.create_genesis_state. destruct (Genesis.threshold_met c); cbn [negb]; [|by left].
    rewrite with_parameters_id, build_checked by (done || apply blake3_nonempty).
    cbn [SBuilder.with_entropy SBuilder.with_device_info SBuilder.with_public_key SBuilder.with_device_id sb_device_id sb_public_key].
    unfold Genesis.ceremony_device. destruct (gp_device_info (gc_params c)) as [d|].
    - do 2 (case_bool_decide; [right; by eauto|]). cbn [mbind outcome_bind]. by rewrite Hh.
    - cbn [dev_device_id dev_public_key]. rewrite bool_decide_eq_false_2 by done.
      rewrite bool_decide_eq_false_2 by apply blake3_nonempty. cbn [mbind outcome_bind]. by rewrite Hh. }
  split; [split; [reflexivity|exact Hc]|]. split; [reflexivity|]. split.
  - intros s. unfold Genesis.create_genesis. destruct tokens; rewrite build_checked by (done || apply blake3_nonempty);
      repeat case_bool_decide; congruence.
  - intros w. unfold Genesis.create_genesis_state_wrapper. destruct (Genesis.create_genesis_state c) as [s| | |]; try done.
    destruct Hc as [-> _]. cbn [mbind outcome_bind]. by intros [= <-].
Qed.

End CeremonyProperties.

(** ** Witnesses *)

Module CeremonyWitness.
#[local] Existing Instances Toy.toy_blake3 Toy.toy_runtime ToyHex.toy_hex toy_bincode_operation
  ToySt.toy_bincode_balance ToySt.toy_bincode_precommitment.
#[local] Existing Instances ToySt.toy_operation_total ToySt.toy_balance_total ToySt.toy_precommitment_total.
#[local] Instance toy_order : DashOrder := {| dash_iter A := map_to_list; dash_iter_perm A m := reflexivity _ |}.

(** A generator that counts. *)
Lemma toy_range (lo hi r : Z) : lo < hi → lo ≤ (lo + r mod (hi - lo), r + 1).1 < hi.
Proof. intros H. pose proof (Z.mod_pos_bound r (hi - lo)). cbn. lia. Qed.
#[local] Instance toy_chacha : ChaCha20Rng Z :=
  {| from_seed := of_le_bytes; gen_range lo hi r := (lo + r mod (hi - lo), r + 1); gen_range_bounds := toy_range |}.

Definition node (id : string) (reputation : Z) : StorageNode := mkStorageNode id [] id reputation.
Definition nodes : list StorageNode := [node "a" 50; node "b" 0; node "c" 70].
Definition params (count : nat) (seed : option bytes) : GenesisParams :=
  mkGenesisParams "ceremony" "app" count 3 seed None None ∅.

Lemma nodes_ok : nodes_typed nodes.
Proof. split; [repeat constructor; cbn; lia|vm_compute; reflexivity]. Qed.

(** A seeded choice of three panics: only two nodes have a reputation. *)
Lemma node_selection_exact_witness :
  Genesis.selection nodes (params 3 (Some [Byte.x01])) = Panic ∧
  ∃ sel rest, Genesis.selection nodes (params 2 None) = Ok sel ∧ sel ++ rest ≡ₚ nodes ∧ length sel = 2%nat.
Proof.
  split; [exact (node_selection_exact nodes (params 3 (Some [Byte.x01])) nodes_ok)|].
  destruct (node_selection_exact nodes (params 2 None) nodes_ok) as (sel & rest & H1 & H2 & H3 & _).
  exists sel, rest. split; [exact H1|split; [exact H3|exact H2]].
Defined.

Definition demo_ops : list CeremonyOp :=
  [OpSelect; OpContribute "a" (Genesis.contribution_new [] [] "a"); OpContribute "b" (Genesis.contribution_new [] [] "b")].

(** Two nodes are selected and three contributions needed. *)
Lemma ceremony_invariant_witness :
  let c := fold_left apply_ceremony demo_ops (Genesis.new nodes (params 2 None)) in
  is_Some (gc_contributions c !! "a"%string) ∧ gc_contributions c !! "b"%string = None ∧
  Genesis.create_genesis_state (SR := fun _ => None) c = Err (EValidation "Threshold not met: have {} contributions, need {}").
Proof.
  split; [vm_compute; by eexists|]. split; [reflexivity|].
  apply (ceremony_invariant (SR := fun _ => None) nodes (params 2 None) demo_ops nodes_ok). cbn. lia.
Defined.

(** A ceremony that meets its threshold. *)
Definition met : GenesisCreator :=
  fold_left apply_ceremony (demo_ops ++ [OpContribute "c" (Genesis.contribution_new [] [Byte.x01] "c")])
    (Genesis.new nodes (mkGenesisParams "ceremony" "app" 2 2 None None None ∅)).
Definition demo_claim : IdentityClaim := mkIdentityClaim "id" 0 0 [] [] [] [] ToySt.device ∅.

Lemma every_genesis_is_the_default_witness :
  ∃ s, Genesis.create_genesis_state (SR := fun _ => None) met = Ok s ∧ Genesis.verify_genesis s = Ok false.
Proof.
  destruct (every_genesis_is_the_default (SR := fun _ => None) met demo_claim None []) as (h & _ & [Hv Hc] & _).
  destruct (Genesis.create_genesis_state met) as [s| | |] eqn:E.
  - exists s. split; [reflexivity|]. destruct Hc as [-> _]. exact Hv.
  - exfalso. destruct Hc as [Hc|(d & Hd & _)]; [vm_compute in Hc; discriminate Hc|vm_compute in Hd; discriminate Hd].
  - destruct Hc.
  - destruct Hc.
Defined.
End CeremonyWitness.
