(* ===== verification/Recovery.v ===== *)
(** * Recovery (dsm/src/recovery/)

    Invalidation markers and the recovery manager ([invalidation.rs]), the
    device recovery built on them ([mod.rs]), and mnemonic phrases, shareable
    seeds, recovery shares and recovered states ([mnemonic.rs]).  The word lists of
    BIP-39, Argon2 and XChaCha20-Poly1305 are interfaces.  The clock is taken to
    be after the epoch, and clearing memory is not modelled. *)
From S2P Require Import Prelude Tokens Operations SparseIdx States RandomWalk Transition Merkle Batch Sphincs Keys Hexa NodeTypes.

(** ** External crates *)

(** [bip39::Mnemonic] *)
Class Bip39 (W : Type) := {
  mn_from_entropy : bytes → option W;
  mn_from_str : string → option W;
  mn_to_entropy : W → bytes;
  mn_to_string : W → string;
  mn_sizes : ∀ e, length e ∈ [16; 20; 24; 28; 32]%nat → ∃ w, mn_from_entropy e = Some w;
  mn_entropy_round_trip : ∀ e w, mn_from_entropy e = Some w → mn_to_entropy w = e;
  mn_text_round_trip : ∀ w, mn_from_str (mn_to_string w) = Some w;
}.

(** [argon2::Argon2::default().hash_password] with a salt in the form of
    [SaltString::from_b64], which accepts 16 bytes. *)
Class Argon2 := {
  salt_string : bytes → option string;
  hash_password : bytes → string → option bytes;
  salt_16 : ∀ b, length b = 16%nat → is_Some (salt_string b);
  hash_32 : ∀ p s, ∃ k, hash_password p s = Some k ∧ length k = 32%nat;
}.

(** [XChaCha20Poly1305] under a 32-byte key and a 24-byte nonce. *)
Class XChaCha := {
  xchacha_encrypt : bytes → bytes → bytes → option bytes;
  xchacha_decrypt : bytes → bytes → bytes → option bytes;
  xchacha_total : ∀ k n d, is_Some (xchacha_encrypt k n d);
  xchacha_round_trip : ∀ k n d c, xchacha_encrypt k n d = Some c → xchacha_decrypt k n c = Some d;
}.

(** ** Data *)

Record Signature := mkSignature {
  sg_signer_id : string;
  sg_signature_data : bytes;
  sg_metadata : gmap string string;
}.

Record InvalidationMarker := mkMarker {
  im_device_id : string;
  im_state_number : Z;
  im_state_hash : bytes;
  im_state_entropy : bytes;
  im_signatures : gmap string bytes;
  im_reason : string;
  im_timestamp : Z;
  im_marker_hash : bytes;
}.

Record RecoveryManager := mkRecoveryManager {
  rm_public_keys : gmap string bytes;
  rm_recovery_keys : gmap string bytes;
  rm_threshold : nat;
}.

Inductive MnemonicStrength := Words12 | Words15 | Words18 | Words21 | Words24.

Record MnemonicPhrase {W : Type} := mkPhrase {
  mp_phrase : string;
  mp_entropy : bytes;
  mp_inner : W;
}.
Arguments MnemonicPhrase : clear implicits.

Record RecoveryPhrase := mkRecoveryPhrase {
  rp_phrase : string;
  rp_id : string;
  rp_recoverable_state : Z;
  rp_state_hash : bytes;
  rp_created_at : Z;
  rp_expires_at : option Z;
  rp_metadata : gmap string bytes;
}.

Record ShareableSeed := mkSeed {
  se_encrypted_data : bytes;
  se_nonce : bytes;
  se_salt : bytes;
  se_hints : gmap string string;
}.

Record DeviceRecoveryData := mkRecoveryData {
  rd_device_info : DeviceInfo;
  rd_recovery_entropy : bytes;
  rd_last_state_hash : bytes;
  rd_last_state_number : Z;
  rd_metadata : gmap string bytes;
}.

(** ** Signatures and markers *)

Module Marker.
Section Marker.
Context {B3 : Blake3} {RT : Runtime} {DO : DashOrder}.
Context {SO : Bincode Operation} {SB : Bincode Balance} {SP : Bincode PreCommitment}.

Definition signature_new (signer_id : string) (data : bytes) : Signature := mkSignature signer_id data ∅.
Definition signature_with_metadata (key value : string) (s : Signature) : Signature :=
  mkSignature (sg_signer_id s) (sg_signature_data s) (<[key := value]> (sg_metadata s)).

(** The hash of a marker. *)
Definition marker_digest (state_number : Z) (state_hash state_entropy : bytes) (reason : string) : bytes :=
  blake3 (u64_le state_number ++ state_hash ++ state_entropy ++ str_bytes reason).

Definition create (s : State) (reason : string) (timestamp : Z) : outcome InvalidationMarker :=
  Ok (mkMarker (dev_device_id (device_info s)) (state_number s) (hash s) (entropy s) ∅ reason timestamp
        (marker_digest (state_number s) (hash s) (entropy s) reason)).

Definition verify_integrity (m : InvalidationMarker) : outcome bool :=
  Ok (bool_decide (marker_digest (im_state_number m) (im_state_hash m) (im_state_entropy m) (im_reason m) = im_marker_hash m)).

(** [for pubkey in public_keys]: stops at the first key that accepts. *)
Fixpoint accepted_by (marker_hash signature : bytes) (public_keys : list bytes) : outcome bool :=
  match public_keys with
  | [] => Ok false
  | pk :: public_keys =>
      valid ← Sphincs.sphincs_verify pk marker_hash signature;
      if valid : bool then Ok true else accepted_by marker_hash signature public_keys
  end.
Fixpoint valid_signatures (marker_hash : bytes) (public_keys signatures : list bytes) : outcome nat :=
  match signatures with
  | [] => Ok 0%nat
  | sig :: signatures =>
      ok ← accepted_by marker_hash sig public_keys;
      n ← valid_signatures marker_hash public_keys signatures;
      Ok (if ok : bool then S n else n)
  end.

Definition verify_signatures (m : InvalidationMarker) (public_keys : list bytes) (threshold : nat) : outcome bool :=
  if (size (im_signatures m) <? threshold)%nat then Ok false
  else
    n ← valid_signatures (im_marker_hash m) public_keys (map snd (dash_iter (im_signatures m)));
    Ok (threshold <=? n)%nat.

(** ** The manager *)

Definition manager_new (threshold : nat) : RecoveryManager := mkRecoveryManager ∅ ∅ threshold.
Definition add_public_key (signer_id : string) (pk : bytes) (m : RecoveryManager) : RecoveryManager :=
  mkRecoveryManager (<[signer_id := pk]> (rm_public_keys m)) (rm_recovery_keys m) (rm_threshold m).
Definition add_recovery_key (signer_id : string) (sk : bytes) (m : RecoveryManager) : RecoveryManager :=
  mkRecoveryManager (rm_public_keys m) (<[signer_id := sk]> (rm_recovery_keys m)) (rm_threshold m).

(** [RecoveryKey::sign] *)
Definition sign (private_key data : bytes) : outcome bytes := Sphincs.sphincs_sign private_key data.

Definition add_signature (id : string) (sig : bytes) (m : InvalidationMarker) : InvalidationMarker :=
  mkMarker (im_device_id m) (im_state_number m) (im_state_hash m) (im_state_entropy m) (<[id := sig]> (im_signatures m))
    (im_reason m) (im_timestamp m) (im_marker_hash m).

Definition create_invalidation_marker (mgr : RecoveryManager) (s : State) (reason primary : string) : outcome InvalidationMarker :=
  marker ← create s reason now;
  key ← ok_or (EValidation "No recovery key found for signer {}") (rm_recovery_keys mgr !! primary);
  sig ← sign key (im_marker_hash marker);
  Ok (add_signature primary sig marker).

Definition verify_invalidation_marker (mgr : RecoveryManager) (m : InvalidationMarker) : outcome bool :=
  intact ← verify_integrity m;
  if negb intact then Ok false
  else verify_signatures m (map snd (dash_iter (rm_public_keys mgr))) (rm_threshold mgr).

Definition recovery_entropy (state_entropy : bytes) (timestamp : Z) : bytes :=
  blake3 (state_entropy ++ str_bytes "RECOVERY" ++ u64_le timestamp).

(** The fields a recovery sets on a new state. *)
Definition recovered (prev : bytes) (ctx : option RelationshipContext) (s : State) : State :=
  mkState (st_id s) (state_number s) (entropy s) (hash s) prev (sparse_index s)
    (operation s) (encapsulated_entropy s) (device_info s) {[ Recovered ]} (token_balances s)
    (matches_parameters s) ctx (forward_commitment s) (position_sequence s)
    (positions s) (st_public_key s) (device_id s) (hashchain_head s) (external_data s)
    (entity_sig s) (counterparty_sig s) (st_value s) (st_commitment s) (state_type s).

Definition create_recovery_state (mgr : RecoveryManager) (m : InvalidationMarker) (invalidated : State) : outcome State :=
  valid ← verify_invalidation_marker mgr m;
  if negb valid then Err (EValidation "Invalid invalidation marker")
  else
    let e := recovery_entropy (im_state_entropy m) (im_timestamp m) in
    next ← u64_add (im_state_number m) 1;
    let op := Recovery (im_reason m) (im_state_number m) (im_state_hash m) (im_state_entropy m) (im_marker_hash m) []
                next [] e [] (map snd (dash_iter (im_signatures m))) in
    let s := St.new (St.params_new next e op (device_info invalidated)) in
    let s := recovered (im_state_hash m) (relationship_context invalidated) s in
    h ← St.compute_hash s;
    Ok (St.set_hash h s).

Definition parse_invalidation_marker {UM : Unbincode InvalidationMarker} (data : bytes) : outcome (option InvalidationMarker) :=
  match data with
  | [] => Ok None
  | _ => m ← ok_or (ESerialization "Invalid invalidation marker format") (deserialize data); Ok (Some m)
  end.

(** The free function of the same name. *)
Definition verify_marker (m : InvalidationMarker) : outcome bool :=
  intact ← verify_integrity m;
  if negb intact then Ok false
  else if bool_decide (im_signatures m = ∅) then Ok false
  else Ok true.

(** ** [recovery/mod.rs] *)

Definition init_device_recovery (s : State) (reason signer_id : string) (mgr : RecoveryManager) : outcome (State * InvalidationMarker) :=
  marker ← create_invalidation_marker mgr s reason signer_id;
  recovery_state ← create_recovery_state mgr marker s;
  Ok (recovery_state, marker).

Definition verify_device_recovery (old_state new_state : State) (m : InvalidationMarker) (mgr : RecoveryManager) : outcome bool :=
  valid ← verify_invalidation_marker mgr m;
  if negb valid then Ok false
  else
    h ← St.get_hash old_state;
    if negb (bool_decide (im_state_hash m = h)) then Ok false
    else
      next ← u64_add (state_number old_state) 1;
      if negb (state_number new_state =? next) then Ok false
      else if negb (bool_decide (Recovered ∈ flags new_state)) then Ok false
      else Ok (bool_decide (entropy new_state = recovery_entropy (im_state_entropy m) (im_timestamp m))).

Definition create_state_backup {SS : Bincode State} (s : State) : outcome bytes := serialize_or "Failed to serialize state" s.
Definition restore_state_from_backup {US : Unbincode State} (b : bytes) : outcome State :=
  ok_or (ESerialization "Failed to deserialize state backup") (deserialize b).

End Marker.
End Marker.

(** ** Mnemonics *)

Module Mnemo.
Section Mnemo.
Context {B3 : Blake3} {RT : Runtime} {HX : Hex} {A2 : Argon2} {XC : XChaCha} {W : Type} {BP : Bip39 W}.
Context {SO : Bincode Operation} {SB : Bincode Balance} {SP : Bincode PreCommitment}.

Definition entropy_size (s : MnemonicStrength) : nat :=
  match s with Words12 => 16 | Words15 => 20 | Words18 => 24 | Words21 => 28 | Words24 => 32 end.

Definition derive_entropy_from_mnemonic (w : W) : outcome bytes := Ok (blake3 (mn_to_entropy w)).

(** The random bytes are an argument. *)
Definition new_random (random : bytes) : outcome (MnemonicPhrase W) :=
  mnemonic ← ok_or (ECrypto "Failed to create mnemonic") (mn_from_entropy random);
  derived ← derive_entropy_from_mnemonic mnemonic;
  Ok (mkPhrase _ (mn_to_string mnemonic) derived mnemonic).

Definition from_phrase (phrase : string) : outcome (MnemonicPhrase W) :=
  mnemonic ← ok_or (EValidation "Invalid mnemonic phrase") (mn_from_str phrase);
  derived ← derive_entropy_from_mnemonic mnemonic;
  Ok (mkPhrase _ phrase derived mnemonic).

Definition as_string (p : MnemonicPhrase W) : string := mp_phrase p.
Definition get_entropy (p : MnemonicPhrase W) : bytes := mp_entropy p.

Definition recovery_phrase_new (s : State) (p : MnemonicPhrase W) : outcome RecoveryPhrase :=
  let id := hex_encode (take 16 (blake3 (hash s ++ get_entropy p))) in
  Ok (mkRecoveryPhrase (as_string p) id (state_number s) (hash s) now None ∅).
Definition with_expiration (t : Z) (r : RecoveryPhrase) : RecoveryPhrase :=
  mkRecoveryPhrase (rp_phrase r) (rp_id r) (rp_recoverable_state r) (rp_state_hash r) (rp_created_at r) (Some t) (rp_metadata r).
Definition with_metadata (key : string) (value : bytes) (r : RecoveryPhrase) : RecoveryPhrase :=
  mkRecoveryPhrase (rp_phrase r) (rp_id r) (rp_recoverable_state r) (rp_state_hash r) (rp_created_at r) (rp_expires_at r)
    (<[key := value]> (rp_metadata r)).
Definition to_mnemonic (r : RecoveryPhrase) : outcome (MnemonicPhrase W) := from_phrase (rp_phrase r).
Definition is_expired (r : RecoveryPhrase) : outcome bool :=
  match rp_expires_at r with Some t => Ok (t <=? now) | None => Ok false end.
Definition verify_for_state (r : RecoveryPhrase) (s : State) : outcome bool :=
  if negb (state_number s =? rp_recoverable_state r) then Ok false
  else Ok (bool_decide (rp_state_hash r = hash s)).

Definition derive_key_from_password (password : string) (salt : bytes) : outcome bytes :=
  salt ← ok_or (ECrypto "Invalid salt") (salt_string salt);
  ok_or (ECrypto "Key derivation failed") (hash_password (str_bytes password) salt).

(** [nonce.into()] panics on a nonce of another length. *)
Definition encrypt_data (data key nonce : bytes) : outcome bytes :=
  if negb (length key =? 32)%nat then Err (ECrypto "Invalid key length")
  else if negb (length nonce =? 24)%nat then Panic
  else ok_or (ECrypto "Encryption failed") (xchacha_encrypt key nonce data).
Definition decrypt_data (data key nonce : bytes) : outcome bytes :=
  if negb (length key =? 32)%nat then Err (ECrypto "Invalid key length")
  else if negb (length nonce =? 24)%nat then Panic
  else ok_or (ECrypto "Decryption failed") (xchacha_decrypt key nonce data).

Definition seed_new {SR : Bincode RecoveryPhrase} (salt nonce : bytes) (r : RecoveryPhrase) (password : string) : outcome ShareableSeed :=
  data ← serialize_or "Failed to serialize recovery phrase" r;
  key ← derive_key_from_password password salt;
  encrypted ← encrypt_data data key nonce;
  Ok (mkSeed encrypted nonce salt ∅).
Definition with_hint (key hint : string) (s : ShareableSeed) : ShareableSeed :=
  mkSeed (se_encrypted_data s) (se_nonce s) (se_salt s) (<[key := hint]> (se_hints s)).
Definition seed_recover {UR : Unbincode RecoveryPhrase} (s : ShareableSeed) (password : string) : outcome RecoveryPhrase :=
  key ← derive_key_from_password password (se_salt s);
  data ← decrypt_data (se_encrypted_data s) key (se_nonce s);
  ok_or (ESerialization "Failed to deserialize recovery phrase") (deserialize data).
Definition get_hint (s : ShareableSeed) (key : string) : option string := se_hints s !! key.

Definition recovery_data_new (d : DeviceInfo) (e h : bytes) (n : Z) : DeviceRecoveryData := mkRecoveryData d e h n ∅.
Definition recovery_data_with_metadata (key : string) (value : bytes) (r : DeviceRecoveryData) : DeviceRecoveryData :=
  mkRecoveryData (rd_device_info r) (rd_recovery_entropy r) (rd_last_state_hash r) (rd_last_state_number r)
    (<[key := value]> (rd_metadata r)).
Definition generate_recovery_seed (r : DeviceRecoveryData) (state_entropy : bytes) : outcome bytes :=
  Ok (blake3 (rd_recovery_entropy r ++ state_entropy ++ str_bytes "DEVICE_RECOVERY")).
Definition recovery_data_verify_for_state (r : DeviceRecoveryData) (s : State) : bool :=
  bool_decide (hash s = rd_last_state_hash r) && (state_number s =? rd_last_state_number r).
Definition create_invalidation_marker (r : DeviceRecoveryData) : bytes :=
  blake3 (str_bytes (dev_device_id (rd_device_info r)) ++ rd_last_state_hash r ++ u64_le (rd_last_state_number r) ++
    str_bytes "INVALIDATE").

Definition create_recovery_seed (p : MnemonicPhrase W) (context : bytes) : bytes := blake3 (get_entropy p ++ context).

Definition generate_mnemonic_from_state (s : State) : outcome (MnemonicPhrase W) :=
  let e := take 16 (blake3 (hash s ++ u64_le (state_number s) ++ entropy s)) in
  mnemonic ← ok_or (ECrypto "Failed to create mnemonic from entropy") (mn_from_entropy e);
  derived ← derive_entropy_from_mnemonic mnemonic;
  Ok (mkPhrase _ (mn_to_string mnemonic) derived mnemonic).

Definition recover_entropy_from_mnemonic (phrase passphrase : string) (state_hash : bytes) : outcome bytes :=
  mnemonic ← from_phrase phrase;
  Ok (blake3 (get_entropy mnemonic ++ str_bytes passphrase ++ state_hash)).

(** [*byte ^= k] over a vector. *)
Definition xor_with (k : Z) (l : bytes) : bytes := map (fun b => byte_xor b (coqutil.Byte.byte.of_Z k)) l.

Definition split_entropy_into_shares (e : bytes) (threshold shares_count : nat) : outcome (list bytes) :=
  if (shares_count <? threshold)%nat then Err (EValidation "Threshold must be less than or equal to shares count")
  else Ok (map (fun i => xor_with (Z.of_nat i + 1) e) (seq 0 shares_count)).

Definition combine_entropy_shares (shares : list bytes) : outcome bytes :=
  match shares with
  | [] => Err (EValidation "At least one share is required")
  | share :: _ => Ok (xor_with 1 share)
  end.

Definition recover_state {UC : Unbincode RelationshipContext} (r : DeviceRecoveryData) (p : MnemonicPhrase W) : outcome State :=
  let e := Marker.recovery_entropy (rd_recovery_entropy r) now in
  if negb (length (rd_last_state_hash r) =? 32)%nat then Err (EValidation "State hash has invalid length")
  else
    seed ← generate_recovery_seed r e;
    next ← u64_add (rd_last_state_number r) 1;
    let op := Recovery "Device recovery using mnemonic" (rd_last_state_number r) (rd_last_state_hash r) e [] seed next [] e [] [] in
    let s := St.new (St.params_new next e op (rd_device_info r)) in
    let ctx := data ← rd_metadata r !! "relationship_context"%string; deserialize data in
    let s := Marker.recovered (rd_last_state_hash r) ctx s in
    h ← St.compute_hash s;
    Ok (St.set_hash h s).

Definition verify_recovery_phrase (p : MnemonicPhrase W) (r : DeviceRecoveryData) : outcome bool :=
  let verification_hash := blake3 (create_recovery_seed p (str_bytes "VERIFICATION") ++ rd_last_state_hash r) in
  match rd_metadata r !! "verification_hash"%string with
  | Some expected => Ok (bool_decide (verification_hash = expected))
  | None => Ok false
  end.

End Mnemo.
End Mnemo.

(** ** Facts *)

Section RecoveryFacts.
Context {B3 : Blake3} {RT : Runtime} {DO : DashOrder}.
Context {SO : Bincode Operation} {SB : Bincode Balance} {SP : Bincode PreCommitment}.

Lemma sphincs_verify_total pk m sig : (64 ≤ length pk)%nat → (64 ≤ length sig)%nat → m ≠ [] →
  ∃ b, Sphincs.sphincs_verify pk m sig = Ok b.
Proof.
  intros Hp Hs Hm. unfold Sphincs.sphincs_verify, Sphincs.crypto_sign_verify, slice. rewrite bool_decide_eq_false_2 by done.
  unfold CRYPTO_N. rewrite !(proj2 (Nat.leb_le _ _)) by lia. cbn. by eexists.
Qed.

(** Every registered public key is long enough to be read. *)
Definition keys_sized (mgr : RecoveryManager) : Prop := map_Forall (fun _ pk => (64 ≤ length pk)%nat) (rm_public_keys mgr).

Lemma accepted_by_spec m sig ks : Forall (fun pk : bytes => (64 ≤ length pk)%nat) ks → (64 ≤ length sig)%nat → m ≠ [] →
  ∃ b, Marker.accepted_by m sig ks = Ok b ∧ (∀ pk, pk ∈ ks → Sphincs.sphincs_verify pk m sig = Ok true → b = true).
Proof.
  intros H Hs Hm. induction H as [|pk ks Hp Hk IH]; cbn [Marker.accepted_by].
  { exists false. split; [done|]. intros pk Hin. by apply elem_of_nil in Hin. }
  destruct (sphincs_verify_total pk m sig Hp Hs Hm) as [b Hb]. rewrite Hb. cbn [mbind outcome_bind].
  destruct b; [by exists true|]. destruct IH as (b & -> & IH). exists b. split; [done|].
  intros k Hin Hv. apply elem_of_cons in Hin as [->|Hin]; [congruence|by eapply IH].
Qed.

Lemma keys_sized_list mgr : keys_sized mgr → Forall (fun pk : bytes => (64 ≤ length pk)%nat) (map snd (dash_iter (rm_public_keys mgr))).
Proof.
  intros H. apply Forall_map, Forall_forall. intros [k v] Hin. rewrite dash_iter_perm in Hin.
  apply elem_of_map_to_list in Hin. cbn. exact (H k v Hin).
Qed.

Lemma key_registered mgr id pk : rm_public_keys mgr !! id = Some pk → pk ∈ map snd (dash_iter (rm_public_keys mgr)).
Proof.
  intros H. apply list_elem_of_fmap. exists (id, pk). split; [done|]. rewrite dash_iter_perm. by apply elem_of_map_to_list.
Qed.

(** A list of signatures each of which a registered key accepts counts in full. *)
Lemma valid_signatures_all m ks sigs : Forall (fun pk : bytes => (64 ≤ length pk)%nat) ks → m ≠ [] →
  Forall (fun sig : bytes => (64 ≤ length sig)%nat ∧ ∃ pk, pk ∈ ks ∧ Sphincs.sphincs_verify pk m sig = Ok true) sigs →
  Marker.valid_signatures m ks sigs = Ok (length sigs).
Proof.
  intros Hk Hm H. induction H as [|sig sigs [Hl (pk & Hin & Hv)] Hs IH]; cbn [Marker.valid_signatures length]; [done|].
  destruct (accepted_by_spec m sig ks Hk Hl Hm) as (b & -> & Hb). rewrite IH. cbn [mbind outcome_bind]. by rewrite (Hb pk Hin Hv).
Qed.

(** A marker whose signatures are all by registered keys is judged by their number. *)
Lemma verify_marker_count mgr m : keys_sized mgr →
  im_marker_hash m = Marker.marker_digest (im_state_number m) (im_state_hash m) (im_state_entropy m) (im_reason m) →
  map_Forall (fun _ sig => (64 ≤ length sig)%nat ∧ ∃ id pk, rm_public_keys mgr !! id = Some pk ∧
    Sphincs.sphincs_verify pk (im_marker_hash m) sig = Ok true) (im_signatures m) →
  Marker.verify_invalidation_marker mgr m = Ok (rm_threshold mgr <=? size (im_signatures m))%nat.
Proof.
  intros Hk Hh Hs. unfold Marker.verify_invalidation_marker, Marker.verify_integrity. rewrite <- Hh.
  rewrite bool_decide_eq_true_2 by done. cbn [mbind outcome_bind negb]. unfold Marker.verify_signatures.
  destruct (Nat.ltb_spec (size (im_signatures m)) (rm_threshold mgr)) as [Hlt|Hge].
  { by rewrite (proj2 (Nat.leb_gt _ _)). }
  rewrite valid_signatures_all.
  - cbn [mbind outcome_bind]. by rewrite length_map, dash_iter_perm, length_map_to_list.
  - by apply keys_sized_list.
  - rewrite Hh. apply blake3_nonempty.
  - apply Forall_map, Forall_forall. intros [k sig] Hin. rewrite dash_iter_perm in Hin. apply elem_of_map_to_list in Hin.
    destruct (Hs k sig Hin) as (Hl & id & pk & Hid & Hv). cbn. split; [done|]. exists pk. split; [by eapply key_registered|done].
Qed.

Lemma byte_of_Z_small z : 0 ≤ z < 256 → coqutil.Byte.byte.unsigned (coqutil.Byte.byte.of_Z z) = z.
Proof. intros H. rewrite coqutil.Byte.byte.unsigned_of_Z. by apply Z.mod_small. Qed.

Lemma xor_with_twice a b l : 0 ≤ a < 256 → 0 ≤ b < 256 → Mnemo.xor_with a (Mnemo.xor_with b l) = Mnemo.xor_with (Z.lxor b a) l.
Proof.
  intros Ha Hb. pose proof (lxor_bound 8 b a ltac:(lia) Hb Ha) as H.
  unfold Mnemo.xor_with. rewrite map_map. apply map_ext. intros x. apply u8_val_inj.
  rewrite !byte_xor_val, !byte_of_Z_small by assumption. by rewrite Z.lxor_assoc.
Qed.

Lemma xor_with_0 l : Mnemo.xor_with 0 l = l.
Proof.
  unfold Mnemo.xor_with. rewrite <- (map_id l) at 2. apply map_ext. intros x. apply u8_val_inj.
  rewrite byte_xor_val, byte_of_Z_small by lia. apply Z.lxor_0_r.
Qed.

End RecoveryFacts.

(** ** Properties *)

Section RecoveryProperties.
Context {B3 : Blake3} {RT : Runtime} {DO : DashOrder}.
Context {SO : Bincode Operation} {SB : Bincode Balance} {SP : Bincode PreCommitment}.

(** Device recovery verifies: for a hashed state and a signer whose generated
    key is registered, starting the recovery with a threshold of at most one gives
    a state that extends the chain by one, names the invalidated state as its
    predecessor, carries its recomputed hash and the recovery flag, and is
    accepted by the verification of the recovery; with a higher threshold it
    always errs, because only one signature is ever made. *)
Theorem device_recovery_verifies {TO : BincodeTotal Operation} {TB : BincodeTotal Balance} {TP : BincodeTotal PreCommitment}
    (s : State) (reason signer id : string) (pk sk : bytes) (mgr : RecoveryManager) :
  keypair pk sk → rm_recovery_keys mgr !! signer = Some sk → rm_public_keys mgr !! id = Some pk → keys_sized mgr →
  hash s ≠ [] → state_number s < u64_max →
  if (rm_threshold mgr <=? 1)%nat then
    ∃ s' m, Marker.init_device_recovery s reason signer mgr = Ok (s', m) ∧
      state_number s' = state_number s + 1 ∧ prev_state_hash s' = hash s ∧ St.compute_hash s' = Ok (hash s') ∧
      flags s' = {[ Recovered ]} ∧ relationship_context s' = relationship_context s ∧
      Marker.verify_device_recovery s s' m mgr = Ok true
  else Marker.init_device_recovery s reason signer mgr = Err (EValidation "Invalid invalidation marker").
Proof.
  intros Hkp Hsk Hpk Hks Hh Hn. unfold Marker.init_device_recovery, Marker.create_invalidation_marker, Marker.create.
  cbn [mbind outcome_bind]. rewrite Hsk. cbn [ok_or mbind outcome_bind im_marker_hash].
  set (d := Marker.marker_digest (state_number s) (hash s) (entropy s) reason).
  destruct (sign_verify pk sk d Hkp (blake3_nonempty _)) as (sig & Hs & Hl & Hv).
  unfold Marker.sign. rewrite Hs. cbn [mbind outcome_bind].
  set (m := Marker.add_signature signer sig _).
  assert (Marker.verify_invalidation_marker mgr m = Ok (rm_threshold mgr <=? 1)%nat) as Hm.
  { rewrite verify_marker_count; [|done|done|].
    - unfold m. cbn [Marker.add_signature im_signatures]. by rewrite insert_empty, map_size_singleton.
    - unfold m. cbn [Marker.add_signature im_signatures im_marker_hash]. rewrite insert_empty. intros k x Hx.
      apply lookup_singleton_Some in Hx as [<- <-]. split; [rewrite Hl; exact crypto_bytes_64|]. by exists id, pk. }
  unfold Marker.create_recovery_state. rewrite Hm. cbn [mbind outcome_bind].
  destruct (rm_threshold mgr <=? 1)%nat; cbn [negb]; [|done].
  change (im_state_number m) with (state_number s).
  unfold u64_add. rewrite (proj2 (Z.leb_le _ _)) by lia. cbn [mbind outcome_bind].
  match goal with |- context [St.compute_hash ?x] => destruct (compute_hash_total x) as [h Hc]; set (s1 := x) in * end.
  rewrite Hc. cbn [mbind outcome_bind]. exists (St.set_hash h s1), m.
  split_and!; [reflexivity..|rewrite compute_hash_set_hash; exact Hc|reflexivity|reflexivity|].
  unfold Marker.verify_device_recovery. rewrite Hm. cbn [mbind outcome_bind negb]. rewrite get_hash_cached by done.
    cbn [mbind outcome_bind]. change (im_state_hash m) with (hash s).
    rewrite bool_decide_eq_true_2 by done. cbn [negb]. unfold u64_add. rewrite (proj2 (Z.leb_le _ _)) by lia.
    cbn [mbind outcome_bind]. unfold s1. cbn [St.set_hash Marker.recovered St.new state_number flags entropy St.params_new sp_state_number sp_entropy].
    rewrite Z.eqb_refl. cbn [negb]. rewrite bool_decide_eq_true_2 by set_solver. cbn [negb]. by rewrite bool_decide_eq_true_2.
Qed.

(** The threshold does not count signers: with a single registered key, the
    one signature of its holder, stored under as many names as the threshold asks
    for, makes a marker for any state that the manager accepts. *)
Theorem one_key_meets_threshold (s : State) (reason id : string) (pk sk : bytes) (mgr : RecoveryManager) (names : gset string) :
  keypair pk sk → rm_public_keys mgr = {[ id := pk ]} → (rm_threshold mgr ≤ size names)%nat →
  ∃ sig m, Marker.sign sk (Marker.marker_digest (state_number s) (hash s) (entropy s) reason) = Ok sig ∧
    im_state_hash m = hash s ∧ im_signatures m = gset_to_gmap sig names ∧
    Marker.verify_invalidation_marker mgr m = Ok true.
Proof.
  intros Hkp Hks Ht. set (d := Marker.marker_digest (state_number s) (hash s) (entropy s) reason).
  destruct (sign_verify pk sk d Hkp (blake3_nonempty _)) as (sig & Hs & Hl & Hv).
  exists sig, (mkMarker "" (state_number s) (hash s) (entropy s) (gset_to_gmap sig names) reason 0 d).
  split_and!; [exact Hs|done|done|]. rewrite verify_marker_count.
  - cbn [im_signatures]. rewrite <- size_dom, dom_gset_to_gmap. f_equal. by apply Nat.leb_le.
  - intros k x. rewrite Hks. intros Hx. apply lookup_singleton_Some in Hx as [_ <-].
    destruct Hkp as (a & b & p & r & _ & _ & Hp & Hr & -> & _). rewrite length_app, Hp, Hr. lia.
  - done.
  - cbn [im_signatures im_marker_hash]. intros k x Hx. apply lookup_gset_to_gmap_Some in Hx as [_ <-].
    split; [rewrite Hl; exact crypto_bytes_64|]. exists id, pk. split; [rewrite Hks; apply lookup_singleton_eq|done].
Qed.

(** A share is the whole secret: splitting succeeds exactly for a threshold up
    to the number of shares, the share with index [i] is the entropy with a byte
    known from [i] added to each of its bytes, whatever the threshold, and
    combining looks at the first share only: it returns the entropy when that is
    the share with index 0, and otherwise the wrong bytes. *)
Theorem share_is_the_secret (e : bytes) (threshold count : nat) :
  (count < 256)%nat →
  if (count <? threshold)%nat
  then Mnemo.split_entropy_into_shares e threshold count = Err (EValidation "Threshold must be less than or equal to shares count")
  else ∃ shares, Mnemo.split_entropy_into_shares e threshold count = Ok shares ∧ length shares = count ∧
    ∀ i share rest, shares !! i = Some share →
      Mnemo.xor_with (Z.of_nat i + 1) share = e ∧
      (Mnemo.combine_entropy_shares (share :: rest) = Ok e ↔ i = 0%nat ∨ e = []).
Proof.
  intros Hc. unfold Mnemo.split_entropy_into_shares. destruct (count <? threshold)%nat; [done|].
  eexists. split; [done|]. split; [by rewrite length_map, length_seq|]. intros i share rest Hi.
  apply list_lookup_fmap_Some in Hi as (j & -> & Hj). apply lookup_seq in Hj as [-> Hj]. cbn [Nat.add].
  split.
  { rewrite xor_with_twice, Z.lxor_nilpotent by lia. apply xor_with_0. }
  cbn [Mnemo.combine_entropy_shares]. rewrite xor_with_twice by lia. split.
  - intros [= H]. destruct e as [|x e]; [by right|left]. cbn [Mnemo.xor_with map] in H. injection H as H _.
    apply (f_equal (fun b => u8_val b)) in H. rewrite byte_xor_val in H.
    pose proof (lxor_bound 8 (Z.of_nat i + 1) 1 ltac:(lia) ltac:(lia) ltac:(lia)) as Hb.
    rewrite byte_of_Z_small in H by assumption.
    assert (Z.lxor (Z.of_nat i + 1) 1 = 0) as H0.
    { apply (f_equal (Z.lxor (u8_val x))) in H. by rewrite <- Z.lxor_assoc, Z.lxor_nilpotent, Z.lxor_0_l in H. }
    apply Z.lxor_eq in H0. lia.
  - intros [->| ->]; [|done]. by rewrite Z.lxor_nilpotent, xor_with_0.
Qed.

Context {HX : Hex} {A2 : Argon2} {XC : XChaCha} {W : Type} {BP : Bip39 W}.
Context {SR : Bincode RecoveryPhrase} {UR : Unbincode RecoveryPhrase}.

(** Recovery phrases round-trip: fresh entropy of any strength gives a phrase
    that is read back from its words, and the recovery phrase made of it for a
    state, sealed under a password with any salt and nonce, is recovered with that
    password, matches its state and gives the words back. *)
Theorem recovery_phrase_roundtrip {TR : BincodeTotal RecoveryPhrase} (strength : MnemonicStrength) (random salt nonce : bytes)
    (s : State) (password : string) :
  (∀ (r : RecoveryPhrase) b, serialize r = Some b → deserialize b = Some r) →
  length random = Mnemo.entropy_size strength → length salt = 16%nat → length nonce = 24%nat →
  ∃ p r sd, Mnemo.new_random random = Ok p ∧ Mnemo.get_entropy p = blake3 random ∧
    Mnemo.from_phrase (Mnemo.as_string p) = Ok p ∧ Mnemo.recovery_phrase_new s p = Ok r ∧
    Mnemo.seed_new salt nonce r password = Ok sd ∧ Mnemo.seed_recover sd password = Ok r ∧
    Mnemo.to_mnemonic r = Ok p ∧ Mnemo.verify_for_state r s = Ok true.
Proof.
  intros Hcodec Hr Hsalt Hnonce. destruct (mn_sizes random) as [w Hw].
  { rewrite Hr. destruct strength; cbn; set_solver. }
  pose proof (mn_entropy_round_trip random w Hw) as He.
  set (p := mkPhrase W (mn_to_string w) (blake3 random) w). 
  set (r := mkRecoveryPhrase (mn_to_string w) (hex_encode (take 16 (blake3 (hash s ++ blake3 random)))) (state_number s) (hash s) now None ∅).
  destruct (bincode_total r) as [data Hdata]. destruct (salt_16 salt Hsalt) as [ss Hss].
  destruct (hash_32 (str_bytes password) ss) as (k & Hk & Hkl). destruct (xchacha_total k nonce data) as [c Hc].
  assert (Mnemo.from_phrase (mn_to_string w) = Ok p) as Hp.
  { unfold Mnemo.from_phrase. rewrite mn_text_round_trip. cbn. by rewrite He. }
  exists p, r, (mkSeed c nonce salt ∅). split; [unfold Mnemo.new_random; rewrite Hw; cbn; by rewrite He|].
  split; [done|]. split; [exact Hp|]. split; [reflexivity|]. split.
  { unfold Mnemo.seed_new, serialize_or, Mnemo.derive_key_from_password, Mnemo.encrypt_data. rewrite Hdata, Hss. cbn [ok_or mbind outcome_bind].
    rewrite Hk. cbn [ok_or mbind outcome_bind]. rewrite Hkl, Hnonce. cbn. by rewrite Hc. }
  split.
  { unfold Mnemo.seed_recover, Mnemo.derive_key_from_password, Mnemo.decrypt_data. cbn [se_salt se_encrypted_data se_nonce]. rewrite Hss.
    cbn [ok_or mbind outcome_bind]. rewrite Hk. cbn [ok_or mbind outcome_bind]. rewrite Hkl, Hnonce. cbn [Nat.eqb negb].
    rewrite (xchacha_round_trip _ _ _ _ Hc). cbn [ok_or mbind outcome_bind]. by rewrite (Hcodec r data Hdata). }
  split; [exact Hp|]. unfold Mnemo.verify_for_state. cbn [r rp_recoverable_state rp_state_hash]. rewrite Z.eqb_refl. cbn [negb].
  by rewrite bool_decide_eq_true_2.
Qed.

End RecoveryProperties.

(** ** Witnesses *)

Module RecoveryWitness.
Import ProofCodec.
#[local] Existing Instances Toy.toy_blake3 Toy.toy_runtime ToyHex.toy_hex toy_bincode_operation
  ToySt.toy_bincode_balance ToySt.toy_bincode_precommitment.
#[local] Existing Instances ToySt.toy_operation_total ToySt.toy_balance_total ToySt.toy_precommitment_total.
#[local] Instance toy_order : DashOrder := {| dash_iter A := map_to_list; dash_iter_perm A m := reflexivity _ |}.

#[local] Instance phrase_eq_dec : EqDecision RecoveryPhrase.
Proof. solve_decision. Defined.
#[local] Instance phrase_countable : Countable RecoveryPhrase.
Proof.
  by refine (inj_countable' (fun r => (rp_phrase r, rp_id r, rp_recoverable_state r, rp_state_hash r, rp_created_at r, rp_expires_at r, rp_metadata r))
    (fun '(a, b, c, d, e, f, g) => mkRecoveryPhrase a b c d e f g) _); intros [].
Defined.
#[local] Instance encode_phrase : Bincode RecoveryPhrase := fun r => Some (pos_bytes (encode r)).
#[local] Instance decode_phrase : Unbincode RecoveryPhrase := fun b => decode (bytes_pos b).
#[local] Instance phrase_total : BincodeTotal RecoveryPhrase.
Proof. intros r. by eexists. Qed.
Lemma phrase_codec (r : RecoveryPhrase) b : serialize r = Some b → deserialize b = Some r.
Proof. intros [= <-]. unfold deserialize, decode_phrase. by rewrite bytes_pos_bytes, decode_encode. Qed.

#[local] Instance toy_bip39 : Bip39 bytes :=
  {| mn_from_entropy e := Some e; mn_from_str s := Some (str_bytes s); mn_to_entropy w := w;
     mn_to_string := String.string_of_list_byte; mn_sizes e _ := ex_intro _ e eq_refl;
     mn_entropy_round_trip e w H := eq_sym (f_equal (unwrap_or []) H);
     mn_text_round_trip w := f_equal Some (String.list_byte_of_string_of_list_byte w) |}.
#[local] Instance toy_argon2 : Argon2 :=
  {| salt_string b := Some EmptyString; hash_password p s := Some (zeros 32);
     salt_16 b _ := ex_intro _ EmptyString eq_refl; hash_32 p s := ex_intro _ (zeros 32) (conj eq_refl eq_refl) |}.
Lemma rev_round_trip (k n d c : bytes) : Some (rev d) = Some c → Some (rev c) = Some d.
Proof. intros [= <-]. by rewrite rev_involutive. Qed.
#[local] Instance toy_xchacha : XChaCha :=
  {| xchacha_encrypt k n d := Some (rev d); xchacha_decrypt k n c := Some (rev c);
     xchacha_total k n d := ex_intro _ (rev d) eq_refl; xchacha_round_trip := rev_round_trip |}.

Lemma recovery_pair : keypair (zeros 64) (zeros 128).
Proof. exists (zeros 32), (zeros 32), (zeros 32), (zeros 32). split_and!; reflexivity. Qed.

Definition compromised : State := St.set_hash (zeros 32) ToySt.genesis.
Definition manager (threshold : nat) : RecoveryManager :=
  Marker.add_recovery_key "alice" (zeros 128) (Marker.add_public_key "alice" (zeros 64) (Marker.manager_new threshold)).

Lemma manager_sized n : keys_sized (manager n).
Proof.
  intros k x Hx. cbn [manager Marker.add_recovery_key Marker.add_public_key Marker.manager_new rm_public_keys] in Hx.
  rewrite insert_empty in Hx. apply lookup_singleton_Some in Hx as [_ <-]. apply Nat.leb_le. reflexivity.
Qed.

Lemma device_recovery_verifies_witness :
  (∃ s' m, Marker.init_device_recovery compromised "lost" "alice" (manager 1) = Ok (s', m) ∧
     Marker.verify_device_recovery compromised s' m (manager 1) = Ok true) ∧
  Marker.init_device_recovery compromised "lost" "alice" (manager 2) = Err (EValidation "Invalid invalidation marker").
Proof.
  split.
  - destruct (device_recovery_verifies compromised "lost" "alice" "alice" (zeros 64) (zeros 128) (manager 1) recovery_pair
      eq_refl eq_refl (manager_sized 1)) as (s' & m & H1 & _ & _ & _ & _ & _ & H2); [discriminate|reflexivity|].
    exists s', m. split; [exact H1|exact H2].
  - apply (device_recovery_verifies compromised "lost" "alice" "alice" (zeros 64) (zeros 128) (manager 2) recovery_pair
      eq_refl eq_refl (manager_sized 2)); [discriminate|reflexivity].
Defined.

(** One key under two names meets a threshold of two. *)
Lemma one_key_meets_threshold_witness :
  ∃ m, size (im_signatures m) = 2%nat ∧ Marker.verify_invalidation_marker (manager 2) m = Ok true.
Proof.
  destruct (one_key_meets_threshold compromised "lost" "alice" (zeros 64) (zeros 128) (manager 2) {["alice"; "mallory"]} recovery_pair
    eq_refl) as (sig & m & _ & _ & H1 & H2); [vm_compute; lia|].
  exists m. split; [rewrite H1; reflexivity|exact H2].
Defined.

Lemma share_is_the_secret_witness :
  ∃ shares, Mnemo.split_entropy_into_shares [Byte.x07] 3 5 = Ok shares ∧
    ∀ share, shares !! 4%nat = Some share → Mnemo.xor_with 5 share = [Byte.x07].
Proof.
  destruct (share_is_the_secret [Byte.x07] 3 5) as (shares & H1 & _ & H2); [lia|].
  exists shares. split; [exact H1|]. intros share Hs. exact (proj1 (H2 4%nat share [] Hs)).
Defined.

Lemma recovery_phrase_roundtrip_witness :
  ∃ p r sd, Mnemo.new_random (zeros 16) = Ok p ∧ Mnemo.seed_new (zeros 16) (zeros 24) r "secret" = Ok sd ∧
    Mnemo.seed_recover sd "secret" = Ok r ∧ Mnemo.to_mnemonic r = Ok p.
Proof.
  destruct (recovery_phrase_roundtrip Words12 (zeros 16) (zeros 16) (zeros 24) compromised "secret" phrase_codec eq_refl eq_refl eq_refl)
    as (p & r & sd & H1 & _ & _ & _ & H2 & H3 & H4 & _).
  exists p, r, sd. split; [exact H1|split; [exact H2|split; [exact H3|exact H4]]].
Defined.
End RecoveryWitness.
