(* ===== verification/Dual.v ===== *)
(** * The dual-mode and identity verifiers, and deterministic commitments
    (dsm/src/core/verification/, core/entropy/deterministic_entropy.rs,
    commitments/deterministic.rs and external_commitment.rs)

    [Ent] is [DeterministicEntropy], [DualV] the verifier of bilateral and
    unilateral transitions, [IdV] the verifier of identity claims, [Det] and [Ext]
    the deterministic and the external commitments. *)
From S2P Require Import Prelude Tokens Operations SparseIdx States RandomWalk Transition Merkle Sphincs Keys Hexa NodeTypes Ceremony.

(** ** Deterministic entropy *)

Module Ent.
Section Ent.
Context {B3 : Blake3} {SO : Bincode Operation}.

(** [Operation::to_bytes] *)
Definition to_bytes (op : Operation) : bytes := unwrap_or [] (serialize op).

Definition derive_entropy (previous_entropy : bytes) (op : Operation) (state_number : Z) : outcome bytes :=
  Ok (blake3 (previous_entropy ++ to_bytes op ++ u64_le state_number)).
Definition verify_entropy (previous_entropy : bytes) (op : Operation) (state_number : Z) (provided : bytes) : outcome bool :=
  expected ← derive_entropy previous_entropy op state_number;
  Ok (bool_decide (expected = provided)).
Definition generate_initial_entropy (components : list bytes) : bytes := blake3 (mjoin components).
Definition add_entropy (existing additional : bytes) : bytes := blake3 (existing ++ additional).

End Ent.
End Ent.

(** ** Transitions *)

Module DualV.
Section DualV.
Context {B3 : Blake3} {DO : DashOrder}.
Context {SO : Bincode Operation} {SB : Bincode Balance} {SP : Bincode PreCommitment}.

(** [crypto::verify_signature] *)
Definition verify_signature (data signature public_key : bytes) : outcome bool :=
  match Sphincs.sphincs_verify public_key data signature with
  | Err _ => Ok false
  | o => o
  end.

(** The data that is signed: the hash and the signing metadata. *)
Definition state_data (s : State) : outcome bytes :=
  h ← St.get_hash s;
  Ok (h ++ unwrap_or [] (St.get_parameter s "signing_metadata")).

Definition verify_entity_signature (next : State) : outcome bool :=
  match entity_sig next with
  | Some sig =>
      data ← state_data next;
      verify_signature data sig (dev_public_key (device_info next))
  | None => Ok false
  end.

Definition verify_signatures (next : State) : outcome bool :=
  match entity_sig next, counterparty_sig next with
  | Some entity, Some counterparty =>
      data ← state_data next;
      valid ← verify_signature data entity (dev_public_key (device_info next));
      if negb valid then Ok false
      else
        match relationship_context next with
        | Some ctx =>
            valid ← verify_signature data counterparty (rc_counterparty_public_key ctx);
            if negb valid then Ok false else Ok true
        | None => Ok false
        end
  | _, _ => Ok false
  end.

Definition verify_recipient_identity (s : State) : outcome bool :=
  match relationship_context s with
  | Some ctx =>
      Ok (negb (bool_decide (rc_counterparty_id ctx = ""%string) || bool_decide (rc_counterparty_public_key ctx = [])))
  | None => Ok true
  end.

Definition verify_transfer_validity (current : State) (token_id : string) (amount : Balance) : outcome bool :=
  match token_balances current !! token_id with
  | None => Ok false
  | Some balance =>
      if bal_value amount =? 0 then Ok false
      else if bal_value balance <? bal_value amount then Ok false
      else Ok true
  end.

Definition verify_balance_change_validity (current next : State) (token_id : string) (current_balance next_balance : Z) : outcome bool :=
  match operation next with
  | Transfer _ amount op_token_id _ _ _ _ _ _ _ =>
      if negb (bool_decide (token_id = op_token_id)) then Ok false
      else
        rest ← u64_sub current_balance (bal_value amount);
        if negb (next_balance =? rest) then Ok false
        else verify_transfer_validity current token_id amount
  | _ => Ok false
  end.

(** [for (token_id, current_balance) in &current_state.token_balances] *)
Fixpoint conserve (current next : State) (l : list (string * Balance)) : outcome bool :=
  match l with
  | [] => Ok true
  | (token_id, balance) :: l =>
      match token_balances next !! token_id with
      | Some next_balance =>
          if negb (bal_value balance =? bal_value next_balance) then
            valid ← verify_balance_change_validity current next token_id (bal_value balance) (bal_value next_balance);
            if negb valid then Ok false else conserve current next l
          else conserve current next l
      | None => Ok false
      end
  end.

Definition verify_token_conservation (current next : State) : outcome bool :=
  conserve current next (dash_iter (token_balances current)).

Definition verify_entropy_evolution (current next : State) : outcome bool :=
  n ← u64_add (state_number current) 1;
  e ← Ent.derive_entropy (entropy current) (operation next) n;
  Ok (bool_decide (e = entropy next)).

Definition verify_transition_invariants (current next : State) : outcome bool :=
  n ← u64_add (state_number current) 1;
  if negb (state_number next =? n) then Ok false
  else
    h ← St.get_hash current;
    if negb (bool_decide (prev_state_hash next = h)) then Ok false
    else
      conserved ← verify_token_conservation current next;
      if negb conserved then Ok false
      else
        evolved ← verify_entropy_evolution current next;
        if negb evolved then Ok false else Ok true.

Definition verify_basic_transition (current next : State) : outcome bool := verify_transition_invariants current next.

Definition verify_bilateral_mode (current next : State) : outcome bool :=
  if bool_decide (entity_sig next = None) || bool_decide (counterparty_sig next = None) then Ok false
  else
    valid ← verify_signatures next;
    if negb valid then Ok false else verify_transition_invariants current next.

Definition verify_unilateral_mode (current next : State) : outcome bool :=
  if bool_decide (entity_sig next = None) then Ok false
  else
    valid ← verify_entity_signature next;
    if negb valid then Ok false
    else
      known ← verify_recipient_identity next;
      if negb known then Ok false else verify_transition_invariants current next.

Definition verify_transition (current next : State) (op : Operation) : outcome bool :=
  match op with
  | Transfer _ _ _ mode _ _ _ _ _ _ =>
      match mode with
      | Bilateral => verify_bilateral_mode current next
      | Unilateral => verify_unilateral_mode current next
      end
  | _ => verify_basic_transition current next
  end.

(** [for i in 0..(states.len() - 1)] *)
Fixpoint verify_transition_batch (states : list State) : outcome bool :=
  match states with
  | prev :: ((next :: _) as rest) =>
      valid ← verify_transition prev next (operation next);
      if negb valid then Ok false else verify_transition_batch rest
  | _ => Ok true
  end.

Definition verify_precommitment_adherence (c : PreCommitment) (next : State) : outcome bool :=
  n ← u64_add (pc_min_state_number c) 1;
  if negb (state_number next =? n) then Ok false
  else if negb (bool_decide (prev_state_hash next = pc_hash c)) then Ok false
  else Ok true.

End DualV.
End DualV.

(** ** Identity claims *)

(** [types::identity::IdentityAnchor] *)
Record IdentityAnchor := mkIdAnchor {
  ia_identity_id : string;
  ia_public_key : bytes;
  ia_creation_time : Z;
  ia_revocation_time : option Z;
  ia_meta_data : gmap string bytes;
}.

Module IdV.
Section IdV.
Context {B3 : Blake3} {RT : Runtime}.

Definition verify_claim_signature (c : IdentityClaim) : outcome bool :=
  let claimed_hash := blake3 (str_bytes (ic_identity_id c) ++ u64_le (ic_timestamp c) ++ u64_le (ic_expiration c)) in
  if bool_decide (ic_signature c = []) then Ok false
  else if negb (bool_decide (claimed_hash = ic_claim_hash c)) then Ok false
  else Ok true.

Definition anchor_hash (a : IdentityAnchor) : bytes :=
  blake3 (str_bytes (ia_identity_id a) ++ u64_le (ia_creation_time a) ++ u64_le (unwrap_or 0 (ia_revocation_time a))).

Definition verify_claim_commitments (c : IdentityClaim) (a : IdentityAnchor) : outcome bool :=
  if negb (bool_decide (anchor_hash a = ic_anchor_commitment c)) then Ok false else Ok true.

Definition verify_identity_claim (c : IdentityClaim) (a : IdentityAnchor) : outcome bool :=
  if negb (bool_decide (ic_identity_id c = ia_identity_id a)) then Ok false
  else
    signed ← verify_claim_signature c;
    if negb signed then Ok false
    else
      committed ← verify_claim_commitments c a;
      if negb committed then Ok false else Ok true.

(** [clock] is the reading of the system clock, [None] for one before the epoch. *)
Definition create_identity_anchor (clock : option Z) (c : IdentityClaim) : outcome IdentityAnchor :=
  signed ← verify_claim_signature c;
  if negb signed then Err (EIdentity "Invalid identity claim signature")
  else
    creation_time ← ok_or (EGeneric "Error getting system time") clock;
    Ok (mkIdAnchor (ic_identity_id c) (ic_public_key c) creation_time None (ic_meta_data c)).

End IdV.
End IdV.

(** ** Commitments *)

Module Det.
Section Det.
Context {B3 : Blake3} {SO : Bincode Operation}.

Definition create_deterministic_commitment (current_state_hash : bytes) (op : Operation) (recipient_info : bytes)
    (conditions : option string) : bytes :=
  blake3 (current_state_hash ++ Ent.to_bytes op ++ recipient_info ++
    match conditions with Some cond => str_bytes cond | None => [] end).
Definition create_time_locked_commitment (current_state_hash : bytes) (op : Operation) (recipient_info : bytes) (unlock_time : Z) : bytes :=
  blake3 (current_state_hash ++ Ent.to_bytes op ++ recipient_info ++ u64_be unlock_time ++ str_bytes "time_locked").
Definition create_conditional_commitment (current_state_hash : bytes) (op : Operation) (recipient_info : bytes)
    (condition oracle_id : string) : bytes :=
  blake3 (current_state_hash ++ Ent.to_bytes op ++ recipient_info ++ str_bytes condition ++ str_bytes oracle_id ++ str_bytes "conditional").
Definition create_recurring_commitment (current_state_hash : bytes) (op : Operation) (recipient_info : bytes)
    (period_seconds end_date : Z) : bytes :=
  blake3 (current_state_hash ++ Ent.to_bytes op ++ recipient_info ++ u64_be period_seconds ++ u64_be end_date ++ str_bytes "recurring").
Definition verify_deterministic_commitment (commitment current_state_hash : bytes) (op : Operation) (recipient_info : bytes)
    (conditions : option string) : bool :=
  bool_decide (create_deterministic_commitment current_state_hash op recipient_info conditions = commitment).

End Det.
End Det.

Record ExternalCommitment := mkExternal {
  xc_original_hash : bytes;
  xc_context : string;
  xc_external_hash : bytes;
}.

Module Ext.
Section Ext.
Context {B3 : Blake3}.

Definition create_external_commitment (commitment : bytes) (context : string) : bytes := blake3 (commitment ++ str_bytes context).
Definition verify_external_commitment (external original : bytes) (context : string) : bool :=
  bool_decide (create_external_commitment original context = external).
Definition new (original_hash : bytes) (context : string) : ExternalCommitment :=
  mkExternal original_hash context (create_external_commitment original_hash context).
Definition verify (c : ExternalCommitment) (original : bytes) : bool :=
  if negb (bool_decide (xc_original_hash c = original)) then false
  else bool_decide (create_external_commitment original (xc_context c) = xc_external_hash c).
Definition create_external_commitment_with_metadata (commitment : bytes) (context : string) (metadata : bytes) : bytes :=
  blake3 (commitment ++ str_bytes context ++ metadata).
Definition verify_external_commitment_with_metadata (external original : bytes) (context : string) (metadata : bytes) : bool :=
  bool_decide (create_external_commitment_with_metadata original context metadata = external).

End Ext.
End Ext.

(** ** Facts *)

Definition is_transfer (op : Operation) : bool := match op with Transfer _ _ _ _ _ _ _ _ _ _ => true | _ => false end.

(** The change of one token that the verifier accepts. *)
Definition change_ok (next : State) (t : string) (v v' : Z) : Prop :=
  v' = v ∨ ∃ to amount mode nonce ver pre r w msg,
    operation next = Transfer to amount t mode nonce ver pre r w msg ∧
    v' = v - bal_value amount ∧ bal_value amount ≠ 0 ∧ bal_value amount ≤ v.

Section DualFacts.
Context {B3 : Blake3} {DO : DashOrder}.
Context {SO : Bincode Operation} {SB : Bincode Balance} {SP : Bincode PreCommitment}.

Lemma change_validity cur next t v v' :
  DualV.verify_balance_change_validity cur next t v v' = Ok true → change_ok next t v v'.
Proof.
  unfold DualV.verify_balance_change_validity. destruct (operation next) eqn:Ho; try done.
  case_bool_decide as Ht; cbn [negb]; [subst|done]. unfold u64_sub.
  case_test; zbool; cbn [mbind outcome_bind]; [|done]. case_test; zbool; [done|].
  unfold DualV.verify_transfer_validity. destruct (token_balances cur !! _) as [b|]; [|done].
  case_test; zbool; [done|]. intros _. right. unfold change_ok. repeat eexists; [exact Ho|lia|done|done].
Qed.

Lemma conserve_sound cur next l : DualV.conserve cur next l = Ok true →
  Forall (fun p => ∃ b', token_balances next !! p.1 = Some b' ∧ change_ok next p.1 (bal_value p.2) (bal_value b')) l.
Proof.
  induction l as [|[t b] l IH]; cbn [DualV.conserve]; [constructor|].
  destruct (token_balances next !! t) as [b'|] eqn:E; [|done]. destruct (Z.eqb_spec (bal_value b) (bal_value b')) as [Hv|Hv]; cbn [negb].
  - intros H. constructor; [|by apply IH]. exists b'. split; [done|]. left. cbn. lia.
  - destruct (DualV.verify_balance_change_validity _ _ _ _ _) as [[]| | |] eqn:Ec; cbn [mbind outcome_bind negb]; try done.
    intros H. constructor; [|by apply IH]. exists b'. split; [done|]. by eapply change_validity.
Qed.

Lemma conserve_same cur next l : Forall (fun p => token_balances next !! p.1 = Some p.2) l → DualV.conserve cur next l = Ok true.
Proof.
  induction 1 as [|[t b] l H Hl IH]; cbn [DualV.conserve]; [done|]. cbn [fst snd] in H. rewrite H, Z.eqb_refl. done.
Qed.

Lemma conserve_ext cur next next' l : operation next' = operation next →
  Forall (fun p => token_balances next' !! p.1 = token_balances next !! p.1) l →
  DualV.conserve cur next' l = DualV.conserve cur next l.
Proof.
  intros Ho. induction 1 as [|[u c] l H Hl IH]; cbn [DualV.conserve]; [done|]. cbn [fst] in H. rewrite H.
  unfold DualV.verify_balance_change_validity. by rewrite Ho, IH.
Qed.

Lemma dash_iter_forall {A} (P : string → A → Prop) (m : gmap string A) :
  Forall (fun p => P p.1 p.2) (dash_iter m) ↔ map_Forall P m.
Proof.
  rewrite dash_iter_perm, map_Forall_to_list. split; intros H; (eapply Forall_impl; [exact H|]); by intros [t b].
Qed.

Lemma invariants_iff cur next : DualV.verify_transition_invariants cur next = Ok true ↔
  state_number next = state_number cur + 1 ∧ state_number next ≤ u64_max ∧ St.get_hash cur = Ok (prev_state_hash next) ∧
  DualV.verify_token_conservation cur next = Ok true ∧
  Ent.derive_entropy (entropy cur) (operation next) (state_number next) = Ok (entropy next).
Proof.
  unfold DualV.verify_transition_invariants, DualV.verify_entropy_evolution, u64_add.
  case_test; zbool; cbn [mbind outcome_bind]; [|naive_solver lia].
  destruct (Z.eqb_spec (state_number next) (state_number cur + 1)) as [Hn|]; cbn [negb]; [|naive_solver].
  destruct (St.get_hash cur) as [h| | |]; cbn [mbind outcome_bind]; try naive_solver.
  case_bool_decide as Hp; cbn [negb]; [|naive_solver].
  destruct (DualV.verify_token_conservation cur next) as [[]| | |]; cbn [mbind outcome_bind negb]; try naive_solver.
  unfold Ent.derive_entropy. cbn [mbind outcome_bind]. rewrite Hn. case_bool_decide as He; cbn [negb].
  - split; [|done]. intros _. split_and!; [done|lia|by rewrite Hp|done|by rewrite He].
  - split; [done|]. by intros (_ & _ & _ & _ & ?%Ok_inj).
Qed.

Lemma verify_transition_invariants_of cur next op :
  DualV.verify_transition cur next op = Ok true → DualV.verify_transition_invariants cur next = Ok true.
Proof.
  unfold DualV.verify_transition, DualV.verify_basic_transition.
  destruct op; try done. destruct mode; unfold DualV.verify_bilateral_mode, DualV.verify_unilateral_mode.
  - case_test; [done|]. destruct (DualV.verify_signatures next) as [[]| | |]; done.
  - case_test; [done|]. destruct (DualV.verify_entity_signature next) as [[]| | |]; cbn [mbind outcome_bind negb]; try done.
    destruct (DualV.verify_recipient_identity next) as [[]| | |]; done.
Qed.

End DualFacts.

(** ** Properties *)

Section DualProperties.
Context {B3 : Blake3} {DO : DashOrder} {RT : Runtime}.
Context {SO : Bincode Operation} {SB : Bincode Balance} {SP : Bincode PreCommitment}.

(** C36: the dual-mode verifier is sound: an accepted transition has the next
    number, names the hash of the current state and carries the derived entropy;
    every token of the current state is still there with the same value, or less
    the positive amount that the transfer of that token moves and that was
    covered; and an accepted transfer carries a valid signature of the entity, in
    bilateral mode also of the counterparty of its relationship. *)
Theorem dual_verifier_sound (cur next : State) (op : Operation) :
  DualV.verify_transition cur next op = Ok true →
  state_number next = state_number cur + 1 ∧ St.get_hash cur = Ok (prev_state_hash next) ∧
  entropy next = blake3 (entropy cur ++ Ent.to_bytes (operation next) ++ u64_le (state_number next)) ∧
  map_Forall (fun t b => ∃ b', token_balances next !! t = Some b' ∧ change_ok next t (bal_value b) (bal_value b')) (token_balances cur) ∧
  match op with
  | Transfer _ _ _ mode _ _ _ _ _ _ =>
      DualV.verify_entity_signature next = Ok true ∧
      (mode = Bilateral → ∃ ctx sig data, relationship_context next = Some ctx ∧ counterparty_sig next = Some sig ∧
         DualV.state_data next = Ok data ∧ DualV.verify_signature data sig (rc_counterparty_public_key ctx) = Ok true)
  | _ => True
  end.
Proof.
  intros H. pose proof (verify_transition_invariants_of cur next op H) as Hi.
  apply invariants_iff in Hi as (Hn & _ & Hp & Hc & He). split_and!; [done|done|by apply Ok_inj in He| |].
  { apply dash_iter_forall. by eapply conserve_sound. }
  unfold DualV.verify_transition in H. destruct op; try done. destruct mode.
  - unfold DualV.verify_bilateral_mode in H. case_test; [done|].
    destruct (DualV.verify_signatures next) as [[]| | |] eqn:Hs; cbn [mbind outcome_bind negb] in H; try done.
    unfold DualV.verify_signatures in Hs. unfold DualV.verify_entity_signature.
    destruct (entity_sig next) as [es|]; [|done]. destruct (counterparty_sig next) as [cs|]; [|done].
    destruct (DualV.state_data next) as [data| | |]; cbn [mbind outcome_bind] in Hs |- *; try done.
    destruct (DualV.verify_signature data es _) as [[]| | |]; cbn [mbind outcome_bind negb] in Hs |- *; try done.
    split; [done|]. intros _. destruct (relationship_context next) as [ctx|]; [|done].
    destruct (DualV.verify_signature data cs _) as [[]| | |] eqn:Hcs; cbn [mbind outcome_bind negb] in Hs; try done.
    by exists ctx, cs, data.
  - unfold DualV.verify_unilateral_mode in H. case_test; [done|].
    destruct (DualV.verify_entity_signature next) as [[]| | |]; cbn [mbind outcome_bind negb] in H; try done.
Qed.

(** The amount of a transfer is not negative. *)
Definition amount_typed (s : State) : Prop :=
  match operation s with Transfer _ amount _ _ _ _ _ _ _ _ => 0 ≤ bal_value amount | _ => True end.

Lemma change_le next t v v' : amount_typed next → change_ok next t v v' → v' ≤ v.
Proof.
  unfold amount_typed. intros Ha [->|(to & amount & mode & nonce & ver & pre & r & w & msg & Ho & -> & _ & _)]; [lia|].
  rewrite Ho in Ha. lia.
Qed.

(** Balances never grow along a verified chain: in a batch that is accepted,
    every token of the first state is in every later state with at most the value
    it had at first. *)
Theorem verified_chain_balances (s0 : State) (states : list State) (t : string) (b : Balance) :
  Forall amount_typed states → DualV.verify_transition_batch (s0 :: states) = Ok true → token_balances s0 !! t = Some b →
  Forall (fun s => ∃ b', token_balances s !! t = Some b' ∧ bal_value b' ≤ bal_value b) states.
Proof.
  revert s0 b. induction states as [|s states IH]; intros s0 b Ht Hv Hb; [constructor|].
  apply Forall_cons in Ht as [Hs Ht]. cbn [DualV.verify_transition_batch] in Hv.
  destruct (DualV.verify_transition s0 s (operation s)) as [[]| | |] eqn:E; cbn [mbind outcome_bind negb] in Hv; try done.
  apply verify_transition_invariants_of, invariants_iff in E as (_ & _ & _ & Hc & _).
  apply conserve_sound, (dash_iter_forall (fun t b => ∃ b', token_balances s !! t = Some b' ∧ change_ok s t (bal_value b) (bal_value b'))) in Hc.
  destruct (Hc t b Hb) as (b' & Hb' & Hch). apply change_le in Hch; [|done].
  constructor; [by exists b'|]. eapply Forall_impl; [by eapply IH|]. intros s' (c & Hc' & Hle). exists c. split; [done|lia].
Qed.

(** The verifier agrees with the construction of states: what the transition
    code builds for any operation but a transfer, with the derived entropy, is
    accepted; but so is the same state with any further token added to its
    balances, because only tokens of the current state are looked at. *)
Theorem created_states_accepted (cur : State) (op : Operation) (vt : LocalVerificationType) (rb : bool) (s' : State)
    (t : string) (b : Balance) :
  is_transfer op = false →
  Tr.create_next_state cur op (blake3 (entropy cur ++ Ent.to_bytes op ++ u64_le (state_number cur + 1))) vt rb = Ok s' →
  DualV.verify_transition cur s' op = Ok true ∧
  (token_balances cur !! t = None →
   DualV.verify_transition cur (St.set_token_balances (<[t := b]> (token_balances s')) s') op = Ok true).
Proof.
  intros Ht H%create_next_state_inv. destruct H as [Hn Hb Hp He Ho _ _ _ _ Htb _ _ _ _].
  assert (∀ x, DualV.verify_transition cur x op = DualV.verify_transition_invariants cur x) as Hv by (by destruct op).
  assert (DualV.verify_token_conservation cur s' = Ok true) as Hc.
  { apply conserve_same. rewrite Htb. apply (dash_iter_forall (fun t b => token_balances cur !! t = Some b)). by intros ? ?. }
  rewrite !Hv. split.
  - apply invariants_iff. split_and!; [done|done|done|done|]. unfold Ent.derive_entropy. by rewrite Ho, Hn, He.
  - intros Hnone. apply invariants_iff. cbn [St.set_token_balances state_number prev_state_hash operation entropy].
    split_and!; [done|done|done| |unfold Ent.derive_entropy; by rewrite Ho, Hn, He].
    unfold DualV.verify_token_conservation. rewrite (conserve_ext cur s'); [exact Hc|done|].
    apply (dash_iter_forall (fun u _ => <[t := b]> (token_balances s') !! u = token_balances s' !! u)).
    intros u c Hu. apply lookup_insert_ne. congruence.
Qed.

(** Identity claims can be made by anybody: for every anchor, revoked or not,
    and every non-empty string of bytes as the signature, a claim with any key,
    device, time and expiry is accepted. *)
Theorem identity_claim_forgeable (a : IdentityAnchor) (signature key : bytes) (timestamp expiration : Z) (d : DeviceInfo)
    (meta : gmap string bytes) :
  signature ≠ [] →
  ∃ claim, ic_public_key claim = key ∧ ic_signature claim = signature ∧ ic_timestamp claim = timestamp ∧
    ic_expiration claim = expiration ∧ ic_device_info claim = d ∧ IdV.verify_identity_claim claim a = Ok true.
Proof.
  intros Hs. exists (mkIdentityClaim (ia_identity_id a) timestamp expiration key signature
    (blake3 (str_bytes (ia_identity_id a) ++ u64_le timestamp ++ u64_le expiration)) (IdV.anchor_hash a) d meta).
  split_and!; try done. unfold IdV.verify_identity_claim, IdV.verify_claim_signature, IdV.verify_claim_commitments. cbn.
  by rewrite bool_decide_eq_true_2, (bool_decide_eq_false_2 (signature = [])), !bool_decide_eq_true_2.
Qed.

(** The kinds of commitments are confused: a time-locked commitment is also the
    plain commitment for the condition spelled by its own suffix, a conditional
    one does not separate the condition from the oracle, and an external
    commitment with metadata is the one for the longer context. *)
Theorem commitment_kinds_confused (h recipient : bytes) (op : Operation) (unlock : Z) (cond c1 c2 o1 o2 context extra : string) :
  str_bytes cond = u64_be unlock ++ str_bytes "time_locked" → c1 +:+ o1 = c2 +:+ o2 →
  Det.verify_deterministic_commitment (Det.create_time_locked_commitment h op recipient unlock) h op recipient (Some cond) = true ∧
  Det.create_conditional_commitment h op recipient c1 o1 = Det.create_conditional_commitment h op recipient c2 o2 ∧
  Ext.verify_external_commitment (Ext.create_external_commitment_with_metadata h context (str_bytes extra)) h (context +:+ extra) = true.
Proof.
  intros Hc Ho. split_and!.
  - unfold Det.verify_deterministic_commitment, Det.create_time_locked_commitment, Det.create_deterministic_commitment.
    by rewrite Hc, bool_decide_eq_true_2.
  - unfold Det.create_conditional_commitment. rewrite !(assoc_L (++) (str_bytes c1)), !(assoc_L (++) (str_bytes c2)).
    by rewrite <- !str_bytes_app, Ho.
  - unfold Ext.verify_external_commitment, Ext.create_external_commitment_with_metadata, Ext.create_external_commitment.
    by rewrite str_bytes_app, bool_decide_eq_true_2.
Qed.

End DualProperties.

(** ** Witnesses *)

Module DualWitness.
#[local] Existing Instances Toy.toy_blake3 Toy.toy_runtime toy_bincode_operation
  ToySt.toy_bincode_balance ToySt.toy_bincode_precommitment.
#[local] Instance toy_order : DashOrder := {| dash_iter A := map_to_list; dash_iter_perm A m := reflexivity _ |}.
Import ToyTr.

Definition pay3 (mode : TransactionMode) : Operation :=
  Transfer "bob" (coin 3) "GOLD" mode [] VT_Standard None "bob" "bob" "".
Definition derived (cur : State) (op : Operation) : bytes :=
  blake3 (entropy cur ++ Ent.to_bytes op ++ u64_le (state_number cur + 1)).
Definition bob : RelationshipContext := mkRelCtx "alice" 0 "bob" 0 (zeros 64) [] true.
Definition sign (message : bytes) : bytes := zeros 32 ++ blake3 (zeros 32 ++ zeros 64 ++ message).

(** Three of five coins are paid and both parties sign. *)
Definition paid (mode : TransactionMode) : State :=
  mkState "state_1" 1 (derived funded (pay3 mode)) (zeros 32) (hash funded) (sparse_index funded) (pay3 mode) None (mkDevice "device-1" (zeros 64)) ∅
    {["GOLD"%string := coin 2]} true (Some bob) None None [] [] "device-1" None ∅
    (Some (sign (zeros 32))) (Some (sign (zeros 32))) [] [] "standard".

Lemma dual_verifier_sound_witness :
  DualV.verify_transition funded (paid Bilateral) (pay3 Bilateral) = Ok true ∧
  DualV.verify_entity_signature (paid Bilateral) = Ok true.
Proof.
  assert (DualV.verify_transition funded (paid Bilateral) (pay3 Bilateral) = Ok true) as H by (vm_compute; reflexivity).
  split; [exact H|]. exact (proj1 (proj2 (proj2 (proj2 (proj2 (dual_verifier_sound funded (paid Bilateral) (pay3 Bilateral) H)))))).
Defined.

Lemma verified_chain_balances_witness :
  Forall (fun s => ∃ b', token_balances s !! "GOLD"%string = Some b' ∧ bal_value b' ≤ 5) [paid Unilateral].
Proof.
  apply (verified_chain_balances funded [paid Unilateral] "GOLD" (coin 5)).
  - constructor; [cbn; lia|constructor].
  - vm_compute. reflexivity.
  - reflexivity.
Defined.

Definition pinged : State := from_ok (Tr.create_next_state funded op1 (derived funded op1) LV_Standard false).

Lemma created_states_accepted_witness :
  DualV.verify_transition funded (St.set_token_balances (<["FAKE"%string := coin 1000]> (token_balances pinged)) pinged) op1 = Ok true.
Proof.
  apply (created_states_accepted funded op1 LV_Standard false pinged "FAKE" (coin 1000)); [reflexivity| |reflexivity].
  vm_compute. reflexivity.
Defined.

Lemma identity_claim_forgeable_witness :
  ∃ claim, ic_expiration claim = 0 ∧ ic_signature claim = [Byte.x00] ∧
    IdV.verify_identity_claim claim (mkIdAnchor "alice" (zeros 64) 1 (Some 2) ∅) = Ok true.
Proof.
  destruct (identity_claim_forgeable (mkIdAnchor "alice" (zeros 64) 1 (Some 2) ∅) [Byte.x00] [] 5 0 ToySt.device ∅)
    as (claim & _ & H1 & _ & H2 & _ & H3); [discriminate|].
  exists claim. split; [exact H2|split; [exact H1|exact H3]].
Defined.

Definition suffix_condition : string := String.string_of_list_byte (u64_be 0 ++ str_bytes "time_locked").

Lemma commitment_kinds_confused_witness :
  Det.verify_deterministic_commitment (Det.create_time_locked_commitment [] op1 [] 0) [] op1 [] (Some suffix_condition) = true ∧
  Det.create_conditional_commitment [] op1 [] "rain" "oracle" = Det.create_conditional_commitment [] op1 [] "rainor" "acle".
Proof.
  destruct (commitment_kinds_confused [] [] op1 0 suffix_condition "rain" "rainor" "oracle" "acle" "" "" eq_refl eq_refl) as (H1 & H2 & _).
  split; [exact H1|exact H2].
Defined.
End DualWitness.
