(* ===== verification/TokenReg.v ===== *)
(** * The token registry and the token factory
      (dsm/src/core/token/token_registry.rs and token_factory.rs)

    [Reg] is the registry: a local store of tokens and a map of friendly names
    over the token state manager.  [Factory] makes the genesis of a token from
    partial commitments, sub-tokens, and tokens from a genesis.  What the
    generators draw is an argument. *)
From S2P Require Import Prelude Tokens Operations SparseIdx States Relationship Policy TokenState Sphincs Keys NodeTypes Kyber Pedersen.

(** ** Data *)

Record TokenRegistry := mkTokenRegistry {
  tr_token_store : gmap string Token;
  tr_name_registry : gmap string string;
  tr_manager : TokenStateManager;
}.

Record TokenContribution := mkTokenContribution { tc_data : bytes; tc_verified : bool }.

Record TokenGenesis := mkTokenGenesis {
  tg_token_hash : bytes;
  tg_token_entropy : bytes;
  tg_threshold : nat;
  tg_participants : gset string;
  tg_signing_key_sphincs : bytes;
  tg_kyber_keypair : bytes * bytes;
  tg_policy_anchor : option bytes;
  tg_contributions : list TokenContribution;
  tg_signing_key : bytes;
}.

(** What one creation draws: the parameters, the blinding factor of the own
    commitment, the simulated data and blinding factor of each other participant,
    and the keys. *)
Record GenesisDraws := mkGenesisDraws {
  gd_params : Draws;
  gd_own : Draws;
  gd_others : nat → bytes * Draws;
  gd_sphincs : bytes;
  gd_kyber : bytes;
  gd_self_test : bytes * bytes * bytes;
  gd_instants : Z * Z;
}.

(** ** The registry *)

Module Reg.
Section Reg.
Context {B3 : Blake3} {RT : Runtime} {DO : DashOrder}.

Definition new (manager : TokenStateManager) : TokenRegistry := mkTokenRegistry ∅ ∅ manager.

Definition set_store (s : gmap string Token) (r : TokenRegistry) : TokenRegistry :=
  mkTokenRegistry s (tr_name_registry r) (tr_manager r).
Definition set_names (n : gmap string string) (r : TokenRegistry) : TokenRegistry :=
  mkTokenRegistry (tr_token_store r) n (tr_manager r).
Definition set_manager (m : TokenStateManager) (r : TokenRegistry) : TokenRegistry :=
  mkTokenRegistry (tr_token_store r) (tr_name_registry r) m.

Definition register_token (token : Token) (friendly_name : option string) : M TokenRegistry unit :=
  do* mmod (fun r => set_store (<[tok_id token := token]> (tr_token_store r)) r);
  match friendly_name with
  | Some name => mmod (fun r => set_names (<[name := tok_id token]> (tr_name_registry r)) r)
  | None => mret_st tt
  end.

Definition get_token (r : TokenRegistry) (token_id : string) : outcome Token :=
  match TM.get_token (tr_manager r) token_id with
  | Err _ => ok_or (ENotFound "Token" (Some token_id)) (tr_token_store r !! token_id)
  | o => o
  end.

Definition get_token_by_name (r : TokenRegistry) (name : string) : outcome Token :=
  match tr_name_registry r !! name with
  | Some token_id => get_token r token_id
  | None => Err (ENotFound "Token name" (Some name))
  end.

Definition matches (owner_id : option string) (status : option TokenStatus) (t : Token) : bool :=
  match owner_id with Some o => bool_decide (tok_owner_id t = o) | None => true end &&
  match status with Some s => bool_decide (tok_status t = s) | None => true end.

(** [results.sort_by(|a, b| a.id().cmp(b.id()))] *)
Definition sort_by_id (l : list Token) : list Token := map snd (sort_by_key (map (fun t => (tok_id t, t)) l)).

Definition find_tokens (r : TokenRegistry) (owner_id : option string) (status : option TokenStatus) (limit : nat) : outcome (list Token) :=
  let results := filter (fun t => matches owner_id status t = true) (map snd (dash_iter (tr_token_store r))) in
  let results := sort_by_id results in
  Ok (if (limit <? length results)%nat then take limit results else results).

Definition verify_token (r : TokenRegistry) (token_id : string) : outcome bool :=
  match get_token r token_id with
  | Ok token => Ok (Tok.is_valid token)
  | Err (ENotFound _ _) => Ok false
  | Err e => Err e
  | Panic => Panic
  | Hang => Hang
  end.

(** The first name, in iteration order, that leads to the token. *)
Definition name_of (names : gmap string string) (token_id : string) : option string :=
  fst <$> head (filter (fun p => p.2 = token_id) (dash_iter names)).

Definition update_token_name (token_id new_name : string) : M TokenRegistry unit :=
  let* r := mget in
  let* _ := mlift (get_token r token_id) in
  mmod (fun r =>
    let names := match name_of (tr_name_registry r) token_id with
                 | Some key => delete key (tr_name_registry r)
                 | None => tr_name_registry r
                 end in
    set_names (<[new_name := token_id]> names) r).

Definition get_all_token_ids (r : TokenRegistry) : outcome (list string) := Ok (map fst (dash_iter (tr_token_store r))).
Definition token_count (r : TokenRegistry) : nat := size (tr_token_store r).

Definition get_token_balance (r : TokenRegistry) (token_id owner_id : string) : outcome Balance :=
  TM.get_token_balance_from_store (tr_manager r) (str_bytes owner_id) token_id.

(** [let _ = self.token_state_manager.op(..)]: an error is ignored. *)
Definition in_manager (op : M TokenStateManager unit) : M TokenRegistry unit := fun r =>
  let '(o, m) := op (tr_manager r) in
  (match o with Err _ => Ok tt | o => o end, set_manager m r).

Definition revoke_token (token_id : string) : M TokenRegistry unit :=
  do* in_manager (TM.revoke_token token_id);
  let* r := mget in
  match tr_token_store r !! token_id with
  | Some token => mmod (fun r => set_store (<[token_id := Tok.set_status Revoked token]> (tr_token_store r)) r)
  | None => mfail (ENotFound "Token" (Some token_id))
  end.

Definition with_new_metadata (metadata : bytes) (token : Token) : Token :=
  let updated := Tok.new (tok_owner_id token) (tok_token_hash token) metadata (tok_balance token) in
  if bool_decide (tok_status token = Revoked) then Tok.set_status Revoked updated else updated.

Definition update_token_metadata (token_id : string) (metadata : bytes) : M TokenRegistry unit :=
  do* in_manager (TM.update_token_metadata token_id metadata);
  let* r := mget in
  match tr_token_store r !! token_id with
  | Some token => mmod (fun r => set_store (<[token_id := with_new_metadata metadata token]> (tr_token_store r)) r)
  | None => mfail (ENotFound "Token" (Some token_id))
  end.

(** [for id in local_token_ids] *)
Definition refresh_one (m : TokenStateManager) (store : gmap string Token) (id : string) : gmap string Token :=
  match TM.get_token m id with Ok token => <[id := token]> store | _ => store end.

Definition refresh_registry : M TokenRegistry unit :=
  mmod (fun r => set_store (foldl (refresh_one (tr_manager r)) (tr_token_store r) (map fst (dash_iter (tr_token_store r)))) r).

End Reg.
End Reg.

(** ** The factory *)

Module Factory.
Section Factory.
Context {B3 : Blake3} {S3 : Sha3} {PT : PrimeTest} {K : Mlkem kem768} {RT : Runtime}.
Context (to_vec : PolicyFile → option bytes) (fuel : nat).

Definition combine_commits (commits : list bytes) (anchor : bytes) : bytes := sha3_512 (anchor ++ mjoin commits).
Definition build_token_entropy (token_hash : bytes) (commits : list bytes) : bytes := sha3_512 (token_hash ++ mjoin commits).

(** Hash, commit, hash. *)
Definition partial_commit (params : PedersenParams) (data : bytes) (d : Draws) : outcome bytes :=
  '(c, _) ← Ped.commit fuel d params (sha3_512 data);
  Ok (blake3 (to_bytes_be (pc_commitment c))).

(** [for _ in 1..participants_set.len()] *)
Fixpoint gather (params : PedersenParams) (others : nat → bytes * Draws) (k i : nat) : outcome (list bytes) :=
  match k with
  | O => Ok []
  | S k =>
      c ← partial_commit params (others i).1 (others i).2;
      rest ← gather params others k (S i);
      Ok (c :: rest)
  end.

Definition keys (d : GenesisDraws) : M KyberState (bytes * bytes * (bytes * bytes)) :=
  let* sphincs := mlift (Sphincs.generate_sphincs_keypair (gd_sphincs d)) in
  let* kyber := Kyber.generate_kyber_keypair (gd_instants d).1 (gd_instants d).2
                  (gd_self_test d).1.1 (gd_self_test d).1.2 (gd_self_test d).2 (gd_kyber d) in
  mret_st (sphincs, kyber).

Definition policy_anchor (policy_file : option PolicyFile) (otherwise : option bytes) : outcome (option bytes) :=
  match policy_file with
  | Some policy => a ← Policy.generate_anchor to_vec policy; Ok (Some a)
  | None => Ok otherwise
  end.

Definition selected_commits (d : GenesisDraws) (threshold participants : nat) (token_data : bytes) : outcome (list bytes) :=
  params ← Ped.params_new fuel (gd_params d) Standard128;
  own ← partial_commit params token_data (gd_own d);
  others ← gather params (gd_others d) (participants - 1) 0;
  Ok (take threshold (own :: others)).

Definition create_token_genesis (d : GenesisDraws) (threshold : nat) (participants : list string) (token_data : bytes)
    (policy_file : option PolicyFile) : M KyberState TokenGenesis :=
  let participants_set : gset string := list_to_set participants in
  if (threshold =? 0)%nat || (size participants_set <? threshold)%nat
  then mfail (EValidation "Invalid threshold {} for {} participants")
  else
    let* selected := mlift (selected_commits d threshold (size participants_set) token_data) in
    let token_hash := combine_commits selected token_data in
    let token_entropy := build_token_entropy token_hash selected in
    let* k := keys d in
    let '((spk, ssk), kyber) := k in
    let* anchor := mlift (policy_anchor policy_file None) in
    mret_st (mkTokenGenesis token_hash token_entropy threshold participants_set spk kyber anchor
               (map (fun c => mkTokenContribution c true) selected) ssk).

Definition derive_sub_token_genesis (d : GenesisDraws) (parent : TokenGenesis) (sub_id : string) (sub_entropy : bytes)
    (policy_file : option PolicyFile) : M KyberState TokenGenesis :=
  let sub_hash := blake3 (tg_token_hash parent ++ str_bytes sub_id ++ sub_entropy) in
  let derived_entropy := sha3_512 (tg_token_entropy parent ++ str_bytes sub_id ++ sub_entropy) in
  let* k := keys d in
  let '((spk, ssk), kyber) := k in
  let* anchor := mlift (policy_anchor policy_file (tg_policy_anchor parent)) in
  mret_st (mkTokenGenesis sub_hash derived_entropy 1 {[ sub_id ]} spk kyber anchor
             [mkTokenContribution sub_entropy true] ssk).

Definition create_token_from_genesis (g : TokenGenesis) (owner_id : string) (metadata : bytes) (initial : Balance) : Token :=
  match tg_policy_anchor g with
  | Some anchor => Tok.new_with_policy owner_id (tg_token_hash g) metadata initial anchor
  | None => Tok.new owner_id (tg_token_hash g) metadata initial
  end.
Definition create_token_direct (owner_id : string) (token_hash metadata : bytes) (initial : Balance) : Token :=
  Tok.new owner_id token_hash metadata initial.
Definition update_token_status (status : TokenStatus) : M Token unit := mmod (Tok.set_status status).

End Factory.
End Factory.

(** ** Hexadecimal digits *)

Lemma hex_digit_inj a b : 0 ≤ a < 16 → 0 ≤ b < 16 → hex_digit a = hex_digit b → a = b.
Proof.
  intros Ha Hb H. assert (∀ x, 0 ≤ x < 16 → Ascii.N_of_ascii (hex_digit x) = Z.to_N (if x <? 10 then 48 + x else 87 + x)) as E.
  { intros x Hx. unfold hex_digit. apply Ascii.N_ascii_embedding. destruct (Z.ltb_spec x 10); lia. }
  assert (Ascii.N_of_ascii (hex_digit a) = Ascii.N_of_ascii (hex_digit b)) as Hn by (by rewrite H).
  rewrite !E in Hn by done. destruct (Z.ltb_spec a 10), (Z.ltb_spec b 10); lia.
Qed.

Lemma hex_encode_inj a b : hex_encode a = hex_encode b → a = b.
Proof.
  unfold hex_encode. intros H%(f_equal String.list_ascii_of_string).
  rewrite !String.list_ascii_of_string_of_list_ascii in H. revert b H.
  induction a as [|x a IH]; intros [|y b] H; try done. cbn [fmap list_fmap concat app] in H.
  injection H as H1 H2 H3. f_equal; [|by apply IH]. apply u8_val_inj.
  pose proof (u8_val_range x). pose proof (u8_val_range y).
  assert (∀ z, 0 ≤ z < 256 → 0 ≤ z / 16 < 16) as Hd
    by (intros z Hz; split; [apply Z.div_pos; lia|apply Z.div_lt_upper_bound; lia]).
  apply hex_digit_inj in H1; [|by apply Hd..]. apply hex_digit_inj in H2; [|apply Z.mod_pos_bound; lia..].
  rewrite (Z.div_mod (u8_val x) 16), (Z.div_mod (u8_val y) 16) by lia. by rewrite H1, H2.
Qed.

(** ** Histories of a registry *)

Inductive RegOp :=
  | OpRegister (token : Token) (name : option string)
  | OpRename (id name : string)
  | OpRevoke (id : string)
  | OpMetadata (id : string) (metadata : bytes)
  | OpRefresh.

Section RegistryFacts.
Context {B3 : Blake3} {RT : Runtime} {DO : DashOrder}.

Definition reg_run (op : RegOp) : M TokenRegistry unit :=
  match op with
  | OpRegister t n => Reg.register_token t n
  | OpRename id n => Reg.update_token_name id n
  | OpRevoke id => Reg.revoke_token id
  | OpMetadata id md => Reg.update_token_metadata id md
  | OpRefresh => Reg.refresh_registry
  end.
(** The registry after a call, failed or not. *)
Definition reg_apply (r : TokenRegistry) (op : RegOp) : TokenRegistry := (reg_run op r).2.

Definition known (r : TokenRegistry) (id : string) : Prop :=
  is_Some (tm_token_store (tr_manager r) !! id) ∨ is_Some (tr_token_store r !! id).
Definition names_known (r : TokenRegistry) : Prop := map_Forall (fun _ id => known r id) (tr_name_registry r).

(** Revoked wherever the token is stored, and stored in the registry. *)
Definition revoked_in (id : string) (r : TokenRegistry) : Prop :=
  (∀ t, tm_token_store (tr_manager r) !! id = Some t → tok_status t = Revoked) ∧
  ∃ t, tr_token_store r !! id = Some t ∧ tok_status t = Revoked.

Lemma get_token_spec r id : Reg.get_token r id =
  match tm_token_store (tr_manager r) !! id with
  | Some t => Ok t
  | None => ok_or (ENotFound "Token" (Some id)) (tr_token_store r !! id)
  end.
Proof. unfold Reg.get_token, TM.get_token. by destruct (tm_token_store (tr_manager r) !! id). Qed.

Lemma get_token_ok r id : known r id ↔ ∃ t, Reg.get_token r id = Ok t.
Proof.
  rewrite get_token_spec. unfold known.
  destruct (tm_token_store (tr_manager r) !! id) as [t|]; [naive_solver|].
  destruct (tr_token_store r !! id) as [t|]; cbn [ok_or]; [naive_solver|].
  split; [by intros [[? ?]|[? ?]]|by intros [? ?]].
Qed.

Lemma insert_alter (f : Token → Token) (m : gmap string Token) id t : m !! id = Some t → <[id := f t]> m = alter f id m.
Proof. intros Hm. rewrite <- (insert_id m id t Hm) at 2. by rewrite alter_insert_eq. Qed.
Lemma alter_none (f : Token → Token) (m : gmap string Token) id : m !! id = None → alter f id m = m.
Proof. intros Hm. apply alter_id. congruence. Qed.

Lemma revoke_alter id r : reg_apply r (OpRevoke id) =
  mkTokenRegistry (alter (Tok.set_status Revoked) id (tr_token_store r)) (tr_name_registry r)
    (TM.set_store (alter (Tok.set_status Revoked) id (tm_token_store (tr_manager r))) (tr_manager r)).
Proof.
  destruct r as [st nm [ms mc mh mp mr]].
  unfold reg_apply, reg_run, Reg.revoke_token, Reg.in_manager, TM.revoke_token, mbind_st, mget, mmod, mfail. cbn.
  destruct (ms !! id) as [t|] eqn:Em; cbn; destruct (st !! id) as [t'|] eqn:Es; cbn;
    rewrite ?(insert_alter (Tok.set_status Revoked) _ _ _ Em), ?(insert_alter (Tok.set_status Revoked) _ _ _ Es),
      ?(alter_none _ _ _ Em), ?(alter_none _ _ _ Es); reflexivity.
Qed.

(** What the state manager makes of a token whose metadata change. *)
Definition manager_metadata (id : string) (metadata : bytes) (old : Token) : Token :=
  Tok.set_status (tok_status old) (Tok.new id (str_bytes (tok_owner_id old)) metadata (tok_balance old)).

Lemma metadata_alter id md r : reg_apply r (OpMetadata id md) =
  mkTokenRegistry (alter (Reg.with_new_metadata md) id (tr_token_store r)) (tr_name_registry r)
    (TM.set_store (alter (manager_metadata id md) id (tm_token_store (tr_manager r))) (tr_manager r)).
Proof.
  destruct r as [st nm [ms mc mh mp mr]].
  unfold reg_apply, reg_run, Reg.update_token_metadata, Reg.in_manager, TM.update_token_metadata, mbind_st, mget, mmod, mfail. cbn.
  destruct (ms !! id) as [t|] eqn:Em; cbn [fst snd tr_token_store Reg.set_manager];
    destruct (st !! id) as [t'|] eqn:Es; cbn [fst snd];
    rewrite ?(alter_none _ _ _ Em), ?(alter_none _ _ _ Es); try reflexivity;
    unfold TM.set_store, Reg.set_store, Reg.set_manager;
    cbn [tr_token_store tr_name_registry tr_manager tm_token_store tm_balance_cache tm_cache_write_held tm_policy_store tm_runtime];
    rewrite <- ?(insert_alter (Reg.with_new_metadata md) _ _ _ Es), <- ?(insert_alter (manager_metadata id md) _ _ _ Em); reflexivity.
Qed.

Lemma refresh_lookup m ids : NoDup ids → ∀ store id,
  foldl (Reg.refresh_one m) store ids !! id =
  if bool_decide (id ∈ ids) then match tm_token_store m !! id with Some t => Some t | None => store !! id end else store !! id.
Proof.
  induction 1 as [|x ids Hx Hids IH]; intros store id; [done|]. cbn [foldl]. rewrite IH.
  unfold Reg.refresh_one, TM.get_token. destruct (decide (id = x)) as [->|Hne].
  - rewrite (bool_decide_eq_false_2 _ Hx), bool_decide_eq_true_2 by left.
    destruct (tm_token_store m !! x); cbn [ok_or]; [by rewrite lookup_insert_eq|done].
  - rewrite (bool_decide_ext (id ∈ x :: ids) (id ∈ ids)) by set_solver.
    assert (match ok_or (ENotFound "Token" (Some x)) (tm_token_store m !! x) with Ok t => <[x:=t]> store | _ => store end !! id = store !! id)
      as -> by (destruct (tm_token_store m !! x); cbn [ok_or]; [by rewrite lookup_insert_ne|done]). done.
Qed.

Lemma refresh_spec r id : tr_token_store (reg_apply r OpRefresh) !! id =
  match tr_token_store r !! id, tm_token_store (tr_manager r) !! id with
  | Some _, Some t => Some t
  | o, _ => o
  end.
Proof.
  unfold reg_apply, reg_run, Reg.refresh_registry, mmod. cbn [snd Reg.set_store tr_token_store].
  rewrite refresh_lookup; [|rewrite dash_iter_perm; apply NoDup_fst_map_to_list].
  case_bool_decide as Hin.
  - assert (is_Some (tr_token_store r !! id)) as [t ->]; [|by destruct (tm_token_store (tr_manager r) !! id)].
    apply list_elem_of_fmap in Hin as ([k t] & -> & Hin). rewrite dash_iter_perm in Hin.
    apply elem_of_map_to_list in Hin. by exists t.
  - destruct (tr_token_store r !! id) as [t|] eqn:E; [|done]. destruct Hin.
    apply list_elem_of_fmap. exists (id, t). split; [done|]. rewrite dash_iter_perm. by apply elem_of_map_to_list.
Qed.

Lemma rename_cases id name r : reg_apply r (OpRename id name) = r ∨
  (known r id ∧ ∃ names, names ⊆ tr_name_registry r ∧ reg_apply r (OpRename id name) = Reg.set_names (<[name := id]> names) r).
Proof.
  unfold reg_apply, reg_run, Reg.update_token_name, mbind_st, mget, mlift, mmod.
  destruct (Reg.get_token r id) as [t| | |] eqn:E; [right|by left..].
  split; [apply get_token_ok; by exists t|]. cbn [snd]. eexists. split; [|reflexivity].
  destruct (Reg.name_of _ _); [apply delete_subseteq|done].
Qed.

End RegistryFacts.

Section RegistryInvariants.
Context {B3 : Blake3} {RT : Runtime} {DO : DashOrder}.

Lemma is_Some_alter (f : Token → Token) (m : gmap string Token) i j : is_Some (alter f i m !! j) ↔ is_Some (m !! j).
Proof. rewrite lookup_alter. case_decide; [subst; by rewrite fmap_is_Some|done]. Qed.

Lemma known_step r op id : known r id → known (reg_apply r op) id.
Proof.
  destruct op as [t name|i name|i|i md|].
  - intros [H|H]; [left|right].
    + destruct name; exact H.
    + assert (tr_token_store (reg_apply r (OpRegister t name)) = <[tok_id t := t]> (tr_token_store r)) as -> by (by destruct name).
      apply lookup_insert_is_Some'. by right.
  - destruct (rename_cases i name r) as [->|(_ & n & _ & ->)]; done.
  - rewrite revoke_alter. intros [H|H]; [left|right]; by apply is_Some_alter.
  - rewrite metadata_alter. intros [H|H]; [left|right]; by apply is_Some_alter.
  - intros [H|[x H]]; [by left|]. right. rewrite refresh_spec, H. by destruct (tm_token_store _ !! id).
Qed.

Lemma names_known_mono r r' : tr_name_registry r' = tr_name_registry r → (∀ id, known r id → known r' id) → names_known r → names_known r'.
Proof. unfold names_known. intros -> Hk H n id Hn. apply Hk, (H n id Hn). Qed.

Lemma names_known_step r op : names_known r → names_known (reg_apply r op).
Proof.
  intros H. pose proof (known_step r op) as Hk. destruct op as [t name|i name|i|i md|].
  - destruct name as [name|]; [|apply (names_known_mono r); [reflexivity|exact Hk|exact H]].
    intros n id Hn. cbn in Hn. apply lookup_insert_Some in Hn as [[_ <-]|[_ Hn]]; [|apply Hk, (H n id Hn)].
    right. exists t. apply lookup_insert_eq.
  - destruct (rename_cases i name r) as [->|(Hi & ns & Hns & E)]; [done|]. rewrite E in *.
    intros n id Hn. cbn in Hn. apply lookup_insert_Some in Hn as [[_ <-]|[_ Hn]]; [exact Hi|].
    apply Hk, (H n id). by eapply lookup_weaken.
  - apply (names_known_mono r); [by rewrite revoke_alter|exact Hk|exact H].
  - apply (names_known_mono r); [by rewrite metadata_alter|exact Hk|exact H].
  - apply (names_known_mono r); [reflexivity|exact Hk|exact H].
Qed.

(** The operations that do not register the token. *)
Definition keeps_revoked (id : string) (op : RegOp) : Prop :=
  match op with OpRegister t _ => tok_id t ≠ id | _ => True end.

Lemma status_alter (f : Token → Token) (m : gmap string Token) i id t :
  (∀ t, tok_status t = Revoked → tok_status (f t) = Revoked) →
  (∀ t, m !! id = Some t → tok_status t = Revoked) → alter f i m !! id = Some t → tok_status t = Revoked.
Proof.
  intros Hf Hm. rewrite lookup_alter. case_decide; [|by apply Hm]. subst.
  intros (t0 & Ht & ->)%fmap_Some. by apply Hf, Hm.
Qed.

Lemma with_new_metadata_revoked md t : tok_status t = Revoked → tok_status (Reg.with_new_metadata md t) = Revoked.
Proof. intros H. unfold Reg.with_new_metadata. by rewrite bool_decide_eq_true_2. Qed.

Lemma revoked_alter f g id i r : (∀ t, tok_status t = Revoked → tok_status (f t) = Revoked) →
  (∀ t, tok_status t = Revoked → tok_status (g t) = Revoked) → revoked_in id r →
  revoked_in id (mkTokenRegistry (alter f i (tr_token_store r)) (tr_name_registry r)
    (TM.set_store (alter g i (tm_token_store (tr_manager r))) (tr_manager r))).
Proof.
  intros Hf Hg [Hm (t & Ht & Hs)]. split; cbn.
  - intros t'. by apply status_alter.
  - assert (is_Some (alter f i (tr_token_store r) !! id)) as [t' Ht'] by (apply is_Some_alter; by exists t).
    exists t'. split; [done|]. eapply (status_alter f (tr_token_store r)); [exact Hf| |exact Ht']. congruence.
Qed.

Lemma revoked_step id r op : keeps_revoked id op → revoked_in id r → revoked_in id (reg_apply r op).
Proof.
  intros Hk H. destruct op as [t name|i name|i|i md|]; cbn [keeps_revoked] in Hk.
  - destruct H as [Hm (t' & Ht' & Hs)]. split; [by destruct name|]. exists t'. split; [|done].
    assert (tr_token_store (reg_apply r (OpRegister t name)) = <[tok_id t := t]> (tr_token_store r)) as -> by (by destruct name).
    by rewrite lookup_insert_ne.
  - destruct (rename_cases i name r) as [->|(_ & n & _ & ->)]; done.
  - rewrite revoke_alter. by apply revoked_alter.
  - rewrite metadata_alter. apply revoked_alter; [apply with_new_metadata_revoked|done|done].
  - destruct H as [Hm (t & Ht & Hs)]. split; [done|]. rewrite refresh_spec, Ht.
    destruct (tm_token_store (tr_manager r) !! id) as [t'|] eqn:E; [|by exists t]. exists t'. split; [done|by apply Hm].
Qed.

Lemma revoked_invalid id r : revoked_in id r → Reg.verify_token r id = Ok false.
Proof.
  intros [Hm (t & Ht & Hs)]. unfold Reg.verify_token. rewrite get_token_spec, Ht.
  assert (∀ t, tok_status t = Revoked → Tok.is_valid t = false) as Hv
    by (intros t0 H0; unfold Tok.is_valid; rewrite H0; by apply bool_decide_eq_false_2).
  destruct (tm_token_store (tr_manager r) !! id) as [t'|] eqn:E; cbn [ok_or]; rewrite Hv; auto.
Qed.

Lemma revoke_ok id r : (reg_run (OpRevoke id) r).1 = Ok tt → is_Some (tr_token_store r !! id).
Proof.
  destruct r as [st nm [ms mc mh mp mr]].
  unfold reg_run, Reg.revoke_token, Reg.in_manager, TM.revoke_token, mbind_st, mget, mmod, mfail. cbn.
  destruct (ms !! id); cbn; destruct (st !! id); try done; by eexists.
Qed.

Lemma known_run ops : ∀ r id, known r id → known (fold_left reg_apply ops r) id.
Proof. induction ops as [|op ops IH]; intros r id H; [exact H|]. cbn [fold_left]. by apply IH, known_step. Qed.
Lemma names_known_run ops : ∀ r, names_known r → names_known (fold_left reg_apply ops r).
Proof. induction ops as [|op ops IH]; intros r H; [exact H|]. cbn [fold_left]. by apply IH, names_known_step. Qed.
Lemma revoked_run id ops : Forall (keeps_revoked id) ops → ∀ r, revoked_in id r → revoked_in id (fold_left reg_apply ops r).
Proof.
  induction 1 as [|op ops Hop Hops IH]; intros r H; [exact H|]. cbn [fold_left]. by apply IH, revoked_step.
Qed.

(** ** Properties of the registry *)

(** Names never dangle and tokens never disappear: after any sequence of
    calls, failed ones included, every friendly name leads to a token, and what
    is known stays known. *)
Theorem registry_invariant (m : TokenStateManager) (ops more : list RegOp) :
  let r := fold_left reg_apply ops (Reg.new m) in
  (∀ name, is_Some (tr_name_registry r !! name) → ∃ t, Reg.get_token_by_name r name = Ok t) ∧
  (∀ id t, Reg.get_token r id = Ok t → ∃ t', Reg.get_token (fold_left reg_apply more r) id = Ok t').
Proof.
  cbv zeta. set (r := fold_left reg_apply ops (Reg.new m)).
  assert (names_known r) as Hn.
  { unfold r. apply names_known_run, map_Forall_empty. }
  split.
  - intros name [id Hid]. unfold Reg.get_token_by_name. rewrite Hid. apply get_token_ok, (Hn name id Hid).
  - intros id t Ht. apply get_token_ok. assert (known r id) as H by (apply get_token_ok; by exists t).
    by apply known_run.
Qed.

(** Revocation is permanent up to registration: once a revocation has
    succeeded the token is invalid after any sequence of calls that does not
    register a token of that id; but whoever registers an active token of the id
    makes it valid again, when the state manager does not hold it. *)
Theorem revocation_permanent (r : TokenRegistry) (id : string) (ops : list RegOp) :
  (Reg.revoke_token id r).1 = Ok tt → Forall (keeps_revoked id) ops →
  let r' := fold_left reg_apply ops (Reg.revoke_token id r).2 in
  Reg.verify_token r' id = Ok false ∧
  (∀ t name, tok_id t = id → tok_status t = Active → tm_token_store (tr_manager r') !! id = None →
     Reg.verify_token (Reg.register_token t name r').2 id = Ok true).
Proof.
  intros Hok Hops. cbv zeta. set (r' := fold_left reg_apply ops _).
  assert (revoked_in id r') as Hr.
  { apply revoked_run; [done|]. change (Reg.revoke_token id r).2 with (reg_apply r (OpRevoke id)). rewrite revoke_alter.
    destruct (revoke_ok id r Hok) as [t Ht]. split; cbn.
    - intros t0. rewrite lookup_alter_eq. by intros (? & _ & ->)%fmap_Some.
    - exists (Tok.set_status Revoked t). split; [|done]. by rewrite lookup_alter_eq, Ht. }
  split; [by apply revoked_invalid|]. intros t name Hid Hs Hm. unfold Reg.verify_token. rewrite get_token_spec.
  assert (tr_manager (Reg.register_token t name r').2 = tr_manager r') as -> by (by destruct name).
  assert (tr_token_store (Reg.register_token t name r').2 = <[tok_id t := t]> (tr_token_store r')) as -> by (by destruct name).
  rewrite Hm, Hid, lookup_insert_eq. cbn [ok_or]. unfold Tok.is_valid. by rewrite bool_decide_eq_true_2.
Qed.

Lemma sort_by_id_perm l : Reg.sort_by_id l ≡ₚ l.
Proof.
  unfold Reg.sort_by_id, sort_by_key. rewrite (merge_sort_Permutation key_le). rewrite map_map. cbn. by rewrite map_id.
Qed.
Lemma sort_by_id_sorted l : StronglySorted (fun a b => String.le (tok_id a) (tok_id b)) (Reg.sort_by_id l).
Proof.
  unfold Reg.sort_by_id, sort_by_key.
  assert (Forall (fun p => p.1 = tok_id p.2) (merge_sort key_le (map (fun t => (tok_id t, t)) l))) as Hk.
  { rewrite (merge_sort_Permutation key_le). by apply Forall_map, Forall_true. }
  pose proof (StronglySorted_merge_sort key_le (map (fun t => (tok_id t, t)) l)) as Hs.
  induction Hs as [|p q Hq IH Hp]; cbn [map]; [constructor|]. apply Forall_cons in Hk as [Hk Hkq].
  constructor; [by apply IH|]. apply Forall_map. rewrite Forall_forall in *. intros p' Hin.
  specialize (Hp p' Hin). unfold key_le in Hp. by rewrite Hk, (Hkq p' Hin) in Hp.
Qed.

Lemma elem_of_matching r owner status t :
  t ∈ filter (fun t => Reg.matches owner status t = true) (map snd (dash_iter (tr_token_store r))) ↔
  Reg.matches owner status t = true ∧ ∃ k, tr_token_store r !! k = Some t.
Proof.
  rewrite list_elem_of_filter, list_elem_of_fmap. f_equiv. split.
  - intros ([k t'] & -> & Hin). rewrite dash_iter_perm in Hin. apply elem_of_map_to_list in Hin. by exists k.
  - intros [k Hk]. exists (k, t). split; [done|]. rewrite dash_iter_perm. by apply elem_of_map_to_list.
Qed.

(** The search returns tokens of the registry that match, in the order of
    their ids, at most as many as asked; a matching token is missing only when
    the limit is reached and every returned id comes before its own, whatever the
    iteration order of the store. *)
Theorem find_tokens_exact (r : TokenRegistry) (owner : option string) (status : option TokenStatus) (limit : nat) :
  ∃ l, Reg.find_tokens r owner status limit = Ok l ∧ (length l ≤ limit)%nat ∧
    StronglySorted (fun a b => String.le (tok_id a) (tok_id b)) l ∧
    (∀ t, t ∈ l → Reg.matches owner status t = true ∧ ∃ k, tr_token_store r !! k = Some t) ∧
    (∀ k t, tr_token_store r !! k = Some t → Reg.matches owner status t = true →
       t ∈ l ∨ (length l = limit ∧ Forall (fun x => String.le (tok_id x) (tok_id t)) l)).
Proof.
  unfold Reg.find_tokens. set (f := filter _ _). pose proof (sort_by_id_sorted f) as Hs. pose proof (sort_by_id_perm f) as Hp.
  set (srt := Reg.sort_by_id f) in *.
  assert (∀ t, t ∈ srt ↔ Reg.matches owner status t = true ∧ ∃ k, tr_token_store r !! k = Some t) as Hin
    by (intros t; rewrite Hp; apply elem_of_matching).
  assert ((if (limit <? length srt)%nat then take limit srt else srt) = take limit srt) as ->.
  { destruct (Nat.ltb_spec limit (length srt)); [done|]. by rewrite take_ge. }
  exists (take limit srt). split_and!; [done|rewrite length_take; lia| | |].
  - rewrite <- (take_drop limit srt) in Hs. by eapply StronglySorted_app_1_l.
  - intros t Ht. apply Hin. rewrite <- (take_drop limit srt). set_solver.
  - intros k t Hk Hm. assert (t ∈ srt) as Ht by (apply Hin; eauto).
    rewrite <- (take_drop limit srt) in Ht. apply elem_of_app in Ht as [Ht|Hd]; [by left|right]. split.
    + rewrite length_take. assert (0 < length (drop limit srt))%nat as Hl by (destruct (drop limit srt); [set_solver|cbn; lia]).
      rewrite length_drop in Hl. lia.
    + apply Forall_forall. intros x Hx.
      exact (sorted_take_drop (fun a b => String.le (tok_id a) (tok_id b)) limit srt x t Hs Hx Hd).
Qed.

(** A change of metadata rebuilds the token: it loses its policy anchor and,
    unless it was revoked, becomes active again, a locked or expired one included;
    and its id is no longer the key it is stored under, when it was made from data
    that is not itself a digest, unless the data and the hash of the token collide. *)
Theorem metadata_update_resets (r : TokenRegistry) (id : string) (metadata : bytes) (t : Token) :
  tr_token_store r !! id = Some t →
  ∃ t', tr_token_store (Reg.update_token_metadata id metadata r).2 !! id = Some t' ∧
    tok_policy_anchor t' = None ∧ tok_metadata t' = metadata ∧ tok_balance t' = tok_balance t ∧
    tok_status t' = (if bool_decide (tok_status t = Revoked) then Revoked else Active) ∧
    (∀ owner data md b, t = Tok.new owner data md b → length data ≠ 32%nat → tok_id t' = tok_id t →
       collision blake3 [tok_token_hash t; data]).
Proof.
  intros Ht. change (Reg.update_token_metadata id metadata r).2 with (reg_apply r (OpMetadata id metadata)).
  rewrite metadata_alter. cbn [tr_token_store]. rewrite lookup_alter_eq, Ht. cbn [fmap option_fmap option_map].
  eexists. split; [reflexivity|]. unfold Reg.with_new_metadata. case_bool_decide; cbn; split_and!; try done.
  all: intros owner data md b -> Hl He; cbn in He.
  all: apply (inj (String.append owner)), (inj (String.append "-")), hex_encode_inj in He.
  all: apply hash_bind in He as [E|?]; [exfalso; apply Hl; rewrite <- E; apply blake3_length|done].
Qed.

End RegistryInvariants.

(** ** The factory *)

(** Blocks of one length are determined by their concatenation. *)
Lemma blocks_length n (l : list bytes) : Forall (fun b => length b = n) l → length (mjoin l) = (n * length l)%nat.
Proof.
  induction 1 as [|b l Hb Hl IH]; [cbn; lia|].
  change (mjoin (b :: l)) with (b ++ mjoin l). rewrite length_app, Hb, IH. cbn [length]. lia.
Qed.
Lemma blocks_inj n (l l' : list bytes) : length l = length l' → Forall (fun b => length b = n) l → Forall (fun b => length b = n) l' →
  mjoin l = mjoin l' → l = l'.
Proof.
  intros Hlen H. revert l' Hlen. induction H as [|b l Hb Hl IH]; intros [|b' l'] Hlen H' He; try done.
  apply Forall_cons in H' as [Hb' Hl']. change (b ++ mjoin l = b' ++ mjoin l') in He. apply app_inj_1 in He as [-> He]; [|congruence].
  f_equal. apply IH; [by injection Hlen|done|done].
Qed.

Section FactoryFacts.
Context {B3 : Blake3} {S3 : Sha3} {PT : PrimeTest} {K : Mlkem kem768} {RT : Runtime}.
Context (to_vec : PolicyFile → option bytes) (fuel : nat).

Lemma partial_commit_length params data d c : Factory.partial_commit fuel params data d = Ok c → length c = 32%nat.
Proof.
  unfold Factory.partial_commit. destruct (Ped.commit _ _ _ _) as [[x r]| | |]; cbn [mbind outcome_bind]; try done.
  intros [= <-]. apply blake3_length.
Qed.

Lemma gather_blocks params others k : ∀ i l, Factory.gather fuel params others k i = Ok l →
  length l = k ∧ Forall (fun b : bytes => length b = 32%nat) l.
Proof.
  induction k as [|k IH]; intros i l; cbn [Factory.gather]; [intros [= <-]; by repeat constructor|].
  destruct (Factory.partial_commit _ _ _ _) as [c| | |] eqn:Ec; cbn [mbind outcome_bind]; try done.
  destruct (Factory.gather _ _ _ _ _) as [rest| | |] eqn:Er; cbn [mbind outcome_bind]; try done.
  intros [= <-]. destruct (IH _ _ Er) as [Hl Hf]. cbn [length]. split; [by rewrite Hl|]. constructor; [|done].
  by eapply partial_commit_length.
Qed.

Lemma selected_blocks d t n data sel : (0 < t ≤ n)%nat → Factory.selected_commits fuel d t n data = Ok sel →
  length sel = t ∧ Forall (fun b : bytes => length b = 32%nat) sel.
Proof.
  intros Ht. unfold Factory.selected_commits. destruct (Ped.params_new _ _ _) as [params| | |]; cbn [mbind outcome_bind]; try done.
  destruct (Factory.partial_commit _ _ _ _) as [own| | |] eqn:Eo; cbn [mbind outcome_bind]; try done.
  destruct (Factory.gather _ _ _ _ _) as [others| | |] eqn:Eg; cbn [mbind outcome_bind]; try done.
  intros [= <-]. destruct (gather_blocks _ _ _ _ _ Eg) as [Hl Hf]. split.
  - rewrite length_take. cbn [length]. lia.
  - apply Forall_take. constructor; [by eapply partial_commit_length|done].
Qed.

Lemma keys_ok d s : length (gd_sphincs d) = 96%nat →
  ∃ spk ssk s', keypair spk ssk ∧ Factory.keys d s = (Ok ((spk, ssk), kem_keypair (gd_kyber d)), s').
Proof.
  intros Hl. destruct (generate_keypair (gd_sphincs d) Hl) as (pk & sk & E & Hk).
  unfold Factory.keys, mbind_st at 1, mlift at 1. rewrite E.
  unfold Kyber.generate_kyber_keypair, mbind_st, mget, mret_st, mlift. destruct (ky_initialized s) eqn:Ei.
  - rewrite checked_keypair_ok. by eexists pk, sk, _.
  - unfold Kyber.init_kyber. rewrite Ei, verify_kyber_ok, checked_keypair_ok. by eexists pk, sk, _.
Qed.

Lemma create_inv d t ps data policy s g s' : Factory.create_token_genesis to_vec fuel d t ps data policy s = (Ok g, s') →
  (0 < t ≤ size (list_to_set ps : gset string))%nat ∧
  ∃ sel, Factory.selected_commits fuel d t (size (list_to_set ps : gset string)) data = Ok sel ∧
    tg_token_hash g = sha3_512 (data ++ mjoin sel) ∧ map tc_data (tg_contributions g) = sel.
Proof.
  unfold Factory.create_token_genesis. set (n := size (list_to_set ps)).
  destruct (Nat.eqb_spec t 0) as [->|H0]; [done|]. destruct (Nat.ltb_spec n t) as [Hn|Hn]; [done|]. cbn [orb].
  unfold mbind_st at 1, mlift at 1. destruct (Factory.selected_commits _ _ _ _ _) as [sel| | |] eqn:E; try done.
  unfold mbind_st at 1. destruct (Factory.keys d s) as [[[[spk ssk] ky]| | |] s1]; try done.
  unfold mbind_st, mlift, mret_st. destruct (Factory.policy_anchor _ _ _) as [a| | |]; try done.
  intros [= <- <-]. split; [lia|]. exists sel. split; [done|]. split; [done|]. cbn. rewrite map_map. apply map_id.
Qed.

(** The creation of a token's genesis: an invalid threshold is refused and
    changes nothing; otherwise, whenever the commitments can be made and the policy
    be encoded, the creation succeeds, with exactly the threshold of verified
    32-byte contributions, the hash and the entropy computed from them, a usable
    signature key pair and the policy's anchor, which every token made from the
    genesis carries and a sub-token inherits. *)
Theorem token_genesis_exact (d d' : GenesisDraws) (t : nat) (ps : list string) (data sub : bytes) (policy : option PolicyFile)
    (sub_id owner : string) (metadata : bytes) (b : Balance) (s : KyberState) (sel : list bytes) (anchor : option bytes) :
  let n := size (list_to_set ps : gset string) in
  length (gd_sphincs d) = 96%nat → length (gd_sphincs d') = 96%nat →
  Factory.selected_commits fuel d t n data = Ok sel → Factory.policy_anchor to_vec policy None = Ok anchor →
  if (t =? 0)%nat || (n <? t)%nat then
    Factory.create_token_genesis to_vec fuel d t ps data policy s = (Err (EValidation "Invalid threshold {} for {} participants"), s)
  else
    ∃ g g' s' s'', Factory.create_token_genesis to_vec fuel d t ps data policy s = (Ok g, s') ∧
      tg_contributions g = map (fun c => mkTokenContribution c true) sel ∧ length sel = t ∧
      tg_token_hash g = sha3_512 (data ++ mjoin sel) ∧ tg_token_entropy g = sha3_512 (tg_token_hash g ++ mjoin sel) ∧
      keypair (tg_signing_key_sphincs g) (tg_signing_key g) ∧ tg_policy_anchor g = anchor ∧
      tok_policy_anchor (Factory.create_token_from_genesis g owner metadata b) = anchor ∧
      Factory.derive_sub_token_genesis to_vec d' g sub_id sub None s' = (Ok g', s'') ∧
      tg_token_hash g' = blake3 (tg_token_hash g ++ str_bytes sub_id ++ sub) ∧ tg_policy_anchor g' = anchor.
Proof.
  intros n Hd Hd' Hs Ha. unfold Factory.create_token_genesis. fold n.
  destruct ((t =? 0)%nat || (n <? t)%nat) eqn:Ht; [done|].
  apply orb_false_iff in Ht as [H0%Nat.eqb_neq Hn%Nat.ltb_ge]. rewrite Hs. unfold mbind_st at 1 2, mlift at 1.
  destruct (keys_ok d s Hd) as (spk & ssk & s' & Hk & ->). unfold mbind_st, mlift, mret_st. rewrite Ha.
  destruct (keys_ok d' s' Hd') as (spk' & ssk' & s'' & Hk' & Hd2).
  eexists _, _, s', s''. split; [reflexivity|]. cbn [tg_contributions tg_token_hash tg_token_entropy tg_signing_key_sphincs tg_signing_key tg_policy_anchor].
  split; [done|]. split; [apply (selected_blocks d t n data sel); [lia|done]|].
  split_and!; try done; [by unfold Factory.create_token_from_genesis; cbn [tg_policy_anchor]; destruct anchor| |..].
  1: { unfold Factory.derive_sub_token_genesis, mbind_st, mlift, mret_st. rewrite Hd2. cbn [Factory.policy_anchor tg_policy_anchor]. reflexivity. }
  all: done.
Qed.

(** A token's hash binds its data and contributions: two geneses of the same
    threshold with the same hash were made from the same token data and the same
    contributions, or from two different inputs with one SHA-3 digest. *)
Theorem token_genesis_binding (d1 d2 : GenesisDraws) (t : nat) (ps1 ps2 : list string) (data1 data2 : bytes)
    (pol1 pol2 : option PolicyFile) (s1 s1' s2 s2' : KyberState) (g1 g2 : TokenGenesis) :
  Factory.create_token_genesis to_vec fuel d1 t ps1 data1 pol1 s1 = (Ok g1, s1') →
  Factory.create_token_genesis to_vec fuel d2 t ps2 data2 pol2 s2 = (Ok g2, s2') →
  tg_token_hash g1 = tg_token_hash g2 →
  (data1 = data2 ∧ map tc_data (tg_contributions g1) = map tc_data (tg_contributions g2)) ∨
  collision sha3_512 [data1 ++ mjoin (map tc_data (tg_contributions g1)); data2 ++ mjoin (map tc_data (tg_contributions g2))].
Proof.
  intros (Ht1 & sel1 & E1 & H1 & C1)%create_inv (Ht2 & sel2 & E2 & H2 & C2)%create_inv He.
  apply selected_blocks in E1 as [L1 F1]; [|done]. apply selected_blocks in E2 as [L2 F2]; [|done].
  rewrite H1, H2 in He. rewrite C1, C2.
  apply hash_bind in He as [Hd|?]; [left|by right].
  apply app_inj_2 in Hd as [-> Hd]; [|by rewrite (blocks_length 32 sel1), (blocks_length 32 sel2), L1, L2].
  split; [done|]. apply (blocks_inj 32); [congruence|done..].
Qed.

End FactoryFacts.

(** ** Witnesses *)

Module TokenRegWitness.
#[local] Existing Instances Toy.toy_blake3 Toy.toy_runtime ToyPed.toy_prime.
#[local] Instance toy_order : DashOrder := {| dash_iter A := map_to_list; dash_iter_perm A m := reflexivity _ |}.

Definition coin : Token := Tok.new "alice" (str_bytes "gold") [] (Bal.new 5).
Definition registry : TokenRegistry := (Reg.register_token coin (Some "gold"%string) (Reg.new (TM.new true))).2.

Lemma revocation_permanent_witness :
  Reg.verify_token (fold_left reg_apply [OpRefresh; OpMetadata (tok_id coin) []] (Reg.revoke_token (tok_id coin) registry).2) (tok_id coin) = Ok false.
Proof.
  assert ((Reg.revoke_token (tok_id coin) registry).1 = Ok tt) as H by (vm_compute; reflexivity).
  assert (Forall (keeps_revoked (tok_id coin)) [OpRefresh; OpMetadata (tok_id coin) []]) as Hf
    by (constructor; [exact I|constructor; [exact I|constructor]]).
  exact (proj1 (revocation_permanent registry (tok_id coin) [OpRefresh; OpMetadata (tok_id coin) []] H Hf)).
Defined.

Lemma metadata_update_resets_witness :
  ∃ t', tr_token_store (Reg.update_token_metadata (tok_id coin) [] registry).2 !! tok_id coin = Some t' ∧ tok_policy_anchor t' = None.
Proof.
  destruct (metadata_update_resets registry (tok_id coin) [] coin) as (t' & H1 & H2 & _); [vm_compute; reflexivity|].
  exists t'. split; [exact H1|exact H2].
Defined.

(** A constant digest keeps the exponents small. *)
Lemma zeros_length_any n (m : bytes) : length (zeros n) = n.
Proof. apply length_replicate. Qed.
#[local] Instance constant_sha3 : Sha3 :=
  {| sha3_512 _ := zeros 64; shake256 n _ := zeros n; sha3_512_length := zeros_length_any 64; shake256_length := zeros_length_any |}.
#[local] Existing Instance ToyKem.toy_kem768.

Definition draws : GenesisDraws :=
  mkGenesisDraws ToyPed.draws ToyPed.draws (fun _ => (zeros 32, ToyPed.draws)) (zeros 96) [] ([], [], []) (0, 0).
Definition commits : list bytes :=
  match Factory.selected_commits 4 draws 2 2 (str_bytes "gold") with Ok l => l | _ => [] end.

Lemma token_genesis_exact_witness :
  ∃ g s', Factory.create_token_genesis (fun _ => None) 4 draws 2 ["a"; "b"]%string (str_bytes "gold") None (mkKyberState false 0) = (Ok g, s') ∧
    length (tg_contributions g) = 2%nat.
Proof.
  destruct (token_genesis_exact (fun _ => None) 4 draws draws 2 ["a"; "b"]%string (str_bytes "gold") [] None "sub" "alice" [] (Bal.new 5)
    (mkKyberState false 0) commits None eq_refl eq_refl) as (g & _ & s' & _ & H & Hc & Hl & _).
  - vm_compute. reflexivity.
  - reflexivity.
  - exists g, s'. split; [exact H|]. rewrite Hc, length_map. exact Hl.
Defined.

Definition created : TokenGenesis * KyberState :=
  match Factory.create_token_genesis (fun _ => None) 4 draws 2 ["a"; "b"]%string (str_bytes "gold") None (mkKyberState false 0) with
  | (Ok g, s) => (g, s)
  | (_, s) => (mkTokenGenesis [] [] 0 ∅ [] ([], []) None [] [], s)
  end.

Lemma token_genesis_binding_witness :
  (str_bytes "gold" = str_bytes "gold" ∧ map tc_data (tg_contributions created.1) = map tc_data (tg_contributions created.1)) ∨
  collision sha3_512 [str_bytes "gold" ++ mjoin (map tc_data (tg_contributions created.1));
    str_bytes "gold" ++ mjoin (map tc_data (tg_contributions created.1))].
Proof.
  apply (token_genesis_binding (fun _ => None) 4 draws draws 2 ["a"; "b"]%string ["a"; "b"]%string (str_bytes "gold") (str_bytes "gold") None None
    (mkKyberState false 0) created.2 (mkKyberState false 0) created.2 created.1 created.1).
  - vm_compute. reflexivity.
  - vm_compute. reflexivity.
  - reflexivity.
Defined.
End TokenRegWitness.
