(* ===== verification/PolicyStore.v ===== *)
(** * The policy store and the default policies
      (dsm/src/cpta/policy_store.rs, default_policy.rs)

    [PStore] is the store: files on disk under their anchors, and a cache with a
    time to live and an access order.  The disk is part of the state; each call
    carries what the file system refuses, the instant it reads and the iteration
    order ([σ]) of the hash maps it encodes.  [Defaults] generates policy files. *)
From S2P Require Import Prelude Tokens Operations Batch Policy Keys Hexa NodeTypes.
From Stdlib Require Import Ascii.

(** ** External: serde_json on policy files *)

(** An operation without hash maps, and a policy file whose maps have at most
    one entry: its encoding does not depend on any iteration order. *)
Definition op_plain (op : Operation) : bool :=
  match op with
  | Transfer _ _ _ _ _ _ None _ _ _ | Mint _ _ _ _ _ | Burn _ _ _ _ | LockToken _ _ _ _ | UnlockToken _ _ _ _ => true
  | _ => false
  end.
Definition condition_plain (c : PolicyCondition) : bool :=
  match c with
  | OperationRestriction ops => forallb op_plain ops
  | CustomCondition _ ps | VaultEnforcement (VCustom ps) => (size ps <=? 1)%nat
  | _ => true
  end.
Definition file_plain (f : PolicyFile) : bool :=
  forallb condition_plain (pf_conditions f) && forallb (fun r => forallb op_plain (role_permissions r)) (pf_roles f) &&
  (size (pf_metadata f) <=? 1)%nat.

Class PolicyJson (σ : Type) := {
  json_to_vec : σ → PolicyFile → option bytes;
  json_to_string_pretty : σ → PolicyFile → option bytes;
  json_from_slice : bytes → option PolicyFile;
  pretty_utf8 : ∀ o f b, json_to_string_pretty o f = Some b → utf8_valid b = true;
  pretty_round_trip : ∀ o f b, json_to_string_pretty o f = Some b → json_from_slice b = Some f;
  plain_order_free : ∀ o o' f, file_plain f = true → json_to_vec o f = json_to_vec o' f;
}.

(** ** Data *)

Record CacheEntry := mkCacheEntry { ce_policy : TokenPolicy; ce_added : Z; ce_last_access : Z }.

(** [ps_files] are the files of [base_dir]. *)
Record PolicyStore := mkPolicyStore {
  ps_cache : gmap bytes CacheEntry;
  ps_access_order : list bytes;
  ps_max_cache_size : nat;
  ps_cache_ttl : Z;
  ps_files : gmap string bytes;
}.

(** What the file system refuses during a call; a write that fails leaves the
    bytes written so far. *)
Record DiskFaults := mkFaults {
  create_fails : bool;
  write_stops : option nat;
  read_fails : bool;
  readdir_fails : bool;
  entry_fails : nat → bool;
  remove_fails : bool;
}.
Definition no_faults : DiskFaults := mkFaults false None false false (fun _ => false) false.

Module PStore.
Section PStore.
Context {B3 : Blake3} {RT : Runtime} {HX : Hex} {DO : DashOrder} {σ : Type} {PJ : PolicyJson σ}.

Definition with_cache_settings (max_cache_size : nat) (cache_ttl : Z) (files : gmap string bytes) : PolicyStore :=
  mkPolicyStore ∅ [] max_cache_size cache_ttl files.
Definition new (files : gmap string bytes) : PolicyStore := with_cache_settings (Z.to_nat 1000) 3600 files.

Definition set_cache (c : gmap bytes CacheEntry) (o : list bytes) (s : PolicyStore) : PolicyStore :=
  mkPolicyStore c o (ps_max_cache_size s) (ps_cache_ttl s) (ps_files s).
Definition set_files (f : gmap string bytes) (s : PolicyStore) : PolicyStore :=
  mkPolicyStore (ps_cache s) (ps_access_order s) (ps_max_cache_size s) (ps_cache_ttl s) f.

Definition to_hex (anchor : bytes) : string := hex_encode anchor.
Definition from_hex (s : string) : outcome bytes :=
  b ← ok_or (EValidation "Invalid policy anchor hex: {}") (hex_decode s);
  if negb (length b =? 32)%nat then Err (EValidation "Invalid policy anchor length: {}") else Ok b.

Definition get_policy_path (anchor : bytes) : string := to_hex anchor +:+ ".json".

(** [if let Some(pos) = order.iter().position(|a| a == anchor) { order.remove(pos); }] *)
Fixpoint forget (anchor : bytes) (order : list bytes) : list bytes :=
  match order with
  | [] => []
  | a :: order => if bool_decide (a = anchor) then order else a :: forget anchor order
  end.

(** [File::create] and [write_all] *)
Definition write_file (io : DiskFaults) (path : string) (content : bytes) : M PolicyStore unit := fun s =>
  if create_fails io then (Err (EStorage "Failed to create policy file: {}"), s)
  else
    match write_stops io with
    | Some n => (Err (EStorage "Failed to write policy file: {}"), set_files (<[path := take n content]> (ps_files s)) s)
    | None => (Ok tt, set_files (<[path := content]> (ps_files s)) s)
    end.

Definition store_policy (inst : Z) (io : DiskFaults) (o : σ) (policy : PolicyFile) : M PolicyStore bytes :=
  let* anchor := mlift (Policy.generate_anchor (json_to_vec o) policy) in
  let* policy_json := mlift (ok_or (ESerialization "Failed to serialize policy: {}") (json_to_string_pretty o policy)) in
  do* write_file io (get_policy_path anchor) policy_json;
  let entry := mkCacheEntry (mkTokenPolicy policy anchor true now) inst inst in
  do* mmod (fun s => set_cache (<[anchor := entry]> (ps_cache s)) (ps_access_order s) s);
  mret_st anchor.

Definition expired (inst : Z) (s : PolicyStore) (e : CacheEntry) : bool := ps_cache_ttl s <? Z.max 0 (inst - ce_added e).

(** Also the block at the head of [get_policy]. *)
Definition get_from_cache (inst : Z) (anchor : bytes) (s : PolicyStore) : option TokenPolicy * PolicyStore :=
  match ps_cache s !! anchor with
  | Some e =>
      if expired inst s e then
        (None, set_cache (delete anchor (ps_cache s)) (forget anchor (ps_access_order s)) s)
      else
        (Some (ce_policy e),
         set_cache (<[anchor := mkCacheEntry (ce_policy e) (ce_added e) inst]> (ps_cache s))
           (forget anchor (ps_access_order s) ++ [anchor]) s)
  | None => (None, s)
  end.

Definition add_to_cache (inst : Z) (anchor : bytes) (policy : TokenPolicy) (s : PolicyStore) : PolicyStore :=
  let '(cache, order) :=
    if (ps_max_cache_size s <=? size (ps_cache s))%nat && bool_decide (ps_cache s !! anchor = None) then
      match ps_access_order s with
      | lru :: order => (delete lru (ps_cache s), order)
      | [] => (ps_cache s, [])
      end
    else (ps_cache s, ps_access_order s) in
  set_cache (<[anchor := mkCacheEntry policy inst inst]> cache) (forget anchor order ++ [anchor]) s.

(** [fs::read_to_string] *)
Definition read_file (io : DiskFaults) (s : PolicyStore) (path : string) : outcome bytes :=
  match ps_files s !! path with
  | None => Err (ENotFound "Policy" (Some "Policy with anchor {} not found"%string))
  | Some content =>
      if read_fails io || negb (utf8_valid content) then Err (EStorage "Failed to read policy file: {}") else Ok content
  end.

Definition load (io : DiskFaults) (o : σ) (anchor : bytes) (s : PolicyStore) : outcome TokenPolicy :=
  policy_json ← read_file io s (get_policy_path anchor);
  policy_file ← ok_or (ESerialization "Failed to deserialize policy: {}") (json_from_slice policy_json);
  calculated ← Policy.generate_anchor (json_to_vec o) policy_file;
  if negb (bool_decide (calculated = anchor)) then Err (EValidation "Policy anchor mismatch: expected {}, got {}")
  else Ok (mkTokenPolicy policy_file anchor true now).

Definition get_policy (inst : Z) (io : DiskFaults) (o : σ) (anchor : bytes) : M PolicyStore TokenPolicy := fun s =>
  match get_from_cache inst anchor s with
  | (Some policy, s) => (Ok policy, s)
  | (None, s) =>
      match load io o anchor s with
      | Ok policy => (Ok policy, add_to_cache inst anchor policy s)
      | e => (e, s)
      end
  end.

(** [o] is the order of the supplied file, [o'] of the one read back. *)
Definition verify_and_get_policy (inst : Z) (io : DiskFaults) (o o' : σ) (anchor : bytes) (policy_data : option bytes)
    : M PolicyStore TokenPolicy :=
  do* match policy_data with
      | Some data =>
          do* mlift (Policy.verify_policy_anchor anchor);
          let* policy_file := mlift (ok_or (ESerialization "Failed to deserialize policy data: {}") (json_from_slice data)) in
          do* store_policy inst io o policy_file;
          mret_st tt
      | None => mret_st tt
      end;
  get_policy inst io o' anchor.

(** [Path::extension] and [Path::file_stem] of a file name. *)
Fixpoint last_dot (s : string) : option (string * string) :=
  match s with
  | EmptyString => None
  | String c s =>
      match last_dot s with
      | Some (a, b) => Some (String c a, b)
      | None => if bool_decide (c = "."%char) then Some (EmptyString, s) else None
      end
  end.
Definition split_name (name : string) : string * option string :=
  match last_dot name with
  | Some (EmptyString, _) | None => (name, None)
  | Some (stem, ext) => (stem, Some ext)
  end.

Fixpoint list_names (io : DiskFaults) (i : nat) (names : list string) : outcome (list bytes) :=
  match names with
  | [] => Ok []
  | name :: names =>
      if entry_fails io i then Err (EStorage "Failed to read directory entry: {}")
      else
        anchors ← list_names io (S i) names;
        Ok (match split_name name with
            | (stem, Some ext) =>
                if bool_decide (ext = "json"%string) then match from_hex stem with Ok a => a :: anchors | _ => anchors end
                else anchors
            | _ => anchors
            end)
  end.
Definition list_policy_anchors (io : DiskFaults) (s : PolicyStore) : outcome (list bytes) :=
  if readdir_fails io then Err (EStorage "Failed to read policies directory: {}")
  else list_names io 0 (map fst (dash_iter (ps_files s))).

Definition delete_policy (io : DiskFaults) (anchor : bytes) : M PolicyStore unit := fun s =>
  let s := set_cache (delete anchor (ps_cache s)) (forget anchor (ps_access_order s)) s in
  match ps_files s !! get_policy_path anchor with
  | Some _ =>
      if remove_fails io then (Err (EStorage "Failed to delete policy file: {}"), s)
      else (Ok tt, set_files (delete (get_policy_path anchor) (ps_files s)) s)
  | None => (Ok tt, s)
  end.

Definition clear_cache (s : PolicyStore) : PolicyStore := set_cache ∅ [] s.

(** The expired anchors; the order in which they are removed does not matter. *)
Definition evict_expired (inst : Z) (s : PolicyStore) : PolicyStore :=
  let gone := map fst (map_to_list (filter (fun p => expired inst s p.2 = true) (ps_cache s))) in
  set_cache (filter (fun p => expired inst s p.2 = false) (ps_cache s))
    (foldl (fun order a => forget a order) (ps_access_order s) gone) s.

End PStore.
End PStore.

(** ** Histories *)

(** The calls of a store, and a change of the directory by someone else. *)
Inductive PolicyCmd {σ : Type} :=
  | CStore (inst : Z) (io : DiskFaults) (o : σ) (f : PolicyFile)
  | CGet (inst : Z) (io : DiskFaults) (o : σ) (anchor : bytes)
  | CVerifyGet (inst : Z) (io : DiskFaults) (o o' : σ) (anchor : bytes) (data : option bytes)
  | CFromCache (inst : Z) (anchor : bytes)
  | CDelete (io : DiskFaults) (anchor : bytes)
  | CClear
  | CEvict (inst : Z)
  | CTamper (files : gmap string bytes).
Arguments PolicyCmd : clear implicits.

Section StoreFacts.
Context {B3 : Blake3} {RT : Runtime} {HX : Hex} {DO : DashOrder} {σ : Type} {PJ : PolicyJson σ}.

Definition policy_apply (s : PolicyStore) (c : PolicyCmd σ) : PolicyStore :=
  match c with
  | CStore inst io o f => (PStore.store_policy inst io o f s).2
  | CGet inst io o a => (PStore.get_policy inst io o a s).2
  | CVerifyGet inst io o o' a d => (PStore.verify_and_get_policy inst io o o' a d s).2
  | CFromCache inst a => (PStore.get_from_cache inst a s).2
  | CDelete io a => (PStore.delete_policy io a s).2
  | CClear => PStore.clear_cache s
  | CEvict inst => PStore.evict_expired inst s
  | CTamper files => PStore.set_files files s
  end.

(** A policy that is what its anchor says. *)
Definition authentic (a : bytes) (p : TokenPolicy) : Prop :=
  tp_anchor p = a ∧ tp_verified p = true ∧ ∃ o x, json_to_vec o (tp_file p) = Some x ∧ blake3 x = a.
Definition addressed (s : PolicyStore) : Prop := map_Forall (fun a e => authentic a (ce_policy e)) (ps_cache s).

Lemma generate_anchor_ok o f a : Policy.generate_anchor (json_to_vec o) f = Ok a ↔ ∃ x, json_to_vec o f = Some x ∧ blake3 x = a.
Proof.
  unfold Policy.generate_anchor. destruct (json_to_vec o f) as [x|]; cbn [ok_or mbind outcome_bind]; [|naive_solver].
  split; [intros [= <-]; eauto|]. by intros (y & [= <-] & <-).
Qed.

Lemma write_file_cache io path b s : ps_cache (PStore.write_file io path b s).2 = ps_cache s ∧
  ps_access_order (PStore.write_file io path b s).2 = ps_access_order s ∧
  ps_max_cache_size (PStore.write_file io path b s).2 = ps_max_cache_size s.
Proof. unfold PStore.write_file. destruct (create_fails io); [done|]. by destruct (write_stops io). Qed.

(** What a store does to the cache. *)
Lemma policy_store_cases inst io o f s :
  (is_ok (PStore.store_policy inst io o f s).1 = false ∧
   ps_cache (PStore.store_policy inst io o f s).2 = ps_cache s ∧
   ps_access_order (PStore.store_policy inst io o f s).2 = ps_access_order s ∧
   ps_max_cache_size (PStore.store_policy inst io o f s).2 = ps_max_cache_size s) ∨
  ∃ a, Policy.generate_anchor (json_to_vec o) f = Ok a ∧ (PStore.store_policy inst io o f s).1 = Ok a ∧
   ps_cache (PStore.store_policy inst io o f s).2 = <[a := mkCacheEntry (mkTokenPolicy f a true now) inst inst]> (ps_cache s) ∧
   ps_access_order (PStore.store_policy inst io o f s).2 = ps_access_order s ∧
   ps_max_cache_size (PStore.store_policy inst io o f s).2 = ps_max_cache_size s.
Proof.
  unfold PStore.store_policy, mbind_st, mlift, mmod, mret_st.
  destruct (Policy.generate_anchor (json_to_vec o) f) as [a| | |] eqn:Ea; [|by left..].
  destruct (json_to_string_pretty o f) as [b|]; cbn [ok_or]; [|by left].
  destruct (write_file_cache io (PStore.get_policy_path a) b s) as (H1 & H2 & H3).
  destruct (PStore.write_file io (PStore.get_policy_path a) b s) as [[[]| | |] s'] eqn:E; cbn [fst snd] in *; [|by left..].
  right. exists a. cbn. by rewrite H1, H2, H3.
Qed.

Lemma authentic_lookup s a e : addressed s → ps_cache s !! a = Some e → authentic a (ce_policy e).
Proof. intros H He. exact (H a e He). Qed.

Lemma addressed_from_cache inst a s : addressed s → addressed (PStore.get_from_cache inst a s).2 ∧
  ∀ p, (PStore.get_from_cache inst a s).1 = Some p → authentic a p.
Proof.
  intros H. unfold PStore.get_from_cache. destruct (ps_cache s !! a) as [e|] eqn:E; [|by split].
  pose proof (authentic_lookup s a e H E) as He. case_match; cbn.
  - split; [by apply map_Forall_delete|done].
  - split; [|by intros p [= <-]]. apply map_Forall_insert_2; done.
Qed.

Lemma addressed_add inst a p s : authentic a p → addressed s → addressed (PStore.add_to_cache inst a p s).
Proof.
  intros Ha H. unfold PStore.add_to_cache, addressed.
  destruct (_ && _); [|cbn; by apply map_Forall_insert_2].
  destruct (ps_access_order s); cbn; apply map_Forall_insert_2; try done. by apply map_Forall_delete.
Qed.

Lemma load_authentic io o a s p : PStore.load io o a s = Ok p → authentic a p.
Proof.
  unfold PStore.load. destruct (PStore.read_file _ _ _) as [b| | |]; cbn [mbind outcome_bind]; try done.
  destruct (json_from_slice b) as [f|]; cbn [ok_or mbind outcome_bind]; [|done].
  destruct (Policy.generate_anchor _ f) as [c| | |] eqn:E; cbn [mbind outcome_bind]; try done.
  case_bool_decide; cbn [negb]; [subst c|done]. intros [= <-]. split_and!; [done|done|].
  apply generate_anchor_ok in E as (x & Hx & Hb). by exists o, x.
Qed.

Lemma get_policy_addressed inst io o a s : addressed s → addressed (PStore.get_policy inst io o a s).2 ∧
  ∀ p, (PStore.get_policy inst io o a s).1 = Ok p → authentic a p.
Proof.
  intros H. unfold PStore.get_policy. destruct (addressed_from_cache inst a s H) as [H1 H2].
  destruct (PStore.get_from_cache inst a s) as [[p|] s']; cbn [fst snd] in *.
  - split; [done|]. intros q [= <-]. by apply H2.
  - destruct (PStore.load io o a s') as [p| | |] eqn:E; try by split.
    apply load_authentic in E. split; [by apply addressed_add|]. by intros q [= <-].
Qed.

Lemma store_addressed inst io o f s : addressed s → addressed (PStore.store_policy inst io o f s).2.
Proof.
  intros H. destruct (policy_store_cases inst io o f s) as [(_ & E & _)|(a & Ha & _ & E & _)]; unfold addressed; rewrite E; [done|].
  apply map_Forall_insert_2; [|done]. split_and!; [done|done|].
  apply generate_anchor_ok in Ha as (x & Hx & Hb). by exists o, x.
Qed.

Lemma policy_apply_addressed s c : addressed s → addressed (policy_apply s c).
Proof.
  intros H. destruct c; cbn [policy_apply].
  - by apply store_addressed.
  - by apply get_policy_addressed.
  - unfold PStore.verify_and_get_policy, mbind_st, mlift, mret_st. destruct data as [d|]; [|by apply get_policy_addressed].
    destruct (Policy.verify_policy_anchor anchor); try done. destruct (json_from_slice d) as [f|]; cbn [ok_or]; [|done].
    pose proof (store_addressed inst io o f s H) as Hs.
    destruct (PStore.store_policy inst io o f s) as [[]]; cbn [snd] in *; try done. by apply get_policy_addressed.
  - by apply addressed_from_cache.
  - unfold PStore.delete_policy. assert (addressed (PStore.set_cache (delete anchor (ps_cache s)) (PStore.forget anchor (ps_access_order s)) s)) as Hd
      by (apply map_Forall_delete, H).
    case_match; [|done]. by case_match.
  - apply map_Forall_empty.
  - intros a e He. apply map_lookup_filter_Some in He as [He _]. exact (H a e He).
  - done.
Qed.

Lemma policy_run_addressed cmds : ∀ s, addressed s → addressed (fold_left policy_apply cmds s).
Proof. induction cmds as [|c cmds IH]; intros s H; [exact H|]. cbn [fold_left]. by apply IH, policy_apply_addressed. Qed.

End StoreFacts.

(** ** The access order *)

Section OrderFacts.
Context {B3 : Blake3} {RT : Runtime} {HX : Hex} {DO : DashOrder} {σ : Type} {PJ : PolicyJson σ}.

Lemma forget_sublist a l : PStore.forget a l `sublist_of` l.
Proof. induction l as [|x l IH]; cbn; [done|]. case_bool_decide; by constructor. Qed.
Lemma forget_NoDup a l : NoDup l → NoDup (PStore.forget a l).
Proof. intros H. eapply sublist_NoDup; [done|apply forget_sublist]. Qed.
Lemma elem_of_forget a l x : NoDup l → x ∈ PStore.forget a l ↔ x ∈ l ∧ x ≠ a.
Proof.
  induction 1 as [|y l Hy Hl IH]; cbn; [set_solver|]. case_bool_decide as E; [subst y; set_solver|].
  rewrite !elem_of_cons, IH. naive_solver.
Qed.
Lemma forget_absent a l : a ∉ l → PStore.forget a l = l.
Proof.
  induction l as [|x l IH]; cbn; [done|]. rewrite not_elem_of_cons. intros [Hx Hl].
  rewrite bool_decide_eq_false_2 by done. by rewrite IH.
Qed.
Lemma forget_perm a l : a ∈ l → l ≡ₚ a :: PStore.forget a l.
Proof.
  induction l as [|x l IH]; cbn; [set_solver|]. intros Hin. case_bool_decide as E; [by subst|].
  apply elem_of_cons in Hin as [Hax|Hin]; [by subst x|]. rewrite (IH Hin) at 1. constructor.
Qed.
Lemma elem_of_forget_all gone : ∀ l x, NoDup l →
  NoDup (foldl (fun o a => PStore.forget a o) l gone) ∧
  (x ∈ foldl (fun o a => PStore.forget a o) l gone ↔ x ∈ l ∧ x ∉ gone).
Proof.
  induction gone as [|a gone IH]; intros l x Hl; cbn [foldl]; [set_solver|].
  destruct (IH (PStore.forget a l) x (forget_NoDup a l Hl)) as [H1 H2]. split; [done|].
  rewrite H2, elem_of_forget, not_elem_of_cons by done. tauto.
Qed.

(** The access order lists exactly the cached anchors, once each. *)
Definition loaded (s : PolicyStore) : Prop :=
  NoDup (ps_access_order s) ∧ ∀ a, a ∈ ps_access_order s ↔ is_Some (ps_cache s !! a).

Lemma loaded_size s : loaded s → size (ps_cache s) = length (ps_access_order s).
Proof.
  intros [Hn He]. rewrite <- (size_dom (D := gset bytes)).
  assert (dom (ps_cache s) = list_to_set (ps_access_order s) :> gset bytes) as ->.
  { apply set_eq. intros a. by rewrite elem_of_dom, elem_of_list_to_set, He. }
  by apply size_list_to_set.
Qed.

Definition within (n : nat) (s : PolicyStore) : Prop :=
  loaded s ∧ ps_max_cache_size s = n ∧ (length (ps_access_order s) ≤ Nat.max 1 n)%nat.

Lemma within_drop n a s : within n s →
  within n (PStore.set_cache (delete a (ps_cache s)) (PStore.forget a (ps_access_order s)) s).
Proof.
  intros ([Hn He] & Hm & Hl). split; [split|split]; cbn.
  - by apply forget_NoDup.
  - intros x. rewrite elem_of_forget, He, lookup_delete_is_Some by done. naive_solver.
  - done.
  - pose proof (sublist_length _ _ (forget_sublist a (ps_access_order s))). lia.
Qed.

Lemma within_from_cache n inst a s : within n s → within n (PStore.get_from_cache inst a s).2 ∧
  ((PStore.get_from_cache inst a s).1 = None → ps_cache (PStore.get_from_cache inst a s).2 !! a = None).
Proof.
  intros H. unfold PStore.get_from_cache. destruct (ps_cache s !! a) as [e|] eqn:E; [|by split].
  case_match; cbn [fst snd]; [split; [by apply within_drop|intros _; apply lookup_delete_eq]|]. split; [|done].
  destruct H as ([Hn He] & Hm & Hl). assert (a ∈ ps_access_order s) as Ha by (apply He; by exists e).
  split; [split|split]; cbn.
  - apply NoDup_app. split_and!; [by apply forget_NoDup| |apply NoDup_singleton].
    intros x Hx%elem_of_forget; [|done]. rewrite list_elem_of_singleton. naive_solver.
  - intros x. rewrite elem_of_app, elem_of_forget, He, list_elem_of_singleton, lookup_insert_is_Some by done. naive_solver.
  - done.
  - rewrite length_app. cbn. pose proof (Permutation_length (forget_perm _ _ Ha)) as Hp. cbn in Hp. lia.
Qed.

Lemma within_add n inst a p s : ps_cache s !! a = None → within n s → within n (PStore.add_to_cache inst a p s).
Proof.
  intros Ha ([Hn He] & Hm & Hl). assert (a ∉ ps_access_order s) as Hna by (rewrite He, Ha; by intros [? ?]).
  assert (∀ cache order, NoDup order → (∀ x, x ∈ order ↔ is_Some (cache !! x)) → a ∉ order → (length order < Nat.max 1 n)%nat →
    within n (PStore.set_cache (<[a := mkCacheEntry p inst inst]> cache) (PStore.forget a order ++ [a]) s)) as Hput.
  { intros cache order Hno Heq Hna' Hlt. rewrite forget_absent by done. split; [split|split]; cbn.
    - apply NoDup_app. split_and!; [done| |apply NoDup_singleton]. intros x Hx ->%list_elem_of_singleton. done.
    - intros x. rewrite elem_of_app, Heq, list_elem_of_singleton, lookup_insert_is_Some'. naive_solver.
    - done.
    - rewrite length_app. cbn. lia. }
  unfold PStore.add_to_cache. pose proof (loaded_size s (conj Hn He)) as Hs. rewrite Hm, Ha, (bool_decide_eq_true_2 (_ = None)) by done.
  rewrite andb_true_r. destruct (Nat.leb_spec n (size (ps_cache s))) as [Hle|Hlt]; [|apply Hput; [done..|lia]].
  destruct (ps_access_order s) as [|lru order] eqn:Eo; [apply Hput; [done..|cbn; lia]|].
  apply NoDup_cons in Hn as [Hlru Hno]. apply Hput; [done| |set_solver|cbn in Hl; lia].
  intros x. rewrite lookup_delete_is_Some, <- He, elem_of_cons. split; [|naive_solver]. intros Hx. split; [congruence|by right].
Qed.

Lemma within_get n inst io o a s : within n s → within n (PStore.get_policy inst io o a s).2.
Proof.
  intros H. unfold PStore.get_policy. destruct (within_from_cache n inst a s H) as [H1 H2].
  destruct (PStore.get_from_cache inst a s) as [[p|] s']; cbn [fst snd] in *; [done|].
  destruct (PStore.load io o a s') as [p| | |]; cbn [snd]; try done. apply within_add; auto.
Qed.

Lemma within_evict n inst s : within n s → within n (PStore.evict_expired inst s).
Proof.
  intros ([Hn He] & Hm & Hl). unfold PStore.evict_expired. set (gone := map fst _). split; [split|split]; cbn.
  - by apply (elem_of_forget_all gone _ []).
  - intros x. rewrite (proj2 (elem_of_forget_all gone _ x Hn)), He. unfold gone. split.
    + intros [[e E] Hx]. exists e. apply map_lookup_filter_Some. split; [done|]. cbn.
      destruct (PStore.expired inst s e) eqn:Ee; [|done]. destruct Hx.
      apply list_elem_of_fmap. exists (x, e). split; [done|]. apply elem_of_map_to_list, map_lookup_filter_Some. done.
    + intros [e E]. apply map_lookup_filter_Some in E as [E Ee]. split; [by exists e|].
      intros ([x' e'] & -> & Hin)%list_elem_of_fmap. cbn in *.
      apply elem_of_map_to_list, map_lookup_filter_Some in Hin as [E' Ee']. cbn in *. congruence.
  - done.
  - assert (∀ g l, (length (foldl (fun o a => PStore.forget a o) l g) ≤ length l)%nat) as Hlen; [|etrans; [apply Hlen|done]].
    clear. induction g as [|a g IH]; intros l; cbn [foldl]; [done|]. etrans; [apply IH|]. apply sublist_length, forget_sublist.
Qed.

(** Commands that only load. *)
Definition only_loads (c : PolicyCmd σ) : bool :=
  match c with CStore _ _ _ _ | CVerifyGet _ _ _ _ _ (Some _) => false | _ => true end.

Lemma within_apply n s c : only_loads c = true → within n s → within n (policy_apply s c).
Proof.
  intros Hc H. destruct c; cbn [policy_apply only_loads] in *; try done.
  - by apply within_get.
  - destruct data; [done|]. by apply within_get.
  - by apply within_from_cache.
  - unfold PStore.delete_policy. pose proof (within_drop n anchor s H) as Hd. case_match; [|done]. by case_match.
  - destruct H as (_ & Hm & _). split; [split|split]; cbn; [constructor| |done|lia].
    intros a. rewrite lookup_empty. split; [by intros ?%elem_of_nil|by intros [? ?]].
  - by apply within_evict.
Qed.

End OrderFacts.

(** ** Properties of the store *)

Section StoreProperties.
Context {B3 : Blake3} {RT : Runtime} {HX : Hex} {DO : DashOrder} {σ : Type} {PJ : PolicyJson σ}.

(** The store is content-addressed: after any sequence of calls and failures
    of the disk, and whatever anybody wrote into its directory in between, a policy
    that is returned for an anchor carries that anchor and has an encoding that
    hashes to it; two policies returned for one anchor at different times share an
    encoding, or have encodings that collide. *)
Theorem policy_store_content_addressed (n : nat) (ttl : Z) (files : gmap string bytes) (cmds more : list (PolicyCmd σ))
    (inst inst' : Z) (io io' : DiskFaults) (o o' : σ) (a : bytes) (p p' : TokenPolicy) :
  let s := fold_left policy_apply cmds (PStore.with_cache_settings n ttl files) in
  (PStore.get_policy inst io o a s).1 = Ok p →
  (PStore.get_policy inst' io' o' a (fold_left policy_apply more s)).1 = Ok p' →
  authentic a p ∧ authentic a p' ∧
  ∃ o1 o2 x y, json_to_vec o1 (tp_file p) = Some x ∧ json_to_vec o2 (tp_file p') = Some y ∧
    blake3 x = a ∧ blake3 y = a ∧ (x = y ∨ collision blake3 [x; y]).
Proof.
  intros s Hp Hp'. assert (addressed s) as Hs by (apply policy_run_addressed, map_Forall_empty).
  apply get_policy_addressed in Hp; [|done]. apply get_policy_addressed in Hp'; [|by apply policy_run_addressed].
  split; [done|]. split; [done|]. destruct Hp as (_ & _ & o1 & x & Hx & Ha), Hp' as (_ & _ & o2 & y & Hy & Ha').
  exists o1, o2, x, y. split_and!; [done..|]. apply hash_bind. congruence.
Qed.

Lemma load_stored io o' a s f j : ps_files s !! PStore.get_policy_path a = Some j → json_from_slice j = Some f → utf8_valid j = true →
  read_fails io = false →
  PStore.load io o' a s =
    match json_to_vec o' f with
    | Some y => if bool_decide (blake3 y = a) then Ok (mkTokenPolicy f a true now)
                else Err (EValidation "Policy anchor mismatch: expected {}, got {}")
    | None => Err (ESerialization "Failed to serialize policy file: {}")
    end.
Proof.
  intros Hf Hj Hu Hr. unfold PStore.load, PStore.read_file. rewrite Hf, Hr, Hu. cbn [orb negb mbind outcome_bind]. rewrite Hj.
  cbn [ok_or mbind outcome_bind]. unfold Policy.generate_anchor. destruct (json_to_vec o' f) as [y|]; cbn [ok_or mbind outcome_bind]; [|done].
  by case_bool_decide.
Qed.

Lemma get_uncached inst io o a s : ps_cache s !! a = None → (PStore.get_policy inst io o a s).1 = PStore.load io o a s.
Proof. intros H. unfold PStore.get_policy, PStore.get_from_cache. rewrite H. by destruct (PStore.load io o a s). Qed.

(** A policy that was stored comes back: from the cache until its time to
    live has passed; from the disk exactly when the hash maps of the copy that is
    read back are encoded in an order with the same digest, which is sure for
    files whose maps have at most one entry, and a mismatch error otherwise; after a
    deletion it is not found. *)
Theorem policy_store_roundtrip (s : PolicyStore) (inst : Z) (o : σ) (f : PolicyFile) (x j : bytes) :
  json_to_vec o f = Some x → json_to_string_pretty o f = Some j → 0 ≤ ps_cache_ttl s →
  let a := blake3 x in let policy := mkTokenPolicy f a true now in
  ∃ s' s'', PStore.store_policy inst no_faults o f s = (Ok a, s') ∧ PStore.delete_policy no_faults a s' = (Ok tt, s'') ∧
    ∀ inst' io o',
      (inst' - inst ≤ ps_cache_ttl s → (PStore.get_policy inst' io o' a s').1 = Ok policy) ∧
      (read_fails io = false → (PStore.get_policy inst' io o' a (PStore.clear_cache s')).1 =
         match json_to_vec o' f with
         | Some y => if bool_decide (blake3 y = a) then Ok policy else Err (EValidation "Policy anchor mismatch: expected {}, got {}")
         | None => Err (ESerialization "Failed to serialize policy file: {}")
         end) ∧
      (read_fails io = false → file_plain f = true → (PStore.get_policy inst' io o' a (PStore.clear_cache s')).1 = Ok policy) ∧
      (PStore.get_policy inst' io o' a s'').1 = Err (ENotFound "Policy" (Some "Policy with anchor {} not found"%string)).
Proof.
  intros Hx Hj Httl a policy.
  assert (PStore.store_policy inst no_faults o f s = (Ok a,
    mkPolicyStore (<[a := mkCacheEntry policy inst inst]> (ps_cache s)) (ps_access_order s) (ps_max_cache_size s) (ps_cache_ttl s)
      (<[PStore.get_policy_path a := j]> (ps_files s)))) as E.
  { unfold PStore.store_policy, Policy.generate_anchor, mbind_st, mlift. rewrite Hx. cbn [ok_or mbind outcome_bind]. by rewrite Hj. }
  set (s' := mkPolicyStore _ _ _ _ _) in E. exists s'. eexists. split; [exact E|]. split.
  { unfold PStore.delete_policy. cbn [PStore.set_cache ps_files s']. rewrite lookup_insert_eq. reflexivity. }
  intros inst' io o'.
  assert (read_fails io = false → (PStore.get_policy inst' io o' a (PStore.clear_cache s')).1 =
    match json_to_vec o' f with
    | Some y => if bool_decide (blake3 y = a) then Ok policy else Err (EValidation "Policy anchor mismatch: expected {}, got {}")
    | None => Err (ESerialization "Failed to serialize policy file: {}")
    end) as Hget.
  { intros Hr. rewrite get_uncached by apply lookup_empty. apply (load_stored io o' a _ f j); [apply lookup_insert_eq| | |done].
    - by eapply pretty_round_trip.
    - by eapply pretty_utf8. }
  split_and!; [|exact Hget| |].
  - intros Ht. unfold PStore.get_policy, PStore.get_from_cache, PStore.expired. cbn [s' ps_cache ps_cache_ttl].
    rewrite lookup_insert_eq. cbn [ce_added]. rewrite (proj2 (Z.ltb_ge _ _)) by lia. done.
  - intros Hr Hpl. rewrite Hget, (plain_order_free o' o f Hpl), Hx by done. by rewrite bool_decide_eq_true_2.
  - rewrite get_uncached by apply lookup_delete_eq. unfold PStore.load, PStore.read_file.
    cbn [PStore.set_files PStore.set_cache ps_files s']. by rewrite lookup_delete_eq.
Qed.

(** The bound of the cache: as long as policies are only loaded, whatever else
    happens, the cache holds at most the configured number (and one, if that is
    zero); stored policies are not counted, so that storing files with different
    anchors keeps all of them, however small the bound. *)
Theorem policy_cache_bounds (n : nat) (ttl inst : Z) (files : gmap string bytes) (cmds : list (PolicyCmd σ)) (o : σ)
    (fs : list PolicyFile) (anchors : list bytes) :
  forallb only_loads cmds = true →
  Forall2 (fun f a => Policy.generate_anchor (json_to_vec o) f = Ok a ∧ is_Some (json_to_string_pretty o f)) fs anchors → NoDup anchors →
  (size (ps_cache (fold_left policy_apply cmds (PStore.with_cache_settings n ttl files))) ≤ Nat.max 1 n)%nat ∧
  size (ps_cache (fold_left policy_apply (map (CStore inst no_faults o) fs) (PStore.with_cache_settings n ttl files))) = length fs.
Proof.
  intros Hc Hf Hnd. split.
  - assert (within n (fold_left policy_apply cmds (PStore.with_cache_settings n ttl files))) as (Hl & _ & H).
    { assert (within n (PStore.with_cache_settings n ttl files)) as H0.
      { split; [split|split]; cbn; [constructor| |done|lia]. intros a. rewrite lookup_empty. split; [by intros ?%elem_of_nil|by intros [? ?]]. }
      revert H0. generalize (PStore.with_cache_settings n ttl files).
      induction cmds as [|c cmds IH]; intros s Hs; [exact Hs|]. cbn [forallb] in Hc. apply andb_true_iff in Hc as [H1 H2].
      cbn [fold_left]. by apply IH, within_apply. }
    by rewrite (loaded_size _ Hl).
  - assert (∀ s, (∀ a, a ∈ anchors → ps_cache s !! a = None) →
      size (ps_cache (fold_left policy_apply (map (CStore inst no_faults o) fs) s)) = (size (ps_cache s) + length fs)%nat) as H.
    { revert Hnd. induction Hf as [|f a fs anchors [Ha [j Hj]] Hf IH]; intros Hnd s Hs; [cbn; lia|].
      apply NoDup_cons in Hnd as [Hna Hnd]. cbn [map fold_left policy_apply length].
      assert (ps_cache (PStore.store_policy inst no_faults o f s).2 = <[a := mkCacheEntry (mkTokenPolicy f a true now) inst inst]> (ps_cache s)) as E
        by (unfold PStore.store_policy, mbind_st, mlift; rewrite Ha, Hj; done).
      rewrite IH, E, map_size_insert_None; [lia| |done|]; [apply Hs; left|].
      intros b Hb. rewrite E, lookup_insert_ne by (intros ->; done). apply Hs. by right. }
    rewrite H; [done|]. intros a _. apply lookup_empty.
Qed.

End StoreProperties.

(** ** Default policies *)

(** The chrono crate on UTC times, in seconds. *)
Class Chrono := { parse_rfc3339 : string → option Z; to_rfc3339 : Z → string }.

Record PolicyParameters := mkPolicyParameters {
  pp_mode : TransactionMode;
  pp_verification : VerificationType;
  pp_name : string;
  pp_version : string;
  pp_author : string;
}.

Module Defaults.
Section Defaults.
Context {B3 : Blake3} {RT : Runtime} {CH : Chrono}.

Definition days (n : Z) : Z := n * 86400.
(** [i64 as u64] *)
Definition as_u64 (t : Z) : Z := t mod 2 ^ 64.

Definition any_transfer (mode : TransactionMode) (verification : VerificationType) : Operation :=
  Transfer "" (Bal.new 0) "" mode [] verification None "" "" "".
Definition transfer_op : Operation := any_transfer Bilateral VT_Standard.
Definition lock_op : Operation := LockToken "" 0 "default" Bilateral.
Definition unlock_op : Operation := UnlockToken "" 0 "default" Bilateral.

Definition generate_default_policy (token_id token_name creator_id : string) : outcome PolicyFile :=
  let one_year_later := now + days 365 in
  let p := Policy.file_new ("Default Policy for " +:+ token_name) "1.0" creator_id in
  let p := Policy.with_description ("Default policy for token " +:+ token_id +:+ " (" +:+ token_name +:+
             "). Created automatically at token genesis.") p in
  let p := Policy.add_condition (TimeLock (as_u64 now)) p in
  let p := Policy.add_condition (IdentityConstraint [creator_id] true) p in
  let p := Policy.add_condition (OperationRestriction [transfer_op]) p in
  let p := Policy.add_metadata "token_id" token_id p in
  let p := Policy.add_metadata "created_at" (to_rfc3339 now) p in
  let p := Policy.add_metadata "valid_until" (to_rfc3339 one_year_later) p in
  let p := Policy.add_metadata "is_default_policy" "true" p in
  let p := Policy.add_role (mkRole "owner" "Token Owner" [transfer_op]) p in
  let p := Policy.add_role (mkRole "user" "Token User" [transfer_op; lock_op; unlock_op]) p in
  Ok p.

Definition set_name (name : string) (f : PolicyFile) : PolicyFile :=
  mkPolicyFile name (pf_version f) (pf_created_at f) (pf_author f) (pf_description f)
    (pf_conditions f) (pf_roles f) (pf_metadata f).
(** [policy.conditions.retain(|c| !matches!(c, ..))] *)
Definition retain (keep : PolicyCondition → bool) (f : PolicyFile) : PolicyFile :=
  mkPolicyFile (pf_name f) (pf_version f) (pf_created_at f) (pf_author f) (pf_description f)
    (filter (fun c => keep c = true) (pf_conditions f)) (pf_roles f) (pf_metadata f).
Definition not_time_lock (c : PolicyCondition) : bool := match c with TimeLock _ => false | _ => true end.
Definition not_identity (c : PolicyCondition) : bool := match c with IdentityConstraint _ _ => false | _ => true end.
Definition not_restriction (c : PolicyCondition) : bool := match c with OperationRestriction _ => false | _ => true end.

Definition lower (c : ascii) : ascii :=
  let n := N_of_ascii c in if ((65 <=? n)%N && (n <=? 90)%N) then ascii_of_N (n + 32) else c.
Fixpoint to_lowercase (s : string) : string :=
  match s with EmptyString => EmptyString | String c s => String (lower c) (to_lowercase s) end.
Definition bool_string (b : bool) : string := if b then "true" else "false".

Definition trimmed (s : string) : list string := map trim (split_comma EmptyString s).

Definition unlock_time_of (params : gmap string string) : outcome Z :=
  match params !! "unlock_time"%string with
  | Some time =>
      match parse_rfc3339 time with
      | Some t => Ok (as_u64 t)
      | None => ok_or (EValidation "Invalid unlock_time format: {}") (parse_u64 time)
      end
  | None => Ok (as_u64 (now + days 30))
  end.

Definition op_of_name (name : string) : option Operation :=
  if bool_decide (name = "transfer"%string) then Some transfer_op
  else if bool_decide (name = "mint"%string) then Some (Mint (Bal.new 0) "" "default" [] "")
  else if bool_decide (name = "burn"%string) then Some (Burn (Bal.new 0) "" [] "")
  else if bool_decide (name = "lock"%string) then Some lock_op
  else if bool_decide (name = "unlock"%string) then Some unlock_op
  else None.

Definition generate_specialized_policy (token_id token_name creator_id policy_type : string) (params : gmap string string)
    : outcome PolicyFile :=
  p ← generate_default_policy token_id token_name creator_id;
  let p := set_name (policy_type +:+ " Policy for " +:+ token_name) p in
  let p := Policy.with_description ("Specialized " +:+ policy_type +:+ " policy for token " +:+ token_id +:+ " (" +:+ token_name +:+
             "). Created with custom parameters.") p in
  if bool_decide (policy_type = "TimeLocked"%string) then
    unlock_time ← unlock_time_of params;
    let p := Policy.add_condition (TimeLock unlock_time) (retain not_time_lock p) in
    Ok (Policy.add_metadata "unlock_time" (pretty unlock_time) (Policy.add_metadata "policy_type" "time_locked" p))
  else if bool_decide (policy_type = "IdentityBound"%string) then
    let allowed := match params !! "allowed_identities"%string with Some ids => trimmed ids | None => [creator_id] end in
    let derived := match params !! "allow_derived"%string with Some v => bool_decide (to_lowercase v = "true"%string) | None => false end in
    let p := Policy.add_condition (IdentityConstraint allowed derived) (retain not_identity p) in
    Ok (Policy.add_metadata "allow_derived" (bool_string derived) (Policy.add_metadata "policy_type" "identity_bound" p))
  else if bool_decide (policy_type = "RestrictedOperations"%string) then
    let allowed := match params !! "allowed_operations"%string with
                   | Some ops => omap op_of_name (trimmed ops)
                   | None => [transfer_op]
                   end in
    let p := Policy.add_condition (OperationRestriction allowed) (retain not_restriction p) in
    Ok (Policy.add_metadata "policy_type" "restricted_operations" p)
  else if bool_decide (policy_type = "GeographicRestriction"%string) then
    match params !! "allowed_regions"%string with
    | Some regions =>
        let p := Policy.add_condition (GeographicRestriction (trimmed regions)) p in
        Ok (Policy.add_metadata "policy_type" "geographic_restriction" p)
    | None => Err (EValidation "Geographic restriction requires allowed_regions parameter")
    end
  else Err (EValidation "Unknown policy type: {}").

Definition create_policy (params : PolicyParameters) : outcome PolicyFile :=
  let p := Policy.file_new (pp_name params) (pp_version params) (pp_author params) in
  Ok (Policy.add_condition (OperationRestriction [any_transfer (pp_mode params) (pp_verification params)]) p).

End Defaults.
End Defaults.

(** ** What the generated policies allow *)

(** The verdict of a policy that restricts the operations to some kinds and
    states no limit. *)
Definition kind_verdict (kinds : list string) (op : Operation) (signature : option bytes) : PolicyVerificationResult :=
  match op with
  | Mint _ _ _ _ _ =>
      if bool_decide ("mint"%string ∈ kinds) then
        if bool_decide (signature = Some []) then Invalid "Invalid signature for mint operation" else Valid
      else Invalid "Minting is not allowed by policy"
  | Transfer _ _ _ _ _ _ _ _ _ _ =>
      if bool_decide ("transfer"%string ∈ kinds) then Valid else Invalid "Transfers are not allowed by policy"
  | Burn _ _ _ _ => if bool_decide ("burn"%string ∈ kinds) then Valid else Invalid "Burning is not allowed by policy"
  | _ => Valid
  end.

(** The kinds a specialised policy allows. *)
Definition allowed_kinds (policy_type : string) (params : gmap string string) : list string :=
  if bool_decide (policy_type = "RestrictedOperations"%string) then
    match params !! "allowed_operations"%string with Some ops => Defaults.trimmed ops | None => ["transfer"%string] end
  else ["transfer"%string].

Section DefaultFacts.
Context {B3 : Blake3} {RT : Runtime} {CH : Chrono}.

Lemma existsb_kinds (kind : Operation → bool) (k : string) kinds :
  (∀ name, (match Defaults.op_of_name name with Some op => kind op | None => false end) = bool_decide (name = k)) →
  existsb kind (omap Defaults.op_of_name kinds) = bool_decide (k ∈ kinds).
Proof.
  intros H. induction kinds as [|x kinds IH]; [done|]. cbn [omap list_omap]. specialize (H x).
  rewrite (bool_decide_ext (k ∈ x :: kinds) (x = k ∨ k ∈ kinds)) by (rewrite elem_of_cons; naive_solver).
  rewrite bool_decide_or. destruct (Defaults.op_of_name x); cbn [existsb]; rewrite <- H, <- IH; done.
Qed.

Lemma op_of_name_kinds name :
  (match Defaults.op_of_name name with Some op => Policy.is_mint op | None => false end = bool_decide (name = "mint"%string)) ∧
  (match Defaults.op_of_name name with Some op => Policy.is_transfer op | None => false end = bool_decide (name = "transfer"%string)) ∧
  (match Defaults.op_of_name name with Some op => Policy.is_burn op | None => false end = bool_decide (name = "burn"%string)).
Proof.
  unfold Defaults.op_of_name. repeat case_bool_decide; subst; try done; try congruence.
Qed.

(** One restriction, and otherwise conditions that verification skips. *)
Lemma restricted_verdict pol ops kinds op ctx extra sig :
  filter (fun c => enforced c = true) (pf_conditions (tp_file pol)) = [OperationRestriction ops] →
  existsb Policy.is_mint ops = bool_decide ("mint"%string ∈ kinds) →
  existsb Policy.is_transfer ops = bool_decide ("transfer"%string ∈ kinds) →
  existsb Policy.is_burn ops = bool_decide ("burn"%string ∈ kinds) →
  Policy.verify_policy pol op ctx extra sig = kind_verdict kinds op sig.
Proof.
  intros Hf Hm Ht Hb. unfold Policy.verify_policy, kind_verdict. destruct op; try done.
  - rewrite <- (foldl_enforced Policy.transfer_step), Hf by (by intros [[] ?] []). cbn [foldl Policy.transfer_step]. rewrite Ht.
    destruct (bool_decide ("transfer"%string ∈ kinds)); [|reflexivity]. destruct ctx as [c|]; [|reflexivity].
    cbn [negb Policy.exceeds]. by rewrite bool_decide_eq_false_2 by set_solver.
  - rewrite <- (foldl_enforced Policy.mint_step), Hf by (by intros [[] ?] []). cbn [foldl Policy.mint_step]. rewrite Hm.
    destruct (bool_decide ("mint"%string ∈ kinds)); [|reflexivity]. destruct sig as [[|b sig]|]; reflexivity.
  - rewrite <- (foldl_enforced Policy.burn_step), Hf by (by intros [] []). cbn [foldl Policy.burn_step]. rewrite Hb.
    by destruct (bool_decide ("burn"%string ∈ kinds)).
Qed.

(** What the generated policies allow: a specialised policy is generated
    exactly for the four known types, if the unlock time of a time lock can be read
    and the regions of a geographic restriction are given; verified by
    [verify_policy] the default policy and the time-locked, identity-bound and
    geographic ones all give the same verdicts, transfers only, for anybody and at
    any time and place, and only [RestrictedOperations] changes them, to the kinds
    it lists. *)
Theorem generated_policy_verdicts (token_id token_name creator ty : string) (params : gmap string string) (anchor : bytes)
    (verified : bool) (t : Z) (op : Operation) (ctx : option string) (extra sig : option bytes) :
  (∃ f, Defaults.generate_default_policy token_id token_name creator = Ok f ∧
     Policy.verify_policy (mkTokenPolicy f anchor verified t) op ctx extra sig = kind_verdict ["transfer"%string] op sig) ∧
  match Defaults.generate_specialized_policy token_id token_name creator ty params with
  | Ok f => Policy.verify_policy (mkTokenPolicy f anchor verified t) op ctx extra sig = kind_verdict (allowed_kinds ty params) op sig
  | Err e => ty ∉ ["TimeLocked"; "IdentityBound"; "RestrictedOperations"; "GeographicRestriction"]%string ∨
      (ty = "GeographicRestriction"%string ∧ params !! "allowed_regions"%string = None) ∨
      (ty = "TimeLocked"%string ∧ ∃ v, params !! "unlock_time"%string = Some v ∧ parse_rfc3339 v = None ∧ parse_u64 v = None)
  | _ => False
  end.
Proof.
  assert (∀ f, filter (fun c => enforced c = true) (pf_conditions f) = [OperationRestriction [Defaults.transfer_op]] →
    Policy.verify_policy (mkTokenPolicy f anchor verified t) op ctx extra sig = kind_verdict ["transfer"%string] op sig) as Hd
    by (intros f Hf; by eapply restricted_verdict).
  split; [eexists; split; [reflexivity|]; by apply Hd|].
  unfold Defaults.generate_specialized_policy, Defaults.generate_default_policy, allowed_kinds. cbn [mbind outcome_bind].
  destruct (decide (ty = "TimeLocked"%string)) as [->|H1].
  { rewrite bool_decide_eq_true_2 by done. unfold Defaults.unlock_time_of.
    destruct (params !! "unlock_time"%string) as [v|] eqn:Ev; [|by apply Hd].
    destruct (parse_rfc3339 v) eqn:Er; [by apply Hd|]. destruct (parse_u64 v) eqn:Eu; cbn [ok_or mbind outcome_bind]; [by apply Hd|].
    right; right. split; [done|by exists v]. }
  rewrite (bool_decide_eq_false_2 (ty = "TimeLocked"%string)) by done.
  destruct (decide (ty = "IdentityBound"%string)) as [->|H2].
  { rewrite bool_decide_eq_true_2 by done. by apply Hd. }
  rewrite (bool_decide_eq_false_2 (ty = "IdentityBound"%string)) by done.
  destruct (decide (ty = "RestrictedOperations"%string)) as [->|H3].
  { rewrite !bool_decide_eq_true_2 by done. destruct (params !! "allowed_operations"%string) as [ops|]; [|by apply Hd].
    eapply restricted_verdict; [reflexivity|..]; apply existsb_kinds; intros name; apply op_of_name_kinds. }
  rewrite !(bool_decide_eq_false_2 (ty = "RestrictedOperations"%string)) by done.
  destruct (decide (ty = "GeographicRestriction"%string)) as [->|H4].
  { rewrite bool_decide_eq_true_2 by done. destruct (params !! "allowed_regions"%string) eqn:E; [by apply Hd|].
    right; left. done. }
  rewrite bool_decide_eq_false_2 by done. left. rewrite !elem_of_cons, elem_of_nil. tauto.
Qed.

End DefaultFacts.

(** ** Witnesses *)

Module PolicyStoreWitness.
Import ProofCodec.
#[local] Existing Instances Toy.toy_blake3 Toy.toy_runtime ToyHex.toy_hex.
#[local] Instance toy_order : DashOrder := {| dash_iter A := map_to_list; dash_iter_perm A m := reflexivity _ |}.

(** A codec for policy files without conditions and roles; the order says
    whether the metadata are written backwards. *)
Definition bare (f : PolicyFile) : bool :=
  match pf_conditions f, pf_roles f, pf_description f with [], [], None => true | _, _, _ => false end.
Definition key (f : PolicyFile) : string * string * Z * string := (pf_name f, pf_version f, pf_created_at f, pf_author f).
Definition toy_vec (o : bool) (f : PolicyFile) : option bytes :=
  if bare f then
    let m := map_to_list (pf_metadata f) in
    Some (pos_bytes (encode (key f, if o then reverse m else m)))
  else None.
Definition toy_pretty (o : bool) (f : PolicyFile) : option bytes :=
  if bare f then Some (pos_bytes (encode (key f, pf_metadata f))) else None.
Definition toy_parse (b : bytes) : option PolicyFile :=
  '(k, m) ← decode (A := (string * string * Z * string) * gmap string string) (bytes_pos b);
  let '(a, v, t, w) := k in Some (mkPolicyFile a v t w None [] [] m).

Lemma toy_utf8 o f b : toy_pretty o f = Some b → utf8_valid b = true.
Proof.
  unfold toy_pretty. destruct (bare f); [|done]. intros [= <-]. generalize (encode (key f, pf_metadata f)).
  intros p. by induction p.
Qed.
Lemma toy_round_trip o f b : toy_pretty o f = Some b → toy_parse b = Some f.
Proof.
  unfold toy_pretty, toy_parse, bare. destruct f as [a v t w [d|] [|c cs] [|r rs] m]; cbn; try done.
  intros [= <-]. by rewrite bytes_pos_bytes, decode_encode.
Qed.
Lemma toy_plain o o' f : file_plain f = true → toy_vec o f = toy_vec o' f.
Proof.
  unfold file_plain, toy_vec. intros [_ Hs%Nat.leb_le]%andb_true_iff. destruct (bare f); [|done].
  assert (reverse (map_to_list (pf_metadata f)) = map_to_list (pf_metadata f)) as E.
  { rewrite <- length_map_to_list in Hs. destruct (map_to_list (pf_metadata f)) as [|x [|y l]]; [done..|cbn in Hs; lia]. }
  by destruct o, o'; rewrite ?E.
Qed.
#[local] Instance toy_json : PolicyJson bool :=
  {| json_to_vec := toy_vec; json_to_string_pretty := toy_pretty; json_from_slice := toy_parse;
     pretty_utf8 := toy_utf8; pretty_round_trip := toy_round_trip; plain_order_free := toy_plain |}.

Definition file (name : string) : PolicyFile := mkPolicyFile name "1.0" 7 "alice" None [] [] ∅.
Definition anchor (name : string) : bytes := match toy_vec false (file name) with Some x => blake3 x | None => [] end.
Definition empty : PolicyStore := PStore.with_cache_settings 1 60 ∅.

Lemma policy_store_content_addressed_witness :
  authentic (anchor "a") (mkTokenPolicy (file "a") (anchor "a") true now).
Proof.
  refine (proj1 (policy_store_content_addressed 1 60 ∅ [CStore 0 no_faults false (file "a")] [CClear] 5 9 no_faults no_faults false true (anchor "a")
    (mkTokenPolicy (file "a") (anchor "a") true now) (mkTokenPolicy (file "a") (anchor "a") true now) _ _)); vm_compute; reflexivity.
Defined.

Lemma policy_store_roundtrip_witness :
  ∃ s' s'', PStore.store_policy 0 no_faults false (file "a") empty = (Ok (anchor "a"), s') ∧
    PStore.delete_policy no_faults (anchor "a") s' = (Ok tt, s'').
Proof.
  destruct (policy_store_roundtrip empty 0 false (file "a") (unwrap_or [] (toy_vec false (file "a"))) (unwrap_or [] (toy_pretty false (file "a"))))
    as (s' & s'' & H1 & H2 & _); [vm_compute; reflexivity|vm_compute; reflexivity|cbn; lia|].
  exists s', s''. split; [exact H1|exact H2].
Defined.

(** Three files in a cache for one. *)
Lemma policy_cache_bounds_witness :
  size (ps_cache (fold_left policy_apply (map (CStore 0 no_faults false) [file "a"; file "b"; file "c"]) empty)) = 3%nat.
Proof.
  apply (policy_cache_bounds 1 60 0 ∅ [CClear; CEvict 3] false [file "a"; file "b"; file "c"] [anchor "a"; anchor "b"; anchor "c"]).
  - reflexivity.
  - repeat constructor; vm_compute; try reflexivity; by eexists.
  - apply (bool_decide_unpack _). vm_compute. exact I.
Defined.
End PolicyStoreWitness.
