(* ===== verification/SIndex.v ===== *)
(** * The sparse index of checkpoints (dsm/src/core/index/mod.rs)

    [SIM] is [SparseIndexManager]: checkpoints at every multiple of an interval,
    the reverse map from hashes to numbers, an optional sparse Merkle tree, and
    the pruning of old checkpoints.  A lock that is held when a call panics is
    poisoned, and every later attempt to take it is an error. *)
From S2P Require Import Prelude Tokens Operations SparseIdx States RandomWalk Transition Merkle Keys.

Record SparseIndexManager := mkSparseIndexManager {
  sx_checkpoints : gmap Z State;
  sx_hash_to_number : gmap bytes Z;
  sx_interval : Z;
  sx_tree : option SparseMerkleTreeImpl;
  sx_max_age : option Z;
  sx_highest : Z;
  sx_checkpoints_poisoned : bool;
  sx_tree_poisoned : bool;
}.

Module SIM.
Section SIM.
Context {B3 : Blake3}.
Context {SO : Bincode Operation} {SB : Bincode Balance} {SP : Bincode PreCommitment}.

Definition new (interval : Z) (with_merkle_tree : bool) (height : option Z) (max_age : option Z) : SparseIndexManager :=
  mkSparseIndexManager ∅ ∅ interval (if with_merkle_tree then Some (SMT.new (unwrap_or 20 height)) else None) max_age 0 false false.

Definition set_hash_to_number (h : gmap bytes Z) (m : SparseIndexManager) : SparseIndexManager :=
  mkSparseIndexManager (sx_checkpoints m) h (sx_interval m) (sx_tree m) (sx_max_age m) (sx_highest m)
    (sx_checkpoints_poisoned m) (sx_tree_poisoned m).
Definition set_highest (n : Z) (m : SparseIndexManager) : SparseIndexManager :=
  mkSparseIndexManager (sx_checkpoints m) (sx_hash_to_number m) (sx_interval m) (sx_tree m) (sx_max_age m) n
    (sx_checkpoints_poisoned m) (sx_tree_poisoned m).
Definition set_checkpoints (c : gmap Z State) (m : SparseIndexManager) : SparseIndexManager :=
  mkSparseIndexManager c (sx_hash_to_number m) (sx_interval m) (sx_tree m) (sx_max_age m) (sx_highest m)
    (sx_checkpoints_poisoned m) (sx_tree_poisoned m).
Definition set_tree (t : SparseMerkleTreeImpl) (m : SparseIndexManager) : SparseIndexManager :=
  mkSparseIndexManager (sx_checkpoints m) (sx_hash_to_number m) (sx_interval m) (Some t) (sx_max_age m) (sx_highest m)
    (sx_checkpoints_poisoned m) (sx_tree_poisoned m).
Definition poison (checkpoints tree : bool) (m : SparseIndexManager) : SparseIndexManager :=
  mkSparseIndexManager (sx_checkpoints m) (sx_hash_to_number m) (sx_interval m) (sx_tree m) (sx_max_age m) (sx_highest m)
    (sx_checkpoints_poisoned m || checkpoints) (sx_tree_poisoned m || tree).

(** [state_number % interval], which panics for an interval of zero. *)
Definition is_checkpoint (m : SparseIndexManager) (n : Z) : outcome bool :=
  if sx_interval m =? 0 then Panic else Ok ((n mod sx_interval m =? 0) || (n =? 0)).

(** A body run while guards are held: a panic poisons their locks. *)
Definition guarded {A} (checkpoints tree : bool) (body : M SparseIndexManager A) : M SparseIndexManager A := fun m =>
  match body m with
  | (Panic, m) => (Panic, poison checkpoints tree m)
  | r => r
  end.

Definition lock_checkpoints : M SparseIndexManager unit := fun m =>
  if sx_checkpoints_poisoned m then (Err ELockError, m) else (Ok tt, m).
Definition lock_tree : M SparseIndexManager unit := fun m =>
  if sx_tree_poisoned m then (Err ELockError, m) else (Ok tt, m).

Definition insert_in_tree (t : SparseMerkleTreeImpl) (n : Z) (h : bytes) : M SparseIndexManager unit := fun m =>
  let '(o, t) := SMT.insert n h t in (o, set_tree t m).

Definition get_highest_state_number (m : SparseIndexManager) : outcome Z := Ok (sx_highest m).

(** The closure of [retain]; [interval * 10] is computed only when the first
    two tests fail. *)
Definition keeps (interval cutoff num : Z) : outcome bool :=
  if (num =? 0) || (cutoff <? num) then Ok true
  else ten ← u64_mul interval 10; Ok (num mod ten =? 0).

(** [checkpoints.retain(..)]; the order of the visits does not matter: either
    every visit returns or the call panics, and after a panic the lock is poisoned. *)
Fixpoint retained (interval cutoff : Z) (l : list (Z * State)) : outcome (gmap Z State) :=
  match l with
  | [] => Ok ∅
  | (num, s) :: l =>
      keep ← keeps interval cutoff num;
      rest ← retained interval cutoff l;
      Ok (if keep : bool then <[num := s]> rest else rest)
  end.

Definition prune : M SparseIndexManager unit := fun m =>
  match sx_max_age m with
  | Some max_age =>
      if max_age <? sx_highest m then
        match retained (sx_interval m) (sx_highest m - max_age) (map_to_list (sx_checkpoints m)) with
        | Ok c => (Ok tt, set_checkpoints c m)
        | Err e => (Err e, m)
        | Panic => (Panic, m)
        | Hang => (Hang, m)
        end
      else (Ok tt, m)
  | None => (Ok tt, m)
  end.

Definition add_to_tree (n : Z) (h : bytes) : M SparseIndexManager unit :=
  let* m := mget in
  match sx_tree m with
  | Some t => do* lock_tree; guarded true true (insert_in_tree t n h)
  | None => mret_st tt
  end.

Definition add_state (s : State) : M SparseIndexManager unit :=
  let n := state_number s in
  let* h := mlift (St.get_hash s) in
  do* mmod (fun m => set_hash_to_number (<[h := n]> (sx_hash_to_number m)) m);
  do* mmod (fun m => if sx_highest m <? n then set_highest n m else m);
  let* m := mget in
  let* checkpoint := mlift (is_checkpoint m n) in
  if checkpoint : bool then
    do* lock_checkpoints;
    do* mmod (fun m => set_checkpoints (<[n := s]> (sx_checkpoints m)) m);
    do* add_to_tree n h;
    guarded true false prune
  else mret_st tt.

(** [keys().filter(|k| k <= n).max()] *)
Definition nearest (keys : list Z) (n : Z) : option Z :=
  foldr (fun k best => if k <=? n then match best with Some b => Some (Z.max k b) | None => Some k end else best) None keys.

Definition get_nearest_checkpoint_before (m : SparseIndexManager) (n : Z) : outcome (option Z) :=
  if sx_checkpoints_poisoned m then Err ELockError else Ok (nearest (map fst (map_to_list (sx_checkpoints m))) n).

(** [for next_num in (checkpoint + 1)..=n]: [k] numbers left. *)
Fixpoint traverse (fetch : Z → outcome (option State)) (k : nat) (next : Z) (current : State) : outcome (option State) :=
  match k with
  | O => Ok None
  | S k =>
      o ← fetch next;
      match o with
      | Some s =>
          h ← St.get_hash current;
          if negb (bool_decide (prev_state_hash s = h)) then Err (EValidation "Hash chain discontinuity at state {}")
          else match k with O => Ok (Some s) | S _ => traverse fetch k (next + 1) s end
      | None => Ok None
      end
  end.

Definition get_state_by_number (m : SparseIndexManager) (n : Z) (fetch : Z → outcome (option State)) : outcome (option State) :=
  if sx_checkpoints_poisoned m then Err ELockError
  else
    match sx_checkpoints m !! n with
    | Some s => Ok (Some s)
    | None =>
        c ← get_nearest_checkpoint_before m n;
        match c with
        | None => Ok None
        | Some c =>
            match sx_checkpoints m !! c with
            | None => Err (EValidation "Checkpoint state {} not found in sparse index")
            | Some s => if c =? n then Ok (Some s) else traverse fetch (Z.to_nat (n - c)) (c + 1) s
            end
        end
    end.

Definition generate_merkle_proof (m : SparseIndexManager) (n : Z) : outcome (option MerkleProof) :=
  match sx_tree m with
  | Some t => if sx_tree_poisoned m then Err ELockError else p ← SMT.get_proof t n; Ok (Some p)
  | None => Ok None
  end.

Definition verify_merkle_proof (m : SparseIndexManager) (s : State) (proof : MerkleProof) : outcome bool :=
  match sx_tree m with
  | Some t =>
      if sx_tree_poisoned m then Err ELockError
      else h ← St.get_hash s; SMT.verify_proof (SMT.root t) h proof
  | None => Ok false
  end.

End SIM.
End SIM.

(** ** Facts *)

Section SIndexFacts.
Context {B3 : Blake3}.
Context {SO : Bincode Operation} {SB : Bincode Balance} {SP : Bincode PreCommitment}.

(** A chain of states by number. *)
Record canonical (c : Z → option State) : Prop := mkCanonical {
  can_number : ∀ n s, c n = Some s → state_number s = n ∧ 0 ≤ n;
  can_hash : ∀ n s, c n = Some s → ∃ h, St.get_hash s = Ok h;
  can_prev : ∀ n s', 0 ≤ n → c (n + 1) = Some s' → ∃ s, c n = Some s ∧ St.get_hash s = Ok (prev_state_hash s');
}.

Fixpoint add_states (l : list State) : M SparseIndexManager unit :=
  match l with [] => mret_st tt | s :: l => do* SIM.add_state s; add_states l end.

Definition keptb (interval cutoff num : Z) : bool := (num =? 0) || (cutoff <? num) || (num mod (interval * 10) =? 0).

Lemma keeps_ok i cut num : i * 10 ≤ u64_max → SIM.keeps i cut num = Ok (keptb i cut num).
Proof.
  intros Hi. unfold SIM.keeps, keptb, u64_mul. destruct ((num =? 0) || (cut <? num)); [done|].
  by rewrite (proj2 (Z.leb_le _ _) Hi).
Qed.

Lemma retained_ok i cut (c : gmap Z State) : i * 10 ≤ u64_max →
  ∃ c', SIM.retained i cut (map_to_list c) = Ok c' ∧ ∀ k, c' !! k = if keptb i cut k then c !! k else None.
Proof.
  intros Hi. assert (∀ l, NoDup l.*1 → ∃ c' : gmap Z State, SIM.retained i cut l = Ok c' ∧
    ∀ k s, c' !! k = Some s ↔ (k, s) ∈ l ∧ keptb i cut k = true) as H.
  { induction l as [|[k s] l IH]; cbn [SIM.retained fmap list_fmap]; intros Hnd.
    { exists ∅. split; [done|]. intros k s. rewrite lookup_empty. set_solver. }
    apply NoDup_cons in Hnd as [Hk Hnd]. destruct (IH Hnd) as (c' & -> & Hc). rewrite keeps_ok by done. cbn [mbind outcome_bind].
    eexists. split; [reflexivity|]. intros k' s'. rewrite elem_of_cons. destruct (keptb i cut k) eqn:Ek.
    - rewrite lookup_insert_Some, Hc. split; [naive_solver|]. intros [[[= -> ->]|Hin] Hk']; [by left|right].
      split; [|done]. intros ->. apply Hk, list_elem_of_fmap. by exists (k', s').
    - rewrite Hc. split; [naive_solver|]. intros [[[= -> ->]|Hin] Hk']; [congruence|done]. }
  destruct (H (map_to_list c)) as (c' & -> & Hc); [apply NoDup_fst_map_to_list|].
  exists c'. split; [done|]. intros k. apply option_eq. intros s. rewrite Hc, elem_of_map_to_list.
  destruct (keptb i cut k); naive_solver.
Qed.

(** What pruning keeps, and that it never loses the first state. *)
Lemma prune_ok m : sx_interval m * 10 ≤ u64_max → ∃ c', SIM.prune m = (Ok tt, SIM.set_checkpoints c' m) ∧ c' ⊆ sx_checkpoints m ∧
  c' !! 0 = sx_checkpoints m !! 0.
Proof.
  intros Hi. unfold SIM.prune.
  assert (∃ c', (Ok tt, m) = (@Ok DsmError unit tt, SIM.set_checkpoints c' m) ∧ c' ⊆ sx_checkpoints m ∧ c' !! 0 = sx_checkpoints m !! 0) as Hid
    by (exists (sx_checkpoints m); by destruct m).
  destruct (sx_max_age m) as [age|]; [|done]. destruct (age <? sx_highest m); [|done].
  destruct (retained_ok (sx_interval m) (sx_highest m - age) (sx_checkpoints m) Hi) as (c' & -> & Hc).
  exists c'. split; [done|]. split; [|by rewrite Hc].
  apply map_subseteq_spec. intros k s. rewrite Hc. by destruct (keptb _ _ k).
Qed.

Lemma nearest_spec keys n : match SIM.nearest keys n with
  | Some k => k ∈ keys ∧ k ≤ n ∧ ∀ k', k' ∈ keys → k' ≤ n → k' ≤ k
  | None => ∀ k, k ∈ keys → n < k
  end.
Proof.
  induction keys as [|x keys IH]; [by intros k ?%elem_of_nil|].
  change (SIM.nearest (x :: keys) n) with
    (if x <=? n then match SIM.nearest keys n with Some b => Some (Z.max x b) | None => Some x end else SIM.nearest keys n).
  destruct (Z.leb_spec x n) as [Hx|Hx].
  - destruct (SIM.nearest keys n) as [b|].
    + destruct IH as (Hin & Hb & Hmax). split_and!; [|lia|].
      * destruct (Z.max_spec x b) as [[_ ->]|[_ ->]]; set_solver.
      * intros k' [->|Hk']%elem_of_cons Hle; [lia|]. specialize (Hmax k' Hk' Hle). lia.
    + split_and!; [left|done|]. intros k' [->|Hk']%elem_of_cons Hle; [lia|]. specialize (IH k' Hk'). lia.
  - destruct (SIM.nearest keys n) as [b|].
    + destruct IH as (Hin & Hb & Hmax). split_and!; [by right|done|].
      intros k' [->|Hk']%elem_of_cons Hle; [lia|]. by apply Hmax.
    + intros k' [->|Hk']%elem_of_cons; [done|by apply IH].
Qed.

Section Chain.
Context (c : Z → option State) (Hc : canonical c).

Lemma chain_defined k : ∀ n s, 0 ≤ n → c (n + Z.of_nat k) = Some s → is_Some (c n).
Proof.
  induction k as [|k IH]; intros n s Hn Hs; [rewrite Z.add_0_r in Hs; by exists s|].
  destruct (can_prev c Hc (n + Z.of_nat k) s) as (s0 & Hs0 & _); [lia|by rewrite <- Z.add_assoc, Z.add_1_r, <- Nat2Z.inj_succ|].
  by eapply IH.
Qed.

Lemma traverse_chain k : ∀ n s t, 0 ≤ n → c n = Some s → c (n + Z.of_nat (S k)) = Some t →
  SIM.traverse (fun i => Ok (c i)) (S k) (n + 1) s = Ok (Some t).
Proof.
  induction k as [|k IH]; intros n s t Hn Hs Ht.
  - change (n + Z.of_nat 1) with (n + 1) in Ht. cbn [SIM.traverse mbind outcome_bind]. rewrite Ht.
    destruct (can_prev c Hc n t Hn Ht) as (s' & Hs' & Hh). rewrite Hs in Hs'. injection Hs' as <-. rewrite Hh.
    cbn [mbind outcome_bind]. by rewrite bool_decide_eq_true_2.
  - destruct (chain_defined (S k) (n + 1) t) as [s1 Hs1]; [lia|by replace (n + 1 + Z.of_nat (S k)) with (n + Z.of_nat (S (S k))) by lia|].
    change (SIM.traverse ?f (S (S k)) ?m s) with
      (o ← f m; match o with
        | Some s1 => h ← St.get_hash s; if negb (bool_decide (prev_state_hash s1 = h)) then Err (EValidation "Hash chain discontinuity at state {}")
                     else SIM.traverse f (S k) (m + 1) s1
        | None => Ok None end).
    cbn [mbind outcome_bind]. rewrite Hs1. destruct (can_prev c Hc n s1 Hn Hs1) as (s' & Hs' & Hh). rewrite Hs in Hs'. injection Hs' as <-.
    rewrite Hh. cbn [mbind outcome_bind]. rewrite bool_decide_eq_true_2 by done. cbn [negb].
    apply IH; [lia|done|]. by replace (n + 1 + Z.of_nat (S k)) with (n + Z.of_nat (S (S k))) by lia.
Qed.

Lemma lookup_exact m n s : sx_checkpoints_poisoned m = false → (∀ k s, sx_checkpoints m !! k = Some s → c k = Some s) →
  is_Some (sx_checkpoints m !! 0) → c n = Some s → SIM.get_state_by_number m n (fun i => Ok (c i)) = Ok (Some s).
Proof.
  intros Hp Hm [g Hg] Hs. unfold SIM.get_state_by_number, SIM.get_nearest_checkpoint_before. rewrite Hp.
  destruct (sx_checkpoints m !! n) as [s0|] eqn:E; [apply Hm in E; congruence|]. cbn [mbind outcome_bind].
  pose proof (nearest_spec (map fst (map_to_list (sx_checkpoints m))) n) as Hn. destruct (can_number c Hc n s Hs) as [_ H0].
  assert (∀ k, k ∈ map fst (map_to_list (sx_checkpoints m)) ↔ is_Some (sx_checkpoints m !! k)) as Hk.
  { intros k. rewrite list_elem_of_fmap. split.
    - intros ([k' t] & -> & Hin%elem_of_map_to_list). by exists t.
    - intros [t Ht]. exists (k, t). split; [done|]. by apply elem_of_map_to_list. }
  destruct (SIM.nearest _ n) as [k|].
  - destruct Hn as (Hin & Hle & _). apply Hk in Hin as [sk Hsk]. rewrite Hsk. destruct (Z.eqb_spec k n) as [->|Hne]; [congruence|].
    apply Hm in Hsk. destruct (can_number c Hc k sk Hsk) as [_ Hk0].
    replace (Z.to_nat (n - k)) with (S (Z.to_nat (n - k - 1))) by lia.
    apply traverse_chain; [done|done|]. by replace (k + Z.of_nat (S (Z.to_nat (n - k - 1)))) with n by lia.
  - exfalso. assert (n < 0) as Hlt by (apply Hn, Hk; by exists g). lia.
Qed.

(** Checkpoints are states of the chain, and the tree holds their hashes. *)
Definition index_ok (h : nat) (m : SparseIndexManager) : Prop :=
  sx_checkpoints_poisoned m = false ∧ sx_tree_poisoned m = false ∧
  (∀ k s, sx_checkpoints m !! k = Some s → c k = Some s) ∧
  match sx_tree m with
  | Some t => ∃ contents, represents h (SMT.hash_leaf <$> contents) t ∧
      ∀ k s x, sx_checkpoints m !! k = Some s → St.get_hash s = Ok x → contents !! k = Some x ∧ k < 2 ^ Z.of_nat h
  | None => True
  end.

Lemma index_ok_prune h m c' : c' ⊆ sx_checkpoints m → index_ok h m → index_ok h (SIM.set_checkpoints c' m).
Proof.
  intros Hsub (H1 & H2 & H3 & H4). split; [done|]. split; [done|]. split.
  - intros k s Hk. apply H3. by eapply lookup_weaken.
  - cbn [SIM.set_checkpoints sx_tree sx_checkpoints]. destruct (sx_tree m) as [t|]; [|done]. destruct H4 as (con & Hr & Hcon).
    exists con. split; [done|]. intros k s x Hk. apply Hcon. by eapply lookup_weaken.
Qed.

Lemma add_to_tree_ok h m s x : (h < 64)%nat → index_ok h m → c (state_number s) = Some s → St.get_hash s = Ok x →
  (is_Some (sx_tree m) → state_number s < 2 ^ Z.of_nat h) →
  let m1 := SIM.set_checkpoints (<[state_number s := s]> (sx_checkpoints m)) m in
  ∃ m2, SIM.add_to_tree (state_number s) x m1 = (Ok tt, m2) ∧ index_ok h m2 ∧ sx_checkpoints m2 = sx_checkpoints m1 ∧
    sx_interval m2 = sx_interval m ∧ (is_Some (sx_tree m2) ↔ is_Some (sx_tree m)).
Proof.
  intros Hh (H1 & H2 & H3 & H4) Hs Hx Hfit m1. set (n := state_number s) in *.
  assert (∀ k s', <[n := s]> (sx_checkpoints m) !! k = Some s' → c k = Some s') as H3'.
  { intros k s' [[<- <-]|[_ Hk]]%lookup_insert_Some; [done|by apply H3]. }
  unfold SIM.add_to_tree. change (mbind_st mget ?f m1) with (f m1 m1). cbn [m1 SIM.set_checkpoints sx_tree].
  destruct (sx_tree m) as [t|] eqn:Et.
  - destruct H4 as (con & Hr & Hcon). destruct (can_number c Hc n s Hs) as [_ H0].
    destruct (insert_represents h _ t n x Hr Hh) as (t' & Hi & Hr'); [split; [done|]; apply Hfit; by eexists|].
    exists (SIM.set_tree t' m1). split; [|split; [|by split_and!]].
    + unfold mbind_st, SIM.lock_tree. cbn [m1 SIM.set_checkpoints sx_tree_poisoned]. rewrite H2.
      unfold SIM.guarded, SIM.insert_in_tree. by rewrite Hi.
    + split; [done|]. split; [done|]. split; [exact H3'|]. cbn [SIM.set_tree sx_tree sx_checkpoints m1 SIM.set_checkpoints].
      exists (<[n := x]> con). rewrite fmap_insert. split; [done|].
      intros k s' y [[<- <-]|[Hne Hk]]%lookup_insert_Some Hy.
      * rewrite lookup_insert_eq. split; [congruence|apply Hfit; by eexists].
      * rewrite lookup_insert_ne by done. by eapply Hcon.
  - exists m1. split; [done|]. split; [|by rewrite <- Et]. split; [done|]. split; [done|]. split; [exact H3'|].
    cbn [m1 SIM.set_checkpoints sx_tree]. by rewrite Et.
Qed.

Lemma add_ok h m s : (h < 64)%nat → 1 ≤ sx_interval m → sx_interval m * 10 ≤ u64_max → index_ok h m → c (state_number s) = Some s →
  (is_Some (sx_tree m) → state_number s < 2 ^ Z.of_nat h) →
  ∃ m', SIM.add_state s m = (Ok tt, m') ∧ index_ok h m' ∧ sx_interval m' = sx_interval m ∧
    (is_Some (sx_tree m') ↔ is_Some (sx_tree m)) ∧
    (is_Some (sx_checkpoints m !! 0) ∨ state_number s = 0 → is_Some (sx_checkpoints m' !! 0)).
Proof.
  intros Hh Hi1 Hi2 Hok Hs Hfit. destruct (can_hash c Hc _ s Hs) as [x Hx]. unfold SIM.add_state.
  unfold mbind_st at 1, mlift at 1. rewrite Hx. unfold mbind_st at 1 2 3, mmod at 1 2, mget at 1.
  set (m0 := if _ <? _ then _ else _).
  assert (index_ok h m0 ∧ sx_interval m0 = sx_interval m ∧ sx_tree m0 = sx_tree m ∧ sx_checkpoints m0 = sx_checkpoints m) as (Hok0 & Ei & Et & Ec)
    by (unfold m0; destruct (_ <? _); done).
  clearbody m0. rewrite <- Ei in *. rewrite <- Et in *. rewrite <- Ec in *. clear m Hok Ei Et Ec. unfold SIM.is_checkpoint.
  rewrite (proj2 (Z.eqb_neq (sx_interval m0) 0)) by lia. unfold mbind_st at 1, mlift.
  destruct ((_ =? 0) || (state_number s =? 0)) eqn:Et.
  - unfold mbind_st at 1, SIM.lock_checkpoints. rewrite (proj1 Hok0). unfold mbind_st at 1, mmod.
    destruct (add_to_tree_ok h m0 s x Hh Hok0 Hs Hx Hfit) as (m2 & Ha & Hok2 & Ec2 & Ei2 & Et2).
    unfold mbind_st at 1. rewrite Ha. destruct (prune_ok m2) as (c' & Hp & Hsub & H0); [by rewrite Ei2|].
    unfold SIM.guarded. rewrite Hp. exists (SIM.set_checkpoints c' m2). split; [done|]. split; [by apply index_ok_prune|].
    split; [done|]. split; [done|]. cbn [SIM.set_checkpoints sx_checkpoints]. rewrite H0, Ec2. cbn [SIM.set_checkpoints sx_checkpoints].
    intros [H|H]; [apply lookup_insert_is_Some'; by right|]. rewrite H. apply lookup_insert_is_Some'. by left.
  - exists m0. apply orb_false_iff in Et as [_ Hn%Z.eqb_neq]. split; [done|]. split; [done|]. split; [done|]. split; [done|]. by intros [H|H].
Qed.

End Chain.

(** ** Properties *)

(** C35: the index finds every state of a chain, when its checkpoint interval is
    at least 1 and ten times it fits a u64 (with 0 it panics) and the height of its
    tree is below 64: fed with any selection of the chain's states in any order and
    number, the first one among them, and with a Merkle tree only states whose
    number is below 2^height (another one fails after its checkpoint is stored),
    every call succeeds, whatever is pruned; then every state of the chain is
    returned by its number when the rest is fetched from the chain itself, and with
    a Merkle tree every checkpoint has a proof that verifies. *)
Theorem sparse_index_exact (c : Z → option State) (interval : Z) (tree : bool) (height max_age : option Z) (states : list State) :
  canonical c → 1 ≤ interval → interval * 10 ≤ u64_max → 0 ≤ unwrap_or 20 height < 64 →
  Forall (fun s => c (state_number s) = Some s ∧ (tree = true → state_number s < 2 ^ unwrap_or 20 height)) states →
  Exists (fun s => state_number s = 0) states →
  ∃ m, add_states states (SIM.new interval tree height max_age) = (Ok tt, m) ∧
    (∀ n s, c n = Some s → SIM.get_state_by_number m n (fun i => Ok (c i)) = Ok (Some s)) ∧
    (tree = true → ∀ k s, sx_checkpoints m !! k = Some s →
       ∃ p, SIM.generate_merkle_proof m k = Ok (Some p) ∧ SIM.verify_merkle_proof m s p = Ok true).
Proof.
  intros Hc Hi1 Hi2 Hh Hs Hex. set (h := Z.to_nat (unwrap_or 20 height)).
  assert (Hz : unwrap_or 20 height = Z.of_nat h) by lia. rewrite Hz in *.
  assert (∀ l m, sx_interval m = interval → (is_Some (sx_tree m) ↔ tree = true) → index_ok c h m →
    Forall (fun s => c (state_number s) = Some s ∧ (tree = true → state_number s < 2 ^ Z.of_nat h)) l →
    ∃ m', add_states l m = (Ok tt, m') ∧ index_ok c h m' ∧ (is_Some (sx_tree m') ↔ tree = true) ∧
      (is_Some (sx_checkpoints m !! 0) ∨ Exists (fun s => state_number s = 0) l → is_Some (sx_checkpoints m' !! 0))) as Hrun.
  { induction l as [|s l IH]; intros m Ei Et Hok Hl.
    { exists m. split; [done|]. split; [done|]. split; [exact Et|]. intros [?|Hn]; [done|by apply Exists_nil in Hn]. }
    apply Forall_cons in Hl as [[Hcs Hfit] Hl]. cbn [add_states].
    destruct (add_ok c Hc h m s) as (m1 & Ha & Hok1 & Ei1 & Et1 & H01); [lia|lia|lia|done|done|by rewrite Et|].
    destruct (IH m1) as (m' & Hm & Hok' & Et' & H0'); [lia|by rewrite Et1|done|done|].
    exists m'. split; [|split; [done|split; [done|]]]; [by unfold mbind_st; rewrite Ha|].
    intros [H|H]; [apply H0'; left; apply H01; by left|]. apply Exists_cons in H as [H|H]; [apply H0'; left; apply H01; by right|].
    apply H0'. by right. }
  destruct (Hrun states (SIM.new interval tree height max_age)) as (m & Hm & (Hp & Htp & Hcp & Ht) & Et & H0); [done| | |done|].
  { unfold SIM.new. cbn. destruct tree; split; try done; by intros [? ?]. }
  { split; [done|]. split; [done|]. split; [intros k s; cbn; by rewrite lookup_empty|]. unfold SIM.new. cbn [sx_tree]. destruct tree; [|done].
    exists ∅. rewrite fmap_empty, Hz. split; [apply new_represents|]. intros k s x. cbn. by rewrite lookup_empty. }
  exists m. split; [done|]. split.
  - intros n s Hn. apply lookup_exact; [done|done|done| |done]. apply H0. by right.
  - intros Htree k s Hk. apply Et in Htree as [t Et']. rewrite Et' in Ht. destruct Ht as (con & Hr & Hcon).
    apply Hcp in Hk as Hck. destruct (can_hash c Hc k s Hck) as [x Hx], (can_number c Hc k s Hck) as [_ Hk0].
    destruct (Hcon k s x Hk Hx) as [Hin Hlt].
    destruct (get_proof_climbs h _ t k (SMT.hash_leaf x) Hr) as (p & Hgp & _ & Hpi & _ & Hcl); [lia|done|by rewrite lookup_fmap, Hin|].
    exists p. unfold SIM.generate_merkle_proof, SIM.verify_merkle_proof. rewrite Et', Htp, Hgp, Hx. split; [done|].
    cbn [mbind outcome_bind]. unfold SMT.verify_proof. by rewrite Hpi, Hcl, bool_decide_eq_true_2.
Qed.

(** A fetched state is only compared by the hash it names: after a checkpoint,
    whatever the callback returns with the checkpoint's hash as its predecessor is
    returned as the next state, whatever its number and its own hash are. *)
Theorem fetched_states_unchecked (m : SparseIndexManager) (n : Z) (s s' : State) (h : bytes) :
  sx_checkpoints_poisoned m = false → sx_checkpoints m = {[n := s]} → St.get_hash s = Ok h → prev_state_hash s' = h →
  SIM.get_state_by_number m (n + 1) (fun _ => Ok (Some s')) = Ok (Some s').
Proof.
  intros Hp Hm Hh Hs. unfold SIM.get_state_by_number, SIM.get_nearest_checkpoint_before. rewrite Hp, Hm, lookup_singleton_ne by lia.
  rewrite map_to_list_singleton. cbn [map fst SIM.nearest foldr]. rewrite (proj2 (Z.leb_le _ _)) by lia. cbn [mbind outcome_bind].
  rewrite lookup_singleton_eq, (proj2 (Z.eqb_neq _ _)) by lia. replace (Z.to_nat (n + 1 - n)) with 1%nat by lia.
  cbn [SIM.traverse mbind outcome_bind]. rewrite Hh. cbn [mbind outcome_bind]. by rewrite bool_decide_eq_true_2.
Qed.

End SIndexFacts.

(** ** Witnesses *)

Module SIndexWitness.
#[local] Existing Instances Toy.toy_blake3 Toy.toy_runtime toy_bincode_operation
  ToySt.toy_bincode_balance ToySt.toy_bincode_precommitment.
Import ToyTr.

Definition two (n : Z) : option State := if n =? 0 then Some g0 else if n =? 1 then Some s1 else None.

Lemma two_canonical : canonical two.
Proof.
  split; unfold two; intros n s.
  - destruct (Z.eqb_spec n 0) as [->|]; [intros [= <-]; split; [reflexivity|lia]|].
    destruct (Z.eqb_spec n 1) as [->|]; [intros [= <-]; split; [vm_compute; reflexivity|lia]|done].
  - destruct (Z.eqb_spec n 0) as [->|]; [intros [= <-]; exists (hash g0); vm_compute; reflexivity|].
    destruct (Z.eqb_spec n 1) as [->|]; [intros [= <-]; exists (hash s1); vm_compute; reflexivity|done].
  - intros Hn. rewrite (proj2 (Z.eqb_neq (n + 1) 0)) by lia. destruct (Z.eqb_spec (n + 1) 1) as [E|]; [|done].
    intros [= <-]. exists g0. replace n with 0 by lia. split; [reflexivity|]. vm_compute. reflexivity.
Qed.

Lemma sparse_index_exact_witness :
  ∃ m, add_states [s1; g0] (SIM.new 5 true None None) = (Ok tt, m) ∧ SIM.get_state_by_number m 1 (fun i => Ok (two i)) = Ok (Some s1).
Proof.
  destruct (sparse_index_exact two 5 true None None [s1; g0] two_canonical) as (m & H1 & H2 & _).
  - lia.
  - vm_compute. discriminate.
  - cbn. lia.
  - constructor; [split; [vm_compute; reflexivity|intros _; vm_compute; reflexivity]|].
    constructor; [split; [vm_compute; reflexivity|intros _; vm_compute; reflexivity]|constructor].
  - right. left. reflexivity.
  - exists m. split; [exact H1|]. apply H2. reflexivity.
Defined.

Definition impostor : State := St.set_hash [] s1.
Lemma fetched_states_unchecked_witness :
  SIM.get_state_by_number (SIM.set_checkpoints {[7 := g0]} (SIM.new 7 false None None)) (7 + 1) (fun _ => Ok (Some impostor)) = Ok (Some impostor).
Proof.
  apply (fetched_states_unchecked (SIM.set_checkpoints {[7 := g0]} (SIM.new 7 false None None)) 7 g0 impostor (hash g0)).
  - reflexivity.
  - reflexivity.
  - vm_compute. reflexivity.
  - vm_compute. reflexivity.
Defined.
End SIndexWitness.
