(* ===== verification/Identity.v ===== *)
(** * Identities (dsm/src/core/identity/genesis.rs, dsm/src/core/identity/mod.rs)

    Genesis states from threshold contributions, device genesis states derived
    from them, their verification, invalidation requests, and the store of
    identities.  The random generator [thread_rng] is a state with two draws; what
    the key generators draw is an argument.  The store's lock is never poisoned
    in the model, since nothing panics while it is held. *)
From S2P Require Import Prelude Tokens Operations SparseIdx States RandomWalk Transition Relationship Sphincs Keys Kyber Pedersen.

(** ** The random generator *)

Class Rng (R : Type) := {
  rng_fill : nat → R → bytes * R;      (* fill_bytes on a buffer of this length *)
  rng_u32 : R → Z * R;                 (* next_u32 *)
  rng_fill_length : ∀ n r, length (rng_fill n r).1 = n;
  rng_u32_range : ∀ r, 0 ≤ (rng_u32 r).1 < 2 ^ 32;
}.

(** The parameter set [mlkem1024]. *)
Definition kem1024 : KemSizes := mkKemSizes (Z.to_nat 1568) (Z.to_nat 3168) (Z.to_nat 1568) 32.

(** ** Data *)

Record SigningKey := mkSigningKey { sg_public_key : bytes; sg_secret_key : bytes }.
Record KyberKey := mkKyberKey { ky_public_key : bytes; ky_secret_key : bytes }.
Record Contribution := mkContribution { cb_data : bytes; cb_verified : bool }.

Record GenesisState := mkGenesis {
  gs_hash : bytes;
  gs_initial_entropy : bytes;
  gs_threshold : nat;
  gs_participants : gset string;
  gs_merkle_root : option bytes;
  gs_device_id : option string;
  gs_signing_key : SigningKey;
  gs_kyber_keypair : KyberKey;
  gs_contributions : list Contribution;
}.

Record DeviceIdentity := mkDeviceIdentity {
  di_device_id : string;
  di_sub_genesis : GenesisState;
  di_current_state : option State;
  di_sparse_indices : gmap Z bytes;
}.

Record Identity := mkIdentity {
  id_name : string;
  id_master_genesis : GenesisState;
  id_devices : list DeviceIdentity;
  id_invalidated : bool;
}.

Inductive IdentityError :=
  | IdentityNotFound (msg : string)
  | IdInvalidParameter (msg : string)
  | GenesisError (msg : string)
  | DeviceError (msg : string)
  | DuplicateDevice (msg : string)
  | IdentityInvalidated (msg : string).

(** [slice::swap] *)
Definition swap {A} (i j : nat) (l : list A) : outcome (list A) :=
  match l !! i, l !! j with
  | Some a, Some b => Ok (<[i := b]> (<[j := a]> l))
  | _, _ => Panic
  end.

(** [v[i].clone()] for each index. *)
Definition pick {A} (items : list A) (indices : list nat) : outcome (list A) :=
  unwrap (mapM (fun i => items !! i) indices).

Module Gen.
Section Gen.
Context {B3 : Blake3} {S3 : Sha3} {K : Mlkem kem1024} {R : Type} {RNG : Rng R}.

(** ** Helpers *)

Definition generate_secure_random (len : nat) : M R bytes := fun r =>
  let '(b, r) := rng_fill len r in (Ok b, r).

Definition next_u32 : M R Z := fun r => let '(u, r) := rng_u32 r in (Ok u, r).

(** [sha3_256] computes SHA3-512. *)
Definition sha3_256 (data : bytes) : outcome bytes := Ok (sha3_512 data).
Definition blake3_hash (data : bytes) : outcome bytes := Ok (blake3 data).

(** [for i in 0..count]: [k] turns left. *)
Fixpoint shuffle (k i n : nat) (indices : list nat) : M R (list nat) :=
  match k with
  | O => mret_st indices
  | S k =>
      let* u := next_u32 in
      let j := (Z.to_nat (u mod Z.of_nat (n - i)) + i)%nat in
      let* indices := mlift (swap i j indices) in
      shuffle k (S i) n indices
  end.

Definition select_random_subset {T} (items : list T) (count : nat) : M R (list T) :=
  if (length items <? count)%nat then mfail (EInvalidParameter "Subset count larger than input size")
  else
    let* indices := shuffle count 0 (length items) (seq 0 (length items)) in
    mlift (pick items (take count indices)).

(** ** Keys *)

Definition SigningKey_new (random : bytes) : outcome SigningKey :=
  '(pk, sk) ← Sphincs.generate_sphincs_keypair random; Ok (mkSigningKey pk sk).
Definition sign (k : SigningKey) (message : bytes) : outcome bytes := Sphincs.sphincs_sign (sg_secret_key k) message.
Definition verify (k : SigningKey) (message signature : bytes) : outcome bool :=
  Sphincs.sphincs_verify (sg_public_key k) message signature.

Definition KyberKey_new (random : bytes) : outcome KyberKey :=
  let '(pk, sk) := kem_keypair random in Ok (mkKyberKey pk sk).
Definition encapsulate (k : KyberKey) (random recipient_public_key : bytes) : outcome (bytes * bytes) :=
  pk ← ok_or (ECrypto "Invalid Kyber public key") (sized (public_key_size kem1024) recipient_public_key);
  Ok (kem_encapsulate random pk).
Definition decapsulate (k : KyberKey) (ciphertext : bytes) : outcome bytes :=
  sk ← ok_or (ECrypto "Invalid Kyber secret key") (sized (secret_key_size kem1024) (ky_secret_key k));
  ct ← ok_or (ECrypto "Invalid Kyber ciphertext") (sized (ciphertext_size kem1024) ciphertext);
  Ok (kem_decapsulate ct sk).

(** ** Digests *)

Definition calculate_genesis_hash (contributions : list bytes) (anchor : string) : outcome bytes :=
  Ok (sha3_512 (str_bytes anchor ++ concat contributions)).
Definition calculate_initial_entropy (genesis_hash : bytes) (contributions : list bytes) : outcome bytes :=
  Ok (sha3_512 (genesis_hash ++ concat contributions)).
Definition calculate_device_entropy (sub_genesis_hash master_entropy : bytes) (device_id : string)
    (device_specific_entropy : bytes) : outcome bytes :=
  Ok (sha3_512 (sub_genesis_hash ++ master_entropy ++ str_bytes device_id ++ device_specific_entropy)).

(** ** Genesis states *)

(** [for _ in 1..participants_set.len()] *)
Fixpoint simulate (k : nat) : M R (list bytes) :=
  match k with
  | O => mret_st []
  | S k => let* simulated := generate_secure_random 32 in let* rest := simulate k in mret_st (simulated :: rest)
  end.

Definition threshold_error : DsmError :=
  EInvalidParameter "Threshold must be greater than 0 and not larger than participant count".

(** What [create_genesis_state] and [create_composite_genesis] do with the
    selected contributions; [sr] and [kr] are what the key generators draw. *)
Definition assemble_genesis (sr kr : bytes) (selected : list bytes) (anchor : string) (threshold : nat)
    (participants : gset string) : outcome GenesisState :=
  genesis_hash ← calculate_genesis_hash selected anchor;
  initial_entropy ← calculate_initial_entropy genesis_hash selected;
  signing_key ← SigningKey_new sr;
  kyber_keypair ← KyberKey_new kr;
  Ok (mkGenesis genesis_hash initial_entropy threshold participants None None signing_key kyber_keypair
        (map (fun c => mkContribution c true) selected)).

Definition create_genesis_state (sr kr : bytes) (threshold : nat) (participants : list string) : M R GenesisState :=
  let participants_set : gset string := list_to_set participants in
  if (threshold =? 0)%nat || (size participants_set <? threshold)%nat then mfail threshold_error
  else
    let* secret_share := generate_secure_random 32 in
    let* blinding_factor := generate_secure_random 32 in
    let* sha3_hash := mlift (sha3_256 secret_share) in
    let* blinding_hash := mlift (sha3_256 blinding_factor) in
    let* pedersen_commit := mlift (blake3_hash (sha3_hash ++ blinding_hash)) in
    let* simulated := simulate (size participants_set - 1) in
    let* selected := select_random_subset (pedersen_commit :: simulated) threshold in
    mlift (assemble_genesis sr kr selected "genesis" threshold participants_set).

Definition create_composite_genesis (sr kr : bytes) (participant_contributions : list bytes) (threshold : nat)
    (anchor : string) : M R GenesisState :=
  if (threshold =? 0)%nat || (length participant_contributions <? threshold)%nat then mfail threshold_error
  else
    let* selected := select_random_subset participant_contributions threshold in
    mlift (assemble_genesis sr kr selected anchor threshold
      (list_to_set (map (fun i => "participant_" +:+ pretty (Z.of_nat i)) (seq 0 (length participant_contributions))))).

Definition derive_device_genesis (sr kr : bytes) (master : GenesisState) (device_id : string)
    (device_specific_entropy : bytes) : outcome GenesisState :=
  sub_genesis_hash ← blake3_hash (gs_hash master ++ str_bytes device_id ++ device_specific_entropy);
  signing_key ← SigningKey_new sr;
  kyber_keypair ← KyberKey_new kr;
  initial_entropy ← calculate_device_entropy sub_genesis_hash (gs_initial_entropy master) device_id device_specific_entropy;
  Ok (mkGenesis sub_genesis_hash initial_entropy 1 {[ device_id ]} (Some (gs_hash master)) (Some device_id)
        signing_key kyber_keypair [mkContribution device_specific_entropy true]).

Definition verify_genesis_state (genesis : GenesisState) : outcome bool :=
  if (length (gs_contributions genesis) <? gs_threshold genesis)%nat then Ok false
  else
    let contribution_data := map cb_data (gs_contributions genesis) in
    calculated_hash ← calculate_genesis_hash contribution_data "genesis";
    if negb (bool_decide (calculated_hash = gs_hash genesis)) then Ok false
    else
      calculated_entropy ← calculate_initial_entropy (gs_hash genesis) contribution_data;
      if negb (bool_decide (calculated_entropy = gs_initial_entropy genesis)) then Ok false else Ok true.

Definition get_signing_key_bytes (g : GenesisState) : outcome bytes := Ok (sg_secret_key (gs_signing_key g)).
Definition get_public_key_bytes (g : GenesisState) : outcome bytes := Ok (sg_public_key (gs_signing_key g)).

(** ** Invalidation requests *)

Definition id (i : Identity) : string := hex_encode (take 16 (blake3 (gs_hash (id_master_genesis i)))).

Definition create_invalidation_request (i : Identity) (reason : string) : outcome bytes :=
  Ok (str_bytes "INVALIDATE:" ++ str_bytes (id i) ++ str_bytes ":" ++ str_bytes reason).

(** [str::split(':')]: the separator is one byte, so splitting the text and its
    bytes is the same. *)
Fixpoint split_colon (b : bytes) : list bytes :=
  match b with
  | [] => [[]]
  | x :: b =>
      if bool_decide (x = Byte.x3a) then [] :: split_colon b
      else match split_colon b with part :: parts => (x :: part) :: parts | [] => [[x]] end
  end.

Definition process_invalidation (i : Identity) (request : bytes) : outcome bool :=
  match from_utf8 request with
  | None => Err (EValidation "Invalid UTF-8 in invalidation request")
  | Some request_str =>
      let text := str_bytes request_str in
      if negb (bool_decide (str_bytes "INVALIDATE:" `prefix_of` text)) then Ok false
      else
        let parts := split_colon text in
        if (length parts <? 3)%nat then Ok false
        else
          target ← unwrap (parts !! 1%nat);
          if negb (bool_decide (target = str_bytes (id i))) then Ok false else Ok true
  end.

End Gen.
End Gen.

(** ** The identity store *)

Module Store.
Section Store.
Context {B3 : Blake3} {S3 : Sha3} {K : Mlkem kem1024} {R : Type} {RNG : Rng R}.

(** What one call draws: the identifier [Uuid::new_v4], the key material of the
    master and of the device, and the state of the generator. *)
Record IdDraws := mkIdDraws {
  dr_uuid : string;
  dr_master_keys : bytes * bytes;
  dr_device_keys : bytes * bytes;
  dr_rng : R;
}.

Definition get_identity (store : gmap string Identity) (genesis_id : string) : option Identity := store !! genesis_id.

Definition device_identity (keys : bytes * bytes) (master : GenesisState) (device_id : string)
    : outcome_of IdentityError DeviceIdentity :=
  match Gen.derive_device_genesis keys.1 keys.2 master device_id (zeros 32) with
  | Ok g => Ok (mkDeviceIdentity device_id g None ∅)
  | Err _ => Err (DeviceError "Device genesis derivation failed: {:?}")
  | Panic => Panic
  | Hang => Hang
  end.

Definition create_identity (d : IdDraws) (name : string) (threshold : nat) (participants : list string)
    : M_of IdentityError (gmap string Identity) Identity :=
  if (length participants <? threshold)%nat then
    mfail (IdInvalidParameter "Threshold cannot be greater than number of participants")
  else
    let* genesis := mlift
      match (Gen.create_genesis_state (dr_master_keys d).1 (dr_master_keys d).2 threshold participants (dr_rng d)).1 with
      | Ok g => Ok g
      | Err _ => Err (GenesisError "Genesis creation failed: {:?}")
      | Panic => Panic
      | Hang => Hang
      end in
    let* device := mlift (device_identity (dr_device_keys d) genesis (dr_uuid d)) in
    let identity := mkIdentity name genesis [device] false in
    do* mmod (fun store => <[Gen.id identity := identity]> store);
    mret_st identity.

Definition is_invalidated (store : gmap string Identity) (genesis_id : string) : outcome_of IdentityError bool :=
  identity ← ok_or (IdentityNotFound "Identity not found") (store !! genesis_id);
  Ok (id_invalidated identity).

Definition push_device (dev : DeviceIdentity) (i : Identity) : Identity :=
  mkIdentity (id_name i) (id_master_genesis i) (id_devices i ++ [dev]) (id_invalidated i).

Definition add_device (d : IdDraws) (genesis_id : string) : M_of IdentityError (gmap string Identity) DeviceIdentity :=
  let* store := mget in
  let* identity := mlift (ok_or (IdentityNotFound "Identity not found") (store !! genesis_id)) in
  if existsb (fun dev => bool_decide (di_device_id dev = dr_uuid d)) (id_devices identity) then
    mfail (DuplicateDevice "Device already registered for this identity")
  else
    let* device := mlift (device_identity (dr_device_keys d) (id_master_genesis identity) (dr_uuid d)) in
    do* mmod (fun store => <[genesis_id := push_device device identity]> store);
    mret_st device.

End Store.
End Store.

(** ** The random subset *)

Lemma swap_perm {A} i j (l l' : list A) : swap i j l = Ok l' → l' ≡ₚ l.
Proof.
  unfold swap. destruct (l !! i) as [a|] eqn:Hi; [|done]. destruct (l !! j) as [b|] eqn:Hj; [|done].
  intros H. apply Ok_inj in H as <-. apply Permutation_inj. rewrite !length_insert. split; [done|].
  exists (fun n => if decide (n = i) then j else if decide (n = j) then i else n). split.
  - intros x y. repeat case_decide; congruence.
  - intros n. pose proof (lookup_lt_Some _ _ _ Hi). pose proof (lookup_lt_Some _ _ _ Hj).
    destruct (decide (n = i)) as [->|Hni]; [by rewrite list_lookup_insert_eq by (by rewrite length_insert)|].
    rewrite (list_lookup_insert_ne _ i n) by done.
    destruct (decide (n = j)) as [->|Hnj]; [by rewrite list_lookup_insert_eq|by rewrite list_lookup_insert_ne].
Qed.

Lemma swap_total {A} i j (l : list A) : (i < length l)%nat → (j < length l)%nat → ∃ l', swap i j l = Ok l'.
Proof. intros [a Hi]%lookup_lt_is_Some [b Hj]%lookup_lt_is_Some. unfold swap. rewrite Hi, Hj. by eexists. Qed.

Lemma pick_perm {A} (items : list A) indices : indices ≡ₚ seq 0 (length items) →
  ∃ all, mapM (fun i => items !! i) indices = Some all ∧ all ≡ₚ items.
Proof.
  intros Hp. assert (Hs : mapM (fun i => items !! i) (seq 0 (length items)) = Some items).
  { apply mapM_Some, Forall2_same_length_lookup. rewrite length_seq. split; [done|]. intros i k x Hk Hx.
    apply lookup_seq in Hk as [-> _]. done. }
  enough (H : ∀ (l l' : list nat) all, l ≡ₚ l' → mapM (fun i => items !! i) l = Some all →
    ∃ all', mapM (fun i => items !! i) l' = Some all' ∧ all' ≡ₚ all) by (by apply (H _ _ items (symmetry Hp)) in Hs).
  clear. intros l l' all Hp. revert all.
  induction Hp as [|x l l' Hp IH|x y l|l l' l'' H1 IH1 H2 IH2]; intros all; cbn.
  - intros [= <-]. by eexists.
  - destruct (items !! x) as [a|]; [|done]. cbn. destruct (mapM _ l) as [r|]; [|done]. cbn. intros [= <-].
    destruct (IH r eq_refl) as (r' & -> & Hr). cbn. eexists. split; [done|]. by constructor.
  - destruct (items !! y) as [b|]; [|done]. cbn. destruct (items !! x) as [a|]; [|done]. cbn.
    destruct (mapM _ l) as [r|]; [|done]. cbn. intros [= <-]. eexists. split; [done|]. constructor.
  - intros H. destruct (IH1 all H) as (a1 & E1 & P1), (IH2 _ (proj1 (conj E1 P1))) as (a2 & E2 & P2). exists a2. split; [done|]. by rewrite P2.
Qed.

Section GenesisFacts.
Context {B3 : Blake3} {S3 : Sha3} {K : Mlkem kem1024} {R : Type} {RNG : Rng R}.

Lemma shuffle_run n k : ∀ i l r, (i + k ≤ n)%nat → length l = n →
  ∃ l' r', Gen.shuffle k i n l r = (Ok l', r') ∧ l' ≡ₚ l.
Proof.
  induction k as [|k IH]; intros i l r Hik Hl; cbn [Gen.shuffle]; [by exists l, r|].
  unfold mbind_st at 1, Gen.next_u32 at 1. destruct (rng_u32 r) as [u r1]. unfold mbind_st at 1, mlift at 1.
  pose proof (Z.mod_pos_bound u (Z.of_nat (n - i)) ltac:(lia)) as Hu.
  destruct (swap_total i (Z.to_nat (u mod Z.of_nat (n - i)) + i) l) as (l1 & Hs); [lia..|]. rewrite Hs.
  pose proof (swap_perm _ _ _ _ Hs) as Hp. destruct (IH (S i) l1 r1) as (l' & r' & Hr & Hp'); [lia|by rewrite Hp|].
  exists l', r'. split; [done|]. by rewrite Hp'.
Qed.

Lemma select_run {T} (items : list T) count r : (count ≤ length items)%nat →
  ∃ sel rest r', Gen.select_random_subset items count r = (Ok sel, r') ∧ length sel = count ∧ sel ++ rest ≡ₚ items.
Proof.
  intros Hc. unfold Gen.select_random_subset. rewrite (proj2 (Nat.ltb_ge _ _) Hc).
  destruct (shuffle_run (length items) count 0 (seq 0 (length items)) r) as (idx & r' & Hs & Hp);
    [lia|apply length_seq|].
  unfold mbind_st at 1. rewrite Hs. unfold mlift, pick. destruct (pick_perm items idx Hp) as (all & Ha & Hall).
  assert (Hlen : length idx = length items) by (rewrite Hp; apply length_seq).
  apply mapM_Some_1 in Ha. pose proof (Forall2_length _ _ _ Ha) as Hl.
  exists (take count all), (drop count all), r'.
  rewrite (mapM_Some_2 _ _ _ (Forall2_take _ _ _ count Ha)), take_drop, length_take. split_and!; [done|lia|done].
Qed.

Lemma simulate_run k : ∀ r, ∃ l r', Gen.simulate k r = (Ok l, r') ∧ length l = k.
Proof.
  induction k as [|k IH]; intros r; cbn [Gen.simulate]; [by exists [], r|].
  unfold mbind_st, Gen.generate_secure_random, mret_st. destruct (rng_fill 32 r) as [b r1].
  destruct (IH r1) as (l & r' & -> & Hl). exists (b :: l), r'. cbn. by rewrite Hl.
Qed.

Lemma assemble_inv sr kr sel anchor threshold parts g :
  Gen.assemble_genesis sr kr sel anchor threshold parts = Ok g →
  gs_hash g = sha3_512 (str_bytes anchor ++ concat sel) ∧ gs_initial_entropy g = sha3_512 (gs_hash g ++ concat sel) ∧
  gs_threshold g = threshold ∧ gs_participants g = parts ∧ map cb_data (gs_contributions g) = sel.
Proof.
  unfold Gen.assemble_genesis, Gen.calculate_genesis_hash, Gen.calculate_initial_entropy. cbn [mbind outcome_bind].
  intros (k & _ & (kk & _ & Hg)%bind_Ok)%bind_Ok. apply Ok_inj in Hg as <-. split_and!; try done.
  cbn [gs_contributions]. rewrite map_map. apply map_id.
Qed.

Lemma assemble_total sr kr sel anchor threshold parts : length sr = 96%nat →
  ∃ g, Gen.assemble_genesis sr kr sel anchor threshold parts = Ok g.
Proof.
  intros Hr. unfold Gen.assemble_genesis, Gen.SigningKey_new, Gen.KyberKey_new. cbn [mbind outcome_bind Gen.calculate_genesis_hash
    Gen.calculate_initial_entropy]. destruct (generate_keypair sr Hr) as (pk & sk & -> & _). cbn [mbind outcome_bind].
  destruct (kem_keypair kr). by eexists.
Qed.

(** When a genesis state verifies. *)
Lemma verify_genesis_iff g : Gen.verify_genesis_state g = Ok true ↔
  (gs_threshold g ≤ length (gs_contributions g))%nat ∧
  gs_hash g = sha3_512 (str_bytes "genesis" ++ concat (map cb_data (gs_contributions g))) ∧
  gs_initial_entropy g = sha3_512 (gs_hash g ++ concat (map cb_data (gs_contributions g))).
Proof.
  unfold Gen.verify_genesis_state, Gen.calculate_genesis_hash, Gen.calculate_initial_entropy. cbn [mbind outcome_bind].
  destruct (Nat.ltb_spec (length (gs_contributions g)) (gs_threshold g)) as [Hl|Hl]; [split; [done|lia]|].
  case_bool_decide as H1; cbn [negb]; [|split; [done|]; intros (_ & Hh & _); by rewrite Hh in H1].
  case_bool_decide as H2; cbn [negb]; [done|]. split; [done|]. intros (_ & _ & He). by rewrite He in H2.
Qed.

Lemma assembled_verifies sr kr sel threshold parts g :
  Gen.assemble_genesis sr kr sel "genesis" threshold parts = Ok g → length sel = threshold →
  Gen.verify_genesis_state g = Ok true.
Proof.
  intros (H1 & H2 & H3 & _ & H5)%assemble_inv Hlen. apply verify_genesis_iff.
  rewrite <- (length_map cb_data (gs_contributions g)), H5, H3, Hlen. done.
Qed.

Lemma create_genesis_run sr kr threshold participants r :
  (1 ≤ threshold ≤ size (list_to_set participants : gset string))%nat →
  ∃ sel r', Gen.create_genesis_state sr kr threshold participants r =
      (Gen.assemble_genesis sr kr sel "genesis" threshold (list_to_set participants), r') ∧ length sel = threshold.
Proof.
  intros Ht. unfold Gen.create_genesis_state.
  destruct (Nat.eqb_spec threshold 0) as [|_]; [lia|]. rewrite (proj2 (Nat.ltb_ge _ _) (proj2 Ht)). cbn [orb].
  unfold mbind_st at 1, Gen.generate_secure_random at 1. destruct (rng_fill 32 r) as [b1 r1].
  unfold mbind_st at 1, Gen.generate_secure_random at 1. destruct (rng_fill 32 r1) as [b2 r2].
  unfold Gen.sha3_256, Gen.blake3_hash. unfold mbind_st at 1, mlift at 1. unfold mbind_st at 1, mlift at 1.
  unfold mbind_st at 1, mlift at 1.
  destruct (simulate_run (size (list_to_set participants : gset string) - 1) r2) as (l & r3 & Hs & Hl).
  unfold mbind_st at 1. rewrite Hs.
  match goal with |- context [Gen.select_random_subset (?x :: l) _] =>
    destruct (select_run (x :: l) threshold r3) as (sel & rest & r4 & Hsel & Hlen & _); [cbn [length]; lia|] end.
  unfold mbind_st at 1. rewrite Hsel. by exists sel, r4.
Qed.

(** *** Invalidation requests *)

(** A byte of a hexadecimal text. *)
Definition plain (b : u8) : Prop := b ≠ Byte.x3a ∧ u8_val b ≤ 127.

Lemma hex_digit_plain n : 0 ≤ n < 16 → plain (Ascii.byte_of_ascii (hex_digit n)).
Proof.
  intros Hn. assert (n = 0 ∨ n = 1 ∨ n = 2 ∨ n = 3 ∨ n = 4 ∨ n = 5 ∨ n = 6 ∨ n = 7 ∨ n = 8 ∨ n = 9 ∨ n = 10 ∨
    n = 11 ∨ n = 12 ∨ n = 13 ∨ n = 14 ∨ n = 15) as Hc by lia.
  repeat destruct Hc as [->|Hc]; subst; (split; [discriminate|apply Z.leb_le; reflexivity]).
Qed.

Lemma str_bytes_ascii l : str_bytes (String.string_of_list_ascii l) = map Ascii.byte_of_ascii l.
Proof.
  unfold str_bytes, String.list_byte_of_string. by rewrite String.list_ascii_of_string_of_list_ascii.
Qed.

Lemma hex_plain b : Forall plain (str_bytes (hex_encode b)).
Proof.
  unfold hex_encode. rewrite str_bytes_ascii. induction b as [|x b IH]; [constructor|].
  rewrite fmap_cons. cbn [concat map app]. pose proof (coqutil.Byte.byte.unsigned_range x) as Hx.
  apply Forall_cons_2; [apply hex_digit_plain; pose proof (Z.div_lt_upper_bound (coqutil.Byte.byte.unsigned x) 16 16); split; [apply Z.div_pos|]; lia|].
  apply Forall_cons_2; [apply hex_digit_plain, Z.mod_pos_bound; lia|]. exact IH.
Qed.

Lemma split_colon_app a b : Byte.x3a ∉ a → Gen.split_colon (a ++ Byte.x3a :: b) = a :: Gen.split_colon b.
Proof.
  induction a as [|x a IH]; intros Ha; cbn [app Gen.split_colon].
  - by rewrite bool_decide_eq_true_2.
  - rewrite bool_decide_eq_false_2 by set_solver. rewrite IH by set_solver. done.
Qed.

Lemma split_colon_length b : (1 ≤ length (Gen.split_colon b))%nat.
Proof.
  induction b as [|x b IH]; cbn [Gen.split_colon]; [done|]. case_bool_decide; [cbn; lia|].
  destruct (Gen.split_colon b); cbn; lia.
Qed.

Lemma request_parts i reason :
  str_bytes "INVALIDATE:" ++ str_bytes (Gen.id i) ++ str_bytes ":" ++ str_bytes reason =
    str_bytes "INVALIDATE" ++ Byte.x3a :: (str_bytes (Gen.id i) ++ Byte.x3a :: str_bytes reason).
Proof. done. Qed.

Lemma plain_no_colon l : Forall plain l → Byte.x3a ∉ l.
Proof. intros H Hin. rewrite Forall_forall in H. by destruct (H _ Hin). Qed.

Lemma process_request i i' reason : utf8_valid (str_bytes reason) = true →
  Gen.process_invalidation i' (str_bytes "INVALIDATE:" ++ str_bytes (Gen.id i) ++ str_bytes ":" ++ str_bytes reason) =
    Ok (bool_decide (Gen.id i = Gen.id i')).
Proof.
  intros Hu. set (req := str_bytes "INVALIDATE:" ++ str_bytes (Gen.id i) ++ str_bytes ":" ++ str_bytes reason).
  pose proof (hex_plain (take 16 (blake3 (gs_hash (id_master_genesis i))))) as Hp. fold (Gen.id i) in Hp.
  assert (Hv : utf8_valid req = true).
  { unfold req. rewrite utf8_valid_ascii by (repeat (apply Forall_cons_2; [apply Z.leb_le; reflexivity|]); constructor).
    rewrite utf8_valid_ascii by (eapply Forall_impl; [exact Hp|intros ? []; done]).
    rewrite utf8_valid_ascii by (repeat (apply Forall_cons_2; [apply Z.leb_le; reflexivity|]); constructor). done. }
  unfold Gen.process_invalidation, from_utf8. rewrite Hv.
  assert (Hreq : str_bytes (String.string_of_list_byte req) = req) by apply String.list_byte_of_string_of_list_byte.
  cbn zeta. rewrite Hreq. rewrite bool_decide_eq_true_2 by (unfold req; by eexists). cbn [negb].
  assert (Hw : Byte.x3a ∉ str_bytes "INVALIDATE").
  { apply plain_no_colon. repeat (apply Forall_cons_2; [split; [discriminate|apply Z.leb_le; reflexivity]|]). constructor. }
  unfold req. rewrite request_parts, split_colon_app, split_colon_app by (done || by apply plain_no_colon).
  cbn [length]. pose proof (split_colon_length (str_bytes reason)). rewrite (proj2 (Nat.ltb_ge _ _)) by lia.
  cbn [lookup list_lookup unwrap mbind outcome_bind]. case_bool_decide as H1; cbn [negb].
  - rewrite bool_decide_eq_true_2; [done|]. apply (f_equal String.string_of_list_byte) in H1. unfold str_bytes in H1.
    by rewrite !String.string_of_list_byte_of_string in H1.
  - rewrite bool_decide_eq_false_2; [done|]. intros E. by rewrite E in H1.
Qed.

End GenesisFacts.

(** ** Properties *)

Section IdentityProperties.
Context {B3 : Blake3} {S3 : Sha3} {K : Mlkem kem1024} {R : Type} {RNG : Rng R}.

(** The threshold selection draws without replacement: for every generator a
    request for at most all items returns as many items as asked for, and these
    together with some rest are a permutation of the items; a larger request is
    refused and leaves the generator untouched. *)
Theorem select_without_replacement {T} (items : list T) (count : nat) (r : R) :
  if (length items <? count)%nat
  then Gen.select_random_subset items count r = (Err (EInvalidParameter "Subset count larger than input size"), r)
  else ∃ sel rest r', Gen.select_random_subset items count r = (Ok sel, r') ∧ length sel = count ∧ sel ++ rest ≡ₚ items.
Proof.
  destruct (Nat.ltb_spec (length items) count) as [H|H].
  - unfold Gen.select_random_subset. by rewrite (proj2 (Nat.ltb_lt _ _) H).
  - by apply select_run.
Qed.

(** C22: genesis states round-trip through verification: for a threshold between
    one and the number of distinct participants, creation succeeds with every
    generator, keeps exactly [threshold] contributions and verifies; a composite
    genesis verifies exactly when its anchor is the word the verifier assumes,
    unless SHA3-512 maps its contributions after the anchor and after that word to
    one digest; and no device genesis ever verifies. *)
Theorem genesis_verification (sr kr : bytes) (threshold : nat) (participants : list string)
    (contributions : list bytes) (anchor : string) (r : R) :
  length sr = 96%nat → (1 ≤ threshold ≤ size (list_to_set participants : gset string))%nat →
  (threshold ≤ length contributions)%nat →
  (∃ g r', Gen.create_genesis_state sr kr threshold participants r = (Ok g, r') ∧
     length (gs_contributions g) = threshold ∧ gs_participants g = list_to_set participants ∧
     Gen.verify_genesis_state g = Ok true) ∧
  (∃ g r', Gen.create_composite_genesis sr kr contributions threshold anchor r = (Ok g, r') ∧
     (anchor = "genesis" → Gen.verify_genesis_state g = Ok true) ∧
     (Gen.verify_genesis_state g = Ok true → anchor = "genesis" ∨
       collision sha3_512 (map (fun a => str_bytes a ++ concat (map cb_data (gs_contributions g))) [anchor; "genesis"%string]))) ∧
  (∀ master device_id e g, Gen.derive_device_genesis sr kr master device_id e = Ok g →
     Gen.verify_genesis_state g = Ok false).
Proof.
  intros Hsr Ht Hc. split_and!.
  - destruct (create_genesis_run sr kr threshold participants r Ht) as (sel & r' & Hrun & Hlen).
    destruct (assemble_total sr kr sel "genesis" threshold (list_to_set participants) Hsr) as (g & Hg).
    rewrite Hg in Hrun. exists g, r'. pose proof (assembled_verifies _ _ _ _ _ _ Hg Hlen).
    apply assemble_inv in Hg as (_ & _ & _ & H4 & H5). split_and!; [done| |done|done].
    by rewrite <- (length_map cb_data), H5.
  - unfold Gen.create_composite_genesis. destruct (Nat.eqb_spec threshold 0) as [|_]; [lia|].
    rewrite (proj2 (Nat.ltb_ge _ _) Hc). cbn [orb]. destruct (select_run contributions threshold r Hc) as (sel & rest & r' & Hsel & Hlen & _).
    unfold mbind_st. rewrite Hsel. unfold mlift.
    match goal with |- context [Gen.assemble_genesis _ _ _ _ _ ?ps] =>
      destruct (assemble_total sr kr sel anchor threshold ps Hsr) as (g & Hg); rewrite Hg end.
    apply assemble_inv in Hg as (H1 & H2 & H3 & _ & H5).
    assert (Hl : length (gs_contributions g) = threshold) by (rewrite <- (length_map cb_data), H5; done).
    exists g, r'. split; [done|]. rewrite verify_genesis_iff, H5, Hl, H3. split; [intros ->; done|]. intros (_ & Hh & _).
    rewrite H1 in Hh. apply hash_bind in Hh as [E|?]; [left|by right].
    apply app_inv_tail in E. apply (f_equal String.string_of_list_byte) in E. unfold str_bytes in E.
    by rewrite !String.string_of_list_byte_of_string in E.
  - intros master device_id e g Hg. unfold Gen.derive_device_genesis, Gen.blake3_hash in Hg. cbn [mbind outcome_bind] in Hg.
    apply bind_Ok in Hg as (sk & _ & Hg). apply bind_Ok in Hg as (kk & _ & Hg). cbn [mbind outcome_bind] in Hg.
    apply Ok_inj in Hg as <-. unfold Gen.verify_genesis_state, Gen.calculate_genesis_hash. cbn.
    rewrite bool_decide_eq_false_2; [done|]. intros E%(f_equal length). by rewrite sha3_512_length, blake3_length in E.
Qed.

(** An invalidation request round-trips and names one identity: for every
    reason in valid UTF-8 the request an identity creates is accepted by exactly
    the identities with the same id. *)
Theorem invalidation_roundtrip (i i' : Identity) (reason : string) :
  utf8_valid (str_bytes reason) = true →
  ∃ req, Gen.create_invalidation_request i reason = Ok req ∧ Gen.process_invalidation i req = Ok true ∧
    Gen.process_invalidation i' req = Ok (bool_decide (Gen.id i = Gen.id i')).
Proof.
  intros Hu. eexists. split; [done|]. rewrite !process_request by done. by rewrite bool_decide_eq_true_2.
Qed.

(** *** The store *)

Inductive IdOp :=
  | CreateIdentity (d : Store.IdDraws (R := R)) (name : string) (threshold : nat) (participants : list string)
  | AddIdDevice (d : Store.IdDraws (R := R)) (genesis_id : string).

Definition apply_id_op (store : gmap string Identity) (op : IdOp) : gmap string Identity :=
  match op with
  | CreateIdentity d name threshold participants => (Store.create_identity d name threshold participants store).2
  | AddIdDevice d genesis_id => (Store.add_device d genesis_id store).2
  end.

(** A device as the store derives it from its master. *)
Definition device_of (master : GenesisState) (dev : DeviceIdentity) : Prop :=
  gs_hash (di_sub_genesis dev) = blake3 (gs_hash master ++ str_bytes (di_device_id dev) ++ zeros 32) ∧
  gs_merkle_root (di_sub_genesis dev) = Some (gs_hash master) ∧ gs_device_id (di_sub_genesis dev) = Some (di_device_id dev) ∧
  gs_participants (di_sub_genesis dev) = {[ di_device_id dev ]}.

Definition identity_ok (k : string) (i : Identity) : Prop :=
  k = Gen.id i ∧ id_invalidated i = false ∧ id_devices i ≠ [] ∧ NoDup (di_device_id <$> id_devices i) ∧
  Forall (device_of (id_master_genesis i)) (id_devices i) ∧ Gen.verify_genesis_state (id_master_genesis i) = Ok true.

Lemma device_identity_ok keys master device_id dev :
  Store.device_identity keys master device_id = Ok dev → di_device_id dev = device_id ∧ device_of master dev.
Proof.
  unfold Store.device_identity. destruct (Gen.derive_device_genesis _ _ _ _ _) as [g| | |] eqn:Hg; [|done..].
  intros H. apply Ok_inj in H as <-. unfold Gen.derive_device_genesis, Gen.blake3_hash in Hg. cbn [mbind outcome_bind] in Hg.
  apply bind_Ok in Hg as (sk & _ & Hg). apply bind_Ok in Hg as (kk & _ & Hg). cbn [mbind outcome_bind] in Hg.
  by apply Ok_inj in Hg as <-.
Qed.

(** Every genesis state that creation returns verifies. *)
Lemma create_genesis_verifies sr kr threshold participants r g :
  (Gen.create_genesis_state sr kr threshold participants r).1 = Ok g → Gen.verify_genesis_state g = Ok true.
Proof.
  intros Hg.
  assert (Ht : (1 ≤ threshold ≤ size (list_to_set participants : gset string))%nat).
  { unfold Gen.create_genesis_state in Hg. destruct (Nat.eqb_spec threshold 0); [done|].
    destruct (Nat.ltb_spec (size (list_to_set participants : gset string)) threshold); [done|]. lia. }
  destruct (create_genesis_run sr kr threshold participants r Ht) as (sel & r' & Hrun & Hlen). rewrite Hrun in Hg.
  by eapply assembled_verifies.
Qed.

Lemma apply_id_op_ok op store : map_Forall identity_ok store → map_Forall identity_ok (apply_id_op store op).
Proof.
  intros Hs. destruct op as [d name threshold participants|d gid]; cbn [apply_id_op].
  - unfold Store.create_identity. case_test; [done|]. unfold mbind_st, mlift, mmod, mret_st.
    destruct (Gen.create_genesis_state _ _ _ _ _).1 as [g| | |] eqn:Hg; try done.
    destruct (Store.device_identity _ _ _) as [dev| | |] eqn:Hd; try done. cbn [snd].
    apply map_Forall_insert_2; [|done]. apply create_genesis_verifies in Hg. apply device_identity_ok in Hd as [_ Hd].
    split_and!; try done; cbn [id_devices id_master_genesis]; [apply NoDup_singleton|by apply Forall_singleton].
  - unfold Store.add_device, mbind_st, mget, mlift, mmod, mret_st. destruct (store !! gid) as [i|] eqn:Hi; [|done].
    cbn [ok_or]. destruct (existsb _ _) eqn:Hex; [done|].
    destruct (Store.device_identity _ _ _) as [dev| | |] eqn:Hd; try done. cbn [snd].
    apply map_Forall_insert_2; [|done]. apply device_identity_ok in Hd as [Hid Hd].
    destruct (Hs gid i Hi) as (H1 & H2 & H3 & H4 & H5 & H6).
    split_and!; [done|done|cbn [Store.push_device id_devices]; by destruct (id_devices i)| |by apply Forall_app_2; [|apply Forall_singleton]|done].
    cbn [Store.push_device id_devices]. rewrite fmap_app. apply NoDup_app. split_and!; [done| |apply NoDup_singleton].
    intros x (dev' & -> & Hin)%list_elem_of_fmap Hx. apply list_elem_of_singleton in Hx. rewrite Hid in Hx.
    apply not_true_iff_false in Hex. apply Hex, existsb_exists. exists dev'. split; [by apply list_elem_of_In|].
    by apply bool_decide_eq_true_2.
Qed.

(** The identity store stays consistent through every sequence of creations
    and device additions, failed ones included: each identity is stored under its
    own id, its master genesis verifies, it has at least one device, the device
    ids are distinct, and every device genesis is derived from that master. No
    identity is ever invalidated: [is_invalidated] answers [false] for every
    stored id and fails for the others. *)
Theorem identity_store_invariant (ops : list IdOp) (genesis_id : string) :
  let store := fold_left apply_id_op ops ∅ in
  map_Forall identity_ok store ∧
  Store.is_invalidated store genesis_id =
    if bool_decide (is_Some (store !! genesis_id)) then Ok false else Err (IdentityNotFound "Identity not found").
Proof.
  intros store. assert (Hs : map_Forall identity_ok store).
  { unfold store. enough (H : ∀ st, map_Forall identity_ok st → map_Forall identity_ok (fold_left apply_id_op ops st))
      by apply H, map_Forall_empty.
    induction ops as [|op ops IH]; intros st Hst; [done|]. by apply IH, apply_id_op_ok. }
  split; [done|]. unfold Store.is_invalidated. destruct (store !! genesis_id) as [i|] eqn:Hi; [|done].
  cbn [ok_or mbind outcome_bind]. destruct (Hs _ _ Hi) as (_ & -> & _). done.
Qed.

End IdentityProperties.

(** ** Witnesses *)

Module IdentityWitness.

(** A generator that counts: the bytes are the counter. *)
#[refine] Definition toy_rng : Rng Z := {|
  rng_fill n r := (le_bytes n r, r + 1); rng_u32 r := (r mod 2 ^ 32, r + 1) |}.
Proof. - intros. apply length_le_bytes. - intros r. apply Z.mod_pos_bound. lia. Defined.
Definition toy_kem1024 : Mlkem kem1024.
Proof. refine (ToyKem.toy_kem kem1024 eq_refl _). cbn. lia. Defined.
#[local] Existing Instances Toy.toy_blake3 ToyPed.toy_sha3 toy_rng toy_kem1024.

Definition contributions : list bytes := [[Byte.x01]; [Byte.x02]; [Byte.x03]].

Lemma genesis_verification_witness :
  ∃ g r', Gen.create_composite_genesis (R := Z) (zeros 96) [] contributions 2 "genesis" 5 = (Ok g, r') ∧
    Gen.verify_genesis_state g = Ok true.
Proof.
  destruct (genesis_verification (R := Z) (zeros 96) [] 2 ["a"; "b"; "c"]%string contributions "genesis" 5)
    as (_ & (g & r' & H1 & H2 & _) & _).
  - vm_compute. reflexivity.
  - split; apply Nat.leb_le; vm_compute; reflexivity.
  - apply Nat.leb_le. reflexivity.
  - exists g, r'. split; [exact H1|exact (H2 eq_refl)].
Defined.

Definition genesis0 : GenesisState :=
  mkGenesis (zeros 64) [] 1 ∅ None None (mkSigningKey [] []) (mkKyberKey [] []) [].
Definition alice : Identity := mkIdentity "alice" genesis0 [] false.

Lemma invalidation_roundtrip_witness :
  ∃ req, Gen.create_invalidation_request alice "lost" = Ok req ∧ Gen.process_invalidation alice req = Ok true ∧
    Gen.process_invalidation alice req = Ok (bool_decide (Gen.id alice = Gen.id alice)).
Proof. apply (invalidation_roundtrip alice alice "lost"). vm_compute. reflexivity. Defined.

End IdentityWitness.
