(* ===== verification/StorageCache.v ===== *)
(** * The cache for offline operation (dsm/src/communication/storage_cache.rs)

    Four caches of entries with a time to live, a hash of the entry's encoding
    and the time of the last access.  [Cache] holds what the four have in common;
    [SC] is [StorageCache].  Times are system times in nanoseconds, read once per
    call. *)
From S2P Require Import Prelude Tokens Operations SparseIdx States RandomWalk Transition Relationship Policy TokenState Merkle Batch Sphincs Keys Hexa NodeTypes Kyber Pedersen Identity Recovery.

Record CacheEntry {T : Type} := mkCacheEntry {
  ce_data : T;
  ce_last_accessed : Z;
  ce_created_at : Z;
  ce_ttl : Z;
  ce_hash : bytes;
  ce_verified : bool;
}.
Arguments CacheEntry : clear implicits.

Record StorageCache := mkStorageCache {
  sc_genesis_cache : gmap string (CacheEntry GenesisState);
  sc_token_cache : gmap string (CacheEntry Token);
  sc_checkpoint_cache : gmap string (CacheEntry State);
  sc_invalidation_cache : gmap string (CacheEntry InvalidationMarker);
  sc_max_entries : nat;
  sc_default_ttl : Z;
}.

(** ** One cache *)

Module Cache.
Section Cache.
Context {B3 : Blake3} {DO : DashOrder} {T : Type} {ST : Bincode T}.

Definition entry_new (t : Z) (data : T) (ttl : Z) (verified : bool) : outcome (CacheEntry T) :=
  serialized ← serialize_or "Failed to serialize cache entry" data;
  Ok (mkCacheEntry _ data t t ttl (blake3 serialized) verified).

(** [created_at.elapsed()] fails when the clock went backwards. *)
Definition is_expired (t : Z) (e : CacheEntry T) : bool :=
  if ce_ttl e =? 0 then false
  else if ce_created_at e <=? t then ce_ttl e * 10 ^ 9 <? t - ce_created_at e
  else false.

Definition update_accessed (t : Z) (e : CacheEntry T) : CacheEntry T :=
  mkCacheEntry _ (ce_data e) t (ce_created_at e) (ce_ttl e) (ce_hash e) (ce_verified e).

Definition verify_integrity (e : CacheEntry T) : outcome bool :=
  serialized ← serialize_or "Failed to serialize cache entry for verification" (ce_data e);
  Ok (bool_decide (ce_hash e = blake3 serialized)).

(** [min_by_key]: the first of the smallest. *)
Fixpoint oldest (l : list (string * CacheEntry T)) : option (string * CacheEntry T) :=
  match l with
  | [] => None
  | p :: l =>
      match oldest l with
      | Some q => if ce_last_accessed q.2 <? ce_last_accessed p.2 then Some q else Some p
      | None => Some p
      end
  end.

Definition make_room (max_entries : nat) (cache : gmap string (CacheEntry T)) : gmap string (CacheEntry T) :=
  if (max_entries <=? size cache)%nat then
    match oldest (dash_iter cache) with Some (key, _) => delete key cache | None => cache end
  else cache.

(** The body of the four [cache_*] methods. *)
Definition put (t : Z) (max_entries : nat) (key : outcome string) (data : T) (ttl : Z) (verified : bool)
    : M (gmap string (CacheEntry T)) unit :=
  do* mmod (make_room max_entries);
  let* key := mlift key in
  let* entry := mlift (entry_new t data ttl verified) in
  mmod (fun cache => <[key := entry]> cache).

(** The body of the three [get_*] methods that look up a key. *)
Definition get (t : Z) (message : string) (key : string) : M (gmap string (CacheEntry T)) (option T) := fun cache =>
  match cache !! key with
  | Some entry =>
      if is_expired t entry then (Ok None, delete key cache)
      else
        match verify_integrity entry with
        | Ok true => (Ok (Some (ce_data entry)), <[key := update_accessed t entry]> cache)
        | Ok false => (Err (EIntegrity message), delete key cache)
        | Err e => (Err e, cache)
        | Panic => (Panic, cache)
        | Hang => (Hang, cache)
        end
  | None => (Ok None, cache)
  end.

Definition has (t : Z) (key : string) (cache : gmap string (CacheEntry T)) : bool :=
  match cache !! key with Some entry => negb (is_expired t entry) | None => false end.

(** [cache.retain(|_, entry| !entry.is_expired())], and how many were removed. *)
Definition retain (t : Z) (cache : gmap string (CacheEntry T)) : gmap string (CacheEntry T) :=
  filter (fun p => is_expired t p.2 = false) cache.

End Cache.
End Cache.

(** ** The storage cache *)

Module SC.
Section SC.
Context {B3 : Blake3} {DO : DashOrder} {HX : Hex}.
Context {SG : Bincode GenesisState} {STk : Bincode Token} {SS : Bincode State} {SM : Bincode InvalidationMarker}.
Context {SO : Bincode Operation} {SB : Bincode Balance} {SP : Bincode PreCommitment}.

Definition with_settings (max_entries : nat) (default_ttl : Z) : StorageCache := mkStorageCache ∅ ∅ ∅ ∅ max_entries default_ttl.
Definition new : StorageCache := with_settings (Z.to_nat 1000) (86400 * 30).

(** Running an operation on one of the caches. *)
Definition on_genesis {A} (f : M (gmap string (CacheEntry GenesisState)) A) : M StorageCache A := fun s =>
  let '(o, x) := f (sc_genesis_cache s) in
  (o, mkStorageCache x (sc_token_cache s) (sc_checkpoint_cache s) (sc_invalidation_cache s) (sc_max_entries s) (sc_default_ttl s)).
Definition on_token {A} (f : M (gmap string (CacheEntry Token)) A) : M StorageCache A := fun s =>
  let '(o, x) := f (sc_token_cache s) in
  (o, mkStorageCache (sc_genesis_cache s) x (sc_checkpoint_cache s) (sc_invalidation_cache s) (sc_max_entries s) (sc_default_ttl s)).
Definition on_checkpoint {A} (f : M (gmap string (CacheEntry State)) A) : M StorageCache A := fun s =>
  let '(o, x) := f (sc_checkpoint_cache s) in
  (o, mkStorageCache (sc_genesis_cache s) (sc_token_cache s) x (sc_invalidation_cache s) (sc_max_entries s) (sc_default_ttl s)).
Definition on_invalidation {A} (f : M (gmap string (CacheEntry InvalidationMarker)) A) : M StorageCache A := fun s =>
  let '(o, x) := f (sc_invalidation_cache s) in
  (o, mkStorageCache (sc_genesis_cache s) (sc_token_cache s) (sc_checkpoint_cache s) x (sc_max_entries s) (sc_default_ttl s)).

Definition genesis_key (genesis_hash : bytes) : string := hex_encode genesis_hash.

Definition cache_genesis (t : Z) (genesis : GenesisState) (verified : bool) (ttl : option Z) : M StorageCache unit := fun s =>
  let key := serialized ← serialize_or "Bincode serialization error" genesis; Ok (genesis_key (blake3 serialized)) in
  on_genesis (Cache.put t (sc_max_entries s) key genesis (unwrap_or (sc_default_ttl s) ttl) verified) s.
Definition get_genesis (t : Z) (genesis_hash : bytes) : M StorageCache (option GenesisState) :=
  on_genesis (Cache.get t "Genesis state cache integrity check failed" (genesis_key genesis_hash)).
Definition has_genesis (t : Z) (genesis_hash : bytes) (s : StorageCache) : bool := Cache.has t (genesis_key genesis_hash) (sc_genesis_cache s).

Definition cache_token (t : Z) (token_id : string) (token : Token) (verified : bool) (ttl : option Z) : M StorageCache unit := fun s =>
  on_token (Cache.put t (sc_max_entries s) (Ok token_id) token (unwrap_or (sc_default_ttl s) ttl) verified) s.
Definition get_token (t : Z) (token_id : string) : M StorageCache (option Token) :=
  on_token (Cache.get t "Token cache integrity check failed" token_id).
Definition has_token (t : Z) (token_id : string) (s : StorageCache) : bool := Cache.has t token_id (sc_token_cache s).

Definition checkpoint_key (state : State) : outcome string :=
  h ← St.get_hash state; Ok ("checkpoint_" +:+ pretty (state_number state) +:+ "_" +:+ hex_encode h).
Definition cache_checkpoint (t : Z) (state : State) (verified : bool) (ttl : option Z) : M StorageCache unit := fun s =>
  on_checkpoint (Cache.put t (sc_max_entries s) (checkpoint_key state) state (unwrap_or (sc_default_ttl s) ttl) verified) s.

(** [for (_, entry) in cache.iter()] *)
Fixpoint closest (t n : Z) (best : option (Z * CacheEntry State)) (l : list (string * CacheEntry State))
    : outcome (option (Z * CacheEntry State)) :=
  match l with
  | [] => Ok best
  | (_, entry) :: l =>
      if Cache.is_expired t entry then closest t n best l
      else
        intact ← Cache.verify_integrity entry;
        if negb intact then closest t n best l
        else
          let k := state_number (ce_data entry) in
          if k <=? n then
            match best with
            | Some (b, _) => if b <? k then closest t n (Some (k, entry)) l else closest t n best l
            | None => closest t n (Some (k, entry)) l
            end
          else closest t n best l
  end.
(** The entry's clone is marked as accessed, the entry itself is not. *)
Definition get_closest_checkpoint (t n : Z) (s : StorageCache) : outcome (option State) :=
  best ← closest t n None (dash_iter (sc_checkpoint_cache s));
  Ok (match best with Some (_, entry) => Some (ce_data entry) | None => None end).

Definition cache_invalidation (t : Z) (marker : InvalidationMarker) (verified : bool) (ttl : option Z) : M StorageCache unit := fun s =>
  on_invalidation (Cache.put t (sc_max_entries s) (Ok (hex_encode (im_state_hash marker))) marker
                     (unwrap_or (sc_default_ttl s) ttl) verified) s.
Definition is_state_invalidated (t : Z) (state_hash : bytes) (s : StorageCache) : outcome bool :=
  match sc_invalidation_cache s !! hex_encode state_hash with
  | Some entry =>
      if Cache.is_expired t entry then Ok false
      else
        intact ← Cache.verify_integrity entry;
        if negb intact then Ok false else Ok true
  | None => Ok false
  end.
Definition get_invalidation (t : Z) (state_hash : bytes) : M StorageCache (option InvalidationMarker) :=
  on_invalidation (Cache.get t "Invalidation marker cache integrity check failed" (hex_encode state_hash)).

Definition get_cache_stats (s : StorageCache) : gmap string nat :=
  <["invalidation"%string := size (sc_invalidation_cache s)]>
  (<["checkpoint"%string := size (sc_checkpoint_cache s)]>
  (<["token"%string := size (sc_token_cache s)]>
  {["genesis"%string := size (sc_genesis_cache s)]})).

Definition clear_expired (t : Z) (s : StorageCache) : nat * StorageCache :=
  let g := Cache.retain t (sc_genesis_cache s) in
  let k := Cache.retain t (sc_token_cache s) in
  let c := Cache.retain t (sc_checkpoint_cache s) in
  let i := Cache.retain t (sc_invalidation_cache s) in
  ((size (sc_genesis_cache s) - size g + (size (sc_token_cache s) - size k) + (size (sc_checkpoint_cache s) - size c) +
    (size (sc_invalidation_cache s) - size i))%nat,
   mkStorageCache g k c i (sc_max_entries s) (sc_default_ttl s)).

Definition clear_all (s : StorageCache) : StorageCache := mkStorageCache ∅ ∅ ∅ ∅ (sc_max_entries s) (sc_default_ttl s).

End SC.
End SC.

(** ** Facts about one cache *)

Section CacheFacts.
Context {B3 : Blake3} {DO : DashOrder} {T : Type} {ST : Bincode T}.
Context (K : string → T → Prop) (n : nat).

Definition intact (e : CacheEntry T) : Prop := ∃ x, serialize (ce_data e) = Some x ∧ ce_hash e = blake3 x.
(** The size is within the limit, every entry is intact and under its key. *)
Definition cache_ok (c : gmap string (CacheEntry T)) : Prop :=
  (size c ≤ Nat.max 1 n)%nat ∧ map_Forall (fun k e => intact e ∧ K k (ce_data e)) c.

Lemma intact_verifies e : intact e → Cache.verify_integrity e = Ok true.
Proof.
  intros (x & Hx & Hh). unfold Cache.verify_integrity, serialize_or. rewrite Hx. cbn [ok_or mbind outcome_bind].
  by rewrite bool_decide_eq_true_2.
Qed.

Lemma oldest_elem (l : list (string * CacheEntry T)) : match Cache.oldest l with
  | Some p => p ∈ l ∧ ∀ q, q ∈ l → ce_last_accessed p.2 ≤ ce_last_accessed q.2
  | None => l = []
  end.
Proof.
  induction l as [|p l IH]; cbn [Cache.oldest]; [done|]. destruct (Cache.oldest l) as [q|].
  - destruct IH as [Hin Hmin]. destruct (Z.ltb_spec (ce_last_accessed q.2) (ce_last_accessed p.2)).
    + split; [by right|]. intros r [->|Hr]%elem_of_cons; [lia|by apply Hmin].
    + split; [left|]. intros r [->|Hr]%elem_of_cons; [lia|]. specialize (Hmin r Hr). lia.
  - subst. split; [left|]. intros r [->|Hr]%elem_of_cons; [lia|by apply elem_of_nil in Hr].
Qed.

Lemma oldest_lookup (c : gmap string (CacheEntry T)) : match Cache.oldest (dash_iter c) with
  | Some (k, e) => c !! k = Some e ∧ ∀ k' e', c !! k' = Some e' → ce_last_accessed e ≤ ce_last_accessed e'
  | None => c = ∅
  end.
Proof.
  pose proof (oldest_elem (dash_iter c)) as H. destruct (Cache.oldest (dash_iter c)) as [[k e]|].
  - destruct H as [Hin Hmin]. rewrite dash_iter_perm in Hin. apply elem_of_map_to_list in Hin. split; [done|].
    intros k' e' He. apply (Hmin (k', e')). rewrite dash_iter_perm. by apply elem_of_map_to_list.
  - pose proof (dash_iter_perm c) as Hp. rewrite H in Hp. apply map_to_list_empty_iff.
    by apply Permutation_nil_l in Hp.
Qed.

Lemma make_room_ok c : cache_ok c → (size (Cache.make_room n c) < Nat.max 1 n)%nat ∧ Cache.make_room n c ⊆ c.
Proof.
  intros [Hs _]. unfold Cache.make_room. destruct (Nat.leb_spec n (size c)) as [Hle|Hlt]; [|split; [lia|done]].
  pose proof (oldest_lookup c) as H. destruct (Cache.oldest (dash_iter c)) as [[k e]|].
  - destruct H as [Hk _]. split; [|apply delete_subseteq].
    rewrite map_size_delete_Some by (by exists e).
    assert (size c ≠ 0%nat) as H0 by (intros H0%map_size_empty_iff; by rewrite H0, lookup_empty in Hk). lia.
  - subst c. rewrite map_size_empty. split; [lia|done].
Qed.

Lemma cache_ok_sub c c' : c' ⊆ c → cache_ok c → cache_ok c'.
Proof.
  intros Hsub [Hs Hf]. split; [|intros k e Hk; apply Hf; by eapply lookup_weaken].
  etrans; [|exact Hs]. by apply map_subseteq_size.
Qed.

Lemma entry_new_intact t data ttl v e : Cache.entry_new t data ttl v = Ok e → intact e ∧ ce_data e = data.
Proof.
  unfold Cache.entry_new, serialize_or. destruct (serialize data) as [x|] eqn:E; cbn [ok_or mbind outcome_bind]; [|done].
  intros [= <-]. split; [by exists x|done].
Qed.

Lemma put_ok t key data ttl v c : (∀ k, key = Ok k → K k data) → cache_ok c → cache_ok (Cache.put t n key data ttl v c).2.
Proof.
  intros HK Hc. pose proof (make_room_ok c Hc) as [Hr Hsub]. pose proof (cache_ok_sub _ _ Hsub Hc) as Hc'.
  unfold Cache.put, mbind_st, mmod, mlift. destruct key as [k| | |]; cbn [snd]; try done.
  destruct (Cache.entry_new t data ttl v) as [e| | |] eqn:E; cbn [snd]; try done.
  apply entry_new_intact in E as [Hi Hd]. split.
  - destruct (Cache.make_room n c !! k) eqn:El; [rewrite map_size_insert_Some by (by eexists)|rewrite map_size_insert_None by done]; lia.
  - apply map_Forall_insert_2; [|apply Hc']. split; [done|]. rewrite Hd. by apply HK.
Qed.

Lemma get_ok t msg key c : cache_ok c → cache_ok (Cache.get t msg key c).2 ∧
  (Cache.get t msg key c).1 = Ok (match c !! key with Some e => if Cache.is_expired t e then None else Some (ce_data e) | None => None end).
Proof.
  intros Hc. unfold Cache.get. destruct (c !! key) as [e|] eqn:E; [|done].
  destruct (proj2 Hc key e E) as [Hi HK]. destruct (Cache.is_expired t e).
  - cbn. split; [|done]. by eapply cache_ok_sub; [apply delete_subseteq|].
  - rewrite intact_verifies by done. cbn. split; [|done]. destruct Hc as [Hs Hf]. split.
    + by rewrite map_size_insert_Some by (by exists e).
    + apply map_Forall_insert_2; [|done]. split; [|done]. exact Hi.
Qed.

Lemma get_data t msg key c d : cache_ok c → (Cache.get t msg key c).1 = Ok (Some d) →
  ∃ e, c !! key = Some e ∧ ce_data e = d ∧ intact e ∧ K key d.
Proof.
  intros Hc. rewrite (proj2 (get_ok t msg key c Hc)). destruct (c !! key) as [e|] eqn:E; [|done].
  destruct (Cache.is_expired t e); [done|]. intros [= <-]. exists e. destruct (proj2 Hc key e E). done.
Qed.

Lemma retain_sub t (c : gmap string (CacheEntry T)) : Cache.retain t c ⊆ c.
Proof. apply map_filter_subseteq. Qed.

Lemma cache_ok_empty : cache_ok ∅.
Proof. split; [rewrite map_size_empty; lia|apply map_Forall_empty]. Qed.

(** An entry is found after it was put, until it expires. *)
Lemma put_get t t' msg k data x ttl v c : serialize data = Some x → 0 ≤ ttl → (ttl = 0 ∨ t' - t ≤ ttl * 10 ^ 9) →
  (Cache.put t n (Ok k) data ttl v c).1 = Ok tt ∧
  (Cache.get t' msg k (Cache.put t n (Ok k) data ttl v c).2).1 = Ok (Some data).
Proof.
  intros Hx Httl Ht. unfold Cache.put, Cache.entry_new, serialize_or, mbind_st, mmod, mlift. rewrite Hx. cbn [ok_or mbind outcome_bind fst snd].
  split; [done|]. unfold Cache.get. rewrite lookup_insert_eq.
  unfold Cache.is_expired. cbn [ce_ttl ce_created_at].
  assert ((if ttl =? 0 then false else if t <=? t' then ttl * 10 ^ 9 <? t' - t else false) = false) as ->.
  { destruct (Z.eqb_spec ttl 0); [done|]. destruct (t <=? t'); [|done]. apply Z.ltb_ge. lia. }
  rewrite intact_verifies; [done|]. by exists x.
Qed.

End CacheFacts.

(** ** Histories *)

Inductive CacheCmd :=
  | PutGenesis (t : Z) (g : GenesisState) (verified : bool) (ttl : option Z)
  | PutToken (t : Z) (id : string) (k : Token) (verified : bool) (ttl : option Z)
  | PutCheckpoint (t : Z) (s : State) (verified : bool) (ttl : option Z)
  | PutInvalidation (t : Z) (m : InvalidationMarker) (verified : bool) (ttl : option Z)
  | GetGenesis (t : Z) (h : bytes)
  | GetToken (t : Z) (id : string)
  | GetInvalidation (t : Z) (h : bytes)
  | ClearExpired (t : Z)
  | ClearAll.

Section StorageCacheFacts.
Context {B3 : Blake3} {DO : DashOrder} {HX : Hex}.
Context {SG : Bincode GenesisState} {STk : Bincode Token} {SS : Bincode State} {SM : Bincode InvalidationMarker}.
Context {SO : Bincode Operation} {SB : Bincode Balance} {SP : Bincode PreCommitment}.

Definition cache_apply (s : StorageCache) (c : CacheCmd) : StorageCache :=
  match c with
  | PutGenesis t g v ttl => (SC.cache_genesis t g v ttl s).2
  | PutToken t id k v ttl => (SC.cache_token t id k v ttl s).2
  | PutCheckpoint t st v ttl => (SC.cache_checkpoint t st v ttl s).2
  | PutInvalidation t m v ttl => (SC.cache_invalidation t m v ttl s).2
  | GetGenesis t h => (SC.get_genesis t h s).2
  | GetToken t id => (SC.get_token t id s).2
  | GetInvalidation t h => (SC.get_invalidation t h s).2
  | ClearExpired t => (SC.clear_expired t s).2
  | ClearAll => SC.clear_all s
  end.

Definition genesis_at (k : string) (g : GenesisState) : Prop := ∃ x, serialize g = Some x ∧ k = SC.genesis_key (blake3 x).
Definition anywhere (k : string) (t : Token) : Prop := True.
Definition checkpoint_at (k : string) (s : State) : Prop := SC.checkpoint_key s = Ok k.
Definition marker_at (k : string) (m : InvalidationMarker) : Prop := k = hex_encode (im_state_hash m).

Definition sc_ok (n : nat) (s : StorageCache) : Prop :=
  sc_max_entries s = n ∧ cache_ok genesis_at n (sc_genesis_cache s) ∧ cache_ok anywhere n (sc_token_cache s) ∧
  cache_ok checkpoint_at n (sc_checkpoint_cache s) ∧ cache_ok marker_at n (sc_invalidation_cache s).

Lemma on_genesis_run {A} (f : M (gmap string (CacheEntry GenesisState)) A) s :
  (SC.on_genesis f s).1 = (f (sc_genesis_cache s)).1 ∧ (SC.on_genesis f s).2 =
  mkStorageCache (f (sc_genesis_cache s)).2 (sc_token_cache s) (sc_checkpoint_cache s) (sc_invalidation_cache s) (sc_max_entries s) (sc_default_ttl s).
Proof. unfold SC.on_genesis. by destruct (f (sc_genesis_cache s)). Qed.
Lemma on_token_run {A} (f : M (gmap string (CacheEntry Token)) A) s :
  (SC.on_token f s).1 = (f (sc_token_cache s)).1 ∧ (SC.on_token f s).2 =
  mkStorageCache (sc_genesis_cache s) (f (sc_token_cache s)).2 (sc_checkpoint_cache s) (sc_invalidation_cache s) (sc_max_entries s) (sc_default_ttl s).
Proof. unfold SC.on_token. by destruct (f (sc_token_cache s)). Qed.
Lemma on_checkpoint_run {A} (f : M (gmap string (CacheEntry State)) A) s :
  (SC.on_checkpoint f s).1 = (f (sc_checkpoint_cache s)).1 ∧ (SC.on_checkpoint f s).2 =
  mkStorageCache (sc_genesis_cache s) (sc_token_cache s) (f (sc_checkpoint_cache s)).2 (sc_invalidation_cache s) (sc_max_entries s) (sc_default_ttl s).
Proof. unfold SC.on_checkpoint. by destruct (f (sc_checkpoint_cache s)). Qed.
Lemma on_invalidation_run {A} (f : M (gmap string (CacheEntry InvalidationMarker)) A) s :
  (SC.on_invalidation f s).1 = (f (sc_invalidation_cache s)).1 ∧ (SC.on_invalidation f s).2 =
  mkStorageCache (sc_genesis_cache s) (sc_token_cache s) (sc_checkpoint_cache s) (f (sc_invalidation_cache s)).2 (sc_max_entries s) (sc_default_ttl s).
Proof. unfold SC.on_invalidation. by destruct (f (sc_invalidation_cache s)). Qed.

Lemma genesis_key_at g k :
  (serialized ← serialize_or "Bincode serialization error" g; Ok (SC.genesis_key (blake3 serialized))) = Ok k → genesis_at k g.
Proof.
  unfold serialize_or. destruct (serialize g) as [x|] eqn:E; cbn [ok_or mbind outcome_bind]; [|done]. intros [= <-]. by exists x.
Qed.

Lemma sc_ok_step n s c : sc_ok n s → sc_ok n (cache_apply s c).
Proof.
  intros (Hm & Hg & Hk & Hc & Hi). destruct c; cbn [cache_apply].
  - unfold SC.cache_genesis. rewrite (proj2 (on_genesis_run _ s)), Hm. split; [done|]. split; [|done].
    apply put_ok; [apply genesis_key_at|done].
  - unfold SC.cache_token. rewrite (proj2 (on_token_run _ s)), Hm. split; [done|]. split; [done|]. split; [|done]. by apply put_ok.
  - unfold SC.cache_checkpoint. rewrite (proj2 (on_checkpoint_run _ s)), Hm. split; [done|]. split; [done|]. split; [done|]. split; [|done].
    by apply put_ok.
  - unfold SC.cache_invalidation. rewrite (proj2 (on_invalidation_run _ s)), Hm. split; [done|]. split; [done|]. split; [done|]. split; [done|].
    apply put_ok; [|done]. by intros k [= <-].
  - unfold SC.get_genesis. rewrite (proj2 (on_genesis_run _ s)). split; [done|]. split; [|done]. by apply get_ok.
  - unfold SC.get_token. rewrite (proj2 (on_token_run _ s)). split; [done|]. split; [done|]. split; [|done]. by apply get_ok.
  - unfold SC.get_invalidation. rewrite (proj2 (on_invalidation_run _ s)). split; [done|]. split; [done|]. split; [done|]. split; [done|]. by apply get_ok.
  - split; [done|]. split_and!; (eapply cache_ok_sub; [apply retain_sub|done]).
  - split; [done|]. split_and!; apply cache_ok_empty.
Qed.

Lemma sc_ok_run n ttl cmds : sc_ok n (fold_left cache_apply cmds (SC.with_settings n ttl)).
Proof.
  assert (sc_ok n (SC.with_settings n ttl)) as H by (split; [done|]; split_and!; apply cache_ok_empty).
  revert H. generalize (SC.with_settings n ttl). induction cmds as [|c cmds IH]; intros s H; [exact H|]. cbn [fold_left]. by apply IH, sc_ok_step.
Qed.

(** What the search for the closest checkpoint has found. *)
Definition better (t n : Z) (l : list (string * CacheEntry State)) (r : option (Z * CacheEntry State)) : Prop :=
  match r with
  | Some (k, e) => k = state_number (ce_data e) ∧ k ≤ n ∧ Cache.is_expired t e = false ∧
      ∀ p, p ∈ l → Cache.is_expired t p.2 = false → state_number (ce_data p.2) ≤ n → state_number (ce_data p.2) ≤ k
  | None => ∀ p, p ∈ l → Cache.is_expired t p.2 = false → n < state_number (ce_data p.2)
  end.

Lemma closest_spec t n l : Forall (fun p => intact p.2) l → ∀ seen best,
  better t n seen best → (∀ k e, best = Some (k, e) → ∃ key, (key, e) ∈ seen ++ l) →
  ∃ r, SC.closest t n best l = Ok r ∧ better t n (seen ++ l) r ∧ ∀ k e, r = Some (k, e) → ∃ key, (key, e) ∈ seen ++ l.
Proof.
  induction 1 as [|[key e] l He Hl IH]; intros seen best Hb Hin; cbn [SC.closest].
  { rewrite app_nil_r in *. by exists best. }
  assert (∀ best', better t n (seen ++ [(key, e)]) best' → (∀ k e', best' = Some (k, e') → ∃ key', (key', e') ∈ seen ++ (key, e) :: l) →
    ∃ r, SC.closest t n best' l = Ok r ∧ better t n (seen ++ (key, e) :: l) r ∧ ∀ k e', r = Some (k, e') → ∃ key', (key', e') ∈ seen ++ (key, e) :: l) as Hgo.
  { intros best' Hb' Hin'. destruct (IH (seen ++ [(key, e)]) best') as (r & H1 & H2 & H3); rewrite <- ?app_assoc; [done..|]. rewrite <- app_assoc in *. by exists r. }
  assert (∀ q, q ∈ seen ++ [(key, e)] ↔ q ∈ seen ∨ q = (key, e)) as Hq by (intros q; rewrite elem_of_app, list_elem_of_singleton; done).
  destruct (Cache.is_expired t e) eqn:Ee.
  { apply Hgo; [|done]. destruct best as [[b eb]|]; cbn in Hb |- *.
    - destruct Hb as (H1 & H2 & H3 & H4). split_and!; [done..|]. intros p [Hp| ->]%Hq; [by apply H4|]. cbn. congruence.
    - intros p [Hp| ->]%Hq; [by apply Hb|]. cbn. congruence. }
  cbn [snd] in He. rewrite (intact_verifies e He). cbn [mbind outcome_bind negb].
  assert ((key, e) ∈ seen ++ (key, e) :: l) as Hself by (apply elem_of_app; right; left).
  destruct (Z.leb_spec (state_number (ce_data e)) n) as [Hle|Hgt].
  - destruct best as [[b eb]|]; cbn in Hb.
    + destruct Hb as (H1 & H2 & H3 & H4). destruct (Z.ltb_spec b (state_number (ce_data e))).
      * apply Hgo; [|intros k e' [= <- <-]; by exists key]. cbn. split_and!; [done..|].
        intros p [Hp| ->]%Hq Hpe Hpn; [|cbn; lia]. specialize (H4 p Hp Hpe Hpn). lia.
      * apply Hgo; [|done]. cbn. split_and!; [done..|]. intros p [Hp| ->]%Hq Hpe Hpn; [by apply H4|cbn; lia].
    + apply Hgo; [|intros k e' [= <- <-]; by exists key]. cbn. split_and!; [done..|].
      intros p [Hp| ->]%Hq Hpe Hpn; [|cbn; lia]. specialize (Hb p Hp Hpe). lia.
  - apply Hgo; [|done]. destruct best as [[b eb]|]; cbn in Hb |- *.
    + destruct Hb as (H1 & H2 & H3 & H4). split_and!; [done..|]. intros p [Hp| ->]%Hq Hpe Hpn; [by apply H4|cbn in *; lia].
    + intros p [Hp| ->]%Hq Hpe; [by apply Hb|done].
Qed.

Lemma hexa_inj a b : hex_encode a = hex_encode b → a = b.
Proof. intros H. apply (f_equal hex_decode) in H. rewrite !hex_round_trip in H. by injection H. Qed.

(** ** Properties *)

(** The caches stay within their limit and answer truly: after any sequence of
    calls each cache holds at most the configured number of entries (one, if that
    is zero); a look-up never fails its integrity check; a genesis that is returned
    has an encoding with the requested hash, and a marker invalidates the
    requested state. *)
Theorem storage_cache_invariant (n : nat) (ttl : Z) (cmds : list CacheCmd) :
  let s := fold_left cache_apply cmds (SC.with_settings n ttl) in
  (size (sc_genesis_cache s) ≤ Nat.max 1 n ∧ size (sc_token_cache s) ≤ Nat.max 1 n ∧
   size (sc_checkpoint_cache s) ≤ Nat.max 1 n ∧ size (sc_invalidation_cache s) ≤ Nat.max 1 n)%nat ∧
  ∀ t, (∀ h, ∃ o, (SC.get_genesis t h s).1 = Ok o ∧ ∀ g, o = Some g → ∃ x, serialize g = Some x ∧ blake3 x = h) ∧
       (∀ id, ∃ o, (SC.get_token t id s).1 = Ok o) ∧
       (∀ h, ∃ o, (SC.get_invalidation t h s).1 = Ok o ∧ ∀ m, o = Some m → im_state_hash m = h).
Proof.
  intros s. destruct (sc_ok_run n ttl cmds) as (_ & Hg & Hk & Hc & Hi). fold s in Hg, Hk, Hc, Hi.
  split; [split_and!; [apply Hg|apply Hk|apply Hc|apply Hi]|]. intros t. split_and!.
  - intros h. unfold SC.get_genesis. rewrite (proj1 (on_genesis_run _ s)).
    destruct (Cache.get _ _ _ _) as [o c'] eqn:E. pose proof (get_ok genesis_at n t "Genesis state cache integrity check failed" (SC.genesis_key h) _ Hg) as [_ Ho].
    rewrite E in Ho. cbn [fst] in *. eexists. split; [exact Ho|]. intros g Hs.
    destruct (get_data genesis_at n t "Genesis state cache integrity check failed" (SC.genesis_key h) _ g Hg) as (e & _ & _ & _ & x & Hx & Hkey).
    { rewrite E. cbn [fst]. by rewrite Ho, Hs. }
    exists x. split; [done|]. by apply hexa_inj in Hkey.
  - intros id. unfold SC.get_token. rewrite (proj1 (on_token_run _ s)). eexists. exact (proj2 (get_ok anywhere n t _ id _ Hk)).
  - intros h. unfold SC.get_invalidation. rewrite (proj1 (on_invalidation_run _ s)).
    pose proof (get_ok marker_at n t "Invalidation marker cache integrity check failed" (hex_encode h) _ Hi) as [_ Ho].
    eexists. split; [exact Ho|]. intros m Hs. rewrite Hs in Ho.
    destruct (get_data marker_at n t _ (hex_encode h) _ m Hi Ho) as (e & _ & _ & _ & Hkey). by apply hexa_inj in Hkey.
Qed.

(** What is cached is found: from any state of the caches, a genesis, a token
    or a marker that can be encoded is stored, and until its time to live has
    passed, or for ever when that is zero, it is returned under its hash or id. *)
Theorem cached_items_found (s : StorageCache) (t t' ttl : Z) (v : bool) (g : GenesisState) (id : string) (k : Token) (m : InvalidationMarker)
    (xg xk xm : bytes) :
  serialize g = Some xg → serialize k = Some xk → serialize m = Some xm → 0 ≤ ttl → (ttl = 0 ∨ t' - t ≤ ttl * 10 ^ 9) →
  (∃ s', SC.cache_genesis t g v (Some ttl) s = (Ok tt, s') ∧ (SC.get_genesis t' (blake3 xg) s').1 = Ok (Some g)) ∧
  (∃ s', SC.cache_token t id k v (Some ttl) s = (Ok tt, s') ∧ (SC.get_token t' id s').1 = Ok (Some k)) ∧
  (∃ s', SC.cache_invalidation t m v (Some ttl) s = (Ok tt, s') ∧ (SC.get_invalidation t' (im_state_hash m) s').1 = Ok (Some m) ∧
     SC.is_state_invalidated t' (im_state_hash m) s' = Ok true).
Proof.
  intros Hg Hk Hm Httl Ht. split_and!.
  - exists (SC.cache_genesis t g v (Some ttl) s).2. unfold SC.cache_genesis, serialize_or. rewrite Hg. cbn [ok_or mbind outcome_bind unwrap_or].
    destruct (on_genesis_run (Cache.put t (sc_max_entries s) (Ok (SC.genesis_key (blake3 xg))) g ttl v) s) as [E1 E2].
    destruct (put_get (sc_max_entries s) t t' "Genesis state cache integrity check failed" (SC.genesis_key (blake3 xg)) g xg ttl v (sc_genesis_cache s) Hg Httl Ht)
      as [P1 P2]. split; [apply injective_projections; [by rewrite E1|done]|].
    unfold SC.get_genesis. rewrite (proj1 (on_genesis_run _ _)), E2. exact P2.
  - exists (SC.cache_token t id k v (Some ttl) s).2. unfold SC.cache_token. cbn [unwrap_or].
    destruct (on_token_run (Cache.put t (sc_max_entries s) (Ok id) k ttl v) s) as [E1 E2].
    destruct (put_get (sc_max_entries s) t t' "Token cache integrity check failed" id k xk ttl v (sc_token_cache s) Hk Httl Ht) as [P1 P2].
    split; [apply injective_projections; [by rewrite E1|done]|].
    unfold SC.get_token. rewrite (proj1 (on_token_run _ _)), E2. exact P2.
  - exists (SC.cache_invalidation t m v (Some ttl) s).2. unfold SC.cache_invalidation. cbn [unwrap_or].
    destruct (on_invalidation_run (Cache.put t (sc_max_entries s) (Ok (hex_encode (im_state_hash m))) m ttl v) s) as [E1 E2].
    destruct (put_get (sc_max_entries s) t t' "Invalidation marker cache integrity check failed" (hex_encode (im_state_hash m)) m xm ttl v
      (sc_invalidation_cache s) Hm Httl Ht) as [P1 P2].
    split; [apply injective_projections; [by rewrite E1|done]|]. split.
    + unfold SC.get_invalidation. rewrite (proj1 (on_invalidation_run _ _)), E2. exact P2.
    + unfold SC.is_state_invalidated. rewrite E2. cbn [sc_invalidation_cache]. revert P2. unfold Cache.get.
      destruct (_ !! _) as [e|]; [|done]. destruct (Cache.is_expired t' e); [done|].
      destruct (Cache.verify_integrity e) as [[]| | |]; done.
Qed.

(** The closest checkpoint: the search never fails, and returns the cached
    checkpoint with the highest number not above the requested one among those
    that have not expired, or nothing when there is none. *)
Theorem closest_checkpoint_exact (n : nat) (ttl : Z) (cmds : list CacheCmd) (t k : Z) :
  let s := fold_left cache_apply cmds (SC.with_settings n ttl) in
  let live := fun st => ∃ key e, sc_checkpoint_cache s !! key = Some e ∧ Cache.is_expired t e = false ∧ ce_data e = st in
  ∃ o, SC.get_closest_checkpoint t k s = Ok o ∧
    match o with
    | Some st => live st ∧ state_number st ≤ k ∧ ∀ st', live st' → state_number st' ≤ k → state_number st' ≤ state_number st
    | None => ∀ st, live st → k < state_number st
    end.
Proof.
  intros s live. destruct (sc_ok_run n ttl cmds) as (_ & _ & _ & Hc & _). fold s in Hc.
  set (l := dash_iter (sc_checkpoint_cache s)).
  assert (∀ key e, (key, e) ∈ l ↔ sc_checkpoint_cache s !! key = Some e) as Hl
    by (intros key e; unfold l; rewrite dash_iter_perm; apply elem_of_map_to_list).
  destruct (closest_spec t k l) with (seen := @nil (string * CacheEntry State)) (best := @None (Z * CacheEntry State)) as (r & Hr & Hb & Hin).
  { apply Forall_forall. intros [key e] He%Hl. exact (proj1 (proj2 Hc key e He)). }
  { intros p Hp. by apply elem_of_nil in Hp. }
  { done. }
  unfold SC.get_closest_checkpoint. fold l. rewrite Hr. cbn [mbind outcome_bind app] in *. eexists. split; [reflexivity|].
  destruct r as [[b e]|]; cbn in Hb.
  - destruct Hb as (-> & Hle & He & Hmax). destruct (Hin _ _ eq_refl) as [key Hkey%Hl]. split; [by exists key, e|]. split; [done|].
    intros st' (key' & e' & Hk' & He' & <-). apply (Hmax (key', e')); [by apply Hl|done].
  - intros st (key & e & Hk & He & <-). apply (Hb (key, e)); [by apply Hl|done].
Qed.

(** Invalidations are forgotten: when the cache of markers is full, storing a
    marker of another state removes the one that was stored or fetched longest
    ago, and its state counts as valid again at any time; asking whether a state is
    invalidated does not count as an access. *)
Theorem invalidation_forgotten (s : StorageCache) (t t' : Z) (m' : InvalidationMarker) (v : bool) (ttl : option Z) (h : bytes)
    (e : CacheEntry InvalidationMarker) :
  sc_invalidation_cache s !! hex_encode h = Some e →
  (∀ key e', sc_invalidation_cache s !! key = Some e' → key ≠ hex_encode h → ce_last_accessed e < ce_last_accessed e') →
  (sc_max_entries s ≤ size (sc_invalidation_cache s))%nat → im_state_hash m' ≠ h →
  SC.is_state_invalidated t' h (SC.cache_invalidation t m' v ttl s).2 = Ok false.
Proof.
  intros He Hold Hfull Hne. unfold SC.cache_invalidation. rewrite (proj2 (on_invalidation_run _ s)).
  assert (Cache.make_room (sc_max_entries s) (sc_invalidation_cache s) !! hex_encode h = None) as Hroom.
  { unfold Cache.make_room. rewrite (proj2 (Nat.leb_le _ _) Hfull). pose proof (oldest_lookup (sc_invalidation_cache s)) as Ho.
    destruct (Cache.oldest _) as [[key e0]|]; [|by rewrite Ho, lookup_empty in He]. destruct Ho as [Hk Hmin].
    destruct (decide (key = hex_encode h)) as [->|Hk']; [apply lookup_delete_eq|].
    specialize (Hold key e0 Hk Hk'). specialize (Hmin _ e He). lia. }
  unfold SC.is_state_invalidated, Cache.put, mbind_st, mmod, mlift. cbn [sc_invalidation_cache].
  destruct (Cache.entry_new _ _ _ _); cbn [fst snd]; rewrite ?lookup_insert_ne, ?Hroom; try done.
  intros Heq%hexa_inj. done.
Qed.

End StorageCacheFacts.

(** ** Witnesses *)

Module StorageCacheWitness.
#[local] Existing Instances Toy.toy_blake3 Toy.toy_runtime ToyHex.toy_hex toy_bincode_operation
  ToySt.toy_bincode_balance ToySt.toy_bincode_precommitment.
#[local] Instance toy_order : DashOrder := {| dash_iter A := map_to_list; dash_iter_perm A m := reflexivity _ |}.
#[local] Instance encode_genesis : Bincode GenesisState := fun g => Some (gs_hash g).
#[local] Instance encode_token : Bincode Token := fun t => Some (str_bytes (tok_id t)).
#[local] Instance encode_state : Bincode State := fun s => Some (hash s).
#[local] Instance encode_marker : Bincode InvalidationMarker := fun m => Some (im_marker_hash m).

Definition genesis : GenesisState := mkGenesis [Byte.x01] [] 1 ∅ None None (mkSigningKey [] []) (mkKyberKey [] []) [].
Definition token : Token := Tok.new "alice" [] [] (Bal.new 0).
Definition marker (h : bytes) : InvalidationMarker := mkMarker "device" 1 h [] ∅ "lost" 0 [].
Definition small : StorageCache := SC.with_settings 1 60.

Lemma cached_items_found_witness :
  ∃ s', SC.cache_invalidation 0 (marker [Byte.x05]) true (Some 60) small = (Ok tt, s') ∧ SC.is_state_invalidated 7 [Byte.x05] s' = Ok true.
Proof.
  destruct (cached_items_found small 0 7 60 true genesis "t" token (marker [Byte.x05]) _ _ _ eq_refl eq_refl eq_refl) as (_ & _ & s' & H1 & _ & H2).
  - lia.
  - right. lia.
  - exists s'. split; [exact H1|exact H2].
Defined.

Definition full : StorageCache := (SC.cache_invalidation 0 (marker [Byte.x05]) true None small).2.

(** A second marker in a cache for one. *)
Lemma invalidation_forgotten_witness :
  SC.is_state_invalidated 9 [Byte.x05] (SC.cache_invalidation 8 (marker [Byte.x06]) true None full).2 = Ok false.
Proof.
  apply (invalidation_forgotten full 8 9 (marker [Byte.x06]) true None [Byte.x05]
    (mkCacheEntry _ (marker [Byte.x05]) 0 0 60 (blake3 []) true)).
  - vm_compute. reflexivity.
  - intros key e' H Hne. exfalso. apply Hne.
    assert (sc_invalidation_cache full = {[hex_encode [Byte.x05] := mkCacheEntry _ (marker [Byte.x05]) 0 0 60 (blake3 []) true]}) as E by reflexivity.
    rewrite E in H. by apply lookup_singleton_Some in H as [<- _].
  - apply Nat.leb_le. vm_compute. reflexivity.
  - discriminate.
Defined.
End StorageCacheWitness.
