(* ===== verification/Wire.v ===== *)
(** * Messages, session encryption and sessions
      (dsm/src/communication/protocol/mod.rs, crypto_net.rs,
      protocol/dsm_protocol.rs)

    [Msg] is the wire format with the acknowledgments of the reliability layer,
    [CryptoProvider] the trait of the cryptographic providers with what it promises,
    [Net] the nonces, the methods of the Kyber provider and the session's encryption,
    [kyber_provider] that provider as an instance, and [Session] the sessions, over
    any provider: handshake, sending, receiving, and the bodies of the two background
    tasks.  The transport is an input of each call: what a send answers and what
    a receive yields; what the transport accepted is kept in the state.  A task
    that [tokio::spawn] starts is kept in the session until [run_spawned]
    executes it.  Instants are in nanoseconds, read once per call. *)
From S2P Require Import Prelude States Kyber.

Inductive MessageType :=
  | Handshake | HandshakeResponse | Data | Ping | Pong | Close | Ack | Fragment | MError.
#[global] Instance MessageType_eq_dec : EqDecision MessageType.
Proof. solve_decision. Defined.

Record Message := mkMessage {
  m_type : MessageType;
  m_sequence_number : Z;
  m_flags : Z;
  m_timestamp : Z;
  m_data : bytes;
}.

Record SessionConfig := mkSessionConfig {
  sg_session_timeout_ms : Z;
  sg_keepalive_interval_ms : Z;
  sg_max_message_size : Z;
  sg_enable_reliability : bool;
  sg_max_retries : Z;
  sg_retry_interval_ms : Z;
  sg_max_tracked_sequences : nat;
}.

(** ** The wire format *)

(** [to_be_bytes] and [from_be_bytes] of an [n]-byte integer. *)
Definition be (n : nat) (z : Z) : bytes := rev (le_bytes n z).
Definition of_be (b : bytes) : Z := of_le_bytes (rev b).

Module Msg.

Definition default_config : SessionConfig := mkSessionConfig 60000 30000 (1024 * 1024) true 5 500 (Z.to_nat 1000).

(** [ts] is the time in milliseconds. *)
Definition new (ts : Z) (message_type : MessageType) (data : bytes) : Message := mkMessage message_type 0 0 ts data.
Definition set_sequence_number (seq : Z) (m : Message) : Message :=
  mkMessage (m_type m) seq (m_flags m) (m_timestamp m) (m_data m).
Definition set_flags (flags : Z) (m : Message) : Message :=
  mkMessage (m_type m) (m_sequence_number m) flags (m_timestamp m) (m_data m).

(** [message_type as u8] *)
Definition tag (t : MessageType) : Z :=
  match t with
  | Handshake => 0 | HandshakeResponse => 1 | Data => 2 | Ping => 3 | Pong => 4
  | Close => 5 | Ack => 6 | Fragment => 7 | MError => 8
  end.
Definition of_tag (b : Z) : option MessageType :=
  match b with
  | 0 => Some Handshake | 1 => Some HandshakeResponse | 2 => Some Data | 3 => Some Ping | 4 => Some Pong
  | 5 => Some Close | 6 => Some Ack | 7 => Some Fragment | 8 => Some MError
  | _ => None
  end.

(** [self.data.len() as u32] keeps the low 32 bits. *)
Definition to_bytes (m : Message) : bytes :=
  be 1 (tag (m_type m)) ++ be 8 (m_sequence_number m) ++ be 2 (m_flags m) ++ be 8 (m_timestamp m) ++
  be 4 (Z.of_nat (length (m_data m))) ++ m_data m.

(** The [n] bytes from [i] on, as an integer. *)
Definition field (i n : nat) (b : bytes) : Z := of_be (take n (drop i b)).

Definition from_bytes (b : bytes) : outcome Message :=
  if (length b <? 23)%nat then Err (ESerialization "Message too short for header")
  else
    match of_tag (field 0 1 b) with
    | None => Err (ESerialization "Unknown message type: {}")
    | Some t =>
        let data_len := field 19 4 b in
        if Z.of_nat (length b) <? 23 + data_len then Err (ESerialization "Message too short for data")
        else Ok (mkMessage t (field 1 8 b) (field 9 2 b) (field 11 8 b) (take (Z.to_nat data_len) (drop 23 b)))
    end.

(** ** The reliability layer *)

Definition prepare_message (m : Message) (seq : Z) : Message := set_sequence_number seq m.
Definition create_ack (ts seq : Z) : Message := new ts Ack (be 8 seq).
Definition extract_ack_sequence (ack : Message) : outcome Z :=
  if negb (bool_decide (m_type ack = Ack)) then Err (EValidation "Not an acknowledgment message")
  else if (length (m_data ack) <? 8)%nat then Err (EValidation "Ack message too short")
  else Ok (of_be (take 8 (m_data ack))).

End Msg.

(** ** External: ChaCha20-Poly1305 (chacha20poly1305 crate) *)

Class Chacha := {
  chacha_seal : bytes → bytes → bytes → bytes → option (bytes * bytes); (* key, nonce, associated data, plaintext *)
  chacha_open : bytes → bytes → bytes → bytes → bytes → option bytes;   (* ..., ciphertext, tag *)
  chacha_tag_length : ∀ k n a p c t, chacha_seal k n a p = Some (c, t) → length t = 16%nat;
  chacha_round_trip : ∀ k n a p c t, chacha_seal k n a p = Some (c, t) → chacha_open k n a c t = Some p;
}.

(** ** Cryptographic providers

    The trait [CryptoProvider]: what a provider keeps between calls, what one
    handshake makes it draw, and its four methods.  Sessions are defined, and proved
    correct, against it; a provider promises to open what it has sealed. *)

Class CryptoProvider := {
  provider_state : Type;
  provider_draws : Type;
  cp_generate_keypair : provider_draws → M provider_state (bytes * bytes);
  cp_derive_shared_secret : provider_draws → bytes → bytes → outcome bytes;   (* private key, public key *)
  cp_encrypt : bytes → bytes → bytes → bytes → outcome bytes;   (* secret, nonce, plaintext, associated data *)
  cp_decrypt : bytes → bytes → bytes → bytes → outcome bytes;
}.

Class ProviderOpens (CP : CryptoProvider) : Prop :=
  provider_opens : ∀ secret nonce p aad c, cp_encrypt secret nonce p aad = Ok c → cp_decrypt secret nonce c aad = Ok p.

(** ** Nonces and the encryption of a session *)

Record SessionEncryption := mkSessionEncryption {
  se_shared_secret : bytes;
  se_outgoing_nonce_counter : Z;
  se_incoming_nonce_counter : Z;
}.

Module Net.
Section Net.
Context {B3 : Blake3} {K : Mlkem kem768} {AE : Aead} {CC : Chacha}.

(** The nonce is 0xC0, 0x4D, two zeros and the counter. *)
Definition from_u64 (counter : Z) : bytes := [Byte.xc0; Byte.x4d; Byte.x00; Byte.x00] ++ be 8 counter.
(** [r] is what the generator of the operating system fills in: ten bytes. *)
Definition random (r : bytes) : bytes := [Byte.xc0; Byte.x4d] ++ take 10 (r ++ zeros 10).

(** [KyberCryptoProvider] *)
Definition generate_keypair (i i' : Z) (r1 r2 r3 r : bytes) : M KyberState (bytes * bytes) :=
  Kyber.generate_kyber_keypair i i' r1 r2 r3 r.

(** The private key is not used and the encapsulated ciphertext is dropped. *)
Definition derive_shared_secret (r private_key public_key : bytes) : outcome bytes :=
  match Kyber.kyber_encapsulate r public_key with
  | Ok (shared_secret, _) => Ok shared_secret
  | Err _ => Err (ECrypto "Failed to encapsulate shared secret")
  | Panic => Panic
  | Hang => Hang
  end.

Definition encrypt (secret nonce plaintext aad : bytes) : outcome bytes :=
  if negb (length secret =? 32)%nat then Err (ECrypto "Invalid key length")
  else
    match chacha_seal secret nonce aad plaintext with
    | Some (ciphertext, tag) => Ok (ciphertext ++ tag)
    | None => Err (ECrypto "Encryption failed")
    end.

Definition decrypt (secret nonce ciphertext aad : bytes) : outcome bytes :=
  if negb (length secret =? 32)%nat then Err (ECrypto "Invalid key length")
  else if (length ciphertext <? 16)%nat then Err (ECrypto "Ciphertext too short, missing auth tag")
  else
    let tag_start := (length ciphertext - 16)%nat in
    ok_or (ECrypto "Decryption failed, data may be tampered with")
      (chacha_open secret nonce aad (take tag_start ciphertext) (drop tag_start ciphertext)).

End Net.

Section SessionEncryption.
Context {CP : CryptoProvider}.

Definition new (shared_secret : bytes) : SessionEncryption := mkSessionEncryption shared_secret 0 0.

(** [fetch_add] wraps around. *)
Definition next (n : Z) : Z := (n + 1) mod 2 ^ 64.

Definition session_encrypt (plaintext aad : bytes) : M SessionEncryption bytes := fun e =>
  (cp_encrypt (se_shared_secret e) (from_u64 (se_outgoing_nonce_counter e)) plaintext aad,
   mkSessionEncryption (se_shared_secret e) (next (se_outgoing_nonce_counter e)) (se_incoming_nonce_counter e)).
Definition session_decrypt (ciphertext aad : bytes) : M SessionEncryption bytes := fun e =>
  (cp_decrypt (se_shared_secret e) (from_u64 (se_incoming_nonce_counter e)) ciphertext aad,
   mkSessionEncryption (se_shared_secret e) (se_outgoing_nonce_counter e) (next (se_incoming_nonce_counter e))).

End SessionEncryption.
End Net.

(** What a handshake makes [KyberCryptoProvider] draw, with the instants its key
    generation reads. *)
Record HandshakeDraws := mkHandshakeDraws {
  hd_instants : Z * Z;
  hd_self_test : bytes * bytes * bytes;
  hd_keypair : bytes;
  hd_encapsulation : bytes;
}.

Definition kyber_provider `{B3 : Blake3, K : Mlkem kem768, AE : Aead, CC : Chacha} : CryptoProvider := {|
  provider_state := KyberState;
  provider_draws := HandshakeDraws;
  cp_generate_keypair d := Net.generate_keypair (hd_instants d).1 (hd_instants d).2
    (hd_self_test d).1.1 (hd_self_test d).1.2 (hd_self_test d).2 (hd_keypair d);
  cp_derive_shared_secret d := Net.derive_shared_secret (hd_encapsulation d);
  cp_encrypt := Net.encrypt;
  cp_decrypt := Net.decrypt;
|}.

(** ** Sessions *)

(** What [transport.receive()] under a timeout yields. *)
Inductive Received := RTimeout | RFail (e : DsmError) | RData (b : bytes).

(** [ss_sent] is what the transport accepted; [ss_spawned] the tasks started and
    not yet run: a message and the sequence counter of the copy that sends it. *)
Record DsmSession := mkDsmSession {
  ss_session_id : string;
  ss_encryption : SessionEncryption;
  ss_config : SessionConfig;
  ss_next_sequence : Z;
  ss_received_sequences : gset Z;
  ss_unacked_messages : gmap Z (Message * Z * Z);
  ss_creation_time : Z;
  ss_last_activity : Z;
  ss_active : bool;
  ss_sent : list bytes;
  ss_spawned : list (Message * Z);
}.

(** The sessions live behind an [Arc], which the map of active sessions and the
    handles share: [dp_heap] holds them, a reference is an index. *)
Record DsmProtocol {CP : CryptoProvider} := mkDsmProtocol {
  dp_config : SessionConfig;
  dp_crypto_provider : provider_state;
  dp_heap : list DsmSession;
  dp_active_sessions : gmap string nat;
}.
Arguments mkDsmProtocol {_} _ _ _ _.

(** The order in which a hash map with sequence numbers as keys is visited. *)
Class SeqOrder := {
  seq_iter : ∀ {A}, gmap Z A → list (Z * A);
  seq_iter_perm : ∀ {A} (m : gmap Z A), seq_iter m ≡ₚ map_to_list m;
}.

Definition network_error (context : string) : DsmError := ENetwork context "" None.

Module Session.
Section Session.
Context {CP : CryptoProvider} {SQ : SeqOrder}.

Definition set_encryption (e : SessionEncryption) (s : DsmSession) : DsmSession :=
  mkDsmSession (ss_session_id s) e (ss_config s) (ss_next_sequence s) (ss_received_sequences s) (ss_unacked_messages s)
    (ss_creation_time s) (ss_last_activity s) (ss_active s) (ss_sent s) (ss_spawned s).
Definition set_next_sequence (n : Z) (s : DsmSession) : DsmSession :=
  mkDsmSession (ss_session_id s) (ss_encryption s) (ss_config s) n (ss_received_sequences s) (ss_unacked_messages s)
    (ss_creation_time s) (ss_last_activity s) (ss_active s) (ss_sent s) (ss_spawned s).
Definition set_received (r : gset Z) (s : DsmSession) : DsmSession :=
  mkDsmSession (ss_session_id s) (ss_encryption s) (ss_config s) (ss_next_sequence s) r (ss_unacked_messages s)
    (ss_creation_time s) (ss_last_activity s) (ss_active s) (ss_sent s) (ss_spawned s).
Definition set_unacked (u : gmap Z (Message * Z * Z)) (s : DsmSession) : DsmSession :=
  mkDsmSession (ss_session_id s) (ss_encryption s) (ss_config s) (ss_next_sequence s) (ss_received_sequences s) u
    (ss_creation_time s) (ss_last_activity s) (ss_active s) (ss_sent s) (ss_spawned s).
Definition set_last_activity (t : Z) (s : DsmSession) : DsmSession :=
  mkDsmSession (ss_session_id s) (ss_encryption s) (ss_config s) (ss_next_sequence s) (ss_received_sequences s)
    (ss_unacked_messages s) (ss_creation_time s) t (ss_active s) (ss_sent s) (ss_spawned s).
Definition set_active (a : bool) (s : DsmSession) : DsmSession :=
  mkDsmSession (ss_session_id s) (ss_encryption s) (ss_config s) (ss_next_sequence s) (ss_received_sequences s)
    (ss_unacked_messages s) (ss_creation_time s) (ss_last_activity s) a (ss_sent s) (ss_spawned s).
Definition set_sent (l : list bytes) (s : DsmSession) : DsmSession :=
  mkDsmSession (ss_session_id s) (ss_encryption s) (ss_config s) (ss_next_sequence s) (ss_received_sequences s)
    (ss_unacked_messages s) (ss_creation_time s) (ss_last_activity s) (ss_active s) l (ss_spawned s).
Definition set_spawned (l : list (Message * Z)) (s : DsmSession) : DsmSession :=
  mkDsmSession (ss_session_id s) (ss_encryption s) (ss_config s) (ss_next_sequence s) (ss_received_sequences s)
    (ss_unacked_messages s) (ss_creation_time s) (ss_last_activity s) (ss_active s) (ss_sent s) l.

Definition on_encryption {A} (op : M SessionEncryption A) : M DsmSession A := fun s =>
  let '(o, e) := op (ss_encryption s) in (o, set_encryption e s).

(** [transport.send(..)]; [answer] is the error of the transport, if any. *)
Definition transport_send (answer : option DsmError) (b : bytes) : M DsmSession unit :=
  match answer with
  | Some e => mfail e
  | None => mmod (fun s => set_sent (ss_sent s ++ [b]) s)
  end.

Definition send_encrypted_message (answer : option DsmError) (m : Message) : M DsmSession unit :=
  let* encrypted := on_encryption (Net.session_encrypt (Msg.to_bytes m) []) in
  transport_send answer encrypted.

(** Acknowledgments, pings and pongs are neither kept nor acknowledged. *)
Definition unreliable (t : MessageType) : bool := match t with Ack | Ping | Pong => true | _ => false end.
Definition reliable (s : DsmSession) (m : Message) : bool :=
  sg_enable_reliability (ss_config s) && negb (unreliable (m_type m)).

(** [send_reliable_message] once the sequence number is drawn. *)
Definition send_numbered (inst : Z) (answer : option DsmError) (seq : Z) (message : Message) : M DsmSession unit :=
  let msg := Msg.set_sequence_number seq message in
  do* send_encrypted_message answer msg;
  do* mmod (fun s => if reliable s msg then set_unacked (<[seq := (msg, inst, 0)]> (ss_unacked_messages s)) s else s);
  mmod (set_last_activity inst).

Definition send_reliable_message (inst : Z) (answer : option DsmError) (message : Message) : M DsmSession unit :=
  let* s := mget in
  do* mmod (set_next_sequence (Net.next (ss_next_sequence s)));
  send_numbered inst answer (ss_next_sequence s) message.

Definition receive_encrypted_message (inst : Z) (r : Received) : M DsmSession Message :=
  match r with
  | RTimeout => mfail (network_error "Receive timeout")
  | RFail e => mfail e
  | RData encrypted =>
      let* message_bytes := on_encryption (Net.session_decrypt encrypted []) in
      let* message := mlift (Msg.from_bytes message_bytes) in
      do* mmod (set_last_activity inst);
      mret_st message
  end.

(** [received.iter().next()] of a B-tree set: the least element. *)
Definition least (X : gset Z) : option Z :=
  match elements X with [] => None | x :: l => Some (foldr Z.min x l) end.

(** [while received.len() > max { .. }]: at most [fuel] removals. *)
Fixpoint prune (fuel max : nat) (X : gset Z) : gset Z :=
  match fuel with
  | O => X
  | S fuel =>
      if (size X <=? max)%nat then X
      else match least X with Some first => prune fuel max (X ∖ {[ first ]}) | None => prune fuel max X end
  end.

(** [tokio::spawn] of a send by a copy of the session: the copy shares everything
    but the counter of sequence numbers, which it takes over as it is. *)
Definition spawn_send (m : Message) : M DsmSession unit :=
  mmod (fun s => set_spawned (ss_spawned s ++ [(m, ss_next_sequence s)]) s).

Definition track (seq : Z) (s : DsmSession) : DsmSession :=
  let received := {[ seq ]} ∪ ss_received_sequences s in
  set_received (prune (size received) (sg_max_tracked_sequences (ss_config s)) received) s.

(** [ts] is the time stamp of the messages the call creates. *)
Definition process_received_message (ts : Z) (message : Message) : M DsmSession Message :=
  let seq := m_sequence_number message in
  let* s := mget in
  if bool_decide (seq ∈ ss_received_sequences s) then mfail (network_error "Duplicate message")
  else
    do* mmod (track seq);
    if bool_decide (m_type message = Ack) then
      do* match Msg.extract_ack_sequence message with
          | Ok acked => mmod (fun s => set_unacked (delete acked (ss_unacked_messages s)) s)
          | _ => mret_st tt
          end;
      mfail (network_error "Received ack")
    else
      do* (if reliable s message then spawn_send (Msg.create_ack ts seq) else mret_st tt);
      match m_type message with
      | Ping =>
          do* spawn_send (Msg.new ts Pong []);
          mfail (network_error "Received ping")
      | Pong => mfail (network_error "Received pong")
      | Close =>
          do* mmod (set_active false);
          mfail (network_error "Session closed by peer")
      | _ => mret_st message
      end.

(** The [i]-th spawned task runs; its error is only logged. *)
Definition run_spawned (inst : Z) (answer : option DsmError) (i : nat) (s : DsmSession) : DsmSession :=
  match ss_spawned s !! i with
  | Some (m, counter) =>
      (send_numbered inst answer counter m (set_spawned (take i (ss_spawned s) ++ drop (S i) (ss_spawned s)) s)).2
  | None => s
  end.

(** ** Background tasks *)

Definition from_millis (ms : Z) : Z := ms * 1000000.
Definition due (inst : Z) (c : SessionConfig) (t : Message * Z * Z) : bool :=
  from_millis (sg_retry_interval_ms c) <? Z.max 0 (inst - t.1.2).

(** The message is sent again, or given up after [max_retries]. *)
Definition retry (inst : Z) (c : SessionConfig) (t : Message * Z * Z) : option (Message * Z * Z) :=
  if due inst c t then
    if sg_max_retries c <=? t.2 then None else Some (t.1.1, inst, t.2 + 1)
  else Some t.
Definition to_retransmit (inst : Z) (c : SessionConfig) (u : gmap Z (Message * Z * Z)) : list Message :=
  omap (fun p => if due inst c p.2 && (p.2.2 <? sg_max_retries c) then Some p.2.1.1 else None) (seq_iter u).

Fixpoint retransmit (answers : nat → option DsmError) (i : nat) (l : list Message) (s : DsmSession) : DsmSession :=
  match l with
  | [] => s
  | m :: l => retransmit answers (S i) l (send_encrypted_message (answers i) m s).2
  end.

(** One turn of the retransmission loop, after its sleep. *)
Definition retransmission_turn (inst : Z) (answers : nat → option DsmError) (s : DsmSession) : DsmSession :=
  let u := ss_unacked_messages s in
  let s := set_unacked (omap (retry inst (ss_config s)) u) s in
  retransmit answers 0 (to_retransmit inst (ss_config s) u) s.

(** One turn of the keep-alive loop, after its sleep. *)
Definition keepalive_turn (inst ts : Z) (answer : option DsmError) (s : DsmSession) : DsmSession :=
  let c := ss_config s in
  let idle := Z.max 0 (inst - ss_last_activity s) in
  let s := if from_millis (sg_keepalive_interval_ms c / 2) <? idle
           then (send_encrypted_message answer (Msg.new ts Ping []) s).2 else s in
  if from_millis (sg_session_timeout_ms c) <? idle then set_active false s else s.

(** ** Handshakes *)

(** The state during a handshake: that of the key generation, and what the
    transport accepted. *)
Definition handshake_keys (d : provider_draws) : M (provider_state * list bytes) (bytes * bytes) := fun s =>
  let '(o, k) := cp_generate_keypair d s.1 in (o, (k, s.2)).
Definition handshake_send (answer : option DsmError) (b : bytes) : M (provider_state * list bytes) unit :=
  match answer with Some e => mfail e | None => mmod (fun s => (s.1, s.2 ++ [b])) end.

Definition received (what : string) (r : Received) : outcome bytes :=
  match r with
  | RTimeout => Err (network_error "Handshake timeout")
  | RFail _ => Err (network_error what)
  | RData b => Ok b
  end.

Definition perform_initiator_handshake (d : provider_draws) (ts : Z) (answer : option DsmError) (r : Received)
    : M (provider_state * list bytes) SessionEncryption :=
  let* keypair := handshake_keys d in
  do* handshake_send answer (Msg.to_bytes (Msg.new ts Handshake keypair.1));
  let* response_bytes := mlift (received "Failed to receive handshake response: {}" r) in
  let* response := mlift (Msg.from_bytes response_bytes) in
  if negb (bool_decide (m_type response = HandshakeResponse)) then mfail (network_error "Unexpected message type: {:?}")
  else
    let* shared_secret := mlift (cp_derive_shared_secret d keypair.2 (m_data response)) in
    mret_st (Net.new shared_secret).

Definition perform_responder_handshake (d : provider_draws) (ts : Z) (answer : option DsmError) (initiator_bytes : bytes)
    : M (provider_state * list bytes) SessionEncryption :=
  let* handshake := mlift (Msg.from_bytes initiator_bytes) in
  if negb (bool_decide (m_type handshake = Handshake)) then mfail (network_error "Unexpected message type: {:?}")
  else
    let* keypair := handshake_keys d in
    do* handshake_send answer (Msg.to_bytes (Msg.new ts HandshakeResponse keypair.1));
    let* shared_secret := mlift (cp_derive_shared_secret d keypair.2 (m_data handshake)) in
    mret_st (Net.new shared_secret).

(** ** The protocol *)

Definition new (config : SessionConfig) (k : provider_state) : DsmProtocol := mkDsmProtocol config k [] ∅.

(** [uuid] is the identifier drawn; the session is put into the map and its
    reference is returned with the identifier. *)
Definition open_session (uuid : string) (inst : Z) (hs : M (provider_state * list bytes) SessionEncryption)
    : M DsmProtocol (nat * string) := fun p =>
  match hs (dp_crypto_provider p, []) with
  | (Ok e, (k, sent)) =>
      let s := mkDsmSession uuid e (dp_config p) 0 ∅ ∅ inst inst true sent [] in
      (Ok (length (dp_heap p), uuid),
       mkDsmProtocol (dp_config p) k (dp_heap p ++ [s]) (<[uuid := length (dp_heap p)]> (dp_active_sessions p)))
  | (Err e, (k, _)) => (Err e, mkDsmProtocol (dp_config p) k (dp_heap p) (dp_active_sessions p))
  | (Panic, (k, _)) => (Panic, mkDsmProtocol (dp_config p) k (dp_heap p) (dp_active_sessions p))
  | (Hang, (k, _)) => (Hang, mkDsmProtocol (dp_config p) k (dp_heap p) (dp_active_sessions p))
  end.

Definition create_session (d : provider_draws) (ts inst : Z) (uuid : string) (answer : option DsmError) (r : Received)
    : M DsmProtocol (nat * string) :=
  open_session uuid inst (perform_initiator_handshake d ts answer r).
Definition accept_session (d : provider_draws) (ts inst : Z) (uuid : string) (answer : option DsmError) (r : Received)
    : M DsmProtocol (nat * string) :=
  let* initial_bytes := mlift (received "Failed to receive handshake: {}" r) in
  open_session uuid inst (perform_responder_handshake d ts answer initial_bytes).

Definition protocol_id : string := "dsm/1.0".

(** ** The handle *)

Definition send_message (inst : Z) (answer : option DsmError) (m : Message) : M DsmSession unit :=
  let* s := mget in
  if negb (ss_active s) then mfail (network_error "Session closed")
  else send_reliable_message inst answer m.

Definition receive_message (inst ts : Z) (r : Received) : M DsmSession Message :=
  let* s := mget in
  if negb (ss_active s) then mfail (network_error "Session closed")
  else
    let* m := receive_encrypted_message inst r in
    process_received_message ts m.

(** [closed] is what closing the transport answers. *)
Definition close (inst ts : Z) (answer closed : option DsmError) : M DsmSession unit := fun s =>
  let s := (send_reliable_message inst answer (Msg.new ts Close []) (set_active false s)).2 in
  (match closed with Some e => Err e | None => Ok tt end, s).

Definition is_active (s : DsmSession) : bool := ss_active s.
Definition last_activity_time (s : DsmSession) : Z := ss_last_activity s.

End Session.

(** The default protocol has a [KyberCryptoProvider]. *)
Definition init `{B3 : Blake3, K : Mlkem kem768, AE : Aead, CC : Chacha} (k : KyberState) : DsmProtocol (CP := kyber_provider) :=
  new (CP := kyber_provider) Msg.default_config k.

End Session.

(** ** Big-endian integers *)

Lemma length_be n z : length (be n z) = n.
Proof. unfold be. by rewrite length_rev, length_le_bytes. Qed.

Lemma of_be_be n z : of_be (be n z) = z mod 2 ^ (Z.of_nat n * 8).
Proof. unfold of_be, be. by rewrite rev_involutive, of_le_bytes_le_bytes. Qed.

Lemma be_of_be n b : length b = n → be n (of_be b) = b.
Proof.
  intros <-. unfold be, of_be, le_bytes, of_le_bytes. rewrite <- (length_rev b).
  by rewrite LittleEndianList.split_le_combine, rev_involutive.
Qed.

Lemma of_be_range b : 0 ≤ of_be b < 2 ^ (8 * Z.of_nat (length b)).
Proof. unfold of_be. rewrite <- (length_rev b). apply of_le_bytes_bound. Qed.

Lemma tag_roundtrip t : Msg.of_tag (Msg.tag t) = Some t.
Proof. by destruct t. Qed.

Lemma of_tag_Some z t : 0 ≤ z → Msg.of_tag z = Some t → z = Msg.tag t.
Proof.
  intros Hz H. assert (z < 9 ∨ 9 ≤ z) as [Hs|Hs] by lia.
  - assert (z ∈ [0; 1; 2; 3; 4; 5; 6; 7; 8]) as Hin by (rewrite !elem_of_cons; lia).
    rewrite !elem_of_cons, elem_of_nil in Hin. destruct_or!; subst; by injection H as <-.
  - unfold Msg.of_tag in H. destruct z as [|p|p]; [lia| |lia].
    do 4 (destruct p as [p|p|]; try discriminate H; try lia).
Qed.

(** The [n] bytes after [i] bytes. *)
Lemma field_at i n a b c : length a = i → length b = n → Msg.field i n (a ++ b ++ c) = of_be b.
Proof. intros <- <-. unfold Msg.field. by rewrite drop_app_length, take_app_length. Qed.

(** The integers fit their fields. *)
Record message_ok (m : Message) : Prop := mkMessageOk {
  mo_seq : 0 ≤ m_sequence_number m < 2 ^ 64;
  mo_flags : 0 ≤ m_flags m < 2 ^ 16;
  mo_timestamp : 0 ≤ m_timestamp m < 2 ^ 64;
  mo_data : Z.of_nat (length (m_data m)) < 2 ^ 32;
}.

Lemma split_header (b : bytes) : (23 ≤ length b)%nat → ∃ b0 b1 b2 b3 b4 d,
  b = b0 ++ b1 ++ b2 ++ b3 ++ b4 ++ d ∧ length b0 = 1%nat ∧ length b1 = 8%nat ∧ length b2 = 2%nat ∧ length b3 = 8%nat ∧ length b4 = 4%nat.
Proof.
  intros H. exists (take 1 b), (take 8 (drop 1 b)), (take 2 (drop 9 b)), (take 8 (drop 11 b)), (take 4 (drop 19 b)), (drop 23 b).
  split_and!; [|rewrite ?length_take, ?length_drop; lia..].
  rewrite <- (take_drop 1 b) at 1. f_equal. rewrite <- (take_drop 8 (drop 1 b)) at 1. rewrite drop_drop. f_equal.
  rewrite <- (take_drop 2 (drop (1 + 8) b)) at 1. rewrite drop_drop. f_equal.
  rewrite <- (take_drop 8 (drop (1 + 8 + 2) b)) at 1. rewrite drop_drop. f_equal.
  rewrite <- (take_drop 4 (drop (1 + 8 + 2 + 8) b)) at 1. rewrite drop_drop. done.
Qed.

(** Parsing a buffer cut at the fields. *)
Lemma from_bytes_split b0 b1 b2 b3 b4 d :
  length b0 = 1%nat → length b1 = 8%nat → length b2 = 2%nat → length b3 = 8%nat → length b4 = 4%nat →
  Msg.from_bytes (b0 ++ b1 ++ b2 ++ b3 ++ b4 ++ d) =
    match Msg.of_tag (of_be b0) with
    | None => Err (ESerialization "Unknown message type: {}")
    | Some t =>
        if Z.of_nat (length d) <? of_be b4 then Err (ESerialization "Message too short for data")
        else Ok (mkMessage t (of_be b1) (of_be b2) (of_be b3) (take (Z.to_nat (of_be b4)) d))
    end.
Proof.
  intros H0 H1 H2 H3 H4. unfold Msg.from_bytes. set (b := b0 ++ _).
  assert (length b = 23 + length d)%nat as Hl by (subst b; rewrite !length_app; lia).
  replace (length b <? 23)%nat with false by (symmetry; apply Nat.ltb_ge; lia).
  assert (Msg.field 0 1 b = of_be b0) as -> by (by apply (field_at 0 1 [])).
  assert (Msg.field 1 8 b = of_be b1) as -> by (by apply field_at).
  assert (Msg.field 9 2 b = of_be b2) as ->
    by (subst b; rewrite (app_assoc b0); apply field_at; rewrite ?length_app; lia).
  assert (Msg.field 11 8 b = of_be b3) as ->
    by (subst b; rewrite 2!app_assoc; apply field_at; rewrite ?length_app; lia).
  assert (Msg.field 19 4 b = of_be b4) as ->
    by (subst b; rewrite 3!app_assoc; apply field_at; rewrite ?length_app; lia).
  assert (drop 23 b = d) as ->.
  { subst b. rewrite 4!app_assoc. replace 23%nat with (length ((((b0 ++ b1) ++ b2) ++ b3) ++ b4)) by (rewrite !length_app; lia). apply drop_app_length. }
  rewrite Hl. destruct (Msg.of_tag (of_be b0)); [|done].
  replace (Z.of_nat (23 + length d) <? 23 + of_be b4) with (Z.of_nat (length d) <? of_be b4); [done|].
  destruct (Z.ltb_spec (Z.of_nat (length d)) (of_be b4)), (Z.ltb_spec (Z.of_nat (23 + length d)) (23 + of_be b4)); lia.
Qed.

Lemma from_bytes_sound b m : Msg.from_bytes b = Ok m → message_ok m ∧ ∃ rest, b = Msg.to_bytes m ++ rest.
Proof.
  intros H. destruct (decide (23 ≤ length b)%nat) as [Hl|Hl];
    [|by unfold Msg.from_bytes in H; replace (length b <? 23)%nat with true in H by (symmetry; apply Nat.ltb_lt; lia)].
  destruct (split_header b Hl) as (b0 & b1 & b2 & b3 & b4 & d & -> & H0 & H1 & H2 & H3 & H4).
  rewrite from_bytes_split in H by done.
  destruct (Msg.of_tag (of_be b0)) as [t|] eqn:Et; [|done].
  destruct (Z.ltb_spec (Z.of_nat (length d)) (of_be b4)) as [|Hd]; [done|]. apply Ok_inj in H as <-.
  apply of_tag_Some in Et; [|apply of_be_range].
  pose proof (of_be_range b1) as R1. pose proof (of_be_range b2) as R2. pose proof (of_be_range b3) as R3.
  pose proof (of_be_range b4) as R4. rewrite H1 in R1. rewrite H2 in R2. rewrite H3 in R3. rewrite H4 in R4.
  assert (length (take (Z.to_nat (of_be b4)) d) = Z.to_nat (of_be b4)) as Ht by (rewrite length_take; lia).
  split; [constructor; cbn [m_sequence_number m_flags m_timestamp m_data]; rewrite ?Ht; lia|].
  exists (drop (Z.to_nat (of_be b4)) d).
  unfold Msg.to_bytes. cbn [m_type m_sequence_number m_flags m_timestamp m_data].
  rewrite Ht, Z2Nat.id by lia. rewrite <- Et, !be_of_be by done. rewrite <- !app_assoc. by rewrite take_drop.
Qed.

Lemma from_bytes_complete m rest : message_ok m → Msg.from_bytes (Msg.to_bytes m ++ rest) = Ok m.
Proof.
  intros [Hs Hf Ht Hd]. unfold Msg.to_bytes. rewrite <- !app_assoc.
  rewrite from_bytes_split by apply length_be. rewrite !of_be_be.
  rewrite !Z.mod_small by (first [by destruct (m_type m)|lia]). rewrite tag_roundtrip, length_app.
  replace (Z.of_nat (length (m_data m) + length rest) <? Z.of_nat (length (m_data m))) with false by (symmetry; apply Z.ltb_ge; lia).
  rewrite Nat2Z.id, take_app_length. by destruct m.
Qed.

(** C34: the wire format is exact: a buffer parses to a message if and only if
    the message's integers fit their fields and the buffer starts with the
    encoding of the message; what follows it is ignored. *)
Theorem message_codec_exact (b : bytes) (m : Message) :
  Msg.from_bytes b = Ok m ↔ message_ok m ∧ ∃ rest, b = Msg.to_bytes m ++ rest.
Proof.
  split; [apply from_bytes_sound|]. intros (Hm & rest & ->). by apply from_bytes_complete.
Qed.

(** ** Encryption *)

(** The Kyber provider keeps its promise. *)
Section KyberProvider.
Context {B3 : Blake3} {K : Mlkem kem768} {AE : Aead} {CC : Chacha}.

Lemma encrypt_decrypt secret nonce p aad c : Net.encrypt secret nonce p aad = Ok c → Net.decrypt secret nonce c aad = Ok p.
Proof.
  unfold Net.encrypt, Net.decrypt. destruct (length secret =? 32)%nat; [cbn [negb]|done].
  destruct (chacha_seal secret nonce aad p) as [[ct t]|] eqn:E; [|done]. intros <-%Ok_inj.
  pose proof (chacha_tag_length _ _ _ _ _ _ E) as Ht. rewrite length_app, Ht.
  replace (length ct + 16 <? 16)%nat with false by (symmetry; apply Nat.ltb_ge; lia).
  replace (length ct + 16 - 16)%nat with (length ct) by lia.
  rewrite take_app_length, drop_app_length. by rewrite (chacha_round_trip _ _ _ _ _ _ E).
Qed.

#[export] Instance kyber_opens : ProviderOpens kyber_provider.
Proof. exact encrypt_decrypt. Qed.

End KyberProvider.

Section WireFacts.
Context {CP : CryptoProvider} {CO : ProviderOpens CP} {SQ : SeqOrder}.

Lemma from_u64_inj a b : 0 ≤ a < 2 ^ 64 → 0 ≤ b < 2 ^ 64 → Net.from_u64 a = Net.from_u64 b → a = b.
Proof.
  intros Ha Hb H. unfold Net.from_u64 in H. apply app_inv_head, (f_equal of_be) in H.
  rewrite !of_be_be in H. change (2 ^ (Z.of_nat 8 * 8)) with (2 ^ 64) in H. by rewrite !Z.mod_small in H.
Qed.

(** The nonces of a session: below 2^64 different counters give different
    nonces, so no two of the first 2^64 encryptions of a session share one; every
    nonce, random ones included, has twelve bytes and the prefix of the
    communication domain. *)
Theorem session_nonces_distinct (a b : Z) (r : bytes) :
  (0 ≤ a < 2 ^ 64 → 0 ≤ b < 2 ^ 64 → Net.from_u64 a = Net.from_u64 b → a = b) ∧
  (length (Net.from_u64 a) = 12%nat ∧ take 2 (Net.from_u64 a) = [Byte.xc0; Byte.x4d]) ∧
  (length (Net.random r) = 12%nat ∧ take 2 (Net.random r) = [Byte.xc0; Byte.x4d]) ∧
  ∀ (e : SessionEncryption) (n : nat) (p aad : bytes), se_outgoing_nonce_counter e = 0 → Z.of_nat n < 2 ^ 64 →
    se_outgoing_nonce_counter (Nat.iter n (fun e => (Net.session_encrypt p aad e).2) e) = Z.of_nat n.
Proof.
  split_and!; try done.
  - apply from_u64_inj.
  - unfold Net.random, zeros. rewrite length_app, length_take, length_app, length_replicate. cbn [length]. lia.
  - intros e n p aad He. induction n as [|n IH]; intros Hn; [done|].
    set (f := fun e => _) in *. change (Nat.iter (S n) f e) with (f (Nat.iter n f e)). unfold f at 1.
    cbn [Net.session_encrypt snd se_outgoing_nonce_counter]. unfold Net.next. rewrite IH by lia.
    rewrite Z.mod_small; lia.
Qed.

(** ** Sending and receiving *)

Definition deliverable (t : MessageType) : bool := match t with Ack | Ping | Pong | Close => false | _ => true end.

Lemma send_step inst m s c : ss_active s = true →
  cp_encrypt (se_shared_secret (ss_encryption s)) (Net.from_u64 (se_outgoing_nonce_counter (ss_encryption s)))
    (Msg.to_bytes (Msg.set_sequence_number (ss_next_sequence s) m)) [] = Ok c →
  ∃ s', Session.send_message inst None m s = (Ok tt, s') ∧ ss_active s' = true ∧ ss_sent s' = ss_sent s ++ [c] ∧
    ss_next_sequence s' = Net.next (ss_next_sequence s) ∧
    se_shared_secret (ss_encryption s') = se_shared_secret (ss_encryption s) ∧
    se_outgoing_nonce_counter (ss_encryption s') = Net.next (se_outgoing_nonce_counter (ss_encryption s)).
Proof.
  intros Ha Hc. unfold Session.send_message, Session.send_reliable_message, Session.send_numbered,
    Session.send_encrypted_message, Session.on_encryption, Session.transport_send, mbind_st, mget, mmod, mlift.
  rewrite Ha. cbn [negb ss_next_sequence Session.set_next_sequence ss_encryption Net.session_encrypt]. rewrite Hc.
  eexists. split; [reflexivity|]. destruct (Session.reliable _ _); by destruct s.
Qed.

Lemma receive_step inst ts c m r : ss_active r = true → message_ok m → deliverable (m_type m) = true →
  cp_decrypt (se_shared_secret (ss_encryption r)) (Net.from_u64 (se_incoming_nonce_counter (ss_encryption r))) c [] = Ok (Msg.to_bytes m) →
  m_sequence_number m ∉ ss_received_sequences r →
  ∃ r', Session.receive_message inst ts (RData c) r = (Ok m, r') ∧ ss_active r' = true ∧
    ss_received_sequences r' = ss_received_sequences (Session.track (m_sequence_number m) r) ∧
    se_shared_secret (ss_encryption r') = se_shared_secret (ss_encryption r) ∧
    se_incoming_nonce_counter (ss_encryption r') = Net.next (se_incoming_nonce_counter (ss_encryption r)).
Proof.
  intros Ha Hm Hd Hc Hs.
  assert (Msg.from_bytes (Msg.to_bytes m) = Ok m) as Hp
    by (rewrite <- (app_nil_r (Msg.to_bytes m)); by apply from_bytes_complete).
  unfold Session.receive_message, Session.receive_encrypted_message, Session.process_received_message,
    Session.on_encryption, Session.spawn_send, mbind_st, mget, mmod, mlift, mret_st, mfail.
  rewrite Ha. cbn [negb Net.session_decrypt ss_encryption]. rewrite Hc, Hp.
  cbn [Session.set_last_activity Session.set_encryption ss_received_sequences].
  rewrite bool_decide_eq_false_2 by done.
  rewrite bool_decide_eq_false_2 by (by destruct (m_type m)).
  destruct (Session.reliable _ _); destruct (m_type m); try discriminate Hd; eexists; (split; [reflexivity|done]).
Qed.

Fixpoint send_all (inst : Z) (l : list Message) : M DsmSession unit :=
  match l with
  | [] => mret_st tt
  | m :: l => do* Session.send_message inst None m; send_all inst l
  end.
Fixpoint receive_all (inst ts : Z) (cs : list bytes) : M DsmSession (list Message) :=
  match cs with
  | [] => mret_st []
  | c :: cs =>
      let* m := Session.receive_message inst ts (RData c) in
      let* ms := receive_all inst ts cs in
      mret_st (m :: ms)
  end.
(** The messages with the sequence numbers from [n] on. *)
Fixpoint numbered (n : Z) (l : list Message) : list Message :=
  match l with [] => [] | m :: l => Msg.set_sequence_number n m :: numbered (n + 1) l end.

Lemma length_to_bytes m : length (Msg.to_bytes m) = (23 + length (m_data m))%nat.
Proof. unfold Msg.to_bytes. rewrite !length_app, !length_be. lia. Qed.

Lemma prune_sub fuel max X : Session.prune fuel max X ⊆ X.
Proof.
  revert X. induction fuel as [|fuel IH]; intros X; cbn [Session.prune]; [done|].
  destruct (size X <=? max)%nat; [done|]. destruct (Session.least X); [|apply IH].
  etrans; [apply IH|]. set_solver.
Qed.

Lemma track_below n seq r : set_Forall (fun x => x < n) (ss_received_sequences r) → seq = n →
  set_Forall (fun x => x < n + 1) (ss_received_sequences (Session.track seq r)).
Proof.
  intros H -> x Hx. cbn [Session.track Session.set_received ss_received_sequences] in Hx.
  apply prune_sub in Hx. apply elem_of_union in Hx as [->%elem_of_singleton|Hx]; cbn beta; [lia|].
  specialize (H x Hx). cbn beta in H. lia.
Qed.

(** Long enough plaintexts can be sealed, and the two ends are in step. *)
Record in_step (key : bytes) (s r : DsmSession) : Prop := mkInStep {
  is_active_s : ss_active s = true;
  is_active_r : ss_active r = true;
  is_key_s : se_shared_secret (ss_encryption s) = key;
  is_key_r : se_shared_secret (ss_encryption r) = key;
  is_counter : se_incoming_nonce_counter (ss_encryption r) = se_outgoing_nonce_counter (ss_encryption s);
  is_seq : 0 ≤ ss_next_sequence s;
  is_fresh : set_Forall (fun x => x < ss_next_sequence s) (ss_received_sequences r);
}.

(** The provider seals every plaintext of a message under the key. *)
Definition seals (key : bytes) : Prop := ∀ n p, Z.of_nat (length p) < 2 ^ 33 → ∃ c, cp_encrypt key n p [] = Ok c.

Lemma seals_encrypt key n m : seals key → message_ok m → ∃ c, cp_encrypt key n (Msg.to_bytes m) [] = Ok c.
Proof. intros Hs [_ _ _ Hd]. apply Hs. rewrite length_to_bytes. lia. Qed.

Lemma deliver_one key s r inst inst' ts m : in_step key s r → seals key → ss_next_sequence s + 1 < 2 ^ 64 →
  message_ok (Msg.set_sequence_number (ss_next_sequence s) m) → deliverable (m_type m) = true →
  ∃ s' r' c, Session.send_message inst None m s = (Ok tt, s') ∧ ss_sent s' = ss_sent s ++ [c] ∧
    Session.receive_message inst' ts (RData c) r = (Ok (Msg.set_sequence_number (ss_next_sequence s) m), r') ∧
    in_step key s' r' ∧ ss_next_sequence s' = ss_next_sequence s + 1.
Proof.
  intros [Ha Hb Hk Hk' Hc H0 Hf] Hs Hn Hm Hd.
  destruct (seals_encrypt key (Net.from_u64 (se_outgoing_nonce_counter (ss_encryption s))) _ Hs Hm) as [c Ec].
  destruct (send_step inst m s c Ha) as (s' & E & Ha' & Hsent & Hseq & Hkey & Hout); [by rewrite Hk|].
  destruct (receive_step inst' ts c (Msg.set_sequence_number (ss_next_sequence s) m) r Hb Hm Hd)
    as (r' & E' & Hb' & Hrec & Hkey' & Hin).
  - rewrite Hk', Hc. by apply provider_opens.
  - cbn [Msg.set_sequence_number m_sequence_number]. intros H. specialize (Hf _ H). cbn in Hf. lia.
  - assert (ss_next_sequence s' = ss_next_sequence s + 1) as Hseq' by (rewrite Hseq; unfold Net.next; rewrite Z.mod_small; lia).
    exists s', r', c. split_and!; try done. constructor; try done; try congruence.
    + rewrite Hseq'. lia.
    + rewrite Hseq', Hrec. by apply track_below.
Qed.

(** C33: messages of the deliverable kinds sent over a session arrive, whatever the
    provider that opens what it has sealed, once a key is shared (the handshake of
    the shipped Kyber provider does not give its two ends one key, so the provider
    must have another key agreement): if two sessions share a key under which it
    seals, their counters are in step and the receiver has seen no
    sequence number that is still to come, then sending a list of messages over a
    transport that accepts and delivers every buffer succeeds, and receiving the
    buffers in order returns exactly those messages, numbered consecutively. *)
Theorem session_delivers_in_order (key : bytes) (s r : DsmSession) (inst inst' ts : Z) (l : list Message) :
  in_step key s r → seals key → ss_next_sequence s + Z.of_nat (length l) < 2 ^ 64 →
  Forall (fun m => deliverable (m_type m) = true ∧ message_ok (Msg.set_sequence_number 0 m)) l →
  ∃ s' r' cs, send_all inst l s = (Ok tt, s') ∧ ss_sent s' = ss_sent s ++ cs ∧
    receive_all inst' ts cs r = (Ok (numbered (ss_next_sequence s) l), r') ∧ in_step key s' r'.
Proof.
  intros Hst Hs. revert s r Hst. induction l as [|m l IH]; intros s r Hst Hn Hl.
  - exists s, r, []. rewrite app_nil_r. done.
  - apply Forall_cons in Hl as [[Hd Hm] Hl]. cbn [length] in Hn.
    destruct (deliver_one key s r inst inst' ts m Hst Hs) as (s1 & r1 & c & E & Hsent & E' & Hst1 & Hseq); [lia| |done|].
    { destruct Hm as [_ H2 H3 H4]. constructor; cbn in *; [destruct Hst; lia|done..]. }
    destruct (IH s1 r1 Hst1) as (s' & r' & cs & E2 & Hsent2 & E2' & Hst2); [lia|done|].
    exists s', r', (c :: cs). cbn [send_all receive_all numbered]. unfold mbind_st, mret_st.
    rewrite E, E', E2, E2', <- Hseq. split_and!; [done| |done|done].
    rewrite Hsent2, Hsent, <- app_assoc. done.
Qed.

(** ** Deduplication *)

(** The elements above [x], and the [k] greatest elements. *)
Definition above (x : Z) (X : gset Z) : gset Z := filter (fun y => x < y) X.
Definition greatest (k : nat) (X : gset Z) : gset Z := filter (fun x => (size (above x X) < k)%nat) X.

Lemma elem_of_above x y X : y ∈ above x X ↔ y ∈ X ∧ x < y.
Proof. unfold above. rewrite elem_of_filter. naive_solver. Qed.
Lemma elem_of_greatest k x X : x ∈ greatest k X ↔ x ∈ X ∧ (size (above x X) < k)%nat.
Proof. unfold greatest. rewrite elem_of_filter. naive_solver. Qed.

Lemma least_spec X : match Session.least X with
  | Some x => x ∈ X ∧ (∀ y, y ∈ X → x ≤ y)
  | None => X = ∅
  end.
Proof.
  unfold Session.least. destruct (elements X) as [|a l] eqn:E; [by apply elements_empty_inv, leibniz_equiv in E|].
  assert (∀ l, foldr Z.min a l ∈ a :: l ∧ ∀ y, y ∈ a :: l → foldr Z.min a l ≤ y) as H.
  { clear. induction l as [|b l [IH1 IH2]]; cbn [foldr]; [set_solver by lia|]. split.
    - destruct (Z.min_spec b (foldr Z.min a l)) as [[_ ->]|[_ ->]]; set_solver.
    - intros y Hy. assert (y = b ∨ y ∈ a :: l) as [->|Hy'] by set_solver; [lia|]. specialize (IH2 y Hy'). lia. }
  destruct (H l) as [H1 H2]. rewrite <- E in H1, H2. split; [by apply elem_of_elements|].
  intros y Hy. apply H2. by apply elem_of_elements.
Qed.

Lemma above_least m X : m ∈ X → (∀ y, y ∈ X → m ≤ y) → above m X = X ∖ {[ m ]}.
Proof.
  intros Hm Hl. apply leibniz_equiv. intros y. rewrite elem_of_above, elem_of_difference, elem_of_singleton.
  split; [naive_solver lia|]. intros [Hy Hne]. specialize (Hl y Hy). split; [done|lia].
Qed.

Lemma size_remove (m : Z) (X : gset Z) : m ∈ X → size X = S (size (X ∖ {[ m ]})).
Proof.
  intros Hm. rewrite size_difference by set_solver. rewrite size_singleton.
  pose proof (subseteq_size {[ m ]} X ltac:(set_solver)) as H. rewrite size_singleton in H. lia.
Qed.

Lemma greatest_small k X : (size X ≤ k)%nat → greatest k X = X.
Proof.
  intros Hk. apply leibniz_equiv. intros x. rewrite elem_of_greatest. split; [naive_solver|]. intros Hx. split; [done|].
  rewrite (size_remove x X Hx) in Hk.
  assert (above x X ⊆ X ∖ {[ x ]}) as H%subseteq_size; [|lia].
  intros y [Hy ?]%elem_of_above. rewrite elem_of_difference, elem_of_singleton. split; [done|lia].
Qed.

(** Removing the least elements keeps the greatest ones. *)
Lemma prune_greatest fuel k X : (size X ≤ fuel)%nat →
  Session.prune fuel k X = greatest k X ∧ size (greatest k X) = Nat.min k (size X).
Proof.
  revert X. induction fuel as [|fuel IH]; intros X Hs; cbn [Session.prune].
  - rewrite greatest_small by lia. split; [done|lia].
  - destruct (Nat.leb_spec (size X) k) as [Hle|Hgt]; [rewrite greatest_small by done; split; [done|lia]|].
    pose proof (least_spec X) as Hm. destruct (Session.least X) as [m|]; [|subst X; rewrite size_empty in Hgt; lia].
    destruct Hm as [Hm Hl]. pose proof (size_remove m X Hm) as Hz.
    destruct (IH (X ∖ {[ m ]})) as [-> Hsz]; [lia|].
    assert (greatest k (X ∖ {[ m ]}) = greatest k X) as <-; [|split; [done|lia]].
    apply leibniz_equiv. intros x. rewrite !elem_of_greatest.
    assert (x ≠ m → x ∈ X → above x (X ∖ {[ m ]}) = above x X) as Hab.
    { intros Hne Hx. apply leibniz_equiv. intros y. rewrite !elem_of_above, elem_of_difference, elem_of_singleton.
      specialize (Hl x Hx). naive_solver lia. }
    rewrite elem_of_difference, elem_of_singleton. split.
    + intros [[Hx Hne] Ha]. rewrite Hab in Ha by done. done.
    + intros [Hx Ha]. destruct (decide (x = m)) as [->|Hne]; [rewrite (above_least m X Hm Hl) in Ha; lia|].
      rewrite Hab by done. done.
Qed.

Lemma greatest_above k x X : (k ≤ size (above x X))%nat → (k ≤ size (above x (greatest k X)))%nat.
Proof.
  intros Hk. destruct (prune_greatest (size (above x X)) k (above x X) ltac:(lia)) as [_ Hsz].
  replace k with (size (greatest k (above x X))) at 1 by lia. apply subseteq_size. intros y.
  rewrite elem_of_greatest, !elem_of_above, elem_of_greatest. intros [[Hy Hxy] Ha]. split_and!; [done| |done].
  assert (above y (above x X) = above y X) as <-; [|done].
  apply leibniz_equiv. intros z. rewrite !elem_of_above. naive_solver lia.
Qed.

(** Remembering the greatest of the remembered ones loses nothing. *)
Lemma greatest_add k x X : greatest k ({[ x ]} ∪ greatest k X) = greatest k ({[ x ]} ∪ X).
Proof.
  apply leibniz_equiv. intros y. rewrite !elem_of_greatest.
  assert (∀ Y, (size (above y (greatest k Y)) < k)%nat → above y (greatest k Y) = above y Y) as Hall.
  { intros Y Hlt. assert (size (above y Y) < k)%nat as Hlt' by (destruct (decide (k ≤ size (above y Y))%nat) as [H%greatest_above|]; lia).
    apply leibniz_equiv. intros z. rewrite !elem_of_above, elem_of_greatest. split; [naive_solver|]. intros [Hz Hyz].
    split_and!; [done| |done]. eapply Nat.le_lt_trans; [|exact Hlt']. apply subseteq_size. intros w.
    rewrite !elem_of_above. naive_solver lia. }
  assert (∀ Y, above y ({[ x ]} ∪ Y) = above y {[ x ]} ∪ above y Y) as Hu
    by (intros Y; apply leibniz_equiv; intros z; rewrite elem_of_union, !elem_of_above, elem_of_union; naive_solver).
  assert (greatest k X ⊆ X) as Hsub by (intros z; rewrite elem_of_greatest; naive_solver).
  split.
  - intros [Hy Hlt]. assert (above y (greatest k X) = above y X) as E.
    { apply Hall. eapply Nat.le_lt_trans; [|exact Hlt]. apply subseteq_size. rewrite Hu. set_solver. }
    split; [set_solver|]. by rewrite Hu, <- E, <- Hu.
  - intros [Hy Hlt]. split.
    + apply elem_of_union in Hy as [Hy|Hy]; [set_solver|]. apply elem_of_union_r, elem_of_greatest. split; [done|].
      eapply Nat.le_lt_trans; [|exact Hlt]. apply subseteq_size. rewrite Hu. set_solver.
    + eapply Nat.le_lt_trans; [|exact Hlt]. apply subseteq_size. rewrite !Hu. intros z.
      rewrite !elem_of_union, !elem_of_above. set_solver.
Qed.

Lemma process_tracks ts m s :
  ((Session.process_received_message ts m s).1 = Err (network_error "Duplicate message") ↔ m_sequence_number m ∈ ss_received_sequences s) ∧
  ss_config (Session.process_received_message ts m s).2 = ss_config s ∧
  ss_received_sequences (Session.process_received_message ts m s).2 =
    if bool_decide (m_sequence_number m ∈ ss_received_sequences s) then ss_received_sequences s
    else greatest (sg_max_tracked_sequences (ss_config s)) ({[ m_sequence_number m ]} ∪ ss_received_sequences s).
Proof.
  rewrite <- (proj1 (prune_greatest (size ({[ m_sequence_number m ]} ∪ ss_received_sequences s)) _ _ (le_n _))).
  unfold Session.process_received_message, Session.spawn_send, mbind_st, mget, mmod, mfail, mret_st.
  destruct (bool_decide_reflect (m_sequence_number m ∈ ss_received_sequences s)) as [Hin|Hin]; [done|].
  cbn [Session.track].
  destruct (bool_decide_reflect (m_type m = Ack)) as [Ha|Ha].
  - destruct (Msg.extract_ack_sequence m); done.
  - destruct (Session.reliable s m); destruct (m_type m); done.
Qed.

Definition process_all (ts : Z) (l : list Message) (s : DsmSession) : DsmSession :=
  foldl (fun s m => (Session.process_received_message ts m s).2) s l.
Definition seen (l : list Message) : gset Z := list_to_set (m_sequence_number <$> l).

Lemma process_all_received ts l s : ss_received_sequences s = ∅ →
  ss_config (process_all ts l s) = ss_config s ∧
  ss_received_sequences (process_all ts l s) = greatest (sg_max_tracked_sequences (ss_config s)) (seen l).
Proof.
  intros H0. induction l as [|m l [IHc IH]] using rev_ind.
  - split; [done|]. cbn. rewrite H0. by rewrite greatest_small by (rewrite size_empty; lia).
  - unfold process_all. rewrite foldl_app. cbn [foldl]. fold (process_all ts l s).
    destruct (process_tracks ts m (process_all ts l s)) as (_ & -> & ->). split; [done|]. rewrite IHc, IH.
    assert (seen (l ++ [m]) = {[ m_sequence_number m ]} ∪ seen l) as -> by (unfold seen; rewrite fmap_app, list_to_set_app_L; cbn; set_solver).
    case_bool_decide as Hin.
    + apply elem_of_greatest in Hin as [Hin _]. f_equal. set_solver.
    + apply greatest_add.
Qed.

(** Deduplication: after any history of received messages a session keeps
    exactly the greatest sequence numbers it has seen, at most as many as its
    configuration allows, and it refuses a message as a duplicate if and only if
    its number is one of them.  A number below all of them is accepted again every
    time it is received. *)
Theorem deduplication_exact (ts : Z) (l : list Message) (m : Message) (s : DsmSession) :
  ss_received_sequences s = ∅ →
  let k := sg_max_tracked_sequences (ss_config s) in
  ss_received_sequences (process_all ts l s) = greatest k (seen l) ∧
  (size (ss_received_sequences (process_all ts l s)) ≤ k)%nat ∧
  ((Session.process_received_message ts m (process_all ts l s)).1 = Err (network_error "Duplicate message") ↔
     m_sequence_number m ∈ seen l ∧ (size (above (m_sequence_number m) (seen l)) < k)%nat).
Proof.
  intros H0. cbn zeta. destruct (process_all_received ts l s H0) as [_ E].
  destruct (process_tracks ts m (process_all ts l s)) as [-> _]. rewrite E, elem_of_greatest.
  split_and!; [done| |done]. destruct (prune_greatest _ (sg_max_tracked_sequences (ss_config s)) (seen l) (le_n _)) as [_ ->]. lia.
Qed.

(** ** Acknowledgments *)

(** An acknowledgment takes the number of the next message: the copy of the
    session that sends it counts on its own, so after a session answered a
    received message, the next message it sends carries the same sequence number,
    and a peer that has processed the acknowledgment refuses that message as a
    duplicate. *)
Theorem ack_reuses_sequence (inst ts : Z) (d m own : Message) (s s1 s2 p : DsmSession) :
  sg_enable_reliability (ss_config s) = true → deliverable (m_type d) = true → ss_spawned s = [] →
  Session.process_received_message ts d s = (Ok m, s1) →
  s2 = Session.run_spawned inst None 0 s1 →
  sg_max_tracked_sequences (ss_config p) ≠ O → above (ss_next_sequence s) (ss_received_sequences p) = ∅ →
  let ack := Msg.set_sequence_number (ss_next_sequence s) (Msg.create_ack ts (m_sequence_number d)) in
  let next := Msg.set_sequence_number (ss_next_sequence s2) own in
  ss_spawned s1 = [(Msg.create_ack ts (m_sequence_number d), ss_next_sequence s)] ∧
  m_sequence_number ack = m_sequence_number next ∧
  (Session.process_received_message ts next (Session.process_received_message ts ack p).2).1 = Err (network_error "Duplicate message").
Proof.
  intros Hr Hd Hsp Hp -> Hk Hab. cbn zeta.
  assert (ss_spawned s1 = [(Msg.create_ack ts (m_sequence_number d), ss_next_sequence s)] ∧ ss_next_sequence s1 = ss_next_sequence s) as [Hs1 Hn].
  { unfold Session.process_received_message, Session.spawn_send, Session.reliable, mbind_st, mget, mmod, mfail, mret_st in Hp.
    destruct (bool_decide (m_sequence_number d ∈ ss_received_sequences s)); [done|].
    rewrite Hr in Hp. destruct (m_type d); try discriminate Hd; cbn in Hp; injection Hp as _ <-; cbn; by rewrite Hsp. }
  assert (ss_next_sequence (Session.run_spawned inst None 0 s1) = ss_next_sequence s) as Hs2.
  { unfold Session.run_spawned. rewrite Hs1. cbn [lookup list_lookup take drop app].
    unfold Session.send_numbered, Session.send_encrypted_message, Session.on_encryption, Session.transport_send, mbind_st, mmod.
    cbn [ss_encryption Session.set_spawned Net.session_encrypt].
    destruct (cp_encrypt _ _ _ _); cbn [snd]; [|done..]. by destruct (Session.reliable _ _). }
  split_and!; [done|by rewrite Hs2|].
  apply (proj1 (process_tracks _ _ _)). destruct (process_tracks ts (Msg.set_sequence_number (ss_next_sequence s)
    (Msg.create_ack ts (m_sequence_number d))) p) as (_ & _ & ->).
  cbn [Msg.set_sequence_number m_sequence_number]. rewrite Hs2. case_bool_decide as Hin; [done|].
  apply elem_of_greatest. split; [set_solver|].
  assert (above (ss_next_sequence s) ({[ss_next_sequence s]} ∪ ss_received_sequences p) = ∅) as ->; [|rewrite size_empty; lia].
  apply leibniz_equiv. intros y. rewrite elem_of_above, elem_of_union, elem_of_singleton.
  assert (y ∉ above (ss_next_sequence s) (ss_received_sequences p)) as Hy by (rewrite Hab; set_solver).
  rewrite elem_of_above in Hy. split; [|set_solver]. intros [[->|?] ?]; [lia|naive_solver].
Qed.

End WireFacts.

(** ** Lost buffers *)

Section LostBuffers.
Context {B3 : Blake3} {K : Mlkem kem768} {AE : Aead} {CC : Chacha} {SQ : SeqOrder}.
#[local] Existing Instance kyber_provider.

Fixpoint receive_results (inst ts : Z) (cs : list bytes) (r : DsmSession) : list (outcome Message) :=
  match cs with
  | [] => []
  | c :: cs => (Session.receive_message inst ts (RData c) r).1 :: receive_results inst ts cs (Session.receive_message inst ts (RData c) r).2
  end.

(** Ciphertexts do not open under another nonce of twelve bytes. *)
Definition bound_to_nonce (key : bytes) : Prop :=
  ∀ n n' p c t, length n = 12%nat → length n' = 12%nat → n ≠ n' → chacha_seal key n [] p = Some (c, t) → chacha_open key n' [] c t = None.

Lemma decrypt_other_nonce key n n' p c : bound_to_nonce key → length n = 12%nat → length n' = 12%nat → n ≠ n' →
  Net.encrypt key n p [] = Ok c → Net.decrypt key n' c [] = Err (ECrypto "Decryption failed, data may be tampered with").
Proof.
  intros Hb Hl Hl' Hne. unfold Net.encrypt, Net.decrypt. destruct (length key =? 32)%nat; [cbn [negb]|done].
  destruct (chacha_seal key n [] p) as [[ct t]|] eqn:E; [|done]. intros <-%Ok_inj.
  pose proof (chacha_tag_length _ _ _ _ _ _ E) as Ht. rewrite length_app, Ht.
  replace (length ct + 16 <? 16)%nat with false by (symmetry; apply Nat.ltb_ge; lia).
  replace (length ct + 16 - 16)%nat with (length ct) by lia.
  rewrite take_app_length, drop_app_length. by rewrite (Hb _ _ _ _ _ Hl Hl' Hne E).
Qed.

(** One lost buffer stalls a session for good: the receiver counts what it
    receives, not what was sent, so once a buffer is lost every later one, a
    retransmission included, is opened under the nonce of its predecessor and
    refused. *)
Theorem lost_buffer_stalls (key : bytes) (inst ts n : Z) (cs : list bytes) (r : DsmSession) :
  bound_to_nonce key → se_shared_secret (ss_encryption r) = key →
  se_incoming_nonce_counter (ss_encryption r) = n → 0 ≤ n → n + Z.of_nat (length cs) + 1 < 2 ^ 64 → ss_active r = true →
  (∀ i c, cs !! i = Some c → ∃ p, Net.encrypt key (Net.from_u64 (n + 1 + Z.of_nat i)) p [] = Ok c) →
  Forall (fun o => o = Err (ECrypto "Decryption failed, data may be tampered with")) (receive_results inst ts cs r).
Proof.
  intros Hb. revert n r. induction cs as [|c cs IH]; intros n r Hk Hn H0 Hlt Ha Hcs; cbn [receive_results]; [constructor|].
  destruct (Hcs 0%nat c eq_refl) as [p Hp]. replace (n + 1 + Z.of_nat 0) with (n + 1) in Hp by lia. cbn [length] in Hlt.
  assert (Session.receive_message inst ts (RData c) r =
    (Err (ECrypto "Decryption failed, data may be tampered with"),
     Session.set_encryption (mkSessionEncryption key (se_outgoing_nonce_counter (ss_encryption r)) (Net.next n)) r)) as E.
  { unfold Session.receive_message, Session.receive_encrypted_message, Session.on_encryption, mbind_st, mget.
    rewrite Ha. cbn [negb Net.session_decrypt cp_decrypt kyber_provider]. rewrite Hk, Hn.
    rewrite (decrypt_other_nonce key (Net.from_u64 (n + 1)) (Net.from_u64 n) p c Hb); [done|done|done| |done].
    intros Heq%from_u64_inj; lia. }
  rewrite E. constructor; [done|]. cbn [snd]. apply (IH (n + 1)); try done; [|lia|lia|].
  - cbn [ss_encryption Session.set_encryption se_incoming_nonce_counter]. unfold Net.next. rewrite Z.mod_small; lia.
  - intros i c' Hi. destruct (Hcs (S i) c' Hi) as [p' Hp']. exists p'. rewrite <- Hp'. f_equal. f_equal. lia.
Qed.

End LostBuffers.

(** ** Handshakes *)

Section Handshakes.
Context {CP : CryptoProvider} {SQ : SeqOrder}.

Lemma hello_ok ts t pk : 0 ≤ ts < 2 ^ 64 → Z.of_nat (length pk) < 2 ^ 32 →
  Msg.from_bytes (Msg.to_bytes (Msg.new ts t pk)) = Ok (Msg.new ts t pk).
Proof.
  intros Hts Hpk. rewrite <- (app_nil_r (Msg.to_bytes _)). apply from_bytes_complete.
  by constructor; cbn [Msg.new m_sequence_number m_flags m_timestamp m_data]; [lia..|].
Qed.

Definition fresh_session (uuid : string) (secret : bytes) (p : DsmProtocol) (inst : Z) (sent : bytes) : DsmSession :=
  mkDsmSession uuid (Net.new secret) (dp_config p) 0 ∅ ∅ inst inst true [sent] [].

(** The two ends of a handshake over a transport that delivers. *)
Lemma handshake_run (di dr : provider_draws) (ts insti instr : Z) (uuidi uuidr : string) (p q : DsmProtocol)
    (pki ski pkr skr xi xr : bytes) (kp kq : provider_state) :
  0 ≤ ts < 2 ^ 64 → Z.of_nat (length pki) < 2 ^ 32 → Z.of_nat (length pkr) < 2 ^ 32 →
  cp_generate_keypair di (dp_crypto_provider p) = (Ok (pki, ski), kp) →
  cp_generate_keypair dr (dp_crypto_provider q) = (Ok (pkr, skr), kq) →
  cp_derive_shared_secret di ski pkr = Ok xi → cp_derive_shared_secret dr skr pki = Ok xr →
  let hello := Msg.to_bytes (Msg.new ts Handshake pki) in
  let answer := Msg.to_bytes (Msg.new ts HandshakeResponse pkr) in
  ∃ p' q', Session.create_session di ts insti uuidi None (RData answer) p = (Ok (length (dp_heap p), uuidi), p') ∧
    Session.accept_session dr ts instr uuidr None (RData hello) q = (Ok (length (dp_heap q), uuidr), q') ∧
    dp_heap p' = dp_heap p ++ [fresh_session uuidi xi p insti hello] ∧ dp_active_sessions p' !! uuidi = Some (length (dp_heap p)) ∧
    dp_heap q' = dp_heap q ++ [fresh_session uuidr xr q instr answer] ∧ dp_active_sessions q' !! uuidr = Some (length (dp_heap q)).
Proof.
  intros Hts Hpi Hpr Ei Er Di Dr hello answer. eexists _, _. split_and!.
  - unfold Session.create_session, Session.open_session, Session.perform_initiator_handshake, Session.handshake_keys, mbind_st, mlift, mret_st.
    cbn [fst snd]. rewrite Ei. cbn [Session.handshake_send Session.received]. unfold mmod, answer. rewrite hello_ok by done.
    cbn [m_type m_data Msg.new]. rewrite bool_decide_eq_true_2 by done. cbn [negb fst snd]. rewrite Di. reflexivity.
  - unfold Session.accept_session, Session.open_session, Session.perform_responder_handshake, Session.handshake_keys, mbind_st, mlift, mret_st.
    cbn [Session.received]. unfold hello. rewrite hello_ok by done. cbn [m_type m_data Msg.new fst snd].
    rewrite bool_decide_eq_true_2 by done. cbn [negb fst snd]. rewrite Er. cbn [Session.handshake_send]. unfold mmod. cbn [fst snd]. rewrite Dr. reflexivity.
  - done.
  - cbn [dp_active_sessions]. apply lookup_insert_eq.
  - done.
  - cbn [dp_active_sessions]. apply lookup_insert_eq.
Qed.

Lemma fresh_in_step uuid uuid' x x' p q inst inst' sent sent' key :
  in_step key (fresh_session uuid x p inst sent) (fresh_session uuid' x' q inst' sent') ↔ x = key ∧ x' = key.
Proof.
  split; [intros H; split; [exact (is_key_s _ _ _ H)|exact (is_key_r _ _ _ H)]|]. intros [-> ->]. by constructor.
Qed.

(** Handshakes agree, whatever the provider: when each end derives the same
    secret from its own private key and the other's public key, the handshake over
    a transport that delivers leaves both ends with a session, recorded under its
    identifier, and the two sessions are in step. *)
Theorem handshake_agrees (di dr : provider_draws) (ts insti instr : Z) (uuidi uuidr : string) (p q : DsmProtocol)
    (pki ski pkr skr key : bytes) (kp kq : provider_state) :
  0 ≤ ts < 2 ^ 64 → Z.of_nat (length pki) < 2 ^ 32 → Z.of_nat (length pkr) < 2 ^ 32 →
  cp_generate_keypair di (dp_crypto_provider p) = (Ok (pki, ski), kp) →
  cp_generate_keypair dr (dp_crypto_provider q) = (Ok (pkr, skr), kq) →
  cp_derive_shared_secret di ski pkr = Ok key → cp_derive_shared_secret dr skr pki = Ok key →
  ∃ p' q' i j si sr,
    Session.create_session di ts insti uuidi None (RData (Msg.to_bytes (Msg.new ts HandshakeResponse pkr))) p = (Ok (i, uuidi), p') ∧
    Session.accept_session dr ts instr uuidr None (RData (Msg.to_bytes (Msg.new ts Handshake pki))) q = (Ok (j, uuidr), q') ∧
    dp_active_sessions p' !! uuidi = Some i ∧ dp_heap p' !! i = Some si ∧
    dp_active_sessions q' !! uuidr = Some j ∧ dp_heap q' !! j = Some sr ∧ in_step key si sr.
Proof.
  intros Hts Hpi Hpr Ei Er Di Dr.
  destruct (handshake_run di dr ts insti instr uuidi uuidr p q pki ski pkr skr key key kp kq Hts Hpi Hpr Ei Er Di Dr)
    as (p' & q' & H1 & H2 & H3 & H4 & H5 & H6).
  eexists p', q', _, _, _, _. split_and!; [exact H1|exact H2|exact H4| |exact H6| |].
  - rewrite H3. by apply list_lookup_middle.
  - rewrite H5. by apply list_lookup_middle.
  - by apply fresh_in_step.
Qed.

End Handshakes.

Section KyberHandshakes.
Context {B3 : Blake3} {K : Mlkem kem768} {AE : Aead} {CC : Chacha} {SQ : SeqOrder}.
#[local] Existing Instance kyber_provider.

(** The key generation of the Kyber provider. *)
Lemma generate_keypair_ok i i' r1 r2 r3 r k : ∃ k', Net.generate_keypair i i' r1 r2 r3 r k = (Ok (kem_keypair r), k').
Proof.
  unfold Net.generate_keypair, Kyber.generate_kyber_keypair, mbind_st, mget, mret_st, mlift.
  destruct k as [[] last]; cbn [ky_initialized].
  - rewrite checked_keypair_ok. by eexists.
  - unfold Kyber.init_kyber. cbn [ky_initialized]. rewrite verify_kyber_ok, checked_keypair_ok. by eexists.
Qed.

Lemma derive_ok r sk pk : length pk = public_key_size kem768 → Net.derive_shared_secret r sk pk = Ok (kem_encapsulate r pk).1.
Proof. intros H. unfold Net.derive_shared_secret. rewrite kyber_encapsulate_ok by done. by destruct (kem_encapsulate r pk). Qed.

Lemma provider_keypair_ok (d : HandshakeDraws) (k : KyberState) :
  ∃ k', cp_generate_keypair d k = (Ok ((kem_keypair (hd_keypair d)).1, (kem_keypair (hd_keypair d)).2), k').
Proof.
  cbn [cp_generate_keypair kyber_provider].
  destruct (generate_keypair_ok (hd_instants d).1 (hd_instants d).2 (hd_self_test d).1.1 (hd_self_test d).1.2 (hd_self_test d).2 (hd_keypair d) k) as [k' ->].
  exists k'. by destruct (kem_keypair (hd_keypair d)).
Qed.

Lemma pk_short r : Z.of_nat (length (kem_keypair r).1) < 2 ^ 32.
Proof. rewrite kem_pk_length. cbn [public_key_size kem768]. lia. Qed.

(** What a handshake establishes: over a transport that delivers the two
    messages both sides open a session, recorded under its identifier, with
    counters at zero and nothing sent but the public keys; but each side's secret
    is its own encapsulation for the other's public key, whose ciphertext is never
    sent, so the two sessions can exchange messages only if two independent
    encapsulations happen to give the same secret. *)
Theorem handshake_secrets (di dr : HandshakeDraws) (ts insti instr : Z) (uuidi uuidr : string) (p q : DsmProtocol) :
  0 ≤ ts < 2 ^ 64 →
  let pki := (kem_keypair (hd_keypair di)).1 in
  let pkr := (kem_keypair (hd_keypair dr)).1 in
  let hello := Msg.to_bytes (Msg.new ts Handshake pki) in
  let answer := Msg.to_bytes (Msg.new ts HandshakeResponse pkr) in
  ∃ p' q' si sr,
    Session.create_session di ts insti uuidi None (RData answer) p = (Ok (length (dp_heap p), uuidi), p') ∧
    Session.accept_session dr ts instr uuidr None (RData hello) q = (Ok (length (dp_heap q), uuidr), q') ∧
    dp_heap p' = dp_heap p ++ [si] ∧ dp_active_sessions p' !! uuidi = Some (length (dp_heap p)) ∧
    dp_heap q' = dp_heap q ++ [sr] ∧ dp_active_sessions q' !! uuidr = Some (length (dp_heap q)) ∧
    ss_sent si = [hello] ∧ ss_sent sr = [answer] ∧
    ss_encryption si = Net.new (kem_encapsulate (hd_encapsulation di) pkr).1 ∧
    ss_encryption sr = Net.new (kem_encapsulate (hd_encapsulation dr) pki).1 ∧
    ((∃ key, in_step key si sr) ↔ (kem_encapsulate (hd_encapsulation di) pkr).1 = (kem_encapsulate (hd_encapsulation dr) pki).1).
Proof.
  intros Hts pki pkr hello answer.
  destruct (provider_keypair_ok di (dp_crypto_provider p)) as [kp Ep]. destruct (provider_keypair_ok dr (dp_crypto_provider q)) as [kq Eq].
  destruct (handshake_run (CP := kyber_provider) di dr ts insti instr uuidi uuidr p q pki _ pkr _ (kem_encapsulate (hd_encapsulation di) pkr).1
    (kem_encapsulate (hd_encapsulation dr) pki).1 kp kq Hts (pk_short _) (pk_short _) Ep Eq
    (derive_ok _ _ _ (kem_pk_length _)) (derive_ok _ _ _ (kem_pk_length _))) as (p' & q' & H1 & H2 & H3 & H4 & H5 & H6).
  eexists p', q', _, _. split_and!; [exact H1|exact H2|exact H3|exact H4|exact H5|exact H6|done..|].
  setoid_rewrite fresh_in_step. split; [by intros (key & -> & ->)|intros E; by exists (kem_encapsulate (hd_encapsulation di) pkr).1].
Qed.

End KyberHandshakes.

(** ** Witnesses *)

Module WireWitness.

(** The tag is the padded nonce. *)
Definition toy_tag (n : bytes) : bytes := take 16 (n ++ zeros 16).
Definition toy_seal (k n a p : bytes) : option (bytes * bytes) := Some (p, toy_tag n).
Definition toy_open (k n a c t : bytes) : option bytes := if decide (t = toy_tag n) then Some c else None.
Lemma toy_tag_length k n a p c t : toy_seal k n a p = Some (c, t) → length t = 16%nat.
Proof. intros [= _ <-]. unfold toy_tag, zeros. rewrite length_take, length_app, length_replicate. lia. Qed.
Lemma toy_seal_open k n a p c t : toy_seal k n a p = Some (c, t) → toy_open k n a c t = Some p.
Proof. intros [= <- <-]. unfold toy_open. by rewrite decide_True. Qed.
Definition toy_chacha : Chacha := {|
  chacha_seal := toy_seal; chacha_open := toy_open;
  chacha_tag_length := toy_tag_length; chacha_round_trip := toy_seal_open |}.
Definition toy_seq_order : SeqOrder := {| seq_iter A m := map_to_list m; seq_iter_perm A m := reflexivity _ |}.
#[local] Existing Instances Toy.toy_blake3 ToyKem.toy_kem768 ToyKem.toy_aead toy_chacha toy_seq_order kyber_provider.

Definition key : bytes := zeros 32.
Definition end_point (n : Z) : DsmSession :=
  mkDsmSession "s" (mkSessionEncryption key n 0) Msg.default_config 0 ∅ ∅ 0 0 true [] [].
Definition text (b : bytes) : Message := Msg.new 7 Data b.

Lemma key_seals : seals key.
Proof. intros n p _. by eexists. Qed.

Lemma key_bound : bound_to_nonce key.
Proof.
  intros n n' p c t Hn Hn' Hne [= <- <-]. cbn [chacha_open toy_chacha]. unfold toy_open, toy_tag. rewrite decide_False; [done|].
  intros H. apply Hne. apply (f_equal (take 12)) in H. rewrite !take_take in H.
  rewrite !take_app_le in H by lia. by rewrite !take_ge in H by lia.
Qed.

Lemma ends_in_step : in_step key (end_point 0) (end_point 0).
Proof. by constructor. Qed.

Lemma session_delivers_in_order_witness : ∃ s' r' cs,
  send_all 1 [text [Byte.x01]; text []] (end_point 0) = (Ok tt, s') ∧ ss_sent s' = [] ++ cs ∧
  receive_all 2 3 cs (end_point 0) = (Ok (numbered 0 [text [Byte.x01]; text []]), r') ∧ in_step key s' r'.
Proof.
  apply (session_delivers_in_order key (end_point 0) (end_point 0) 1 2 3 [text [Byte.x01]; text []]);
    [apply ends_in_step|apply key_seals|done|].
  repeat constructor; vm_compute; try done; try (intros; discriminate).
Defined.

(** A provider with a key known to both ends in advance. *)
Definition preshared_provider : CryptoProvider := {|
  provider_state := unit; provider_draws := unit;
  cp_generate_keypair _ := fun s => (Ok ([], []), s);
  cp_derive_shared_secret _ _ _ := Ok key;
  cp_encrypt := Net.encrypt; cp_decrypt := Net.decrypt |}.

Lemma handshake_agrees_witness : ∃ p' i si,
  Session.create_session (CP := preshared_provider) tt 7 0 "a" None (RData (Msg.to_bytes (Msg.new 7 HandshakeResponse [])))
    (Session.new (CP := preshared_provider) Msg.default_config tt) = (Ok (i, "a"%string), p') ∧
  dp_heap p' !! i = Some si ∧ ∃ sr, in_step key si sr.
Proof.
  destruct (handshake_agrees (CP := preshared_provider) tt tt 7 0 0 "a" "b" (Session.new (CP := preshared_provider) Msg.default_config tt)
    (Session.new (CP := preshared_provider) Msg.default_config tt) [] [] [] [] key tt tt ltac:(lia) eq_refl eq_refl eq_refl eq_refl eq_refl eq_refl)
    as (p' & _ & i & _ & si & sr & H1 & _ & _ & H2 & _ & _ & H3).
  exists p', i, si. split; [exact H1|]. split; [exact H2|]. exists sr. exact H3.
Defined.

Lemma deduplication_exact_witness :
  (Session.process_received_message 3 (text []) (process_all 3 [text [Byte.x01]] (end_point 0))).1 = Err (network_error "Duplicate message").
Proof. apply (deduplication_exact 3 [text [Byte.x01]] (text []) (end_point 0) eq_refl). vm_compute. split; [done|lia]. Defined.

Lemma ack_reuses_sequence_witness :
  let s1 := (Session.process_received_message 3 (text []) (end_point 0)).2 in
  let ack := Msg.set_sequence_number 0 (Msg.create_ack 3 0) in
  let next := Msg.set_sequence_number (ss_next_sequence (Session.run_spawned 1 None 0 s1)) (text []) in
  (Session.process_received_message 3 next (Session.process_received_message 3 ack (end_point 0)).2).1 = Err (network_error "Duplicate message").
Proof.
  exact (proj2 (proj2 (ack_reuses_sequence 1 3 (text []) (text []) (text []) (end_point 0) _ _ (end_point 0)
    eq_refl eq_refl eq_refl ltac:(reflexivity) eq_refl ltac:(done) ltac:(reflexivity)))).
Defined.

Lemma lost_buffer_stalls_witness :
  Forall (fun o => o = Err (ECrypto "Decryption failed, data may be tampered with"))
    (receive_results 1 3 [Msg.to_bytes (text []) ++ toy_tag (Net.from_u64 1)] (end_point 0)).
Proof.
  apply (lost_buffer_stalls key 1 3 0); [apply key_bound|done|done|lia|done|done|].
  intros [|i] c Hc; [|done]. injection Hc as <-. exists (Msg.to_bytes (text [])). reflexivity.
Defined.

Definition draws (b : bytes) : HandshakeDraws := mkHandshakeDraws (0, 0) ([], [], []) b b.

Lemma handshake_secrets_witness : ∃ p' q',
  Session.create_session (draws [Byte.x01]) 7 0 "a" None
    (RData (Msg.to_bytes (Msg.new 7 HandshakeResponse (kem_keypair (hd_keypair (draws [Byte.x02]))).1)))
    (Session.init (mkKyberState false 0)) = (Ok (0%nat, "a"%string), p') ∧
  Session.accept_session (draws [Byte.x02]) 7 0 "b" None
    (RData (Msg.to_bytes (Msg.new 7 Handshake (kem_keypair (hd_keypair (draws [Byte.x01]))).1)))
    (Session.init (mkKyberState false 0)) = (Ok (0%nat, "b"%string), q').
Proof.
  destruct (handshake_secrets (draws [Byte.x01]) (draws [Byte.x02]) 7 0 0 "a" "b"
    (Session.init (mkKyberState false 0)) (Session.init (mkKyberState false 0)) ltac:(lia)) as (p' & q' & _ & _ & Hp & Hq & _).
  exists p', q'. split; [exact Hp|exact Hq].
Defined.

End WireWitness.
