(* ===== verification/Crypto.v ===== *)
(** * Cryptographic helpers (dsm/src/crypto/mod.rs, signatures.rs, rng.rs, sha3.rs, hash.rs, random_walk_privacy.rs)

    [Box] is the hybrid encryption and the key store of [crypto/mod.rs], [Sig]
    is [SignatureKeyPair], [Rng] and [Shake] are [rng.rs] and [sha3.rs], [Hash]
    is [hash.rs], [Walk] is [random_walk_privacy.rs].  ML-KEM, ChaCha20-Poly1305, BLAKE3 and SHAKE256 are interfaces;
    random bytes are arguments. *)
From S2P Require Import Prelude Tokens Operations SparseIdx States RandomWalk Transition Sphincs Keys Hexa NodeTypes Kyber Pedersen Wire.

(** ** Random bytes *)

Module Rng.
Section Rng.
Context {B3 : Blake3}.

(** [chacha20] is what a generator with a seed of 32 bytes writes into a buffer
    of a length. *)
Definition generate_deterministic_random (chacha20 : nat → bytes → bytes) (seed : bytes) (len : nat) : bytes :=
  let copy_len := Nat.min (length seed) 32 in
  chacha20 len (take copy_len seed ++ zeros (32 - copy_len)).

Definition u32_add (a b : Z) : outcome Z := if a + b <? 2 ^ 32 then Ok (a + b) else Panic.

(** [while remaining > 0]: a block for each value of the counter. *)
Fixpoint mix_loop (fuel : nat) (hash : bytes) (remaining : nat) (counter : Z) (output : bytes) : outcome bytes :=
  if (0 <? remaining)%nat then
    match fuel with
    | O => Hang
    | S fuel =>
        let block := blake3 (hash ++ le_bytes 4 counter) in
        let copy_size := Nat.min remaining 32 in
        counter ← u32_add counter 1;
        mix_loop fuel hash (remaining - copy_size) counter (output ++ take copy_size block)
    end
  else Ok output.

Definition mix_entropy (sources : list bytes) (output_len : nat) : outcome bytes :=
  let hash := blake3 (str_bytes "DSM_ENTROPY_MIX" ++ mjoin sources) in
  mix_loop output_len hash output_len 0 [].

End Rng.
End Rng.

(** ** SHAKE256 *)

Module Shake.
Section Shake.
Context {S3 : Sha3}.

Definition hash_shake256_xof (data : bytes) (output_len : nat) : bytes := shake256 output_len data.
Definition combine_participant_contributions (contributions : list bytes) : bytes :=
  shake256 32 (str_bytes "DSM.v1.shake.combine" ++ mjoin contributions).
Definition hash_state_precommitment (state_hash operation entropy : bytes) : bytes :=
  shake256 32 (str_bytes "DSM.v1.shake.precommit" ++ state_hash ++ operation ++ entropy).
Definition preprocess_participant_contribution (contribution : bytes) : bytes :=
  shake256 32 (str_bytes "DSM.v1.shake.preprocess" ++ contribution).

(** A hasher is the bytes it was fed. *)
Definition new_shake256 : bytes := [].
Definition extend_shake (hasher data : bytes) : bytes := hasher ++ data.
Definition finalize_shake_xof (hasher : bytes) (output_len : nat) : bytes := shake256 output_len hasher.

End Shake.
End Shake.

(** ** Hashes *)

Module Hash.
Section Hash.
Context {B3 : Blake3}.

Definition hash_to_bytes (data : bytes) : bytes := blake3 data.
Definition calculate_next_entropy (current_entropy operation : bytes) (state_number : Z) : bytes :=
  generate_deterministic_entropy current_entropy operation state_number.
Definition generate_verification_seed (state_hash additional_entropy : bytes) : bytes := blake3 (state_hash ++ additional_entropy).
Definition calculate_state_hash (state_number : Z) (previous_state_hash operation entropy additional_data : bytes) : outcome bytes :=
  Ok (blake3 (u64_be state_number ++ previous_state_hash ++ operation ++ entropy ++ additional_data)).
Definition combine_hashes (hashes : list bytes) : bytes := blake3 (mjoin hashes).

End Hash.
End Hash.

(** ** Key pairs *)

Record SignatureKeyPair := mkSignatureKeyPair { sk_public_key : bytes; sk_secret_key : bytes }.

Module Sig.
Section Sig.
Context {B3 : Blake3}.

Definition generate (random : bytes) : outcome SignatureKeyPair :=
  k ← Sphincs.generate_sphincs_keypair random; Ok (mkSignatureKeyPair k.1 k.2).

Definition generate_from_entropy (chacha20 : bytes → bytes) (entropy : bytes) : outcome SignatureKeyPair :=
  if bool_decide (entropy = []) then Err (ECrypto "Entropy must not be empty.")
  else
    match Sphincs.generate_sphincs_keypair_from_seed chacha20 (blake3 entropy) with
    | Ok k => Ok (mkSignatureKeyPair k.1 k.2)
    | Err _ => Err (ECrypto "Failed to generate deterministic keypair: {}")
    | Panic => Panic
    | Hang => Hang
    end.

Definition sign (k : SignatureKeyPair) (data : bytes) : outcome bytes :=
  if bool_decide (data = []) then Err (ECrypto "Data to sign cannot be empty.")
  else Sphincs.sphincs_sign (sk_secret_key k) data.

Definition verify (k : SignatureKeyPair) (data signature : bytes) : outcome bool :=
  if bool_decide (data = []) || bool_decide (signature = []) then Err (ECrypto "Data and signature cannot be empty.")
  else Sphincs.sphincs_verify (sk_public_key k) data signature.

Definition verify_raw (data signature public_key : bytes) : outcome bool :=
  if bool_decide (data = []) || bool_decide (signature = []) || bool_decide (public_key = [])
  then Err (ECrypto "Data, signature, and public key must not be empty.")
  else Sphincs.sphincs_verify public_key data signature.

End Sig.
End Sig.

(** ** Hybrid encryption and the key store *)

Module Box.
Section Box.
Context {B3 : Blake3} {K : Mlkem kem768} {AE : Aead} {CC : Chacha}.

(** The static [PRIVATE_KEY_STORE]; nothing panics while it is locked. *)
Definition store_private_key (id : string) (private_key : bytes) : M (gmap string bytes) unit :=
  mmod (insert id private_key).
Definition get_private_key (store : gmap string bytes) (id : string) : outcome bytes :=
  ok_or (ENotFound "Private key not found for ID: {}" None) (store !! id).

(** [r1 r2 r3 r] and [random] are what the two generators draw. *)
Definition generate_keypair (now now' : Z) (r1 r2 r3 r random : bytes) : M KyberState (bytes * bytes * bytes * bytes) := fun s =>
  match Kyber.generate_kyber_keypair now now' r1 r2 r3 r s with
  | (Ok (kyber_public, kyber_secret), s) =>
      match Sphincs.generate_sphincs_keypair random with
      | Ok (sphincs_public, sphincs_secret) => (Ok (kyber_public, kyber_secret, sphincs_public, sphincs_secret), s)
      | Hang => (Hang, s)
      | _ => (Panic, s)
      end
  | (Hang, s) => (Hang, s)
  | (_, s) => (Panic, s)
  end.

Definition sign_data (data private_key : bytes) : outcome (option bytes) :=
  match Sphincs.sphincs_sign private_key data with
  | Ok s => Ok (Some s)
  | Err _ => Ok None
  | Panic => Panic
  | Hang => Hang
  end.

Definition verify_signature (data signature public_key : bytes) : outcome bool :=
  match Sphincs.sphincs_verify public_key data signature with
  | Err _ => Ok false
  | o => o
  end.

Definition derive_key (context : string) (key_material : bytes) : bytes := blake3 (str_bytes context ++ key_material).
Definition hash_data (data : bytes) : bytes := blake3 data.

(** The loop appends digests until there are enough bytes. *)
Definition deterministic_random_bytes (seed : bytes) (len : nat) : outcome bytes :=
  Kyber.derive_loop len len (blake3 seed) [].

Definition key_bytes (symmetric_key : bytes) : outcome bytes :=
  if (32 <=? length symmetric_key)%nat then Ok (take 32 symmetric_key) else deterministic_random_bytes symmetric_key 32.

Definition u16_be (n : Z) : bytes := rev (le_bytes 2 n).

(** [cipher.encrypt] and [cipher.decrypt]: the tag follows the ciphertext. *)
Definition cipher_encrypt (key nonce message : bytes) : option bytes :=
  '(c, tag) ← chacha_seal key nonce [] message; Some (c ++ tag).
Definition cipher_decrypt (key nonce ciphertext : bytes) : option bytes :=
  if (length ciphertext <? 16)%nat then None
  else chacha_open key nonce [] (take (length ciphertext - 16) ciphertext) (drop (length ciphertext - 16) ciphertext).

(** [r] is what the encapsulation draws, [nonce_bytes] the nonce. *)
Definition encrypt_for_recipient (r nonce_bytes recipient_pk message : bytes) : outcome (option bytes) :=
  match Kyber.kyber_encapsulate r recipient_pk with
  | Ok (symmetric_key, encapsulated_key) =>
      key ← key_bytes symmetric_key;
      Ok (ciphertext ← cipher_encrypt key nonce_bytes message;
          Some (u16_be (Z.of_nat (length encapsulated_key) mod 2 ^ 16) ++ encapsulated_key ++ nonce_bytes ++ ciphertext))
  | Err _ => Ok None
  | Panic => Panic
  | Hang => Hang
  end.

Definition decrypt_from_sender (recipient_sk encrypted_data : bytes) : outcome (option bytes) :=
  if (length encrypted_data <? 2)%nat then Ok None
  else
    let encapsulated_len := Z.to_nat (of_le_bytes (rev (take 2 encrypted_data))) in
    if (length encrypted_data <? 2 + encapsulated_len + 12)%nat then Ok None
    else
      let encapsulated_key := take encapsulated_len (drop 2 encrypted_data) in
      let nonce_bytes := take 12 (drop (2 + encapsulated_len) encrypted_data) in
      let ciphertext := drop (2 + encapsulated_len + 12) encrypted_data in
      match Kyber.kyber_decapsulate recipient_sk encapsulated_key with
      | Ok symmetric_key => key ← key_bytes symmetric_key; Ok (cipher_decrypt key nonce_bytes ciphertext)
      | Err _ => Ok None
      | Panic => Panic
      | Hang => Hang
      end.

End Box.
End Box.

(** ** Privacy walks *)

Record RandomWalkPrivacy := mkRandomWalkPrivacy { rp_seed : bytes; rp_path : list (Z * Z); rp_steps : nat }.

Module Walk.
Section Walk.
Context {B3 : Blake3}.

(** One turn hashes the previous digest and reads two numbers off the result. *)
Fixpoint generate_path (current_hash : bytes) (steps : nat) : list (Z * Z) :=
  match steps with
  | O => []
  | S steps =>
      let b := blake3 current_hash in
      (of_le_bytes (take 8 b), of_le_bytes (take 8 (drop 8 b))) :: generate_path b steps
  end.

Definition new_with_steps (transaction_hash : bytes) (steps : nat) : RandomWalkPrivacy :=
  let seed := blake3 transaction_hash in
  mkRandomWalkPrivacy seed (generate_path seed steps) steps.
Definition new (transaction_hash : bytes) : RandomWalkPrivacy := new_with_steps transaction_hash 10.

Definition verify_path (w : RandomWalkPrivacy) (other_path : list (Z * Z)) : bool := bool_decide (rp_path w = other_path).

Definition time_locked_transfer (w : RandomWalkPrivacy) (recipient : bytes) (amount time : Z) : bytes :=
  blake3 (rp_seed w ++ recipient ++ u64_le amount ++ str_bytes "after" ++ u64_le time).
Definition conditional_transfer (w : RandomWalkPrivacy) (recipient : bytes) (amount : Z) (condition oracle : bytes) : bytes :=
  blake3 (rp_seed w ++ recipient ++ u64_le amount ++ str_bytes "if" ++ condition ++ oracle).
Definition recurring_payment (w : RandomWalkPrivacy) (recipient : bytes) (amount period end_date : Z) : bytes :=
  blake3 (rp_seed w ++ recipient ++ u64_le amount ++ str_bytes "every" ++ u64_le period ++ u64_le end_date).

Definition get_path (w : RandomWalkPrivacy) : list (Z * Z) := rp_path w.
Definition steps (w : RandomWalkPrivacy) : nat := rp_steps w.

End Walk.
End Walk.

(** * Facts *)

Section CryptoFacts.
Context {B3 : Blake3} {K : Mlkem kem768} {AE : Aead} {CC : Chacha}.

Lemma key_bytes_full k : length k = 32%nat → Box.key_bytes k = Ok k.
Proof. intros H. unfold Box.key_bytes. rewrite H. cbn [Nat.leb]. by rewrite <- H, firstn_all. Qed.

Lemma cipher_round_trip key nonce m c : Box.cipher_encrypt key nonce m = Some c → Box.cipher_decrypt key nonce c = Some m.
Proof.
  unfold Box.cipher_encrypt, Box.cipher_decrypt. destruct (chacha_seal key nonce [] m) as [[ct t]|] eqn:E; [|done].
  cbn [mbind option_bind]. intros [= <-]. pose proof (chacha_tag_length _ _ _ _ _ _ E) as Ht.
  rewrite length_app, Ht. destruct (Nat.ltb_spec (length ct + 16) 16); [lia|].
  replace (length ct + 16 - 16)%nat with (length ct) by lia. rewrite take_app_length, drop_app_length.
  by eapply chacha_round_trip.
Qed.

Lemma u16_round_trip n : 0 ≤ n < 2 ^ 16 → of_le_bytes (rev (Box.u16_be n)) = n.
Proof. intros H. unfold Box.u16_be. rewrite rev_involutive, of_le_bytes_le_bytes. by rewrite Z.mod_small. Qed.

Lemma length_u16_be n : length (Box.u16_be n) = 2%nat.
Proof. unfold Box.u16_be. by rewrite length_rev, length_le_bytes. Qed.

(** A package in the layout of [encrypt_for_recipient] is taken apart again. *)
Lemma decrypt_package sk ct nonce c : length ct = ciphertext_size kem768 → length nonce = 12%nat →
  Box.decrypt_from_sender sk (Box.u16_be (Z.of_nat (length ct) mod 2 ^ 16) ++ ct ++ nonce ++ c) =
  match Kyber.kyber_decapsulate sk ct with
  | Ok k => key ← Box.key_bytes k; Ok (Box.cipher_decrypt key nonce c)
  | Err _ => Ok None
  | Panic => Panic
  | Hang => Hang
  end.
Proof.
  intros Hct Hn. unfold Box.decrypt_from_sender. set (n := Z.of_nat (length ct) mod 2 ^ 16).
  assert (n = Z.of_nat (length ct)) as Hv by (unfold n; rewrite Hct; reflexivity).
  assert (0 ≤ n < 2 ^ 16) as Hb by (rewrite Hv, Hct; vm_compute; split; [discriminate|reflexivity]).
  clearbody n. pose proof (length_u16_be n) as H2. assert (Z.to_nat n = length ct) as Hz by lia.
  rewrite !(take_app_length' (Box.u16_be n)), (u16_round_trip n) by done. rewrite Hz, !length_app, H2, Hn.
  destruct (Nat.ltb_spec (2 + (length ct + (12 + length c))) 2); [lia|].
  destruct (Nat.ltb_spec (2 + (length ct + (12 + length c))) (2 + length ct + 12)); [lia|].
  rewrite (drop_app_length' (Box.u16_be n)), take_app_length by done.
  rewrite (app_assoc (Box.u16_be n)), (drop_app_length' (Box.u16_be n ++ ct)), (take_app_length' nonce) by (rewrite ?length_app; lia).
  rewrite (app_assoc (Box.u16_be n ++ ct)), (drop_app_length' ((Box.u16_be n ++ ct) ++ nonce)) by (rewrite !length_app; lia). done.
Qed.

(** C10: hybrid encryption round-trips: encrypting for a generated public key gives
    nothing only when the cipher does, and the secret key of the pair decrypts
    every package to the message; a public or secret key of another size than the
    scheme's is refused. *)
Theorem hybrid_encryption_roundtrip (r0 r nonce m : bytes) :
  length nonce = 12%nat →
  let '(pk, sk) := kem_keypair r0 in
  (∃ o, Box.encrypt_for_recipient r nonce pk m = Ok o ∧
     (o = None ↔ chacha_seal (kem_encapsulate r pk).1 nonce [] m = None) ∧
     ∀ c, o = Some c → Box.decrypt_from_sender sk c = Ok (Some m)) ∧
  (∀ key, length key ≠ public_key_size kem768 → Box.encrypt_for_recipient r nonce key m = Ok None) ∧
  (∀ key c, length key ≠ secret_key_size kem768 → Box.decrypt_from_sender key c = Ok None).
Proof.
  intros Hn. pose proof (kem_correct r0 r) as Hc. pose proof (kem_pk_length r0) as Hpk. pose proof (kem_sk_length r0) as Hsk.
  destruct (kem_keypair r0) as [pk sk]. cbn [fst snd] in *. split_and!.
  - unfold Box.encrypt_for_recipient. rewrite kyber_encapsulate_ok by done.
    pose proof (kem_ss_length r pk) as Hss. pose proof (kem_ct_length r pk) as Hct.
    destruct (kem_encapsulate r pk) as [ss ct]. cbn [fst snd] in *. rewrite key_bytes_full by done. cbn [mbind outcome_bind].
    eexists. split; [reflexivity|]. split.
    + unfold Box.cipher_encrypt. destruct (chacha_seal ss nonce [] m) as [[c t]|]; done.
    + intros c. destruct (Box.cipher_encrypt ss nonce m) as [x|] eqn:E; [|done]. cbn [mbind option_bind].
      intros <-%Some_inj. rewrite decrypt_package by done.
      rewrite kyber_decapsulate_ok, Hc, key_bytes_full by done. cbn [mbind outcome_bind]. by rewrite (cipher_round_trip _ _ _ _ E).
  - intros key Hk. unfold Box.encrypt_for_recipient, Kyber.kyber_encapsulate.
    by rewrite (proj2 (Nat.eqb_neq _ _) Hk).
  - intros key c Hk. unfold Box.decrypt_from_sender, Kyber.kyber_decapsulate.
    rewrite (proj2 (Nat.eqb_neq _ _) Hk). by repeat case_match.
Qed.

(** Key pairs from either generator sign every message but the empty one, with
    signatures that verify under the public key, and refuse the empty message;
    the check is that of the bare public key. *)
Theorem keypairs_sign (chacha20 : bytes → bytes) (random entropy data : bytes) (k : SignatureKeyPair) :
  length random = 96%nat → (∀ seed, length (chacha20 seed) = 96%nat) →
  Sig.generate random = Ok k ∨ Sig.generate_from_entropy chacha20 entropy = Ok k →
  if bool_decide (data = []) then is_ok (Sig.sign k data) = false ∧ ∀ s, is_ok (Sig.verify k data s) = false
  else ∃ s, Sig.sign k data = Ok s ∧ length s = CRYPTO_BYTES ∧ Sig.verify k data s = Ok true ∧
    Sig.verify_raw data s (sk_public_key k) = Ok true.
Proof.
  intros Hr Hs Hk. assert (keypair (sk_public_key k) (sk_secret_key k)) as Hp.
  { destruct Hk as [Hk|Hk].
    - unfold Sig.generate in Hk. destruct (generate_keypair random Hr) as (pk & sk & E & Hp). rewrite E in Hk.
      apply Ok_inj in Hk. by subst k.
    - unfold Sig.generate_from_entropy in Hk. destruct (bool_decide (entropy = [])); [done|].
      destruct (generate_keypair_from_seed chacha20 (blake3 entropy) (Hs _)) as (pk & sk & E & Hp). rewrite E in Hk.
      apply Ok_inj in Hk. by subst k. }
  case_bool_decide as Hd.
  - unfold Sig.sign, Sig.verify. by rewrite bool_decide_eq_true_2.
  - destruct (sign_verify _ _ data Hp Hd) as (s & H1 & H2 & H3). exists s. unfold Sig.sign, Sig.verify, Sig.verify_raw.
    assert (s ≠ []) as Hne by (intros ->; unfold CRYPTO_BYTES in H2; cbn [length] in H2; lia).
    assert (sk_public_key k ≠ []) as Hpne.
    { destruct Hp as (a & b & p & q & _ & _ & Hlp & _ & E & _). intros E'. rewrite E' in E.
      apply (f_equal length) in E. rewrite length_app, Hlp in E. cbn [length] in E. lia. }
    by rewrite !bool_decide_eq_false_2.
Qed.

(** ** Mixed entropy *)

(** The blocks of the counters from [c] on. *)
Fixpoint blocks (k : nat) (hash : bytes) (c : Z) : bytes :=
  match k with O => [] | S k => blake3 (hash ++ le_bytes 4 c) ++ blocks k hash (c + 1) end.

Lemma length_blocks k hash c : length (blocks k hash c) = (32 * k)%nat.
Proof. revert c. induction k as [|k IH]; intros c; [done|]. cbn [blocks]. rewrite length_app, blake3_length, IH. lia. Qed.

Lemma mix_loop_spec fuel hash remaining c out :
  (remaining ≤ 32 * fuel)%nat → 0 ≤ c → c + Z.of_nat remaining < 2 ^ 32 →
  Rng.mix_loop fuel hash remaining c out = Ok (out ++ take remaining (blocks fuel hash c)).
Proof.
  revert remaining c out. induction fuel as [|fuel IH]; intros remaining c out Hr Hc Hb; cbn [Rng.mix_loop].
  - destruct (Nat.ltb_spec 0 remaining); [lia|]. cbn [blocks]. by rewrite firstn_nil, app_nil_r.
  - destruct (Nat.ltb_spec 0 remaining) as [Hpos|Hz]; [|replace remaining with 0%nat by lia; by rewrite app_nil_r].
    unfold Rng.u32_add. destruct (Z.ltb_spec (c + 1) (2 ^ 32)); [|lia]. cbn [mbind outcome_bind].
    rewrite IH by lia. cbn [blocks]. rewrite <- app_assoc. do 2 f_equal.
    destruct (Nat.le_ge_cases remaining 32) as [Hle|Hge].
    + rewrite Nat.min_l, Nat.sub_diag, take_0, app_nil_r, take_app_le by (rewrite ?blake3_length; lia). done.
    + rewrite Nat.min_r by lia. rewrite (take_app_ge (blake3 _)) by (rewrite blake3_length; lia).
      by rewrite blake3_length, (firstn_all2 (blake3 _)) by (rewrite blake3_length; lia).
Qed.

(** Mixing entropy ends with exactly the bytes that were asked for, as long as
    the counter does not overflow; fewer bytes are a prefix of more. *)
Theorem mixed_entropy_exact (sources : list bytes) (n m : nat) :
  (n ≤ m)%nat → Z.of_nat m < 2 ^ 32 →
  ∃ out, Rng.mix_entropy sources m = Ok out ∧ length out = m ∧ Rng.mix_entropy sources n = Ok (take n out).
Proof.
  intros Hnm Hm. unfold Rng.mix_entropy. set (h := blake3 _).
  exists (take m (blocks m h 0)). rewrite !mix_loop_spec by lia. split_and!.
  - done.
  - rewrite length_take, length_blocks. lia.
  - cbn [app]. rewrite take_take, Nat.min_l by lia.
    assert (∀ k k' c, (k ≤ k')%nat → take (32 * k) (blocks k' h c) = blocks k h c) as Hpre.
    { clear. intros k. induction k as [|k IH]; intros k' c Hk; [done|]. destruct k' as [|k']; [lia|]. cbn [blocks].
      rewrite take_app_ge by (rewrite blake3_length; lia). rewrite blake3_length. f_equal.
      replace (32 * S k - 32)%nat with (32 * k)%nat by lia. apply IH. lia. }
    rewrite <- (Hpre n m 0 Hnm), take_take. by rewrite Nat.min_l by lia.
Qed.

(** The contributions of participants and the parts of a state hash are
    concatenated without lengths: moving bytes from one part to the next does not
    change the digest. *)
Theorem parts_not_separated `{!Sha3} (a b c : bytes) (rest : list bytes) (n : Z) (op e d : bytes) :
  Shake.combine_participant_contributions ((a ++ b) :: c :: rest) = Shake.combine_participant_contributions (a :: (b ++ c) :: rest) ∧
  Shake.hash_state_precommitment (a ++ b) c e = Shake.hash_state_precommitment a (b ++ c) e ∧
  Hash.calculate_state_hash n (a ++ b) op e d = Hash.calculate_state_hash n a (b ++ op) e d.
Proof.
  unfold Shake.combine_participant_contributions, Shake.hash_state_precommitment, Hash.calculate_state_hash.
  cbn [mjoin list_join]. by rewrite <- !app_assoc.
Qed.

(** ** Privacy walks *)

Lemma generate_path_app h a b : ∃ h', Walk.generate_path h (a + b) = Walk.generate_path h a ++ Walk.generate_path h' b.
Proof.
  revert h. induction a as [|a IH]; intros h; [by exists h|].
  destruct (IH (blake3 h)) as [h' E]. exists h'. cbn [Nat.add Walk.generate_path]. by rewrite E.
Qed.

Lemma generate_path_length h n : length (Walk.generate_path h n) = n.
Proof. revert h. induction n as [|n IH]; intros h; [done|]. cbn [Walk.generate_path length]. by rewrite IH. Qed.

Lemma generate_path_u64 h n : Forall (fun p => u64_ok p.1 ∧ u64_ok p.2) (Walk.generate_path h n).
Proof.
  revert h. induction n as [|n IH]; intros h; constructor; [|apply IH]. cbn [fst snd].
  assert (∀ b : bytes, length b = 8%nat → u64_ok (of_le_bytes b)) as H8.
  { intros b Hb. pose proof (of_le_bytes_bound b) as H. rewrite Hb in H. unfold u64_ok, u64_max. lia. }
  split; apply H8; rewrite !length_take, ?length_drop, blake3_length; lia.
Qed.

(** A privacy walk has exactly as many points as it has steps, each a pair of
    64-bit numbers; a walk of fewer steps is a prefix of a longer one, and a walk
    accepts the path of a transaction and of no other number of steps. *)
Theorem walk_exact (h : bytes) (n m : nat) :
  (n ≤ m)%nat →
  let w := Walk.new_with_steps h m in
  length (Walk.get_path w) = Walk.steps w ∧ Forall (fun p => u64_ok p.1 ∧ u64_ok p.2) (Walk.get_path w) ∧
  Walk.get_path (Walk.new_with_steps h n) = take n (Walk.get_path w) ∧
  Walk.verify_path w (Walk.get_path (Walk.new_with_steps h n)) = bool_decide (n = m).
Proof.
  intros Hnm. cbv zeta. unfold Walk.get_path, Walk.steps, Walk.verify_path, Walk.new_with_steps. cbn [rp_path rp_steps].
  set (s := blake3 h). split_and!; [apply generate_path_length|apply generate_path_u64| |].
  - destruct (generate_path_app s n (m - n)) as [s' E]. replace (n + (m - n))%nat with m in E by lia.
    by rewrite E, take_app_length' by (symmetry; apply generate_path_length).
  - apply bool_decide_ext. split; [intros E%(f_equal length)|by intros ->]. by rewrite !generate_path_length in E.
Qed.

(** What two calls of each kind hash. *)
Definition walk_inputs (w : RandomWalkPrivacy) (p p' : bytes) : list bytes := [rp_seed w ++ p; rp_seed w ++ p'].

(** Transfers of the same seed to recipients of the same size are bound to the
    recipient, the amount, the time, and the period and end: equal commitments
    commit to the same payment, or the two inputs collide.  The condition and the
    oracle of a conditional one are only bound together. *)
Theorem walk_transfers_bind (w : RandomWalkPrivacy) (r r' : bytes) (a a' t t' e e' : Z) (c c' o o' : bytes) :
  length r = length r' → u64_ok a → u64_ok a' → u64_ok t → u64_ok t' → u64_ok e → u64_ok e' →
  (Walk.time_locked_transfer w r a t = Walk.time_locked_transfer w r' a' t' → (r = r' ∧ a = a' ∧ t = t') ∨
     collision blake3 (walk_inputs w (r ++ u64_le a ++ str_bytes "after" ++ u64_le t) (r' ++ u64_le a' ++ str_bytes "after" ++ u64_le t'))) ∧
  (Walk.recurring_payment w r a t e = Walk.recurring_payment w r' a' t' e' → (r = r' ∧ a = a' ∧ t = t' ∧ e = e') ∨
     collision blake3 (walk_inputs w (r ++ u64_le a ++ str_bytes "every" ++ u64_le t ++ u64_le e)
       (r' ++ u64_le a' ++ str_bytes "every" ++ u64_le t' ++ u64_le e'))) ∧
  (Walk.conditional_transfer w r a c o = Walk.conditional_transfer w r' a' c' o' → (r = r' ∧ a = a' ∧ c ++ o = c' ++ o') ∨
     collision blake3 (walk_inputs w (r ++ u64_le a ++ str_bytes "if" ++ c ++ o) (r' ++ u64_le a' ++ str_bytes "if" ++ c' ++ o'))) ∧
  (r = r' → a = a' → c ++ o = c' ++ o' → Walk.conditional_transfer w r a c o = Walk.conditional_transfer w r' a' c' o').
Proof.
  intros Hr Ha Ha' Ht Ht' He He'.
  assert (∀ tag s s', r ++ u64_le a ++ str_bytes tag ++ s = r' ++ u64_le a' ++ str_bytes tag ++ s' → r = r' ∧ a = a' ∧ s = s') as Hcut.
  { intros tag s s' E. apply app_inj_1 in E as [-> E]; [|done].
    apply app_inj_1 in E as [Ea E]; [|by rewrite !length_le_bytes]. apply app_inv_head in E. by apply u64_le_inj in Ea. }
  unfold Walk.time_locked_transfer, Walk.recurring_payment, Walk.conditional_transfer. split_and!.
  - intros [E%app_inv_head|]%hash_bind; [left|by right]. apply Hcut in E as (-> & -> & E).
    by apply u64_le_inj in E.
  - intros [E%app_inv_head|]%hash_bind; [left|by right]. apply Hcut in E as (-> & -> & E).
    apply app_inj_1 in E as [Et%u64_le_inj Ee%u64_le_inj]; [|done..|by rewrite !length_le_bytes]. done.
  - intros [E%app_inv_head|]%hash_bind; [left|by right]. by apply Hcut in E.
  - by intros -> -> ->.
Qed.

End CryptoFacts.

(** ** Witnesses *)

Module CryptoWitness.
Import WireWitness.
#[local] Existing Instances Toy.toy_blake3 ToyKem.toy_kem768 ToyKem.toy_aead toy_chacha.

Lemma hybrid_encryption_roundtrip_witness :
  ∃ o, Box.encrypt_for_recipient [Byte.x05] (zeros 12) (kem_keypair [Byte.x03]).1 [Byte.x07] = Ok o ∧
    ∀ c, o = Some c → Box.decrypt_from_sender (kem_keypair [Byte.x03]).2 c = Ok (Some [Byte.x07]).
Proof.
  pose proof (hybrid_encryption_roundtrip [Byte.x03] [Byte.x05] (zeros 12) [Byte.x07] eq_refl) as H.
  destruct (kem_keypair [Byte.x03]) as [pk sk]. destruct H as ((o & H1 & _ & H2) & _). exists o. split; [exact H1|exact H2].
Defined.

Lemma keypairs_sign_witness :
  ∃ k s, Sig.generate (zeros 96) = Ok k ∧ Sig.sign k [Byte.x01] = Ok s ∧ Sig.verify k [Byte.x01] s = Ok true.
Proof.
  destruct (Sig.generate (zeros 96)) as [k|e| |] eqn:E; [|exfalso; by destruct (generate_keypair (zeros 96) eq_refl) as (pk & sk & E' & _); unfold Sig.generate in E; rewrite E' in E..].
  destruct (keypairs_sign (fun _ => zeros 96) (zeros 96) [] [Byte.x01] k eq_refl (fun _ => eq_refl) (or_introl E)) as (s & H1 & _ & H2 & _).
  exists k, s. split; [done|split; [exact H1|exact H2]].
Defined.

Lemma mixed_entropy_exact_witness : ∃ out, Rng.mix_entropy [[Byte.x01]] 40 = Ok out ∧ length out = 40%nat.
Proof.
  destruct (mixed_entropy_exact [[Byte.x01]] 7 40 ltac:(lia) ltac:(lia)) as (out & H1 & H2 & _). exists out. split; [exact H1|exact H2].
Defined.

Lemma walk_exact_witness : Walk.verify_path (Walk.new [Byte.x01]) (Walk.get_path (Walk.new_with_steps [Byte.x01] 3)) = false.
Proof.
  destruct (walk_exact [Byte.x01] 3 10 ltac:(lia)) as (_ & _ & _ & H). exact H.
Defined.

Lemma walk_transfers_bind_witness :
  Walk.time_locked_transfer (Walk.new []) [Byte.x01] 5 7 = Walk.time_locked_transfer (Walk.new []) [Byte.x01] 6 7 →
  collision blake3 (walk_inputs (Walk.new []) ([Byte.x01] ++ u64_le 5 ++ str_bytes "after" ++ u64_le 7)
    ([Byte.x01] ++ u64_le 6 ++ str_bytes "after" ++ u64_le 7)).
Proof.
  intros H. assert (∀ n, 0 ≤ n < 10 → u64_ok n) as Hk by (unfold u64_ok, u64_max; lia).
  destruct (proj1 (walk_transfers_bind (Walk.new []) [Byte.x01] [Byte.x01] 5 6 7 7 0 0 [] [] [] [] eq_refl
    (Hk 5 ltac:(lia)) (Hk 6 ltac:(lia)) (Hk 7 ltac:(lia)) (Hk 7 ltac:(lia)) (Hk 0 ltac:(lia)) (Hk 0 ltac:(lia))) H) as [(_ & Ha & _)|Hc];
    [discriminate Ha|exact Hc].
Defined.
End CryptoWitness.
