(* ===== verification/Mpc.v ===== *)
(** * Identities by several parties and device bindings
      (dsm/src/crypto_verification/multiparty_computation.rs, quantum_resistant_binding.rs)

    [Mpc] collects contributions and makes an identity of them, [Binding] is
    [QuantumResistantBinding].  What the key generators draw, the clock and the
    process are arguments. *)
From S2P Require Import Prelude Tokens Operations SparseIdx States RandomWalk Transition Relationship Sphincs Keys Hexa NodeTypes Kyber Pedersen Identity Wire Crypto.

(** ** Identities *)

Record MpcContribution := mkMpcContribution { mc_blinded_hash : bytes; mc_party_id : string; mc_timestamp : Z }.
Record MpcIdentityFactory := mkMpcFactory { mf_threshold : nat; mf_app_id : string; mf_contributions : list MpcContribution }.

Module Mpc.
Section Mpc.
Context {B3 : Blake3} {RT : Runtime} {HX : Hex} {K : Mlkem kem768}.

Definition new_contribution (secret blinding_factor : bytes) (party_id : string) : MpcContribution :=
  mkMpcContribution (blake3 (secret ++ blinding_factor)) party_id now.

Definition new (threshold : nat) (app_id : string) : MpcIdentityFactory := mkMpcFactory threshold app_id [].

Definition add_contribution (contribution : MpcContribution) : M MpcIdentityFactory unit := fun f =>
  if existsb (fun c => bool_decide (mc_party_id c = mc_party_id contribution)) (mf_contributions f)
  then (Err (EValidation "Duplicate party ID in MPC contributions"), f)
  else (Ok tt, mkMpcFactory (mf_threshold f) (mf_app_id f) (mf_contributions f ++ [contribution])).

Definition threshold_met (f : MpcIdentityFactory) : bool := (mf_threshold f <=? length (mf_contributions f))%nat.

(** [sort_by(|a, b| a.party_id.cmp(&b.party_id))]; the ids are distinct. *)
Definition sorted_contributions (f : MpcIdentityFactory) : list MpcContribution :=
  snd <$> sort_by_key ((fun c => (mc_party_id c, c)) <$> mf_contributions f).

Definition mpc_seed_share (f : MpcIdentityFactory) : bytes :=
  blake3 (mjoin (mc_blinded_hash <$> take (mf_threshold f) (sorted_contributions f)) ++ str_bytes (mf_app_id f)).

(** The genesis state and the identity around it. *)
Definition identity_of (name : string) (seed entropy : bytes) (threshold : nat) (participants : gset string)
    (s : SignatureKeyPair) (k : KyberKeyPair) : Identity :=
  mkIdentity name
    (mkGenesis seed entropy threshold participants None (Some ("device_" +:+ hex_encode (take 4 seed)))
       (mkSigningKey (sk_public_key s) (sk_secret_key s)) (mkKyberKey (kp_public_key k) (kp_secret_key k)) [])
    [] false.

(** [chacha20] is the seeded generator of the signature keys, [r] what the
    generator of the encapsulation keys draws. *)
Definition create_identity (chacha20 : bytes → bytes) (r : bytes) (f : MpcIdentityFactory)
    : outcome (Identity * SignatureKeyPair * KyberKeyPair) :=
  if negb (threshold_met f) then Err (EValidation "Not enough contributions. Need {} but have {}")
  else
    let seed := mpc_seed_share f in
    let key_entropy := seed ++ str_bytes "key_derivation" in
    sphincs_keypair ← Sig.generate_from_entropy chacha20 key_entropy;
    let key_entropy := key_entropy ++ str_bytes "kyber_specific" in
    kyber_keypair ← Kyber.generate_from_entropy r key_entropy (Some "DSM_MULTIPARTY_KYBER"%string);
    let participants := list_to_set (mc_party_id <$> take (mf_threshold f) (sorted_contributions f)) in
    Ok (identity_of (mf_app_id f) seed key_entropy (mf_threshold f) participants sphincs_keypair kyber_keypair,
        sphincs_keypair, kyber_keypair).

(** [random] and [t t' r1 r2 r3 r] are what the two generators draw and read. *)
Definition create_test_identity (random : bytes) (t t' : Z) (r1 r2 r3 r : bytes) (app_id : string)
    : M KyberState (Identity * SignatureKeyPair * KyberKeyPair) :=
  let seed := blake3 (str_bytes ("test_seed_for_" +:+ app_id)) in
  let* sphincs_keypair := mlift (Sig.generate random) in
  let* kyber_keypair := Kyber.generate t t' r1 r2 r3 r in
  mret_st (identity_of app_id seed seed 1 {[ "test_participant"%string ]} sphincs_keypair kyber_keypair, sphincs_keypair, kyber_keypair).

End Mpc.
End Mpc.

(** ** Device bindings *)

Record DeviceAttestation := mkAttestation {
  at_timestamp : Z;
  at_device_hash : bytes;
  at_signature : bytes;
  at_encapsulated_state : bytes;
  at_verification_entropy : bytes;
}.

Record QuantumResistantBinding := mkBinding {
  qb_device_hash : bytes;
  qb_sphincs_public_key : bytes;
  qb_kyber_public_key : bytes;
  qb_app_id : string;
  qb_device_salt : bytes;
}.

Module Binding.
Section Binding.
Context {B3 : Blake3} {K : Mlkem kem768}.

Definition u32_be (n : Z) : bytes := rev (le_bytes 4 n).

(** The clock, the process id and the bytes drawn (zeros when the system has
    none). *)
Definition generate_device_salt (secs nanos pid : Z) (random_bytes : bytes) : bytes :=
  blake3 (u64_be secs ++ u32_be nanos ++ u32_be pid ++ random_bytes).

Definition new (secs nanos pid : Z) (random_bytes : bytes) (app_id : string) (mpc_seed_share : bytes) (sphincs_keypair : SignatureKeyPair)
    (kyber_keypair : KyberKeyPair) : outcome QuantumResistantBinding :=
  let device_salt := generate_device_salt secs nanos pid random_bytes in
  Ok (mkBinding (blake3 (mpc_seed_share ++ str_bytes app_id ++ device_salt)) (sk_public_key sphincs_keypair) (kp_public_key kyber_keypair)
        app_id device_salt).

(** [clock] is [None] before the epoch, [r] what the encapsulation draws. *)
Definition create_attestation (clock : option Z) (r : bytes) (b : QuantumResistantBinding) (sphincs_keypair : SignatureKeyPair)
    (kyber_keypair : KyberKeyPair) (additional_entropy : bytes) : outcome DeviceAttestation :=
  timestamp ← ok_or (EInternal "Failed to get system time") clock;
  let attestation_data := u64_be timestamp ++ qb_device_hash b ++ additional_entropy in
  let verification_entropy := blake3 attestation_data in
  signature ← Sig.sign sphincs_keypair attestation_data;
  self_encapsulation ← Kyber.encapsulate r kyber_keypair;
  Ok (mkAttestation timestamp (qb_device_hash b) signature (en_ciphertext self_encapsulation) verification_entropy).

Definition verify_attestation (b : QuantumResistantBinding) (a : DeviceAttestation) (public_key : bytes) : outcome bool :=
  if negb (bool_decide (at_device_hash a = qb_device_hash b)) then Ok false
  else
    let attestation_data := u64_be (at_timestamp a) ++ at_device_hash a in
    let expected_verification := blake3 attestation_data in
    if negb (bool_decide (at_verification_entropy a = expected_verification)) then Ok false
    else Sig.verify_raw attestation_data (at_signature a) public_key.

Definition verify (b : QuantumResistantBinding) (app_id : string) (mpc_seed_share : bytes) : outcome bool :=
  let expected_device_hash := blake3 (mpc_seed_share ++ str_bytes app_id ++ qb_device_salt b) in
  if negb (bool_decide (qb_device_hash b = expected_device_hash)) then Ok false
  else if negb (bool_decide (qb_app_id b = app_id)) then Ok false
  else Ok true.

Definition device_hash (b : QuantumResistantBinding) : bytes := qb_device_hash b.
Definition genesis_hash (b : QuantumResistantBinding) : bytes := blake3 (qb_kyber_public_key b ++ qb_sphincs_public_key b).

End Binding.
End Binding.

(** * Facts *)

Section MpcFacts.
Context {B3 : Blake3} {RT : Runtime} {HX : Hex} {K : Mlkem kem768}.

(** The factory after contributions came in, refused ones included. *)
Definition collect (l : list MpcContribution) (f : MpcIdentityFactory) : MpcIdentityFactory :=
  fold_left (fun f c => (Mpc.add_contribution c f).2) l f.

Lemma existsb_party (p : string) l : existsb (fun c => bool_decide (mc_party_id c = p)) l = bool_decide (p ∈ (mc_party_id <$> l)).
Proof.
  apply eq_true_iff_eq. rewrite existsb_exists, bool_decide_eq_true, list_elem_of_fmap. split.
  - intros (c & Hc%list_elem_of_In & E%bool_decide_eq_true). by exists c.
  - intros (c & -> & Hc). exists c. split; [by apply list_elem_of_In|by apply bool_decide_eq_true].
Qed.

Lemma collect_cons c l f : collect (c :: l) f =
  collect l (if bool_decide (mc_party_id c ∈ (mc_party_id <$> mf_contributions f)) then f
             else mkMpcFactory (mf_threshold f) (mf_app_id f) (mf_contributions f ++ [c])).
Proof. unfold collect. cbn [fold_left]. f_equal. unfold Mpc.add_contribution. rewrite existsb_party. by case_bool_decide. Qed.

Lemma collect_fresh l f : NoDup (mc_party_id <$> (mf_contributions f ++ l)) →
  collect l f = mkMpcFactory (mf_threshold f) (mf_app_id f) (mf_contributions f ++ l).
Proof.
  revert f. induction l as [|c l IH]; intros f Hnd; [by destruct f; cbn; rewrite app_nil_r|].
  rewrite collect_cons, bool_decide_eq_false_2.
  - rewrite IH; cbn [mf_threshold mf_app_id mf_contributions]; by rewrite <- app_assoc.
  - rewrite fmap_app, fmap_cons in Hnd. apply NoDup_app in Hnd as (_ & H & _). intros Hin. apply (H _ Hin), elem_of_cons. by left.
Qed.

Lemma collect_invariant l f : NoDup (mc_party_id <$> mf_contributions f) →
  NoDup (mc_party_id <$> mf_contributions (collect l f)) ∧ mf_threshold (collect l f) = mf_threshold f ∧
  mf_app_id (collect l f) = mf_app_id f ∧ ∀ p, p ∈ (mc_party_id <$> mf_contributions (collect l f)) ↔
    p ∈ (mc_party_id <$> mf_contributions f) ∨ p ∈ (mc_party_id <$> l).
Proof.
  revert f. induction l as [|c l IH]; intros f Hnd; [split_and!; [done..|cbn; set_solver]|].
  rewrite collect_cons. case_bool_decide as Hin.
  - destruct (IH f Hnd) as (A & B & C & D). split_and!; [done..|]. intros p. rewrite D, fmap_cons. set_solver.
  - destruct (IH (mkMpcFactory (mf_threshold f) (mf_app_id f) (mf_contributions f ++ [c]))) as (A & B & C & D).
    { cbn. rewrite fmap_app. apply NoDup_app. split_and!; [done|set_solver|apply NoDup_singleton]. }
    split_and!; [done..|]. intros p. rewrite D, fmap_cons. cbn. rewrite fmap_app. set_solver.
Qed.

Lemma sorted_perm f f' : NoDup (mc_party_id <$> mf_contributions f) → mf_contributions f ≡ₚ mf_contributions f' →
  Mpc.sorted_contributions f = Mpc.sorted_contributions f'.
Proof.
  intros Hnd Hp. unfold Mpc.sorted_contributions. f_equal. apply sort_by_key_perm; [|by rewrite Hp].
  rewrite <- list_fmap_compose. exact Hnd.
Qed.

(** The order in which the parties contribute does not matter. *)
Lemma create_identity_perm chacha20 r f f' : mf_threshold f = mf_threshold f' → mf_app_id f = mf_app_id f' →
  NoDup (mc_party_id <$> mf_contributions f) → mf_contributions f ≡ₚ mf_contributions f' →
  Mpc.create_identity chacha20 r f = Mpc.create_identity chacha20 r f'.
Proof.
  intros Ht Ha Hnd Hp. unfold Mpc.create_identity, Mpc.mpc_seed_share, Mpc.threshold_met.
  by rewrite (sorted_perm f f' Hnd Hp), Ht, Ha, Hp.
Qed.

Lemma sorted_contributions_facts f : NoDup (mc_party_id <$> mf_contributions f) →
  Mpc.sorted_contributions f ≡ₚ mf_contributions f ∧
  StronglySorted (fun a b => String.le (mc_party_id a) (mc_party_id b)) (Mpc.sorted_contributions f).
Proof.
  intros Hnd. unfold Mpc.sorted_contributions. split.
  - unfold sort_by_key. rewrite (merge_sort_Permutation key_le), <- list_fmap_compose.
    replace (snd ∘ _) with (fun c : MpcContribution => c) by done. by rewrite list_fmap_id.
  - assert (Forall (fun x => x.1 = mc_party_id x.2) (sort_by_key ((fun c => (mc_party_id c, c)) <$> mf_contributions f))) as Hk.
    { unfold sort_by_key. rewrite (merge_sort_Permutation key_le). apply Forall_fmap, Forall_forall. done. }
    pose proof (StronglySorted_merge_sort key_le ((fun c => (mc_party_id c, c)) <$> mf_contributions f)) as Hs. revert Hk Hs. unfold sort_by_key.
    generalize (merge_sort key_le ((fun c => (mc_party_id c, c)) <$> mf_contributions f)). intros l Hk Hs.
    induction Hs as [|x l Hs IH Hx]; [constructor|]. apply Forall_cons in Hk as [Hk Hkl]. rewrite fmap_cons. constructor; [by apply IH|].
    apply Forall_fmap. rewrite Forall_forall in Hx, Hkl |- *. intros y Hy. specialize (Hx y Hy). unfold key_le in Hx.
    cbn. by rewrite <- Hk, <- (Hkl y Hy).
Qed.

(** Identities by several parties: whatever contributions came in, repeated ones
    included, the parties of a factory are distinct; there is no identity below the
    threshold; from it on there is one, which names as participants exactly as many
    parties as the threshold asks for, the first ones by their ids, and is the same
    for every order in which the parties contributed. *)
Theorem mpc_identity_exact (chacha20 : bytes → bytes) (r : bytes) (t : nat) (app : string) (l l' : list MpcContribution) :
  (∀ seed, length (chacha20 seed) = 96%nat) →
  let f := collect l (Mpc.new t app) in
  NoDup (mc_party_id <$> mf_contributions f) ∧
  (if Mpc.threshold_met f then
     ∃ i s k, Mpc.create_identity chacha20 r f = Ok (i, s, k) ∧ id_name i = app ∧ gs_hash (id_master_genesis i) = Mpc.mpc_seed_share f ∧
       size (gs_participants (id_master_genesis i)) = t ∧
       ∀ p q, p ∈ gs_participants (id_master_genesis i) → q ∈ (mc_party_id <$> l) → q ∉ gs_participants (id_master_genesis i) → String.le p q
   else is_ok (Mpc.create_identity chacha20 r f) = false) ∧
  (NoDup (mc_party_id <$> l) → l ≡ₚ l' → Mpc.create_identity chacha20 r (collect l' (Mpc.new t app)) = Mpc.create_identity chacha20 r f).
Proof.
  intros Hch. cbv zeta. destruct (collect_invariant l (Mpc.new t app)) as (Hnd & Ht & Ha & Hin); [constructor|]. split_and!; [done| |].
  - set (f := collect l _) in *. unfold Mpc.create_identity. destruct (Mpc.threshold_met f) eqn:E; [|done]. cbn [negb].
    destruct (sorted_contributions_facts f Hnd) as [Hp Hs].
    unfold Sig.generate_from_entropy. rewrite bool_decide_eq_false_2 by (intros [? _]%app_eq_nil; by eapply blake3_nonempty).
    destruct (generate_keypair_from_seed chacha20 (blake3 (Mpc.mpc_seed_share f ++ str_bytes "key_derivation")) (Hch _)) as (pk & sk & -> & _).
    cbn [mbind outcome_bind fst snd]. unfold Kyber.generate_from_entropy, Kyber.generate_kyber_keypair_from_entropy.
    rewrite !length_app. rewrite (blake3_length _ : length (Mpc.mpc_seed_share f) = 32%nat).
    destruct (Nat.ltb_spec (32 + length (str_bytes "key_derivation") + length (str_bytes "kyber_specific")) 16) as [Hlt|_]; [lia|].
    rewrite checked_keypair_ok. cbn [mbind outcome_bind]. do 3 eexists. split; [reflexivity|]. cbn [Mpc.identity_of id_name id_master_genesis gs_hash gs_participants].
    split_and!; [done|done| |].
    + rewrite size_list_to_set.
      * rewrite length_fmap, length_take, (Permutation_length Hp). apply Nat.leb_le in E. cbn in Ht. lia.
      * eapply sublist_NoDup; [|apply fmap_sublist, sublist_take]. by rewrite Hp.
    + intros p q Hp1 Hq Hq1. rewrite elem_of_list_to_set, list_elem_of_fmap in Hp1. destruct Hp1 as (x & -> & Hx).
      assert (q ∈ (mc_party_id <$> mf_contributions f)) as Hqf by (apply Hin; by right). rewrite <- Hp, list_elem_of_fmap in Hqf.
      destruct Hqf as (y & -> & Hy). rewrite <- (take_drop (mf_threshold f) (Mpc.sorted_contributions f)) in Hy.
      apply elem_of_app in Hy as [Hy|Hy]; [destruct Hq1; apply elem_of_list_to_set, list_elem_of_fmap; by exists y|].
      exact (sorted_take_drop _ _ _ _ _ Hs Hx Hy).
  - intros Hl Hp. rewrite !collect_fresh by (cbn; by rewrite <- ?Hp). cbn. by apply create_identity_perm; cbn; rewrite <- ?Hp.
Qed.

(** Once the threshold is met, a party whose id comes after all others changes
    nothing, and one whose id comes before all others is put first, ahead of the
    parties that met the threshold without it. *)
Theorem mpc_ids_decide (chacha20 : bytes → bytes) (r : bytes) (f : MpcIdentityFactory) (c : MpcContribution) :
  NoDup (mc_party_id <$> mf_contributions f) → mc_party_id c ∉ (mc_party_id <$> mf_contributions f) → Mpc.threshold_met f = true →
  (Forall (fun x => String.le (mc_party_id x) (mc_party_id c)) (mf_contributions f) →
     Mpc.create_identity chacha20 r (collect [c] f) = Mpc.create_identity chacha20 r f) ∧
  (Forall (fun x => String.le (mc_party_id c) (mc_party_id x)) (mf_contributions f) →
     Mpc.sorted_contributions (collect [c] f) = c :: Mpc.sorted_contributions f).
Proof.
  intros Hnd Hc Ht. destruct (sorted_contributions_facts f Hnd) as [Hp Hs].
  assert (NoDup (mc_party_id <$> (mf_contributions f ++ [c]))) as Hnd'.
  { rewrite fmap_app. apply NoDup_app. split_and!; [done|set_solver|apply NoDup_singleton]. }
  rewrite collect_fresh by done. set (f' := mkMpcFactory _ _ _).
  destruct (sorted_contributions_facts f' Hnd') as [Hp' Hs'].
  assert (∀ l, l ≡ₚ mf_contributions f' → StronglySorted (fun a b => String.le (mc_party_id a) (mc_party_id b)) l →
    Mpc.sorted_contributions f' = l) as Huniq.
  { intros l Hl Hsl.
    assert (((fun c => (mc_party_id c, c)) <$> Mpc.sorted_contributions f') = ((fun c => (mc_party_id c, c)) <$> l)) as E.
    { apply sorted_key_unique; [by eapply (StronglySorted_fmap _ (fun a b => String.le (mc_party_id a) (mc_party_id b)))..| |by rewrite Hp', Hl].
      rewrite <- list_fmap_compose, Hp'. exact Hnd'. }
    apply (f_equal (fmap snd)) in E. rewrite <- !list_fmap_compose in E.
    change (snd ∘ (fun c => (mc_party_id c, c))) with (fun c : MpcContribution => c) in E. by rewrite !list_fmap_id in E. }
  split; intros Hle.
  - unfold Mpc.create_identity, Mpc.mpc_seed_share.
    assert (Mpc.sorted_contributions f' = Mpc.sorted_contributions f ++ [c]) as ->.
    { apply Huniq; [by rewrite Hp|]. apply StronglySorted_app_2; [|done|by constructor; constructor].
      intros x y Hx ->%list_elem_of_singleton. rewrite Forall_forall in Hle. apply Hle. by rewrite <- Hp. }
    unfold Mpc.threshold_met in *. cbn [mf_threshold mf_contributions mf_app_id f'].
    apply Nat.leb_le in Ht. rewrite take_app_le by (rewrite (Permutation_length Hp); lia).
    rewrite length_app. rewrite !(proj2 (Nat.leb_le _ _)) by lia. done.
  - apply Huniq; [rewrite Hp; cbn; by rewrite Permutation_app_comm|]. constructor; [done|]. by rewrite Hp.
Qed.

(** ** Device bindings *)

(** A binding verifies for the application and the seed it was made for, and for
    no other pair, unless the inputs of the two device hashes collide. *)
Theorem binding_verifies (secs nanos pid : Z) (random : bytes) (app app' : string) (seed seed' : bytes) (s : SignatureKeyPair) (k : KyberKeyPair)
    (b : QuantumResistantBinding) :
  Binding.new secs nanos pid random app seed s k = Ok b →
  Binding.verify b app seed = Ok true ∧
  (Binding.verify b app' seed' = Ok true → (app' = app ∧ seed' = seed) ∨
    collision blake3 [seed ++ str_bytes app ++ qb_device_salt b; seed' ++ str_bytes app' ++ qb_device_salt b]) ∧
  is_ok (Binding.verify b app' seed') = true.
Proof.
  unfold Binding.new. intros <-%Ok_inj. unfold Binding.verify. cbn [qb_device_hash qb_app_id qb_device_salt]. split_and!.
  - by rewrite !bool_decide_eq_true_2.
  - case_bool_decide as Hh; [|done]. case_bool_decide as Ha; [|done]. intros _. subst app'.
    apply hash_bind in Hh as [Hh|]; [left|by right]. split; [done|]. by apply app_inv_tail in Hh.
  - by repeat case_bool_decide.
Qed.

(** Attestations: with no additional entropy an attestation made with generated
    keys verifies under the public key, and with any it is refused by the binding
    that made it, unless the attested data collides with itself without that
    entropy; another binding refuses it when its
    device hash differs. *)
Theorem attestation_verifies_without_entropy (chacha20 : bytes → bytes) (random entropy seed_k extra : bytes) (clock : Z) (r : bytes)
    (b b' : QuantumResistantBinding) (s : SignatureKeyPair) :
  length random = 96%nat → (∀ seed, length (chacha20 seed) = 96%nat) →
  Sig.generate random = Ok s ∨ Sig.generate_from_entropy chacha20 entropy = Ok s →
  let k := mkKyberKeyPair (kem_keypair seed_k).1 (kem_keypair seed_k).2 in
  ∃ a, Binding.create_attestation (Some clock) r b s k extra = Ok a ∧
    (extra = [] → Binding.verify_attestation b a (sk_public_key s) = Ok true) ∧
    (extra ≠ [] → ∀ pk, Binding.verify_attestation b a pk = Ok false ∨
      collision blake3 [u64_be clock ++ qb_device_hash b ++ extra; u64_be clock ++ qb_device_hash b]) ∧
    (qb_device_hash b' ≠ qb_device_hash b → ∀ pk, Binding.verify_attestation b' a pk = Ok false).
Proof.
  intros Hr Hch Hs. cbv zeta. unfold Binding.create_attestation. cbn [ok_or mbind outcome_bind].
  assert (∀ x, u64_be clock ++ x ≠ []) as Hne.
  { intros x [E _]%app_eq_nil. apply (f_equal length) in E. unfold u64_be in E. by rewrite length_rev, length_le_bytes in E. }
  pose proof (keypairs_sign chacha20 random entropy (u64_be clock ++ qb_device_hash b ++ extra) s Hr Hch Hs) as Hk.
  rewrite bool_decide_eq_false_2 in Hk by apply Hne. destruct Hk as (sg & E & _ & _ & Hv). rewrite E. cbn [mbind outcome_bind].
  unfold Kyber.encapsulate. rewrite kyber_encapsulate_ok by apply kem_pk_length. cbn [mbind outcome_bind].
  eexists. split; [reflexivity|]. unfold Binding.verify_attestation. cbn [at_device_hash at_timestamp at_verification_entropy at_signature].
  split_and!.
  - intros ->. rewrite app_nil_r in *. by rewrite !bool_decide_eq_true_2.
  - intros Hex pk. rewrite (bool_decide_eq_true_2 (qb_device_hash b = _)) by done. cbn [negb]. case_bool_decide as Hh; [right|by left].
    apply hash_bind in Hh as [Hh|]; [|done]. apply app_inv_head in Hh. exfalso. apply Hex.
    apply (app_inv_head (qb_device_hash b)). by rewrite Hh, app_nil_r.
  - intros Hd pk. by rewrite bool_decide_eq_false_2 by congruence.
Qed.

End MpcFacts.

(** ** Witnesses *)

Module MpcWitness.
#[local] Existing Instances Toy.toy_blake3 Toy.toy_runtime ToyKem.toy_kem768 ToyHex.toy_hex.

Definition part (p : string) : MpcContribution := Mpc.new_contribution [Byte.x01] [Byte.x02] p.
Definition stream : bytes → bytes := fun _ => zeros 96.

Lemma mpc_identity_exact_witness :
  ∃ i s k, Mpc.create_identity stream [] (collect [part "b"; part "a"; part "b"; part "c"] (Mpc.new 2 "app")) = Ok (i, s, k) ∧
    size (gs_participants (id_master_genesis i)) = 2%nat.
Proof.
  destruct (mpc_identity_exact stream [] 2 "app" [part "b"; part "a"; part "b"; part "c"] [] (fun _ => eq_refl)) as (_ & H & _).
  destruct H as (i & s & k & H1 & _ & _ & H2 & _). exists i, s, k. split; [exact H1|exact H2].
Defined.

Definition two_parties : MpcIdentityFactory := collect [part "b"; part "c"] (Mpc.new 2 "app").

Lemma mpc_ids_decide_witness :
  Mpc.create_identity stream [] (collect [part "d"] two_parties) = Mpc.create_identity stream [] two_parties ∧
  Mpc.sorted_contributions (collect [part "a"] two_parties) = part "a" :: Mpc.sorted_contributions two_parties.
Proof.
  split.
  - apply (mpc_ids_decide stream [] two_parties (part "d")); [apply (bool_decide_unpack _); vm_compute; exact I..|reflexivity|].
    apply (bool_decide_unpack _); vm_compute; exact I.
  - apply (mpc_ids_decide stream [] two_parties (part "a")); [apply (bool_decide_unpack _); vm_compute; exact I..|reflexivity|].
    apply (bool_decide_unpack _); vm_compute; exact I.
Defined.

Definition keys : SignatureKeyPair := match Sig.generate (zeros 96) with Ok k => k | _ => mkSignatureKeyPair [] [] end.
Lemma keys_generated : Sig.generate (zeros 96) = Ok keys.
Proof.
  unfold keys. destruct (generate_keypair (zeros 96) eq_refl) as (pk & sk & E & _). unfold Sig.generate. by rewrite E.
Qed.
Definition kyber : KyberKeyPair := mkKyberKeyPair (kem_keypair []).1 (kem_keypair []).2.

Lemma binding_verifies_witness :
  ∃ b, Binding.new 1 2 3 [] "app" [Byte.x01] keys kyber = Ok b ∧ Binding.verify b "app" [Byte.x01] = Ok true.
Proof.
  eexists. split; [reflexivity|]. exact (proj1 (binding_verifies 1 2 3 [] "app" "app" [Byte.x01] [] keys kyber _ eq_refl)).
Defined.

Lemma attestation_verifies_without_entropy_witness :
  ∃ b a, Binding.create_attestation (Some 7) [] b keys kyber [] = Ok a ∧ Binding.verify_attestation b a (sk_public_key keys) = Ok true.
Proof.
  set (b := mkBinding [Byte.x05] (sk_public_key keys) (kp_public_key kyber) "app" []).
  destruct (attestation_verifies_without_entropy stream (zeros 96) [] [] [] 7 [] b b keys eq_refl (fun _ => eq_refl) (or_introl keys_generated))
    as (a & H1 & H2 & _).
  exists b, a. split; [exact H1|exact (H2 eq_refl)].
Defined.
End MpcWitness.
