(* ===== verification/Sdk.v ===== *)
(** * The SDK: hash chain, core and tokens
      (dsm_sdk/src/sdk/hashchain_sdk.rs, core_sdk.rs, token_sdk.rs)

    [ChainSDK] is [HashChainSDK]: a hash chain, a state machine of its own and
    a Merkle tree rebuilt after every change.  [Core] is [CoreSDK]: a second
    state machine whose new states are handed to the chain.  [TokSDK] is [TokenSDK]:
    balances, the ROOT token and the history kept beside the chain.  The
    identity component that the core only hands out is not part of the state. *)
From S2P Require Import Prelude Tokens Operations SparseIdx States RandomWalk Transition Relationship Machine Merkle Batch HashChain Policy TokenState Sphincs Precommit NodeTypes Float.

Record HashChainSDK := mkHashChainSDK {
  hs_hash_chain : HashChain;
  hs_state_machine : StateMachine;
  hs_merkle_tree : option SparseMerkleTree;
}.

(** [cs_token_manager] tells whether a token manager is registered. *)
Record CoreSDK := mkCoreSDK {
  cs_hash_chain_sdk : HashChainSDK;
  cs_state_machine : StateMachine;
  cs_token_manager : bool;
}.

(** ** [HashChainSDK] *)

Module ChainSDK.
Section ChainSDK.
Context {B3 : Blake3} {RT : Runtime}.
Context {SO : Bincode Operation} {SB : Bincode Balance} {SP : Bincode PreCommitment}.
Context {ST : Bincode StateTransition} {SS : Bincode State} (deserialize_proof : bytes → option MerkleProof).

Definition new : HashChainSDK := mkHashChainSDK HC.new SM.new None.

Definition set_machine (m : StateMachine) (s : HashChainSDK) : HashChainSDK :=
  mkHashChainSDK (hs_hash_chain s) m (hs_merkle_tree s).
Definition set_tree (t : SparseMerkleTree) (s : HashChainSDK) : HashChainSDK :=
  mkHashChainSDK (hs_hash_chain s) (hs_state_machine s) (Some t).
Definition on_chain {A} (op : M HashChain A) : M HashChainSDK A := fun s =>
  let '(o, c) := op (hs_hash_chain s) in (o, mkHashChainSDK c (hs_state_machine s) (hs_merkle_tree s)).

(** [while let Ok(state) = hash_chain.get_state_by_number(n)]: the loop ends at
    the first number beyond the current state's. *)
Fixpoint collect (fuel : nat) (c : HashChain) (n : Z) : outcome (list State) :=
  match fuel with
  | O => Hang
  | S fuel =>
      match HC.get_state_by_number c n with
      | Ok s =>
          next ← u64_add n 1;
          rest ← collect fuel c next;
          Ok (s :: rest)
      | Err _ => Ok []
      | Panic => Panic
      | Hang => Hang
      end
  end.
Definition chain_fuel (c : HashChain) : nat :=
  match hc_current c with Some cur => S (S (Z.to_nat (state_number cur))) | None => 1 end.

Fixpoint leaf_values (l : list State) : outcome (list (Z * bytes)) :=
  match l with
  | [] => Ok []
  | s :: l =>
      b ← serialize_or "Bincode serialization error" s;
      rest ← leaf_values l;
      Ok ((state_number s, blake3 b) :: rest)
  end.

(** The leaves go into the map; neither the root nor the number of leaves of the
    new tree is computed. *)
Definition build_tree (l : list (Z * bytes)) : SparseMerkleTree :=
  foldl (fun t '(i, h) => mkSMT (smt_root t) (<[i := h]> (smt_leaves t)) (smt_nodes t) (smt_height t) (smt_leaf_count t))
    (Plain.new 32) l.

Definition regenerate_merkle_tree : M HashChainSDK unit :=
  let* s := mget in
  let* states := mlift (collect (chain_fuel (hs_hash_chain s)) (hs_hash_chain s) 0) in
  let* leaves := mlift (leaf_values states) in
  mmod (set_tree (build_tree leaves)).

Definition initialize_with_genesis (genesis : State) : M HashChainSDK unit :=
  if negb (state_number genesis =? 0) then mfail (EValidation "Cannot initialize hash chain with non-genesis state")
  else
    do* on_chain (HC.add_state genesis);
    do* mmod (fun s => set_machine (SM.set_state genesis (hs_state_machine s)) s);
    regenerate_merkle_tree.

Definition add_state (state : State) : M HashChainSDK unit :=
  do* on_chain (HC.add_state state);
  do* mmod (fun s =>
    match current_state (hs_state_machine s) with
    | None => set_machine (SM.set_state state (hs_state_machine s)) s
    | Some cur => if state_number cur <? state_number state then set_machine (SM.set_state state (hs_state_machine s)) s else s
    end);
  regenerate_merkle_tree.

Definition verify_chain (s : HashChainSDK) : outcome bool := HC.verify_chain (hs_hash_chain s).
Definition verify_state (s : HashChainSDK) (state : State) : outcome bool := SM.verify_state (hs_state_machine s) state.
Definition get_state_by_number (s : HashChainSDK) (n : Z) : outcome State := HC.get_state_by_number (hs_hash_chain s) n.

(** The path of the proof is empty. *)
Definition generate_state_proof (s : HashChainSDK) (n : Z) : outcome MerkleProof :=
  state ← HC.get_state_by_number (hs_hash_chain s) n;
  state_data ← serialize_or "Bincode serialization error" state;
  tree ← ok_or (EMerkle "Merkle tree not initialized") (hs_merkle_tree s);
  Ok (SMT.proof_new (mkProofParams [] n (blake3 state_data) (smt_root tree) (smt_height tree) (smt_leaf_count tree)
        EmptyString [] (mkSparse [0]) [] [] Bilateral [])).

Definition verify_state_proof (s : HashChainSDK) (state_data proof root_hash : bytes) : outcome bool :=
  if (length state_data <? 8)%nat then Err (EValidation "Invalid state data for proof verification")
  else
    tree ← ok_or (EMerkle "Merkle tree not initialized") (hs_merkle_tree s);
    if negb (bool_decide (smt_root tree = root_hash)) then Ok false
    else
      p ← ok_or (EMerkle "Failed to deserialize proof: {}") (deserialize_proof proof);
      Ok (Plain.verify p).

Definition current_state (s : HashChainSDK) : option State := Machine.current_state (hs_state_machine s).
Definition merkle_root (s : HashChainSDK) : outcome bytes :=
  match hs_merkle_tree s with Some t => Ok (smt_root t) | None => Err (EMerkle "Merkle tree not initialized") end.

Definition create_operation (entropy : bytes) : outcome Operation :=
  Ok (Generic "create" entropy ("Create hashchain with entropy length " +:+ pretty (length entropy))).
Definition update_operation (entropy : bytes) : outcome Operation :=
  Ok (Generic "update" entropy ("Update hashchain with entropy length " +:+ pretty (length entropy))).
Definition add_relationship_operation (entropy : bytes) (counterparty_id : string) : outcome Operation :=
  Ok (Generic "add_relationship" entropy
        ("Add relationship with " +:+ counterparty_id +:+ " using entropy length " +:+ pretty (length entropy))).
Definition recovery_operation (n : Z) (state_hash state_entropy : bytes) : outcome Operation :=
  next ← u64_add n 1;
  Ok (Recovery ("Recover hashchain state " +:+ pretty n) n state_hash state_entropy [] [] next [] [] [] []).

End ChainSDK.
End ChainSDK.

(** ** [CoreSDK] *)

Module Core.
Section Core.
Context {B3 : Blake3} {RT : Runtime}.
Context {SO : Bincode Operation} {SB : Bincode Balance} {SP : Bincode PreCommitment}.
Context {ST : Bincode StateTransition} {SS : Bincode State}.

Definition new : CoreSDK := mkCoreSDK ChainSDK.new SM.new false.

Definition on_chain_sdk {A} (op : M HashChainSDK A) : M CoreSDK A := fun c =>
  let '(o, h) := op (cs_hash_chain_sdk c) in (o, mkCoreSDK h (cs_state_machine c) (cs_token_manager c)).
Definition on_machine {A} (op : M StateMachine A) : M CoreSDK A := fun c =>
  let '(o, m) := op (cs_state_machine c) in (o, mkCoreSDK (cs_hash_chain_sdk c) m (cs_token_manager c)).

Definition register_token_manager (c : CoreSDK) : CoreSDK := mkCoreSDK (cs_hash_chain_sdk c) (cs_state_machine c) true.

Definition initialize_with_genesis (genesis : State) : M CoreSDK unit :=
  if negb (state_number genesis =? 0) then mfail (EValidation "Cannot initialize with non-genesis state")
  else
    do* on_chain_sdk (ChainSDK.initialize_with_genesis genesis);
    on_machine (mmod (SM.set_state genesis)).

(** [manager] is the answer of the registered manager. *)
Definition verify_token_conservation (manager : option (outcome bool)) : outcome bool :=
  match manager with Some o => o | None => Ok true end.
Definition verify_system_integrity (c : CoreSDK) (manager : option (outcome bool)) : outcome bool :=
  chain_integrity ← ChainSDK.verify_chain (cs_hash_chain_sdk c);
  token_conservation ← verify_token_conservation manager;
  Ok (chain_integrity && token_conservation).

Definition create_operation_with_identity (identity_data : bytes) : outcome Operation :=
  Ok (Create "Create new state" identity_data [] [] [] [] Bilateral).
Definition update_operation : outcome Operation := Ok (Update "Update state" "default" [] [] None).
Definition generic_operation (operation_type : string) (data : bytes) : outcome Operation :=
  Ok (Generic operation_type data ("Generic operation: " +:+ operation_type)).

Definition get_current_state (c : CoreSDK) : outcome State :=
  ok_or (EState "No current state available") (ChainSDK.current_state (cs_hash_chain_sdk c)).
Definition get_state_by_number (c : CoreSDK) (n : Z) : outcome State := ChainSDK.get_state_by_number (cs_hash_chain_sdk c) n.

(** When the chain refuses the new state, the machine has moved on already. *)
Definition execute_transition (op : Operation) : M CoreSDK State :=
  let* new_state := on_machine (SM.execute_transition op) in
  do* on_chain_sdk (ChainSDK.add_state new_state);
  mret_st new_state.

Definition create_initial_state (device_info : DeviceInfo) : outcome State :=
  Ok (St.new (St.with_prev_state_hash
        (St.params_new 0 (zeros 32) (Create "Initial state creation" [] [] [] [] [] Bilateral) device_info) (zeros 32))).

End Core.
End Core.

(** ** [TokenSDK] *)

Inductive TokenOperation :=
  | TCreate (metadata : TokenMetadata) (supply : TokenSupply) (fee : Z)
  | TTransfer (token_id recipient : string) (amount : Z) (memo : option string)
  | TMint (token_id recipient : string) (amount : Z)
  | TBurn (token_id : string) (amount : Z)
  | TLock (token_id : string) (amount : Z) (purpose : string)
  | TUnlock (token_id : string) (amount : Z) (purpose : string).

(** [CreateTokenParams] of token_sdk.rs *)
Record TokenParams := mkTokenParams {
  tpa_authorized_by : string;
  tpa_proof : bytes;
  tpa_identity_data : bytes;
  tpa_metadata : gmap string bytes;
  tpa_commitment : bytes;
}.

Record RootToken := mkRootToken {
  rt_token_id : string;
  rt_metadata : TokenMetadata;
  rt_status : TokenStatus;
  rt_total_supply : Balance;
  rt_circulating_supply : Balance;
  rt_fee_schedule : gmap string Balance;
}.

Abbreviation Balances := (gmap string (gmap string Balance)).

Record TokenSDK := mkTokenSDK {
  tk_core : CoreSDK;
  tk_token_metadata : gmap string TokenMetadata;
  tk_root_token : RootToken;
  tk_balances : Balances;
  tk_history : list (TokenOperation * Z);
}.

(** [str::split] with a non-empty separator. *)
Fixpoint str_split (fuel : nat) (sep s : string) : list string :=
  match fuel with
  | O => [s]
  | S fuel =>
      match String.index 0 sep s with
      | Some i => String.substring 0 i s :: str_split fuel sep (String.substring (i + String.length sep) (String.length s) s)
      | None => [s]
      end
  end.
(** [s.split(key).nth(1)] and [split_whitespace().next()] on ASCII text. *)
Definition after (key s : string) : option string := str_split (S (String.length s)) key s !! 1%nat.
Fixpoint word (s : string) : string :=
  match s with
  | EmptyString => EmptyString
  | String c s => if is_space c then EmptyString else String c (word s)
  end.
Definition first_word (s : string) : option string :=
  match word (trim_start s) with EmptyString => None | w => Some w end.
(** [parse::<u8>()] *)
Definition parse_u8 (s : string) : option Z := d ← parse_u64 s; if d <=? 255 then Some d else None.

Module TokSDK.
Section TokSDK.
Context {B3 : Blake3} {RT : Runtime} {DO : DashOrder}.
Context {SO : Bincode Operation} {SB : Bincode Balance} {SP : Bincode PreCommitment}.
Context {ST : Bincode StateTransition} {SS : Bincode State} {UR : Unbincode (gmap string TokenMetadata)}.

Definition root_description : string := "Resilient Oracle-Optimized Trustless token - the native token of the DSM ecosystem".

Definition root_new (total_supply : Z) : RootToken :=
  let fields : gmap string string :=
    {[ "ecosystem" := "DSM"; "governance_model" := "meritocratic"; "version" := "1.0"; "token_standard" := "DSM-20" ]}%string in
  let fee_schedule : gmap string Balance :=
    {[ "token_creation"%string := Bal.new 10; "token_update"%string := Bal.new 5; "token_transfer"%string := Bal.new 1;
       "token_burn"%string := Bal.new 1; "subscription_base"%string := Bal.new 5; "state_transition"%string := Bal.new 1;
       "smart_commitment"%string := Bal.new 2 ]} in
  let metadata := mkMetadata "ROOT" "ROOT" "ROOT" 18 Native "system" now (Some "ipfs://QmTokenMetadataHash"%string)
                    (Some root_description) None (Some "dsm:policy:root-token-v1"%string) fields in
  mkRootToken "ROOT" metadata TokenState.Active (Bal.new total_supply) (Bal.new 0) fee_schedule.

Definition get_fee (r : RootToken) (operation_type : string) : Balance := unwrap_or (Bal.new 1) (rt_fee_schedule r !! operation_type).
Definition update_fee_schedule (schedule : gmap string Balance) (r : RootToken) : RootToken :=
  mkRootToken (rt_token_id r) (rt_metadata r) (rt_status r) (rt_total_supply r) (rt_circulating_supply r) schedule.
Definition set_circulating (b : Balance) (r : RootToken) : RootToken :=
  mkRootToken (rt_token_id r) (rt_metadata r) (rt_status r) (rt_total_supply r) b (rt_fee_schedule r).

Definition new (core : CoreSDK) : TokenSDK := mkTokenSDK core ∅ (root_new 1000000000) ∅ [].

Definition set_metadata (m : gmap string TokenMetadata) (t : TokenSDK) : TokenSDK :=
  mkTokenSDK (tk_core t) m (tk_root_token t) (tk_balances t) (tk_history t).
Definition set_root (r : RootToken) (t : TokenSDK) : TokenSDK :=
  mkTokenSDK (tk_core t) (tk_token_metadata t) r (tk_balances t) (tk_history t).
Definition set_balances (b : Balances) (t : TokenSDK) : TokenSDK :=
  mkTokenSDK (tk_core t) (tk_token_metadata t) (tk_root_token t) b (tk_history t).
Definition record_history (op : TokenOperation) (t : TokenSDK) : TokenSDK :=
  mkTokenSDK (tk_core t) (tk_token_metadata t) (tk_root_token t) (tk_balances t) (tk_history t ++ [(op, now)]).

Definition on_core {A} (op : M CoreSDK A) : M TokenSDK A := fun t =>
  let '(o, c) := op (tk_core t) in
  (o, mkTokenSDK c (tk_token_metadata t) (tk_root_token t) (tk_balances t) (tk_history t)).
Definition execute_transition (op : Operation) : M TokenSDK State := on_core (Core.execute_transition op).
Definition current_state : M TokenSDK State :=
  let* t := mget in mlift (Core.get_current_state (tk_core t)).

(** ** Balances *)

Definition balance_of (b : Balances) (address token_id : string) : option Balance := b !! address ≫= fun m => m !! token_id.
Definition put_balance (address token_id : string) (x : Balance) (b : Balances) : Balances :=
  <[address := <[token_id := x]> (unwrap_or ∅ (b !! address))]> b.

(** [.entry(..).or_default().entry(..).and_modify(..).or_insert_with(..)]; the
    sum overflows only when the entry exists. *)
Definition credit (make : Z → Balance) (address token_id : string) (amount : Z) : M TokenSDK unit :=
  let* t := mget in
  let* value := mlift (match balance_of (tk_balances t) address token_id with
                       | Some x => u64_add (bal_value x) amount
                       | None => Ok amount
                       end) in
  mmod (set_balances (put_balance address token_id (make value) (tk_balances t))).

(** A missing entry is left as it is. *)
Definition debit (msg address token_id : string) (amount : Z) : M TokenSDK unit :=
  let* t := mget in
  match balance_of (tk_balances t) address token_id with
  | Some x =>
      if bal_value x <? amount then mfail (EValidation msg)
      else mmod (set_balances (put_balance address token_id (Bal.new (bal_value x - amount)) (tk_balances t)))
  | None => mret_st tt
  end.

(** The sender's part of [execute_token_operation]: a missing entry starts at
    1000 and stays when the balance does not suffice. *)
Definition debit_linked (hash : bytes) (address token_id : string) (amount : Z) : M TokenSDK unit :=
  do* mmod (fun t => match balance_of (tk_balances t) address token_id with
                     | Some _ => t
                     | None => set_balances (put_balance address token_id (Bal.new 1000) (tk_balances t)) t
                     end);
  let* t := mget in
  let* x := mlift (unwrap (balance_of (tk_balances t) address token_id)) in
  if bal_value x <? amount then mfail (EValidation "Insufficient balance for transfer")
  else mmod (set_balances (put_balance address token_id (Bal.from_state (bal_value x - amount) hash) (tk_balances t))).

(** ROOT may not be minted beyond its supply. *)
Definition check_root_supply (token_id : string) (amount : Z) : M TokenSDK unit :=
  if bool_decide (token_id = "ROOT"%string) then
    let* t := mget in
    let* sum := mlift (u64_add (bal_value (rt_circulating_supply (tk_root_token t))) amount) in
    if bal_value (rt_total_supply (tk_root_token t)) <? sum then mfail (EValidation "Minting would exceed total ROOT supply")
    else mret_st tt
  else mret_st tt.
Definition add_circulating (token_id : string) (amount : Z) : M TokenSDK unit :=
  if bool_decide (token_id = "ROOT"%string) then
    let* t := mget in
    let* sum := mlift (u64_add (bal_value (rt_circulating_supply (tk_root_token t))) amount) in
    mmod (set_root (set_circulating (Bal.new sum) (tk_root_token t)))
  else mret_st tt.
Definition sub_circulating (token_id : string) (amount : Z) : M TokenSDK unit :=
  if bool_decide (token_id = "ROOT"%string) then
    mmod (fun t => set_root (set_circulating (Bal.new (saturating_sub (bal_value (rt_circulating_supply (tk_root_token t))) amount))
                               (tk_root_token t)) t)
  else mret_st tt.

(** ** Operations *)

Definition transfer_operation (amount : Z) (token_id recipient message : string) (mode : TransactionMode) (nonce : bytes)
    (pre_commit : option PreCommitmentOp) : Operation :=
  Transfer recipient (Bal.new amount) token_id mode nonce VT_Standard pre_commit recipient recipient message.

Definition execute_generic_token_operation (operation : TokenOperation) : M TokenSDK State :=
  do* current_state;
  match operation with
  | TTransfer token_id recipient amount _ =>
      let* s := current_state in
      let sender := dev_device_id (device_info s) in
      let* new_state := execute_transition
        (transfer_operation amount token_id recipient "Transfer operation via TokenSDK" Bilateral [] None) in
      do* debit "Insufficient balance for transfer" sender token_id amount;
      do* credit Bal.new recipient token_id amount;
      do* mmod (record_history operation);
      mret_st new_state
  | TMint token_id recipient amount =>
      do* check_root_supply token_id amount;
      let* new_state := execute_transition (Mint (Bal.new amount) token_id "authority" [] "Mint operation via TokenSDK") in
      do* credit Bal.new recipient token_id amount;
      do* add_circulating token_id amount;
      do* mmod (record_history operation);
      mret_st new_state
  | TBurn token_id amount =>
      let* s := current_state in
      let owner_id := dev_device_id (device_info s) in
      let* new_state := execute_transition (Burn (Bal.new amount) token_id [] "Burn operation via TokenSDK") in
      do* debit "Insufficient balance for burn operation" owner_id token_id amount;
      do* sub_circulating token_id amount;
      do* mmod (record_history operation);
      mret_st new_state
  | TCreate _ _ _ => mfail (ECrypto "Create operation not supported")
  | TLock _ _ _ => mfail (EValidation "Lock operation not supported")
  | TUnlock _ _ _ => mfail (EValidation "Unlock operation not supported")
  end.

Definition validate_token_operation (operation : TokenOperation) : outcome unit :=
  match operation with
  | TTransfer _ _ amount _ | TBurn _ amount | TMint _ _ amount =>
      if amount =? 0 then Err (EValidation "Amount must be positive") else Ok tt
  | TCreate _ _ _ => Err (EValidation "Token creation requires proper authorization")
  | TLock _ _ _ | TUnlock _ _ _ => Err (EValidation "Lock/Unlock operations not yet implemented")
  end.

(** [total_root_balance] *)
Definition total_root (b : Balances) : Z :=
  foldl (fun total p => match p.2 !! "ROOT"%string with
                        | Some x => saturating_add total (bal_value x)
                        | None => total
                        end) 0 (dash_iter b).
Definition validate_token_conservation (t : TokenSDK) : outcome bool :=
  let circulating := bal_value (rt_circulating_supply (tk_root_token t)) in
  Ok ((total_root (tk_balances t) =? circulating) && (circulating <=? bal_value (rt_total_supply (tk_root_token t)))).

(** [nonce] is what the generator draws. *)
Definition execute_token_operation (nonce : bytes) (operation : TokenOperation) : M TokenSDK State :=
  match operation with
  | TTransfer token_id recipient amount memo =>
      let* s := current_state in
      let sender := dev_device_id (device_info s) in
      do* mlift (validate_token_operation operation);
      let message := unwrap_or ("Transfer " +:+ pretty amount +:+ " tokens to " +:+ recipient) memo in
      let* new_state := execute_transition (transfer_operation amount token_id recipient message Unilateral nonce None) in
      do* debit_linked (hash new_state) sender token_id amount;
      do* credit (fun v => Bal.from_state v (hash new_state)) recipient token_id amount;
      do* mmod (record_history operation);
      let* t := mget in
      do* mlift (validate_token_conservation t);
      mret_st new_state
  | TMint token_id recipient amount =>
      do* check_root_supply token_id amount;
      let* new_state := execute_transition
        (Mint (Bal.new amount) token_id "treasury" [] ("Mint " +:+ pretty amount +:+ " tokens to " +:+ recipient)) in
      do* credit (fun v => Bal.from_state v (hash new_state)) recipient token_id amount;
      do* add_circulating token_id amount;
      do* mmod (record_history operation);
      mret_st new_state
  | _ => execute_generic_token_operation operation
  end.

Definition calculate_fee (t : TokenSDK) (operation_type : string) : Balance := get_fee (tk_root_token t) operation_type.
Definition process_fee_payment (from_address operation_type : string) : M TokenSDK State :=
  let* t := mget in
  execute_generic_token_operation
    (TTransfer "ROOT" "system.fee.address" (bal_value (calculate_fee t operation_type)) (Some "Fee payment"%string)).

Definition create_root_transfer (t : TokenSDK) (from_address to_address : string) (amount : Z) : outcome TokenOperation :=
  match tk_balances t !! from_address with
  | Some m =>
      match m !! "ROOT"%string with
      | Some x =>
          if bal_value x <? amount then Err (EValidation "Insufficient ROOT balance for transfer: have {}, need {}")
          else Ok (TTransfer "ROOT" to_address amount (Some "Root token transfer"%string))
      | None => Err (EValidation "No ROOT balance found for sender")
      end
  | None => Err (EValidation "No balances found for sender")
  end.

(** The cache first, then the state under the two forms of the key. *)
Definition get_token_balance (address token_id : string) (t : TokenSDK) : Balance * TokenSDK :=
  match balance_of (tk_balances t) address token_id with
  | Some x => (x, t)
  | None =>
      match Core.get_current_state (tk_core t) with
      | Ok s =>
          match token_balances s !! (address +:+ "." +:+ token_id) with
          | Some x => (x, set_balances (put_balance address token_id x (tk_balances t)) t)
          | None =>
              match token_balances s !! token_id with
              | Some x => (x, set_balances (put_balance address token_id x (tk_balances t)) t)
              | None => (Bal.new 0, t)
              end
          end
      | _ => (Bal.new 0, t)
      end
  end.
Definition has_sufficient_root (address : string) (required : Z) (t : TokenSDK) : bool * TokenSDK :=
  let '(x, t) := get_token_balance address "ROOT" t in (required <=? bal_value x, t).
Definition get_balance : M TokenSDK Balance :=
  let* s := current_state in
  let account := if bool_decide (st_id s = EmptyString) then "system"%string else st_id s in
  fun t => let '(x, t) := get_token_balance account "ROOT" t in (Ok x, t).

Definition verify_operation_feasibility (from_address : string) (operation : TokenOperation) (operation_type : string) : M TokenSDK unit :=
  let* t := mget in
  let fee := bal_value (calculate_fee t operation_type) in
  let* required := mlift (match operation with
                          | TTransfer _ _ amount _ | TBurn _ amount => u64_add amount fee
                          | _ => Ok fee
                          end) in
  fun t =>
    let '(ok, t) := has_sufficient_root from_address required t in
    if ok : bool then (Ok tt, t) else (Err (EValidation "Insufficient ROOT balance for operation and fee. Required: {}"), t).

(** [(fee as f64 * (1.0 + network_load * 0.1)) as u64] *)
Definition adjusted_fee (network_load : f64) (fee : Balance) : Balance :=
  Bal.new (f64_to_u64 (f64_mul (f64_of_Z (bal_value fee)) (f64_add (f64_of_Z 1) (f64_mul network_load (f64_lit 1 10))))).
Definition adjust_fees (network_load : f64) (t : TokenSDK) : TokenSDK :=
  set_root (update_fee_schedule (adjusted_fee network_load <$> rt_fee_schedule (tk_root_token t)) (tk_root_token t)) t.

Definition create_transfer_operation (recipient : string) (amount : Balance) (token_id message : string) (use_bilateral : bool)
    : outcome Operation :=
  Ok (Transfer recipient amount token_id (if use_bilateral then Bilateral else Unilateral) [] VT_Standard None recipient recipient message).
Definition create_token_operation (p : TokenParams) : outcome Operation :=
  Ok (Create "Token creation operation" (tpa_identity_data p) [] (concat (map snd (dash_iter (tpa_metadata p))))
        (tpa_commitment p) (tpa_proof p) Bilateral).
Definition transfer_token_operation (nonce : bytes) (to : string) : outcome Operation :=
  Ok (transfer_operation 0 "" to "Transfer operation via TokenSDK" Bilateral nonce None).

(** ** Metadata *)

Definition create_default_metadata (token_id : string) : TokenMetadata :=
  mkMetadata token_id token_id token_id 18 Created "auto_generated" now None None None None {[ "auto_generated" := "true" ]}%string.

(** The registry update that a generic operation carries, if any. *)
Definition registry_update (op : Operation) : option (gmap string TokenMetadata) :=
  match op with
  | Generic operation_type data _ =>
      if bool_decide (operation_type = "token_create"%string) || bool_decide (operation_type = "token_registry_update"%string)
      then deserialize data else None
  | _ => None
  end.

Definition mentions (token_id : string) (op : Operation) : bool :=
  match op with
  | Create message _ _ _ _ _ _ =>
      str_contains ("token_id:" +:+ token_id) message || str_contains ("create token " +:+ token_id) message
  | _ => match registry_update op with Some r => bool_decide (is_Some (r !! token_id)) | None => false end
  end.

(** [for state_number in (0..=max).rev()]: [k] numbers left, the next one is [k - 1]. *)
Fixpoint search (c : CoreSDK) (token_id : string) (k : nat) : outcome State :=
  match k with
  | O => Err (EState "Token metadata not found in the chain")
  | S k =>
      match Core.get_state_by_number c (Z.of_nat k) with
      | Ok s => if mentions token_id (operation s) then Ok s else search c token_id k
      | Err _ => search c token_id k
      | Panic => Panic
      | Hang => Hang
      end
  end.
Definition find_token_metadata_state (c : CoreSDK) (token_id : string) : outcome State :=
  current ← Core.get_current_state c;
  search c token_id (S (Z.to_nat (state_number current))).

Definition parsed_metadata (token_id message device_id : string) : TokenMetadata :=
  let fields : gmap string string :=
    if str_contains "decimals:" message then
      match (after "decimals:" message ≫= first_word) ≫= parse_u8 with
      | Some d => {[ "decimals"%string := pretty d ]}
      | None => ∅
      end
    else ∅ in
  mkMetadata token_id (unwrap_or token_id (after "name:" message ≫= first_word))
    (unwrap_or token_id (after "symbol:" message ≫= first_word))
    (unwrap_or 18 (fields !! "decimals"%string ≫= parse_u8)) Created device_id now None (trim <$> after "description:" message)
    None None fields.

Definition as_root (md : TokenMetadata) : TokenMetadata :=
  mkMetadata (md_token_id md) (md_name md) (md_symbol md) (md_decimals md) Native (md_owner_id md) (md_creation_timestamp md)
    (md_metadata_uri md) (Some root_description) (md_icon_url md) (md_policy_anchor md)
    (<["governance_model" := "meritocratic"]> (<["ecosystem" := "DSM"]> (md_fields md)))%string.

(** The metadata made for a token of the state that has none yet. *)
Definition missing_metadata (c : CoreSDK) (token_id : string) : outcome TokenMetadata :=
  md ← match find_token_metadata_state c token_id with
       | Ok s =>
           Ok (match operation s with
               | Create message _ _ _ _ _ _ => parsed_metadata token_id message (dev_device_id (device_info s))
               | _ => create_default_metadata token_id
               end)
       | Err _ => Ok (create_default_metadata token_id)
       | Panic => Panic
       | Hang => Hang
       end;
  Ok (if bool_decide (token_id = "ROOT"%string) then as_root md else md).

Fixpoint add_missing (c : CoreSDK) (ids : list string) : M TokenSDK unit :=
  match ids with
  | [] => mret_st tt
  | id :: ids =>
      let* t := mget in
      do* match tk_token_metadata t !! id with
          | Some _ => mret_st tt
          | None =>
              let* md := mlift (missing_metadata c id) in
              mmod (fun t => set_metadata (<[id := md]> (tk_token_metadata t)) t)
          end;
      add_missing c ids
  end.

Definition update_metadata : M TokenSDK unit :=
  let* s := current_state in
  do* mmod (fun t => match registry_update (operation s) with
                     | Some r => set_metadata (r ∪ tk_token_metadata t) t
                     | None => t
                     end);
  let* t := mget in
  add_missing (tk_core t) (map fst (dash_iter (token_balances s))).

Definition recover_from_failed_operation (operation : TokenOperation) (error : DsmError) : M TokenSDK unit :=
  match error with
  | EState _ => update_metadata
  | EValidation _ | EInvalidParameter _ | EInvalidOperation _ =>
      let* t := mget in
      let* ok := mlift (validate_token_conservation t) in
      if ok : bool then mret_st tt else mfail (EValidation "Token conservation violation detected")
  | _ => mret_st tt
  end.

(** ** Bilateral transfers *)

Definition execute_bilateral_token_transfer (nonce : bytes) (token_id recipient : string) (amount : Z) (memo : option string)
    : M TokenSDK State :=
  let* s := current_state in
  let sender := dev_device_id (device_info s) in
  let message := unwrap_or ("Bilateral transfer of " +:+ pretty amount +:+ " tokens to " +:+ recipient) memo in
  let transfer_op := transfer_operation amount token_id recipient message Bilateral nonce None in
  let fixed : gmap string bytes :=
    {[ "token_id"%string := str_bytes token_id; "recipient"%string := str_bytes recipient; "amount"%string := str_bytes (pretty amount);
       "sender"%string := str_bytes sender; "operation_type"%string := str_bytes "transfer" ]} in
  let* serialized := mlift (serialize_or "Failed to serialize operation" transfer_op) in
  let next_state_hash := blake3 (hash s ++ serialized ++ nonce) in
  let* commitment := mlift (FLC.new next_state_hash recipient (dash_iter fixed) [] (Some (state_number s))) in
  let pre := mkPreCommitmentOp (flc_fixed_parameters commitment) (flc_variable_parameters commitment) default_security in
  let* new_state := execute_transition (transfer_operation amount token_id recipient message Bilateral nonce (Some pre)) in
  do* debit "Insufficient balance for transfer" sender token_id amount;
  do* credit Bal.new recipient token_id amount;
  do* mmod (record_history (TTransfer token_id recipient amount (Some "Bilateral transfer with cryptographic commitment"%string)));
  mret_st new_state.

(** The check of the core with this component registered as its manager. *)
Definition system_integrity (t : TokenSDK) : outcome bool :=
  Core.verify_system_integrity (tk_core t)
    (if cs_token_manager (tk_core t) then Some (validate_token_conservation t) else None).

End TokSDK.
End TokSDK.

(** ** The chain and the core *)

Section SdkFacts.
Context {B3 : Blake3} {RT : Runtime}.
Context {SO : Bincode Operation} {SB : Bincode Balance} {SP : Bincode PreCommitment}.
Context {ST : Bincode StateTransition} {SS : Bincode State}.
Context {TO : BincodeTotal Operation} {TB : BincodeTotal Balance} {TP : BincodeTotal PreCommitment} {TS : BincodeTotal State}.

Lemma collect_can g l c n : canonical g l c → Z.of_nat (length l) < 2 ^ 63 → (n ≤ S (length l))%nat →
  ∀ fuel, (S (length l) - n < fuel)%nat → ChainSDK.collect fuel c (Z.of_nat n) = Ok (drop n (g :: l)).
Proof.
  intros Hc Hl Hn fuel. revert n Hn. induction fuel as [|fuel IH]; intros n Hn Hf; [lia|].
  cbn [ChainSDK.collect]. rewrite (can_by_number g l c _ Hc), Nat2Z.id by lia.
  destruct ((g :: l) !! n) as [s|] eqn:E.
  - apply lookup_lt_Some in E as Hlt. cbn [length] in Hlt.
    unfold u64_add, u64_max. rewrite (proj2 (Z.leb_le _ _)) by lia. cbn [mbind outcome_bind].
    replace (Z.of_nat n + 1) with (Z.of_nat (S n)) by lia. rewrite IH by lia. cbn [mbind outcome_bind].
    by rewrite <- (drop_S _ _ _ E).
  - apply lookup_ge_None_1 in E. by rewrite drop_ge.
Qed.

Lemma leaf_values_total l : ∃ v, ChainSDK.leaf_values l = Ok v ∧ map fst v = map state_number l.
Proof.
  induction l as [|s l (v & IH & Hm)]; [by exists []|]. cbn [ChainSDK.leaf_values].
  destruct (serialize_or_total "Bincode serialization error" s) as (b & _ & ->). rewrite IH. cbn [mbind outcome_bind].
  eexists. split; [reflexivity|]. cbn [map fst]. by rewrite Hm.
Qed.

Lemma build_tree_fields v : smt_root (ChainSDK.build_tree v) = zero_hash ∧ smt_leaf_count (ChainSDK.build_tree v) = 0.
Proof.
  unfold ChainSDK.build_tree. assert (∀ t : SparseMerkleTree, smt_root t = zero_hash → smt_leaf_count t = 0 → smt_root (foldl
    (fun t '(i, h) => mkSMT (smt_root t) (<[i := h]> (smt_leaves t)) (smt_nodes t) (smt_height t) (smt_leaf_count t)) t v) = zero_hash ∧
    smt_leaf_count (foldl (fun t '(i, h) => mkSMT (smt_root t) (<[i := h]> (smt_leaves t)) (smt_nodes t) (smt_height t) (smt_leaf_count t)) t v) = 0) as H; [|by apply H].
  induction v as [|[i h] v IH]; intros t H1 H2; cbn [foldl]; [done|]. by apply IH.
Qed.

Lemma regenerate_can g l s : canonical g l (hs_hash_chain s) → Z.of_nat (length l) < 2 ^ 63 →
  ∃ t, ChainSDK.regenerate_merkle_tree s = (Ok tt, ChainSDK.set_tree t s).
Proof.
  intros Hc Hl. unfold ChainSDK.regenerate_merkle_tree, mbind_st, mget, mlift, mmod.
  destruct (can_last Hc) as (cur & Hcur & _ & Hn & _). unfold ChainSDK.chain_fuel. rewrite Hcur, Hn, Nat2Z.id.
  rewrite (collect_can g l _ 0 Hc Hl); [|lia|lia]. cbn [drop].
  destruct (leaf_values_total (g :: l)) as (v & -> & _). by eexists.
Qed.

(** The parts of the core agree: the chain is canonical, both machines stand at
    its last state, and the tree is there. *)
Record synced (g : State) (l : list State) (c : CoreSDK) : Prop := mkSynced {
  sy_chain : canonical g l (hs_hash_chain (cs_hash_chain_sdk c));
  sy_machine : current_state (cs_state_machine c) = last (g :: l);
  sy_chain_machine : ChainSDK.current_state (cs_hash_chain_sdk c) = last (g :: l);
  sy_tree : is_Some (hs_merkle_tree (cs_hash_chain_sdk c));
}.

Lemma canonical_genesis g : state_number g = 0 → St.compute_hash g = Ok (hash g) → id_ok g →
  ∃ c, HC.add_state g HC.new = (Ok tt, c) ∧ canonical g [] c.
Proof.
  intros Hn Hh Hid. unfold HC.add_state. cbn [HC.new hc_states hc_current]. unfold any_state.
  rewrite map_to_list_empty. cbn [existsb fmap list_fmap]. rewrite Hn. cbn [Z.ltb Z.compare andb].
  eexists. split; [reflexivity|]. constructor; try done.
  by constructor.
Qed.

Lemma initialize_run g c t : state_number g = 0 → HC.add_state g HC.new = (Ok tt, c) →
  ChainSDK.regenerate_merkle_tree (mkHashChainSDK c (SM.set_state g SM.new) None) =
    (Ok tt, ChainSDK.set_tree t (mkHashChainSDK c (SM.set_state g SM.new) None)) →
  Core.initialize_with_genesis g Core.new =
    (Ok tt, mkCoreSDK (mkHashChainSDK c (SM.set_state g SM.new) (Some t)) (SM.set_state g SM.new) false).
Proof.
  intros Hn E Et.
  unfold Core.initialize_with_genesis, Core.on_chain_sdk, Core.on_machine, ChainSDK.initialize_with_genesis, ChainSDK.on_chain, mbind_st, mmod.
  rewrite Hn. cbn [Z.eqb negb cs_hash_chain_sdk Core.new hs_hash_chain ChainSDK.new]. rewrite E.
  cbn [hs_state_machine hs_merkle_tree ChainSDK.set_machine hs_hash_chain].
  match goal with |- context [ChainSDK.regenerate_merkle_tree ?x] => change (ChainSDK.regenerate_merkle_tree x) with (ChainSDK.regenerate_merkle_tree (mkHashChainSDK c (SM.set_state g SM.new) None)) end.
  by rewrite Et.
Qed.

Lemma initialize_synced g : state_number g = 0 → St.compute_hash g = Ok (hash g) → id_ok g →
  ∃ c, Core.initialize_with_genesis g Core.new = (Ok tt, c) ∧ synced g [] c ∧ cs_token_manager c = false.
Proof.
  intros Hn Hh Hid. destruct (canonical_genesis g Hn Hh Hid) as (c & E & Hc).
  destruct (regenerate_can g [] (mkHashChainSDK c (SM.set_state g SM.new) None) Hc) as [t Et]; [done|].
  eexists. split; [by apply initialize_run|]. split; [|done]. constructor; [exact Hc|done|done|by eexists].
Qed.

Lemma execute_synced g l c op : synced g l c → Z.of_nat (length l) < 2 ^ 63 - 2 →
  ∃ s c', Core.execute_transition op c = (Ok s, c') ∧ synced g (l ++ [s]) c' ∧ operation s = op ∧
    cs_token_manager c' = cs_token_manager c.
Proof.
  intros [Hc Hm Hcm Ht] Hl. destruct (can_last Hc) as (cur & Hcur & Hlast & Hnum & Hh).
  assert (length (hash cur) = 32%nat) as H32 by (by eapply compute_hash_length).
  rewrite Hlast in Hm, Hcm.
  destruct (execute_step op (cs_state_machine c) cur Hm ltac:(lia) H32) as (s & Es & _ & _ & Hsn & Hop & _).
  destruct (execute_inv _ _ _ _ Es) as (cur' & e & Hcur' & _ & Hns & _). rewrite Hm in Hcur'. injection Hcur' as <-.
  destruct (add_next g l _ cur op e LV_Standard false s Hc Hcur Hns) as (ch & Ech & Hch); [lia|].
  assert (last (g :: (l ++ [s])) = Some s) as Hls by (change (g :: (l ++ [s])) with ((g :: l) ++ [s]); by rewrite last_snoc).
  unfold Core.execute_transition, Core.on_machine, Core.on_chain_sdk, ChainSDK.add_state, ChainSDK.on_chain, mbind_st, mmod, mret_st.
  rewrite Es. cbn [cs_hash_chain_sdk cs_state_machine]. rewrite Ech. cbn [hs_state_machine].
  unfold ChainSDK.current_state in Hcm. rewrite Hcm, (proj2 (Z.ltb_lt _ _)) by lia.
  destruct (regenerate_can g (l ++ [s]) (ChainSDK.set_machine (SM.set_state s (hs_state_machine (cs_hash_chain_sdk c)))
    (mkHashChainSDK ch (hs_state_machine (cs_hash_chain_sdk c)) (hs_merkle_tree (cs_hash_chain_sdk c)))) Hch) as [t ->];
    [rewrite length_app; cbn; lia|].
  eexists _, _. split; [reflexivity|]. split_and!; [|done|done].
  constructor; rewrite ?Hls; [exact Hch|done|done|by eexists].
Qed.

Fixpoint run_core (ops : list Operation) : M CoreSDK (list State) :=
  match ops with
  | [] => mret_st []
  | op :: ops =>
      let* s := Core.execute_transition op in
      let* l := run_core ops in
      mret_st (s :: l)
  end.

Lemma run_core_synced g ops : ∀ l c, synced g l c → Z.of_nat (length l) + Z.of_nat (length ops) < 2 ^ 63 - 1 →
  ∃ l' c', run_core ops c = (Ok l', c') ∧ synced g (l ++ l') c' ∧ map operation l' = ops.
Proof.
  induction ops as [|op ops IH]; intros l c Hs Hl; cbn [run_core].
  - exists [], c. rewrite app_nil_r. done.
  - cbn [length] in Hl. destruct (execute_synced g l c op Hs) as (s & c1 & E & Hs1 & Hop & _); [lia|].
    destruct (IH (l ++ [s]) c1 Hs1) as (l' & c' & E' & Hs' & Hm); [rewrite length_app; cbn; lia|].
    exists (s :: l'), c'. unfold mbind_st, mret_st. rewrite E, E'. rewrite <- app_assoc in Hs'. cbn [map]. by rewrite Hop, Hm.
Qed.

(** C31: the core at work: initialised with a hashed genesis state, it executes
    any sequence of operations without failing; the states it returns carry the
    operations in order and are what its chain holds, each found by its number;
    the two state machines and the chain stay at the same current state, and the
    integrity check accepts. *)
Theorem core_sdk_history (g : State) (ops : list Operation) :
  state_number g = 0 → St.compute_hash g = Ok (hash g) → id_ok g → Z.of_nat (length ops) < 2 ^ 63 - 1 →
  ∃ c0 c l, Core.initialize_with_genesis g Core.new = (Ok tt, c0) ∧ run_core ops c0 = (Ok l, c) ∧
    map operation l = ops ∧ synced g l c ∧ Core.verify_system_integrity c None = Ok true ∧
    Core.get_current_state c = ok_or (EState "No current state available") (last (g :: l)) ∧
    (∀ i s, (g :: l) !! i = Some s → Core.get_state_by_number c (Z.of_nat i) = Ok s).
Proof.
  intros Hn Hh Hid Hl. destruct (initialize_synced g Hn Hh Hid) as (c0 & E0 & Hs0 & _).
  destruct (run_core_synced g ops [] c0 Hs0) as (l & c & E & Hs & Hm); [cbn; lia|]. cbn [app] in Hs.
  exists c0, c, l. split_and!; [done|done|done|done| | |].
  - unfold Core.verify_system_integrity, ChainSDK.verify_chain. by rewrite (can_verify (sy_chain _ _ _ Hs)).
  - unfold Core.get_current_state. by rewrite (sy_chain_machine _ _ _ Hs).
  - intros i s Hi. unfold Core.get_state_by_number, ChainSDK.get_state_by_number.
    rewrite (can_by_number g l _ _ (sy_chain _ _ _ Hs)), Nat2Z.id, Hi by lia. done.
Qed.

(** A genesis state made by the core fails the core's own integrity check:
    [create_initial_state] leaves the hash empty, initialising with it succeeds,
    and from then on the check returns an error. *)
Theorem initial_state_fails_integrity (d : DeviceInfo) (manager : option (outcome bool)) :
  ∃ g, Core.create_initial_state d = Ok g ∧ state_number g = 0 ∧
    ∃ c, Core.initialize_with_genesis g Core.new = (Ok tt, c) ∧
      Core.verify_system_integrity c manager = Err (EValidation "Genesis state hash is invalid").
Proof.
  eexists. split; [reflexivity|]. split; [done|]. set (g := St.new _).
  assert (∃ h, St.compute_hash g = Ok h ∧ length h = 32%nat) as (h & Hh & Hl).
  { destruct (compute_hash_total g) as [h Hh]. exists h. split; [done|]. by eapply compute_hash_length. }
  set (ch := HC.set_states {[ st_id g := g ]} (Some g) HC.new).
  assert (∃ t, ChainSDK.regenerate_merkle_tree (mkHashChainSDK ch (SM.set_state g SM.new) None) =
    (Ok tt, ChainSDK.set_tree t (mkHashChainSDK ch (SM.set_state g SM.new) None))) as [t Et].
  { unfold ChainSDK.regenerate_merkle_tree, mbind_st, mget, mlift, mmod.
    assert (ChainSDK.collect (ChainSDK.chain_fuel ch) ch 0 = Ok [g]) as E by reflexivity.
    cbn [hs_hash_chain]. rewrite E. destruct (leaf_values_total [g]) as (v & -> & _). by eexists. }
  eexists. split; [by apply (initialize_run g ch t)|].
  unfold Core.verify_system_integrity, ChainSDK.verify_chain, HC.verify_chain.
    cbn [cs_hash_chain_sdk ChainSDK.set_tree hs_hash_chain ch HC.set_states hc_states].
    rewrite bool_decide_eq_false_2 by (apply map_non_empty_singleton).
    assert (find_state (fun s => state_number s =? 0) {[st_id g := g]} = Some g) as -> by reflexivity.
    cbn [ok_or mbind outcome_bind]. unfold HC.verify_state_hash. rewrite Hh. cbn [mbind outcome_bind].
    replace (constant_time_eq h (hash g)) with false; [done|]. symmetry. apply not_true_is_false.
    intros Heq%constant_time_eq_spec. change (hash g) with (@nil u8) in Heq. subst h. discriminate Hl.
Qed.

(** State proofs never verify: a proof consists of hashes of 32 bytes, and
    the check compares its root with the concatenation of its path, its leaf and
    its root; nor does the tree's root depend on the chain. *)
Theorem state_proofs_never_verify (decode : bytes → option MerkleProof) (s s' : HashChainSDK) (data proof root : bytes) :
  (∀ b p, decode b = Some p → length (p_leaf_hash p) = 32%nat) →
  ChainSDK.verify_state_proof decode s data proof root ≠ Ok true ∧
  (ChainSDK.regenerate_merkle_tree s = (Ok tt, s') → ChainSDK.merkle_root s' = Ok zero_hash).
Proof.
  intros Hd. split.
  - unfold ChainSDK.verify_state_proof. destruct (length data <? 8)%nat; [done|].
    destruct (hs_merkle_tree s) as [t|]; cbn [ok_or mbind outcome_bind]; [|done].
    destruct (bool_decide (smt_root t = root)); cbn [negb]; [|done].
    destruct (decode proof) as [p|] eqn:E; cbn [ok_or mbind outcome_bind]; [|done].
    intros H%Ok_inj. unfold Plain.verify in H. apply constant_time_eq_spec in H.
    apply (f_equal length) in H. unfold Plain.proof_bytes in H. rewrite !length_app, (Hd _ _ E) in H. lia.
  - unfold ChainSDK.regenerate_merkle_tree, mbind_st, mget, mlift, mmod.
    destruct (ChainSDK.collect _ _ _); [|done..]. destruct (ChainSDK.leaf_values _) as [v| | |]; [|done..].
    intros H. injection H as <-. unfold ChainSDK.merkle_root. cbn [ChainSDK.set_tree hs_merkle_tree].
    by rewrite (proj1 (build_tree_fields v)).
Qed.

(** ** Conservation of ROOT *)

Context {DO : DashOrder} {UR : Unbincode (gmap string TokenMetadata)}.

Definition root_of (m : gmap string Balance) : Z := match m !! "ROOT"%string with Some x => bal_value x | None => 0 end.
(** The sum of all ROOT balances. *)
Definition root_sum (b : Balances) : Z := map_fold (fun _ m total => root_of m + total) 0 b.

Lemma root_sum_new a m (b : Balances) : b !! a = None → root_sum (<[a := m]> b) = root_of m + root_sum b.
Proof. intros H. unfold root_sum. rewrite map_fold_insert_L; [done| |done]. intros. lia. Qed.

Lemma root_sum_insert a m (b : Balances) :
  root_sum (<[a := m]> b) = root_sum b + root_of m - root_of (unwrap_or ∅ (b !! a)).
Proof.
  destruct (b !! a) as [m'|] eqn:E; cbn [unwrap_or].
  - rewrite <- (insert_id b a m' E) at 2. rewrite <- (insert_delete_eq b a m), <- (insert_delete_eq b a m').
    rewrite !root_sum_new by apply lookup_delete_eq. lia.
  - rewrite root_sum_new by done. unfold root_of at 3. rewrite lookup_empty. lia.
Qed.

(** The ROOT value of an entry, and what an update adds to the sum. *)
Definition root_value (o : option Balance) : Z := match o with Some x => bal_value x | None => 0 end.
Definition if_root (token_id : string) (n : Z) : Z := if bool_decide (token_id = "ROOT"%string) then n else 0.

Lemma root_of_entry (b : Balances) a : root_of (unwrap_or ∅ (b !! a)) = root_value (TokSDK.balance_of b a "ROOT").
Proof. unfold TokSDK.balance_of, root_value, root_of. destruct (b !! a); [done|]. cbn [unwrap_or]. by rewrite lookup_empty. Qed.

Lemma root_sum_put a tok x b :
  root_sum (TokSDK.put_balance a tok x b) = root_sum b + if_root tok (bal_value x - root_value (TokSDK.balance_of b a tok)).
Proof.
  unfold TokSDK.put_balance, if_root. rewrite root_sum_insert, root_of_entry. unfold root_of at 1. case_bool_decide as H.
  - subst tok. rewrite lookup_insert_eq. lia.
  - rewrite lookup_insert_ne by done. fold (root_of (unwrap_or ∅ (b !! a))). rewrite root_of_entry. lia.
Qed.

Lemma balance_of_put a tok x b : TokSDK.balance_of (TokSDK.put_balance a tok x b) a tok = Some x.
Proof. unfold TokSDK.balance_of, TokSDK.put_balance. rewrite lookup_insert_eq. cbn. apply lookup_insert_eq. Qed.

Lemma st_bind_Ok {S A B} (m : M S A) (f : A → M S B) s b s2 :
  mbind_st m f s = (Ok b, s2) → ∃ a s1, m s = (Ok a, s1) ∧ f a s1 = (Ok b, s2).
Proof. unfold mbind_st. destruct (m s) as [[a| | |] s1]; intros H; try discriminate H. by exists a, s1. Qed.

(** What a step did to the money: the sum of the balances and the circulating
    supply changed by so much, and the rest of the ROOT token did not change. *)
Definition moved (dsum dcirc : Z) (t t' : TokenSDK) : Prop :=
  root_sum (tk_balances t') = root_sum (tk_balances t) + dsum ∧
  bal_value (rt_circulating_supply (tk_root_token t')) = bal_value (rt_circulating_supply (tk_root_token t)) + dcirc ∧
  rt_total_supply (tk_root_token t') = rt_total_supply (tk_root_token t).

Lemma moved_refl t : moved 0 0 t t.
Proof. unfold moved. split_and!; [lia|lia|done]. Qed.
Lemma moved_trans a b a' b' t1 t2 t3 : moved a b t1 t2 → moved a' b' t2 t3 → moved (a + a') (b + b') t1 t3.
Proof. intros (H1 & H2 & H3) (H1' & H2' & H3'). unfold moved. rewrite H1', H2', H3', H1, H2, H3. split_and!; [lia|lia|done]. Qed.

Lemma execute_moved op t s t' : TokSDK.execute_transition op t = (Ok s, t') →
  tk_balances t' = tk_balances t ∧ tk_root_token t' = tk_root_token t.
Proof.
  unfold TokSDK.execute_transition, TokSDK.on_core. destruct (Core.execute_transition op (tk_core t)) as [o c].
  intros H. injection H as -> <-. done.
Qed.

Lemma credit_moved make a tok n t t' : (∀ v, bal_value (make v) = v) → TokSDK.credit make a tok n t = (Ok tt, t') →
  moved (if_root tok n) 0 t t'.
Proof.
  intros Hm H. unfold TokSDK.credit, mget, mlift, mmod in H. apply st_bind_Ok in H as (t0 & ? & H0 & H). injection H0 as -> <-.
  apply st_bind_Ok in H as (v & ? & Hv & H). injection Hv as Hv <-. injection H as <-.
  unfold moved. cbn [TokSDK.set_balances tk_balances tk_root_token]. rewrite root_sum_put, Hm. split_and!; [|lia|done].
  f_equal. unfold if_root. case_bool_decide; [|done].
  destruct (TokSDK.balance_of _ _ _) as [x|]; cbn [root_value]; [apply u64_add_Ok in Hv as [-> _]; lia|].
  apply Ok_inj in Hv. lia.
Qed.

Lemma debit_moved msg a tok n t t' : TokSDK.debit msg a tok n t = (Ok tt, t') →
  moved (match TokSDK.balance_of (tk_balances t) a tok with Some _ => if_root tok (- n) | None => 0 end) 0 t t'.
Proof.
  intros H. unfold TokSDK.debit, mget in H. apply st_bind_Ok in H as (t0 & ? & H0 & H). injection H0 as -> <-.
  destruct (TokSDK.balance_of (tk_balances t0) a tok) as [x|] eqn:E.
  - destruct (bal_value x <? n); [done|]. injection H as <-. unfold moved.
    cbn [TokSDK.set_balances tk_balances tk_root_token]. rewrite root_sum_put, E. split_and!; [|lia|done].
    f_equal. unfold if_root. case_bool_decide; [|done]. cbn. lia.
  - injection H as <-. apply moved_refl.
Qed.

Lemma debit_linked_moved h a tok n t t' : TokSDK.debit_linked h a tok n t = (Ok tt, t') →
  moved (if_root tok (match TokSDK.balance_of (tk_balances t) a tok with Some _ => - n | None => 1000 - n end)) 0 t t'.
Proof.
  intros H. unfold TokSDK.debit_linked, mmod, mget, mlift in H.
  apply st_bind_Ok in H as (? & t1 & H0 & H). injection H0 as <- <-.
  apply st_bind_Ok in H as (t2 & ? & H0 & H). injection H0 as <- <-.
  apply st_bind_Ok in H as (x & ? & H0 & H). injection H0 as Hx <-.
  destruct (bal_value x <? n); [done|]. injection H as <-.
  unfold moved. cbn [TokSDK.set_balances tk_balances tk_root_token].
  destruct (TokSDK.balance_of (tk_balances t) a tok) as [y|] eqn:E; rewrite root_sum_put.
  - rewrite E in Hx |- *. apply Ok_inj in Hx as <-. split_and!; [|cbn; lia|done]. f_equal. unfold if_root. case_bool_decide; [|done]. cbn. lia.
  - cbn [TokSDK.set_balances tk_balances tk_root_token] in *. rewrite balance_of_put in Hx |- *. apply Ok_inj in Hx as <-.
    rewrite root_sum_put, E. split_and!; [|cbn; lia|done]. unfold if_root. case_bool_decide; cbn; lia.
Qed.

Lemma add_circulating_moved tok n t t' : TokSDK.add_circulating tok n t = (Ok tt, t') → moved 0 (if_root tok n) t t'.
Proof.
  unfold TokSDK.add_circulating, if_root, mget, mlift, mmod, mret_st. case_bool_decide; [|intros H'; injection H' as <-; apply moved_refl].
  intros H'. apply st_bind_Ok in H' as (t0 & ? & H0 & H'). injection H0 as -> <-.
  apply st_bind_Ok in H' as (v & ? & Hv & H'). injection Hv as [-> _]%u64_add_Ok <-. injection H' as <-.
  unfold moved. cbn. split_and!; [lia|lia|done].
Qed.

Lemma sub_circulating_moved tok n t t' : TokSDK.sub_circulating tok n t = (Ok tt, t') →
  moved 0 (if_root tok (- Z.min n (bal_value (rt_circulating_supply (tk_root_token t))))) t t'.
Proof.
  unfold TokSDK.sub_circulating, if_root, mmod, mret_st. case_bool_decide; intros H'; injection H' as <-; [|apply moved_refl].
  unfold moved. cbn. unfold saturating_sub. split_and!; [lia|lia|done].
Qed.

Lemma check_supply_same tok n t t' : TokSDK.check_root_supply tok n t = (Ok tt, t') →
  t' = t ∧ (tok = "ROOT"%string → bal_value (rt_circulating_supply (tk_root_token t)) + n ≤ bal_value (rt_total_supply (tk_root_token t))).
Proof.
  unfold TokSDK.check_root_supply, mget, mlift, mret_st, mfail. case_bool_decide; [|intros H'; by injection H' as <-].
  intros H'. apply st_bind_Ok in H' as (t0 & ? & H0 & H'). injection H0 as -> <-.
  apply st_bind_Ok in H' as (v & ? & Hv & H'). injection Hv as [-> _]%u64_add_Ok <-.
  destruct (Z.ltb_spec (bal_value (rt_total_supply (tk_root_token t0))) (bal_value (rt_circulating_supply (tk_root_token t0)) + n)); [done|].
  injection H' as <-. done.
Qed.

(** The device of the current state, its ROOT entry, and the effect of an
    operation on the sum of the balances and on the circulating supply. *)
Definition sender (t : TokenSDK) : string :=
  match Core.get_current_state (tk_core t) with Ok s => dev_device_id (device_info s) | _ => EmptyString end.
Definition has_entry (t : TokenSDK) (token_id : string) : bool :=
  match TokSDK.balance_of (tk_balances t) (sender t) token_id with Some _ => true | None => false end.
Definition sum_change (t : TokenSDK) (op : TokenOperation) : Z :=
  match op with
  | TTransfer tok _ _ _ => if_root tok (if has_entry t tok then 0 else 1000)
  | TMint tok _ n => if_root tok n
  | TBurn tok n => if_root tok (if has_entry t tok then - n else 0)
  | _ => 0
  end.
Definition circulating_change (t : TokenSDK) (op : TokenOperation) : Z :=
  match op with
  | TMint tok _ n => if_root tok n
  | TBurn tok n => if_root tok (- Z.min n (bal_value (rt_circulating_supply (tk_root_token t))))
  | _ => 0
  end.

Lemma current_state_Ok t s t' : TokSDK.current_state t = (Ok s, t') → t' = t ∧ sender t = dev_device_id (device_info s).
Proof.
  unfold TokSDK.current_state, mget, mlift. intros H. apply st_bind_Ok in H as (t0 & ? & H0 & H). injection H0 as -> <-.
  injection H as H <-. unfold sender. by rewrite H.
Qed.

Ltac st_open H := let a := fresh "a" in let t := fresh "t" in let E := fresh "E" in
  apply st_bind_Ok in H as (a & t & E & H).

Lemma transfer_moved nonce tok rcpt n memo t s t' :
  TokSDK.execute_token_operation nonce (TTransfer tok rcpt n memo) t = (Ok s, t') → moved (sum_change t (TTransfer tok rcpt n memo)) 0 t t'.
Proof.
  cbn [TokSDK.execute_token_operation]. intros H. st_open H. apply current_state_Ok in E as [-> Hs].
  st_open H. unfold mlift in E. injection E as _ ->. st_open H. apply execute_moved in E as [Eb Er].
  st_open H. destruct a2. apply debit_linked_moved in E. rewrite Eb in E.
  st_open H. destruct a2. apply credit_moved in E0; [|done].
  pose proof (moved_trans _ _ _ _ _ _ _ E E0) as Hm. st_open H. unfold mmod in E1. injection E1 as _ <-.
  st_open H. unfold mget in E1. injection E1 as <- <-. st_open H. unfold mlift in E1. injection E1 as _ <-.
  unfold mret_st in H. injection H as _ <-.
  destruct Hm as (H1 & H2 & H3). unfold moved. cbn [TokSDK.record_history tk_balances tk_root_token].
  rewrite Eb in H1. rewrite Er in H2, H3. split_and!; [|lia|done]. rewrite H1. f_equal. cbn [sum_change]. unfold has_entry, if_root.
  rewrite Hs. destruct (bool_decide (tok = "ROOT"%string)); [|lia]. destruct (TokSDK.balance_of _ _ _); lia.
Qed.

Lemma mint_moved nonce tok rcpt n t s t' :
  TokSDK.execute_token_operation nonce (TMint tok rcpt n) t = (Ok s, t') →
  moved (if_root tok n) (if_root tok n) t t' ∧
  (tok = "ROOT"%string → bal_value (rt_circulating_supply (tk_root_token t)) + n ≤ bal_value (rt_total_supply (tk_root_token t))).
Proof.
  cbn [TokSDK.execute_token_operation]. intros H. st_open H. destruct a. apply check_supply_same in E as [-> Hle].
  st_open H. apply execute_moved in E as [Eb Er]. st_open H. destruct a0. apply credit_moved in E; [|done].
  st_open H. destruct a0. apply add_circulating_moved in E0. pose proof (moved_trans _ _ _ _ _ _ _ E E0) as (H1 & H2 & H3).
  st_open H. unfold mmod in E1. injection E1 as _ <-. unfold mret_st in H. injection H as _ <-. split; [|done].
  unfold moved. cbn [TokSDK.record_history tk_balances tk_root_token]. rewrite Eb in H1. rewrite Er in H2, H3. split_and!; [lia|lia|done].
Qed.

Lemma burn_moved nonce tok n t s t' :
  TokSDK.execute_token_operation nonce (TBurn tok n) t = (Ok s, t') →
  moved (sum_change t (TBurn tok n)) (circulating_change t (TBurn tok n)) t t'.
Proof.
  cbn [TokSDK.execute_token_operation]. unfold TokSDK.execute_generic_token_operation. intros H. st_open H. apply current_state_Ok in E as [-> _].
  st_open H. apply current_state_Ok in E as [-> Hs]. st_open H. apply execute_moved in E as [Eb Er].
  st_open H. destruct a2. apply debit_moved in E. rewrite Eb in E. st_open H. destruct a2. apply sub_circulating_moved in E0.
  destruct E as (Ha & Hb & Hc). destruct E0 as (H1 & H2 & H3). st_open H. unfold mmod in E. injection E as _ <-.
  unfold mret_st in H. injection H as _ <-. unfold moved. cbn [TokSDK.record_history tk_balances tk_root_token].
  rewrite Eb in Ha. rewrite Er in Hb, Hc. rewrite H1, H2, H3, Ha, Hc. cbn [sum_change circulating_change]. unfold has_entry, if_root in *.
  rewrite Hs. split_and!; [| |done].
  - destruct (bool_decide (tok = "ROOT"%string)); destruct (TokSDK.balance_of _ _ _); lia.
  - rewrite Hb. replace (bal_value (rt_circulating_supply (tk_root_token t)) + 0) with (bal_value (rt_circulating_supply (tk_root_token t))) by lia. done.
Qed.

(** ** The conservation check *)

Definition nonneg (b : Balances) : Prop := ∀ a tok x, TokSDK.balance_of b a tok = Some x → 0 ≤ bal_value x.

Lemma nonneg_put a tok x b : nonneg b → 0 ≤ bal_value x → nonneg (TokSDK.put_balance a tok x b).
Proof.
  intros Hb Hx a' tok' y. unfold TokSDK.balance_of, TokSDK.put_balance. destruct (decide (a' = a)) as [->|Ha].
  - rewrite lookup_insert_eq. cbn [mbind option_bind]. destruct (decide (tok' = tok)) as [->|Ht].
    + rewrite lookup_insert_eq. by intros [= <-].
    + rewrite lookup_insert_ne by done. destruct (b !! a) as [m|] eqn:E; cbn [unwrap_or]; [|by rewrite lookup_empty].
      intros Hy. apply (Hb a tok' y). unfold TokSDK.balance_of. by rewrite E.
  - rewrite lookup_insert_ne by done. apply Hb.
Qed.

Lemma root_of_nonneg b a m : nonneg b → b !! a = Some m → 0 ≤ root_of m.
Proof.
  intros Hb Hm. unfold root_of. destruct (m !! "ROOT"%string) as [x|] eqn:E; [|lia].
  apply (Hb a "ROOT"%string x). unfold TokSDK.balance_of. by rewrite Hm.
Qed.

Lemma nonneg_insert a m b : b !! a = None → nonneg (<[a := m]> b) → nonneg b.
Proof.
  intros Ha Hb a' tok x Hx. apply (Hb a' tok x). unfold TokSDK.balance_of in *.
  rewrite lookup_insert_ne; [done|]. intros <-. by rewrite Ha in Hx.
Qed.

Lemma root_sum_nonneg b : nonneg b → 0 ≤ root_sum b.
Proof.
  induction b as [|a m b Ha IH] using map_ind; intros Hb; [done|]. rewrite root_sum_new by done.
  pose proof (root_of_nonneg _ a m Hb (lookup_insert_eq _ _ _)). specialize (IH (nonneg_insert _ _ _ Ha Hb)). lia.
Qed.

Lemma root_sum_entry b a x : nonneg b → TokSDK.balance_of b a "ROOT" = Some x → bal_value x ≤ root_sum b.
Proof.
  intros Hb Hx. unfold TokSDK.balance_of in Hx. destruct (b !! a) as [m|] eqn:E; [|done]. cbn in Hx.
  rewrite <- (insert_delete_id b a m E) in Hb |- *. rewrite root_sum_new by apply lookup_delete_eq.
  pose proof (root_sum_nonneg _ (nonneg_insert a m _ (lookup_delete_eq _ _) Hb)). unfold root_of. rewrite Hx. lia.
Qed.

(** The saturated total of the check. *)
Lemma total_root_eq b : nonneg b → TokSDK.total_root b = Z.min (root_sum b) u64_max.
Proof.
  intros Hb.
  assert (∀ l acc, Forall (fun p => 0 ≤ root_of p.2) l → 0 ≤ acc ≤ u64_max →
    foldl (fun total p => match p.2 !! "ROOT"%string with Some x => saturating_add total (bal_value x) | None => total end) acc
      (l : list (string * gmap string Balance)) = Z.min (acc + foldr (fun p total => root_of p.2 + total) 0 l) u64_max) as H.
  { induction l as [|[a m] l IH]; intros acc Hl Hacc; cbn [foldl foldr snd]; [lia|].
    apply Forall_cons in Hl as [Hm Hl]. cbn [snd] in Hm.
    assert (0 ≤ foldr (fun p total => root_of p.2 + total) 0 l) as Hf
      by (clear -Hl; induction Hl; cbn [foldr]; lia).
    unfold root_of in Hm |- * at 1. destruct (m !! "ROOT"%string) as [x|]; rewrite IH by (done || unfold saturating_add; lia);
      unfold saturating_add; lia. }
  unfold TokSDK.total_root. rewrite H; [|apply Forall_forall; intros [a m] Hin; apply elem_of_iter in Hin; by eapply root_of_nonneg|unfold u64_max; lia].
  f_equal. rewrite Z.add_0_l. unfold root_sum.
  rewrite (map_fold_foldr (fun _ m total => root_of m + total) 0 b).
  transitivity (foldr (fun (p : string * gmap string Balance) total => root_of p.2 + total) 0 (map_to_list b)).
  - apply (foldr_permutation_proper (=) _ 0); [|apply dash_iter_perm]. intros [] [] z. lia.
  - clear. induction (map_to_list b) as [|[a m] l IH]; cbn; [done|]. by rewrite IH.
Qed.

Lemma credit_nonneg make a tok n t t' : (∀ v, bal_value (make v) = v) → 0 ≤ n → nonneg (tk_balances t) →
  TokSDK.credit make a tok n t = (Ok tt, t') → nonneg (tk_balances t').
Proof.
  intros Hm Hn Hb H. unfold TokSDK.credit, mget, mlift, mmod in H. st_open H. injection E as -> <-.
  st_open H. injection E as Hv <-. injection H as <-. cbn [TokSDK.set_balances tk_balances]. apply nonneg_put; [done|]. rewrite Hm.
  destruct (TokSDK.balance_of (tk_balances a0) a tok) as [x|] eqn:E.
  - apply u64_add_Ok in Hv as [-> _]. pose proof (Hb _ _ _ E). lia.
  - apply Ok_inj in Hv. lia.
Qed.

Lemma debit_nonneg msg a tok n t t' : nonneg (tk_balances t) → TokSDK.debit msg a tok n t = (Ok tt, t') →
  nonneg (tk_balances t') ∧ ∀ x, TokSDK.balance_of (tk_balances t) a tok = Some x → n ≤ bal_value x.
Proof.
  intros Hb H. unfold TokSDK.debit, mget in H. st_open H. injection E as -> <-.
  destruct (TokSDK.balance_of (tk_balances a0) a tok) as [x|] eqn:E; [|by injection H as <-].
  destruct (Z.ltb_spec (bal_value x) n); [done|]. injection H as <-. split; [|by intros ? [= <-]].
  cbn [TokSDK.set_balances tk_balances]. apply nonneg_put; [done|]. cbn. lia.
Qed.

Lemma debit_linked_nonneg h a tok n t t' : nonneg (tk_balances t) →
  TokSDK.debit_linked h a tok n t = (Ok tt, t') → nonneg (tk_balances t').
Proof.
  intros Hb H. unfold TokSDK.debit_linked, mmod, mget, mlift in H. st_open H. injection E as <- <-.
  st_open H. injection E as <- <-. st_open H. injection E as _ <-.
  destruct (Z.ltb_spec (bal_value a0) n); [done|]. injection H as <-. cbn [TokSDK.set_balances tk_balances].
  apply nonneg_put; [|cbn; lia]. destruct (TokSDK.balance_of (tk_balances t) a tok); [done|]. by apply nonneg_put.
Qed.

Lemma circulating_balances tok n t t' :
  TokSDK.add_circulating tok n t = (Ok tt, t') ∨ TokSDK.sub_circulating tok n t = (Ok tt, t') → tk_balances t' = tk_balances t.
Proof.
  unfold TokSDK.add_circulating, TokSDK.sub_circulating, mget, mlift, mmod, mret_st. case_bool_decide; intros [H'|H'];
    try (by injection H' as <-). st_open H'. injection E as -> <-. st_open H'. injection E as _ <-. by injection H' as <-.
Qed.

Definition amount_of (op : TokenOperation) : Z :=
  match op with TTransfer _ _ n _ | TMint _ _ n | TBurn _ n | TLock _ n _ | TUnlock _ n _ => n | TCreate _ _ fee => fee end.

(** An operation keeps balances non-negative, and burns no more than the entry. *)
Lemma operation_nonneg nonce op t s t' : 0 ≤ amount_of op → nonneg (tk_balances t) →
  TokSDK.execute_token_operation nonce op t = (Ok s, t') →
  nonneg (tk_balances t') ∧
  ∀ tok n x, op = TBurn tok n → TokSDK.balance_of (tk_balances t) (sender t) tok = Some x → n ≤ bal_value x.
Proof.
  intros Hn Hb H. destruct op as [md su fee|tok rcpt n memo|tok rcpt n|tok n|tok n pu|tok n pu]; cbn [amount_of] in Hn.
  1, 5, 6: cbn [TokSDK.execute_token_operation] in H; unfold TokSDK.execute_generic_token_operation in H; st_open H; done.
  - split; [|done]. cbn [TokSDK.execute_token_operation] in H. st_open H. apply current_state_Ok in E as [-> _].
    st_open H. unfold mlift in E. injection E as _ ->. st_open H. apply execute_moved in E as [Eb _].
    st_open H. destruct a2. apply debit_linked_nonneg in E; [|by rewrite Eb].
    st_open H. destruct a2. apply credit_nonneg in E0; [|done|done|done].
    st_open H. unfold mmod in E1. injection E1 as _ <-. st_open H. unfold mget in E1. injection E1 as <- <-.
    st_open H. unfold mlift in E1. injection E1 as _ <-. unfold mret_st in H. by injection H as _ <-.
  - split; [|done]. cbn [TokSDK.execute_token_operation] in H. st_open H. destruct a. apply check_supply_same in E as [-> _].
    st_open H. apply execute_moved in E as [Eb _]. st_open H. destruct a0. apply credit_nonneg in E; [|done|done|by rewrite Eb].
    st_open H. destruct a0. pose proof (circulating_balances _ _ _ _ (or_introl E0)) as Ec.
    st_open H. unfold mmod in E1. injection E1 as _ <-. unfold mret_st in H. injection H as _ <-. cbn. by rewrite Ec.
  - cbn [TokSDK.execute_token_operation] in H. unfold TokSDK.execute_generic_token_operation in H. st_open H. apply current_state_Ok in E as [-> _].
    st_open H. apply current_state_Ok in E as [-> Hs]. st_open H. apply execute_moved in E as [Eb _].
    st_open H. destruct a2. apply debit_nonneg in E as [E Hx]; [|by rewrite Eb]. st_open H. destruct a2.
    pose proof (circulating_balances _ _ _ _ (or_intror E0)) as Ec.
    st_open H. unfold mmod in E1. injection E1 as _ <-. unfold mret_st in H. injection H as _ <-. split; [cbn; by rewrite Ec|].
    intros tok' n' x [= <- <-]. rewrite Hs, <- Eb. apply Hx.
Qed.

(** The books balance: the ROOT balances add up to the circulating supply, which
    stays within the total. *)
Record conserved (t : TokenSDK) : Prop := mkConserved {
  cv_sum : root_sum (tk_balances t) = bal_value (rt_circulating_supply (tk_root_token t));
  cv_total : bal_value (rt_circulating_supply (tk_root_token t)) ≤ bal_value (rt_total_supply (tk_root_token t));
  cv_nonneg : nonneg (tk_balances t);
  cv_range : bal_value (rt_total_supply (tk_root_token t)) ≤ u64_max;
}.

Lemma conserved_check t : conserved t → TokSDK.validate_token_conservation t = Ok true.
Proof.
  intros [Hs Ht Hn Hr]. unfold TokSDK.validate_token_conservation. rewrite total_root_eq, Hs by done.
  rewrite Z.min_l by lia. by rewrite Z.eqb_refl, (proj2 (Z.leb_le _ _)).
Qed.

(** The sender of a ROOT transfer or burn has an entry. *)
Definition known_sender (t : TokenSDK) (op : TokenOperation) : bool :=
  match op with
  | TTransfer tok _ _ _ | TBurn tok _ => negb (bool_decide (tok = "ROOT"%string)) || has_entry t tok
  | _ => true
  end.

(** What an operation does to the ROOT supply: when it succeeds, the sum of the
    ROOT balances and the circulating supply change by exactly the stated
    amounts: minting adds the amount to both and respects the total supply,
    burning takes it from both, and a transfer changes neither, except that a
    sender without an entry is given 1000 units first and that burning without an
    entry reduces the supply alone. *)
Lemma supply_of_operation nonce op t t' s :
  TokSDK.execute_token_operation nonce op t = (Ok s, t') →
  moved (sum_change t op) (circulating_change t op) t t' ∧
  ∀ rcpt n, op = TMint "ROOT" rcpt n →
    bal_value (rt_circulating_supply (tk_root_token t')) ≤ bal_value (rt_total_supply (tk_root_token t')).
Proof.
  destruct op as [md su fee|tok rcpt n memo|tok rcpt n|tok n|tok n pu|tok n pu]; intros H.
  1, 5, 6: cbn [TokSDK.execute_token_operation] in H; unfold TokSDK.execute_generic_token_operation in H; st_open H; done.
  - split; [by eapply transfer_moved|done].
  - apply mint_moved in H as [Hm Hle]. split; [done|]. intros rcpt' n' Heq. injection Heq as -> -> ->.
    destruct Hm as (_ & H2 & H3). rewrite H2, H3. by apply Hle.
  - split; [by apply burn_moved in H|done].
Qed.

(** The two changes agree for a known sender. *)
Lemma changes_agree nonce op t s t' : conserved t → 0 ≤ amount_of op → known_sender t op = true →
  TokSDK.execute_token_operation nonce op t = (Ok s, t') → sum_change t op = circulating_change t op.
Proof.
  intros [Hs Ht Hn Hr] Ha Hk H. destruct (operation_nonneg _ _ _ _ _ Ha Hn H) as [_ Hburn].
  destruct op as [md su fee|tok rcpt n memo|tok rcpt n|tok n|tok n pu|tok n pu]; try done;
    cbn [sum_change circulating_change known_sender amount_of] in *; unfold if_root, has_entry in *.
  - case_bool_decide; [|done]. cbn in Hk. by destruct (TokSDK.balance_of _ _ _).
  - case_bool_decide as Htok; [|done]. subst tok. cbn in Hk.
    destruct (TokSDK.balance_of (tk_balances t) (sender t) "ROOT") as [x|] eqn:E; [|done].
    pose proof (Hburn _ _ _ eq_refl E). pose proof (root_sum_entry _ _ _ Hn E). lia.
Qed.

(** C32: rOOT is conserved: if the books balance and the sender of a ROOT
    transfer or burn has an entry, they balance after every successful operation
    and the check agrees; a ROOT transfer from a sender without an entry, which
    the code credits with 1000 units, makes the check fail instead, when the total
    supply plus 1000 fits a u64, and the call does not report it. *)
Theorem root_conserved (nonce : bytes) (op : TokenOperation) (t t' : TokenSDK) (s : State) :
  conserved t → 0 ≤ amount_of op → TokSDK.execute_token_operation nonce op t = (Ok s, t') →
  (known_sender t op = true → conserved t' ∧ TokSDK.validate_token_conservation t' = Ok true) ∧
  (∀ rcpt n memo, op = TTransfer "ROOT" rcpt n memo → known_sender t op = false →
     bal_value (rt_total_supply (tk_root_token t)) + 1000 ≤ u64_max → TokSDK.validate_token_conservation t' = Ok false).
Proof.
  intros Hc Ha H. pose proof (supply_of_operation _ _ _ _ _ H) as [(H1 & H2 & H3) Hmint].
  destruct (operation_nonneg _ _ _ _ _ Ha (cv_nonneg _ Hc) H) as [Hn' _]. split.
  - intros Hk. pose proof (changes_agree _ _ _ _ _ Hc Ha Hk H) as He.
    assert (conserved t') as Hc'; [|split; [done|by apply conserved_check]].
    destruct Hc as [Hs Ht Hn Hr]. constructor; [lia| |done|by rewrite H3].
    destruct op as [md su fee|tok rcpt n memo|tok rcpt n|tok n|tok n pu|tok n pu]; cbn [circulating_change amount_of] in *; unfold if_root in *.
    1, 2, 5, 6: rewrite H2, H3; lia.
    + case_bool_decide as Htok; [subst tok; by eapply Hmint|]. rewrite H2, H3. lia.
    + case_bool_decide; rewrite H2, H3; [|lia]. pose proof (root_sum_nonneg _ Hn). lia.
  - intros rcpt n memo -> Hk Hr'. destruct Hc as [Hs Ht Hn Hr]. cbn [sum_change circulating_change known_sender] in *.
    unfold if_root in *. rewrite bool_decide_eq_true_2 in * by done. cbn in Hk. rewrite Hk in H1.
    unfold TokSDK.validate_token_conservation. rewrite total_root_eq by done. rewrite H1, H2, Hs, Z.min_l by lia.
    by rewrite (proj2 (Z.eqb_neq _ _)) by lia.
Qed.

Lemma execute_transition_synced g l t op : synced g l (tk_core t) → Z.of_nat (length l) < 2 ^ 63 - 2 →
  ∃ s c, synced g (l ++ [s]) c ∧
    TokSDK.execute_transition op t = (Ok s, mkTokenSDK c (tk_token_metadata t) (tk_root_token t) (tk_balances t) (tk_history t)).
Proof.
  intros Hs Hl. destruct (execute_synced g l (tk_core t) op Hs Hl) as (s & c & E & Hs' & _). exists s, c. split; [done|].
  unfold TokSDK.execute_transition, TokSDK.on_core. by rewrite E.
Qed.

(** C37: a transfer in full: on a core at work, a transfer of a non-zero amount by
    a sender with an entry appends a state to the chain in every case.  If the
    entry does not cover the amount the call then fails and the balances stay;
    otherwise, unless the recipient's balance would overflow, it succeeds, and
    the amount has moved from one entry to the other, both linked to the new state's
    hash, with the operation recorded. *)
Theorem transfer_outcome (g : State) (l : list State) (nonce : bytes) (tok rcpt : string) (n : Z) (memo : option string)
    (t : TokenSDK) (x : Balance) :
  synced g l (tk_core t) → Z.of_nat (length l) < 2 ^ 63 - 2 →
  TokSDK.balance_of (tk_balances t) (sender t) tok = Some x → n ≠ 0 →
  ∃ s c, synced g (l ++ [s]) c ∧
    let b1 := TokSDK.put_balance (sender t) tok (Bal.from_state (bal_value x - n) (hash s)) (tk_balances t) in
    let value := match TokSDK.balance_of b1 rcpt tok with Some y => u64_add (bal_value y) n | None => Ok n end in
    let after b h := mkTokenSDK c (tk_token_metadata t) (tk_root_token t) b h in
    TokSDK.execute_token_operation nonce (TTransfer tok rcpt n memo) t =
      if bal_value x <? n then (Err (EValidation "Insufficient balance for transfer"), after (tk_balances t) (tk_history t))
      else match value with
           | Ok v => (Ok s, after (TokSDK.put_balance rcpt tok (Bal.from_state v (hash s)) b1)
                              (tk_history t ++ [(TTransfer tok rcpt n memo, now)]))
           | Err e => (Err e, after b1 (tk_history t))
           | Panic => (Panic, after b1 (tk_history t))
           | Hang => (Hang, after b1 (tk_history t))
           end.
Proof.
  intros Hs Hl Hx Hn.
  assert (∃ cur, Core.get_current_state (tk_core t) = Ok cur) as [cur Hcur].
  { destruct (can_last (sy_chain _ _ _ Hs)) as (cur & _ & Hlast & _). exists cur.
    unfold Core.get_current_state. by rewrite (sy_chain_machine _ _ _ Hs), Hlast. }
  assert (sender t = dev_device_id (device_info cur)) as Hsd by (unfold sender; by rewrite Hcur).
  destruct (execute_transition_synced g l t (TokSDK.transfer_operation n tok rcpt
    (unwrap_or ("Transfer " +:+ pretty n +:+ " tokens to " +:+ rcpt) memo) Unilateral nonce None) Hs Hl) as (s & c & Hs' & E).
  exists s, c. split; [done|]. cbn zeta.
  unfold TokSDK.execute_token_operation, TokSDK.current_state, TokSDK.debit_linked, TokSDK.credit, mbind_st, mget, mlift, mmod, mret_st, mfail.
  rewrite Hcur. cbn [TokSDK.validate_token_operation]. rewrite (proj2 (Z.eqb_neq _ _) Hn), <- Hsd, E.
  cbn [tk_balances]. rewrite Hx. cbn [tk_balances]. rewrite Hx. cbn [unwrap].
  destruct (bal_value x <? n); [done|]. cbn [TokSDK.set_balances tk_balances].
  destruct (match TokSDK.balance_of _ rcpt tok with Some _ => _ | None => _ end); reflexivity.
Qed.

End SdkFacts.

(** ** Witnesses *)

Module SdkWitness.
Import ToyTr.
#[local] Instance toy_order : DashOrder := {| dash_iter A m := map_to_list m; dash_iter_perm A m := reflexivity _ |}.
#[local] Instance encode_state : Bincode State := fun s => Some (hash s).
#[local] Instance encode_transition : Bincode StateTransition := fun _ => Some [].
#[local] Instance no_registry : Unbincode (gmap string TokenMetadata) := fun _ => None.
#[local] Instance encode_state_total : BincodeTotal State := fun s => ex_intro _ (hash s) eq_refl.
#[local] Existing Instances Toy.toy_blake3 Toy.toy_runtime toy_bincode_operation ToySt.toy_bincode_balance ToySt.toy_bincode_precommitment
  ToySt.toy_operation_total ToySt.toy_balance_total ToySt.toy_precommitment_total.

Definition core : CoreSDK := (Core.initialize_with_genesis g0 Core.new).2.

Lemma core_synced : synced g0 [] core.
Proof.
  destruct g0_correct as (Hn & Hh & Hid). destruct (initialize_synced g0 Hn Hh Hid) as (c & E & Hs & _).
  unfold core. by rewrite E.
Qed.

Lemma core_sdk_history_witness : ∃ c0 c l, Core.initialize_with_genesis g0 Core.new = (Ok tt, c0) ∧
  run_core [Generic "note" [] ""] c0 = (Ok l, c) ∧ Core.verify_system_integrity c None = Ok true.
Proof.
  destruct g0_correct as (Hn & Hh & Hid).
  destruct (core_sdk_history g0 [Generic "note" [] ""] Hn Hh Hid ltac:(done)) as (c0 & c & l & H0 & H1 & _ & _ & H2 & _).
  exists c0, c, l. split; [exact H0|split; [exact H1|exact H2]].
Defined.

Lemma state_proofs_never_verify_witness :
  ChainSDK.verify_state_proof (fun _ => None) ChainSDK.new (zeros 8) [] [] ≠ Ok true.
Proof. exact (proj1 (state_proofs_never_verify (fun _ => None) ChainSDK.new ChainSDK.new (zeros 8) [] [] ltac:(done))). Defined.

(** A device with 50 ROOT in circulation. *)
Definition device : string := dev_device_id (device_info g0).
Definition books : Balances := TokSDK.put_balance device "ROOT" (Bal.new 50) ∅.
Definition world : TokenSDK := mkTokenSDK core ∅ (TokSDK.set_circulating (Bal.new 50) (TokSDK.root_new 1000000000)) books [].
Definition pay : TokenOperation := TTransfer "ROOT" "bob" 20 None.

Lemma world_conserved : conserved world.
Proof.
  constructor; [by vm_compute|by vm_compute| |by vm_compute].
  apply nonneg_put; [|by vm_compute]. intros a tok x. unfold TokSDK.balance_of. by rewrite lookup_empty.
Qed.

Lemma root_conserved_witness : conserved (TokSDK.execute_token_operation [] pay world).2.
Proof.
  apply (root_conserved [] pay world _ (match (TokSDK.execute_token_operation [] pay world).1 with Ok s => s | _ => g0 end) world_conserved).
  - by vm_compute.
  - vm_compute. reflexivity.
  - vm_compute. reflexivity.
Defined.

Lemma transfer_outcome_witness : ∃ s c, synced g0 ([] ++ [s]) c.
Proof.
  destruct (transfer_outcome g0 [] [] "ROOT" "bob" 20 None world (Bal.new 50) core_synced ltac:(done)) as (s & c & H & _);
    [vm_compute; reflexivity|lia|]. by exists s, c.
Defined.

End SdkWitness.
