(* ===== verification/SdkClients.v ===== *)
(** * The SDK: identities, commitments and contacts
      (dsm_sdk/src/sdk/identity_sdk.rs, smart_commitment_sdk.rs, contact_sdk.rs)

    [IdSDK] is [IdentitySDK] over the hash chain of [Sdk], [ScSDK] is
    [SmartCommitmentSDK] over the core, [Contacts] the [ContactManager].  Nothing
    panics while one of the locks of an identity is held, so that none is ever
    poisoned.  What the code prints is left out. *)
From S2P Require Import Prelude Tokens Operations SparseIdx States RandomWalk Transition Relationship Machine Merkle Batch HashChain Policy TokenState Sphincs Precommit Keys Hexa NodeTypes Kyber Pedersen Wire Sdk Crypto.

(** ** Identities *)

Record ExtendedRelationshipContext := mkExtendedContext {
  xr_entity_state_number : Z;
  xr_counterparty_id : string;
  xr_counterparty_state_number : Z;
  xr_counterparty_public_key : bytes;
  xr_current_state_hash : bytes;
  xr_state_sequence : list bytes;
  xr_metadata : gmap string bytes;
  xr_last_interaction : Z;
}.

Record IdentitySDK := mkIdentitySDK {
  id_identity_id : string;
  id_device_genesis_states : gmap string State;
  id_hash_chain_sdk : HashChainSDK;
  id_relationship_contexts : gmap string ExtendedRelationshipContext;
  id_signing_keypair : option SignatureKeyPair;
}.

Module IdSDK.
Section IdSDK.
Context {B3 : Blake3} {RT : Runtime}.
Context {SO : Bincode Operation} {SB : Bincode Balance} {SP : Bincode PreCommitment}.

Definition set_genesis (f : gmap string State → gmap string State) (s : IdentitySDK) : IdentitySDK :=
  mkIdentitySDK (id_identity_id s) (f (id_device_genesis_states s)) (id_hash_chain_sdk s) (id_relationship_contexts s) (id_signing_keypair s).
Definition set_contexts (f : gmap string ExtendedRelationshipContext → gmap string ExtendedRelationshipContext) (s : IdentitySDK) : IdentitySDK :=
  mkIdentitySDK (id_identity_id s) (id_device_genesis_states s) (id_hash_chain_sdk s) (f (id_relationship_contexts s)) (id_signing_keypair s).
Definition set_keypair (k : SignatureKeyPair) (s : IdentitySDK) : IdentitySDK :=
  mkIdentitySDK (id_identity_id s) (id_device_genesis_states s) (id_hash_chain_sdk s) (id_relationship_contexts s) (Some k).

(** [random] is what the generator of the key pair draws. *)
Definition initialize_keys (random : bytes) : M IdentitySDK unit :=
  let* keypair := mlift (Sig.generate random) in mmod (set_keypair keypair).

(** The error of the key generation is dropped. *)
Definition new (random : bytes) (identity_id : string) (hash_chain_sdk : HashChainSDK) : outcome IdentitySDK :=
  match initialize_keys random (mkIdentitySDK identity_id ∅ hash_chain_sdk ∅ None) with
  | (Ok _, s) | (Err _, s) => Ok s
  | (Panic, _) => Panic
  | (Hang, _) => Hang
  end.

Definition no_keys : DsmError := ECrypto "No signing keys available".
Definition get_public_key (s : IdentitySDK) : outcome bytes :=
  match id_signing_keypair s with Some k => Ok (sk_public_key k) | None => Err no_keys end.
Definition sign_data (s : IdentitySDK) (data : bytes) : outcome bytes :=
  match id_signing_keypair s with Some k => Sig.sign k data | None => Err no_keys end.
Definition verify_signature (s : IdentitySDK) (data signature : bytes) : outcome bool :=
  match id_signing_keypair s with Some k => Sig.verify k data signature | None => Err no_keys end.
Definition get_identity (s : IdentitySDK) : string := id_identity_id s.

(** [State::add_metadata] *)
Definition add_metadata (key : string) (value : bytes) (s : State) : State :=
  mkState (st_id s) (state_number s) (entropy s) (hash s) (prev_state_hash s) (sparse_index s) (operation s)
    (encapsulated_entropy s) (device_info s) (flags s) (token_balances s) (matches_parameters s) (relationship_context s)
    (forward_commitment s) (position_sequence s) (positions s) (st_public_key s) (device_id s) (hashchain_head s)
    (<[key := value]> (external_data s)) (entity_sig s) (counterparty_sig s) (st_value s) (st_commitment s) (state_type s).

Definition create_genesis (device : DeviceInfo) (participant_inputs : list bytes) (metadata : option bytes) : M IdentitySDK State :=
  let entropy := blake3 (mjoin participant_inputs) in
  let state := St.new_genesis entropy device in
  let state := match metadata with Some meta => add_metadata "metadata" meta state | None => state end in
  let* h := mlift (St.compute_hash state) in
  let state := St.set_hash h state in
  do* mmod (set_genesis (insert (dev_device_id device) state));
  mret_st state.

Definition create_device_genesis (master_genesis : State) (device : DeviceInfo) : M IdentitySDK State :=
  let device_entropy := blake3 (entropy master_genesis ++ str_bytes (dev_device_id device)) in
  let state := add_metadata "master_genesis_hash" (hash master_genesis) (St.new_genesis device_entropy device) in
  let* h := mlift (St.compute_hash state) in
  let state := St.set_hash h state in
  do* mmod (set_genesis (insert (dev_device_id device) state));
  mret_st state.

Definition create_pre_commitment (s : IdentitySDK) (op : Operation) (counterparty_id : option string)
    (fixed_params variable_params : option bytes) : outcome bytes :=
  current ← ok_or (EState "No current state available for pre-commitment") (ChainSDK.current_state (id_hash_chain_sdk s));
  operation_bytes ← serialize_or "Failed to serialize operation for pre-commitment" op;
  next ← u64_add (state_number current) 1;
  let next_entropy := blake3 (entropy current ++ operation_bytes ++ u64_le next) in
  let params := unwrap_or [] (str_bytes <$> counterparty_id) ++ unwrap_or [] fixed_params ++ unwrap_or [] variable_params in
  Ok (blake3 (hash current ++ operation_bytes ++ next_entropy ++ params)).

Definition verify_pre_commitment (s : IdentitySDK) (pre_commitment : bytes) (op : Operation) : outcome bool :=
  regenerated ← create_pre_commitment s op None None None;
  Ok (constant_time_eq pre_commitment regenerated).

Definition create_relationship_context (counterparty_id : string) (counterparty_public_key : bytes) : M IdentitySDK unit :=
  let* s := mget in
  let* current := mlift (ok_or (EState "No current state available for relationship creation")
                           (ChainSDK.current_state (id_hash_chain_sdk s))) in
  mmod (set_contexts (insert counterparty_id
    (mkExtendedContext (state_number current) counterparty_id 0 counterparty_public_key (hash current) [hash current] ∅ now))).

Definition get_relationship_context (s : IdentitySDK) (counterparty_id : string) : option ExtendedRelationshipContext :=
  id_relationship_contexts s !! counterparty_id.

Definition invalidate_state (n : Z) (reason : string) (proof : bytes) : outcome Operation := Ok (Invalidate reason proof Bilateral).
Definition create_generic_operation (operation_type : string) (data : bytes) (message : string) : outcome Operation :=
  Ok (Create message data [] [] [] [] Bilateral).
Definition relationship_operation (from_id to_id relationship_type : string) (metadata : bytes) : outcome Operation :=
  Ok (AddRelationship from_id to_id relationship_type metadata [] Bilateral
        ("Add relationship from " +:+ from_id +:+ " to " +:+ to_id)).
Definition remove_relationship_operation (from to rel_type : string) (proof_data : bytes) : outcome Operation :=
  Ok (RemoveRelationship from to rel_type proof_data Bilateral ("Remove relationship from " +:+ from +:+ " to " +:+ to)).
Definition recovery_operation (id : string) (auth_sigs : list bytes) (comp_proof invalid_data sig_data : bytes) : outcome Operation :=
  Ok (Recovery ("Identity recovery for " +:+ id) 0 (zeros 32) [] invalid_data [] 0 [] [] comp_proof auth_sigs).

End IdSDK.
End IdSDK.

(** ** Commitments *)

(** [chrono::DateTime<Utc>]: seconds since the epoch and nanoseconds. *)
Record DateTime := mkDateTime { dt_timestamp : Z; dt_nanos : Z }.

Inductive CommitmentCondition :=
  | TimeLocked (unlock_time : DateTime)
  | ConditionalOracle (condition oracle_id : string)
  | Recurring (period_seconds : Z) (end_date : option DateTime).

Record SmartCommitment := mkSmartCommitment {
  sc_recipient : string;
  sc_amount : Z;
  sc_token_id : string;
  sc_condition : CommitmentCondition;
  sc_commitment_hash : bytes;
  sc_encrypted_payload : option bytes;
  sc_timestamp : Z;
}.

Record SmartCommitmentSDK := mkSmartCommitmentSDK {
  ss_core_sdk : CoreSDK;
  ss_executed_commitments : gmap bytes Z;
}.

Module ScSDK.
Section ScSDK.
Context {B3 : Blake3} {RT : Runtime}.
Context {SO : Bincode Operation} {SS : Bincode State} {SD : Bincode DateTime} {SC : Bincode SmartCommitment} {UC : Unbincode SmartCommitment}.

Definition new (core : CoreSDK) : SmartCommitmentSDK := mkSmartCommitmentSDK core ∅.

(** [bincode::serialize(x)?] *)
Definition encoded {T} `{Bincode T} (x : T) : outcome bytes := serialize_or "Bincode serialization error" x.
(** [timestamp() as u64] *)
Definition secs (now : DateTime) : Z := dt_timestamp now mod 2 ^ 64.

(** What is hashed after the current state and the recipient and amount. *)
Definition condition_bytes (c : CommitmentCondition) : outcome bytes :=
  match c with
  | TimeLocked unlock_time => t ← encoded unlock_time; Ok (str_bytes "after" ++ t)
  | ConditionalOracle condition oracle_id => Ok (str_bytes "if" ++ str_bytes condition ++ str_bytes oracle_id)
  | Recurring period_seconds end_date =>
      e ← (match end_date with Some d => encoded d | None => Ok [] end);
      Ok (str_bytes "every" ++ u64_le period_seconds ++ e)
  end.

Definition commitment_hash (s : SmartCommitmentSDK) (recipient : string) (amount : Z) (c : CommitmentCondition) : outcome bytes :=
  current ← Core.get_current_state (ss_core_sdk s);
  b ← encoded current;
  t ← condition_bytes c;
  Ok (blake3 (b ++ str_bytes recipient ++ u64_le amount ++ t)).

(** The body of the three creating methods. *)
Definition create (now : DateTime) (s : SmartCommitmentSDK) (recipient : string) (amount : Z) (c : CommitmentCondition)
    : outcome SmartCommitment :=
  h ← commitment_hash s recipient amount c;
  Ok (mkSmartCommitment recipient amount "ROOT" c h None (secs now)).

Definition create_time_locked_commitment (now : DateTime) (s : SmartCommitmentSDK) (recipient : string) (amount : Z) (unlock_time : DateTime) :=
  create now s recipient amount (TimeLocked unlock_time).
Definition create_conditional_commitment (now : DateTime) (s : SmartCommitmentSDK) (recipient : string) (amount : Z) (condition oracle_id : string) :=
  create now s recipient amount (ConditionalOracle condition oracle_id).
Definition create_recurring_commitment (now : DateTime) (s : SmartCommitmentSDK) (recipient : string) (amount period_seconds : Z)
    (end_date : option DateTime) :=
  create now s recipient amount (Recurring period_seconds end_date).

Definition verify_commitment (s : SmartCommitmentSDK) (c : SmartCommitment) : outcome bool :=
  h ← commitment_hash s (sc_recipient c) (sc_amount c) (sc_condition c);
  Ok (bool_decide (h = sc_commitment_hash c)).

(** The first [min 32 len] bytes over a zeroed array. *)
Definition array_key (shared_secret : bytes) : bytes :=
  let len := Nat.min (length shared_secret) 32 in take len shared_secret ++ zeros (32 - len).

(** [r] is what the encapsulation draws, [r'] and [nonce] what the hybrid
    encryption draws: it gets the encoded commitment where it takes the public
    key, and the key as the message. *)
Definition encrypt_commitment `{!Mlkem kem512, !Mlkem kem768, !Aead, !Chacha} (r r' nonce : bytes) (c : SmartCommitment) (recipient_public_key : bytes)
    : outcome SmartCommitment :=
  recipient_pk ← ok_or (ECrypto "Invalid recipient public key") (sized (public_key_size kem512) recipient_public_key);
  commitment_bytes ← serialize_or "Failed to serialize commitment: {}" c;
  let '(ss, ct) := kem_encapsulate (ps := kem512) r recipient_pk in
  o ← Box.encrypt_for_recipient r' nonce commitment_bytes (array_key ss);
  encrypted_payload ← ok_or (ECrypto "Encryption failed") o;
  Ok (mkSmartCommitment (sc_recipient c) (sc_amount c) (sc_token_id c) (sc_condition c) (sc_commitment_hash c)
        (Some (ct ++ encrypted_payload)) (sc_timestamp c)).

Definition decrypt_commitment `{!Mlkem kem512, !Mlkem kem768, !Aead, !Chacha} (encrypted_payload recipient_secret_key : bytes) : outcome SmartCommitment :=
  let ct_bytes_len := ciphertext_size kem512 in
  if (length encrypted_payload <=? ct_bytes_len)%nat then Err (ECrypto "Invalid encrypted payload")
  else
    let ciphertext := take ct_bytes_len encrypted_payload in
    let encrypted_data := drop ct_bytes_len encrypted_payload in
    recipient_sk ← ok_or (ECrypto "Invalid recipient secret key") (sized (secret_key_size kem512) recipient_secret_key);
    ct ← ok_or (ECrypto "Invalid ciphertext") (sized (ciphertext_size kem512) ciphertext);
    let ss := kem_decapsulate (ps := kem512) ct recipient_sk in
    o ← Box.decrypt_from_sender encrypted_data (array_key ss);
    decrypted_data ← ok_or (ECrypto "Failed to decrypt commitment") o;
    ok_or (ESerialization "Failed to deserialize commitment: {}") (deserialize decrypted_data).

(** The condition is not looked at. *)
Definition execute_commitment (c : SmartCommitment) : outcome Operation :=
  Ok (Transfer (sc_recipient c) (Bal.new (sc_amount c)) (sc_token_id c) Bilateral [] VT_Standard None (sc_recipient c)
        (sc_recipient c) "Smart commitment transfer").

Definition record_execution (now : DateTime) (c : SmartCommitment) : M SmartCommitmentSDK unit :=
  mmod (fun s => mkSmartCommitmentSDK (ss_core_sdk s) (<[sc_commitment_hash c := secs now]> (ss_executed_commitments s))).

Fixpoint encoded_paths (l : list Operation) : outcome bytes :=
  match l with
  | [] => Ok []
  | path :: l => b ← encoded path; rest ← encoded_paths l; Ok (b ++ rest)
  end.

Definition create_conditional_execution_paths (s : SmartCommitmentSDK) (paths : list Operation) : outcome bytes :=
  current ← Core.get_current_state (ss_core_sdk s);
  b ← encoded current;
  p ← encoded_paths paths;
  Ok (blake3 (b ++ p)).

Definition select_execution_path (s : SmartCommitmentSDK) (fork_commitment : bytes) (path_index : nat) (paths : list Operation)
    : outcome Operation :=
  if (length paths <=? path_index)%nat then Err (EValidation "Invalid path index {}, only {} paths available")
  else
    calculated_commitment ← create_conditional_execution_paths s paths;
    if negb (bool_decide (calculated_commitment = fork_commitment)) then Err (EValidation "Fork commitment verification failed")
    else unwrap (paths !! path_index).

Definition create_root_payment_commitment (now : DateTime) (s : SmartCommitmentSDK) (sender recipient : string) (amount : Z)
    : outcome SmartCommitment :=
  current ← Core.get_current_state (ss_core_sdk s);
  b ← encoded current;
  let h := blake3 (b ++ str_bytes sender ++ str_bytes recipient ++ u64_le amount ++ str_bytes "payment") in
  Ok (mkSmartCommitment recipient amount "ROOT" (TimeLocked now) h None (secs now)).

Definition create_commitment_operation : outcome Operation := Ok (Create "Create smart commitment" [] [] [] [] [] Bilateral).
Definition update_commitment_operation : outcome Operation := Ok (Update "Update smart commitment" "" [] [] None).

End ScSDK.
End ScSDK.

(** ** Contacts *)

Record ContactInfo := mkContactInfo {
  ci_address : string;
  ci_name : option string;
  ci_public_key : option bytes;
  ci_last_interaction : option bytes;
  ci_trust_score : Z;
  ci_metadata : gmap string string;
}.

Record ContactManager := mkContactManager {
  cm_contacts : gmap string ContactInfo;
  cm_groups : gmap string (list string);
  cm_device_id : string;
}.

Module Contacts.

Definition info_new (address : string) : ContactInfo := mkContactInfo address None None None 0 ∅.

(** [(score as i16 + delta as i16).clamp(0, 100)] *)
Definition update_trust_score (delta : Z) (c : ContactInfo) : ContactInfo :=
  mkContactInfo (ci_address c) (ci_name c) (ci_public_key c) (ci_last_interaction c)
    (Z.min 100 (Z.max 0 (ci_trust_score c + delta))) (ci_metadata c).

Definition update_from_transition (state : State) (c : ContactInfo) : ContactInfo :=
  update_trust_score 1
    (mkContactInfo (ci_address c) (ci_name c) (ci_public_key c) (Some (hash state)) (ci_trust_score c) (ci_metadata c)).

Definition new : ContactManager := mkContactManager ∅ ∅ "".
Definition new_with_device_id (device_id : string) : ContactManager := mkContactManager ∅ ∅ device_id.

(** The contact is returned as a reference into the map. *)
Definition add_contact (address : string) : M ContactManager ContactInfo := fun m =>
  match cm_contacts m !! address with
  | Some c => (Ok c, m)
  | None =>
      let c := info_new address in
      (Ok c, mkContactManager (<[address := c]> (cm_contacts m)) (cm_groups m) (cm_device_id m))
  end.

Definition get_contact (m : ContactManager) (address : string) : option ContactInfo := cm_contacts m !! address.

(** What a caller does through [get_contact_mut]. *)
Definition get_contact_mut (f : ContactInfo → ContactInfo) (address : string) (m : ContactManager) : ContactManager :=
  mkContactManager (alter f address (cm_contacts m)) (cm_groups m) (cm_device_id m).

Definition remove_contact (address : string) : M ContactManager unit :=
  mmod (fun m => mkContactManager (delete address (cm_contacts m))
                   (List.filter (fun addr => negb (bool_decide (addr = address))) <$> cm_groups m) (cm_device_id m)).

Definition add_to_group (address group : string) : M ContactManager unit := fun m =>
  match cm_contacts m !! address with
  | None => (Err (EValidation "Contact does not exist"), m)
  | Some _ =>
      (Ok tt, mkContactManager (cm_contacts m) (<[group := unwrap_or [] (cm_groups m !! group) ++ [address]]> (cm_groups m)) (cm_device_id m))
  end.

Definition get_group (m : ContactManager) (group : string) : option (list string) := cm_groups m !! group.
Definition get_all_contacts (m : ContactManager) : gmap string ContactInfo := cm_contacts m.

Definition contact_of (device_id : string) (op : Operation) : outcome string :=
  match op with
  | AddRelationship from_id to_id _ _ _ _ _ | RemoveRelationship from_id to_id _ _ _ _ =>
      Ok (if bool_decide (to_id = device_id) then from_id else to_id)
  | _ => Err (EValidation "Unsupported operation type for contact update")
  end.

Definition update_contact_from_transition (transition : StateTransition) (state : State) : M ContactManager unit := fun m =>
  match contact_of (cm_device_id m) (tr_operation transition) with
  | Ok contact_id =>
      match cm_contacts m !! contact_id with
      | Some _ => (Ok tt, get_contact_mut (update_from_transition state) contact_id m)
      | None => (Err (EValidation "Contact not found"), m)
      end
  | Err e => (Err e, m)
  | Panic => (Panic, m)
  | Hang => (Hang, m)
  end.

Definition create_add_contact_operation_with_device (device_id contact_id relationship_type : string) (metadata : bytes) (use_bilateral : bool)
    : outcome Operation :=
  Ok (AddRelationship device_id contact_id relationship_type metadata [] (if use_bilateral then Bilateral else Unilateral)
        ("Add contact relationship with " +:+ contact_id)).
Definition create_add_contact_operation (m : ContactManager) := create_add_contact_operation_with_device (cm_device_id m).

End Contacts.

(** * Facts *)

(** ** Commitments *)

Section CommitmentFacts.
Context {B3 : Blake3}.
Context {SO : Bincode Operation} {SS : Bincode State} {SD : Bincode DateTime} {SC : Bincode SmartCommitment} {UC : Unbincode SmartCommitment}.

Lemma encoded_Ok {T} `{Bincode T} (x : T) b : ScSDK.encoded x = Ok b ↔ serialize x = Some b.
Proof. apply ok_or_Ok. Qed.

Lemma commitment_hash_Ok s r n c h : ScSDK.commitment_hash s r n c = Ok h ↔
  ∃ cur b t, Core.get_current_state (ss_core_sdk s) = Ok cur ∧ serialize cur = Some b ∧ ScSDK.condition_bytes c = Ok t ∧
    h = blake3 (b ++ str_bytes r ++ u64_le n ++ t).
Proof.
  unfold ScSDK.commitment_hash. rewrite bind_Ok. setoid_rewrite bind_Ok. setoid_rewrite bind_Ok. setoid_rewrite encoded_Ok. split.
  - intros (cur & Hc & b & Hb & t & Ht & Hh). apply Ok_inj in Hh. by exists cur, b, t.
  - intros (cur & b & t & Hc & Hb & Ht & ->). exists cur. split; [done|]. exists b. split; [done|]. by exists t.
Qed.

(** A commitment is valid at the state it was made at and at no other: one of
    the three kinds, made at one state of the core, verifies at another if and only
    if the two states have the same encoding, or the two hashed inputs collide. *)
Theorem commitment_bound_to_state (now : DateTime) (s s' : SmartCommitmentSDK) (cur cur' : State) (b b' : bytes)
    (recipient : string) (amount : Z) (cond : CommitmentCondition) (c : SmartCommitment) :
  Core.get_current_state (ss_core_sdk s) = Ok cur → serialize cur = Some b →
  Core.get_current_state (ss_core_sdk s') = Ok cur' → serialize cur' = Some b' →
  ScSDK.create now s recipient amount cond = Ok c →
  ScSDK.verify_commitment s c = Ok true ∧
  ∃ t v, ScSDK.condition_bytes cond = Ok t ∧ ScSDK.verify_commitment s' c = Ok v ∧ (b' = b → v = true) ∧
    (v = true → b' = b ∨ collision blake3 (map (fun x => x ++ str_bytes recipient ++ u64_le amount ++ t) [b'; b])).
Proof.
  intros Hc Hb Hc' Hb' H. unfold ScSDK.create in H. apply bind_Ok in H as (h & Hh & <-%Ok_inj).
  unfold ScSDK.verify_commitment. cbn [sc_recipient sc_amount sc_condition sc_commitment_hash]. rewrite Hh. cbn [mbind outcome_bind].
  split; [by rewrite bool_decide_eq_true_2|].
  apply commitment_hash_Ok in Hh as (cur0 & b0 & t & E1 & E2 & Ht & ->).
  assert (cur0 = cur) as -> by congruence. assert (b0 = b) as -> by congruence.
  assert (ScSDK.commitment_hash s' recipient amount cond = Ok (blake3 (b' ++ str_bytes recipient ++ u64_le amount ++ t))) as ->
    by (apply commitment_hash_Ok; by exists cur', b', t).
  cbn [mbind outcome_bind]. exists t. eexists. split; [done|]. split; [reflexivity|].
  split; [intros ->; by rewrite bool_decide_eq_true_2|].
  intros [Heq|?]%bool_decide_eq_true%hash_bind; [left|by right]. by apply (inj (.++ _)) in Heq.
Qed.

(** A payment commitment never verifies, short of a collision of the two inputs:
    it is hashed in a layout of its own and checked in that of a time lock.  Dates are written in the form of RFC 3339
    and end with the letter Z. *)
Theorem root_payments_never_verify (now : DateTime) (s s' : SmartCommitmentSDK) (sender recipient : string) (amount : Z) (c : SmartCommitment) :
  (∀ (d : DateTime) t, serialize d = Some t → last t = Some Byte.x5a) →
  ScSDK.create_root_payment_commitment now s sender recipient amount = Ok c →
  ScSDK.verify_commitment s' c = Ok true →
  ∃ cur b cur' b' t, Core.get_current_state (ss_core_sdk s) = Ok cur ∧ serialize cur = Some b ∧
    Core.get_current_state (ss_core_sdk s') = Ok cur' ∧ serialize cur' = Some b' ∧ ScSDK.condition_bytes (TimeLocked now) = Ok t ∧
    collision blake3 [b' ++ str_bytes recipient ++ u64_le amount ++ t;
      b ++ str_bytes sender ++ str_bytes recipient ++ u64_le amount ++ str_bytes "payment"].
Proof.
  intros Hd H. unfold ScSDK.create_root_payment_commitment in H.
  apply bind_Ok in H as (cur & Hcur & H). apply bind_Ok in H as (b & Hb%encoded_Ok & <-%Ok_inj).
  unfold ScSDK.verify_commitment. cbn [sc_recipient sc_amount sc_condition sc_commitment_hash].
  destruct (ScSDK.commitment_hash s' recipient amount (TimeLocked now)) as [h| | |] eqn:E; [|done..].
  apply commitment_hash_Ok in E as (cur' & b' & t & Hcur' & Hb' & Ht & ->). cbn [mbind outcome_bind].
  case_bool_decide as Hh; [intros _|done]. exists cur, b, cur', b', t. split_and!; [done..|].
  apply hash_bind in Hh as [Heq|?]; [exfalso|done].
  cbn [ScSDK.condition_bytes] in Ht. apply bind_Ok in Ht as (d & He%encoded_Ok & <-%Ok_inj).
  apply (f_equal last) in Heq. rewrite !last_app in Heq. rewrite (Hd _ _ He) in Heq. vm_compute in Heq. discriminate.
Qed.

Context {K5 : Mlkem kem512} {K : Mlkem kem768} {AE : Aead} {CC : Chacha}.

(** What is not longer than an encapsulated key is no package. *)
Lemma short_package sk data : length data = 32%nat → Box.decrypt_from_sender sk data = Ok None.
Proof.
  intros Hd. unfold Box.decrypt_from_sender. rewrite Hd. change (32 <? 2)%nat with false. cbv iota.
  set (n := Z.to_nat _). clearbody n. destruct (Nat.ltb_spec 32 (2 + n + 12)); [done|].
  unfold Kyber.kyber_decapsulate. destruct (length sk =? secret_key_size kem768)%nat; [cbn [negb]|done].
  rewrite length_take, length_drop, Hd.
  assert ((Nat.min n (32 - 2) =? ciphertext_size kem768)%nat = false) as -> ; [|done].
  apply Nat.eqb_neq. intros E. assert (Nat.min n (32 - 2) ≤ 30)%nat as Hle by lia. rewrite E in Hle.
  apply Nat.leb_le in Hle. vm_compute in Hle. discriminate.
Qed.

(** The encryption of commitments does not work: it passes the encoded
    commitment as the public key and the key as the message, so that it fails
    unless the encoding has the size of a public key, and what decryption hands on
    is refused for every payload and every secret key. *)
Theorem commitment_encryption_fails (r r' nonce payload : bytes) (c : SmartCommitment) (pk sk : bytes) :
  (∀ x, ScSDK.encrypt_commitment r r' nonce c pk = Ok x → ∃ b, serialize c = Some b ∧ length b = public_key_size kem768) ∧
  is_ok (ScSDK.decrypt_commitment payload sk) = false.
Proof.
  split.
  - intros x H. unfold ScSDK.encrypt_commitment in H. apply bind_Ok in H as (pk' & _ & H).
    apply bind_Ok in H as (b & Hb & H). unfold serialize_or in Hb. apply ok_or_Ok in Hb. exists b. split; [done|].
    destruct (kem_encapsulate (ps := kem512) r pk') as [ss ct]. apply bind_Ok in H as (o & Ho & H).
    apply bind_Ok in H as (e & He%ok_or_Ok & _). subst o.
    unfold Box.encrypt_for_recipient, Kyber.kyber_encapsulate in Ho.
    destruct (Nat.eqb_spec (length b) (public_key_size kem768)) as [Hl|Hl]; [done|]. cbn [negb] in Ho. discriminate.
  - unfold ScSDK.decrypt_commitment. destruct (length payload <=? ciphertext_size kem512)%nat; [done|].
    destruct (sized (secret_key_size kem512) sk) as [sk'|]; [|done]. cbn [ok_or mbind outcome_bind].
    destruct (sized (ciphertext_size kem512) _) as [ct|]; [|done]. cbn [ok_or mbind outcome_bind].
    set (k := kem_decapsulate ct sk'). assert (length (ScSDK.array_key k) = 32%nat) as Hk.
    { unfold ScSDK.array_key, zeros. rewrite length_app, length_take, length_replicate. lia. }
    by rewrite (short_package _ _ Hk).
Qed.

(** ** Execution paths *)

(** Fork commitments select: at the state they were made at, every path of the
    list can be selected by its index and no other index can; a list that is
    accepted for a commitment made at a state has the encodings of the list it was
    made for, one after the other, or the two hashed inputs collide. *)
Theorem execution_paths_exact (s s' : SmartCommitmentSDK) (paths paths' : list Operation) (f : bytes) (i : nat) :
  ScSDK.create_conditional_execution_paths s paths = Ok f →
  ScSDK.select_execution_path s f i paths =
    match paths !! i with
    | Some op => Ok op
    | None => Err (EValidation "Invalid path index {}, only {} paths available")
    end ∧
  (Core.get_current_state (ss_core_sdk s') = Core.get_current_state (ss_core_sdk s) →
   ∀ op, ScSDK.select_execution_path s' f i paths' = Ok op →
     paths' !! i = Some op ∧ ∃ cur b p p', Core.get_current_state (ss_core_sdk s) = Ok cur ∧ serialize cur = Some b ∧
       ScSDK.encoded_paths paths = Ok p ∧ ScSDK.encoded_paths paths' = Ok p' ∧
       (p' = p ∨ collision blake3 [b ++ p'; b ++ p])).
Proof.
  intros H. split.
  - unfold ScSDK.select_execution_path. destruct (Nat.leb_spec (length paths) i) as [Hi|Hi].
    + by rewrite (lookup_ge_None_2 _ _ Hi).
    + rewrite H. cbn [mbind outcome_bind]. rewrite bool_decide_eq_true_2 by done. cbn [negb].
      destruct (lookup_lt_is_Some_2 _ _ Hi) as [op ->]. done.
  - intros Hs op Hop. unfold ScSDK.select_execution_path in Hop. destruct (length paths' <=? i)%nat; [done|].
    apply bind_Ok in Hop as (f' & Hf & Hop). case_bool_decide as E; [|done]. cbn [negb] in Hop. subst f'.
    unfold unwrap in Hop. destruct (paths' !! i) as [op'|]; [|done]. apply Ok_inj in Hop. subst op'. split; [done|].
    unfold ScSDK.create_conditional_execution_paths in H, Hf. rewrite Hs in Hf.
    apply bind_Ok in H as (cur & Hc & H). rewrite Hc in Hf. cbn [mbind outcome_bind] in Hf.
    apply bind_Ok in H as (b & Hb & H). rewrite Hb in Hf. cbn [mbind outcome_bind] in Hf.
    apply bind_Ok in H as (p & Hp & <-%Ok_inj). apply bind_Ok in Hf as (p' & Hp' & E%Ok_inj).
    exists cur, b, p, p'. split_and!; [done|by apply encoded_Ok|done..|].
    apply hash_bind in E as [Heq|?]; [left|by right]. by apply (inj (b ++.)) in Heq.
Qed.

End CommitmentFacts.

(** ** Identities *)

Section IdentityFacts.
Context {B3 : Blake3} {RT : Runtime}.
Context {SO : Bincode Operation} {SB : Bincode Balance} {SP : Bincode PreCommitment}.

(** Pre-commitments are only checked without their parameters: one made with
    a counterparty or parameters is refused by the check at the same state unless
    they are all empty, or the input with them and the one without collide; one
    made without them is accepted. *)
Theorem pre_commitment_parameters_lost (s : IdentitySDK) (op : Operation) (counterparty : option string)
    (fixed variable : option bytes) (p : bytes) :
  IdSDK.create_pre_commitment s op counterparty fixed variable = Ok p →
  let params := unwrap_or [] (str_bytes <$> counterparty) ++ unwrap_or [] fixed ++ unwrap_or [] variable in
  ∃ cur b v, ChainSDK.current_state (id_hash_chain_sdk s) = Some cur ∧ serialize op = Some b ∧
    IdSDK.verify_pre_commitment s p op = Ok v ∧ (params = [] → v = true) ∧
    (v = true → params = [] ∨
     collision blake3 (map (fun x => hash cur ++ b ++ blake3 (entropy cur ++ b ++ u64_le (state_number cur + 1)) ++ x) [params; []])).
Proof.
  intros H. cbv zeta. set (params := unwrap_or [] _ ++ _). unfold IdSDK.verify_pre_commitment, IdSDK.create_pre_commitment in *.
  apply bind_Ok in H as (cur & Hc & H). rewrite Hc. cbn [mbind outcome_bind].
  apply bind_Ok in H as (b & Hb & H). rewrite Hb. cbn [mbind outcome_bind].
  apply bind_Ok in H as (n & Hn & <-%Ok_inj). rewrite Hn. cbn [mbind outcome_bind unwrap_or fmap option_fmap option_map app].
  apply ok_or_Ok in Hc, Hb. assert (n = state_number cur + 1) as -> by (unfold u64_add in Hn; by case_test; [injection Hn|]).
  fold params. exists cur, b. eexists. split_and!; [done..|reflexivity| |]; set (e := blake3 (entropy cur ++ _)).
  - intros ->. by apply constant_time_eq_spec.
  - intros [Heq|?]%constant_time_eq_spec%hash_bind; [left|by right]. by do 3 apply (inj (app _)) in Heq.
Qed.

(** The hash of a state does not cover its metadata. *)
Lemma compute_hash_metadata key v s : St.compute_hash (IdSDK.add_metadata key v s) = St.compute_hash s.
Proof. reflexivity. Qed.

(** Genesis states of devices are correct, stored, and not bound to what they
    claim: the state that is returned carries its hash and is the one kept for the
    device, and a device genesis made from another master of the same entropy has
    the same hash, whatever the master's hash that is recorded in it. *)
Theorem device_genesis_unbound (s s' s1 s1' : IdentitySDK) (d : DeviceInfo) (m m' st st' : State) :
  entropy m' = entropy m →
  IdSDK.create_device_genesis m d s = (Ok st, s') → IdSDK.create_device_genesis m' d s1 = (Ok st', s1') →
  St.compute_hash st = Ok (hash st) ∧ id_device_genesis_states s' !! dev_device_id d = Some st ∧
  external_data st !! "master_genesis_hash"%string = Some (hash m) ∧
  external_data st' !! "master_genesis_hash"%string = Some (hash m') ∧ hash st' = hash st.
Proof.
  intros He. unfold IdSDK.create_device_genesis. rewrite He. unfold mbind_st, mlift, mmod, mret_st.
  rewrite !compute_hash_metadata.
  destruct (St.compute_hash (St.new_genesis _ d)) as [h| | |] eqn:Eh; [|discriminate..].
  intros [= <- <-] [= <- _]. split_and!; [exact Eh| | |..]; cbn; [apply lookup_insert_eq|apply lookup_insert_eq..|done].
Qed.

(** An identity that has its keys signs what it verifies. *)
Theorem identity_signs (random : bytes) (id : string) (chain : HashChainSDK) (data : bytes) :
  length random = 96%nat → data ≠ [] →
  ∃ s, IdSDK.new random id chain = Ok s ∧ IdSDK.get_identity s = id ∧
    ∃ sig, IdSDK.sign_data s data = Ok sig ∧ IdSDK.verify_signature s data sig = Ok true.
Proof.
  intros Hr Hd. destruct (generate_keypair random Hr) as (pk & sk & E & Hk).
  unfold IdSDK.new, IdSDK.initialize_keys, Sig.generate, mbind_st, mlift. rewrite E. cbn [mbind outcome_bind mmod].
  eexists. split; [reflexivity|]. split; [done|]. unfold IdSDK.sign_data, IdSDK.verify_signature.
  cbn [IdSDK.set_keypair id_signing_keypair fst snd]. unfold Sig.sign, Sig.verify. cbn [sk_public_key sk_secret_key].
  destruct (sign_verify pk sk data Hk Hd) as (sig & H1 & H2 & H3). rewrite bool_decide_eq_false_2 by done.
  exists sig. split; [done|]. rewrite bool_decide_eq_false_2; [done|].
  intros ->. unfold CRYPTO_BYTES in H2. cbn [length] in H2. lia.
Qed.

End IdentityFacts.

(** ** Contacts *)

(** Contacts are kept under their addresses with a trust score of at most a
    hundred, and groups list contacts. *)
Record contacts_ok (m : ContactManager) : Prop := {
  co_contacts : map_Forall (λ a c, ci_address c = a ∧ 0 ≤ ci_trust_score c ≤ 100) (cm_contacts m);
  co_groups : map_Forall (λ _ l, Forall (λ a, is_Some (cm_contacts m !! a)) l) (cm_groups m);
}.

Inductive ContactCmd :=
  | CAdd (address : string)
  | CEdit (address : string) (name : option string) (public_key : option bytes) (metadata : gmap string string)
  | CDrop (address : string)
  | CGroup (address group : string)
  | CSeen (t : StateTransition) (s : State).

(** Callers edit a contact through the reference that [get_contact_mut] gives. *)
Definition edit (name : option string) (public_key : option bytes) (metadata : gmap string string) (c : ContactInfo) : ContactInfo :=
  mkContactInfo (ci_address c) name public_key (ci_last_interaction c) (ci_trust_score c) metadata.

Definition contact_apply (m : ContactManager) (cmd : ContactCmd) : ContactManager :=
  match cmd with
  | CAdd a => (Contacts.add_contact a m).2
  | CEdit a n k d => Contacts.get_contact_mut (edit n k d) a m
  | CDrop a => (Contacts.remove_contact a m).2
  | CGroup a g => (Contacts.add_to_group a g m).2
  | CSeen t s => (Contacts.update_contact_from_transition t s m).2
  end.

Lemma edit_ok f a m :
  (∀ c, ci_address (f c) = ci_address c ∧ (0 ≤ ci_trust_score c ≤ 100 → 0 ≤ ci_trust_score (f c) ≤ 100)) →
  contacts_ok m → contacts_ok (Contacts.get_contact_mut f a m).
Proof.
  intros Hf [Hc Hg]. constructor; cbn [Contacts.get_contact_mut cm_contacts cm_groups].
  - intros k c. rewrite lookup_alter_Some. intros [(<- & c0 & E & ->)|[_ E]]; destruct (Hc _ _ E) as [H1 H2]; [|done].
    destruct (Hf c0) as [F1 F2]. split; [congruence|by apply F2].
  - intros g l E. eapply Forall_impl; [by apply (Hg _ _ E)|]. intros x [c Hx]. rewrite lookup_alter, Hx.
    destruct (decide (a = x)) as [->|]; [rewrite Hx|]; by eexists.
Qed.

Lemma contact_apply_ok m cmd : contacts_ok m → contacts_ok (contact_apply m cmd).
Proof.
  intros Hm. destruct cmd as [a|a n k d|a|a g|t s]; cbn [contact_apply].
  - unfold Contacts.add_contact. destruct (cm_contacts m !! a) as [c|] eqn:E; [done|].
    destruct Hm as [Hc Hg]. constructor; cbn [snd cm_contacts cm_groups].
    + apply map_Forall_insert_2; [split; [done|cbn; lia]|done].
    + intros g l El. eapply Forall_impl; [by apply (Hg _ _ El)|]. intros x [c Hx].
      rewrite lookup_insert_ne by congruence. by eexists.
  - apply edit_ok; [|done]. done.
  - destruct Hm as [Hc Hg]. constructor; cbn [Contacts.remove_contact mmod snd cm_contacts cm_groups].
    + by apply map_Forall_delete.
    + intros g l El. rewrite lookup_fmap in El. destruct (cm_groups m !! g) as [l0|] eqn:E0; [|done].
      injection El as <-. apply Forall_forall. intros x Hx. apply list_elem_of_In, filter_In in Hx as [Hx Hne].
      apply list_elem_of_In in Hx. specialize (Hg _ _ E0). rewrite Forall_forall in Hg.
      rewrite lookup_delete_ne; [by apply Hg|]. intros ->. by rewrite bool_decide_eq_true_2 in Hne.
  - unfold Contacts.add_to_group. destruct (cm_contacts m !! a) as [c|] eqn:E; [|done].
    destruct Hm as [Hc Hg]. constructor; cbn [snd cm_contacts cm_groups]; [done|].
    apply map_Forall_insert_2; [|done]. apply Forall_app_2; [|constructor; [by eexists|constructor]].
    destruct (cm_groups m !! g) as [l|] eqn:El; [exact (Hg _ _ El)|constructor].
  - unfold Contacts.update_contact_from_transition. destruct (Contacts.contact_of _ _) as [x| | |]; [|done..].
    destruct (cm_contacts m !! x); [|done]. cbn [snd]. apply edit_ok; [|done].
    intros y. split; [done|]. cbn. lia.
Qed.

(** The contact manager keeps its invariant: after any sequence of calls,
    failed ones included, contacts are kept under their own addresses with a score
    between 0 and 100, every member of a group is a contact, and a removed contact
    is in no group. *)
Theorem contacts_invariant (device_id : string) (cmds : list ContactCmd) (a : string) :
  let m := fold_left contact_apply cmds (Contacts.new_with_device_id device_id) in
  contacts_ok m ∧
  let m' := (Contacts.remove_contact a m).2 in
  contacts_ok m' ∧ Contacts.get_contact m' a = None ∧ ∀ g l, Contacts.get_group m' g = Some l → a ∉ l.
Proof.
  cbv zeta. set (m0 := Contacts.new_with_device_id device_id). assert (contacts_ok m0) as H0 by (constructor; apply map_Forall_empty).
  assert (contacts_ok (fold_left contact_apply cmds m0)) as Hm.
  { clearbody m0. induction cmds as [|cmd cmds IH] in m0, H0 |- *; [done|]. by apply IH, contact_apply_ok. }
  revert Hm. generalize (fold_left contact_apply cmds m0). intros m Hm. split; [done|].
  split; [exact (contact_apply_ok m (CDrop a) Hm)|].
  cbn [Contacts.remove_contact mmod snd]. unfold Contacts.get_contact, Contacts.get_group. cbn [cm_contacts cm_groups].
  split; [apply lookup_delete_eq|]. intros g l. rewrite lookup_fmap. destruct (cm_groups m !! g) as [l0|]; [|done].
  intros [= <-] Hx. apply list_elem_of_In, filter_In in Hx as [_ Hx]. by rewrite bool_decide_eq_true_2 in Hx.
Qed.

(** ** Witnesses *)

Module SdkClientsWitness.
#[local] Existing Instances Toy.toy_blake3 Toy.toy_runtime.
#[local] Instance encode_date : Bincode DateTime := fun _ => Some [Byte.x5a].
#[local] Instance encode_state : Bincode State := fun s => Some (entropy s).
#[local] Instance encode_op : Bincode Operation := fun op => match op with Genesis => Some [Byte.x00] | _ => Some [Byte.x01] end.
#[local] Instance encode_balance : Bincode Balance := fun _ => Some [].
#[local] Instance encode_pre : Bincode PreCommitment := fun _ => Some [].

Definition at_state (k : u8) : State := St.new_genesis [k] (mkDevice "device" [k]).
Definition chain_at (k : u8) : HashChainSDK := mkHashChainSDK HC.new (SM.set_state (at_state k) SM.new) None.
Definition sdk_at (k : u8) : SmartCommitmentSDK := ScSDK.new (mkCoreSDK (chain_at k) SM.new false).
Definition noon : DateTime := mkDateTime 1700000000 0.

(** A commitment made at one state is refused at the next. *)
Lemma commitment_bound_to_state_witness :
  ∃ c, ScSDK.create noon (sdk_at Byte.x01) "bob" 5 (TimeLocked noon) = Ok c ∧
    ScSDK.verify_commitment (sdk_at Byte.x01) c = Ok true ∧ ∃ v, ScSDK.verify_commitment (sdk_at Byte.x02) c = Ok v.
Proof.
  destruct (ScSDK.create noon (sdk_at Byte.x01) "bob" 5 (TimeLocked noon)) as [c|e| |] eqn:E; [|by vm_compute in E..].
  destruct (commitment_bound_to_state noon (sdk_at Byte.x01) (sdk_at Byte.x02) (at_state Byte.x01) (at_state Byte.x02) [Byte.x01] [Byte.x02]
    "bob" 5 (TimeLocked noon) c eq_refl eq_refl eq_refl eq_refl E) as (H1 & _ & v & _ & H2 & _).
  exists c. split; [reflexivity|split; [exact H1|exists v; exact H2]].
Defined.

Lemma root_payments_never_verify_witness :
  ∃ c, ScSDK.create_root_payment_commitment noon (sdk_at Byte.x01) "alice" "bob" 5 = Ok c ∧
    ScSDK.verify_commitment (sdk_at Byte.x01) c ≠ Ok true.
Proof.
  destruct (ScSDK.create_root_payment_commitment noon (sdk_at Byte.x01) "alice" "bob" 5) as [c|e| |] eqn:E; [|by vm_compute in E..].
  exists c. split; [reflexivity|]. intros Hv.
  assert (∀ (d : DateTime) t, serialize d = Some t → last t = Some Byte.x5a) as Hd by (intros d t [= <-]; reflexivity).
  destruct (root_payments_never_verify noon (sdk_at Byte.x01) (sdk_at Byte.x01) "alice" "bob" 5 c Hd E Hv)
    as (cur & b & cur' & b' & t & H1 & H2 & H3 & H4 & H5 & Hc).
  apply Ok_inj in H1 as <-. apply Some_inj in H2 as <-. apply Ok_inj in H3 as <-. apply Some_inj in H4 as <-. apply Ok_inj in H5 as <-.
  revert Hc. apply (bool_decide_unpack (¬ collision blake3 _)). vm_compute. exact I.
Defined.

Definition two_paths : list Operation := [Genesis; Generic "note" [] ""].

Lemma execution_paths_exact_witness :
  ∃ f, ScSDK.create_conditional_execution_paths (sdk_at Byte.x01) two_paths = Ok f ∧
    ScSDK.select_execution_path (sdk_at Byte.x01) f 1 two_paths = Ok (Generic "note" [] "").
Proof.
  destruct (ScSDK.create_conditional_execution_paths (sdk_at Byte.x01) two_paths) as [f|e| |] eqn:E; [|by vm_compute in E..].
  exists f. split; [reflexivity|].
  exact (proj1 (execution_paths_exact (sdk_at Byte.x01) (sdk_at Byte.x01) two_paths two_paths f 1 E)).
Defined.

Definition identity_at (k : u8) : IdentitySDK := mkIdentitySDK "alice" ∅ (chain_at k) ∅ None.

Lemma pre_commitment_parameters_lost_witness :
  ∃ p v, IdSDK.create_pre_commitment (identity_at Byte.x01) Genesis (Some "bob"%string) None None = Ok p ∧
    IdSDK.verify_pre_commitment (identity_at Byte.x01) p Genesis = Ok v.
Proof.
  destruct (IdSDK.create_pre_commitment (identity_at Byte.x01) Genesis (Some "bob"%string) None None) as [p|e| |] eqn:E; [|by vm_compute in E..].
  destruct (pre_commitment_parameters_lost (identity_at Byte.x01) Genesis (Some "bob"%string) None None p E) as (_ & _ & v & _ & _ & H & _).
  exists p, v. split; [reflexivity|exact H].
Defined.

Lemma device_genesis_unbound_witness :
  ∃ st st' s s', IdSDK.create_device_genesis (at_state Byte.x01) (mkDevice "phone" []) (identity_at Byte.x01) = (Ok st, s) ∧
    IdSDK.create_device_genesis (St.set_hash [Byte.x09] (at_state Byte.x01)) (mkDevice "phone" []) (identity_at Byte.x01) = (Ok st', s') ∧
    hash st' = hash st.
Proof.
  destruct (IdSDK.create_device_genesis (at_state Byte.x01) (mkDevice "phone" []) (identity_at Byte.x01)) as [[st|e| |] s] eqn:E;
    [|by vm_compute in E..].
  destruct (IdSDK.create_device_genesis (St.set_hash [Byte.x09] (at_state Byte.x01)) (mkDevice "phone" []) (identity_at Byte.x01))
    as [[st'|e| |] s'] eqn:E'; [|by vm_compute in E'..].
  exists st, st', s, s'. split; [reflexivity|]. split; [reflexivity|].
  pose proof (device_genesis_unbound (identity_at Byte.x01) _ (identity_at Byte.x01) _ (mkDevice "phone" []) (at_state Byte.x01)
    (St.set_hash [Byte.x09] (at_state Byte.x01)) st st' eq_refl E E') as (_ & _ & _ & _ & H).
  exact H.
Defined.

Lemma identity_signs_witness :
  ∃ s sig, IdSDK.new (zeros 96) "alice" (chain_at Byte.x01) = Ok s ∧ IdSDK.sign_data s [Byte.x07] = Ok sig ∧
    IdSDK.verify_signature s [Byte.x07] sig = Ok true.
Proof.
  destruct (identity_signs (zeros 96) "alice" (chain_at Byte.x01) [Byte.x07] eq_refl ltac:(done)) as (s & H & _ & sig & H1 & H2).
  exists s, sig. split; [exact H|split; [exact H1|exact H2]].
Defined.
End SdkClientsWitness.
