(* ===== verification/Directory.v ===== *)
(** * The directory of genesis states and invalidations (dsm/src/communication/directory.rs)

    [Client] is [DirectoryClient], which asks the endpoints of a directory over
    HTTP and caches what it published and fetched; [NetI] is its
    [NetworkInterface]; [Dir] is [DirectoryService], a local store in front of
    a client.  [reqwest] is the feature of that name of the crate, without which
    there is no HTTP client.  The answers of the endpoints, the clock and the
    tokio context of the caller are arguments of each call ([Env]); the requests
    sent are recorded in the client, the spawned tasks in the service.  Clones
    share the caches and the store, so that one object stands for all of them.
    Sleeping between two attempts takes time and has no other effect. *)
From S2P Require Import Prelude Tokens Operations SparseIdx States RandomWalk Transition Merkle Batch Hexa NodeTypes.

(** ** Data *)

Record RetryConfig := mkRetryConfig {
  rc_max_retries : nat;
  rc_base_delay_ms : Z;
  rc_max_delay_ms : Z;
  rc_timeout_ms : Z;
}.

Record DirectoryResponse {T : Type} := mkResponse {
  dr_status : Z;
  dr_message : string;
  dr_data : option T;
  dr_error : option string;
  dr_timestamp : Z;
}.
Arguments DirectoryResponse : clear implicits.

Inductive HttpMethod := GET | PUT.

Record Request := mkRequest {
  rq_url : string;
  rq_method : HttpMethod;
  rq_body : option bytes;
}.

(** What comes back for a request: a status with the parsed body, or an error
    of the HTTP client, which is a timeout or a failure to connect or neither. *)
Inductive HttpReply (T : Type) :=
  | Replied (status : Z) (json : option (DirectoryResponse T))
  | Failed (timeout_or_connect : bool).
Arguments Replied {T}.
Arguments Failed {T}.

Record InvalidationMarker := mkMarker {
  im_identity_id : string;
  im_state_hash : bytes;
  im_timestamp : Z;
  im_signatures : list bytes;
}.

Record DirectoryClient := mkDirectoryClient {
  dc_genesis_cache : gmap string bytes;
  dc_invalidation_cache : gmap string bytes;
  dc_endpoints : list string;
  dc_sent : list Request; (* the requests that were sent *)
}.

Inductive DirectoryEntryType :=
  | GenesisEntry | InvalidationEntry | StateTransitionEntry | OtherEntry (name : string).

Record DirectoryEntry := mkDirectoryEntry {
  de_data : bytes;
  de_state_number : Z;
  de_timestamp : Z;
  de_entry_type : DirectoryEntryType;
}.

Inductive ConsistencyMode := LocalOnly | WriteLocalAsync | WriteSync | WriteRemoteFirst.

Inductive TombstoneType := StateInvalidation | IdentityRevocation | DeviceRevocation.

(** A task given to [tokio::spawn]. *)
Inductive SpawnedTask :=
  | PublishGenesis (s : State)
  | PublishInvalidation (identity_id : string) (state_hash : bytes) (signatures : list bytes).

Record DirectoryService := mkDirectoryService {
  ds_store : gmap string DirectoryEntry;
  ds_client : option DirectoryClient;
  ds_consistency_mode : ConsistencyMode;
  ds_spawned : list SpawnedTask;
}.

(** What a call meets: the seconds since the epoch, [None] for a clock before
    it; whether the calling thread drives a tokio runtime, and whether a new
    one can be created; and the answers of the endpoints, by the position of the
    endpoint and the number of the retry. *)
Record Env := mkEnv {
  env_clock : option Z;
  env_in_runtime : bool;
  env_runtime_starts : bool;
  env_unit : nat → nat → HttpReply unit;
  env_bytes : nat → nat → HttpReply bytes;
  env_string : nat → nat → HttpReply string;
}.

(** ** The client *)

Module Client.
Section Client.
Context (reqwest : bool).
Context {SS : Bincode State} {US : Unbincode State} {SM : Bincode InvalidationMarker} {UM : Unbincode InvalidationMarker}.

Definition network (context : string) : DsmError := ENetwork context "" None.

Definition default_retry : RetryConfig := mkRetryConfig 3 500 5000 10000.

Definition new : DirectoryClient :=
  mkDirectoryClient ∅ ∅ ["https://directory1.dsm-network.io"; "https://directory2.dsm-network.io"] [].
Definition with_endpoint (endpoint : string) : DirectoryClient := mkDirectoryClient ∅ ∅ [endpoint] [].
Definition add_endpoint (endpoint : string) (c : DirectoryClient) : DirectoryClient :=
  mkDirectoryClient (dc_genesis_cache c) (dc_invalidation_cache c) (dc_endpoints c ++ [endpoint]) (dc_sent c).

Definition cache_genesis (key : string) (b : bytes) (c : DirectoryClient) : DirectoryClient :=
  mkDirectoryClient (<[key := b]> (dc_genesis_cache c)) (dc_invalidation_cache c) (dc_endpoints c) (dc_sent c).
Definition cache_invalidation (key : string) (b : bytes) (c : DirectoryClient) : DirectoryClient :=
  mkDirectoryClient (dc_genesis_cache c) (<[key := b]> (dc_invalidation_cache c)) (dc_endpoints c) (dc_sent c).
Definition record (rq : Request) (c : DirectoryClient) : DirectoryClient :=
  mkDirectoryClient (dc_genesis_cache c) (dc_invalidation_cache c) (dc_endpoints c) (dc_sent c ++ [rq]).

(** The delay before a retry, without the jitter. *)
Definition backoff (config : RetryConfig) (retry : nat) : outcome Z :=
  factor ← u64_shl1 (Z.of_nat retry - 1);
  delay ← u64_mul (rc_base_delay_ms config) factor;
  Ok (Z.min delay (rc_max_delay_ms config)).

(** The [match] on the reply: return, or remember an error and either go on
    with the next retry ([true]) or break out of the retries ([false]). *)
Definition judge {T} (r : HttpReply T) : DirectoryResponse T + DsmError * bool :=
  match r with
  | Replied status json =>
      if (200 <=? status) && (status <? 300) then
        match json with
        | Some response => inl response
        | None => inr (network "Failed to parse directory response: {}", true)
        end
      else inr (network "Directory service returned error: {} - {}",
                negb ((400 <=? status) && (status <? 500) && negb (status =? 429)))
  | Failed retriable => inr (network "Failed to connect to directory service: {}", retriable)
  end.

(** The inner loop, over the numbers of the retries. *)
Fixpoint retries {T} (config : RetryConfig) (ask : nat → HttpReply T) (rq : Request) (l : list nat)
    (last_error : option DsmError) : M DirectoryClient (DirectoryResponse T + option DsmError) :=
  match l with
  | [] => mret_st (inr last_error)
  | retry :: l =>
      do* (if (0 <? retry)%nat then mlift (backoff config retry ≫= fun _ => Ok tt) else mret_st tt);
      do* mmod (record rq);
      match judge (ask retry) with
      | inl response => mret_st (inl response)
      | inr (e, true) => retries config ask rq l (Some e)
      | inr (e, false) => mret_st (inr (Some e))
      end
  end.

(** The outer loop, over the endpoints and their positions. *)
Fixpoint ask_endpoints {T} (net : nat → nat → HttpReply T) (path : string) (method : HttpMethod) (body : option bytes)
    (i : nat) (endpoints : list string) (last_error : option DsmError) : M DirectoryClient (DirectoryResponse T) :=
  match endpoints with
  | [] => mfail (unwrap_or (network "Failed to communicate with any directory service endpoint") last_error)
  | endpoint :: endpoints =>
      let* r := retries default_retry (net i) (mkRequest (endpoint +:+ path) method body)
                  (seq 0 (S (rc_max_retries default_retry))) last_error in
      match r with
      | inl response => mret_st response
      | inr last_error => ask_endpoints net path method body (S i) endpoints last_error
      end
  end.

Definition send_request {T} (net : nat → nat → HttpReply T) (path : string) (method : HttpMethod) (body : option bytes)
    : M DirectoryClient (DirectoryResponse T) :=
  let* c := mget in
  ask_endpoints net path method body 0 (dc_endpoints c) None.

Definition ping_directory (env : Env) : M DirectoryClient bool := fun c =>
  match send_request (env_string env) "/api/v1/ping" GET None c with
  | (Ok response, c) => (Ok (dr_status response =? 200), c)
  | (Err _, c) => (Ok false, c)
  | (Panic, c) => (Panic, c)
  | (Hang, c) => (Hang, c)
  end.

Definition accepted {T} (r : DirectoryResponse T) : bool := (dr_status r =? 200) || (dr_status r =? 201).

Definition publish_genesis (env : Env) (genesis : State) : M DirectoryClient unit :=
  if negb (state_number genesis =? 0) then mfail (EValidation "Only genesis states can be published to directory")
  else
    let* genesis_bytes := mlift (serialize_or "{}" genesis) in
    do* mmod (cache_genesis (st_id genesis) genesis_bytes);
    if reqwest then
      let* response := send_request (env_unit env) ("/api/v1/genesis/" +:+ st_id genesis) PUT (Some genesis_bytes) in
      if accepted response then mret_st tt else mfail (network "Failed to publish genesis state: {}")
    else mret_st tt.

(** The state that stands for every unknown one without an HTTP client. *)
Definition mock_state : State := St.new_genesis (zeros 4) (mkDevice "mock_device" (zeros 4)).

Definition get_genesis (env : Env) (genesis_id : string) : M DirectoryClient State :=
  let* c := mget in
  match dc_genesis_cache c !! genesis_id with
  | Some b => mlift (ok_or (ESerialization "{}") (deserialize b))
  | None =>
      if reqwest then
        let* response := send_request (env_bytes env) ("/api/v1/genesis/" +:+ genesis_id) GET None in
        if negb (dr_status response =? 200) then mfail (ENotFound "Genesis state" (Some "{} not found in directory"%string))
        else
          let* genesis_bytes := mlift (ok_or (network "Directory response missing data field") (dr_data response)) in
          let* state := mlift (ok_or (ESerialization "Failed to deserialize genesis state: {}") (deserialize genesis_bytes)) in
          do* mmod (cache_genesis genesis_id genesis_bytes);
          mret_st state
      else mret_st mock_state
  end.

Definition publish_invalidation (env : Env) (identity_id : string) (state_hash : bytes) (signatures : list bytes)
    : M DirectoryClient unit :=
  let* timestamp := mlift (ok_or (EGeneric "Failed to get current timestamp") (env_clock env)) in
  let marker := mkMarker identity_id state_hash timestamp signatures in
  let* marker_bytes := mlift (serialize_or "Failed to serialize invalidation marker" marker) in
  do* mmod (cache_invalidation identity_id marker_bytes);
  if reqwest then
    let* response := send_request (env_unit env) ("/api/v1/invalidation/" +:+ identity_id) PUT (Some marker_bytes) in
    if accepted response then mret_st tt else mfail (network "Failed to publish invalidation marker: {}")
  else mret_st tt.

Definition check_invalidation (env : Env) (identity_id : string) : M DirectoryClient (option InvalidationMarker) :=
  let* c := mget in
  match dc_invalidation_cache c !! identity_id with
  | Some b =>
      let* marker := mlift (ok_or (ESerialization "Failed to deserialize cached invalidation marker") (deserialize b)) in
      mret_st (Some marker)
  | None =>
      if reqwest then
        let* response := send_request (env_bytes env) ("/api/v1/invalidation/" +:+ identity_id) GET None in
        if dr_status response =? 404 then mret_st None
        else if negb (dr_status response =? 200) then mfail (network "Failed to check invalidation: {}")
        else
          match dr_data response with
          | None => mret_st None
          | Some marker_bytes =>
              let* marker := mlift (ok_or (ESerialization "Failed to deserialize invalidation marker") (deserialize marker_bytes)) in
              do* mmod (cache_invalidation identity_id marker_bytes);
              mret_st (Some marker)
          end
      else mret_st None
  end.

End Client.
End Client.

(** The client as a [NetworkInterface]: its genesis cache is the store. *)
Module NetI.
Definition connect : M DirectoryClient unit := mret_st tt.
Definition disconnect : M DirectoryClient unit := mret_st tt.
Definition send (peer_id : string) (data : bytes) : outcome unit := Err (Client.network "Not supported for directory service").
Definition receive : outcome (string * bytes) := Err (Client.network "Not supported for directory service").
Definition publish (key : string) (data : bytes) : M DirectoryClient unit := mmod (Client.cache_genesis key data).
Definition retrieve (c : DirectoryClient) (key : string) : outcome bytes :=
  ok_or (ENotFound "key" (Some key)) (dc_genesis_cache c !! key).
Definition is_peer_online (peer_id : string) : outcome bool := Ok true.
End NetI.

(** ** The service *)

Module Dir.
Section Dir.
Context (reqwest : bool).
Context {SS : Bincode State} {US : Unbincode State} {SM : Bincode InvalidationMarker} {UM : Unbincode InvalidationMarker}.
Context {HX : Hex} {DO : DashOrder}.

Definition new : DirectoryService := mkDirectoryService ∅ None LocalOnly [].
Definition with_endpoint (endpoint : string) : DirectoryService :=
  mkDirectoryService ∅ (Some (Client.with_endpoint endpoint)) WriteSync [].

Definition set_store (f : gmap string DirectoryEntry → gmap string DirectoryEntry) (s : DirectoryService) : DirectoryService :=
  mkDirectoryService (f (ds_store s)) (ds_client s) (ds_consistency_mode s) (ds_spawned s).
Definition set_client (c : DirectoryClient) (s : DirectoryService) : DirectoryService :=
  mkDirectoryService (ds_store s) (Some c) (ds_consistency_mode s) (ds_spawned s).
Definition set_spawned (l : list SpawnedTask) (s : DirectoryService) : DirectoryService :=
  mkDirectoryService (ds_store s) (ds_client s) (ds_consistency_mode s) l.
Definition set_consistency_mode (mode : ConsistencyMode) (s : DirectoryService) : DirectoryService :=
  mkDirectoryService (ds_store s) (ds_client s) mode (ds_spawned s).

(** A call of the client of the service. *)
Definition on_client {A} (client : DirectoryClient) (m : M DirectoryClient A) : M DirectoryService A := fun s =>
  let '(r, c) := m client in (r, set_client c s).

(** [Runtime::new()] and [block_on], which panics on a thread that drives a
    runtime. *)
Definition block_on {A} (env : Env) (msg : string) (m : M DirectoryService A) : M DirectoryService A :=
  if negb (env_runtime_starts env) then mfail (EGeneric msg)
  else if env_in_runtime env then mlift Panic
  else m.

(** [tokio::spawn] panics on a thread that does not drive a runtime. *)
Definition spawn (env : Env) (t : SpawnedTask) : M DirectoryService unit :=
  if env_in_runtime env then mmod (fun s => set_spawned (ds_spawned s ++ [t]) s) else mlift Panic.

(** The turn of the [i]-th spawned task; its result is only logged. *)
Definition run_spawned (env : Env) (i : nat) (s : DirectoryService) : DirectoryService :=
  match ds_spawned s !! i, ds_client s with
  | Some t, Some c =>
      let m := match t with
               | PublishGenesis g => Client.publish_genesis reqwest env g
               | PublishInvalidation id h sigs => Client.publish_invalidation reqwest env id h sigs
               end in
      set_spawned (delete i (ds_spawned s)) (set_client (m c).2 s)
  | _, _ => s
  end.

Definition timestamp (env : Env) (msg : string) : outcome Z := ok_or (EGeneric msg) (env_clock env).

Definition type_of (s : State) : DirectoryEntryType :=
  if state_number s =? 0 then GenesisEntry else StateTransitionEntry.

Definition publish_state (env : Env) (state : State) : M DirectoryService unit :=
  let* state_bytes := mlift (serialize_or "Failed to serialize state for publication" state) in
  let* ts := mlift (timestamp env "Failed to get current timestamp") in
  do* mmod (set_store (insert (st_id state) (mkDirectoryEntry state_bytes (state_number state) ts (type_of state))));
  let* s := mget in
  match ds_client s with
  | None => mret_st tt
  | Some client =>
      match ds_consistency_mode s with
      | LocalOnly => mret_st tt
      | WriteLocalAsync => spawn env (PublishGenesis state)
      | WriteSync | WriteRemoteFirst =>
          match type_of state with
          | GenesisEntry =>
              block_on env "Failed to create tokio runtime for sync publication"
                (on_client client (Client.publish_genesis reqwest env state))
          | _ => mret_st tt
          end
      end
  end.

Definition retrieve_state (env : Env) (state_id : string) : M DirectoryService State :=
  let* s := mget in
  match ds_store s !! state_id with
  | Some entry => mlift (ok_or (ESerialization "Failed to deserialize cached state") (deserialize (de_data entry)))
  | None =>
      match ds_client s with
      | Some client =>
          let* state := block_on env "Failed to create tokio runtime for state retrieval"
                          (on_client client (Client.get_genesis reqwest env state_id)) in
          let* state_bytes := mlift (serialize_or "Failed to serialize retrieved state for caching" state) in
          let* ts := mlift (timestamp env "Failed to get current timestamp") in
          do* mmod (set_store (insert state_id (mkDirectoryEntry state_bytes (state_number state) ts (type_of state))));
          mret_st state
      | None => mfail (ENotFound "State" (Some "State ID {} not found locally or remotely"%string))
      end
  end.

Definition tombstone_prefix (t : TombstoneType) : string :=
  match t with
  | StateInvalidation => "state_invalidation"
  | IdentityRevocation => "identity_revocation"
  | DeviceRevocation => "device_revocation"
  end.

Definition publish_tombstone (env : Env) (state_hash : bytes) (t : TombstoneType) : M DirectoryService unit :=
  let* secs := mlift (timestamp env "Failed to get current timestamp") in
  let key := tombstone_prefix t +:+ "_" +:+ hex_encode state_hash +:+ "_" +:+ pretty secs in
  let* ts := mlift (timestamp env "Failed to get current timestamp for tombstone") in
  mmod (set_store (insert key (mkDirectoryEntry state_hash 0 ts InvalidationEntry))).

Definition check_tombstone (s : DirectoryService) (state_hash : bytes) (t : TombstoneType) : outcome bool :=
  Ok (existsb (fun key => String.prefix (tombstone_prefix t) key && str_contains (hex_encode state_hash) key)
        (dash_iter (ds_store s)).*1).

Definition invalidation_key (identity_id : string) : string := "invalidation_" +:+ identity_id.

Definition publish_invalidation (env : Env) (identity_id : string) (state_hash : bytes) (signatures : list bytes)
    : M DirectoryService unit :=
  let* ts := mlift (timestamp env "Failed to get current timestamp for invalidation") in
  let marker := mkMarker identity_id state_hash ts signatures in
  let* marker_bytes := mlift (serialize_or "Failed to serialize invalidation marker" marker) in
  do* mmod (set_store (insert (invalidation_key identity_id) (mkDirectoryEntry marker_bytes 0 ts InvalidationEntry)));
  let* s := mget in
  match ds_client s with
  | None => mret_st tt
  | Some client =>
      match ds_consistency_mode s with
      | LocalOnly => mret_st tt
      | WriteLocalAsync => spawn env (PublishInvalidation identity_id state_hash signatures)
      | WriteSync | WriteRemoteFirst =>
          block_on env "Failed to create tokio runtime for invalidation publication"
            (on_client client (Client.publish_invalidation reqwest env identity_id state_hash signatures))
      end
  end.

Definition genesis_key (state : State) : string := "genesis_" +:+ hex_encode (hash state).

(** The future that [verify_genesis_state] blocks on. *)
Definition verify_remotely (env : Env) (client : DirectoryClient) (state : State) : M DirectoryService bool := fun s =>
  match on_client client (Client.get_genesis reqwest env (st_id state)) s with
  | (Ok remote_state, s) =>
      if bool_decide (hash remote_state = hash state) then
        (let* state_bytes := mlift (serialize_or "Failed to serialize verified genesis state" state) in
         let* ts := mlift (timestamp env "Failed to get current timestamp") in
         do* mmod (set_store (insert (genesis_key state) (mkDirectoryEntry state_bytes 0 ts GenesisEntry)));
         mret_st true) s
      else (Ok false, s)
  | (Err _, s) => (Ok false, s)
  | (Panic, s) => (Panic, s)
  | (Hang, s) => (Hang, s)
  end.

Definition verify_genesis_state (env : Env) (state : State) : M DirectoryService bool :=
  if negb (state_number state =? 0) then mfail (EValidation "Only genesis states can be verified")
  else
    let* s := mget in
    let* known := mlift (match ds_store s !! genesis_key state with
                         | Some entry =>
                             stored ← ok_or (ESerialization "Failed to deserialize cached genesis state") (deserialize (de_data entry));
                             Ok (bool_decide (hash stored = hash state))
                         | None => Ok false
                         end) in
    if known then mret_st true
    else
      match ds_client s with
      | Some client =>
          block_on env "Failed to create tokio runtime for genesis verification" (verify_remotely env client state)
      | None => mret_st false
      end.

Definition check_invalidation (env : Env) (identity_id : string) : M DirectoryService (option InvalidationMarker) :=
  let* s := mget in
  match ds_store s !! invalidation_key identity_id with
  | Some entry =>
      let* marker := mlift (ok_or (ESerialization "Failed to deserialize cached invalidation marker") (deserialize (de_data entry))) in
      mret_st (Some marker)
  | None =>
      match ds_client s with
      | Some client =>
          let* marker_opt := block_on env "Failed to create tokio runtime for invalidation check"
                               (on_client client (Client.check_invalidation reqwest env identity_id)) in
          match marker_opt with
          | Some marker =>
              let* marker_bytes := mlift (serialize_or "Failed to serialize invalidation marker for caching" marker) in
              do* mmod (set_store (insert (invalidation_key identity_id)
                                     (mkDirectoryEntry marker_bytes 0 (im_timestamp marker) InvalidationEntry)));
              mret_st (Some marker)
          | None => mret_st None
          end
      | None => mret_st None
      end
  end.

Definition list_entries (s : DirectoryService) : outcome (list string) := Ok (dash_iter (ds_store s)).*1.
Definition remove (key : string) : M DirectoryService unit := mmod (set_store (delete key)).
Definition clear : M DirectoryService unit := mmod (set_store (fun _ => ∅)).
Definition entry_count (s : DirectoryService) : nat := size (ds_store s).

End Dir.
End Dir.

(** * Facts *)

(** ** Requests *)

(** Endpoint [i] has no answer: every retry failed, or one of them failed in
    a way that ends the retries. *)
Definition exhausted {T} (net : nat → nat → HttpReply T) (i : nat) : Prop :=
  (∀ j, (j < 4)%nat → ∃ e, Client.judge (net i j) = inr (e, true)) ∨
  (∃ j e, (j < 4)%nat ∧ Client.judge (net i j) = inr (e, false) ∧
     ∀ j', (j' < j)%nat → ∃ e', Client.judge (net i j') = inr (e', true)).

(** The caches and endpoints of a client are those of another, which has sent
    at most [n] requests less, all of them of one method and body. *)
Definition only_sent (n : nat) (method : HttpMethod) (body : option bytes) (c c' : DirectoryClient) : Prop :=
  dc_genesis_cache c' = dc_genesis_cache c ∧ dc_invalidation_cache c' = dc_invalidation_cache c ∧
  dc_endpoints c' = dc_endpoints c ∧
  ∃ l, dc_sent c' = dc_sent c ++ l ∧ (length l ≤ n)%nat ∧ Forall (fun rq => rq_method rq = method ∧ rq_body rq = body) l.

Lemma only_sent_refl n method body c : only_sent n method body c c.
Proof. split_and!; [done..|]. exists []. rewrite app_nil_r. split_and!; [done|cbn; lia|constructor]. Qed.

Lemma only_sent_trans n m method body c1 c2 c3 :
  only_sent n method body c1 c2 → only_sent m method body c2 c3 → only_sent (n + m) method body c1 c3.
Proof.
  intros (H1 & H2 & H3 & l & Hl & Hn & Ha) (H1' & H2' & H3' & l' & Hl' & Hm & Ha').
  split_and!; [congruence..|]. exists (l ++ l'). rewrite Hl', Hl, app_assoc, length_app.
  split_and!; [done|lia|by apply Forall_app].
Qed.

Lemma only_sent_record url method body c : only_sent 1 method body c (Client.record (mkRequest url method body) c).
Proof. split_and!; [done..|]. exists [mkRequest url method body]. split_and!; [done|done|by repeat constructor]. Qed.

Lemma backoff_ok j : (j < 4)%nat → is_ok (Client.backoff Client.default_retry j) = true ∨ j = 0%nat.
Proof. intros Hj. destruct j as [|[|[|[|]]]]; [by right|left; reflexivity..|lia]. Qed.

Lemma retries_spec {T} (ask : nat → HttpReply T) url method body n k last c r c' :
  (k + n = 4)%nat → Client.retries Client.default_retry ask (mkRequest url method body) (seq k n) last c = (r, c') →
  only_sent n method body c c' ∧
  match r with
  | Ok (inl response) => ∃ j, (k ≤ j < 4)%nat ∧ Client.judge (ask j) = inl response ∧
      ∀ j', (k ≤ j' < j)%nat → ∃ e, Client.judge (ask j') = inr (e, true)
  | Ok (inr last') => (last' = last ∨ is_Some last') ∧ ((0 < n)%nat → is_Some last') ∧
      ((∀ j, (k ≤ j < 4)%nat → ∃ e, Client.judge (ask j) = inr (e, true)) ∨
       ∃ j e, (k ≤ j < 4)%nat ∧ Client.judge (ask j) = inr (e, false) ∧
         ∀ j', (k ≤ j' < j)%nat → ∃ e', Client.judge (ask j') = inr (e', true))
  | _ => False
  end.
Proof.
  revert k last c. induction n as [|n IH]; intros k last c Hk.
  { cbn. intros [= <- <-]. split; [apply only_sent_refl|]. split; [by left|]. split; [lia|]. left. lia. }
  cbn [seq Client.retries]. unfold mbind_st at 1.
  assert (∀ c, (if (0 <? k)%nat then mlift (Client.backoff Client.default_retry k ≫= fun _ => Ok tt) else mret_st tt) c = (Ok tt, c)) as ->.
  { intros c0. destruct (backoff_ok k) as [H| ->]; [lia| |done]. destruct (0 <? k)%nat; [|done].
    unfold mlift. by destruct (Client.backoff _ k). }
  unfold mbind_st, mmod. destruct (Client.judge (ask k)) as [response|[e []]] eqn:E; cbn [mret_st].
  - intros [= <- <-]. split; [apply (only_sent_trans 1 n _ _ _ _ _ (only_sent_record url _ _ _)), only_sent_refl|].
    exists k. split; [lia|]. split; [done|lia].
  - intros H. apply IH in H as [Hs Hr]; [|lia]. split; [by apply (only_sent_trans 1 n _ _ _ _ _ (only_sent_record url _ _ _))|].
    destruct r as [[response|last']| | |]; [| |done..].
    + destruct Hr as (j & Hj & Hjr & Hlt). exists j. split; [lia|]. split; [done|]. intros j' Hj'.
      destruct (decide (j' = k)) as [->|]; [by exists e|apply Hlt; lia].
    + destruct Hr as (Hl & _ & Hx). split; [right; destruct Hl as [->|]; [by eexists|done]|].
      split; [intros _; destruct Hl as [->|]; [by eexists|done]|].
      destruct Hx as [Hx|(j & e' & Hj & Hje & Hlt)]; [left|right; exists j, e'; split; [lia|]; split; [done|]];
        intros j' Hj'; (destruct (decide (j' = k)) as [->|]; [by exists e|first [apply Hx|apply Hlt]; lia]).
  - intros [= <- <-]. split; [apply (only_sent_trans 1 n _ _ _ _ _ (only_sent_record url _ _ _)), only_sent_refl|].
    split; [right; by eexists|]. split; [intros _; by eexists|]. right. exists k, e. split; [lia|]. split; [done|lia].
Qed.

Lemma ask_endpoints_spec {T} (net : nat → nat → HttpReply T) path method body endpoints i last c r c' :
  Client.ask_endpoints net path method body i endpoints last c = (r, c') →
  only_sent (4 * length endpoints) method body c c' ∧
  match r with
  | Ok response => ∃ k j, (i ≤ k < i + length endpoints)%nat ∧ (j < 4)%nat ∧ Client.judge (net k j) = inl response ∧
      (∀ j', (j' < j)%nat → ∃ e, Client.judge (net k j') = inr (e, true)) ∧ ∀ k', (i ≤ k' < k)%nat → exhausted net k'
  | Err _ => ∀ k, (i ≤ k < i + length endpoints)%nat → exhausted net k
  | _ => False
  end.
Proof.
  revert i last c. induction endpoints as [|url endpoints IH]; intros i last c.
  { cbn. intros [= <- <-]. split; [apply only_sent_refl|lia]. }
  cbn [Client.ask_endpoints]. unfold mbind_st at 1.
  destruct (Client.retries _ _ _ _ last c) as [r1 c1] eqn:E. apply retries_spec in E as [Hs Hr]; [|done].
  change (4 * length (url :: endpoints))%nat with (4 * S (length endpoints))%nat.
  replace (4 * S (length endpoints))%nat with (4 + 4 * length endpoints)%nat by lia.
  destruct r1 as [[response|last']| | |]; [| |done..].
  - intros [= <- <-]. split; [by apply (only_sent_trans 4 _ _ _ _ _ _ Hs), only_sent_refl|].
    destruct Hr as (j & Hj & Hjr & Hlt). exists i, j. cbn [length]. split_and!; [lia|lia|lia|done| |lia].
    intros j' Hj'. apply Hlt. lia.
  - intros H. apply IH in H as [Hs' H]. split; [by eapply only_sent_trans|].
    assert (exhausted net i) as Hi.
    { destruct Hr as (_ & _ & [Hx|(j & e & Hj & Hje & Hlt)]); [left|right].
      - intros j Hj. apply Hx. lia.
      - exists j, e. split; [lia|]. split; [done|]. intros j' Hj'. apply Hlt. lia. }
    cbn [length]. destruct r as [response|e| |]; [| |done|done].
    + destruct H as (k & j & Hk & Hj & Hjr & Hlt & Hprev). exists k, j. split; [lia|]. split_and!; [done..|].
      intros k' Hk'. destruct (decide (k' = i)) as [->|]; [done|apply Hprev; lia].
    + intros k Hk. destruct (decide (k = i)) as [->|]; [done|apply H; lia].
Qed.

(** A request is answered by the first endpoint that answers, at its first
    successful retry, and fails only if every endpoint is exhausted; at most four
    requests go to each endpoint, and the caches do not change. *)
Theorem send_request_exact {T} (net : nat → nat → HttpReply T) (path : string) (method : HttpMethod) (body : option bytes)
    (c : DirectoryClient) :
  let '(r, c') := Client.send_request net path method body c in
  only_sent (4 * length (dc_endpoints c)) method body c c' ∧
  match r with
  | Ok response => ∃ i j, (i < length (dc_endpoints c))%nat ∧ (j < 4)%nat ∧ Client.judge (net i j) = inl response ∧
      (∀ j', (j' < j)%nat → ∃ e, Client.judge (net i j') = inr (e, true)) ∧ ∀ i', (i' < i)%nat → exhausted net i'
  | Err _ => ∀ i, (i < length (dc_endpoints c))%nat → exhausted net i
  | _ => False
  end.
Proof.
  destruct (Client.send_request net path method body c) as [r c'] eqn:E.
  unfold Client.send_request, mbind_st, mget in E. apply ask_endpoints_spec in E as [Hs H]. split; [done|].
  destruct r as [response|e| |]; [| |done|done].
  - destruct H as (k & j & Hk & Hj & Hjr & Hlt & Hp). exists k, j. split_and!; [lia|done..|]. intros k' Hk'. apply Hp. lia.
  - intros i Hi. apply H. lia.
Qed.

(** ** The store under every call *)

Inductive DirCmd :=
  | CPublishState (env : Env) (s : State)
  | CRetrieve (env : Env) (id : string)
  | CTombstone (env : Env) (h : bytes) (t : TombstoneType)
  | CInvalidate (env : Env) (id : string) (h : bytes) (sigs : list bytes)
  | CVerify (env : Env) (s : State)
  | CCheck (env : Env) (id : string)
  | CMode (mode : ConsistencyMode)
  | CRunSpawned (env : Env) (i : nat)
  | CRemove (key : string)
  | CClear.

Section DirectoryFacts.
Context (reqwest : bool).
Context {SS : Bincode State} {US : Unbincode State} {SM : Bincode InvalidationMarker} {UM : Unbincode InvalidationMarker}.
Context {HX : Hex} {DO : DashOrder}.

Definition dir_apply (s : DirectoryService) (cmd : DirCmd) : DirectoryService :=
  match cmd with
  | CPublishState env st => (Dir.publish_state reqwest env st s).2
  | CRetrieve env id => (Dir.retrieve_state reqwest env id s).2
  | CTombstone env h t => (Dir.publish_tombstone env h t s).2
  | CInvalidate env id h sigs => (Dir.publish_invalidation reqwest env id h sigs s).2
  | CVerify env st => (Dir.verify_genesis_state reqwest env st s).2
  | CCheck env id => (Dir.check_invalidation reqwest env id s).2
  | CMode mode => Dir.set_consistency_mode mode s
  | CRunSpawned env i => Dir.run_spawned reqwest env i s
  | CRemove key => (Dir.remove key s).2
  | CClear => (Dir.clear s).2
  end.

(** [s'] has the store of [s], or one more entry for which [P] holds. *)
Definition stored (P : string → DirectoryEntry → Prop) (s s' : DirectoryService) : Prop :=
  ds_store s' = ds_store s ∨ ∃ k e, ds_store s' = <[k := e]> (ds_store s) ∧ P k e.

Lemma on_client_store {A} client (m : M DirectoryClient A) s : ds_store (Dir.on_client client m s).2 = ds_store s.
Proof. unfold Dir.on_client. by destruct (m client). Qed.

Lemma block_on_store {A} env msg client (m : M DirectoryClient A) s :
  ds_store (Dir.block_on env msg (Dir.on_client client m) s).2 = ds_store s.
Proof.
  unfold Dir.block_on. destruct (env_runtime_starts env); cbn [negb]; [|done].
  destruct (env_in_runtime env); [done|apply on_client_store].
Qed.

Lemma publish_state_stored env st s :
  match serialize st, env_clock env with
  | Some b, Some ts => ds_store (Dir.publish_state reqwest env st s).2 =
      <[st_id st := mkDirectoryEntry b (state_number st) ts (Dir.type_of st)]> (ds_store s)
  | _, _ => ds_store (Dir.publish_state reqwest env st s).2 = ds_store s
  end.
Proof.
  unfold Dir.publish_state, serialize_or, Dir.timestamp, mbind_st, mlift, mmod, mget.
  destruct (serialize st) as [b|]; cbn [ok_or]; [|done]. destruct (env_clock env) as [ts|]; cbn [ok_or]; [|done].
  cbn [Dir.set_store ds_client ds_consistency_mode]. destruct (ds_client s) as [client|]; [|done].
  destruct (ds_consistency_mode s); [done|unfold Dir.spawn; by destruct (env_in_runtime env)|..];
    (destruct (Dir.type_of st); [apply block_on_store|done..]).
Qed.

Lemma publish_invalidation_stored env id h sigs s ts b :
  env_clock env = Some ts → serialize (mkMarker id h ts sigs) = Some b →
  ds_store (Dir.publish_invalidation reqwest env id h sigs s).2 =
    <[Dir.invalidation_key id := mkDirectoryEntry b 0 ts InvalidationEntry]> (ds_store s).
Proof.
  intros Ht Hb. unfold Dir.publish_invalidation, serialize_or, Dir.timestamp, mbind_st, mlift, mmod, mget.
  rewrite Ht. cbn [ok_or]. rewrite Hb. cbn [ok_or Dir.set_store ds_client ds_consistency_mode].
  destruct (ds_client s) as [client|]; [|done].
  destruct (ds_consistency_mode s); [done|unfold Dir.spawn; by destruct (env_in_runtime env)|apply block_on_store..].
Qed.

Lemma publish_invalidation_cases env id h sigs s :
  stored (λ k e, ∃ ts b, k = Dir.invalidation_key id ∧ serialize (mkMarker id h ts sigs) = Some b ∧ de_data e = b)
    s (Dir.publish_invalidation reqwest env id h sigs s).2.
Proof.
  destruct (env_clock env) as [ts|] eqn:Ht; [destruct (serialize (mkMarker id h ts sigs)) as [b|] eqn:Hb|].
  - right. eexists _, _. split; [by eapply publish_invalidation_stored|]. by exists ts, b.
  - left. unfold Dir.publish_invalidation, serialize_or, Dir.timestamp, mbind_st, mlift. rewrite Ht. cbn. by rewrite Hb.
  - left. unfold Dir.publish_invalidation, Dir.timestamp, mbind_st, mlift. by rewrite Ht.
Qed.

Lemma retrieve_stored env id s :
  stored (λ k _, k = id ∧ ds_store s !! id = None) s (Dir.retrieve_state reqwest env id s).2.
Proof.
  unfold Dir.retrieve_state, serialize_or, Dir.timestamp, mbind_st, mlift, mmod, mget.
  destruct (ds_store s !! id) as [e|] eqn:E; [by left|]. destruct (ds_client s) as [client|]; [|by left].
  pose proof (block_on_store env "Failed to create tokio runtime for state retrieval" client (Client.get_genesis reqwest env id) s) as Hs.
  destruct (Dir.block_on _ _ _ s) as [[st| | |] s1]; [|by left..]. cbn [snd] in Hs.
  destruct (serialize st) as [b|]; cbn [ok_or]; [|by left]. destruct (env_clock env) as [ts|]; cbn [ok_or]; [|by left].
  right. eexists _, _. unfold mret_st. cbn [snd Dir.set_store ds_store]. by rewrite Hs.
Qed.

Lemma check_stored env id s :
  stored (λ k _, k = Dir.invalidation_key id ∧ ds_store s !! k = None) s (Dir.check_invalidation reqwest env id s).2.
Proof.
  unfold Dir.check_invalidation, serialize_or, mbind_st, mlift, mmod, mget, mret_st.
  destruct (ds_store s !! Dir.invalidation_key id) as [e|] eqn:E; [left; by destruct (deserialize (de_data e))|].
  destruct (ds_client s) as [client|]; [|by left].
  pose proof (block_on_store env "Failed to create tokio runtime for invalidation check" client (Client.check_invalidation reqwest env id) s) as Hs.
  destruct (Dir.block_on _ _ _ s) as [[[m|]| | |] s1]; [|by left..]. cbn [snd] in Hs.
  destruct (serialize m) as [b|]; cbn [ok_or]; [|by left].
  right. eexists _, _. unfold mret_st. cbn [snd Dir.set_store ds_store]. by rewrite Hs.
Qed.

Lemma verify_stored env st s :
  stored (λ k _, k = Dir.genesis_key st ∧ env_in_runtime env = false ∧ is_Some (ds_client s)) s
    (Dir.verify_genesis_state reqwest env st s).2.
Proof.
  unfold Dir.verify_genesis_state. destruct (state_number st =? 0); cbn [negb]; [|by left].
  unfold mbind_st at 1, mget. unfold mbind_st at 1, mlift at 1.
  destruct (match ds_store s !! Dir.genesis_key st with Some _ => _ | None => _ end) as [[]| | |]; [by left| |by left..].
  destruct (ds_client s) as [client|]; [|by left]. unfold Dir.block_on.
  destruct (env_runtime_starts env); cbn [negb]; [|by left]. destruct (env_in_runtime env); [by left|].
  unfold Dir.verify_remotely. pose proof (on_client_store client (Client.get_genesis reqwest env (st_id st)) s) as Hs.
  destruct (Dir.on_client client _ s) as [[r| | |] s1]; [|by left..]. cbn [snd] in Hs.
  case_bool_decide; [|by left]. unfold mbind_st, mlift, mmod, mret_st, serialize_or, Dir.timestamp.
  destruct (serialize st); cbn [ok_or]; [|by left]. destruct (env_clock env); cbn [ok_or]; [|by left].
  right. eexists _, _. unfold mret_st. cbn [snd Dir.set_store ds_store]. by rewrite Hs.
Qed.

Lemma run_spawned_store env i s : ds_store (Dir.run_spawned reqwest env i s) = ds_store s.
Proof. unfold Dir.run_spawned. destruct (ds_spawned s !! i); [|done]. by destruct (ds_client s). Qed.

(** ** Properties *)

(** Publishing a state makes it retrievable by its identifier, whatever the
    mode, and also when the remote publication fails or panics. *)
Theorem publish_retrieve (env env' : Env) (st : State) (s : DirectoryService) :
  (∀ b, serialize st = Some b → deserialize b = Some st) → is_Some (serialize st) → is_Some (env_clock env) →
  let s' := (Dir.publish_state reqwest env st s).2 in
  Dir.retrieve_state reqwest env' (st_id st) s' = (Ok st, s').
Proof.
  intros Hrt [b Hb] [ts Hts]. cbv zeta. pose proof (publish_state_stored env st s) as H. rewrite Hb, Hts in H.
  unfold Dir.retrieve_state, mbind_st, mget. rewrite H, lookup_insert_eq. cbn [de_data]. by rewrite (Hrt b Hb).
Qed.

(** The identity has a marker in the store. *)
Definition invalidated (id : string) (s : DirectoryService) : Prop :=
  ∃ e m, ds_store s !! Dir.invalidation_key id = Some e ∧ deserialize (de_data e) = Some m ∧ im_identity_id m = id.

Definition keeps_marker (id : string) (cmd : DirCmd) : Prop :=
  match cmd with
  | CPublishState _ st => st_id st ≠ Dir.invalidation_key id
  | CRemove key => key ≠ Dir.invalidation_key id
  | CClear => False
  | _ => True
  end.

Lemma invalidation_key_inj id id' : Dir.invalidation_key id = Dir.invalidation_key id' → id = id'.
Proof. intros H. by apply (inj (String.append "invalidation_")) in H. Qed.

Lemma apply_keeps_marker id s cmd :
  (∀ (m : InvalidationMarker) b, serialize m = Some b → deserialize b = Some m) →
  keeps_marker id cmd → invalidated id s → invalidated id (dir_apply s cmd).
Proof.
  intros Hrt Hk (e & m & He & Hd & Hm).
  assert (∀ P s', stored P s s' → (∀ k e', P k e' → k = Dir.invalidation_key id →
    ∃ m', deserialize (de_data e') = Some m' ∧ im_identity_id m' = id) → invalidated id s') as Hcase.
  { intros P s' [E|(k & e' & E & HP)] Hcl; [by exists e, m; rewrite E|].
    destruct (decide (k = Dir.invalidation_key id)) as [->|Hne].
    - destruct (Hcl _ _ HP eq_refl) as (m' & Hd' & Hm'). exists e', m'. by rewrite E, lookup_insert_eq.
    - exists e, m. by rewrite E, lookup_insert_ne. }
  destruct cmd; cbn [dir_apply keeps_marker] in *.
  - pose proof (publish_state_stored env s0 s) as H. apply (Hcase (λ k _, k = st_id s0)); [|congruence].
    destruct (serialize s0); [|by left]. destruct (env_clock env); [right; by eexists _, _|by left].
  - eapply Hcase; [apply retrieve_stored|]. intros k e' [-> Hn] ->. congruence.
  - apply (Hcase (λ k _, ∃ r, k = Dir.tombstone_prefix t +:+ "_" +:+ r)).
    + unfold Dir.publish_tombstone, mbind_st, mlift, Dir.timestamp. destruct (env_clock env); [|by left].
      right. eexists _, _. split; [done|]. by eexists.
    + intros k e' [r ->]. by destruct t.
  - eapply Hcase; [apply publish_invalidation_cases|]. intros k e' (ts & b & -> & Hb & Hde) ->%invalidation_key_inj.
    eexists. rewrite Hde. by rewrite (Hrt _ _ Hb).
  - eapply Hcase; [apply verify_stored|]. by intros k e' (-> & _) ?.
  - eapply Hcase; [apply check_stored|]. intros k e' [-> Hn] Heq. rewrite Heq in Hn. congruence.
  - by exists e, m.
  - exists e, m. by rewrite run_spawned_store.
  - exists e, m. cbn. by rewrite lookup_delete_ne.
  - done.
Qed.

(** C23: invalidation is permanent: once a service whose clock works was told to
    invalidate an identity, whatever the call returned and whatever calls follow,
    short of removing the entry, clearing the store or publishing a state under
    the key, every check returns a marker of the identity and changes nothing. *)
Theorem invalidation_permanent (env : Env) (id : string) (h : bytes) (sigs : list bytes) (cmds : list DirCmd)
    (env' : Env) (s : DirectoryService) :
  (∀ (m : InvalidationMarker) b, serialize m = Some b → deserialize b = Some m) →
  (∀ m : InvalidationMarker, is_Some (serialize m)) → is_Some (env_clock env) → Forall (keeps_marker id) cmds →
  let s' := fold_left dir_apply cmds (Dir.publish_invalidation reqwest env id h sigs s).2 in
  ∃ m, im_identity_id m = id ∧ Dir.check_invalidation reqwest env' id s' = (Ok (Some m), s').
Proof.
  intros Hrt Htot [ts Hts] Hc. cbv zeta. destruct (Htot (mkMarker id h ts sigs)) as [b Hb].
  assert (invalidated id (Dir.publish_invalidation reqwest env id h sigs s).2) as Hi.
  { eexists _, (mkMarker id h ts sigs). rewrite (publish_invalidation_stored _ _ _ _ _ _ _ Hts Hb), lookup_insert_eq.
    split; [done|]. split; [by apply Hrt|done]. }
  revert Hi. generalize (Dir.publish_invalidation reqwest env id h sigs s).2. induction Hc as [|cmd cmds Hk Hc IH]; intros s0 Hi.
  - destruct Hi as (e & m & He & Hd & Hm). exists m. split; [done|].
    cbn [fold_left]. unfold Dir.check_invalidation, mbind_st, mget, mlift. rewrite He, Hd. done.
  - apply IH, apply_keeps_marker; done.
Qed.

(** No entry is stored under a key of a verified genesis state. *)
Definition no_genesis_key (s : DirectoryService) : Prop :=
  ∀ h, ds_store s !! ("genesis_" +:+ hex_encode h) = None.

Definition in_runtime (cmd : DirCmd) : Prop :=
  match cmd with
  | CPublishState env st => ∀ h, st_id st ≠ "genesis_" +:+ hex_encode h
  | CRetrieve env id => env_in_runtime env = true
  | CVerify env _ => env_in_runtime env = true
  | _ => True
  end.

Lemma retrieve_in_runtime env id s :
  env_in_runtime env = true → ds_store (Dir.retrieve_state reqwest env id s).2 = ds_store s.
Proof.
  intros He. unfold Dir.retrieve_state, mbind_st, mlift, mget. destruct (ds_store s !! id); [done|].
  destruct (ds_client s) as [client|]; [|done]. unfold Dir.block_on. rewrite He. by destruct (env_runtime_starts env).
Qed.

Lemma apply_no_genesis_key s cmd : in_runtime cmd → no_genesis_key s → no_genesis_key (dir_apply s cmd).
Proof.
  intros Hc Hn h. assert (∀ P s', stored P s s' → (∀ k e, P k e → k ≠ "genesis_" +:+ hex_encode h) →
    ds_store s' !! ("genesis_" +:+ hex_encode h) = None) as Hcase.
  { intros P s' [->|(k & e & -> & HP)] Hcl; [done|]. rewrite lookup_insert_ne; [done|]. by eapply Hcl. }
  destruct cmd; cbn [dir_apply in_runtime] in *.
  - pose proof (publish_state_stored env s0 s) as H. apply (Hcase (λ k _, k = st_id s0)); [|by intros k _ ->].
    destruct (serialize s0); [|by left]. destruct (env_clock env); [right; by eexists _, _|by left].
  - by rewrite retrieve_in_runtime.
  - apply (Hcase (λ k _, ∃ r, k = Dir.tombstone_prefix t +:+ "_" +:+ r)).
    + unfold Dir.publish_tombstone, mbind_st, mlift, Dir.timestamp. destruct (env_clock env); [|by left].
      right. eexists _, _. split; [done|]. by eexists.
    + intros k e [r ->]. by destruct t.
  - eapply Hcase; [apply publish_invalidation_cases|]. by intros k e (ts & b & -> & _).
  - eapply Hcase; [apply verify_stored|]. intros k e (_ & Hf & _). congruence.
  - eapply Hcase; [apply check_stored|]. by intros k e [-> _].
  - done.
  - by rewrite run_spawned_store.
  - cbn. rewrite lookup_delete_None. auto.
  - done.
Qed.

(** Genesis states are never verified where the asynchronous method can run: on
    tasks of a tokio runtime, whatever was published under other identifiers and
    whatever a remote directory answers, verification never returns true; for a
    genesis state and a service with a client it panics, since it blocks on a
    runtime inside a runtime. *)
Theorem genesis_never_verified (cmds : list DirCmd) (env : Env) (st : State) (endpoint : option string) :
  Forall in_runtime cmds → env_in_runtime env = true → env_runtime_starts env = true → state_number st = 0 →
  let s := fold_left dir_apply cmds (match endpoint with Some e => Dir.with_endpoint e | None => Dir.new end) in
  (Dir.verify_genesis_state reqwest env st s).1 = match ds_client s with Some _ => Panic | None => Ok false end.
Proof.
  intros Hc He Hr Hst. cbv zeta. set (s0 := match endpoint with Some e => _ | None => _ end).
  assert (no_genesis_key s0) as H0 by (intros h; by destruct endpoint). clearbody s0.
  assert (no_genesis_key (fold_left dir_apply cmds s0)) as Hn.
  { clear Hst. induction Hc as [|cmd cmds Hcmd Hc IH] in s0, H0 |- *; [done|]. by apply IH, apply_no_genesis_key. }
  revert Hn. generalize (fold_left dir_apply cmds s0). intros s Hn.
  unfold Dir.verify_genesis_state. rewrite Hst. cbn [Z.eqb negb]. unfold mbind_st, mget, mlift, Dir.genesis_key.
  rewrite (Hn (hash st)). destruct (ds_client s); [|done]. unfold Dir.block_on. by rewrite Hr, He.
Qed.

(** An identity that the directory does not know is an error: when every
    endpoint replies with the HTTP status 404, the client's check returns the
    error of the request, and not that there is no marker. *)
Theorem unknown_identity_is_error (env : Env) (id : string) (c : DirectoryClient) :
  dc_invalidation_cache c !! id = None → dc_endpoints c ≠ [] → (∀ i j, ∃ b, env_bytes env i j = Replied 404 b) →
  (Client.check_invalidation true env id c).1 = Err (Client.network "Directory service returned error: {} - {}").
Proof.
  intros Hn Hne Hnet. unfold Client.check_invalidation. unfold mbind_st at 1, mget. rewrite Hn.
  assert (∀ l i last c, l ≠ [] → (Client.ask_endpoints (env_bytes env) ("/api/v1/invalidation/" +:+ id) GET None i l last c).1 =
    Err (Client.network "Directory service returned error: {} - {}")) as Hask.
  { intros l. induction l as [|url l IH]; intros i last c0 Hl; [done|].
    cbn [Client.ask_endpoints]. unfold mbind_st at 1. destruct (Hnet i 0%nat) as [b Hb].
    cbn [Client.default_retry rc_max_retries seq Client.retries]. unfold mbind_st, mmod. cbn [Nat.ltb Nat.leb mret_st].
    rewrite Hb. cbn [Client.judge]. change ((200 <=? 404) && (404 <? 300)) with false.
    change (negb ((400 <=? 404) && (404 <? 500) && negb (404 =? 429))) with false. cbn iota beta.
    destruct l as [|url' l]; [done|by apply IH]. }
  specialize (Hask (dc_endpoints c) 0%nat None c Hne). unfold mbind_st at 1. unfold Client.send_request, mbind_st at 1, mget.
  destruct (Client.ask_endpoints _ _ _ _ 0 _ None c) as [r c1]. cbn [fst] in Hask. by rewrite Hask.
Qed.

(** The genesis states of all devices share an identifier, so that the second
    one published takes the place of the first. *)
Theorem genesis_states_collide (env env1 env' : Env) (e1 e2 : bytes) (d1 d2 : DeviceInfo) (s : DirectoryService) :
  let g1 := St.new_genesis e1 d1 in let g2 := St.new_genesis e2 d2 in
  (∀ b, serialize g2 = Some b → deserialize b = Some g2) → is_Some (serialize g2) → is_Some (env_clock env1) →
  let s' := (Dir.publish_state reqwest env1 g2 (Dir.publish_state reqwest env g1 s).2).2 in
  Dir.retrieve_state reqwest env' (st_id g1) s' = (Ok g2, s').
Proof.
  cbv zeta. intros Hrt Hs Hclk. pose proof (publish_state_stored env1 (St.new_genesis e2 d2) (Dir.publish_state reqwest env (St.new_genesis e1 d1) s).2) as H.
  destruct Hs as [b Hb], Hclk as [ts Hts]. rewrite Hb, Hts in H.
  unfold Dir.retrieve_state, mbind_st, mget. rewrite H. change (st_id (St.new_genesis e1 d1)) with (st_id (St.new_genesis e2 d2)).
  rewrite lookup_insert_eq. cbn [de_data]. by rewrite (Hrt _ Hb).
Qed.

End DirectoryFacts.

(** ** Tombstones *)

Lemma prefix_spec p s : String.prefix p s = true ↔ ∃ r, s = p +:+ r.
Proof.
  revert s. induction p as [|a p IH]; intros s; [split; [by exists s|by destruct s]|].
  destruct s as [|b s]; cbn [String.prefix]; [split; [done|by intros [? ?]]|].
  destruct (Ascii.ascii_dec a b) as [->|Hne].
  - rewrite IH. split; intros [r Hr]; exists r; [by rewrite Hr|by injection Hr].
  - split; [done|]. intros [r Hr]. injection Hr as Hab _. congruence.
Qed.

Lemma contains_cons needle b s :
  str_contains needle (String b s) = String.prefix needle (String b s) || str_contains needle s.
Proof. unfold str_contains. cbn [String.index]. destruct (String.prefix needle (String b s)); [done|]. by destruct (String.index 0 needle s). Qed.

Lemma contains_spec needle s : needle ≠ "" → str_contains needle s = true ↔ ∃ l r, s = l +:+ needle +:+ r.
Proof.
  intros Hne. induction s as [|b s IH].
  - split; [by destruct needle|]. intros (l & r & H). destruct l; [|done]. by destruct needle.
  - rewrite contains_cons, orb_true_iff, prefix_spec, IH. split.
    + intros [[r H]|(l & r & H)]; [by exists "", r|exists (String b l), r; by rewrite H].
    + intros ([|a l] & r & H); [left; by exists r|right]. injection H as -> H. by exists l, r.
Qed.

Fixpoint has_char (a : Ascii.ascii) (s : string) : bool :=
  match s with "" => false | String b s => bool_decide (a = b) || has_char a s end.

Lemma has_char_app a s t : has_char a (s +:+ t) = has_char a s || has_char a t.
Proof. induction s as [|b s IH]; [done|]. change (String b s +:+ t) with (String b (s +:+ t)). cbn [has_char]. by rewrite IH, orb_assoc. Qed.

Lemma string_app_length s t : String.length (s +:+ t) = (String.length s + String.length t)%nat.
Proof. induction s as [|b s IH]; [done|]. change (String b s +:+ t) with (String b (s +:+ t)). cbn [String.length]. by rewrite IH. Qed.

Lemma string_app_empty s : s +:+ "" = s.
Proof. induction s as [|b s IH]; [done|]. change (String b (s +:+ "") = String b s). by rewrite IH. Qed.

(** A word without the separator that occurs in a text lies on one side of each
    separator. *)
Lemma occurs_split a needle x y l r :
  has_char a needle = false → needle ≠ "" → x +:+ String a y = l +:+ needle +:+ r →
  (∃ l' r', x = l' +:+ needle +:+ r') ∨ (∃ l' r', y = l' +:+ needle +:+ r').
Proof.
  intros Hn Hne. revert l. induction x as [|b x IH]; intros l H.
  - right. destruct l as [|c l]; [|injection H as -> H; by exists l, r].
    exfalso. destruct needle as [|c needle]; [done|]. cbn [has_char] in Hn. apply orb_false_iff in Hn as [Hc _].
    injection H as -> _. by rewrite bool_decide_eq_true_2 in Hc.
  - destruct l as [|c l].
    + assert (∀ x needle, has_char a needle = false → x +:+ String a y = needle +:+ r → ∃ r', x = needle +:+ r') as Hstart.
      { intros x0. induction x0 as [|d x0 IHx]; intros [|c n] Hcn Hx; [by eexists| |by eexists|].
        - exfalso. injection Hx as -> _. cbn [has_char] in Hcn. by rewrite bool_decide_eq_true_2 in Hcn.
        - injection Hx as -> Hx. cbn [has_char] in Hcn. apply orb_false_iff in Hcn as [_ Hcn].
          destruct (IHx _ Hcn Hx) as [r' ->]. by exists r'. }
      destruct (Hstart _ _ Hn H) as [r' ->]. left. by exists "", r'.
    + injection H as -> H. destruct (IH _ H) as [(l' & r' & ->)|Hy]; [left; by exists (String c l'), r'|by right].
Qed.

Lemma occurs_length needle l r : (String.length needle ≤ String.length (l +:+ needle +:+ r))%nat.
Proof. rewrite !string_app_length. lia. Qed.

Lemma occurs_same needle hay : String.length needle = String.length hay → (∃ l r, hay = l +:+ needle +:+ r) → needle = hay.
Proof.
  intros Hl (l & r & ->). rewrite !string_app_length in Hl.
  destruct l; [|cbn in Hl; lia]. destruct r; [|cbn in Hl; lia]. change (needle = needle +:+ ""). by rewrite string_app_empty.
Qed.

(** A number of less than [k] digits is written with at most [k] characters. *)
Lemma pretty_go_length k x s : (x < 10 ^ N.of_nat k)%N → (String.length (pretty_N_go x s) ≤ k + String.length s)%nat.
Proof.
  revert x s. induction k as [|k IH]; intros x s Hx.
  - change (10 ^ N.of_nat 0)%N with 1%N in Hx. replace x with 0%N by lia. by rewrite pretty_N_go_0.
  - destruct (decide (x = 0)%N) as [->|Hne]; [rewrite pretty_N_go_0; lia|].
    rewrite pretty_N_go_step by lia. etrans; [apply IH|cbn [String.length]; lia].
    rewrite Nat2N.inj_succ, N.pow_succ_r' in Hx. apply N.Div0.div_lt_upper_bound. lia.
Qed.

Lemma pretty_secs_length n : 0 ≤ n ≤ u64_max → (String.length (pretty n) ≤ 20)%nat.
Proof.
  unfold u64_max. intros Hn. destruct n as [|p|p]; [|change (pretty (Z.pos p)) with (pretty (N.pos p))|lia]; [cbn; lia|].
  unfold pretty, pretty_N. case_decide; [done|]. etrans; [apply (pretty_go_length 20)|cbn; lia].
  change (10 ^ N.of_nat 20)%N with 100000000000000000000%N. lia.
Qed.

Definition underscore : Ascii.ascii := Ascii.ascii_of_nat 95.

Section TombstoneFacts.
Context {HX : Hex} {DO : DashOrder}.
(** [hex::encode] writes hexadecimal digits only. *)
Hypothesis Hdigits : ∀ b, has_char underscore (hex_encode b) = false.

Definition tombstone_key (secs : Z) (h : bytes) (t : TombstoneType) : string :=
  Dir.tombstone_prefix t +:+ "_" +:+ hex_encode h +:+ "_" +:+ pretty secs.

Lemma hex_inj (h h' : bytes) : hex_encode h = hex_encode h' → h = h'.
Proof. intros E. apply (f_equal hex_decode) in E. rewrite !hex_round_trip in E. congruence. Qed.

Lemma tombstone_occurs secs h h' t :
  length h = 32%nat → length h' = 32%nat → 0 ≤ secs ≤ u64_max →
  str_contains (hex_encode h) (tombstone_key secs h' t) = true → h = h'.
Proof.
  intros Hl Hl' Hs. pose proof (hex_encode_length h) as Hx. pose proof (hex_encode_length h') as Hx'. rewrite Hl in Hx. rewrite Hl' in Hx'.
  assert (hex_encode h ≠ "") as Hne by (intros E; rewrite E in Hx; cbn in Hx; lia).
  rewrite contains_spec by done.
  assert (∀ x, (String.length x < 64)%nat → ¬ ∃ l r, x = l +:+ hex_encode h +:+ r) as Hshort.
  { intros x Hlt (l & r & ->). pose proof (occurs_length (hex_encode h) l r). lia. }
  assert (∀ x y, (String.length x < 64)%nat → (∃ l r, x +:+ String underscore y = l +:+ hex_encode h +:+ r) → ∃ l r, y = l +:+ hex_encode h +:+ r) as Hskip.
  { intros x y Hlt (l & r & E). destruct (occurs_split _ _ _ _ _ _ (Hdigits h) Hne E) as [H|H]; [by destruct (Hshort x Hlt)|done]. }
  intros H. assert (∃ l r, hex_encode h' +:+ String underscore (pretty secs) = l +:+ hex_encode h +:+ r) as (l & r & E).
  { destruct t; [apply (Hskip "invalidation"), (Hskip "state"); [cbn; lia..|exact H]
                |apply (Hskip "revocation"), (Hskip "identity"); [cbn; lia..|exact H]
                |apply (Hskip "revocation"), (Hskip "device"); [cbn; lia..|exact H]]. }
  destruct (occurs_split _ _ _ _ _ _ (Hdigits h) Hne E) as [Ho|Ho].
  - apply hex_inj, occurs_same; [lia|done].
  - destruct (Hshort (pretty secs)); [|done]. pose proof (pretty_secs_length _ Hs). lia.
Qed.

Lemma tombstone_key_match secs h h' t t' :
  length h = 32%nat → length h' = 32%nat → 0 ≤ secs ≤ u64_max →
  String.prefix (Dir.tombstone_prefix t) (tombstone_key secs h' t') && str_contains (hex_encode h) (tombstone_key secs h' t') = true ↔
  t = t' ∧ h = h'.
Proof.
  intros Hl Hl' Hs. rewrite andb_true_iff. split.
  - intros [Hp Hc]. split; [by destruct t, t'|by eapply tombstone_occurs].
  - intros [-> ->]. split; [apply prefix_spec; by eexists|].
    apply contains_spec; [intros E; pose proof (hex_encode_length h') as Hx; rewrite E, Hl' in Hx; cbn in Hx; lia|].
    by exists (Dir.tombstone_prefix t' +:+ "_"), ("_" +:+ pretty secs); destruct t'.
Qed.

Definition publish_tombstones (l : list (Env * bytes * TombstoneType)) (s : DirectoryService) : DirectoryService :=
  fold_left (fun s x => (Dir.publish_tombstone x.1.1 x.1.2 x.2 s).2) l s.

Definition tombstone_ok (x : Env * bytes * TombstoneType) : Prop :=
  length x.1.2 = 32%nat ∧ ∃ secs, env_clock x.1.1 = Some secs ∧ 0 ≤ secs ≤ u64_max.

Lemma tombstone_keys l s : Forall tombstone_ok l → ∀ k, is_Some (ds_store (publish_tombstones l s) !! k) ↔
  is_Some (ds_store s !! k) ∨ ∃ x secs, x ∈ l ∧ env_clock x.1.1 = Some secs ∧ k = tombstone_key secs x.1.2 x.2.
Proof.
  intros Hl. revert s. induction Hl as [|[[env h] t] l (_ & secs & Hs & _) Hl IH]; intros s k.
  - cbn. split; [by left|]. intros [H|(x & _ & H & _)]; [done|by apply elem_of_nil in H].
  - cbn [publish_tombstones fold_left fst snd]. fold (publish_tombstones l). rewrite IH. cbn [fst] in Hs.
    assert (ds_store (Dir.publish_tombstone env h t s).2 =
      <[tombstone_key secs h t := mkDirectoryEntry h 0 secs InvalidationEntry]> (ds_store s)) as ->.
    { unfold Dir.publish_tombstone, mbind_st, mlift, Dir.timestamp. by rewrite Hs. }
    rewrite lookup_insert_is_Some'. setoid_rewrite elem_of_cons. split.
    + intros [[Hk|Hk]|(x & n & Hx & H)]; [right|by left|right; exists x, n; by split; [right|]].
      exists (env, h, t), secs. split; [by left|done].
    + intros [Hk|(x & n & [->|Hx] & Hn & ->)]; [left; by right|left; left|right; by exists x, n].
      cbn [fst snd] in *. congruence.
Qed.

(** Tombstones are exact: after any list of publications with a working clock,
    a state hash counts as invalidated in one of the three ways if and only if a
    tombstone of that kind was published for that very hash, although the check
    looks for the hash anywhere in the keys. *)
Theorem tombstone_exact (l : list (Env * bytes * TombstoneType)) (h : bytes) (t : TombstoneType) :
  length h = 32%nat → Forall tombstone_ok l →
  Dir.check_tombstone (publish_tombstones l Dir.new) h t = Ok true ↔ ∃ env, (env, h, t) ∈ l.
Proof.
  intros Hh Hl. unfold Dir.check_tombstone. set (s := publish_tombstones l Dir.new).
  trans (∃ k, is_Some (ds_store s !! k) ∧ String.prefix (Dir.tombstone_prefix t) k && str_contains (hex_encode h) k = true).
  - trans (existsb (fun key => String.prefix (Dir.tombstone_prefix t) key && str_contains (hex_encode h) key) (dash_iter (ds_store s)).*1 = true);
      [split; [apply Ok_inj|by intros ->]|].
    rewrite existsb_exists. apply exist_proper. intros k. f_equiv.
    rewrite <- list_elem_of_In, list_elem_of_fmap. split.
    + intros ([k' e] & -> & He). rewrite dash_iter_perm in He. apply elem_of_map_to_list in He. by exists e.
    + intros [e He]. exists (k, e). split; [done|]. rewrite dash_iter_perm. by apply elem_of_map_to_list.
  - unfold s. setoid_rewrite (tombstone_keys l Dir.new Hl). rewrite Forall_forall in Hl. split.
    + intros (k & [[e He]|([[env h'] t'] & secs & Hx & Hs & ->)] & Hm); [done|].
      destruct (Hl _ Hx) as (Hlen & secs' & Hs' & Hb). cbn [fst snd] in *. assert (secs = secs') as <- by congruence.
      apply tombstone_key_match in Hm as [-> ->]; [by exists env|done..].
    + intros [env Hx]. destruct (Hl _ Hx) as (Hlen & secs & Hs & Hb). exists (tombstone_key secs h t).
      split; [right; by exists (env, h, t), secs|]. by apply tombstone_key_match.
Qed.

End TombstoneFacts.

(** ** Witnesses *)

Module DirectoryWitness.
Import ProofCodec.
#[local] Existing Instance ToyHex.toy_hex.
#[local] Instance toy_order : DashOrder := {| dash_iter A := map_to_list; dash_iter_perm A m := reflexivity _ |}.

#[local] Instance marker_eq_dec : EqDecision InvalidationMarker.
Proof. solve_decision. Defined.
#[local] Instance marker_countable : Countable InvalidationMarker.
Proof.
  by refine (inj_countable' (fun m => (im_identity_id m, im_state_hash m, im_timestamp m, im_signatures m))
    (fun '(a, b, c, d) => mkMarker a b c d) _); intros [].
Defined.
#[local] Instance marker_encode : Bincode InvalidationMarker := fun m => Some (pos_bytes (encode m)).
#[local] Instance marker_decode : Unbincode InvalidationMarker := fun b => decode (bytes_pos b).

Lemma marker_codec (m : InvalidationMarker) b : serialize m = Some b → deserialize b = Some m.
Proof.
  intros H. unfold serialize, marker_encode in H. injection H as <-. unfold deserialize, marker_decode.
  by rewrite bytes_pos_bytes, decode_encode.
Qed.

Definition dev (k : u8) : State := St.new_genesis [k] (mkDevice "device" [k]).
Definition second : State := dev Byte.x02.
#[local] Instance state_encode : Bincode State := fun s => Some (entropy s).
#[local] Instance state_decode : Unbincode State := fun b => match b with [k] => Some (dev k) | _ => None end.

(** A directory that knows nothing, asked from a task. *)
Definition env : Env := mkEnv (Some 1700000000) true true
  (fun _ _ => Replied 404 None) (fun _ _ => Replied 404 None) (fun _ _ => Replied 404 None).
Definition service : DirectoryService := Dir.with_endpoint "https://directory1.dsm-network.io".

Lemma publish_retrieve_witness :
  let s' := (Dir.publish_state true env second service).2 in Dir.retrieve_state true env (st_id second) s' = (Ok second, s').
Proof. apply (publish_retrieve true env env second service); [by intros b [= <-]|by eexists..]. Defined.

Lemma invalidation_permanent_witness :
  ∃ m, im_identity_id m = "alice" ∧
    (Dir.check_invalidation true env "alice" (fold_left (dir_apply true) [CPublishState env second; CCheck env "bob"; CMode LocalOnly]
       (Dir.publish_invalidation true env "alice" [Byte.x07] [] service).2)).1 = Ok (Some m).
Proof.
  destruct (invalidation_permanent true env "alice" [Byte.x07] [] [CPublishState env second; CCheck env "bob"; CMode LocalOnly] env service
    marker_codec ltac:(by eexists) ltac:(by eexists) ltac:(by repeat constructor)) as (m & Hm & H).
  exists m. split; [exact Hm|exact (f_equal fst H)].
Defined.

Lemma genesis_never_verified_witness :
  (Dir.verify_genesis_state true env second (fold_left (dir_apply true) [CPublishState env second; CVerify env second] service)).1 = Panic.
Proof.
  exact (genesis_never_verified true [CPublishState env second; CVerify env second] env second (Some "https://directory1.dsm-network.io"%string)
    ltac:(by repeat constructor) eq_refl eq_refl eq_refl).
Defined.

Lemma unknown_identity_is_error_witness :
  (Client.check_invalidation true env "alice" Client.new).1 = Err (Client.network "Directory service returned error: {} - {}").
Proof. apply unknown_identity_is_error; [done|done|by eexists]. Defined.

Lemma genesis_states_collide_witness :
  let s' := (Dir.publish_state true env second (Dir.publish_state true env (dev Byte.x01) service).2).2 in
  Dir.retrieve_state true env "genesis" s' = (Ok second, s').
Proof.
  apply (genesis_states_collide true env env env [Byte.x01] [Byte.x02] (mkDevice "device" [Byte.x01]) (mkDevice "device" [Byte.x02]) service);
    [by intros b [= <-]|by eexists..].
Defined.

Lemma toy_digits b : has_char underscore (hex_encode b) = false.
Proof. change (hex_encode b) with (ToyHex.enc b). induction b as [|x b IH]; [done|]. by destruct x. Qed.

Lemma tombstone_exact_witness :
  Dir.check_tombstone (publish_tombstones [(env, zeros 32, DeviceRevocation)] Dir.new) (zeros 32) DeviceRevocation = Ok true.
Proof.
  apply (tombstone_exact toy_digits [(env, zeros 32, DeviceRevocation)] (zeros 32) DeviceRevocation); [done| |exists env; by left].
  repeat constructor. exists 1700000000. done.
Defined.
End DirectoryWitness.
