(* ===== verification/Inbox.v ===== *)
(** * The inbox of unilateral transactions (dsm/src/unilateral/mod.rs)

    [InboxStorage] is the trait, with [MemoryInboxStorage] and [FileInboxStorage]
    as instances; [InboxLaws] is what a storage promises to the functions that send
    and process transactions ([Uni]), which are proved against it.  The disk is a
    tree of directories and files without symbolic links; what the file system
    refuses during a call, the identifiers drawn and the clock are arguments.
    Paths are walked component by component, so that an id with a separator leads
    where the system would go; a final [.] counts as a trailing separator. *)
From S2P Require Import Prelude Tokens Operations Keys Hexa NodeTypes.
From Stdlib Require Import Ascii.

(** ** Data *)

Record InboxEntry := mkInboxEntry {
  ie_id : string;
  ie_sender_genesis_hash : string;
  ie_recipient_genesis_hash : string;
  ie_transaction : bytes;
  ie_signature : bytes;
  ie_timestamp : Z;
  ie_expires_at : Z;
  ie_metadata : gmap string string;
}.

(** [IO] is what a call meets outside of the program. *)
Class InboxStorage (S IO : Type) := {
  store_entry : IO → InboxEntry → M S unit;
  get_entries : IO → string → S → outcome (list InboxEntry);
  delete_entry : IO → string → string → M S unit;
}.

Definition entry_not_found : DsmError := ENotFound "Inbox entry" (Some "Entry {} for recipient {} not found"%string).

(** ** In memory *)

Record MemoryInboxStorage := mkMemInbox { mi_entries : gmap string (gmap string InboxEntry) }.

Module MemInbox.
Section MemInbox.
Context {DO : DashOrder}.

Definition new : MemoryInboxStorage := mkMemInbox ∅.

Definition store_entry (io : unit) (entry : InboxEntry) : M MemoryInboxStorage unit :=
  mmod (fun s =>
    let recipient_inbox := unwrap_or ∅ (mi_entries s !! ie_recipient_genesis_hash entry) in
    mkMemInbox (<[ie_recipient_genesis_hash entry := <[ie_id entry := entry]> recipient_inbox]> (mi_entries s))).

Definition get_entries (io : unit) (recipient_id : string) (s : MemoryInboxStorage) : outcome (list InboxEntry) :=
  match mi_entries s !! recipient_id with
  | Some inbox => Ok (snd <$> dash_iter inbox)
  | None => Ok []
  end.

Definition delete_entry (io : unit) (recipient_id entry_id : string) : M MemoryInboxStorage unit := fun s =>
  match mi_entries s !! recipient_id with
  | Some inbox =>
      match inbox !! entry_id with
      | Some _ => (Ok tt, mkMemInbox (<[recipient_id := delete entry_id inbox]> (mi_entries s)))
      | None => (Err entry_not_found, s)
      end
  | None => (Err (ENotFound "Inbox" (Some "Inbox for recipient {} not found"%string)), s)
  end.

End MemInbox.
End MemInbox.

#[global] Instance mem_inbox {DO : DashOrder} : InboxStorage MemoryInboxStorage unit :=
  {| store_entry := MemInbox.store_entry; get_entries := MemInbox.get_entries; delete_entry := MemInbox.delete_entry |}.

(** ** External: serde_json on entries *)

(** [σ] is the iteration order of the metadata while an entry is encoded.  The
    encoder fails only on keys that are not strings. *)
Class InboxJson (σ : Type) := {
  entry_to_string_pretty : σ → InboxEntry → option bytes;
  entry_from_str : bytes → option InboxEntry;
  entry_json_total : ∀ o e, is_Some (entry_to_string_pretty o e);
  entry_json_utf8 : ∀ o e b, entry_to_string_pretty o e = Some b → utf8_valid b = true;
  entry_json_round_trip : ∀ o e b, entry_to_string_pretty o e = Some b → entry_from_str b = Some e;
}.

(** ** On disk *)

(** A path from the root to a directory ([None]) or the content of a file. *)
Abbreviation Disk := (gmap (list string) (option bytes)).

Record DiskIO (σ : Type) := mkDiskIO {
  io_mkdir_fails : bool;
  io_create_fails : bool;
  io_write_stops : option nat;
  io_readdir_fails : bool;
  io_next_fails : nat → bool;
  io_read_fails : nat → bool;
  io_remove_fails : bool;
  io_order : σ;
}.
Arguments mkDiskIO {σ} _ _ _ _ _ _ _ _.
Arguments io_mkdir_fails {σ} _.
Arguments io_create_fails {σ} _.
Arguments io_write_stops {σ} _.
Arguments io_readdir_fails {σ} _.
Arguments io_next_fails {σ} _ _.
Arguments io_read_fails {σ} _ _.
Arguments io_remove_fails {σ} _.
Arguments io_order {σ} _.

(** [base_dir] as its components from the root. *)
Record FileInboxStorage := mkFileInbox { fi_base_dir : list string; fi_disk : Disk }.

Module Fs.

Fixpoint split_path (s : string) : list string :=
  match s with
  | EmptyString => [""%string]
  | String c s =>
      if Ascii.eqb c "/" then ""%string :: split_path s
      else match split_path s with [] => [String c ""] | w :: l => String c w :: l end
  end.

(** [PathBuf::join]: an absolute path replaces the base. *)
Definition join (base : list string) (p : string) : list string :=
  match p with
  | String c _ => if Ascii.eqb c "/" then split_path p else base ++ split_path p
  | EmptyString => base ++ [""%string]
  end.

Definition step (cur : list string) (c : string) : list string :=
  if bool_decide (c = "" ∨ c = ".")%string then cur
  else if bool_decide (c = "..")%string then removelast cur
  else cur ++ [c].

(** Every component but the last is looked up in a directory. *)
Fixpoint walk (d : Disk) (cur path : list string) : option (list string) :=
  match path with
  | [] => Some cur
  | c :: path => if bool_decide (d !! cur = Some None) then walk d (step cur c) path else None
  end.

Definition path_exists (d : Disk) (path : list string) : bool :=
  match walk d [] path with Some q => bool_decide (is_Some (d !! q)) | None => false end.

Fixpoint create_dir_all (cur path : list string) (d : Disk) : bool * Disk :=
  match path with
  | [] => (true, d)
  | c :: path =>
      let next := step cur c in
      match d !! next with
      | Some None => create_dir_all next path d
      | Some (Some _) => (false, d)
      | None => create_dir_all next path (<[next := None]> d)
      end
  end.

(** The name of [q] in the directory [p]. *)
Definition child (p q : list string) : option string :=
  match rev q with
  | c :: r => if bool_decide (rev r = p) then Some c else None
  | [] => None
  end.
Definition listing (d : Disk) (p : list string) : gmap string (option bytes) :=
  map_fold (fun q n acc => match child p q with Some c => <[c := n]> acc | None => acc end) ∅ d.

(** [path.extension() == Some("json")]: a name that starts with its only dot has
    no extension. *)
Definition json_file (name : string) : bool :=
  let b := str_bytes name in
  (5 <? length b)%nat && bool_decide (drop (length b - 5) b = str_bytes ".json").

End Fs.

Module FileInbox.
Section FileInbox.
Context {DO : DashOrder} {σ : Type} {IJ : InboxJson σ}.

Definition set_disk (d : Disk) (s : FileInboxStorage) : FileInboxStorage := mkFileInbox (fi_base_dir s) d.

(** [home] and [userprofile] are the variables of the environment, [cwd] what a
    relative path is relative to.  A directory that cannot be made is only
    reported. *)
Definition new (io : DiskIO σ) (cwd : list string) (home userprofile : option string) (d : Disk) : FileInboxStorage :=
  let home_dir := match home with Some h => h | None => unwrap_or "."%string userprofile end in
  let base_dir := Fs.join cwd home_dir ++ [".dsm_config"; "unilateral"]%string in
  mkFileInbox base_dir (if io_mkdir_fails io then d else (Fs.create_dir_all [] base_dir d).2).

Definition get_inbox_dir (s : FileInboxStorage) (recipient_id : string) : list string := Fs.join (fi_base_dir s) recipient_id.
Definition get_entry_path (s : FileInboxStorage) (recipient_id entry_id : string) : list string :=
  Fs.join (get_inbox_dir s recipient_id) (entry_id +:+ ".json").

Definition make_dir (io : DiskIO σ) (dir : list string) : M FileInboxStorage unit := fun s =>
  if io_mkdir_fails io then (Err (EStorage "Failed to create inbox directory: {}"), s)
  else
    let '(ok, d) := Fs.create_dir_all [] dir (fi_disk s) in
    (if ok then Ok tt else Err (EStorage "Failed to create inbox directory: {}"), set_disk d s).

(** [fs::write]: the file is created or truncated, then written. *)
Definition write (io : DiskIO σ) (path : list string) (content : bytes) : M FileInboxStorage unit := fun s =>
  let failed := Err (EStorage "Failed to write inbox entry: {}") in
  match Fs.walk (fi_disk s) [] path with
  | Some q =>
      if io_create_fails io || bool_decide (fi_disk s !! q = Some None) then (failed, s)
      else
        match io_write_stops io with
        | Some n => (failed, set_disk (<[q := Some (take n content)]> (fi_disk s)) s)
        | None => (Ok tt, set_disk (<[q := Some content]> (fi_disk s)) s)
        end
  | None => (failed, s)
  end.

Definition store_entry (io : DiskIO σ) (entry : InboxEntry) : M FileInboxStorage unit :=
  let* s := mget in
  do* make_dir io (get_inbox_dir s (ie_recipient_genesis_hash entry));
  let* entry_json := mlift (ok_or (ESerialization "Failed to serialize inbox entry: {}") (entry_to_string_pretty (io_order io) entry)) in
  write io (get_entry_path s (ie_recipient_genesis_hash entry) (ie_id entry)) entry_json.

(** [while let Some(entry) = dir.next_entry().await?], for the [i]th entry on. *)
Fixpoint read_entries (io : DiskIO σ) (i : nat) (l : list (string * option bytes)) : outcome (list InboxEntry) :=
  if io_next_fails io i then Err (EStorage "Failed to read inbox directory entry: {}")
  else
    match l with
    | [] => Ok []
    | (name, node) :: l =>
        if Fs.json_file name then
          match node with
          | Some content =>
              if io_read_fails io i || negb (utf8_valid content) then Err (EStorage "Failed to read inbox entry file: {}")
              else
                e ← ok_or (ESerialization "Failed to deserialize inbox entry: {}") (entry_from_str content);
                rest ← read_entries io (S i) l;
                Ok (e :: rest)
          | None => Err (EStorage "Failed to read inbox entry file: {}")
          end
        else read_entries io (S i) l
    end.

Definition get_entries (io : DiskIO σ) (recipient_id : string) (s : FileInboxStorage) : outcome (list InboxEntry) :=
  let inbox_dir := get_inbox_dir s recipient_id in
  if negb (Fs.path_exists (fi_disk s) inbox_dir) then Ok []
  else
    let failed := Err (EStorage "Failed to read inbox directory: {}") in
    match Fs.walk (fi_disk s) [] inbox_dir with
    | Some q =>
        if io_readdir_fails io || negb (bool_decide (fi_disk s !! q = Some None)) then failed
        else read_entries io 0 (dash_iter (Fs.listing (fi_disk s) q))
    | None => failed
    end.

Definition delete_entry (io : DiskIO σ) (recipient_id entry_id : string) : M FileInboxStorage unit := fun s =>
  let path := get_entry_path s recipient_id entry_id in
  if negb (Fs.path_exists (fi_disk s) path) then (Err entry_not_found, s)
  else
    let failed := Err (EStorage "Failed to delete inbox entry: {}") in
    match Fs.walk (fi_disk s) [] path with
    | Some q =>
        if io_remove_fails io || bool_decide (fi_disk s !! q = Some None) then (failed, s)
        else (Ok tt, set_disk (delete q (fi_disk s)) s)
    | None => (failed, s)
    end.

End FileInbox.
End FileInbox.

#[global] Instance file_inbox {DO : DashOrder} {σ : Type} {IJ : InboxJson σ} : InboxStorage FileInboxStorage (DiskIO σ) :=
  {| store_entry := FileInbox.store_entry; get_entries := FileInbox.get_entries; delete_entry := FileInbox.delete_entry |}.

(** ** Sending and processing *)

Module Uni.
Section Uni.
Context {B3 : Blake3} {S IO : Type} {IS : InboxStorage S IO}.

(** [InboxManager] passes every call on to its storage. *)
Definition manager_store_entry (io : IO) (entry : InboxEntry) : M S unit := store_entry io entry.
Definition get_inbox_entries (io : IO) (recipient_id : string) (s : S) : outcome (list InboxEntry) := get_entries io recipient_id s.
Definition manager_delete_entry (io : IO) (recipient_id entry_id : string) : M S unit := delete_entry io recipient_id entry_id.

Definition signature_of (transaction : bytes) (sender recipient : string) : bytes :=
  blake3 (transaction ++ str_bytes sender ++ str_bytes recipient).

(** [uuid] is the identifier drawn, [timestamp] the clock in seconds. *)
Definition new_entry (uuid : string) (timestamp : Z) (sender_id recipient_id : string) (data : bytes)
    (metadata : option (gmap string string)) : InboxEntry :=
  mkInboxEntry uuid sender_id recipient_id data (signature_of data sender_id recipient_id) (timestamp mod 2 ^ 64) 0 (unwrap_or ∅ metadata).

Definition send_unilateral_transaction (io : IO) (uuid : string) (timestamp : Z) (sender_id recipient_id : string) (data : bytes)
    (metadata : option (gmap string string)) : M S string :=
  do* manager_store_entry io (new_entry uuid timestamp sender_id recipient_id data metadata);
  mret_st uuid.

Fixpoint process_unilateral_transactions (io : IO) (recipient_id : string) (entries : list InboxEntry) : M S (list string) :=
  match entries with
  | [] => mret_st []
  | entry :: entries =>
      if negb (bool_decide (ie_recipient_genesis_hash entry = recipient_id)) then process_unilateral_transactions io recipient_id entries
      else if negb (bool_decide (ie_signature entry =
                signature_of (ie_transaction entry) (ie_sender_genesis_hash entry) (ie_recipient_genesis_hash entry)))
      then process_unilateral_transactions io recipient_id entries
      else
        do* manager_delete_entry io recipient_id (ie_id entry);
        let* processed_ids := process_unilateral_transactions io recipient_id entries in
        mret_st (ie_id entry :: processed_ids)
  end.

End Uni.
End Uni.

(** * What a storage promises *)

(** [holds s v]: the storage [s] holds the entries [v], under their recipient and
    their own id.  [usable] are the strings the storage can use as a name, [quiet]
    the calls during which nothing outside fails. *)
Class InboxLaws (S IO : Type) {IS : InboxStorage S IO} := {
  holds : S → gmap (string * string) InboxEntry → Prop;
  quiet : IO → Prop;
  usable : string → Prop;
  holds_keyed s v r i e : holds s v → v !! (r, i) = Some e → ie_recipient_genesis_hash e = r ∧ ie_id e = i;
  store_law io e s v : quiet io → usable (ie_recipient_genesis_hash e) → usable (ie_id e) → holds s v →
    ∃ s', store_entry io e s = (Ok tt, s') ∧ holds s' (<[(ie_recipient_genesis_hash e, ie_id e) := e]> v);
  get_law io r s v : quiet io → usable r → holds s v →
    ∃ l, get_entries io r s = Ok l ∧ NoDup (ie_id <$> l) ∧
      ∀ e, e ∈ l ↔ ie_recipient_genesis_hash e = r ∧ v !! (r, ie_id e) = Some e;
  delete_law io r i s v : quiet io → usable r → usable i → holds s v →
    match v !! (r, i) with
    | Some _ => ∃ s', delete_entry io r i s = (Ok tt, s') ∧ holds s' (delete (r, i) v)
    | None => ∃ what details, delete_entry io r i s = (Err (ENotFound what details), s)
    end;
}.

Section ClientFacts.
Context {B3 : Blake3} {S IO : Type} {IS : InboxStorage S IO} {IL : InboxLaws S IO}.

(** One call of [send_unilateral_transaction]. *)
Record Sending := mkSending {
  sd_uuid : string; sd_time : Z; sd_sender : string; sd_recipient : string; sd_data : bytes; sd_metadata : option (gmap string string);
}.
Definition sent_entry (x : Sending) : InboxEntry :=
  Uni.new_entry (sd_uuid x) (sd_time x) (sd_sender x) (sd_recipient x) (sd_data x) (sd_metadata x).
Fixpoint send_all (io : IO) (l : list Sending) : M S (list string) :=
  match l with
  | [] => mret_st []
  | x :: l =>
      let* i := Uni.send_unilateral_transaction io (sd_uuid x) (sd_time x) (sd_sender x) (sd_recipient x) (sd_data x) (sd_metadata x) in
      let* ids := send_all io l in mret_st (i :: ids)
  end.

(** The entries of some sendings, under their keys. *)
Definition sent (l : list Sending) : gmap (string * string) InboxEntry :=
  list_to_map ((fun x => ((sd_recipient x, sd_uuid x), sent_entry x)) <$> l).

Lemma sent_cons x l : sent (x :: l) = <[(sd_recipient x, sd_uuid x) := sent_entry x]> (sent l).
Proof. done. Qed.

Lemma send_one io x s v : quiet io → usable (sd_recipient x) → usable (sd_uuid x) → holds s v →
  ∃ s', Uni.send_unilateral_transaction io (sd_uuid x) (sd_time x) (sd_sender x) (sd_recipient x) (sd_data x) (sd_metadata x) s =
    (Ok (sd_uuid x), s') ∧ holds s' (<[(sd_recipient x, sd_uuid x) := sent_entry x]> v).
Proof.
  intros Hq Hr Hi Hs. unfold Uni.send_unilateral_transaction, Uni.manager_store_entry, mbind_st, mret_st.
  destruct (store_law io (sent_entry x) s v Hq Hr Hi Hs) as (s' & E & Hs'). unfold sent_entry in E. rewrite E. by exists s'.
Qed.

Lemma send_all_spec io l s v : quiet io → Forall (fun x => usable (sd_recipient x) ∧ usable (sd_uuid x)) l →
  NoDup (sd_uuid <$> l) → (∀ x r, x ∈ l → v !! (r, sd_uuid x) = None) → holds s v →
  ∃ s', send_all io l s = (Ok (sd_uuid <$> l), s') ∧ holds s' (sent l ∪ v).
Proof.
  intros Hq Hu. revert s v. induction Hu as [|x l [Hr Hi] Hu IH]; intros s v Hnd Hv Hs; cbn [send_all fmap list_fmap].
  - exists s. split; [done|]. unfold sent. cbn. by rewrite (left_id_L ∅ _).
  - inversion Hnd as [|? ? Hx Hnd']; subst.
    destruct (send_one io x s v Hq Hr Hi Hs) as (s1 & E1 & H1). unfold mbind_st at 1. rewrite E1.
    edestruct (IH s1) as (s2 & E2 & H2); [exact Hnd'| |exact H1|].
    { intros y r Hy. rewrite lookup_insert_ne; [apply Hv, elem_of_cons; by right|].
      intros [= _ E]. apply Hx, list_elem_of_fmap. by exists y. }
    exists s2. unfold mbind_st, mret_st. rewrite E2. split; [done|].
    replace (sent (x :: l) ∪ v) with (sent l ∪ <[(sd_recipient x, sd_uuid x):=sent_entry x]> v); [done|].
    rewrite sent_cons, <- insert_union_l, insert_union_r; [done|].
    apply not_elem_of_list_to_map_1. rewrite list_elem_of_fmap. intros ([k e] & Ek & Hk).
    apply list_elem_of_fmap in Hk as (y & [= -> _] & Hy). cbn in Ek. injection Ek as _ Ek. apply Hx, list_elem_of_fmap. by exists y.
Qed.

Lemma process_step io r e l s : ie_recipient_genesis_hash e = r →
  ie_signature e = Uni.signature_of (ie_transaction e) (ie_sender_genesis_hash e) (ie_recipient_genesis_hash e) →
  Uni.process_unilateral_transactions io r (e :: l) s =
  match delete_entry io r (ie_id e) s with
  | (Ok _, s') => mbind_st (Uni.process_unilateral_transactions io r l) (fun ids => mret_st (ie_id e :: ids)) s'
  | (Err x, s') => (Err x, s')
  | (Panic, s') => (Panic, s')
  | (Hang, s') => (Hang, s')
  end.
Proof.
  intros Hr Hsig. cbn [Uni.process_unilateral_transactions]. rewrite !bool_decide_eq_true_2 by done. done.
Qed.

(** Genuine entries that are all held are deleted, each exactly once. *)
Lemma process_all io r l s v : quiet io → usable r → Forall usable (ie_id <$> l) → NoDup (ie_id <$> l) →
  Forall (fun e => ie_recipient_genesis_hash e = r ∧ v !! (r, ie_id e) = Some e ∧
    ie_signature e = Uni.signature_of (ie_transaction e) (ie_sender_genesis_hash e) (ie_recipient_genesis_hash e)) l →
  holds s v →
  ∃ s' v', Uni.process_unilateral_transactions io r l s = (Ok (ie_id <$> l), s') ∧ holds s' v' ∧
    ∀ r' i, v' !! (r', i) = if bool_decide (r' = r ∧ i ∈ (ie_id <$> l)) then None else v !! (r', i).
Proof.
  intros Hq Hr. revert s v. induction l as [|e l IH]; intros s v Hu Hnd Hall Hs.
  - exists s, v. split_and!; [done..|]. intros r' i. rewrite bool_decide_eq_false_2; [done|]. intros [_ H]. by apply elem_of_nil in H.
  - rewrite fmap_cons in *. inversion Hu as [|? ? Hue Hul]; subst. inversion Hnd as [|? ? Hx Hnd']; subst.
    inversion Hall as [|? ? (He & Hv & Hsig) Hall']; subst. rewrite process_step by done.
    pose proof (delete_law io _ _ s v Hq Hr Hue Hs) as Hd. rewrite Hv in Hd. destruct Hd as (s1 & E1 & H1). rewrite E1.
    edestruct (IH s1) as (s2 & v2 & E2 & H2 & Hv2); [exact Hul|exact Hnd'| |exact H1|].
    { rewrite Forall_forall in *. intros y Hy. destruct (Hall' y Hy) as (? & ? & ?). split_and!; [done| |done].
      rewrite lookup_delete_ne; [done|]. intros [= E]. apply Hx, list_elem_of_fmap. by exists y. }
    exists s2, v2. unfold mbind_st, mret_st. rewrite E2. split_and!; [done..|]. intros r' i. rewrite Hv2.
    destruct (decide (r' = ie_recipient_genesis_hash e ∧ i = ie_id e)) as [[-> ->]|Hne].
    + rewrite (bool_decide_eq_true_2 (_ ∧ _ ∈ _ :: _)) by (split; [done|apply elem_of_cons; by left]).
      rewrite lookup_delete_eq. by case_bool_decide.
    + rewrite lookup_delete_ne by (intros [= <- <-]; naive_solver).
      apply (f_equal (fun b : bool => if b then None else v !! (r', i))), bool_decide_ext. rewrite elem_of_cons. naive_solver.
Qed.

Lemma sent_lookup l r i e : NoDup (sd_uuid <$> l) →
  sent l !! (r, i) = Some e ↔ ∃ x, x ∈ l ∧ sd_recipient x = r ∧ sd_uuid x = i ∧ e = sent_entry x.
Proof.
  intros Hnd. unfold sent. rewrite <- elem_of_list_to_map, list_elem_of_fmap; [naive_solver|].
  rewrite <- list_fmap_compose. eapply (NoDup_fmap_1 snd). rewrite <- list_fmap_compose. exact Hnd.
Qed.

(** The entries of a recipient, once from the storage and once from what was
    sent. *)
Lemma inbox_permutation l r es : NoDup (sd_uuid <$> l) → NoDup (ie_id <$> es) →
  (∀ e, e ∈ es ↔ ie_recipient_genesis_hash e = r ∧ sent l !! (r, ie_id e) = Some e) →
  es ≡ₚ sent_entry <$> filter (fun x => sd_recipient x = r) l.
Proof.
  intros Hl He Hmem. apply NoDup_Permutation.
  - by eapply NoDup_fmap_1.
  - eapply (NoDup_fmap_1 ie_id). rewrite <- list_fmap_compose.
    eapply sublist_NoDup; [exact Hl|]. apply fmap_sublist, sublist_filter.
  - intros e. rewrite Hmem, list_elem_of_fmap, sent_lookup by done. split.
    + intros (_ & x & Hx & Hr & _ & ->). exists x. by rewrite list_elem_of_filter.
    + intros (x & -> & (<- & Hx)%list_elem_of_filter). split; [done|]. by exists x.
Qed.

Lemma get_same io r s1 s2 v1 v2 l1 l2 : quiet io → usable r → holds s1 v1 → holds s2 v2 →
  (∀ i, v1 !! (r, i) = v2 !! (r, i)) → get_entries io r s1 = Ok l1 → get_entries io r s2 = Ok l2 → l1 ≡ₚ l2.
Proof.
  intros Hq Hr H1 H2 Hv E1 E2.
  destruct (get_law io r s1 v1 Hq Hr H1) as (m1 & F1 & N1 & M1). rewrite E1 in F1. apply Ok_inj in F1 as <-.
  destruct (get_law io r s2 v2 Hq Hr H2) as (m2 & F2 & N2 & M2). rewrite E2 in F2. apply Ok_inj in F2 as <-.
  apply NoDup_Permutation; [by eapply NoDup_fmap_1..|]. intros e. by rewrite M1, M2, Hv.
Qed.

(** C40: unilateral transactions are delivered exactly once, over any storage that
    keeps its promises: transactions sent with fresh identifiers into empty inboxes
    are returned with their identifiers, the inbox of every recipient then holds
    exactly those addressed to it, processing what was read processes all of it,
    empties the inbox and leaves the others as they are, and processing it once more
    is refused and changes nothing. *)
Theorem unilateral_delivery (io : IO) (l : list Sending) (s : S) :
  quiet io → holds s ∅ → NoDup (sd_uuid <$> l) → Forall (fun x => usable (sd_recipient x) ∧ usable (sd_uuid x)) l →
  ∃ s', send_all io l s = (Ok (sd_uuid <$> l), s') ∧
    ∀ r, usable r → ∃ es s'',
      Uni.get_inbox_entries io r s' = Ok es ∧ es ≡ₚ sent_entry <$> filter (fun x => sd_recipient x = r) l ∧
      Uni.process_unilateral_transactions io r es s' = (Ok (ie_id <$> es), s'') ∧
      Uni.get_inbox_entries io r s'' = Ok [] ∧
      (∀ r', usable r' → r' ≠ r → ∃ l1 l2,
         Uni.get_inbox_entries io r' s' = Ok l1 ∧ Uni.get_inbox_entries io r' s'' = Ok l2 ∧ l1 ≡ₚ l2) ∧
      (es ≠ [] → ∃ what details, Uni.process_unilateral_transactions io r es s'' = (Err (ENotFound what details), s'')).
Proof.
  intros Hq Hs Hnd Hu. destruct (send_all_spec io l s ∅) as (s' & E & Hs'); [done..|intros; apply lookup_empty|done|].
  rewrite (right_id_L ∅ _) in Hs'. exists s'. split; [done|]. intros r Hr. unfold Uni.get_inbox_entries.
  destruct (get_law io r s' _ Hq Hr Hs') as (es & Eg & Hes & Hmem).
  assert (∀ e, e ∈ es → ∃ x, x ∈ l ∧ e = sent_entry x) as Hx.
  { intros e (_ & (x & Hx & _ & _ & ->)%sent_lookup)%Hmem; [by exists x|done]. }
  rewrite Forall_forall in Hu.
  assert (Forall usable (ie_id <$> es)) as Hue.
  { apply Forall_fmap, Forall_forall. intros e (x & Hxl & ->)%Hx. cbn. by apply Hu. }
  assert (Forall (fun e => ie_recipient_genesis_hash e = r ∧ sent l !! (r, ie_id e) = Some e ∧
    ie_signature e = Uni.signature_of (ie_transaction e) (ie_sender_genesis_hash e) (ie_recipient_genesis_hash e)) es) as Hall.
  { apply Forall_forall. intros e He. destruct (proj1 (Hmem e) He) as [H1 H2]. destruct (Hx e He) as (x & _ & ->). done. }
  destruct (process_all io r es s' _ Hq Hr Hue Hes Hall Hs') as (s2 & v2 & Ep & Hs2 & Hv2).
  exists es, s2. split_and!; [done|by apply inbox_permutation|done|..].
  - destruct (get_law io r s2 v2 Hq Hr Hs2) as (l2 & E2 & _ & M2). rewrite E2. f_equal. apply elem_of_nil_inv. intros e He.
    apply M2 in He as [He1 He2]. rewrite Hv2 in He2. case_bool_decide as Hin; [done|].
    apply Hin. split; [done|]. apply list_elem_of_fmap. exists e. split; [done|]. by apply Hmem.
  - intros r' Hr' Hne. destruct (get_law io r' s' _ Hq Hr' Hs') as (l1 & E1 & _). destruct (get_law io r' s2 _ Hq Hr' Hs2) as (l2 & E2 & _).
    exists l1, l2. split_and!; [done..|]. eapply (get_same io r' s' s2); [done..|intros i|exact E1|exact E2].
    rewrite Hv2, bool_decide_eq_false_2 by naive_solver. done.
  - intros Hne. destruct es as [|e es]; [done|]. apply Forall_cons in Hall as [(He & _ & Hsig) _].
    rewrite process_step by done. apply Forall_cons in Hue as [Hue _].
    pose proof (delete_law io r (ie_id e) s2 v2 Hq Hr Hue Hs2) as Hd. rewrite Hv2, bool_decide_eq_true_2 in Hd.
    { destruct Hd as (what & details & Hd). exists what, details. by rewrite Hd. }
    split; [done|]. apply elem_of_cons. by left.
Qed.

(** The signature of an entry has no key and does not separate its parts: whoever
    knows the parts computes it, and bytes moved from the data to the sender give
    another entry that is processed all the same. *)
Theorem inbox_signature_forgeable (io : IO) (uuid : string) (t : Z) (a b recipient : string) (data : bytes) (s : S) :
  let genuine := Uni.new_entry uuid t b recipient (data ++ str_bytes a) None in
  let forged := mkInboxEntry uuid (a +:+ b) recipient data (ie_signature genuine) (t mod 2 ^ 64) 0 ∅ in
  Uni.process_unilateral_transactions io recipient [forged] s = Uni.process_unilateral_transactions io recipient [genuine] s.
Proof.
  cbv zeta. rewrite !process_step; [done|done..|]. cbn. unfold Uni.signature_of.
  by rewrite str_bytes_app, <- !app_assoc.
Qed.

End ClientFacts.

(** * The storage in memory keeps the promises *)

Section MemoryFacts.
Context {DO : DashOrder}.

Definition mem_holds (s : MemoryInboxStorage) (v : gmap (string * string) InboxEntry) : Prop :=
  (∀ r i, v !! (r, i) = mi_entries s !! r ≫= lookup i) ∧
  ∀ r i e, v !! (r, i) = Some e → ie_recipient_genesis_hash e = r ∧ ie_id e = i.

Lemma mem_store (e : InboxEntry) s v : mem_holds s v →
  ∃ s', MemInbox.store_entry tt e s = (Ok tt, s') ∧ mem_holds s' (<[(ie_recipient_genesis_hash e, ie_id e) := e]> v).
Proof.
  intros [Hv Hk]. eexists. split; [reflexivity|]. cbv zeta. split; cbn [mi_entries].
  - intros r i. destruct (decide (r = ie_recipient_genesis_hash e)) as [->|Hr]; cycle 1.
    { rewrite !lookup_insert_ne by congruence. apply Hv. }
    rewrite lookup_insert_eq. cbn [mbind option_bind]. destruct (decide (i = ie_id e)) as [->|Hi].
    + by rewrite !lookup_insert_eq.
    + rewrite !lookup_insert_ne by congruence. rewrite Hv. by destruct (mi_entries s !! ie_recipient_genesis_hash e).
  - intros r i e'. destruct (decide ((r, i) = (ie_recipient_genesis_hash e, ie_id e))) as [[= -> ->]|Hne].
    + rewrite lookup_insert_eq. by intros [= <-].
    + rewrite lookup_insert_ne by done. apply Hk.
Qed.

Lemma mem_get r s v : mem_holds s v →
  ∃ l, MemInbox.get_entries tt r s = Ok l ∧ NoDup (ie_id <$> l) ∧
    ∀ e, e ∈ l ↔ ie_recipient_genesis_hash e = r ∧ v !! (r, ie_id e) = Some e.
Proof.
  intros [Hv Hk]. unfold MemInbox.get_entries. destruct (mi_entries s !! r) as [inbox|] eqn:E; cycle 1.
  { exists []. split_and!; [done|constructor|]. intros e. rewrite Hv, E. split; [by intros ?%elem_of_nil|naive_solver]. }
  assert (∀ i e, inbox !! i = Some e → ie_recipient_genesis_hash e = r ∧ ie_id e = i) as Hk'.
  { intros i e Hi. apply Hk. by rewrite Hv, E. }
  eexists. split; [reflexivity|]. split.
  - assert (ie_id <$> (snd <$> dash_iter inbox) = fst <$> dash_iter inbox) as ->.
    { rewrite <- list_fmap_compose. apply list_fmap_ext. intros k [i e] Hi%list_elem_of_lookup_2%elem_of_iter. cbn. by apply Hk'. }
    rewrite dash_iter_perm. apply NoDup_fst_map_to_list.
  - intros e. rewrite Hv, E. cbn [mbind option_bind]. rewrite list_elem_of_fmap. split.
    + intros ([i e'] & -> & Hi%elem_of_iter). cbn. destruct (Hk' _ _ Hi) as [? <-]. done.
    + intros [_ He]. exists (ie_id e, e). split; [done|]. by apply elem_of_iter.
Qed.

Lemma mem_delete r i s v : mem_holds s v →
  match v !! (r, i) with
  | Some _ => ∃ s', MemInbox.delete_entry tt r i s = (Ok tt, s') ∧ mem_holds s' (delete (r, i) v)
  | None => ∃ what details, MemInbox.delete_entry tt r i s = (Err (ENotFound what details), s)
  end.
Proof.
  intros [Hv Hk]. rewrite Hv. unfold MemInbox.delete_entry. destruct (mi_entries s !! r) as [inbox|] eqn:E; cbn [mbind option_bind]; [|eauto].
  destruct (inbox !! i) as [e|] eqn:Ei; [|unfold entry_not_found; eauto]. eexists. split; [reflexivity|]. split; cbn [mi_entries].
  - intros r' i'. destruct (decide (r' = r)) as [->|Hr].
    + rewrite lookup_insert_eq. cbn [mbind option_bind]. destruct (decide (i' = i)) as [->|Hi].
      * by rewrite !lookup_delete_eq.
      * rewrite (lookup_delete_ne v) by (intros [= ?]; congruence). rewrite (lookup_delete_ne inbox) by congruence. by rewrite Hv, E.
    + rewrite (lookup_delete_ne v) by (intros [= ?]; congruence). rewrite lookup_insert_ne by done. apply Hv.
  - intros r' i' e' [_ H]%lookup_delete_Some. by apply Hk.
Qed.

#[global] Instance mem_inbox_laws : InboxLaws MemoryInboxStorage unit.
Proof.
  refine {| holds := mem_holds; quiet := fun _ => True; usable := fun _ => True |}.
  - intros s v r i e [_ Hk]. apply Hk.
  - intros [] e s v _ _ _. apply mem_store.
  - intros [] r s v _ _. apply mem_get.
  - intros [] r i s v _ _ _. apply mem_delete.
Defined.

End MemoryFacts.

(** * The storage on disk keeps the promises *)

(** ** Paths *)

Fixpoint no_slash (s : string) : bool :=
  match s with EmptyString => true | String c s => negb (Ascii.eqb c "/") && no_slash s end.

(** A string that names an entry of a directory. *)
Definition plain_name (s : string) : Prop := no_slash s = true ∧ s ≠ ""%string ∧ s ≠ "."%string ∧ s ≠ ".."%string.

Lemma split_no_slash s : no_slash s = true → Fs.split_path s = [s].
Proof.
  induction s as [|c s IH]; [done|]. cbn. intros [Hc Hs]%andb_true_iff. apply negb_true_iff in Hc. by rewrite Hc, IH.
Qed.

Lemma no_slash_app a b : no_slash (a +:+ b) = no_slash a && no_slash b.
Proof. induction a as [|c a IH]; [done|]. cbn. by rewrite <- andb_assoc, <- IH. Qed.

Lemma join_name base s : no_slash s = true → Fs.join base s = base ++ [s].
Proof.
  intros Hs. pose proof (split_no_slash s Hs) as E. unfold Fs.join. destruct s as [|c s]; [done|].
  cbn in Hs. apply andb_true_iff in Hs as [Hc _]. apply negb_true_iff in Hc. by rewrite Hc, E.
Qed.

Lemma step_name cur s : plain_name s → Fs.step cur s = cur ++ [s].
Proof. intros (_ & H1 & H2 & H3). unfold Fs.step. by rewrite !bool_decide_eq_false_2 by naive_solver. Qed.

Lemma json_name i : plain_name i → plain_name (i +:+ ".json") ∧ Fs.json_file (i +:+ ".json") = true.
Proof.
  intros (Hs & Hne & _). destruct i as [|c i]; [done|]. split.
  - split; [by rewrite no_slash_app, Hs|]. destruct i as [|c' i]; [done|]. by destruct i.
  - unfold Fs.json_file. rewrite str_bytes_app, length_app. change (length (str_bytes ".json")) with 5%nat.
    destruct (Nat.ltb_spec 5 (length (str_bytes (String c i)) + 5)) as [_|H]; [|cbn in H; lia].
    rewrite Nat.add_sub, drop_app_length. by apply bool_decide_eq_true_2.
Qed.

Lemma json_name_inj i j : (i +:+ ".json")%string = (j +:+ ".json")%string → i = j.
Proof.
  intros E%(f_equal str_bytes). rewrite !str_bytes_app in E. apply app_inv_tail in E. unfold str_bytes in E.
  rewrite <- (String.string_of_list_byte_of_string i), <- (String.string_of_list_byte_of_string j). by rewrite E.
Qed.

Lemma walk_app d cur a b : Fs.walk d cur (a ++ b) = Fs.walk d cur a ≫= fun q => Fs.walk d q b.
Proof. revert cur. induction a as [|c a IH]; intros cur; [done|]. cbn. case_bool_decide; [apply IH|done]. Qed.

Lemma walk_mono d d' cur p q : (∀ x, d !! x = Some None → d' !! x = Some None) → Fs.walk d cur p = Some q → Fs.walk d' cur p = Some q.
Proof.
  intros Hd. revert cur. induction p as [|c p IH]; intros cur; [done|]. cbn. case_bool_decide as H; [|done].
  rewrite bool_decide_eq_true_2 by auto. apply IH.
Qed.

(** Directories that exist are passed. *)
Lemma create_existing d cur p q rest : d !! cur = Some None → Fs.walk d cur p = Some q → d !! q = Some None →
  Fs.create_dir_all cur (p ++ rest) d = Fs.create_dir_all q rest d.
Proof.
  revert cur. induction p as [|c p IH]; intros cur Hc Hw Hq; cbn in Hw |- *; [by injection Hw as <-|].
  rewrite bool_decide_eq_true_2 in Hw by done.
  assert (d !! Fs.step cur c = Some None) as Hn.
  { destruct p as [|c' p]; cbn in Hw; [by injection Hw as ->|]. by case_bool_decide. }
  rewrite Hn. by apply IH.
Qed.

Lemma child_spec p q c : Fs.child p q = Some c ↔ q = p ++ [c].
Proof.
  unfold Fs.child. split.
  - destruct (rev q) as [|x r] eqn:E; [done|]. case_bool_decide as H; [|done]. intros [= ->].
    apply (f_equal (@rev _)) in E. rewrite rev_involutive in E. cbn in E. by rewrite E, H.
  - intros ->. rewrite rev_app_distr. cbn. by rewrite rev_involutive, bool_decide_eq_true_2.
Qed.

Lemma listing_lookup d p c : Fs.listing d p !! c = d !! (p ++ [c]).
Proof.
  unfold Fs.listing. apply (map_fold_weak_ind (fun acc (d : Disk) => acc !! c = d !! (p ++ [c]))).
  - by rewrite !lookup_empty.
  - intros q n m acc Hq IH. destruct (Fs.child p q) as [x|] eqn:E.
    + apply child_spec in E as ->. destruct (decide (x = c)) as [->|Hne].
      * by rewrite !lookup_insert_eq.
      * rewrite (lookup_insert_ne acc) by done. rewrite lookup_insert_ne; [done|]. intros E%app_inv_head. congruence.
    + rewrite lookup_insert_ne; [done|]. intros ->. assert (Fs.child p (p ++ [c]) = Some c) by by apply child_spec. congruence.
Qed.

(** ** The file storage *)

Section FileFacts.
Context {DO : DashOrder} {σ : Type} {IJ : InboxJson σ}.

Definition no_failure (io : DiskIO σ) : Prop :=
  io_mkdir_fails io = false ∧ io_create_fails io = false ∧ io_write_stops io = None ∧ io_readdir_fails io = false ∧
  (∀ n, io_next_fails io n = false) ∧ (∀ n, io_read_fails io n = false) ∧ io_remove_fails io = false.

Definition encodes (c : bytes) (e : InboxEntry) : Prop := utf8_valid c = true ∧ entry_from_str c = Some e.

(** The base directory is [q]; below it, the directory of a recipient holds one
    file for each of its entries and nothing else. *)
Record disk_holds (d : Disk) (q : list string) (v : gmap (string * string) InboxEntry) : Prop := {
  dh_root : d !! [] = Some None;
  dh_base : d !! q = Some None;
  dh_dirs : ∀ r c, plain_name r → d !! (q ++ [r]) ≠ Some (Some c);
  dh_files : ∀ r name n, plain_name r → d !! (q ++ [r; name]) = Some n →
    ∃ i e c, name = (i +:+ ".json")%string ∧ n = Some c ∧ encodes c e ∧ v !! (r, i) = Some e;
  dh_entries : ∀ r i e, v !! (r, i) = Some e →
    ie_recipient_genesis_hash e = r ∧ ie_id e = i ∧ plain_name r ∧ plain_name i ∧ d !! (q ++ [r]) = Some None ∧
    ∃ c, d !! (q ++ [r; (i +:+ ".json")%string]) = Some (Some c) ∧ encodes c e;
}.

Definition file_holds (s : FileInboxStorage) (v : gmap (string * string) InboxEntry) : Prop :=
  ∃ q, Fs.walk (fi_disk s) [] (fi_base_dir s) = Some q ∧ disk_holds (fi_disk s) q v.

Lemma below_ne (q : list string) a b c : q ++ [a; b] ≠ q ++ [c].
Proof. intros E%app_inv_head. done. Qed.

Lemma base_ne (q : list string) a l : q ++ a :: l ≠ q.
Proof. intros E%(f_equal length). rewrite length_app in E. cbn in E. lia. Qed.

(** Making the directory of a recipient changes nothing that is held. *)
Lemma mkdir_holds d q v r : plain_name r → disk_holds d q v →
  ∃ d', Fs.create_dir_all q [r] d = (true, d') ∧ d' !! (q ++ [r]) = Some None ∧ disk_holds d' q v ∧
    ∀ x, d !! x = Some None → d' !! x = Some None.
Proof.
  intros Hr [H1 H2 H3 H4 H5]. cbn [Fs.create_dir_all]. rewrite step_name by done.
  destruct (d !! (q ++ [r])) as [[c|]|] eqn:E; [by destruct (H3 r c)|by exists d|].
  assert (∀ x, d !! x = Some None → <[q ++ [r] := None]> d !! x = Some None) as Hm.
  { intros x Hx. rewrite lookup_insert_ne by congruence. done. }
  eexists. split; [reflexivity|]. split; [apply lookup_insert_eq|]. split; [|done]. split; [by apply Hm..| | |].
  - intros r' c Hr'. destruct (decide (r' = r)) as [->|Hne]; [by rewrite lookup_insert_eq|].
    rewrite lookup_insert_ne by (intros E'%app_inv_head; congruence). by apply H3.
  - intros r' name n Hr'. rewrite lookup_insert_ne by (intros E'; by apply (below_ne q r' name r)). by apply H4.
  - intros r' i e Hv. destruct (H5 r' i e Hv) as (A1 & A2 & A3 & A4 & A5 & c & A6 & A7).
    split_and!; [done..|by apply Hm|]. exists c. split; [|done].
    rewrite lookup_insert_ne by (intros E'; by apply (below_ne q r' (i +:+ ".json") r)). done.
Qed.

(** Writing the file of an entry. *)
Lemma write_holds d q v e c : plain_name (ie_recipient_genesis_hash e) → plain_name (ie_id e) → encodes c e →
  d !! (q ++ [ie_recipient_genesis_hash e]) = Some None → disk_holds d q v →
  let p := q ++ [ie_recipient_genesis_hash e; (ie_id e +:+ ".json")%string] in
  d !! p ≠ Some None ∧ disk_holds (<[p := Some c]> d) q (<[(ie_recipient_genesis_hash e, ie_id e) := e]> v) ∧
  ∀ x, d !! x = Some None → <[p := Some c]> d !! x = Some None.
Proof.
  intros Hr Hi Hc Hdir [H1 H2 H3 H4 H5]. cbv zeta. set (r := ie_recipient_genesis_hash e) in *. set (i := ie_id e) in *.
  set (p := q ++ [r; _]).
  assert (d !! p ≠ Some None) as Hp by (intros (? & ? & ? & _ & ? & _)%H4; done).
  assert (∀ x, d !! x = Some None → <[p := Some c]> d !! x = Some None) as Hm.
  { intros x Hx. rewrite lookup_insert_ne by congruence. done. }
  split_and!; [done| |done]. split; [by apply Hm..| | |].
  - intros r' c' Hr'. rewrite lookup_insert_ne by apply below_ne. by apply H3.
  - intros r' name n Hr'. destruct (decide (r' = r ∧ name = (i +:+ ".json")%string)) as [[-> ->]|Hne].
    + fold p. rewrite lookup_insert_eq. intros [= <-]. exists i, e, c. split_and!; [done..|]. apply lookup_insert_eq.
    + rewrite lookup_insert_ne by (unfold p; intros E%app_inv_head; naive_solver). intros Hn.
      destruct (H4 r' name n Hr' Hn) as (i' & e' & c' & -> & -> & He' & Hv). exists i', e', c'. split_and!; [done..|].
      rewrite lookup_insert_ne; [done|]. intros [= <- <-]. naive_solver.
  - intros r' i' e' Hv. destruct (decide (r' = r ∧ i' = i)) as [[-> ->]|Hne].
    + rewrite lookup_insert_eq in Hv. injection Hv as <-. split_and!; [done..|by apply Hm|]. exists c. split; [apply lookup_insert_eq|done].
    + rewrite lookup_insert_ne in Hv by naive_solver. destruct (H5 r' i' e' Hv) as (A1 & A2 & A3 & A4 & A5 & c' & A6 & A7).
      split_and!; [done..|by apply Hm|]. exists c'. split; [|done].
      rewrite lookup_insert_ne; [done|]. unfold p. intros [= <- E%json_name_inj]%app_inv_head. naive_solver.
Qed.

Lemma file_store io e s v : no_failure io → plain_name (ie_recipient_genesis_hash e) → plain_name (ie_id e) → file_holds s v →
  ∃ s', FileInbox.store_entry io e s = (Ok tt, s') ∧ file_holds s' (<[(ie_recipient_genesis_hash e, ie_id e) := e]> v).
Proof.
  intros (F1 & F2 & F3 & _) Hr Hi (q & Hw & Hh).
  destruct (mkdir_holds _ _ _ _ Hr Hh) as (d & E & Hdir & Hd & Hm).
  destruct (entry_json_total (io_order io) e) as [c Hc].
  assert (encodes c e) as He by (split; [by eapply entry_json_utf8|by eapply entry_json_round_trip]).
  destruct (write_holds d q v e c Hr Hi He Hdir Hd) as (Hp & Hd' & Hm').
  assert (Fs.walk d [] (fi_base_dir s) = Some q) as Hw' by by eapply walk_mono.
  unfold FileInbox.store_entry, mbind_st, mget, FileInbox.make_dir, FileInbox.get_entry_path, FileInbox.get_inbox_dir. rewrite F1.
  rewrite !join_name by (apply Hr || apply json_name, Hi).
  rewrite (create_existing _ _ _ q) by (done || apply Hh). rewrite E, Hc. unfold mlift. cbn [ok_or].
  unfold FileInbox.write. cbn [FileInbox.set_disk fi_disk fi_base_dir]. rewrite <- app_assoc, walk_app, Hw'. cbn [mbind option_bind app Fs.walk].
  rewrite step_name by done. rewrite !bool_decide_eq_true_2 by (done || apply Hd). rewrite step_name by apply json_name, Hi.
  rewrite <- app_assoc. cbn [app]. rewrite F2, bool_decide_eq_false_2, F3 by done. cbn [orb].
  eexists. split; [reflexivity|]. exists q. cbn [fi_disk fi_base_dir FileInbox.set_disk]. split; [|done]. by eapply walk_mono.
Qed.

(** Reading files that all encode entries. *)
Lemma read_entries_ok io k l : no_failure io →
  Forall (fun x => ∃ c e, x.2 = Some c ∧ encodes c e ∧ Fs.json_file x.1 = true) l →
  ∃ es, FileInbox.read_entries io k l = Ok es ∧ Forall2 (fun x e => ∃ c, x.2 = Some c ∧ entry_from_str c = Some e) l es.
Proof.
  intros (_ & _ & _ & _ & F5 & F6 & _) Hl. revert k. induction Hl as [|[name n] l (c & e & Hn & [Hu He] & Hj) Hl IH]; intros k.
  - exists []. cbn. rewrite F5. split; [done|constructor].
  - cbn in Hn, Hj. subst n. destruct (IH (Datatypes.S k)) as (es & E & H2). exists (e :: es). cbn. rewrite F5, Hj, F6, Hu. cbn. rewrite He. cbn.
    rewrite E. split; [done|]. constructor; [|done]. by exists c.
Qed.

Lemma walk_recipient d q base r : Fs.walk d [] base = Some q → d !! q = Some None → plain_name r →
  Fs.walk d [] (base ++ [r]) = Some (q ++ [r]).
Proof.
  intros Hw Hq Hr. rewrite walk_app, Hw. cbn [mbind option_bind Fs.walk]. by rewrite bool_decide_eq_true_2, step_name.
Qed.

Lemma file_get io r s v : no_failure io → plain_name r → file_holds s v →
  ∃ l, FileInbox.get_entries io r s = Ok l ∧ NoDup (ie_id <$> l) ∧
    ∀ e, e ∈ l ↔ ie_recipient_genesis_hash e = r ∧ v !! (r, ie_id e) = Some e.
Proof.
  intros F Hr (q & Hw & [H1 H2 H3 H4 H5]). unfold FileInbox.get_entries, FileInbox.get_inbox_dir, Fs.path_exists.
  rewrite join_name by apply Hr. rewrite (walk_recipient _ q) by done.
  destruct (fi_disk s !! (q ++ [r])) as [[c|]|] eqn:E; [by destruct (H3 r c)| |]; cycle 1.
  { exists []. split_and!; [by rewrite bool_decide_eq_false_2 by (by intros [? ?])|constructor|]. intros e. split; [by intros ?%elem_of_nil|].
    intros [_ He]. apply H5 in He as (_ & _ & _ & _ & He & _). congruence. }
  rewrite !bool_decide_eq_true_2 by done. cbn [negb]. destruct F as (F1 & F2 & F3 & F4 & F5). rewrite F4. cbn [orb].
  set (L := dash_iter _).
  assert (∀ name n, (name, n) ∈ L → ∃ c e, name = (ie_id e +:+ ".json")%string ∧ n = Some c ∧ encodes c e ∧ plain_name (ie_id e) ∧
    ie_recipient_genesis_hash e = r ∧ v !! (r, ie_id e) = Some e) as HL.
  { intros name n. unfold L. rewrite elem_of_iter, listing_lookup, <- app_assoc. intros (i & e & c & -> & -> & He & Hv)%H4; [|done].
    destruct (H5 _ _ _ Hv) as (? & <- & _ & ? & _). by exists c, e. }
  destruct (read_entries_ok io 0 L) as (es & Er & Hes); [done| |].
  { apply Forall_forall. intros [name n] (c & e & -> & -> & He & Hi & _)%HL. exists c, e. split_and!; [done..|]. by apply json_name. }
  assert (Forall2 (fun x e => x.1 = (ie_id e +:+ ".json")%string ∧ ie_recipient_genesis_hash e = r ∧ v !! (r, ie_id e) = Some e) L es) as Hes'.
  { apply Forall2_same_length_lookup_2; [by eapply Forall2_length|]. intros k [name n] e Hx He.
    destruct (Forall2_lookup_lr _ _ _ _ _ _ Hes Hx He) as (c & Hn & Hd). cbn in Hn |- *.
    destruct (HL _ _ (list_elem_of_lookup_2 _ _ _ Hx)) as (c' & e' & -> & -> & [_ He'] & _ & A & B).
    injection Hn as <-. rewrite He' in Hd. by injection Hd as <-. }
  exists es. split; [done|]. split.
  - apply (NoDup_fmap_1 (fun i : string => (i +:+ ".json")%string)). rewrite <- list_fmap_compose.
    assert (fst <$> L = ((fun i : string => (i +:+ ".json")%string) ∘ ie_id) <$> es) as <-.
    { clear -Hes'. induction Hes' as [|x e L es (H & _) _ IH]; [done|]. rewrite !fmap_cons, IH. by rewrite H. }
    unfold L. rewrite dash_iter_perm. apply NoDup_fst_map_to_list.
  - intros e. split.
    + intros He. apply list_elem_of_lookup_1 in He as [k Hk]. by destruct (Forall2_lookup_r _ _ _ _ _ Hes' Hk) as (x & _ & _ & H).
    + intros [_ He]. destruct (H5 _ _ _ He) as (_ & _ & _ & _ & _ & c & Hc & [_ Hdec]).
      assert (((ie_id e +:+ ".json")%string, Some c) ∈ L) as HinL by (unfold L; rewrite elem_of_iter, listing_lookup, <- app_assoc; done).
      apply list_elem_of_lookup_1 in HinL as [k Hk]. destruct (Forall2_lookup_l _ _ _ _ _ Hes Hk) as (e' & He' & c' & [= <-] & Hd').
      rewrite Hdec in Hd'. injection Hd' as <-. by eapply list_elem_of_lookup_2.
Qed.

Lemma walk_entry d q base r i : Fs.walk d [] base = Some q → d !! q = Some None → plain_name r → plain_name i →
  Fs.walk d [] ((base ++ [r]) ++ [(i +:+ ".json")%string]) =
  if bool_decide (d !! (q ++ [r]) = Some None) then Some (q ++ [r; (i +:+ ".json")%string]) else None.
Proof.
  intros Hw Hq Hr Hi. rewrite walk_app, (walk_recipient _ q) by done. cbn [mbind option_bind Fs.walk].
  case_bool_decide; [|done]. rewrite step_name by apply json_name, Hi. by rewrite <- app_assoc.
Qed.

Lemma file_delete io r i s v : no_failure io → plain_name r → plain_name i → file_holds s v →
  match v !! (r, i) with
  | Some _ => ∃ s', FileInbox.delete_entry io r i s = (Ok tt, s') ∧ file_holds s' (delete (r, i) v)
  | None => ∃ what details, FileInbox.delete_entry io r i s = (Err (ENotFound what details), s)
  end.
Proof.
  intros F Hr Hi (q & Hw & Hh). destruct Hh as [H1 H2 H3 H4 H5].
  unfold FileInbox.delete_entry, FileInbox.get_entry_path, FileInbox.get_inbox_dir, Fs.path_exists.
  rewrite !join_name by (apply Hr || apply json_name, Hi). rewrite (walk_entry _ q) by done.
  set (p := q ++ [r; _]). destruct (v !! (r, i)) as [e|] eqn:Hv; cycle 1.
  { unfold entry_not_found. do 2 eexists. case_bool_decide as Hd; [|reflexivity].
    rewrite bool_decide_eq_false_2; [reflexivity|]. intros [n (i' & e & c & <-%json_name_inj & _ & _ & Hv')%H4]; [|done]. congruence. }
  destruct (H5 _ _ _ Hv) as (_ & _ & _ & _ & Hd & c & Hc & _). rewrite Hd. rewrite !(bool_decide_eq_true_2 (Some None = Some None)) by done.
  fold p in Hc. rewrite Hc. rewrite bool_decide_eq_true_2 by done. cbn [negb].
  destruct F as (_ & _ & _ & _ & _ & _ & F7). rewrite F7, bool_decide_eq_false_2 by done. cbn [orb].
  eexists. split; [reflexivity|]. exists q. cbn [FileInbox.set_disk fi_disk fi_base_dir].
  assert (∀ x, fi_disk s !! x = Some None → delete p (fi_disk s) !! x = Some None) as Hm.
  { intros x Hx. rewrite lookup_delete_ne by congruence. done. }
  split; [by eapply walk_mono|]. split; [by apply Hm..| | |].
  - intros r' c' Hr'. unfold p. rewrite lookup_delete_ne by apply below_ne. by apply H3.
  - intros r' name n Hr' Hn. apply lookup_delete_Some in Hn as [Hne Hn].
    destruct (H4 _ _ _ Hr' Hn) as (i' & e' & c' & -> & -> & He' & Hv'). exists i', e', c'. split_and!; [done..|].
    rewrite lookup_delete_ne; [done|]. intros [= <- <-]. done.
  - intros r' i' e' [Hne Hv']%lookup_delete_Some. destruct (H5 _ _ _ Hv') as (A1 & A2 & A3 & A4 & A5 & c' & A6 & A7).
    split_and!; [done..|by apply Hm|]. exists c'. split; [|done].
    rewrite lookup_delete_ne; [done|]. unfold p. intros [= <- E%json_name_inj]%app_inv_head. naive_solver.
Qed.

#[global] Instance file_inbox_laws : InboxLaws FileInboxStorage (DiskIO σ).
Proof.
  refine {| holds := file_holds; quiet := no_failure; usable := plain_name |}.
  - intros s v r i e (q & _ & H) Hv. destruct (dh_entries _ _ _ H _ _ _ Hv) as (? & ? & _). done.
  - apply file_store.
  - apply file_get.
  - apply file_delete.
Defined.

Lemma split_name a y : no_slash a = true → Fs.split_path (a +:+ String "/" y) = a :: Fs.split_path y.
Proof.
  induction a as [|c a IH]; [done|]. cbn. intros [Hc Ha]%andb_true_iff. apply negb_true_iff in Hc.
  change (String c a +:+ String "/" y)%string with (String c (a +:+ String "/" y)). cbn. by rewrite Hc, IH.
Qed.

(** An id is used as a path as it is: the entry of one recipient whose id climbs
    out of the directory is written into the inbox of another one, where it is a
    file like any other, and the inbox it is addressed to gets nothing. *)
Theorem file_inbox_escapes (io : DiskIO σ) (s : FileInboxStorage) (q : list string) (v : gmap (string * string) InboxEntry)
    (victim i : string) (e : InboxEntry) :
  no_failure io → Fs.walk (fi_disk s) [] (fi_base_dir s) = Some q → disk_holds (fi_disk s) q v →
  plain_name (ie_recipient_genesis_hash e) → plain_name victim → plain_name i → fi_disk s !! (q ++ [victim]) = Some None →
  ie_recipient_genesis_hash e ≠ victim → (ie_id e +:+ ".json")%string = ("../" +:+ victim +:+ "/" +:+ i +:+ ".json")%string →
  ∃ s' c, FileInbox.store_entry io e s = (Ok tt, s') ∧
    Fs.listing (fi_disk s') (q ++ [victim]) !! (i +:+ ".json")%string = Some (Some c) ∧ entry_from_str c = Some e ∧
    ∀ name n, Fs.listing (fi_disk s') (q ++ [ie_recipient_genesis_hash e]) !! name = Some n →
      ∃ j e', name = (j +:+ ".json")%string ∧ v !! (ie_recipient_genesis_hash e, j) = Some e'.
Proof.
  intros (F1 & F2 & F3 & _) Hw Hh Hr Hvic Hi Hvd Hne Hei. set (r := ie_recipient_genesis_hash e) in *.
  destruct (mkdir_holds _ _ _ _ Hr Hh) as (d & E & Hdir & Hd & Hm).
  destruct (entry_json_total (io_order io) e) as [c Hc].
  assert (Fs.walk d [] (fi_base_dir s) = Some q) as Hw' by by eapply walk_mono.
  set (p := q ++ [victim; (i +:+ ".json")%string]).
  exists (mkFileInbox (fi_base_dir s) (<[p := Some c]> d)), c. split_and!.
  - assert (Fs.join (fi_base_dir s ++ [r]) (ie_id e +:+ ".json") = (fi_base_dir s) ++ [r; ".."%string; victim; (i +:+ ".json")%string]) as Hj.
    { rewrite Hei. change ("../" +:+ victim +:+ "/" +:+ i +:+ ".json")%string with
        (String "." (String "." (String "/" (victim +:+ String "/" (i +:+ ".json"))))). unfold Fs.join. cbn. rewrite split_name by apply Hvic. rewrite split_no_slash by apply json_name, Hi.
      by rewrite <- app_assoc. }
    unfold FileInbox.store_entry, mbind_st, mget, FileInbox.make_dir, FileInbox.get_entry_path, FileInbox.get_inbox_dir.
    rewrite F1, !(join_name _ (ie_recipient_genesis_hash e)) by apply Hr. fold r. rewrite Hj.
    rewrite (create_existing _ _ _ q) by (done || apply Hh). rewrite E, Hc. unfold mlift. cbn [ok_or].
    unfold FileInbox.write. cbn [FileInbox.set_disk fi_disk fi_base_dir]. rewrite walk_app, Hw'. cbn [mbind option_bind Fs.walk].
    rewrite (step_name q r) by done. replace (Fs.step (q ++ [r]) "..") with q by (unfold Fs.step; cbn; by rewrite removelast_last).
    rewrite (step_name q victim) by done. rewrite !bool_decide_eq_true_2 by (done || apply Hd || by apply Hm).
    rewrite step_name by apply json_name, Hi. rewrite <- app_assoc. cbn [app]. fold p.
    rewrite F2, bool_decide_eq_false_2, F3; [done|]. intros (? & ? & ? & _ & ? & _)%Hd; done.
  - rewrite listing_lookup, <- app_assoc. apply lookup_insert_eq.
  - by eapply entry_json_round_trip.
  - intros name n. cbn [fi_disk]. rewrite listing_lookup, <- app_assoc. rewrite lookup_insert_ne.
    + intros (j & e' & _ & -> & _ & _ & Hv)%Hd; [|done]. by exists j, e'.
    + unfold p. intros [= E1 _]%app_inv_head. done.
Qed.

End FileFacts.

(** ** Witnesses *)

Module InboxWitness.
#[local] Existing Instances Toy.toy_blake3.
#[local] Instance toy_order : DashOrder := {| dash_iter A := map_to_list; dash_iter_perm A m := reflexivity _ |}.

#[local] Instance entry_eq_dec : EqDecision InboxEntry.
Proof. solve_decision. Defined.
#[local] Instance entry_countable : Countable InboxEntry.
Proof.
  refine (inj_countable'
    (fun e => (ie_id e, ie_sender_genesis_hash e, ie_recipient_genesis_hash e, ie_transaction e, ie_signature e, ie_timestamp e, ie_expires_at e, ie_metadata e))
    (fun '(a, b, c, d, f, g, h, m) => mkInboxEntry a b c d f g h m) _).
  by intros [].
Defined.

(** The binary digits of a number as bytes. *)
Fixpoint digits (p : positive) : bytes :=
  match p with xH => [] | xO p => Byte.x00 :: digits p | xI p => Byte.x01 :: digits p end.
Fixpoint of_digits (b : bytes) : positive :=
  match b with [] => xH | Byte.x00 :: b => xO (of_digits b) | _ :: b => xI (of_digits b) end.

Lemma of_digits_digits p : of_digits (digits p) = p.
Proof. induction p as [p IH|p IH|]; cbn; [by rewrite IH..|done]. Qed.
Lemma digits_utf8 p : utf8_valid (digits p) = true.
Proof. by induction p. Qed.

#[local] Instance toy_inbox_json : InboxJson unit.
Proof.
  refine {| entry_to_string_pretty _ e := Some (digits (encode e)); entry_from_str b := decode (of_digits b) |}.
  - by eexists.
  - intros _ e b [= <-]. apply digits_utf8.
  - intros _ e b [= <-]. by rewrite of_digits_digits, decode_encode.
Defined.

Definition calm : DiskIO unit := mkDiskIO false false None false (fun _ => false) (fun _ => false) false tt.

Lemma calm_quiet : no_failure calm.
Proof. done. Qed.

(** A disk with the directories of the base and of one recipient. *)
Definition disk : Disk := {[ [] := None; ["box"%string] := None; ["box"; "bob"]%string := None ]}.
Definition box : FileInboxStorage := mkFileInbox ["box"%string] disk.

Lemma disk_ok : disk_holds disk ["box"%string] ∅.
Proof.
  assert (map_Forall (fun p n => n = None ∧ (length p ≤ 2)%nat) disk) as H by (apply (bool_decide_unpack _); vm_compute; exact I).
  split; [reflexivity..| | |].
  - intros r c _ E. destruct (H _ _ E) as [? _]. done.
  - intros r name n _ E. destruct (H _ _ E) as [_ Hl]. cbn in Hl. lia.
  - intros r i e. by rewrite lookup_empty.
Qed.

Lemma box_holds : file_holds box ∅.
Proof. exists ["box"%string]. split; [reflexivity|exact disk_ok]. Qed.

Definition notes : list Sending :=
  [mkSending "id1" 1700000000 "alice" "bob" [Byte.x07] None; mkSending "id2" 1700000001 "carol" "bob" [] None;
   mkSending "id3" 1700000002 "bob" "alice" [Byte.x08] None].

Lemma names_plain : Forall (fun x => plain_name (sd_recipient x) ∧ plain_name (sd_uuid x)) notes.
Proof. repeat constructor; done. Qed.

(** Two transactions for bob are delivered and processed once. *)
Lemma unilateral_delivery_witness :
  ∃ s es s', send_all calm notes box = (Ok ["id1"; "id2"; "id3"]%string, s) ∧
    Uni.get_inbox_entries calm "bob" s = Ok es ∧ length es = 2%nat ∧
    Uni.process_unilateral_transactions calm "bob" es s = (Ok (ie_id <$> es), s') ∧ Uni.get_inbox_entries calm "bob" s' = Ok [].
Proof.
  destruct (unilateral_delivery (IL := file_inbox_laws) calm notes box calm_quiet box_holds ltac:(apply (bool_decide_unpack _); vm_compute; exact I) names_plain)
    as (s & E & H).
  destruct (H "bob"%string ltac:(done)) as (es & s' & H1 & H2 & H3 & H4 & _).
  exists s, es, s'. split; [exact E|]. split; [exact H1|]. split; [by rewrite H2|]. split; [exact H3|exact H4].
Defined.

(** An entry for alice lands in bob's inbox. *)
Definition climbing : InboxEntry := Uni.new_entry "../bob/x" 1700000000 "mallory" "alice" [] None.

Lemma file_inbox_escapes_witness :
  ∃ s' c, FileInbox.store_entry calm climbing box = (Ok tt, s') ∧
    Fs.listing (fi_disk s') ["box"; "bob"]%string !! "x.json"%string = Some (Some c) ∧ entry_from_str c = Some climbing.
Proof.
  destruct (file_inbox_escapes calm box ["box"%string] ∅ "bob" "x" climbing calm_quiet eq_refl disk_ok ltac:(done) ltac:(done) ltac:(done)
    eq_refl ltac:(done) eq_refl) as (s' & c & H1 & H2 & H3 & _).
  exists s', c. split; [exact H1|]. split; [exact H2|exact H3].
Defined.
End InboxWitness.
