(* ===== verification/Checkpoint.v ===== *)
(** * Checkpoints (dsm/src/core/state_machine/state.rs, dsm/src/core/state_machine/checkpoint.rs)

    The second state type of the code, with its three-layer hash, and the signed
    checkpoints made of it. *)
From S2P Require Import Prelude Tokens Operations SparseIdx States RandomWalk Transition Relationship Sphincs MTree Devices Keys Kyber Pedersen Identity.

(** [sha3::Sha3_256] *)
Class Sha3_256 := {
  sha3_256_digest : bytes → bytes;
  sha3_256_length : ∀ m, length (sha3_256_digest m) = 32%nat;
}.

(** [core::state_machine::state::State] *)
Record CState := mkCState {
  cs_id : string;
  cs_state_number : Z;
  cs_hash : bytes;
  cs_prev_state_hash : bytes;
  cs_entropy : bytes;
  cs_encapsulated_entropy : option bytes;
  cs_operation : Operation;
  cs_device_info : DeviceInfo;
  cs_forward_commitment : option bytes;
  cs_matches_parameters : bool;
  cs_state_type : string;
  cs_value : bytes;
  cs_commitment : bytes;
  cs_sparse_index : SparseIndex;
}.

Record Checkpoint := mkCheckpoint {
  cp_id : string;
  cp_state_number : Z;
  cp_state_hash : bytes;
  cp_genesis_hash : bytes;
  cp_timestamp : Z;
  cp_device_id : string;
  cp_signature : bytes;
  cp_merkle_proof : option bytes;
  cp_is_invalidation : bool;
  cp_invalidation_reason : option string;
}.

Record CheckpointManager := mkCheckpointManager { cm_merkle_tree : MerkleTree }.

Module CSt.
Section CSt.
Context {B3 : Blake3} {S3 : Sha3} {SO : Bincode Operation} {SD : Bincode DeviceInfo}.

(** [i as u8] *)
Definition as_u8 (i : Z) : u8 := coqutil.Byte.byte.of_Z i.

(** The forward commitment is replaced by 32 zero bytes. *)
Definition new (p : StateParams) : CState :=
  mkCState "" (sp_state_number p) [] (sp_prev_state_hash p) (sp_entropy p) (sp_encapsulated_entropy p)
    (sp_operation p) (sp_device_info p) ((fun _ => zeros 32) <$> sp_forward_commitment p)
    (sp_matches_parameters p) (sp_state_type p) (map as_u8 (sp_value p)) (map as_u8 (sp_commitment p)) (sp_sparse_index p).

Definition new_genesis (entropy : bytes) (device_info : DeviceInfo) : CState :=
  mkCState "" 0 [] [] entropy None Genesis device_info None false "genesis" [] [] (mkSparse []).

Definition compute_hash (s : CState) : outcome bytes :=
  operation_bytes ← serialize_or "Failed to serialize operation" (cs_operation s);
  device_bytes ← serialize_or "Failed to serialize device info" (cs_device_info s);
  let sha3_result := sha3_512 (u64_le (cs_state_number s) ++ cs_prev_state_hash s ++ cs_entropy s ++
                               operation_bytes ++ device_bytes) in
  Ok (shake256 32 (blake3 sha3_result)).

Definition get_hash (s : CState) : outcome bytes := compute_hash s.

(** [u64::next_power_of_two], which panics when the result does not fit. *)
Definition next_power_of_two (n : Z) : outcome Z :=
  let p := 2 ^ Z.log2_up n in if p <=? u64_max then Ok p else Panic.

(** [while checkpoint > 0] *)
Fixpoint checkpoint_loop (fuel : nat) (state_number checkpoint : Z) (indices : list Z) : outcome (list Z) :=
  if negb (0 <? checkpoint) then Ok indices
  else
    match fuel with
    | O => Hang
    | S fuel =>
        p ← next_power_of_two checkpoint;
        let checkpoint := saturating_sub checkpoint (p / 2) in
        let indices := if (0 <? checkpoint) && (checkpoint <? state_number) then indices ++ [checkpoint] else indices in
        checkpoint_loop fuel state_number checkpoint indices
    end.

Definition calculate_sparse_indices (fuel : nat) (state_number : Z) : outcome (list Z) :=
  if state_number =? 0 then Ok []
  else
    first ← u64_sub state_number 1;
    indices ← checkpoint_loop fuel state_number state_number [first];
    Ok (if existsb (fun i => i =? 0) indices then indices else indices ++ [0]).

Definition validate_state_integrity (s : CState) : outcome bool :=
  if cs_state_number s =? 0 then
    if negb (bool_decide (cs_prev_state_hash s = [])) then Ok false
    else
      computed_hash ← compute_hash s;
      Ok (constant_time_eq computed_hash (cs_hash s))
  else if bool_decide (cs_prev_state_hash s = []) then Ok false
  else
    computed_hash ← compute_hash s;
    if negb (constant_time_eq computed_hash (cs_hash s)) then Ok false
    else
      match cs_encapsulated_entropy s with
      | Some encapsulated =>
          let derived := blake3 (sha3_512 encapsulated) in
          if negb (constant_time_eq derived (cs_entropy s)) then Ok false else Ok true
      | None => Ok true
      end.

(** [a || b] short-circuits. *)
Definition verify_hash_chain (prev_state next_state : CState) : outcome bool :=
  n ← u64_add (cs_state_number prev_state) 1;
  if negb (cs_state_number next_state =? n) then Ok false
  else
    ok1 ← validate_state_integrity prev_state;
    if negb ok1 then Ok false
    else
      ok2 ← validate_state_integrity next_state;
      if negb ok2 then Ok false
      else
        prev_hash ← compute_hash prev_state;
        Ok (constant_time_eq prev_hash (cs_prev_state_hash next_state)).

End CSt.
End CSt.

Module Ckpt.
Section Ckpt.
Context {B3 : Blake3} {S3 : Sha3} {S2 : Sha3_256} {SO : Bincode Operation} {SD : Bincode DeviceInfo}
  {SG : Bincode GenesisState} {RT : Runtime}.

Definition get_signing_data (c : Checkpoint) : bytes :=
  u64_be (cp_state_number c) ++ cp_state_hash c ++ cp_genesis_hash c ++ u64_be (cp_timestamp c) ++
  str_bytes (cp_device_id c) ++ [if cp_is_invalidation c then Byte.x01 else Byte.x00] ++
  match cp_invalidation_reason c with Some reason => str_bytes reason | None => [] end.

Definition set_signature (s : bytes) (c : Checkpoint) : Checkpoint :=
  mkCheckpoint (cp_id c) (cp_state_number c) (cp_state_hash c) (cp_genesis_hash c) (cp_timestamp c) (cp_device_id c) s
    (cp_merkle_proof c) (cp_is_invalidation c) (cp_invalidation_reason c).

(** [sphincs_sign(&data, signing_key)]: the data takes the place of the key. *)
Definition sign (c : Checkpoint) (signing_key : bytes) : outcome Checkpoint :=
  match Sphincs.sphincs_sign (get_signing_data c) signing_key with
  | Ok s => Ok (set_signature s c)
  | Err _ => Err (ECrypto "Failed to sign checkpoint")
  | Panic => Panic
  | Hang => Hang
  end.

(** [sphincs_verify(&data, &self.signature, public_key)] *)
Definition verify_signature (c : Checkpoint) (public_key : bytes) : outcome bool :=
  match Sphincs.sphincs_verify (get_signing_data c) (cp_signature c) public_key with
  | Err _ => Err (ECrypto "Failed to verify checkpoint signature")
  | r => r
  end.

Definition new (s : CState) (identity : Identity) (device_id : string) (is_invalidation : bool)
    (invalidation_reason : option string) : outcome Checkpoint :=
  let timestamp := now in
  genesis_bytes ← serialize_or "Failed to serialize genesis state" (id_master_genesis identity);
  let id := "checkpoint_" +:+ hex_encode genesis_bytes +:+ "_" +:+ pretty (cs_state_number s) +:+ "_" +:+ pretty timestamp in
  state_hash_vec ← match CSt.get_hash s with
                   | Err _ => Err (ECrypto "Failed to hash state for checkpoint")
                   | r => r
                   end;
  state_hash ← (if (32 <=? length state_hash_vec)%nat then Ok (take 32 state_hash_vec)
                else Err (EValidation "State hash too short"));
  genesis_bytes ← serialize_or "Failed to serialize genesis state" (id_master_genesis identity);
  let hash_bytes := sha3_256_digest genesis_bytes in
  genesis_hash ← (if (32 <=? length hash_bytes)%nat then Ok (take 32 hash_bytes)
                  else Err (EValidation "Genesis hash too short"));
  let checkpoint := mkCheckpoint id (cs_state_number s) state_hash genesis_hash timestamp device_id [] None
                      is_invalidation invalidation_reason in
  signing_key_bytes ← Gen.get_signing_key_bytes (id_master_genesis identity);
  sign checkpoint signing_key_bytes.

Definition add_merkle_proof (proof : bytes) (c : Checkpoint) : Checkpoint :=
  mkCheckpoint (cp_id c) (cp_state_number c) (cp_state_hash c) (cp_genesis_hash c) (cp_timestamp c) (cp_device_id c)
    (cp_signature c) (Some proof) (cp_is_invalidation c) (cp_invalidation_reason c).

Definition create_invalidation (s : CState) (identity : Identity) (device_id reason : string) : outcome Checkpoint :=
  new s identity device_id true (Some reason).

Definition verify_state (c : Checkpoint) (s : CState) : outcome bool :=
  state_hash ← CSt.get_hash s;
  if (32 <=? length state_hash)%nat then
    Ok (bool_decide (cp_state_hash c = take 32 state_hash) && (cp_state_number c =? cs_state_number s))
  else Ok false.

(** ** [impl CheckpointManager] *)

Definition manager_new : outcome CheckpointManager := t ← MTree.new []; Ok (mkCheckpointManager t).

Definition create_checkpoint (m : CheckpointManager) (s : CState) (identity : Identity) (device_id : string)
    (invalidation : bool) (reason : option string) : outcome Checkpoint * CheckpointManager :=
  (new s identity device_id invalidation reason, m).

Definition verify_checkpoint (m : CheckpointManager) (c : Checkpoint) (s : CState) (identity : Identity) : outcome bool :=
  public_key_bytes ← Gen.get_public_key_bytes (id_master_genesis identity);
  ok ← verify_signature c public_key_bytes;
  if negb ok then Ok false else verify_state c s.

End Ckpt.
End Ckpt.

(** ** Properties *)

Section CheckpointProperties.
Context {B3 : Blake3} {S3 : Sha3} {S2 : Sha3_256} {SO : Bincode Operation} {SD : Bincode DeviceInfo}
  {SG : Bincode GenesisState} {RT : Runtime}.

Lemma cs_compute_hash_length s h : CSt.compute_hash s = Ok h → length h = 32%nat.
Proof. unfold CSt.compute_hash. intros (? & _ & (? & _ & [= <-])%bind_Ok)%bind_Ok. apply shake256_length. Qed.

(** Half the next power of two is below a number greater than one, and zero at one. *)
Lemma checkpoint_stays c : 1 ≤ c ≤ 2 ^ 63 →
  ∃ p, CSt.next_power_of_two c = Ok p ∧ 1 ≤ saturating_sub c (p / 2) ≤ 2 ^ 63.
Proof.
  intros Hc. unfold CSt.next_power_of_two.
  assert (Hup : Z.log2_up c ≤ 63) by (rewrite <- (Z.log2_up_pow2 63) by lia; apply Z.log2_up_le_mono; lia).
  pose proof (Z.log2_up_nonneg c). assert (2 ^ Z.log2_up c ≤ 2 ^ 63) by (apply Z.pow_le_mono_r; lia).
  rewrite (proj2 (Z.leb_le _ _)) by (unfold u64_max; lia). eexists. split; [done|]. unfold saturating_sub.
  destruct (decide (c = 1)) as [->|Hne]; [vm_compute; done|].
  pose proof (Z.log2_up_spec c ltac:(lia)) as [Hlo _].
  assert (0 < Z.log2_up c) by (apply Z.log2_up_pos; lia).
  replace (2 ^ Z.log2_up c) with (2 ^ Z.pred (Z.log2_up c) * 2)
    by (rewrite Z.mul_comm, <- Z.pow_succ_r, Z.succ_pred by lia; done).
  rewrite Z.div_mul by lia. pose proof (Z.pow_nonneg 2 (Z.pred (Z.log2_up c))). lia.
Qed.

(** The sparse indices of this state type are never computed: for every state
    number from one up to 2^63 the loop stays at a checkpoint of at least one,
    because half the next power of two of one is zero, so the function returns
    with no amount of fuel; only genesis has an answer. *)
Theorem sparse_indices_diverge (n : Z) (fuel : nat) :
  1 ≤ n ≤ 2 ^ 63 →
  CSt.calculate_sparse_indices fuel n = Hang ∧ CSt.calculate_sparse_indices fuel 0 = Ok [].
Proof.
  intros Hn. split; [|done]. unfold CSt.calculate_sparse_indices. rewrite (proj2 (Z.eqb_neq n 0)) by lia.
  unfold u64_sub. rewrite (proj2 (Z.leb_le 1 n)) by lia. cbn [mbind outcome_bind].
  enough (H : ∀ c l, 1 ≤ c ≤ 2 ^ 63 → CSt.checkpoint_loop fuel n c l = Hang) by (by rewrite H).
  induction fuel as [|fuel IH]; intros c l Hc; cbn [CSt.checkpoint_loop]; rewrite (proj2 (Z.ltb_lt 0 c)) by lia; [done|].
  destruct (checkpoint_stays c Hc) as (p & -> & Hp). cbn [negb mbind outcome_bind]. by apply IH.
Qed.

(** When a state is intact. *)
Definition intact (s : CState) : Prop :=
  CSt.compute_hash s = Ok (cs_hash s) ∧ (cs_prev_state_hash s = [] ↔ cs_state_number s = 0) ∧
  (cs_state_number s ≠ 0 → ∀ e, cs_encapsulated_entropy s = Some e → cs_entropy s = blake3 (sha3_512 e)).

Lemma integrity_iff s : CSt.validate_state_integrity s = Ok true ↔ intact s.
Proof.
  unfold CSt.validate_state_integrity, intact. destruct (cs_state_number s =? 0) eqn:E; zbool.
  - case_bool_decide as Hp; cbn [negb]; [|split; [done|tauto]].
    destruct (CSt.compute_hash s) as [h| | |]; cbn [mbind outcome_bind]; [|split; [done|by intros []]..].
    split; [intros [= ->%constant_time_eq_spec]; tauto|]. intros ([= ->] & _). by rewrite constant_time_eq_refl.
  - case_bool_decide as Hp; [split; [done|tauto]|].
    destruct (CSt.compute_hash s) as [h| | |]; cbn [mbind outcome_bind]; [|split; [done|by intros []]..].
    destruct (constant_time_eq h (cs_hash s)) eqn:Eh; cbn [negb].
    + apply constant_time_eq_spec in Eh as ->. destruct (cs_encapsulated_entropy s) as [e|]; [|split; [done|done]].
      destruct (constant_time_eq (blake3 (sha3_512 e)) (cs_entropy s)) eqn:Ee; cbn [negb].
      * apply constant_time_eq_spec in Ee. split; [intros _|done]. split_and!; [done|tauto|]. intros _ e' [= <-]. done.
      * split; [done|]. intros (_ & _ & H). rewrite (H E e eq_refl), constant_time_eq_refl in Ee. done.
    + split; [done|]. intros ([= ->] & _). by rewrite constant_time_eq_refl in Eh.
Qed.

(** The chain check is exact: two states pass exactly when the second has the
    next number and names the hash of the first, and both carry their own
    three-layer hash, an empty predecessor hash exactly at genesis, and entropy
    derived from the encapsulated entropy where there is one. *)
Theorem verify_hash_chain_exact (p s : CState) :
  cs_state_number p + 1 ≤ u64_max →
  CSt.verify_hash_chain p s = Ok true ↔
  cs_state_number s = cs_state_number p + 1 ∧ intact p ∧ intact s ∧ cs_prev_state_hash s = cs_hash p.
Proof.
  intros Hp. unfold CSt.verify_hash_chain, u64_add. rewrite (proj2 (Z.leb_le _ _) Hp). cbn [mbind outcome_bind].
  destruct (cs_state_number s =? _) eqn:En; zbool; cbn [negb]; [|split; [done|by intros [? _]]].
  rewrite <- !integrity_iff.
  destruct (CSt.validate_state_integrity p) as [[]| | |] eqn:E1; cbn [mbind outcome_bind negb];
    [|split; [done|by intros (_ & ? & _)]..].
  destruct (CSt.validate_state_integrity s) as [[]| | |] eqn:E2; cbn [mbind outcome_bind negb];
    [|split; [done|by intros (_ & _ & ? & _)]..].
  apply integrity_iff in E1 as [-> _]. cbn [mbind outcome_bind]. split.
  - intros [= H%constant_time_eq_spec]. done.
  - intros (_ & _ & _ & ->). by rewrite constant_time_eq_refl.
Qed.

Lemma signing_data_length s c :
  length (cp_state_hash c) = 32%nat → length (cp_genesis_hash c) = 32%nat →
  length (Ckpt.get_signing_data (Ckpt.set_signature s c)) =
    (81 + length (str_bytes (cp_device_id c)) +
     length (match cp_invalidation_reason c with Some reason => str_bytes reason | None => [] end))%nat.
Proof.
  intros H1 H2. unfold Ckpt.get_signing_data, u64_be. cbn [Ckpt.set_signature cp_state_number cp_state_hash cp_genesis_hash
    cp_timestamp cp_device_id cp_is_invalidation cp_invalidation_reason].
  rewrite !length_app, H1, H2, !length_rev, !length_le_bytes. cbn [length]. lia.
Qed.

(** Checkpoints cannot be used: for an identity whose signing key was
    generated, making a checkpoint panics when device id and reason together have
    fewer than 47 bytes; with more, the checkpoint is made with the number and
    the hash of the state and matches that state, but its verification fails for
    every state, unless what the verification hashes collides with what key
    generation did. *)
Theorem checkpoints_never_verify (random genesis_bytes h : bytes) (s : CState) (identity : Identity)
    (device_id : string) (inv : bool) (reason : option string) (m : CheckpointManager) :
  length random = 96%nat →
  Gen.SigningKey_new random = Ok (gs_signing_key (id_master_genesis identity)) →
  serialize (id_master_genesis identity) = Some genesis_bytes → CSt.compute_hash s = Ok h →
  let extra := (length (str_bytes device_id) +
                length (match reason with Some r => str_bytes r | None => [] end))%nat in
  ((extra < 47)%nat → Ckpt.new s identity device_id inv reason = Panic) ∧
  ((47 ≤ extra)%nat → ∃ c, Ckpt.new s identity device_id inv reason = Ok c ∧
     Ckpt.verify_state c s = Ok true ∧
     ((∀ s', Ckpt.verify_checkpoint m c s' identity = Ok false) ∨
      collision blake3 (rotated_inputs (sg_public_key (gs_signing_key (id_master_genesis identity)))
        (sg_secret_key (gs_signing_key (id_master_genesis identity))) (Ckpt.get_signing_data c) (cp_signature c)))).
Proof.
  intros Hr Hk Hser Hh extra. pose proof (cs_compute_hash_length _ _ Hh) as Hl.
  unfold Gen.SigningKey_new in Hk. apply bind_Ok in Hk as ([pk sk] & Hg & Hk). apply Ok_inj in Hk.
  unfold Ckpt.new, serialize_or, CSt.get_hash, Gen.get_signing_key_bytes. rewrite Hser, Hh, <- Hk. cbn [ok_or mbind outcome_bind sg_secret_key].
  rewrite Hl, sha3_256_length. cbn [Nat.leb mbind outcome_bind].
  rewrite (take_ge h), (take_ge (sha3_256_digest genesis_bytes)) by (rewrite ?sha3_256_length; lia).
  match goal with |- context [Ckpt.sign ?c0 sk] => set (c := c0) end.
  pose proof (signing_data_length [] c Hl (sha3_256_length genesis_bytes)) as Hlen.
  change (Ckpt.get_signing_data (Ckpt.set_signature [] c)) with (Ckpt.get_signing_data c) in Hlen.
  cbn [c cp_device_id cp_invalidation_reason] in Hlen.
  destruct (rotated_signature random pk sk (Ckpt.get_signing_data c) Hr Hg) as [H1 H2].
  unfold Ckpt.sign. split; intros He; [rewrite H1; [done|lia]|].
  destruct (H2 ltac:(lia)) as (sig & -> & Hv). eexists. split; [done|]. split.
  - unfold Ckpt.verify_state, CSt.get_hash. rewrite Hh. cbn [mbind outcome_bind]. rewrite Hl. cbn [Nat.leb].
    rewrite take_ge by lia. cbn [Ckpt.set_signature cp_state_hash cp_state_number c].
    by rewrite bool_decide_eq_true_2, Z.eqb_refl by done.
  - destruct Hv as [Hv|Hv]; [left|by right]. intros s'.
    unfold Ckpt.verify_checkpoint, Ckpt.verify_signature, Gen.get_public_key_bytes. rewrite <- Hk. cbn [mbind outcome_bind sg_public_key].
    change (Ckpt.get_signing_data (Ckpt.set_signature sig c)) with (Ckpt.get_signing_data c). cbn [Ckpt.set_signature cp_signature].
    by rewrite Hv.
Qed.

End CheckpointProperties.

(** ** Witnesses *)

Module CheckpointWitness.
#[refine] Definition toy_sha3_256 : Sha3_256 := {| sha3_256_digest m := le_bytes 32 (Toy.checksum m) |}.
Proof. intros. apply length_le_bytes. Defined.
Definition toy_bincode_device : Bincode DeviceInfo := fun d => Some (str_bytes (dev_device_id d) ++ dev_public_key d).
Definition toy_bincode_genesis : Bincode GenesisState := fun g => Some (gs_hash g).
#[local] Existing Instances Toy.toy_blake3 Toy.toy_runtime ToyPed.toy_sha3 toy_sha3_256 toy_bincode_operation toy_bincode_device
  toy_bincode_genesis.

Definition genesis : CState := CSt.new_genesis [Byte.x01] (mkDevice "d" [Byte.x02]).
Definition hashed (s : CState) : CState :=
  mkCState (cs_id s) (cs_state_number s) (match CSt.compute_hash s with Ok h => h | _ => [] end) (cs_prev_state_hash s)
    (cs_entropy s) (cs_encapsulated_entropy s) (cs_operation s) (cs_device_info s) (cs_forward_commitment s)
    (cs_matches_parameters s) (cs_state_type s) (cs_value s) (cs_commitment s) (cs_sparse_index s).
Definition next : CState :=
  hashed (CSt.new (mkStateParams 1 [Byte.x03] None (cs_hash (hashed genesis)) (mkSparse []) Genesis (mkDevice "d" [Byte.x02])
    None false "standard" [] [])).

Lemma sparse_indices_diverge_witness :
  CSt.calculate_sparse_indices 100 6 = Hang ∧ CSt.calculate_sparse_indices 100 0 = Ok [].
Proof. apply (sparse_indices_diverge 6 100). lia. Defined.

Lemma verify_hash_chain_exact_witness :
  CSt.verify_hash_chain (hashed genesis) next = Ok true ∧ intact (hashed genesis) ∧ intact next.
Proof.
  assert (H : CSt.verify_hash_chain (hashed genesis) next = Ok true) by (vm_compute; reflexivity).
  split; [exact H|]. apply verify_hash_chain_exact in H; [|vm_compute; discriminate].
  destruct H as (_ & H1 & H2 & _). split; [exact H1|exact H2].
Defined.

Definition signer : SigningKey :=
  match Gen.SigningKey_new (zeros 96) with Ok k => k | _ => mkSigningKey [] [] end.
Definition owner : Identity :=
  mkIdentity "owner" (mkGenesis (zeros 64) [] 1 ∅ None None signer (mkKyberKey [] []) []) [] false.

Lemma checkpoints_never_verify_witness : Ckpt.new genesis owner "device" true (Some "lost"%string) = Panic.
Proof.
  refine (proj1 (checkpoints_never_verify (zeros 96) (zeros 64) (match CSt.compute_hash genesis with Ok h => h | _ => [] end)
    genesis owner "device" true (Some "lost"%string) (mkCheckpointManager MTree.new_empty) _ _ _ _) _).
  - vm_compute. reflexivity.
  - vm_compute. reflexivity.
  - vm_compute. reflexivity.
  - vm_compute. reflexivity.
  - apply Nat.ltb_lt. vm_compute. reflexivity.
Defined.

End CheckpointWitness.
