(* ===== verification/Vault.v ===== *)
(** * Deterministic limbo vaults ([vault/])

    [fulfillment.rs]: the conditions; [limbo_vault.rs]: [LimboVault] ([LV]) with
    its life cycle Limbo, Unlocked, Claimed, Invalidated, the posts for
    decentralised storage and [DeterministicLimboVault] ([Det]);
    [dlv_manager.rs]: the manager ([DLV]); [asset_manager.rs] ([Assets]).

    The code is the one of a build without [cfg(test)].  The vault's content is
    encrypted with ML-KEM-768 when it is created and decrypted with ML-KEM-512
    when it is claimed, hence two instances of [Mlkem]. *)
From S2P Require Import Prelude Operations Tokens States RandomWalk Policy Sphincs NodeTypes Keys Hexa Kyber Pedersen.
Import coqutil.Byte.

(** ** Data *)

#[warnings="-register-all"]
Inductive FulfillmentMechanism :=
  | TimeRelease (unlock_time : Z) (reference_states : list bytes)
  | Payment (amount : Z) (token_id recipient : string) (verification_state : bytes)
  | CryptoCondition (condition_hash public_params : bytes)
  | MultiSignature (public_keys : list bytes) (threshold : nat)
  | StateReference (reference_states : list bytes) (parameters : bytes)
  | RandomWalkVerification (verification_key : bytes) (statement : string)
  | And (conditions : list FulfillmentMechanism)
  | Or (conditions : list FulfillmentMechanism).

#[warnings="-register-all"]
Inductive FulfillmentProof :=
  | TimeProof (reference_state state_proof : bytes)
  | PaymentProof (state_transition merkle_proof : bytes)
  | CryptoConditionProof (solution proof : bytes)
  | MultiSignatureProof (signatures : list (bytes * bytes)) (signed_data : bytes)
  | RandomWalkProof (positions : list Position) (hash_chain_proof : bytes)
  | CompoundProof (proofs : list FulfillmentProof).

Inductive VaultState :=
  | Limbo
  | Unlocked (unlocked_state_number : Z) (fulfillment_proof : FulfillmentProof)
  | Claimed (claimed_state_number : Z) (claimant claim_proof : bytes)
  | Invalidated_ (invalidated_state_number : Z) (reason : string) (creator_signature : bytes).

Record EncryptedContent := mkEncrypted {
  enc_encapsulated_key : bytes; enc_data : bytes; enc_nonce : bytes; enc_aad : bytes;
}.

Record VaultPost := mkVaultPost {
  vp_vault_id : string; vp_lock_description : string; vp_creator_id : string; vp_commitment_hash : bytes;
  vp_timestamp_created : Z; vp_status : string; vp_metadata : gmap string string; vp_vault_data : bytes;
}.

Record LimboVault := mkVault {
  v_id : string; v_created_at_state : Z; v_creator_public_key : bytes; v_condition : FulfillmentMechanism;
  v_intended_recipient : option bytes; v_state : VaultState; v_content_type : string;
  v_encrypted_content : EncryptedContent; v_content_commitment : PedersenCommitment; v_parameters_hash : bytes;
  v_creator_signature : bytes; v_verification_positions : list Position; v_reference_state_hash : bytes;
}.

Record ClaimResult := mkClaim { cl_vault : LimboVault; cl_content : bytes; cl_claim_proof : bytes }.

(** What the creation of a vault draws: the randomness of the encapsulation and
    of the commitment. *)
Record VaultDraws := mkVaultDraws { vd_kem : bytes; vd_pedersen : Draws }.

(** [Display] of the conditions (fulfillment.rs) *)
Definition show_condition (c : FulfillmentMechanism) : string :=
  match c with
  | TimeRelease t _ => "TimeRelease at state " +:+ pretty t
  | Payment a tok _ _ => "Payment of " +:+ pretty a +:+ " " +:+ tok
  | CryptoCondition _ _ => "Cryptographic Condition"
  | MultiSignature _ t => pretty t +:+ "-of-n MultiSignature"
  | StateReference _ _ => "State Reference"
  | RandomWalkVerification _ st => "RandomWalk: " +:+ st
  | And cs => "AND(" +:+ pretty (length cs) +:+ " conditions)"
  | Or cs => "OR(" +:+ pretty (length cs) +:+ " conditions)"
  end.

Module LV.
Section LV.
Context {B3 : Blake3} {RT : Runtime} {HX : Hex} {S3 : Sha3} {PT : PrimeTest} {AE : Aead}
  {K768 : Mlkem kem768} {K512 : Mlkem kem512}
  {SO : Bincode Operation} {SB : Bincode Balance} {SP : Bincode PreCommitment}
  {SC : Bincode FulfillmentMechanism} {SF : Bincode FulfillmentProof} {SPC : Bincode PedersenCommitment}
  {SV : Bincode LimboVault} {UV : Unbincode LimboVault}.

Definition set_state (st : VaultState) (v : LimboVault) : LimboVault :=
  mkVault (v_id v) (v_created_at_state v) (v_creator_public_key v) (v_condition v) (v_intended_recipient v) st
    (v_content_type v) (v_encrypted_content v) (v_content_commitment v) (v_parameters_hash v)
    (v_creator_signature v) (v_verification_positions v) (v_reference_state_hash v).

Definition u64_to_bytes (v : Z) : bytes := u64_le v.
Definition concat_bytes (parts : list bytes) : bytes := mjoin parts.

(** [map_err(|e| DsmError::crypto(msg, Some(e)))] *)
Definition map_crypto {A} (msg : string) (o : outcome A) : outcome A :=
  match o with Err _ => Err (ECrypto msg) | o => o end.

(** ** Creation *)

Definition parameters (creator_pk : bytes) (id : string) (number : Z) (ref_hash : bytes)
    (c : FulfillmentMechanism) (recipient : option bytes) (commitment : PedersenCommitment) : bytes :=
  creator_pk ++ str_bytes id ++ u64_to_bytes number ++ ref_hash ++ unwrap_or [] (serialize c)
    ++ unwrap_or [] recipient ++ Ped.to_bytes commitment.

(** Encapsulation, encryption and commitment; [kyber_encapsulate] returns the
    shared secret first, and the caller takes it for the encapsulated key. *)
Definition seal (fuel : nat) (d : VaultDraws) (pk : bytes) (recipient : option bytes) (nonce content : bytes)
    : outcome (bytes * bytes * PedersenCommitment) :=
  '(encapsulated_key, shared_secret) ← map_crypto "Failed to encapsulate key"
    (Kyber.kyber_encapsulate (vd_kem d) (unwrap_or pk recipient));
  encrypted ← map_crypto "Failed to encrypt vault content" (Kyber.aes_encrypt shared_secret nonce content);
  params ← Ped.params_new fuel (vd_pedersen d) Standard128;
  c ← Ped.commit fuel (vd_pedersen d) params content;
  Ok (encapsulated_key, encrypted, c.1).

Definition new (fuel : nat) (d : VaultDraws) (pk sk : bytes) (condition : FulfillmentMechanism) (content : bytes)
    (content_type : string) (recipient : option bytes) (reference_state : State) : outcome LimboVault :=
  let number := state_number reference_state in
  ref_hash ← (if bool_decide (hash reference_state = []) then St.compute_hash reference_state else Ok (hash reference_state));
  let state_bytes := u64_le number in
  let id_hash := blake3 (concat_bytes [pk; state_bytes; content]) in
  let id := "vault_" +:+ hex_encode id_hash in
  let nonce := take 12 (blake3 (concat_bytes [id_hash; state_bytes])) in
  let aad := pk ++ str_bytes id ++ state_bytes ++ ref_hash in
  '(key, encrypted, commitment) ← seal fuel d pk recipient nonce content;
  let h := blake3 (parameters pk id number ref_hash condition recipient commitment) in
  signature ← map_crypto "Failed to sign vault parameters" (Sphincs.sphincs_sign sk h);
  let seed := Walk.generate_seed h (str_bytes id) None in
  positions ← Walk.generate_positions seed None;
  Ok (mkVault id number pk condition recipient Limbo content_type (mkEncrypted key encrypted nonce aad)
        commitment h signature positions ref_hash).

Definition from_state (fuel : nat) (d : VaultDraws) (state : State) (pk sk : bytes) (condition : FulfillmentMechanism)
    (content : bytes) (content_type : string) (recipient : option bytes) : outcome LimboVault :=
  let number := state_number state in
  let number_bytes := u64_to_bytes number in
  let id_hash := blake3 (pk ++ number_bytes ++ entropy state ++ content) in
  let id := "state_vault_" +:+ hex_encode id_hash in
  let nonce := take 12 (blake3 (concat_bytes [entropy state; number_bytes])) in
  let aad := pk ++ str_bytes id ++ number_bytes ++ hash state in
  '(key, encrypted, commitment) ← seal fuel d pk recipient nonce content;
  let h := blake3 (parameters pk id number (hash state) condition recipient commitment) in
  signature ← map_crypto "Failed to sign vault parameters" (Sphincs.sphincs_sign sk h);
  let seed := blake3 (h ++ entropy state) in
  positions ← Walk.generate_positions seed None;
  Ok (mkVault id number pk condition recipient Limbo content_type (mkEncrypted key encrypted nonce aad)
        commitment h signature positions (hash state)).

Definition default : LimboVault :=
  mkVault "" 0 [] (TimeRelease 0 []) None Limbo "application/octet-stream" (mkEncrypted [] [] [] [])
    Ped.default [] [] [] (zeros 32).

(** ** Verification *)

Definition verify (v : LimboVault) : outcome bool :=
  let computed := blake3 (parameters (v_creator_public_key v) (v_id v) (v_created_at_state v) (v_reference_state_hash v)
                            (v_condition v) (v_intended_recipient v) (v_content_commitment v)) in
  if negb (bool_decide (v_parameters_hash v = computed)) then Ok false
  else Sphincs.sphincs_verify (v_creator_public_key v) (v_parameters_hash v) (v_creator_signature v).

(** [hash.as_bytes()[0] < 128] *)
Definition first_half (h : bytes) : bool := byte.unsigned (nth 0 h Byte.x00) <? 128.

Definition verify_state_reference (state_hash proof : bytes) (reference_state : State) : outcome bool :=
  Ok (first_half (blake3 (state_hash ++ proof ++ hash reference_state))).

Definition verify_payment_proof (amount : Z) (token_id recipient : string)
    (verification_state state_transition merkle_proof : bytes) : outcome bool :=
  Ok (first_half (blake3 (u64_le amount ++ str_bytes token_id ++ str_bytes recipient
                          ++ verification_state ++ state_transition ++ merkle_proof))).

Definition verify_crypto_condition (condition_hash public_params solution : bytes) : outcome bool :=
  Ok (bool_decide (blake3 (concat_bytes [solution; public_params]) = condition_hash)).

Definition verify_hash_chain (hash_chain_proof : bytes) (reference_state : State) : outcome bool :=
  Ok (first_half (blake3 (hash_chain_proof ++ hash reference_state))).

Definition verify_time_condition (unlock_time : Z) (reference_state : State) : bool :=
  unlock_time <=? state_number reference_state.

(** The loop over the signatures, with the number of valid ones so far. *)
Fixpoint count_signatures (keys : list bytes) (data : bytes) (l : list (bytes * bytes)) (valid : nat) : outcome nat :=
  match l with
  | [] => Ok valid
  | (pk, sig) :: l =>
      if negb (bool_decide (pk ∈ keys)) then count_signatures keys data l valid else
      ok ← Sphincs.sphincs_verify pk data sig;
      count_signatures keys data l (if ok : bool then S valid else valid)
  end.

(** The conditions without parts. *)
Definition verify_simple (c : FulfillmentMechanism) (proof : FulfillmentProof) (reference_state : State) : outcome bool :=
  match c, proof with
  | TimeRelease unlock_time reference_states, TimeProof proof_state state_proof =>
      if negb (bool_decide (proof_state ∈ reference_states)) then Ok false else
      ok ← verify_state_reference proof_state state_proof reference_state;
      if negb ok then Ok false else
      if negb (verify_time_condition unlock_time reference_state) then Ok false else Ok true
  | Payment amount token_id recipient verification_state, PaymentProof state_transition merkle_proof =>
      verify_payment_proof amount token_id recipient verification_state state_transition merkle_proof
  | CryptoCondition condition_hash public_params, CryptoConditionProof solution _ =>
      verify_crypto_condition condition_hash public_params solution
  | MultiSignature public_keys threshold, MultiSignatureProof signatures signed_data =>
      if (length signatures <? threshold)%nat then Ok false else
      valid ← count_signatures public_keys signed_data signatures 0;
      Ok (threshold <=? valid)%nat
  | RandomWalkVerification verification_key statement, RandomWalkProof positions hash_chain_proof =>
      expected ← Walk.generate_positions (blake3 (verification_key ++ str_bytes statement)) None;
      if negb (length positions =? length expected)%nat then Ok false else
      if negb (Walk.zip_match positions expected) then Ok false else
      verify_hash_chain hash_chain_proof reference_state
  | _, _ => Ok false
  end.

(** [verify_fulfillment] reads of the vault only its condition, and the
    temporary vaults of the compound conditions differ in nothing else, so that
    it recurs on the condition.  The two loops are the ones of And (in step over
    conditions and proofs) and of Or (for each proof, for each condition). *)
Fixpoint check_condition (c : FulfillmentMechanism) (proof : FulfillmentProof) (reference_state : State) {struct c}
    : outcome bool :=
  match c, proof with
  | And conditions, CompoundProof proofs =>
      if negb (length conditions =? length proofs)%nat then Ok false else
      (fix all (cs : list FulfillmentMechanism) (ps : list FulfillmentProof) : outcome bool :=
         match cs, ps with
         | c :: cs, p :: ps =>
             ok ← check_condition c p reference_state;
             if negb ok then Ok false else all cs ps
         | _, _ => Ok true
         end) conditions proofs
  | Or conditions, CompoundProof proofs =>
      if bool_decide (length proofs = 0%nat) then Ok false else
      (fix each_proof (ps : list FulfillmentProof) : outcome bool :=
         match ps with
         | [] => Ok false
         | p :: ps =>
             found ← (fix each_condition (cs : list FulfillmentMechanism) : outcome bool :=
                        match cs with
                        | [] => Ok false
                        | c :: cs =>
                            ok ← check_condition c p reference_state;
                            if ok : bool then Ok true else each_condition cs
                        end) conditions;
             if found : bool then Ok true else each_proof ps
         end) proofs
  | _, _ => verify_simple c proof reference_state
  end.

Definition verify_fulfillment (v : LimboVault) (proof : FulfillmentProof) (reference_state : State) : outcome bool :=
  check_condition (v_condition v) proof reference_state.

(** ** Life cycle *)

Definition unlock (proof : FulfillmentProof) (requester : bytes) (reference_state : State) : M LimboVault bool := fun v =>
  if negb (match v_state v with Limbo => true | _ => false end)
  then (Err (EValidation "Vault is not in limbo state and cannot be unlocked"), v) else
  if match v_intended_recipient v with Some r => negb (constant_time_eq r requester) | None => false end
  then (Err (EValidation "Requester is not the intended recipient of this vault"), v) else
  match verify_fulfillment v proof reference_state with
  | Ok true => (Ok true, set_state (Unlocked (state_number reference_state) proof) v)
  | Ok false => (Ok false, v)
  | Err e => (Err e, v)
  | Panic => (Panic, v)
  | Hang => (Hang, v)
  end.

Definition compute_unlocking_key (v : LimboVault) (claimant claim_proof : bytes) : outcome bytes :=
  condition_bytes ← serialize_or "Failed to serialize vault condition" (v_condition v);
  Ok (blake3 (condition_bytes ++ v_parameters_hash v ++ v_reference_state_hash v ++ claim_proof ++ claimant)).

(** The "simulated" secret key: a digest of the public key. *)
Definition get_recipient_secret_key (v : LimboVault) : outcome (option bytes) :=
  match v_intended_recipient v with
  | Some pk => Ok (Some (blake3 (pk ++ str_bytes "SIMULATION_SECRET_KEY_DOMAIN")))
  | None => Ok (Some (blake3 (v_creator_public_key v ++ str_bytes "CREATOR_SECRET_KEY_DOMAIN")))
  end.

(** Steps 4 and 5 of [claim], after the state has been set. *)
Definition open_content (v : LimboVault) (claimant claim_proof : bytes) : outcome bytes :=
  unlocking_key ← compute_unlocking_key v claimant claim_proof;
  sk ← get_recipient_secret_key v;
  match sk with
  | None => Err (ECrypto "Unable to retrieve recipient's secret key for decryption")
  | Some sk =>
      sk ← ok_or (ECrypto "Invalid secret key format") (sized (secret_key_size kem512) sk);
      ct ← ok_or (ECrypto "Invalid ciphertext format")
             (sized (ciphertext_size kem512) (enc_encapsulated_key (v_encrypted_content v)));
      let shared_secret := kem_decapsulate ct sk in
      let final_key := blake3 (shared_secret ++ unlocking_key) in
      map_crypto "Failed to decrypt vault content"
        (Kyber.aes_decrypt final_key (enc_nonce (v_encrypted_content v)) (enc_data (v_encrypted_content v)))
  end.

Definition claim_data (v : LimboVault) (claimant : bytes) (number : Z) (proof_bytes : bytes) : bytes :=
  str_bytes (v_id v) ++ claimant ++ u64_to_bytes number ++ v_parameters_hash v ++ blake3 proof_bytes.

Definition claim (claimant : bytes) (reference_state : State) : M LimboVault ClaimResult := fun v =>
  match v_state v with
  | Unlocked _ proof =>
      match (ok ← verify_fulfillment v proof reference_state;
             if negb ok then Err (EValidation "Fulfillment proof no longer valid against current reference state") else
             serialize_or "Failed to serialize fulfillment proof" proof) with
      | Ok proof_bytes =>
          let claim_proof := blake3 (claim_data v claimant (state_number reference_state) proof_bytes) in
          let v' := set_state (Claimed (state_number reference_state) claimant claim_proof) v in
          (content ← open_content v' claimant claim_proof; Ok (mkClaim v' content claim_proof), v')
      | Err e => (Err e, v)
      | Panic => (Panic, v)
      | Hang => (Hang, v)
      end
  | _ => (Err (EValidation "Vault is not in unlocked state and cannot be claimed"), v)
  end.

Definition invalidation_data (v : LimboVault) (reason : string) (reference_state : State) : bytes :=
  str_bytes (v_id v) ++ str_bytes reason ++ hash reference_state.

Definition invalidate (reason : string) (creator_sk : bytes) (reference_state : State) : M LimboVault unit := fun v =>
  let data := invalidation_data v reason reference_state in
  match (signature ← map_crypto "Failed to sign invalidation data" (Sphincs.sphincs_sign creator_sk data);
         valid ← Sphincs.sphincs_verify (v_creator_public_key v) data signature;
         if negb valid then Err (EValidation "Invalid creator signature for vault invalidation") else Ok signature) with
  | Ok signature => (Ok tt, set_state (Invalidated_ (state_number reference_state) reason signature) v)
  | Err e => (Err e, v)
  | Panic => (Panic, v)
  | Hang => (Hang, v)
  end.

(** ** Posts *)

Definition lock_description (c : FulfillmentMechanism) : string :=
  match c with
  | TimeRelease t _ => "Time-locked until state " +:+ pretty t
  | Payment a tok r _ => "Payment of " +:+ pretty a +:+ " " +:+ tok +:+ " to " +:+ r
  | MultiSignature keys t => "Requires " +:+ pretty t +:+ " of " +:+ pretty (length keys) +:+ " signatures"
  | CryptoCondition _ _ => "Cryptographic condition fulfillment"
  | StateReference _ _ => "Reference state verification"
  | RandomWalkVerification _ st => "Random walk verification: " +:+ st
  | And cs => "All of " +:+ pretty (length cs) +:+ " conditions must be met"
  | Or cs => "Any of " +:+ pretty (length cs) +:+ " conditions must be met"
  end.

Definition status_text (s : VaultState) : string :=
  match s with
  | Limbo => "unresolved" | Unlocked _ _ => "unlocked" | Claimed _ _ _ => "claimed" | Invalidated_ _ _ _ => "invalidated"
  end.

Definition to_vault_post (v : LimboVault) (purpose : string) (timeout : option Z) : outcome VaultPost :=
  vault_data ← serialize_or "Failed to serialize vault" v;
  let metadata : gmap string string := {["purpose"%string := purpose]} in
  let metadata := match timeout with Some t => <["timeout"%string := pretty t]> metadata | None => metadata end in
  Ok (mkVaultPost (v_id v) (lock_description (v_condition v)) (hex_encode (v_creator_public_key v))
        (v_parameters_hash v) now (status_text (v_state v)) metadata vault_data).

Definition from_vault_post (post : VaultPost) : outcome LimboVault :=
  vault ← ok_or (ESerialization "Failed to deserialize vault data") (deserialize (vp_vault_data post));
  if negb (bool_decide (v_parameters_hash vault = vp_commitment_hash post))
  then Err (EValidation "Vault integrity check failed: commitment hash mismatch") else
  if negb (bool_decide (v_id vault = vp_vault_id post))
  then Err (EValidation "Vault integrity check failed: ID mismatch") else
  creator ← ok_or (EValidation "Invalid creator ID format") (hex_decode (vp_creator_id post));
  if negb (bool_decide (v_creator_public_key vault = creator))
  then Err (EValidation "Vault integrity check failed: creator mismatch") else
  ok ← Sphincs.sphincs_verify (v_creator_public_key vault) (v_parameters_hash vault) (v_creator_signature vault);
  if negb ok then Err (EValidation "Vault integrity check failed: invalid creator signature") else Ok vault.

(** Dead code of the source. *)
Definition hash_parameters (v : LimboVault) (number : Z) : bytes :=
  v_creator_public_key v ++ str_bytes (v_id v) ++ u64_to_bytes number ++ v_reference_state_hash v.

End LV.
End LV.

(** ** [DeterministicLimboVault] *)

Inductive VaultStatus := VActive | VClaimed | VRevoked | VExpired.

Record DeterministicLimboVault := mkDet {
  det_id : string; det_creator_id : string; det_recipient_id : string; det_data : bytes;
  det_condition : VaultCondition; det_status : VaultStatus;
}.

Module Det.
Section Det.
Context {B3 : Blake3} {RT : Runtime} {HX : Hex}.

Definition new (creator_id recipient_id : string) (data : bytes) (condition : VaultCondition) : DeterministicLimboVault :=
  let components := creator_id +:+ ":" +:+ recipient_id +:+ ":" +:+ hex_encode (take (Nat.min 8 (length data)) data) in
  mkDet ("dlv_" +:+ hex_encode (blake3 (str_bytes components))) creator_id recipient_id data condition VActive.

Definition set_status (s : VaultStatus) (v : DeterministicLimboVault) : DeterministicLimboVault :=
  mkDet (det_id v) (det_creator_id v) (det_recipient_id v) (det_data v) (det_condition v) s.

Definition from_limbo_vault (v : LimboVault) (condition : VaultCondition) : outcome DeterministicLimboVault :=
  Ok (mkDet (v_id v) (hex_encode (v_creator_public_key v))
        (match v_intended_recipient v with Some r => hex_encode r | None => ""%string end)
        (enc_data (v_encrypted_content v)) condition
        (match v_state v with
         | Limbo => VActive | Claimed _ _ _ => VClaimed | Invalidated_ _ _ _ => VRevoked | Unlocked _ _ => VActive
         end)).

Definition convert_vault (v : LimboVault) (condition : VaultCondition) : outcome DeterministicLimboVault :=
  from_limbo_vault v condition.

Definition create_deterministic_limbo_vault (creator_id : string) (data : bytes) (condition : VaultCondition)
    : DeterministicLimboVault := new creator_id "" data condition.

Definition create_deterministic_limbo_vault_with_timeout (creator_id : string) (data : bytes) (timeout_seconds : Z)
    : outcome DeterministicLimboVault :=
  t ← u64_add now timeout_seconds; Ok (new creator_id "" data (VTime t)).

Definition create_deterministic_limbo_vault_with_timeout_and_recipient (creator_id recipient_id : string) (data : bytes)
    (timeout_seconds : Z) : outcome DeterministicLimboVault :=
  t ← u64_add now timeout_seconds; Ok (new creator_id recipient_id data (VTime t)).

End Det.
End Det.

(** ** The manager *)

Definition proof_eq_dec : EqDecision FulfillmentProof.
Proof.
  refine (fix go (a b : FulfillmentProof) {struct a} : {a = b} + {a ≠ b} := _).
  destruct a as [r s|r s|r s|r s|r s|l], b as [r' s'|r' s'|r' s'|r' s'|r' s'|l']; try (right; discriminate).
  1-5: destruct (decide (r = r')); [destruct (decide (s = s'))|]; [left; congruence|right; congruence..].
  destruct (List.list_eq_dec go l l'); [left; congruence|right; congruence].
Defined.
#[export] Instance FulfillmentProof_eq_dec : EqDecision FulfillmentProof := proof_eq_dec.
#[export] Instance VaultState_eq_dec : EqDecision VaultState.
Proof. solve_decision. Defined.

(** [Arc<Mutex<LimboVault>>]: the shared vault and whether its mutex is
    poisoned, which it is once a thread panics while it holds the lock. *)
Record VaultCell := mkCell { cell_vault : LimboVault; cell_poisoned : bool }.
Abbreviation DLVManager := (gmap string VaultCell).

Module DLV.
Section DLV.
Context {B3 : Blake3} {RT : Runtime} {HX : Hex} {S3 : Sha3} {PT : PrimeTest} {AE : Aead} {DO : DashOrder}
  {K768 : Mlkem kem768} {K512 : Mlkem kem512}
  {SO : Bincode Operation} {SB : Bincode Balance} {SP : Bincode PreCommitment}
  {SC : Bincode FulfillmentMechanism} {SF : Bincode FulfillmentProof} {SPC : Bincode PedersenCommitment}
  {SV : Bincode LimboVault} {SVP : Bincode VaultPost}.

Definition new : DLVManager := ∅.

Definition create_vault (fuel : nat) (d : VaultDraws) (pk sk : bytes) (condition : FulfillmentMechanism) (content : bytes)
    (content_type : string) (recipient : option bytes) (reference_state : State) : M DLVManager string :=
  let* v := mlift (LV.new fuel d pk sk condition content content_type recipient reference_state) in
  do* mmod (fun m : DLVManager => <[v_id v := mkCell v false]> m);
  mret_st (v_id v).

Definition get_vault (m : DLVManager) (id : string) : outcome VaultCell :=
  ok_or (ENotFound "Vault" (Some "Vault with ID {} not found"%string)) (m !! id).

Definition list_vaults (m : DLVManager) : outcome (list string) := Ok (dash_iter m).*1.

Definition get_vaults_by_status (m : DLVManager) (status : VaultState) : outcome (list string) :=
  Ok (map fst (filter (fun e : string * VaultCell => cell_poisoned e.2 = false ∧ v_state (cell_vault e.2) = status) (dash_iter m))).

(** [vault_lock.lock()], the call on the locked vault, and the release; a panic
    of the call poisons the mutex. *)
Definition with_vault {A} (id : string) (f : M LimboVault A) : M DLVManager A := fun m =>
  match get_vault m id with
  | Ok c =>
      if cell_poisoned c then (Err (EInternal "Failed to acquire lock on vault"), m) else
      match f (cell_vault c) with
      | (Panic, v) => (Panic, <[id := mkCell v true]> m)
      | (o, v) => (o, <[id := mkCell v false]> m)
      end
  | Err e => (Err e, m)
  | Panic => (Panic, m)
  | Hang => (Hang, m)
  end.

Definition try_unlock_vault (id : string) (proof : FulfillmentProof) (requester : bytes) (reference_state : State)
    : M DLVManager bool := with_vault id (LV.unlock proof requester reference_state).

Definition claim_vault_content (id : string) (claimant : bytes) (reference_state : State) : M DLVManager bytes :=
  let* r := with_vault id (LV.claim claimant reference_state) in mret_st (cl_content r).

Definition invalidate_vault (id : string) (reason : string) (creator_sk : bytes) (reference_state : State) : M DLVManager unit :=
  with_vault id (LV.invalidate reason creator_sk reference_state).

Definition create_vault_post (id : string) (purpose : string) (timeout : option Z) : M DLVManager bytes :=
  with_vault id (fun v =>
    (post ← LV.to_vault_post v purpose timeout; serialize_or "Failed to serialize vault post" post, v)).

End DLV.
End DLV.

(** ** Assets ([asset_manager.rs]) *)

Inductive AssetType := KeyMaterial | EncryptedState | Credential | BinaryData | JsonData.
#[export] Instance AssetType_eq_dec : EqDecision AssetType.
Proof. solve_decision. Defined.

Record DigitalAsset := mkAsset {
  as_id : string; as_type : AssetType; as_data : bytes; as_metadata : gmap string string;
  as_created_at : Z; as_modified_at : Z;
}.
Abbreviation AssetManager := (gmap string DigitalAsset).

Module Assets.
Section Assets.
Context {RT : Runtime} {DO : DashOrder} {SK : Bincode KyberKeyPair} {UK : Unbincode KyberKeyPair}.

Definition asset_new (id : string) (ty : AssetType) (data : bytes) : DigitalAsset := mkAsset id ty data ∅ now now.
Definition with_metadata (a : DigitalAsset) (key value : string) : DigitalAsset :=
  mkAsset (as_id a) (as_type a) (as_data a) (<[key := value]> (as_metadata a)) (as_created_at a) (as_modified_at a).

Definition new : AssetManager := ∅.

Definition add_asset (a : DigitalAsset) : M AssetManager unit := fun m =>
  if bool_decide (is_Some (m !! as_id a)) then (Err (EValidation "Asset with ID {} already exists"), m)
  else (Ok tt, <[as_id a := a]> m).

Definition get_asset (m : AssetManager) (id : string) : option DigitalAsset := m !! id.

(** [HashMap::remove]: the removed asset and the map without it. *)
Definition remove_asset (id : string) (m : AssetManager) : option DigitalAsset * AssetManager := (m !! id, delete id m).

Definition get_assets_by_type (m : AssetManager) (ty : AssetType) : list DigitalAsset :=
  filter (fun a => as_type a = ty) (dash_iter m).*2.

Definition update_asset_data (id : string) (data : bytes) : M AssetManager unit := fun m =>
  match m !! id with
  | Some a => (Ok tt, <[id := mkAsset (as_id a) (as_type a) data (as_metadata a) (as_created_at a) now]> m)
  | None => (Err (ENotFound "Asset" (Some "Asset with ID {} not found"%string)), m)
  end.

Definition create_key_asset (id : string) (key_pair : KyberKeyPair) : M AssetManager string :=
  let* key_bytes := mlift (serialize_or "Failed to serialize key pair" key_pair) in
  do* add_asset (asset_new id KeyMaterial key_bytes);
  mret_st id.

Definition load_key_asset (m : AssetManager) (id : string) : outcome KyberKeyPair :=
  a ← ok_or (ENotFound "Key asset" (Some "Key asset with ID {} not found"%string)) (get_asset m id);
  if negb (bool_decide (as_type a = KeyMaterial)) then Err (EValidation "Asset with ID {} is not a key material") else
  ok_or (ESerialization "Failed to deserialize key pair") (deserialize (as_data a)).

End Assets.
End Assets.

(** ** What a proof has to show *)

(** Induction over conditions, with the parts of compound ones. *)
Lemma condition_ind (P : FulfillmentMechanism → Prop)
    (HS : ∀ c, match c with And _ | Or _ => False | _ => True end → P c)
    (HA : ∀ cs, Forall P cs → P (And cs)) (HO : ∀ cs, Forall P cs → P (Or cs)) : ∀ c, P c.
Proof.
  fix go 1. intros c. destruct c as [| | | | | |cs|cs]; try (by apply HS).
  - apply HA. induction cs as [|c cs IH]; constructor; [apply go|exact IH].
  - apply HO. induction cs as [|c cs IH]; constructor; [apply go|exact IH].
Qed.

Section Facts.
Context {B3 : Blake3} {RT : Runtime} {HX : Hex} {S3 : Sha3} {PT : PrimeTest} {AE : Aead} {DO : DashOrder}
  {K768 : Mlkem kem768} {K512 : Mlkem kem512}
  {SO : Bincode Operation} {SB : Bincode Balance} {SP : Bincode PreCommitment}
  {SC : Bincode FulfillmentMechanism} {SF : Bincode FulfillmentProof} {SPC : Bincode PedersenCommitment}
  {SV : Bincode LimboVault} {UV : Unbincode LimboVault} {SVP : Bincode VaultPost}.

(** The specification: a proof fulfils a conjunction part by part, and a
    disjunction when one of its proofs fulfils one of the conditions. *)
#[warnings="-register-all"]
Inductive fulfilled (ref : State) : FulfillmentMechanism → FulfillmentProof → Prop :=
  | ful_simple c p : LV.verify_simple c p ref = Ok true → fulfilled ref c p
  | ful_and cs ps : Forall2 (fulfilled ref) cs ps → fulfilled ref (And cs) (CompoundProof ps)
  | ful_or cs ps c p : c ∈ cs → p ∈ ps → fulfilled ref c p → fulfilled ref (Or cs) (CompoundProof ps).

(** The loop of And. *)
Fixpoint all_hold (ref : State) (cs : list FulfillmentMechanism) (ps : list FulfillmentProof) : outcome bool :=
  match cs, ps with
  | c :: cs, p :: ps => ok ← LV.check_condition c p ref; if negb ok then Ok false else all_hold ref cs ps
  | _, _ => Ok true
  end.
(** The two loops of Or. *)
Fixpoint some_condition (ref : State) (p : FulfillmentProof) (cs : list FulfillmentMechanism) : outcome bool :=
  match cs with
  | [] => Ok false
  | c :: cs => ok ← LV.check_condition c p ref; if ok : bool then Ok true else some_condition ref p cs
  end.
Fixpoint some_proof (ref : State) (cs : list FulfillmentMechanism) (ps : list FulfillmentProof) : outcome bool :=
  match ps with
  | [] => Ok false
  | p :: ps => found ← some_condition ref p cs; if found : bool then Ok true else some_proof ref cs ps
  end.

Lemma check_and ref cs ps : LV.check_condition (And cs) (CompoundProof ps) ref =
  if negb (length cs =? length ps)%nat then Ok false else all_hold ref cs ps.
Proof.
  cbn [LV.check_condition]. destruct (length cs =? length ps)%nat; [|done]. cbn [negb].
  revert ps. induction cs as [|c cs IH]; intros [|p ps]; try done. cbn [all_hold].
  destruct (LV.check_condition c p ref) as [[]| | |]; try done. cbn. apply IH.
Qed.

Lemma check_or ref cs ps : LV.check_condition (Or cs) (CompoundProof ps) ref = some_proof ref cs ps.
Proof.
  cbn [LV.check_condition].
  assert (∀ p, (fix each_condition (cs : list FulfillmentMechanism) : outcome bool :=
                  match cs with
                  | [] => Ok false
                  | c :: cs => ok ← LV.check_condition c p ref; if ok : bool then Ok true else each_condition cs
                  end) cs = some_condition ref p cs) as Hc.
  { intros p. induction cs as [|c cs IH]; [done|]. cbn [some_condition]. by rewrite IH. }
  case_bool_decide as Hl; [by destruct ps|]. clear Hl. induction ps as [|p ps IH]; [done|].
  cbn [some_proof]. rewrite <-IH, Hc. done.
Qed.

Definition decides (ref : State) (c : FulfillmentMechanism) : Prop :=
  ∀ p b, LV.check_condition c p ref = Ok b → (b = true ↔ fulfilled ref c p).

Lemma all_hold_spec ref cs ps b : Forall (decides ref) cs → length cs = length ps →
  all_hold ref cs ps = Ok b → (b = true ↔ Forall2 (fulfilled ref) cs ps).
Proof.
  intros Hd. revert ps. induction Hd as [|c cs Hc _ IH]; intros [|p ps]; try done.
  - intros _ [= <-]. by split.
  - intros [= Hl]. cbn [all_hold]. intros (ok & Hok & H)%bind_Ok. apply Hc in Hok.
    destruct ok; cbn [negb] in H.
    + rewrite (IH ps Hl H), Forall2_cons. naive_solver.
    + injection H as <-. rewrite Forall2_cons. naive_solver.
Qed.

Lemma some_condition_spec ref p cs b : Forall (decides ref) cs →
  some_condition ref p cs = Ok b → (b = true ↔ ∃ c, c ∈ cs ∧ fulfilled ref c p).
Proof.
  intros Hd. induction Hd as [|c cs Hc _ IH]; cbn [some_condition].
  - intros [= <-]. split; [done|]. intros (? & ?%elem_of_nil & _). done.
  - intros (ok & Hok & H)%bind_Ok. apply Hc in Hok. destruct ok.
    + injection H as <-. split; [|done]. intros _. exists c. split; [set_solver|by apply Hok].
    + rewrite (IH H). split.
      * intros (c' & ? & ?). exists c'. split; [set_solver|done].
      * intros (c' & [->|Hc']%elem_of_cons & Hf); [by apply Hok in Hf|]. by exists c'.
Qed.

Lemma some_proof_spec ref cs ps b : Forall (decides ref) cs →
  some_proof ref cs ps = Ok b → (b = true ↔ ∃ c p, c ∈ cs ∧ p ∈ ps ∧ fulfilled ref c p).
Proof.
  intros Hd. induction ps as [|p ps IH]; cbn [some_proof].
  - intros [= <-]. split; [done|]. intros (? & ? & _ & ?%elem_of_nil & _). done.
  - intros (ok & Hok & H)%bind_Ok. apply some_condition_spec in Hok; [|done]. destruct ok.
    + injection H as <-. split; [|done]. intros _. destruct (proj1 Hok eq_refl) as (c & ? & ?).
      exists c, p. split_and!; [done|set_solver|done].
    + rewrite (IH H). split.
      * intros (c & p' & ? & ? & ?). exists c, p'. split_and!; [done|set_solver|done].
      * intros (c & p' & Hc & [->|Hp]%elem_of_cons & Hf); [|by exists c, p'].
        enough (false = true) by done. apply Hok. by exists c.
Qed.

Lemma check_decides ref c : decides ref c.
Proof.
  induction c as [c Hc|cs IH|cs IH] using condition_ind; intros p b Hb.
  - assert (LV.check_condition c p ref = LV.verify_simple c p ref) as Heq by (by destruct c, p).
    rewrite Heq in Hb. split.
    + intros ->. by constructor.
    + intros Hf. inversion Hf; subst; [congruence|done..].
  - destruct p as [| | | | |ps]; try by (cbn in Hb; injection Hb as <-; split; [done|]; intros Hf; inversion Hf; subst; done).
    rewrite check_and in Hb. destruct (Nat.eqb_spec (length cs) (length ps)) as [Hl|Hl]; cbn [negb] in Hb.
    + rewrite (all_hold_spec ref cs ps b IH Hl Hb). split; [by constructor|]. intros Hf. by inversion Hf; subst.
    + injection Hb as <-. split; [done|]. intros Hf. inversion Hf; subst; [done|].
      exfalso. apply Hl. by eapply Forall2_length.
  - destruct p as [| | | | |ps]; try by (cbn in Hb; injection Hb as <-; split; [done|]; intros Hf; inversion Hf; subst; done).
    rewrite check_or in Hb. rewrite (some_proof_spec ref cs ps b IH Hb). split.
    + intros (c & p & ? & ? & ?). by eapply ful_or.
    + intros Hf. inversion Hf; subst; [done|]. eauto.
Qed.

(** C30: whenever the recursive check of a vault's condition returns a verdict,
    that verdict is the one of the specification: conjunctions hold part by
    part, disjunctions when some proof fulfils some condition, to any depth of
    nesting; a disjunction of nothing and a compound condition with a proof of
    another shape are never fulfilled. *)
Theorem fulfillment_decides (v : LimboVault) (p : FulfillmentProof) (ref : State) (b : bool) :
  LV.verify_fulfillment v p ref = Ok b → (b = true ↔ fulfilled ref (v_condition v) p).
Proof. apply check_decides. Qed.

(** ** The life cycle *)

Inductive vault_step : LimboVault → LimboVault → Prop :=
  | step_unlock v p requester ref : vault_step v (LV.unlock p requester ref v).2
  | step_claim v claimant ref : vault_step v (LV.claim claimant ref v).2
  | step_invalidate v reason sk ref : vault_step v (LV.invalidate reason sk ref v).2.

(** What the state of a vault with the body of [v] attests. *)
Definition attested (v : LimboVault) (st : VaultState) : Prop :=
  match st with
  | Limbo => True
  | Unlocked n p => ∃ requester ref, state_number ref = n ∧
      (∀ r, v_intended_recipient v = Some r → requester = r) ∧ fulfilled ref (v_condition v) p
  | Claimed n claimant claim_proof => ∃ ref p b requester ref0, state_number ref = n ∧
      (∀ r, v_intended_recipient v = Some r → requester = r) ∧
      fulfilled ref0 (v_condition v) p ∧ fulfilled ref (v_condition v) p ∧ serialize p = Some b ∧
      claim_proof = blake3 (LV.claim_data v claimant n b)
  | Invalidated_ n reason signature => ∃ ref, state_number ref = n ∧
      Sphincs.sphincs_verify (v_creator_public_key v) (LV.invalidation_data v reason ref) signature = Ok true
  end.

Lemma set_state_id v : LV.set_state (v_state v) v = v.
Proof. by destruct v. Qed.

Lemma unlock_attested v p requester ref :
  let v' := (LV.unlock p requester ref v).2 in
  v' = v ∨ (v_state v = Limbo ∧ v' = LV.set_state (v_state v') v ∧ attested v (v_state v')).
Proof.
  unfold LV.unlock. destruct (v_state v) eqn:Es; try (by left). cbn [negb].
  destruct (match v_intended_recipient v with Some r => _ | None => _ end) eqn:Er; [by left|].
  destruct (LV.verify_fulfillment v p ref) as [[]| | |] eqn:E; try (by left). right. cbn. split_and!; [done..|].
  exists requester, ref. split_and!; [done| |by apply (check_decides _ _ _ _ E)].
  intros r Hr. rewrite Hr in Er. apply negb_false_iff, constant_time_eq_spec in Er. done.
Qed.

Lemma claim_attested v claimant ref n p :
  v_state v = Unlocked n p → attested v (v_state v) →
  let v' := (LV.claim claimant ref v).2 in
  v' = v ∨ (v' = LV.set_state (v_state v') v ∧ attested v (v_state v')).
Proof.
  intros Hs Ha. unfold LV.claim. rewrite Hs in *. destruct Ha as (requester & ref0 & _ & Hr & Hf).
  destruct (mbind _ _) as [b| | |] eqn:E; try (by left). right. cbn. split; [done|].
  apply bind_Ok in E as (ok & Hok & E). destruct ok; [|done]. cbn [negb] in E. unfold serialize_or in E. apply ok_or_Ok in E.
  exists ref, p, b, requester, ref0. split_and!; try done. by apply (check_decides _ _ _ _ Hok).
Qed.

Lemma claim_refused v claimant ref : (∀ n p, v_state v ≠ Unlocked n p) →
  LV.claim claimant ref v = (Err (EValidation "Vault is not in unlocked state and cannot be claimed"), v).
Proof. intros H. unfold LV.claim. destruct (v_state v) as [|n p| |] eqn:E; try done. by destruct (H n p). Qed.

Lemma invalidate_attested v reason sk ref :
  let v' := (LV.invalidate reason sk ref v).2 in
  v' = v ∨ (v' = LV.set_state (v_state v') v ∧ attested v (v_state v')).
Proof.
  unfold LV.invalidate. destruct (mbind _ _) as [sig| | |] eqn:E; try (by left). right. cbn. split; [done|].
  apply bind_Ok in E as (sig' & _ & (valid & Hv & E)%bind_Ok). destruct valid; [|done]. injection E as ->. by exists ref.
Qed.

Definition lawful (v0 v : LimboVault) : Prop := v = LV.set_state (v_state v) v0 ∧ attested v0 (v_state v).

Lemma attested_body v st st' : attested (LV.set_state st v) st' ↔ attested v st'.
Proof. by destruct st'. Qed.

Lemma lawful_next v0 v v' : lawful v0 v → v' = v ∨ (v' = LV.set_state (v_state v') v ∧ attested v (v_state v')) → lawful v0 v'.
Proof.
  intros [Hb Ha] [->|[Hb' Ha']]; [done|]. rewrite Hb in Ha'. apply attested_body in Ha'.
  split; [|done]. rewrite Hb' at 1. rewrite Hb. done.
Qed.

Lemma step_lawful v0 v v' : lawful v0 v → vault_step v v' → lawful v0 v'.
Proof.
  intros Hl Hs. apply (lawful_next v0 v); [done|]. destruct Hs as [v p req ref|v who ref|v reason sk ref].
  - destruct (unlock_attested v p req ref) as [?|(_ & ? & ?)]; [by left|by right].
  - destruct (v_state v) as [|n p| |] eqn:E; try (left; by rewrite claim_refused by (rewrite E; done)).
    apply (claim_attested v who ref n p E). destruct Hl as [Hb Ha]. rewrite Hb. by apply attested_body.
  - apply invalidate_attested.
Qed.

Lemma steps_lawful v0 v v' : lawful v0 v → rtc vault_step v v' → lawful v0 v'.
Proof. intros Hl Hr. induction Hr as [|v v1 v' Hs _ IH]; [done|]. apply IH. by eapply step_lawful. Qed.

(** C38: along every sequence of unlock, claim and invalidate attempts on a
    vault in limbo, whatever their outcome, everything but the state stays what
    it was, so that the vault's verification keeps its verdict, and the state is
    always attested: unlocked only by the intended recipient with a proof that
    fulfils the condition at the recorded state number, claimed only after such an
    unlocking and with a proof still valid, the claim proof binding vault,
    claimant and number, and invalidated only with a valid signature of the
    creator. *)
Theorem vault_lifecycle (v0 v : LimboVault) :
  v_state v0 = Limbo → rtc vault_step v0 v →
  v = LV.set_state (v_state v) v0 ∧ attested v0 (v_state v) ∧ LV.verify v = LV.verify v0.
Proof.
  intros H0 Hr. assert (lawful v0 v) as [Hb Ha].
  { assert (lawful v0 v0) as H by (split; [by rewrite set_state_id|by rewrite H0]).
    exact (steps_lawful v0 v0 v H Hr). }
  split_and!; [done|done|]. by rewrite Hb.
Qed.

(** ** Claims *)

Lemma open_content_fails v claimant claim_proof : ∃ e, LV.open_content v claimant claim_proof = Err e.
Proof.
  unfold LV.open_content, LV.compute_unlocking_key, serialize_or.
  destruct (serialize (v_condition v)) as [b|]; [|by eexists]. cbn [ok_or mbind outcome_bind].
  destruct (LV.get_recipient_secret_key v) as [[sk|]| | |] eqn:E; unfold LV.get_recipient_secret_key in E;
    destruct (v_intended_recipient v); try done; injection E as <-;
    cbn [mbind outcome_bind]; unfold sized; rewrite blake3_length; by eexists.
Qed.

Lemma claim_fails v claimant ref : is_ok (LV.claim claimant ref v).1 = false.
Proof.
  unfold LV.claim. destruct (v_state v); try done. destruct (mbind _ _) as [b| | |]; try done. cbn [fst].
  set (pf := blake3 (LV.claim_data v claimant (state_number ref) b)).
  by destruct (open_content_fails (LV.set_state (Claimed (state_number ref) claimant pf) v) claimant pf) as [e ->].
Qed.

Lemma claim_content_fails id claimant ref m : is_ok (DLV.claim_vault_content id claimant ref m).1 = false.
Proof.
  unfold DLV.claim_vault_content, mbind_st, DLV.with_vault. destruct (DLV.get_vault m id) as [[v []]| | |]; try done.
  cbn [cell_poisoned cell_vault]. pose proof (claim_fails v claimant ref) as H.
  destruct (LV.claim claimant ref v) as [[r| | |] v']; done.
Qed.

(** No claim ever returns the content: the "secret key" that the vault
    computes is a 32-byte digest, which is not a key of the KEM.  A claim of an
    unlocked vault whose proof still holds fails after the vault has been marked
    as claimed, and from then on the vault can be neither unlocked nor
    claimed: the content is lost. *)
Theorem claim_loses_content (v : LimboVault) (claimant : bytes) (ref : State) :
  is_ok (LV.claim claimant ref v).1 = false ∧
  ∀ n p, v_state v = Unlocked n p → LV.verify_fulfillment v p ref = Ok true → is_Some (serialize p) →
    ∃ e v' pf, LV.claim claimant ref v = (Err e, v') ∧ v_state v' = Claimed (state_number ref) claimant pf ∧
      (∀ who ref', LV.claim who ref' v' = (Err (EValidation "Vault is not in unlocked state and cannot be claimed"), v')) ∧
      (∀ q who ref', LV.unlock q who ref' v' = (Err (EValidation "Vault is not in limbo state and cannot be unlocked"), v')).
Proof.
  split; [apply claim_fails|].
  intros n p Hs Hf [b Hb]. unfold LV.claim at 1. rewrite Hs, Hf. cbn [mbind outcome_bind negb].
  unfold serialize_or. rewrite Hb. cbn [ok_or].
  set (v' := LV.set_state _ v). set (pf := blake3 _) in *. destruct (open_content_fails v' claimant pf) as [e ->].
  exists e, v', pf. split_and!; [done|done| |done]. intros. apply claim_refused. done.
Qed.

(** ** Creation *)

Lemma new_inv fuel d pk sk c content ty recipient ref v : LV.new fuel d pk sk c content ty recipient ref = Ok v →
  v_creator_public_key v = pk ∧ v_state v = Limbo ∧ v_condition v = c ∧ v_intended_recipient v = recipient ∧
  length (unwrap_or pk recipient) = public_key_size kem768 ∧
  v_parameters_hash v = blake3 (LV.parameters pk (v_id v) (v_created_at_state v) (v_reference_state_hash v) c recipient (v_content_commitment v)) ∧
  Sphincs.sphincs_sign sk (v_parameters_hash v) = Ok (v_creator_signature v).
Proof.
  unfold LV.new. intros (rh & _ & ([[key enc] com] & Hseal & H)%bind_Ok)%bind_Ok.
  apply bind_Ok in H as (sig & Hsig & (pos & _ & <-%Ok_inj)%bind_Ok). cbn. split_and!; try done.
  - unfold LV.seal in Hseal. apply bind_Ok in Hseal as (kk & Hk & _). unfold LV.map_crypto, Kyber.kyber_encapsulate in Hk.
    destruct (Nat.eqb_spec (length (unwrap_or pk recipient)) (public_key_size kem768)); done.
  - unfold LV.map_crypto in Hsig. by destruct (Sphincs.sphincs_sign _ _).
Qed.

(** A created vault is in limbo and verifies, and posting it to
    decentralised storage and resolving the post gives the same vault; creation
    fails unless the key it encrypts for (the recipient's, or the creator's when
    there is none) has the size of a KEM key, so that with the creator's signature
    key alone, of 64 bytes, no vault is ever created. *)
Theorem vault_creation (fuel : nat) (d : VaultDraws) (pk sk : bytes) (c : FulfillmentMechanism) (content : bytes)
    (ty : string) (recipient : option bytes) (ref : State) (v : LimboVault) (purpose : string) (timeout : option Z)
    (Hkey : keypair pk sk) (Hv : LV.new fuel d pk sk c content ty recipient ref = Ok v)
    (Hround : ∀ b, serialize v = Some b → deserialize b = Some v) :
  LV.verify v = Ok true ∧ v_state v = Limbo ∧ is_Some recipient ∧
  (∀ post, LV.to_vault_post v purpose timeout = Ok post → LV.from_vault_post post = Ok v).
Proof.
  apply new_inv in Hv as (Hpk & Hst & Hc & Hr & Hlen & Hh & Hsig).
  assert (Sphincs.sphincs_verify pk (v_parameters_hash v) (v_creator_signature v) = Ok true) as Hver.
  { destruct (sign_verify pk sk (v_parameters_hash v) Hkey) as (sig & Hs & _ & Hok); [rewrite Hh; apply blake3_nonempty|].
    rewrite Hsig in Hs. apply Ok_inj in Hs. by subst. }
  split_and!; [|done| |].
  - unfold LV.verify. rewrite Hpk, Hc, Hr, <-Hh, bool_decide_eq_true_2 by done. exact Hver.
  - destruct recipient as [r|]; [done|]. cbn in Hlen. destruct Hkey as (a & b & p & r & _ & _ & Hp & Hpr & -> & _).
    rewrite length_app, Hp, Hpr in Hlen. exfalso. revert Hlen. vm_compute. discriminate.
  - intros post. unfold LV.to_vault_post, serialize_or. destruct (serialize v) as [b|] eqn:Eb; [|done].
    cbn [ok_or mbind outcome_bind]. intros <-%Ok_inj. unfold LV.from_vault_post. cbn [vp_vault_data vp_commitment_hash vp_vault_id vp_creator_id].
    rewrite (Hround b eq_refl). cbn [ok_or mbind outcome_bind]. rewrite !bool_decide_eq_true_2 by done. cbn [negb].
    rewrite hex_round_trip. cbn [ok_or mbind outcome_bind]. rewrite bool_decide_eq_true_2 by done. cbn [negb].
    rewrite Hpk, Hver. done.
Qed.

(** ** Multi-signature conditions *)

Lemma count_repeated keys data pk sig ok n k : pk ∈ keys → Sphincs.sphincs_verify pk data sig = Ok ok →
  LV.count_signatures keys data (replicate n (pk, sig)) k = Ok (if ok : bool then n + k else k)%nat.
Proof.
  intros Hk Hv. revert k. induction n as [|n IH]; intros k; cbn [replicate LV.count_signatures]; [by destruct ok|].
  rewrite bool_decide_eq_true_2 by done. cbn [negb]. rewrite Hv. cbn [mbind outcome_bind]. rewrite IH. destruct ok; f_equal; lia.
Qed.

Lemma forged pk data : length pk = CRYPTO_PUBLICKEYBYTES → data ≠ [] →
  Sphincs.sphincs_verify pk data (zeros 32 ++ blake3 (zeros 32 ++ pk ++ data)) = Ok true.
Proof.
  intros Hp Hd. unfold Sphincs.sphincs_verify. rewrite bool_decide_eq_false_2 by done.
  assert (Hl : length pk = 64%nat) by exact Hp.
  rewrite <-(take_drop 32 pk) at 2. rewrite <-(app_nil_r (blake3 _)).
  rewrite verify_shape; [|rewrite length_take; lia|rewrite length_drop; lia|apply length_replicate|apply blake3_length].
  rewrite (app_assoc (take 32 pk)), take_drop. by rewrite bool_decide_eq_true_2 by done.
Qed.

(** The threshold of a multi-signature condition counts signatures, not
    signers, and the data they sign is chosen by the prover: for any key of the
    list, the same signature given as often as the threshold asks unlocks the
    vault.  As signatures are forgeable this needs no secret key at all. *)
Theorem multisig_without_signers (v : LimboVault) (keys : list bytes) (threshold : nat) (pk data : bytes) (ref : State)
    (Hc : v_condition v = MultiSignature keys threshold) (Hpk : pk ∈ keys) (Hl : length pk = CRYPTO_PUBLICKEYBYTES) (Hd : data ≠ []) :
  LV.verify_fulfillment v (MultiSignatureProof (replicate threshold (pk, zeros 32 ++ blake3 (zeros 32 ++ pk ++ data))) data) ref = Ok true.
Proof.
  unfold LV.verify_fulfillment. rewrite Hc. cbn [LV.check_condition LV.verify_simple].
  rewrite length_replicate, Nat.ltb_irrefl, (count_repeated keys data pk _ true) by (done || by apply forged).
  cbn [mbind outcome_bind]. f_equal. apply Nat.leb_le. lia.
Qed.

Lemma short_signature_panics pk data sig : data ≠ [] → (32 ≤ length sig < 64)%nat → length pk = CRYPTO_PUBLICKEYBYTES →
  Sphincs.sphincs_verify pk data sig = Panic.
Proof.
  intros Hd Hs Hp. assert (Hl : length pk = 64%nat) by exact Hp.
  unfold Sphincs.sphincs_verify, Sphincs.crypto_sign_verify. rewrite bool_decide_eq_false_2 by done.
  change CRYPTO_N with 32%nat. change (2 * 32)%nat with 64%nat.
  destruct (slice_total 0 32 pk) as (a & -> & _); [lia|]. destruct (slice_total 32 64 pk) as (b & -> & _); [lia|].
  destruct (slice_total 0 32 sig) as (e & -> & _); [lia|]. cbn [mbind outcome_bind].
  unfold slice. case_test; [|done]. zbool. repeat match goal with H : (_ && _)%bool = true |- _ => apply andb_true_iff in H as [? ?] end.
  repeat match goal with H : (_ <=? _)%nat = true |- _ => apply Nat.leb_le in H end. lia.
Qed.

(** A signature that is too short makes the verification panic while the
    vault's mutex is held: the attempt poisons the mutex, and every later
    operation on that vault fails, while the other vaults are untouched.  Anybody
    can do this to a multi-signature vault without a designated recipient. *)
Theorem short_signature_disables_vault (m : DLVManager) (id : string) (v : LimboVault) (keys : list bytes) (threshold : nat)
    (pk data sig who : bytes) (ref : State)
    (Hm : m !! id = Some (mkCell v false)) (Hs : v_state v = Limbo) (Hr : v_intended_recipient v = None)
    (Hc : v_condition v = MultiSignature keys threshold) (Hpk : pk ∈ keys) (Hl : length pk = CRYPTO_PUBLICKEYBYTES)
    (Hd : data ≠ []) (Hsig : (32 ≤ length sig < 64)%nat) :
  ∃ m', DLV.try_unlock_vault id (MultiSignatureProof (replicate (S threshold) (pk, sig)) data) who ref m = (Panic, m') ∧
    (∀ j, j ≠ id → m' !! j = m !! j) ∧
    (∀ A (f : M LimboVault A), DLV.with_vault id f m' = (Err (EInternal "Failed to acquire lock on vault"), m')).
Proof.
  exists (<[id := mkCell v true]> m). split_and!.
  - unfold DLV.try_unlock_vault, DLV.with_vault, DLV.get_vault. rewrite Hm. cbn [ok_or cell_poisoned cell_vault].
    unfold LV.unlock, LV.verify_fulfillment. rewrite Hs, Hr, Hc. cbn [negb LV.check_condition LV.verify_simple].
    rewrite length_replicate. replace (S threshold <? threshold)%nat with false by (symmetry; apply Nat.ltb_ge; lia).
    cbn [replicate LV.count_signatures]. rewrite bool_decide_eq_true_2 by done. cbn [negb].
    rewrite short_signature_panics by done. done.
  - intros j Hj. by rewrite lookup_insert_ne.
  - intros A f. unfold DLV.with_vault, DLV.get_vault. by rewrite lookup_insert_eq.
Qed.

End Facts.

(** ** Witnesses *)

Module VaultWitness.
Section VaultWitness.
#[local] Existing Instances Toy.toy_blake3 Toy.toy_runtime ToyHex.toy_hex ToyPed.toy_sha3 ToyPed.toy_prime ToyKem.toy_aead
  ToyKem.toy_kem768 ToyKem.toy_kem512 toy_bincode_operation ToySt.toy_bincode_balance ToySt.toy_bincode_precommitment.
#[local] Instance toy_condition : Bincode FulfillmentMechanism := fun _ => Some [].
#[local] Instance toy_proof : Bincode FulfillmentProof := fun _ => Some [].
#[local] Instance toy_pedersen : Bincode PedersenCommitment := fun c => Some (pc_commitment_hash c).
#[local] Instance toy_vault_enc : Bincode LimboVault := fun _ => Some [].

Definition pk : bytes := zeros 64.
Definition sk : bytes := zeros 128.
Definition keys : keypair pk sk.
Proof. exists (zeros 32), (zeros 32), (zeros 32), (zeros 32). split_and!; reflexivity. Defined.
Definition draws : VaultDraws := mkVaultDraws [Byte.x01] ToyPed.draws.
Definition recipient : bytes := zeros (public_key_size kem768).
Definition two_keys : FulfillmentMechanism := MultiSignature [pk; replicate 64 Byte.x01] 2.
Definition secret : FulfillmentMechanism := CryptoCondition (blake3 [Byte.x07]) [].
Definition either : FulfillmentMechanism := Or [StateReference [] []; And [secret; secret]].

Definition created : outcome LimboVault :=
  LV.new 4 draws pk sk either [Byte.x2a] "text" (Some recipient) ToySt.genesis.
Lemma created_ok : is_ok created = true.
Proof. vm_compute. reflexivity. Qed.
Definition or_default (o : outcome LimboVault) : LimboVault := match o with Ok v => v | _ => LV.default end.
Definition new_vault : LimboVault := or_default created.
Lemma vault_created : created = Ok new_vault.
Proof. unfold new_vault. pose proof created_ok as H. destruct created; [reflexivity|discriminate H..]. Qed.
#[local] Instance toy_vault_dec : Unbincode LimboVault := fun _ => Some new_vault.

Lemma vault_creation_witness :
  LV.verify new_vault = Ok true ∧ ∀ post, LV.to_vault_post new_vault "gift" None = Ok post → LV.from_vault_post post = Ok new_vault.
Proof.
  destruct (vault_creation 4 draws pk sk either [Byte.x2a] "text" (Some recipient) ToySt.genesis new_vault "gift" None
    keys vault_created (fun b _ => eq_refl)) as (H1 & _ & _ & H2).
  split; [exact H1|exact H2].
Defined.

(** A small vault in limbo. *)
Definition vault : LimboVault :=
  mkVault "v" 0 pk either (Some [Byte.x09]) Limbo "text" (mkEncrypted [] [] [] []) Ped.default [] [] [] [].

(** The secret given twice, under the disjunction. *)
Definition solved : FulfillmentProof :=
  CompoundProof [CompoundProof [CryptoConditionProof [Byte.x07] []; CryptoConditionProof [Byte.x07] []]].
Lemma solved_ok : LV.verify_fulfillment vault solved ToySt.genesis = Ok true.
Proof. vm_compute. reflexivity. Qed.

Lemma fulfillment_decides_witness : fulfilled ToySt.genesis (v_condition vault) solved.
Proof. exact (proj1 (fulfillment_decides vault solved ToySt.genesis true solved_ok) eq_refl). Defined.

Definition opened : LimboVault := LV.set_state (Unlocked 0 solved) vault.
Lemma opened_reached : rtc vault_step vault opened.
Proof.
  apply rtc_once. assert (opened = (LV.unlock solved [Byte.x09] ToySt.genesis vault).2) as -> by (vm_compute; reflexivity).
  constructor.
Qed.

Lemma vault_lifecycle_witness : attested vault (v_state opened) ∧ LV.verify opened = LV.verify vault.
Proof.
  destruct (vault_lifecycle vault opened eq_refl opened_reached) as (_ & H1 & H2). split; [exact H1|exact H2].
Defined.

Lemma claim_loses_content_witness : ∃ e v' pf,
  LV.claim recipient ToySt.genesis opened = (Err e, v') ∧ v_state v' = Claimed 0 recipient pf.
Proof.
  destruct (proj2 (claim_loses_content opened recipient ToySt.genesis) 0 solved eq_refl solved_ok ltac:(by eexists))
    as (e & v' & pf & H1 & H2 & _).
  exists e, v', pf. split; [exact H1|exact H2].
Defined.

Definition shared : LimboVault :=
  mkVault "v" 0 pk two_keys None Limbo "text" (mkEncrypted [] [] [] []) Ped.default [] [] [] [].

Lemma multisig_without_signers_witness : ∃ p, LV.verify_fulfillment shared p ToySt.genesis = Ok true.
Proof.
  eexists. refine (multisig_without_signers shared [pk; replicate 64 Byte.x01] 2 pk [Byte.x01] ToySt.genesis eq_refl _ eq_refl _).
  - apply list_elem_of_here.
  - discriminate.
Defined.

Lemma short_signature_disables_vault_witness : ∃ m',
  DLV.try_unlock_vault "v" (MultiSignatureProof (replicate 3 (pk, zeros 40)) [Byte.x01]) [] ToySt.genesis {["v"%string := mkCell shared false]} = (Panic, m') ∧
  DLV.with_vault "v" (LV.invalidate "lost" sk ToySt.genesis) m' = (Err (EInternal "Failed to acquire lock on vault"), m').
Proof.
  destruct (short_signature_disables_vault {["v"%string := mkCell shared false]} "v" shared [pk; replicate 64 Byte.x01] 2 pk [Byte.x01]
    (zeros 40) [] ToySt.genesis (lookup_singleton_eq _ _) eq_refl eq_refl eq_refl (list_elem_of_here _ _) eq_refl
    ltac:(discriminate) ltac:(vm_compute; lia)) as (m' & H1 & _ & H2).
  exists m'. split; [exact H1|apply H2].
Defined.

End VaultWitness.
End VaultWitness.
