(* ===== verification/Smart.v ===== *)
(** * Smart commitments ([commitments/smart_commitment.rs])

    Conditions and their evaluation, the constructors of commitments, their
    verification by a random walk and by a hash, the encrypted transport and the
    registry.  Escaping in the [Debug] form of strings is an interface. *)
From S2P Require Import Prelude Tokens Operations States RandomWalk Keys Hexa Kyber.
Import coqutil.Byte.

(** ** Data *)

Inductive CommitmentType :=
  | TimeLocked (unlock_time : Z)
  | Conditional (condition : string) (oracle_pubkey : bytes)
  | Recurring (period end_date : Z).

Inductive ThresholdOperator := GreaterThan | LessThan | Equal | GreaterThanOrEqual | LessThanOrEqual | NotEqual.

#[warnings="-register-all"]
Inductive CommitmentCondition :=
  | TimeAfter (time : Z)
  | TimeBefore (time : Z)
  | ValueThreshold (parameter_name : string) (threshold : Z) (operator : ThresholdOperator)
  | ExternalDataCommitment (expected_hash : bytes) (data_source : string)
  | MultiSignature (required_keys : list bytes) (threshold : nat)
  | And (conditions : list CommitmentCondition)
  | Or (conditions : list CommitmentCondition).

Record CommitmentContext := mkContext {
  cx_parameters : gmap string Z; cx_external_hashes : gmap string bytes; cx_signatures : gmap bytes bytes; cx_timestamp : Z;
}.

Record SmartCommitment := mkSmart {
  sc_id : string; sc_origin_state_hash : bytes; sc_conditions : CommitmentCondition; sc_operation : Operation;
  sc_verification_positions : list Position; sc_type : CommitmentType; sc_recipient : bytes; sc_amount : Z;
  sc_value : Z; sc_parameters : gmap string string; sc_signatures : list (bytes * bytes);
  sc_execution_time : option Z; sc_verification_hash : bytes;
}.

Record SmartCommitmentReference := mkRef { ref_commitment_id : string; ref_commitment_hash : bytes; ref_origin_state_hash : bytes }.
Abbreviation SmartCommitmentRegistry := (gmap string SmartCommitment).

(** The escaped and quoted form of a string in [{:?}]. *)
Class DebugStr := debug_str : string → string.

Module Cx.
Section Cx.
Context {RT : Runtime}.
Definition new : CommitmentContext := mkContext ∅ ∅ ∅ now.
Definition set_parameter (name : string) (v : Z) (c : CommitmentContext) : CommitmentContext :=
  mkContext (<[name := v]> (cx_parameters c)) (cx_external_hashes c) (cx_signatures c) (cx_timestamp c).
Definition set_external_hash (source : string) (h : bytes) (c : CommitmentContext) : CommitmentContext :=
  mkContext (cx_parameters c) (<[source := h]> (cx_external_hashes c)) (cx_signatures c) (cx_timestamp c).
Definition add_signature (pk sig : bytes) (c : CommitmentContext) : CommitmentContext :=
  mkContext (cx_parameters c) (cx_external_hashes c) (<[pk := sig]> (cx_signatures c)) (cx_timestamp c).
Definition set_timestamp (t : Z) (c : CommitmentContext) : CommitmentContext :=
  mkContext (cx_parameters c) (cx_external_hashes c) (cx_signatures c) t.
End Cx.
End Cx.

Module SC.
Section SC.
Context {B3 : Blake3} {RT : Runtime} {HX : Hex} {DS : DebugStr} {AE : Aead} {K768 : Mlkem kem768}
  {SO : Bincode Operation} {SB : Bincode Balance} {SP : Bincode PreCommitment}
  {SS : Bincode SmartCommitment} {US : Unbincode SmartCommitment}.

(** ** Evaluation *)

Definition compare_threshold (op : ThresholdOperator) (value threshold : Z) : bool :=
  match op with
  | GreaterThan => threshold <? value
  | LessThan => value <? threshold
  | Equal => value =? threshold
  | GreaterThanOrEqual => threshold <=? value
  | LessThanOrEqual => value <=? threshold
  | NotEqual => negb (value =? threshold)
  end.

(** The loop that counts the required keys with an entry in the context. *)
Definition count_keys (signatures : gmap bytes bytes) (keys : list bytes) : nat :=
  foldl (fun n key => if bool_decide (is_Some (signatures !! key)) then S n else n) 0%nat keys.

Fixpoint evaluate_condition (c : CommitmentCondition) (context : CommitmentContext) : bool :=
  match c with
  | TimeAfter time => time <=? cx_timestamp context
  | TimeBefore time => cx_timestamp context <? time
  | ValueThreshold name threshold operator =>
      match cx_parameters context !! name with
      | Some value => compare_threshold operator value threshold
      | None => false
      end
  | ExternalDataCommitment expected source =>
      match cx_external_hashes context !! source with
      | Some h => bool_decide (h = expected)
      | None => false
      end
  | MultiSignature keys threshold => (threshold <=? count_keys (cx_signatures context) keys)%nat
  | And cs => forallb (fun c => evaluate_condition c context) cs
  | Or cs => existsb (fun c => evaluate_condition c context) cs
  end.

Definition evaluate (c : SmartCommitment) (context : CommitmentContext) : bool :=
  evaluate_condition (sc_conditions c) context.

Definition evaluate_fixed (c : SmartCommitment) (context : CommitmentContext) (test_mode : bool) : bool :=
  match sc_conditions c with
  | TimeAfter time => if test_mode then true else time <=? cx_timestamp context
  | ValueThreshold name threshold operator =>
      match cx_parameters context !! name with
      | Some value => compare_threshold operator value threshold
      | None => false
      end
  | _ => evaluate c context
  end.

(** ** The type of a commitment *)

(** The loop over the parts of a compound condition. *)
Definition latest_time (cs : list CommitmentCondition) : bool * Z :=
  foldl (fun acc c => match c with TimeAfter t => (true, Z.max acc.2 t) | _ => acc end) (false, 0) cs.

Definition compound_type (cs : list CommitmentCondition) : CommitmentType :=
  let '(has_time_after, latest) := latest_time cs in
  if has_time_after : bool then TimeLocked latest else Conditional "compound" [].

Definition operator_text (op : ThresholdOperator) : string :=
  match op with
  | GreaterThan => "GreaterThan" | LessThan => "LessThan" | Equal => "Equal"
  | GreaterThanOrEqual => "GreaterThanOrEqual" | LessThanOrEqual => "LessThanOrEqual" | NotEqual => "NotEqual"
  end.

Definition type_of (c : CommitmentCondition) : CommitmentType :=
  match c with
  | TimeAfter t => TimeLocked t
  | TimeBefore t => Conditional ("time_before_" +:+ pretty t) []
  | ValueThreshold name threshold op => Conditional ("threshold_" +:+ name +:+ "_" +:+ operator_text op +:+ "_" +:+ pretty threshold) []
  | ExternalDataCommitment expected source => Conditional source expected
  | MultiSignature keys threshold => Conditional ("multi_sig_threshold_" +:+ pretty threshold) (unwrap_or [] (head keys))
  | And cs | Or cs => compound_type cs
  end.

Definition determine_compound_type (c : CommitmentCondition) : CommitmentType :=
  match c with
  | TimeAfter t => TimeLocked t
  | TimeBefore _ => Conditional "time_before" []
  | And cs | Or cs => compound_type cs
  | _ => Conditional "complex" []
  end.

(** ** Bytes and positions *)

Definition to_bytes (c : SmartCommitment) : bytes :=
  str_bytes (sc_id c) ++ sc_origin_state_hash c ++ Walk.op_to_bytes (sc_operation c).

Definition set_positions (ps : list Position) (c : SmartCommitment) : SmartCommitment :=
  mkSmart (sc_id c) (sc_origin_state_hash c) (sc_conditions c) (sc_operation c) ps (sc_type c) (sc_recipient c) (sc_amount c)
    (sc_value c) (sc_parameters c) (sc_signatures c) (sc_execution_time c) (sc_verification_hash c).

Definition walk_seed (c : SmartCommitment) (origin : State) : bytes :=
  Walk.generate_seed (blake3 (to_bytes c)) (entropy origin) None.

Definition generate_verification_positions (origin : State) (c : SmartCommitment) : outcome SmartCommitment :=
  ps ← Walk.generate_positions (walk_seed c origin) None; Ok (set_positions ps c).

Definition generate_verification_positions_fixed (origin : State) (c : SmartCommitment) : outcome SmartCommitment :=
  ps ← Walk.generate_positions (walk_seed c origin) None; Ok (set_positions ps c).

(** ** Construction *)

Definition extract_recipient_and_amount (op : Operation) : outcome (bytes * Z) :=
  match op with
  | Transfer _ amount _ _ _ _ _ recipient _ _ =>
      r ← ok_or (EValidation "Invalid recipient hex: {}") (hex_decode recipient);
      Ok (r, bal_value amount)
  | _ => Ok ([], 0)
  end.

(** A commitment with the fields that every constructor leaves empty. *)
Definition blank (id : string) (origin : bytes) (c : CommitmentCondition) (op : Operation) (ty : CommitmentType)
    (recipient : bytes) (amount : Z) : SmartCommitment :=
  mkSmart id origin c op [] ty recipient amount 0 ∅ [] None [].

Definition new (id : string) (origin : State) (c : CommitmentCondition) (op : Operation) : outcome SmartCommitment :=
  origin_hash ← St.get_hash origin;
  '(recipient, amount) ← extract_recipient_and_amount op;
  generate_verification_positions origin (blank id origin_hash c op (type_of c) recipient amount).

Definition transfer_op (recipient : bytes) (amount : Z) (message : string) : Operation :=
  Transfer "" (Bal.new amount) "" Bilateral [] VT_Standard None (hex_encode recipient) "" message.

(** The hash of state, recipient, amount and time is computed and dropped. *)
Definition new_time_locked_fixed (state : State) (recipient : bytes) (amount unlock_time : Z) : outcome SmartCommitment :=
  generate_verification_positions state
    (blank ("time_lock_" +:+ pretty unlock_time) (hash state) (TimeAfter unlock_time)
       (transfer_op recipient amount ("Time-locked transfer of " +:+ pretty amount +:+ " releasing at state " +:+ pretty unlock_time))
       (TimeLocked unlock_time) recipient amount).

Definition new_conditional (state : State) (recipient : bytes) (amount : Z) (condition : string) (oracle_pubkey : bytes)
    : outcome SmartCommitment :=
  Ok (blank ("conditional_" +:+ hex_encode (blake3 (str_bytes condition))) (hash state)
        (ValueThreshold condition 1 Equal) (transfer_op recipient amount "") (Conditional condition oracle_pubkey) recipient amount).

Definition new_recurring (state : State) (recipient : bytes) (amount period end_date : Z) : outcome SmartCommitment :=
  let h := blake3 (hash state ++ recipient ++ u64_le amount ++ str_bytes "every") in
  Ok (blank ("recurring_" +:+ hex_encode (take 8 h)) (hash state) (TimeAfter 0) (transfer_op recipient amount "")
        (Recurring period end_date) recipient amount).

(** The derived [Debug] form of a condition. *)
Definition debug_bytes (b : bytes) : string :=
  "[" +:+ String.concat ", " (map (fun x => pretty (byte.unsigned x)) b) +:+ "]".
Fixpoint debug_condition (c : CommitmentCondition) : string :=
  match c with
  | TimeAfter t => "TimeAfter(" +:+ pretty t +:+ ")"
  | TimeBefore t => "TimeBefore(" +:+ pretty t +:+ ")"
  | ValueThreshold name threshold op => "ValueThreshold { parameter_name: " +:+ debug_str name +:+ ", threshold: "
      +:+ pretty threshold +:+ ", operator: " +:+ operator_text op +:+ " }"
  | ExternalDataCommitment expected source => "ExternalDataCommitment { expected_hash: " +:+ debug_bytes expected
      +:+ ", data_source: " +:+ debug_str source +:+ " }"
  | MultiSignature keys threshold => "MultiSignature { required_keys: [" +:+ String.concat ", " (map debug_bytes keys)
      +:+ "], threshold: " +:+ pretty threshold +:+ " }"
  | And cs => "And([" +:+ String.concat ", " (map debug_condition cs) +:+ "])"
  | Or cs => "Or([" +:+ String.concat ", " (map debug_condition cs) +:+ "])"
  end.

Definition compound_hash (state : State) (recipient : bytes) (amount : Z) (tag : string) (cs : list CommitmentCondition) : bytes :=
  blake3 (hash state ++ recipient ++ u64_le amount ++ str_bytes tag ++ mjoin (map (fun c => str_bytes (debug_condition c)) cs)).

Definition new_compound (state : State) (recipient : bytes) (amount : Z) (cs : list CommitmentCondition) (name : string)
    : outcome SmartCommitment :=
  match cs with
  | [] => Err (EValidation "Compound commitment requires at least one condition")
  | _ =>
      let h := compound_hash state recipient amount "compound" cs in
      let condition := match cs with [c] => c | _ => And cs end in
      generate_verification_positions state
        (blank (name +:+ "_compound_" +:+ hex_encode (take 8 h)) (hash state) condition (transfer_op recipient amount "")
           (determine_compound_type condition) recipient amount)
  end.

Definition new_compound_or (state : State) (recipient : bytes) (amount : Z) (cs : list CommitmentCondition) (name : string)
    : outcome SmartCommitment :=
  match cs with
  | [] => Err (EValidation "Compound commitment requires at least one condition")
  | _ =>
      let h := compound_hash state recipient amount "compound_or" cs in
      let condition := match cs with [c] => c | _ => Or cs end in
      generate_verification_positions state
        (blank (name +:+ "_or_compound_" +:+ hex_encode (take 8 h)) (hash state) condition (transfer_op recipient amount "")
           (determine_compound_type condition) recipient amount)
  end.

(** ** Verification *)

Definition verify_against_state (c : SmartCommitment) (origin : State) : outcome bool :=
  expected ← Walk.generate_positions (walk_seed c origin) None;
  Ok (Walk.verify_positions expected (sc_verification_positions c)).

Definition type_bytes (ty : CommitmentType) : bytes :=
  match ty with
  | TimeLocked t => str_bytes "after" ++ u64_le t
  | Conditional condition oracle => str_bytes "if" ++ str_bytes condition ++ oracle
  | Recurring period end_date => str_bytes "every" ++ u64_le period ++ u64_le end_date
  end.

Definition verify (c : SmartCommitment) (state : State) : outcome bool :=
  Ok (bool_decide (blake3 (hash state ++ sc_recipient c ++ u64_le (sc_amount c) ++ type_bytes (sc_type c)) = blake3 (to_bytes c))).

Definition verify_fixed (c : SmartCommitment) (state : State) : outcome bool :=
  ok ← verify c state;
  if negb ok then Ok false else
  match sc_type c with
  | TimeLocked unlock_time =>
      bound ← u64_add (state_number state) 10000;
      Ok (negb (bound <? unlock_time))
  | _ => Ok true
  end.

(** The clock is past the epoch.  [now % period] panics for a period of zero; [&&] skips it after the end. *)
Definition is_executable (c : SmartCommitment) (oracle_signature : option bytes) : outcome bool :=
  match sc_type c with
  | TimeLocked unlock_time => Ok (unlock_time <=? now)
  | Conditional _ _ => Ok (match oracle_signature with Some _ => true | None => false end)
  | Recurring period end_date =>
      if now <=? end_date then if period =? 0 then Panic else Ok (now mod period =? 0) else Ok false
  end.

(** ** Transport *)

Definition map_crypto {A} (msg : string) (o : outcome A) : outcome A :=
  match o with Err _ => Err (ECrypto msg) | o => o end.

(** [r] and [nonce] are drawn; [kyber_encapsulate] returns the shared secret
    first, and the caller calls it the ciphertext. *)
Definition encrypt_for_recipient (r nonce : bytes) (c : SmartCommitment) (recipient_pubkey : bytes) : outcome (bytes * bytes) :=
  commitment_bytes ← serialize_or "Failed to serialize commitment" c;
  let commitment_hash := blake3 commitment_bytes in
  '(ciphertext, shared_secret) ← map_crypto "Post-quantum key encapsulation failed: {}" (Kyber.kyber_encapsulate r recipient_pubkey);
  encrypted ← map_crypto "Commitment encryption failed: {}" (Kyber.aes_encrypt shared_secret nonce (commitment_hash ++ commitment_bytes));
  Ok (ciphertext, encrypted).

Definition decrypt_from_sender (recipient_secret ciphertext encrypted_data : bytes) : outcome SmartCommitment :=
  shared_secret ← map_crypto "Post-quantum key decapsulation failed: {}" (Kyber.kyber_decapsulate recipient_secret ciphertext);
  payload ← map_crypto "Commitment decryption failed: {}" (Kyber.aes_decrypt shared_secret (zeros 12) encrypted_data);
  if (length payload <=? 32)%nat then Err (EValidation "Decrypted data too short - invalid format") else
  let received_hash := take 32 payload in
  let commitment_bytes := drop 32 payload in
  c ← ok_or (ESerialization "Failed to deserialize commitment") (deserialize commitment_bytes);
  if negb (constant_time_eq received_hash (blake3 commitment_bytes))
  then Err (EValidation "Commitment hash verification failed - data integrity compromised")
  else Ok c.

Definition with_value (v : Z) (c : SmartCommitment) : SmartCommitment :=
  mkSmart (sc_id c) (sc_origin_state_hash c) (sc_conditions c) (sc_operation c) (sc_verification_positions c) (sc_type c)
    (sc_recipient c) (sc_amount c) v (sc_parameters c) (sc_signatures c) (sc_execution_time c) (sc_verification_hash c).
Definition verify_amount (c : SmartCommitment) (amount : Z) : bool := sc_value c =? amount.

(** ** The registry *)

Definition registry_new : SmartCommitmentRegistry := ∅.

Definition register_commitment (c : SmartCommitment) : M SmartCommitmentRegistry SmartCommitmentReference := fun m =>
  if bool_decide (is_Some (m !! sc_id c)) then (Err (EValidation "Commitment with id {} already exists"), m)
  else (Ok (mkRef (sc_id c) (blake3 (to_bytes c)) (sc_origin_state_hash c)), <[sc_id c := c]> m).

Definition get_commitment (m : SmartCommitmentRegistry) (id : string) : option SmartCommitment := m !! id.

Definition evaluate_commitment (m : SmartCommitmentRegistry) (id : string) (context : CommitmentContext) : outcome bool :=
  c ← ok_or (EValidation "Commitment with id {} not found") (get_commitment m id);
  Ok (evaluate c context).

Definition remove_commitment (id : string) : M SmartCommitmentRegistry unit := fun m =>
  match m !! id with
  | None => (Err (EValidation "Commitment with id {} not found"), m)
  | Some _ => (Ok tt, delete id m)
  end.

End SC.
End SC.

(** ** Properties *)

Lemma smart_condition_ind (P : CommitmentCondition → Prop)
    (HS : ∀ c, match c with And _ | Or _ => False | _ => True end → P c)
    (HA : ∀ cs, Forall P cs → P (And cs)) (HO : ∀ cs, Forall P cs → P (Or cs)) : ∀ c, P c.
Proof.
  fix go 1. intros c. destruct c as [| | | | |cs|cs]; try (by apply HS).
  - apply HA. induction cs as [|c cs IH]; constructor; [apply go|exact IH].
  - apply HO. induction cs as [|c cs IH]; constructor; [apply go|exact IH].
Qed.

(** Conditions without a deadline. *)
Fixpoint no_deadline (c : CommitmentCondition) : bool :=
  match c with
  | TimeBefore _ => false
  | And cs | Or cs => forallb no_deadline cs
  | _ => true
  end.

(** A later context: more time, parameters, data and signatures. *)
Definition later (x y : CommitmentContext) : Prop :=
  cx_parameters x ⊆ cx_parameters y ∧ cx_external_hashes x ⊆ cx_external_hashes y ∧
  dom (cx_signatures x) ⊆ dom (cx_signatures y) ∧ cx_timestamp x ≤ cx_timestamp y.

Lemma count_keys_mono (s t : gmap bytes bytes) keys m n : dom s ⊆ dom t → (m ≤ n)%nat →
  (foldl (fun n key => if bool_decide (is_Some (s !! key)) then S n else n) m keys ≤
   foldl (fun n key => if bool_decide (is_Some (t !! key)) then S n else n) n keys)%nat.
Proof.
  intros Hd. revert m n. induction keys as [|k keys IH]; intros m n Hmn; [done|]. cbn [foldl]. apply IH.
  destruct (bool_decide (is_Some (s !! k))) eqn:Es.
  - apply bool_decide_eq_true in Es. apply elem_of_dom in Es. apply Hd, elem_of_dom in Es.
    rewrite bool_decide_eq_true_2 by done. lia.
  - destruct (bool_decide (is_Some (t !! k))); lia.
Qed.

(** Without deadlines, evaluation is monotone: a condition that holds keeps
    holding as time passes and as parameters, external data and signatures are
    added, through any nesting of conjunctions and disjunctions. *)
Theorem evaluation_monotone (c : CommitmentCondition) (x y : CommitmentContext) :
  no_deadline c = true → later x y → SC.evaluate_condition c x = true → SC.evaluate_condition c y = true.
Proof.
  intros Hc (Hp & He & Hs & Ht). revert Hc. induction c as [c Hc|cs IH|cs IH] using smart_condition_ind; intros Hd Hx.
  - destruct c; try done; cbn [SC.evaluate_condition] in *.
    + zbool. apply Z.leb_le. lia.
    + destruct (cx_parameters x !! parameter_name) as [v|] eqn:E; [|done]. by rewrite (lookup_weaken _ _ _ _ E Hp).
    + destruct (cx_external_hashes x !! data_source) as [v|] eqn:E; [|done]. by rewrite (lookup_weaken _ _ _ _ E He).
    + apply Nat.leb_le in Hx. apply Nat.leb_le. unfold SC.count_keys in *.
      pose proof (count_keys_mono (cx_signatures x) (cx_signatures y) required_keys 0 0 Hs ltac:(lia)). lia.
  - cbn [SC.evaluate_condition no_deadline] in *. rewrite forallb_forall in *. rewrite Forall_forall in IH.
    intros c Hin. apply IH; [by apply list_elem_of_In|by apply Hd|by apply Hx].
  - cbn [SC.evaluate_condition no_deadline] in *. rewrite existsb_exists in *. rewrite forallb_forall in Hd. rewrite Forall_forall in IH.
    destruct Hx as (c & Hin & Hx). exists c. split; [done|]. apply IH; [by apply list_elem_of_In|by apply Hd|done].
Qed.

Section Facts.
Context {B3 : Blake3} {RT : Runtime} {HX : Hex} {DS : DebugStr} {AE : Aead} {K768 : Mlkem kem768}
  {SO : Bincode Operation} {SB : Bincode Balance} {SP : Bincode PreCommitment}
  {SS : Bincode SmartCommitment} {US : Unbincode SmartCommitment}.

(** *** Executability *)

Lemma latest_time_acc cs b m :
  let r := foldl (fun acc c => match c with TimeAfter t => (true, Z.max acc.2 t) | _ => acc end) (b, m) cs in
  m ≤ r.2 ∧ (∀ t, TimeAfter t ∈ cs → t ≤ r.2) ∧ (r.1 = true → b = true ∨ ∃ t, TimeAfter t ∈ cs) ∧
  (r.2 = m ∨ TimeAfter r.2 ∈ cs).
Proof.
  revert b m. induction cs as [|c cs IH]; intros b m; cbn [foldl snd].
  { cbn. split_and!; [lia|by intros ? ?%elem_of_nil|by left|by left]. }
  assert ((∃ t, c = TimeAfter t) ∨ match c with TimeAfter t => (true, Z.max m t) | _ => (b, m) end = (b, m) ∧ ∀ t, TimeAfter t ≠ c)
    as [[t ->]|[-> Hn]] by (destruct c; eauto).
  - destruct (IH true (Z.max m t)) as (H1 & H2 & H3 & H4). cbn [snd]. set (r := foldl _ _ cs) in *.
    split_and!; [lia| | |].
    + intros t0 [[= ->]|?]%elem_of_cons; [lia|by apply H2].
    + intros _. right. exists t. apply list_elem_of_here.
    + destruct H4 as [H4|H4]; [|right; by apply list_elem_of_further].
      destruct (Z.max_spec m t) as [[_ Hx]|[_ Hx]]; rewrite Hx in H4; [|by left].
      right. rewrite H4. apply list_elem_of_here.
  - destruct (IH b m) as (H1 & H2 & H3 & H4). cbn [snd]. set (r := foldl _ _ cs) in *. split_and!; [done| | |].
    + intros t0 [Heq|?]%elem_of_cons; [by destruct (Hn t0)|by apply H2].
    + intros Hr. destruct (H3 Hr) as [?|[t ?]]; [by left|]. right. exists t. by apply list_elem_of_further.
    + destruct H4; [by left|right; by apply list_elem_of_further].
Qed.

Lemma compound_type_time cs t : SC.compound_type cs = TimeLocked t →
  (∃ t0, TimeAfter t0 ∈ cs ∧ t0 ≤ t) ∧ (∀ t0, TimeAfter t0 ∈ cs → t0 ≤ t) ∧ (t = 0 ∨ TimeAfter t ∈ cs).
Proof.
  unfold SC.compound_type, SC.latest_time. pose proof (latest_time_acc cs false 0) as (_ & H2 & H3 & H4).
  destruct (foldl _ (false, 0) cs) as [b m]. cbn [fst snd] in *. destruct b; [|done]. intros [= <-].
  destruct (H3 eq_refl) as [?|[t0 Ht0]]; [done|]. split_and!; [|done|done]. exists t0. split; [done|by apply H2].
Qed.

(** How the type of a compound commitment, which decides whether it may be
    executed, relates to its conditions at the time of the clock.  When one of the
    parts is a time lock, execution waits for the latest of them and looks at
    nothing else: for a conjunction that is necessary but not sufficient, for a
    disjunction sufficient but not necessary. *)
Theorem compound_executability (cs : list CommitmentCondition) (t : Z) (x : CommitmentContext) (c : SmartCommitment)
    (signature : option bytes) (Hnow : 0 ≤ now) (Hx : cx_timestamp x = now)
    (Ht : SC.determine_compound_type (And cs) = TimeLocked t) (Hc : sc_type c = TimeLocked t) :
  SC.determine_compound_type (Or cs) = TimeLocked t ∧
  SC.is_executable c signature = Ok (t <=? now) ∧
  (SC.evaluate_condition (And cs) x = true → SC.is_executable c signature = Ok true) ∧
  (SC.is_executable c signature = Ok true → SC.evaluate_condition (Or cs) x = true).
Proof.
  cbn [SC.determine_compound_type] in *. destruct (compound_type_time cs t Ht) as ((t0 & Hin & Hle) & _ & Hmax).
  unfold SC.is_executable. rewrite Hc. split_and!; [done|done| |].
  - cbn [SC.evaluate_condition]. rewrite forallb_forall. intros Hall. f_equal. apply Z.leb_le.
    destruct Hmax as [->|Hm]; [done|]. apply list_elem_of_In in Hm. apply Hall in Hm. cbn in Hm. zbool. lia.
  - intros H. apply Ok_inj in H. zbool. cbn [SC.evaluate_condition]. apply existsb_exists. exists (TimeAfter t0).
    split; [by apply list_elem_of_In|]. cbn. apply Z.leb_le. lia.
Qed.

(** *** Verification *)

Lemma verify_positions_refl ps : Walk.verify_positions ps ps = true.
Proof. by apply verify_positions_eq. Qed.

(** What the random walk and the registered hash cover. *)
Definition same_covered (c c' : SmartCommitment) : Prop :=
  sc_id c = sc_id c' ∧ sc_origin_state_hash c = sc_origin_state_hash c' ∧ sc_operation c = sc_operation c' ∧
  sc_verification_positions c = sc_verification_positions c'.

(** A commitment made by [new] verifies against its origin state, and so
    does every other commitment with the same id, origin, operation and walk:
    conditions, type, recipient and amount are not covered, neither by the walk
    nor by the hash under which the registry refers to the commitment. *)
Theorem walk_ignores_conditions (id : string) (origin : State) (cond : CommitmentCondition) (op : Operation) (c c' : SmartCommitment)
    (Hc : SC.new id origin cond op = Ok c) (Hs : same_covered c c') :
  SC.verify_against_state c origin = Ok true ∧ SC.verify_against_state c' origin = Ok true ∧
  blake3 (SC.to_bytes c') = blake3 (SC.to_bytes c).
Proof.
  unfold SC.new, SC.generate_verification_positions in Hc.
  apply bind_Ok in Hc as (h & _ & ([r a] & _ & (ps & Hps & Hc)%bind_Ok)%bind_Ok). apply Ok_inj in Hc.
  assert (SC.walk_seed c origin = SC.walk_seed (SC.blank id h cond op (SC.type_of cond) r a) origin) as Hw by (by subst).
  assert (SC.to_bytes c' = SC.to_bytes c) as Hb.
  { destruct Hs as (H1 & H2 & H3 & _). unfold SC.to_bytes. by rewrite H1, H2, H3. }
  unfold SC.verify_against_state. assert (SC.walk_seed c' origin = SC.walk_seed c origin) as -> by (unfold SC.walk_seed; by rewrite Hb).
  rewrite Hw, Hps. cbn [mbind outcome_bind]. destruct Hs as (_ & _ & _ & <-).
  split_and!; [subst c; cbn [SC.set_positions sc_verification_positions]; by rewrite verify_positions_refl..|]. by rewrite Hb.
Qed.

(** The hash verification compares the digests of two different encodings:
    what it accepts is a commitment whose bytes are those of state, recipient,
    amount and type, or one with the same digest as these.  In particular a time-locked
    commitment, whose bytes begin with the letter t, is refused for every state
    whose hash begins with another byte. *)
Theorem hash_verification_refuses (state state' : State) (recipient : bytes) (amount unlock_time : Z) (c : SmartCommitment) (b : u8) (h : bytes)
    (Hc : SC.new_time_locked_fixed state recipient amount unlock_time = Ok c)
    (Hh : hash state' = b :: h) (Hb : b ≠ Byte.x74) :
  SC.verify c state' = Ok false ∨
  collision blake3 [hash state' ++ sc_recipient c ++ u64_le (sc_amount c) ++ SC.type_bytes (sc_type c); SC.to_bytes c].
Proof.
  unfold SC.new_time_locked_fixed, SC.generate_verification_positions in Hc.
  apply bind_Ok in Hc as (ps & _ & Hc). apply Ok_inj in Hc. unfold SC.verify. rewrite Hh.
  case_bool_decide as He; [right|by left]. apply hash_bind in He as [Heq|?]; [exfalso|done]. revert Heq.
  subst c. unfold SC.to_bytes, SC.set_positions, SC.blank. cbn [sc_id sc_recipient sc_amount sc_type sc_origin_state_hash sc_operation].
  intros Heq. apply (f_equal head) in Heq. cbn in Heq. injection Heq as Heq. done.
Qed.

(** *** Transport *)

(** The encrypted transport never delivers: what the sender returns as KEM
    ciphertext is the shared secret itself, sent in the clear, and the data is
    encrypted under the ciphertext; whatever secret key the recipient uses, the
    32 bytes are refused as a ciphertext. *)
Theorem transport_never_delivers (r nonce pk sk ct enc : bytes) (c : SmartCommitment)
    (He : SC.encrypt_for_recipient r nonce c pk = Ok (ct, enc)) :
  ct = (kem_encapsulate r pk).1 ∧ is_ok (SC.decrypt_from_sender sk ct enc) = false.
Proof.
  unfold SC.encrypt_for_recipient in He. apply bind_Ok in He as (b & _ & ([ct' ss] & Hk & (e & _ & He)%bind_Ok)%bind_Ok).
  apply Ok_inj in He. injection He as <- <-.
  assert (ct' = (kem_encapsulate r pk).1) as Hct.
  { unfold SC.map_crypto, Kyber.kyber_encapsulate in Hk.
    destruct (Nat.eqb_spec (length pk) (public_key_size kem768)) as [Hl|]; [|done]. cbn [negb] in Hk.
    rewrite (sized_ok _ _ Hl) in Hk. cbn [ok_or mbind outcome_bind] in Hk.
    destruct (kem_encapsulate r pk) as [s t]. destruct (_ || _); [done|]. apply Ok_inj in Hk. by injection Hk as -> ->. }
  split; [done|]. unfold SC.decrypt_from_sender, Kyber.kyber_decapsulate.
  assert ((length ct' =? ciphertext_size kem768)%nat = false) as Hl.
  { rewrite Hct, kem_ss_length. vm_compute. reflexivity. }
  rewrite Hl. by destruct (length sk =? secret_key_size kem768)%nat.
Qed.

(** *** The registry *)

(** The registry is a map that never overwrites: a registered commitment
    is found under its id and evaluated with its own conditions, a second one
    with the same id is refused and changes nothing, removal makes the id free
    again, and the other entries are untouched by all of this. *)
Theorem registry_roundtrip (m : SmartCommitmentRegistry) (c c' : SmartCommitment) (x : CommitmentContext)
    (Hfree : m !! sc_id c = None) (Hid : sc_id c' = sc_id c) :
  ∃ r m', SC.register_commitment c m = (Ok r, m') ∧ ref_commitment_id r = sc_id c ∧
    SC.evaluate_commitment m' (sc_id c) x = Ok (SC.evaluate c x) ∧
    SC.register_commitment c' m' = (Err (EValidation "Commitment with id {} already exists"), m') ∧
    SC.remove_commitment (sc_id c) m' = (Ok tt, m) ∧
    (∀ id, id ≠ sc_id c → SC.get_commitment m' id = SC.get_commitment m id).
Proof.
  unfold SC.register_commitment. rewrite Hfree, bool_decide_eq_false_2 by (by intros [? ?]).
  eexists _, _. split; [done|]. unfold SC.evaluate_commitment, SC.get_commitment, SC.remove_commitment.
  rewrite Hid, lookup_insert_eq, bool_decide_eq_true_2 by done. split_and!; try done.
  - f_equal. by rewrite delete_insert_id.
  - intros id Hne. by rewrite lookup_insert_ne.
Qed.

End Facts.

(** ** Witnesses *)

Module SmartWitness.
Section SmartWitness.
#[local] Existing Instances Toy.toy_blake3 Toy.toy_runtime ToyHex.toy_hex ToyKem.toy_aead ToyKem.toy_kem768
  toy_bincode_operation ToySt.toy_bincode_balance ToySt.toy_bincode_precommitment.
#[local] Instance toy_smart : Bincode SmartCommitment := fun c => Some (str_bytes (sc_id c)).
#[local] Instance toy_unsmart : Unbincode SmartCommitment := fun _ => None.
#[local] Instance toy_debug : DebugStr := fun s => s.

Definition parts : list CommitmentCondition :=
  [TimeAfter 100; ValueThreshold "price" 5 GreaterThan; TimeAfter 50].
Definition cx : CommitmentContext := Cx.set_parameter "price" 7 Cx.new.
Definition op : Operation := SC.transfer_op [Byte.x01] 3 "".
Definition or_default (o : outcome SmartCommitment) : SmartCommitment :=
  match o with Ok c => c | _ => SC.blank "" [] (And []) op (TimeLocked 100) [] 0 end.

Lemma evaluation_monotone_witness :
  SC.evaluate_condition (And parts) (Cx.set_timestamp (now + 10) cx) = true.
Proof.
  apply (evaluation_monotone (And parts) cx); [reflexivity| |vm_compute; reflexivity].
  split_and!; [reflexivity|reflexivity|reflexivity|]. cbn. lia.
Defined.

Lemma compound_executability_witness :
  SC.is_executable (SC.blank "c" [] (Or parts) op (TimeLocked 100) [] 0) None = Ok true ∧
  SC.evaluate_condition (Or parts) cx = true.
Proof.
  assert (0 ≤ now) as Hnow by (vm_compute; discriminate).
  destruct (compound_executability parts 100 cx (SC.blank "c" [] (Or parts) op (TimeLocked 100) [] 0) None
    Hnow eq_refl eq_refl eq_refl) as (_ & H1 & _ & H2).
  split; [exact H1|exact (H2 H1)].
Defined.

Definition made : SmartCommitment := or_default (SC.new "c" ToySt.genesis (And parts) op).
Lemma made_ok : SC.new "c" ToySt.genesis (And parts) op = Ok made.
Proof. vm_compute. reflexivity. Qed.
(** The same commitment with other conditions, type, recipient and amount. *)
Definition alter (c : SmartCommitment) : SmartCommitment :=
  mkSmart (sc_id c) (sc_origin_state_hash c) (And []) (sc_operation c) (sc_verification_positions c)
    (TimeLocked 0) [] 1000 0 ∅ [] None [].
Lemma alter_covered c : same_covered c (alter c).
Proof. split_and!; reflexivity. Qed.

Lemma walk_ignores_conditions_witness : SC.verify_against_state (alter made) ToySt.genesis = Ok true.
Proof.
  exact (proj1 (proj2 (walk_ignores_conditions "c" ToySt.genesis (And parts) op made (alter made) made_ok (alter_covered made)))).
Defined.

Definition locked : SmartCommitment := or_default (SC.new_time_locked_fixed ToySt.genesis [Byte.x01] 3 100).
Lemma locked_ok : SC.new_time_locked_fixed ToySt.genesis [Byte.x01] 3 100 = Ok locked.
Proof. vm_compute. reflexivity. Qed.

Lemma hash_verification_refuses_witness :
  SC.verify locked (St.set_hash (zeros 32) ToySt.genesis) = Ok false.
Proof.
  destruct (hash_verification_refuses ToySt.genesis (St.set_hash (zeros 32) ToySt.genesis) [Byte.x01] 3 100 locked Byte.x00 (zeros 31) locked_ok eq_refl
    ltac:(discriminate)) as [H|Hc]; [exact H|exfalso].
  revert Hc. apply (bool_decide_unpack (¬ collision blake3 _)). vm_compute. exact I.
Defined.

Definition sent : bytes * bytes :=
  match SC.encrypt_for_recipient [Byte.x05] (zeros 12) made (zeros (public_key_size kem768)) with Ok e => e | _ => ([], []) end.
Lemma sent_ok : SC.encrypt_for_recipient [Byte.x05] (zeros 12) made (zeros (public_key_size kem768)) = Ok sent.
Proof. vm_compute. reflexivity. Qed.

Lemma transport_never_delivers_witness :
  sent.1 = (kem_encapsulate [Byte.x05] (zeros (public_key_size kem768))).1.
Proof.
  exact (proj1 (transport_never_delivers [Byte.x05] (zeros 12) (zeros (public_key_size kem768)) [] sent.1 sent.2 made sent_ok)).
Defined.

Lemma registry_roundtrip_witness : ∃ r m', SC.register_commitment (SC.blank "c" [] (Or parts) op (TimeLocked 100) [] 0) ∅ = (Ok r, m') ∧
  SC.evaluate_commitment m' "c" cx = Ok (SC.evaluate (SC.blank "c" [] (Or parts) op (TimeLocked 100) [] 0) cx).
Proof.
  destruct (registry_roundtrip ∅ (SC.blank "c" [] (Or parts) op (TimeLocked 100) [] 0) (SC.blank "c" [] (Or parts) op (TimeLocked 100) [] 0) cx (lookup_empty _) eq_refl) as (r & m' & H1 & _ & H2 & _).
  exists r, m'. split; [exact H1|exact H2].
Defined.

End SmartWitness.
End SmartWitness.
