(* ===== verification/Staking.v ===== *)
(** * Staking, subscriptions and rewards (dsm_storage_node/src/staking/)

    [subscription.rs] ([Sub]): paid subscription periods, their quotas and usage;
    [rewards.rs] ([Rew]): receipts, reward calculation and reward vaults;
    [mod.rs] ([Service]): the service that owns both.

    Both managers share one [DLVManager] (file [Vault]) behind an [Arc], so that
    their operations act on the pair of that manager and their own state.  The
    std locks are not poisoned, since nothing panics while it holds one.  The
    DSM node that the service asks over HTTP is an interface. *)
From S2P Require Import Prelude Tokens Operations States Sphincs NodeTypes Float Keys Hexa Kyber Pedersen Vault.
Import coqutil.Byte.

(** ** Subscriptions: data *)

Inductive SubscriptionTier := Basic | Standard | Premium | Enterprise.
#[export] Instance SubscriptionTier_eq_dec : EqDecision SubscriptionTier.
Proof. solve_decision. Defined.

Record SubscriptionUsage := mkUsage { us_storage : Z; us_operations : Z; us_bandwidth : Z; us_vaults : Z }.

Record SubscriptionPeriod := mkPeriod {
  sp_id : string; sp_node_id : string; sp_tier : SubscriptionTier; sp_token_id : string; sp_amount_paid : Z;
  sp_start : Z; sp_end : Z; sp_vault_id : string; sp_verified : bool; sp_active : bool; sp_usage : SubscriptionUsage;
  sp_metadata : gmap string string;
}.

Record SubscriptionConfig := mkSubConfig {
  sf_enabled : bool; sf_token_id : string; sf_payment_account : string; sf_public_key : bytes;
  sf_notification_period : Z; sf_grace_period : Z;
}.

(** The channel holds the node ids that were sent and not yet received. *)
Record SubscriptionManager := mkSubManager {
  sm_config : SubscriptionConfig; sm_subscriptions : gmap string SubscriptionPeriod;
  sm_history : gmap string (list string); sm_channel : list string;
}.

Record CreateSubscriptionRequest := mkCreateReq {
  cr_node_id : string; cr_tier : SubscriptionTier; cr_token_id : string; cr_duration : Z;
  cr_vault_id : option string; cr_public_key : bytes; cr_signature : bytes;
}.
Record VerifySubscriptionRequest := mkVerifyReq { vr_id : string; vr_proof : bytes; vr_signature : bytes }.

Record RenewalNotification := mkRenewal {
  rn_node_id : string; rn_subscription_id : string; rn_tier : SubscriptionTier; rn_expiration : Z;
  rn_token_id : string; rn_amount : Z;
}.

(** The content of a payment vault: JSON values, of which only [as_u64] is read. *)
Abbreviation PaymentData := (gmap string (option Z)).

(** [x.ceil() as u64] *)
Definition f64_ceil_to_u64 (x : f64) : Z :=
  match x with
  | S754_finite false m e =>
      Z.min (if 0 <=? e then Z.shiftl (Zpos m) e else (Zpos m + 2 ^ (- e) - 1) / 2 ^ (- e)) u64_max
  | S754_infinity false => u64_max
  | _ => 0
  end.

Module Tier.
Definition monthly_price (t : SubscriptionTier) (token_id : string) : Z :=
  if bool_decide (token_id = "ROOT"%string)
  then match t with Basic => 500000 | Standard => 1500000 | Premium => 5000000 | Enterprise => 20000000 end
  else match t with Basic => 1000 | Standard => 3000 | Premium => 10000 | Enterprise => 50000 end.
Definition storage_quota (t : SubscriptionTier) : Z :=
  match t with Basic => 1073741824 | Standard => 10737418240 | Premium => 107374182400 | Enterprise => 1099511627776 end.
Definition operations_quota (t : SubscriptionTier) : Z :=
  match t with Basic => 1000 | Standard => 10000 | Premium => 100000 | Enterprise => 1000000 end.
Definition bandwidth_quota (t : SubscriptionTier) : Z :=
  match t with Basic => 536870912 | Standard => 5368709120 | Premium => 53687091200 | Enterprise => 536870912000 end.
Definition max_vaults (t : SubscriptionTier) : Z :=
  match t with Basic => 10 | Standard => 100 | Premium => 1000 | Enterprise => 10000 end.
End Tier.

(** ** Rewards: data *)

Record StorageMetrics := mkStorageMetrics {
  mt_bytes : Z; mt_retrievals : Z; mt_operations : Z; mt_uptime : Z; mt_regions : list string; (* in iteration order *)
}.
Record StorageReceipt := mkReceipt {
  rc_node_id : string; rc_client_id : string; rc_start : Z; rc_end : Z; rc_metrics : StorageMetrics;
  rc_hash : bytes; rc_client_signature : bytes; rc_node_signature : bytes;
}.
Record Ratio := mkRatio { raw_value : Z }.
Record RateSchedule := mkSchedule {
  rs_base_rate : Z; rs_retrieval_rate : Z; rs_operation_rate : Z; rs_uptime_multiplier : f64; rs_regions : gmap string f64;
}.
Record VaultMetadata := mkVaultMeta {
  vm_vault_id : string; vm_purpose : string; vm_creator_id : string; vm_token_amount : Z; vm_token_id : string;
  vm_created_at : Z; vm_distribution_time : Z; vm_recipients : gmap string Ratio; vm_status : string;
}.
Record DistributionRequest := mkDistReq { dr_vault_id : string; dr_state : State; dr_timestamp : Z }.
Record DistributionResult := mkDistRes {
  dx_vault_id : string; dx_success : bool; dx_timestamp : Z; dx_error : option string; dx_details : option (gmap string Z);
}.
Record VaultContent := mkVaultContent {
  vc_token_amount : Z; vc_token_id : string; vc_recipients : gmap string Ratio; vc_metadata : gmap string string;
}.
Record RewardVaultManager := mkRewards {
  rw_registry : gmap string VaultMetadata; rw_receipts : gmap string (list StorageReceipt); rw_schedule : RateSchedule;
  rw_queue : list DistributionRequest;
}.

Module Sub.
Section Sub.
Context {B3 : Blake3} {RT : Runtime} {HX : Hex} {S3 : Sha3} {PT : PrimeTest} {AE : Aead} {DO : DashOrder}
  {K768 : Mlkem kem768} {K512 : Mlkem kem512}
  {SO : Bincode Operation} {SB : Bincode Balance} {SP : Bincode PreCommitment}
  {SC : Bincode FulfillmentMechanism} {SF : Bincode FulfillmentProof} {UP : Unbincode PaymentData}.

Abbreviation SubM := (NM (DLVManager * SubscriptionManager)).

Definition new (config : SubscriptionConfig) : SubscriptionManager := mkSubManager config ∅ ∅ [].

Definition set_subs (subs : gmap string SubscriptionPeriod) (s : SubscriptionManager) : SubscriptionManager :=
  mkSubManager (sm_config s) subs (sm_history s) (sm_channel s).
Definition set_history (h : gmap string (list string)) (s : SubscriptionManager) : SubscriptionManager :=
  mkSubManager (sm_config s) (sm_subscriptions s) h (sm_channel s).
Definition set_active (a : bool) (p : SubscriptionPeriod) : SubscriptionPeriod :=
  mkPeriod (sp_id p) (sp_node_id p) (sp_tier p) (sp_token_id p) (sp_amount_paid p) (sp_start p) (sp_end p) (sp_vault_id p)
    (sp_verified p) a (sp_usage p) (sp_metadata p).
Definition set_verified (p : SubscriptionPeriod) : SubscriptionPeriod :=
  mkPeriod (sp_id p) (sp_node_id p) (sp_tier p) (sp_token_id p) (sp_amount_paid p) (sp_start p) (sp_end p) (sp_vault_id p)
    true true (sp_usage p) (sp_metadata p).
Definition set_usage (u : SubscriptionUsage) (p : SubscriptionPeriod) : SubscriptionPeriod :=
  mkPeriod (sp_id p) (sp_node_id p) (sp_tier p) (sp_token_id p) (sp_amount_paid p) (sp_start p) (sp_end p) (sp_vault_id p)
    (sp_verified p) (sp_active p) u (sp_metadata p).

(** A copy with maps of its own and a fresh channel. *)
Definition clone (s : SubscriptionManager) : SubscriptionManager :=
  mkSubManager (sm_config s) (sm_subscriptions s) (sm_history s) [].

Definition generate_subscription_id (config : SubscriptionConfig) (node_id : string) (start fin : Z) : string :=
  "sub_" +:+ hex_encode (blake3 (str_bytes node_id ++ u64_le start ++ u64_le fin ++ str_bytes (sf_token_id config))).

(** [(price as f64 * (duration as f64 / (30.0 * 24.0 * 60.0 * 60.0))).ceil() as u64] *)
Definition total_price (price duration : Z) : Z :=
  let month := f64_mul (f64_mul (f64_mul (f64_of_Z 30) (f64_of_Z 24)) (f64_of_Z 60)) (f64_of_Z 60) in
  f64_ceil_to_u64 (f64_mul (f64_of_Z price) (f64_div (f64_of_Z duration) month)).

(** Run an operation of the vault manager, dropping its [DsmError]. *)
Definition on_vaults {A X E} (f : M DLVManager A) : M_of E (DLVManager * X) (option A) := fun s =>
  match f s.1 with
  | (Ok a, m) => (Ok (Some a), (m, s.2))
  | (Err _, m) => (Ok None, (m, s.2))
  | (Panic, m) => (Panic, (m, s.2))
  | (Hang, m) => (Hang, (m, s.2))
  end.

(** The state after the period was stored and before the vault was looked at. *)
Definition store_period (p : SubscriptionPeriod) (s : SubscriptionManager) : SubscriptionManager :=
  let s := set_subs (<[sp_id p := p]> (sm_subscriptions s)) s in
  set_history (<[sp_node_id p := unwrap_or [] (sm_history s !! sp_node_id p) ++ [sp_id p]]> (sm_history s)) s.

Definition create_subscription (r : CreateSubscriptionRequest) (reference_state : State) : SubM SubscriptionPeriod :=
  let* s := mget in
  let config := sm_config s.2 in
  if negb (sf_enabled config) then mfail (NStaking "Subscriptions not enabled") else
  let* fin := mlift (n_add now (cr_duration r)) in
  let price := Tier.monthly_price (cr_tier r) (cr_token_id r) in
  let id := generate_subscription_id config (cr_node_id r) now fin in
  let p := mkPeriod id (cr_node_id r) (cr_tier r) (cr_token_id r) (total_price price (cr_duration r)) now fin
             (unwrap_or ""%string (cr_vault_id r)) false false (mkUsage 0 0 0 0) ∅ in
  do* mmod (fun s => (s.1, store_period p s.2));
  match cr_vault_id r with
  | Some vault_id =>
      do* on_vaults (DLV.try_unlock_vault vault_id (TimeProof (hash reference_state) []) (cr_public_key r) reference_state);
      mret_st p
  | None => mret_st p
  end.

Definition verify_subscription_payment (r : VerifySubscriptionRequest) (reference_state : State) : SubM bool :=
  let* s := mget in
  let config := sm_config s.2 in
  if negb (sf_enabled config) then mfail (NStaking "Subscriptions not enabled") else
  match sm_subscriptions s.2 !! vr_id r with
  | None => mfail (NNotFound "Subscription {} not found")
  | Some p =>
      if sp_verified p then mret_st true else
      if bool_decide (sp_vault_id p = ""%string) then mfail (NStaking "No payment vault associated with this subscription") else
      let proof := TimeProof (hash reference_state) (vr_proof r) in
      let* unlocked := on_vaults (DLV.try_unlock_vault (sp_vault_id p) proof (sf_public_key config) reference_state) in
      match unlocked with
      | Some true =>
          let* claimed := on_vaults (DLV.claim_vault_content (sp_vault_id p) (sf_public_key config) reference_state) in
          match claimed with
          | Some content =>
              let* data := mlift (ok_or (NSerialization "e.to_string()") (deserialize content)) in
              match (data : PaymentData) !! "amount"%string with
              | Some (Some amount) =>
                  if sp_amount_paid p <=? amount then
                    do* mmod (fun s => (s.1, set_subs (<[sp_id p := set_verified p]> (sm_subscriptions s.2)) s.2));
                    mret_st true
                  else mret_st false
              | _ => mret_st false
              end
          | None => mret_st false
          end
      | _ => mret_st false
      end
  end.

(** The loop over the values of the map; the end of the grace period is computed
    with an overflow check. *)
Fixpoint any_active (grace : Z) (node_id : string) (l : list SubscriptionPeriod) : nout bool :=
  match l with
  | [] => Ok false
  | p :: l =>
      if bool_decide (sp_node_id p = node_id) && sp_active p then
        limit ← n_add (sp_end p) grace;
        if now <=? limit then Ok true else any_active grace node_id l
      else any_active grace node_id l
  end.

Definition has_active_subscription (s : SubscriptionManager) (node_id : string) : nout bool :=
  if negb (sf_enabled (sm_config s)) then Ok true else
  any_active (sf_grace_period (sm_config s)) node_id (dash_iter (sm_subscriptions s)).*2.

Fixpoint latest_active (grace : Z) (node_id : string) (l : list SubscriptionPeriod) (latest : option SubscriptionPeriod)
    : nout (option SubscriptionPeriod) :=
  match l with
  | [] => Ok latest
  | p :: l =>
      if bool_decide (sp_node_id p = node_id) && sp_active p then
        limit ← n_add (sp_end p) grace;
        if now <=? limit then
          latest_active grace node_id l
            (match latest with
             | None => Some p
             | Some q => if sp_end q <? sp_end p then Some p else Some q
             end)
        else latest_active grace node_id l latest
      else latest_active grace node_id l latest
  end.

Definition get_active_subscription (s : SubscriptionManager) (node_id : string) : nout (option SubscriptionPeriod) :=
  if negb (sf_enabled (sm_config s)) then Ok None else
  latest_active (sf_grace_period (sm_config s)) node_id (dash_iter (sm_subscriptions s)).*2 None.

Definition add_usage (u : SubscriptionUsage) (storage operations bandwidth vaults : Z) : nout SubscriptionUsage :=
  st ← (if 0 <=? storage then n_add (us_storage u) storage else Ok (saturating_sub (us_storage u) (- storage)));
  o ← n_add (us_operations u) operations;
  b ← n_add (us_bandwidth u) bandwidth;
  v ← n_add (us_vaults u) vaults;
  Ok (mkUsage st o b v).

Definition update_subscription_usage (node_id : string) (storage operations bandwidth vaults : Z) : NM SubscriptionManager unit :=
  let* s := mget in
  if negb (sf_enabled (sm_config s)) then mret_st tt else
  let* active := mlift (get_active_subscription s node_id) in
  match active with
  | None => mret_st tt
  | Some p =>
      let* u := mlift (add_usage (sp_usage p) storage operations bandwidth vaults) in
      mmod (fun s => set_subs (<[sp_id p := set_usage u p]> (sm_subscriptions s)) s)
  end.

Definition is_within_quota (s : SubscriptionManager) (node_id : string) (storage operations bandwidth vaults : Z) : nout bool :=
  if negb (sf_enabled (sm_config s)) then Ok true else
  active ← get_active_subscription s node_id;
  match active with
  | None => Ok false
  | Some p =>
      st ← n_add (us_storage (sp_usage p)) storage;
      o ← n_add (us_operations (sp_usage p)) operations;
      b ← n_add (us_bandwidth (sp_usage p)) bandwidth;
      v ← n_add (us_vaults (sp_usage p)) vaults;
      Ok ((st <=? Tier.storage_quota (sp_tier p)) && (o <=? Tier.operations_quota (sp_tier p))
          && (b <=? Tier.bandwidth_quota (sp_tier p)) && (v <=? Tier.max_vaults (sp_tier p)))
  end.

(** One period of [check_expired_subscriptions]. *)
Definition expire (grace : Z) (p : SubscriptionPeriod) : nout SubscriptionPeriod :=
  if sp_active p then
    limit ← n_add (sp_end p) grace;
    Ok (if limit <? now then set_active false p else p)
  else Ok p.

(** [values_mut]: the periods in iteration order; what was changed before a
    panic stays changed. *)
Fixpoint expire_all (grace : Z) (l : list (string * SubscriptionPeriod)) : NM SubscriptionManager unit :=
  match l with
  | [] => mret_st tt
  | (k, p) :: l =>
      let* p' := mlift (expire grace p) in
      do* mmod (fun s => set_subs (<[k := p']> (sm_subscriptions s)) s);
      expire_all grace l
  end.

Definition check_expired_subscriptions : NM SubscriptionManager unit :=
  let* s := mget in expire_all (sf_grace_period (sm_config s)) (dash_iter (sm_subscriptions s)).

Definition notification (p : SubscriptionPeriod) : RenewalNotification :=
  mkRenewal (sp_node_id p) (sp_id p) (sp_tier p) (sp_end p) (sp_token_id p) (Tier.monthly_price (sp_tier p) (sp_token_id p)).

(** [try_send] on a channel of capacity 100. *)
Definition try_send (node_id : string) (s : SubscriptionManager) : SubscriptionManager :=
  if (length (sm_channel s) <? 100)%nat
  then mkSubManager (sm_config s) (sm_subscriptions s) (sm_history s) (sm_channel s ++ [node_id]) else s.

Definition send_renewal_notifications (s : SubscriptionManager) : SubscriptionManager :=
  foldl (fun s p =>
    if sp_active p && (saturating_sub (sp_end p) now <=? sf_notification_period (sm_config s))
    then try_send (rn_node_id (notification p)) s else s) s (dash_iter (sm_subscriptions s)).*2.

(** One tick of the monitor task, which owns a [clone] made at initialisation. *)
Definition monitor_tick : NM SubscriptionManager unit :=
  do* check_expired_subscriptions; mmod send_renewal_notifications.

End Sub.
End Sub.

Module Rew.
Section Rew.
Context {B3 : Blake3} {RT : Runtime} {HX : Hex} {S3 : Sha3} {PT : PrimeTest} {AE : Aead} {DO : DashOrder}
  {K768 : Mlkem kem768} {K512 : Mlkem kem512}
  {SO : Bincode Operation} {SB : Bincode Balance} {SP : Bincode PreCommitment}
  {SC : Bincode FulfillmentMechanism} {SF : Bincode FulfillmentProof} {SPC : Bincode PedersenCommitment}
  {SV : Bincode LimboVault} {SVP : Bincode VaultPost} {UVP : Unbincode VaultPost}
  {SVC : Bincode VaultContent} {UVC : Unbincode VaultContent} {SM : Bincode StorageMetrics}.

Abbreviation RewM := (NM (DLVManager * RewardVaultManager)).

(** ** Ratios and rates *)

(** [Ratio::new] asserts that the value is between 0 and 1. *)
Definition ratio_new (value : f64) : nout Ratio :=
  if f64_leb f64_zero value && f64_leb value (f64_of_Z 1)
  then Ok (mkRatio (f64_to_u64 (f64_mul value (f64_of_Z 1000000)))) else Panic.
Definition as_f64 (r : Ratio) : f64 := f64_div (f64_of_Z (raw_value r)) (f64_of_Z 1000000).
(** The product is taken in u128 and the result truncated to u64. *)
Definition apply_to (r : Ratio) (value : Z) : Z := (value * raw_value r / 1000000) mod 2 ^ 64.

Definition calculate (sch : RateSchedule) (duration bytes_stored retrievals : Z) : nout Z :=
  let days := f64_div (f64_of_Z duration) (f64_of_Z 86400) in
  let storage_reward := f64_to_u64 (f64_mul (f64_mul (f64_of_Z (rs_base_rate sch)) (f64_of_Z bytes_stored)) days) in
  retrieval_reward ← n_mul (rs_retrieval_rate sch) retrievals;
  n_add storage_reward retrieval_reward.

Definition default_rate_schedule : RateSchedule := mkSchedule 100 10 5 (f64_of_Z 1) ∅.
Definition new : RewardVaultManager := mkRewards ∅ ∅ default_rate_schedule [].
Definition clone (s : RewardVaultManager) : RewardVaultManager := mkRewards (rw_registry s) (rw_receipts s) (rw_schedule s) [].

Definition set_registry (r : gmap string VaultMetadata) (s : RewardVaultManager) : RewardVaultManager :=
  mkRewards r (rw_receipts s) (rw_schedule s) (rw_queue s).
Definition set_receipts (r : gmap string (list StorageReceipt)) (s : RewardVaultManager) : RewardVaultManager :=
  mkRewards (rw_registry s) r (rw_schedule s) (rw_queue s).
Definition set_queue (q : list DistributionRequest) (s : RewardVaultManager) : RewardVaultManager :=
  mkRewards (rw_registry s) (rw_receipts s) (rw_schedule s) q.

(** ** Reward vaults *)

(** [values().map(raw_value).sum()]: u64 additions with overflow checks. *)
Fixpoint sum_ratios (l : list Ratio) (acc : Z) : nout Z :=
  match l with
  | [] => Ok acc
  | r :: l => acc ← n_add acc (raw_value r); sum_ratios l acc
  end.

(** A vault operation whose [DsmError] becomes a staking error. *)
Definition vault_call {A} (msg : string) (f : M DLVManager A) : RewM A :=
  let* o := Sub.on_vaults f in match o with Some a => mret_st a | None => mfail (NStaking msg) end.

Definition create_reward_vault (fuel : nat) (d : VaultDraws) (pk sk : bytes) (token_amount : Z) (token_id : string)
    (distribution_time : Z) (recipients : gmap string Ratio) (reference_state : State) : RewM string :=
  let* ratio_sum := mlift (sum_ratios (dash_iter recipients).*2 0) in
  if negb ((990000 <=? ratio_sum) && (ratio_sum <=? 1010000)) then mfail (NStaking "Invalid recipient ratios: sum must be 1.0, got {}") else
  let fulfillment := TimeRelease distribution_time [hash reference_state] in
  let* content := mlift (ok_or (NSerialization "e.to_string()") (serialize (mkVaultContent token_amount token_id recipients ∅))) in
  let* vault_id := vault_call "Failed to create vault: {}"
    (DLV.create_vault fuel d pk sk fulfillment content "application/dsm-reward-vault" None reference_state) in
  let* timeout := mlift (n_add distribution_time (86400 * 30)) in
  let* post_bytes := vault_call "Failed to create vault post: {}"
    (DLV.create_vault_post vault_id ("Reward distribution for " +:+ token_id) (Some timeout)) in
  let* post := mlift (ok_or (NSerialization "e.to_string()") (deserialize (T := VaultPost) post_bytes)) in
  let metadata := mkVaultMeta vault_id ("Reward distribution for " +:+ token_id) (hex_encode pk) token_amount token_id now
                    distribution_time recipients (vp_status post) in
  do* mmod (fun s => (s.1, set_queue (rw_queue s.2 ++ [mkDistReq vault_id reference_state distribution_time])
                             (set_registry (<[vault_id := metadata]> (rw_registry s.2)) s.2)));
  mret_st vault_id.

(** ** Receipts *)

Definition receipt_preimage (r : StorageReceipt) (metrics_bytes : bytes) : bytes :=
  str_bytes (rc_node_id r) ++ str_bytes (rc_client_id r) ++ u64_le (rc_start r) ++ u64_le (rc_end r) ++ metrics_bytes.

Definition verify_receipt (r : StorageReceipt) : nout bool :=
  if bool_decide (rc_client_signature r = []) || bool_decide (rc_node_signature r = [])
  then Err (NStaking "Invalid receipt: missing signatures") else
  metrics_bytes ← ok_or (NSerialization "e.to_string()") (serialize (rc_metrics r));
  if negb (bool_decide (blake3 (receipt_preimage r metrics_bytes) = rc_hash r))
  then Err (NStaking "Invalid receipt: hash mismatch") else Ok true.

Definition process_receipt (r : StorageReceipt) : NM RewardVaultManager unit :=
  do* mlift (verify_receipt r);
  mmod (fun s => set_receipts (<[rc_node_id r := unwrap_or [] (rw_receipts s !! rc_node_id r) ++ [r]]> (rw_receipts s)) s).

(** The factor of the regions, multiplied in iteration order. *)
Definition region_multiplier (sch : RateSchedule) (regions : list string) : f64 :=
  foldl (fun m region => match rs_regions sch !! region with Some x => f64_mul m x | None => m end) (f64_of_Z 1) regions.

(** The reward of one receipt for a period that it overlaps. *)
Definition receipt_reward (sch : RateSchedule) (period_start period_end : Z) (r : StorageReceipt) : nout Z :=
  let duration := saturating_sub (Z.min period_end (rc_end r)) (Z.max period_start (rc_start r)) in
  if duration =? 0 then Ok 0 else
  storage_reward ← calculate sch duration (mt_bytes (rc_metrics r)) (mt_retrievals (rc_metrics r));
  let uptime_factor := f64_mul (f64_div (f64_of_Z (mt_uptime (rc_metrics r))) (f64_of_Z 100)) (rs_uptime_multiplier sch) in
  let scaled := f64_to_u64 (f64_mul (f64_of_Z storage_reward) uptime_factor) in
  Ok (f64_to_u64 (f64_mul (f64_of_Z scaled) (region_multiplier sch (mt_regions (rc_metrics r))))).

Fixpoint total_reward (sch : RateSchedule) (period_start period_end : Z) (l : list StorageReceipt) (total : Z) : nout Z :=
  match l with
  | [] => Ok total
  | r :: l =>
      reward ← receipt_reward sch period_start period_end r;
      total ← n_add total reward;
      total_reward sch period_start period_end l total
  end.

Definition overlaps (period_start period_end : Z) (r : StorageReceipt) : bool :=
  (rc_start r <? period_end) && (period_start <? rc_end r).

Definition calculate_node_rewards (s : RewardVaultManager) (node_id : string) (period_start period_end : Z) : nout Z :=
  match rw_receipts s !! node_id with
  | None => Ok 0
  | Some l => total_reward (rw_schedule s) period_start period_end (List.filter (overlaps period_start period_end) l) 0
  end.

Definition update_rate_schedule (sch : RateSchedule) : NM RewardVaultManager unit :=
  mmod (fun s => mkRewards (rw_registry s) (rw_receipts s) sch (rw_queue s)).

Definition get_vaults (s : RewardVaultManager) : nout (list VaultMetadata) := Ok (dash_iter (rw_registry s)).*2.
Definition get_vault (s : RewardVaultManager) (id : string) : nout VaultMetadata :=
  ok_or (NNotFound "Vault {}") (rw_registry s !! id).

(** ** Distribution *)

Definition update_vault_status (id status : string) : RewM unit := fun s =>
  match rw_registry s.2 !! id with
  | Some m => (Ok tt, (s.1, set_registry (<[id := mkVaultMeta (vm_vault_id m) (vm_purpose m) (vm_creator_id m) (vm_token_amount m)
      (vm_token_id m) (vm_created_at m) (vm_distribution_time m) (vm_recipients m) status]> (rw_registry s.2)) s.2))
  | None => (Err (NNotFound "Vault {}"), s)
  end.

Definition failed (id error : string) : DistributionResult := mkDistRes id false now (Some error) None.
Definition claimant_key : bytes := [Byte.x01; Byte.x02; Byte.x03; Byte.x04].

Definition distributions (c : VaultContent) : gmap string Z := (fun r => apply_to r (vc_token_amount c)) <$> vc_recipients c.

Definition process_distribution (r : DistributionRequest) : RewM DistributionResult :=
  let* s := mget in
  let* metadata := mlift (get_vault s.2 (dr_vault_id r)) in
  if now <? vm_distribution_time metadata
  then mret_st (failed (dr_vault_id r) "Not yet time to distribute (scheduled at {})") else
  let proof := TimeProof (hash (dr_state r)) [] in
  let* unlocked := Sub.on_vaults (DLV.try_unlock_vault (dr_vault_id r) proof claimant_key (dr_state r)) in
  match unlocked with
  | Some true =>
      let* claimed := Sub.on_vaults (DLV.claim_vault_content (dr_vault_id r) claimant_key (dr_state r)) in
      match claimed with
      | Some content =>
          let* c := mlift (ok_or (NSerialization "e.to_string()") (deserialize content)) in
          do* update_vault_status (dr_vault_id r) "claimed";
          mret_st (mkDistRes (dr_vault_id r) true now None (Some (distributions c)))
      | None => mret_st (failed (dr_vault_id r) "Failed to claim vault: {}")
      end
  | Some false => mret_st (failed (dr_vault_id r) "Failed to unlock vault: conditions not met")
  | None => mret_st (failed (dr_vault_id r) "Error unlocking vault: {}")
  end.

(** One tick of the distribution task: [queue] is the task's own queue, which
    starts empty and which nothing else can reach.  Returns the results that
    were sent and the new queue. *)
Fixpoint process_all (l : list DistributionRequest) : RewM (list DistributionResult) :=
  match l with
  | [] => mret_st []
  | r :: l => fun s =>
      match process_distribution r s with
      | (Ok x, s') => (let* xs := process_all l in mret_st (x :: xs)) s'
      | (Err _, s') => process_all l s'
      | (Panic, s') => (Panic, s')
      | (Hang, s') => (Hang, s')
      end
  end.
Definition processor_tick (queue : list DistributionRequest) : RewM (list DistributionResult * list DistributionRequest) :=
  let ready := List.filter (fun r => dr_timestamp r <=? now) queue in
  let pending := List.filter (fun r => negb (dr_timestamp r <=? now)) queue in
  let* results := process_all ready in
  mret_st (results, pending).

End Rew.
End Rew.

(** ** The service *)

Record StakingConfig := mkStakingConfig {
  kf_enable_staking : bool; kf_dsm_endpoint : option string; kf_staking_address : option string; kf_auto_compound : bool;
  kf_reward_interval : Z; kf_enable_subscriptions : bool; kf_subscription_token_id : string;
  kf_subscription_payment_account : string; kf_renewal_notification_period : Z; kf_subscription_grace_period : Z;
}.

(** The managers exist once the service is initialised; they share the vaults. *)
Record StakingService := mkService {
  sv_config : StakingConfig; sv_staked : Z; sv_pending : Z; sv_dlv : option DLVManager;
  sv_rewards : option RewardVaultManager; sv_subscriptions : option SubscriptionManager;
}.

Record SubscriptionStatus := mkSubStatus {
  su_enabled : bool; su_tier : option SubscriptionTier; su_period_start : option Z; su_period_end : option Z;
  su_usage : option SubscriptionUsage; su_renewal_needed : bool; su_days_until_expiration : option Z;
}.
Record StakingStatus := mkStatus {
  ss_enabled : bool; ss_staked_amount : Z; ss_pending_rewards : Z; ss_apy : f64; ss_reputation : Z;
  ss_last_reward_time : Z; ss_subscription : option SubscriptionStatus;
}.

(** The answer of the DSM node to a request: no connection, an error status, or
    success, with the parsed body of a query ([None]: not parseable). *)
Inductive Answer (A : Type) := Unreachable | ErrorStatus | Answered (a : A).
Arguments Unreachable {A}.
Arguments ErrorStatus {A}.
Arguments Answered {A} a.
Class DsmNode := {
  get_staking_info : string → Answer (option (Z * Z));         (* url: staked amount, pending rewards *)
  post_staking : string → string → option Z → Answer unit;    (* url, address, amount *)
}.

Module Service.
Section Service.
Context {B3 : Blake3} {RT : Runtime} {HX : Hex} {S3 : Sha3} {PT : PrimeTest} {AE : Aead} {DO : DashOrder} {DN : DsmNode}
  {K768 : Mlkem kem768} {K512 : Mlkem kem512}
  {SO : Bincode Operation} {SB : Bincode Balance} {SP : Bincode PreCommitment}
  {SC : Bincode FulfillmentMechanism} {SF : Bincode FulfillmentProof} {UP : Unbincode PaymentData} {SM : Bincode StorageMetrics}.

Definition new (config : StakingConfig) : StakingService := mkService config 0 0 None None None.

Definition set_amounts (staked pending : Z) (s : StakingService) : StakingService :=
  mkService (sv_config s) staked pending (sv_dlv s) (sv_rewards s) (sv_subscriptions s).
Definition set_managers (d : DLVManager) (r : option RewardVaultManager) (u : option SubscriptionManager) (s : StakingService) : StakingService :=
  mkService (sv_config s) (sv_staked s) (sv_pending s) (Some d) r u.

Definition update_staking_info : NM StakingService unit := fun s =>
  if negb (kf_enable_staking (sv_config s)) then (Ok tt, s) else
  match kf_dsm_endpoint (sv_config s), kf_staking_address (sv_config s) with
  | Some endpoint, Some address =>
      match get_staking_info (endpoint +:+ "/api/staking/info/" +:+ address) with
      | Unreachable => (Err (NStaking "Failed to connect to DSM: {}"), s)
      | ErrorStatus => (Err (NStaking "DSM returned error: {}"), s)
      | Answered None => (Err (NStaking "Failed to parse DSM response: {}"), s)
      | Answered (Some (staked, pending)) => (Ok tt, set_amounts staked pending s)
      end
  | _, _ => (Ok tt, s)
  end.

(** The periodic tasks run on clones of the service, and [clone] reads its
    amounts with [blocking_read], which panics in an asynchronous context, where
    [initialize] runs. *)
Definition setup_periodic_tasks (s : StakingService) : nout unit :=
  if negb (kf_enable_staking (sv_config s)) then Ok tt else Panic.

Definition initialize : NM StakingService unit :=
  let* s := mget in
  let config := sv_config s in
  if negb (kf_enable_staking config) then mret_st tt else
  match kf_dsm_endpoint config with
  | None => mfail (NStaking "Staking enabled but no DSM endpoint provided")
  | Some _ =>
      let subs :=
        if kf_enable_subscriptions config
        then Some (Sub.new (mkSubConfig true (kf_subscription_token_id config) (kf_subscription_payment_account config) []
                              (kf_renewal_notification_period config) (kf_subscription_grace_period config)))
        else sv_subscriptions s in
      do* mmod (set_managers DLV.new (Some Rew.new) subs);
      do* update_staking_info;
      let* s := mget in mlift (setup_periodic_tasks s)
  end.

Definition subscription_status (config : StakingConfig) (m : SubscriptionManager) : nout SubscriptionStatus :=
  active ← Sub.get_active_subscription m (unwrap_or ""%string (kf_staking_address config));
  Ok (match active with
      | Some p =>
          let days := if now <? sp_end p then (sp_end p - now) / 86400 else 0 in
          mkSubStatus true (Some (sp_tier p)) (Some (sp_start p)) (Some (sp_end p)) (Some (sp_usage p)) (days <? 7) (Some days)
      | None => mkSubStatus true None None None None true None
      end).

Definition get_status : NM StakingService StakingStatus :=
  let* s := mget in
  if negb (kf_enable_staking (sv_config s)) then mret_st (mkStatus false 0 0 f64_zero 0 0 None) else
  do* update_staking_info;
  let* s := mget in
  let* sub := mlift (if kf_enable_subscriptions (sv_config s) then
                       match sv_subscriptions s with
                       | Some m => x ← subscription_status (sv_config s) m; Ok (Some x)
                       | None => Ok None
                       end
                     else Ok None) in
  let* last := mlift (n_sub now 3600) in
  mret_st (mkStatus true (sv_staked s) (sv_pending s) (f64_lit 5 100) 100 last sub).

(** The common part of the posts: guards, request, refresh. *)
Definition targets (config : StakingConfig) : nout (string * string) :=
  if negb (kf_enable_staking config) then Err (NStaking "Staking is not enabled") else
  endpoint ← ok_or (NStaking "No DSM endpoint configured") (kf_dsm_endpoint config);
  address ← ok_or (NStaking "No staking address configured") (kf_staking_address config);
  Ok (endpoint, address).

Definition post (url address : string) (amount : option Z) : nout unit :=
  match post_staking url address amount with
  | Unreachable => Err (NStaking "Failed to connect to DSM: {}")
  | ErrorStatus => Err (NStaking "DSM returned error: {}")
  | Answered _ => Ok tt
  end.

Definition stake (amount : Z) : NM StakingService unit :=
  let* s := mget in
  let* target := mlift (targets (sv_config s)) in
  do* mlift (post (target.1 +:+ "/api/staking/stake") target.2 (Some amount));
  update_staking_info.

Definition unstake (amount : Z) : NM StakingService unit :=
  let* s := mget in
  let* target := mlift (targets (sv_config s)) in
  do* mlift (post (target.1 +:+ "/api/staking/unstake") target.2 (Some amount));
  update_staking_info.

Definition claim_rewards : NM StakingService Z :=
  let* s := mget in
  let* target := mlift (targets (sv_config s)) in
  if sv_pending s =? 0 then mret_st 0 else
  do* mlift (post (target.1 +:+ "/api/staking/claim") target.2 None);
  do* update_staking_info;
  mret_st (sv_pending s).

Definition claim_and_restake : NM StakingService Z :=
  let* s := mget in
  let* target := mlift (targets (sv_config s)) in
  if sv_pending s =? 0 then mret_st 0 else
  do* mlift (post (target.1 +:+ "/api/staking/compound") target.2 None);
  do* update_staking_info;
  mret_st (sv_pending s).

(** Calls that the service passes on to a manager. *)
Definition with_rewards {A} (f : NM RewardVaultManager A) : NM StakingService A := fun s =>
  match sv_rewards s with
  | Some r => let '(o, r') := f r in
      (o, mkService (sv_config s) (sv_staked s) (sv_pending s) (sv_dlv s) (Some r') (sv_subscriptions s))
  | None => (Err (NStaking "Reward manager not initialized"), s)
  end.
Definition with_subscriptions {A} (f : NM (DLVManager * SubscriptionManager) A) : NM StakingService A := fun s =>
  match sv_dlv s, sv_subscriptions s with
  | Some d, Some m => let '(o, (d', m')) := f (d, m) in
      (o, mkService (sv_config s) (sv_staked s) (sv_pending s) (Some d') (sv_rewards s) (Some m'))
  | _, _ => (Err (NStaking "Subscription manager not initialized"), s)
  end.

Definition process_receipt (r : StorageReceipt) : NM StakingService unit := with_rewards (Rew.process_receipt r).
Definition update_rate_schedule (sch : RateSchedule) : NM StakingService unit := with_rewards (Rew.update_rate_schedule sch).

Definition has_active_subscription (s : StakingService) (node_id : string) : nout bool :=
  if negb (kf_enable_subscriptions (sv_config s)) then Ok true else
  match sv_subscriptions s with Some m => Sub.has_active_subscription m node_id | None => Ok true end.

Definition create_subscription (r : CreateSubscriptionRequest) (reference_state : State) : NM StakingService SubscriptionPeriod :=
  let* s := mget in
  if negb (kf_enable_subscriptions (sv_config s)) then mfail (NStaking "Subscriptions not enabled") else
  with_subscriptions (Sub.create_subscription r reference_state).

Definition verify_subscription_payment (r : VerifySubscriptionRequest) (reference_state : State) : NM StakingService bool :=
  let* s := mget in
  if negb (kf_enable_subscriptions (sv_config s)) then mfail (NStaking "Subscriptions not enabled") else
  with_subscriptions (Sub.verify_subscription_payment r reference_state).

Definition update_subscription_usage (node_id : string) (storage operations bandwidth vaults : Z) : NM StakingService unit := fun s =>
  if negb (kf_enable_subscriptions (sv_config s)) then (Ok tt, s) else
  match sv_subscriptions s with
  | Some m => let '(o, m') := Sub.update_subscription_usage node_id storage operations bandwidth vaults m in
      (o, mkService (sv_config s) (sv_staked s) (sv_pending s) (sv_dlv s) (sv_rewards s) (Some m'))
  | None => (Ok tt, s)
  end.

Definition is_within_quota (s : StakingService) (node_id : string) (storage operations bandwidth vaults : Z) : nout bool :=
  if negb (kf_enable_subscriptions (sv_config s)) then Ok true else
  match sv_subscriptions s with
  | Some m => Sub.is_within_quota m node_id storage operations bandwidth vaults
  | None => Ok true
  end.

End Service.
End Service.

(** ** Properties *)

Section Facts.
Context {B3 : Blake3} {RT : Runtime} {HX : Hex} {S3 : Sha3} {PT : PrimeTest} {AE : Aead} {DO : DashOrder} {DN : DsmNode}
  {K768 : Mlkem kem768} {K512 : Mlkem kem512}
  {SO : Bincode Operation} {SB : Bincode Balance} {SP : Bincode PreCommitment}
  {SC : Bincode FulfillmentMechanism} {SF : Bincode FulfillmentProof} {UP : Unbincode PaymentData}
  {UVC : Unbincode VaultContent} {SM : Bincode StorageMetrics}.

(** A vault operation leaves the manager beside the vaults alone. *)
Lemma on_vaults_snd {A X E} (f : M DLVManager A) (s : DLVManager * X) : (Sub.on_vaults (E := E) f s).2.2 = s.2.
Proof. unfold Sub.on_vaults. by destruct (f s.1) as [[] ?]. Qed.

Lemma on_vaults_claim {X E} id who ref (s : DLVManager * X) o s' :
  Sub.on_vaults (E := E) (DLV.claim_vault_content id who ref) s = (Ok o, s') → o = None.
Proof.
  unfold Sub.on_vaults. pose proof (claim_content_fails id who ref s.1) as H.
  destruct (DLV.claim_vault_content id who ref s.1) as [[] m]; cbn in H; try done. by intros [= <- _].
Qed.

(** *** Subscriptions *)

Definition unpaid (s : SubscriptionManager) : Prop :=
  ∀ id p, sm_subscriptions s !! id = Some p → sp_active p = false ∧ sp_verified p = false.

Lemma unpaid_insert s id p : unpaid s → sp_active p = false → sp_verified p = false →
  unpaid (Sub.set_subs (<[id := p]> (sm_subscriptions s)) s).
Proof.
  intros Hs Ha Hv j q. cbn. destruct (decide (j = id)) as [->|Hne].
  - rewrite lookup_insert_eq. by intros [= <-].
  - rewrite lookup_insert_ne by done. apply Hs.
Qed.

Lemma any_active_unpaid grace node l : Forall (fun p => sp_active p = false) l → Sub.any_active grace node l = Ok false.
Proof. induction 1 as [|p l Hp _ IH]; [done|]. cbn [Sub.any_active]. by rewrite Hp, andb_false_r. Qed.

Lemma latest_active_unpaid grace node l : Forall (fun p => sp_active p = false) l → Sub.latest_active grace node l None = Ok None.
Proof. induction 1 as [|p l Hp _ IH]; [done|]. cbn [Sub.latest_active]. by rewrite Hp, andb_false_r. Qed.

Lemma unpaid_values s : unpaid s → Forall (fun p => sp_active p = false) (dash_iter (sm_subscriptions s)).*2.
Proof.
  intros Hs. apply Forall_forall. intros p ([k q] & -> & Hin)%list_elem_of_fmap. apply elem_of_iter in Hin. by apply (Hs k).
Qed.

Lemma create_unpaid r ref (s : DLVManager * SubscriptionManager) : unpaid s.2 → unpaid (Sub.create_subscription r ref s).2.2.
Proof.
  intros Hs. unfold Sub.create_subscription, mbind_st, mget, mlift, mmod, mret_st, mfail.
  destruct (negb _); [done|]. destruct (n_add _ _) as [fin| | |]; try done. cbn [fst snd].
  set (p := mkPeriod _ _ _ _ _ _ _ _ _ _ _ _).
  assert (unpaid (Sub.store_period p s.2)) as Hp by (by apply (unpaid_insert s.2 (sp_id p) p)).
  destruct (cr_vault_id r) as [v|]; [|done].
  pose proof (on_vaults_snd (E := StorageNodeError) (DLV.try_unlock_vault v (TimeProof (hash ref) []) (cr_public_key r) ref)
    (s.1, Sub.store_period p s.2)) as Heq. cbn [snd] in Heq.
  destruct (Sub.on_vaults _ _) as [[] s']; cbn [snd] in *; by rewrite Heq.
Qed.

(** Verifying a payment changes no subscription. *)
Lemma verify_unpaid r ref (s : DLVManager * SubscriptionManager) : unpaid s.2 →
  (Sub.verify_subscription_payment r ref s).2.2 = s.2 ∧ (Sub.verify_subscription_payment r ref s).1 ≠ Ok true.
Proof.
  intros Hs. unfold Sub.verify_subscription_payment, mbind_st, mget, mlift, mmod, mret_st, mfail.
  destruct (negb _); [done|]. destruct (sm_subscriptions s.2 !! vr_id r) as [p|] eqn:Ep; [|done].
  destruct (Hs _ _ Ep) as [_ ->]. case_bool_decide; [done|].
  match goal with |- context [Sub.on_vaults ?f s] => pose proof (on_vaults_snd (E := StorageNodeError) f s) as H1; destruct (Sub.on_vaults f s) as [[o| | |] s1] end;
    cbn [snd] in H1; cbn [fst snd]; try done.
  destruct o as [[]|]; [|done..]. cbn [fst snd].
  match goal with |- context [Sub.on_vaults ?f s1] => pose proof (on_vaults_snd (E := StorageNodeError) f s1) as H2;
    destruct (Sub.on_vaults (E := StorageNodeError) f s1) as [[o| | |] s2] eqn:E2 end; cbn [snd] in H2; cbn [fst snd]; rewrite ?H2; try done.
  apply on_vaults_claim in E2 as ->. cbn. by rewrite H2.
Qed.

Lemma usage_unpaid node a b c d s : unpaid s → (Sub.update_subscription_usage node a b c d s).2 = s.
Proof.
  intros Hs. unfold Sub.update_subscription_usage, mbind_st, mget, mlift, mret_st. destruct (negb _) eqn:En; [done|].
  unfold Sub.get_active_subscription. rewrite En. by rewrite latest_active_unpaid by (by apply unpaid_values).
Qed.

Lemma expire_unpaid grace l s : unpaid s → Forall (fun kp => sp_active kp.2 = false ∧ sp_verified kp.2 = false) l →
  unpaid (Sub.expire_all grace l s).2 ∧ sm_config (Sub.expire_all grace l s).2 = sm_config s.
Proof.
  intros Hs Hl. revert s Hs. induction Hl as [|[k p] l [Ha Hv] _ IH]; intros s Hs; [done|].
  cbn [Sub.expire_all]. unfold mbind_st, mlift, mmod. unfold Sub.expire. cbn [snd] in *. rewrite Ha. cbn [fst snd].
  destruct (IH (Sub.set_subs (<[k := p]> (sm_subscriptions s)) s)) as [H1 H2]; [by apply unpaid_insert|]. by split.
Qed.

Lemma notify_same s : sm_subscriptions (Sub.send_renewal_notifications s) = sm_subscriptions s ∧
  sm_config (Sub.send_renewal_notifications s) = sm_config s.
Proof.
  unfold Sub.send_renewal_notifications. generalize (dash_iter (sm_subscriptions s)).*2 as l. intros l. revert s.
  induction l as [|p l IH]; intros s; [done|]. cbn [foldl].
  match goal with |- context [foldl _ ?s' l] => destruct (IH s') as [-> ->] end. unfold Sub.try_send. by repeat case_match.
Qed.

Lemma tick_unpaid s : unpaid s → unpaid (Sub.monitor_tick s).2 ∧ sm_config (Sub.monitor_tick s).2 = sm_config s.
Proof.
  intros Hs. unfold Sub.monitor_tick, Sub.check_expired_subscriptions, mbind_st, mget, mmod.
  destruct (expire_unpaid (sf_grace_period (sm_config s)) (dash_iter (sm_subscriptions s)) s Hs) as [Hu Hc].
  { apply Forall_forall. intros [k p] Hin. apply elem_of_iter in Hin. by apply (Hs k). }
  destruct (Sub.expire_all _ _ s) as [[] s']; cbn [snd] in *; try done.
  destruct (notify_same s') as [H1 H2]. rewrite H2. split; [|done]. intros id p. rewrite H1. apply Hu.
Qed.

Inductive sub_step : DLVManager * SubscriptionManager → DLVManager * SubscriptionManager → Prop :=
  | step_create r ref s : sub_step s (Sub.create_subscription r ref s).2
  | step_verify r ref s : sub_step s (Sub.verify_subscription_payment r ref s).2
  | step_usage node a b c d vaults m : sub_step (vaults, m) (vaults, (Sub.update_subscription_usage node a b c d m).2)
  | step_tick vaults m : sub_step (vaults, m) (vaults, (Sub.monitor_tick m).2)
  | step_vaults vaults vaults' m : sub_step (vaults, m) (vaults', m).

Lemma create_config r ref (s : DLVManager * SubscriptionManager) : sm_config (Sub.create_subscription r ref s).2.2 = sm_config s.2.
Proof.
  unfold Sub.create_subscription, mbind_st, mget, mlift, mmod, mret_st, mfail.
  destruct (negb _); [done|]. destruct (n_add _ _) as [fin| | |]; try done. cbn [fst snd].
  set (p := mkPeriod _ _ _ _ _ _ _ _ _ _ _ _). destruct (cr_vault_id r) as [v|]; [|done].
  match goal with |- context [Sub.on_vaults ?f ?t] => pose proof (on_vaults_snd (E := StorageNodeError) f t) as H1; destruct (Sub.on_vaults f t) as [[] s1] end;
    cbn [snd] in *; by rewrite H1.
Qed.

Lemma step_unpaid s s' : unpaid s.2 → sub_step s s' → unpaid s'.2 ∧ sm_config s'.2 = sm_config s.2.
Proof.
  intros Hs H. revert Hs. destruct H as [r ref t|r ref t|node a b c d vaults m|vaults m|vaults vaults' m]; intros Hs.
  - split; [by apply create_unpaid|apply create_config].
  - by destruct (verify_unpaid r ref t Hs) as [-> _].
  - cbn [snd] in *. by rewrite usage_unpaid.
  - by apply tick_unpaid.
  - done.
Qed.

Lemma steps_unpaid s s' : unpaid s.2 → rtc sub_step s s' → unpaid s'.2 ∧ sm_config s'.2 = sm_config s.2.
Proof.
  intros Hs Hr. revert Hs. induction Hr as [s|s t u Hst _ IH]; intros Hs; [done|].
  destruct (step_unpaid s t Hs Hst) as [Ht Hc]. destruct (IH Ht) as [Hu Hcu]. split; [done|]. by rewrite Hcu.
Qed.

(** With subscriptions enabled, no sequence of subscription requests, payment
    verifications, usage updates, monitor ticks and arbitrary changes of the
    vaults ever activates a subscription: verifying a payment has to claim the
    payment vault, which always fails.  Hence no node ever has an active
    subscription or is within a quota, and no payment is ever verified. *)
Theorem no_subscription_activates (config : SubscriptionConfig) (d d' : DLVManager) (m : SubscriptionManager)
    (He : sf_enabled config = true) (Hr : rtc sub_step (d, Sub.new config) (d', m)) (node : string) :
  Sub.has_active_subscription m node = Ok false ∧ Sub.get_active_subscription m node = Ok None ∧
  (∀ a b c e, Sub.is_within_quota m node a b c e = Ok false) ∧
  (∀ r ref, (Sub.verify_subscription_payment r ref (d', m)).1 ≠ Ok true).
Proof.
  destruct (steps_unpaid (d, Sub.new config) (d', m)) as [Hu Hc]; [|done|].
  { intros id p. cbn. by rewrite lookup_empty. }
  cbn [snd] in *. change (sm_config m = config) in Hc. pose proof (unpaid_values m Hu) as Hv.
  assert (Sub.get_active_subscription m node = Ok None) as Hn.
  { unfold Sub.get_active_subscription. rewrite Hc, He. by apply latest_active_unpaid. }
  split_and!; [|done| |].
  - unfold Sub.has_active_subscription. rewrite Hc, He. by apply any_active_unpaid.
  - intros a b c e. unfold Sub.is_within_quota. by rewrite Hc, He, Hn.
  - intros r ref. by apply verify_unpaid.
Qed.

(** *** Rewards *)

(** A distribution that is processed never pays: it ends in an error or in
    a result without success and without amounts, because the content of the
    reward vault cannot be claimed. *)
Theorem distribution_never_pays (r : DistributionRequest) (s : DLVManager * RewardVaultManager) :
  match Rew.process_distribution r s with
  | (Ok x, s') => dx_success x = false ∧ dx_details x = None ∧ s'.2 = s.2
  | (_, s') => s'.2 = s.2
  end.
Proof.
  unfold Rew.process_distribution, mbind_st, mget, mlift, mret_st. destruct (Rew.get_vault s.2 _) as [v| | |]; try done.
  destruct (now <? _); [done|].
  match goal with |- context [Sub.on_vaults ?f s] => pose proof (on_vaults_snd (E := StorageNodeError) f s) as H1; destruct (Sub.on_vaults f s) as [[o| | |] s1] end;
    cbn [snd] in H1; try done.
  destruct o as [[]|]; [|done..].
  match goal with |- context [Sub.on_vaults ?f s1] => pose proof (on_vaults_snd (E := StorageNodeError) f s1) as H2;
    destruct (Sub.on_vaults (E := StorageNodeError) f s1) as [[o| | |] s2] eqn:E2 end; cbn [snd] in H2; rewrite ?H2; try done.
  apply on_vaults_claim in E2 as ->. cbn. by rewrite H2.
Qed.

Definition total (m : gmap string Z) : Z := foldr Z.add 0 (map_to_list m).*2.
Definition ratio_total (m : gmap string Ratio) : Z := foldr Z.add 0 (raw_value <$> (map_to_list m).*2).

Lemma apply_bounds r a : 0 ≤ raw_value r → 0 ≤ a → 1000000 * Rew.apply_to r a ≤ a * raw_value r.
Proof.
  intros Hr Ha. unfold Rew.apply_to. assert (0 ≤ a * raw_value r) by nia.
  assert (0 ≤ a * raw_value r / 1000000) by (apply Z.div_pos; lia).
  pose proof (Z.mod_le (a * raw_value r / 1000000) (2 ^ 64) ltac:(lia) ltac:(lia)).
  pose proof (Z.mul_div_le (a * raw_value r) 1000000 ltac:(lia)). lia.
Qed.

Lemma apply_lower r a : 0 ≤ raw_value r ≤ 1000000 → 0 ≤ a ≤ u64_max → a * raw_value r - 1000000 < 1000000 * Rew.apply_to r a.
Proof.
  unfold u64_max. intros Hr Ha. unfold Rew.apply_to. assert (0 ≤ a * raw_value r ≤ a * 1000000) by nia.
  rewrite Z.mod_small.
  - pose proof (Z.mul_succ_div_gt (a * raw_value r) 1000000 ltac:(lia)). lia.
  - split; [apply Z.div_pos; lia|]. apply Z.div_lt_upper_bound; lia.
Qed.

Lemma applied_total l a : Forall (fun r => 0 ≤ raw_value r ≤ 1000000) l → 0 ≤ a ≤ u64_max →
  a * foldr Z.add 0 (raw_value <$> l) - 1000000 * Z.of_nat (length l) ≤ 1000000 * foldr Z.add 0 ((fun r => Rew.apply_to r a) <$> l)
  ≤ a * foldr Z.add 0 (raw_value <$> l).
Proof.
  intros Hl Ha. induction Hl as [|r l Hr _ IH]; [cbn; lia|]. rewrite !fmap_cons. cbn [foldr length].
  pose proof (apply_bounds r a ltac:(lia) ltac:(lia)). pose proof (apply_lower r a Hr Ha). lia.
Qed.

(** The amounts a reward vault's content distributes: they differ from the
    share of the ratios in the token amount by less than one token for each
    recipient, and never exceed it.  Ratios that sum to one million thus pay out
    at most the token amount; the sums up to 1.01 million that the creation of a
    vault accepts can pay out one per cent more than there is. *)
Theorem distribution_amounts (c : VaultContent)
    (Hr : map_Forall (fun _ r => 0 ≤ raw_value r ≤ 1000000) (vc_recipients c)) (Ha : 0 ≤ vc_token_amount c ≤ u64_max) :
  let share := vc_token_amount c * ratio_total (vc_recipients c) in
  share - 1000000 * Z.of_nat (size (vc_recipients c)) ≤ 1000000 * total (Rew.distributions c) ≤ share ∧
  (ratio_total (vc_recipients c) ≤ 1000000 → total (Rew.distributions c) ≤ vc_token_amount c).
Proof.
  intros share. assert (Forall (fun r => 0 ≤ raw_value r ≤ 1000000) (map_to_list (vc_recipients c)).*2) as Hl.
  { apply Forall_forall. intros r ([k q] & -> & Hin)%list_elem_of_fmap. apply elem_of_map_to_list in Hin. by apply (Hr k). }
  pose proof (applied_total _ (vc_token_amount c) Hl Ha) as H. rewrite length_fmap, length_map_to_list in H.
  assert (total (Rew.distributions c) = foldr Z.add 0 ((fun r => Rew.apply_to r (vc_token_amount c)) <$> (map_to_list (vc_recipients c)).*2)) as Ht.
  { unfold total, Rew.distributions. rewrite map_to_list_fmap. f_equal. rewrite <-!list_fmap_compose. by apply list_fmap_ext; intros ? [? ?]. }
  rewrite <-Ht in H. fold (ratio_total (vc_recipients c)) in H. subst share. split; [done|]. intros Hs. nia.
Qed.

Lemma total_reward_app sch a b l r t x y : Rew.total_reward sch a b l t = Ok x → Rew.receipt_reward sch a b r = Ok y → x + y ≤ u64_max →
  Rew.total_reward sch a b (l ++ [r]) t = Ok (x + y).
Proof.
  revert t. induction l as [|q l IH]; intros t; cbn [Rew.total_reward app].
  - intros [= <-] Hy Hm. rewrite Hy. cbn [mbind outcome_bind]. by rewrite (proj2 (n_add_Ok t y (t + y))).
  - intros (w & -> & (t' & Ht & H)%bind_Ok)%bind_Ok Hy Hm. cbn [mbind outcome_bind]. rewrite Ht. cbn [mbind outcome_bind]. by apply IH.
Qed.

(** Receipts are not single use: a receipt that was accepted is accepted
    again, and each acceptance adds its reward to what the node has earned in a
    period that the receipt overlaps. *)
Theorem receipt_replayable (r : StorageReceipt) (s s1 : RewardVaultManager) (a b x w : Z)
    (H1 : Rew.process_receipt r s = (Ok tt, s1)) (Hx : Rew.calculate_node_rewards s (rc_node_id r) a b = Ok x)
    (Ho : Rew.overlaps a b r = true) (Hw : Rew.receipt_reward (rw_schedule s) a b r = Ok w) (Hm : 0 ≤ w ∧ x + w + w ≤ u64_max) :
  Rew.calculate_node_rewards s1 (rc_node_id r) a b = Ok (x + w) ∧
  ∃ s2, Rew.process_receipt r s1 = (Ok tt, s2) ∧ Rew.calculate_node_rewards s2 (rc_node_id r) a b = Ok (x + w + w).
Proof.
  assert (∀ t y, Rew.calculate_node_rewards t (rc_node_id r) a b = Ok y → rw_schedule t = rw_schedule s → y + w ≤ u64_max →
    Rew.calculate_node_rewards (Rew.set_receipts (<[rc_node_id r := unwrap_or [] (rw_receipts t !! rc_node_id r) ++ [r]]> (rw_receipts t)) t)
      (rc_node_id r) a b = Ok (y + w)) as Hstep.
  { intros t y Hy Hs Hyw. unfold Rew.calculate_node_rewards in *. cbn [rw_receipts rw_schedule Rew.set_receipts]. rewrite lookup_insert_eq, Hs in *.
    rewrite List.filter_app. cbn [List.filter]. rewrite Ho. destruct (rw_receipts t !! rc_node_id r) as [l|]; cbn [unwrap_or List.filter] in *.
    - by apply total_reward_app.
    - injection Hy as <-. by apply (total_reward_app _ _ _ []). }
  unfold Rew.process_receipt, mbind_st, mlift, mmod in *.
  destruct (Rew.verify_receipt r) as [v| | |]; try done. injection H1 as <-.
  split; [apply Hstep; [done|done|lia]|]. eexists. split; [done|]. apply Hstep; [|done|lia]. apply Hstep; [done|done|lia].
Qed.

(** A service with staking enabled never gets through its initialisation: it
    has no endpoint, or the first query of the DSM node fails, or the set-up of
    the periodic tasks panics, because it clones the service with a blocking read
    in an asynchronous context. *)
Theorem staking_never_initialises (s : StakingService) (He : kf_enable_staking (sv_config s) = true) :
  is_ok (Service.initialize s).1 = false.
Proof.
  unfold Service.initialize, mbind_st, mget, mret_st, mfail, mmod, mlift. rewrite He. cbn [negb].
  destruct (kf_dsm_endpoint (sv_config s)) as [e|] eqn:Ee; [|done].
  unfold Service.update_staking_info, Service.setup_periodic_tasks. cbn [Service.set_managers sv_config]. rewrite He, Ee. cbn [negb].
  destruct (kf_staking_address (sv_config s)) as [a|]; [|cbn; by rewrite He].
  destruct (get_staking_info _) as [| |[[x y]|]]; try done. cbn. by rewrite He.
Qed.

End Facts.

(** ** Witnesses *)

Module StakingWitness.
Section StakingWitness.
#[local] Existing Instances Toy.toy_blake3 Toy.toy_runtime ToyHex.toy_hex ToyPed.toy_sha3 ToyPed.toy_prime ToyKem.toy_aead
  ToyKem.toy_kem768 ToyKem.toy_kem512 toy_bincode_operation ToySt.toy_bincode_balance ToySt.toy_bincode_precommitment.
#[local] Instance toy_order : DashOrder := {| dash_iter A := map_to_list; dash_iter_perm A m := reflexivity _ |}.
#[local] Instance toy_condition : Bincode FulfillmentMechanism := fun _ => Some [].
#[local] Instance toy_proof : Bincode FulfillmentProof := fun _ => Some [].
#[local] Instance toy_payment : Unbincode PaymentData := fun _ => Some {["amount"%string := Some 1000]}.
#[local] Instance toy_metrics : Bincode StorageMetrics := fun m => Some (u64_le (mt_bytes m)).
#[local] Instance toy_node : DsmNode :=
  {| get_staking_info _ := Answered (Some (100, 5)); post_staking _ _ _ := Answered tt |}.

Definition config : SubscriptionConfig := mkSubConfig true "ROOT" "account" [] 604800 259200.
Definition request : CreateSubscriptionRequest := mkCreateReq "node" Basic "ROOT" 2592000 None [] [].

Lemma no_subscription_activates_witness : ∃ m,
  rtc sub_step (∅, Sub.new config) (∅, m) ∧ size (sm_subscriptions m) = 1%nat ∧ Sub.has_active_subscription m "node" = Ok false.
Proof.
  set (m := (Sub.create_subscription request ToySt.genesis (∅, Sub.new config)).2.2).
  assert (rtc sub_step (∅, Sub.new config) (∅, m)) as Hr.
  { apply rtc_once. assert ((∅, m) = (Sub.create_subscription request ToySt.genesis (∅, Sub.new config)).2) as -> by (vm_compute; reflexivity).
    constructor. }
  exists m. split; [exact Hr|]. split; [vm_compute; reflexivity|].
  exact (proj1 (no_subscription_activates config ∅ ∅ m eq_refl Hr "node")).
Defined.

Definition content : VaultContent :=
  mkVaultContent 1000 "ROOT" (<["a"%string := mkRatio 333333]> {["b"%string := mkRatio 666667]}) ∅.

Lemma distribution_amounts_witness : total (Rew.distributions content) ≤ 1000.
Proof.
  assert (map_Forall (fun _ r => 0 ≤ raw_value r ≤ 1000000) (vc_recipients content)) as Hr.
  { apply map_Forall_insert_2; [cbn; lia|]. apply map_Forall_singleton. cbn. lia. }
  assert (0 ≤ vc_token_amount content ≤ u64_max) as Ha by (vm_compute; split; discriminate).
  refine (proj2 (distribution_amounts content Hr Ha) _). vm_compute. discriminate.
Defined.

(** Over-distribution: an accepted sum of ratios that pays 1010 of 1000 tokens. *)
Example overpaid : total (Rew.distributions (mkVaultContent 1000 "ROOT" (<["a"%string := mkRatio 510000]> {["b"%string := mkRatio 500000]}) ∅)) = 1010.
Proof. vm_compute. reflexivity. Qed.

Definition metrics : StorageMetrics := mkStorageMetrics 10 3 0 100 [].
Definition receipt (h : bytes) : StorageReceipt := mkReceipt "node" "client" 0 86400 metrics h [Byte.x01] [Byte.x02].
Definition signed : StorageReceipt := receipt (blake3 (Rew.receipt_preimage (receipt []) (u64_le 10))).
Definition accepted : RewardVaultManager := (Rew.process_receipt signed Rew.new).2.

Lemma receipt_replayable_witness : ∃ s2, Rew.process_receipt signed accepted = (Ok tt, s2) ∧
  Rew.calculate_node_rewards s2 "node" 0 86400 = Ok 2060.
Proof.
  refine (proj2 (receipt_replayable signed Rew.new accepted 0 86400 0 1030 _ _ _ _ _)).
  - vm_compute. reflexivity.
  - vm_compute. reflexivity.
  - vm_compute. reflexivity.
  - vm_compute. reflexivity.
  - vm_compute. split; discriminate.
Defined.

Lemma staking_never_initialises_witness :
  is_ok (Service.initialize (Service.new (mkStakingConfig true (Some "http://dsm"%string) (Some "addr"%string) false 60 false "" "" 0 0))).1 = false.
Proof. apply (staking_never_initialises (Service.new _)). reflexivity. Defined.

End StakingWitness.
End StakingWitness.
